(* ===== verification/_CoqProject ===== *)
-Q . S2P
Prelude.v
Protocol.v
Crc.v
EventCodec.v
Validate.v
SdmRequestState.v
GatewayContract.v
SdmSequence.v
AtlControl.v
AtlSafety.v
AtlRefinement.v
DeliveryFailSafe.v
Staging.v
Sender.v
SenderSafety.v
Gateway.v
GatewaySafety.v
GatewayCallback.v
Float32.v
SpatialCorrelation.v
FusionEngine.v
FusionSafety.v
FusionHealth.v
EventManager.v
EventManagerSafety.v
Rpc.v
RpcSafety.v
RpcLoss.v
RpcInput.v
PsdLink.v
PsdLinkSafety.v
Threads.v
PlcPacket.v
SdmCore.v
SdmRules.v
SdmSafety.v
Proximity.v
Text.v
SensorConfig.v
AtlStartup.v
ProximityConfig.v
ProximityRuns.v
Junction.v
JunctionSafety.v
PairFusion.v
PairFusionSafety.v
AtlProximity.v
SdmInstances.v
SdmSiblings.v
SdmLink.v
SdmLinkSafety.v
SdmLinkRuns.v
SdmLinkInstances.v
TransportConfig.v
Transport.v
TransportOpen.v
TransportSteps.v
TransportOpened.v
TransportSafety.v
TransportFds.v
TransportPeers.v
TransportLink.v
TransportRecv.v
TransportRuns.v
Pcm.v
PcmVerdict.v
PcmSafety.v
PcmTrust.v
PcmHealth.v
PcmConfig.v
PcmDvm.v
PcmDvmSafety.v
PcmJson.v
PcmJsonSafety.v
PcmRuns.v
