(* ===== verification/Prelude.v ===== *)
(** * Safety Core of the outside-in safety system

    The program.  Cameras and AI pipelines report safety events to the daemon of
    the Physical Safety System (PSS), which tracks the trust in its sources,
    fuses events of several pipelines, stages the results in two lanes and sends
    them as decision requests to a gateway.  The gateway numbers the requests per
    client, filters them by subscription and fans them out to the decision makers
    (SDMs): ATL decides about muting, proximity and ATL-proximity about motion near
    persons, the crossing-junction monitor about a siren.  Each turns requests into
    commands for its PLC, with latches that only an operator's release clears.
    Faults of every link are turned into events or latches of the next one.  All
    paths below are under [src/safety-core].

    ** Files and the code they model

    - [Prelude]: machine integers with their wrap-around, byte strings, the list
      lemmas and the tactics shared by all files ([bool_prop], [cases], the hint
      database [safety_core]).
    - [Protocol]: the wire structures and enumerations
      ([components/event-integrator/daemon/include/pss_protocol.h]) and their
      byte layout; a [float] is its bit pattern.
    - [Crc], [Validate]: CRC-32, its stamp and check, and the validators
      ([components/safecomm/validation/src/pss_message_validate.c]).
    - [SdmRequestState], [SdmSequence]: the rules every decision maker applies to
      a request and to the gateway's sequence numbers
      ([decision-makers/common/sdm_decision_request_state.h],
      [sdm_gateway_decision_sequence.hpp], [sdm_decision_freshness.hpp]).
    - [GatewayContract]: registration, packets, observation of request ids and the
      records the gateway synthesises
      ([components/protocols/decision-maker-gateway/include/NvPSDGatewayContract.hpp],
      [NvPSDGatewayProtocol.h]).
    - [Gateway], [GatewaySafety], [GatewayCallback]: the client table, its critical
      sections, the fan-out, the callback on a PSS request, registration and
      heartbeats ([src/NvPSDGateway.cpp] of the same component).
    - [AtlControl], [AtlSafety], [AtlRefinement]: the ATL decision maker
      ([decision-makers/atl/sdm/ATLControl.cpp]) in a state monad whose
      [interfere] steps are the watchdog threads.
    - [DeliveryFailSafe], [Staging], [Sender], [SenderSafety]: request ids,
      overflow latch, staging lanes and the sender thread
      ([components/event-integrator/daemon]: [NvPSSDeliveryFailSafe.hpp] and the
      sending half of [NvPSSSafetyEventManager.cpp]).
    - [Float32], [SpatialCorrelation], [FusionEngine], [FusionSafety]: binary32
      arithmetic, the discrete Fréchet distance and the fusion engine
      ([NvPSSSpatialCorrelation.cpp], [NvPSSSafetyEventFusion.cpp] of the daemon).
    - [FusionHealth]: the two-thread fault latch of the fusion stages and their
      audit episodes ([NvPSSSafetyEventManager.hpp]).
    - [EventManager], [EventManagerSafety]: trust reports, group verdicts, source
      validation and the two event loops (the receiving half of
      [NvPSSSafetyEventManager.cpp]).
    - [EventCodec], [Rpc], [RpcSafety], [RpcLoss], [RpcInput]: the client interface
      of the daemon ([NvPSSDRPC.cpp]): registration, heartbeats and their monitor,
      reports and the runs of rejected ones, the published presence and input
      masks.  A slot of the table holds what the class keeps in maps keyed by
      client id.
    - [PsdLink], [PsdLinkSafety]: the daemon's link to the gateway
      ([NvPSSDToPSD.cpp]): calls that wait in a mailbox for their response, the
      server thread and shutdown, as interleaved steps.
    - [Threads]: programs of atomic steps, a pool of threads that runs them, and
      rely-guarantee rules for such programs.
    - [PlcPacket]: the 64-byte PLC command packet and its table-driven CRC-32
      ([decision-makers/proximity/include/proximity_cmd_pkt.h]).
    - [SdmCore], [SdmRules], [SdmSafety]: what the proximity, crossing-junction and
      ATL-proximity processes share, from
      [decision-makers/proximity/sdm/ccplex/ProximityControl.cpp]: the shared state
      [Sdm], every handler as a program of [Threads], the two mutexes; the class
      [SdmApp] is what the application adds (its verdict, its state on a release).
    - [Proximity], [ProximityRuns]: the proximity application and runs of its
      process.
    - [Junction], [JunctionSafety]: the crossing-junction application
      ([CrossingJunctionSafetyControl.cpp]): zones, debounced levels, verdicts and
      the checks of its launch arguments.
    - [PairFusion], [PairFusionSafety], [AtlProximity]: the pair table
      ([atl_proximity_pair_fusion.h]) and the ATL-proximity application
      ([AtlProximityControl.cpp]).
    - [SdmInstances], [SdmSiblings]: these two processes as instances of [SdmCore];
      each definition is the copy of one function in the sibling's source file.
    - [SdmLink], [SdmLinkSafety], [SdmLinkRuns], [SdmLinkInstances]: the gateway
      link of a decision maker (transport handle, registration, heartbeat
      acknowledgement, listener) as a tree of calls of the transport, and its
      copies in the four processes.
    - [Text], [SensorConfig], [ProximityConfig], [AtlStartup]: configuration files
      ([components/common/sensor_config], [sdm_reviewed_sensor_set.hpp],
      [proximity_sdm_config.cpp], [atl_sdm_config.cpp]), the event bindings and the
      launch checks of ATL.
    - [TransportConfig], [Transport], [TransportOpen]: the message transport of all
      processes ([components/safecomm/transport/src/nvpsf_transport.c]): its
      configuration and allow-list; peer slots with generations, admission rate,
      poll, receive and send; opening and closing.  A poll is two steps, so that
      other calls fall between them.  [TransportSteps] reduces every call to
      primitive steps; [TransportOpened], [TransportSafety], [TransportFds],
      [TransportPeers] and [TransportRecv] prove properties of runs of calls,
      [TransportLink] connects them with [PsdLink], [TransportRuns] holds runs.
    - [Pcm], [PcmVerdict], [PcmSafety], [PcmTrust]: the fault aggregator of the
      perception monitor and its reports to PSS
      ([components/perception-monitor/src]: [pcm_fault_aggregator.cpp],
      [pcm_event_reporter.cpp]), and its effect on [EventManager].
    - [PcmHealth], [PcmJson], [PcmJsonSafety]: the container-health check
      ([container_health_checker.cpp]), the extractors of its replies
      ([json_extract.cpp], [inspectContainer] of [docker_client.cpp]).
    - [PcmConfig]: the settings of the monitor ([readMonitorConfig] of
      [perception_monitor.cpp]).
    - [PcmDvm], [PcmDvmSafety]: the data-validation monitor in ACTIVE
      ([data_validation_monitor.cpp]).  [PcmRuns] holds runs of the monitor.

    A state is a record with the fields of the code, an operation a function with
    the name of the C++ function, returning the new state and what the code
    returns or sends.  Code that runs under one mutex is one step; where the code
    releases a mutex between two reads, the model takes the steps of the other
    threads as an argument ([interfere] of [AtlControl], [between] of [Gateway],
    the schedules of [Sender], [DeliveryFailSafe], [FusionHealth] and [PsdLink]).
    The handlers of [SdmCore] are split at every access to shared state: a step of
    [Threads] is one atomic access, one mutex operation or one send.

    ** What the theorems show

    - ATL: every MUTE is sent with no latch and no active fault; latches are
      cleared only by an accepted release; a lost or unusable source keeps the
      release denied; the request handler refines the shared evaluator.
    - Proximity, crossing junction, ATL-proximity: in every interleaving, once the
      threads are idle, a latched state has the hold as the last command sent; a
      latch bit is cleared only inside an accepted release; active faults are
      latched; the two mutexes cannot deadlock.  The proximity command is the worst
      case of its batch, the ATL-proximity command that of the newest live
      observation of each pair; the siren is raised at once and released in bounded
      time.
    - Links of the decision makers: one transport handle at a time, registration
      before waiting on a new one, heartbeats acknowledged in every round; what the
      proximity process registers for is what it arbitrates.
    - Start-up: the loaders accept exactly what the control layers accept; the
      reviewed sensor mask is that of the file; a started ATL process is bound as
      its files say.
    - Messages: validators accept exactly the protocol's messages; burst
      corruption is rejected; everything the sender and the gateway transmit is
      accepted by the receivers.
    - Gateway: sequence numbers show a gap exactly when a packet was lost; the
      filter equals its specification; a recovery record is owed until the
      transport took one; silent clients are reclaimed.
    - Staging and sender: bounds, order and accounting of the lanes; one status
      stamp per request id; alternation of the lanes; the overflow stands until
      it was told.
    - Fusion: no event is lost or duplicated as long as ids are distinct; nothing
      waits longer than the time window; fused events come from different
      pipelines; the dynamic program computes the Fréchet distance; the health
      fault is not lost under any interleaving.
    - Routing: the decision makers hold the verdict of the sensor group; suspect
      events are treated the same with fusion on and off; standing verdicts are
      said again.
    - Client interface: the presence mask is exact; a source that was present and
      no longer is, or that falls silent, is reported lost by the next server pass;
      only the server's own faults and validated, authorised events reach the input
      queue, unchanged; standing rejections are published.
    - Link to the gateway: the outcome of a call is the truth, no waiting call is
      stranded, every call returns in four own steps.
    - Transport: an endpoint implements a set of peers, and what a poll reports is
      what the link to the gateway relies on; an id whose peer is gone reaches
      nobody; descriptors balance; no connection is starved; opening leaves the
      path of a running server alone; the allow-list admits exactly its blocks.
    - Perception monitor: the verdict is exactly what the history of ticks says and
      PSS holds it; a check that was lost must report good again; a container fault
      stands until the container is healthy; the extractors agree with the tree of
      a reply and refuse a cut one; a window's verdict follows from what it
      received; a frame that passes can be used; settings that load are accepted.
    - Divergences from what the comments promise are stated as theorems of their
      own (repeated event ids, interleaved retries, cleared delivery errors,
      abandoned reports, colliding ids of synthesised faults, late and repeated
      registrations, a release of which only one response is delivered, an
      acknowledgement replayed on a new link, a pair dropped from a full table,
      sensor names longer than their array, a denied source reported once only,
      VALID repeated while every check is stuck).

    ** Bounds and fuel

    Loops over arrays and queues are structural.  [draw_id] has fuel 3, proved
    enough; [extend_iterations] runs the number of iterations of the code's own
    bound; [send_loop] is bounded by the retry budget; the extractors of [PcmJson]
    have the length of their slice, proved enough.  The endless loops of
    [SdmLink] take a number of rounds and end in [Cut], and the theorems hold of
    every number; a run of [Threads] is any finite schedule.  Integers wrap at the width
    of their C type wherever the code can overflow them.

    ** Parameters

    [std::exp], the order [std::sort] gives to ties, the iteration order of hash
    tables, clock readings, what the kernel, Docker and Kafka answer and the
    schedule of the threads.  Theorems quantify over them; the hypotheses about them are that
    sorting permutes, that an iteration visits every key once, that the transport
    names a valid peer with a connection or a request, and that the kernel hands out
    descriptors that are not open.  The loss theorems
    of [RpcLoss] are about runs in which a client registers once per connection and
    the server makes a pass between two ticks of the heartbeat monitor.

    ** Not modelled

    System calls themselves (their outcomes are inputs) and the older wrappers of
    sockets and queues, creation and joining of threads, the configuration and the
    process of the daemon, the client library [psscom], command lines, log text, the
    overlay copies of PLC commands and acknowledgement statistics, GPU and video
    processing ([ai-monitor]), generated protobuf code and message-bus glue, the
    black box, Python tools and simulation; of the perception monitor, LEARN and the
    baseline files (they need the decimal conversion of [strtod]), the HTTP exchange
    with Docker and the Kafka consumer.  What is left of the program's own logic is
    the client library, the daemon's configuration parser and the baseline files;
    the rest is input and output.  Atomic accesses are sequentially consistent, and
    the fusion engine's unlocked read of its queues is modelled as if it held their
    mutex. *)

From stdpp Require Export base tactics numbers list gmap sorting.
From Stdlib Require Export ZArith Lia Btauto.
From Stdlib Require Ascii String.
Export String.StringSyntax.

#[global] Open Scope Z_scope.
#[global] Set Warnings "-clear-no-such-hyp".

(** ** Machine integers

    A fixed-width unsigned integer is a [Z]; the wrap-around of an arithmetic
    result is written out with the functions below. *)

Definition UINT8_MAX : Z := 255.
Definition UINT16_MAX : Z := 65535.
Definition UINT32_MAX : Z := 4294967295.
Definition UINT64_MAX : Z := 18446744073709551615.

Definition u8 (z : Z) : Z := z mod 2 ^ 8.
Definition u16 (z : Z) : Z := z mod 2 ^ 16.
Definition u32 (z : Z) : Z := z mod 2 ^ 32.
Definition u64 (z : Z) : Z := z mod 2 ^ 64.

(** [~x] on a [uint32_t]. *)
Definition u32_not (z : Z) : Z := Z.lxor z UINT32_MAX.

Definition is_u8 (z : Z) : Prop := 0 <= z < 2 ^ 8.
Definition is_u16 (z : Z) : Prop := 0 <= z < 2 ^ 16.
Definition is_u32 (z : Z) : Prop := 0 <= z < 2 ^ 32.
Definition is_u64 (z : Z) : Prop := 0 <= z < 2 ^ 64.
Definition is_i32 (z : Z) : Prop := - 2 ^ 31 <= z < 2 ^ 31.

Lemma u32_range z : is_u32 (u32 z).
Proof. apply Z.mod_pos_bound. lia. Qed.

Lemma u64_range z : is_u64 (u64 z).
Proof. apply Z.mod_pos_bound. lia. Qed.

Lemma u8_range z : is_u8 (u8 z).
Proof. apply Z.mod_pos_bound. lia. Qed.

Lemma u8_small z : is_u8 z -> u8 z = z.
Proof. apply Z.mod_small. Qed.

Lemma u32_small z : is_u32 z -> u32 z = z.
Proof. apply Z.mod_small. Qed.

Lemma u64_small z : is_u64 z -> u64 z = z.
Proof. apply Z.mod_small. Qed.

(** ** Bits of masks

    Masks are compared bit by bit.  [zbits] proves an equality of two masks
    from the truth table of each bit. *)

Lemma u32_not_spec z i :
  is_u32 z -> 0 <= i < 32 -> Z.testbit (u32_not z) i = negb (Z.testbit z i).
Proof.
  intros Hz Hi. unfold u32_not. rewrite Z.lxor_spec.
  change UINT32_MAX with (Z.ones 32).
  rewrite Z.ones_spec_low by lia. by destruct (Z.testbit z i).
Qed.

Lemma testbit_u32_high z i : is_u32 z -> 32 <= i -> Z.testbit z i = false.
Proof.
  intros Hz Hi. destruct (decide (z = 0)) as [->|Hne]; [apply Z.testbit_0_l|].
  apply Z.bits_above_log2; [destruct Hz; lia|].
  assert (Z.log2 z < 32); [|lia]. apply Z.log2_lt_pow2; destruct Hz; lia.
Qed.

Lemma bits_zero_u32 z :
  is_u32 z -> (forall i, 0 <= i < 32 -> Z.testbit z i = false) -> z = 0.
Proof.
  intros Hz H. apply Z.bits_inj'. intros i Hi. rewrite Z.testbit_0_l.
  destruct (decide (i < 32)); [apply H; lia|apply testbit_u32_high; [done|lia]].
Qed.

(** Closure of the widths under the bit operations: a value below [2^n] has
    no bit at or above [n]. *)

Lemma range_by_bits z n :
  0 <= n -> 0 <= z -> (forall i, n <= i -> Z.testbit z i = false) -> z < 2 ^ n.
Proof.
  intros Hn Hz H. destruct (decide (z = 0)) as [->|]; [lia|].
  apply Z.log2_lt_pow2; [lia|].
  destruct (decide (Z.log2 z < n)) as [|Hge]; [done|].
  specialize (H (Z.log2 z) ltac:(lia)).
  rewrite Z.bit_log2 in H by lia. done.
Qed.

Lemma testbit_range_high z n i : 0 <= z < 2 ^ n -> n <= i -> Z.testbit z i = false.
Proof.
  intros [H0 Hlt] Hi. destruct (decide (z = 0)) as [->|]; [apply Z.testbit_0_l|].
  apply Z.bits_above_log2; [lia|].
  enough (Z.log2 z < n) by lia. apply Z.log2_lt_pow2; lia.
Qed.

Lemma lor_range a b n : 0 <= n -> 0 <= a < 2 ^ n -> 0 <= b < 2 ^ n -> 0 <= Z.lor a b < 2 ^ n.
Proof.
  intros Hn Ha Hb. split; [apply Z.lor_nonneg; lia|].
  apply range_by_bits; [done|apply Z.lor_nonneg; lia|].
  intros i Hi. rewrite Z.lor_spec, (testbit_range_high a n), (testbit_range_high b n); done.
Qed.

Lemma lxor_range a b n : 0 <= n -> 0 <= a < 2 ^ n -> 0 <= b < 2 ^ n -> 0 <= Z.lxor a b < 2 ^ n.
Proof.
  intros Hn Ha Hb. assert (0 <= Z.lxor a b) by (apply Z.lxor_nonneg; lia).
  split; [done|]. apply range_by_bits; [done..|].
  intros i Hi. rewrite Z.lxor_spec, (testbit_range_high a n), (testbit_range_high b n); done.
Qed.

Lemma land_range a b n : 0 <= n -> 0 <= a < 2 ^ n -> 0 <= b -> 0 <= Z.land a b < 2 ^ n.
Proof.
  intros Hn Ha Hb. assert (0 <= Z.land a b) by (apply Z.land_nonneg; lia).
  split; [done|]. apply range_by_bits; [done..|].
  intros i Hi. rewrite Z.land_spec, (testbit_range_high a n); done.
Qed.

Lemma shiftr_range a k n : 0 <= n -> 0 <= k -> 0 <= a < 2 ^ n -> 0 <= Z.shiftr a k < 2 ^ n.
Proof.
  intros Hn Hk Ha. assert (0 <= Z.shiftr a k) by (apply Z.shiftr_nonneg; lia).
  split; [done|]. rewrite Z.shiftr_div_pow2 by done.
  apply Z.le_lt_trans with a; [|lia]. apply Z.div_le_upper_bound; [lia|].
  assert (1 <= 2 ^ k) by (apply (Z.pow_le_mono_r 2 0 k); lia). nia.
Qed.

Lemma u32_not_range z : is_u32 z -> is_u32 (u32_not z).
Proof. intros Hz. apply lxor_range; [lia|done|unfold UINT32_MAX; lia]. Qed.

Lemma lor_eq_0 a b : Z.lor a b = 0 <-> a = 0 /\ b = 0.
Proof. apply Z.lor_eq_0_iff. Qed.

(** ** Bytes and C strings

    A character array is the list of its bytes. *)

Fixpoint bytes_of_string (s : String.string) : list Z :=
  match s with
  | String.EmptyString => []
  | String.String c s' => Z.of_N (Ascii.N_of_ascii c) :: bytes_of_string s'
  end.

Arguments bytes_of_string s%_string_scope.

Definition is_byte (z : Z) : Prop := is_u8 z.

(** [strnlen]: bytes before the first NUL, at most the whole buffer. *)
Fixpoint strnlen (s : list Z) : nat :=
  match s with
  | [] => 0%nat
  | c :: s' => if c =? 0 then 0%nat else S (strnlen s')
  end.

(** The C string held by a buffer. *)
Definition c_str (s : list Z) : list Z := take (strnlen s) s.

(** [strncpy(dst, src, n)]: the [n] bytes written, NUL padded. *)
Definition strncpy (src : list Z) (n : nat) : list Z :=
  let s := take n (c_str src) in s ++ replicate (n - length s) 0.

(** [snprintf(dst, n, "%s", s)] into a zeroed buffer of [n] bytes. *)
Definition snprintf_s (s : list Z) (n : nat) : list Z :=
  let t := take (n - 1) (c_str s) in t ++ replicate (n - length t) 0.

Lemma strnlen_le s : (strnlen s <= length s)%nat.
Proof. induction s as [|c s IH]; simpl; [done|]. case_match; lia. Qed.

Lemma strncpy_length src n : length (strncpy src n) = n.
Proof. unfold strncpy. rewrite length_app, length_replicate, length_take. lia. Qed.

Lemma snprintf_s_length s n : (1 <= n)%nat -> length (snprintf_s s n) = n.
Proof. intros Hn. unfold snprintf_s. rewrite length_app, length_replicate, length_take. lia. Qed.

(** ** Lists *)

(** Remove the first element satisfying [p]: the scan-and-[erase] loop. *)
Fixpoint erase_first {A} (p : A -> bool) (l : list A) : list A :=
  match l with
  | [] => []
  | x :: l' => if p x then l' else x :: erase_first p l'
  end.

Lemma erase_first_sublist {A} (p : A -> bool) l : erase_first p l `sublist_of` l.
Proof.
  induction l as [|x l IH]; simpl; [done|].
  case_match; [by apply sublist_cons|by apply sublist_skip].
Qed.

Lemma erase_first_length_le {A} (p : A -> bool) l : (length (erase_first p l) <= length l)%nat.
Proof. apply sublist_length, erase_first_sublist. Qed.

Lemma filter_keeps_all {A} (P : A -> Prop) `{!forall x, Decision (P x)} l : Forall P l -> filter P l = l.
Proof. induction 1; [done|]. rewrite filter_cons_True by done. by f_equal. Qed.

Lemma filter_none {A} (P : A -> Prop) `{!forall x, Decision (P x)} l : Forall (fun x => ~ P x) l -> filter P l = [].
Proof. induction 1; [done|]. by rewrite filter_cons_False. Qed.

Lemma Forall_sublist_of {A} (P : A -> Prop) l k : l `sublist_of` k -> Forall P k -> Forall P l.
Proof. intros Hs HP. apply Forall_forall. intros x Hx. eapply Forall_forall; [exact HP|]. by eapply elem_of_sublist. Qed.

Lemma sorted_sublist {A} (R : A -> A -> Prop) l k : l `sublist_of` k -> StronglySorted R k -> StronglySorted R l.
Proof.
  induction 1 as [|x l k Hs IH|x l k Hs IH]; [done|..]; inversion_clear 1; [|by apply IH].
  constructor; [by apply IH|]. by eapply Forall_sublist_of.
Qed.

Lemma ordpairs_sublist {A} (R : A -> A -> Prop) l k : l `sublist_of` k -> ForallOrdPairs R k -> ForallOrdPairs R l.
Proof.
  induction 1 as [|x l k Hs IH|x l k Hs IH]; [done|..]; inversion_clear 1; [|by apply IH].
  constructor; [|by apply IH]. by eapply Forall_sublist_of.
Qed.

Lemma ordpairs_snoc {A} (R : A -> A -> Prop) l x :
  ForallOrdPairs R l -> Forall (fun y => R y x) l -> ForallOrdPairs R (l ++ [x]).
Proof.
  induction 1 as [|y l Hy Hl IH]; intros Hx; cbn; [by repeat constructor|]. inversion_clear Hx.
  constructor; [|by apply IH]. apply Forall_app. by split; [|constructor].
Qed.

Lemma ordpairs_app {A} (R : A -> A -> Prop) l1 l2 :
  ForallOrdPairs R (l1 ++ l2) <->
  ForallOrdPairs R l1 /\ ForallOrdPairs R l2 /\ Forall (fun x => Forall (R x) l2) l1.
Proof.
  induction l1 as [|x l1 IH]; cbn.
  - split; [intros H; split_and!; [constructor|done|constructor]|tauto].
  - split.
    + inversion_clear 1 as [|? ? Hx H']. apply IH in H' as (? & ? & ?). apply Forall_app in Hx as [? ?].
      split_and!; [by constructor|done|by constructor].
    + intros (H1 & H2 & H3). inversion_clear H1. inversion_clear H3.
      constructor; [by apply Forall_app|]. by apply IH.
Qed.

Lemma fold_left_ind {A B} (P : A -> Prop) (f : A -> B -> A) (l : list B) a :
  P a -> (forall a b, b ∈ l -> P a -> P (f a b)) -> P (fold_left f l a).
Proof.
  revert a. induction l as [|b l IH]; simpl; intros a Ha Hstep; [done|].
  apply IH; [apply Hstep; [left|done]|].
  intros a' b' Hb'. apply Hstep. by right.
Qed.

Lemma foldl_inv {A B} (P : A -> Prop) (f : A -> B -> A) (l : list B) a :
  P a -> (forall a b, P a -> P (f a b)) -> P (foldl f a l).
Proof. revert a. induction l as [|b l IH]; simpl; intros a Ha Hstep; [done|]. apply IH; auto. Qed.

Lemma existsb_elem_of {A} (p : A -> bool) (l : list A) :
  existsb p l = true <-> exists x, x ∈ l /\ p x = true.
Proof.
  rewrite existsb_exists. split; intros (x & Hx & Hp); exists x; (split; [|done]).
  - by apply list_elem_of_In.
  - by apply list_elem_of_In.
Qed.

(** ** Automation

    [core_simpl] splits boolean tests in hypotheses and goal; the hint
    database [safety_core] collects the range and preservation lemmas. *)

Create HintDb safety_core.
#[export] Hint Resolve u8_range u32_range u64_range u32_not_range : safety_core.

Ltac bool_prop :=
  repeat match goal with
  | H : _ && _ = true |- _ => apply andb_true_iff in H; destruct H
  | H : _ || _ = false |- _ => apply orb_false_iff in H; destruct H
  | H : negb _ = true |- _ => apply negb_true_iff in H
  | H : negb _ = false |- _ => apply negb_false_iff in H
  | H : (_ =? _) = true |- _ => apply Z.eqb_eq in H
  | H : (_ =? _) = false |- _ => apply Z.eqb_neq in H
  | H : (_ <? _) = true |- _ => apply Z.ltb_lt in H
  | H : (_ <? _) = false |- _ => apply Z.ltb_ge in H
  | H : (_ <=? _) = true |- _ => apply Z.leb_le in H
  | H : (_ <=? _) = false |- _ => apply Z.leb_gt in H
  end.

Ltac cases :=
  repeat (case_match; simplify_eq/=; bool_prop); simplify_eq/=.
