(* ===== verification/Protocol.v ===== *)
(** * Wire protocol

    The data of [pss_protocol.h] shared by the daemon, the gateway and the
    decision makers.  A C enumeration that travels in a message is kept as the
    [int] it is on the wire (the receiver's validator is what rejects values
    outside the enumeration); a [float] is its 32-bit pattern, decoded by
    [f32_value] where the code compares it; a fixed array is a list whose
    length is part of the well-formedness predicates at the end. *)

From S2P Require Import Prelude.
From Stdlib Require Export Floats.SpecFloat.

Abbreviation EventType := Z (only parsing).
Abbreviation EventCause := Z (only parsing).
Abbreviation SeverityLevel := Z (only parsing).
Abbreviation OperationalMode := Z (only parsing).
Abbreviation SafetyEventStatus := Z (only parsing).
Abbreviation ObjectType := Z (only parsing).
Abbreviation f32 := Z (only parsing).

Definition MAX_SENSORS_DATA_SUMMARY_SIZE : Z := 8.
Definition MAX_TRAJECTORY_COORDINATES : nat := 10.
Definition MAX_INDENTIFIER_LENGTH : nat := 64.
Definition MAX_SUPPORTED_PIPELINES : Z := 8.
Definition PSS_SCHEMA_VERSION : Z := 5.

(** No peer of the transport. *)
Definition NVPSF_PEER_INVALID : Z := UINT32_MAX.

(** The result of a transport call. *)
Inductive NvPSFTransportErr :=
  | NVPSF_TRANSPORT_OK | NVPSF_TRANSPORT_WOULD_BLOCK | NVPSF_TRANSPORT_PEER_GONE | NVPSF_TRANSPORT_TRUNCATED
  | NVPSF_TRANSPORT_TIMEOUT | NVPSF_TRANSPORT_DENIED | NVPSF_TRANSPORT_INVALID_ARG | NVPSF_TRANSPORT_FAIL.

#[export] Instance TransportErr_eq_dec : EqDecision NvPSFTransportErr.
Proof. solve_decision. Defined.

(** ** EventType *)

Definition EVENT_0 : EventType := 0.
Definition EVENT_23 : EventType := 23.
Definition SW_FAIL : EventType := 24.
Definition EVENT_UNKNOWN : EventType := 25.
Definition SENSOR_INVALID : EventType := 26.
Definition SENSOR_VALID : EventType := 27.
Definition AI_PIPELINE_INVALID : EventType := 28.
Definition AI_PIPELINE_VALID : EventType := 29.
Definition PSS_STATUS_NOOP : EventType := 30.

(** ** ObjectType, severity, mode, status *)

Definition PERSON : ObjectType := 7.
Definition OBJECT : ObjectType := 9.

Definition OPERATIONAL : SeverityLevel := 0.
Definition CRITICAL : SeverityLevel := 1.

Definition NORMAL : OperationalMode := 0.
Definition DEGRADED : OperationalMode := 1.
Definition ERROR : OperationalMode := 2.

Definition FUSED : SafetyEventStatus := 0.
Definition PASSTHROUGH : SafetyEventStatus := 1.
Definition STALE : SafetyEventStatus := 2.
Definition UNKNOWN : SafetyEventStatus := 3.

(** ** EventCause *)

Definition CAUSE_NONE : EventCause := 0.
Definition CAUSE_SAIM_INIT : EventCause := 1.
Definition CAUSE_SAIM_INPUT_DEGRADED : EventCause := 2.
Definition CAUSE_SAIM_INTERNAL_ERROR : EventCause := 3.
Definition CAUSE_SAIM_STREAM_DISCONNECT : EventCause := 4.
Definition CAUSE_SAIM_FRAME_DROP : EventCause := 5.
Definition CAUSE_SAIM_UNKNOWN : EventCause := 6.
Definition CAUSE_SAIM_SENSOR_HEALTHY : EventCause := 7.
Definition CAUSE_HEARTBEAT_FAULT : EventCause := 8.
Definition CAUSE_GATEWAY_SEQUENCE_GAP : EventCause := 9.
Definition CAUSE_PSS_REQUEST_SEQUENCE_GAP : EventCause := 10.
Definition CAUSE_PSS_REQUEST_ID_INVALID : EventCause := 11.
Definition CAUSE_PSS_ERROR : EventCause := 12.
Definition CAUSE_CLIENT_INPUT_UNUSABLE : EventCause := 13.
Definition CAUSE_PSS_COMM_RECOVERED : EventCause := 14.
Definition CAUSE_SAFETY_MONITOR_LOST : EventCause := 15.
Definition CAUSE_SOURCE_PRESENCE : EventCause := 16.
Definition CAUSE_PERCEPTION_MONITOR_LOST : EventCause := 17.
Definition CAUSE_MDX_CLIENT_LOST : EventCause := 18.
Definition CAUSE_COUNT : EventCause := 19.

(** ** Presence and input-state masks *)

Definition PSS_PRESENCE_SAFETY_MONITOR : Z := 0x1.
Definition PSS_PRESENCE_PERCEPTION_MONITOR : Z := 0x2.
Definition PSS_PRESENCE_MDX_MASK : Z := 0xFF00.
Definition PSS_PRESENCE_MDX_INSTANCE (k : Z) : Z :=
  if (1 <=? k) && (k <=? 8) then Z.shiftl 0x100 (k - 1) else 0.
Definition PSS_INPUT_ANONYMOUS_CLIENT : Z := 0x4.
Definition PSS_INPUT_STATE_MASK : Z :=
  Z.lor (Z.lor (Z.lor PSS_PRESENCE_SAFETY_MONITOR PSS_PRESENCE_PERCEPTION_MONITOR)
               PSS_INPUT_ANONYMOUS_CLIENT) PSS_PRESENCE_MDX_MASK.
Definition PSS_INPUT_STATE_SHIFT : Z := 16.

(** ** Structures *)

Record TrajectoryCoordinates := { tc_x : f32; tc_y : f32 }.

Record EventFusionMetadata := {
  fm_coordinates : list TrajectoryCoordinates;
  fm_pipelineID : Z;
  fm_clientID : Z;
  fm_objectType : ObjectType * ObjectType;
  fm_speed : f32;
  fm_objectID : Z * Z;
}.

Record MessageIntegrity := { mi_schemaVersion : Z; mi_crc32 : Z }.

Record SafetyEvent := {
  se_id : Z;
  se_sensorIdentifier : list Z;
  se_type : EventType;
  se_timestamp : Z;
  se_confidenceLevel : f32;
  se_processed : bool;
  se_fusionMetadata : EventFusionMetadata;
  se_cause : EventCause;
  se_integrity : MessageIntegrity;
}.

Record FusedSafetyEvent := {
  ev_id : Z;
  ev_sensorIdentifier : list Z;
  ev_type : EventType;
  ev_cause : EventCause;
  ev_severity : SeverityLevel;
  ev_timestamp : Z;
  ev_confidenceLevel : f32;
  ev_status : SafetyEventStatus;
  ev_fusionMetadata : EventFusionMetadata;
}.

Record SensorData := {
  sd_clientID : Z;
  sd_isHealthy : bool;
  sd_isTrustedSource : bool;
  sd_event : FusedSafetyEvent;
}.

Record SystemStatus := {
  st_hardwareErrorFlag : bool;
  st_softwareErrorFlag : bool;
  st_mode : OperationalMode;
}.

Record DecisionRequest := {
  dr_requestId : Z;
  dr_sensorDataSummarySize : Z;
  dr_sensorDataSummary : list SensorData;
  dr_pssStatus : SystemStatus;
  dr_integrity : MessageIntegrity;
}.

Record DecisionResponse := {
  rsp_decisionId : Z;
  rsp_action : Z;
  rsp_confidenceLevel : f32;
}.

(** Zero-initialised structures ([memset(.., 0, ..)] and [= {}]). *)

Definition zero_coordinates : TrajectoryCoordinates := {| tc_x := 0; tc_y := 0 |}.

Definition zero_metadata : EventFusionMetadata := {|
  fm_coordinates := replicate MAX_TRAJECTORY_COORDINATES zero_coordinates;
  fm_pipelineID := 0; fm_clientID := 0; fm_objectType := (0, 0);
  fm_speed := 0; fm_objectID := (0, 0) |}.

Definition zero_integrity : MessageIntegrity := {| mi_schemaVersion := 0; mi_crc32 := 0 |}.

Definition zero_SafetyEvent : SafetyEvent := {|
  se_id := 0; se_sensorIdentifier := replicate MAX_INDENTIFIER_LENGTH 0;
  se_type := 0; se_timestamp := 0; se_confidenceLevel := 0; se_processed := false;
  se_fusionMetadata := zero_metadata; se_cause := 0; se_integrity := zero_integrity |}.

Definition zero_event : FusedSafetyEvent := {|
  ev_id := 0; ev_sensorIdentifier := replicate MAX_INDENTIFIER_LENGTH 0;
  ev_type := 0; ev_cause := 0; ev_severity := 0; ev_timestamp := 0;
  ev_confidenceLevel := 0; ev_status := 0; ev_fusionMetadata := zero_metadata |}.

Definition zero_sensorData : SensorData := {|
  sd_clientID := 0; sd_isHealthy := false; sd_isTrustedSource := false;
  sd_event := zero_event |}.

Definition zero_status : SystemStatus := {|
  st_hardwareErrorFlag := false; st_softwareErrorFlag := false; st_mode := 0 |}.

Definition zero_request : DecisionRequest := {|
  dr_requestId := 0; dr_sensorDataSummarySize := 0;
  dr_sensorDataSummary := replicate (Z.to_nat MAX_SENSORS_DATA_SUMMARY_SIZE) zero_sensorData;
  dr_pssStatus := zero_status; dr_integrity := zero_integrity |}.

(** ** Field updates *)

Definition set_dr_integrity (i : MessageIntegrity) (r : DecisionRequest) : DecisionRequest := {|
  dr_requestId := dr_requestId r; dr_sensorDataSummarySize := dr_sensorDataSummarySize r;
  dr_sensorDataSummary := dr_sensorDataSummary r; dr_pssStatus := dr_pssStatus r;
  dr_integrity := i |}.

Definition set_dr_pssStatus (s : SystemStatus) (r : DecisionRequest) : DecisionRequest := {|
  dr_requestId := dr_requestId r; dr_sensorDataSummarySize := dr_sensorDataSummarySize r;
  dr_sensorDataSummary := dr_sensorDataSummary r; dr_pssStatus := s;
  dr_integrity := dr_integrity r |}.

Definition set_dr_requestId (i : Z) (r : DecisionRequest) : DecisionRequest := {|
  dr_requestId := i; dr_sensorDataSummarySize := dr_sensorDataSummarySize r;
  dr_sensorDataSummary := dr_sensorDataSummary r; dr_pssStatus := dr_pssStatus r;
  dr_integrity := dr_integrity r |}.

Definition set_dr_sensorDataSummary (l : list SensorData) (r : DecisionRequest) : DecisionRequest := {|
  dr_requestId := dr_requestId r; dr_sensorDataSummarySize := dr_sensorDataSummarySize r;
  dr_sensorDataSummary := l; dr_pssStatus := dr_pssStatus r;
  dr_integrity := dr_integrity r |}.

Definition set_se_integrity (i : MessageIntegrity) (e : SafetyEvent) : SafetyEvent := {|
  se_id := se_id e; se_sensorIdentifier := se_sensorIdentifier e; se_type := se_type e;
  se_timestamp := se_timestamp e; se_confidenceLevel := se_confidenceLevel e;
  se_processed := se_processed e; se_fusionMetadata := se_fusionMetadata e;
  se_cause := se_cause e; se_integrity := i |}.

Definition set_ev_severity (s : SeverityLevel) (e : FusedSafetyEvent) : FusedSafetyEvent := {|
  ev_id := ev_id e; ev_sensorIdentifier := ev_sensorIdentifier e; ev_type := ev_type e;
  ev_cause := ev_cause e; ev_severity := s; ev_timestamp := ev_timestamp e;
  ev_confidenceLevel := ev_confidenceLevel e; ev_status := ev_status e;
  ev_fusionMetadata := ev_fusionMetadata e |}.

Definition set_ev_id (i : Z) (e : FusedSafetyEvent) : FusedSafetyEvent := {|
  ev_id := i; ev_sensorIdentifier := ev_sensorIdentifier e; ev_type := ev_type e;
  ev_cause := ev_cause e; ev_severity := ev_severity e; ev_timestamp := ev_timestamp e;
  ev_confidenceLevel := ev_confidenceLevel e; ev_status := ev_status e;
  ev_fusionMetadata := ev_fusionMetadata e |}.

Definition set_sd_event (e : FusedSafetyEvent) (d : SensorData) : SensorData := {|
  sd_clientID := sd_clientID d; sd_isHealthy := sd_isHealthy d;
  sd_isTrustedSource := sd_isTrustedSource d; sd_event := e |}.

Definition set_fm_objectID (p : Z * Z) (m : EventFusionMetadata) : EventFusionMetadata := {|
  fm_coordinates := fm_coordinates m; fm_pipelineID := fm_pipelineID m;
  fm_clientID := fm_clientID m; fm_objectType := fm_objectType m;
  fm_speed := fm_speed m; fm_objectID := p |}.

(** ** Loops over the populated entries

    Every receiver clamps [sensorDataSummarySize] to the array bound before
    walking the array; the entries visited are those of [populated]. *)

Definition summary_count (r : DecisionRequest) : Z :=
  if MAX_SENSORS_DATA_SUMMARY_SIZE <? dr_sensorDataSummarySize r
  then MAX_SENSORS_DATA_SUMMARY_SIZE else dr_sensorDataSummarySize r.

Definition populated (r : DecisionRequest) : list SensorData :=
  take (Z.to_nat (summary_count r)) (dr_sensorDataSummary r).

(** [sensorDataSummary[0]]. *)
Definition first_entry (r : DecisionRequest) : SensorData :=
  nth 0 (dr_sensorDataSummary r) zero_sensorData.

(** Rewrite the populated entries, leaving the rest of the array. *)
Definition map_populated (f : SensorData -> SensorData) (r : DecisionRequest) : DecisionRequest :=
  set_dr_sensorDataSummary
    (map f (populated r) ++ drop (Z.to_nat (summary_count r)) (dr_sensorDataSummary r)) r.

(** ** Floats *)

(** The value of a binary32 bit pattern. *)
Definition f32_value (bits : f32) : spec_float :=
  let s := Z.testbit bits 31 in
  let e := Z.land (Z.shiftr bits 23) 0xFF in
  let m := Z.land bits 0x7FFFFF in
  if e =? 0xFF then (if m =? 0 then S754_infinity s else S754_nan)
  else if e =? 0 then
    match m with
    | Zpos p => S754_finite s p (-149)
    | _ => S754_zero s
    end
  else match m + 0x800000 with
       | Zpos p => S754_finite s p (e - 150)
       | _ => S754_zero s
       end.

Definition f32_leb (a b : f32) : bool := SFleb (f32_value a) (f32_value b).

Definition f32_zero : f32 := 0.
Definition f32_one : f32 := 0x3F800000.

(** ** Well-formed values: what the C types already guarantee *)

Definition wf_coordinates (c : TrajectoryCoordinates) : Prop := is_u32 (tc_x c) /\ is_u32 (tc_y c).

Record wf_metadata (m : EventFusionMetadata) : Prop := {
  wfm_coords : Forall wf_coordinates (fm_coordinates m);
  wfm_ncoords : length (fm_coordinates m) = MAX_TRAJECTORY_COORDINATES;
  wfm_pipeline : is_u8 (fm_pipelineID m);
  wfm_client : is_u8 (fm_clientID m);
  wfm_otype : is_i32 (fm_objectType m).1 /\ is_i32 (fm_objectType m).2;
  wfm_speed : is_u32 (fm_speed m);
  wfm_oid : is_u32 (fm_objectID m).1 /\ is_u32 (fm_objectID m).2;
}.

Record wf_event (e : FusedSafetyEvent) : Prop := {
  wfe_id : is_u32 (ev_id e);
  wfe_ident : length (ev_sensorIdentifier e) = MAX_INDENTIFIER_LENGTH /\ Forall is_byte (ev_sensorIdentifier e);
  wfe_type : is_i32 (ev_type e);
  wfe_cause : is_u8 (ev_cause e);
  wfe_severity : is_u8 (ev_severity e);
  wfe_timestamp : is_u64 (ev_timestamp e);
  wfe_confidence : is_u32 (ev_confidenceLevel e);
  wfe_status : is_i32 (ev_status e);
  wfe_meta : wf_metadata (ev_fusionMetadata e);
}.

Definition wf_sensorData (d : SensorData) : Prop :=
  is_u32 (sd_clientID d) /\ wf_event (sd_event d).

Record wf_request (r : DecisionRequest) : Prop := {
  wfr_id : is_u32 (dr_requestId r);
  wfr_size : is_u8 (dr_sensorDataSummarySize r);
  wfr_len : length (dr_sensorDataSummary r) = Z.to_nat MAX_SENSORS_DATA_SUMMARY_SIZE;
  wfr_entries : Forall wf_sensorData (dr_sensorDataSummary r);
  wfr_mode : is_i32 (st_mode (dr_pssStatus r));
}.

(** ** Lemmas on the populated entries *)

Lemma summary_count_range r : is_u8 (dr_sensorDataSummarySize r) -> 0 <= summary_count r <= 8.
Proof.
  unfold summary_count, is_u8, MAX_SENSORS_DATA_SUMMARY_SIZE. case_match; lia.
Qed.

Lemma length_populated r :
  wf_request r -> length (populated r) = Z.to_nat (summary_count r).
Proof.
  intros W. pose proof (summary_count_range r (wfr_size r W)).
  unfold populated. rewrite length_take, (wfr_len r W).
  unfold MAX_SENSORS_DATA_SUMMARY_SIZE. lia.
Qed.

Lemma populated_wf r d : wf_request r -> d ∈ populated r -> wf_sensorData d.
Proof.
  intros W Hd. pose proof (wfr_entries r W) as Hall.
  rewrite Forall_forall in Hall. apply Hall. unfold populated in Hd.
  by apply (elem_of_take _ _ _) in Hd as (i & ? & _); eapply list_elem_of_lookup_2.
Qed.

Lemma summary_count_map_populated f r : summary_count (map_populated f r) = summary_count r.
Proof. done. Qed.

Lemma populated_map_populated f r :
  wf_request r -> populated (map_populated f r) = map f (populated r).
Proof.
  intros W. unfold populated at 1. rewrite summary_count_map_populated. simpl.
  rewrite take_app_le by (rewrite length_map, (length_populated r W); lia).
  rewrite take_ge; [done|]. rewrite length_map, (length_populated r W). lia.
Qed.

(** The same for a request known only to have a full array. *)
Lemma populated_map_array f r :
  length (dr_sensorDataSummary r) = Z.to_nat MAX_SENSORS_DATA_SUMMARY_SIZE ->
  populated (map_populated f r) = map f (populated r) /\
  length (dr_sensorDataSummary (map_populated f r)) = Z.to_nat MAX_SENSORS_DATA_SUMMARY_SIZE.
Proof.
  intros Hl. set (n := Z.to_nat (summary_count r)).
  assert (n <= Z.to_nat MAX_SENSORS_DATA_SUMMARY_SIZE)%nat as Hn
    by (unfold n, summary_count; destruct (Z.ltb_spec MAX_SENSORS_DATA_SUMMARY_SIZE (dr_sensorDataSummarySize r)); lia).
  assert (length (populated r) = n) as Hp by (unfold populated; fold n; rewrite length_take, Hl; lia).
  split.
  - unfold populated at 1. rewrite summary_count_map_populated. fold n. cbn [map_populated dr_sensorDataSummary set_dr_sensorDataSummary].
    rewrite take_app_le by (rewrite length_map, Hp; lia). apply take_ge. rewrite length_map, Hp. lia.
  - cbn [map_populated dr_sensorDataSummary set_dr_sensorDataSummary]. fold n.
    rewrite length_app, length_map, length_drop, Hp, Hl. lia.
Qed.

Lemma first_entry_populated r d l :
  populated r = d :: l -> first_entry r = d.
Proof.
  unfold populated, first_entry. destruct (dr_sensorDataSummary r) as [|x xs]; [by rewrite take_nil|].
  destruct (Z.to_nat (summary_count r)); simpl; congruence.
Qed.

(** Unfold the wire codes so that arithmetic decides their distinctness. *)
Ltac codes :=
  unfold MAX_SENSORS_DATA_SUMMARY_SIZE,
    SW_FAIL, EVENT_UNKNOWN, SENSOR_INVALID, SENSOR_VALID, AI_PIPELINE_INVALID,
    AI_PIPELINE_VALID, PSS_STATUS_NOOP, OPERATIONAL, CRITICAL, NORMAL, DEGRADED, ERROR,
    FUSED, PASSTHROUGH, STALE, UNKNOWN, CAUSE_NONE, CAUSE_SAIM_INIT, CAUSE_HEARTBEAT_FAULT,
    CAUSE_PSS_REQUEST_SEQUENCE_GAP, CAUSE_PSS_REQUEST_ID_INVALID, CAUSE_PSS_ERROR,
    CAUSE_CLIENT_INPUT_UNUSABLE, CAUSE_PSS_COMM_RECOVERED, CAUSE_SAFETY_MONITOR_LOST,
    CAUSE_SOURCE_PRESENCE, CAUSE_PERCEPTION_MONITOR_LOST, CAUSE_MDX_CLIENT_LOST, CAUSE_COUNT in *.
