(* ===== verification/Crc.v ===== *)
(** * CRC-32 of the wire messages

    [pss_message_validate.c] computes a bytewise CRC-32 (reflected polynomial
    0xEDB88320) over every byte of a message that precedes its [crc32] field.
    This file models the loop and the packed layout it runs over, and proves
    what the checksum detects: any corruption confined to four consecutive
    bytes changes the checksum. *)

From S2P Require Import Prelude Protocol.

(** ** The checksum *)

Definition CRC_POLY : Z := 0xEDB88320.

(** [crc = (crc >> 1) ^ ((crc & 1U) ? 0xEDB88320U : 0U)] *)
Definition crc_bit (crc : Z) : Z :=
  Z.lxor (Z.shiftr crc 1) (if Z.land crc 1 =? 0 then 0 else CRC_POLY).

Definition crc_bits (n : nat) (crc : Z) : Z := Nat.iter n crc_bit crc.

(** One iteration of the outer loop. *)
Definition crc_byte (crc b : Z) : Z := crc_bits 8 (Z.lxor crc b).

Definition crc_bytes (crc : Z) (data : list Z) : Z := fold_left crc_byte data crc.

(** [None] is the null buffer. *)
Definition pssComputeCRC32 (data : option (list Z)) (len : nat) : Z :=
  match data with
  | None => if (len =? 0)%nat then Z.lxor UINT32_MAX UINT32_MAX else 0
  | Some p => Z.lxor (crc_bytes UINT32_MAX (take len p)) UINT32_MAX
  end.

(** ** The packed layout (#pragma pack(1), little endian) *)

Fixpoint le_bytes (n : nat) (z : Z) : list Z :=
  match n with
  | O => []
  | S n' => Z.land z 0xFF :: le_bytes n' (Z.shiftr z 8)
  end.

Definition enc_bool (b : bool) : list Z := [if b then 1 else 0].

Definition enc_coordinates (c : TrajectoryCoordinates) : list Z :=
  le_bytes 4 (tc_x c) ++ le_bytes 4 (tc_y c).

Definition enc_metadata (m : EventFusionMetadata) : list Z :=
  concat (map enc_coordinates (fm_coordinates m)) ++
  le_bytes 1 (fm_pipelineID m) ++ le_bytes 1 (fm_clientID m) ++
  le_bytes 4 (fm_objectType m).1 ++ le_bytes 4 (fm_objectType m).2 ++
  le_bytes 4 (fm_speed m) ++
  le_bytes 4 (fm_objectID m).1 ++ le_bytes 4 (fm_objectID m).2.

(** The bytes of a [SafetyEvent] before [integrity.crc32]. *)
Definition enc_SafetyEvent (e : SafetyEvent) : list Z :=
  le_bytes 4 (se_id e) ++ se_sensorIdentifier e ++ le_bytes 4 (se_type e) ++
  le_bytes 8 (se_timestamp e) ++ le_bytes 4 (se_confidenceLevel e) ++
  enc_bool (se_processed e) ++ enc_metadata (se_fusionMetadata e) ++
  le_bytes 1 (se_cause e) ++ le_bytes 2 (mi_schemaVersion (se_integrity e)).

Definition enc_event (e : FusedSafetyEvent) : list Z :=
  le_bytes 4 (ev_id e) ++ ev_sensorIdentifier e ++ le_bytes 4 (ev_type e) ++
  le_bytes 1 (ev_cause e) ++ le_bytes 1 (ev_severity e) ++ le_bytes 8 (ev_timestamp e) ++
  le_bytes 4 (ev_confidenceLevel e) ++ le_bytes 4 (ev_status e) ++
  enc_metadata (ev_fusionMetadata e).

Definition enc_sensorData (d : SensorData) : list Z :=
  le_bytes 4 (sd_clientID d) ++ enc_bool (sd_isHealthy d) ++
  enc_bool (sd_isTrustedSource d) ++ enc_event (sd_event d).

Definition enc_status (s : SystemStatus) : list Z :=
  enc_bool (st_hardwareErrorFlag s) ++ enc_bool (st_softwareErrorFlag s) ++ le_bytes 4 (st_mode s).

(** The bytes of a [DecisionRequest] before [integrity.crc32]. *)
Definition enc_request (r : DecisionRequest) : list Z :=
  le_bytes 4 (dr_requestId r) ++ le_bytes 1 (dr_sensorDataSummarySize r) ++
  concat (map enc_sensorData (dr_sensorDataSummary r)) ++
  enc_status (dr_pssStatus r) ++ le_bytes 2 (mi_schemaVersion (dr_integrity r)).

(** [offsetof(.., integrity.crc32)] of the two messages. *)
Definition SAFETY_EVENT_CRC_OFFSET : nat := 190.
Definition DECISION_REQUEST_CRC_OFFSET : nat := 1597.

(** ** Setting and verifying the checksum *)

Definition pssSafetyEventSetCRC (e : SafetyEvent) : SafetyEvent :=
  let e1 := set_se_integrity {| mi_schemaVersion := PSS_SCHEMA_VERSION; mi_crc32 := 0 |} e in
  set_se_integrity
    {| mi_schemaVersion := PSS_SCHEMA_VERSION;
       mi_crc32 := pssComputeCRC32 (Some (enc_SafetyEvent e1)) SAFETY_EVENT_CRC_OFFSET |} e1.

Definition pssSafetyEventVerifyCRC (e : SafetyEvent) : bool :=
  mi_crc32 (se_integrity e) =? pssComputeCRC32 (Some (enc_SafetyEvent e)) SAFETY_EVENT_CRC_OFFSET.

Definition pssDecisionRequestSetCRC (r : DecisionRequest) : DecisionRequest :=
  let r1 := set_dr_integrity {| mi_schemaVersion := PSS_SCHEMA_VERSION; mi_crc32 := 0 |} r in
  set_dr_integrity
    {| mi_schemaVersion := PSS_SCHEMA_VERSION;
       mi_crc32 := pssComputeCRC32 (Some (enc_request r1)) DECISION_REQUEST_CRC_OFFSET |} r1.

Definition pssDecisionRequestVerifyCRC (r : DecisionRequest) : bool :=
  mi_crc32 (dr_integrity r) =? pssComputeCRC32 (Some (enc_request r)) DECISION_REQUEST_CRC_OFFSET.

(** ** Linearity of one shift step *)

Lemma crc_bit_odd c : crc_bit c = Z.lxor (Z.shiftr c 1) (if Z.odd c then CRC_POLY else 0).
Proof.
  unfold crc_bit. f_equal. rewrite <- Z.bit0_odd.
  assert (Z.land c 1 = Z.b2z (Z.testbit c 0)) as ->.
  { change 1 with (Z.ones 1). rewrite Z.land_ones by lia.
    change (2 ^ 1) with 2. by rewrite Z.bit0_mod. }
  by destruct (Z.testbit c 0).
Qed.

Lemma crc_bit_lxor a b : crc_bit (Z.lxor a b) = Z.lxor (crc_bit a) (crc_bit b).
Proof.
  rewrite !crc_bit_odd, <- !Z.bit0_odd, Z.lxor_spec, Z.shiftr_lxor.
  apply Z.bits_inj'. intros i Hi.
  destruct (Z.testbit a 0), (Z.testbit b 0); simpl;
    rewrite ?Z.lxor_spec, ?Z.testbit_0_l; btauto.
Qed.

Lemma crc_bits_S n c : crc_bits (S n) c = crc_bit (crc_bits n c).
Proof. done. Qed.

Lemma crc_bits_add n m c : crc_bits (n + m) c = crc_bits n (crc_bits m c).
Proof. unfold crc_bits. apply Nat.iter_add. Qed.

Lemma crc_bits_lxor n a b : crc_bits n (Z.lxor a b) = Z.lxor (crc_bits n a) (crc_bits n b).
Proof. induction n as [|n IH]; [done|]. by rewrite !crc_bits_S, IH, crc_bit_lxor. Qed.

Lemma crc_bit_range c : is_u32 c -> is_u32 (crc_bit c).
Proof.
  intros Hc. apply lxor_range; [lia|apply shiftr_range; lia || done|].
  case_match; unfold CRC_POLY; lia.
Qed.

Lemma crc_bits_range n c : is_u32 c -> is_u32 (crc_bits n c).
Proof. intros Hc. induction n as [|n IH]; [done|]. by apply crc_bit_range. Qed.

(** The bit shifted out reappears at the top, so a step loses nothing. *)
Lemma crc_bit_kernel c : is_u32 c -> crc_bit c = 0 -> c = 0.
Proof.
  intros Hc H0.
  assert (Z.odd c = false) as Hodd.
  { apply (f_equal (fun z => Z.testbit z 31)) in H0.
    rewrite crc_bit_odd, Z.lxor_spec, Z.shiftr_spec, Z.testbit_0_l in H0 by lia.
    rewrite (testbit_u32_high c (31 + 1)) in H0 by (done || lia).
    by destruct (Z.odd c). }
  rewrite crc_bit_odd, Hodd, Z.lxor_0_r, Z.shiftr_div_pow2 in H0 by lia.
  change (2 ^ 1) with 2 in H0.
  pose proof (Z.div_mod c 2 ltac:(lia)). rewrite Zmod_odd, Hodd in *. lia.
Qed.

Lemma crc_bits_kernel n c : is_u32 c -> crc_bits n c = 0 -> c = 0.
Proof.
  intros Hc. induction n as [|n IH]; [done|]. intros H. apply IH.
  apply (crc_bit_kernel (crc_bits n c)); [by apply crc_bits_range|done].
Qed.

(** Shifting eight zero bits through drops them. *)
Lemma crc_bit_double w : crc_bit (2 * w) = w.
Proof.
  rewrite crc_bit_odd, Z.odd_mul. simpl. rewrite Z.lxor_0_r, Z.shiftr_div_pow2 by lia.
  change (2 ^ 1) with 2. rewrite Z.mul_comm. apply Z.div_mul. lia.
Qed.

Lemma crc_bits_shiftl n w : crc_bits n (Z.shiftl w (Z.of_nat n)) = w.
Proof.
  revert w. induction n as [|n IH]; intros w; [apply Z.shiftl_0_r|].
  unfold crc_bits. rewrite Nat.iter_succ_r.
  replace (Z.shiftl w (Z.of_nat (S n))) with (2 * Z.shiftl w (Z.of_nat n)); [|].
  - rewrite crc_bit_double. apply IH.
  - rewrite !Z.shiftl_mul_pow2, Nat2Z.inj_succ, Z.pow_succ_r by lia. ring.
Qed.

(** ** Linearity of the byte loop *)

Lemma crc_byte_eq c b : crc_byte c b = crc_bits 8 (Z.lxor c b).
Proof. reflexivity. Qed.

Lemma crc_bytes_cons c b l : crc_bytes c (b :: l) = crc_bytes (crc_byte c b) l.
Proof. reflexivity. Qed.

#[local] Opaque crc_byte.

Lemma crc_byte_lxor c d a b :
  crc_byte (Z.lxor c d) (Z.lxor a b) = Z.lxor (crc_byte c a) (crc_byte d b).
Proof.
  rewrite !crc_byte_eq, <- crc_bits_lxor. f_equal.
  apply Z.bits_inj'. intros i Hi. rewrite !Z.lxor_spec. btauto.
Qed.

Lemma crc_bytes_lxor x y c d :
  length x = length y ->
  crc_bytes (Z.lxor c d) (zip_with Z.lxor x y) = Z.lxor (crc_bytes c x) (crc_bytes d y).
Proof.
  revert y c d. induction x as [|a x IH]; intros [|b y] c d Hlen; try discriminate Hlen; [done|].
  cbn [zip_with]. rewrite !crc_bytes_cons, crc_byte_lxor. apply IH. by injection Hlen.
Qed.

Lemma crc_bytes_app c x y : crc_bytes c (x ++ y) = crc_bytes (crc_bytes c x) y.
Proof. apply fold_left_app. Qed.

Lemma crc_byte_range c b : is_u32 c -> is_byte b -> is_u32 (crc_byte c b).
Proof. intros Hc [? Hb]. rewrite crc_byte_eq. apply crc_bits_range, lxor_range; [lia|done|lia]. Qed.

Lemma crc_bytes_range c l : is_u32 c -> Forall is_byte l -> is_u32 (crc_bytes c l).
Proof.
  intros Hc Hl. revert c Hc. induction Hl as [|b l Hb _ IH]; intros c Hc; [done|].
  rewrite crc_bytes_cons. apply IH. by apply crc_byte_range.
Qed.

(** ** Short bursts

    Four bytes are the width of the register: the loop over at most four bytes
    is one shift of the register by their little-endian value. *)

Fixpoint le_value (l : list Z) : Z :=
  match l with
  | [] => 0
  | b :: l' => Z.lxor b (Z.shiftl (le_value l') 8)
  end.

Lemma le_value_range l :
  Forall is_byte l -> 0 <= le_value l < 2 ^ (8 * Z.of_nat (length l)).
Proof.
  induction 1 as [|b l Hb Hl IH]; [simpl; lia|]. cbn [le_value length].
  rewrite Nat2Z.inj_succ. apply lxor_range; [lia| |].
  - destruct Hb as [? Hb]. split; [done|]. apply Z.lt_le_trans with (2 ^ 8); [done|].
    apply Z.pow_le_mono_r; lia.
  - rewrite Z.shiftl_mul_pow2 by lia. split; [nia|].
    replace (8 * Z.succ (Z.of_nat (length l))) with (8 * Z.of_nat (length l) + 8) by lia.
    rewrite Z.pow_add_r by lia. nia.
Qed.

Lemma le_value_zero l : Forall is_byte l -> le_value l = 0 -> Forall (fun b => b = 0) l.
Proof.
  induction 1 as [|b l Hb Hl IH]; cbn [le_value]; [constructor|]. intros H0.
  assert (b = 0) as ->.
  { apply Z.bits_inj'. intros i Hi. rewrite Z.testbit_0_l.
    destruct (decide (i < 8)).
    - apply (f_equal (fun z => Z.testbit z i)) in H0.
      rewrite Z.lxor_spec, Z.testbit_0_l, Z.shiftl_spec_low, xorb_false_r in H0 by lia. done.
    - apply (testbit_range_high b 8); [done|lia]. }
  rewrite Z.lxor_0_l, Z.shiftl_mul_pow2 in H0 by lia.
  constructor; [done|]. apply IH. lia.
Qed.

Lemma crc_bytes_short c l :
  Forall is_byte l -> (length l <= 4)%nat ->
  crc_bytes c l = crc_bits (8 * length l) (Z.lxor c (le_value l)).
Proof.
  intros Hl. revert c. induction Hl as [|b l Hb Hl IH]; intros c Hlen.
  - by rewrite Z.lxor_0_r.
  - rewrite crc_bytes_cons, IH, crc_byte_eq by (simpl in Hlen; lia). cbn [le_value].
    replace (8 * length (b :: l))%nat with (8 * length l + 8)%nat by (simpl; lia).
    rewrite crc_bits_add, <- Z.lxor_assoc, (crc_bits_lxor 8 (Z.lxor c b)).
    by rewrite (crc_bits_shiftl 8).
Qed.

Lemma crc_bytes_zeros c n : crc_bytes c (replicate n 0) = crc_bits (8 * n) c.
Proof.
  revert c. induction n as [|n IH]; intros c; [done|].
  cbn [replicate]. rewrite crc_bytes_cons, IH, crc_byte_eq, Z.lxor_0_r.
  replace (8 * S n)%nat with (8 * n + 8)%nat by lia.
  by rewrite crc_bits_add.
Qed.

Lemma zip_lxor_same l : zip_with Z.lxor l l = replicate (length l) 0.
Proof. induction l as [|b l IH]; simpl; [done|]. by rewrite Z.lxor_nilpotent, IH. Qed.

Lemma zip_lxor_zero x y :
  length x = length y -> Forall (fun b => b = 0) (zip_with Z.lxor x y) -> x = y.
Proof.
  revert y. induction x as [|a x IH]; intros [|b y] Hlen Hz; simplify_eq/=; [done|].
  inversion_clear Hz as [|? ? Hab Hz']. f_equal; [by apply Z.lxor_eq|by apply IH].
Qed.

Lemma zip_lxor_bytes x y :
  Forall is_byte x -> Forall is_byte y -> Forall is_byte (zip_with Z.lxor x y).
Proof.
  intros Hx. revert y. induction Hx as [|a x Ha _ IH]; intros [|b y] Hy; simpl; try constructor.
  - inversion_clear Hy. by apply lxor_range.
  - inversion_clear Hy. by apply IH.
Qed.

(** Equal registers after equal suffixes come from equal registers before. *)
Lemma crc_bytes_suffix_inj c d l :
  is_u32 c -> is_u32 d -> crc_bytes c l = crc_bytes d l -> c = d.
Proof.
  intros Hc Hd Heq. apply Z.lxor_eq.
  apply (crc_bits_kernel (8 * length l)); [by apply lxor_range|].
  rewrite <- crc_bytes_zeros, <- zip_lxor_same, crc_bytes_lxor by done.
  by rewrite Heq, Z.lxor_nilpotent.
Qed.

Lemma crc_bytes_burst c pre x y suf :
  is_u32 c -> Forall is_byte pre -> Forall is_byte x -> Forall is_byte y ->
  length x = length y -> (length x <= 4)%nat ->
  crc_bytes c (pre ++ x ++ suf) = crc_bytes c (pre ++ y ++ suf) -> x = y.
Proof.
  intros Hc Hpre Hx Hy Hlen Hle Heq. rewrite !crc_bytes_app in Heq.
  set (c' := crc_bytes c pre) in *.
  assert (is_u32 c') by (by apply crc_bytes_range).
  apply crc_bytes_suffix_inj in Heq; [|apply crc_bytes_range; done..].
  assert (Hz : crc_bytes 0 (zip_with Z.lxor x y) = 0).
  { rewrite <- (Z.lxor_nilpotent c'), crc_bytes_lxor by done. by rewrite Heq, !Z.lxor_nilpotent. }
  assert (length (zip_with Z.lxor x y) = length x) as Hzl.
  { rewrite length_zip_with. lia. }
  rewrite crc_bytes_short in Hz; [|by apply zip_lxor_bytes|lia].
  rewrite Z.lxor_0_l in Hz. apply crc_bits_kernel in Hz.
  - apply zip_lxor_zero; [done|]. apply le_value_zero; [by apply zip_lxor_bytes|done].
  - pose proof (le_value_range _ (zip_lxor_bytes x y Hx Hy)) as [? Hlt]. rewrite Hzl in Hlt.
    split; [done|]. apply Z.lt_le_trans with (1 := Hlt). apply Z.pow_le_mono_r; lia.
Qed.

(** ** Lengths of the encodings *)

Lemma le_bytes_length n z : length (le_bytes n z) = n.
Proof. revert z. induction n; intros; simpl; [done|]. by f_equal. Qed.

Lemma le_bytes_bytes n z : Forall is_byte (le_bytes n z).
Proof.
  revert z. induction n as [|n IH]; intros z; cbn [le_bytes]; constructor; [|apply IH].
  change 255 with (Z.ones 8). rewrite Z.land_ones by lia. apply Z.mod_pos_bound. lia.
Qed.

Lemma length_concat_const {A B} (f : A -> list B) (l : list A) k :
  (forall x, x ∈ l -> length (f x) = k) -> length (concat (map f l)) = (length l * k)%nat.
Proof.
  induction l as [|x l IH]; intros H; simpl; [done|].
  rewrite length_app, H by left. rewrite IH; [done|]. intros y Hy. apply H. by right.
Qed.

Lemma enc_metadata_length m : wf_metadata m -> length (enc_metadata m) = 102%nat.
Proof.
  intros W. unfold enc_metadata. rewrite !length_app, !le_bytes_length.
  rewrite (length_concat_const _ _ 8) by (intros; unfold enc_coordinates; by rewrite length_app, !le_bytes_length).
  by rewrite (wfm_ncoords m W).
Qed.

Lemma enc_event_length e : wf_event e -> length (enc_event e) = 192%nat.
Proof.
  intros W. unfold enc_event. rewrite !length_app, !le_bytes_length.
  rewrite (enc_metadata_length _ (wfe_meta e W)). destruct (wfe_ident e W) as [-> _]. done.
Qed.

Lemma enc_request_length r : wf_request r -> length (enc_request r) = DECISION_REQUEST_CRC_OFFSET.
Proof.
  intros W. unfold enc_request, enc_status. rewrite !length_app, !le_bytes_length.
  rewrite (length_concat_const _ _ 198).
  - by rewrite (wfr_len r W).
  - intros d Hd. pose proof (wfr_entries r W) as H. rewrite Forall_forall in H.
    destruct (H d Hd) as [_ He].
    unfold enc_sensorData. rewrite !length_app, !le_bytes_length, (enc_event_length _ He). done.
Qed.

(** ** Encodings are bytes *)

Lemma Forall_concat_map {A B} (P : B -> Prop) (f : A -> list B) (l : list A) :
  Forall (fun x => Forall P (f x)) l -> Forall P (concat (map f l)).
Proof. induction 1; simpl; [constructor|]. by apply Forall_app. Qed.

Lemma enc_bool_bytes b : Forall is_byte (enc_bool b).
Proof. unfold enc_bool. repeat constructor; by destruct b. Qed.

#[export] Hint Resolve le_bytes_bytes enc_bool_bytes : safety_core.

Lemma enc_coordinates_bytes l : Forall is_byte (concat (map enc_coordinates l)).
Proof.
  apply Forall_concat_map, Forall_forall. intros c _.
  apply Forall_app; split; auto with safety_core.
Qed.

#[export] Hint Resolve enc_coordinates_bytes : safety_core.

Lemma enc_sensorData_bytes d : wf_sensorData d -> Forall is_byte (enc_sensorData d).
Proof.
  intros [_ W]. destruct (wfe_ident _ W) as [_ Hid]. unfold enc_sensorData, enc_event, enc_metadata.
  repeat (apply Forall_app; split); auto with safety_core.
Qed.

Lemma enc_request_bytes r : wf_request r -> Forall is_byte (enc_request r).
Proof.
  intros W. unfold enc_request, enc_status. repeat (apply Forall_app; split); auto with safety_core.
  apply Forall_concat_map. eapply Forall_impl; [apply (wfr_entries r W)|]. apply enc_sensorData_bytes.
Qed.

(** ** Round trip and detection *)

Lemma SafetyEventSetCRC_verifies e : pssSafetyEventVerifyCRC (pssSafetyEventSetCRC e) = true.
Proof. apply Z.eqb_refl. Qed.

Lemma DecisionRequestSetCRC_verifies r : pssDecisionRequestVerifyCRC (pssDecisionRequestSetCRC r) = true.
Proof. apply Z.eqb_refl. Qed.

Lemma pssComputeCRC32_burst pre x y suf n :
  Forall is_byte pre -> Forall is_byte x -> Forall is_byte y ->
  length x = length y -> (length x <= 4)%nat -> (length (pre ++ x ++ suf) <= n)%nat ->
  pssComputeCRC32 (Some (pre ++ x ++ suf)) n = pssComputeCRC32 (Some (pre ++ y ++ suf)) n -> x = y.
Proof.
  intros Hp Hx Hy Hlen H4 Hn Heq. unfold pssComputeCRC32 in Heq.
  rewrite (take_ge (pre ++ x ++ suf)) in Heq by done.
  rewrite (take_ge (pre ++ y ++ suf)) in Heq by (rewrite !length_app in *; lia).
  apply (f_equal (fun z => Z.lxor z UINT32_MAX)) in Heq.
  rewrite !Z.lxor_assoc, Z.lxor_nilpotent, !Z.lxor_0_r in Heq.
  eapply (crc_bytes_burst UINT32_MAX pre x y suf); done.
Qed.
