(* ===== verification/EventCodec.v ===== *)
(** * Reading a safety event from the bytes of a request

    A client copies its packed [SafetyEvent] into the payload of a
    REPORT_SAFETY_EVENT request and the daemon copies it out again
    ([memcpy(&reportedEvent, req.reqPayload, sizeof(SafetyEvent))]).  [enc_event_bytes]
    is the first copy, [dec_SafetyEvent] the second; what one writes the other
    reads back. *)

From S2P Require Import Prelude Protocol Crc.

(** ** Integers *)

Definition le_value (l : list Z) : Z := foldr (fun b acc => b + 256 * acc) 0 l.

(** A signed 32-bit field. *)
Definition sint32 (z : Z) : Z := if z <? 2 ^ 31 then z else z - 2 ^ 32.

(** Read [n] bytes and go on with the rest. *)
Definition read {A} (n : nat) (f : list Z -> A) (l : list Z) : A * list Z := (f (take n l), drop n l).

Definition read_u (n : nat) (l : list Z) : Z * list Z := read n le_value l.
Definition read_i32 (l : list Z) : Z * list Z := read 4 (fun b => sint32 (le_value b)) l.
Definition read_bool (l : list Z) : bool * list Z := read 1 (fun b => negb (le_value b =? 0)) l.

Fixpoint read_coordinates (n : nat) (l : list Z) : list TrajectoryCoordinates * list Z :=
  match n with
  | O => ([], l)
  | S n' =>
    let '(x, l) := read_u 4 l in
    let '(y, l) := read_u 4 l in
    let '(cs, l) := read_coordinates n' l in
    ({| tc_x := x; tc_y := y |} :: cs, l)
  end.

Definition read_metadata (l : list Z) : EventFusionMetadata * list Z :=
  let '(coordinates, l) := read_coordinates MAX_TRAJECTORY_COORDINATES l in
  let '(pipelineID, l) := read_u 1 l in
  let '(clientID, l) := read_u 1 l in
  let '(type1, l) := read_i32 l in
  let '(type2, l) := read_i32 l in
  let '(speed, l) := read_u 4 l in
  let '(object1, l) := read_u 4 l in
  let '(object2, l) := read_u 4 l in
  ({| fm_coordinates := coordinates; fm_pipelineID := pipelineID; fm_clientID := clientID;
      fm_objectType := (type1, type2); fm_speed := speed; fm_objectID := (object1, object2) |}, l).

Definition dec_SafetyEvent (l : list Z) : SafetyEvent :=
  let '(id, l) := read_u 4 l in
  let '(ident, l) := read MAX_INDENTIFIER_LENGTH (fun b => b) l in
  let '(type, l) := read_i32 l in
  let '(timestamp, l) := read_u 8 l in
  let '(confidence, l) := read_u 4 l in
  let '(processed, l) := read_bool l in
  let '(metadata, l) := read_metadata l in
  let '(cause, l) := read_u 1 l in
  let '(schema, l) := read_u 2 l in
  let '(crc, _) := read_u 4 l in
  {| se_id := id; se_sensorIdentifier := ident; se_type := type; se_timestamp := timestamp;
     se_confidenceLevel := confidence; se_processed := processed; se_fusionMetadata := metadata;
     se_cause := cause; se_integrity := {| mi_schemaVersion := schema; mi_crc32 := crc |} |}.

(** All the bytes of an event, the checksum included. *)
Definition enc_event_bytes (e : SafetyEvent) : list Z :=
  enc_SafetyEvent e ++ le_bytes 4 (mi_crc32 (se_integrity e)).

(** [sizeof(SafetyEvent)]. *)
Definition SAFETY_EVENT_SIZE : Z := 194.

(** What the C types guarantee of a [SafetyEvent]. *)
Record wf_SafetyEvent (e : SafetyEvent) : Prop := {
  wse_id : is_u32 (se_id e);
  wse_ident : length (se_sensorIdentifier e) = MAX_INDENTIFIER_LENGTH;
  wse_type : is_i32 (se_type e);
  wse_timestamp : is_u64 (se_timestamp e);
  wse_confidence : is_u32 (se_confidenceLevel e);
  wse_meta : wf_metadata (se_fusionMetadata e);
  wse_cause : is_u8 (se_cause e);
  wse_schema : is_u16 (mi_schemaVersion (se_integrity e));
  wse_crc : is_u32 (mi_crc32 (se_integrity e));
}.

(** ** Each reader inverts its writer *)

Lemma le_value_bytes n z : le_value (le_bytes n z) = z mod 2 ^ (8 * Z.of_nat n).
Proof.
  revert z. induction n as [|n IH]; intros z; [by rewrite Z.mod_1_r|].
  cbn [le_bytes le_value foldr]. change (foldr _ 0 ?l) with (le_value l). rewrite IH.
  change 255 with (Z.ones 8). rewrite Z.land_ones, Z.shiftr_div_pow2 by lia.
  replace (8 * Z.of_nat (S n)) with (8 + 8 * Z.of_nat n) by lia. rewrite Z.pow_add_r by lia.
  change (2 ^ 8) with 256. rewrite Z.rem_mul_r by lia. lia.
Qed.

Lemma read_app {A} (f : list Z -> A) b l : read (length b) f (b ++ l) = (f b, l).
Proof. unfold read. by rewrite take_app_length, drop_app_length. Qed.

Lemma read_u_bytes n z l : 0 <= z < 2 ^ (8 * Z.of_nat n) -> read_u n (le_bytes n z ++ l) = (z, l).
Proof.
  intros Hz. unfold read_u. rewrite <- (le_bytes_length n z) at 1. rewrite read_app, le_value_bytes.
  by rewrite Z.mod_small.
Qed.

Lemma read_i32_bytes z l : is_i32 z -> read_i32 (le_bytes 4 z ++ l) = (z, l).
Proof.
  intros Hz. unfold read_i32. rewrite <- (le_bytes_length 4 z) at 1. rewrite read_app, le_value_bytes.
  f_equal. unfold sint32, is_i32 in *. change (8 * Z.of_nat 4) with 32.
  destruct (decide (0 <= z)).
  - rewrite Z.mod_small by lia. rewrite (proj2 (Z.ltb_lt _ _)); lia.
  - rewrite <- (Z.mod_add z 1) by lia. rewrite Z.mod_small by lia. rewrite (proj2 (Z.ltb_ge _ _)); lia.
Qed.

Lemma read_bool_bytes b l : read_bool (enc_bool b ++ l) = (b, l).
Proof. by destruct b. Qed.

Lemma read_coordinates_bytes cs l :
  Forall wf_coordinates cs -> read_coordinates (length cs) (concat (map enc_coordinates cs) ++ l) = (cs, l).
Proof.
  induction 1 as [|[x y] cs [Hx Hy] _ IH]; [done|]. cbn [length map concat read_coordinates].
  unfold enc_coordinates at 1. rewrite <- !app_assoc. cbn [tc_x tc_y] in *.
  rewrite (read_u_bytes 4), (read_u_bytes 4) by done. by rewrite IH.
Qed.

Lemma read_metadata_bytes m l : wf_metadata m -> read_metadata (enc_metadata m ++ l) = (m, l).
Proof.
  intros [Hc Hn Hp Hcl [Ht1 Ht2] Hs [Ho1 Ho2]]. unfold read_metadata, enc_metadata.
  rewrite <- !app_assoc, <- Hn, read_coordinates_bytes by done.
  rewrite !(read_u_bytes 1) by done. rewrite !read_i32_bytes by done. rewrite !(read_u_bytes 4) by done.
  by destruct m as [? ? ? [] ? []].
Qed.

Lemma enc_event_bytes_length e : wf_SafetyEvent e -> length (enc_event_bytes e) = Z.to_nat SAFETY_EVENT_SIZE.
Proof.
  intros W. unfold enc_event_bytes, enc_SafetyEvent. rewrite !length_app, !le_bytes_length, (wse_ident e W).
  by rewrite (enc_metadata_length _ (wse_meta e W)).
Qed.

(** The daemon reads back the event the client wrote, whatever follows it in the
    payload. *)
Lemma dec_enc_event e rest : wf_SafetyEvent e -> dec_SafetyEvent (enc_event_bytes e ++ rest) = e.
Proof.
  intros [Hid Hident Ht Hts Hc Hm Hca Hs Hcrc]. unfold dec_SafetyEvent, enc_event_bytes, enc_SafetyEvent.
  rewrite <- !app_assoc, (read_u_bytes 4), <- Hident, read_app by done.
  rewrite read_i32_bytes, (read_u_bytes 8), (read_u_bytes 4), read_bool_bytes, read_metadata_bytes by done.
  rewrite (read_u_bytes 1), (read_u_bytes 2), (read_u_bytes 4) by done.
  by destruct e as [? ? ? ? ? ? ? ? []].
Qed.
