(* ===== verification/Validate.v ===== *)
(** * Message validation

    [pss_message_validate.c]: the receiver-side check of every message.  Each
    failed check sets one bit of the returned error mask.  The theorems give
    the accepted requests in closed form, the round trip of the checksum, and
    the rejection of every short corruption. *)

From S2P Require Import Prelude Protocol Crc.

(** ** Error flags and range limits *)

Definition PSS_VALID : Z := 0.
Definition PSS_ERR_NULL_POINTER : Z := Z.shiftl 1 0.
Definition PSS_ERR_SCHEMA_VERSION : Z := Z.shiftl 1 1.
Definition PSS_ERR_CRC : Z := Z.shiftl 1 2.
Definition PSS_ERR_EVENT_TYPE : Z := Z.shiftl 1 3.
Definition PSS_ERR_SEVERITY : Z := Z.shiftl 1 4.
Definition PSS_ERR_CONFIDENCE : Z := Z.shiftl 1 5.
Definition PSS_ERR_SENSOR_IDENTIFIER : Z := Z.shiftl 1 6.
Definition PSS_ERR_EVENT_CAUSE : Z := Z.shiftl 1 7.
Definition PSS_ERR_OBJECT_TYPE : Z := Z.shiftl 1 8.
Definition PSS_ERR_EVENT_STATUS : Z := Z.shiftl 1 9.
Definition PSS_ERR_OPERATIONAL_MODE : Z := Z.shiftl 1 10.
Definition PSS_ERR_SENSOR_DATA_SUMMARY_SIZE : Z := Z.shiftl 1 11.
Definition PSS_ERR_TIMESTAMP : Z := Z.shiftl 1 12.

Definition PSS_CLIENT_EVENTTYPE_MAX : Z := AI_PIPELINE_VALID.
Definition PSS_EVENTTYPE_MAX : Z := PSS_STATUS_NOOP.
Definition PSS_OBJECTTYPE_MAX : Z := OBJECT.
Definition PSS_SEVERITY_LEVEL_MAX : Z := CRITICAL.
Definition PSS_OPERATIONAL_MODE_MAX : Z := ERROR.
Definition PSS_SAFETY_EVENT_STATUS_MAX : Z := UNKNOWN.

(** [if (cond) errors |= flag;] *)
Definition flag_if (cond : bool) (flag errors : Z) : Z := if cond then Z.lor errors flag else errors.

Definition pssGetSchemaVersion (mi : MessageIntegrity) : Z := mi_schemaVersion mi.

(** ** Helpers *)

Fixpoint isNulTerminated (s : list Z) (maxLen : nat) : bool :=
  match maxLen, s with
  | S n, c :: s' => if c =? 0 then true else isNulTerminated s' n
  | _, _ => false
  end.

Definition eventTypeRequiresCriticalSeverity (type : EventType) : bool :=
  (type =? SW_FAIL) || (type =? SENSOR_INVALID) || (type =? SENSOR_VALID) ||
  (type =? AI_PIPELINE_INVALID) || (type =? AI_PIPELINE_VALID).

Definition object_type_bad (t : ObjectType) : bool := (t <? 0) || (PSS_OBJECTTYPE_MAX <? t).

Definition validateCommonEventFields (type : EventType) (maxEventType : Z) (confidenceLevel : f32)
    (timestamp : Z) (sensorIdentifier : list Z) (cause : EventCause) (meta : EventFusionMetadata) : Z :=
  let errors := PSS_VALID in
  let errors := flag_if ((type <? 0) || (maxEventType <? type)) PSS_ERR_EVENT_TYPE errors in
  let errors := flag_if (negb (f32_leb f32_zero confidenceLevel && f32_leb confidenceLevel f32_one))
                        PSS_ERR_CONFIDENCE errors in
  let errors := flag_if (timestamp =? 0) PSS_ERR_TIMESTAMP errors in
  let errors := flag_if (negb (isNulTerminated sensorIdentifier MAX_INDENTIFIER_LENGTH))
                        PSS_ERR_SENSOR_IDENTIFIER errors in
  let errors := flag_if (CAUSE_COUNT <=? cause) PSS_ERR_EVENT_CAUSE errors in
  let errors := flag_if (object_type_bad (fm_objectType meta).1) PSS_ERR_OBJECT_TYPE errors in
  flag_if (object_type_bad (fm_objectType meta).2) PSS_ERR_OBJECT_TYPE errors.

Definition validateFusedEventFields (ev : FusedSafetyEvent) : Z :=
  let errors := validateCommonEventFields (ev_type ev) PSS_EVENTTYPE_MAX (ev_confidenceLevel ev)
                  (ev_timestamp ev) (ev_sensorIdentifier ev) (ev_cause ev) (ev_fusionMetadata ev) in
  let errors := flag_if (PSS_SEVERITY_LEVEL_MAX <? ev_severity ev) PSS_ERR_SEVERITY errors in
  flag_if ((ev_status ev <? 0) || (PSS_SAFETY_EVENT_STATUS_MAX <? ev_status ev))
          PSS_ERR_EVENT_STATUS errors.

(** ** Client messages *)

Definition validateSafetyEvent (event : option SafetyEvent) : Z :=
  match event with
  | None => PSS_ERR_NULL_POINTER
  | Some e =>
    let errors := PSS_VALID in
    let errors := flag_if (negb (pssGetSchemaVersion (se_integrity e) =? PSS_SCHEMA_VERSION))
                          PSS_ERR_SCHEMA_VERSION errors in
    let errors := flag_if (negb (pssSafetyEventVerifyCRC e)) PSS_ERR_CRC errors in
    Z.lor errors
      (validateCommonEventFields (se_type e) PSS_CLIENT_EVENTTYPE_MAX (se_confidenceLevel e)
         (se_timestamp e) (se_sensorIdentifier e) (se_cause e) (se_fusionMetadata e))
  end.

(** ** Decision requests *)

(** Loop state: errors, [haveSeverity], [expectedSeverity]. *)
Record SeverityScan := {
  sc_errors : Z;
  sc_haveSeverity : bool;
  sc_expectedSeverity : SeverityLevel;
}.

Definition validate_entry (mode : OperationalMode) (s : SeverityScan) (d : SensorData) : SeverityScan :=
  let event := sd_event d in
  let errors := Z.lor (sc_errors s) (validateFusedEventFields event) in
  if ev_severity event <=? PSS_SEVERITY_LEVEL_MAX then
    let '(errors, have, expected) :=
      if negb (sc_haveSeverity s) then (errors, true, ev_severity event)
      else (flag_if (negb (ev_severity event =? sc_expectedSeverity s)) PSS_ERR_SEVERITY errors,
            true, sc_expectedSeverity s) in
    let errors := flag_if ((mode =? ERROR) && negb (ev_severity event =? CRITICAL))
                          PSS_ERR_SEVERITY errors in
    let errors := flag_if ((eventTypeRequiresCriticalSeverity (ev_type event) ||
                            negb (sd_isHealthy d) || negb (sd_isTrustedSource d)) &&
                           negb (ev_severity event =? CRITICAL)) PSS_ERR_SEVERITY errors in
    {| sc_errors := errors; sc_haveSeverity := have; sc_expectedSeverity := expected |}
  else {| sc_errors := errors; sc_haveSeverity := sc_haveSeverity s;
          sc_expectedSeverity := sc_expectedSeverity s |}.

Definition validateDecisionRequest (req : option DecisionRequest) : Z :=
  match req with
  | None => PSS_ERR_NULL_POINTER
  | Some r =>
    let mode := st_mode (dr_pssStatus r) in
    let errors := PSS_VALID in
    let errors := flag_if (negb (pssGetSchemaVersion (dr_integrity r) =? PSS_SCHEMA_VERSION))
                          PSS_ERR_SCHEMA_VERSION errors in
    let errors := flag_if (negb (pssDecisionRequestVerifyCRC r)) PSS_ERR_CRC errors in
    let errors := flag_if (MAX_SENSORS_DATA_SUMMARY_SIZE <? dr_sensorDataSummarySize r)
                          PSS_ERR_SENSOR_DATA_SUMMARY_SIZE errors in
    let errors := flag_if ((dr_sensorDataSummarySize r =? 0) &&
                           negb ((dr_requestId r =? UINT32_MAX) && (mode =? ERROR)))
                          PSS_ERR_SENSOR_DATA_SUMMARY_SIZE errors in
    let errors := flag_if ((mode <? 0) || (PSS_OPERATIONAL_MODE_MAX <? mode))
                          PSS_ERR_OPERATIONAL_MODE errors in
    sc_errors (fold_left (validate_entry mode) (populated r)
      {| sc_errors := errors; sc_haveSeverity := false; sc_expectedSeverity := OPERATIONAL |})
  end.

(** ** The accepted messages, declaratively *)

Record valid_common (type : EventType) (maxType : Z) (conf : f32) (ts : Z) (ident : list Z)
    (cause : EventCause) (m : EventFusionMetadata) : Prop := {
  vc_type : 0 <= type <= maxType;
  vc_conf : f32_leb f32_zero conf = true /\ f32_leb conf f32_one = true;
  vc_ts : ts <> 0;
  vc_ident : isNulTerminated ident MAX_INDENTIFIER_LENGTH = true;
  vc_cause : cause < CAUSE_COUNT;
  vc_otype : 0 <= (fm_objectType m).1 <= OBJECT /\ 0 <= (fm_objectType m).2 <= OBJECT;
}.

(** What one entry must satisfy on its own. *)
Record valid_event (e : FusedSafetyEvent) : Prop := {
  ve_common : valid_common (ev_type e) PSS_STATUS_NOOP (ev_confidenceLevel e) (ev_timestamp e)
                (ev_sensorIdentifier e) (ev_cause e) (ev_fusionMetadata e);
  ve_severity : ev_severity e <= CRITICAL;
  ve_status : 0 <= ev_status e <= UNKNOWN;
}.

(** Severity rules of a request: homogeneous, and [CRITICAL] whenever the mode
    is [ERROR], the entry is a must-deliver report, or its source is
    distrusted. *)
Definition critical_evidence (mode : OperationalMode) (d : SensorData) : Prop :=
  mode = ERROR \/ eventTypeRequiresCriticalSeverity (ev_type (sd_event d)) = true \/
  sd_isHealthy d = false \/ sd_isTrustedSource d = false.

Definition severity_rules (mode : OperationalMode) (l : list SensorData) : Prop :=
  exists s, forall d, d ∈ l ->
    ev_severity (sd_event d) = s /\ (critical_evidence mode d -> s = CRITICAL).

Record valid_request (r : DecisionRequest) : Prop := {
  vr_schema : mi_schemaVersion (dr_integrity r) = PSS_SCHEMA_VERSION;
  vr_crc : pssDecisionRequestVerifyCRC r = true;
  vr_size : dr_sensorDataSummarySize r <= MAX_SENSORS_DATA_SUMMARY_SIZE;
  vr_stop : dr_sensorDataSummarySize r = 0 ->
            dr_requestId r = UINT32_MAX /\ st_mode (dr_pssStatus r) = ERROR;
  vr_mode : 0 <= st_mode (dr_pssStatus r) <= ERROR;
  vr_events : Forall (fun d => valid_event (sd_event d)) (populated r);
  vr_severity : severity_rules (st_mode (dr_pssStatus r)) (populated r);
}.

(** Everything the sender fills in before the checksum. *)
Record sendable (r : DecisionRequest) : Prop := {
  sd_size : 1 <= dr_sensorDataSummarySize r <= MAX_SENSORS_DATA_SUMMARY_SIZE;
  sd_mode : 0 <= st_mode (dr_pssStatus r) <= ERROR;
  sd_events : Forall (fun d => valid_event (sd_event d)) (populated r);
  sd_severity : severity_rules (st_mode (dr_pssStatus r)) (populated r);
}.

(** ** Error masks *)

Lemma flag_if_zero c f e : f <> 0 -> flag_if c f e = 0 <-> c = false /\ e = 0.
Proof.
  intros Hf. unfold flag_if. destruct c; [rewrite lor_eq_0|]; intuition congruence.
Qed.

(** A bit once set in the mask stays set. *)
Lemma flag_if_testbit c f e i : Z.testbit e i = true -> Z.testbit (flag_if c f e) i = true.
Proof. intros He. unfold flag_if. destruct c; [|done]. by rewrite Z.lor_spec, He. Qed.

Ltac flags := repeat rewrite flag_if_zero by (cbv; lia).

Lemma validateCommonEventFields_zero type maxType conf ts ident cause m :
  validateCommonEventFields type maxType conf ts ident cause m = 0 <->
  valid_common type maxType conf ts ident cause m.
Proof.
  unfold validateCommonEventFields, object_type_bad, PSS_VALID. flags. split.
  - intros (H2 & H1 & Hc & Hi & Ht & Hf & Hty & _). bool_prop.
    unfold PSS_OBJECTTYPE_MAX in *. constructor; auto with lia; lia.
  - intros [? [Hc1 Hc2] ? ? ? ?]. unfold PSS_OBJECTTYPE_MAX.
    rewrite vc_ident0, Hc1, Hc2. repeat split; lia.
Qed.

Lemma validateFusedEventFields_zero e : validateFusedEventFields e = 0 <-> valid_event e.
Proof.
  unfold validateFusedEventFields. flags. rewrite validateCommonEventFields_zero.
  unfold PSS_SEVERITY_LEVEL_MAX, PSS_SAFETY_EVENT_STATUS_MAX, PSS_EVENTTYPE_MAX. split.
  - intros (Hst & Hsev & Hc). bool_prop. constructor; [done|lia|lia].
  - intros [Hc Hsev Hst]. split; [lia|split; [lia|done]].
Qed.

(** ** The severity scan *)

Definition scan_ok (mode : OperationalMode) (have : bool) (expected : SeverityLevel)
    (l : list SensorData) : Prop :=
  if have then forall d, d ∈ l ->
    ev_severity (sd_event d) = expected /\ (critical_evidence mode d -> expected = CRITICAL)
  else severity_rules mode l.

Lemma critical_evidence_flags mode d :
  (mode =? ERROR) && negb (ev_severity (sd_event d) =? CRITICAL) = false /\
  (eventTypeRequiresCriticalSeverity (ev_type (sd_event d)) ||
     negb (sd_isHealthy d) || negb (sd_isTrustedSource d)) &&
     negb (ev_severity (sd_event d) =? CRITICAL) = false <->
  (critical_evidence mode d -> ev_severity (sd_event d) = CRITICAL).
Proof.
  unfold critical_evidence.
  destruct (Z.eqb_spec (ev_severity (sd_event d)) CRITICAL);
    destruct (Z.eqb_spec mode ERROR);
    destruct (eventTypeRequiresCriticalSeverity (ev_type (sd_event d)));
    destruct (sd_isHealthy d), (sd_isTrustedSource d); simpl; intuition congruence.
Qed.

Lemma scan_ok_cons mode have expected d l :
  scan_ok mode have expected (d :: l) <->
  (have = true -> ev_severity (sd_event d) = expected) /\
  (critical_evidence mode d -> ev_severity (sd_event d) = CRITICAL) /\
  scan_ok mode true (ev_severity (sd_event d)) l.
Proof.
  assert (Hall : forall s,
    (forall x, x ∈ d :: l -> ev_severity (sd_event x) = s /\ (critical_evidence mode x -> s = CRITICAL)) <->
    ev_severity (sd_event d) = s /\ (critical_evidence mode d -> s = CRITICAL) /\
    (forall x, x ∈ l -> ev_severity (sd_event x) = s /\ (critical_evidence mode x -> s = CRITICAL))).
  { intros s. split.
    - intros H. destruct (H d ltac:(left)) as [Hs Hc]. split_and!; [done..|]. intros x Hx. apply H. by right.
    - intros (Hs & Hc & Hl) x [->|Hx]%elem_of_cons; auto. }
  destruct have; simpl.
  - rewrite Hall. split; [intros (<- & ? & ?); auto|intros (Hs & ? & ?); rewrite <- Hs; auto].
  - unfold severity_rules. setoid_rewrite Hall. split.
    + intros (s & <- & ? & ?). by split_and!.
    + intros (_ & ? & ?). by exists (ev_severity (sd_event d)).
Qed.

Lemma scan_spec mode l s :
  sc_errors (fold_left (validate_entry mode) l s) = 0 <->
  sc_errors s = 0 /\ Forall (fun d => valid_event (sd_event d)) l /\
  scan_ok mode (sc_haveSeverity s) (sc_expectedSeverity s) l.
Proof.
  revert s. induction l as [|d l IH]; intros s; simpl fold_left.
  - split; [|by intros []]. intros H. split_and!; [done|constructor|].
    unfold scan_ok. destruct (sc_haveSeverity s); [|exists 0]; intros d []%elem_of_nil.
  - rewrite IH, scan_ok_cons, Forall_cons, <- validateFusedEventFields_zero, <- critical_evidence_flags.
    unfold validate_entry. destruct (Z.leb_spec (ev_severity (sd_event d)) PSS_SEVERITY_LEVEL_MAX) as [Hle|Hgt].
    + destruct (sc_haveSeverity s) eqn:Hh; simpl; flags; rewrite lor_eq_0; [|naive_solver].
      destruct (Z.eqb_spec (ev_severity (sd_event d)) (sc_expectedSeverity s)) as [->|]; simpl; naive_solver.
    + assert (validateFusedEventFields (sd_event d) <> 0) as Hne.
      { intros Hz%validateFusedEventFields_zero%ve_severity. unfold PSS_SEVERITY_LEVEL_MAX in *. lia. }
      simpl. rewrite lor_eq_0. naive_solver.
Qed.

Lemma validateDecisionRequest_zero r :
  validateDecisionRequest (Some r) = PSS_VALID <-> valid_request r.
Proof.
  unfold validateDecisionRequest, PSS_VALID, pssGetSchemaVersion, PSS_OPERATIONAL_MODE_MAX.
  rewrite scan_spec. simpl. flags. split.
  - intros ((Hmode & Hstop & Hsize & Hcrc & Hschema & _) & Hev & Hsev). bool_prop.
    constructor; [done|done|lia| |lia|done|done].
    intros Hz. rewrite Hz in Hstop. simpl in Hstop. bool_prop. done.
  - intros [Hschema Hcrc Hsize Hstop Hmode Hev Hsev]. rewrite Hschema, Hcrc. split_and!; try done; [lia| |lia].
    destruct (Z.eqb_spec (dr_sensorDataSummarySize r) 0) as [Hz|]; [|done].
    destruct (Hstop Hz) as [-> ->]. done.
Qed.

Lemma validateSafetyEvent_zero e :
  validateSafetyEvent (Some e) = PSS_VALID <->
  mi_schemaVersion (se_integrity e) = PSS_SCHEMA_VERSION /\ pssSafetyEventVerifyCRC e = true /\
  valid_common (se_type e) AI_PIPELINE_VALID (se_confidenceLevel e) (se_timestamp e)
    (se_sensorIdentifier e) (se_cause e) (se_fusionMetadata e).
Proof.
  unfold validateSafetyEvent, PSS_VALID. rewrite lor_eq_0. flags.
  rewrite validateCommonEventFields_zero, !negb_false_iff, Z.eqb_eq. naive_solver.
Qed.

(** ** Bits of the mask survive the scan *)

Lemma validate_entry_testbit mode d s i :
  Z.testbit (sc_errors s) i = true -> Z.testbit (sc_errors (validate_entry mode s d)) i = true.
Proof.
  intros He. unfold validate_entry.
  assert (Z.testbit (Z.lor (sc_errors s) (validateFusedEventFields (sd_event d))) i = true) as Hl
    by (by rewrite Z.lor_spec, He).
  repeat case_match; simplify_eq; simpl; try done;
    repeat apply flag_if_testbit; done.
Qed.

Lemma validateDecisionRequest_crc_bit r :
  pssDecisionRequestVerifyCRC r = false -> Z.testbit (validateDecisionRequest (Some r)) 2 = true.
Proof.
  intros Hcrc. unfold validateDecisionRequest. rewrite Hcrc.
  apply (fold_left_ind (fun s => Z.testbit (sc_errors s) 2 = true)).
  - cbn [sc_errors]. do 3 apply flag_if_testbit. cbn [negb flag_if].
    by rewrite Z.lor_spec, orb_true_r.
  - intros s d _. apply validate_entry_testbit.
Qed.

Lemma sendable_SetCRC r : sendable r -> valid_request (pssDecisionRequestSetCRC r).
Proof.
  intros [Hsz Hm He Hs]. constructor; try done.
  - apply DecisionRequestSetCRC_verifies.
  - apply Hsz.
  - intros Hz. cbn in Hz. lia.
Qed.

(** ** Properties *)

(** C37. The receiver accepts a decision request (returns [PSS_VALID]) exactly
    when its schema version and checksum match, its size is within the array
    and zero only for the terminal ERROR stop request, its mode is in range,
    every populated entry is in range, all entries have one severity, and that
    severity is CRITICAL whenever the mode is ERROR, an entry is a mandatory
    report type, or an entry's source is unhealthy or untrusted. *)
Theorem validateDecisionRequest_accepts r :
  validateDecisionRequest (Some r) = PSS_VALID <-> valid_request r.
Proof. apply validateDecisionRequest_zero. Qed.

(** A request whose fields are in range and consistent is accepted by every
    receiver once the sender has stamped it with [pssDecisionRequestSetCRC],
    and the stamp changes no field but the integrity block. *)
Theorem stamped_request_accepted r :
  sendable r ->
  validateDecisionRequest (Some (pssDecisionRequestSetCRC r)) = PSS_VALID /\
  set_dr_integrity (dr_integrity r) (pssDecisionRequestSetCRC r) = r.
Proof.
  intros Hs. split; [by apply validateDecisionRequest_zero, sendable_SetCRC|by destruct r].
Qed.

(** C38. A stamped request that is corrupted within any four consecutive bytes of
    the bytes before its checksum is rejected, and the CRC bit of the mask says
    why. *)
Theorem corrupted_request_rejected r r' pre x y suf :
  wf_request r -> wf_request r' ->
  enc_request (pssDecisionRequestSetCRC r) = pre ++ x ++ suf ->
  enc_request r' = pre ++ y ++ suf ->
  mi_crc32 (dr_integrity r') = mi_crc32 (dr_integrity (pssDecisionRequestSetCRC r)) ->
  length x = length y -> (length x <= 4)%nat -> x <> y ->
  Z.testbit (validateDecisionRequest (Some r')) 2 = true.
Proof.
  intros W W' Hx Hy Hcrc Hlen H4 Hne. apply validateDecisionRequest_crc_bit.
  apply not_true_iff_false. intros Hv. apply Hne.
  assert (wf_request (pssDecisionRequestSetCRC r)) as Ws by (by destruct W).
  pose proof (enc_request_bytes _ Ws) as Bs. pose proof (enc_request_bytes _ W') as Bs'.
  pose proof (enc_request_length _ Ws) as Ls.
  rewrite Hx in Bs, Ls. rewrite Hy in Bs'.
  apply Forall_app in Bs as [? [? _]%Forall_app]. apply Forall_app in Bs' as [_ [? _]%Forall_app].
  apply (pssComputeCRC32_burst pre x y suf DECISION_REQUEST_CRC_OFFSET); [done..|by rewrite Ls|].
  rewrite <- Hx, <- Hy. apply Z.eqb_eq in Hv. rewrite <- Hv, Hcrc. reflexivity.
Qed.

(** ** Witnesses *)

(** One healthy, trusted CRITICAL report. *)
Definition sample_event : FusedSafetyEvent := {|
  ev_id := 1; ev_sensorIdentifier := replicate MAX_INDENTIFIER_LENGTH 0; ev_type := SW_FAIL;
  ev_cause := CAUSE_PSS_ERROR; ev_severity := CRITICAL; ev_timestamp := 5;
  ev_confidenceLevel := f32_one; ev_status := PASSTHROUGH; ev_fusionMetadata := zero_metadata |}.

Definition sample_request (id : Z) : DecisionRequest := {|
  dr_requestId := id; dr_sensorDataSummarySize := 1;
  dr_sensorDataSummary :=
    {| sd_clientID := 0; sd_isHealthy := true; sd_isTrustedSource := true; sd_event := sample_event |}
    :: replicate 7 zero_sensorData;
  dr_pssStatus := {| st_hardwareErrorFlag := false; st_softwareErrorFlag := false; st_mode := NORMAL |};
  dr_integrity := zero_integrity |}.

Lemma sample_event_valid : valid_event sample_event.
Proof. apply validateFusedEventFields_zero. vm_compute. reflexivity. Qed.

Lemma sample_sendable id : sendable (sample_request id).
Proof.
  constructor.
  - split; discriminate.
  - split; discriminate.
  - repeat constructor; apply sample_event_valid.
  - exists CRITICAL. intros d Hd. by apply list_elem_of_singleton in Hd as ->.
Qed.

Lemma wf_zero_metadata : wf_metadata zero_metadata.
Proof. by repeat constructor. Qed.

Lemma wf_zero_event : wf_event zero_event.
Proof. constructor; try done; [|apply wf_zero_metadata]. split; [done|]. by repeat constructor. Qed.

Lemma wf_sample_request id : is_u32 id -> wf_request (sample_request id).
Proof.
  intros Hid. constructor; try done. simpl. constructor.
  - split; [done|]. constructor; try done; [|apply wf_zero_metadata]. split; [done|]. by repeat constructor.
  - repeat (constructor; [by split; [|apply wf_zero_event]|]). constructor.
Qed.

Lemma stamped_request_accepted_witness :
  sendable (sample_request 7) /\
  validateDecisionRequest (Some (pssDecisionRequestSetCRC (sample_request 7))) = PSS_VALID.
Proof.
  split; [apply sample_sendable|].
  exact (proj1 (stamped_request_accepted (sample_request 7) (sample_sendable 7))).
Defined.

(** The request id 7 arrives as 8, with the checksum of the original. *)
Definition corrupted_sample : DecisionRequest :=
  set_dr_requestId 8 (pssDecisionRequestSetCRC (sample_request 7)).

Lemma corrupted_request_rejected_witness :
  Z.testbit (validateDecisionRequest (Some corrupted_sample)) 2 = true.
Proof.
  apply (corrupted_request_rejected (sample_request 7) corrupted_sample []
           [7] [8] (drop 1 (enc_request (pssDecisionRequestSetCRC (sample_request 7))))).
  - by apply wf_sample_request.
  - destruct (wf_sample_request 7 ltac:(done)). by constructor.
  - reflexivity.
  - reflexivity.
  - reflexivity.
  - reflexivity.
  - simpl. lia.
  - discriminate.
Defined.
