(* ===== verification/SdmRequestState.v ===== *)
(** * Sub-cause evaluators of the decision makers

    [sdm_decision_request_state.h]: the pure functions every decision maker
    applies to a validated [DecisionRequest].  They decide which PSS
    sub-causes a request raises or clears; the decision maker keeps the state.
    In/out pointers ([seen], [unusableSeen], [invalidActive]) are threaded as
    values; a request pointer the code null-tests is an [option]. *)

From S2P Require Import Prelude Protocol Crc Validate.

(** ** Request predicates *)

Definition SdmDecisionRequestIsNoopOnly (req : option DecisionRequest) : bool :=
  match req with
  | None => false
  | Some r => (dr_sensorDataSummarySize r =? 1) && (ev_type (sd_event (first_entry r)) =? PSS_STATUS_NOOP)
  end.

Definition SdmDecisionRequestContainsSwFail (req : option DecisionRequest) : bool :=
  match req with
  | None => false
  | Some r => existsb (fun d => ev_type (sd_event d) =? SW_FAIL) (populated r)
  end.

Definition SdmEventCauseIsGatewayComm (cause : EventCause) : bool :=
  (cause =? CAUSE_PSS_ERROR) || (cause =? CAUSE_PSS_REQUEST_SEQUENCE_GAP) ||
  (cause =? CAUSE_PSS_REQUEST_ID_INVALID).

Definition SdmEventCauseIsSafetyMonitorLost (cause : EventCause) : bool := cause =? CAUSE_SAFETY_MONITOR_LOST.
Definition SdmEventCauseIsPerceptionMonitorLost (cause : EventCause) : bool := cause =? CAUSE_PERCEPTION_MONITOR_LOST.
Definition SdmEventCauseIsMdxClientLost (cause : EventCause) : bool := cause =? CAUSE_MDX_CLIENT_LOST.
Definition SdmEventCauseIsClientInputUnusable (cause : EventCause) : bool := cause =? CAUSE_CLIENT_INPUT_UNUSABLE.

Definition SdmDecisionRequestIsGatewayCommRecovered (req : option DecisionRequest) : bool :=
  match req with
  | None => false
  | Some r =>
    SdmDecisionRequestIsNoopOnly req && negb (st_mode (dr_pssStatus r) =? ERROR) &&
    (ev_cause (sd_event (first_entry r)) =? CAUSE_PSS_COMM_RECOVERED)
  end.

Definition SdmDecisionRequestClearsPssModeError (req : option DecisionRequest) : bool :=
  match req with
  | None => false
  | Some r => negb (st_mode (dr_pssStatus r) =? ERROR)
  end.

Definition SdmDecisionRequestClearsPssSwFail (req : option DecisionRequest) : bool :=
  match req with
  | None => false
  | Some r =>
    negb (st_mode (dr_pssStatus r) =? ERROR) && negb (SdmDecisionRequestIsNoopOnly req) &&
    negb (SdmDecisionRequestContainsSwFail req)
  end.

(** ** PSS sub-causes *)

Definition SDM_PSS_SUB_MODE_ERROR : Z := 0x01.
Definition SDM_PSS_SUB_GATEWAY_COMM : Z := 0x02.
Definition SDM_PSS_SUB_SW_FAIL : Z := 0x04.
Definition SDM_PSS_SUB_MONITOR_LOST : Z := 0x08.
Definition SDM_PSS_SUB_PM_LOST : Z := 0x10.
Definition SDM_PSS_SUB_MDX_LOST : Z := 0x20.
Definition SDM_PSS_SUB_INPUT_UNUSABLE : Z := 0x40.

Definition SdmSwFailSubCause (ev : FusedSafetyEvent) : Z :=
  let c := ev_cause ev in
  if SdmEventCauseIsGatewayComm c then SDM_PSS_SUB_GATEWAY_COMM
  else if SdmEventCauseIsSafetyMonitorLost c then SDM_PSS_SUB_MONITOR_LOST
  else if SdmEventCauseIsPerceptionMonitorLost c then SDM_PSS_SUB_PM_LOST
  else if SdmEventCauseIsMdxClientLost c then SDM_PSS_SUB_MDX_LOST
  else if SdmEventCauseIsClientInputUnusable c &&
          negb (Z.land (fm_objectID (ev_fusionMetadata ev)).1 PSS_INPUT_STATE_MASK =? 0)
       then SDM_PSS_SUB_INPUT_UNUSABLE
  else SDM_PSS_SUB_SW_FAIL.

Definition SdmSwFailSubCausesRaised (r : DecisionRequest) : Z :=
  fold_left (fun raised d =>
    if ev_type (sd_event d) =? SW_FAIL then Z.lor raised (SdmSwFailSubCause (sd_event d)) else raised)
    (populated r) 0.

Record SdmPssSubCauseDelta := { d_raised : Z; d_cleared : Z }.

Definition no_delta : SdmPssSubCauseDelta := {| d_raised := 0; d_cleared := 0 |}.

Definition SdmPssSubCausesEvaluate (req : option DecisionRequest) : SdmPssSubCauseDelta :=
  match req with
  | None => no_delta
  | Some r =>
    if st_mode (dr_pssStatus r) =? ERROR then
      {| d_raised := Z.lor SDM_PSS_SUB_MODE_ERROR (SdmSwFailSubCausesRaised r); d_cleared := 0 |}
    else
      let cleared := if SdmDecisionRequestClearsPssModeError req then SDM_PSS_SUB_MODE_ERROR else 0 in
      if SdmDecisionRequestIsNoopOnly req then
        {| d_raised := 0;
           d_cleared := if SdmDecisionRequestIsGatewayCommRecovered req
                        then Z.lor cleared SDM_PSS_SUB_GATEWAY_COMM else cleared |}
      else if SdmDecisionRequestClearsPssSwFail req then
        {| d_raised := 0;
           d_cleared := Z.lor cleared (Z.lor SDM_PSS_SUB_SW_FAIL SDM_PSS_SUB_GATEWAY_COMM) |}
      else {| d_raised := SdmSwFailSubCausesRaised r; d_cleared := cleared |}
  end.

(** ** Source presence *)

Definition SDM_PRESENCE_GROUP_COUNT : Z := 3.

Definition SDM_PRESENCE_TRACKED_MASK : Z :=
  Z.lor (Z.lor PSS_PRESENCE_SAFETY_MONITOR PSS_PRESENCE_PERCEPTION_MONITOR) PSS_PRESENCE_MDX_MASK.

Definition SdmPresenceGroupMask (g : Z) : Z :=
  if g =? 0 then PSS_PRESENCE_SAFETY_MONITOR
  else if g =? 1 then PSS_PRESENCE_PERCEPTION_MONITOR
  else PSS_PRESENCE_MDX_MASK.

Definition SdmPresenceSubCause (g : Z) : Z :=
  if g =? 0 then SDM_PSS_SUB_MONITOR_LOST
  else if g =? 1 then SDM_PSS_SUB_PM_LOST
  else SDM_PSS_SUB_MDX_LOST.

Definition is_presence_report (ev : FusedSafetyEvent) : bool :=
  (ev_type ev =? PSS_STATUS_NOOP) && (ev_cause ev =? CAUSE_SOURCE_PRESENCE).

(** [Some (presenceMask, expectedMask)] when a report was found: the last one. *)
Definition SdmDecisionRequestFindPresenceReport (req : option DecisionRequest) : option (Z * Z) :=
  match req with
  | None => None
  | Some r =>
    fold_left (fun found d =>
      if is_presence_report (sd_event d) then Some (fm_objectID (ev_fusionMetadata (sd_event d))) else found)
      (populated r) None
  end.

Definition SdmSourceLostSubCause (cause : EventCause) : Z :=
  if SdmEventCauseIsSafetyMonitorLost cause then SDM_PSS_SUB_MONITOR_LOST
  else if SdmEventCauseIsPerceptionMonitorLost cause then SDM_PSS_SUB_PM_LOST
  else if SdmEventCauseIsMdxClientLost cause then SDM_PSS_SUB_MDX_LOST
  else 0.

(** First loop of [SdmSourcePresenceEvaluate]: [(seen, raised)]. *)
Definition presence_swfail (acc : Z * Z) (d : SensorData) : Z * Z :=
  let '(seen, raised) := acc in
  let ev := sd_event d in
  let lost := SdmSourceLostSubCause (ev_cause ev) in
  if (ev_type ev =? SW_FAIL) && negb (lost =? 0)
  then (Z.lor seen (Z.land (fm_objectID (ev_fusionMetadata ev)).1 SDM_PRESENCE_TRACKED_MASK),
        Z.lor raised lost)
  else acc.

(** Body of the loop over the groups. *)
Definition presence_group (mode : OperationalMode) (mask : Z)
    (acc : Z * SdmPssSubCauseDelta) (g : Z) : Z * SdmPssSubCauseDelta :=
  let '(seen, d) := acc in
  let group := SdmPresenceGroupMask g in
  let present := Z.land mask group in
  let missing := Z.land (Z.land seen group) (u32_not present) in
  let seen := Z.lor seen present in
  if negb (missing =? 0) then
    (seen, {| d_raised := Z.lor (d_raised d) (SdmPresenceSubCause g); d_cleared := d_cleared d |})
  else if negb (present =? 0) && negb (mode =? ERROR) &&
          (Z.land (d_raised d) (SdmPresenceSubCause g) =? 0) then
    (seen, {| d_raised := d_raised d; d_cleared := Z.lor (d_cleared d) (SdmPresenceSubCause g) |})
  else (seen, d).

Definition SdmSourcePresenceEvaluate (seen : Z) (req : option DecisionRequest) : Z * SdmPssSubCauseDelta :=
  match req with
  | None => (seen, no_delta)
  | Some r =>
    let '(seen, raised) := fold_left presence_swfail (populated r) (seen, 0) in
    let d := {| d_raised := raised; d_cleared := 0 |} in
    match SdmDecisionRequestFindPresenceReport req with
    | None => (seen, d)
    | Some (mask, expected) =>
      let seen := Z.lor seen (Z.land expected SDM_PRESENCE_TRACKED_MASK) in
      fold_left (presence_group (st_mode (dr_pssStatus r)) mask) [0; 1; 2] (seen, d)
    end
  end.

(** ** Input state *)

Definition input_state_swfail (fromSwFail : Z) (d : SensorData) : Z :=
  let ev := sd_event d in
  if (ev_type ev =? SW_FAIL) && SdmEventCauseIsClientInputUnusable (ev_cause ev)
  then Z.lor fromSwFail (Z.land (fm_objectID (ev_fusionMetadata ev)).1 PSS_INPUT_STATE_MASK)
  else fromSwFail.

Definition SdmSourceInputStateEvaluate (unusableSeen : Z) (req : option DecisionRequest)
    : Z * SdmPssSubCauseDelta :=
  match req with
  | None => (unusableSeen, no_delta)
  | Some r =>
    let before := unusableSeen in
    let fromSwFail := fold_left input_state_swfail (populated r) 0 in
    let unusableSeen := Z.lor unusableSeen fromSwFail in
    let unusableSeen :=
      match SdmDecisionRequestFindPresenceReport req with
      | None => unusableSeen
      | Some (present, expected) =>
        let unusable := Z.land (Z.shiftr present PSS_INPUT_STATE_SHIFT) PSS_INPUT_STATE_MASK in
        let confirmed := Z.land (Z.shiftr expected PSS_INPUT_STATE_SHIFT) PSS_INPUT_STATE_MASK in
        let unusableSeen := Z.lor unusableSeen unusable in
        if negb (st_mode (dr_pssStatus r) =? ERROR)
        then Z.land unusableSeen
               (u32_not (Z.land (Z.land confirmed (u32_not unusable)) (u32_not fromSwFail)))
        else unusableSeen
      end in
    (unusableSeen,
     if negb (unusableSeen =? 0) then {| d_raised := SDM_PSS_SUB_INPUT_UNUSABLE; d_cleared := 0 |}
     else if negb (before =? 0) then {| d_raised := 0; d_cleared := SDM_PSS_SUB_INPUT_UNUSABLE |}
     else no_delta)
  end.

(** ** AI-pipeline verdicts *)

Definition SDM_AI_VERDICT_SAW_INVALID : Z := 0x01.
Definition SDM_AI_VERDICT_ENTERED : Z := 0x02.
Definition SDM_AI_VERDICT_CLEARED : Z := 0x04.

(** Loop body on [(invalidActive, result)]. *)
Definition ai_verdict_entry (acc : bool * Z) (d : SensorData) : bool * Z :=
  let '(invalidActive, result) := acc in
  let ev := sd_event d in
  if ev_status ev =? STALE then acc
  else if ev_type ev =? AI_PIPELINE_INVALID then
    let result := Z.lor result SDM_AI_VERDICT_SAW_INVALID in
    if negb invalidActive then (true, Z.lor result SDM_AI_VERDICT_ENTERED) else (invalidActive, result)
  else if ev_type ev =? AI_PIPELINE_VALID then
    if invalidActive then (false, Z.lor result SDM_AI_VERDICT_CLEARED) else acc
  else acc.

Definition SdmAiPipelineVerdictApply (invalidActive : bool) (req : option DecisionRequest) : bool * Z :=
  match req with
  | None => (invalidActive, 0)
  | Some r => fold_left ai_verdict_entry (populated r) (invalidActive, 0)
  end.

(** ** Masks as sets

    [names m i]: identity [i] is in the mask [m]. *)

Definition names (m i : Z) : Prop := Z.testbit m i = true.

Definition group_member (g i : Z) : Prop := names (SdmPresenceGroupMask g) i.

(** The bit index of a group's sub-cause. *)
Definition sub_bit (g : Z) : Z := 3 + g.

Definition is_group (g : Z) : Prop := g = 0 \/ g = 1 \/ g = 2.

(** A SW_FAIL that reports the loss of a source of group [g]. *)
Definition lost_report (g : Z) (d : SensorData) : bool :=
  (ev_type (sd_event d) =? SW_FAIL) &&
  (SdmSourceLostSubCause (ev_cause (sd_event d)) =? SdmPresenceSubCause g).

(** A source-lost SW_FAIL of any group that names the tracked source [i]. *)
Definition lost_names (i : Z) (d : SensorData) : bool :=
  (ev_type (sd_event d) =? SW_FAIL) && negb (SdmSourceLostSubCause (ev_cause (sd_event d)) =? 0) &&
  Z.testbit (Z.land (fm_objectID (ev_fusionMetadata (sd_event d))).1 SDM_PRESENCE_TRACKED_MASK) i.

(** The sources the decision maker knows of when it looks at the report. *)
Definition known_sources (seen : Z) (r : DecisionRequest) (expected i : Z) : Prop :=
  names seen i \/ existsb (lost_names i) (populated r) = true \/
  names (Z.land expected SDM_PRESENCE_TRACKED_MASK) i.

Lemma land_eq_0_iff a b :
  0 <= a -> Z.land a b = 0 <-> forall i, 0 <= i -> Z.testbit a i = true -> Z.testbit b i = true -> False.
Proof.
  intros Ha. split.
  - intros H i Hi Hta Htb. apply (f_equal (fun z => Z.testbit z i)) in H.
    rewrite Z.land_spec, Hta, Htb, Z.testbit_0_l in H. done.
  - intros H. apply Z.bits_inj'. intros i Hi. rewrite Z.land_spec, Z.testbit_0_l.
    destruct (Z.testbit a i) eqn:Ea, (Z.testbit b i) eqn:Eb; try done. by destruct (H i Hi).
Qed.

Lemma nonzero_names m : 0 <= m -> m <> 0 <-> exists i, 0 <= i /\ names m i.
Proof.
  intros Hm. split.
  - intros Hne. exists (Z.log2 m). split; [apply Z.log2_nonneg|]. apply Z.bit_log2. lia.
  - intros (i & Hi & Hn) ->. unfold names in Hn. by rewrite Z.testbit_0_l in Hn.
Qed.

Lemma sub_cause_pow g : is_group g -> SdmPresenceSubCause g = 2 ^ sub_bit g.
Proof. by intros [-> | [-> | ->]]. Qed.

Lemma group_mask_range g : is_group g -> 0 <= SdmPresenceGroupMask g < 2 ^ 16.
Proof. by intros [-> | [-> | ->]]. Qed.

Lemma group_member_range g i : is_group g -> group_member g i -> 0 <= i < 16.
Proof.
  intros Hg Hm. split.
  - destruct (decide (0 <= i)) as [|Hneg]; [done|].
    unfold group_member, names in Hm. rewrite Z.testbit_neg_r in Hm by lia. done.
  - destruct (decide (i < 16)) as [|Hge]; [done|].
    unfold group_member, names in Hm. rewrite (testbit_range_high _ 16) in Hm; [done| |lia].
    by apply group_mask_range.
Qed.

Lemma group_disjoint g g' i : is_group g -> is_group g' -> g <> g' ->
  group_member g i -> group_member g' i -> False.
Proof.
  intros Hg Hg' Hne Hm Hm'. pose proof (group_member_range g i Hg Hm).
  assert (Z.land (SdmPresenceGroupMask g) (SdmPresenceGroupMask g') = 0) as Hz.
  { destruct Hg as [-> | [-> | ->]], Hg' as [-> | [-> | ->]]; done. }
  rewrite land_eq_0_iff in Hz by (by apply group_mask_range). by apply (Hz i ltac:(lia)).
Qed.

Lemma land_pow_zero a k : 0 <= k -> (Z.land a (2 ^ k) =? 0) = negb (Z.testbit a k).
Proof.
  intros Hk. destruct (Z.testbit a k) eqn:E; simpl.
  - apply Z.eqb_neq. intros H. apply (f_equal (fun z => Z.testbit z k)) in H.
    rewrite Z.land_spec, E, Z.pow2_bits_true, Z.testbit_0_l in H by done. done.
  - apply Z.eqb_eq, Z.bits_inj'. intros i Hi. rewrite Z.land_spec, Z.testbit_0_l.
    destruct (decide (i = k)) as [->|Hne]; [by rewrite E|].
    rewrite Z.pow2_bits_false by done. apply andb_false_r.
Qed.

(** ** The SW_FAIL loop of the presence evaluator *)

Lemma presence_swfail_seen l seen raised i :
  Z.testbit (fold_left presence_swfail l (seen, raised)).1 i =
  Z.testbit seen i || existsb (lost_names i) l.
Proof.
  revert seen raised. induction l as [|d l IH]; intros seen raised; simpl; [by rewrite orb_false_r|].
  unfold lost_names at 1.
  destruct ((ev_type (sd_event d) =? SW_FAIL) && negb (SdmSourceLostSubCause (ev_cause (sd_event d)) =? 0));
    rewrite IH; simpl; [by rewrite Z.lor_spec, orb_assoc|done].
Qed.

Lemma lost_sub_cause_bit c g : is_group g ->
  Z.testbit (SdmSourceLostSubCause c) (sub_bit g) = (SdmSourceLostSubCause c =? SdmPresenceSubCause g).
Proof. intros Hg. unfold SdmSourceLostSubCause. destruct Hg as [-> | [-> | ->]]; by repeat case_match. Qed.

Lemma presence_swfail_raised l seen raised g : is_group g ->
  Z.testbit (fold_left presence_swfail l (seen, raised)).2 (sub_bit g) =
  Z.testbit raised (sub_bit g) || existsb (lost_report g) l.
Proof.
  intros Hg. revert seen raised. induction l as [|d l IH]; intros seen raised; simpl; [by rewrite orb_false_r|].
  unfold lost_report at 1. rewrite <- lost_sub_cause_bit by done.
  destruct (ev_type (sd_event d) =? SW_FAIL); simpl; [|apply IH].
  destruct (Z.eqb_spec (SdmSourceLostSubCause (ev_cause (sd_event d))) 0) as [->|]; simpl; rewrite IH.
  - by rewrite Z.testbit_0_l.
  - by rewrite Z.lor_spec, orb_assoc.
Qed.

(** ** One group *)

Definition group_missing (seen mask g : Z) : bool :=
  negb (Z.land (Z.land seen (SdmPresenceGroupMask g)) (u32_not (Z.land mask (SdmPresenceGroupMask g))) =? 0).

Definition group_present (mask g : Z) : bool := negb (Z.land mask (SdmPresenceGroupMask g) =? 0).

Lemma presence_group_seen mode mask seen d g i :
  Z.testbit (presence_group mode mask (seen, d) g).1 i =
  Z.testbit seen i || Z.testbit (Z.land mask (SdmPresenceGroupMask g)) i.
Proof. unfold presence_group. by repeat case_match; simpl; rewrite Z.lor_spec. Qed.

Lemma testbit_sub_cause g g' : is_group g -> is_group g' ->
  Z.testbit (SdmPresenceSubCause g) (sub_bit g') = bool_decide (g = g').
Proof. by intros [-> | [-> | ->]] [-> | [-> | ->]]. Qed.

Lemma presence_group_raised mode mask seen d g g' : is_group g -> is_group g' ->
  Z.testbit (d_raised (presence_group mode mask (seen, d) g).2) (sub_bit g') =
  Z.testbit (d_raised d) (sub_bit g') || (bool_decide (g = g') && group_missing seen mask g).
Proof.
  intros Hg Hg'. unfold presence_group, group_missing.
  case_match; simpl; [by rewrite Z.lor_spec, testbit_sub_cause, andb_true_r by done|].
  rewrite andb_false_r, orb_false_r. by case_match.
Qed.

Lemma presence_group_cleared mode mask seen d g g' : is_group g -> is_group g' ->
  Z.testbit (d_cleared (presence_group mode mask (seen, d) g).2) (sub_bit g') =
  Z.testbit (d_cleared d) (sub_bit g') ||
  (bool_decide (g = g') && negb (group_missing seen mask g) && group_present mask g &&
   negb (mode =? ERROR) && negb (Z.testbit (d_raised d) (sub_bit g))).
Proof.
  intros Hg Hg'. unfold presence_group, group_missing, group_present.
  rewrite (sub_cause_pow g) at 2 by done.
  rewrite land_pow_zero by (destruct Hg as [-> | [-> | ->]]; unfold sub_bit; lia).
  case_match; simpl; [by rewrite andb_false_r, orb_false_r|].
  destruct (Z.land mask _ =? 0), (mode =? ERROR), (Z.testbit (d_raised d) (sub_bit g)); simpl;
    rewrite ?Z.lor_spec, ?testbit_sub_cause, ?andb_false_r, ?andb_true_r, ?orb_false_r by done; done.
Qed.

Lemma group_missing_false seen mask g : 0 <= seen -> 0 <= mask -> is_group g ->
  group_missing seen mask g = false <-> forall i, group_member g i -> names seen i -> names mask i.
Proof.
  intros Hs Hm Hg. unfold group_missing. rewrite negb_false_iff, Z.eqb_eq.
  assert (is_u32 (Z.land mask (SdmPresenceGroupMask g))) as Hu.
  { rewrite Z.land_comm. apply land_range; [lia| |done]. destruct (group_mask_range g Hg); lia. }
  rewrite land_eq_0_iff by (apply Z.land_nonneg; lia). split.
  - intros H i Hgi Hsi. pose proof (group_member_range g i Hg Hgi).
    specialize (H i ltac:(lia)). rewrite u32_not_spec, !Z.land_spec, Hsi, Hgi in H by (done || lia).
    unfold names. destruct (Z.testbit mask i); [done|]. by destruct (H eq_refl eq_refl).
  - intros H i Hi. rewrite Z.land_spec, andb_true_iff. intros [Hsi Hgi].
    pose proof (group_member_range g i Hg Hgi).
    rewrite u32_not_spec, Z.land_spec, Hgi, (H i Hgi Hsi) by (done || lia). done.
Qed.

Lemma group_missing_true seen mask g : 0 <= seen -> 0 <= mask -> is_group g ->
  group_missing seen mask g = true <-> exists i, group_member g i /\ names seen i /\ ~ names mask i.
Proof.
  intros Hs Hm Hg. split.
  - intros Hmiss. unfold group_missing in Hmiss. rewrite negb_true_iff, Z.eqb_neq, nonzero_names in Hmiss
      by (apply Z.land_nonneg; left; apply Z.land_nonneg; lia).
    destruct Hmiss as (i & Hi & Hm'). unfold names in Hm'.
    rewrite !Z.land_spec, !andb_true_iff in Hm'. destruct Hm' as [[Hsi Hgi] Hn].
    exists i. split_and!; [done..|]. intros Hmi. pose proof (group_member_range g i Hg Hgi).
    rewrite u32_not_spec, Z.land_spec, Hmi, Hgi in Hn; [done| |lia].
    rewrite Z.land_comm. apply land_range; [lia| |done]. destruct (group_mask_range g Hg); lia.
  - intros (i & Hgi & Hsi & Hn). apply not_false_iff_true. rewrite group_missing_false by done.
    intros H. by apply Hn, H.
Qed.

Lemma group_present_true mask g : 0 <= mask ->
  group_present mask g = true <-> exists i, group_member g i /\ names mask i.
Proof.
  intros Hm. unfold group_present. rewrite negb_true_iff, Z.eqb_neq.
  rewrite nonzero_names by (apply Z.land_nonneg; lia). split.
  - intros (i & _ & Hi). unfold names in Hi. rewrite Z.land_spec in Hi. bool_prop. by exists i.
  - intros (i & Hgi & Hi). exists i. split.
    + destruct (decide (0 <= i)); [done|]. unfold names in Hi. by rewrite Z.testbit_neg_r in Hi by lia.
    + unfold names. by rewrite Z.land_spec, Hi, Hgi.
Qed.

(** The groups do not share members, so each sees the sources known before the loop. *)
Lemma group_missing_ext s s' mask g :
  (forall i, group_member g i -> Z.testbit s i = Z.testbit s' i) ->
  group_missing s mask g = group_missing s' mask g.
Proof.
  intros H. unfold group_missing.
  replace (Z.land s (SdmPresenceGroupMask g)) with (Z.land s' (SdmPresenceGroupMask g)); [done|].
  apply Z.bits_inj'. intros i _. rewrite !Z.land_spec.
  destruct (Z.testbit (SdmPresenceGroupMask g) i) eqn:E; [by rewrite (H i E)|by rewrite !andb_false_r].
Qed.

Lemma group_missing_other mode mask s d g g' : is_group g -> is_group g' -> g <> g' ->
  group_missing (presence_group mode mask (s, d) g').1 mask g = group_missing s mask g.
Proof.
  intros Hg Hg' Hne. apply group_missing_ext. intros i Hi. rewrite presence_group_seen.
  destruct (Z.testbit (Z.land mask (SdmPresenceGroupMask g')) i) eqn:E; [|apply orb_false_r].
  rewrite Z.land_spec in E. bool_prop. by destruct (group_disjoint g g' i).
Qed.

Lemma presence_groups_spec mode mask s d g : is_group g ->
  let res := fold_left (presence_group mode mask) [0; 1; 2] (s, d) in
  Z.testbit (d_raised res.2) (sub_bit g) = Z.testbit (d_raised d) (sub_bit g) || group_missing s mask g /\
  Z.testbit (d_cleared res.2) (sub_bit g) =
    Z.testbit (d_cleared d) (sub_bit g) ||
    (negb (group_missing s mask g) && group_present mask g && negb (mode =? ERROR) &&
     negb (Z.testbit (d_raised d) (sub_bit g))).
Proof.
  intros Hg. cbn [fold_left].
  assert (is_group 0 /\ is_group 1 /\ is_group 2) as (G0 & G1 & G2) by (unfold is_group; lia).
  destruct (presence_group mode mask (s, d) 0) as [s1 d1] eqn:E1.
  destruct (presence_group mode mask (s1, d1) 1) as [s2 d2] eqn:E2.
  replace d1 with (presence_group mode mask (s, d) 0).2 in * by (by rewrite E1).
  replace s1 with (presence_group mode mask (s, d) 0).1 in * by (by rewrite E1).
  replace d2 with (presence_group mode mask
    ((presence_group mode mask (s, d) 0).1, (presence_group mode mask (s, d) 0).2) 1).2 by (by rewrite E2).
  replace s2 with (presence_group mode mask
    ((presence_group mode mask (s, d) 0).1, (presence_group mode mask (s, d) 0).2) 1).1 by (by rewrite E2).
  clear E1 E2. cbv zeta.
  destruct Hg as [-> | [-> | ->]];
    rewrite !presence_group_raised, !presence_group_cleared, ?presence_group_raised by done;
    rewrite ?group_missing_other by (done || lia); simpl;
    split; rewrite ?orb_false_r, ?andb_true_r; done.
Qed.

Lemma presence_groups_seen mode mask s d i :
  Z.testbit (fold_left (presence_group mode mask) [0; 1; 2] (s, d)).1 i =
  Z.testbit s i || Z.testbit (Z.land mask SDM_PRESENCE_TRACKED_MASK) i.
Proof.
  cbn [fold_left].
  destruct (presence_group mode mask (s, d) 0) as [s1 d1] eqn:E1.
  destruct (presence_group mode mask (s1, d1) 1) as [s2 d2] eqn:E2.
  rewrite presence_group_seen.
  pose proof (presence_group_seen mode mask s1 d1 1 i) as H2. rewrite E2 in H2. simpl in H2.
  pose proof (presence_group_seen mode mask s d 0 i) as H1. rewrite E1 in H1. simpl in H1.
  rewrite H2, H1, !Z.land_spec. unfold SDM_PRESENCE_TRACKED_MASK. rewrite !Z.lor_spec.
  change (SdmPresenceGroupMask 0) with PSS_PRESENCE_SAFETY_MONITOR.
  change (SdmPresenceGroupMask 1) with PSS_PRESENCE_PERCEPTION_MONITOR.
  change (SdmPresenceGroupMask 2) with PSS_PRESENCE_MDX_MASK. btauto.
Qed.

(** ** The presence evaluator *)

Lemma entry_objectID_range r d : wf_request r -> d ∈ populated r ->
  is_u32 (fm_objectID (ev_fusionMetadata (sd_event d))).1 /\
  is_u32 (fm_objectID (ev_fusionMetadata (sd_event d))).2.
Proof. intros W Hd. destruct (populated_wf r d W Hd) as [_ We]. apply wfm_oid, wfe_meta, We. Qed.

Lemma find_report_in r mask expected :
  SdmDecisionRequestFindPresenceReport (Some r) = Some (mask, expected) ->
  exists d, d ∈ populated r /\ is_presence_report (sd_event d) = true /\
    fm_objectID (ev_fusionMetadata (sd_event d)) = (mask, expected).
Proof.
  simpl. intros H. set (P := fun o : option (Z * Z) => o = Some (mask, expected) ->
    exists d, d ∈ populated r /\ is_presence_report (sd_event d) = true /\
      fm_objectID (ev_fusionMetadata (sd_event d)) = (mask, expected)).
  revert H. change (P (fold_left (fun found d => if is_presence_report (sd_event d)
    then Some (fm_objectID (ev_fusionMetadata (sd_event d))) else found) (populated r) None)).
  apply fold_left_ind; [done|]. intros o d Hd IH. unfold P. case_match; [|done].
  intros [= Heq]. by exists d.
Qed.

Lemma find_report_range r mask expected : wf_request r ->
  SdmDecisionRequestFindPresenceReport (Some r) = Some (mask, expected) -> is_u32 mask /\ is_u32 expected.
Proof.
  intros W (d & Hd & _ & Heq)%find_report_in. pose proof (entry_objectID_range r d W Hd) as H.
  by rewrite Heq in H.
Qed.

Lemma presence_swfail_nonneg r seen : wf_request r -> 0 <= seen ->
  0 <= (fold_left presence_swfail (populated r) (seen, 0)).1.
Proof.
  intros W Hs. apply (fold_left_ind (fun acc => 0 <= acc.1)); [done|].
  intros [s x] d Hd H. unfold presence_swfail. case_match; [|done].
  destruct (entry_objectID_range r d W Hd) as [[? _] _].
  apply Z.lor_nonneg; split; [done|]. apply Z.land_nonneg. by left.
Qed.

(** The sources known before the report is read. *)
Definition seen_before (seen : Z) (r : DecisionRequest) (expected : Z) : Z :=
  Z.lor (fold_left presence_swfail (populated r) (seen, 0)).1 (Z.land expected SDM_PRESENCE_TRACKED_MASK).

Lemma seen_before_known seen r expected i :
  names (seen_before seen r expected) i <-> known_sources seen r expected i.
Proof.
  unfold names, seen_before, known_sources, names. rewrite Z.lor_spec, presence_swfail_seen, !orb_true_iff. tauto.
Qed.

Lemma seen_before_nonneg seen r expected : wf_request r -> 0 <= seen -> 0 <= expected ->
  0 <= seen_before seen r expected.
Proof.
  intros W Hs He. apply Z.lor_nonneg. split; [by apply presence_swfail_nonneg|]. apply Z.land_nonneg. by left.
Qed.

Lemma presence_evaluate_eq seen r :
  SdmSourcePresenceEvaluate seen (Some r) =
  let d := {| d_raised := (fold_left presence_swfail (populated r) (seen, 0)).2; d_cleared := 0 |} in
  match SdmDecisionRequestFindPresenceReport (Some r) with
  | None => ((fold_left presence_swfail (populated r) (seen, 0)).1, d)
  | Some (mask, expected) =>
    fold_left (presence_group (st_mode (dr_pssStatus r)) mask) [0; 1; 2] (seen_before seen r expected, d)
  end.
Proof.
  unfold SdmSourcePresenceEvaluate, seen_before.
  by destruct (fold_left presence_swfail (populated r) (seen, 0)).
Qed.

Lemma presence_raised_spec seen r g : wf_request r -> 0 <= seen -> is_group g ->
  names (d_raised (SdmSourcePresenceEvaluate seen (Some r)).2) (sub_bit g) <->
  existsb (lost_report g) (populated r) = true \/
  exists mask expected i, SdmDecisionRequestFindPresenceReport (Some r) = Some (mask, expected) /\
    group_member g i /\ known_sources seen r expected i /\ ~ names mask i.
Proof.
  intros W Hs Hg. rewrite presence_evaluate_eq. cbv zeta.
  destruct (SdmDecisionRequestFindPresenceReport (Some r)) as [[mask expected]|] eqn:Ef.
  - destruct (find_report_range r mask expected W Ef) as [[? _] [? _]].
    unfold names at 1. rewrite (proj1 (presence_groups_spec _ _ _ _ g Hg)). simpl.
    rewrite presence_swfail_raised, Z.testbit_0_l by done. simpl. rewrite orb_true_iff.
    apply or_iff_compat_l. rewrite group_missing_true by (done || by apply seen_before_nonneg).
    setoid_rewrite seen_before_known. naive_solver.
  - simpl. unfold names at 1. rewrite presence_swfail_raised, Z.testbit_0_l by done. naive_solver.
Qed.

Lemma presence_cleared_spec seen r g : wf_request r -> 0 <= seen -> is_group g ->
  names (d_cleared (SdmSourcePresenceEvaluate seen (Some r)).2) (sub_bit g) <->
  exists mask expected, SdmDecisionRequestFindPresenceReport (Some r) = Some (mask, expected) /\
    st_mode (dr_pssStatus r) <> ERROR /\ existsb (lost_report g) (populated r) = false /\
    (forall i, group_member g i -> known_sources seen r expected i -> names mask i) /\
    exists i, group_member g i /\ names mask i.
Proof.
  intros W Hs Hg. rewrite presence_evaluate_eq. cbv zeta.
  destruct (SdmDecisionRequestFindPresenceReport (Some r)) as [[mask expected]|] eqn:Ef.
  - destruct (find_report_range r mask expected W Ef) as [[? _] [? _]].
    unfold names at 1. rewrite (proj2 (presence_groups_spec _ _ _ _ g Hg)). simpl.
    rewrite presence_swfail_raised, !Z.testbit_0_l by done. simpl.
    rewrite !andb_true_iff, !negb_true_iff, Z.eqb_neq, group_present_true, group_missing_false
      by (done || by apply seen_before_nonneg).
    split.
    + intros [[[Hm Hp] Hmode] Hl]. exists mask, expected. split_and!; try done.
      intros i Hgi Hk. apply Hm; [done|]. by apply seen_before_known.
    + intros (m & e & Heq & Hmode & Hl & Hall & Hp). simplify_eq. split_and!; try done.
      intros i Hgi Hk. apply Hall; [done|]. by apply seen_before_known.
  - simpl. unfold names. rewrite Z.testbit_0_l. naive_solver.
Qed.

Lemma presence_seen_mono seen r i :
  names seen i -> names (SdmSourcePresenceEvaluate seen (Some r)).1 i.
Proof.
  intros Hi. rewrite presence_evaluate_eq. cbv zeta.
  destruct (SdmDecisionRequestFindPresenceReport (Some r)) as [[mask expected]|]; unfold names.
  - rewrite presence_groups_seen. unfold seen_before. by rewrite Z.lor_spec, presence_swfail_seen, Hi.
  - simpl. by rewrite presence_swfail_seen, Hi.
Qed.

Lemma presence_seen_nonneg seen r : wf_request r -> 0 <= seen ->
  0 <= (SdmSourcePresenceEvaluate seen (Some r)).1.
Proof.
  intros W Hs. rewrite presence_evaluate_eq. cbv zeta.
  destruct (SdmDecisionRequestFindPresenceReport (Some r)) as [[mask expected]|] eqn:Ef.
  - destruct (find_report_range r mask expected W Ef) as [[? _] [? _]].
    apply (fold_left_ind (fun acc => 0 <= acc.1)); [by apply seen_before_nonneg|].
    intros [s d] g _ Hnn. unfold presence_group.
    repeat case_match; simpl; (apply Z.lor_nonneg; split; [done|]; apply Z.land_nonneg; by left).
  - by apply presence_swfail_nonneg.
Qed.

(** ** The input-state evaluator *)

Definition input_named (r : DecisionRequest) : Z := fold_left input_state_swfail (populated r) 0.

(** Identities a report marks unusable / confirmed usable. *)
Definition report_unusable (present : Z) : Z := Z.land (Z.shiftr present PSS_INPUT_STATE_SHIFT) PSS_INPUT_STATE_MASK.
Definition report_confirmed (expected : Z) : Z := Z.land (Z.shiftr expected PSS_INPUT_STATE_SHIFT) PSS_INPUT_STATE_MASK.

Lemma input_named_range r : wf_request r -> is_u32 (input_named r).
Proof.
  intros W. unfold input_named. apply (fold_left_ind is_u32); [done|]. intros a d Hd Ha. unfold input_state_swfail. case_match; [|done].
  destruct (entry_objectID_range r d W Hd) as [Hr _]. apply lor_range; [lia|done|]. by apply land_range.
Qed.

Lemma report_unusable_range m : is_u32 m -> is_u32 (report_unusable m).
Proof. intros H. apply land_range; [lia| |done]. apply shiftr_range; done. Qed.

(** A report confirms identity [i] usable: it is the only evidence that
    removes one. *)
Definition confirms_usable (r : DecisionRequest) (i : Z) : Prop :=
  exists present expected, SdmDecisionRequestFindPresenceReport (Some r) = Some (present, expected) /\
    st_mode (dr_pssStatus r) <> ERROR /\ names (report_confirmed expected) i /\
    ~ names (report_unusable present) i /\ ~ names (input_named r) i.

Definition reports_unusable (r : DecisionRequest) (i : Z) : Prop :=
  exists present expected, SdmDecisionRequestFindPresenceReport (Some r) = Some (present, expected) /\
    names (report_unusable present) i.

Lemma input_seen_range seen r : wf_request r -> is_u32 seen ->
  is_u32 (SdmSourceInputStateEvaluate seen (Some r)).1.
Proof.
  intros W Hs. unfold SdmSourceInputStateEvaluate.
  change (fold_left input_state_swfail (populated r) 0) with (input_named r).
  pose proof (input_named_range r W).
  destruct (SdmDecisionRequestFindPresenceReport (Some r)) as [[p e]|] eqn:Ef; simpl.
  - destruct (find_report_range r p e W Ef) as [Hp He].
    change (Z.land (Z.shiftr p PSS_INPUT_STATE_SHIFT) PSS_INPUT_STATE_MASK) with (report_unusable p).
    change (Z.land (Z.shiftr e PSS_INPUT_STATE_SHIFT) PSS_INPUT_STATE_MASK) with (report_confirmed e).
    pose proof (report_unusable_range p Hp). pose proof (report_unusable_range e He).
    assert (is_u32 (Z.lor (Z.lor seen (input_named r)) (report_unusable p)))
      by (repeat apply lor_range; done || lia).
    case_match; [|done]. apply land_range; [lia|done|].
    apply u32_not_range, land_range; [lia| |apply u32_not_range; done].
    apply land_range; [lia|done|apply u32_not_range; done].
  - apply lor_range; done || lia.
Qed.

Lemma input_seen_spec seen r i : wf_request r -> is_u32 seen -> 0 <= i < 32 ->
  names (SdmSourceInputStateEvaluate seen (Some r)).1 i <->
  (names seen i \/ names (input_named r) i \/ reports_unusable r i) /\ ~ confirms_usable r i.
Proof.
  intros W Hs Hi. unfold SdmSourceInputStateEvaluate, confirms_usable, reports_unusable.
  change (fold_left input_state_swfail (populated r) 0) with (input_named r).
  pose proof (input_named_range r W).
  destruct (SdmDecisionRequestFindPresenceReport (Some r)) as [[p e]|] eqn:Ef; simpl.
  2: { unfold names. rewrite Z.lor_spec, orb_true_iff. naive_solver. }
  destruct (find_report_range r p e W Ef) as [Hp He].
  change (Z.land (Z.shiftr p PSS_INPUT_STATE_SHIFT) PSS_INPUT_STATE_MASK) with (report_unusable p).
  change (Z.land (Z.shiftr e PSS_INPUT_STATE_SHIFT) PSS_INPUT_STATE_MASK) with (report_confirmed e).
  pose proof (report_unusable_range p Hp). pose proof (report_unusable_range e He).
  destruct (Z.eqb_spec (st_mode (dr_pssStatus r)) ERROR) as [Hm|Hm]; simpl; unfold names.
  - rewrite !Z.lor_spec, !orb_true_iff. naive_solver.
  - assert (is_u32 (Z.land (Z.land (report_confirmed e) (u32_not (report_unusable p))) (u32_not (input_named r)))).
    { apply land_range; [lia| |apply u32_not_range; done]. apply land_range; [lia|done|apply u32_not_range; done]. }
    rewrite Z.land_spec, u32_not_spec, !Z.land_spec, !u32_not_spec, !Z.lor_spec by done.
    split.
    + intros Hb. split; [|intros (p' & e' & [= <- <-] & _ & Hc & Hu & Hn)].
      * destruct (Z.testbit seen i); [by left|right]. destruct (Z.testbit (input_named r) i); [by left|right].
        exists p, e. by destruct (Z.testbit (report_unusable p) i).
      * unfold names in *. rewrite Hc in Hb. apply not_true_is_false in Hu, Hn. rewrite Hu, Hn in Hb.
        by rewrite andb_false_r in Hb.
    + intros [Hin Hno].
      assert (Z.testbit seen i || Z.testbit (input_named r) i || Z.testbit (report_unusable p) i = true) as ->.
      { destruct Hin as [-> | [-> | (p' & e' & [= <- <-] & ->)]]; btauto. }
      apply negb_true_iff, not_true_is_false. intros Hb. rewrite !andb_true_iff, !negb_true_iff in Hb.
      destruct Hb as [[Hc Hu] Hn]. apply Hno. exists p, e. unfold names. rewrite Hc, Hu, Hn. by split_and!.
Qed.

Lemma input_delta_spec seen r :
  let res := SdmSourceInputStateEvaluate seen (Some r) in
  d_raised res.2 = (if res.1 =? 0 then 0 else SDM_PSS_SUB_INPUT_UNUSABLE) /\
  d_cleared res.2 = (if (res.1 =? 0) && negb (seen =? 0) then SDM_PSS_SUB_INPUT_UNUSABLE else 0).
Proof.
  unfold SdmSourceInputStateEvaluate. cbn [fst snd].
  match goal with |- context[negb (?u =? 0)] => destruct (u =? 0) end; simpl; [|done].
  by destruct (seen =? 0).
Qed.

(** ** The PSS evaluator *)

Lemma SwFailSubCause_bit ev k : 0 <= k ->
  Z.testbit (SdmSwFailSubCause ev) k = (SdmSwFailSubCause ev =? 2 ^ k).
Proof.
  intros Hk.
  assert (exists n, 0 <= n /\ SdmSwFailSubCause ev = 2 ^ n) as (n & Hn & ->).
  { unfold SdmSwFailSubCause.
    repeat case_match; [exists 1|exists 3|exists 4|exists 5|exists 6|exists 2]; done. }
  destruct (Z.eqb_spec (2 ^ n) (2 ^ k)) as [Heq|Hne].
  - apply (Z.pow_inj_r 2) in Heq as ->; [|lia..]. by apply Z.pow2_bits_true.
  - apply Z.pow2_bits_false. congruence.
Qed.

Lemma SwFailSubCausesRaised_bit r k : 0 <= k ->
  Z.testbit (SdmSwFailSubCausesRaised r) k =
  existsb (fun d => (ev_type (sd_event d) =? SW_FAIL) && (SdmSwFailSubCause (sd_event d) =? 2 ^ k)) (populated r).
Proof.
  intros Hk. unfold SdmSwFailSubCausesRaised. rewrite <- (orb_false_l (existsb _ _)), <- (Z.testbit_0_l k).
  generalize 0. induction (populated r) as [|d l IH]; intros a; simpl; [by rewrite orb_false_r|].
  rewrite IH. destruct (ev_type (sd_event d) =? SW_FAIL); simpl; [|done].
  by rewrite Z.lor_spec, SwFailSubCause_bit, orb_assoc.
Qed.

Lemma SwFailSubCausesRaised_spec r k : 0 <= k ->
  names (SdmSwFailSubCausesRaised r) k <->
  exists d, d ∈ populated r /\ ev_type (sd_event d) = SW_FAIL /\ SdmSwFailSubCause (sd_event d) = 2 ^ k.
Proof.
  intros Hk. unfold names. rewrite SwFailSubCausesRaised_bit, existsb_elem_of by done.
  by setoid_rewrite andb_true_iff; setoid_rewrite Z.eqb_eq.
Qed.

Lemma contains_sw_fail_spec r :
  SdmDecisionRequestContainsSwFail (Some r) = true <->
  exists d, d ∈ populated r /\ ev_type (sd_event d) = SW_FAIL.
Proof. simpl. rewrite existsb_elem_of. setoid_rewrite Z.eqb_eq. done. Qed.

(** Without a SW_FAIL nothing is raised. *)
Lemma SwFailSubCausesRaised_zero r :
  SdmDecisionRequestContainsSwFail (Some r) = false -> SdmSwFailSubCausesRaised r = 0.
Proof.
  intros Hno. apply Z.bits_inj'. intros k Hk. rewrite Z.testbit_0_l. apply not_true_is_false.
  intros (d & Hd & Ht & _)%SwFailSubCausesRaised_spec; [|done].
  apply not_true_iff_false in Hno. apply Hno, contains_sw_fail_spec. by exists d.
Qed.

(** ** The AI verdict *)

(** The last verdict of a list that is not stale decides the state. *)
Definition is_ai_verdict (d : SensorData) : bool :=
  negb (ev_status (sd_event d) =? STALE) &&
  ((ev_type (sd_event d) =? AI_PIPELINE_INVALID) || (ev_type (sd_event d) =? AI_PIPELINE_VALID)).

Lemma ai_verdict_entry_eq active result d :
  is_ai_verdict d = false -> ai_verdict_entry (active, result) d = (active, result).
Proof.
  unfold is_ai_verdict, ai_verdict_entry. destruct (ev_status (sd_event d) =? STALE); [done|]. simpl.
  intros H. bool_prop. repeat case_match; bool_prop; done.
Qed.

Lemma ai_verdict_final l active result :
  (fold_left ai_verdict_entry l (active, result)).1 =
  match last (filter (fun d => is_ai_verdict d = true) l) with
  | None => active
  | Some d => ev_type (sd_event d) =? AI_PIPELINE_INVALID
  end.
Proof.
  revert active result. induction l as [|d l IH]; intros active result; [done|].
  cbn [fold_left]. destruct (is_ai_verdict d) eqn:Ev.
  - destruct (ai_verdict_entry (active, result) d) as [a' r'] eqn:Ed. rewrite IH, filter_cons_True by done.
    assert (a' = (ev_type (sd_event d) =? AI_PIPELINE_INVALID)) as ->.
    { unfold ai_verdict_entry in Ed. unfold is_ai_verdict in Ev.
      destruct (ev_status (sd_event d) =? STALE); [done|].
      destruct (Z.eqb_spec (ev_type (sd_event d)) AI_PIPELINE_INVALID), (ev_type (sd_event d) =? AI_PIPELINE_VALID),
        active; simplify_eq/=; done. }
    rewrite last_cons. by destruct (last _).
  - rewrite ai_verdict_entry_eq, IH, filter_cons_False by (done || congruence). done.
Qed.

(** A change of state sets the matching result bit, and no bit is lost. *)
Lemma ai_verdict_entry_bits active result d :
  let res := ai_verdict_entry (active, result) d in
  (forall k, Z.testbit result k = true -> Z.testbit res.2 k = true) /\
  (active = false -> res.1 = true -> Z.testbit res.2 1 = true) /\
  (active = true -> res.1 = false -> Z.testbit res.2 2 = true) /\
  (is_ai_verdict d && (ev_type (sd_event d) =? AI_PIPELINE_INVALID) = true -> Z.testbit res.2 0 = true).
Proof.
  unfold ai_verdict_entry, is_ai_verdict.
  destruct (ev_status (sd_event d) =? STALE), (ev_type (sd_event d) =? AI_PIPELINE_INVALID),
    (ev_type (sd_event d) =? AI_PIPELINE_VALID), active; cbn [fst snd negb andb orb];
    (split_and!; intros; try done); rewrite ?Z.lor_spec, ?orb_true_iff; auto.
Qed.

Lemma ai_verdict_bits l active result :
  let res := fold_left ai_verdict_entry l (active, result) in
  (forall k, Z.testbit result k = true -> Z.testbit res.2 k = true) /\
  (active = false -> res.1 = true -> Z.testbit res.2 1 = true) /\
  (active = true -> res.1 = false -> Z.testbit res.2 2 = true) /\
  (existsb (fun d => is_ai_verdict d && (ev_type (sd_event d) =? AI_PIPELINE_INVALID)) l = true ->
   Z.testbit res.2 0 = true).
Proof.
  revert active result. induction l as [|d l IH]; intros active result; cbv zeta; cbn [fold_left existsb].
  - split_and!; simpl; congruence.
  - destruct (ai_verdict_entry_bits active result d) as (Sm & S1 & S2 & S0).
    destruct (ai_verdict_entry (active, result) d) as [a' r']. cbn [fst snd] in *.
    destruct (IH a' r') as (Hm & H1 & H2 & H0). rewrite orb_true_iff. split_and!.
    + auto.
    + intros Ha Hr. destruct a'; auto.
    + intros Ha Hr. destruct a'; auto.
    + intros [?|?]; auto.
Qed.

(** ** Properties *)

(** What one request does to the sub-cause of a source group.  It is raised
    exactly when a SW_FAIL reports the group lost or the presence report omits
    a member the decision maker knows of (seen before, named lost, or expected
    by the report); it is cleared exactly when a report outside ERROR mode names
    every known member and at least one, and no SW_FAIL in the request reports
    the group lost.  A source once seen stays known. *)
Theorem source_presence_spec seen r g :
  wf_request r -> 0 <= seen -> is_group g ->
  let seen' := (SdmSourcePresenceEvaluate seen (Some r)).1 in
  let d := (SdmSourcePresenceEvaluate seen (Some r)).2 in
  let lost := existsb (lost_report g) (populated r) = true in
  let report := SdmDecisionRequestFindPresenceReport (Some r) in
  (names (d_raised d) (sub_bit g) <->
     lost \/ exists mask expected i, report = Some (mask, expected) /\ group_member g i /\
               known_sources seen r expected i /\ ~ names mask i) /\
  (names (d_cleared d) (sub_bit g) <->
     exists mask expected, report = Some (mask, expected) /\ st_mode (dr_pssStatus r) <> ERROR /\ ~ lost /\
       (forall i, group_member g i -> known_sources seen r expected i -> names mask i) /\
       exists i, group_member g i /\ names mask i) /\
  (forall i, names seen i -> names seen' i).
Proof.
  intros W Hs Hg. cbv zeta. split_and!.
  - by apply presence_raised_spec.
  - rewrite presence_cleared_spec by done. by setoid_rewrite not_true_iff_false.
  - apply presence_seen_mono.
Qed.

(** The presence report names the Perception Monitor but not the expected
    Safety Monitor. *)
Definition sample_report (mode : OperationalMode) (present expected : Z) : DecisionRequest := {|
  dr_requestId := 3; dr_sensorDataSummarySize := 1;
  dr_sensorDataSummary :=
    {| sd_clientID := 0; sd_isHealthy := true; sd_isTrustedSource := true;
       sd_event := {| ev_id := 1; ev_sensorIdentifier := replicate MAX_INDENTIFIER_LENGTH 0;
         ev_type := PSS_STATUS_NOOP; ev_cause := CAUSE_SOURCE_PRESENCE; ev_severity := OPERATIONAL;
         ev_timestamp := 5; ev_confidenceLevel := f32_one; ev_status := PASSTHROUGH;
         ev_fusionMetadata := set_fm_objectID (present, expected) zero_metadata |} |}
    :: replicate 7 zero_sensorData;
  dr_pssStatus := {| st_hardwareErrorFlag := false; st_softwareErrorFlag := false; st_mode := mode |};
  dr_integrity := zero_integrity |}.

Lemma wf_sample_report mode present expected :
  is_i32 mode -> is_u32 present -> is_u32 expected -> wf_request (sample_report mode present expected).
Proof.
  intros Hm Hp He. constructor; try done. simpl. constructor.
  - split; [done|]. constructor; try done; [split; [done|]; by repeat constructor|].
    destruct wf_zero_metadata. by constructor.
  - repeat (constructor; [by split; [|apply wf_zero_event]|]). constructor.
Qed.

Lemma source_presence_spec_witness :
  names (d_raised (SdmSourcePresenceEvaluate 0 (Some (sample_report NORMAL 2 3))).2) (sub_bit 0) /\
  names (d_cleared (SdmSourcePresenceEvaluate 0 (Some (sample_report NORMAL 2 3))).2) (sub_bit 1).
Proof.
  assert (wf_request (sample_report NORMAL 2 3)) as W by (apply wf_sample_report; unfold is_i32, is_u32; codes; lia).
  split.
  - apply (source_presence_spec 0 (sample_report NORMAL 2 3) 0 W ltac:(lia) ltac:(by left)).
    right. exists 2, 3, 0. split_and!; [reflexivity|reflexivity|right; right; reflexivity|discriminate].
  - vm_compute. reflexivity.
Defined.

(** Identity [i] is held unusable after a request exactly when it was held,
    named by a SW_FAIL, or reported unusable, and the request does not carry a
    report outside ERROR mode that confirms it usable; the sub-cause is raised
    exactly while some identity is held and cleared exactly when the last one
    leaves. *)
Theorem input_state_spec seen r i :
  wf_request r -> is_u32 seen -> 0 <= i < 32 ->
  let seen' := (SdmSourceInputStateEvaluate seen (Some r)).1 in
  let d := (SdmSourceInputStateEvaluate seen (Some r)).2 in
  (names seen' i <->
     (names seen i \/ names (input_named r) i \/ reports_unusable r i) /\ ~ confirms_usable r i) /\
  d_raised d = (if seen' =? 0 then 0 else SDM_PSS_SUB_INPUT_UNUSABLE) /\
  d_cleared d = (if (seen' =? 0) && negb (seen =? 0) then SDM_PSS_SUB_INPUT_UNUSABLE else 0).
Proof.
  intros W Hs Hi. cbv zeta. split; [by apply input_seen_spec|apply input_delta_spec].
Qed.

Lemma input_state_spec_witness :
  names (SdmSourceInputStateEvaluate 2 (Some (sample_report ERROR 0 0x20000))).1 1 /\
  (SdmSourceInputStateEvaluate 2 (Some (sample_report NORMAL 0 0x20000))).1 = 0.
Proof.
  assert (wf_request (sample_report ERROR 0 0x20000)) as W by (apply wf_sample_report; unfold is_i32, is_u32; codes; lia).
  split; [|vm_compute; reflexivity].
  apply (input_state_spec 2 (sample_report ERROR 0 0x20000) 1 W ltac:(unfold is_u32; lia) ltac:(lia)).
  split; [left; reflexivity|]. intros (p & e & _ & Hm & _). by apply Hm.
Defined.

(** AI-pipeline verdicts: after a request the pipeline is distrusted exactly
    as its last non-stale verdict says (unchanged when it has none), and every
    change of the state is reported by its edge bit. *)
Theorem ai_verdict_spec active r :
  let '(active', result) := SdmAiPipelineVerdictApply active (Some r) in
  active' = match last (filter (fun d => is_ai_verdict d = true) (populated r)) with
            | None => active
            | Some d => ev_type (sd_event d) =? AI_PIPELINE_INVALID
            end /\
  (active = false -> active' = true -> Z.testbit result 1 = true) /\
  (active = true -> active' = false -> Z.testbit result 2 = true) /\
  (existsb (fun d => is_ai_verdict d && (ev_type (sd_event d) =? AI_PIPELINE_INVALID)) (populated r) = true ->
   Z.testbit result 0 = true).
Proof.
  unfold SdmAiPipelineVerdictApply.
  pose proof (ai_verdict_final (populated r) active 0) as Hf.
  pose proof (ai_verdict_bits (populated r) active 0) as (_ & Hb).
  destruct (fold_left ai_verdict_entry (populated r) (active, 0)) as [a' res]. by split.
Qed.
