(* ===== verification/GatewayContract.v ===== *)
(** * Gateway contract

    [NvPSDGatewayContract.hpp] and [NvPSDGatewayProtocol.h]: the pure rules of
    the decision-maker gateway.  Registration messages and their rate limit,
    the sequence check of PSS request ids, the Gateway-to-SDM packet, and the
    requests the gateway synthesises about its own link to PSS. *)

From S2P Require Import Prelude Protocol Crc Validate SdmRequestState.

(** ** Registration refusals *)

Definition NVPSD_REG_REJECT_MALFORMED : Z := 1.
Definition NVPSD_REG_REJECT_NO_VALID_EVENT_TYPES : Z := 2.
Definition NVPSD_REG_REJECT_TABLE_FULL : Z := 3.
Definition NVPSD_REG_REJECT_RATE_LIMITED : Z := 4.

Definition NVPSD_GATEWAY_REG_REJECT_MAGIC : list Z := bytes_of_string "RGNK".
Definition NVPSD_GATEWAY_REG_REJECT_MSG_SIZE : nat := 5.

Definition NvPSDGatewayBuildRegReject (reason : Z) : list Z := NVPSD_GATEWAY_REG_REJECT_MAGIC ++ [reason].

(** [Some reason] when the message is a refusal. *)
Definition NvPSDGatewayParseRegReject (buf : option (list Z)) : option Z :=
  match buf with
  | None => None
  | Some b =>
    if bool_decide (length b = NVPSD_GATEWAY_REG_REJECT_MSG_SIZE) &&
       bool_decide (take 4 b = NVPSD_GATEWAY_REG_REJECT_MAGIC)
    then Some (nth 4 b 0) else None
  end.

(** ** Subscriptions *)

Definition NVPSD_GATEWAY_MAX_EVENT_TYPES_PER_CLIENT : Z := 32.

Definition mandatory_event_types : list EventType :=
  [SW_FAIL; PSS_STATUS_NOOP; SENSOR_INVALID; SENSOR_VALID; AI_PIPELINE_INVALID; AI_PIPELINE_VALID].

Definition NvPSDGatewayAddMandatoryEventTypes (types : gset Z) : gset Z :=
  foldl (fun s t => {[t]} ∪ s) types mandatory_event_types.

Definition NvPSDGatewayIsAllowedHealthEventType (raw : Z) : bool :=
  (raw =? SENSOR_INVALID) || (raw =? SENSOR_VALID) || (raw =? AI_PIPELINE_INVALID) || (raw =? AI_PIPELINE_VALID).

(** The types a REGR may ask for. *)
Definition subscribable (raw : Z) : bool :=
  negb ((EVENT_UNKNOWN <=? raw) && negb (NvPSDGatewayIsAllowedHealthEventType raw)).

(** [None] is the [false] return; the caller's set is then of no interest. *)
Definition NvPSDGatewayBuildRegisteredEventSet (rawEventTypes : option (list Z)) (count : Z) : option (gset Z) :=
  match rawEventTypes with
  | None => None
  | Some raws =>
    if (count =? 0) || (NVPSD_GATEWAY_MAX_EVENT_TYPES_PER_CLIENT <? count) then None
    else
      let out := fold_left (fun (s : gset Z) raw => if subscribable raw then {[raw]} ∪ s else s)
                   (take (Z.to_nat count) raws) ∅ in
      if decide (out = ∅) then None else Some (NvPSDGatewayAddMandatoryEventTypes out)
  end.

(** [ntohl] of the four bytes at an offset. *)
Definition be32_at (buf : list Z) (off : nat) : Z :=
  Z.lor (Z.shiftl (nth off buf 0) 24) (Z.lor (Z.shiftl (nth (off + 1) buf 0) 16)
    (Z.lor (Z.shiftl (nth (off + 2) buf 0) 8) (nth (off + 3) buf 0))).

(** A refusal reason, or the set to register. *)
Definition NvPSDGatewayClassifyRegr (buf : option (list Z)) : Z + gset Z :=
  match buf with
  | None => inl NVPSD_REG_REJECT_MALFORMED
  | Some b =>
    let n := Z.of_nat (length b) in
    if n <? 5 then inl NVPSD_REG_REJECT_MALFORMED
    else
      let count := nth 4 b 0 in
      if (count =? 0) || (NVPSD_GATEWAY_MAX_EVENT_TYPES_PER_CLIENT <? count) || (n <? 5 + count * 4)
      then inl NVPSD_REG_REJECT_MALFORMED
      else
        let raw := map (fun i => be32_at b (5 + i * 4)) (seq 0 (Z.to_nat count)) in
        match NvPSDGatewayBuildRegisteredEventSet (Some raw) count with
        | None => inl NVPSD_REG_REJECT_NO_VALID_EVENT_TYPES
        | Some s => inr s
        end
  end.

(** The REGR a decision maker sends for a list of event types. *)
Definition be_bytes32 (z : Z) : list Z :=
  [Z.land (Z.shiftr z 24) 0xFF; Z.land (Z.shiftr z 16) 0xFF; Z.land (Z.shiftr z 8) 0xFF; Z.land z 0xFF].

Definition build_regr (types : list Z) : list Z :=
  bytes_of_string "REGR" ++ [Z.of_nat (length types)] ++ concat (map be_bytes32 types).

(** ** Registration rate limit *)

Inductive NvPSDGatewayRegrAdmission := ADMIT | REFUSE_NOTIFY | REFUSE_SILENT.

#[export] Instance RegrAdmission_eq_dec : EqDecision NvPSDGatewayRegrAdmission.
Proof. solve_decision. Defined.

Record RegrEntry := { re_windowStartMs : Z; re_count : Z; re_notified : bool }.

Record RegrRateLimiter := {
  rl_maxPerWindow : Z;
  rl_windowMs : Z;
  rl_entries : gmap Z RegrEntry;
}.

Definition fresh_entry : RegrEntry := {| re_windowStartMs := 0; re_count := 0; re_notified := false |}.

Definition regr_configure (maxPerWindow windowMs : Z) : RegrRateLimiter :=
  {| rl_maxPerWindow := maxPerWindow; rl_windowMs := windowMs; rl_entries := ∅ |}.

(** [admit] on one entry. *)
Definition admit_entry (maxPerWindow windowMs : Z) (e : RegrEntry) (nowMs : Z)
    : RegrEntry * NvPSDGatewayRegrAdmission :=
  let e := if (re_count e =? 0) || (nowMs <? re_windowStartMs e) || (windowMs <=? nowMs - re_windowStartMs e)
           then {| re_windowStartMs := nowMs; re_count := 0; re_notified := false |} else e in
  if re_count e <? maxPerWindow then
    ({| re_windowStartMs := re_windowStartMs e; re_count := u32 (re_count e + 1); re_notified := re_notified e |}, ADMIT)
  else if negb (re_notified e) then
    ({| re_windowStartMs := re_windowStartMs e; re_count := re_count e; re_notified := true |}, REFUSE_NOTIFY)
  else (e, REFUSE_SILENT).

Definition regr_admit (l : RegrRateLimiter) (peer nowMs : Z) : RegrRateLimiter * NvPSDGatewayRegrAdmission :=
  let '(e, a) := admit_entry (rl_maxPerWindow l) (rl_windowMs l) (default fresh_entry (rl_entries l !! peer)) nowMs in
  ({| rl_maxPerWindow := rl_maxPerWindow l; rl_windowMs := rl_windowMs l;
      rl_entries := <[peer := e]> (rl_entries l) |}, a).

Definition regr_forget (l : RegrRateLimiter) (peer : Z) : RegrRateLimiter :=
  {| rl_maxPerWindow := rl_maxPerWindow l; rl_windowMs := rl_windowMs l;
     rl_entries := delete peer (rl_entries l) |}.

(** ** Forwarding rules *)

Definition NvPSDGatewayIsStatusNoopOnlyRequest (req : DecisionRequest) : bool :=
  negb (st_mode (dr_pssStatus req) =? ERROR) && (dr_sensorDataSummarySize req =? 1) &&
  (ev_type (sd_event (first_entry req)) =? PSS_STATUS_NOOP).

Definition NvPSDGatewayShouldSendDecisionRequest (sendFullRequest : bool) (eventCount : Z)
    (pssMode : OperationalMode) : bool :=
  if sendFullRequest then (0 <? eventCount) || (pssMode =? ERROR) else 0 <? eventCount.

(** ** The Gateway-to-SDM packet *)

Definition NVPSD_GATEWAY_DECISION_MAGIC : list Z := bytes_of_string "DRPG".
Definition NVPSD_GATEWAY_DECISION_PACKET_VERSION : Z := 1.
Definition NVPSD_GATEWAY_DECISION_TX_SEQ_MIN : Z := 1.
Definition NVPSD_GATEWAY_DECISION_TX_SEQ_MAX : Z := UINT32_MAX - 1.
Definition NVPSD_GATEWAY_DECISION_EPOCH_MAX : Z := UINT64_MAX.
Definition NVPSD_GATEWAY_DECISION_HEADER_SIZE : Z := 20.

Record NvPSDGatewayDecisionRequestPacket := {
  pk_magic : list Z;
  pk_version : Z;
  pk_headerSize : Z;
  pk_gatewayEpoch : Z;
  pk_gatewayTxSeq : Z;
  pk_request : DecisionRequest;
}.

Definition NvPSDGatewayDecisionPacketEpochIsValid (epoch : Z) : bool :=
  negb (epoch =? 0) && negb (epoch =? NVPSD_GATEWAY_DECISION_EPOCH_MAX).

Definition NvPSDGatewayDecisionPacketSequenceIsValid (txSeq : Z) : bool :=
  (NVPSD_GATEWAY_DECISION_TX_SEQ_MIN <=? txSeq) && (txSeq <=? NVPSD_GATEWAY_DECISION_TX_SEQ_MAX).

Definition NvPSDGatewayDecisionPacketHeaderIsValid (packet : option NvPSDGatewayDecisionRequestPacket) : bool :=
  match packet with
  | None => false
  | Some p =>
    bool_decide (pk_magic p = NVPSD_GATEWAY_DECISION_MAGIC) &&
    (pk_version p =? NVPSD_GATEWAY_DECISION_PACKET_VERSION) &&
    (pk_headerSize p =? NVPSD_GATEWAY_DECISION_HEADER_SIZE) &&
    NvPSDGatewayDecisionPacketEpochIsValid (pk_gatewayEpoch p) &&
    NvPSDGatewayDecisionPacketSequenceIsValid (pk_gatewayTxSeq p)
  end.

Definition NvPSDGatewayBuildDecisionRequestPacket (req : DecisionRequest) (gatewayEpoch gatewayTxSeq : Z)
    : option NvPSDGatewayDecisionRequestPacket :=
  if negb (NvPSDGatewayDecisionPacketEpochIsValid gatewayEpoch) ||
     negb (NvPSDGatewayDecisionPacketSequenceIsValid gatewayTxSeq) then None
  else Some {| pk_magic := NVPSD_GATEWAY_DECISION_MAGIC; pk_version := NVPSD_GATEWAY_DECISION_PACKET_VERSION;
               pk_headerSize := NVPSD_GATEWAY_DECISION_HEADER_SIZE; pk_gatewayEpoch := gatewayEpoch;
               pk_gatewayTxSeq := gatewayTxSeq; pk_request := req |}.

(** ** PSS request ids *)

Definition NVPSD_GATEWAY_PSS_REQUEST_ID_MIN : Z := 1.
Definition NVPSD_GATEWAY_PSS_REQUEST_ID_MAX : Z := UINT32_MAX - 1.

Record NvPSDGatewayPssSequenceState := { ps_initialized : bool; ps_lastValidRequestId : Z }.

Definition initial_pss_sequence : NvPSDGatewayPssSequenceState :=
  {| ps_initialized := false; ps_lastValidRequestId := 0 |}.

Inductive NvPSDGatewayPssRequestObservation := ACCEPT | GAP | DUPLICATE_OR_STALE | INVALID.

#[export] Instance PssRequestObservation_eq_dec : EqDecision NvPSDGatewayPssRequestObservation.
Proof. solve_decision. Defined.

Definition NvPSDGatewayRequestIdIsSequenceTracked (requestId : Z) : bool :=
  (NVPSD_GATEWAY_PSS_REQUEST_ID_MIN <=? requestId) && (requestId <=? NVPSD_GATEWAY_PSS_REQUEST_ID_MAX).

Definition NvPSDGatewayObservePssRequestId (state : NvPSDGatewayPssSequenceState) (requestId : Z)
    : NvPSDGatewayPssSequenceState * NvPSDGatewayPssRequestObservation :=
  if negb (NvPSDGatewayRequestIdIsSequenceTracked requestId) then (state, INVALID)
  else if negb (ps_initialized state) then
    ({| ps_initialized := true; ps_lastValidRequestId := requestId |}, ACCEPT)
  else
    let last := ps_lastValidRequestId state in
    if requestId =? last then (state, DUPLICATE_OR_STALE)
    else
      let expected := if NVPSD_GATEWAY_PSS_REQUEST_ID_MAX <=? last
                      then NVPSD_GATEWAY_PSS_REQUEST_ID_MIN else u32 (last + 1) in
      ({| ps_initialized := ps_initialized state; ps_lastValidRequestId := requestId |},
       if negb (requestId =? expected) then GAP else ACCEPT).

Definition NvPSDGatewayShouldForwardObservedPssRequest (o : NvPSDGatewayPssRequestObservation) : bool :=
  match o with ACCEPT | GAP => true | _ => false end.

(** ** Synthetic requests

    Each builder zeroes the request and fills entry 0; they differ in the
    request id, mode, health flag, event type, severity and cause. *)

Definition synthetic_timestamp (current : DecisionRequest) : Z :=
  if (0 <? dr_sensorDataSummarySize current) && negb (ev_timestamp (sd_event (first_entry current)) =? 0)
  then ev_timestamp (sd_event (first_entry current)) else 1.

Definition set_mode (mode : OperationalMode) (s : SystemStatus) : SystemStatus :=
  {| st_hardwareErrorFlag := st_hardwareErrorFlag s; st_softwareErrorFlag := st_softwareErrorFlag s;
     st_mode := mode |}.

Definition synthetic_metadata : EventFusionMetadata := {|
  fm_coordinates := fm_coordinates zero_metadata; fm_pipelineID := 0; fm_clientID := 0;
  fm_objectType := (OBJECT, OBJECT); fm_speed := 0; fm_objectID := (0, 0) |}.

Definition synthetic_request (requestId : Z) (status : SystemStatus) (healthy : bool) (id : Z)
    (type : EventType) (severity : SeverityLevel) (cause : EventCause) (timestamp : Z) : DecisionRequest := {|
  dr_requestId := requestId;
  dr_sensorDataSummarySize := 1;
  dr_sensorDataSummary :=
    {| sd_clientID := 0; sd_isHealthy := healthy; sd_isTrustedSource := true;
       sd_event := {| ev_id := id;
         ev_sensorIdentifier := snprintf_s (bytes_of_string "PSD_GATEWAY") MAX_INDENTIFIER_LENGTH;
         ev_type := type; ev_cause := cause; ev_severity := severity; ev_timestamp := timestamp;
         ev_confidenceLevel := f32_one; ev_status := PASSTHROUGH;
         ev_fusionMetadata := synthetic_metadata |} |}
    :: replicate 7 zero_sensorData;
  dr_pssStatus := status;
  dr_integrity := zero_integrity |}.

Definition NvPSDGatewayBuildPssSequenceGapSwFailRequest (current : DecisionRequest) : DecisionRequest :=
  synthetic_request (dr_requestId current) (dr_pssStatus current) false (dr_requestId current)
    SW_FAIL CRITICAL CAUSE_PSS_REQUEST_SEQUENCE_GAP (synthetic_timestamp current).

Definition NvPSDGatewayBuildInvalidPssRequestIdSwFailRequest (current : DecisionRequest) : DecisionRequest :=
  synthetic_request NVPSD_GATEWAY_PSS_REQUEST_ID_MIN (dr_pssStatus current) false (dr_requestId current)
    SW_FAIL CRITICAL CAUSE_PSS_REQUEST_ID_INVALID (synthetic_timestamp current).

Definition NvPSDGatewayBuildPssCommRecoveredRequest (current : DecisionRequest) : DecisionRequest :=
  synthetic_request (dr_requestId current) (set_mode NORMAL (dr_pssStatus current)) true (dr_requestId current)
    PSS_STATUS_NOOP OPERATIONAL CAUSE_PSS_COMM_RECOVERED (synthetic_timestamp current).

Definition NvPSDGatewayBuildPssErrorSwFailRequest (current : DecisionRequest) : DecisionRequest :=
  synthetic_request (dr_requestId current) (set_mode NORMAL (dr_pssStatus current)) false (dr_requestId current)
    SW_FAIL CRITICAL CAUSE_PSS_ERROR (synthetic_timestamp current).

(** ** Recovery debt *)

Definition NvPSDGatewayRecoveryRecordOwed (recoveryOwedGen : Z) : bool := negb (recoveryOwedGen =? 0).

Definition NvPSDGatewayRecoveryDebtAfterSend (owedNow sentFor : Z) (sent : bool) : Z :=
  if sent && (owedNow =? sentFor) then 0 else owedNow.

(** ** Registration round trip *)

Lemma elem_of_mandatory types x :
  x ∈ NvPSDGatewayAddMandatoryEventTypes types <-> x ∈ types \/ x ∈ mandatory_event_types.
Proof.
  unfold NvPSDGatewayAddMandatoryEventTypes, mandatory_event_types. simpl.
  rewrite !elem_of_union, !elem_of_singleton, !elem_of_cons, elem_of_nil. tauto.
Qed.

Lemma elem_of_subscribed l (s : gset Z) x :
  x ∈ fold_left (fun (s : gset Z) raw => if subscribable raw then {[raw]} ∪ s else s) l s <->
  x ∈ s \/ (x ∈ l /\ subscribable x = true).
Proof.
  revert s. induction l as [|y l IH]; intros s; simpl; [set_solver|].
  rewrite IH, elem_of_cons. destruct (subscribable y) eqn:E.
  - rewrite elem_of_union, elem_of_singleton. naive_solver.
  - naive_solver congruence.
Qed.

Lemma byte_at_testbit z n i : 0 <= n -> 0 <= i ->
  Z.testbit (Z.shiftl (Z.land (Z.shiftr z n) 255) n) i = Z.testbit z i && ((n <=? i) && (i <? n + 8)).
Proof.
  intros Hn Hi. destruct (Z.leb_spec n i) as [Hle|Hlt].
  - rewrite Z.shiftl_spec, Z.land_spec, Z.shiftr_spec by lia.
    change 255 with (Z.ones 8). rewrite Z.testbit_ones by lia. rewrite Z.sub_add. f_equal. lia.
  - rewrite Z.shiftl_spec_low by lia. btauto.
Qed.

Lemma be32_be_bytes b z pre post :
  is_u32 z -> b = pre ++ be_bytes32 z ++ post -> be32_at b (length pre) = z.
Proof.
  intros Hz ->. unfold be32_at.
  assert (forall k d, (k < 4)%nat -> nth (length pre + k) (pre ++ be_bytes32 z ++ post) d = nth k (be_bytes32 z) d) as H.
  { intros k d Hk. rewrite app_nth2_plus, app_nth1; [done|]. simpl. lia. }
  rewrite <- (Nat.add_0_r (length pre)) at 1. rewrite !H by lia. cbn [nth be_bytes32].
  replace (Z.land z 255) with (Z.shiftl (Z.land (Z.shiftr z 0) 255) 0)
    by (by rewrite Z.shiftl_0_r, Z.shiftr_0_r).
  apply Z.bits_inj'. intros i Hi. rewrite !Z.lor_spec, !byte_at_testbit by lia.
  destruct (Z.testbit z i) eqn:E; [|done]. cbn [andb].
  assert (i < 32) by (destruct (decide (i < 32)); [done|]; by rewrite testbit_u32_high in E by (done || lia)).
  lia.
Qed.

Lemma length_concat_be l : length (concat (map be_bytes32 l)) = (4 * length l)%nat.
Proof. induction l as [|x l IH]; simpl; [done|]. rewrite IH. lia. Qed.

Lemma regr_decode types :
  Forall is_u32 types ->
  map (fun i => be32_at (build_regr types) (5 + i * 4)) (seq 0 (length types)) = types.
Proof.
  intros Hall. apply list_eq. intros k. rewrite list_lookup_fmap.
  destruct (decide (k < length types)%nat) as [Hk|Hk].
  - rewrite lookup_seq_lt by done. simpl.
    destruct (lookup_lt_is_Some_2 types k Hk) as [z Hz]. rewrite Hz. f_equal.
    rewrite Forall_forall in Hall.
    pose proof (take_drop_middle types k z Hz) as Hsplit.
    replace (S (S (S (S (S (k * 4))))))%nat
      with (length (bytes_of_string "REGR" ++ [Z.of_nat (length types)] ++ concat (map be_bytes32 (take k types))))
      by (rewrite !length_app, length_concat_be, length_take; simpl; lia).
    apply be32_be_bytes with (post := concat (map be_bytes32 (drop (S k) types)));
      [by apply Hall, list_elem_of_lookup_2 with k|].
    unfold build_regr. rewrite <- !app_assoc. do 2 f_equal.
    rewrite <- Hsplit at 1. by rewrite map_app, concat_app, map_cons.
  - rewrite (lookup_ge_None_2 types) by lia. by rewrite lookup_seq_ge by lia.
Qed.

Lemma registered_set types count :
  count = Z.of_nat (length types) -> 1 <= count <= 32 -> (exists x, x ∈ types /\ subscribable x = true) ->
  exists S, NvPSDGatewayBuildRegisteredEventSet (Some types) count = Some S /\
    forall x, x ∈ S <-> (x ∈ types /\ subscribable x = true) \/ x ∈ mandatory_event_types.
Proof.
  intros -> Hlen (y & Hy & Hsub). unfold NvPSDGatewayBuildRegisteredEventSet, NVPSD_GATEWAY_MAX_EVENT_TYPES_PER_CLIENT.
  destruct (Z.eqb_spec (Z.of_nat (length types)) 0); [lia|].
  destruct (Z.ltb_spec 32 (Z.of_nat (length types))); [lia|]. simpl.
  rewrite Nat2Z.id, firstn_all.
  destruct (decide _) as [Hemp|Hne].
  - exfalso. assert (y ∈ (∅ : gset Z)) as Hin; [|by apply elem_of_empty in Hin].
    rewrite <- Hemp. apply elem_of_subscribed. by right.
  - eexists. split; [done|]. intros x. rewrite elem_of_mandatory, elem_of_subscribed, elem_of_empty. tauto.
Qed.

Lemma build_regr_length types : length (build_regr types) = (5 + 4 * length types)%nat.
Proof. unfold build_regr. rewrite !length_app, length_concat_be. simpl. lia. Qed.

(** ** Rate limit *)

(** The admissions one entry grants over a run of REGRs at the given times. *)
Fixpoint admit_run (maxPerWindow windowMs : Z) (e : RegrEntry) (times : list Z)
    : list NvPSDGatewayRegrAdmission :=
  match times with
  | [] => []
  | t :: ts => let '(e', a) := admit_entry maxPerWindow windowMs e t in
               a :: admit_run maxPerWindow windowMs e' ts
  end.

(** The answers to one peer's REGRs in an interleaved run of many peers. *)
Fixpoint limiter_run (l : RegrRateLimiter) (msgs : list (Z * Z)) (p : Z) : list NvPSDGatewayRegrAdmission :=
  match msgs with
  | [] => []
  | (peer, now) :: ms =>
    let '(l', a) := regr_admit l peer now in
    if peer =? p then a :: limiter_run l' ms p else limiter_run l' ms p
  end.

Definition times_of (p : Z) (msgs : list (Z * Z)) : list Z :=
  map snd (filter (fun m => m.1 = p) msgs).

(** Peers do not influence each other. *)
Lemma limiter_run_isolated l msgs p :
  limiter_run l msgs p =
  admit_run (rl_maxPerWindow l) (rl_windowMs l) (default fresh_entry (rl_entries l !! p)) (times_of p msgs).
Proof.
  unfold times_of. revert l. induction msgs as [|[peer now] ms IH]; intros l; [done|].
  cbn [limiter_run]. unfold regr_admit.
  destruct (admit_entry _ _ (default fresh_entry (rl_entries l !! peer)) now) as [e a] eqn:Ea.
  destruct (Z.eqb_spec peer p) as [-> | Hne].
  - rewrite filter_cons_True by done. cbn [map admit_run snd]. rewrite Ea, IH. cbn [rl_entries rl_maxPerWindow rl_windowMs].
    by rewrite lookup_insert_eq.
  - rewrite filter_cons_False by done. rewrite IH. cbn [rl_entries rl_maxPerWindow rl_windowMs].
    by rewrite lookup_insert_ne.
Qed.

(** Past the budget: one answered refusal, then silence. *)
Definition refusals (n : nat) : list NvPSDGatewayRegrAdmission :=
  match n with O => [] | S k => REFUSE_NOTIFY :: replicate k REFUSE_SILENT end.

Section window.
Context (maxPerWindow windowMs : Z) (Hmax : 1 <= maxPerWindow < 2 ^ 32).

Definition in_window (e : RegrEntry) (t : Z) : Prop :=
  re_windowStartMs e <= t < re_windowStartMs e + windowMs.

Lemma admit_entry_in_window e t :
  1 <= re_count e -> in_window e t ->
  admit_entry maxPerWindow windowMs e t =
  if re_count e <? maxPerWindow then
    ({| re_windowStartMs := re_windowStartMs e; re_count := u32 (re_count e + 1); re_notified := re_notified e |}, ADMIT)
  else if negb (re_notified e) then
    ({| re_windowStartMs := re_windowStartMs e; re_count := re_count e; re_notified := true |}, REFUSE_NOTIFY)
  else (e, REFUSE_SILENT).
Proof.
  intros Hc [Ht1 Ht2]. unfold admit_entry.
  destruct (Z.eqb_spec (re_count e) 0); [lia|]. destruct (Z.ltb_spec t (re_windowStartMs e)); [lia|].
  destruct (Z.leb_spec windowMs (t - re_windowStartMs e)); [lia|]. done.
Qed.

Lemma admit_run_silent e times :
  re_count e = maxPerWindow -> re_notified e = true -> Forall (in_window e) times ->
  admit_run maxPerWindow windowMs e times = replicate (length times) REFUSE_SILENT.
Proof.
  intros Hc Hn Hall. induction Hall as [|t ts Ht _ IH]; [done|]. cbn [admit_run].
  rewrite admit_entry_in_window, Hn by (done || lia).
  destruct (Z.ltb_spec (re_count e) maxPerWindow); [lia|]. simpl. by rewrite IH.
Qed.

Lemma admit_run_window e times :
  1 <= re_count e <= maxPerWindow -> re_notified e = false -> Forall (in_window e) times ->
  let k := Z.to_nat (maxPerWindow - re_count e) in
  admit_run maxPerWindow windowMs e times =
  replicate (Nat.min k (length times)) ADMIT ++ refusals (length times - k).
Proof.
  intros Hc Hn Hall. revert e Hc Hn Hall.
  induction times as [|t ts IH]; intros e Hc Hn Hall; cbv zeta.
  - simpl. by rewrite Nat.min_0_r.
  - inversion_clear Hall as [|? ? Ht Hts]. cbn [admit_run].
    rewrite admit_entry_in_window, Hn by (done || lia).
    destruct (Z.ltb_spec (re_count e) maxPerWindow) as [Hlt|Hge].
    + rewrite u32_small by (unfold is_u32; lia). rewrite IH by (simpl; done || lia). cbn [re_count].
      replace (Z.to_nat (maxPerWindow - re_count e)) with (S (Z.to_nat (maxPerWindow - (re_count e + 1)))) by lia.
      done.
    + replace (Z.to_nat (maxPerWindow - re_count e)) with 0%nat by lia. simpl. f_equal.
      apply (admit_run_silent {| re_windowStartMs := re_windowStartMs e; re_count := re_count e; re_notified := true |});
        [simpl; lia|done|done].
Qed.

(** A peer's first REGR opens its window. *)
Lemma admit_run_fresh t0 times :
  0 < windowMs -> Forall (fun t => t0 <= t < t0 + windowMs) times ->
  let k := Z.to_nat maxPerWindow in
  admit_run maxPerWindow windowMs fresh_entry (t0 :: times) =
  replicate (Nat.min k (S (length times))) ADMIT ++ refusals (S (length times) - k).
Proof.
  intros Hw Hall. cbv zeta. cbn [admit_run]. unfold admit_entry. simpl.
  destruct (Z.ltb_spec 0 maxPerWindow); [|lia]. cbn [re_windowStartMs re_count re_notified].
  change (u32 (0 + 1)) with 1. rewrite admit_run_window; [|simpl; lia|done|done]. cbn [re_count].
  replace (Z.to_nat maxPerWindow) with (S (Z.to_nat (maxPerWindow - 1))) by lia. done.
Qed.
End window.

(** ** Synthetic requests are valid messages *)

Lemma synthetic_timestamp_nonzero current : synthetic_timestamp current <> 0.
Proof. unfold synthetic_timestamp. case_match; bool_prop; done. Qed.

Lemma synthetic_populated requestId status healthy id type severity cause ts :
  exists d, populated (synthetic_request requestId status healthy id type severity cause ts) = [d] /\
    d = first_entry (synthetic_request requestId status healthy id type severity cause ts).
Proof. by eexists. Qed.

Lemma synthetic_sendable requestId status healthy id type severity cause ts :
  0 <= st_mode status <= ERROR -> 0 <= type <= PSS_STATUS_NOOP -> severity <= CRITICAL ->
  cause < CAUSE_COUNT -> ts <> 0 ->
  (severity = CRITICAL \/ (st_mode status <> ERROR /\ healthy = true /\ eventTypeRequiresCriticalSeverity type = false)) ->
  sendable (synthetic_request requestId status healthy id type severity cause ts).
Proof.
  intros Hm Ht Hs Hc Hts Hsev. constructor.
  - simpl. unfold MAX_SENSORS_DATA_SUMMARY_SIZE. lia.
  - done.
  - repeat constructor; simpl; try lia; by vm_compute.
  - exists severity. intros d Hd. change (populated _) with
      [first_entry (synthetic_request requestId status healthy id type severity cause ts)] in Hd.
    apply list_elem_of_singleton in Hd as ->. split; [done|].
    unfold critical_evidence. simpl. intros He. destruct Hsev as [-> | (? & -> & Hn)]; [done|].
    destruct He as [?|[?|[?|?]]]; congruence.
Qed.

Ltac synthetic :=
  apply synthetic_sendable;
  first [apply synthetic_timestamp_nonzero | by left | by right | codes; simpl; lia].

(** ** Properties *)

(** The classification of a well-formed REGR. *)
Lemma regr_classified types :
  Forall is_u32 types -> 1 <= Z.of_nat (length types) <= 32 ->
  (exists x, x ∈ types /\ subscribable x = true) ->
  exists S, NvPSDGatewayClassifyRegr (Some (build_regr types)) = inr S /\
    forall x, x ∈ S <-> (x ∈ types /\ subscribable x = true) \/ x ∈ mandatory_event_types.
Proof.
  intros Hall Hlen Hex.
  destruct (registered_set types _ eq_refl Hlen Hex) as (S & HS & Hin).
  exists S. split; [|done]. unfold NvPSDGatewayClassifyRegr. rewrite build_regr_length.
  change (nth 4 (build_regr types) 0) with (Z.of_nat (length types)).
  unfold NVPSD_GATEWAY_MAX_EVENT_TYPES_PER_CLIENT.
  destruct (Z.ltb_spec (Z.of_nat (5 + 4 * length types)) 5); [lia|].
  destruct (Z.eqb_spec (Z.of_nat (length types)) 0); [lia|].
  destruct (Z.ltb_spec 32 (Z.of_nat (length types))); [lia|].
  destruct (Z.ltb_spec (Z.of_nat (5 + 4 * length types)) (5 + Z.of_nat (length types) * 4)); [lia|].
  simpl orb. cbv iota zeta. rewrite Nat2Z.id, regr_decode by done. by rewrite HS.
Qed.

(** Registration round trip: a REGR that names between 1 and 32 event types,
    at least one of them subscribable, is classified as a registration of
    exactly the subscribable types it names plus the six mandatory
    safety types. *)
Theorem regr_roundtrip types :
  Forall is_u32 types -> 1 <= Z.of_nat (length types) <= 32 ->
  (exists x, x ∈ types /\ subscribable x = true) ->
  exists S, NvPSDGatewayClassifyRegr (Some (build_regr types)) = inr S /\
    forall x, x ∈ S <-> (x ∈ types /\ subscribable x = true) \/ x ∈ mandatory_event_types.
Proof. apply regr_classified. Qed.

Lemma regr_roundtrip_witness :
  exists S, NvPSDGatewayClassifyRegr (Some (build_regr [3; 25; 17])) = inr S /\
    forall x, x ∈ S <-> (x ∈ [3; 25; 17] /\ subscribable x = true) \/ x ∈ mandatory_event_types.
Proof.
  apply (regr_roundtrip [3; 25; 17]).
  - repeat constructor; done.
  - simpl. lia.
  - exists 3. split; [left|reflexivity].
Defined.

(** Rate limit: over any interleaving of REGRs from many peers, a peer whose
    REGRs all fall in the window its first one opens has exactly its first
    [maxPerWindow] admitted, the next one refused with a reply, and every
    further one refused silently. *)
Theorem regr_rate_limit maxPerWindow windowMs msgs p t0 times :
  1 <= maxPerWindow < 2 ^ 32 -> 0 < windowMs ->
  times_of p msgs = t0 :: times -> Forall (fun t => t0 <= t < t0 + windowMs) times ->
  limiter_run (regr_configure maxPerWindow windowMs) msgs p =
  replicate (Nat.min (Z.to_nat maxPerWindow) (length (t0 :: times))) ADMIT ++
  refusals (length (t0 :: times) - Z.to_nat maxPerWindow).
Proof.
  intros Hmax Hw Ht Hall. rewrite limiter_run_isolated, Ht. simpl rl_maxPerWindow. simpl rl_windowMs.
  by apply admit_run_fresh.
Qed.

Lemma regr_rate_limit_witness :
  limiter_run (regr_configure 2 1000) [(7, 10); (9, 11); (7, 12); (7, 500); (9, 600); (7, 1009)] 7 =
  [ADMIT; ADMIT; REFUSE_NOTIFY; REFUSE_SILENT].
Proof.
  apply (regr_rate_limit 2 1000 [(7, 10); (9, 11); (7, 12); (7, 500); (9, 600); (7, 1009)] 7 10 [12; 500; 1009]).
  - lia.
  - lia.
  - reflexivity.
  - repeat constructor; lia.
Defined.

(** Every fault the gateway synthesises about its PSS link (sequence gap,
    invalid request id, PSS ERROR) is, once stamped, accepted by the receiver's
    validator and raises exactly the gateway-communication sub-cause in
    addition to the mode it carries; the recovery record is accepted too,
    raises nothing and clears exactly the mode-error and
    gateway-communication sub-causes. *)
Theorem synthetic_requests_contract current :
  0 <= st_mode (dr_pssStatus current) <= ERROR ->
  let faults := [NvPSDGatewayBuildPssSequenceGapSwFailRequest current;
                 NvPSDGatewayBuildInvalidPssRequestIdSwFailRequest current;
                 NvPSDGatewayBuildPssErrorSwFailRequest current] in
  let recovered := NvPSDGatewayBuildPssCommRecoveredRequest current in
  Forall (fun r => validateDecisionRequest (Some (pssDecisionRequestSetCRC r)) = PSS_VALID /\
    d_raised (SdmPssSubCausesEvaluate (Some r)) =
      Z.lor SDM_PSS_SUB_GATEWAY_COMM
        (if st_mode (dr_pssStatus r) =? ERROR then SDM_PSS_SUB_MODE_ERROR else 0)) faults /\
  validateDecisionRequest (Some (pssDecisionRequestSetCRC recovered)) = PSS_VALID /\
  SdmPssSubCausesEvaluate (Some recovered) =
    {| d_raised := 0; d_cleared := Z.lor SDM_PSS_SUB_MODE_ERROR SDM_PSS_SUB_GATEWAY_COMM |}.
Proof.
  intros Hmode. cbv zeta.
  split_and!; [|apply validateDecisionRequest_zero, sendable_SetCRC; synthetic|done].
  repeat (apply Forall_cons; split); [..|done];
    (split; [apply validateDecisionRequest_zero, sendable_SetCRC; synthetic|]).
  - unfold SdmPssSubCausesEvaluate. simpl. by destruct (st_mode (dr_pssStatus current) =? ERROR).
  - unfold SdmPssSubCausesEvaluate. simpl. by destruct (st_mode (dr_pssStatus current) =? ERROR).
  - done.
Qed.

Lemma synthetic_requests_contract_witness :
  validateDecisionRequest (Some (pssDecisionRequestSetCRC
    (NvPSDGatewayBuildPssCommRecoveredRequest (sample_request 9)))) = PSS_VALID.
Proof. exact (proj1 (proj2 (synthetic_requests_contract (sample_request 9) ltac:(vm_compute; split; discriminate)))). Defined.
