(* ===== verification/SdmSequence.v ===== *)
(** * Freshness and packet sequence of the decision makers

    [sdm_decision_freshness.hpp], [sdm_gateway_decision_sequence.hpp] and the
    gateway's transmit counter [nextGatewayTxSeqAfter]: how a decision maker
    notices that a packet the gateway numbered never arrived. *)

From S2P Require Import Prelude Protocol Crc Validate SdmRequestState GatewayContract.

(** ** Freshness *)

Definition SDM_DECISION_FRESHNESS_TIMEOUT_MS_MIN : Z := 50.
Definition SDM_DECISION_FRESHNESS_TIMEOUT_MS_MAX : Z := 300000.

Definition sdmDecisionFreshnessTimeoutMsIsValid (timeoutMs : Z) : bool :=
  (SDM_DECISION_FRESHNESS_TIMEOUT_MS_MIN <=? timeoutMs) && (timeoutMs <=? SDM_DECISION_FRESHNESS_TIMEOUT_MS_MAX).

Definition sdmDecisionFreshnessExpired (elapsedMs timeoutMs : Z) : bool := timeoutMs <? elapsedMs.

(** ** Sequence *)

Inductive SdmGatewayDecisionSequenceResult :=
  | SEQUENCE_ACCEPTED | SEQUENCE_GAP | SEQUENCE_DUPLICATE_OR_STALE | SEQUENCE_INVALID.

#[export] Instance SequenceResult_eq_dec : EqDecision SdmGatewayDecisionSequenceResult.
Proof. solve_decision. Defined.

Record SdmGatewayDecisionSequenceState := {
  sq_initialized : bool;
  sq_gatewayEpoch : Z;
  sq_lastGatewayTxSeq : Z;
}.

Definition sdmGatewayDecisionSequenceReset : SdmGatewayDecisionSequenceState :=
  {| sq_initialized := false; sq_gatewayEpoch := 0; sq_lastGatewayTxSeq := 0 |}.

Definition sdmGatewayDecisionSequenceObserve (state : SdmGatewayDecisionSequenceState)
    (gatewayEpoch gatewayTxSeq : Z) : SdmGatewayDecisionSequenceState * SdmGatewayDecisionSequenceResult :=
  if negb (NvPSDGatewayDecisionPacketEpochIsValid gatewayEpoch) ||
     negb (NvPSDGatewayDecisionPacketSequenceIsValid gatewayTxSeq) then (state, SEQUENCE_INVALID)
  else if negb (sq_initialized state) || negb (gatewayEpoch =? sq_gatewayEpoch state) then
    ({| sq_initialized := true; sq_gatewayEpoch := gatewayEpoch; sq_lastGatewayTxSeq := gatewayTxSeq |},
     SEQUENCE_ACCEPTED)
  else
    let last := sq_lastGatewayTxSeq state in
    if (last <? NVPSD_GATEWAY_DECISION_TX_SEQ_MAX) && (gatewayTxSeq <=? last)
    then (state, SEQUENCE_DUPLICATE_OR_STALE)
    else
      let expected := if NVPSD_GATEWAY_DECISION_TX_SEQ_MAX <=? last
                      then NVPSD_GATEWAY_DECISION_TX_SEQ_MIN else u32 (last + 1) in
      ({| sq_initialized := sq_initialized state; sq_gatewayEpoch := sq_gatewayEpoch state;
          sq_lastGatewayTxSeq := gatewayTxSeq |},
       if negb (gatewayTxSeq =? expected) then SEQUENCE_GAP else SEQUENCE_ACCEPTED).

(** The gateway's counter. *)
Definition nextGatewayTxSeqAfter (txSeq : Z) : Z :=
  if NVPSD_GATEWAY_DECISION_TX_SEQ_MAX <=? txSeq then NVPSD_GATEWAY_DECISION_TX_SEQ_MIN else u32 (txSeq + 1).

(** ** Lemmas *)

Definition valid_seq (s : Z) : Prop := 1 <= s <= 4294967294.

Lemma seq_valid_iff s : NvPSDGatewayDecisionPacketSequenceIsValid s = true <-> valid_seq s.
Proof.
  unfold NvPSDGatewayDecisionPacketSequenceIsValid, valid_seq, NVPSD_GATEWAY_DECISION_TX_SEQ_MIN,
    NVPSD_GATEWAY_DECISION_TX_SEQ_MAX, UINT32_MAX. rewrite andb_true_iff, !Z.leb_le. lia.
Qed.

Lemma next_seq_valid s : valid_seq s -> valid_seq (nextGatewayTxSeqAfter s).
Proof.
  unfold valid_seq, nextGatewayTxSeqAfter, NVPSD_GATEWAY_DECISION_TX_SEQ_MAX, NVPSD_GATEWAY_DECISION_TX_SEQ_MIN, UINT32_MAX.
  intros H. destruct (Z.leb_spec (4294967295 - 1) s); [lia|]. rewrite u32_small by (unfold is_u32; lia). lia.
Qed.

Section observe.
Context (st : SdmGatewayDecisionSequenceState) (epoch : Z).
Hypothesis (Hinit : sq_initialized st = true) (Hepoch : sq_gatewayEpoch st = epoch)
  (Hev : NvPSDGatewayDecisionPacketEpochIsValid epoch = true).

Lemma observe_in_epoch s : valid_seq s ->
  sdmGatewayDecisionSequenceObserve st epoch s =
  let last := sq_lastGatewayTxSeq st in
  if (last <? NVPSD_GATEWAY_DECISION_TX_SEQ_MAX) && (s <=? last) then (st, SEQUENCE_DUPLICATE_OR_STALE)
  else ({| sq_initialized := true; sq_gatewayEpoch := epoch; sq_lastGatewayTxSeq := s |},
        if negb (s =? nextGatewayTxSeqAfter last) then SEQUENCE_GAP else SEQUENCE_ACCEPTED).
Proof.
  intros Hs. unfold sdmGatewayDecisionSequenceObserve, nextGatewayTxSeqAfter.
  apply seq_valid_iff in Hs. rewrite Hev, Hs, Hinit, Hepoch, Z.eqb_refl. done.
Qed.

Lemma observe_next s : valid_seq (sq_lastGatewayTxSeq st) -> s = nextGatewayTxSeqAfter (sq_lastGatewayTxSeq st) ->
  (sdmGatewayDecisionSequenceObserve st epoch s).2 = SEQUENCE_ACCEPTED.
Proof.
  intros Hl ->. rewrite observe_in_epoch by (by apply next_seq_valid). cbv zeta.
  destruct ((sq_lastGatewayTxSeq st <? _) && _) eqn:E.
  - exfalso. bool_prop. unfold nextGatewayTxSeqAfter, NVPSD_GATEWAY_DECISION_TX_SEQ_MAX, UINT32_MAX, valid_seq in *.
    destruct (Z.leb_spec (4294967295 - 1) (sq_lastGatewayTxSeq st)); [lia|].
    rewrite u32_small in * by (unfold is_u32; lia). lia.
  - by rewrite Z.eqb_refl.
Qed.
End observe.

(** ** Loss on the link

    The gateway numbers its packets consecutively within an epoch; [received]
    is the increasing list of those that reach the decision maker. *)

Fixpoint observe_all (st : SdmGatewayDecisionSequenceState) (epoch : Z) (received : list Z)
    : list SdmGatewayDecisionSequenceResult :=
  match received with
  | [] => []
  | s :: ss => let '(st', r) := sdmGatewayDecisionSequenceObserve st epoch s in r :: observe_all st' epoch ss
  end.

(** Consecutive numbers: nothing was lost. *)
Fixpoint consecutive (last : Z) (l : list Z) : bool :=
  match l with [] => true | s :: ss => (s =? last + 1) && consecutive s ss end.

Lemma observe_all_spec epoch received last :
  NvPSDGatewayDecisionPacketEpochIsValid epoch = true -> valid_seq last ->
  Forall valid_seq received -> StronglySorted Z.lt (last :: received) ->
  let st := {| sq_initialized := true; sq_gatewayEpoch := epoch; sq_lastGatewayTxSeq := last |} in
  existsb (fun r => bool_decide (r = SEQUENCE_GAP)) (observe_all st epoch received) = negb (consecutive last received) /\
  Forall (fun r => r = SEQUENCE_ACCEPTED \/ r = SEQUENCE_GAP) (observe_all st epoch received).
Proof.
  intros He. revert last. induction received as [|s ss IH]; intros last Hl Hall Hsort; [by split|].
  inversion_clear Hall as [|? ? Hs Hss]. apply StronglySorted_inv in Hsort as [Hsort Hlt].
  inversion_clear Hlt as [|? ? Hls _]. cbv zeta. cbn [observe_all consecutive].
  rewrite observe_in_epoch by done. cbn [sq_lastGatewayTxSeq]. cbv zeta.
  destruct (Z.leb_spec s last); [lia|]. rewrite andb_false_r.
  destruct (IH s Hs Hss Hsort) as [IH1 IH2]. cbn [existsb].
  assert ((s =? nextGatewayTxSeqAfter last) = (s =? last + 1)) as ->.
  { unfold nextGatewayTxSeqAfter, NVPSD_GATEWAY_DECISION_TX_SEQ_MAX, UINT32_MAX, valid_seq in *.
    destruct (Z.leb_spec (4294967295 - 1) last); [lia|]. by rewrite u32_small by (unfold is_u32; lia). }
  destruct (s =? last + 1); cbn [negb andb orb]; (split; [|constructor; [auto|exact IH2]]); [exact IH1|done].
Qed.

(** ** Properties *)

(** Loss detection: within one gateway epoch whose transmit counter does not
    wrap, the decision maker that last saw number [last] reports a gap on the
    packets it receives afterwards exactly when at least one number between
    them is missing, and never rejects one as a duplicate. *)
Theorem sequence_loss_detected epoch received last :
  NvPSDGatewayDecisionPacketEpochIsValid epoch = true -> valid_seq last ->
  Forall valid_seq received -> StronglySorted Z.lt (last :: received) ->
  let st := {| sq_initialized := true; sq_gatewayEpoch := epoch; sq_lastGatewayTxSeq := last |} in
  (SEQUENCE_GAP ∈ observe_all st epoch received <-> consecutive last received = false) /\
  SEQUENCE_DUPLICATE_OR_STALE ∉ observe_all st epoch received.
Proof.
  intros He Hl Hall Hsort. destruct (observe_all_spec epoch received last He Hl Hall Hsort) as [H1 H2].
  split.
  - rewrite <- negb_true_iff, <- H1, existsb_elem_of. split.
    + intros Hin. exists SEQUENCE_GAP. split; [done|]. by apply bool_decide_eq_true.
    + intros (r & Hr & Heq%bool_decide_eq_true). by subst.
  - intros Hin. rewrite Forall_forall in H2. destruct (H2 _ Hin); discriminate.
Qed.

Lemma sequence_loss_detected_witness :
  SEQUENCE_GAP ∈ observe_all {| sq_initialized := true; sq_gatewayEpoch := 5; sq_lastGatewayTxSeq := 7 |} 5 [8; 10; 11].
Proof.
  apply (sequence_loss_detected 5 [8; 10; 11] 7).
  - reflexivity.
  - unfold valid_seq. lia.
  - unfold valid_seq. repeat constructor; lia.
  - repeat constructor; lia.
  - reflexivity.
Defined.

(** Consecutive packets are always accepted, the wrap of the counter from its
    maximum to its minimum included. *)
Theorem sequence_next_accepted st epoch :
  sq_initialized st = true -> sq_gatewayEpoch st = epoch ->
  NvPSDGatewayDecisionPacketEpochIsValid epoch = true -> valid_seq (sq_lastGatewayTxSeq st) ->
  (sdmGatewayDecisionSequenceObserve st epoch (nextGatewayTxSeqAfter (sq_lastGatewayTxSeq st))).2 = SEQUENCE_ACCEPTED.
Proof. intros Hi He Hv Hl. by apply observe_next. Qed.

Lemma sequence_next_accepted_witness :
  (sdmGatewayDecisionSequenceObserve
     {| sq_initialized := true; sq_gatewayEpoch := 5; sq_lastGatewayTxSeq := 4294967294 |} 5 1).2 = SEQUENCE_ACCEPTED.
Proof.
  apply (sequence_next_accepted
    {| sq_initialized := true; sq_gatewayEpoch := 5; sq_lastGatewayTxSeq := 4294967294 |} 5);
    [reflexivity|reflexivity|reflexivity|unfold valid_seq; simpl; lia].
Defined.

(** Loss at the wrap: when the packet numbered with the maximum is lost, the
    decision maker classifies every later packet below the maximum as a
    duplicate and keeps its state, so it discards the rest of the epoch's next
    cycle instead of reporting one gap. *)
Theorem sequence_wrap_loss_discards epoch received :
  NvPSDGatewayDecisionPacketEpochIsValid epoch = true ->
  Forall (fun s => 1 <= s < NVPSD_GATEWAY_DECISION_TX_SEQ_MAX) received ->
  let st := {| sq_initialized := true; sq_gatewayEpoch := epoch;
               sq_lastGatewayTxSeq := NVPSD_GATEWAY_DECISION_TX_SEQ_MAX - 1 |} in
  observe_all st epoch received = replicate (length received) SEQUENCE_DUPLICATE_OR_STALE.
Proof.
  intros He Hall. cbv zeta. unfold NVPSD_GATEWAY_DECISION_TX_SEQ_MAX, UINT32_MAX in *.
  induction Hall as [|s ss Hs _ IH]; [done|]. cbn [observe_all].
  rewrite observe_in_epoch by (done || unfold valid_seq; lia). cbn [sq_lastGatewayTxSeq]. cbv zeta.
  unfold NVPSD_GATEWAY_DECISION_TX_SEQ_MAX, UINT32_MAX.
  destruct (Z.leb_spec s (4294967295 - 1 - 1)); [|lia].
  cbn [andb]. change (4294967295 - 1 - 1 <? 4294967295 - 1) with true. cbv iota. cbn [length replicate].
  by rewrite <- IH.
Qed.

Lemma sequence_wrap_loss_discards_witness :
  observe_all {| sq_initialized := true; sq_gatewayEpoch := 5; sq_lastGatewayTxSeq := 4294967293 |} 5 [1; 2; 3] =
  replicate 3 SEQUENCE_DUPLICATE_OR_STALE.
Proof.
  apply (sequence_wrap_loss_discards 5 [1; 2; 3]);
    [reflexivity|repeat constructor; unfold NVPSD_GATEWAY_DECISION_TX_SEQ_MAX, UINT32_MAX; lia].
Defined.
