(* ===== verification/AtlControl.v ===== *)
(** * The ATL decision maker

    [ATLControl.cpp]: the decision maker of the automated trailer loading cell.
    It validates the packets of the gateway, keeps the fault latches, and
    drives the PLC: MUTE suspends the cell's protective stop so that loading may
    run, UNMUTE restores it, SW_ERROR reports a fault.

    [Atl] is the file's static state.  Each handler is a function from state to
    state and the commands it sends.  A handler runs under [faultTransitionMtx]
    or [decisionEvalSendMtx]; what other threads may do between two of its reads
    is a parameter where the code re-checks.  Clock readings and the outcome of
    [sendto] are inputs.  Pending-ACK bookkeeping and log text are left out. *)

From S2P Require Import Prelude Protocol Crc Validate SdmRequestState GatewayContract SdmSequence.

(** ** Data *)

Inductive Command :=
  | CMD_MUTE | CMD_UNMUTE | CMD_SW_ERROR | CMD_SAFE_RELEASE_ACK | CMD_SAFE_RELEASE_DENIED.

#[export] Instance Command_eq_dec : EqDecision Command.
Proof. solve_decision. Defined.

Record ObjectRecord := { ob_object_id : Z; ob_x : f32; ob_y : f32; ob_z : f32; ob_metadata : Z }.

(** A decision command and the record of its Object 1. *)
Definition Tx : Type := Command * option ObjectRecord.

(** [PssSubCause] indices. *)
Definition kPssSubModeError : Z := 0.
Definition kPssSubGatewayComm : Z := 1.
Definition kPssSubSwFail : Z := 2.
Definition kPssSubMonitorLost : Z := 3.
Definition kPssSubPerceptionMonitorLost : Z := 4.
Definition kPssSubMdxLost : Z := 5.
Definition kPssSubInputUnusable : Z := 6.
Definition kPssSubCauseCount : Z := 7.

(** [safeStateLatchCauses] bits. *)
Definition kSafeLatchGatewayHb : Z := Z.shiftl 1 0.
Definition kSafeLatchPss : Z := Z.shiftl 1 1.
Definition kSafeLatchCountDrift : Z := Z.shiftl 1 2.
Definition kSafeLatchDecisionFreshness : Z := Z.shiftl 1 3.
Definition kSafeLatchGatewayDecisionSequence : Z := Z.shiftl 1 4.
Definition kSafeLatchAllSafetyRelevantSensorsFailed : Z := Z.shiftl 1 5.
Definition kSafeLatchAiPipelineInvalid : Z := Z.shiftl 1 6.

Definition PERSONS_IN_TRAILER_MAX : Z := 10000.
Definition EVENT_ID_UNSEEN : Z := 0xFFFFFFFF.
Definition kReviewedSensorMaxPipelineId : Z := 31.

(** What start-up fixes: the event binding, the reviewed sensors, the watchdog
    settings. *)
Record AtlConfig := {
  cf_forkliftEntered : EventType;
  cf_forkliftExited : EventType;
  cf_personEntered : EventType;
  cf_personExited : EventType;
  cf_roiViolation : EventType;
  cf_roiCleared : EventType;
  cf_reviewed : list Z;
  cf_maxHbFailures : Z;
  cf_hbStaleMs : Z;
  cf_hbPeriodMs : Z;
  cf_freshnessTimeoutMs : Z;
}.

(** [g_warnThresholdCfg]. *)
Definition cf_warnThreshold (c : AtlConfig) : Z := cf_maxHbFailures c / 2.

Record Atl := {
  at_subActive : Z; (* pssSubCauseActive[], bit c for cause c *)
  at_pssSuppress : bool; (* pssErrorFusionSuppressLatched *)
  at_latch : Z; (* safeStateLatchCauses *)
  at_hbFault : bool; (* hbFaultLatched *)
  at_lastMiss : Z; (* g_lastGatewayHbMissCount *)
  at_prevMiss : Z; (* the watchdog loop's prevMiss *)
  at_tier2Attempts : Z; (* regrTier2AttemptsRemaining *)
  at_hbLastRecv : Z; (* hbLastRecvTime *)
  at_freshFault : bool; (* decisionFreshnessFaultActive *)
  at_lastValid : Z; (* lastValidDecisionRequestTime *)
  at_seqFault : bool; (* gatewayDecisionSequenceFaultActive *)
  at_seqState : SdmGatewayDecisionSequenceState; (* gatewayDecisionSequenceState *)
  at_failedMask : Z; (* failedSafetyRelevantSensorMask *)
  at_saimPending : Z; (* saimInitPendingSensorMask *)
  at_allFailed : bool; (* allSafetyRelevantSensorsFailedActive *)
  at_aiInvalid : bool; (* aiPipelineInvalidActive *)
  at_presenceSeen : Z; (* sourcePresenceSeen *)
  at_unusableSeen : Z; (* sourceInputUnusableSeen *)
  at_lastEventId : list Z; (* lastEventId[] *)
  at_forklift : bool; (* forkliftInTrailer *)
  at_persons : Z; (* personsInTrailerCount *)
  at_restricted : bool; (* restrictedAreaViolationByPerson *)
  at_lastForklift : option ObjectRecord; (* lastForkliftRecord when lastForkliftRecordValid *)
  at_lastRelease : option Z; (* lastSafeReleaseRequestTime *)
}.

(** ** Field updates *)

Definition set_subActive (x : Z) (s : Atl) : Atl := {|
  at_subActive := x; at_pssSuppress := at_pssSuppress s; at_latch := at_latch s; at_hbFault := at_hbFault s;
  at_lastMiss := at_lastMiss s; at_prevMiss := at_prevMiss s; at_tier2Attempts := at_tier2Attempts s;
  at_hbLastRecv := at_hbLastRecv s; at_freshFault := at_freshFault s; at_lastValid := at_lastValid s;
  at_seqFault := at_seqFault s; at_seqState := at_seqState s; at_failedMask := at_failedMask s; at_saimPending
  := at_saimPending s; at_allFailed := at_allFailed s; at_aiInvalid := at_aiInvalid s; at_presenceSeen :=
  at_presenceSeen s; at_unusableSeen := at_unusableSeen s; at_lastEventId := at_lastEventId s; at_forklift :=
  at_forklift s; at_persons := at_persons s; at_restricted := at_restricted s; at_lastForklift :=
  at_lastForklift s; at_lastRelease := at_lastRelease s |}.

Definition set_pssSuppress (x : bool) (s : Atl) : Atl := {|
  at_subActive := at_subActive s; at_pssSuppress := x; at_latch := at_latch s; at_hbFault := at_hbFault s;
  at_lastMiss := at_lastMiss s; at_prevMiss := at_prevMiss s; at_tier2Attempts := at_tier2Attempts s;
  at_hbLastRecv := at_hbLastRecv s; at_freshFault := at_freshFault s; at_lastValid := at_lastValid s;
  at_seqFault := at_seqFault s; at_seqState := at_seqState s; at_failedMask := at_failedMask s; at_saimPending
  := at_saimPending s; at_allFailed := at_allFailed s; at_aiInvalid := at_aiInvalid s; at_presenceSeen :=
  at_presenceSeen s; at_unusableSeen := at_unusableSeen s; at_lastEventId := at_lastEventId s; at_forklift :=
  at_forklift s; at_persons := at_persons s; at_restricted := at_restricted s; at_lastForklift :=
  at_lastForklift s; at_lastRelease := at_lastRelease s |}.

Definition set_latch (x : Z) (s : Atl) : Atl := {|
  at_subActive := at_subActive s; at_pssSuppress := at_pssSuppress s; at_latch := x; at_hbFault := at_hbFault
  s; at_lastMiss := at_lastMiss s; at_prevMiss := at_prevMiss s; at_tier2Attempts := at_tier2Attempts s;
  at_hbLastRecv := at_hbLastRecv s; at_freshFault := at_freshFault s; at_lastValid := at_lastValid s;
  at_seqFault := at_seqFault s; at_seqState := at_seqState s; at_failedMask := at_failedMask s; at_saimPending
  := at_saimPending s; at_allFailed := at_allFailed s; at_aiInvalid := at_aiInvalid s; at_presenceSeen :=
  at_presenceSeen s; at_unusableSeen := at_unusableSeen s; at_lastEventId := at_lastEventId s; at_forklift :=
  at_forklift s; at_persons := at_persons s; at_restricted := at_restricted s; at_lastForklift :=
  at_lastForklift s; at_lastRelease := at_lastRelease s |}.

Definition set_hbFault (x : bool) (s : Atl) : Atl := {|
  at_subActive := at_subActive s; at_pssSuppress := at_pssSuppress s; at_latch := at_latch s; at_hbFault := x;
  at_lastMiss := at_lastMiss s; at_prevMiss := at_prevMiss s; at_tier2Attempts := at_tier2Attempts s;
  at_hbLastRecv := at_hbLastRecv s; at_freshFault := at_freshFault s; at_lastValid := at_lastValid s;
  at_seqFault := at_seqFault s; at_seqState := at_seqState s; at_failedMask := at_failedMask s; at_saimPending
  := at_saimPending s; at_allFailed := at_allFailed s; at_aiInvalid := at_aiInvalid s; at_presenceSeen :=
  at_presenceSeen s; at_unusableSeen := at_unusableSeen s; at_lastEventId := at_lastEventId s; at_forklift :=
  at_forklift s; at_persons := at_persons s; at_restricted := at_restricted s; at_lastForklift :=
  at_lastForklift s; at_lastRelease := at_lastRelease s |}.

Definition set_lastMiss (x : Z) (s : Atl) : Atl := {|
  at_subActive := at_subActive s; at_pssSuppress := at_pssSuppress s; at_latch := at_latch s; at_hbFault :=
  at_hbFault s; at_lastMiss := x; at_prevMiss := at_prevMiss s; at_tier2Attempts := at_tier2Attempts s;
  at_hbLastRecv := at_hbLastRecv s; at_freshFault := at_freshFault s; at_lastValid := at_lastValid s;
  at_seqFault := at_seqFault s; at_seqState := at_seqState s; at_failedMask := at_failedMask s; at_saimPending
  := at_saimPending s; at_allFailed := at_allFailed s; at_aiInvalid := at_aiInvalid s; at_presenceSeen :=
  at_presenceSeen s; at_unusableSeen := at_unusableSeen s; at_lastEventId := at_lastEventId s; at_forklift :=
  at_forklift s; at_persons := at_persons s; at_restricted := at_restricted s; at_lastForklift :=
  at_lastForklift s; at_lastRelease := at_lastRelease s |}.

Definition set_prevMiss (x : Z) (s : Atl) : Atl := {|
  at_subActive := at_subActive s; at_pssSuppress := at_pssSuppress s; at_latch := at_latch s; at_hbFault :=
  at_hbFault s; at_lastMiss := at_lastMiss s; at_prevMiss := x; at_tier2Attempts := at_tier2Attempts s;
  at_hbLastRecv := at_hbLastRecv s; at_freshFault := at_freshFault s; at_lastValid := at_lastValid s;
  at_seqFault := at_seqFault s; at_seqState := at_seqState s; at_failedMask := at_failedMask s; at_saimPending
  := at_saimPending s; at_allFailed := at_allFailed s; at_aiInvalid := at_aiInvalid s; at_presenceSeen :=
  at_presenceSeen s; at_unusableSeen := at_unusableSeen s; at_lastEventId := at_lastEventId s; at_forklift :=
  at_forklift s; at_persons := at_persons s; at_restricted := at_restricted s; at_lastForklift :=
  at_lastForklift s; at_lastRelease := at_lastRelease s |}.

Definition set_tier2Attempts (x : Z) (s : Atl) : Atl := {|
  at_subActive := at_subActive s; at_pssSuppress := at_pssSuppress s; at_latch := at_latch s; at_hbFault :=
  at_hbFault s; at_lastMiss := at_lastMiss s; at_prevMiss := at_prevMiss s; at_tier2Attempts := x;
  at_hbLastRecv := at_hbLastRecv s; at_freshFault := at_freshFault s; at_lastValid := at_lastValid s;
  at_seqFault := at_seqFault s; at_seqState := at_seqState s; at_failedMask := at_failedMask s; at_saimPending
  := at_saimPending s; at_allFailed := at_allFailed s; at_aiInvalid := at_aiInvalid s; at_presenceSeen :=
  at_presenceSeen s; at_unusableSeen := at_unusableSeen s; at_lastEventId := at_lastEventId s; at_forklift :=
  at_forklift s; at_persons := at_persons s; at_restricted := at_restricted s; at_lastForklift :=
  at_lastForklift s; at_lastRelease := at_lastRelease s |}.

Definition set_hbLastRecv (x : Z) (s : Atl) : Atl := {|
  at_subActive := at_subActive s; at_pssSuppress := at_pssSuppress s; at_latch := at_latch s; at_hbFault :=
  at_hbFault s; at_lastMiss := at_lastMiss s; at_prevMiss := at_prevMiss s; at_tier2Attempts :=
  at_tier2Attempts s; at_hbLastRecv := x; at_freshFault := at_freshFault s; at_lastValid := at_lastValid s;
  at_seqFault := at_seqFault s; at_seqState := at_seqState s; at_failedMask := at_failedMask s; at_saimPending
  := at_saimPending s; at_allFailed := at_allFailed s; at_aiInvalid := at_aiInvalid s; at_presenceSeen :=
  at_presenceSeen s; at_unusableSeen := at_unusableSeen s; at_lastEventId := at_lastEventId s; at_forklift :=
  at_forklift s; at_persons := at_persons s; at_restricted := at_restricted s; at_lastForklift :=
  at_lastForklift s; at_lastRelease := at_lastRelease s |}.

Definition set_freshFault (x : bool) (s : Atl) : Atl := {|
  at_subActive := at_subActive s; at_pssSuppress := at_pssSuppress s; at_latch := at_latch s; at_hbFault :=
  at_hbFault s; at_lastMiss := at_lastMiss s; at_prevMiss := at_prevMiss s; at_tier2Attempts :=
  at_tier2Attempts s; at_hbLastRecv := at_hbLastRecv s; at_freshFault := x; at_lastValid := at_lastValid s;
  at_seqFault := at_seqFault s; at_seqState := at_seqState s; at_failedMask := at_failedMask s; at_saimPending
  := at_saimPending s; at_allFailed := at_allFailed s; at_aiInvalid := at_aiInvalid s; at_presenceSeen :=
  at_presenceSeen s; at_unusableSeen := at_unusableSeen s; at_lastEventId := at_lastEventId s; at_forklift :=
  at_forklift s; at_persons := at_persons s; at_restricted := at_restricted s; at_lastForklift :=
  at_lastForklift s; at_lastRelease := at_lastRelease s |}.

Definition set_lastValid (x : Z) (s : Atl) : Atl := {|
  at_subActive := at_subActive s; at_pssSuppress := at_pssSuppress s; at_latch := at_latch s; at_hbFault :=
  at_hbFault s; at_lastMiss := at_lastMiss s; at_prevMiss := at_prevMiss s; at_tier2Attempts :=
  at_tier2Attempts s; at_hbLastRecv := at_hbLastRecv s; at_freshFault := at_freshFault s; at_lastValid := x;
  at_seqFault := at_seqFault s; at_seqState := at_seqState s; at_failedMask := at_failedMask s; at_saimPending
  := at_saimPending s; at_allFailed := at_allFailed s; at_aiInvalid := at_aiInvalid s; at_presenceSeen :=
  at_presenceSeen s; at_unusableSeen := at_unusableSeen s; at_lastEventId := at_lastEventId s; at_forklift :=
  at_forklift s; at_persons := at_persons s; at_restricted := at_restricted s; at_lastForklift :=
  at_lastForklift s; at_lastRelease := at_lastRelease s |}.

Definition set_seqFault (x : bool) (s : Atl) : Atl := {|
  at_subActive := at_subActive s; at_pssSuppress := at_pssSuppress s; at_latch := at_latch s; at_hbFault :=
  at_hbFault s; at_lastMiss := at_lastMiss s; at_prevMiss := at_prevMiss s; at_tier2Attempts :=
  at_tier2Attempts s; at_hbLastRecv := at_hbLastRecv s; at_freshFault := at_freshFault s; at_lastValid :=
  at_lastValid s; at_seqFault := x; at_seqState := at_seqState s; at_failedMask := at_failedMask s;
  at_saimPending := at_saimPending s; at_allFailed := at_allFailed s; at_aiInvalid := at_aiInvalid s;
  at_presenceSeen := at_presenceSeen s; at_unusableSeen := at_unusableSeen s; at_lastEventId := at_lastEventId
  s; at_forklift := at_forklift s; at_persons := at_persons s; at_restricted := at_restricted s;
  at_lastForklift := at_lastForklift s; at_lastRelease := at_lastRelease s |}.

Definition set_seqState (x : SdmGatewayDecisionSequenceState) (s : Atl) : Atl := {|
  at_subActive := at_subActive s; at_pssSuppress := at_pssSuppress s; at_latch := at_latch s; at_hbFault :=
  at_hbFault s; at_lastMiss := at_lastMiss s; at_prevMiss := at_prevMiss s; at_tier2Attempts :=
  at_tier2Attempts s; at_hbLastRecv := at_hbLastRecv s; at_freshFault := at_freshFault s; at_lastValid :=
  at_lastValid s; at_seqFault := at_seqFault s; at_seqState := x; at_failedMask := at_failedMask s;
  at_saimPending := at_saimPending s; at_allFailed := at_allFailed s; at_aiInvalid := at_aiInvalid s;
  at_presenceSeen := at_presenceSeen s; at_unusableSeen := at_unusableSeen s; at_lastEventId := at_lastEventId
  s; at_forklift := at_forklift s; at_persons := at_persons s; at_restricted := at_restricted s;
  at_lastForklift := at_lastForklift s; at_lastRelease := at_lastRelease s |}.

Definition set_failedMask (x : Z) (s : Atl) : Atl := {|
  at_subActive := at_subActive s; at_pssSuppress := at_pssSuppress s; at_latch := at_latch s; at_hbFault :=
  at_hbFault s; at_lastMiss := at_lastMiss s; at_prevMiss := at_prevMiss s; at_tier2Attempts :=
  at_tier2Attempts s; at_hbLastRecv := at_hbLastRecv s; at_freshFault := at_freshFault s; at_lastValid :=
  at_lastValid s; at_seqFault := at_seqFault s; at_seqState := at_seqState s; at_failedMask := x;
  at_saimPending := at_saimPending s; at_allFailed := at_allFailed s; at_aiInvalid := at_aiInvalid s;
  at_presenceSeen := at_presenceSeen s; at_unusableSeen := at_unusableSeen s; at_lastEventId := at_lastEventId
  s; at_forklift := at_forklift s; at_persons := at_persons s; at_restricted := at_restricted s;
  at_lastForklift := at_lastForklift s; at_lastRelease := at_lastRelease s |}.

Definition set_saimPending (x : Z) (s : Atl) : Atl := {|
  at_subActive := at_subActive s; at_pssSuppress := at_pssSuppress s; at_latch := at_latch s; at_hbFault :=
  at_hbFault s; at_lastMiss := at_lastMiss s; at_prevMiss := at_prevMiss s; at_tier2Attempts :=
  at_tier2Attempts s; at_hbLastRecv := at_hbLastRecv s; at_freshFault := at_freshFault s; at_lastValid :=
  at_lastValid s; at_seqFault := at_seqFault s; at_seqState := at_seqState s; at_failedMask := at_failedMask
  s; at_saimPending := x; at_allFailed := at_allFailed s; at_aiInvalid := at_aiInvalid s; at_presenceSeen :=
  at_presenceSeen s; at_unusableSeen := at_unusableSeen s; at_lastEventId := at_lastEventId s; at_forklift :=
  at_forklift s; at_persons := at_persons s; at_restricted := at_restricted s; at_lastForklift :=
  at_lastForklift s; at_lastRelease := at_lastRelease s |}.

Definition set_allFailed (x : bool) (s : Atl) : Atl := {|
  at_subActive := at_subActive s; at_pssSuppress := at_pssSuppress s; at_latch := at_latch s; at_hbFault :=
  at_hbFault s; at_lastMiss := at_lastMiss s; at_prevMiss := at_prevMiss s; at_tier2Attempts :=
  at_tier2Attempts s; at_hbLastRecv := at_hbLastRecv s; at_freshFault := at_freshFault s; at_lastValid :=
  at_lastValid s; at_seqFault := at_seqFault s; at_seqState := at_seqState s; at_failedMask := at_failedMask
  s; at_saimPending := at_saimPending s; at_allFailed := x; at_aiInvalid := at_aiInvalid s; at_presenceSeen :=
  at_presenceSeen s; at_unusableSeen := at_unusableSeen s; at_lastEventId := at_lastEventId s; at_forklift :=
  at_forklift s; at_persons := at_persons s; at_restricted := at_restricted s; at_lastForklift :=
  at_lastForklift s; at_lastRelease := at_lastRelease s |}.

Definition set_aiInvalid (x : bool) (s : Atl) : Atl := {|
  at_subActive := at_subActive s; at_pssSuppress := at_pssSuppress s; at_latch := at_latch s; at_hbFault :=
  at_hbFault s; at_lastMiss := at_lastMiss s; at_prevMiss := at_prevMiss s; at_tier2Attempts :=
  at_tier2Attempts s; at_hbLastRecv := at_hbLastRecv s; at_freshFault := at_freshFault s; at_lastValid :=
  at_lastValid s; at_seqFault := at_seqFault s; at_seqState := at_seqState s; at_failedMask := at_failedMask
  s; at_saimPending := at_saimPending s; at_allFailed := at_allFailed s; at_aiInvalid := x; at_presenceSeen :=
  at_presenceSeen s; at_unusableSeen := at_unusableSeen s; at_lastEventId := at_lastEventId s; at_forklift :=
  at_forklift s; at_persons := at_persons s; at_restricted := at_restricted s; at_lastForklift :=
  at_lastForklift s; at_lastRelease := at_lastRelease s |}.

Definition set_presenceSeen (x : Z) (s : Atl) : Atl := {|
  at_subActive := at_subActive s; at_pssSuppress := at_pssSuppress s; at_latch := at_latch s; at_hbFault :=
  at_hbFault s; at_lastMiss := at_lastMiss s; at_prevMiss := at_prevMiss s; at_tier2Attempts :=
  at_tier2Attempts s; at_hbLastRecv := at_hbLastRecv s; at_freshFault := at_freshFault s; at_lastValid :=
  at_lastValid s; at_seqFault := at_seqFault s; at_seqState := at_seqState s; at_failedMask := at_failedMask
  s; at_saimPending := at_saimPending s; at_allFailed := at_allFailed s; at_aiInvalid := at_aiInvalid s;
  at_presenceSeen := x; at_unusableSeen := at_unusableSeen s; at_lastEventId := at_lastEventId s; at_forklift
  := at_forklift s; at_persons := at_persons s; at_restricted := at_restricted s; at_lastForklift :=
  at_lastForklift s; at_lastRelease := at_lastRelease s |}.

Definition set_unusableSeen (x : Z) (s : Atl) : Atl := {|
  at_subActive := at_subActive s; at_pssSuppress := at_pssSuppress s; at_latch := at_latch s; at_hbFault :=
  at_hbFault s; at_lastMiss := at_lastMiss s; at_prevMiss := at_prevMiss s; at_tier2Attempts :=
  at_tier2Attempts s; at_hbLastRecv := at_hbLastRecv s; at_freshFault := at_freshFault s; at_lastValid :=
  at_lastValid s; at_seqFault := at_seqFault s; at_seqState := at_seqState s; at_failedMask := at_failedMask
  s; at_saimPending := at_saimPending s; at_allFailed := at_allFailed s; at_aiInvalid := at_aiInvalid s;
  at_presenceSeen := at_presenceSeen s; at_unusableSeen := x; at_lastEventId := at_lastEventId s; at_forklift
  := at_forklift s; at_persons := at_persons s; at_restricted := at_restricted s; at_lastForklift :=
  at_lastForklift s; at_lastRelease := at_lastRelease s |}.

Definition set_lastEventId (x : list Z) (s : Atl) : Atl := {|
  at_subActive := at_subActive s; at_pssSuppress := at_pssSuppress s; at_latch := at_latch s; at_hbFault :=
  at_hbFault s; at_lastMiss := at_lastMiss s; at_prevMiss := at_prevMiss s; at_tier2Attempts :=
  at_tier2Attempts s; at_hbLastRecv := at_hbLastRecv s; at_freshFault := at_freshFault s; at_lastValid :=
  at_lastValid s; at_seqFault := at_seqFault s; at_seqState := at_seqState s; at_failedMask := at_failedMask
  s; at_saimPending := at_saimPending s; at_allFailed := at_allFailed s; at_aiInvalid := at_aiInvalid s;
  at_presenceSeen := at_presenceSeen s; at_unusableSeen := at_unusableSeen s; at_lastEventId := x; at_forklift
  := at_forklift s; at_persons := at_persons s; at_restricted := at_restricted s; at_lastForklift :=
  at_lastForklift s; at_lastRelease := at_lastRelease s |}.

Definition set_forklift (x : bool) (s : Atl) : Atl := {|
  at_subActive := at_subActive s; at_pssSuppress := at_pssSuppress s; at_latch := at_latch s; at_hbFault :=
  at_hbFault s; at_lastMiss := at_lastMiss s; at_prevMiss := at_prevMiss s; at_tier2Attempts :=
  at_tier2Attempts s; at_hbLastRecv := at_hbLastRecv s; at_freshFault := at_freshFault s; at_lastValid :=
  at_lastValid s; at_seqFault := at_seqFault s; at_seqState := at_seqState s; at_failedMask := at_failedMask
  s; at_saimPending := at_saimPending s; at_allFailed := at_allFailed s; at_aiInvalid := at_aiInvalid s;
  at_presenceSeen := at_presenceSeen s; at_unusableSeen := at_unusableSeen s; at_lastEventId := at_lastEventId
  s; at_forklift := x; at_persons := at_persons s; at_restricted := at_restricted s; at_lastForklift :=
  at_lastForklift s; at_lastRelease := at_lastRelease s |}.

Definition set_persons (x : Z) (s : Atl) : Atl := {|
  at_subActive := at_subActive s; at_pssSuppress := at_pssSuppress s; at_latch := at_latch s; at_hbFault :=
  at_hbFault s; at_lastMiss := at_lastMiss s; at_prevMiss := at_prevMiss s; at_tier2Attempts :=
  at_tier2Attempts s; at_hbLastRecv := at_hbLastRecv s; at_freshFault := at_freshFault s; at_lastValid :=
  at_lastValid s; at_seqFault := at_seqFault s; at_seqState := at_seqState s; at_failedMask := at_failedMask
  s; at_saimPending := at_saimPending s; at_allFailed := at_allFailed s; at_aiInvalid := at_aiInvalid s;
  at_presenceSeen := at_presenceSeen s; at_unusableSeen := at_unusableSeen s; at_lastEventId := at_lastEventId
  s; at_forklift := at_forklift s; at_persons := x; at_restricted := at_restricted s; at_lastForklift :=
  at_lastForklift s; at_lastRelease := at_lastRelease s |}.

Definition set_restricted (x : bool) (s : Atl) : Atl := {|
  at_subActive := at_subActive s; at_pssSuppress := at_pssSuppress s; at_latch := at_latch s; at_hbFault :=
  at_hbFault s; at_lastMiss := at_lastMiss s; at_prevMiss := at_prevMiss s; at_tier2Attempts :=
  at_tier2Attempts s; at_hbLastRecv := at_hbLastRecv s; at_freshFault := at_freshFault s; at_lastValid :=
  at_lastValid s; at_seqFault := at_seqFault s; at_seqState := at_seqState s; at_failedMask := at_failedMask
  s; at_saimPending := at_saimPending s; at_allFailed := at_allFailed s; at_aiInvalid := at_aiInvalid s;
  at_presenceSeen := at_presenceSeen s; at_unusableSeen := at_unusableSeen s; at_lastEventId := at_lastEventId
  s; at_forklift := at_forklift s; at_persons := at_persons s; at_restricted := x; at_lastForklift :=
  at_lastForklift s; at_lastRelease := at_lastRelease s |}.

Definition set_lastForklift (x : option ObjectRecord) (s : Atl) : Atl := {|
  at_subActive := at_subActive s; at_pssSuppress := at_pssSuppress s; at_latch := at_latch s; at_hbFault :=
  at_hbFault s; at_lastMiss := at_lastMiss s; at_prevMiss := at_prevMiss s; at_tier2Attempts :=
  at_tier2Attempts s; at_hbLastRecv := at_hbLastRecv s; at_freshFault := at_freshFault s; at_lastValid :=
  at_lastValid s; at_seqFault := at_seqFault s; at_seqState := at_seqState s; at_failedMask := at_failedMask
  s; at_saimPending := at_saimPending s; at_allFailed := at_allFailed s; at_aiInvalid := at_aiInvalid s;
  at_presenceSeen := at_presenceSeen s; at_unusableSeen := at_unusableSeen s; at_lastEventId := at_lastEventId
  s; at_forklift := at_forklift s; at_persons := at_persons s; at_restricted := at_restricted s;
  at_lastForklift := x; at_lastRelease := at_lastRelease s |}.

Definition set_lastRelease (x : option Z) (s : Atl) : Atl := {|
  at_subActive := at_subActive s; at_pssSuppress := at_pssSuppress s; at_latch := at_latch s; at_hbFault :=
  at_hbFault s; at_lastMiss := at_lastMiss s; at_prevMiss := at_prevMiss s; at_tier2Attempts :=
  at_tier2Attempts s; at_hbLastRecv := at_hbLastRecv s; at_freshFault := at_freshFault s; at_lastValid :=
  at_lastValid s; at_seqFault := at_seqFault s; at_seqState := at_seqState s; at_failedMask := at_failedMask
  s; at_saimPending := at_saimPending s; at_allFailed := at_allFailed s; at_aiInvalid := at_aiInvalid s;
  at_presenceSeen := at_presenceSeen s; at_unusableSeen := at_unusableSeen s; at_lastEventId := at_lastEventId
  s; at_forklift := at_forklift s; at_persons := at_persons s; at_restricted := at_restricted s;
  at_lastForklift := at_lastForklift s; at_lastRelease := x |}.

(** ** Effects: state and sent commands *)

Definition M (A : Type) : Type := Atl -> A * (Atl * list Tx).

Definition ret {A} (a : A) : M A := fun s => (a, (s, [])).

Definition bind {A B} (m : M A) (k : A -> M B) : M B := fun s =>
  let '(a, (s1, o1)) := m s in
  let '(b, (s2, o2)) := k a s1 in (b, (s2, o1 ++ o2)).

Declare Scope atl_scope.
Open Scope atl_scope.
Notation "x ← y ; z" := (bind y (fun x => z)) : atl_scope.
Notation "y ;; z" := (bind y (fun _ => z)) : atl_scope.

Definition gets {A} (f : Atl -> A) : M A := fun s => (f s, (s, [])).
Definition modify (f : Atl -> Atl) : M unit := fun s => (tt, (f s, [])).
Definition sendDecisionCommandWithObject1 (c : Command) (o : option ObjectRecord) : M unit :=
  fun s => (tt, (s, [(c, o)])).
Definition sendDecisionCommand (c : Command) : M unit := sendDecisionCommandWithObject1 c None.
Definition when (b : bool) (m : M unit) : M unit := if b then m else ret tt.

Definition run {A} (m : M A) (s : Atl) : Atl := (m s).2.1.
Definition sent {A} (m : M A) (s : Atl) : list Tx := (m s).2.2.

(** A loop whose body accumulates a flag. *)
Fixpoint any_of {B} (body : B -> M bool) (l : list B) : M bool :=
  match l with
  | [] => ret false
  | x :: l' => a ← body x; b ← any_of body l'; ret (a || b)
  end.

Fixpoint each {B} (body : B -> M unit) (l : list B) : M unit :=
  match l with
  | [] => ret tt
  | x :: l' => body x ;; each body l'
  end.

(** ** Latches *)

Definition all_sub_causes : list Z := [0; 1; 2; 3; 4; 5; 6].

Definition pssAnySubCauseActive (s : Atl) : bool := existsb (Z.testbit (at_subActive s)) all_sub_causes.

Definition safeStateLatched (s : Atl) : bool := negb (at_latch s =? 0).

Definition or_latch (bit : Z) (s : Atl) : Atl := set_latch (Z.lor (at_latch s) bit) s.

Definition markPssSubCause (cause : Z) : M unit :=
  modify (fun s => or_latch kSafeLatchPss (set_pssSuppress true (set_subActive (Z.setbit (at_subActive s) cause) s))).

Definition clearPssSubCause (cause : Z) : M unit :=
  modify (fun s =>
    if negb (Z.testbit (at_subActive s) cause) then s
    else
      let s := set_subActive (Z.clearbit (at_subActive s) cause) s in
      if negb (pssAnySubCauseActive s) then set_pssSuppress false s else s).

(** UNMUTE then SW_ERROR. *)
Definition sendLatchedSafeHold : M unit := sendDecisionCommand CMD_UNMUTE ;; sendDecisionCommand CMD_SW_ERROR.

Definition sendPhysicalEventSafeHold (o : option ObjectRecord) : M unit :=
  sendDecisionCommandWithObject1 CMD_UNMUTE o ;; sendDecisionCommandWithObject1 CMD_SW_ERROR o.

(** ** Sensor health *)

Definition safetyRelevantSensorBit (cf : AtlConfig) (pipelineId : Z) : Z :=
  if (pipelineId =? 0) || (kReviewedSensorMaxPipelineId <? pipelineId) then 0
  else if existsb (Z.eqb pipelineId) (cf_reviewed cf) then Z.shiftl 1 (pipelineId - 1) else 0.

(** [gReviewedSensors.mask]. *)
Definition reviewed_mask (cf : AtlConfig) : Z :=
  fold_left (fun m id => Z.lor m (Z.shiftl 1 (id - 1))) (cf_reviewed cf) 0.

Definition markAllSafetyRelevantSensorsFailedLatched : M bool :=
  was ← gets at_allFailed;
  if was then ret false
  else modify (fun s => or_latch kSafeLatchAllSafetyRelevantSensorsFailed (set_allFailed true s)) ;; ret true.

Definition clearAllSafetyRelevantSensorsFailedActiveIfRecovered (cf : AtlConfig) (failedMask : Z) : M unit :=
  when (negb (Z.land failedMask (reviewed_mask cf) =? reviewed_mask cf)) (modify (set_allFailed false)).

Definition updateSafetyRelevantSensorFailedBit (bit : Z) (failed : bool) (mask : Z) : Z :=
  if failed then Z.lor mask bit else Z.land mask (u32_not bit).

(** The verdict of one entry: [None] leaves the sensor's failed bit alone.  The
    second component is the new init-pending mask. *)
Definition sensor_verdict (pending bit : Z) (sd : SensorData) : option bool * Z :=
  let et := ev_type (sd_event sd) in
  if (et =? SENSOR_INVALID) || negb (sd_isHealthy sd) then
    if ev_cause (sd_event sd) =? CAUSE_SAIM_INIT then
      (None, if et =? SENSOR_INVALID then Z.lor pending bit else pending)
    else if negb (et =? SENSOR_INVALID) && negb (Z.land pending bit =? 0) then (None, pending)
    else (Some true, pending)
  else if (et =? SENSOR_VALID) || (sd_isHealthy sd && sd_isTrustedSource sd) then
    (Some false, Z.land pending (u32_not bit))
  else (None, pending).

Definition updateSensorHealth_entry (cf : AtlConfig) (sd : SensorData) : M bool :=
  if ev_status (sd_event sd) =? STALE then ret false
  else if ev_type (sd_event sd) =? PSS_STATUS_NOOP then ret false
  else
    let bit := safetyRelevantSensorBit cf (fm_pipelineID (ev_fusionMetadata (sd_event sd))) in
    if bit =? 0 then ret false
    else
      pending ← gets at_saimPending;
      let '(verdict, pending') := sensor_verdict pending bit sd in
      modify (set_saimPending pending') ;;
      match verdict with
      | None => ret false
      | Some failed =>
        modify (fun s => set_failedMask (updateSafetyRelevantSensorFailedBit bit failed (at_failedMask s)) s) ;;
        newMask ← gets at_failedMask;
        if Z.land newMask (reviewed_mask cf) =? reviewed_mask cf
        then markAllSafetyRelevantSensorsFailedLatched
        else clearAllSafetyRelevantSensorsFailedActiveIfRecovered cf newMask ;; ret false
      end.

Definition updateSensorHealthFromDecisionRequest (cf : AtlConfig) (r : DecisionRequest) : M bool :=
  any_of (updateSensorHealth_entry cf) (populated r).

(** ** AI-pipeline trust *)

Definition markAiPipelineInvalidLatched : M bool :=
  was ← gets at_aiInvalid;
  modify (fun s => or_latch kSafeLatchAiPipelineInvalid (set_aiInvalid true s)) ;; ret (negb was).

Definition clearAiPipelineInvalidActive : M unit := modify (set_aiInvalid false).

Definition updateAiPipelineTrust_entry (sd : SensorData) : M bool :=
  if ev_status (sd_event sd) =? STALE then ret false
  else if ev_type (sd_event sd) =? AI_PIPELINE_INVALID then markAiPipelineInvalidLatched
  else if ev_type (sd_event sd) =? AI_PIPELINE_VALID then clearAiPipelineInvalidActive ;; ret false
  else ret false.

Definition updateAiPipelineTrustFromDecisionRequest (r : DecisionRequest) : M bool :=
  any_of updateAiPipelineTrust_entry (populated r).

(** ** Other latches *)

Definition markCountDriftFaultLatched : M bool :=
  previousLatch ← gets at_latch;
  modify (or_latch kSafeLatchCountDrift) ;; ret (previousLatch =? 0).

Definition markGatewayHbFaultLatched : M bool :=
  was ← gets at_hbFault;
  if was then ret false
  else modify (fun s => or_latch kSafeLatchGatewayHb (set_hbFault true s)) ;; ret true.

Definition clearGatewayHbFaultActive : M unit := modify (set_hbFault false).

Definition markDecisionFreshnessFaultLatched : M bool :=
  was ← gets at_freshFault;
  if was then ret false
  else modify (fun s => or_latch kSafeLatchDecisionFreshness (set_freshFault true s)) ;; ret true.

Definition markGatewayDecisionSequenceFaultLatched : M bool :=
  was ← gets at_seqFault;
  if was then ret false
  else modify (fun s => or_latch kSafeLatchGatewayDecisionSequence (set_seqFault true s)) ;; ret true.

Definition markGatewayDecisionSequenceRecovered : M unit := modify (set_seqFault false).

Definition markDecisionRequestFresh (now : Z) : M unit :=
  modify (fun s => set_freshFault false (set_lastValid now s)).

(** ** PSS sub-causes of one request *)

Definition kTracked : list Z := [kPssSubMonitorLost; kPssSubPerceptionMonitorLost; kPssSubMdxLost].

(** First loop of [applySourcePresence]; true when the cause must be entered. *)
Definition presence_transition (d : SdmPssSubCauseDelta) (cause : Z) : M bool :=
  when (Z.testbit (d_cleared d) cause) (clearPssSubCause cause) ;;
  active ← gets (fun s => Z.testbit (at_subActive s) cause);
  ret (Z.testbit (d_raised d) cause && negb active).

Fixpoint presence_transitions (d : SdmPssSubCauseDelta) (causes : list Z) : M (list Z) :=
  match causes with
  | [] => ret []
  | c :: cs => e ← presence_transition d c; es ← presence_transitions d cs;
               ret (if e : bool then c :: es else es)
  end.

Definition applySourcePresence (r : DecisionRequest) : M unit :=
  seen ← gets at_presenceSeen;
  let '(seen', d) := SdmSourcePresenceEvaluate seen (Some r) in
  modify (set_presenceSeen seen') ;;
  entered ← presence_transitions d kTracked;
  match entered with
  | [] => ret tt
  | _ => each markPssSubCause entered ;; sendLatchedSafeHold
  end.

Definition applySourceInputState (r : DecisionRequest) : M unit :=
  seen ← gets at_unusableSeen;
  let '(seen', d) := SdmSourceInputStateEvaluate seen (Some r) in
  modify (set_unusableSeen seen') ;;
  when (Z.testbit (d_cleared d) kPssSubInputUnusable) (clearPssSubCause kPssSubInputUnusable) ;;
  active ← gets (fun s => Z.testbit (at_subActive s) kPssSubInputUnusable);
  when (Z.testbit (d_raised d) kPssSubInputUnusable && negb active)
    (markPssSubCause kPssSubInputUnusable ;; sendLatchedSafeHold).

(** Entries with their slot numbers. *)
Definition slots (r : DecisionRequest) : list (nat * SensorData) := imap pair (populated r).

Definition seen_in_slot (s : Atl) (i : nat) (id : Z) : bool := id =? nth i (at_lastEventId s) EVENT_ID_UNSEEN.
Definition record_slot (i : nat) (id : Z) (s : Atl) : Atl := set_lastEventId (<[i := id]> (at_lastEventId s)) s.

(** Loop of [applySwFailEvents]: the sub-cause masks of the new SW_FAILs. *)
Fixpoint sw_fail_raised (l : list (nat * SensorData)) : M Z :=
  match l with
  | [] => ret 0
  | (i, sd) :: l' =>
    let ev := sd_event sd in
    if negb (ev_type ev =? SW_FAIL) then sw_fail_raised l'
    else if ev_status ev =? STALE then sw_fail_raised l'
    else
      dup ← gets (fun s => seen_in_slot s i (ev_id ev));
      if dup : bool then sw_fail_raised l'
      else modify (record_slot i (ev_id ev)) ;;
           rest ← sw_fail_raised l'; ret (Z.lor (SdmSwFailSubCause ev) rest)
  end.

Definition applySwFailEvents (r : DecisionRequest) : M bool :=
  raised ← sw_fail_raised (slots r);
  if raised =? 0 then ret false
  else each (fun c => when (Z.testbit raised c) (markPssSubCause c)) all_sub_causes ;;
       sendLatchedSafeHold ;; ret true.

(** ** Watchdogs *)

Definition gatewayMissFromElapsedMs (cf : AtlConfig) (elapsedMs : Z) : Z :=
  if elapsedMs <=? cf_hbStaleMs cf then 0
  else
    let m := 1 + Z.quot (elapsedMs - cf_hbStaleMs cf) (cf_hbPeriodMs cf) in
    if cf_maxHbFailures cf <? m then cf_maxHbFailures cf else m.

(** One pass of [gatewayHeartbeatWatchdog], [elapsed] ms after the last heartbeat. *)
Definition gatewayHeartbeatWatchdog (cf : AtlConfig) (elapsed : Z) : M unit :=
  let maxF := cf_maxHbFailures cf in
  let warnW := cf_warnThreshold cf in
  let m := gatewayMissFromElapsedMs cf elapsed in
  modify (set_lastMiss m) ;;
  when (m =? 0) clearGatewayHbFaultActive ;;
  prevMiss ← gets at_prevMiss;
  when ((warnW <? m) && (m <? maxF) && (prevMiss <=? warnW))
    (modify (set_tier2Attempts (if warnW + 1 <? maxF then maxF - warnW - 1 else 0)) ;; sendLatchedSafeHold) ;;
  modify (set_prevMiss m) ;;
  if maxF <=? m then
    entered ← markGatewayHbFaultLatched;
    when entered sendLatchedSafeHold
  else ret tt.

(** One pass of [decisionFreshnessWatchdog]. *)
Definition decisionFreshnessWatchdog (cf : AtlConfig) (now : Z) : M unit :=
  lastValid ← gets at_lastValid;
  if sdmDecisionFreshnessExpired (u64 (now - lastValid)) (cf_freshnessTimeoutMs cf) then
    entered ← markDecisionFreshnessFaultLatched;
    when entered sendLatchedSafeHold
  else ret tt.

Inductive WatchdogTick := HbTick (elapsed : Z) | FreshTick (now : Z).

Definition watchdog (cf : AtlConfig) (w : WatchdogTick) : M unit :=
  match w with
  | HbTick elapsed => gatewayHeartbeatWatchdog cf elapsed
  | FreshTick now => decisionFreshnessWatchdog cf now
  end.

(** What the watchdog threads do to the state while a handler that does not
    hold [safeStateLatchMtx] runs; their sends wait for [decisionEvalSendMtx]. *)
Definition interfere (cf : AtlConfig) (during : list WatchdogTick) : M unit :=
  modify (fun s => fold_left (fun s w => run (watchdog cf w) s) during s).

(** ** The decision *)

Definition gatewayHbTier2SafeHoldBand (cf : AtlConfig) (s : Atl) : bool :=
  if at_hbFault s then false
  else (cf_warnThreshold cf <? at_lastMiss s) && (at_lastMiss s <? cf_maxHbFailures cf).

Definition gatewayHbSuppressFusionDecisions (cf : AtlConfig) (s : Atl) : bool :=
  if safeStateLatched s then true
  else if at_hbFault s then true
  else cf_warnThreshold cf <? at_lastMiss s.

Definition fault_hold (cf : AtlConfig) (s : Atl) : bool :=
  safeStateLatched s || at_pssSuppress s || gatewayHbTier2SafeHoldBand cf s.

Definition evaluateATLDecision (cf : AtlConfig) (during : list WatchdogTick) : M unit :=
  hold ← gets (fault_hold cf);
  if hold then sendLatchedSafeHold
  else
    quiet ← gets (gatewayHbSuppressFusionDecisions cf);
    if quiet : bool then ret tt
    else
      forkliftOut ← gets at_forklift;
      personOut ← gets at_persons;
      restrictedViol ← gets at_restricted;
      record ← gets at_lastForklift;
      interfere cf during ;;
      hold ← gets (fault_hold cf);
      if hold then sendLatchedSafeHold
      else
        quiet ← gets (gatewayHbSuppressFusionDecisions cf);
        if quiet : bool then ret tt
        else if forkliftOut && (personOut =? 0) && negb restrictedViol
        then sendDecisionCommandWithObject1 CMD_MUTE record
        else sendDecisionCommandWithObject1 CMD_UNMUTE record.

(** ** One decision request *)

Definition makeObjectRecordFromSensorData (sd : SensorData) : ObjectRecord :=
  let meta := ev_fusionMetadata (sd_event sd) in
  let c := nth 0 (fm_coordinates meta) zero_coordinates in
  {| ob_object_id := (fm_objectID meta).1; ob_x := tc_x c; ob_y := tc_y c; ob_z := 0;
     ob_metadata := u32 (fm_objectType meta).1 |}.

(** Physical events: [(stateChanged, latchEntered)]. *)
Definition physical_event (cf : AtlConfig) (sd : SensorData) : M (bool * bool) :=
  let et := ev_type (sd_event sd) in
  if et =? cf_forkliftEntered cf then
    modify (fun s => set_forklift true (set_lastForklift (Some (makeObjectRecordFromSensorData sd)) s)) ;; ret (true, false)
  else if et =? cf_forkliftExited cf then
    modify (fun s => set_forklift false (set_lastForklift (Some (makeObjectRecordFromSensorData sd)) s)) ;; ret (true, false)
  else if et =? cf_personEntered cf then
    persons ← gets at_persons;
    if persons <? PERSONS_IN_TRAILER_MAX then modify (set_persons (persons + 1)) ;; ret (true, false)
    else entered ← markCountDriftFaultLatched; ret (true, entered)
  else if et =? cf_personExited cf then
    persons ← gets at_persons;
    if 0 <? persons then modify (set_persons (persons - 1)) ;; ret (true, false)
    else entered ← markCountDriftFaultLatched; ret (true, entered)
  else if et =? cf_roiViolation cf then modify (set_restricted true) ;; ret (true, false)
  else if et =? cf_roiCleared cf then modify (set_restricted false) ;; ret (true, false)
  else ret (false, false).

Definition process_entry (cf : AtlConfig) (i : nat) (sd : SensorData) : M (bool * bool) :=
  let ev := sd_event sd in
  if ev_status ev =? STALE then ret (false, false)
  else
    dup ← gets (fun s => seen_in_slot s i (ev_id ev));
    if dup : bool then ret (false, false)
    else
      modify (record_slot i (ev_id ev)) ;;
      let et := ev_type ev in
      if (et =? SENSOR_INVALID) || (et =? SENSOR_VALID) then ret (false, false)
      else if (et =? AI_PIPELINE_INVALID) || (et =? AI_PIPELINE_VALID) then ret (false, false)
      else if negb (sd_isHealthy sd) then ret (false, false)
      else if negb (sd_isTrustedSource sd) then ret (false, false)
      else physical_event cf sd.

Fixpoint process_entries (cf : AtlConfig) (l : list (nat * SensorData)) : M (bool * bool) :=
  match l with
  | [] => ret (false, false)
  | (i, sd) :: l' =>
    a ← process_entry cf i sd;
    b ← process_entries cf l';
    ret (a.1 || b.1, a.2 || b.2)
  end.

(** The physical part of the request: event loop, hold or decision. *)
Definition process_physical (cf : AtlConfig) (during : list WatchdogTick) (r : DecisionRequest) : M unit :=
  res ← process_entries cf (slots r);
  if res.2 then
    record ← gets at_lastForklift;
    sendPhysicalEventSafeHold record
  else
    latched ← gets safeStateLatched;
    if latched : bool then ret tt
    else when res.1 (evaluateATLDecision cf during).

(** [mode == ERROR]. *)
Definition process_error_mode (r : DecisionRequest) : M unit :=
  modify (set_pssSuppress true) ;;
  applySwFailEvents r ;;
  markPssSubCause kPssSubModeError ;;
  sendLatchedSafeHold.

(** [mode != ERROR]. *)
Definition process_normal_mode (cf : AtlConfig) (during : list WatchdogTick) (sensorLatchEntered : bool)
    (r : DecisionRequest) : M unit :=
  when (SdmDecisionRequestClearsPssModeError (Some r)) (clearPssSubCause kPssSubModeError) ;;
  if (summary_count r =? 1) && (ev_type (sd_event (first_entry r)) =? PSS_STATUS_NOOP) then
    when (SdmDecisionRequestIsGatewayCommRecovered (Some r)) (clearPssSubCause kPssSubGatewayComm)
  else
    when (SdmDecisionRequestClearsPssSwFail (Some r))
      (clearPssSubCause kPssSubSwFail ;; clearPssSubCause kPssSubGatewayComm) ;;
    failed ← applySwFailEvents r;
    if failed : bool then ret tt
    else if sensorLatchEntered then sendLatchedSafeHold
    else process_physical cf during r.

Definition processDecisionRequestLocked (cf : AtlConfig) (during : list WatchdogTick) (r : DecisionRequest) : M unit :=
  aiEntered ← updateAiPipelineTrustFromDecisionRequest r;
  record ← gets at_lastForklift;
  when aiEntered (sendPhysicalEventSafeHold record) ;;
  applySourcePresence r ;;
  applySourceInputState r ;;
  sensorLatchEntered ← updateSensorHealthFromDecisionRequest cf r;
  if st_mode (dr_pssStatus r) =? ERROR then process_error_mode r
  else process_normal_mode cf during sensorLatchEntered r.

(** ** The gateway listener, for one DecisionRequest packet *)

Definition on_packet (cf : AtlConfig) (during : list WatchdogTick) (now : Z)
    (packet : NvPSDGatewayDecisionRequestPacket) : M unit :=
  let request := pk_request packet in
  if negb (NvPSDGatewayDecisionPacketHeaderIsValid (Some packet)) then ret tt
  else if negb (validateDecisionRequest (Some request) =? PSS_VALID) then ret tt
  else
    seqState ← gets at_seqState;
    let '(seqState', result) :=
      sdmGatewayDecisionSequenceObserve seqState (pk_gatewayEpoch packet) (pk_gatewayTxSeq packet) in
    modify (set_seqState seqState') ;;
    match result with
    | SEQUENCE_DUPLICATE_OR_STALE | SEQUENCE_INVALID => ret tt
    | SEQUENCE_GAP =>
      entered ← markGatewayDecisionSequenceFaultLatched;
      when entered sendLatchedSafeHold ;;
      markDecisionRequestFresh now ;; processDecisionRequestLocked cf during request
    | SEQUENCE_ACCEPTED =>
      markGatewayDecisionSequenceRecovered ;;
      markDecisionRequestFresh now ;; processDecisionRequestLocked cf during request
    end.

(** A gateway heartbeat. *)
Definition on_heartbeat (now : Z) : M unit := modify (set_hbLastRecv now).

(** ** PLC safe-release *)

Definition flag (b : bool) (bit : Z) (active : Z) : Z := if b then Z.lor active bit else active.

Definition activeSafeLatchCauses (cf : AtlConfig) (s : Atl) : Z :=
  let active := 0 in
  let active := flag (at_hbFault s || gatewayHbTier2SafeHoldBand cf s) kSafeLatchGatewayHb active in
  let active := flag (pssAnySubCauseActive s) kSafeLatchPss active in
  let active := flag (at_freshFault s) kSafeLatchDecisionFreshness active in
  let active := flag (at_seqFault s) kSafeLatchGatewayDecisionSequence active in
  let active := flag (at_allFailed s) kSafeLatchAllSafetyRelevantSensorsFailed active in
  flag (at_aiInvalid s) kSafeLatchAiPipelineInvalid active.

Definition resetAtlStateFromPlcSafeRelease (s : Atl) : Atl :=
  set_forklift false (set_persons 0 (set_restricted false (set_lastForklift None s))).

(** [ackSent], [unmuteSent]: the outcome of the two sends of the response. *)
Definition handleSafeReleaseRequest (cf : AtlConfig) (during : list WatchdogTick) (ackSent unmuteSent : bool)
    (now : Z) : M unit :=
  active ← gets (activeSafeLatchCauses cf);
  if negb (active =? 0) then
    sendDecisionCommand CMD_SAFE_RELEASE_DENIED ;; sendLatchedSafeHold
  else
    releaseLatchSnapshot ← gets at_latch;
    if negb (releaseLatchSnapshot =? 0) then
      sendDecisionCommand CMD_SAFE_RELEASE_ACK ;; sendDecisionCommand CMD_UNMUTE ;;
      interfere cf during ;;
      if ackSent && unmuteSent then
        currentLatch ← gets at_latch;
        active ← gets (activeSafeLatchCauses cf);
        if (currentLatch =? releaseLatchSnapshot) && (active =? 0) then
          modify (fun s => set_lastRelease (Some now) (resetAtlStateFromPlcSafeRelease (set_latch 0 s)))
        else sendLatchedSafeHold
      else ret tt
    else
      sendDecisionCommand CMD_SAFE_RELEASE_ACK ;; sendDecisionCommand CMD_UNMUTE ;;
      when (ackSent && unmuteSent)
        (modify (fun s => set_lastRelease (Some now) (resetAtlStateFromPlcSafeRelease s))).

(** ** Launch and steps *)

Definition initial_atl (now : Z) : Atl := {|
  at_subActive := 0; at_pssSuppress := false; at_latch := 0; at_hbFault := false; at_lastMiss := 0;
  at_prevMiss := 0; at_tier2Attempts := 0; at_hbLastRecv := now; at_freshFault := false; at_lastValid := now;
  at_seqFault := false; at_seqState := sdmGatewayDecisionSequenceReset; at_failedMask := 0; at_saimPending := 0;
  at_allFailed := false; at_aiInvalid := false; at_presenceSeen := 0; at_unusableSeen := 0;
  at_lastEventId := replicate 8 EVENT_ID_UNSEEN; at_forklift := false; at_persons := 0; at_restricted := false;
  at_lastForklift := None; at_lastRelease := None |}.

(** What the decision maker's threads react to. *)
Inductive Input :=
  | InPacket (during : list WatchdogTick) (now : Z) (packet : NvPSDGatewayDecisionRequestPacket)
  | InHeartbeat (now : Z)
  | InWatchdog (w : WatchdogTick)
  | InPeriodic (during : list WatchdogTick)
  | InSafeRelease (during : list WatchdogTick) (ackSent unmuteSent : bool) (now : Z).

Definition handle (cf : AtlConfig) (i : Input) : M unit :=
  match i with
  | InPacket during now packet => on_packet cf during now packet
  | InHeartbeat now => on_heartbeat now
  | InWatchdog w => watchdog cf w
  | InPeriodic during => evaluateATLDecision cf during
  | InSafeRelease during ackSent unmuteSent now => handleSafeReleaseRequest cf during ackSent unmuteSent now
  end.

(** States the decision maker can be in. *)
Inductive reachable (cf : AtlConfig) : Atl -> Prop :=
  | reach_init now : reachable cf (initial_atl now)
  | reach_step s i : reachable cf s -> reachable cf (run (handle cf i) s).
