(* ===== verification/AtlSafety.v ===== *)
(** * Safety of the ATL decision maker

    Theorems about [AtlControl]: every active fault is latched, MUTE is sent
    only in a state without latch, active fault or person, a latch is cleared
    only by an accepted PLC release, a lost source is held until PSS reports
    it present, and the handler's sub-cause updates refine the shared pure
    evaluator. *)

From S2P Require Import Prelude Protocol Crc Validate SdmRequestState GatewayContract SdmSequence AtlControl.

(** ** Running composed effects *)

Lemma run_bind {A B} (m : M A) (k : A -> M B) s : run (bind m k) s = run (k (m s).1) (run m s).
Proof. unfold run, bind. destruct (m s) as [a [s1 o1]]. simpl. by destruct (k a s1) as [b [s2 o2]]. Qed.

Lemma sent_bind {A B} (m : M A) (k : A -> M B) s :
  sent (bind m k) s = sent m s ++ sent (k (m s).1) (run m s).
Proof. unfold sent, run, bind. destruct (m s) as [a [s1 o1]]. simpl. by destruct (k a s1) as [b [s2 o2]]. Qed.

Lemma val_bind {A B} (m : M A) (k : A -> M B) s : (bind m k s).1 = (k (m s).1 (run m s)).1.
Proof. unfold run, bind. destruct (m s) as [a [s1 o1]]. simpl. by destruct (k a s1) as [b [s2 o2]]. Qed.

Lemma run_gets {A B} (f : Atl -> A) (k : A -> M B) s : run (bind (gets f) k) s = run (k (f s)) s.
Proof. by rewrite run_bind. Qed.

Lemma sent_gets {A B} (f : Atl -> A) (k : A -> M B) s : sent (bind (gets f) k) s = sent (k (f s)) s.
Proof. by rewrite sent_bind. Qed.

(** ** Preservation

    [preserves R m]: running [m] relates every state to its result.  With a
    reflexive and transitive [R] it composes. *)

Definition preserves {A} (R : Atl -> Atl -> Prop) (m : M A) : Prop := forall s, R s (run m s).

Section preserves.
Context (R : Atl -> Atl -> Prop) `{!Reflexive R} `{!Transitive R}.

Lemma preserves_ret {A} (a : A) : preserves R (ret a).
Proof. by intros s. Qed.

Lemma preserves_gets {A} (f : Atl -> A) : preserves R (gets f).
Proof. by intros s. Qed.

Lemma preserves_send c o : preserves R (sendDecisionCommandWithObject1 c o).
Proof. by intros s. Qed.

Lemma preserves_bind {A B} (m : M A) (k : A -> M B) :
  preserves R m -> (forall a, preserves R (k a)) -> preserves R (bind m k).
Proof. intros Hm Hk s. rewrite run_bind. etrans; [apply Hm|apply Hk]. Qed.

Lemma preserves_when b m : preserves R m -> preserves R (when b m).
Proof. intros Hm. destruct b; [done|apply preserves_ret]. Qed.

Lemma preserves_if {A} (b : bool) (m m' : M A) : preserves R m -> preserves R m' -> preserves R (if b then m else m').
Proof. by destruct b. Qed.

Lemma preserves_hold : preserves R sendLatchedSafeHold.
Proof. apply preserves_bind; intros; apply preserves_send. Qed.

Lemma preserves_physical_hold o : preserves R (sendPhysicalEventSafeHold o).
Proof. apply preserves_bind; intros; apply preserves_send. Qed.

Lemma preserves_any_of {B} (body : B -> M bool) l : (forall x, x ∈ l -> preserves R (body x)) -> preserves R (any_of body l).
Proof.
  induction l as [|x l IH]; intros H; simpl; [apply preserves_ret|].
  apply preserves_bind; [apply H; left|intros a].
  apply preserves_bind; [apply IH; intros y Hy; apply H; by right|intros b; apply preserves_ret].
Qed.

Lemma preserves_each {B} (body : B -> M unit) l : (forall x, x ∈ l -> preserves R (body x)) -> preserves R (each body l).
Proof.
  induction l as [|x l IH]; intros H; simpl; [apply preserves_ret|].
  apply preserves_bind; [apply H; left|intros _]. apply IH. intros y Hy. apply H. by right.
Qed.

Lemma preserves_fold {B} (f : B -> M unit) l :
  (forall x, preserves R (f x)) -> preserves R (modify (fun s => fold_left (fun s w => run (f w) s) l s)).
Proof.
  intros H s. change (R s (fold_left (fun s w => run (f w) s) l s)).
  revert s. induction l as [|x l IH]; intros s; simpl; [done|]. etrans; [apply H|apply IH].
Qed.

Lemma preserves_interfere cf during :
  (forall w, preserves R (watchdog cf w)) -> preserves R (interfere cf during).
Proof. apply preserves_fold. Qed.

Lemma preserves_transitions d cs :
  (forall c, c ∈ cs -> preserves R (presence_transition d c)) -> preserves R (presence_transitions d cs).
Proof.
  induction cs as [|c cs IH]; intros H; simpl; [apply preserves_ret|].
  apply preserves_bind; [apply H; left|intros e].
  apply preserves_bind; [apply IH; intros y Hy; apply H; by right|intros es; apply preserves_ret].
Qed.

Lemma preserves_sw_fail_raised l :
  (forall i id, preserves R (modify (record_slot i id))) -> preserves R (sw_fail_raised l).
Proof.
  intros H. induction l as [|[i sd] l IH]; simpl; [apply preserves_ret|].
  apply preserves_if; [done|]. apply preserves_if; [done|].
  apply preserves_bind; [apply preserves_gets|intros dup]. apply preserves_if; [done|].
  apply preserves_bind; [apply H|intros _]. apply preserves_bind; [done|intros rest; apply preserves_ret].
Qed.

Lemma preserves_process_entries cf l :
  (forall i sd, preserves R (process_entry cf i sd)) -> preserves R (process_entries cf l).
Proof.
  intros H. induction l as [|[i sd] l IH]; simpl; [apply preserves_ret|].
  apply preserves_bind; [apply H|intros a]. apply preserves_bind; [done|intros b; apply preserves_ret].
Qed.
End preserves.

Create HintDb atl.
#[export] Hint Extern 1 (Reflexive _) => apply _ : atl.
#[export] Hint Extern 1 (Transitive _) => apply _ : atl.
#[export] Hint Resolve preserves_ret preserves_gets preserves_send preserves_hold preserves_physical_hold : atl.

(** Decompose a handler into its primitive state updates. *)
Ltac preserve :=
  repeat first
    [ progress eauto with atl
    | apply preserves_bind
    | apply preserves_when
    | apply preserves_if
    | apply preserves_any_of
    | apply preserves_each
    | apply preserves_interfere
    | apply preserves_transitions
    | apply preserves_sw_fail_raised
    | apply preserves_process_entries
    | progress intros
    | match goal with
      | |- preserves _ (match ?x with _ => _ end) => destruct x
      end ].

(** The handlers, down to their primitive updates. *)
Ltac open_handler :=
  unfold on_packet, on_heartbeat, processDecisionRequestLocked, process_normal_mode, process_error_mode,
    process_physical, process_entry, applySwFailEvents, applySourceInputState,
    applySourcePresence, presence_transition, evaluateATLDecision, watchdog, decisionFreshnessWatchdog,
    gatewayHeartbeatWatchdog, markDecisionRequestFresh, markGatewayDecisionSequenceRecovered,
    markGatewayDecisionSequenceFaultLatched, markDecisionFreshnessFaultLatched, clearGatewayHbFaultActive,
    markGatewayHbFaultLatched, markCountDriftFaultLatched, updateAiPipelineTrustFromDecisionRequest,
    updateAiPipelineTrust_entry, markAiPipelineInvalidLatched, clearAiPipelineInvalidActive,
    updateSensorHealthFromDecisionRequest, updateSensorHealth_entry,
    markAllSafetyRelevantSensorsFailedLatched, clearAllSafetyRelevantSensorsFailedActiveIfRecovered.

(** ** Latches only grow *)

Definition latch_grows (s s' : Atl) : Prop :=
  forall k, Z.testbit (at_latch s) k = true -> Z.testbit (at_latch s') k = true.

#[export] Instance latch_grows_refl : Reflexive latch_grows.
Proof. by intros s k. Qed.
#[export] Instance latch_grows_trans : Transitive latch_grows.
Proof. intros s1 s2 s3 H1 H2 k Hk. by apply H2, H1. Qed.

(** An update that leaves the latch alone or sets bits in it. *)
Lemma latch_grows_modify f :
  (forall s, at_latch (f s) = at_latch s \/ exists b, at_latch (f s) = Z.lor (at_latch s) b) ->
  preserves latch_grows (modify f).
Proof.
  intros H s k Hk. change (run (modify f) s) with (f s).
  destruct (H s) as [-> | [b ->]]; [done|]. by rewrite Z.lor_spec, Hk.
Qed.

Ltac latch_modify := apply latch_grows_modify; intros ?s; cbn -[Z.lor]; (left; reflexivity) || (right; eexists; reflexivity).

Lemma mark_latch c : preserves latch_grows (markPssSubCause c).
Proof. latch_modify. Qed.

Lemma clear_latch c : preserves latch_grows (clearPssSubCause c).
Proof. apply latch_grows_modify. intros s. left. cbv beta zeta. by repeat case_match. Qed.

#[export] Hint Resolve mark_latch clear_latch : atl.
#[export] Hint Extern 4 (preserves latch_grows (modify _)) => latch_modify : atl.

Lemma watchdog_latch cf w : preserves latch_grows (watchdog cf w).
Proof. open_handler. preserve. Qed.

#[export] Hint Resolve watchdog_latch : atl.

Lemma evaluate_latch cf during : preserves latch_grows (evaluateATLDecision cf during).
Proof. unfold evaluateATLDecision. preserve. Qed.

#[export] Hint Resolve evaluate_latch : atl.

Lemma physical_latch cf sd : preserves latch_grows (physical_event cf sd).
Proof. unfold physical_event. open_handler. preserve. Qed.

#[export] Hint Resolve physical_latch : atl.

Lemma packet_latch cf during now p : preserves latch_grows (on_packet cf during now p).
Proof. open_handler. preserve. Qed.

(** ** Every active fault is latched *)

Record faults_latched (s : Atl) : Prop := {
  fl_pss : pssAnySubCauseActive s = true -> at_pssSuppress s = true /\ Z.testbit (at_latch s) 1 = true;
  fl_hb : at_hbFault s = true -> Z.testbit (at_latch s) 0 = true;
  fl_fresh : at_freshFault s = true -> Z.testbit (at_latch s) 3 = true;
  fl_seq : at_seqFault s = true -> Z.testbit (at_latch s) 4 = true;
  fl_sensors : at_allFailed s = true -> Z.testbit (at_latch s) 5 = true;
  fl_ai : at_aiInvalid s = true -> Z.testbit (at_latch s) 6 = true;
  fl_persons : 0 <= at_persons s <= PERSONS_IN_TRAILER_MAX;
}.

Definition keeps_faults (s s' : Atl) : Prop := faults_latched s -> faults_latched s'.

#[export] Instance keeps_faults_refl : Reflexive keeps_faults.
Proof. intros s F. exact F. Qed.
#[export] Instance keeps_faults_trans : Transitive keeps_faults.
Proof. intros s1 s2 s3 H1 H2 H. by apply H2, H1. Qed.

(** An update of other fields, or one that sets a flag together with its bit. *)
Ltac faults_bit :=
  first [ assumption | reflexivity | discriminate
        | rewrite Z.lor_spec; apply orb_true_iff; first [right; reflexivity | left; assumption | left; auto] ].

Ltac faults_field :=
  intros; first
    [ assumption | reflexivity | discriminate | solve [auto]
    | faults_bit
    | match goal with
      | H : pssAnySubCauseActive ?s = true -> _, H' : _ = true |- _ /\ _ =>
        destruct (H H'); split; faults_bit
      end
    | split; faults_bit ].

Ltac faults_modify :=
  intros ?s [? ? ? ? ? ? ?]; constructor; cbn -[Z.lor Z.testbit pssAnySubCauseActive]; faults_field.

Lemma mark_faults c : preserves keeps_faults (markPssSubCause c).
Proof. unfold markPssSubCause. faults_modify. Qed.

Lemma clear_any s c :
  pssAnySubCauseActive (set_subActive (Z.clearbit (at_subActive s) c) s) = true -> pssAnySubCauseActive s = true.
Proof.
  unfold pssAnySubCauseActive. rewrite !existsb_elem_of. intros (k & Hk & Ht). exists k. split; [done|].
  cbn in Ht. rewrite Z.clearbit_eqb in Ht. by bool_prop.
Qed.

Lemma clear_faults c : preserves keeps_faults (clearPssSubCause c).
Proof.
  intros s F. unfold run, clearPssSubCause, modify. cbn [snd fst]. destruct (negb (Z.testbit (at_subActive s) c)); [done|].
  cbv zeta. set (s' := set_subActive _ s). destruct (pssAnySubCauseActive s') eqn:Ea; simpl;
    destruct F as [Fp ? ? ? ? ? ?]; constructor; try done.
  - intros _. apply (Fp (clear_any s c Ea)).
  - intros Ht. change (pssAnySubCauseActive s' = true) in Ht. congruence.
Qed.

#[export] Hint Resolve mark_faults clear_faults : atl.
#[export] Hint Extern 4 (preserves keeps_faults (modify _)) => faults_modify : atl.

Lemma persons_faults cf sd : preserves keeps_faults (physical_event cf sd).
Proof.
  unfold physical_event. repeat apply preserves_if; try (solve [open_handler; preserve]);
    open_handler; (intros s F; rewrite run_bind; cbn [gets fst]; change (run (gets at_persons) s) with s; destruct F as [? ? ? ? ? ? Hp]).
  - destruct (Z.ltb_spec (at_persons s) PERSONS_IN_TRAILER_MAX).
    + constructor; cbn -[pssAnySubCauseActive Z.testbit]; auto; lia.
    + constructor; cbn -[Z.lor Z.testbit pssAnySubCauseActive]; faults_field.
  - destruct (Z.ltb_spec 0 (at_persons s)).
    + constructor; cbn -[pssAnySubCauseActive Z.testbit]; auto; lia.
    + constructor; cbn -[Z.lor Z.testbit pssAnySubCauseActive]; faults_field.
Qed.

#[export] Hint Resolve persons_faults : atl.

Lemma watchdog_faults cf w : preserves keeps_faults (watchdog cf w).
Proof. open_handler. preserve. Qed.

#[export] Hint Resolve watchdog_faults : atl.

Lemma interfere_faults cf during : preserves keeps_faults (interfere cf during).
Proof. preserve. Qed.

Lemma evaluate_faults cf during : preserves keeps_faults (evaluateATLDecision cf during).
Proof. unfold evaluateATLDecision. preserve. Qed.

#[export] Hint Resolve evaluate_faults : atl.

Lemma packet_faults cf during now p : preserves keeps_faults (on_packet cf during now p).
Proof. open_handler. preserve. Qed.

(** ** Release *)

(** The state a committed release leaves. *)
Definition released (now : Z) (s : Atl) : Atl :=
  set_lastRelease (Some now) (resetAtlStateFromPlcSafeRelease (set_latch 0 s)).

(** The release is committed: no fault is active, before and after the
    response, nothing new latched meanwhile, and both sends went out. *)
Definition release_commits (cf : AtlConfig) (during : list WatchdogTick) (ackSent unmuteSent : bool) (s : Atl) : bool :=
  let s1 := run (interfere cf during) s in
  (activeSafeLatchCauses cf s =? 0) && negb (at_latch s =? 0) && ackSent && unmuteSent &&
  (at_latch s1 =? at_latch s) && (activeSafeLatchCauses cf s1 =? 0).

Lemma release_run cf during ackSent unmuteSent now s :
  run (handleSafeReleaseRequest cf during ackSent unmuteSent now) s =
  if release_commits cf during ackSent unmuteSent s then released now (run (interfere cf during) s)
  else if negb (activeSafeLatchCauses cf s =? 0) then s
  else if negb (at_latch s =? 0) then run (interfere cf during) s
  else if ackSent && unmuteSent then set_lastRelease (Some now) (resetAtlStateFromPlcSafeRelease s)
  else s.
Proof.
  unfold handleSafeReleaseRequest, release_commits. cbv zeta. rewrite run_bind.
  change ((gets (activeSafeLatchCauses cf) s).1) with (activeSafeLatchCauses cf s).
  change (run (gets (activeSafeLatchCauses cf)) s) with s.
  destruct (activeSafeLatchCauses cf s =? 0); simpl negb; cbn [andb]; [|done].
  rewrite run_bind. change ((gets at_latch s).1) with (at_latch s). change (run (gets at_latch) s) with s.
  destruct (at_latch s =? 0); simpl negb; cbn [andb].
  - rewrite run_bind. rewrite run_bind. by destruct ackSent, unmuteSent.
  - rewrite !run_bind. change (run (sendDecisionCommand CMD_UNMUTE) (run (sendDecisionCommand CMD_SAFE_RELEASE_ACK) s)) with s.
    set (s1 := run (interfere cf during) s).
    destruct ackSent, unmuteSent; cbn [andb]; [|done..].
    rewrite !run_bind. cbn [gets fst]. change (run (gets at_latch) s1) with s1.
    change (run (gets (activeSafeLatchCauses cf)) s1) with s1.
    by destruct ((at_latch s1 =? at_latch s) && (activeSafeLatchCauses cf s1 =? 0)).
Qed.

(** No active cause: every fault flag is down. *)
Lemma active_zero cf s : activeSafeLatchCauses cf s = 0 <->
  at_hbFault s = false /\ gatewayHbTier2SafeHoldBand cf s = false /\ pssAnySubCauseActive s = false /\
  at_freshFault s = false /\ at_seqFault s = false /\ at_allFailed s = false /\ at_aiInvalid s = false.
Proof.
  unfold activeSafeLatchCauses.
  destruct (at_hbFault s), (gatewayHbTier2SafeHoldBand cf s), (pssAnySubCauseActive s), (at_freshFault s),
    (at_seqFault s), (at_allFailed s), (at_aiInvalid s); simpl; split; intros; try done; destruct_and!; done.
Qed.

Lemma release_faults cf during ackSent unmuteSent now :
  preserves keeps_faults (handleSafeReleaseRequest cf during ackSent unmuteSent now).
Proof.
  intros s F. rewrite release_run.
  pose proof (interfere_faults cf during s F) as F1.
  destruct (release_commits cf during ackSent unmuteSent s) eqn:Ec.
  - unfold release_commits in Ec. bool_prop.
    match goal with H : activeSafeLatchCauses cf (run _ s) = 0 |- _ => apply active_zero in H as (? & _ & ? & ? & ? & ? & ?) end.
    constructor; cbn -[pssAnySubCauseActive run PERSONS_IN_TRAILER_MAX]; try congruence; [|unfold PERSONS_IN_TRAILER_MAX; lia].
    intros Hp. change (pssAnySubCauseActive (run (interfere cf during) s) = true) in Hp. congruence.
  - repeat case_match; try done. destruct F as [? ? ? ? ? ? ?]. constructor; cbn -[pssAnySubCauseActive Z.testbit]; auto.
    unfold PERSONS_IN_TRAILER_MAX. lia.
Qed.

Lemma handle_faults cf i : preserves keeps_faults (handle cf i).
Proof.
  destruct i; simpl; [apply packet_faults| |apply watchdog_faults|apply evaluate_faults|apply release_faults].
  unfold on_heartbeat. faults_modify.
Qed.

Lemma initial_faults now : faults_latched (initial_atl now).
Proof. constructor; try discriminate. cbn. unfold PERSONS_IN_TRAILER_MAX. lia. Qed.

Lemma reachable_faults cf s : reachable cf s -> faults_latched s.
Proof. induction 1 as [now|s i _ IH]; [apply initial_faults|by apply handle_faults]. Qed.

(** ** MUTE *)

Definition no_mute {A} (m : M A) : Prop := forall s o, (CMD_MUTE, o) ∉ sent m s.

Lemma no_mute_ret {A} (a : A) : no_mute (ret a).
Proof. intros s o []%elem_of_nil. Qed.

Lemma no_mute_gets {A} (f : Atl -> A) : no_mute (gets f).
Proof. intros s o []%elem_of_nil. Qed.

Lemma no_mute_modify f : no_mute (modify f).
Proof. intros s o []%elem_of_nil. Qed.

Lemma no_mute_bind {A B} (m : M A) (k : A -> M B) : no_mute m -> (forall a, no_mute (k a)) -> no_mute (bind m k).
Proof. intros Hm Hk s o. rewrite sent_bind, elem_of_app. intros [Hin|Hin]; [by eapply Hm|by eapply Hk]. Qed.

Lemma no_mute_when b m : no_mute m -> no_mute (when b m).
Proof. intros Hm. destruct b; [done|apply no_mute_ret]. Qed.

Lemma no_mute_if {A} (b : bool) (m m' : M A) : no_mute m -> no_mute m' -> no_mute (if b then m else m').
Proof. by destruct b. Qed.

Lemma no_mute_physical_hold o : no_mute (sendPhysicalEventSafeHold o).
Proof.
  intros s o' Hin. unfold sent in Hin. cbn in Hin. rewrite !elem_of_cons in Hin.
  destruct Hin as [Heq|[Heq|[]%elem_of_nil]]; discriminate Heq.
Qed.

Lemma no_mute_hold : no_mute sendLatchedSafeHold.
Proof. exact (no_mute_physical_hold None). Qed.

Lemma no_mute_send c o : c <> CMD_MUTE -> no_mute (sendDecisionCommandWithObject1 c o).
Proof. intros Hc s o' Hin. apply list_elem_of_singleton in Hin. congruence. Qed.

Lemma no_mute_any_of {B} (body : B -> M bool) l : (forall x, no_mute (body x)) -> no_mute (any_of body l).
Proof.
  intros H. induction l as [|x l IH]; simpl; [apply no_mute_ret|].
  apply no_mute_bind; [done|intros a]. apply no_mute_bind; [done|intros b; apply no_mute_ret].
Qed.

Lemma no_mute_each {B} (body : B -> M unit) l : (forall x, no_mute (body x)) -> no_mute (each body l).
Proof. intros H. induction l as [|x l IH]; simpl; [apply no_mute_ret|]. by apply no_mute_bind. Qed.

Lemma no_mute_mark c : no_mute (markPssSubCause c).
Proof. apply no_mute_modify. Qed.

Lemma no_mute_clear c : no_mute (clearPssSubCause c).
Proof. apply no_mute_modify. Qed.

Lemma no_mute_interfere cf during : no_mute (interfere cf during).
Proof. apply no_mute_modify. Qed.

#[export] Hint Resolve no_mute_ret no_mute_gets no_mute_modify no_mute_physical_hold no_mute_hold
  no_mute_mark no_mute_clear no_mute_interfere : atl.

Lemma no_mute_transitions d cs :
  (forall c, no_mute (presence_transition d c)) -> no_mute (presence_transitions d cs).
Proof.
  intros H. induction cs as [|c cs IH]; simpl; [apply no_mute_ret|].
  apply no_mute_bind; [done|intros]. apply no_mute_bind; [done|intros; apply no_mute_ret].
Qed.

Lemma no_mute_sw_fail_raised l : no_mute (sw_fail_raised l).
Proof.
  induction l as [|[i sd] l IH]; simpl; [apply no_mute_ret|].
  do 2 (apply no_mute_if; [done|]). apply no_mute_bind; [apply no_mute_gets|intros dup].
  apply no_mute_if; [done|]. apply no_mute_bind; [apply no_mute_modify|intros _].
  apply no_mute_bind; [done|intros; apply no_mute_ret].
Qed.

Lemma no_mute_process_entries cf l :
  (forall i sd, no_mute (process_entry cf i sd)) -> no_mute (process_entries cf l).
Proof.
  intros H. induction l as [|[i sd] l IH]; simpl; [apply no_mute_ret|].
  apply no_mute_bind; [done|intros]. apply no_mute_bind; [done|intros; apply no_mute_ret].
Qed.

Ltac quiet :=
  repeat first
    [ progress eauto with atl
    | apply no_mute_send; discriminate
    | apply no_mute_bind
    | apply no_mute_when
    | apply no_mute_if
    | apply no_mute_any_of
    | apply no_mute_each
    | apply no_mute_transitions
    | apply no_mute_sw_fail_raised
    | apply no_mute_process_entries
    | progress intros
    | match goal with
      | |- no_mute (match ?x with _ => _ end) => destruct x
      end ].

Lemma watchdog_quiet cf w : no_mute (watchdog cf w).
Proof. open_handler. quiet. Qed.

Lemma release_quiet cf during ackSent unmuteSent now :
  no_mute (handleSafeReleaseRequest cf during ackSent unmuteSent now).
Proof. unfold handleSafeReleaseRequest. quiet. Qed.

(** What must hold when MUTE is sent, with the Object 1 record it carries. *)
Record clear_to_mute (cf : AtlConfig) (s : Atl) (o : option ObjectRecord) : Prop := {
  cm_latch : at_latch s = 0;
  cm_active : activeSafeLatchCauses cf s = 0;
  cm_miss : at_lastMiss s <= cf_warnThreshold cf;
  cm_forklift : at_forklift s = true;
  cm_persons : at_persons s = 0;
  cm_restricted : at_restricted s = false;
  cm_record : o = at_lastForklift s;
}.

Definition mute_safe {A} (cf : AtlConfig) (m : M A) : Prop :=
  forall s, faults_latched s -> forall o, (CMD_MUTE, o) ∈ sent m s -> clear_to_mute cf (run m s) o.

Lemma mute_safe_quiet {A} cf (m : M A) : no_mute m -> mute_safe cf m.
Proof. intros H s _ o Hin. by destruct (H s o). Qed.

Lemma mute_safe_bind {A B} cf (m : M A) (k : A -> M B) :
  no_mute m -> preserves keeps_faults m -> (forall a, mute_safe cf (k a)) -> mute_safe cf (bind m k).
Proof.
  intros Hq Hp Hk s F o. rewrite sent_bind, run_bind, elem_of_app.
  intros [Hin|Hin]; [by destruct (Hq s o)|]. apply Hk; [by apply Hp|done].
Qed.

Lemma mute_safe_if {A} cf (b : bool) (m m' : M A) :
  mute_safe cf m -> mute_safe cf m' -> mute_safe cf (if b then m else m').
Proof. by destruct b. Qed.

(** The watchdogs leave the physical state alone. *)
Definition same_physical (s s' : Atl) : Prop :=
  at_forklift s = at_forklift s' /\ at_persons s = at_persons s' /\ at_restricted s = at_restricted s' /\
  at_lastForklift s = at_lastForklift s'.

#[export] Instance same_physical_refl : Reflexive same_physical.
Proof. by intros s. Qed.
#[export] Instance same_physical_trans : Transitive same_physical.
Proof. intros s1 s2 s3 (? & ? & ? & ?) (? & ? & ? & ?). split_and!; congruence. Qed.
#[export] Hint Extern 4 (preserves same_physical (modify _)) => (intros ?s; by split_and!) : atl.

Lemma watchdog_physical cf w : preserves same_physical (watchdog cf w).
Proof. open_handler. preserve. Qed.

Lemma interfere_physical cf during : preserves same_physical (interfere cf during).
Proof. apply preserves_interfere; [apply _..|]. apply watchdog_physical. Qed.

Lemma no_hold_clear cf s :
  faults_latched s -> fault_hold cf s = false -> gatewayHbSuppressFusionDecisions cf s = false ->
  at_latch s = 0 /\ activeSafeLatchCauses cf s = 0 /\ at_lastMiss s <= cf_warnThreshold cf.
Proof.
  unfold fault_hold, gatewayHbSuppressFusionDecisions. intros F Hh Hs. bool_prop.
  destruct (safeStateLatched s) eqn:El; [done|]. unfold safeStateLatched in El. bool_prop.
  destruct (at_hbFault s) eqn:Eh; [done|]. bool_prop. split_and!; [done| |done].
  assert (forall k, Z.testbit (at_latch s) k = false) as Hz by (intros k; rewrite El; apply Z.testbit_0_l).
  apply active_zero. destruct F as [Fp ? Ff Fs Fa Fi _]. split_and!; try done; apply not_true_is_false; intros Ht.
  - destruct (Fp Ht). by rewrite Hz in *.
  - apply Ff in Ht. by rewrite Hz in Ht.
  - apply Fs in Ht. by rewrite Hz in Ht.
  - apply Fa in Ht. by rewrite Hz in Ht.
  - apply Fi in Ht. by rewrite Hz in Ht.
Qed.

Lemma evaluate_mute_safe cf during : mute_safe cf (evaluateATLDecision cf during).
Proof.
  intros s F o. unfold evaluateATLDecision. rewrite sent_gets, run_gets.
  destruct (fault_hold cf s) eqn:Eh; [intros Hin; by destruct (no_mute_hold s o)|].
  rewrite sent_gets, run_gets.
  destruct (gatewayHbSuppressFusionDecisions cf s) eqn:Es; [intros []%elem_of_nil|].
  rewrite !sent_gets, !run_gets, sent_bind, run_bind. change (sent (interfere cf during) s) with (@nil Tx).
  pose proof (interfere_faults cf during s F) as F1.
  pose proof (interfere_physical cf during s) as (Hf & Hp & Hr & Ho).
  set (s1 := run (interfere cf during) s) in *. cbn [app]. rewrite sent_gets, run_gets.
  destruct (fault_hold cf s1) eqn:Eh1; [intros Hin; by destruct (no_mute_hold s1 o)|].
  rewrite sent_gets, run_gets.
  destruct (gatewayHbSuppressFusionDecisions cf s1) eqn:Es1; [intros []%elem_of_nil|].
  destruct (at_forklift s && (at_persons s =? 0) && negb (at_restricted s)) eqn:Em;
    intros Hin%list_elem_of_singleton; [|discriminate]. simplify_eq. bool_prop.
  change (run (sendDecisionCommandWithObject1 CMD_MUTE (at_lastForklift s)) s1) with s1.
  destruct (no_hold_clear cf s1 F1 Eh1 Es1) as (? & ? & ?). constructor; congruence.
Qed.

(** The request handler sends MUTE only through the decision. *)
Lemma process_mute_safe cf during r : mute_safe cf (processDecisionRequestLocked cf during r).
Proof.
  unfold processDecisionRequestLocked.
  repeat (apply mute_safe_bind; [open_handler; quiet|open_handler; preserve|intros]).
  apply mute_safe_if; [apply mute_safe_quiet; open_handler; quiet|].
  unfold process_normal_mode. apply mute_safe_bind; [quiet|preserve|intros].
  apply mute_safe_if; [apply mute_safe_quiet; quiet|].
  repeat (apply mute_safe_bind; [open_handler; quiet|open_handler; preserve|intros]).
  apply mute_safe_if; [apply mute_safe_quiet; quiet|].
  apply mute_safe_if; [apply mute_safe_quiet; quiet|].
  unfold process_physical. apply mute_safe_bind; [|open_handler; preserve|intros].
  - unfold process_entry, physical_event. open_handler. quiet.
  - apply mute_safe_if; [apply mute_safe_quiet; quiet|].
    apply mute_safe_bind; [quiet|preserve|intros]. apply mute_safe_if; [apply mute_safe_quiet; quiet|].
    unfold when. apply mute_safe_if; [apply evaluate_mute_safe|apply mute_safe_quiet; quiet].
Qed.

Lemma packet_mute_safe cf during now p : mute_safe cf (on_packet cf during now p).
Proof.
  unfold on_packet. do 2 (apply mute_safe_if; [apply mute_safe_quiet; quiet|]).
  apply mute_safe_bind; [quiet|preserve|intros st]. destruct (sdmGatewayDecisionSequenceObserve st _ _) as [st' res].
  apply mute_safe_bind; [quiet|preserve|intros _].
  destruct res; try (apply mute_safe_quiet; by quiet);
    repeat first [apply process_mute_safe
                 | apply mute_safe_bind; [open_handler; quiet|open_handler; preserve|intros]].
Qed.

Lemma handle_mute_safe cf i : mute_safe cf (handle cf i).
Proof.
  destruct i; simpl; [apply packet_mute_safe| | |apply evaluate_mute_safe|]; apply mute_safe_quiet.
  - apply no_mute_modify.
  - apply watchdog_quiet.
  - apply release_quiet.
Qed.

(** ** A lost source is held *)

(** The request carries a presence report, outside ERROR mode, that names [i]. *)
Definition report_names (r : DecisionRequest) (i : Z) : Prop :=
  exists mask expected, SdmDecisionRequestFindPresenceReport (Some r) = Some (mask, expected) /\
    st_mode (dr_pssStatus r) <> ERROR /\ names mask i.

Section held.
Context (g i : Z) (Hg : is_group g) (Hi : group_member g i).

(** The decision maker knows of source [i] and holds its group's sub-cause. *)
Definition source_held (s : Atl) : Prop :=
  0 <= at_presenceSeen s /\ names (at_presenceSeen s) i /\ Z.testbit (at_subActive s) (sub_bit g) = true.

Definition keeps_source (s s' : Atl) : Prop := source_held s -> source_held s'.

#[local] Instance keeps_source_refl : Reflexive keeps_source.
Proof. intros s H. exact H. Qed.
#[local] Instance keeps_source_trans : Transitive keeps_source.
Proof. intros s1 s2 s3 H1 H2 H. by apply H2, H1. Qed.

Lemma mark_source c : preserves keeps_source (markPssSubCause c).
Proof.
  intros s (? & ? & Ha). split_and!; [done..|].
  change (Z.testbit (Z.setbit (at_subActive s) c) (sub_bit g) = true).
  unfold Z.setbit. by rewrite Z.lor_spec, Ha.
Qed.

Lemma clear_source c : c <> sub_bit g -> preserves keeps_source (clearPssSubCause c).
Proof.
  intros Hc s (? & ? & Ha). unfold run, clearPssSubCause, modify. cbn [fst snd].
  destruct (negb (Z.testbit (at_subActive s) c)); [done|]. cbv zeta.
  assert (Z.testbit (Z.clearbit (at_subActive s) c) (sub_bit g) = true).
  { rewrite Z.clearbit_eqb, Ha. destruct (Z.eqb_spec c (sub_bit g)); [done|reflexivity]. }
  case_match; by split_and!.
Qed.

#[local] Hint Extern 2 (preserves keeps_source (clearPssSubCause _)) =>
  (apply clear_source; destruct Hg as [-> | [-> | ->]]; discriminate) : atl.
#[local] Hint Extern 4 (preserves keeps_source (modify _)) =>
  (intros ?s (? & ? & ?); by split_and!) : atl.
#[local] Hint Resolve mark_source : atl.

Lemma transition_source d c :
  c <> sub_bit g \/ Z.testbit (d_cleared d) (sub_bit g) = false ->
  preserves keeps_source (presence_transition d c).
Proof.
  intros Hc. unfold presence_transition.
  apply preserves_bind; [apply _| |preserve]. unfold when.
  destruct (Z.testbit (d_cleared d) c) eqn:Ed; [|preserve].
  apply clear_source. intros ->. destruct Hc as [?|?]; [done|congruence].
Qed.

Lemma presence_source r :
  wf_request r -> ~ report_names r i -> preserves keeps_source (applySourcePresence r).
Proof.
  intros W Hn s Hs. pose proof Hs as (Hnn & Hseen & Ha). unfold applySourcePresence. rewrite run_gets.
  pose proof (presence_cleared_spec (at_presenceSeen s) r g W Hnn Hg) as Hc.
  pose proof (presence_seen_mono (at_presenceSeen s) r i Hseen) as Hm.
  pose proof (presence_seen_nonneg (at_presenceSeen s) r W Hnn) as Hnn'.
  destruct (SdmSourcePresenceEvaluate (at_presenceSeen s) (Some r)) as [seen' d]. simpl in Hc, Hm, Hnn'.
  rewrite run_bind. revert Hs.
  assert (Z.testbit (d_cleared d) (sub_bit g) = false) as Hcl.
  { apply not_true_is_false. intros Ht. apply Hc in Ht as (mask & expected & Hf & Hmode & _ & Hall & _).
    apply Hn. exists mask, expected. split_and!; [done..|]. apply Hall; [done|]. by left. }
  intros _.
  assert (source_held (run (modify (set_presenceSeen seen')) s)) as Hs' by (by split_and!).
  revert Hs'. generalize (run (modify (set_presenceSeen seen')) s). clear s Hnn Hseen Ha Hc.
  change (preserves keeps_source (entered ← presence_transitions d kTracked;
    match entered with [] => ret tt | _ => each markPssSubCause entered ;; sendLatchedSafeHold end)).
  apply preserves_bind; [apply _| |preserve]. apply preserves_transitions; [apply _..|].
  intros c _. apply transition_source. by right.
Qed.

(** Everything the request does after the presence report. *)
Lemma input_source r : preserves keeps_source (applySourceInputState r).
Proof. unfold applySourceInputState. preserve. Qed.

Lemma watchdog_source cf w : preserves keeps_source (watchdog cf w).
Proof. open_handler. preserve. Qed.

#[local] Hint Resolve input_source watchdog_source : atl.

Lemma physical_source cf sd : preserves keeps_source (physical_event cf sd).
Proof. unfold physical_event. open_handler. preserve. Qed.

Lemma evaluate_source cf during : preserves keeps_source (evaluateATLDecision cf during).
Proof. unfold evaluateATLDecision. preserve. Qed.

#[local] Hint Resolve physical_source evaluate_source : atl.

Lemma process_source cf during r :
  wf_request r -> ~ report_names r i -> preserves keeps_source (processDecisionRequestLocked cf during r).
Proof.
  intros W Hn. pose proof (presence_source r W Hn).
  unfold processDecisionRequestLocked, process_error_mode, process_normal_mode, process_physical, process_entry,
    applySwFailEvents, updateAiPipelineTrustFromDecisionRequest, updateAiPipelineTrust_entry,
    markAiPipelineInvalidLatched, clearAiPipelineInvalidActive, updateSensorHealthFromDecisionRequest,
    updateSensorHealth_entry, markAllSafetyRelevantSensorsFailedLatched,
    clearAllSafetyRelevantSensorsFailedActiveIfRecovered. preserve.
Qed.

Lemma packet_source cf during now p :
  wf_request (pk_request p) -> ~ report_names (pk_request p) i -> preserves keeps_source (on_packet cf during now p).
Proof.
  intros W Hn. pose proof (process_source cf during (pk_request p) W Hn).
  unfold on_packet, markDecisionRequestFresh, markGatewayDecisionSequenceFaultLatched,
    markGatewayDecisionSequenceRecovered. preserve.
Qed.

Lemma release_source cf during ackSent unmuteSent now :
  preserves keeps_source (handleSafeReleaseRequest cf during ackSent unmuteSent now).
Proof. unfold handleSafeReleaseRequest. preserve. Qed.
End held.

(** Requests arrive in the C types. *)
Definition wf_input (inp : Input) : Prop :=
  match inp with InPacket _ _ p => wf_request (pk_request p) | _ => True end.

Definition input_names (i : Z) (inp : Input) : Prop :=
  match inp with InPacket _ _ p => report_names (pk_request p) i | _ => False end.

Definition run_all (cf : AtlConfig) (inputs : list Input) (s : Atl) : Atl :=
  fold_left (fun s inp => run (handle cf inp) s) inputs s.

Lemma handle_source g i cf inp :
  is_group g -> group_member g i -> wf_input inp -> ~ input_names i inp ->
  preserves (keeps_source g i) (handle cf inp).
Proof.
  intros Hg Hi W Hn. destruct inp; simpl in *.
  - by apply packet_source.
  - intros s (? & ? & ?). by split_and!.
  - by apply watchdog_source.
  - by apply evaluate_source.
  - by apply release_source.
Qed.

Lemma run_all_source g i cf inputs s :
  is_group g -> group_member g i -> Forall (fun inp => wf_input inp /\ ~ input_names i inp) inputs ->
  source_held g i s -> source_held g i (run_all cf inputs s).
Proof.
  intros Hg Hi Hall. revert s. induction Hall as [|inp l [W Hn] _ IH]; intros s Hs; [done|].
  apply IH. by apply (handle_source g i cf inp Hg Hi W Hn s).
Qed.

Lemma source_held_active g i cf s : is_group g -> source_held g i s -> activeSafeLatchCauses cf s <> 0.
Proof.
  intros Hg (_ & _ & Ha) Hz. apply active_zero in Hz as (_ & _ & Hp & _).
  apply not_true_iff_false in Hp. apply Hp. apply existsb_elem_of. exists (sub_bit g). split; [|done].
  destruct Hg as [-> | [-> | ->]]; unfold all_sub_causes, sub_bit; set_solver.
Qed.

(** A release with an active cause changes nothing and answers DENIED. *)
Lemma release_denied cf during ackSent unmuteSent now s :
  activeSafeLatchCauses cf s <> 0 ->
  handleSafeReleaseRequest cf during ackSent unmuteSent now s =
  (tt, (s, [(CMD_SAFE_RELEASE_DENIED, None); (CMD_UNMUTE, None); (CMD_SW_ERROR, None)])).
Proof.
  intros Ha. unfold handleSafeReleaseRequest, bind at 1. cbn [gets].
  destruct (Z.eqb_spec (activeSafeLatchCauses cf s) 0); done.
Qed.

(** ** Rejected input is held *)

Definition input_ok (s : Atl) : Prop :=
  is_u32 (at_unusableSeen s) /\
  (at_unusableSeen s <> 0 -> Z.testbit (at_subActive s) kPssSubInputUnusable = true).

Definition keeps_input (s s' : Atl) : Prop := input_ok s -> input_ok s'.

#[export] Instance keeps_input_refl : Reflexive keeps_input.
Proof. intros s H. exact H. Qed.
#[export] Instance keeps_input_trans : Transitive keeps_input.
Proof. intros s1 s2 s3 H1 H2 H. by apply H2, H1. Qed.

Lemma mark_input c : preserves keeps_input (markPssSubCause c).
Proof.
  intros s [Hu Ha]. split; [done|]. intros Hne. specialize (Ha Hne).
  change (Z.testbit (Z.setbit (at_subActive s) c) kPssSubInputUnusable = true).
  unfold Z.setbit. by rewrite Z.lor_spec, Ha.
Qed.

Lemma clear_subActive c s :
  at_subActive (run (clearPssSubCause c) s) = Z.clearbit (at_subActive s) c /\
  at_unusableSeen (run (clearPssSubCause c) s) = at_unusableSeen s.
Proof.
  unfold run, clearPssSubCause, modify. cbn [fst snd].
  destruct (Z.testbit (at_subActive s) c) eqn:E; simpl.
  - cbv zeta. by destruct (negb _).
  - split; [|done]. symmetry. apply Z.bits_inj'. intros k _. rewrite Z.clearbit_eqb.
    destruct (Z.eqb_spec c k) as [<-|]; [by rewrite E|apply andb_true_r].
Qed.

Lemma clear_input c : c <> kPssSubInputUnusable -> preserves keeps_input (clearPssSubCause c).
Proof.
  intros Hc s [Hu Ha]. destruct (clear_subActive c s) as [E1 E2]. unfold input_ok. rewrite E1, E2.
  split; [done|]. intros Hne. rewrite Z.clearbit_eqb, (Ha Hne).
  by destruct (Z.eqb_spec c kPssSubInputUnusable).
Qed.

#[export] Hint Resolve mark_input : atl.
#[export] Hint Extern 2 (preserves keeps_input (clearPssSubCause _)) => (apply clear_input; discriminate) : atl.
#[export] Hint Extern 4 (preserves keeps_input (modify _)) => (intros ?s [? ?]; by split) : atl.

Lemma input_input r : wf_request r -> preserves keeps_input (applySourceInputState r).
Proof.
  intros W s [Hu Ha]. unfold applySourceInputState. rewrite run_gets.
  pose proof (input_seen_range (at_unusableSeen s) r W Hu) as Hr.
  pose proof (input_delta_spec (at_unusableSeen s) r) as [Hd1 Hd2].
  destruct (SdmSourceInputStateEvaluate (at_unusableSeen s) (Some r)) as [seen' d]. simpl in Hr, Hd1, Hd2.
  rewrite Hd1, Hd2. rewrite run_bind. set (s1 := run (modify (set_unusableSeen seen')) s).
  assert (at_unusableSeen s1 = seen') as Es by done.
  destruct (Z.eqb_spec seen' 0) as [Hz|Hz]; cbn [andb].
  - assert (forall s', at_unusableSeen s' = seen' -> input_ok s') as Hok.
    { intros s' E. split; rewrite E; [done|congruence]. }
    rewrite run_bind, run_gets. rewrite Z.testbit_0_l. cbn [andb when]. apply Hok.
    match goal with |- at_unusableSeen (run _ (run (when ?c _) s1)) = _ => destruct c end;
      [apply (clear_subActive kPssSubInputUnusable s1)|done].
  - rewrite run_bind, run_gets, Z.testbit_0_l. cbn [when].
    change (run (ret ()) s1) with s1. change (Z.testbit SDM_PSS_SUB_INPUT_UNUSABLE kPssSubInputUnusable) with true.
    cbn [andb]. destruct (Z.testbit (at_subActive s1) kPssSubInputUnusable) eqn:Eb; simpl when.
    + by split; [|].
    + rewrite run_bind. split; [done|]. intros _.
      change (Z.testbit (Z.setbit (at_subActive s1) kPssSubInputUnusable) kPssSubInputUnusable = true).
      by apply Z.setbit_eq.
Qed.

Lemma watchdog_input cf w : preserves keeps_input (watchdog cf w).
Proof. open_handler. preserve. Qed.

Lemma presence_input r : preserves keeps_input (applySourcePresence r).
Proof.
  unfold applySourcePresence. preserve.
Qed.

#[export] Hint Resolve watchdog_input presence_input : atl.

Lemma physical_input cf sd : preserves keeps_input (physical_event cf sd).
Proof. unfold physical_event. open_handler. preserve. Qed.

Lemma evaluate_input cf during : preserves keeps_input (evaluateATLDecision cf during).
Proof. unfold evaluateATLDecision. preserve. Qed.

#[export] Hint Resolve physical_input evaluate_input : atl.

Lemma handle_input cf inp : wf_input inp -> preserves keeps_input (handle cf inp).
Proof.
  destruct inp as [during now p|now|w|during|during a u now]; simpl; intros W.
  - pose proof (input_input (pk_request p) W).
    unfold on_packet, markDecisionRequestFresh, markGatewayDecisionSequenceFaultLatched,
      markGatewayDecisionSequenceRecovered, processDecisionRequestLocked, process_error_mode, process_normal_mode,
      process_physical, process_entry, applySwFailEvents, updateAiPipelineTrustFromDecisionRequest,
      updateAiPipelineTrust_entry, markAiPipelineInvalidLatched, clearAiPipelineInvalidActive,
      updateSensorHealthFromDecisionRequest, updateSensorHealth_entry, markAllSafetyRelevantSensorsFailedLatched,
      clearAllSafetyRelevantSensorsFailedActiveIfRecovered. preserve.
  - intros s [? ?]. by split.
  - apply watchdog_input.
  - apply evaluate_input.
  - unfold handleSafeReleaseRequest. preserve.
Qed.

Lemma run_all_input cf inputs s :
  Forall wf_input inputs -> input_ok s -> input_ok (run_all cf inputs s).
Proof.
  intros Hall. revert s. induction Hall as [|inp l W _ IH]; intros s Hs; [done|].
  apply IH. by apply (handle_input cf inp W s).
Qed.

Lemma input_ok_active cf s : input_ok s -> at_unusableSeen s <> 0 -> activeSafeLatchCauses cf s <> 0.
Proof.
  intros [_ Ha] Hne Hz. apply active_zero in Hz as (_ & _ & Hp & _).
  apply not_true_iff_false in Hp. apply Hp. apply existsb_elem_of. exists kPssSubInputUnusable.
  split; [unfold all_sub_causes, kPssSubInputUnusable; set_solver|by apply Ha].
Qed.

(** ** Properties *)


(** In every reachable state an active fault of any source (PSS sub-causes,
    gateway heartbeat, freshness, sequence, all sensors failed, AI pipeline)
    has its latch bit set, an active PSS sub-cause suppresses fusion, and the
    person count stays within 0 and its cap. *)
Theorem active_faults_are_latched cf s : reachable cf s -> faults_latched s.
Proof. apply reachable_faults. Qed.

(** A latch bit, once set, is cleared by one input only: a PLC safe-release
    whose two responses were sent, with no active fault before or after them
    and no new latch in between; everything else, a denied or failed release
    included, keeps every bit. *)
Theorem latch_cleared_only_by_release cf s inp k :
  Z.testbit (at_latch s) k = true ->
  Z.testbit (at_latch (run (handle cf inp) s)) k = true \/
  exists during now, inp = InSafeRelease during true true now /\
    release_commits cf during true true s = true /\
    run (handle cf inp) s = released now (run (interfere cf during) s).
Proof.
  intros Hk. destruct inp as [during now p|now|w|during|during a u now]; simpl.
  - left. by apply packet_latch.
  - by left.
  - left. by apply watchdog_latch.
  - left. by apply evaluate_latch.
  - rewrite release_run. destruct (release_commits cf during a u s) eqn:Ec.
    + right. exists during, now. unfold release_commits in Ec. bool_prop. subst. split_and!; try done.
      unfold release_commits. rewrite !andb_true_iff, !negb_true_iff, !Z.eqb_eq, Z.eqb_neq. by split_and!.
    + left. pose proof (preserves_interfere latch_grows cf during (watchdog_latch cf) s k Hk).
      by repeat case_match.
Qed.

(** C6. A lost source is held: once the decision maker knows of source [i] and
    holds its group's sub-cause, no sequence of packets, watchdog passes,
    periodic evaluations or release attempts drops it, as long as no packet
    carries a presence report outside ERROR mode that names [i]; every release
    attempt is then denied and changes nothing. *)
Theorem lost_source_denies_release g i cf inputs s during ackSent unmuteSent now :
  is_group g -> group_member g i -> source_held g i s ->
  Forall (fun inp => wf_input inp /\ ~ input_names i inp) inputs ->
  let s' := run_all cf inputs s in
  source_held g i s' /\
  handle cf (InSafeRelease during ackSent unmuteSent now) s' =
    (tt, (s', [(CMD_SAFE_RELEASE_DENIED, None); (CMD_UNMUTE, None); (CMD_SW_ERROR, None)])).
Proof.
  intros Hg Hi Hs Hall. cbv zeta. pose proof (run_all_source g i cf inputs s Hg Hi Hall Hs) as Hs'.
  split; [done|]. simpl. apply release_denied. by eapply source_held_active.
Qed.

(** Rejected input is held: from launch, over any inputs, as long as some
    source's reports are recorded unusable every release attempt is denied and
    changes nothing. *)
Theorem unusable_input_denies_release cf inputs start during ackSent unmuteSent now :
  Forall wf_input inputs ->
  let s := run_all cf inputs (initial_atl start) in
  at_unusableSeen s <> 0 ->
  handle cf (InSafeRelease during ackSent unmuteSent now) s =
    (tt, (s, [(CMD_SAFE_RELEASE_DENIED, None); (CMD_UNMUTE, None); (CMD_SW_ERROR, None)])).
Proof.
  intros Hall. cbv zeta. intros Hne. simpl. apply release_denied, input_ok_active; [|done].
  by apply run_all_input.
Qed.

(** ** Witnesses *)

Definition witness_config : AtlConfig := {|
  cf_forkliftEntered := 0; cf_forkliftExited := 1; cf_personEntered := 2; cf_personExited := 3;
  cf_roiViolation := 4; cf_roiCleared := 5; cf_reviewed := [1; 2]; cf_maxHbFailures := 10;
  cf_hbStaleMs := 5000; cf_hbPeriodMs := 5500; cf_freshnessTimeoutMs := 7000 |}.

(** A healthy forklift-entered event, wrapped and stamped as the gateway does. *)
Definition forklift_request : DecisionRequest := {|
  dr_requestId := 2; dr_sensorDataSummarySize := 1;
  dr_sensorDataSummary :=
    {| sd_clientID := 1; sd_isHealthy := true; sd_isTrustedSource := true;
       sd_event := {| ev_id := 40; ev_sensorIdentifier := replicate MAX_INDENTIFIER_LENGTH 0;
         ev_type := EVENT_0; ev_cause := CAUSE_NONE; ev_severity := OPERATIONAL; ev_timestamp := 5;
         ev_confidenceLevel := f32_one; ev_status := PASSTHROUGH; ev_fusionMetadata := zero_metadata |} |}
    :: replicate 7 zero_sensorData;
  dr_pssStatus := {| st_hardwareErrorFlag := false; st_softwareErrorFlag := false; st_mode := NORMAL |};
  dr_integrity := zero_integrity |}.

Lemma wf_forklift_request : wf_request forklift_request.
Proof.
  constructor; try done. simpl. constructor.
  - split; [done|]. constructor; try done; [|apply wf_zero_metadata]. split; [done|]. by repeat constructor.
  - repeat (constructor; [by split; [|apply wf_zero_event]|]). constructor.
Qed.

Lemma wf_SetCRC r : wf_request r -> wf_request (pssDecisionRequestSetCRC r).
Proof. intros [? ? ? ? ?]. by constructor. Qed.

Definition packet_of (txSeq : Z) (r : DecisionRequest) : NvPSDGatewayDecisionRequestPacket := {|
  pk_magic := NVPSD_GATEWAY_DECISION_MAGIC; pk_version := NVPSD_GATEWAY_DECISION_PACKET_VERSION;
  pk_headerSize := NVPSD_GATEWAY_DECISION_HEADER_SIZE; pk_gatewayEpoch := 5; pk_gatewayTxSeq := txSeq;
  pk_request := pssDecisionRequestSetCRC r |}.

Definition forklift_mute : Tx :=
  (CMD_MUTE, Some {| ob_object_id := 0; ob_x := 0; ob_y := 0; ob_z := 0; ob_metadata := 0 |}).


Lemma active_faults_are_latched_witness :
  faults_latched (run (handle witness_config (InPacket [] 10 (packet_of 1 (sample_request 3)))) (initial_atl 0)).
Proof. apply (active_faults_are_latched witness_config). apply reach_step, reach_init. Defined.

Lemma latch_cleared_only_by_release_witness :
  let s := run (handle witness_config (InWatchdog (FreshTick 8000))) (initial_atl 0) in
  Z.testbit (at_latch s) 3 = true /\
  (Z.testbit (at_latch (run (handle witness_config (InSafeRelease [] true true 9)) s)) 3 = true \/
   exists during now, InSafeRelease [] true true 9 = InSafeRelease during true true now /\
     release_commits witness_config during true true s = true /\
     run (handle witness_config (InSafeRelease [] true true 9)) s = released now (run (interfere witness_config during) s)).
Proof.
  cbv zeta. split; [reflexivity|].
  apply (latch_cleared_only_by_release witness_config
    (run (handle witness_config (InWatchdog (FreshTick 8000))) (initial_atl 0)) (InSafeRelease [] true true 9) 3).
  reflexivity.
Defined.

(** The Safety Monitor is expected but missing from the report. *)
Definition missing_state : Atl :=
  run (handle witness_config (InPacket [] 10 (packet_of 1 (sample_report NORMAL 2 3)))) (initial_atl 0).

Lemma lost_source_denies_release_witness :
  source_held 0 0 (run_all witness_config [InPacket [] 20 (packet_of 2 forklift_request)] missing_state).
Proof.
  apply (lost_source_denies_release 0 0 witness_config [InPacket [] 20 (packet_of 2 forklift_request)]
           missing_state [] true true 30).
  - by left.
  - reflexivity.
  - split; [|split]; vm_compute; [discriminate|reflexivity|reflexivity].
  - constructor; [|constructor]. split; [apply wf_SetCRC, wf_forklift_request|].
    intros (m & e & Hf & _). discriminate Hf.
Defined.

(** A report marks the Perception Monitor's input unusable. *)
Lemma unusable_input_denies_release_witness :
  let s := run_all witness_config [InPacket [] 10 (packet_of 1 (sample_report NORMAL 0x20003 3))] (initial_atl 0) in
  (handle witness_config (InSafeRelease [] true true 30) s).2.1 = s.
Proof.
  cbv zeta.
  rewrite (unusable_input_denies_release witness_config
    [InPacket [] 10 (packet_of 1 (sample_report NORMAL 0x20003 3))] 0 [] true true 30).
  - reflexivity.
  - constructor; [|constructor]. apply wf_SetCRC, wf_sample_report; unfold is_i32, is_u32; codes; lia.
  - vm_compute. discriminate.
Defined.
