(* ===== verification/AtlRefinement.v ===== *)
(** * The ATL decision maker refines the shared evaluator

    [SdmPssSubCausesEvaluate] is documented as the rules of every decision maker
    written as one pure transition.  This file proves it for the ATL request
    handler, and shows where the handler's per-slot duplicate filter departs
    from it. *)

From S2P Require Import Prelude Protocol Crc Validate SdmRequestState GatewayContract SdmSequence AtlControl AtlSafety.

(** ** Refinement of the shared sub-cause evaluator *)

(** An update that touches neither the first three sub-causes nor the slot ids. *)
Definition same_low (s s' : Atl) : Prop :=
  (forall k, 0 <= k < 3 -> Z.testbit (at_subActive s') k = Z.testbit (at_subActive s) k) /\
  at_lastEventId s' = at_lastEventId s.

#[export] Instance same_low_refl : Reflexive same_low.
Proof. by intros s. Qed.
#[export] Instance same_low_trans : Transitive same_low.
Proof.
  intros s1 s2 s3 [H1 E1] [H2 E2]. split; [|congruence]. intros k Hk. by rewrite H2, H1.
Qed.

Lemma clear_slots c s : at_lastEventId (run (clearPssSubCause c) s) = at_lastEventId s.
Proof. unfold run, clearPssSubCause, modify. cbn [fst snd]. repeat case_match; done. Qed.

Lemma clear_low c : 3 <= c -> preserves same_low (clearPssSubCause c).
Proof.
  intros Hc s. split; [|apply clear_slots]. intros k Hk. rewrite (proj1 (clear_subActive c s)), Z.clearbit_eqb.
  destruct (Z.eqb_spec c k); [lia|apply andb_true_r].
Qed.

Lemma mark_low c : 3 <= c -> preserves same_low (markPssSubCause c).
Proof.
  intros Hc s. split; [|done]. intros k Hk.
  change (Z.testbit (Z.setbit (at_subActive s) c) k = Z.testbit (at_subActive s) k).
  rewrite Z.setbit_eqb by lia. by destruct (Z.eqb_spec c k); [lia|].
Qed.

#[export] Hint Extern 2 (preserves same_low (clearPssSubCause _)) => (apply clear_low; done) : atl.
#[export] Hint Extern 2 (preserves same_low (markPssSubCause _)) => (apply mark_low; done) : atl.
#[export] Hint Extern 4 (preserves same_low (modify _)) => (intros ?s; by split) : atl.

Lemma tracked_range c : c ∈ kTracked -> 3 <= c.
Proof. unfold kTracked. rewrite !elem_of_cons, elem_of_nil.
  unfold kPssSubMonitorLost, kPssSubPerceptionMonitorLost, kPssSubMdxLost. lia.
Qed.

(** Only tracked causes are entered by the presence report. *)
Lemma transitions_subset d cs s : (presence_transitions d cs s).1 ⊆ cs.
Proof.
  revert s. induction cs as [|c cs IH]; intros s; simpl; [done|].
  rewrite !val_bind. cbn [ret fst]. specialize (IH (run (presence_transition d c) s)).
  case_match; set_solver.
Qed.

Lemma presence_low r : preserves same_low (applySourcePresence r).
Proof.
  intros s. unfold applySourcePresence. rewrite run_gets.
  destruct (SdmSourcePresenceEvaluate (at_presenceSeen s) (Some r)) as [seen' d].
  rewrite run_bind. set (s1 := run (modify (set_presenceSeen seen')) s).
  assert (same_low s s1) as Hs1 by done. etrans; [exact Hs1|]. rewrite run_bind.
  etrans; [apply (preserves_transitions same_low d kTracked)|].
  - intros c Hc%tracked_range. unfold presence_transition.
    apply preserves_bind; [apply _|apply preserves_when; [apply _|by apply clear_low]|preserve].
  - pose proof (transitions_subset d kTracked s1) as Hsub.
    destruct (presence_transitions d kTracked s1).1 as [|c cs]; [done|].
    apply (preserves_bind same_low); [apply preserves_each; [apply _..|]|preserve].
    intros c' Hc'. by apply mark_low, tracked_range, Hsub.
Qed.

Lemma input_low r : preserves same_low (applySourceInputState r).
Proof. unfold applySourceInputState. preserve. Qed.

Lemma sensor_low cf r : preserves same_low (updateSensorHealthFromDecisionRequest cf r).
Proof. open_handler. preserve. Qed.

Lemma ai_low r : preserves same_low (updateAiPipelineTrustFromDecisionRequest r).
Proof. open_handler. preserve. Qed.

(** ** The SW_FAIL loop *)

Lemma sub_mark c s : at_subActive (run (markPssSubCause c) s) = Z.setbit (at_subActive s) c.
Proof. done. Qed.

Lemma each_mark raised cs s k : 0 <= k -> Forall (fun c => 0 <= c) cs ->
  Z.testbit (at_subActive (run (each (fun c => when (Z.testbit raised c) (markPssSubCause c)) cs) s)) k =
  Z.testbit (at_subActive s) k || (existsb (Z.eqb k) cs && Z.testbit raised k).
Proof.
  intros Hk Hcs. revert s. induction Hcs as [|c cs Hc _ IH]; intros s; [by rewrite orb_false_r|].
  cbn [each existsb]. rewrite run_bind, IH. unfold when.
  destruct (Z.testbit raised c) eqn:Er.
  - rewrite sub_mark, Z.setbit_eqb by done. rewrite (Z.eqb_sym c k).
    destruct (Z.eqb_spec k c) as [-> |]; [rewrite Er|]; btauto.
  - change (run (ret tt) s) with s. destruct (Z.eqb_spec k c) as [-> |]; [rewrite Er|]; btauto.
Qed.

(** Every SW_FAIL of the list is new in its slot and not stale. *)
Definition fresh_entry_in (s : Atl) (p : nat * SensorData) : Prop :=
  ev_type (sd_event p.2) = SW_FAIL ->
  ev_status (sd_event p.2) <> STALE /\ seen_in_slot s p.1 (ev_id (sd_event p.2)) = false.

Lemma fresh_other_slot s i id p : p.1 <> i -> fresh_entry_in s p -> fresh_entry_in (record_slot i id s) p.
Proof.
  intros Hne Hf Ht. destruct (Hf Ht) as [Hst Hseen]. split; [done|].
  unfold seen_in_slot, record_slot in *. cbn [at_lastEventId set_lastEventId].
  rewrite <- Hseen. f_equal. rewrite !nth_lookup. by rewrite list_lookup_insert_ne.
Qed.

Lemma sw_fail_raised_bit l s k : 0 <= k -> NoDup l.*1 -> Forall (fresh_entry_in s) l ->
  Z.testbit ((sw_fail_raised l s).1) k =
  existsb (fun d => (ev_type (sd_event d) =? SW_FAIL) && (SdmSwFailSubCause (sd_event d) =? 2 ^ k)) l.*2.
Proof.
  intros Hk. revert s. induction l as [|[i sd] l IH]; intros s Hnd Hall; [apply Z.testbit_0_l|].
  inversion_clear Hall as [|? ? Hf Hall']. rewrite !fmap_cons in *. cbn [fst snd] in *.
  apply NoDup_cons in Hnd as [Hi Hnd]. cbn [sw_fail_raised existsb].
  destruct (Z.eqb_spec (ev_type (sd_event sd)) SW_FAIL) as [Ht|]; cbn [negb andb orb]; [|by apply IH].
  destruct (Hf Ht) as [Hst Hseen]. cbn [fst snd] in *.
  destruct (Z.eqb_spec (ev_status (sd_event sd)) STALE); [done|].
  rewrite val_bind. cbn [gets fst]. rewrite Hseen. rewrite !val_bind. cbn [ret fst].
  rewrite Z.lor_spec, SwFailSubCause_bit by done. f_equal. apply IH; [done|].
  rewrite Forall_forall in Hall' |- *. intros p Hp. apply fresh_other_slot; [|by apply Hall'].
  intros Heq. apply Hi. rewrite <- Heq. by apply (list_elem_of_fmap_2 fst).
Qed.

Lemma slots_fst r : (slots r).*1 = seq 0 (length (populated r)).
Proof.
  unfold slots. rewrite fmap_imap. change (imap (fun n => fst ∘ pair n) (populated r)) with
    (imap (fun (i : nat) (_ : SensorData) => i) (populated r)).
  rewrite (imap_seq_0 (populated r) (fun i => i)). by rewrite list_fmap_id.
Qed.

Lemma slots_snd r : (slots r).*2 = populated r.
Proof. unfold slots. rewrite fmap_imap. rewrite <- (list_fmap_id (populated r)) at 2. by rewrite <- imap_const. Qed.

Definition fresh_sw_fails (s : Atl) (r : DecisionRequest) : Prop := Forall (fresh_entry_in s) (slots r).

Lemma fresh_same_slots s s' r : at_lastEventId s' = at_lastEventId s -> fresh_sw_fails s r -> fresh_sw_fails s' r.
Proof.
  intros E Hall. eapply Forall_impl; [exact Hall|]. intros p Hf Ht. destruct (Hf Ht) as [? Hs]. split; [done|].
  unfold seen_in_slot in *. by rewrite E.
Qed.

Lemma sw_fail_value r s k : 0 <= k -> fresh_sw_fails s r ->
  Z.testbit ((sw_fail_raised (slots r) s).1) k = Z.testbit (SdmSwFailSubCausesRaised r) k.
Proof.
  intros Hk Hf. rewrite sw_fail_raised_bit; [|done| |done].
  - by rewrite slots_snd, SwFailSubCausesRaised_bit.
  - rewrite slots_fst. apply NoDup_seq.
Qed.

(** The loop changes no sub-cause; the marks after it set the raised ones. *)
Definition same_sub (s s' : Atl) : Prop := at_subActive s' = at_subActive s.

#[export] Instance same_sub_refl : Reflexive same_sub.
Proof. by intros s. Qed.
#[export] Instance same_sub_trans : Transitive same_sub.
Proof. unfold same_sub. intros s1 s2 s3 ? ?. congruence. Qed.
#[export] Hint Extern 4 (preserves same_sub (modify _)) => (intros ?s; reflexivity) : atl.

Lemma apply_sw_fail_bit r s k : 0 <= k < 7 -> fresh_sw_fails s r ->
  Z.testbit (at_subActive (run (applySwFailEvents r) s)) k =
  Z.testbit (at_subActive s) k || Z.testbit (SdmSwFailSubCausesRaised r) k.
Proof.
  intros Hk Hf. unfold applySwFailEvents. rewrite run_bind.
  assert (preserves same_sub (sw_fail_raised (slots r))) as Hsub by preserve.
  rewrite <- (sw_fail_value r s k) by (done || lia).
  destruct (Z.eqb_spec (sw_fail_raised (slots r) s).1 0) as [-> |].
  - rewrite Z.testbit_0_l, orb_false_r. f_equal. apply Hsub.
  - rewrite run_bind.
    match goal with |- context[at_subActive (run (_ ;; ret true) ?s')] => change (at_subActive (run (_ ;; ret true) s')) with (at_subActive s') end.
    rewrite each_mark by (lia || by repeat constructor). rewrite (Hsub s).
    assert (existsb (Z.eqb k) all_sub_causes = true) as ->; [|done].
    apply existsb_elem_of. exists k. split; [|apply Z.eqb_refl].
    unfold all_sub_causes. rewrite !elem_of_cons. lia.
Qed.

(** ** The request handler *)

(** What follows the SW_FAIL step leaves the sub-causes alone. *)
Lemma watchdog_sub cf w : preserves same_sub (watchdog cf w).
Proof. open_handler. preserve. Qed.
#[export] Hint Resolve watchdog_sub : atl.

Lemma physical_sub cf during r : preserves same_sub (process_physical cf during r).
Proof. unfold process_physical, process_entry, physical_event, evaluateATLDecision. open_handler. preserve. Qed.

(** [s'] follows [s] by the evaluator's delta on the first three sub-causes. *)
Definition follows (d : SdmPssSubCauseDelta) (s s' : Atl) : Prop :=
  forall k, 0 <= k < 3 -> Z.testbit (at_subActive s') k =
    (Z.testbit (at_subActive s) k && negb (Z.testbit (d_cleared d) k)) || Z.testbit (d_raised d) k.

Lemma error_mode_follows r s : st_mode (dr_pssStatus r) = ERROR -> fresh_sw_fails s r ->
  follows (SdmPssSubCausesEvaluate (Some r)) s (run (process_error_mode r) s).
Proof.
  intros Hm Hf k Hk. unfold SdmPssSubCausesEvaluate. rewrite (proj2 (Z.eqb_eq _ _) Hm).
  cbn [d_cleared d_raised]. unfold process_error_mode. rewrite !run_bind.
  change (run sendLatchedSafeHold ?x) with x. rewrite sub_mark.
  rewrite Z.setbit_eqb by done. rewrite apply_sw_fail_bit; [|lia|by apply (fresh_same_slots s)].
  change (at_subActive (run (modify (set_pssSuppress true)) s)) with (at_subActive s).
  rewrite Z.testbit_0_l, Z.lor_spec.
  assert (Z.testbit SDM_PSS_SUB_MODE_ERROR k = (kPssSubModeError =? k)) as ->.
  { unfold kPssSubModeError. assert (k = 0 \/ k = 1 \/ k = 2) as [-> | [-> | ->]] by lia; done. }
  btauto.
Qed.

Lemma clear_bit c s k :
  Z.testbit (at_subActive (run (clearPssSubCause c) s)) k = Z.testbit (at_subActive s) k && negb (c =? k).
Proof. by rewrite (proj1 (clear_subActive c s)), Z.clearbit_eqb. Qed.

Lemma noop_only_count r :
  (summary_count r =? 1) && (ev_type (sd_event (first_entry r)) =? PSS_STATUS_NOOP) =
  SdmDecisionRequestIsNoopOnly (Some r).
Proof.
  unfold SdmDecisionRequestIsNoopOnly, summary_count, MAX_SENSORS_DATA_SUMMARY_SIZE. f_equal.
  destruct (Z.ltb_spec 8 (dr_sensorDataSummarySize r)); [|done].
  destruct (Z.eqb_spec (dr_sensorDataSummarySize r) 1); [lia|done].
Qed.

Lemma rest_sub cf during latched r (failed : bool) :
  preserves same_sub (if failed then ret tt else if latched : bool then sendLatchedSafeHold else process_physical cf during r).
Proof. pose proof (physical_sub cf during r). preserve. Qed.

Lemma normal_mode_follows cf during latched r s :
  st_mode (dr_pssStatus r) <> ERROR -> fresh_sw_fails s r ->
  follows (SdmPssSubCausesEvaluate (Some r)) s (run (process_normal_mode cf during latched r) s).
Proof.
  intros Hm Hf k Hk. unfold SdmPssSubCausesEvaluate, process_normal_mode.
  apply Z.eqb_neq in Hm. rewrite noop_only_count, run_bind.
  assert (SdmDecisionRequestClearsPssModeError (Some r) = true) as -> by (simpl; by rewrite Hm).
  rewrite Hm. cbn [when]. set (s1 := run (clearPssSubCause kPssSubModeError) s).
  pose proof (clear_bit kPssSubModeError s k) as H1. fold s1 in H1.
  assert (fresh_sw_fails s1 r) as Hf1 by (apply (fresh_same_slots s); [apply clear_slots|done]).
  assert (k = 0 \/ k = 1 \/ k = 2) as Hk3 by lia.
  destruct (SdmDecisionRequestIsNoopOnly (Some r)).
  - destruct (SdmDecisionRequestIsGatewayCommRecovered (Some r)); cbn [when d_raised d_cleared];
      [rewrite clear_bit|change (run (ret tt) s1) with s1]; rewrite H1, Z.testbit_0_l, orb_false_r;
      destruct Hk3 as [-> | [-> | ->]]; simpl; btauto.
  - rewrite !run_bind. rewrite (rest_sub cf during latched r). 
    destruct (SdmDecisionRequestClearsPssSwFail (Some r)) eqn:Ec; cbn [when d_raised d_cleared].
    + rewrite run_bind, apply_sw_fail_bit; [|lia|].
      2: { apply (fresh_same_slots s1); [by rewrite !clear_slots|done]. }
      rewrite !clear_bit, H1, SwFailSubCausesRaised_zero, Z.testbit_0_l, !orb_false_r.
      * destruct Hk3 as [-> | [-> | ->]]; simpl; btauto.
      * unfold SdmDecisionRequestClearsPssSwFail in Ec. by bool_prop.
    + change (run (ret tt) s1) with s1. rewrite apply_sw_fail_bit by (done || lia). rewrite H1.
      destruct Hk3 as [-> | [-> | ->]]; simpl; btauto.
Qed.

Lemma process_follows cf during r s : fresh_sw_fails s r ->
  follows (SdmPssSubCausesEvaluate (Some r)) s (run (processDecisionRequestLocked cf during r) s).
Proof.
  intros Hf. unfold processDecisionRequestLocked. rewrite run_bind, run_gets, !run_bind.
  set (s0 := run (updateAiPipelineTrustFromDecisionRequest r) s).
  set (s1 := run (when _ _) s0). set (s2 := run (applySourcePresence r) s1).
  set (s3 := run (applySourceInputState r) s2). set (s4 := run (updateSensorHealthFromDecisionRequest cf r) s3).
  assert (same_low s s4) as [Hb He].
  { etrans; [apply (ai_low r)|]. fold s0.
    assert (same_low s0 s1) as H1 by (unfold s1, when; by case_match).
    etrans; [exact H1|]. etrans; [apply (presence_low r)|]. etrans; [apply (input_low r)|]. apply sensor_low. }
  assert (fresh_sw_fails s4 r) as Hf4 by (by apply (fresh_same_slots s)).
  intros k Hk. rewrite <- (Hb k Hk). revert k Hk.
  change (follows (SdmPssSubCausesEvaluate (Some r)) s4
    (run (if st_mode (dr_pssStatus r) =? ERROR then process_error_mode r
          else process_normal_mode cf during (updateSensorHealthFromDecisionRequest cf r s3).1 r) s4)).
  destruct (Z.eqb_spec (st_mode (dr_pssStatus r)) ERROR).
  - by apply error_mode_follows.
  - by apply normal_mode_follows.
Qed.

(** ** The duplicate filter

    The gateway numbers its synthetic SW_FAIL with the PSS request id, while the
    handler's filter compares it with the event id last seen in slot 0. *)

Section collision.
Context (cf : AtlConfig) (during : list WatchdogTick) (s : Atl) (current : DecisionRequest).
Context (Hid : nth 0 (at_lastEventId s) EVENT_ID_UNSEEN = dr_requestId current)
        (Hmode : st_mode (dr_pssStatus current) <> ERROR) (Hinput : at_unusableSeen s = 0).

Let r : DecisionRequest := NvPSDGatewayBuildInvalidPssRequestIdSwFailRequest current.

Lemma collision_ai : updateAiPipelineTrustFromDecisionRequest r s = (false, (s, [])).
Proof. reflexivity. Qed.

Lemma collision_presence : applySourcePresence r s = (tt, (set_presenceSeen (at_presenceSeen s) s, [])).
Proof.
  unfold applySourcePresence, bind at 1. cbn [gets].
  change (SdmSourcePresenceEvaluate (at_presenceSeen s) (Some r)) with (at_presenceSeen s, no_delta).
  reflexivity.
Qed.

Lemma collision_input s' : at_unusableSeen s' = 0 ->
  applySourceInputState r s' = (tt, (set_unusableSeen 0 s', [])).
Proof. intros H0. unfold applySourceInputState, bind at 1. cbn [gets]. rewrite H0. reflexivity. Qed.

Lemma seen_slot_0 s' : nth 0 (at_lastEventId s') EVENT_ID_UNSEEN = dr_requestId current ->
  seen_in_slot s' 0 (dr_requestId current) = true.
Proof. intros H0. unfold seen_in_slot. rewrite H0. apply Z.eqb_refl. Qed.

Lemma collision_sw_fail s' : nth 0 (at_lastEventId s') EVENT_ID_UNSEEN = dr_requestId current ->
  applySwFailEvents r s' = (false, (s', [])).
Proof.
  intros H0%seen_slot_0. unfold applySwFailEvents, bind.
  change (slots r) with [(0%nat, first_entry r)]. cbn -[seen_in_slot]. by rewrite H0.
Qed.

Lemma collision_physical s' : nth 0 (at_lastEventId s') EVENT_ID_UNSEEN = dr_requestId current ->
  process_physical cf during r s' = (tt, (s', [])).
Proof.
  intros H0%seen_slot_0. unfold process_physical, bind.
  change (slots r) with [(0%nat, first_entry r)]. unfold process_entries, process_entry, bind. cbn -[seen_in_slot safeStateLatched]. rewrite H0. cbn -[safeStateLatched].
  by destruct (safeStateLatched s').
Qed.

Lemma collision_process :
  processDecisionRequestLocked cf during r s =
  (tt, (run (clearPssSubCause kPssSubModeError) (set_unusableSeen 0 (set_presenceSeen (at_presenceSeen s) s)), [])).
Proof.
  unfold processDecisionRequestLocked, bind at 1. rewrite collision_ai. unfold bind at 1. cbn [gets when].
  unfold bind at 1. cbn [ret]. unfold bind at 1. rewrite collision_presence.
  unfold bind at 1. rewrite collision_input by done.
  set (s1 := set_unusableSeen 0 (set_presenceSeen (at_presenceSeen s) s)).
  unfold bind at 1. change (updateSensorHealthFromDecisionRequest cf r s1) with (false, (s1, @nil Tx)).
  change (st_mode (dr_pssStatus r)) with (st_mode (dr_pssStatus current)).
  destruct (Z.eqb_spec (st_mode (dr_pssStatus current)) ERROR) as [|_]; [done|].
  unfold process_normal_mode, bind at 1, SdmDecisionRequestClearsPssModeError.
  change (st_mode (dr_pssStatus r)) with (st_mode (dr_pssStatus current)).
  destruct (Z.eqb_spec (st_mode (dr_pssStatus current)) ERROR) as [|_]; [done|]. cbn [negb when].
  change (clearPssSubCause kPssSubModeError s1) with (tt, (run (clearPssSubCause kPssSubModeError) s1, @nil Tx)).
  set (s2 := run (clearPssSubCause kPssSubModeError) s1).
  assert (nth 0 (at_lastEventId s2) EVENT_ID_UNSEEN = dr_requestId current) as Hid2.
  { unfold s2. by rewrite clear_slots. }
  change ((summary_count r =? 1) && (ev_type (sd_event (first_entry r)) =? PSS_STATUS_NOOP)) with false. cbv iota.
  assert (SdmDecisionRequestClearsPssSwFail (Some r) = false) as ->.
  { unfold SdmDecisionRequestClearsPssSwFail.
    change (SdmDecisionRequestContainsSwFail (Some r)) with true. apply andb_false_r. }
  unfold bind at 1. cbn [when ret]. unfold bind at 1. rewrite collision_sw_fail by done. cbv iota.
  by rewrite collision_physical by done.
Qed.
End collision.

(** ** Properties *)

(** Refinement: for a request whose SW_FAILs are new and not stale, the ATL
    request handler moves the mode-error, gateway-communication and software-
    failure sub-causes exactly as the shared evaluator says: cleared ones drop,
    raised ones are set, the rest stay. *)
Theorem request_refines_evaluator cf during r s :
  fresh_sw_fails s r ->
  let d := SdmPssSubCausesEvaluate (Some r) in
  let s' := run (processDecisionRequestLocked cf during r) s in
  forall k, 0 <= k < 3 ->
    Z.testbit (at_subActive s') k =
    (Z.testbit (at_subActive s) k && negb (Z.testbit (d_cleared d) k)) || Z.testbit (d_raised d) k.
Proof. intros Hf. cbv zeta. by apply process_follows. Qed.

Definition sample_config : AtlConfig := {|
  cf_forkliftEntered := 0; cf_forkliftExited := 1; cf_personEntered := 2; cf_personExited := 3;
  cf_roiViolation := 4; cf_roiCleared := 5; cf_reviewed := [1; 2]; cf_maxHbFailures := 10;
  cf_hbStaleMs := 5000; cf_hbPeriodMs := 5500; cf_freshnessTimeoutMs := 7000 |}.

Lemma request_refines_evaluator_witness :
  Z.testbit (at_subActive (run (processDecisionRequestLocked sample_config [] (sample_request 7)) (initial_atl 0))) 1 = true.
Proof.
  rewrite (request_refines_evaluator sample_config [] (sample_request 7) (initial_atl 0)).
  - reflexivity.
  - repeat constructor; discriminate.
  - lia.
Defined.

(** Where the handler departs from the evaluator: when the PSS request id the
    gateway could not accept equals the event id last seen in slot 0 (which is
    0xFFFFFFFF in a decision maker that has seen none), the gateway's synthetic
    SW_FAIL is taken for a duplicate.  The handler then sends no hold, sets no
    latch and raises no sub-cause, although the evaluator raises
    gateway-communication for the same request. *)
Theorem synthetic_fault_dropped_as_duplicate cf during s current :
  nth 0 (at_lastEventId s) EVENT_ID_UNSEEN = dr_requestId current ->
  st_mode (dr_pssStatus current) <> ERROR -> at_unusableSeen s = 0 ->
  let r := NvPSDGatewayBuildInvalidPssRequestIdSwFailRequest current in
  let m := processDecisionRequestLocked cf during r in
  sent m s = [] /\ at_latch (run m s) = at_latch s /\
  at_subActive (run m s) = Z.clearbit (at_subActive s) kPssSubModeError /\
  Z.testbit (d_raised (SdmPssSubCausesEvaluate (Some r))) kPssSubGatewayComm = true.
Proof.
  intros Hid Hmode Hinput. cbv zeta. unfold sent, run.
  rewrite (collision_process cf during s current) by done. cbn [fst snd]. split_and!.
  - done.
  - unfold run, clearPssSubCause, modify. cbn [fst snd]. repeat case_match; done.
  - by rewrite (proj1 (clear_subActive _ _)).
  - unfold SdmPssSubCausesEvaluate. simpl. by destruct (st_mode (dr_pssStatus current) =? ERROR).
Qed.

Lemma synthetic_fault_dropped_as_duplicate_witness :
  at_latch (run (processDecisionRequestLocked sample_config []
    (NvPSDGatewayBuildInvalidPssRequestIdSwFailRequest (sample_request UINT32_MAX))) (initial_atl 0)) = 0.
Proof.
  apply (synthetic_fault_dropped_as_duplicate sample_config [] (initial_atl 0) (sample_request UINT32_MAX));
    [reflexivity|discriminate|reflexivity].
Defined.
