(* ===== verification/DeliveryFailSafe.v ===== *)
(** * Delivery fail-safe rules of the Physical Safety System daemon

    [NvPSSDeliveryFailSafe.hpp]: what the daemon's staging lanes and its sender
    decide with.  Release gates and lane selection, retry windows, request ids
    and the matching of responses, admission of must-deliver reports to a full
    critical lane, the overflow latch, the pending list of refused reports and
    the ledger of abandoned batches.

    The header's templates ask of an entry a member [evictable] or [event]; the
    classes [Evictable] and [HasEvent] state that.  The id allocator is a
    compare-and-swap loop and is modelled as such, one step per access of the
    shared counter. *)

From S2P Require Import Prelude Protocol GatewayContract.

(** ** Constants *)

Definition NVPSS_PSS_TO_PSD_RETRY_BUDGET_MIN : Z := 1.
Definition NVPSS_PSS_TO_PSD_RETRY_BUDGET_MAX : Z := 10.
Definition NVPSS_PSS_TO_PSD_RETRY_WINDOW_MS_MAX : Z := 6000.
Definition NVPSS_PSS_TO_PSD_RESPONSE_TIMEOUT_MS_MIN : Z := 100.
Definition NVPSS_PSS_TO_PSD_RESPONSE_TIMEOUT_MS_MAX : Z := 30000.
Definition NVPSS_PSD_SEND_NS_PER_US : Z := 1000.
Definition NVPSS_PSD_SEND_NS_PER_MS : Z := 1000000.
Definition NVPSS_PSD_SEND_OPERATIONAL_RELEASE_PERIOD_US : Z := 2500.
Definition NVPSS_PSD_STATUS_NOOP_ENQUEUE_RETRY_BACKOFF_NS : Z := 100 * NVPSS_PSD_SEND_NS_PER_MS.
Definition NVPSS_PSD_SEND_FAILURE_RETRY_BACKOFF_NS : Z := 100 * NVPSS_PSD_SEND_NS_PER_MS.
Definition NVPSS_PSD_BATCH_MAX_DELIVERY_ATTEMPTS : Z := 3.
Definition NVPSS_DECISION_REQUEST_ID_MIN : Z := 1.
Definition NVPSS_DECISION_REQUEST_ID_MAX : Z := UINT32_MAX - 1.
Definition NVPSS_PSD_REFUSED_PENDING_MAX : nat := 32.

Inductive NvPSSDeliveryState := DELIVERY_NORMAL | DELIVERY_RETRYING | DELIVERY_ERROR_ACTIVE.

Inductive NvPSSPsdSendPriority := PRIORITY_CRITICAL | PRIORITY_OPERATIONAL.

#[export] Instance NvPSSDeliveryState_eq_dec : EqDecision NvPSSDeliveryState.
Proof. solve_decision. Defined.
#[export] Instance NvPSSPsdSendPriority_eq_dec : EqDecision NvPSSPsdSendPriority.
Proof. solve_decision. Defined.

(** ** Release gates *)

Record NvPSSPsdReleaseGate := { gt_armed : bool; gt_deadlineNs : Z }.

Definition disarmed : NvPSSPsdReleaseGate := {| gt_armed := false; gt_deadlineNs := 0 |}.

Record NvPSSPsdReleaseSnapshot := {
  sn_criticalQueued : bool;
  sn_operationalQueued : bool;
  sn_criticalYieldPending : bool;
  sn_operationalGate : NvPSSPsdReleaseGate;
  sn_nowNs : Z;
}.

Definition NvPSSPsdSaturatingAddNs (baseNs deltaNs : Z) : Z :=
  if UINT64_MAX - baseNs <? deltaNs then UINT64_MAX else u64 (baseNs + deltaNs).

Definition NvPSSPsdSendPriorityReleasePeriodNs (p : NvPSSPsdSendPriority) : Z :=
  match p with
  | PRIORITY_OPERATIONAL => NVPSS_PSD_SEND_OPERATIONAL_RELEASE_PERIOD_US * NVPSS_PSD_SEND_NS_PER_US
  | PRIORITY_CRITICAL => 0
  end.

Definition NvPSSPsdUpdateReleaseGate (gate : NvPSSPsdReleaseGate) (queued : bool) (nowNs periodNs : Z)
    : NvPSSPsdReleaseGate :=
  if negb queued then disarmed
  else if negb (gt_armed gate)
  then {| gt_armed := true; gt_deadlineNs := NvPSSPsdSaturatingAddNs nowNs periodNs |}
  else gate.

Definition NvPSSPsdForceReleaseGateDue (nowNs : Z) : NvPSSPsdReleaseGate :=
  {| gt_armed := true; gt_deadlineNs := nowNs |}.

Definition NvPSSPsdAdvanceReleaseGateAfterSend (stillQueued : bool) (nowNs periodNs : Z) : NvPSSPsdReleaseGate :=
  if negb stillQueued then disarmed
  else {| gt_armed := true; gt_deadlineNs := NvPSSPsdSaturatingAddNs nowNs periodNs |}.

Definition NvPSSPsdUpdateStatusNoopDeadline (enqueueSucceeded : bool) (nowNs intervalNs : Z) : Z :=
  NvPSSPsdSaturatingAddNs nowNs
    (if enqueueSucceeded then intervalNs else NVPSS_PSD_STATUS_NOOP_ENQUEUE_RETRY_BACKOFF_NS).

Definition NvPSSPsdReleaseGateIsDue (queued : bool) (gate : NvPSSPsdReleaseGate) (nowNs : Z) : bool :=
  queued && gt_armed gate && (gt_deadlineNs gate <=? nowNs).

Definition NvPSSPsdSelectDuePriority (s : NvPSSPsdReleaseSnapshot) : option NvPSSPsdSendPriority :=
  if sn_criticalQueued s && negb (sn_criticalYieldPending s) then Some PRIORITY_CRITICAL
  else if NvPSSPsdReleaseGateIsDue (sn_operationalQueued s) (sn_operationalGate s) (sn_nowNs s)
  then Some PRIORITY_OPERATIONAL
  else if sn_criticalQueued s then Some PRIORITY_CRITICAL
  else None.

(** ** Retry window and mode *)

Definition NvPSSDeliveryRetryBudgetIsValid (retryBudget : Z) : bool :=
  (NVPSS_PSS_TO_PSD_RETRY_BUDGET_MIN <=? retryBudget) && (retryBudget <=? NVPSS_PSS_TO_PSD_RETRY_BUDGET_MAX).

Definition NvPSSDeliveryResponseTimeoutMsIsValid (timeoutMs : Z) : bool :=
  (NVPSS_PSS_TO_PSD_RESPONSE_TIMEOUT_MS_MIN <=? timeoutMs) && (timeoutMs <=? NVPSS_PSS_TO_PSD_RESPONSE_TIMEOUT_MS_MAX).

Definition NvPSSDeliveryRetryWindowMs (retryBudget responseTimeoutMs : Z) : Z := u64 (retryBudget * responseTimeoutMs).

Definition NvPSSDeliveryRetryWindowMsIsValid (retryBudget responseTimeoutMs : Z) : bool :=
  NvPSSDeliveryRetryBudgetIsValid retryBudget && NvPSSDeliveryResponseTimeoutMsIsValid responseTimeoutMs &&
  (NvPSSDeliveryRetryWindowMs retryBudget responseTimeoutMs <=? NVPSS_PSS_TO_PSD_RETRY_WINDOW_MS_MAX).

Definition NvPSSDeliveryOperationalMode (state : NvPSSDeliveryState) (baseMode : OperationalMode) : OperationalMode :=
  match state with DELIVERY_ERROR_ACTIVE => ERROR | _ => baseMode end.

(** ** Request ids and responses *)

Definition NvPSSDecisionRequestIsStatusNoopOnly (request : option DecisionRequest) : bool :=
  match request with
  | None => false
  | Some r => (dr_sensorDataSummarySize r =? 1) && (ev_type (sd_event (first_entry r)) =? PSS_STATUS_NOOP)
  end.

Definition NvPSSDecisionRequestIdIsValid (requestId : Z) : bool :=
  (NVPSS_DECISION_REQUEST_ID_MIN <=? requestId) && (requestId <=? NVPSS_DECISION_REQUEST_ID_MAX).

Definition NvPSSNextDecisionRequestIdAfter (requestId : Z) : Z :=
  if NVPSS_DECISION_REQUEST_ID_MAX <=? requestId then NVPSS_DECISION_REQUEST_ID_MIN else u32 (requestId + 1).

(** The id taken from an observed counter. *)
Definition allocated_from (observed : Z) : Z :=
  if NvPSSDecisionRequestIdIsValid observed then observed else NVPSS_DECISION_REQUEST_ID_MIN.

(** The counter, what each caller inside the loop has observed, and the ids
    handed out so far, oldest first. *)
Record Allocator := { al_next : Z; al_observed : gmap nat Z; al_allocated : list Z }.

Definition initial_allocator (next : Z) : Allocator := {| al_next := next; al_observed := ∅; al_allocated := [] |}.

Inductive AllocStep :=
  | AllocLoad (caller : nat) (* the load before the loop *)
  | AllocCas (caller : nat) (spurious : bool). (* compare_exchange_weak *)

(** One access of [nextRequestId].  A failed exchange reloads [observed]. *)
Definition alloc_step (a : Allocator) (st : AllocStep) : Allocator :=
  match st with
  | AllocLoad c => {| al_next := al_next a; al_observed := <[c := al_next a]> (al_observed a); al_allocated := al_allocated a |}
  | AllocCas c spurious =>
    match al_observed a !! c with
    | None => a
    | Some observed =>
      let allocated := allocated_from observed in
      if (al_next a =? observed) && negb spurious then
        {| al_next := NvPSSNextDecisionRequestIdAfter allocated; al_observed := delete c (al_observed a);
           al_allocated := al_allocated a ++ [allocated] |}
      else {| al_next := al_next a; al_observed := <[c := al_next a]> (al_observed a); al_allocated := al_allocated a |}
    end
  end.

(** One uncontended call. *)
Definition NvPSSAllocateSerializedDecisionRequestId (nextRequestId : Z) : Z * Z :=
  let allocated := allocated_from nextRequestId in (NvPSSNextDecisionRequestIdAfter allocated, allocated).

Definition SIZEOF_DECISION_RESPONSE : Z := 12.

Definition NvPSSIsCompleteDecisionResponseSize (receivedBytes : Z) : bool := receivedBytes =? SIZEOF_DECISION_RESPONSE.

Definition NvPSSDecisionResponseMatchesRequest (request : DecisionRequest) (response : DecisionResponse) : bool :=
  NvPSSDecisionRequestIdIsValid (dr_requestId request) && (rsp_decisionId response =? dr_requestId request).

Inductive NvPSSDecisionResponseReceiveAction := RESPONSE_ACCEPT | RESPONSE_DISCARD_AND_CONTINUE | RESPONSE_FAIL.

Definition NvPSSDecisionResponseReceiveActionFor (request : DecisionRequest) (response : DecisionResponse)
    (receivedBytes : Z) : NvPSSDecisionResponseReceiveAction :=
  if negb (NvPSSIsCompleteDecisionResponseSize receivedBytes) then RESPONSE_FAIL
  else if negb (NvPSSDecisionResponseMatchesRequest request response) then RESPONSE_DISCARD_AND_CONTINUE
  else RESPONSE_ACCEPT.

Definition NvPSSAssignSerializedDecisionRequestId (requestId : Z) (request : DecisionRequest) : DecisionRequest :=
  map_populated
    (fun d => if ev_type (sd_event d) =? PSS_STATUS_NOOP then set_sd_event (set_ev_id requestId (sd_event d)) d else d)
    (set_dr_requestId requestId request).

(** ** Admission to the critical lane *)

(** What the templates require of a queued entry. *)
Class Evictable (E : Type) := evictable : E -> bool.
Class HasEvent (E : Type) := entry_event : E -> FusedSafetyEvent.

Definition NvPSSPsdIsMustDeliverReport (type : EventType) : bool :=
  (type =? SW_FAIL) || (type =? SENSOR_INVALID) || (type =? SENSOR_VALID) ||
  (type =? AI_PIPELINE_INVALID) || (type =? AI_PIPELINE_VALID).

(** The downward scan of [NvPSSPsdCriticalLaneVictim], [n] positions left. *)
Fixpoint victim_scan {E} `{!Evictable E} (lane : list E) (protectedFront n : nat) : option nat :=
  match n with
  | O => None
  | S i =>
    if (i <? protectedFront)%nat then None
    else match lane !! i with
         | Some e => if evictable e then Some i else victim_scan lane protectedFront i
         | None => victim_scan lane protectedFront i
         end
  end.

Definition NvPSSPsdCriticalLaneVictim {E} `{!Evictable E} (lane : list E) (protectedFront : nat) : option nat :=
  victim_scan lane protectedFront (length lane).

(** ** Overflow latch *)

Record NvPSSPsdCriticalOverflowLatch := {
  ov_active : bool;
  ov_generation : Z;
  ov_deliveredGeneration : Z;
}.

Definition initial_overflow : NvPSSPsdCriticalOverflowLatch :=
  {| ov_active := false; ov_generation := 0; ov_deliveredGeneration := 0 |}.

(** [true] on the rising edge. *)
Definition overflow_raise (l : NvPSSPsdCriticalOverflowLatch) : NvPSSPsdCriticalOverflowLatch * bool :=
  ({| ov_active := true; ov_generation := u64 (ov_generation l + 1);
      ov_deliveredGeneration := ov_deliveredGeneration l |}, negb (ov_active l)).

Definition stampGeneration (l : NvPSSPsdCriticalOverflowLatch) : Z := if ov_active l then ov_generation l else 0.

Definition noteStampDelivered (generation : Z) (l : NvPSSPsdCriticalOverflowLatch) : NvPSSPsdCriticalOverflowLatch :=
  if generation =? 0 then l
  else {| ov_active := ov_active l; ov_generation := ov_generation l;
          ov_deliveredGeneration :=
            if ov_deliveredGeneration l <? generation then generation else ov_deliveredGeneration l |}.

(** [true] on the falling edge. *)
Definition clearIfDrained (depth capacity : Z) (refusedOutstanding : bool) (l : NvPSSPsdCriticalOverflowLatch)
    : NvPSSPsdCriticalOverflowLatch * bool :=
  if negb (ov_active l) || (capacity <? u64 (depth * 2)) ||
     (ov_deliveredGeneration l <? ov_generation l) || refusedOutstanding
  then (l, false)
  else ({| ov_active := false; ov_generation := ov_generation l;
           ov_deliveredGeneration := ov_deliveredGeneration l |}, true).

(** ** Refused reports kept for re-admission *)

Definition NvPSSPsdVerdictSlotClass (type : EventType) : Z :=
  if (type =? SENSOR_INVALID) || (type =? SENSOR_VALID) then 1
  else if (type =? AI_PIPELINE_INVALID) || (type =? AI_PIPELINE_VALID) then 2
  else 0.

Definition NvPSSPsdSameVerdictSlot (a b : FusedSafetyEvent) : bool :=
  let cls := NvPSSPsdVerdictSlotClass (ev_type a) in
  if (cls =? 0) || negb (cls =? NvPSSPsdVerdictSlotClass (ev_type b)) then false
  else if cls =? 2 then true
  else fm_pipelineID (ev_fusionMetadata a) =? fm_pipelineID (ev_fusionMetadata b).

(** The entries left, and how many were dropped. *)
Fixpoint NvPSSPsdDropSupersededRefused {E} `{!HasEvent E} (pending : list E) (newer : FusedSafetyEvent) : list E * nat :=
  match pending with
  | [] => ([], O)
  | e :: rest =>
    let '(kept, dropped) := NvPSSPsdDropSupersededRefused rest newer in
    if NvPSSPsdSameVerdictSlot (entry_event e) newer then (kept, S dropped) else (e :: kept, dropped)
  end.

Definition NvPSSPsdRetainRefused {E} `{!HasEvent E} (pending : list E) (refused : E) (max : nat) : list E * bool :=
  let pending := (NvPSSPsdDropSupersededRefused pending (entry_event refused)).1 in
  if (max <=? length pending)%nat then (pending, false) else (pending ++ [refused], true).

(** ** Ledger of abandoned batches *)

Record NvPSSPsdUndeliverableLedger := { ul_batches : Z; ul_events : Z; ul_requestIds : list Z }.

Definition empty_ledger : NvPSSPsdUndeliverableLedger := {| ul_batches := 0; ul_events := 0; ul_requestIds := [] |}.

Definition kListedRequestIds : nat := 8.

Definition noteAbandoned (requestId eventCount : Z) (l : NvPSSPsdUndeliverableLedger) : NvPSSPsdUndeliverableLedger :=
  let ids := ul_requestIds l ++ [requestId] in
  {| ul_batches := u64 (ul_batches l + 1); ul_events := u64 (ul_events l + eventCount);
     ul_requestIds := if (kListedRequestIds <? length ids)%nat then drop 1 ids else ids |}.

(** The record of a resumed delivery, by its fields; [None] for the empty text. *)
Definition takeResumed (l : NvPSSPsdUndeliverableLedger)
    : NvPSSPsdUndeliverableLedger * option NvPSSPsdUndeliverableLedger :=
  if ul_batches l =? 0 then (l, None) else (empty_ledger, Some l).

(** ** Lemmas: ids *)

Lemma id_valid_iff i : NvPSSDecisionRequestIdIsValid i = true <-> 1 <= i <= UINT32_MAX - 1.
Proof. unfold NvPSSDecisionRequestIdIsValid, NVPSS_DECISION_REQUEST_ID_MIN, NVPSS_DECISION_REQUEST_ID_MAX. rewrite andb_true_iff, !Z.leb_le. done. Qed.

Lemma allocated_valid o : NvPSSDecisionRequestIdIsValid (allocated_from o) = true.
Proof. unfold allocated_from. destruct (NvPSSDecisionRequestIdIsValid o) eqn:E; [done|reflexivity]. Qed.

Lemma allocated_from_valid o : NvPSSDecisionRequestIdIsValid o = true -> allocated_from o = o.
Proof. unfold allocated_from. by intros ->. Qed.

Lemma next_id_valid i :
  NvPSSDecisionRequestIdIsValid i = true -> NvPSSDecisionRequestIdIsValid (NvPSSNextDecisionRequestIdAfter i) = true.
Proof.
  rewrite !id_valid_iff. unfold NvPSSNextDecisionRequestIdAfter, NVPSS_DECISION_REQUEST_ID_MAX, NVPSS_DECISION_REQUEST_ID_MIN, UINT32_MAX.
  intros ?. destruct (Z.leb_spec (4294967295 - 1) i); [lia|]. rewrite u32_small by (unfold is_u32; lia). lia.
Qed.

(** Ids in serial order from [first]. *)
Fixpoint serial_ids (first : Z) (n : nat) : list Z :=
  match n with O => [] | S k => first :: serial_ids (NvPSSNextDecisionRequestIdAfter first) k end.

Lemma serial_ids_snoc first n :
  serial_ids first (S n) = serial_ids first n ++ [Nat.iter n NvPSSNextDecisionRequestIdAfter first].
Proof.
  revert first. induction n as [|n IH]; intros first; [done|].
  cbn [serial_ids app]. f_equal. etransitivity; [apply (IH (NvPSSNextDecisionRequestIdAfter first))|].
  by rewrite Nat.iter_succ_r.
Qed.

(** The invariant of the allocator over any interleaving of its callers. *)
Record alloc_inv (next0 : Z) (a : Allocator) : Prop := {
  ai_allocated : al_allocated a = serial_ids (allocated_from next0) (length (al_allocated a));
  ai_next : allocated_from (al_next a) = Nat.iter (length (al_allocated a)) NvPSSNextDecisionRequestIdAfter (allocated_from next0);
}.

Lemma alloc_step_inv next0 a st : alloc_inv next0 a -> alloc_inv next0 (alloc_step a st).
Proof.
  intros [Ha Hn]. destruct st as [c|c sp]; cbn [alloc_step]; [by constructor|].
  destruct (al_observed a !! c) as [o|]; [|by constructor].
  destruct (Z.eqb_spec (al_next a) o) as [<-|]; [|by constructor]. destruct sp; [by constructor|]. cbn.
  constructor; cbn [al_allocated al_next]; rewrite length_app; cbn [length]; rewrite Nat.add_1_r.
  - rewrite serial_ids_snoc, <- Ha, Hn. done.
  - rewrite Nat.iter_succ, <- Hn. apply allocated_from_valid, next_id_valid, allocated_valid.
Qed.

Definition alloc_run (next0 : Z) (steps : list AllocStep) : Allocator :=
  fold_left alloc_step steps (initial_allocator next0).

Lemma alloc_run_inv next0 steps : alloc_inv next0 (alloc_run next0 steps).
Proof.
  unfold alloc_run. apply (fold_left_ind (alloc_inv next0)); [by constructor|]. intros a st _. apply alloc_step_inv.
Qed.

(** The gateway's answers to a sequence of ids. *)
Fixpoint observe_ids (st : NvPSDGatewayPssSequenceState) (ids : list Z) : list NvPSDGatewayPssRequestObservation :=
  match ids with
  | [] => []
  | i :: rest => let '(st', o) := NvPSDGatewayObservePssRequestId st i in o :: observe_ids st' rest
  end.

Lemma observe_serial n first :
  NvPSSDecisionRequestIdIsValid first = true ->
  observe_ids {| ps_initialized := true; ps_lastValidRequestId := first |}
    (serial_ids (NvPSSNextDecisionRequestIdAfter first) n) = replicate n ACCEPT.
Proof.
  revert first. induction n as [|n IH]; intros first Hv; [done|].
  pose proof (next_id_valid _ Hv) as Hv'. cbn [serial_ids observe_ids replicate].
  unfold NvPSDGatewayObservePssRequestId at 1.
  change (NvPSDGatewayRequestIdIsSequenceTracked (NvPSSNextDecisionRequestIdAfter first))
    with (NvPSSDecisionRequestIdIsValid (NvPSSNextDecisionRequestIdAfter first)).
  rewrite Hv'. cbn [negb ps_initialized ps_lastValidRequestId].
  change (if NVPSD_GATEWAY_PSS_REQUEST_ID_MAX <=? first then NVPSD_GATEWAY_PSS_REQUEST_ID_MIN else u32 (first + 1))
    with (NvPSSNextDecisionRequestIdAfter first).
  assert ((NvPSSNextDecisionRequestIdAfter first =? first) = false) as ->.
  { apply id_valid_iff in Hv. apply Z.eqb_neq. unfold NvPSSNextDecisionRequestIdAfter, NVPSS_DECISION_REQUEST_ID_MAX, NVPSS_DECISION_REQUEST_ID_MIN, UINT32_MAX in *.
    destruct (Z.leb_spec (4294967295 - 1) first); [lia|]. rewrite u32_small by (unfold is_u32; lia). lia. }
  rewrite Z.eqb_refl. cbn [negb]. f_equal. by apply IH.
Qed.

Lemma observe_serial_fresh n first :
  NvPSSDecisionRequestIdIsValid first = true ->
  observe_ids initial_pss_sequence (serial_ids first n) = replicate n ACCEPT.
Proof.
  intros Hv. destruct n as [|n]; [done|]. cbn [serial_ids observe_ids replicate].
  unfold NvPSDGatewayObservePssRequestId at 1.
  change (NvPSDGatewayRequestIdIsSequenceTracked first) with (NvPSSDecisionRequestIdIsValid first).
  rewrite Hv. cbn. f_equal. by apply observe_serial.
Qed.

(** ** Lemmas: lane, latch and pending list *)

Lemma victim_scan_spec {E} `{!Evictable E} (lane : list E) front n i :
  victim_scan lane front n = Some i <->
  (front <= i < n)%nat /\ (exists e, lane !! i = Some e /\ evictable e = true) /\
  (forall j e, (i < j < n)%nat -> lane !! j = Some e -> evictable e = false).
Proof.
  revert i. induction n as [|n IH]; intros i; cbn [victim_scan]; [split; [done|lia]|].
  destruct (Nat.ltb_spec n front) as [Hlt|Hge]; [split; [done|lia]|].
  assert (forall e, lane !! n = Some e -> evictable e = true ->
    (Some n = Some i <-> (front <= i < S n)%nat /\ (exists e, lane !! i = Some e /\ evictable e = true) /\
     (forall j e, (i < j < S n)%nat -> lane !! j = Some e -> evictable e = false))) as Hhit.
  { intros e He Hev. split; [intros [= <-]; split_and!; [lia|lia|eauto|lia]|].
    intros (? & ? & Hno). destruct (decide (i = n)) as [->|]; [done|]. by rewrite (Hno n e) in Hev by (done || lia). }
  assert ((forall e, lane !! n = Some e -> evictable e = false) ->
    (victim_scan lane front n = Some i <-> (front <= i < S n)%nat /\ (exists e, lane !! i = Some e /\ evictable e = true) /\
     (forall j e, (i < j < S n)%nat -> lane !! j = Some e -> evictable e = false))) as Hmiss.
  { intros Hn. rewrite IH. split.
    - intros (? & ? & Hno). split_and!; [lia|lia|done|]. intros j e Hj He.
      destruct (decide (j = n)) as [->|]; [by apply Hn|]. apply (Hno j e); [lia|done].
    - intros (? & (e & He & Hev) & Hno). assert (i <> n) by (intros ->; by rewrite (Hn e He) in Hev).
      split_and!; [lia|lia|eauto|]. intros j e' Hj. apply Hno. lia. }
  destruct (lane !! n) as [e|] eqn:He; [|by apply Hmiss].
  destruct (evictable e) eqn:Hev; [by apply (Hhit e)|]. apply Hmiss. by intros ? [= <-].
Qed.

Lemma victim_spec {E} `{!Evictable E} (lane : list E) front i :
  NvPSSPsdCriticalLaneVictim lane front = Some i ->
  (front <= i < length lane)%nat /\ exists e, lane !! i = Some e /\ evictable e = true.
Proof. intros (? & ? & _)%victim_scan_spec. done. Qed.

(** What may happen to the overflow latch. *)
Inductive LatchOp :=
  | LatchRaise
  | LatchDelivered (generation : Z)
  | LatchClear (depth capacity : Z) (refusedOutstanding : bool).

Definition latch_step (l : NvPSSPsdCriticalOverflowLatch) (op : LatchOp) : NvPSSPsdCriticalOverflowLatch :=
  match op with
  | LatchRaise => (overflow_raise l).1
  | LatchDelivered g => noteStampDelivered g l
  | LatchClear d c o => (clearIfDrained d c o l).1
  end.

Fixpoint raises (ops : list LatchOp) : Z :=
  match ops with [] => 0 | LatchRaise :: rest => 1 + raises rest | _ :: rest => raises rest end.

Lemma raises_nonneg ops : 0 <= raises ops.
Proof. induction ops as [|[] ops IH]; cbn [raises]; lia. Qed.

Lemma latch_held ops bound l :
  ov_active l = true -> 0 <= bound < ov_generation l -> ov_generation l + raises ops < 2 ^ 64 ->
  ov_deliveredGeneration l <= bound -> (forall g, LatchDelivered g ∈ ops -> g <= bound) ->
  ov_active (fold_left latch_step ops l) = true.
Proof.
  revert l. induction ops as [|op ops IH]; intros l Ha Hb Hr Hd Hops; [done|]. cbn [fold_left].
  assert (forall g, LatchDelivered g ∈ ops -> g <= bound) as Hops' by (intros g Hg; apply Hops; by right).
  destruct op as [|g|d c o]; cbn [latch_step].
  - pose proof (raises_nonneg ops). cbn [raises] in Hr.
    apply IH; cbn; [done| | |done|done]; rewrite u64_small by (unfold is_u64; lia); lia.
  - cbn [raises] in Hr. specialize (Hops g ltac:(left)).
    unfold noteStampDelivered. destruct (g =? 0); [by apply IH|].
    apply IH; cbn; try done. destruct (ov_deliveredGeneration l <? g); lia.
  - cbn [raises] in Hr.
    unfold clearIfDrained. rewrite Ha.
    assert ((ov_deliveredGeneration l <? ov_generation l) = true) as -> by (apply Z.ltb_lt; lia).
    rewrite orb_true_r. by apply IH.
Qed.

Lemma stamp_le l : 0 <= ov_generation l -> stampGeneration l <= ov_generation l.
Proof. unfold stampGeneration. destruct (ov_active l); lia. Qed.

Section pending.
Context {E : Type} `{!HasEvent E}.
Implicit Types (pending : list E) (e : E).

Definition different_slot (a b : E) : Prop := NvPSSPsdSameVerdictSlot (entry_event a) (entry_event b) = false.

Lemma same_slot_sym a b : NvPSSPsdSameVerdictSlot a b = NvPSSPsdSameVerdictSlot b a.
Proof.
  unfold NvPSSPsdSameVerdictSlot. cbv zeta.
  set (x := NvPSSPsdVerdictSlotClass (ev_type a)). set (y := NvPSSPsdVerdictSlotClass (ev_type b)).
  rewrite (Z.eqb_sym y x), (Z.eqb_sym (fm_pipelineID (ev_fusionMetadata b))).
  destruct (Z.eqb_spec x y) as [->|]; [done|]. by rewrite !orb_true_r.
Qed.

Lemma drop_superseded_eq pending newer :
  (NvPSSPsdDropSupersededRefused pending newer).1
  = filter (fun e => NvPSSPsdSameVerdictSlot (entry_event e) newer = false) pending.
Proof.
  induction pending as [|e rest IH]; [done|]. cbn [NvPSSPsdDropSupersededRefused].
  destruct (NvPSSPsdDropSupersededRefused rest newer) as [kept n]. cbn [fst] in IH. subst kept.
  destruct (NvPSSPsdSameVerdictSlot (entry_event e) newer) eqn:Es; cbn [fst].
  - rewrite filter_cons_False; [done|congruence].
  - by rewrite filter_cons_True.
Qed.

(** Bounded, in order of refusal, one verdict per slot. *)
Record pending_ok (max : nat) (reports pending : list E) : Prop := {
  po_length : (length pending <= max)%nat;
  po_sublist : pending `sublist_of` reports;
  po_slots : ForallOrdPairs different_slot pending;
}.

Lemma retain_ok max reports pending e :
  pending_ok max reports pending -> pending_ok max (reports ++ [e]) (NvPSSPsdRetainRefused pending e max).1.
Proof.
  intros [Hl Hs Hp]. unfold NvPSSPsdRetainRefused. rewrite drop_superseded_eq.
  set (kept := filter _ pending).
  assert (kept `sublist_of` pending) as Hk by apply sublist_filter.
  assert (length kept <= length pending)%nat by by apply sublist_length.
  pose proof (ordpairs_sublist different_slot _ _ Hk Hp) as Hkp.
  destruct (Nat.leb_spec max (length kept)); constructor; cbn [fst].
  - lia.
  - etransitivity; [exact Hk|]. etransitivity; [exact Hs|]. apply sublist_inserts_r. done.
  - done.
  - rewrite length_app. cbn. lia.
  - apply sublist_app; [|done]. by etransitivity.
  - apply ordpairs_snoc; [done|]. apply Forall_forall. intros y Hy. unfold different_slot.
    by apply list_elem_of_filter in Hy as [Hy _].
Qed.

Lemma retain_keeps max pending e r :
  r ∈ pending -> different_slot r e -> r ∈ (NvPSSPsdRetainRefused pending e max).1.
Proof.
  intros Hr Hd. unfold NvPSSPsdRetainRefused. rewrite drop_superseded_eq.
  assert (r ∈ filter (fun e0 => NvPSSPsdSameVerdictSlot (entry_event e0) (entry_event e) = false) pending)
    by (by apply list_elem_of_filter).
  destruct (_ <=? _)%nat; cbn [fst]; [done|]. apply elem_of_app. by left.
Qed.

Definition retain_all (max : nat) (reports pending : list E) : list E :=
  fold_left (fun p r => (NvPSSPsdRetainRefused p r max).1) reports pending.

Lemma retain_all_ok max done_ reports pending :
  pending_ok max done_ pending -> pending_ok max (done_ ++ reports) (retain_all max reports pending).
Proof.
  revert done_ pending. induction reports as [|r reports IH]; intros d p Hp; cbn; [by rewrite app_nil_r|].
  rewrite cons_middle, app_assoc. apply IH. by apply retain_ok.
Qed.

Lemma retain_all_keeps max reports pending r :
  r ∈ pending -> Forall (different_slot r) reports -> r ∈ retain_all max reports pending.
Proof.
  revert pending. induction reports as [|r' reports IH]; intros p Hr; [done|]. inversion_clear 1.
  cbn. apply IH; [|done]. by apply retain_keeps.
Qed.

End pending.

(** ** Properties *)

(** Request ids are serial under contention: over every interleaving of the
    callers' loads and compare-exchanges, spurious failures included, the ids
    handed out are consecutive from the counter's start value, wrap from the
    maximum to 1 and never take a reserved value, and a gateway that starts
    with the first of them accepts every one without a gap. *)
Theorem allocated_ids_accepted next0 steps :
  let ids := al_allocated (alloc_run next0 steps) in
  ids = serial_ids (allocated_from next0) (length ids) /\
  observe_ids initial_pss_sequence ids = replicate (length ids) ACCEPT.
Proof.
  intros ids. pose proof (ai_allocated _ _ (alloc_run_inv next0 steps)) as H. fold ids in H.
  split; [exact H|]. rewrite H at 1. apply observe_serial_fresh, allocated_valid.
Qed.

(** Once a must-deliver report is refused, the overflow stays raised, and
    PSS keeps stamping ERROR, until the gateway acknowledges a request stamped
    after that refusal: no acknowledgement of an earlier stamp, drained lane or
    further refusal clears it. *)
Theorem overflow_held_until_told l ops :
  0 <= ov_generation l -> ov_deliveredGeneration l <= ov_generation l ->
  ov_generation l + 1 + raises ops < 2 ^ 64 ->
  (forall g, LatchDelivered g ∈ ops -> g <= ov_generation l) ->
  stampGeneration l <= ov_generation l /\
  ov_active (fold_left latch_step ops (overflow_raise l).1) = true.
Proof.
  intros H0 Hd Hr Hops. split; [by apply stamp_le|].
  pose proof (raises_nonneg ops).
  apply (latch_held ops (ov_generation l)); cbn; try done; rewrite u64_small by (unfold is_u64; lia); lia.
Qed.

(** The pending list of refused reports stays within its bound, in order of
    refusal, with at most one verdict per sensor and one for the AI pipeline;
    and a report that was retained is still pending unless a newer verdict of
    its own slot was refused since, so a refused SW_FAIL is never dropped. *)
Theorem refused_reports_kept {E} `{!HasEvent E} max (reports : list E) :
  pending_ok max reports (retain_all max reports []) /\
  forall pre r post, reports = pre ++ r :: post ->
    (NvPSSPsdRetainRefused (retain_all max pre []) r max).2 = true ->
    Forall (different_slot r) post -> r ∈ retain_all max reports [].
Proof.
  split.
  - apply (retain_all_ok max [] reports []). constructor; [cbn; lia|done|constructor].
  - intros pre r post -> Hret Hpost. unfold retain_all. rewrite fold_left_app. cbn [fold_left].
    apply retain_all_keeps; [|done]. fold (retain_all max pre []). revert Hret.
    unfold NvPSSPsdRetainRefused. destruct (_ <=? _)%nat; [done|]. intros _. cbn [fst].
    apply elem_of_app. right. by apply list_elem_of_singleton.
Qed.

(** ** Witnesses *)

Lemma overflow_held_until_told_witness :
  ov_active (fold_left latch_step
    [LatchDelivered 1; LatchClear 0 32 false; LatchRaise; LatchClear 4 32 false]
    (overflow_raise (overflow_raise initial_overflow).1).1) = true.
Proof.
  apply (overflow_held_until_told (overflow_raise initial_overflow).1
           [LatchDelivered 1; LatchClear 0 32 false; LatchRaise; LatchClear 4 32 false]).
  - done.
  - done.
  - done.
  - intros g Hg. apply list_elem_of_In in Hg. cbn in Hg.
    destruct Hg as [Hg | [Hg | [Hg | [Hg | []]]]]; try discriminate. injection Hg as <-. vm_compute. discriminate.
Defined.
