(* ===== verification/Staging.v ===== *)
(** * Staging lanes of the Physical Safety System daemon

    The queues between event processing and the one sender thread, from
    [NvPSSSafetyEventManager.cpp]: a FIFO lane for CRITICAL entries and a lane
    ordered by event time for OPERATIONAL ones.  Entries are copied into a
    request, and removed by sequence number once the request is acknowledged or
    abandoned; a must-deliver report that meets a full critical lane evicts an
    entry every decision maker would skip, or is retained and raises the
    overflow latch.

    [Staging] is the part of [SafetyEventManager] guarded by the two queue
    mutexes.  Each function below is one critical section.  Log records, their
    rate limits and the wake-up of the sender are not modelled. *)

From S2P Require Import Prelude Protocol DeliveryFailSafe.

(** ** Data *)

Record TrustState := { ts_sensorInvalid : bool; ts_aiPipelineInvalid : bool }.

Definition trusted : TrustState := {| ts_sensorInvalid := false; ts_aiPipelineInvalid := false |}.

Record PsdQueuedEvent := {
  qe_clientId : Z;
  qe_seq : Z;
  qe_event : FusedSafetyEvent;
  qe_queuedTrust : TrustState;
  qe_evictable : bool;
}.

#[export] Instance PsdQueuedEvent_evictable : Evictable PsdQueuedEvent := qe_evictable.
#[export] Instance PsdQueuedEvent_event : HasEvent PsdQueuedEvent := qe_event.

Definition with_seq (seq : Z) (ev : bool) (e : PsdQueuedEvent) : PsdQueuedEvent := {|
  qe_clientId := qe_clientId e; qe_seq := seq; qe_event := qe_event e;
  qe_queuedTrust := qe_queuedTrust e; qe_evictable := ev |}.

(** [tk_seqs] holds the first [count] elements of [seq]. *)
Record PsdBatchTicket := {
  tk_seqs : list Z;
  tk_requestId : Z;
  tk_attempts : Z;
  tk_stamped : bool;
  tk_stamp : SystemStatus;
  tk_stampGeneration : Z;
}.

Definition empty_ticket : PsdBatchTicket := {|
  tk_seqs := []; tk_requestId := 0; tk_attempts := 0; tk_stamped := false; tk_stamp := zero_status;
  tk_stampGeneration := 0 |}.

(** Lane depths, as the constructor clamps them. *)
Record StagingConfig := { sc_operationalDepth : nat; sc_criticalDepth : nat }.

Definition QUEUE_DEPTH_MIN : Z := MAX_SENSORS_DATA_SUMMARY_SIZE.
Definition QUEUE_DEPTH_MAX : Z := 512.

Definition clamp_depth (depth : Z) : Z :=
  if depth <? QUEUE_DEPTH_MIN then QUEUE_DEPTH_MIN
  else if QUEUE_DEPTH_MAX <? depth then QUEUE_DEPTH_MAX else depth.

Definition staging_config (operational critical : Z) : StagingConfig :=
  {| sc_operationalDepth := Z.to_nat (clamp_depth operational); sc_criticalDepth := Z.to_nat (clamp_depth critical) |}.

Definition WIRE_BATCH : nat := Z.to_nat MAX_SENSORS_DATA_SUMMARY_SIZE.

Record Staging := {
  sg_critical : list PsdQueuedEvent; (* criticalPrioQue *)
  sg_operational : list PsdQueuedEvent; (* operationalPrioQue *)
  sg_enqueueSeq : Z; (* psdEnqueueSeq_ *)
  sg_overflow : NvPSSPsdCriticalOverflowLatch; (* criticalLaneOverflow_ *)
  sg_refusedPending : list PsdQueuedEvent; (* psdRefusedPending_ *)
  sg_refusedReadmittedSeqMax : Z; (* psdRefusedReadmittedSeqMax_ *)
  sg_accepted : Z; (* psdEnqueueAcceptedCount_ *)
  sg_dropped : Z; (* psdEnqueueDroppedCount_ *)
  sg_evicted : Z; (* psdCriticalEvictedCount_ *)
  sg_refusedLost : Z; (* psdRefusedLostCount_ *)
}.

Definition initial_staging : Staging := {|
  sg_critical := []; sg_operational := []; sg_enqueueSeq := 0; sg_overflow := initial_overflow;
  sg_refusedPending := []; sg_refusedReadmittedSeqMax := 0; sg_accepted := 0; sg_dropped := 0; sg_evicted := 0;
  sg_refusedLost := 0 |}.

Definition set_lanes (critical operational : list PsdQueuedEvent) (seq : Z) (s : Staging) : Staging := {|
  sg_critical := critical; sg_operational := operational; sg_enqueueSeq := seq; sg_overflow := sg_overflow s;
  sg_refusedPending := sg_refusedPending s; sg_refusedReadmittedSeqMax := sg_refusedReadmittedSeqMax s;
  sg_accepted := sg_accepted s; sg_dropped := sg_dropped s; sg_evicted := sg_evicted s;
  sg_refusedLost := sg_refusedLost s |}.

Definition set_refused (overflow : NvPSSPsdCriticalOverflowLatch) (pending : list PsdQueuedEvent) (seqMax : Z)
    (s : Staging) : Staging := {|
  sg_critical := sg_critical s; sg_operational := sg_operational s; sg_enqueueSeq := sg_enqueueSeq s;
  sg_overflow := overflow; sg_refusedPending := pending; sg_refusedReadmittedSeqMax := seqMax;
  sg_accepted := sg_accepted s; sg_dropped := sg_dropped s; sg_evicted := sg_evicted s;
  sg_refusedLost := sg_refusedLost s |}.

Definition bump (accepted dropped evicted lost : Z) (s : Staging) : Staging := {|
  sg_critical := sg_critical s; sg_operational := sg_operational s; sg_enqueueSeq := sg_enqueueSeq s;
  sg_overflow := sg_overflow s; sg_refusedPending := sg_refusedPending s;
  sg_refusedReadmittedSeqMax := sg_refusedReadmittedSeqMax s;
  sg_accepted := u64 (sg_accepted s + accepted); sg_dropped := u64 (sg_dropped s + dropped);
  sg_evicted := u64 (sg_evicted s + evicted); sg_refusedLost := u64 (sg_refusedLost s + lost) |}.

Definition lane_of (p : NvPSSPsdSendPriority) (s : Staging) : list PsdQueuedEvent :=
  match p with PRIORITY_CRITICAL => sg_critical s | PRIORITY_OPERATIONAL => sg_operational s end.

Definition hasQueuedEvents (p : NvPSSPsdSendPriority) (s : Staging) : bool :=
  match lane_of p s with [] => false | _ => true end.

(** ** Severity *)

Definition NvPSSEventTypeRequiresCriticalDelivery (type : EventType) : bool := NvPSSPsdIsMustDeliverReport type.

Definition NvPSSPsdEvictable (event : FusedSafetyEvent) (sourceDistrusted : bool) : bool :=
  negb (NvPSSPsdIsMustDeliverReport (ev_type event)) && (sourceDistrusted || (ev_status event =? STALE)).

Definition NvPSSClassifyPsdSeverity (event : FusedSafetyEvent) (isHealthy isTrustedSource : bool)
    (mode : OperationalMode) : SeverityLevel :=
  if (mode =? ERROR) || (ev_severity event =? CRITICAL) || NvPSSEventTypeRequiresCriticalDelivery (ev_type event) ||
     negb isHealthy || negb isTrustedSource
  then CRITICAL else OPERATIONAL.

Definition NvPSSPsdSendPriorityFromSeverity (severity : SeverityLevel) : NvPSSPsdSendPriority :=
  if severity =? CRITICAL then PRIORITY_CRITICAL else PRIORITY_OPERATIONAL.

Definition entry_severity (mode : OperationalMode) (d : SensorData) : SeverityLevel :=
  NvPSSClassifyPsdSeverity (sd_event d) (sd_isHealthy d) (sd_isTrustedSource d) mode.

Definition NvPSSDecisionRequestSeverity (request : option DecisionRequest) : SeverityLevel :=
  match request with
  | None => OPERATIONAL
  | Some r =>
    if existsb (fun d => entry_severity (st_mode (dr_pssStatus r)) d =? CRITICAL) (populated r)
    then CRITICAL else OPERATIONAL
  end.

Definition NvPSSFinalizeDecisionRequestSeverity (r : DecisionRequest) : DecisionRequest :=
  map_populated (fun d => set_sd_event (set_ev_severity (NvPSSDecisionRequestSeverity (Some r)) (sd_event d)) d) r.

(** ** Enqueue *)

(** [prevIsEarlier]. *)
Definition earlier (prev entry : PsdQueuedEvent) : bool :=
  (ev_timestamp (qe_event prev) <? ev_timestamp (qe_event entry)) ||
  ((ev_timestamp (qe_event prev) =? ev_timestamp (qe_event entry)) && (qe_seq prev <? qe_seq entry)).

(** The scan from the back, on the reversed lane. *)
Fixpoint insert_from_back (entry : PsdQueuedEvent) (rev_lane : list PsdQueuedEvent) : list PsdQueuedEvent :=
  match rev_lane with
  | [] => [entry]
  | prev :: rest => if earlier prev entry then entry :: prev :: rest else prev :: insert_from_back entry rest
  end.

Definition insertOperationalOrdered (entry : PsdQueuedEvent) (lane : list PsdQueuedEvent) : list PsdQueuedEvent :=
  reverse (insert_from_back entry (reverse lane)).

Definition next_seq (s : Staging) : Z := u64 (sg_enqueueSeq s + 1).

Definition drop_superseded (event : FusedSafetyEvent) (s : Staging) : Staging :=
  set_refused (sg_overflow s) (NvPSSPsdDropSupersededRefused (sg_refusedPending s) event).1
    (sg_refusedReadmittedSeqMax s) s.

(** A must-deliver report meets a full critical lane. *)
Definition admit_to_full_lane (entry : PsdQueuedEvent) (s : Staging) : Staging * bool :=
  match NvPSSPsdCriticalLaneVictim (sg_critical s) WIRE_BATCH with
  | Some victim =>
    let entry := with_seq (sg_enqueueSeq s) (qe_evictable entry) entry in
    let s := set_lanes (delete victim (sg_critical s) ++ [entry]) (sg_operational s) (next_seq s) s in
    (bump 0 0 1 0 (drop_superseded (qe_event entry) s), true)
  | None =>
    let '(pending, retained) := NvPSSPsdRetainRefused (sg_refusedPending s) entry NVPSS_PSD_REFUSED_PENDING_MAX in
    let s := set_refused (overflow_raise (sg_overflow s)).1 pending (sg_refusedReadmittedSeqMax s) s in
    (bump 0 0 0 (if retained then 0 else 1) s, false)
  end.

Definition enqueuePsdFusedEvent (cfg : StagingConfig) (priority : NvPSSPsdSendPriority) (clientId : Z)
    (event : FusedSafetyEvent) (evict : bool) (queuedTrust : TrustState) (s : Staging) : Staging * bool :=
  let operational := bool_decide (priority = PRIORITY_OPERATIONAL) in
  let capacity := if operational then sc_operationalDepth cfg else sc_criticalDepth cfg in
  let entry := {| qe_clientId := clientId; qe_seq := 0; qe_event := event; qe_queuedTrust := queuedTrust;
                  qe_evictable := negb operational && evict |} in
  let '(s, queued) :=
    if (length (lane_of priority s) <? capacity)%nat then
      let entry := with_seq (sg_enqueueSeq s) (qe_evictable entry) entry in
      if operational
      then (set_lanes (sg_critical s) (insertOperationalOrdered entry (sg_operational s)) (next_seq s) s, true)
      else (drop_superseded event (set_lanes (sg_critical s ++ [entry]) (sg_operational s) (next_seq s) s), true)
    else if negb operational && NvPSSPsdIsMustDeliverReport (ev_type event) then admit_to_full_lane entry s
    else (s, false) in
  if queued : bool then (bump 1 0 0 0 s, true) else (bump 0 1 0 0 s, false).

(** The arguments of one call. *)
Record Enqueue := {
  en_priority : NvPSSPsdSendPriority;
  en_clientId : Z;
  en_event : FusedSafetyEvent;
  en_evictable : bool;
  en_queuedTrust : TrustState;
}.

Definition enqueue (cfg : StagingConfig) (s : Staging) (q : Enqueue) : Staging :=
  (enqueuePsdFusedEvent cfg (en_priority q) (en_clientId q) (en_event q) (en_evictable q) (en_queuedTrust q) s).1.

Definition NvPSSStampSourcePresence (presenceMask expectedMask : Z) (event : FusedSafetyEvent) : FusedSafetyEvent := {|
  ev_id := ev_id event; ev_sensorIdentifier := ev_sensorIdentifier event; ev_type := ev_type event;
  ev_cause := CAUSE_SOURCE_PRESENCE; ev_severity := ev_severity event; ev_timestamp := ev_timestamp event;
  ev_confidenceLevel := ev_confidenceLevel event; ev_status := ev_status event;
  ev_fusionMetadata := set_fm_objectID (presenceMask, expectedMask) (ev_fusionMetadata event) |}.

Definition NvPSSBuildStatusNoopFusedEvent (eventId timestampNs presenceMask expectedMask : Z) : FusedSafetyEvent :=
  NvPSSStampSourcePresence presenceMask expectedMask {|
    ev_id := eventId; ev_sensorIdentifier := snprintf_s (bytes_of_string "PSS_DAEMON") MAX_INDENTIFIER_LENGTH;
    ev_type := PSS_STATUS_NOOP; ev_cause := 0; ev_severity := OPERATIONAL; ev_timestamp := timestampNs;
    ev_confidenceLevel := f32_one; ev_status := PASSTHROUGH;
    ev_fusionMetadata := {| fm_coordinates := fm_coordinates zero_metadata; fm_pipelineID := 0; fm_clientID := 0;
                            fm_objectType := (OBJECT, OBJECT); fm_speed := 0; fm_objectID := (0, 0) |} |}.

Definition enqueueStatusNoopEvent (cfg : StagingConfig) (timestampNs : Z) (s : Staging) : Staging * bool :=
  let event := NvPSSBuildStatusNoopFusedEvent 0 timestampNs 0 0 in
  if (length (sg_operational s) <? sc_operationalDepth cfg)%nat then
    let entry := {| qe_clientId := 0; qe_seq := sg_enqueueSeq s; qe_event := event; qe_queuedTrust := trusted;
                    qe_evictable := false |} in
    (set_lanes (sg_critical s) (insertOperationalOrdered entry (sg_operational s)) (next_seq s) s, true)
  else (s, false).

(** ** Commit *)

(** The re-admission loop of [maybeClearCriticalLaneOverflow]. *)
Fixpoint readmit (capacity : nat) (pending : list PsdQueuedEvent) (s : Staging) : Staging :=
  match pending with
  | [] => set_refused (sg_overflow s) [] (sg_refusedReadmittedSeqMax s) s
  | e :: rest =>
    if (length (sg_critical s) <? capacity)%nat then
      let entry := with_seq (sg_enqueueSeq s) false e in
      let s := set_lanes (sg_critical s ++ [entry]) (sg_operational s) (next_seq s) s in
      readmit capacity rest (set_refused (sg_overflow s) rest (qe_seq entry) s)
    else set_refused (sg_overflow s) pending (sg_refusedReadmittedSeqMax s) s
  end.

Definition refused_outstanding (s : Staging) : bool :=
  negb (length (sg_refusedPending s) =? 0)%nat ||
  (negb (sg_refusedReadmittedSeqMax s =? 0) &&
   existsb (fun e => qe_seq e <=? sg_refusedReadmittedSeqMax s) (sg_critical s)).

(** [during]: enqueues by other threads after the lane lock is released and
    before the latch is asked to clear, with the depth read under the lock. *)
Definition maybeClearCriticalLaneOverflow (cfg : StagingConfig) (during : list Enqueue) (s : Staging) : Staging :=
  if negb (ov_active (sg_overflow s)) then s
  else
    let s := readmit (sc_criticalDepth cfg) (sg_refusedPending s) s in
    let refusedOutstanding := refused_outstanding s in
    let depth := length (sg_critical s) in
    let s := fold_left (enqueue cfg) during s in
    let overflow := (clearIfDrained (Z.of_nat depth) (Z.of_nat (sc_criticalDepth cfg)) refusedOutstanding
                       (sg_overflow s)).1 in
    set_refused overflow (sg_refusedPending s) (sg_refusedReadmittedSeqMax s) s.

(** Remove the first entry with each sequence number of the ticket. *)
Definition erase_seqs (seqs : list Z) (lane : list PsdQueuedEvent) : list PsdQueuedEvent :=
  fold_left (fun lane wanted => erase_first (fun e => qe_seq e =? wanted) lane) seqs lane.

Definition commitQueuedEvents (cfg : StagingConfig) (priority : NvPSSPsdSendPriority) (seqs : list Z)
    (during : list Enqueue) (s : Staging) : Staging :=
  match seqs with
  | [] => s
  | _ =>
    maybeClearCriticalLaneOverflow cfg during
      match priority with
      | PRIORITY_CRITICAL => set_lanes (erase_seqs seqs (sg_critical s)) (sg_operational s) (sg_enqueueSeq s) s
      | PRIORITY_OPERATIONAL => set_lanes (sg_critical s) (erase_seqs seqs (sg_operational s)) (sg_enqueueSeq s) s
      end
  end.

(** [criticalLaneOverflow_.noteStampDelivered]. *)
Definition note_stamp (generation : Z) (s : Staging) : Staging :=
  set_refused (noteStampDelivered generation (sg_overflow s)) (sg_refusedPending s) (sg_refusedReadmittedSeqMax s) s.

(** Entry-wise equality of the two [seq] arrays, in order. *)
Definition psdBatchIdentityMatches (a b : PsdBatchTicket) : bool :=
  negb (length (tk_seqs a) =? 0)%nat && bool_decide (tk_seqs a = tk_seqs b).

(** ** Steps

    What producers and the sender do to the lanes. *)

Inductive StagingOp :=
  | OpEnqueue (q : Enqueue)
  | OpStatusNoop (timestampNs : Z)
  | OpStampDelivered (generation : Z)
  | OpCommit (priority : NvPSSPsdSendPriority) (seqs : list Z) (during : list Enqueue).

Definition staging_step (cfg : StagingConfig) (s : Staging) (op : StagingOp) : Staging :=
  match op with
  | OpEnqueue q => enqueue cfg s q
  | OpStatusNoop t => (enqueueStatusNoopEvent cfg t s).1
  | OpStampDelivered g => note_stamp g s
  | OpCommit p seqs during => commitQueuedEvents cfg p seqs during s
  end.

(** ** Well-formed lanes *)

Definition before (a b : PsdQueuedEvent) : Prop := earlier a b = true.
Definition older (a b : PsdQueuedEvent) : Prop := qe_seq a < qe_seq b.
Definition must_deliver (e : PsdQueuedEvent) : Prop := NvPSSPsdIsMustDeliverReport (ev_type (qe_event e)) = true.

Record staging_wf (cfg : StagingConfig) (s : Staging) : Prop := {
  wf_critical_depth : (length (sg_critical s) <= sc_criticalDepth cfg)%nat;
  wf_operational_depth : (length (sg_operational s) <= sc_operationalDepth cfg)%nat;
  wf_seqs : Forall (fun e => 0 <= qe_seq e < sg_enqueueSeq s) (sg_critical s ++ sg_operational s);
  wf_unique : NoDup (qe_seq <$> (sg_critical s ++ sg_operational s));
  wf_fifo : ForallOrdPairs older (sg_critical s);
  wf_ordered : ForallOrdPairs before (sg_operational s);
  wf_evictable : Forall (fun e => qe_evictable e = true -> ~ must_deliver e) (sg_critical s);
  wf_pending : (length (sg_refusedPending s) <= NVPSS_PSD_REFUSED_PENDING_MAX)%nat;
  wf_pending_reports : Forall must_deliver (sg_refusedPending s);
  wf_pending_slots : ForallOrdPairs different_slot (sg_refusedPending s);
  wf_pending_raised : sg_refusedPending s <> [] -> ov_active (sg_overflow s) = true;
  wf_generation : 0 <= ov_deliveredGeneration (sg_overflow s) <= ov_generation (sg_overflow s);
  wf_seq_range : 0 <= sg_enqueueSeq s;
}.

(** ** Lemmas: ordered insertion and removal *)

Lemma before_trans a b c : before a b -> before b c -> before a c.
Proof. unfold before, earlier. rewrite !orb_true_iff, !andb_true_iff, !Z.ltb_lt, !Z.eqb_eq. lia. Qed.

Lemma not_before a e : earlier a e = false -> qe_seq a < qe_seq e -> before e a.
Proof. unfold before, earlier. rewrite orb_false_iff, andb_false_iff, orb_true_iff, andb_true_iff, !Z.ltb_ge, !Z.ltb_lt, Z.eqb_eq, Z.eqb_neq. lia. Qed.

(** Where the scan stops. *)
Lemma insert_split e lane :
  exists l1 l2, lane = l1 ++ l2 /\ insertOperationalOrdered e lane = l1 ++ e :: l2 /\
    Forall (fun x => earlier x e = false) l2 /\ (l1 = [] \/ exists l p, l1 = l ++ [p] /\ before p e).
Proof.
  unfold insertOperationalOrdered. induction lane as [|x lane IH] using rev_ind.
  - exists [], []. cbn. by split_and!; [..|constructor|left].
  - rewrite reverse_snoc. cbn [insert_from_back]. destruct (earlier x e) eqn:Ex.
    + exists (lane ++ [x]), []. rewrite app_nil_r, !reverse_cons, reverse_involutive.
      split_and!; [done|by rewrite <- app_assoc|constructor|]. right. by exists lane, x.
    + destruct IH as (l1 & l2 & -> & IH & Hl2 & Hl1). exists l1, (l2 ++ [x]).
      rewrite reverse_cons, IH, <- !app_assoc. split_and!; [done|done| |done].
      apply Forall_app. by split; [|constructor].
Qed.

Lemma insert_perm e lane : insertOperationalOrdered e lane ≡ₚ e :: lane.
Proof. destruct (insert_split e lane) as (l1 & l2 & -> & -> & _). by rewrite Permutation_middle. Qed.

Lemma insert_ordered e lane :
  ForallOrdPairs before lane -> Forall (fun x => qe_seq x < qe_seq e) lane ->
  ForallOrdPairs before (insertOperationalOrdered e lane).
Proof.
  destruct (insert_split e lane) as (l1 & l2 & -> & -> & Hl2 & Hl1).
  intros (H1 & H2 & H12)%ordpairs_app [_ Hs]%Forall_app.
  assert (Forall (before e) l2) as He2.
  { apply Forall_forall. intros x Hx. apply not_before.
    - by eapply Forall_forall in Hl2.
    - by eapply Forall_forall in Hs. }
  assert (Forall (fun x => before x e) l1) as He1.
  { destruct Hl1 as [->|(l & p & -> & Hp)]; [constructor|].
    apply ordpairs_app in H1 as (_ & _ & H1). apply Forall_app. split; [|by constructor].
    apply Forall_forall. intros x Hx. eapply Forall_forall in H1; [|exact Hx].
    inversion_clear H1. by eapply before_trans. }
  apply ordpairs_app. split_and!; [done|by constructor|].
  apply Forall_forall. intros x Hx. constructor.
  - by eapply Forall_forall in He1.
  - by eapply Forall_forall in H12.
Qed.

Lemma erase_seqs_sublist seqs lane : erase_seqs seqs lane `sublist_of` lane.
Proof.
  unfold erase_seqs. revert lane. induction seqs as [|w seqs IH]; intros lane; [done|]. cbn [fold_left].
  etransitivity; [apply IH|apply erase_first_sublist].
Qed.

(** ** Lemmas: the invariant *)

(** [n] more entries can be numbered, and refusals counted, without wrapping. *)
Definition room (n : Z) (s : Staging) : Prop :=
  sg_enqueueSeq s + n < 2 ^ 64 /\ ov_generation (sg_overflow s) + n < 2 ^ 64.

Lemma next_seq_room s : 0 <= sg_enqueueSeq s -> room 1 s -> next_seq s = sg_enqueueSeq s + 1.
Proof. intros ? [? _]. unfold next_seq. apply u64_small. unfold is_u64. lia. Qed.

Lemma wf_shrink cfg s c o :
  staging_wf cfg s -> c `sublist_of` sg_critical s -> o `sublist_of` sg_operational s ->
  staging_wf cfg (set_lanes c o (sg_enqueueSeq s) s).
Proof.
  intros W Hc Ho. assert (c ++ o `sublist_of` sg_critical s ++ sg_operational s) as Hco by by apply sublist_app.
  destruct W. constructor; cbn; try done.
  - apply sublist_length in Hc. lia.
  - apply sublist_length in Ho. lia.
  - by eapply Forall_sublist_of.
  - eapply sublist_NoDup; [done|]. by apply fmap_sublist.
  - by eapply ordpairs_sublist.
  - by eapply ordpairs_sublist.
  - by eapply Forall_sublist_of.
Qed.

Lemma wf_push cfg s e :
  staging_wf cfg s -> room 1 s -> (length (sg_critical s) < sc_criticalDepth cfg)%nat ->
  qe_seq e = sg_enqueueSeq s -> (qe_evictable e = true -> ~ must_deliver e) ->
  staging_wf cfg (set_lanes (sg_critical s ++ [e]) (sg_operational s) (next_seq s) s).
Proof.
  intros W Hr Hlen He Hev. rewrite next_seq_room by (try apply W; done).
  assert ((sg_critical s ++ [e]) ++ sg_operational s ≡ₚ e :: (sg_critical s ++ sg_operational s)) as HP
    by (rewrite <- app_assoc; symmetry; apply Permutation_middle).
  destruct W. constructor; cbn [sg_critical sg_operational sg_enqueueSeq sg_overflow sg_refusedPending set_lanes]; try done; try lia.
  - rewrite length_app. cbn. lia.
  - rewrite HP. constructor; [lia|]. eapply Forall_impl; [done|]. cbn. lia.
  - rewrite (fmap_Permutation qe_seq _ _ HP). cbn. constructor; [|done].
    rewrite list_elem_of_fmap. intros (x & Hx & Hin). eapply Forall_forall in wf_seqs0; [|done]. lia.
  - apply ordpairs_snoc; [done|]. apply Forall_app in wf_seqs0 as [Hc _].
    eapply Forall_impl; [exact Hc|]. unfold older. intros x Hx. cbn in Hx. lia.
  - apply Forall_app. by split; [|constructor].
Qed.

Lemma wf_insert cfg s e :
  staging_wf cfg s -> room 1 s -> (length (sg_operational s) < sc_operationalDepth cfg)%nat ->
  qe_seq e = sg_enqueueSeq s ->
  staging_wf cfg (set_lanes (sg_critical s) (insertOperationalOrdered e (sg_operational s)) (next_seq s) s).
Proof.
  intros W Hr Hlen He. rewrite next_seq_room by (try apply W; done).
  pose proof (insert_perm e (sg_operational s)) as HP.
  assert (sg_critical s ++ insertOperationalOrdered e (sg_operational s) ≡ₚ e :: (sg_critical s ++ sg_operational s)) as HP'
    by (rewrite HP; symmetry; apply Permutation_middle).
  destruct W. constructor; cbn [sg_critical sg_operational sg_enqueueSeq sg_overflow sg_refusedPending set_lanes]; try done; try lia.
  - rewrite HP. cbn. lia.
  - rewrite HP'. constructor; [lia|]. eapply Forall_impl; [done|]. cbn. lia.
  - rewrite (fmap_Permutation qe_seq _ _ HP'). cbn. constructor; [|done].
    rewrite list_elem_of_fmap. intros (x & Hx & Hin). eapply Forall_forall in wf_seqs0; [|done]. lia.
  - apply insert_ordered; [done|]. apply Forall_app in wf_seqs0 as [_ Ho].
    eapply Forall_impl; [exact Ho|]. cbn. lia.
Qed.

Lemma wf_pending_sub cfg s p m :
  staging_wf cfg s -> p `sublist_of` sg_refusedPending s -> staging_wf cfg (set_refused (sg_overflow s) p m s).
Proof.
  intros W Hp. destruct W. constructor; cbn; try done.
  - apply sublist_length in Hp. lia.
  - by eapply Forall_sublist_of.
  - by eapply ordpairs_sublist.
  - intros Hne. apply wf_pending_raised0. intros E. rewrite E in Hp. by apply sublist_nil_r in Hp.
Qed.

Lemma wf_bump cfg s a d e l : staging_wf cfg s -> staging_wf cfg (bump a d e l s).
Proof. by intros []. Qed.

Lemma wf_drop_superseded cfg s e : staging_wf cfg s -> staging_wf cfg (drop_superseded e s).
Proof. intros W. apply wf_pending_sub; [done|]. rewrite drop_superseded_eq. apply sublist_filter. Qed.

#[export] Hint Resolve wf_bump wf_drop_superseded : safety_core.

Lemma room_le n m s : n <= m -> room m s -> room n s.
Proof. unfold room. lia. Qed.

(** Admission to a full lane. *)
Lemma wf_full_lane cfg s e :
  staging_wf cfg s -> room 1 s -> (sc_criticalDepth cfg <= length (sg_critical s))%nat -> must_deliver e ->
  qe_evictable e = false -> staging_wf cfg (admit_to_full_lane e s).1.
Proof.
  intros W Hr Hlen Hm He. unfold admit_to_full_lane.
  destruct (NvPSSPsdCriticalLaneVictim (sg_critical s) WIRE_BATCH) as [v|] eqn:Ev.
  - apply victim_spec in Ev as [Hv (x & Hx & _)]. apply wf_bump, wf_drop_superseded.
    assert (staging_wf cfg (set_lanes (delete v (sg_critical s)) (sg_operational s) (sg_enqueueSeq s) s)) as W'
      by (apply wf_shrink; [done|apply sublist_delete|done]).
    apply (wf_push cfg _ _ W'); cbn; [done| |done|by rewrite He].
    rewrite length_delete by eauto. destruct W. lia.
  - assert (pending_ok NVPSS_PSD_REFUSED_PENDING_MAX (sg_refusedPending s) (sg_refusedPending s)) as Hp
      by (destruct W; by constructor).
    apply (retain_ok _ _ _ e) in Hp.
    assert (Forall must_deliver (NvPSSPsdRetainRefused (sg_refusedPending s) e NVPSS_PSD_REFUSED_PENDING_MAX).1) as Hf.
    { eapply Forall_sublist_of; [apply Hp|]. apply Forall_app. split; [apply W|by constructor]. }
    destruct (NvPSSPsdRetainRefused _ _ _) as [p b]. apply wf_bump. cbn [fst] in *. destruct Hp, W, Hr.
    constructor; cbn; try done. rewrite u64_small by (unfold is_u64; lia). lia.
Qed.

(** A producer marks only ordinary events evictable. *)
Definition enqueue_ok (q : Enqueue) : Prop :=
  en_evictable q = true -> NvPSSPsdIsMustDeliverReport (ev_type (en_event q)) = false.

Lemma evictable_ok e b : en_evictable e = NvPSSPsdEvictable (en_event e) b -> enqueue_ok e.
Proof. unfold enqueue_ok, NvPSSPsdEvictable. intros -> [H _]%andb_true_iff. by apply negb_true_iff in H. Qed.

Lemma wf_enqueue cfg s q : staging_wf cfg s -> room 1 s -> enqueue_ok q -> staging_wf cfg (enqueue cfg s q).
Proof.
  intros W Hr Hq. unfold enqueue, enqueuePsdFusedEvent.
  destruct q as [[] c ev evict t]; cbn [en_priority en_event en_evictable] in *; unfold enqueue_ok in Hq; cbn in Hq.
  - rewrite bool_decide_false by done. cbn [lane_of negb andb].
    destruct (Nat.ltb_spec (length (sg_critical s)) (sc_criticalDepth cfg)) as [Hl|Hl].
    + apply wf_bump, wf_drop_superseded, wf_push; try done. cbn. intros E. unfold must_deliver. cbn. by rewrite Hq.
    + destruct (NvPSSPsdIsMustDeliverReport (ev_type ev)) eqn:Em; [|by apply wf_bump].
      assert (evict = false) as -> by (destruct evict; [by specialize (Hq eq_refl)|done]).
      match goal with |- context [admit_to_full_lane ?e s] =>
        pose proof (wf_full_lane cfg s e W Hr Hl Em eq_refl) as W' end.
      destruct (admit_to_full_lane _ s) as [s' b]. cbn [fst] in W'. destruct b; by apply wf_bump.
  - rewrite bool_decide_true by done. cbn [lane_of negb andb].
    destruct (Nat.ltb_spec (length (sg_operational s)) (sc_operationalDepth cfg)) as [Hl|Hl]; [|by apply wf_bump].
    by apply wf_bump, wf_insert.
Qed.

(** What one enqueue does to the counters and the pending list. *)
Record enqueue_effect (n : Z) (s s' : Staging) : Prop := {
  ee_seq : sg_enqueueSeq s <= sg_enqueueSeq s' <= sg_enqueueSeq s + n;
  ee_generation : ov_generation (sg_overflow s) <= ov_generation (sg_overflow s') <= ov_generation (sg_overflow s) + n;
  ee_delivered : ov_deliveredGeneration (sg_overflow s') = ov_deliveredGeneration (sg_overflow s);
  ee_pending : ov_generation (sg_overflow s') = ov_generation (sg_overflow s) ->
    sg_refusedPending s' `sublist_of` sg_refusedPending s;
}.

Lemma effect_refl n s : 0 <= n -> enqueue_effect n s s.
Proof. constructor; [lia..|done|done]. Qed.

Lemma effect_trans n m s1 s2 s3 : enqueue_effect n s1 s2 -> enqueue_effect m s2 s3 -> enqueue_effect (n + m) s1 s3.
Proof.
  intros [] []. constructor; [lia|lia|congruence|]. intros E. etransitivity; [apply ee_pending1|apply ee_pending0]; lia.
Qed.

Lemma effect_bump n s s' a d e l : enqueue_effect n s s' -> enqueue_effect n s (bump a d e l s').
Proof. by intros []. Qed.

Lemma effect_drop n s s' e : enqueue_effect n s s' -> enqueue_effect n s (drop_superseded e s').
Proof.
  intros []. constructor; cbn; [done..|]. intros E. rewrite drop_superseded_eq.
  etransitivity; [apply sublist_filter|by apply ee_pending0].
Qed.

Lemma effect_lanes s c o : 0 <= sg_enqueueSeq s -> room 1 s -> enqueue_effect 1 s (set_lanes c o (next_seq s) s).
Proof. intros ? Hr. constructor; cbn; [rewrite next_seq_room by done|..]; try done; lia. Qed.

Lemma effect_raise s p m :
  0 <= ov_generation (sg_overflow s) -> room 1 s ->
  enqueue_effect 1 s (set_refused (overflow_raise (sg_overflow s)).1 p m s).
Proof.
  intros ? [_ Hg]. assert (u64 (ov_generation (sg_overflow s) + 1) = ov_generation (sg_overflow s) + 1) as E
    by (apply u64_small; unfold is_u64; lia).
  constructor; cbn; [lia|lia|done|lia].
Qed.

Lemma enqueue_effect_1 cfg s q :
  staging_wf cfg s -> room 1 s -> enqueue_effect 1 s (enqueue cfg s q).
Proof.
  intros W Hr. assert (0 <= sg_enqueueSeq s) by apply W.
  assert (0 <= ov_generation (sg_overflow s)) by (destruct W; lia).
  unfold enqueue, enqueuePsdFusedEvent, admit_to_full_lane.
  destruct (bool_decide _), (_ <? _)%nat; cbn [negb andb];
    try (by apply effect_bump, effect_lanes); try (by apply effect_bump, effect_drop, effect_lanes);
    [by apply effect_bump, effect_refl|].
  destruct (NvPSSPsdIsMustDeliverReport _); [|by apply effect_bump, effect_refl].
  destruct (NvPSSPsdCriticalLaneVictim _ _); [by apply effect_bump, effect_bump, effect_drop, effect_lanes|].
  destruct (NvPSSPsdRetainRefused _ _ _). by apply effect_bump, effect_bump, effect_raise.
Qed.

Lemma room_effect n m s s' : enqueue_effect n s s' -> room (n + m) s -> room m s'.
Proof. intros [] []. split; lia. Qed.

Lemma enqueue_all cfg s qs :
  staging_wf cfg s -> room (Z.of_nat (length qs)) s -> Forall enqueue_ok qs ->
  staging_wf cfg (fold_left (enqueue cfg) qs s) /\
  enqueue_effect (Z.of_nat (length qs)) s (fold_left (enqueue cfg) qs s).
Proof.
  revert s. induction qs as [|q qs IH]; intros s W Hr Hq; [by split; [|apply effect_refl]|].
  inversion_clear Hq. cbn [length fold_left] in *. rewrite Nat2Z.inj_succ, <- Z.add_1_l in *.
  assert (room 1 s) by (eapply room_le; [|exact Hr]; lia).
  pose proof (enqueue_effect_1 cfg s q W ltac:(done)) as E.
  destruct (IH (enqueue cfg s q)) as [W' E']; [by apply wf_enqueue|by eapply room_effect|done|].
  split; [done|by eapply effect_trans].
Qed.

(** Re-admission. *)
Lemma readmit_spec cfg s pending :
  staging_wf cfg s -> room (Z.of_nat (length pending)) s -> pending = sg_refusedPending s ->
  let s' := readmit (sc_criticalDepth cfg) pending s in
  staging_wf cfg s' /\ sg_overflow s' = sg_overflow s /\ sg_operational s' = sg_operational s /\
  (exists l, sg_critical s' = sg_critical s ++ l /\ Forall (fun e => sg_enqueueSeq s <= qe_seq e) l /\
     qe_event <$> sg_refusedPending s = (qe_event <$> l) ++ (qe_event <$> sg_refusedPending s')) /\
  sg_enqueueSeq s <= sg_enqueueSeq s' <= sg_enqueueSeq s + Z.of_nat (length pending).
Proof.
  revert s. induction pending as [|e rest IH]; intros s W Hr Hp; cbn [readmit].
  - split_and!; cbn; try done; try lia; [apply wf_pending_sub; [done|apply sublist_nil_l]|].
    exists []. rewrite app_nil_r, <- Hp. by split_and!.
  - destruct (Nat.ltb_spec (length (sg_critical s)) (sc_criticalDepth cfg)).
    2:{ split_and!; cbn [sg_overflow sg_operational sg_critical sg_refusedPending sg_enqueueSeq set_refused]; try done; try lia.
        - apply wf_pending_sub; [done|by rewrite Hp].
        - exists []. rewrite app_nil_r, <- Hp. by split_and!. }
    cbn [length] in Hr. rewrite Nat2Z.inj_succ in Hr.
    assert (room 1 s) as Hr1 by (eapply room_le; [|exact Hr]; lia).
    set (x := with_seq (sg_enqueueSeq s) false e).
    set (s1 := set_refused _ rest _ _).
    assert (staging_wf cfg s1) as W1.
    { apply (wf_pending_sub cfg (set_lanes (sg_critical s ++ [x]) (sg_operational s) (next_seq s) s)); [by apply wf_push|].
      cbn. rewrite <- Hp. by apply sublist_cons. }
    assert (sg_enqueueSeq s1 = sg_enqueueSeq s + 1) as Hs1 by (apply next_seq_room; [apply W|done]).
    destruct (IH s1) as (W' & Ho & Hop & (l & Hc & Hl & Hev) & Hseq);
      [done|destruct Hr; split; [rewrite Hs1|cbn]; lia|done|].
    rewrite Ho, Hop. split_and!; [done|done|done| |cbn [length]; lia|cbn [length]; lia].
    exists (x :: l). rewrite Hc. cbn [sg_critical s1 set_refused set_lanes]. rewrite <- app_assoc. split_and!; [done| |].
    + constructor; [cbn; lia|]. eapply Forall_impl; [exact Hl|]. intros y Hy. cbv beta in *. lia.
    + rewrite <- Hp. cbn [fmap list_fmap app]. exact (f_equal (cons (qe_event e)) Hev).
Qed.

Lemma wf_overflow cfg s l :
  staging_wf cfg s -> (sg_refusedPending s <> [] -> ov_active l = true) ->
  0 <= ov_deliveredGeneration l <= ov_generation l ->
  staging_wf cfg (set_refused l (sg_refusedPending s) (sg_refusedReadmittedSeqMax s) s).
Proof. by intros [] ? ?. Qed.

Lemma outstanding_pending s : refused_outstanding s = false -> sg_refusedPending s = [].
Proof.
  unfold refused_outstanding. intros [H _]%orb_false_iff. apply negb_false_iff, Nat.eqb_eq in H.
  by apply length_zero_iff_nil.
Qed.

(** A refusal between the reading of the depth and the clear is not cleared. *)
Lemma clear_not_pending depth cap out s1 s2 n :
  enqueue_effect n s1 s2 -> (out = false -> sg_refusedPending s1 = []) ->
  ov_deliveredGeneration (sg_overflow s1) <= ov_generation (sg_overflow s1) ->
  (sg_refusedPending s2 <> [] -> ov_active (sg_overflow s2) = true) ->
  sg_refusedPending s2 <> [] -> ov_active (clearIfDrained depth cap out (sg_overflow s2)).1 = true.
Proof.
  intros [] Hout Hd Ha Hne. unfold clearIfDrained. rewrite (Ha Hne). cbn [negb orb].
  destruct out; [rewrite orb_true_r; by apply Ha|]. specialize (Hout eq_refl). rewrite orb_false_r.
  destruct (Z.ltb_spec (ov_deliveredGeneration (sg_overflow s2)) (ov_generation (sg_overflow s2)));
    [rewrite orb_true_r; by apply Ha|].
  rewrite Hout in ee_pending0. exfalso. apply Hne. apply sublist_nil_r, ee_pending0. lia.
Qed.

Definition commit_cost (during : list Enqueue) : Z :=
  Z.of_nat NVPSS_PSD_REFUSED_PENDING_MAX + Z.of_nat (length during).

Lemma wf_maybe_clear cfg during s :
  staging_wf cfg s -> room (commit_cost during) s -> Forall enqueue_ok during ->
  staging_wf cfg (maybeClearCriticalLaneOverflow cfg during s).
Proof.
  intros W Hr Hd. unfold maybeClearCriticalLaneOverflow, commit_cost in *.
  destruct (negb (ov_active (sg_overflow s))); [done|].
  assert (length (sg_refusedPending s) <= NVPSS_PSD_REFUSED_PENDING_MAX)%nat as Hp by apply W.
  destruct (readmit_spec cfg s (sg_refusedPending s) W) as (W1 & Ho & _ & _ & Hseq); [by eapply room_le; [|exact Hr]; lia|done|].
  set (s1 := readmit _ _ s) in *.
  destruct (enqueue_all cfg s1 during) as [W2 E]; [done| |done|].
  { destruct Hr. split; [|rewrite Ho]; lia. }
  apply wf_overflow; [done| |].
  - eapply clear_not_pending; [exact E|apply outstanding_pending|apply W1|apply W2].
  - unfold clearIfDrained. destruct (_ || _); apply W2.
Qed.

(** ** Reachable lanes *)

(** What an operation needs: counters that do not wrap, producers that mark
    ordinary events only, and an acknowledged stamp that was once issued. *)
Definition op_ok (s : Staging) (op : StagingOp) : Prop :=
  match op with
  | OpEnqueue q => room 1 s /\ enqueue_ok q
  | OpStatusNoop _ => room 1 s
  | OpStampDelivered g => g <= ov_generation (sg_overflow s)
  | OpCommit _ _ during => room (commit_cost during) s /\ Forall enqueue_ok during
  end.

Lemma wf_step cfg s op : staging_wf cfg s -> op_ok s op -> staging_wf cfg (staging_step cfg s op).
Proof.
  intros W Hop. destruct op as [q|ts|g|p seqs during]; cbn [staging_step op_ok] in *.
  - destruct Hop. by apply wf_enqueue.
  - unfold enqueueStatusNoopEvent.
    destruct (Nat.ltb_spec (length (sg_operational s)) (sc_operationalDepth cfg)); [|done]. by apply wf_insert.
  - apply wf_overflow; [done| |]; unfold noteStampDelivered; destruct W; cases; try done; lia.
  - destruct Hop as [Hr Hd]. unfold commitQueuedEvents. destruct seqs as [|w seqs]; [done|].
    destruct p; apply wf_maybe_clear; try done; apply wf_shrink; try done; apply erase_seqs_sublist.
Qed.

Inductive staging_reachable (cfg : StagingConfig) : Staging -> Prop :=
  | sr_init : staging_reachable cfg initial_staging
  | sr_step s op : staging_reachable cfg s -> op_ok s op -> staging_reachable cfg (staging_step cfg s op).

Lemma initial_staging_wf cfg : staging_wf cfg initial_staging.
Proof. constructor; cbn; try done; try lia; try constructor. Qed.

Lemma reachable_wf cfg s : staging_reachable cfg s -> staging_wf cfg s.
Proof. induction 1; [apply initial_staging_wf|by apply wf_step]. Qed.

(** ** Lemmas: removal is exact *)

Lemma erase_first_filter w (lane : list PsdQueuedEvent) :
  NoDup (qe_seq <$> lane) -> erase_first (fun e => qe_seq e =? w) lane = filter (fun e => qe_seq e <> w) lane.
Proof.
  induction lane as [|e lane IH]; [done|]. cbn [fmap list_fmap erase_first]. intros [Hn Hd]%NoDup_cons.
  destruct (Z.eqb_spec (qe_seq e) w) as [E|E].
  - rewrite filter_cons_False by tauto. symmetry. apply filter_keeps_all, Forall_forall. intros x Hx E'. apply Hn.
    rewrite E, <- E'. apply list_elem_of_fmap. by exists x.
  - rewrite filter_cons_True by done. f_equal. by apply IH.
Qed.

Lemma filter_unique (P : PsdQueuedEvent -> Prop) `{!forall x, Decision (P x)} lane :
  NoDup (qe_seq <$> lane) -> NoDup (qe_seq <$> filter P lane).
Proof. intros Hd. eapply sublist_NoDup; [exact Hd|]. apply fmap_sublist, sublist_filter. Qed.

Lemma erase_seqs_filter seqs lane :
  NoDup (qe_seq <$> lane) -> erase_seqs seqs lane = filter (fun e => qe_seq e ∉ seqs) lane.
Proof.
  unfold erase_seqs. revert lane. induction seqs as [|w seqs IH]; intros lane Hd; cbn [fold_left].
  - symmetry. apply filter_keeps_all, Forall_forall. intros x _. apply not_elem_of_nil.
  - rewrite erase_first_filter by done. rewrite IH by by apply filter_unique. rewrite list_filter_filter.
    apply list_filter_iff. intros x. rewrite not_elem_of_cons. tauto.
Qed.

Lemma lane_unique cfg s p : staging_wf cfg s -> NoDup (qe_seq <$> lane_of p s).
Proof.
  intros W. destruct W. rewrite fmap_app in wf_unique0. apply NoDup_app in wf_unique0 as (? & _ & ?). by destruct p.
Qed.

(** The lanes after re-admission and clear, nobody interfering. *)
Lemma maybe_clear_lanes cfg s :
  staging_wf cfg s -> room (commit_cost []) s ->
  let s' := maybeClearCriticalLaneOverflow cfg [] s in
  sg_operational s' = sg_operational s /\
  exists l, sg_critical s' = sg_critical s ++ l /\
    qe_event <$> sg_refusedPending s = (qe_event <$> l) ++ (qe_event <$> sg_refusedPending s').
Proof.
  intros W Hr. unfold maybeClearCriticalLaneOverflow, commit_cost in *.
  destruct (negb (ov_active (sg_overflow s))); [split; [done|]; exists []; by rewrite app_nil_r|].
  assert (length (sg_refusedPending s) <= NVPSS_PSD_REFUSED_PENDING_MAX)%nat as Hp by apply W.
  destruct (readmit_spec cfg s (sg_refusedPending s) W) as (_ & _ & Ho & (l & Hc & _ & He) & _);
    [by eapply room_le; [|exact Hr]; lia|done|].
  split; [exact Ho|]. exists l. by split.
Qed.

(** ** Lemmas: an enqueue keeps what is staged *)

Lemma full_lane_keeps cfg s e :
  staging_wf cfg s -> 
  let s' := (admit_to_full_lane e s).1 in
  take WIRE_BATCH (sg_critical s) `prefix_of` sg_critical s' /\
  forall x, x ∈ sg_critical s -> x ∈ sg_critical s' \/
    qe_evictable x = true /\ (exists i, (WIRE_BATCH <= i)%nat /\ sg_critical s !! i = Some x).
Proof.
  intros W. unfold admit_to_full_lane.
  destruct (NvPSSPsdCriticalLaneVictim (sg_critical s) WIRE_BATCH) as [v|] eqn:Ev.
  - apply victim_spec in Ev as [Hv (x & Hx & Hev)]. cbn. split.
    + rewrite delete_take_drop. replace (take WIRE_BATCH (sg_critical s)) with (take WIRE_BATCH (take v (sg_critical s)))
        by (rewrite take_take; f_equal; lia).
      apply prefix_app_r, prefix_app_r, prefix_take.
    + intros y Hy. apply list_elem_of_lookup in Hy as [i Hi]. destruct (decide (i = v)) as [->|Hne].
      * right. rewrite Hx in Hi. injection Hi as ->. split; [done|]. exists v. by split; [lia|].
      * left. rewrite delete_take_drop. apply elem_of_app. left. apply elem_of_app.
        destruct (decide (i < v)%nat).
        -- left. eapply list_elem_of_lookup_2. rewrite lookup_take_lt by done. exact Hi.
        -- right. eapply (list_elem_of_lookup_2 _ (i - S v)). rewrite lookup_drop.
           replace (S v + (i - S v))%nat with i by lia. exact Hi.
  - destruct (NvPSSPsdRetainRefused _ _ _). cbn. split; [|by left]. apply prefix_take.
Qed.

(** What an enqueue may take away: one evictable entry behind the wire batch. *)
Definition kept (s s' : Staging) : Prop :=
  (forall x, x ∈ sg_critical s -> x ∈ sg_critical s' \/ qe_evictable x = true) /\
  (forall x, x ∈ sg_operational s -> x ∈ sg_operational s') /\
  take WIRE_BATCH (sg_critical s) `prefix_of` sg_critical s'.

Lemma kept_grows s s' :
  sg_critical s `prefix_of` sg_critical s' -> (forall x, x ∈ sg_operational s -> x ∈ sg_operational s') -> kept s s'.
Proof.
  intros [l Hc] Ho. split_and!; [|done|].
  - intros x Hx. left. rewrite Hc. apply elem_of_app. by left.
  - rewrite Hc. etransitivity; [apply prefix_take|apply prefix_app_r]. done.
Qed.

Lemma kept_enqueue cfg s q : staging_wf cfg s -> kept s (enqueue cfg s q).
Proof.
  intros W. unfold enqueue, enqueuePsdFusedEvent.
  destruct (bool_decide _); destruct (_ <? _)%nat; cbn [negb andb].
  - apply kept_grows; [done|]. cbn. intros x Hx. rewrite insert_perm. by right.
  - by apply kept_grows.
  - apply kept_grows; [|done]. apply prefix_app_r. done.
  - destruct (NvPSSPsdIsMustDeliverReport _); [|by apply kept_grows].
    match goal with |- context [admit_to_full_lane ?e s] => pose proof (full_lane_keeps cfg s e W) as [Hp Hk];
      assert (sg_operational (admit_to_full_lane e s).1 = sg_operational s) as Ho end.
    { unfold admit_to_full_lane. destruct (NvPSSPsdCriticalLaneVictim _ _); [done|]. by destruct (NvPSSPsdRetainRefused _ _ _). }
    destruct (admit_to_full_lane _ s) as [s' b]. cbn [fst] in *.
    assert (kept s s') as K; [|by destruct b].
    split_and!; [|by rewrite Ho|done]. intros x Hx. destruct (Hk x Hx) as [?|[? _]]; auto.
Qed.

Lemma kept_enqueue_all cfg qs s :
  staging_wf cfg s -> room (Z.of_nat (length qs)) s -> Forall enqueue_ok qs ->
  forall x, (x ∈ sg_critical s -> qe_evictable x = false -> x ∈ sg_critical (fold_left (enqueue cfg) qs s)) /\
            (x ∈ sg_operational s -> x ∈ sg_operational (fold_left (enqueue cfg) qs s)).
Proof.
  revert s. induction qs as [|q qs IH]; intros s W Hr Hq x; [done|].
  inversion_clear Hq. cbn [length fold_left] in *. rewrite Nat2Z.inj_succ, <- Z.add_1_l in Hr.
  assert (room 1 s) by (eapply room_le; [|exact Hr]; lia).
  destruct (kept_enqueue cfg s q W) as (Kc & Ko & _).
  destruct (IH (enqueue cfg s q)) with (x := x) as [IHc IHo];
    [by apply wf_enqueue|by eapply room_effect; [apply enqueue_effect_1|]|done|].
  split; [|auto]. intros Hx Hev. destruct (Kc x Hx); [auto|congruence].
Qed.

Lemma kept_maybe_clear cfg during s :
  staging_wf cfg s -> room (commit_cost during) s -> Forall enqueue_ok during ->
  forall x, (x ∈ sg_critical s -> qe_evictable x = false ->
             x ∈ sg_critical (maybeClearCriticalLaneOverflow cfg during s)) /\
            (x ∈ sg_operational s -> x ∈ sg_operational (maybeClearCriticalLaneOverflow cfg during s)).
Proof.
  intros W Hr Hd x. unfold maybeClearCriticalLaneOverflow, commit_cost in *.
  destruct (negb (ov_active (sg_overflow s))); [done|].
  assert (length (sg_refusedPending s) <= NVPSS_PSD_REFUSED_PENDING_MAX)%nat as Hp by apply W.
  destruct (readmit_spec cfg s (sg_refusedPending s) W) as (W1 & Ho & Hop & (l & Hc & _) & Hseq);
    [by eapply room_le; [|exact Hr]; lia|done|].
  set (s1 := readmit _ _ s) in *.
  destruct (kept_enqueue_all cfg during s1 W1) with (x := x) as [Kc Ko]; [|done|].
  { destruct Hr. split; [|rewrite Ho]; lia. }
  split; [|by rewrite <- Hop]. intros Hx Hev. apply Kc; [|done]. rewrite Hc. apply elem_of_app. by left.
Qed.

Lemma erase_seqs_keeps x seqs lane :
  NoDup (qe_seq <$> lane) -> x ∈ lane -> qe_seq x ∉ seqs -> x ∈ erase_seqs seqs lane.
Proof. intros Hd Hx Hn. rewrite erase_seqs_filter by done. by apply list_elem_of_filter. Qed.

(** Lemmas: a must-deliver report. *)

Lemma drop_superseded_slots e s :
  Forall (fun p => NvPSSPsdSameVerdictSlot (qe_event p) e = false) (sg_refusedPending (drop_superseded e s)).
Proof.
  cbn. rewrite drop_superseded_eq. apply Forall_forall. intros x Hx. by apply list_elem_of_filter in Hx as [Hx _].
Qed.

Lemma victim_none (lane : list PsdQueuedEvent) front :
  NvPSSPsdCriticalLaneVictim lane front = None ->
  forall i x, (front <= i)%nat -> lane !! i = Some x -> qe_evictable x = false.
Proof.
  unfold NvPSSPsdCriticalLaneVictim.
  assert (forall n, victim_scan lane front n = None ->
            forall i x, (front <= i < n)%nat -> lane !! i = Some x -> qe_evictable x = false) as Hn.
  { induction n as [|n IH]; intros Hnone i x Hi Hx; [lia|]. cbn [victim_scan] in Hnone.
    destruct (Nat.ltb_spec n front); [lia|].
    destruct (decide (i = n)) as [->|Hne].
    - rewrite Hx in Hnone. change (evictable x) with (qe_evictable x) in Hnone. by destruct (qe_evictable x).
    - apply (IH) with (i := i); [|lia|done]. destruct (lane !! n) as [y|]; [|done]. by destruct (evictable y). }
  intros Hnone i x Hi Hx. apply (Hn _ Hnone i x); [|done]. split; [done|]. by eapply lookup_lt_Some.
Qed.

(** Queued at the back of the lane, with no older verdict of its slot pending. *)
Definition report_queued (e : FusedSafetyEvent) (s' : Staging) : Prop :=
  (exists x, last (sg_critical s') = Some x /\ qe_event x = e /\ qe_evictable x = false) /\
  Forall (fun p => NvPSSPsdSameVerdictSlot (qe_event p) e = false) (sg_refusedPending s').

(** Refused by a lane with nothing to evict: the overflow is raised anew and the
    report is kept, or counted as lost when the pending list is full. *)
Definition report_refused (e : FusedSafetyEvent) (s s' : Staging) : Prop :=
  sg_critical s' = sg_critical s /\
  (forall i x, (WIRE_BATCH <= i)%nat -> sg_critical s !! i = Some x -> qe_evictable x = false) /\
  ov_active (sg_overflow s') = true /\ ov_generation (sg_overflow s') = ov_generation (sg_overflow s) + 1 /\
  ((exists x, last (sg_refusedPending s') = Some x /\ qe_event x = e) \/
   (length (sg_refusedPending s') = NVPSS_PSD_REFUSED_PENDING_MAX /\ sg_refusedLost s' = u64 (u64 (sg_refusedLost s + 1) + 0))).

Lemma full_lane_report cfg e s :
  staging_wf cfg s -> room 1 s -> qe_evictable e = false ->
  let '(s', queued) := admit_to_full_lane e s in
  if queued : bool then report_queued (qe_event e) s'
  else report_refused (qe_event e) s (bump 0 1 0 0 s').
Proof.
  intros W [_ Hg] He. unfold admit_to_full_lane.
  destruct (NvPSSPsdCriticalLaneVictim (sg_critical s) WIRE_BATCH) as [v|] eqn:Ev.
  - split; [|apply drop_superseded_slots]. eexists. cbn. rewrite last_snoc. by split_and!.
  - destruct (NvPSSPsdRetainRefused (sg_refusedPending s) e NVPSS_PSD_REFUSED_PENDING_MAX) as [p b] eqn:Er.
    split_and!; [done|by eapply victim_none|done|cbn; apply u64_small; destruct W; unfold is_u64; lia|].
    revert Er. unfold NvPSSPsdRetainRefused. destruct (Nat.leb_spec NVPSS_PSD_REFUSED_PENDING_MAX
      (length (NvPSSPsdDropSupersededRefused (sg_refusedPending s) (entry_event e)).1)) as [Hl|Hl]; intros [= <- <-].
    + right. split; [|done]. cbn.
      assert (length (NvPSSPsdDropSupersededRefused (sg_refusedPending s) (entry_event e)).1
              <= length (sg_refusedPending s))%nat by (rewrite drop_superseded_eq; apply length_filter).
      destruct W. lia.
    + left. exists e. cbn. by rewrite last_snoc.
Qed.

(** ** Properties *)

(** Over every sequence of enqueues, no-ops, acknowledged stamps and
    commits, with producers interleaved: neither lane exceeds its depth, every
    staged entry has its own sequence number, the critical lane is FIFO, the
    operational lane is in order of event time with ties broken by arrival,
    only ordinary events are evictable, and while a refused report is pending
    the overflow is raised. *)
Theorem staging_invariant cfg s : staging_reachable cfg s -> staging_wf cfg s.
Proof. apply reachable_wf. Qed.

(** A commit removes the entries its ticket names and no others: the
    operational lane keeps every other entry in order, and the critical lane
    does too, followed by the oldest of the refused reports as far as the lane
    has room, in order. *)
Theorem commit_exact cfg s seqs :
  staging_reachable cfg s -> room (commit_cost []) s -> seqs <> [] ->
  let op := commitQueuedEvents cfg PRIORITY_OPERATIONAL seqs [] s in
  let crit := commitQueuedEvents cfg PRIORITY_CRITICAL seqs [] s in
  sg_operational op = filter (fun e => qe_seq e ∉ seqs) (sg_operational s) /\
  sg_operational crit = sg_operational s /\
  exists l, sg_critical crit = filter (fun e => qe_seq e ∉ seqs) (sg_critical s) ++ l /\
    qe_event <$> sg_refusedPending s = (qe_event <$> l) ++ (qe_event <$> sg_refusedPending crit).
Proof.
  intros W%reachable_wf Hr Hne. unfold commitQueuedEvents. destruct seqs as [|w seqs]; [done|]. cbv zeta.
  pose proof (erase_seqs_sublist (w :: seqs)) as Hs.
  rewrite <- (erase_seqs_filter (w :: seqs) (sg_operational s)) by apply (lane_unique cfg s PRIORITY_OPERATIONAL W).
  rewrite <- (erase_seqs_filter (w :: seqs) (sg_critical s)) by apply (lane_unique cfg s PRIORITY_CRITICAL W).
  split.
  - apply (maybe_clear_lanes cfg (set_lanes (sg_critical s) (erase_seqs (w :: seqs) (sg_operational s)) (sg_enqueueSeq s) s));
      [by apply wf_shrink|done].
  - apply (maybe_clear_lanes cfg (set_lanes (erase_seqs (w :: seqs) (sg_critical s)) (sg_operational s) (sg_enqueueSeq s) s));
      [by apply wf_shrink|done].
Qed.

(** What is staged stays staged: a non-evictable entry of the critical lane
    and any entry of the operational lane is still there after every operation
    that is not a commit naming it; and an enqueue leaves the entries of the
    next wire batch at the front of the critical lane, so that a batch under
    retry is still recognised. *)
Theorem staged_until_committed cfg s op :
  staging_reachable cfg s -> op_ok s op ->
  (forall x p, x ∈ lane_of p s -> (p = PRIORITY_CRITICAL -> qe_evictable x = false) ->
     x ∈ lane_of p (staging_step cfg s op) \/
     exists seqs during, op = OpCommit p seqs during /\ qe_seq x ∈ seqs) /\
  (forall q, op = OpEnqueue q -> take WIRE_BATCH (sg_critical s) `prefix_of` sg_critical (staging_step cfg s op)).
Proof.
  intros W%reachable_wf Hop. split.
  - intros x p Hx Hev. destruct op as [q|ts|g|p' seqs during]; cbn [staging_step op_ok] in *.
    + left. destruct (kept_enqueue cfg s q W) as (Kc & Ko & _). destruct p; cbn in *; [|auto].
      destruct (Kc x Hx); [done|]. rewrite Hev in *; done.
    + left. unfold enqueueStatusNoopEvent. destruct (_ <? _)%nat; [|done]. destruct p; cbn in *; [done|].
      rewrite insert_perm. by right.
    + left. by destruct p.
    + destruct Hop as [Hr Hd]. destruct seqs as [|w seqs]; [by left|].
      destruct (decide (p = p' /\ qe_seq x ∈ w :: seqs)) as [[-> Hin]|Hn]; [right; by exists (w :: seqs), during|].
      left. cbn [commitQueuedEvents].
      match goal with |- context [maybeClearCriticalLaneOverflow cfg during ?s1] =>
        assert (staging_wf cfg s1 /\ room (commit_cost during) s1 /\ x ∈ lane_of p s1) as (W1 & Hr1 & Hx1) end.
      { pose proof (lane_unique cfg s p W) as Hd'. destruct p', p; cbn [lane_of sg_critical sg_operational set_lanes] in *;
          (split_and!; [by apply wf_shrink; auto using erase_seqs_sublist|exact Hr|]);
          try exact Hx; (apply erase_seqs_keeps; [done|done|tauto]). }
      destruct (kept_maybe_clear cfg during _ W1 Hr1 Hd x). destruct p; cbn [lane_of] in *; auto.
  - intros q ->. by destruct (kept_enqueue cfg s q W) as (_ & _ & ?).
Qed.

(** A must-deliver report (SW_FAIL or a trust verdict) is never lost in
    silence: the enqueue either puts it at the back of the critical lane as a
    non-evictable entry and discards pending verdicts it supersedes, or, when
    the lane is full and holds nothing evictable behind the next wire batch,
    raises the overflow anew and keeps the report pending, or counts it lost
    when that list is full. *)
Theorem must_deliver_report_accounted cfg s clientId e distrusted t :
  staging_reachable cfg s -> room 1 s -> NvPSSPsdIsMustDeliverReport (ev_type e) = true ->
  let '(s', queued) :=
    enqueuePsdFusedEvent cfg PRIORITY_CRITICAL clientId e (NvPSSPsdEvictable e distrusted) t s in
  if queued : bool then report_queued e s' else report_refused e s s'.
Proof.
  intros W%reachable_wf Hr Hm. unfold enqueuePsdFusedEvent. rewrite bool_decide_false by done. cbn [negb andb lane_of].
  assert (NvPSSPsdEvictable e distrusted = false) as -> by (unfold NvPSSPsdEvictable; by rewrite Hm).
  destruct (_ <? _)%nat.
  - split; [|apply drop_superseded_slots]. eexists. cbn. rewrite last_snoc. by split_and!.
  - rewrite Hm. match goal with |- context [admit_to_full_lane ?x s] => pose proof (full_lane_report cfg x s W Hr eq_refl) as H end.
    by destruct (admit_to_full_lane _ s) as [s' []].
Qed.

(** ** Witnesses *)

Definition small_config : StagingConfig := staging_config 8 8.

Definition report (id : Z) (type : EventType) : FusedSafetyEvent :=
  {| ev_id := id; ev_sensorIdentifier := replicate MAX_INDENTIFIER_LENGTH 0; ev_type := type; ev_cause := CAUSE_NONE;
     ev_severity := CRITICAL; ev_timestamp := id; ev_confidenceLevel := f32_one; ev_status := PASSTHROUGH;
     ev_fusionMetadata := zero_metadata |}.

Definition critical_report (id : Z) : StagingOp :=
  OpEnqueue {| en_priority := PRIORITY_CRITICAL; en_clientId := 0; en_event := report id SW_FAIL;
               en_evictable := false; en_queuedTrust := trusted |}.

Definition run_ops (cfg : StagingConfig) (ops : list StagingOp) : Staging :=
  fold_left (staging_step cfg) ops initial_staging.

(** Nine SW_FAILs into a lane of eight. *)
Definition full_staging : Staging := run_ops small_config (critical_report <$> [1; 2; 3; 4; 5; 6; 7; 8; 9]).

Lemma full_staging_reachable : staging_reachable small_config full_staging.
Proof.
  unfold full_staging, run_ops. rewrite <- fold_left_rev_right. cbn [rev app fmap list_fmap fold_right].
  repeat (apply sr_step; [|split; [vm_compute; by split|discriminate]]). apply sr_init.
Qed.

Lemma full_staging_room n : n <= 64 -> room n full_staging.
Proof. intros Hn. apply (room_le n 64); [done|]. vm_compute. by split. Qed.

Lemma staging_invariant_witness :
  staging_wf small_config full_staging /\ ov_active (sg_overflow full_staging) = true.
Proof. split; [apply (staging_invariant small_config), full_staging_reachable|vm_compute; reflexivity]. Defined.

Lemma commit_exact_witness :
  sg_operational (commitQueuedEvents small_config PRIORITY_OPERATIONAL [0; 1] [] full_staging) = [].
Proof.
  etransitivity.
  - exact (proj1 (commit_exact small_config full_staging [0; 1] full_staging_reachable
                    (full_staging_room _ ltac:(done)) ltac:(done))).
  - vm_compute. reflexivity.
Defined.

Lemma full_staging_op : op_ok full_staging (critical_report 10).
Proof. split; [by apply full_staging_room|discriminate]. Qed.

Lemma staged_until_committed_witness :
  take WIRE_BATCH (sg_critical full_staging)
    `prefix_of` sg_critical (staging_step small_config full_staging (critical_report 10)).
Proof.
  exact (proj2 (staged_until_committed small_config full_staging (critical_report 10)
                  full_staging_reachable full_staging_op) _ eq_refl).
Defined.

Lemma must_deliver_report_accounted_witness :
  report_refused (report 10 SW_FAIL) full_staging
    (enqueuePsdFusedEvent small_config PRIORITY_CRITICAL 0 (report 10 SW_FAIL)
       (NvPSSPsdEvictable (report 10 SW_FAIL) false) trusted full_staging).1.
Proof.
  exact (must_deliver_report_accounted small_config full_staging 0 (report 10 SW_FAIL) false trusted
           full_staging_reachable (full_staging_room 1 ltac:(done)) eq_refl).
Defined.
