(* ===== verification/Sender.v ===== *)
(** * The sender thread of the Physical Safety System daemon

    [managePsdSender] and what it calls, from [NvPSSSafetyEventManager.cpp]: one
    pass selects a lane, copies a batch into a DecisionRequest, transmits it
    with retries, and commits, retains or abandons the batch.

    [Sender] is the loop's local state with the members only this thread
    writes, and the lanes.  A pass is a function of its clock readings, of what
    the rest of the daemon answers ([Env]), of the outcome of each transmission
    and of the enqueues other threads make meanwhile.  The wait for the next
    wake-up is not modelled: a pass may follow at any time. *)

From S2P Require Import Prelude Protocol Crc Validate DeliveryFailSafe Staging.

(** ** Data *)

(** What [NvPSSDRPC] reports of its clients. *)
Record RpcView := {
  rv_mode : OperationalMode; (* getSafetyMonitorOperationalMode *)
  rv_presence : Z; (* sourcePresenceMask *)
  rv_unusable : Z; (* sourceInputUnusableMask *)
  rv_expected : Z; (* sourceExpectedMask *)
  rv_confirmed : Z; (* sourceInputConfirmedMask *)
}.

Record Env := {
  env_fusionActive : bool; (* fusionHealth_.active() *)
  env_rpc : option RpcView; (* rpcForOperationalMode_ *)
  env_trust : Z -> Z -> TrustState; (* QueryTrustState(pipelineID, clientID) *)
}.

Record Attempt := {
  atp_env : Env;
  atp_during : list Enqueue; (* enqueues since the attempt before *)
  atp_ok : bool; (* sendDecisionRequestToPSD returned NVPSSD_SUCCESS *)
}.

Record SenderConfig := {
  sc_staging : StagingConfig;
  sc_retryBudget : nat; (* pssToPsdRetryBudget_ *)
  sc_statusNoopIntervalNs : Z;
}.

Record Sender := {
  sm_staging : Staging;
  sm_delivery : NvPSSDeliveryState; (* psdDeliveryState_ *)
  sm_requestId : Z; (* psdRequestId *)
  sm_undeliverable : Z; (* psdUndeliverableDroppedCount_ *)
  sm_ledger : NvPSSPsdUndeliverableLedger; (* psdUndeliverableLedger_ *)
  sm_nextStatusNoopNs : Z;
  sm_gate : NvPSSPsdReleaseGate; (* operationalGate *)
  sm_sendRetryNotBeforeNs : Z;
  sm_retainedCritical : PsdBatchTicket; (* retainedTickets[] *)
  sm_retainedOperational : PsdBatchTicket;
  sm_criticalYieldPending : bool;
}.

Definition set_staging (x : Staging) (s : Sender) : Sender := {|
  sm_staging := x; sm_delivery := sm_delivery s; sm_requestId := sm_requestId s;
  sm_undeliverable := sm_undeliverable s; sm_ledger := sm_ledger s; sm_nextStatusNoopNs := sm_nextStatusNoopNs s;
  sm_gate := sm_gate s; sm_sendRetryNotBeforeNs := sm_sendRetryNotBeforeNs s;
  sm_retainedCritical := sm_retainedCritical s; sm_retainedOperational := sm_retainedOperational s;
  sm_criticalYieldPending := sm_criticalYieldPending s |}.

Definition set_delivery (x : NvPSSDeliveryState) (s : Sender) : Sender := {|
  sm_staging := sm_staging s; sm_delivery := x; sm_requestId := sm_requestId s;
  sm_undeliverable := sm_undeliverable s; sm_ledger := sm_ledger s; sm_nextStatusNoopNs := sm_nextStatusNoopNs s;
  sm_gate := sm_gate s; sm_sendRetryNotBeforeNs := sm_sendRetryNotBeforeNs s;
  sm_retainedCritical := sm_retainedCritical s; sm_retainedOperational := sm_retainedOperational s;
  sm_criticalYieldPending := sm_criticalYieldPending s |}.

Definition set_requestId (x : Z) (s : Sender) : Sender := {|
  sm_staging := sm_staging s; sm_delivery := sm_delivery s; sm_requestId := x;
  sm_undeliverable := sm_undeliverable s; sm_ledger := sm_ledger s; sm_nextStatusNoopNs := sm_nextStatusNoopNs s;
  sm_gate := sm_gate s; sm_sendRetryNotBeforeNs := sm_sendRetryNotBeforeNs s;
  sm_retainedCritical := sm_retainedCritical s; sm_retainedOperational := sm_retainedOperational s;
  sm_criticalYieldPending := sm_criticalYieldPending s |}.

Definition set_ledger (n : Z) (x : NvPSSPsdUndeliverableLedger) (s : Sender) : Sender := {|
  sm_staging := sm_staging s; sm_delivery := sm_delivery s; sm_requestId := sm_requestId s;
  sm_undeliverable := n; sm_ledger := x; sm_nextStatusNoopNs := sm_nextStatusNoopNs s;
  sm_gate := sm_gate s; sm_sendRetryNotBeforeNs := sm_sendRetryNotBeforeNs s;
  sm_retainedCritical := sm_retainedCritical s; sm_retainedOperational := sm_retainedOperational s;
  sm_criticalYieldPending := sm_criticalYieldPending s |}.

(** The timers of the loop. *)
Definition set_timers (noop : Z) (gate : NvPSSPsdReleaseGate) (retry : Z) (s : Sender) : Sender := {|
  sm_staging := sm_staging s; sm_delivery := sm_delivery s; sm_requestId := sm_requestId s;
  sm_undeliverable := sm_undeliverable s; sm_ledger := sm_ledger s; sm_nextStatusNoopNs := noop;
  sm_gate := gate; sm_sendRetryNotBeforeNs := retry;
  sm_retainedCritical := sm_retainedCritical s; sm_retainedOperational := sm_retainedOperational s;
  sm_criticalYieldPending := sm_criticalYieldPending s |}.

Definition retained (p : NvPSSPsdSendPriority) (s : Sender) : PsdBatchTicket :=
  match p with PRIORITY_CRITICAL => sm_retainedCritical s | PRIORITY_OPERATIONAL => sm_retainedOperational s end.

(** [retainedTickets[p] = t] and the yield flag that follows it. *)
Definition set_retained (p : NvPSSPsdSendPriority) (t : PsdBatchTicket) (yield : bool) (s : Sender) : Sender := {|
  sm_staging := sm_staging s; sm_delivery := sm_delivery s; sm_requestId := sm_requestId s;
  sm_undeliverable := sm_undeliverable s; sm_ledger := sm_ledger s; sm_nextStatusNoopNs := sm_nextStatusNoopNs s;
  sm_gate := sm_gate s; sm_sendRetryNotBeforeNs := sm_sendRetryNotBeforeNs s;
  sm_retainedCritical := match p with PRIORITY_CRITICAL => t | _ => sm_retainedCritical s end;
  sm_retainedOperational := match p with PRIORITY_OPERATIONAL => t | _ => sm_retainedOperational s end;
  sm_criticalYieldPending := yield |}.

Definition produce (cfg : SenderConfig) (qs : list Enqueue) (s : Sender) : Sender :=
  set_staging (fold_left (enqueue (sc_staging cfg)) qs (sm_staging s)) s.

(** ** Status *)

Definition NvPSSPackPresenceWord (presenceSet inputStateSet : Z) : Z :=
  Z.lor (Z.land presenceSet 0xFFFF) (u32 (Z.shiftl (Z.land inputStateSet PSS_INPUT_STATE_MASK) PSS_INPUT_STATE_SHIFT)).

(** [(presentMask, expectedMask)]. *)
Definition sourcePresenceSnapshot (env : Env) : Z * Z :=
  match env_rpc env with
  | None => (0, 0)
  | Some v => (NvPSSPackPresenceWord (rv_presence v) (rv_unusable v), NvPSSPackPresenceWord (rv_expected v) (rv_confirmed v))
  end.

Definition decisionRequestOperationalMode (state : NvPSSDeliveryState) (env : Env) : OperationalMode :=
  if bool_decide (state = DELIVERY_ERROR_ACTIVE) then ERROR
  else if env_fusionActive env then ERROR
  else match env_rpc env with
       | None => NvPSSDeliveryOperationalMode state NORMAL
       | Some v => NvPSSDeliveryOperationalMode state (rv_mode v)
       end.

Definition makePssStatusForDecisionRequest (env : Env) (s : Sender) : SystemStatus * Z :=
  let generation := stampGeneration (sg_overflow (sm_staging s)) in
  let mode := if negb (generation =? 0) then ERROR else decisionRequestOperationalMode (sm_delivery s) env in
  ({| st_hardwareErrorFlag := false; st_softwareErrorFlag := false; st_mode := mode |}, generation).

Definition markDeliveryFailure (s : Sender) : Sender := set_delivery DELIVERY_ERROR_ACTIVE s.

Definition markDeliveryRecovered (request : DecisionRequest) (s : Sender) : Sender :=
  if negb (st_mode (dr_pssStatus request) =? ERROR) && bool_decide (sm_delivery s = DELIVERY_ERROR_ACTIVE) then s
  else set_delivery DELIVERY_NORMAL s.

(** ** Build *)

Definition build_entry (env : Env) (q : PsdQueuedEvent) : SensorData :=
  let ev := qe_event q in
  let meta := ev_fusionMetadata ev in
  if ev_type ev =? PSS_STATUS_NOOP then
    let '(presenceMask, expectedMask) := sourcePresenceSnapshot env in
    {| sd_clientID := 0; sd_isHealthy := true; sd_isTrustedSource := true;
       sd_event := NvPSSStampSourcePresence presenceMask expectedMask ev |}
  else
    let ts := env_trust env (fm_pipelineID meta) (fm_clientID meta) in
    {| sd_clientID := fm_clientID meta;
       sd_isHealthy := negb (ts_sensorInvalid ts) && negb (ts_sensorInvalid (qe_queuedTrust q));
       sd_isTrustedSource := negb (ts_aiPipelineInvalid ts) && negb (ts_aiPipelineInvalid (qe_queuedTrust q));
       sd_event := ev |}.

(** The request and the ticket of a batch copied from the front of a lane. *)
Definition batch_request (env : Env) (s : Sender) (batch : list PsdQueuedEvent) : DecisionRequest :=
  NvPSSFinalizeDecisionRequestSeverity {|
    dr_requestId := 0; dr_sensorDataSummarySize := Z.of_nat (length batch);
    dr_sensorDataSummary := map (build_entry env) batch ++ replicate (WIRE_BATCH - length batch) zero_sensorData;
    dr_pssStatus := (makePssStatusForDecisionRequest env s).1; dr_integrity := zero_integrity |}.

Definition batch_ticket (batch : list PsdQueuedEvent) : PsdBatchTicket := {|
  tk_seqs := map qe_seq batch; tk_requestId := 0; tk_attempts := 0; tk_stamped := false; tk_stamp := zero_status;
  tk_stampGeneration := 0 |}.

Definition buildDecisionRequestFromQueuedEvents (env : Env) (p : NvPSSPsdSendPriority) (s : Sender)
    : option (DecisionRequest * PsdBatchTicket) :=
  let batch := take WIRE_BATCH (lane_of p (sm_staging s)) in
  match batch with
  | [] => None
  | _ => Some (batch_request env s batch, batch_ticket batch)
  end.

(** ** Transmission *)

Definition assign_id (request : DecisionRequest) (s : Sender) : DecisionRequest * Sender :=
  if dr_requestId request =? 0 then
    let '(next, id) := NvPSSAllocateSerializedDecisionRequestId (sm_requestId s) in
    (NvPSSAssignSerializedDecisionRequestId id request, set_requestId next s)
  else (request, s).

Definition stamp_ticket (status : SystemStatus) (generation : Z) (t : PsdBatchTicket) : PsdBatchTicket := {|
  tk_seqs := tk_seqs t; tk_requestId := tk_requestId t; tk_attempts := tk_attempts t; tk_stamped := true;
  tk_stamp := status; tk_stampGeneration := generation |}.

(** The stamp of the first transmission, kept in the ticket. *)
Definition first_stamp (env : Env) (s : Sender) (t : PsdBatchTicket) : PsdBatchTicket :=
  if tk_stamped t then t
  else let '(status, generation) := makePssStatusForDecisionRequest env s in stamp_ticket status generation t.

Definition finalize (status : SystemStatus) (request : DecisionRequest) : DecisionRequest :=
  pssDecisionRequestSetCRC (NvPSSFinalizeDecisionRequestSeverity (set_dr_pssStatus status request)).

(** What a call of [sendDecisionRequestWithRetry] leaves behind. *)
Record Sent := {
  sr_sender : Sender;
  sr_request : DecisionRequest;
  sr_ticket : PsdBatchTicket;
  sr_ok : bool;
  sr_transmitted : list DecisionRequest;
}.

(** The loop, [remaining] attempts left, [k] the number of this one. *)
Fixpoint send_loop (cfg : SenderConfig) (remaining k : nat) (attempts : nat -> Attempt) (s : Sender)
    (request : DecisionRequest) (ticket : PsdBatchTicket) : Sent :=
  match remaining with
  | O => {| sr_sender := markDeliveryFailure s; sr_request := request; sr_ticket := ticket; sr_ok := false;
            sr_transmitted := [] |}
  | S remaining' =>
    let a := attempts k in
    let s := produce cfg (atp_during a) s in
    let '(request, s) := assign_id request s in
    let ticket := first_stamp (atp_env a) s ticket in
    let request := finalize (tk_stamp ticket) request in
    if atp_ok a then
      {| sr_sender := markDeliveryRecovered request s; sr_request := request; sr_ticket := ticket; sr_ok := true;
         sr_transmitted := [request] |}
    else
      let s := match remaining' with O => s | _ => set_delivery DELIVERY_RETRYING s end in
      let r := send_loop cfg remaining' (S k) attempts s request ticket in
      {| sr_sender := sr_sender r; sr_request := sr_request r; sr_ticket := sr_ticket r; sr_ok := sr_ok r;
         sr_transmitted := request :: sr_transmitted r |}
  end.

Definition sendDecisionRequestWithRetry (cfg : SenderConfig) (attempts : nat -> Attempt) (s : Sender)
    (request : DecisionRequest) (ticket : PsdBatchTicket) : Sent :=
  send_loop cfg (sc_retryBudget cfg) 1 attempts s request ticket.

(** ** Outcome *)

Definition commit (cfg : SenderConfig) (p : NvPSSPsdSendPriority) (ticket : PsdBatchTicket) (during : list Enqueue)
    (s : Sender) : Sender :=
  set_staging (commitQueuedEvents (sc_staging cfg) p (tk_seqs ticket) during (sm_staging s)) s.

Definition dropUndeliverableBatch (cfg : SenderConfig) (p : NvPSSPsdSendPriority) (ticket : PsdBatchTicket)
    (during : list Enqueue) (s : Sender) : Sender :=
  let count := Z.of_nat (length (tk_seqs ticket)) in
  if count =? 0 then s
  else commit cfg p ticket during
         (set_ledger (u64 (sm_undeliverable s + count)) (noteAbandoned (tk_requestId ticket) count (sm_ledger s)) s).

Definition onPsdRequestAcknowledged (cfg : SenderConfig) (p : NvPSSPsdSendPriority) (ticket : PsdBatchTicket)
    (during : list Enqueue) (s : Sender) : Sender :=
  let s := set_staging (note_stamp (if tk_stamped ticket then tk_stampGeneration ticket else 0) (sm_staging s)) s in
  let s := set_ledger (sm_undeliverable s) (takeResumed (sm_ledger s)).1 s in
  commit cfg p ticket during s.

(** ** One pass of [managePsdSender] *)

Record Pass := {
  pa_before : list Enqueue; (* enqueues since the last pass *)
  pa_nowNs : Z;
  pa_reassert : list Enqueue; (* what ReassertStandingVerdicts enqueues *)
  pa_env : Env; (* at the build *)
  pa_attempts : nat -> Attempt;
  pa_failedNs : Z; (* the clock after a failed send *)
  pa_commitDuring : list Enqueue;
  pa_postSendNs : Z;
}.

(** The no-op timer. *)
Definition status_noop (cfg : SenderConfig) (pa : Pass) (s : Sender) : Sender :=
  let nowNs := pa_nowNs pa in
  if sm_nextStatusNoopNs s <=? nowNs then
    let '(staging, noopQueued) := enqueueStatusNoopEvent (sc_staging cfg) nowNs (sm_staging s) in
    let s := set_staging staging s in
    let s := if noopQueued : bool then produce cfg (pa_reassert pa) s else s in
    set_timers (NvPSSPsdUpdateStatusNoopDeadline noopQueued nowNs (sc_statusNoopIntervalNs cfg))
      (NvPSSPsdForceReleaseGateDue nowNs) (sm_sendRetryNotBeforeNs s) s
  else s.

Definition operationalPeriodNs : Z := NvPSSPsdSendPriorityReleasePeriodNs PRIORITY_OPERATIONAL.

Definition update_gate (nowNs : Z) (s : Sender) : Sender :=
  set_timers (sm_nextStatusNoopNs s)
    (NvPSSPsdUpdateReleaseGate (sm_gate s) (hasQueuedEvents PRIORITY_OPERATIONAL (sm_staging s)) nowNs operationalPeriodNs)
    (sm_sendRetryNotBeforeNs s) s.

Definition snapshot (nowNs : Z) (s : Sender) : NvPSSPsdReleaseSnapshot := {|
  sn_criticalQueued := hasQueuedEvents PRIORITY_CRITICAL (sm_staging s);
  sn_operationalQueued := hasQueuedEvents PRIORITY_OPERATIONAL (sm_staging s);
  sn_criticalYieldPending := sm_criticalYieldPending s;
  sn_operationalGate := sm_gate s;
  sn_nowNs := nowNs |}.

(** The lane this pass sends from. *)
Definition due_priority (nowNs : Z) (s : Sender) : option NvPSSPsdSendPriority :=
  if nowNs <? sm_sendRetryNotBeforeNs s then None else NvPSSPsdSelectDuePriority (snapshot nowNs s).

(** Retry or new batch. *)
Definition carry_ticket (kept built : PsdBatchTicket) : PsdBatchTicket :=
  if psdBatchIdentityMatches kept built then
    {| tk_seqs := tk_seqs built; tk_requestId := tk_requestId kept; tk_attempts := u32 (tk_attempts kept + 1);
       tk_stamped := tk_stamped kept; tk_stamp := tk_stamp kept; tk_stampGeneration := tk_stampGeneration kept |}
  else
    {| tk_seqs := tk_seqs built; tk_requestId := 0; tk_attempts := 1; tk_stamped := tk_stamped built;
       tk_stamp := tk_stamp built; tk_stampGeneration := tk_stampGeneration built |}.

Definition with_request_id (id : Z) (t : PsdBatchTicket) : PsdBatchTicket := {|
  tk_seqs := tk_seqs t; tk_requestId := id; tk_attempts := tk_attempts t; tk_stamped := tk_stamped t;
  tk_stamp := tk_stamp t; tk_stampGeneration := tk_stampGeneration t |}.

(** After the send: commit, retain or abandon. *)
Definition settle (cfg : SenderConfig) (p : NvPSSPsdSendPriority) (pa : Pass) (r : Sent) : Sender :=
  let s := sr_sender r in
  let is_critical := bool_decide (p = PRIORITY_CRITICAL) in
  if sr_ok r then
    let s := onPsdRequestAcknowledged cfg p (sr_ticket r) (pa_commitDuring pa) s in
    set_retained p empty_ticket false (set_timers (sm_nextStatusNoopNs s) (sm_gate s) 0 s)
  else
    let s := set_timers (sm_nextStatusNoopNs s) (sm_gate s)
               (NvPSSPsdSaturatingAddNs (pa_failedNs pa) NVPSS_PSD_SEND_FAILURE_RETRY_BACKOFF_NS) s in
    let ticket := with_request_id (dr_requestId (sr_request r)) (sr_ticket r) in
    if NVPSS_PSD_BATCH_MAX_DELIVERY_ATTEMPTS <=? tk_attempts ticket then
      set_retained p empty_ticket false (dropUndeliverableBatch cfg p ticket (pa_commitDuring pa) s)
    else set_retained p ticket (is_critical && negb (length (tk_seqs ticket) =? 0)%nat) s.

Definition advance_gate (p : NvPSSPsdSendPriority) (pa : Pass) (s : Sender) : Sender :=
  match p with
  | PRIORITY_CRITICAL => s
  | PRIORITY_OPERATIONAL =>
    set_timers (sm_nextStatusNoopNs s)
      (NvPSSPsdAdvanceReleaseGateAfterSend (hasQueuedEvents PRIORITY_OPERATIONAL (sm_staging s)) (pa_postSendNs pa) operationalPeriodNs)
      (sm_sendRetryNotBeforeNs s) s
  end.

(** The request of a retried batch goes out under the id it had. *)
Definition reuse_id (ticket : PsdBatchTicket) (request : DecisionRequest) : DecisionRequest :=
  if negb (tk_requestId ticket =? 0)
  then NvPSSAssignSerializedDecisionRequestId (tk_requestId ticket) request else request.

(** The state after the timers, the lane if one is due. *)
Definition pass_ready (cfg : SenderConfig) (pa : Pass) (s : Sender) : Sender :=
  update_gate (pa_nowNs pa) (status_noop cfg pa (produce cfg (pa_before pa) s)).

Definition pass_send (cfg : SenderConfig) (p : NvPSSPsdSendPriority) (pa : Pass) (s : Sender)
    (request : DecisionRequest) (built : PsdBatchTicket) : Sender * list DecisionRequest :=
  let ticket := carry_ticket (retained p s) built in
  let r := sendDecisionRequestWithRetry cfg (pa_attempts pa) s (reuse_id ticket request) ticket in
  (advance_gate p pa (settle cfg p pa r), sr_transmitted r).

Definition sender_pass (cfg : SenderConfig) (s : Sender) (pa : Pass) : Sender * list DecisionRequest :=
  let s := pass_ready cfg pa s in
  match due_priority (pa_nowNs pa) s with
  | None => (s, [])
  | Some p =>
    match buildDecisionRequestFromQueuedEvents (pa_env pa) p s with
    | None => (s, [])
    | Some (request, built) => pass_send cfg p pa s request built
    end
  end.

Definition initial_sender (cfg : SenderConfig) (nowNs : Z) : Sender := {|
  sm_staging := initial_staging; sm_delivery := DELIVERY_NORMAL; sm_requestId := 1; sm_undeliverable := 0;
  sm_ledger := empty_ledger; sm_nextStatusNoopNs := NvPSSPsdSaturatingAddNs nowNs (sc_statusNoopIntervalNs cfg);
  sm_gate := disarmed; sm_sendRetryNotBeforeNs := 0; sm_retainedCritical := empty_ticket;
  sm_retainedOperational := empty_ticket; sm_criticalYieldPending := false |}.

(** Passes in sequence, with everything transmitted, in order. *)
Fixpoint sender_run (cfg : SenderConfig) (s : Sender) (passes : list Pass) : Sender * list DecisionRequest :=
  match passes with
  | [] => (s, [])
  | pa :: rest =>
    let '(s, sent) := sender_pass cfg s pa in
    let '(s, later) := sender_run cfg s rest in (s, sent ++ later)
  end.
