(* ===== verification/SenderSafety.v ===== *)
(** * What the sender thread guarantees

    Every request it transmits is accepted by the receivers' validator; one
    request id stands for one stamp and a bounded number of transmissions; a
    failing critical lane and the operational lane take turns.  The last
    section shows three places where the code departs from its comments. *)

From S2P Require Import Prelude Protocol Crc Validate GatewayContract DeliveryFailSafe Staging Sender.

(** ** Events of the lanes

    [P] holds of every staged and pending event; it is kept by every step whose
    own events satisfy it. *)

Section events.
Context (P : FusedSafetyEvent -> Prop).

Definition lane_events (l : list PsdQueuedEvent) : Prop := Forall (fun q => P (qe_event q)) l.

Record staged (s : Staging) : Prop := {
  st_critical : lane_events (sg_critical s);
  st_operational : lane_events (sg_operational s);
  st_pending : lane_events (sg_refusedPending s);
}.

Definition enqueues (qs : list Enqueue) : Prop := Forall (fun q => P (en_event q)) qs.

Lemma lane_sublist l k : l `sublist_of` k -> lane_events k -> lane_events l.
Proof. apply Forall_sublist_of. Qed.

Lemma lane_insert e l : P (qe_event e) -> lane_events l -> lane_events (insertOperationalOrdered e l).
Proof. intros He Hl. unfold lane_events. rewrite insert_perm. by constructor. Qed.

Lemma lane_snoc e l : P (qe_event e) -> lane_events l -> lane_events (l ++ [e]).
Proof. intros He Hl. apply Forall_app. by split; [|constructor]. Qed.

Lemma staged_bump s a d e l : staged s -> staged (bump a d e l s).
Proof. by intros []. Qed.

Lemma staged_superseded e s : staged s -> staged (drop_superseded e s).
Proof.
  intros []. constructor; cbn; try done. rewrite drop_superseded_eq. eapply lane_sublist; [apply sublist_filter|done].
Qed.

Lemma staged_enqueue cfg s q : staged s -> P (en_event q) -> staged (enqueue cfg s q).
Proof.
  intros Hs Hq. unfold enqueue, enqueuePsdFusedEvent, admit_to_full_lane.
  destruct (bool_decide _), (_ <? _)%nat; cbn [negb andb].
  - apply staged_bump. destruct Hs. constructor; cbn; try done. by apply lane_insert.
  - by apply staged_bump.
  - apply staged_bump, staged_superseded. destruct Hs. constructor; cbn; try done. by apply lane_snoc.
  - destruct (NvPSSPsdIsMustDeliverReport _); [|by apply staged_bump].
    destruct (NvPSSPsdCriticalLaneVictim _ _).
    + apply staged_bump, staged_bump, staged_superseded. destruct Hs. constructor; cbn; try done.
      apply lane_snoc; [done|]. eapply lane_sublist; [apply sublist_delete|done].
    + unfold NvPSSPsdRetainRefused. rewrite drop_superseded_eq. destruct Hs.
      assert (lane_events (filter (fun e => NvPSSPsdSameVerdictSlot (entry_event e) (en_event q) = false) (sg_refusedPending s)))
        by (eapply lane_sublist; [apply sublist_filter|done]).
      destruct (_ <=? _)%nat; apply staged_bump, staged_bump; constructor; cbn; try done. by apply lane_snoc.
Qed.

Lemma staged_enqueues cfg qs s : staged s -> enqueues qs -> staged (fold_left (enqueue cfg) qs s).
Proof.
  intros Hs Hq. apply fold_left_ind; [done|]. intros s' q Hin Hs'. apply staged_enqueue; [done|].
  by eapply Forall_forall in Hq.
Qed.

Lemma staged_set_refused s l p m : staged s -> lane_events p -> staged (set_refused l p m s).
Proof. by intros [] ?. Qed.

Lemma staged_readmit cap pending s : staged s -> lane_events pending -> staged (readmit cap pending s).
Proof.
  revert s. induction pending as [|e rest IH]; intros s Hs Hp; cbn [readmit]; [by apply staged_set_refused|].
  destruct (_ <? _)%nat; [|by apply staged_set_refused]. inversion_clear Hp.
  apply IH; [|done]. destruct Hs. constructor; cbn; try done. by apply lane_snoc.
Qed.

Lemma staged_commit cfg p seqs during s : staged s -> enqueues during -> staged (commitQueuedEvents cfg p seqs during s).
Proof.
  intros Hs Hd. unfold commitQueuedEvents. destruct seqs as [|w seqs]; [done|].
  assert (forall s, staged s -> staged (maybeClearCriticalLaneOverflow cfg during s)) as Hm.
  { clear s Hs. intros s Hs. unfold maybeClearCriticalLaneOverflow. destruct (negb _); [done|].
    assert (staged (fold_left (enqueue cfg) during (readmit (sc_criticalDepth cfg) (sg_refusedPending s) s))) as H'
      by (apply staged_enqueues; [apply staged_readmit; [done|apply Hs]|done]).
    apply staged_set_refused; [done|apply H']. }
  destruct Hs, p; apply Hm; constructor; try done; (eapply lane_sublist; [apply (erase_seqs_sublist (w :: seqs))|done]).
Qed.

Lemma staged_noop cfg t s : staged s -> P (NvPSSBuildStatusNoopFusedEvent 0 t 0 0) -> staged (enqueueStatusNoopEvent cfg t s).1.
Proof.
  intros Hs Ht. unfold enqueueStatusNoopEvent. destruct (_ <? _)%nat; [|done]. destruct Hs. constructor; cbn; try done.
  by apply lane_insert.
Qed.

Lemma staged_note g s : staged s -> staged (note_stamp g s).
Proof. by intros []. Qed.

End events.

(** ** Every transmitted request is valid *)

(** A request the sender is working on. *)
Record ready (r : DecisionRequest) : Prop := {
  rd_size : 1 <= dr_sensorDataSummarySize r <= MAX_SENSORS_DATA_SUMMARY_SIZE;
  rd_array : length (dr_sensorDataSummary r) = Z.to_nat MAX_SENSORS_DATA_SUMMARY_SIZE;
  rd_events : Forall (fun d => valid_event (sd_event d)) (populated r);
}.

Lemma valid_severity e s : valid_event e -> s <= CRITICAL -> valid_event (set_ev_severity s e).
Proof. intros [[] ? ?] ?. constructor; [|done|done]. by constructor. Qed.

Lemma valid_id e i : valid_event e -> valid_event (set_ev_id i e).
Proof. intros [[] ? ?]. constructor; [|done|done]. by constructor. Qed.

Lemma valid_presence e p x : valid_event e -> valid_event (NvPSSStampSourcePresence p x e).
Proof. intros [[] ? ?]. constructor; [|done|done]. by constructor. Qed.

Lemma ready_map f r :
  ready r -> (forall d, valid_event (sd_event d) -> valid_event (sd_event (f d))) -> ready (map_populated f r).
Proof.
  intros [Hs Ha He] Hf. destruct (populated_map_array f r Ha) as [Hp Hl]. constructor; [done|done|].
  rewrite Hp. apply Forall_map. eapply Forall_impl; [exact He|]. intros d. apply Hf.
Qed.

Lemma severity_le r : NvPSSDecisionRequestSeverity r <= CRITICAL.
Proof. unfold NvPSSDecisionRequestSeverity. destruct r; [destruct (existsb _ _)|]; done. Qed.

Lemma ready_finalize r : ready r -> ready (NvPSSFinalizeDecisionRequestSeverity r).
Proof. intros Hr. apply ready_map; [done|]. intros d Hd. apply valid_severity; [done|apply severity_le]. Qed.

Lemma ready_status st r : ready r -> ready (set_dr_pssStatus st r).
Proof. by intros []. Qed.

Lemma ready_crc r : ready r -> ready (pssDecisionRequestSetCRC r).
Proof. by intros []. Qed.

Lemma ready_assign i r : ready r -> ready (NvPSSAssignSerializedDecisionRequestId i r).
Proof.
  intros Hr. apply (ready_map _ (set_dr_requestId i r)); [by destruct Hr|].
  intros d Hd. destruct (_ =? _); [by apply valid_id|done].
Qed.

Lemma ready_send st r : ready r -> ready (finalize st r).
Proof. intros Hr. by apply ready_crc, ready_finalize, ready_status. Qed.

(** Finalisation makes the severities consistent with the stamp. *)
Lemma finalize_severity r :
  ready r -> severity_rules (st_mode (dr_pssStatus r)) (populated (NvPSSFinalizeDecisionRequestSeverity r)).
Proof.
  intros [_ Ha _]. unfold NvPSSFinalizeDecisionRequestSeverity. rewrite (proj1 (populated_map_array _ r Ha)).
  exists (NvPSSDecisionRequestSeverity (Some r)). intros d Hd. apply list_elem_of_In, in_map_iff in Hd as (d0 & <- & Hd0).
  split; [done|]. intros Hc. cbn [NvPSSDecisionRequestSeverity].
  enough (existsb (fun d => entry_severity (st_mode (dr_pssStatus r)) d =? CRITICAL) (populated r) = true) as -> by done.
  apply existsb_exists. exists d0. split; [done|]. apply Z.eqb_eq. unfold entry_severity, NvPSSClassifyPsdSeverity.
  destruct Hc as [Hc|[Hc|[Hc|Hc]]]; cbn in Hc.
  - by rewrite Hc.
  - change (eventTypeRequiresCriticalSeverity (ev_type (sd_event d0)))
      with (NvPSSEventTypeRequiresCriticalDelivery (ev_type (sd_event d0))) in Hc.
    by rewrite Hc, orb_true_r.
  - by rewrite Hc, orb_true_r.
  - by rewrite Hc, orb_true_r.
Qed.

Lemma ready_valid st r : ready r -> 0 <= st_mode st <= ERROR -> validateDecisionRequest (Some (finalize st r)) = PSS_VALID.
Proof.
  intros Hr Hm. apply validateDecisionRequest_zero, sendable_SetCRC.
  pose proof (ready_finalize _ (ready_status st r Hr)) as Hf. constructor; [apply Hf|done|apply Hf|].
  apply (finalize_severity (set_dr_pssStatus st r)). by apply ready_status.
Qed.

(** What the pass needs of the rest of the daemon: modes on the wire range,
    events the receivers know, a running clock. *)
Definition env_ok (env : Env) : Prop := forall v, env_rpc env = Some v -> 0 <= rv_mode v <= ERROR.

Definition attempt_ok (a : Attempt) : Prop := env_ok (atp_env a) /\ enqueues valid_event (atp_during a).

Record pass_ok (pa : Pass) : Prop := {
  pk_before : enqueues valid_event (pa_before pa);
  pk_now : pa_nowNs pa <> 0;
  pk_reassert : enqueues valid_event (pa_reassert pa);
  pk_env : env_ok (pa_env pa);
  pk_attempts : forall k, attempt_ok (pa_attempts pa k);
  pk_commit : enqueues valid_event (pa_commitDuring pa);
}.

Definition valid_lanes (s : Sender) : Prop := staged valid_event (sm_staging s).

(** A ticket that carries a stamp carries one in range. *)
Definition ticket_ok (t : PsdBatchTicket) : Prop := tk_stamped t = true -> 0 <= st_mode (tk_stamp t) <= ERROR.

Lemma status_mode env s : env_ok env -> 0 <= st_mode (makePssStatusForDecisionRequest env s).1 <= ERROR.
Proof.
  intros He. unfold makePssStatusForDecisionRequest, decisionRequestOperationalMode, NvPSSDeliveryOperationalMode, ERROR. cbn.
  destruct (negb _); [done|]. destruct (bool_decide _); [done|]. destruct (env_fusionActive env); [done|].
  destruct (env_rpc env) as [v|] eqn:Ev; [|by destruct (sm_delivery s)]. specialize (He v Ev). unfold ERROR in He.
  destruct (sm_delivery s); cbn; lia.
Qed.

Lemma first_stamp_ok env s t :
  env_ok env -> ticket_ok t -> 0 <= st_mode (tk_stamp (first_stamp env s t)) <= ERROR /\ tk_stamped (first_stamp env s t) = true.
Proof.
  intros He Ht. unfold first_stamp. destruct (tk_stamped t) eqn:E; [by split; [apply Ht|]|].
  split; [|by destruct (makePssStatusForDecisionRequest env s)].
  pose proof (status_mode env s He). by destruct (makePssStatusForDecisionRequest env s).
Qed.

(** A request with its lanes, as the loop threads them. *)
Lemma assign_ready r s : ready r -> valid_lanes s -> ready (assign_id r s).1 /\ valid_lanes (assign_id r s).2.
Proof.
  intros Hr Hs. unfold assign_id. destruct (_ =? _); [|done].
  destruct (NvPSSAllocateSerializedDecisionRequestId _) as [next id]. split; [by apply ready_assign|done].
Qed.

Lemma send_loop_valid cfg n k attempts s r t :
  (forall k, attempt_ok (attempts k)) -> ready r -> ticket_ok t -> valid_lanes s ->
  let out := send_loop cfg n k attempts s r t in
  Forall (fun q => validateDecisionRequest (Some q) = PSS_VALID) (sr_transmitted out) /\
  valid_lanes (sr_sender out) /\ ticket_ok (sr_ticket out).
Proof.
  intros Ha. revert k s r t. induction n as [|n IH]; intros k s r t Hr Ht Hs; cbn [send_loop]; [by split_and!|].
  destruct (Ha k) as [He Hd].
  assert (valid_lanes (produce cfg (atp_during (attempts k)) s)) as Hs1 by by apply staged_enqueues.
  destruct (assign_ready r _ Hr Hs1) as [Hr1 Hs2].
  destruct (assign_id r _) as [r1 s1]. cbn [fst snd] in *.
  destruct (first_stamp_ok (atp_env (attempts k)) s1 t He Ht) as [Hm Hst].
  set (t1 := first_stamp (atp_env (attempts k)) s1 t) in *.
  assert (validateDecisionRequest (Some (finalize (tk_stamp t1) r1)) = PSS_VALID) as Hv by by apply ready_valid.
  assert (ticket_ok t1) as Ht1 by (intros _; exact Hm).
  destruct (atp_ok (attempts k)); cbn [sr_transmitted sr_sender sr_ticket].
  - split_and!; [by constructor| |done]. unfold markDeliveryRecovered. by destruct (_ && _).
  - destruct (IH (S k) (match n with O => s1 | _ => set_delivery DELIVERY_RETRYING s1 end) (finalize (tk_stamp t1) r1) t1)
      as (IH1 & IH2 & IH3); [by apply ready_send|done|by destruct n|].
    split_and!; [by constructor|done|done].
Qed.

Lemma produce_lanes cfg qs s : valid_lanes s -> enqueues valid_event qs -> valid_lanes (produce cfg qs s).
Proof. apply staged_enqueues. Qed.

Lemma noop_valid t : t <> 0 -> valid_event (NvPSSBuildStatusNoopFusedEvent 0 t 0 0).
Proof. intros Ht. constructor; [constructor|done|done]; done. Qed.

Lemma ready_lanes cfg pa s : valid_lanes s -> pass_ok pa -> valid_lanes (pass_ready cfg pa s).
Proof.
  intros Hs Hp. unfold pass_ready. change (valid_lanes (status_noop cfg pa (produce cfg (pa_before pa) s))).
  assert (valid_lanes (produce cfg (pa_before pa) s)) as H1 by (apply produce_lanes; [done|apply Hp]).
  unfold status_noop. destruct (_ <=? _); [|done].
  pose proof (staged_noop valid_event (sc_staging cfg) (pa_nowNs pa) _ H1 (noop_valid _ (pk_now _ Hp))) as H2.
  destruct (enqueueStatusNoopEvent _ _ _) as [st [|]]; [|done]. apply staged_enqueues; [done|apply Hp].
Qed.

Lemma batch_ready env s batch :
  lane_events valid_event batch -> (1 <= length batch <= 8)%nat -> ready (batch_request env s batch).
Proof.
  intros Hb H8. apply ready_finalize.
  assert (length (map (build_entry env) batch) = length batch) as Hm by apply length_map.
  constructor; cbn [dr_sensorDataSummarySize dr_sensorDataSummary].
  - unfold MAX_SENSORS_DATA_SUMMARY_SIZE. lia.
  - rewrite length_app, length_replicate, Hm. change WIRE_BATCH with 8%nat.
    change (Z.to_nat MAX_SENSORS_DATA_SUMMARY_SIZE) with 8%nat. lia.
  - unfold populated, summary_count. cbn [dr_sensorDataSummarySize dr_sensorDataSummary].
    destruct (Z.ltb_spec MAX_SENSORS_DATA_SUMMARY_SIZE (Z.of_nat (length batch))) as [Hlt|_];
      [unfold MAX_SENSORS_DATA_SUMMARY_SIZE in Hlt; lia|].
    rewrite Nat2Z.id, take_app_le, take_ge by lia. apply Forall_map. eapply Forall_impl; [exact Hb|].
    intros q Hq. unfold build_entry. destruct (_ =? _); [|done].
    destruct (sourcePresenceSnapshot env). by apply valid_presence.
Qed.

(** What a build returns. *)
Lemma build_spec env p s r t :
  buildDecisionRequestFromQueuedEvents env p s = Some (r, t) ->
  exists batch, batch = take WIRE_BATCH (lane_of p (sm_staging s)) /\ batch <> [] /\
    r = batch_request env s batch /\ t = batch_ticket batch.
Proof.
  unfold buildDecisionRequestFromQueuedEvents. cbv zeta.
  destruct (take WIRE_BATCH (lane_of p (sm_staging s))) as [|q batch]; [discriminate|].
  intros H. exists (q :: batch). apply (inj Some), (inj2 pair) in H as [-> ->]. by split_and!.
Qed.

Lemma build_ready env p s r t :
  valid_lanes s -> buildDecisionRequestFromQueuedEvents env p s = Some (r, t) -> ready r /\ tk_stamped t = false.
Proof.
  intros Hs (batch & Hb & Hne & -> & ->)%build_spec. split; [|done]. subst batch.
  apply batch_ready; [apply Forall_take; destruct p; apply Hs|].
  split; [|rewrite length_take; change WIRE_BATCH with 8%nat; lia].
  destruct (take _ _); [done|]. cbn. lia.
Qed.

Definition tickets_ok (s : Sender) : Prop := ticket_ok (sm_retainedCritical s) /\ ticket_ok (sm_retainedOperational s).

Lemma carry_ok kept built : ticket_ok kept -> tk_stamped built = false -> ticket_ok (carry_ticket kept built).
Proof.
  intros Hk Hb. unfold carry_ticket. destruct (psdBatchIdentityMatches kept built); [exact Hk|].
  intros E. cbn in E. congruence.
Qed.

Lemma reuse_ready t r : ready r -> ready (reuse_id t r).
Proof. intros Hr. unfold reuse_id. destruct (negb _); [by apply ready_assign|done]. Qed.

Lemma settle_lanes cfg p pa r :
  valid_lanes (sr_sender r) -> pass_ok pa -> valid_lanes (settle cfg p pa r).
Proof.
  intros Hs Hp. unfold settle, valid_lanes, dropUndeliverableBatch. destruct (sr_ok r).
  - apply staged_commit; [by apply staged_note|apply Hp].
  - destruct (_ <=? _); [|done]. destruct (_ =? _); [done|]. apply staged_commit; [done|apply Hp].
Qed.

Lemma settle_tickets cfg p pa r s :
  tickets_ok s -> ticket_ok (sr_ticket r) ->
  sm_retainedCritical (sr_sender r) = sm_retainedCritical s ->
  sm_retainedOperational (sr_sender r) = sm_retainedOperational s -> tickets_ok (settle cfg p pa r).
Proof.
  intros [Hc Ho] Ht Ec Eo. unfold settle, tickets_ok, dropUndeliverableBatch.
  destruct (sr_ok r); [|destruct (_ <=? _); [destruct (_ =? _)|]]; destruct p; cbn; rewrite ?Ec, ?Eo; done.
Qed.

(** The loop leaves the retained tickets alone. *)
Lemma send_loop_retained cfg n k attempts s r t :
  let s' := sr_sender (send_loop cfg n k attempts s r t) in
  sm_retainedCritical s' = sm_retainedCritical s /\ sm_retainedOperational s' = sm_retainedOperational s.
Proof.
  revert k s r t. induction n as [|n IH]; intros k s r t; cbn [send_loop]; [done|].
  assert (sm_retainedCritical (assign_id r (produce cfg (atp_during (attempts k)) s)).2 = sm_retainedCritical s /\
          sm_retainedOperational (assign_id r (produce cfg (atp_during (attempts k)) s)).2 = sm_retainedOperational s) as [H1 H2]
    by (unfold assign_id; by destruct (_ =? _)).
  destruct (assign_id r _) as [r1 s1]. cbn [snd] in *. destruct (atp_ok (attempts k)); cbn.
  - unfold markDeliveryRecovered. by destruct (_ && _).
  - destruct (IH (S k) (match n with O => s1 | _ => set_delivery DELIVERY_RETRYING s1 end)
                (finalize (tk_stamp (first_stamp (atp_env (attempts k)) s1 t)) r1) (first_stamp (atp_env (attempts k)) s1 t)) as [-> ->].
    by destruct n.
Qed.

Lemma pass_valid cfg s pa :
  valid_lanes s -> tickets_ok s -> pass_ok pa ->
  let '(s', sent) := sender_pass cfg s pa in
  Forall (fun q => validateDecisionRequest (Some q) = PSS_VALID) sent /\ valid_lanes s' /\ tickets_ok s'.
Proof.
  intros Hs Ht Hp. unfold sender_pass. pose proof (ready_lanes cfg pa s Hs Hp) as H1.
  assert (tickets_ok (pass_ready cfg pa s)) as Ht1.
  { unfold pass_ready, status_noop. destruct (_ <=? _); [|done]. by destruct (enqueueStatusNoopEvent _ _ _) as [? [|]]. }
  set (s1 := pass_ready cfg pa s) in *. destruct (due_priority _ _) as [p|]; [|by split_and!].
  destruct (buildDecisionRequestFromQueuedEvents _ _ _) as [[r t]|] eqn:Eb; [|by split_and!].
  destruct (build_ready _ _ _ _ _ H1 Eb) as [Hr Hst]. unfold pass_send, sendDecisionRequestWithRetry.
  assert (ticket_ok (carry_ticket (retained p s1) t)) as Hc by (apply carry_ok; [destruct p; apply Ht1|done]).
  destruct (send_loop_valid cfg (sc_retryBudget cfg) 1 (pa_attempts pa) s1 _ _ (pk_attempts _ Hp)
    (reuse_ready (carry_ticket (retained p s1) t) _ Hr) Hc H1)
    as (Hv & Hl & Hk).
  destruct (send_loop_retained cfg (sc_retryBudget cfg) 1 (pa_attempts pa) s1
    (reuse_id (carry_ticket (retained p s1) t) r) (carry_ticket (retained p s1) t)) as [Ec Eo].
  set (out := send_loop _ _ _ _ _ _ _) in *. split; [done|].
  assert (valid_lanes (settle cfg p pa out) /\ tickets_ok (settle cfg p pa out)) as [H2 H3]
    by (split; [by apply settle_lanes|by eapply settle_tickets]).
  by destruct p.
Qed.

Lemma run_valid cfg s passes :
  valid_lanes s -> tickets_ok s -> Forall pass_ok passes ->
  Forall (fun q => validateDecisionRequest (Some q) = PSS_VALID) (sender_run cfg s passes).2.
Proof.
  revert s. induction passes as [|pa rest IH]; intros s Hs Ht Hp; cbn [sender_run]; [constructor|].
  inversion_clear Hp as [|? ? Hpa Hrest]. pose proof (pass_valid cfg s pa Hs Ht Hpa) as H1.
  destruct (sender_pass cfg s pa) as [s' sent]. destruct H1 as (Hv & Hs' & Ht').
  specialize (IH s' Hs' Ht' Hrest). destruct (sender_run cfg s' rest). cbn in *. apply Forall_app. by split.
Qed.

(** ** One request id, one stamp *)

(** The transmissions of request id [i]. *)
Definition transmissions (i : Z) (sent : list DecisionRequest) : list DecisionRequest :=
  filter (fun q => dr_requestId q = i) sent.

(** What one call of the send loop transmits and leaves in the ticket. *)
Record sent_as (s : Sender) (r : DecisionRequest) (t : PsdBatchTicket) (n : nat) (out : Sent) : Prop := {
  sa_id : dr_requestId (sr_request out) =
            if dr_requestId r =? 0 then allocated_from (sm_requestId s) else dr_requestId r;
  sa_next : sm_requestId (sr_sender out) =
            if dr_requestId r =? 0 then NvPSSNextDecisionRequestIdAfter (allocated_from (sm_requestId s)) else sm_requestId s;
  sa_same : Forall (fun q => dr_requestId q = dr_requestId (sr_request out) /\ dr_pssStatus q = tk_stamp (sr_ticket out))
              (sr_transmitted out);
  sa_count : (length (sr_transmitted out) <= n)%nat;
  sa_stamped : tk_stamped (sr_ticket out) = true;
  sa_stamp : tk_stamped t = true -> tk_stamp (sr_ticket out) = tk_stamp t;
  sa_ticket : tk_seqs (sr_ticket out) = tk_seqs t /\ tk_attempts (sr_ticket out) = tk_attempts t;
}.

Lemma first_stamp_stamped env s t :
  tk_stamped (first_stamp env s t) = true /\ (tk_stamped t = true -> first_stamp env s t = t) /\
  tk_seqs (first_stamp env s t) = tk_seqs t /\ tk_attempts (first_stamp env s t) = tk_attempts t.
Proof.
  unfold first_stamp. destruct (tk_stamped t) eqn:E; [by split_and!|].
  destruct (makePssStatusForDecisionRequest env s). by split_and!.
Qed.

Lemma assign_spec r s :
  dr_requestId (assign_id r s).1 = (if dr_requestId r =? 0 then allocated_from (sm_requestId s) else dr_requestId r) /\
  dr_requestId (assign_id r s).1 <> 0 /\
  sm_requestId (assign_id r s).2 =
    (if dr_requestId r =? 0 then NvPSSNextDecisionRequestIdAfter (allocated_from (sm_requestId s)) else sm_requestId s).
Proof.
  unfold assign_id. destruct (Z.eqb_spec (dr_requestId r) 0); [|done]. split_and!; [done| |done].
  cbn. pose proof (allocated_valid (sm_requestId s)) as Hv. apply id_valid_iff in Hv. lia.
Qed.

(** A request that has its id keeps it through the loop. *)
Lemma send_loop_assigned cfg n k attempts s r t :
  dr_requestId r <> 0 -> tk_stamped t = true ->
  let out := send_loop cfg n k attempts s r t in
  dr_requestId (sr_request out) = dr_requestId r /\ sm_requestId (sr_sender out) = sm_requestId s /\
  sr_ticket out = t /\ (length (sr_transmitted out) <= n)%nat /\
  Forall (fun q => dr_requestId q = dr_requestId r /\ dr_pssStatus q = tk_stamp t) (sr_transmitted out).
Proof.
  revert k s r. induction n as [|n IH]; intros k s r Hr Ht; cbn [send_loop]; [by split_and!|].
  unfold assign_id. rewrite (proj2 (Z.eqb_neq _ _) Hr). cbv zeta. unfold first_stamp. rewrite Ht.
  set (s1 := produce cfg (atp_during (attempts k)) s). destruct (atp_ok (attempts k)); cbn [sr_request sr_sender sr_ticket sr_transmitted].
  - split_and!; [done| |done|cbn; lia|by repeat constructor]. unfold markDeliveryRecovered. by destruct (_ && _).
  - destruct (IH (S k) (match n with O => s1 | _ => set_delivery DELIVERY_RETRYING s1 end) (finalize (tk_stamp t) r) Hr Ht)
      as (I1 & I2 & I3 & I4 & I5).
    split_and!; [exact I1|etransitivity; [exact I2|by destruct n]|exact I3|cbn; lia|by constructor].
Qed.

Lemma send_loop_spec cfg n k attempts s r t :
  (0 < n)%nat -> sent_as s r t n (send_loop cfg n k attempts s r t).
Proof.
  intros Hn. destruct n as [|n]; [lia|]. cbn [send_loop].
  set (s0 := produce cfg (atp_during (attempts k)) s). destruct (assign_spec r s0) as (Hid & Hne & Hnext).
  change (sm_requestId s0) with (sm_requestId s) in Hid, Hnext.
  destruct (assign_id r s0) as [r1 s1]. cbn [fst snd] in *.
  destruct (first_stamp_stamped (atp_env (attempts k)) s1 t) as (Hst & Hkeep & Hseqs & Hatt).
  set (t1 := first_stamp (atp_env (attempts k)) s1 t) in *.
  destruct (atp_ok (attempts k)).
  - constructor; cbn [sr_request sr_sender sr_ticket sr_transmitted]; try done.
    + unfold markDeliveryRecovered. by destruct (_ && _).
    + by repeat constructor.
    + intros E. by rewrite Hkeep.
  - destruct (send_loop_assigned cfg n (S k) attempts (match n with O => s1 | _ => set_delivery DELIVERY_RETRYING s1 end)
                (finalize (tk_stamp t1) r1) t1 Hne Hst) as (I1 & I2 & I3 & I4 & I5).
    change (dr_requestId (finalize (tk_stamp t1) r1)) with (dr_requestId r1) in I1, I5.
    constructor; cbn [sr_request sr_sender sr_ticket sr_transmitted]; rewrite ?I3; try done.
    + by rewrite I1.
    + rewrite I2. by destruct n.
    + rewrite I1. by constructor.
    + cbn. lia.
    + intros E. by rewrite Hkeep.
Qed.

Section history.
Context (budget : nat).

(** What a retained ticket knows of the past transmissions [T]. *)
Record ticket_history (next : Z) (T : list DecisionRequest) (t : PsdBatchTicket) : Prop := {
  th_id : 1 <= tk_requestId t < next;
  th_stamped : tk_stamped t = true;
  th_stamp : Forall (fun q => dr_pssStatus q = tk_stamp t) (transmissions (tk_requestId t) T);
  th_attempts : 1 <= tk_attempts t < NVPSS_PSD_BATCH_MAX_DELIVERY_ATTEMPTS;
  th_count : Z.of_nat (length (transmissions (tk_requestId t) T)) <= tk_attempts t * Z.of_nat budget;
}.

Definition retained_history (next : Z) (T : list DecisionRequest) (t : PsdBatchTicket) : Prop :=
  tk_seqs t <> [] -> ticket_history next T t.

Record history (s : Sender) (T : list DecisionRequest) : Prop := {
  hi_next : 1 <= sm_requestId s <= NVPSS_DECISION_REQUEST_ID_MAX;
  hi_ids : Forall (fun q => 1 <= dr_requestId q < sm_requestId s) T;
  hi_stamp : forall q q', q ∈ T -> q' ∈ T -> dr_requestId q = dr_requestId q' -> dr_pssStatus q = dr_pssStatus q';
  hi_count : forall i, (length (transmissions i T) <= 3 * budget)%nat;
  hi_tickets : forall p, retained_history (sm_requestId s) T (retained p s);
  hi_distinct : tk_seqs (sm_retainedCritical s) <> [] -> tk_seqs (sm_retainedOperational s) <> [] ->
    tk_requestId (sm_retainedCritical s) <> tk_requestId (sm_retainedOperational s);
}.

Lemma transmissions_app i T U : transmissions i (T ++ U) = transmissions i T ++ transmissions i U.
Proof. apply filter_app. Qed.

Lemma transmissions_all i U : Forall (fun q => dr_requestId q = i) U -> transmissions i U = U.
Proof. apply filter_keeps_all. Qed.

Lemma transmissions_none i j U : i <> j -> Forall (fun q => dr_requestId q = j) U -> transmissions i U = [].
Proof.
  intros Hij HU. unfold transmissions. induction HU as [|q U Hq HU IH]; [done|].
  rewrite filter_cons_False; [done|congruence].
Qed.

Lemma transmissions_fresh i next T :
  Forall (fun q => 1 <= dr_requestId q < next) T -> next <= i -> transmissions i T = [].
Proof.
  intros HT Hi. induction HT as [|q T Hq HT IH]; [done|]. unfold transmissions in *.
  rewrite filter_cons_False; [done|]. lia.
Qed.

(** The history grows by transmissions of one id [i] with one stamp. *)
Lemma ticket_history_other next next' T U t i :
  ticket_history next T t -> next <= next' -> i <> tk_requestId t -> Forall (fun q => dr_requestId q = i) U ->
  ticket_history next' (T ++ U) t.
Proof.
  intros [] Hn Hi HU. constructor; try done; [lia| |];
    rewrite transmissions_app, (transmissions_none _ i U), app_nil_r by done; done.
Qed.

(** One batch sent: id [i], stamp [st], the [a]-th time. *)
Record send_history (next next' : Z) (T U : list DecisionRequest) (i : Z) (st : SystemStatus) (a : Z) : Prop := {
  sh_next : next <= next' <= next + 1 /\ 1 <= i < next';
  sh_sent : Forall (fun q => dr_requestId q = i /\ dr_pssStatus q = st) U;
  sh_length : (length U <= budget)%nat;
  sh_stamp : Forall (fun q => dr_pssStatus q = st) (transmissions i T);
  sh_attempts : 1 <= a <= NVPSS_PSD_BATCH_MAX_DELIVERY_ATTEMPTS;
  sh_count : Z.of_nat (length (transmissions i T)) <= (a - 1) * Z.of_nat budget;
}.

Lemma send_history_ids next next' T U i st a :
  send_history next next' T U i st a -> Forall (fun q => dr_requestId q = i) U.
Proof. intros []. eapply Forall_impl; [done|]. cbn. tauto. Qed.

(** The ticket of that batch, when it is retained. *)
Lemma send_history_ticket next next' T U i st a t :
  send_history next next' T U i st a -> a < NVPSS_PSD_BATCH_MAX_DELIVERY_ATTEMPTS ->
  tk_requestId t = i -> tk_stamped t = true -> tk_stamp t = st -> tk_attempts t = a ->
  ticket_history next' (T ++ U) t.
Proof.
  intros H Ha <- Hst <- <-. pose proof (send_history_ids _ _ _ _ _ _ _ H) as HU. destruct H.
  constructor; [tauto|done| |lia|]; rewrite transmissions_app, (transmissions_all _ U HU).
  - apply Forall_app. split; [done|]. eapply Forall_impl; [exact sh_sent0|]. cbn. tauto.
  - rewrite length_app. lia.
Qed.

Lemma history_sent s s' T U i st a p :
  history s T -> send_history (sm_requestId s) (sm_requestId s') T U i st a ->
  sm_requestId s' <= NVPSS_DECISION_REQUEST_ID_MAX ->
  (forall p', p' <> p -> retained p' s' = retained p' s /\ (tk_seqs (retained p' s) <> [] -> tk_requestId (retained p' s) <> i)) ->
  (tk_seqs (retained p s') <> [] -> tk_requestId (retained p s') = i /\ ticket_history (sm_requestId s') (T ++ U) (retained p s')) ->
  history s' (T ++ U).
Proof.
  intros H Hs Hmax Hother Hthis. pose proof (send_history_ids _ _ _ _ _ _ _ Hs) as HU.
  destruct H, Hs. assert (forall q, q ∈ T ++ U -> dr_requestId q = i -> dr_pssStatus q = st) as Hi.
  { intros q [Hq|Hq]%elem_of_app E.
    - eapply Forall_forall in sh_stamp0; [exact sh_stamp0|]. by apply list_elem_of_filter.
    - eapply Forall_forall in sh_sent0; [apply sh_sent0|done]. }
  constructor.
  - lia.
  - apply Forall_app. split; (eapply Forall_impl; [eassumption|]); cbn; intros; lia.
  - intros q q' Hq Hq' E. destruct (decide (dr_requestId q = i)) as [Ei|Ei].
    + rewrite (Hi q Hq Ei). symmetry. apply Hi; [done|congruence].
    + assert (forall q, q ∈ T ++ U -> dr_requestId q <> i -> q ∈ T) as Hin.
      { intros x [?|Hx]%elem_of_app ?; [done|]. by eapply Forall_forall in HU. }
      apply hi_stamp0; [by apply Hin|apply Hin; [done|congruence]|done].
  - intros j. rewrite transmissions_app, length_app. destruct (decide (j = i)) as [->|Hj].
    + rewrite (transmissions_all _ _ HU). unfold NVPSS_PSD_BATCH_MAX_DELIVERY_ATTEMPTS in *. nia.
    + rewrite (transmissions_none j i U) by done. rewrite Nat.add_0_r. apply hi_count0.
  - intros p' Hne. destruct (decide (p' = p)) as [->|Hp]; [by apply Hthis|].
    destruct (Hother p' Hp) as [E Hid]. rewrite E in *.
    eapply (ticket_history_other (sm_requestId s)); [by apply hi_tickets0|lia| |exact HU].
    by apply not_eq_sym, Hid.
  - intros Hc Ho. destruct p.
    + destruct (Hother PRIORITY_OPERATIONAL ltac:(done)) as [E Hid]. cbn in *. rewrite E in *.
      destruct (Hthis Hc) as [-> _]. intros E'. by apply Hid.
    + destruct (Hother PRIORITY_CRITICAL ltac:(done)) as [E Hid]. cbn in *. rewrite E in *.
      destruct (Hthis Ho) as [-> _]. by apply Hid.
Qed.

(** The id and the stamp a batch goes out with. *)
Lemma carry_history cfg s T p env batch attempts :
  (0 < budget)%nat -> sc_retryBudget cfg = budget -> history s T ->
  sm_requestId s < NVPSS_DECISION_REQUEST_ID_MAX ->
  let t := carry_ticket (retained p s) (batch_ticket batch) in
  let out := sendDecisionRequestWithRetry cfg attempts s (reuse_id t (batch_request env s batch)) t in
  send_history (sm_requestId s) (sm_requestId (sr_sender out)) T (sr_transmitted out)
    (dr_requestId (sr_request out)) (tk_stamp (sr_ticket out)) (tk_attempts t) /\
  (forall p', p' <> p -> tk_seqs (retained p' s) <> [] -> tk_requestId (retained p' s) <> dr_requestId (sr_request out)) /\
  tk_stamped (sr_ticket out) = true /\ tk_seqs (sr_ticket out) = map qe_seq batch /\ tk_attempts (sr_ticket out) = tk_attempts t.
Proof.
  intros Hb Hc H Hmax t out. assert (H' := H). destruct H.
  assert (sent_as s (reuse_id t (batch_request env s batch)) t budget out) as Hsa
    by (rewrite <- Hc; apply send_loop_spec; lia).
  clearbody out. destruct Hsa. destruct sa_ticket0 as [Eseq Eatt].
  unfold t in Eseq, Eatt, sa_id0, sa_next0, sa_stamp0 |- *. clear t.
  unfold carry_ticket, reuse_id in *.
  destruct (psdBatchIdentityMatches (retained p s) (batch_ticket batch)) eqn:Em.
  - assert (tk_seqs (retained p s) <> []) as Hne.
    { unfold psdBatchIdentityMatches in Em. apply andb_true_iff in Em as [Em _]. by destruct (tk_seqs (retained p s)). }
    destruct (hi_tickets0 p Hne). cbn [tk_requestId tk_stamped tk_stamp tk_attempts] in *.
    rewrite (proj2 (Z.eqb_neq (tk_requestId (retained p s)) 0)) in sa_id0, sa_next0 by lia. cbn [negb] in sa_id0, sa_next0.
    change (dr_requestId (NvPSSAssignSerializedDecisionRequestId (tk_requestId (retained p s)) (batch_request env s batch)))
      with (tk_requestId (retained p s)) in sa_id0, sa_next0.
    rewrite (proj2 (Z.eqb_neq (tk_requestId (retained p s)) 0)) in sa_id0, sa_next0 by lia.
    unfold NVPSS_PSD_BATCH_MAX_DELIVERY_ATTEMPTS in *.
    assert (u32 (tk_attempts (retained p s) + 1) = tk_attempts (retained p s) + 1) as Hu by (apply u32_small; unfold is_u32; lia).
    rewrite Hu in *. rewrite sa_id0, (sa_stamp0 th_stamped0) in *. split_and!; try done.
    + constructor; try done; try (unfold NVPSS_PSD_BATCH_MAX_DELIVERY_ATTEMPTS; lia).
    + intros p' Hp Hne'. destruct p, p'; try done; cbn in *; intros E; by apply hi_distinct0.
  - cbn [tk_requestId tk_stamped tk_stamp tk_attempts batch_ticket] in *. change (0 =? 0) with true in *. cbn [negb] in *.
    change (dr_requestId (batch_request env s batch)) with 0 in *. change (0 =? 0) with true in *. cbv iota in *.
    rewrite allocated_from_valid in sa_id0, sa_next0 by (apply id_valid_iff; unfold NVPSS_DECISION_REQUEST_ID_MAX in *; lia).
    assert (NvPSSNextDecisionRequestIdAfter (sm_requestId s) = sm_requestId s + 1) as Hn.
    { unfold NvPSSNextDecisionRequestIdAfter. destruct (Z.leb_spec NVPSS_DECISION_REQUEST_ID_MAX (sm_requestId s)); [lia|].
      apply u32_small. unfold is_u32, NVPSS_DECISION_REQUEST_ID_MAX, UINT32_MAX in *. lia. }
    rewrite Hn in sa_next0. rewrite sa_id0 in *. split_and!; try done.
    + rewrite sa_next0. constructor; try done; try (unfold NVPSS_PSD_BATCH_MAX_DELIVERY_ATTEMPTS; lia);
        rewrite (transmissions_fresh _ _ _ hi_ids0) by lia; [constructor|done].
    + intros p' Hp Hne'. destruct (hi_tickets0 p' Hne'). lia.
Qed.

(** The timers of a pass change neither the ids nor the tickets. *)
Lemma pass_ready_same cfg pa s :
  sm_requestId (pass_ready cfg pa s) = sm_requestId s /\ sm_delivery (pass_ready cfg pa s) = sm_delivery s /\
  sm_criticalYieldPending (pass_ready cfg pa s) = sm_criticalYieldPending s /\
  sm_sendRetryNotBeforeNs (pass_ready cfg pa s) = sm_sendRetryNotBeforeNs s /\
  sm_retainedCritical (pass_ready cfg pa s) = sm_retainedCritical s /\
  sm_retainedOperational (pass_ready cfg pa s) = sm_retainedOperational s.
Proof.
  unfold pass_ready, status_noop. destruct (_ <=? _); [|by split_and!].
  destruct (enqueueStatusNoopEvent _ _ _) as [? []]; by split_and!.
Qed.

Lemma history_same s s' T :
  sm_requestId s' = sm_requestId s -> sm_retainedCritical s' = sm_retainedCritical s ->
  sm_retainedOperational s' = sm_retainedOperational s -> history s T -> history s' T.
Proof.
  intros En Ec Eo []. constructor; rewrite ?En, ?Ec, ?Eo; try done.
  intros p. replace (retained p s') with (retained p s) by (by destruct p). apply hi_tickets0.
Qed.

(** What [settle] makes of the ids and the tickets. *)
Lemma settle_spec cfg p pa out :
  let s' := advance_gate p pa (settle cfg p pa out) in
  let ticket := with_request_id (dr_requestId (sr_request out)) (sr_ticket out) in
  sm_requestId s' = sm_requestId (sr_sender out) /\
  (forall p', p' <> p -> retained p' s' = retained p' (sr_sender out)) /\
  retained p s' = (if sr_ok out || (NVPSS_PSD_BATCH_MAX_DELIVERY_ATTEMPTS <=? tk_attempts (sr_ticket out))
                   then empty_ticket else ticket).
Proof.
  cbv zeta. unfold settle, dropUndeliverableBatch. cbn [tk_attempts with_request_id].
  destruct (sr_ok out); [|destruct (NVPSS_PSD_BATCH_MAX_DELIVERY_ATTEMPTS <=? tk_attempts (sr_ticket out)); [destruct (_ =? _)|]];
    (split_and!; [by destruct p|intros p' Hp; by destruct p, p'|by destruct p]).
Qed.

Lemma history_pass cfg s T pa :
  (0 < budget)%nat -> sc_retryBudget cfg = budget -> history s T -> sm_requestId s < NVPSS_DECISION_REQUEST_ID_MAX ->
  let '(s', sent) := sender_pass cfg s pa in
  history s' (T ++ sent) /\ sm_requestId s' <= sm_requestId s + 1.
Proof.
  intros Hb Hc H Hmax. unfold sender_pass. destruct (pass_ready_same cfg pa s) as (En & _ & _ & _ & Ec & Eo).
  apply (history_same s (pass_ready cfg pa s)) in H; [|done..]. rewrite <- En in *.
  set (s1 := pass_ready cfg pa s) in *. clearbody s1.
  destruct (due_priority _ s1) as [p|]; [|rewrite app_nil_r; split; [done|lia]].
  destruct (buildDecisionRequestFromQueuedEvents _ p s1) as [[r built]|] eqn:Eb; [|rewrite app_nil_r; split; [done|lia]].
  apply build_spec in Eb as (batch & _ & Hne & -> & ->). unfold pass_send.
  destruct (carry_history cfg s1 T p (pa_env pa) batch (pa_attempts pa) Hb Hc H Hmax) as (Hs & Hoth & Hst & Hseqs & Hatt).
  set (out := sendDecisionRequestWithRetry _ _ _ _ _) in *.
  assert (forall p', retained p' (sr_sender out) = retained p' s1) as Hret.
  { intros p'. destruct (send_loop_retained cfg (sc_retryBudget cfg) 1 (pa_attempts pa) s1
      (reuse_id (carry_ticket (retained p s1) (batch_ticket batch)) (batch_request (pa_env pa) s1 batch))
      (carry_ticket (retained p s1) (batch_ticket batch))) as [E1 E2]. by destruct p'. }
  destruct (settle_spec cfg p pa out) as (E1 & E2 & E3).
  assert (sm_requestId (sr_sender out) <= sm_requestId s1 + 1) as Hle by (destruct Hs; lia).
  split; [|by rewrite E1].
  eapply (history_sent s1 _ T _ _ _ _ p H); rewrite ?E1; [exact Hs|lia|..].
  - intros p' Hp. rewrite E2 by done. by split; [apply Hret|apply Hoth].
  - rewrite E3. rewrite Hatt. match goal with |- context [if ?b then empty_ticket else _] => destruct b eqn:E end;
      [intros Hx; by destruct Hx|]. intros _. split; [done|].
    apply orb_false_iff in E as [_ E]. apply Z.leb_gt in E.
    by eapply send_history_ticket.
Qed.

Lemma history_run cfg s T passes :
  (0 < budget)%nat -> sc_retryBudget cfg = budget -> history s T ->
  sm_requestId s + Z.of_nat (length passes) <= NVPSS_DECISION_REQUEST_ID_MAX ->
  history (sender_run cfg s passes).1 (T ++ (sender_run cfg s passes).2).
Proof.
  intros Hb Hc. revert s T. induction passes as [|pa rest IH]; intros s T H Hlen; cbn [sender_run]; [by rewrite app_nil_r|].
  cbn [length] in Hlen. pose proof (history_pass cfg s T pa Hb Hc H ltac:(lia)) as Hp.
  destruct (sender_pass cfg s pa) as [s1 sent]. destruct Hp as [H1 Hle].
  specialize (IH s1 (T ++ sent) H1 ltac:(lia)). destruct (sender_run cfg s1 rest). cbn [fst snd] in *. by rewrite app_assoc.
Qed.

Lemma initial_history cfg now : history (initial_sender cfg now) [].
Proof.
  constructor.
  - done.
  - constructor.
  - intros q q' Hq. by apply elem_of_nil in Hq.
  - intros i. cbn. lia.
  - intros [] Hne; by destruct Hne.
  - intros Hne. by destruct Hne.
Qed.

End history.

(** ** Taking turns *)

Lemma due_build cfg pa s p :
  due_priority (pa_nowNs pa) (pass_ready cfg pa s) = Some p ->
  exists batch, sender_pass cfg s pa = pass_send cfg p pa (pass_ready cfg pa s)
    (batch_request (pa_env pa) (pass_ready cfg pa s) batch) (batch_ticket batch).
Proof.
  intros Hd. unfold sender_pass. rewrite Hd. set (s1 := pass_ready cfg pa s) in *.
  assert (hasQueuedEvents p (sm_staging s1) = true) as Hq.
  { revert Hd. unfold due_priority, NvPSSPsdSelectDuePriority, NvPSSPsdReleaseGateIsDue, snapshot. cbn.
    destruct (hasQueuedEvents PRIORITY_CRITICAL _) eqn:Ec, (hasQueuedEvents PRIORITY_OPERATIONAL _) eqn:Eo; cbn [andb];
      repeat case_match; intros; simplify_eq; done. }
  unfold buildDecisionRequestFromQueuedEvents, hasQueuedEvents in *. cbv zeta.
  destruct (lane_of p (sm_staging s1)) as [|q lane] eqn:El; [done|].
  exists (take WIRE_BATCH (q :: lane)). reflexivity.
Qed.

Lemma settle_yield cfg p pa out :
  sm_criticalYieldPending (advance_gate p pa (settle cfg p pa out)) =
  match p with
  | PRIORITY_CRITICAL => negb (length (tk_seqs (sm_retainedCritical (advance_gate p pa (settle cfg p pa out)))) =? 0)%nat
  | PRIORITY_OPERATIONAL => false
  end.
Proof.
  unfold settle, dropUndeliverableBatch. destruct (sr_ok out); [by destruct p|].
  destruct (_ <=? _); [|by destruct p]. destruct (_ =? _); by destruct p.
Qed.

(** ** Properties *)


(** A request id stands for one request: over fewer passes than there are
    ids, all transmissions of one id carry the same status stamp, however often
    it is rebuilt and retried and whatever fault is raised in between; an id is
    transmitted at most three times the retry budget; and only valid ids are
    used. *)
Theorem request_id_one_stamp cfg now passes :
  (0 < sc_retryBudget cfg)%nat -> Z.of_nat (length passes) < NVPSS_DECISION_REQUEST_ID_MAX ->
  let sent := (sender_run cfg (initial_sender cfg now) passes).2 in
  (forall q q', q ∈ sent -> q' ∈ sent -> dr_requestId q = dr_requestId q' -> dr_pssStatus q = dr_pssStatus q') /\
  (forall i, (length (transmissions i sent) <= 3 * sc_retryBudget cfg)%nat) /\
  Forall (fun q => NvPSSDecisionRequestIdIsValid (dr_requestId q) = true) sent.
Proof.
  intros Hb Hlen. cbv zeta.
  pose proof (history_run (sc_retryBudget cfg) cfg (initial_sender cfg now) [] passes Hb eq_refl
                (initial_history _ cfg now) ltac:(cbn; lia)) as H. cbn [app] in H.
  destruct H. split_and!; [done|done|]. eapply Forall_impl; [exact hi_ids0|]. cbn. intros q Hq.
  apply id_valid_iff. unfold NVPSS_DECISION_REQUEST_ID_MAX in *. lia.
Qed.

(** A failing critical batch does not starve the operational lane, nor the
    reverse: after a pass that leaves a critical batch under retry, the next
    pass past the back-off whose operational gate is due sends from the
    operational lane; after an operational pass, the next one past the back-off
    sends from the critical lane if it holds anything. *)
Theorem lanes_alternate cfg s pa pa' p :
  let s' := (sender_pass cfg s pa).1 in
  let next := pass_ready cfg pa' s' in
  due_priority (pa_nowNs pa) (pass_ready cfg pa s) = Some p ->
  sm_sendRetryNotBeforeNs s' <= pa_nowNs pa' ->
  match p with
  | PRIORITY_CRITICAL =>
    tk_seqs (sm_retainedCritical s') <> [] ->
    NvPSSPsdReleaseGateIsDue (hasQueuedEvents PRIORITY_OPERATIONAL (sm_staging next)) (sm_gate next) (pa_nowNs pa') = true ->
    due_priority (pa_nowNs pa') next = Some PRIORITY_OPERATIONAL
  | PRIORITY_OPERATIONAL =>
    hasQueuedEvents PRIORITY_CRITICAL (sm_staging next) = true ->
    due_priority (pa_nowNs pa') next = Some PRIORITY_CRITICAL
  end.
Proof.
  intros s' next Hd Hback. destruct (due_build cfg pa s p Hd) as [batch Hb].
  destruct (pass_ready_same cfg pa' s') as (_ & _ & Ey & Er & _ & _). fold next in Ey, Er.
  assert (sm_criticalYieldPending s' = match p with
    | PRIORITY_CRITICAL => negb (length (tk_seqs (sm_retainedCritical s')) =? 0)%nat | PRIORITY_OPERATIONAL => false end) as Hy
    by (unfold s'; rewrite Hb; apply settle_yield).
  assert ((pa_nowNs pa' <? sm_sendRetryNotBeforeNs next) = false) as Hn by (rewrite Er; apply Z.ltb_ge; lia).
  clearbody next. unfold due_priority, NvPSSPsdSelectDuePriority, snapshot. rewrite Hn.
  cbn [sn_criticalQueued sn_criticalYieldPending sn_operationalQueued sn_operationalGate sn_nowNs]. rewrite Ey, Hy. destruct p.
  - intros Hne Hg. assert ((length (tk_seqs (sm_retainedCritical s')) =? 0)%nat = false) as ->
      by (destruct (tk_seqs (sm_retainedCritical s')); [done|done]).
    cbn. rewrite andb_false_r, Hg. done.
  - intros Hq. by rewrite Hq.
Qed.

(** Where the delivery state machine departs from its comment ("ERROR stays
    active" unless the acknowledged id first went out stamped ERROR): with a
    retry budget of two or more, a batch first sent NORMAL and retried while a
    delivery failure stands clears that failure when its second attempt is
    acknowledged, although no transmission carried ERROR. *)
Theorem retry_clears_delivery_error cfg n attempts s r t :
  sc_retryBudget cfg = S (S n) -> sm_delivery s = DELIVERY_ERROR_ACTIVE ->
  dr_requestId r <> 0 -> tk_stamped t = true -> st_mode (tk_stamp t) <> ERROR ->
  atp_ok (attempts 1%nat) = false -> atp_ok (attempts 2%nat) = true ->
  let out := sendDecisionRequestWithRetry cfg attempts s r t in
  sr_ok out = true /\ sm_delivery (sr_sender out) = DELIVERY_NORMAL /\
  Forall (fun q => st_mode (dr_pssStatus q) <> ERROR) (sr_transmitted out).
Proof.
  intros Hb Hd Hr Ht Hm H1 H2. unfold sendDecisionRequestWithRetry. rewrite Hb.
  assert (Forall (fun q => dr_requestId q = dr_requestId r /\ dr_pssStatus q = tk_stamp t)
    (sr_transmitted (send_loop cfg (S (S n)) 1 attempts s r t))) as Hall by by apply send_loop_assigned.
  cbv zeta. assert (forall l, Forall (fun q => dr_requestId q = dr_requestId r /\ dr_pssStatus q = tk_stamp t) l ->
    Forall (fun q => st_mode (dr_pssStatus q) <> ERROR) l) as Hw.
  { intros l Hl. eapply Forall_impl; [exact Hl|]. cbn. by intros q [_ ->]. }
  split_and!; [| |by apply Hw]; clear Hall Hw; cbn [send_loop]; unfold assign_id;
    rewrite (proj2 (Z.eqb_neq _ _) Hr); cbv zeta; unfold first_stamp; rewrite Ht, H1; cbn [sr_ok sr_sender];
    change (dr_requestId (finalize (tk_stamp t) r)) with (dr_requestId r);
    rewrite (proj2 (Z.eqb_neq _ _) Hr), H2; [done|].
  cbn [sr_sender]. unfold markDeliveryRecovered. rewrite bool_decide_false by done. by rewrite andb_false_r.
Qed.

(** Where the overflow departs from its contract ("held until every refused
    report has been delivered"): when the last re-admitted report is abandoned
    as undeliverable, the same commit that drops it clears the overflow, if an
    ERROR stamp of the refusal was acknowledged before; the report has left the
    lane and the pending list, and nothing but the ledger remembers it. *)
Theorem abandoned_report_clears_overflow cfg s x ticket :
  sg_critical (sm_staging s) = [x] -> must_deliver x -> sg_refusedPending (sm_staging s) = [] ->
  ov_active (sg_overflow (sm_staging s)) = true ->
  ov_deliveredGeneration (sg_overflow (sm_staging s)) = ov_generation (sg_overflow (sm_staging s)) ->
  tk_seqs ticket = [qe_seq x] ->
  let s' := dropUndeliverableBatch cfg PRIORITY_CRITICAL ticket [] s in
  ov_active (sg_overflow (sm_staging s')) = false /\ sg_critical (sm_staging s') = [] /\
  sg_refusedPending (sm_staging s') = [].
Proof.
  intros Hc Hm Hp Ha Hg Ht. unfold dropUndeliverableBatch, commit, commitQueuedEvents. rewrite Ht. cbn -[maybeClearCriticalLaneOverflow].
  rewrite Hc. unfold erase_seqs. cbn -[maybeClearCriticalLaneOverflow]. rewrite Z.eqb_refl.
  unfold maybeClearCriticalLaneOverflow. cbn. rewrite Ha, Hp. cbn. unfold refused_outstanding, clearIfDrained. cbn.
  rewrite Ha, Hg, Z.ltb_irrefl, andb_false_r. cbn.
  change (u64 (Z.of_nat 0 * 2)) with 0. change (Z.of_nat 1 =? 0) with false.
  assert ((Z.of_nat (sc_criticalDepth (sc_staging cfg)) <? 0) = false) as -> by (apply Z.ltb_ge; lia). done.
Qed.

(** ** Witnesses *)

Definition demo_config (budget : nat) : SenderConfig :=
  {| sc_staging := small_config; sc_retryBudget := budget; sc_statusNoopIntervalNs := 5000000000 |}.

Definition quiet_env : Env := {| env_fusionActive := false; env_rpc := None; env_trust := fun _ _ => trusted |}.

Definition attempt (ok : bool) : Attempt := {| atp_env := quiet_env; atp_during := []; atp_ok := ok |}.

(** A pass at [ms] milliseconds, every attempt of which ends in [ok]. *)
Definition demo_pass (before : list Enqueue) (ms : Z) (ok : bool) : Pass := {|
  pa_before := before; pa_nowNs := ms * 1000000; pa_reassert := []; pa_env := quiet_env;
  pa_attempts := fun _ => attempt ok; pa_failedNs := ms * 1000000; pa_commitDuring := []; pa_postSendNs := ms * 1000000 |}.

Definition demo_event (p : NvPSSPsdSendPriority) (id : Z) : Enqueue := {|
  en_priority := p; en_clientId := 0;
  en_event := report id (match p with PRIORITY_CRITICAL => SW_FAIL | PRIORITY_OPERATIONAL => EVENT_0 end);
  en_evictable := false; en_queuedTrust := trusted |}.

(** A critical batch fails, an operational one goes out in between, the
    critical one is retried, and a new one follows. *)
Definition interleaved_passes : list Pass :=
  [demo_pass [demo_event PRIORITY_CRITICAL 11; demo_event PRIORITY_OPERATIONAL 12] 1 false;
   demo_pass [] 200 true; demo_pass [] 400 true; demo_pass [demo_event PRIORITY_CRITICAL 13] 600 true].

(** Where the retry rule departs from its comment ("reusing the id makes the
    retry recognisable as the same request"): because the lanes take turns, an
    operational request with the next id goes out before the critical retry;
    the gateway, which knows only the last id, then takes the retry, and the
    new request after it, for gaps: it forwards the repeated events again and
    raises a sequence fault at every decision maker. *)
Theorem interleaved_retry_seen_as_gap :
  let sent := (sender_run (demo_config 1) (initial_sender (demo_config 1) 1) interleaved_passes).2 in
  dr_requestId <$> sent = [1; 2; 1; 3] /\
  observe_ids initial_pss_sequence (dr_requestId <$> sent) = [ACCEPT; ACCEPT; GAP; GAP] /\
  NvPSDGatewayShouldForwardObservedPssRequest GAP = true.
Proof. vm_compute. by split_and!. Qed.

Lemma demo_event_valid p id : id <> 0 -> valid_event (en_event (demo_event p id)).
Proof. intros Hid. destruct p; constructor; try done; constructor; try done. Qed.

Lemma interleaved_passes_ok : Forall pass_ok interleaved_passes.
Proof.
  repeat constructor; try done; try (intros v Hv; discriminate); repeat constructor; try (by apply demo_event_valid); try discriminate.
Qed.


Lemma request_id_one_stamp_witness :
  (length (transmissions 1 (sender_run (demo_config 1) (initial_sender (demo_config 1) 1) interleaved_passes).2) <= 3)%nat.
Proof.
  exact (proj1 (proj2 (request_id_one_stamp (demo_config 1) 1 interleaved_passes (le_n 1) ltac:(done))) 1).
Defined.

Definition demo_ready : Sender := initial_sender (demo_config 1) 1.

Lemma lanes_alternate_witness :
  due_priority 200000000
    (pass_ready (demo_config 1) (demo_pass [] 200 true)
      (sender_pass (demo_config 1) demo_ready
        (demo_pass [demo_event PRIORITY_CRITICAL 11; demo_event PRIORITY_OPERATIONAL 12] 1 false)).1)
  = Some PRIORITY_OPERATIONAL.
Proof.
  apply (lanes_alternate (demo_config 1) demo_ready
           (demo_pass [demo_event PRIORITY_CRITICAL 11; demo_event PRIORITY_OPERATIONAL 12] 1 false)
           (demo_pass [] 200 true) PRIORITY_CRITICAL).
  - vm_compute. reflexivity.
  - vm_compute. discriminate.
  - vm_compute. discriminate.
  - vm_compute. reflexivity.
Defined.

Definition retried_ticket : PsdBatchTicket := {|
  tk_seqs := [0]; tk_requestId := 5; tk_attempts := 2; tk_stamped := true;
  tk_stamp := {| st_hardwareErrorFlag := false; st_softwareErrorFlag := false; st_mode := NORMAL |}; tk_stampGeneration := 0 |}.

Lemma retry_clears_delivery_error_witness :
  sm_delivery (sr_sender (sendDecisionRequestWithRetry (demo_config 2) (fun k => attempt (k =? 2)%nat)
    (set_delivery DELIVERY_ERROR_ACTIVE demo_ready) (sample_request 5) retried_ticket)) = DELIVERY_NORMAL.
Proof.
  apply (retry_clears_delivery_error (demo_config 2) 0 (fun k => attempt (k =? 2)%nat)
           (set_delivery DELIVERY_ERROR_ACTIVE demo_ready) (sample_request 5) retried_ticket); done.
Defined.

(** The lane is filled, a ninth report refused, the first batch abandoned and
    the refused report re-admitted; a no-op carried the ERROR stamp. *)
Definition readmitted_staging : Staging :=
  fold_left (staging_step small_config) [OpCommit PRIORITY_CRITICAL [0; 1; 2; 3; 4; 5; 6; 7] []; OpStampDelivered 1] full_staging.

Lemma abandoned_report_clears_overflow_witness :
  ov_active (sg_overflow (sm_staging
    (dropUndeliverableBatch (demo_config 1) PRIORITY_CRITICAL
       {| tk_seqs := [8]; tk_requestId := 7; tk_attempts := 3; tk_stamped := true; tk_stamp := zero_status; tk_stampGeneration := 1 |}
       [] (set_staging readmitted_staging demo_ready)))) = false.
Proof.
  refine (proj1 (abandoned_report_clears_overflow (demo_config 1) (set_staging readmitted_staging demo_ready)
    (with_seq 8 false {| qe_clientId := 0; qe_seq := 0; qe_event := report 9 SW_FAIL; qe_queuedTrust := trusted; qe_evictable := false |})
    _ _ _ _ _ _ _)); vm_compute; reflexivity.
Defined.
