(* ===== verification/Gateway.v ===== *)
(** * The decision-maker gateway

    [NvPSDGateway.cpp]: the client table and its critical sections
    ([GatewayOp]), the fan-out of a decision request to the registered clients,
    the callback [onEventNotificationReceive], the registration listener and
    the heartbeat ladder.

    Three threads share the table under [clientTableMutex] and make every
    transport call outside it.  Each critical section is one [GatewayOp];
    [between k] is what the other threads do before the [k]-th critical section
    of the handler under consideration, and [transport] gives the outcome of
    each send ([None] once the transport is closed).  Log lines are not
    modelled. *)

From S2P Require Import Prelude Protocol Crc Validate SdmRequestState GatewayContract SdmSequence.

(** ** Constants *)

Definition NVPSD_GATEWAY_MAX_CLIENTS : nat := 10.
Definition NVPSD_GATEWAY_REG_MAGIC : list Z := bytes_of_string "REGR".
Definition NVPSD_GATEWAY_HB_MAGIC_CLIENT : list Z := bytes_of_string "HBPC".
Definition NVPSD_GATEWAY_HB_MSG_SIZE : nat := 8.
Definition HB_MAX_MISSED_DEFAULT : Z := 10.
Definition HB_SEQ_NONE : Z := UINT32_MAX.
Definition ADMISSION_TIMEOUT_MS : Z := 5000.

Definition IMPLEMENT_SAFETY_CONTROL : Z := 3.
Definition NO_ACTION_REQUIRED : Z := 4.

Inductive NvPSDErr := NVPSD_SUCCESS | NVPSD_FAIL | NVPSD_NO_RSP.

(** ** State *)

Record ClientEntry := {
  ce_peer : Z;
  ce_eventTypes : gset Z;
  ce_inUse : bool;
  ce_lastAckedSeq : Z;
  ce_gatewayTxEpoch : Z;
  ce_nextGatewayTxSeq : Z;
  ce_missedCount : Z;
  ce_recoveryOwedGen : Z;
}.

Record PendingPeer := { pp_peer : Z; pp_deadline : Z }.

Record Gateway := {
  gw_clients : list ClientEntry;
  gw_pending : list PendingPeer;
  gw_deferredDrops : list Z;
  gw_pssFaultGeneration : Z;
  gw_epochSeed : Z;
  gw_hbSeqNo : Z;
  gw_pssSequence : NvPSDGatewayPssSequenceState;
  gw_limiter : RegrRateLimiter;
}.

Definition set_ce_tx (epoch seq : Z) (ce : ClientEntry) : ClientEntry := {|
  ce_peer := ce_peer ce; ce_eventTypes := ce_eventTypes ce; ce_inUse := ce_inUse ce;
  ce_lastAckedSeq := ce_lastAckedSeq ce; ce_gatewayTxEpoch := epoch; ce_nextGatewayTxSeq := seq;
  ce_missedCount := ce_missedCount ce; ce_recoveryOwedGen := ce_recoveryOwedGen ce |}.

Definition set_ce_hb (acked missed : Z) (ce : ClientEntry) : ClientEntry := {|
  ce_peer := ce_peer ce; ce_eventTypes := ce_eventTypes ce; ce_inUse := ce_inUse ce;
  ce_lastAckedSeq := acked; ce_gatewayTxEpoch := ce_gatewayTxEpoch ce; ce_nextGatewayTxSeq := ce_nextGatewayTxSeq ce;
  ce_missedCount := missed; ce_recoveryOwedGen := ce_recoveryOwedGen ce |}.

Definition set_ce_owed (gen : Z) (ce : ClientEntry) : ClientEntry := {|
  ce_peer := ce_peer ce; ce_eventTypes := ce_eventTypes ce; ce_inUse := ce_inUse ce;
  ce_lastAckedSeq := ce_lastAckedSeq ce; ce_gatewayTxEpoch := ce_gatewayTxEpoch ce;
  ce_nextGatewayTxSeq := ce_nextGatewayTxSeq ce; ce_missedCount := ce_missedCount ce; ce_recoveryOwedGen := gen |}.

Definition set_clients (l : list ClientEntry) (gw : Gateway) : Gateway := {|
  gw_clients := l; gw_pending := gw_pending gw; gw_deferredDrops := gw_deferredDrops gw;
  gw_pssFaultGeneration := gw_pssFaultGeneration gw; gw_epochSeed := gw_epochSeed gw; gw_hbSeqNo := gw_hbSeqNo gw;
  gw_pssSequence := gw_pssSequence gw; gw_limiter := gw_limiter gw |}.

Definition set_pending (l : list PendingPeer) (gw : Gateway) : Gateway := {|
  gw_clients := gw_clients gw; gw_pending := l; gw_deferredDrops := gw_deferredDrops gw;
  gw_pssFaultGeneration := gw_pssFaultGeneration gw; gw_epochSeed := gw_epochSeed gw; gw_hbSeqNo := gw_hbSeqNo gw;
  gw_pssSequence := gw_pssSequence gw; gw_limiter := gw_limiter gw |}.

Definition set_drops (l : list Z) (gw : Gateway) : Gateway := {|
  gw_clients := gw_clients gw; gw_pending := gw_pending gw; gw_deferredDrops := l;
  gw_pssFaultGeneration := gw_pssFaultGeneration gw; gw_epochSeed := gw_epochSeed gw; gw_hbSeqNo := gw_hbSeqNo gw;
  gw_pssSequence := gw_pssSequence gw; gw_limiter := gw_limiter gw |}.

Definition set_generation (g : Z) (gw : Gateway) : Gateway := {|
  gw_clients := gw_clients gw; gw_pending := gw_pending gw; gw_deferredDrops := gw_deferredDrops gw;
  gw_pssFaultGeneration := g; gw_epochSeed := gw_epochSeed gw; gw_hbSeqNo := gw_hbSeqNo gw;
  gw_pssSequence := gw_pssSequence gw; gw_limiter := gw_limiter gw |}.

Definition set_seed (s : Z) (gw : Gateway) : Gateway := {|
  gw_clients := gw_clients gw; gw_pending := gw_pending gw; gw_deferredDrops := gw_deferredDrops gw;
  gw_pssFaultGeneration := gw_pssFaultGeneration gw; gw_epochSeed := s; gw_hbSeqNo := gw_hbSeqNo gw;
  gw_pssSequence := gw_pssSequence gw; gw_limiter := gw_limiter gw |}.

Definition set_hbSeqNo (s : Z) (gw : Gateway) : Gateway := {|
  gw_clients := gw_clients gw; gw_pending := gw_pending gw; gw_deferredDrops := gw_deferredDrops gw;
  gw_pssFaultGeneration := gw_pssFaultGeneration gw; gw_epochSeed := gw_epochSeed gw; gw_hbSeqNo := s;
  gw_pssSequence := gw_pssSequence gw; gw_limiter := gw_limiter gw |}.

Definition set_pssSequence (s : NvPSDGatewayPssSequenceState) (gw : Gateway) : Gateway := {|
  gw_clients := gw_clients gw; gw_pending := gw_pending gw; gw_deferredDrops := gw_deferredDrops gw;
  gw_pssFaultGeneration := gw_pssFaultGeneration gw; gw_epochSeed := gw_epochSeed gw; gw_hbSeqNo := gw_hbSeqNo gw;
  gw_pssSequence := s; gw_limiter := gw_limiter gw |}.

Definition set_limiter (l : RegrRateLimiter) (gw : Gateway) : Gateway := {|
  gw_clients := gw_clients gw; gw_pending := gw_pending gw; gw_deferredDrops := gw_deferredDrops gw;
  gw_pssFaultGeneration := gw_pssFaultGeneration gw; gw_epochSeed := gw_epochSeed gw; gw_hbSeqNo := gw_hbSeqNo gw;
  gw_pssSequence := gw_pssSequence gw; gw_limiter := l |}.

(** The table [launchPSDControl] leaves for [numClients] slots, with the epoch
    seed it draws and the limiter [main] configures. *)
Definition free_entry : ClientEntry := {|
  ce_peer := NVPSF_PEER_INVALID; ce_eventTypes := ∅; ce_inUse := false; ce_lastAckedSeq := 0;
  ce_gatewayTxEpoch := 0; ce_nextGatewayTxSeq := NVPSD_GATEWAY_DECISION_TX_SEQ_MIN; ce_missedCount := 0;
  ce_recoveryOwedGen := 0 |}.

Definition launchPSDControl (numClients : nat) (seed regrMaxPerWindow regrWindowMs : Z) : option Gateway :=
  if (numClients =? 0)%nat || (NVPSD_GATEWAY_MAX_CLIENTS <? numClients)%nat then None
  else Some {|
    gw_clients := replicate numClients free_entry; gw_pending := []; gw_deferredDrops := [];
    gw_pssFaultGeneration := 0; gw_epochSeed := seed; gw_hbSeqNo := 1;
    gw_pssSequence := initial_pss_sequence; gw_limiter := regr_configure regrMaxPerWindow regrWindowMs |}.

(** [makeGatewayEpochSeed]: the clock count and the process id, mixed in 64 bits. *)
Definition makeGatewayEpochSeed (nowCount pid : Z) : Z :=
  let pidPart := u64 (Z.shiftl (u32 pid) 16) in
  let mixed := Z.lxor nowCount pidPart in
  let seed := Z.lxor (Z.lxor mixed (u64 (Z.shiftl mixed 17))) (Z.shiftr mixed 29) in
  if negb (NvPSDGatewayDecisionPacketEpochIsValid seed) then 1 else seed.

(** ** Table helpers *)

(** Wrap-safe: [sentSeq] is ahead of [ackedSeq] in the 32-bit ring. *)
Definition isSeqAhead (sentSeq ackedSeq : Z) : bool :=
  let diff := u32 (sentSeq - ackedSeq) in negb (diff =? 0) && (diff <=? 0x7FFFFFFF).

Fixpoint find_slot (p : ClientEntry -> bool) (l : list ClientEntry) : option nat :=
  match l with
  | [] => None
  | ce :: l' => if p ce then Some O else S <$> find_slot p l'
  end.

Definition findSlotByPeerLocked (peer : Z) (l : list ClientEntry) : option nat :=
  if peer =? NVPSF_PEER_INVALID then None else find_slot (fun ce => ce_inUse ce && (ce_peer ce =? peer)) l.

Definition recoveryOwedByAnyLocked (l : list ClientEntry) : bool :=
  existsb (fun ce => ce_inUse ce && negb (ce_recoveryOwedGen ce =? 0)) l.

(** A released slot and the peers to hand back to the transport. *)
Definition release_entry (needsTransportDrop : bool) (ce : ClientEntry) : ClientEntry * list Z :=
  ({| ce_peer := NVPSF_PEER_INVALID; ce_eventTypes := ce_eventTypes ce; ce_inUse := false;
      ce_lastAckedSeq := HB_SEQ_NONE; ce_gatewayTxEpoch := 0;
      ce_nextGatewayTxSeq := NVPSD_GATEWAY_DECISION_TX_SEQ_MIN; ce_missedCount := 0; ce_recoveryOwedGen := 0 |},
   if needsTransportDrop && negb (ce_peer ce =? NVPSF_PEER_INVALID) then [ce_peer ce] else []).

Definition releaseClientSlotLocked (slot : nat) (needsTransportDrop : bool) (gw : Gateway) : Gateway :=
  match gw_clients gw !! slot with
  | None => gw
  | Some ce =>
    let '(ce', drops) := release_entry needsTransportDrop ce in
    set_drops (gw_deferredDrops gw ++ drops) (set_clients (<[slot := ce']> (gw_clients gw)) gw)
  end.

(** The epoch and the next seed: [fetch_add], re-based at 1 on an invalid draw. *)
Definition allocateGatewayClientEpoch (seed : Z) : Z * Z :=
  if negb (NvPSDGatewayDecisionPacketEpochIsValid seed) then (1, 2) else (seed, u64 (seed + 1)).

Definition remove_pending (peer : Z) (l : list PendingPeer) : list PendingPeer :=
  filter (fun p => pp_peer p <> peer) l.

(** ** Fan-out *)

Definition set_dr_size (n : Z) (r : DecisionRequest) : DecisionRequest := {|
  dr_requestId := dr_requestId r; dr_sensorDataSummarySize := n;
  dr_sensorDataSummary := dr_sensorDataSummary r; dr_pssStatus := dr_pssStatus r;
  dr_integrity := dr_integrity r |}.

(** Event type to the indices of its entries. *)
Definition add_index (req : DecisionRequest) (m : gmap Z (list nat)) (i : nat) : gmap Z (list nat) :=
  let t := ev_type (sd_event (nth i (dr_sensorDataSummary req) zero_sensorData)) in
  <[t := default [] (m !! t) ++ [i]]> m.

Definition buildEventTypeToIndices (req : DecisionRequest) : gmap Z (list nat) :=
  fold_left (add_index req) (seq 0 (Z.to_nat (summary_count req))) ∅.

(** [subscribedTypes] in the iteration order of the client's hash set. *)
Definition buildRequestFromIndex (fullReq : DecisionRequest) (eventTypeToIndices : gmap Z (list nat))
    (subscribedTypes : list EventType) : DecisionRequest * Z :=
  let indices := concat (map (fun et => default [] (eventTypeToIndices !! et)) subscribedTypes) in
  let sorted := take (Z.to_nat MAX_SENSORS_DATA_SUMMARY_SIZE) (merge_sort le indices) in
  let out := map (fun i => nth i (dr_sensorDataSummary fullReq) zero_sensorData) sorted in
  let outCount := Z.of_nat (length out) in
  ({| dr_requestId := dr_requestId fullReq; dr_sensorDataSummarySize := outCount;
      dr_sensorDataSummary := out ++ drop (length out) (dr_sensorDataSummary zero_request);
      dr_pssStatus := dr_pssStatus fullReq; dr_integrity := zero_integrity |}, outCount).

Record SendItem := {
  si_peer : Z;
  si_packet : NvPSDGatewayDecisionRequestPacket;
  si_eventCount : Z;
  si_slot : nat;
  si_recoveryOwedGen : Z;
}.

Record RecoverySent := { rs_slot : nat; rs_peer : Z; rs_recoveryOwedGen : Z }.

(** Tier 2 of the heartbeat ladder: no forwarding. *)
Definition degraded (maxF : Z) (ce : ClientEntry) : bool :=
  (0 <? ce_missedCount ce) && (maxF / 2 <? ce_missedCount ce) && (ce_missedCount ce <? maxF).

Section fanout.
Context (maxF : Z) (req : DecisionRequest) (sendFullRequest recovery : bool).

(** The payload of one client and its event count. *)
Definition client_payload (ce : ClientEntry) : DecisionRequest * Z :=
  if sendFullRequest then (set_dr_size (summary_count req) req, summary_count req)
  else buildRequestFromIndex req (buildEventTypeToIndices req) (elements (ce_eventTypes ce)).

(** One iteration of the build loop: the entry, the epoch seed and the item
    put on the send list. *)
Definition fanout_client (slot : nat) (seed : Z) (ce : ClientEntry) : ClientEntry * Z * option SendItem :=
  if negb (ce_inUse ce) then (ce, seed, None)
  else if degraded maxF ce then (ce, seed, None)
  else if recovery && negb (NvPSDGatewayRecoveryRecordOwed (ce_recoveryOwedGen ce)) then (ce, seed, None)
  else
    let '(payload, eventCount) := client_payload ce in
    if negb (NvPSDGatewayShouldSendDecisionRequest sendFullRequest eventCount (st_mode (dr_pssStatus payload)))
    then (ce, seed, None)
    else
      let '(ce, seed) :=
        if negb (NvPSDGatewayDecisionPacketEpochIsValid (ce_gatewayTxEpoch ce))
        then let '(epoch, seed) := allocateGatewayClientEpoch seed in
             (set_ce_tx epoch NVPSD_GATEWAY_DECISION_TX_SEQ_MIN ce, seed)
        else (ce, seed) in
      let gatewayTxSeq := ce_nextGatewayTxSeq ce in
      let packet := NvPSDGatewayBuildDecisionRequestPacket (pssDecisionRequestSetCRC payload)
                      (ce_gatewayTxEpoch ce) gatewayTxSeq in
      (set_ce_tx (ce_gatewayTxEpoch ce) (nextGatewayTxSeqAfter gatewayTxSeq) ce, seed,
       (fun p => {| si_peer := ce_peer ce; si_packet := p; si_eventCount := eventCount; si_slot := slot;
                    si_recoveryOwedGen := ce_recoveryOwedGen ce |}) <$> packet).

Fixpoint fanout_clients (slot : nat) (seed : Z) (l : list ClientEntry) : list ClientEntry * Z * list SendItem :=
  match l with
  | [] => ([], seed, [])
  | ce :: l' =>
    let '(ce', seed1, item) := fanout_client slot seed ce in
    let '(l'', seed2, items) := fanout_clients (S slot) seed1 l' in
    (ce' :: l'', seed2, option_list item ++ items)
  end.
End fanout.

(** ** Critical sections *)

(** Pay one debt, if the slot still belongs to the client it was sent to. *)
Definition pay_debt (l : list ClientEntry) (r : RecoverySent) : list ClientEntry :=
  match l !! rs_slot r with
  | Some ce =>
    if negb (ce_inUse ce) || negb (ce_peer ce =? rs_peer r) then l
    else <[rs_slot r :=
             set_ce_owed (NvPSDGatewayRecoveryDebtAfterSend (ce_recoveryOwedGen ce) (rs_recoveryOwedGen r) true) ce]> l
  | None => l
  end.

Definition notePssSyntheticFaultBroadcast (gw : Gateway) : Gateway :=
  let g := u64 (gw_pssFaultGeneration gw + 1) in
  set_generation g (set_clients (map (fun ce => if ce_inUse ce then set_ce_owed g ce else ce) (gw_clients gw)) gw).

(** The slot a valid REGR gets, and whether the peer holds it already. *)
Definition registration_slot (from : Z) (l : list ClientEntry) : option (nat * bool) :=
  match findSlotByPeerLocked from l with
  | Some slot => Some (slot, true)
  | None => (fun slot => (slot, false)) <$> find_slot (fun ce => negb (ce_inUse ce)) l
  end.

Definition register_client (from : Z) (types : gset Z) (gw : Gateway) : Gateway :=
  match registration_slot from (gw_clients gw) with
  | None => gw
  | Some (slot, existingSameClient) =>
    match gw_clients gw !! slot with
    | None => gw
    | Some old =>
      let ce := {| ce_peer := from; ce_eventTypes := types; ce_inUse := true; ce_lastAckedSeq := HB_SEQ_NONE;
                   ce_gatewayTxEpoch := ce_gatewayTxEpoch old; ce_nextGatewayTxSeq := ce_nextGatewayTxSeq old;
                   ce_missedCount := 0; ce_recoveryOwedGen := ce_recoveryOwedGen old |} in
      let gw := set_pending (remove_pending from (gw_pending gw)) gw in
      if existingSameClient then set_clients (<[slot := ce]> (gw_clients gw)) gw
      else
        let '(epoch, seed) := allocateGatewayClientEpoch (gw_epochSeed gw) in
        let l := <[slot := set_ce_tx epoch NVPSD_GATEWAY_DECISION_TX_SEQ_MIN ce]> (gw_clients gw) in
        let owed := if recoveryOwedByAnyLocked l then gw_pssFaultGeneration gw else 0 in
        set_seed seed (set_clients (alter (set_ce_owed owed) slot l) gw)
    end
  end.

(** One client of the heartbeat ladder. *)
Definition ladder_client (maxF seq : Z) (ce : ClientEntry) : ClientEntry * list Z :=
  if ce_inUse ce && isSeqAhead seq (ce_lastAckedSeq ce) then
    let ce := set_ce_hb (ce_lastAckedSeq ce) (ce_missedCount ce + 1) ce in
    if maxF <=? ce_missedCount ce then release_entry true ce else (ce, [])
  else (ce, []).

Inductive GatewayOp :=
  | OpObserve (requestId : Z)
  | OpFanout (req : DecisionRequest) (sendFullRequest recovery : bool)
  | OpNote
  | OpPay (sent : list RecoverySent)
  | OpFlush
  | OpConnected (peer now : Z)
  | OpPend (from now : Z)
  | OpForget (peer : Z)
  | OpGone (peer : Z) (needsTransportDrop : bool)
  | OpAck (from ackSeq : Z)
  | OpAdmit (from nowMs : Z)
  | OpRegister (from : Z) (types : gset Z)
  | OpReap (now : Z)
  | OpHbSeq
  | OpLadder (seq : Z).

Section gateway.
Context (maxF : Z).

(** The state after a critical section and the send list it built. *)
Definition gateway_op (gw : Gateway) (op : GatewayOp) : Gateway * list SendItem :=
  match op with
  | OpObserve requestId => (set_pssSequence (NvPSDGatewayObservePssRequestId (gw_pssSequence gw) requestId).1 gw, [])
  | OpFanout req full recovery =>
    let '(l, seed, items) := fanout_clients maxF req full recovery 0 (gw_epochSeed gw) (gw_clients gw) in
    (set_seed seed (set_clients l gw), items)
  | OpNote => (notePssSyntheticFaultBroadcast gw, [])
  | OpPay sent => (set_clients (fold_left pay_debt sent (gw_clients gw)) gw, [])
  | OpFlush => (set_drops [] gw, [])
  | OpConnected peer now =>
    (set_pending (gw_pending gw ++ [{| pp_peer := peer; pp_deadline := now + ADMISSION_TIMEOUT_MS |}]) gw, [])
  | OpPend from now =>
    match findSlotByPeerLocked from (gw_clients gw) with
    | Some _ => (gw, [])
    | None =>
      if existsb (fun p => pp_peer p =? from) (gw_pending gw) then (gw, [])
      else (set_pending (gw_pending gw ++ [{| pp_peer := from; pp_deadline := now + ADMISSION_TIMEOUT_MS |}]) gw, [])
    end
  | OpForget peer => (set_limiter (regr_forget (gw_limiter gw) peer) gw, [])
  | OpGone peer needsTransportDrop =>
    let gw := set_pending (remove_pending peer (gw_pending gw)) gw in
    match findSlotByPeerLocked peer (gw_clients gw) with
    | Some slot => (releaseClientSlotLocked slot needsTransportDrop gw, [])
    | None => (gw, [])
    end
  | OpAck from ackSeq =>
    match findSlotByPeerLocked from (gw_clients gw) with
    | Some slot =>
      (set_clients (alter (fun ce => if isSeqAhead ackSeq (ce_lastAckedSeq ce) then set_ce_hb ackSeq 0 ce else ce)
                      slot (gw_clients gw)) gw, [])
    | None => (gw, [])
    end
  | OpAdmit from nowMs => (set_limiter (regr_admit (gw_limiter gw) from nowMs).1 gw, [])
  | OpRegister from types => (register_client from types gw, [])
  | OpReap now => (set_pending (filter (fun p => now < pp_deadline p) (gw_pending gw)) gw, [])
  | OpHbSeq => (set_hbSeqNo (u32 (gw_hbSeqNo gw + 1)) gw, [])
  | OpLadder seq =>
    let r := map (ladder_client maxF seq) (gw_clients gw) in
    (set_drops (gw_deferredDrops gw ++ concat (map snd r)) (set_clients (map fst r) gw), [])
  end.

Fixpoint gateway_run (gw : Gateway) (ops : list GatewayOp) : Gateway * list SendItem :=
  match ops with
  | [] => (gw, [])
  | op :: ops =>
    let '(gw1, items1) := gateway_op gw op in
    let '(gw2, items2) := gateway_run gw1 ops in
    (gw2, items1 ++ items2)
  end.

Definition gateway_state (gw : Gateway) (ops : list GatewayOp) : Gateway := (gateway_run gw ops).1.

(** ** The callback thread *)

Context (transport : option (SendItem -> NvPSFTransportErr)) (between : nat -> list GatewayOp).

(** A handler's [k]-th critical section, after what the other threads did. *)
Definition section_at (k : nat) (op : GatewayOp) (gw : Gateway) : Gateway * list SendItem :=
  gateway_op (gateway_state gw (between k)) op.

(** What was handed to the transport and with which outcome. *)
Abbreviation Sent := (list (SendItem * NvPSFTransportErr)).

(** Sections [k] (build) and [k + 1] (flush). *)
Definition sendToRelevantClients (k : nat) (req : DecisionRequest) (sendFullRequest recovery : bool) (gw : Gateway)
    : Gateway * Sent :=
  let '(gw, items) := section_at k (OpFanout req sendFullRequest recovery) gw in
  match items with
  | [] => (gw, [])
  | _ =>
    let gw := (section_at (S k) OpFlush gw).1 in
    match transport with
    | None => (gw, [])
    | Some send => (gw, map (fun item => (item, send item)) items)
    end
  end.

(** The recovery debts the accepted sends of a recovery fan-out pay. *)
Definition recovery_sent (sent : Sent) : list RecoverySent :=
  omap (fun '(item, err) =>
    if decide (err = NVPSF_TRANSPORT_OK)
    then Some {| rs_slot := si_slot item; rs_peer := si_peer item; rs_recoveryOwedGen := si_recoveryOwedGen item |}
    else None) sent.

(** An all-client synthetic fault: broadcast, then every client owes a record. *)
Definition broadcast_fault (k : nat) (swFailReq : DecisionRequest) (gw : Gateway) : Gateway * Sent :=
  let '(gw, sent) := sendToRelevantClients k swFailReq true false gw in
  ((section_at (k + 2) OpNote gw).1, sent).

(** The recovery fan-out of an accepted request, when any client owes. *)
Definition recover_clients (k : nat) (request : DecisionRequest) (gw : Gateway) : Gateway * Sent :=
  let gw := gateway_state gw (between k) in
  if recoveryOwedByAnyLocked (gw_clients gw) then
    let '(gw, sent) :=
      sendToRelevantClients (k + 1) (NvPSDGatewayBuildPssCommRecoveredRequest request) true true gw in
    ((section_at (k + 3) (OpPay (recovery_sent sent)) gw).1, sent)
  else (gw, []).

Record CallbackResult := {
  cb_gateway : Gateway;
  cb_sent : Sent;
  cb_response : DecisionResponse;
  cb_result : NvPSDErr;
}.

Definition respond (request : DecisionRequest) (action confidence : Z) : DecisionResponse :=
  {| rsp_decisionId := dr_requestId request; rsp_action := action; rsp_confidenceLevel := confidence |}.

Definition onEventNotificationReceive (gw : Gateway) (request : option DecisionRequest) (response : option DecisionResponse)
    : CallbackResult :=
  match request, response with
  | Some request, Some response =>
    let confidence := rsp_confidenceLevel response in
    let mode := st_mode (dr_pssStatus request) in
    let pssObservation := (NvPSDGatewayObservePssRequestId (gw_pssSequence gw) (dr_requestId request)).2 in
    let gw := (gateway_op gw (OpObserve (dr_requestId request))).1 in
    if negb (NvPSDGatewayShouldForwardObservedPssRequest pssObservation) then
      if decide (pssObservation = DUPLICATE_OR_STALE) then
        {| cb_gateway := gw; cb_sent := []; cb_response := respond request NO_ACTION_REQUIRED f32_one;
           cb_result := NVPSD_SUCCESS |}
      else
        let '(gw, sent) := broadcast_fault 0 (NvPSDGatewayBuildInvalidPssRequestIdSwFailRequest request) gw in
        {| cb_gateway := gw; cb_sent := sent; cb_response := respond request NO_ACTION_REQUIRED f32_zero;
           cb_result := NVPSD_SUCCESS |}
    else
      let '(gw, sent0) :=
        if bool_decide (pssObservation = GAP) && negb (mode =? ERROR)
        then broadcast_fault 0 (NvPSDGatewayBuildPssSequenceGapSwFailRequest request) gw else (gw, []) in
      if mode =? ERROR then
        let '(gw, sent1) := broadcast_fault 3 (NvPSDGatewayBuildPssErrorSwFailRequest request) gw in
        let '(gw, sent2) := sendToRelevantClients 6 request false false gw in
        {| cb_gateway := gw; cb_sent := sent0 ++ sent1 ++ sent2;
           cb_response := respond request NO_ACTION_REQUIRED confidence; cb_result := NVPSD_SUCCESS |}
      else
        let '(gw, sent1) := if decide (pssObservation = ACCEPT) then recover_clients 8 request gw else (gw, []) in
        if 0 <? dr_sensorDataSummarySize request then
          let statusNoopOnly := NvPSDGatewayIsStatusNoopOnlyRequest request in
          let '(gw, sent2) := sendToRelevantClients 12 request false false gw in
          {| cb_gateway := gw; cb_sent := sent0 ++ sent1 ++ sent2;
             cb_response := respond request (if statusNoopOnly then NO_ACTION_REQUIRED else IMPLEMENT_SAFETY_CONTROL) confidence;
             cb_result := NVPSD_SUCCESS |}
        else
          {| cb_gateway := gw; cb_sent := sent0 ++ sent1;
             cb_response := respond request NO_ACTION_REQUIRED confidence; cb_result := NVPSD_SUCCESS |}
  | _, response =>
    {| cb_gateway := gw; cb_sent := [];
       cb_response := default {| rsp_decisionId := 0; rsp_action := 0; rsp_confidenceLevel := 0 |} response;
       cb_result := NVPSD_FAIL |}
  end.

(** The request [gatewayPssHeartbeatLoop] fans out once the PSS is presumed dead. *)
Definition pss_dead_request : DecisionRequest :=
  set_dr_size 0 (set_dr_pssStatus (set_mode ERROR zero_status) (set_dr_requestId UINT32_MAX zero_request)).

(** The consecutive heartbeat failures towards the PSS: whether a heartbeat was
    acknowledged and, if not, whether re-registration succeeded.  [None] is the
    fan-out of [pss_dead_request] and the end of the loop. *)
Definition pss_heartbeat_step (consecutiveAckFailures : Z) (acked reRegistered : bool) : option Z :=
  if acked then Some 0
  else
    let failures := if consecutiveAckFailures <? UINT32_MAX then consecutiveAckFailures + 1 else consecutiveAckFailures in
    if reRegistered then Some 0
    else if (0 <? maxF) && (maxF <=? failures) then None else Some failures.

(** ** The registration listener *)

(** What [Poll] and [Recv] report for one event; times in milliseconds. *)
Inductive ListenerEvent :=
  | PeerConnected (peer now : Z)
  | PeerGone (peer : Z)
  | RecvGone (from : Z)
  | Message (from : Z) (buf : list Z) (now : Z)
  | Ignored.

(** The state and the refusals (peer, reason) answered. *)
Definition on_message (from : Z) (buf : list Z) (now : Z) (gw : Gateway) : Gateway * list (Z * Z) :=
  let gw := (section_at 0 (OpPend from now) gw).1 in
  if (length buf =? NVPSD_GATEWAY_HB_MSG_SIZE)%nat && bool_decide (take 4 buf = NVPSD_GATEWAY_HB_MAGIC_CLIENT) then
    ((section_at 1 (OpAck from (be32_at buf 4)) gw).1, [])
  else if (length buf <? 4)%nat || negb (bool_decide (take 4 buf = NVPSD_GATEWAY_REG_MAGIC)) then (gw, [])
  else
    let admission := (regr_admit (gw_limiter gw) from now).2 in
    let gw := (gateway_op gw (OpAdmit from now)).1 in
    match admission with
    | REFUSE_NOTIFY => (gw, [(from, NVPSD_REG_REJECT_RATE_LIMITED)])
    | REFUSE_SILENT => (gw, [])
    | ADMIT =>
      match NvPSDGatewayClassifyRegr (Some buf) with
      | inl reason => (gw, [(from, reason)])
      | inr types =>
        let gw := gateway_state gw (between 2) in
        match registration_slot from (gw_clients gw) with
        | None => (gw, [(from, NVPSD_REG_REJECT_TABLE_FULL)])
        | Some _ => ((gateway_op gw (OpRegister from types)).1, [])
        end
      end
    end.

Definition on_event (ev : ListenerEvent) (gw : Gateway) : Gateway * list (Z * Z) :=
  match ev with
  | PeerConnected peer now => ((section_at 0 (OpConnected peer now) gw).1, [])
  | PeerGone peer => ((section_at 0 (OpGone peer true) (gateway_op gw (OpForget peer)).1).1, [])
  | RecvGone from =>
    if from =? NVPSF_PEER_INVALID then (gw, [])
    else ((section_at 0 (OpGone from false) (gateway_op gw (OpForget from)).1).1, [])
  | Message from buf now => on_message from buf now gw
  | Ignored => (gw, [])
  end.

(** The admission reaper: the peers dropped are those past their deadline. *)
Definition reap_pending (now : Z) (gw : Gateway) : Gateway * list Z :=
  let gw := gateway_state gw (between 0) in
  let toDrop := map pp_peer (filter (fun p => pp_deadline p <= now) (gw_pending gw)) in
  (gateway_state (gateway_op gw (OpReap now)).1 (map OpForget toDrop), toDrop).

(** ** The heartbeat thread *)

(** One pass: the heartbeat sent to each client, then the ladder. *)
Definition heartbeat_pass (gw : Gateway) : Gateway * list (Z * Z) :=
  let seq := gw_hbSeqNo gw in
  let gw := gateway_state (gateway_op gw OpHbSeq).1 (between 0) in
  let peers := map ce_peer (filter (fun ce => ce_inUse ce = true) (gw_clients gw)) in
  let gw := (section_at 1 (OpLadder seq) gw).1 in
  ((section_at 2 OpFlush gw).1, map (fun p => (p, seq)) peers).
End gateway.
