(* ===== verification/GatewaySafety.v ===== *)
(** * Properties of the decision-maker gateway

    The index-based filter equals filtering the request entry by entry; every
    packet handed to the transport is one the decision maker accepts; the
    numbers of a client's stream are consecutive under every interleaving of
    the gateway's threads; a recovery debt is paid only by a record the
    transport took; a silent client is degraded and then reclaimed. *)

From S2P Require Import Prelude Protocol Crc Validate SdmRequestState GatewayContract SdmSequence Gateway.

(** ** The filter *)

Section filter.
Context (req : DecisionRequest).

Definition entry_at (i : nat) : SensorData := nth i (dr_sensorDataSummary req) zero_sensorData.
Definition type_at (i : nat) : EventType := ev_type (sd_event (entry_at i)).

Lemma add_index_fold l m t :
  default [] (fold_left (add_index req) l m !! t) = default [] (m !! t) ++ filter (fun i => type_at i = t) l.
Proof.
  revert m. induction l as [|i l IH]; intros m; cbn [fold_left]; [by rewrite app_nil_r|].
  rewrite IH. unfold add_index. fold (entry_at i). fold (type_at i).
  destruct (decide (type_at i = t)) as [<-|Hne].
  - rewrite lookup_insert_eq, filter_cons_True by done. cbn. by rewrite <- app_assoc.
  - by rewrite lookup_insert_ne, filter_cons_False.
Qed.

Lemma indices_of t :
  default [] (buildEventTypeToIndices req !! t) = filter (fun i => type_at i = t) (seq 0 (Z.to_nat (summary_count req))).
Proof. unfold buildEventTypeToIndices. by rewrite add_index_fold. Qed.

(** The per-type index lists of distinct types, together. *)
Lemma filter_types_perm (types : list EventType) l :
  NoDup types ->
  concat (map (fun t => filter (fun i => type_at i = t) l) types) ≡ₚ filter (fun i => type_at i ∈ types) l.
Proof.
  induction 1 as [|t types Ht _ IH]; cbn.
  - induction l as [|i l IHl]; [done|]. rewrite filter_cons_False; [done|apply not_elem_of_nil].
  - rewrite IH. clear IH. induction l as [|i l IHl]; [done|].
    destruct (decide (type_at i = t)) as [E|E].
    + rewrite filter_cons_True, (filter_cons_False _ i), filter_cons_True by set_solver. cbn. by rewrite IHl.
    + rewrite (filter_cons_False _ i) by done. destruct (decide (type_at i ∈ types)) as [H|H].
      * rewrite filter_cons_True, filter_cons_True by set_solver. by rewrite <- Permutation_middle, IHl.
      * rewrite filter_cons_False, filter_cons_False by set_solver. done.
Qed.

Lemma sorted_seq_filter (P : nat -> Prop) `{!forall i, Decision (P i)} a n : StronglySorted le (filter P (seq a n)).
Proof.
  revert a. induction n as [|n IH]; intros a; cbn [seq]; [constructor|].
  destruct (decide (P a)); [rewrite filter_cons_True by done|by rewrite filter_cons_False].
  constructor; [done|]. apply Forall_forall. intros i [_ Hi]%list_elem_of_filter. apply elem_of_seq in Hi. lia.
Qed.

Lemma sorted_indices types :
  NoDup types ->
  merge_sort le (concat (map (fun t => default [] (buildEventTypeToIndices req !! t)) types)) =
  filter (fun i => type_at i ∈ types) (seq 0 (Z.to_nat (summary_count req))).
Proof.
  intros Hnd. apply (StronglySorted_unique le).
  - apply StronglySorted_merge_sort; apply _.
  - apply sorted_seq_filter.
  - rewrite merge_sort_Permutation. rewrite <- filter_types_perm by done.
    erewrite map_ext; [reflexivity|]. intros t. apply indices_of.
Qed.

Hypothesis Hlen : length (dr_sensorDataSummary req) = Z.to_nat MAX_SENSORS_DATA_SUMMARY_SIZE.

Lemma summary_count_le : (Z.to_nat (summary_count req) <= 8)%nat.
Proof. unfold summary_count, MAX_SENSORS_DATA_SUMMARY_SIZE. case_match; bool_prop; lia. Qed.

Lemma populated_entries : populated req = map entry_at (seq 0 (Z.to_nat (summary_count req))).
Proof.
  unfold populated. pose proof summary_count_le as Hc. apply list_eq. intros i.
  rewrite list_lookup_fmap. destruct (decide (i < Z.to_nat (summary_count req))%nat) as [Hi|Hi].
  - rewrite lookup_take_lt, lookup_seq_lt by done. cbn. unfold entry_at.
    destruct (lookup_lt_is_Some_2 (dr_sensorDataSummary req) i) as [d Hd]; [rewrite Hlen; change (Z.to_nat MAX_SENSORS_DATA_SUMMARY_SIZE) with 8%nat; lia|].
    rewrite Hd. f_equal. by apply nth_lookup_Some with (d := zero_sensorData) in Hd.
  - rewrite lookup_take_ge, lookup_seq_ge by lia. done.
Qed.

Lemma filter_map_entries (P : EventType -> Prop) `{!forall t, Decision (P t)} l :
  filter (fun d => P (ev_type (sd_event d))) (map entry_at l) = map entry_at (filter (fun i => P (type_at i)) l).
Proof.
  induction l as [|i l IH]; [done|]. cbn [map]. destruct (decide (P (type_at i))).
  - rewrite !filter_cons_True by done. cbn. by f_equal.
  - by rewrite !filter_cons_False.
Qed.

(** The reference: the subscribed entries in request order. *)
Definition subscribed_entries (types : list EventType) : list SensorData :=
  filter (fun d => ev_type (sd_event d) ∈ types) (populated req).

Lemma build_from_index_out types :
  NoDup types ->
  let out := map entry_at (take (Z.to_nat MAX_SENSORS_DATA_SUMMARY_SIZE)
    (merge_sort le (concat (map (fun t => default [] (buildEventTypeToIndices req !! t)) types)))) in
  out = subscribed_entries types /\ (length out <= 8)%nat.
Proof.
  intros Hnd. cbv zeta. rewrite sorted_indices by done.
  assert (forall k, (length (filter (fun i => type_at i ∈ types) (seq 0 k)) <= k)%nat) as Hf.
  { intros k. etransitivity; [apply length_filter|]. by rewrite length_seq. }
  pose proof summary_count_le as Hc. specialize (Hf (Z.to_nat (summary_count req))).
  rewrite take_ge by (change (Z.to_nat MAX_SENSORS_DATA_SUMMARY_SIZE) with 8%nat; lia).
  split; [|rewrite length_map; lia].
  unfold subscribed_entries. rewrite populated_entries. symmetry. exact (filter_map_entries (fun t : Z => t ∈ types) _).
Qed.

Lemma build_from_index types :
  NoDup types ->
  let '(out, n) := buildRequestFromIndex req (buildEventTypeToIndices req) types in
  populated out = subscribed_entries types /\ n = Z.of_nat (length (subscribed_entries types)) /\
  dr_sensorDataSummarySize out = n /\ 0 <= n <= 8 /\
  length (dr_sensorDataSummary out) = Z.to_nat MAX_SENSORS_DATA_SUMMARY_SIZE /\
  dr_requestId out = dr_requestId req /\ dr_pssStatus out = dr_pssStatus req.
Proof.
  intros Hnd. unfold buildRequestFromIndex. fold entry_at.
  destruct (build_from_index_out types Hnd) as [Ho Hl]. rewrite Ho in Hl. rewrite Ho.
  set (out := subscribed_entries types) in *. cbn [dr_requestId dr_pssStatus dr_sensorDataSummary dr_sensorDataSummarySize].
  split_and!; [|done|done|lia|lia| |done|done].
  - unfold populated, summary_count, MAX_SENSORS_DATA_SUMMARY_SIZE. cbn [dr_sensorDataSummarySize dr_sensorDataSummary].
    destruct (Z.ltb_spec 8 (Z.of_nat (length out))); [lia|]. by rewrite Nat2Z.id, take_app_length.
  - rewrite length_app, length_drop. cbn [zero_request dr_sensorDataSummary]. rewrite length_replicate.
    change (Z.to_nat MAX_SENSORS_DATA_SUMMARY_SIZE) with 8%nat. lia.
Qed.
End filter.

(** ** The fan-out, client by client *)

(** A registered client has a valid epoch and transmit number. *)
Definition entry_ok (ce : ClientEntry) : Prop :=
  ce_inUse ce = true ->
  NvPSDGatewayDecisionPacketEpochIsValid (ce_gatewayTxEpoch ce) = true /\ valid_seq (ce_nextGatewayTxSeq ce).

Section fanout.
Context (maxF : Z) (req : DecisionRequest) (full recovery : bool).

(** The clients a fan-out addresses. *)
Definition receives (ce : ClientEntry) : bool :=
  ce_inUse ce && negb (degraded maxF ce) &&
  negb (recovery && negb (NvPSDGatewayRecoveryRecordOwed (ce_recoveryOwedGen ce))) &&
  NvPSDGatewayShouldSendDecisionRequest full (client_payload req full ce).2
    (st_mode (dr_pssStatus (client_payload req full ce).1)).

Definition client_item (slot : nat) (ce : ClientEntry) : SendItem := {|
  si_peer := ce_peer ce;
  si_packet := {| pk_magic := NVPSD_GATEWAY_DECISION_MAGIC; pk_version := NVPSD_GATEWAY_DECISION_PACKET_VERSION;
                  pk_headerSize := NVPSD_GATEWAY_DECISION_HEADER_SIZE; pk_gatewayEpoch := ce_gatewayTxEpoch ce;
                  pk_gatewayTxSeq := ce_nextGatewayTxSeq ce;
                  pk_request := pssDecisionRequestSetCRC (client_payload req full ce).1 |};
  si_eventCount := (client_payload req full ce).2; si_slot := slot; si_recoveryOwedGen := ce_recoveryOwedGen ce |}.

Definition advance (ce : ClientEntry) : ClientEntry :=
  if receives ce then set_ce_tx (ce_gatewayTxEpoch ce) (nextGatewayTxSeqAfter (ce_nextGatewayTxSeq ce)) ce else ce.

Fixpoint items_from (slot : nat) (l : list ClientEntry) : list SendItem :=
  match l with
  | [] => []
  | ce :: l' => (if receives ce then [client_item slot ce] else []) ++ items_from (S slot) l'
  end.

Lemma fanout_client_ok slot seed ce :
  entry_ok ce ->
  fanout_client maxF req full recovery slot seed ce =
  (advance ce, seed, if receives ce then Some (client_item slot ce) else None).
Proof.
  intros Hok. unfold fanout_client, advance, receives, client_item.
  destruct (ce_inUse ce) eqn:Hu; [|done]. destruct (degraded maxF ce); [done|].
  destruct (recovery && _); [done|]. cbn [negb andb].
  destruct (client_payload req full ce) as [payload n]. cbn [fst snd].
  destruct (NvPSDGatewayShouldSendDecisionRequest full n _); [|done]. cbn [negb].
  destruct (Hok Hu) as [He Hs]. apply seq_valid_iff in Hs.
  rewrite He. cbn [negb]. unfold NvPSDGatewayBuildDecisionRequestPacket. by rewrite He, Hs.
Qed.

Lemma fanout_clients_ok slot seed l :
  Forall entry_ok l ->
  fanout_clients maxF req full recovery slot seed l = (map advance l, seed, items_from slot l).
Proof.
  intros Hall. revert slot seed. induction Hall as [|ce l Hce _ IH]; intros slot seed; [done|].
  cbn [fanout_clients items_from map]. rewrite fanout_client_ok, IH by done. by destruct (receives ce).
Qed.

Lemma elem_of_items slot l item :
  item ∈ items_from slot l <->
  exists i ce, l !! i = Some ce /\ receives ce = true /\ item = client_item (slot + i) ce.
Proof.
  revert slot. induction l as [|ce l IH]; intros slot; cbn [items_from].
  - rewrite elem_of_nil. split; [done|]. by intros (i & ce & H & _).
  - rewrite elem_of_app, IH. split.
    + intros [H|(i & ce' & Hl & Hr & ->)].
      * exists 0%nat, ce. destruct (receives ce); [|by apply elem_of_nil in H].
        apply list_elem_of_singleton in H as ->. by rewrite Nat.add_0_r.
      * exists (S i), ce'. split_and!; [done..|]. by rewrite Nat.add_succ_r.
    + intros ([|i] & ce' & Hl & Hr & ->); cbn in Hl.
      * simplify_eq. left. rewrite Hr, Nat.add_0_r. by left.
      * right. exists i, ce'. split_and!; [done..|]. by rewrite Nat.add_succ_r.
Qed.

Lemma advance_keeps ce :
  ce_peer (advance ce) = ce_peer ce /\ ce_inUse (advance ce) = ce_inUse ce /\
  ce_gatewayTxEpoch (advance ce) = ce_gatewayTxEpoch ce /\ ce_recoveryOwedGen (advance ce) = ce_recoveryOwedGen ce /\
  ce_missedCount (advance ce) = ce_missedCount ce /\ ce_lastAckedSeq (advance ce) = ce_lastAckedSeq ce.
Proof. unfold advance. by destruct (receives ce). Qed.

Lemma advance_ok ce : entry_ok ce -> entry_ok (advance ce).
Proof.
  unfold entry_ok, advance. destruct (receives ce); [|done]. cbn. intros H Hu.
  destruct (H Hu). auto using next_seq_valid.
Qed.
End fanout.

Lemma fanout_op maxF gw req full recovery :
  Forall entry_ok (gw_clients gw) ->
  gateway_op maxF gw (OpFanout req full recovery) =
  (set_seed (gw_epochSeed gw) (set_clients (map (advance maxF req full recovery) (gw_clients gw)) gw),
   items_from maxF req full recovery 0 (gw_clients gw)).
Proof. intros H. cbn [gateway_op]. by rewrite fanout_clients_ok. Qed.

(** ** Packets the decision maker accepts *)

(** A request the callback may receive: a full array and, once stamped,
    acceptable to the receiver's validator. *)
Record forwardable (req : DecisionRequest) : Prop := {
  fw_len : length (dr_sensorDataSummary req) = Z.to_nat MAX_SENSORS_DATA_SUMMARY_SIZE;
  fw_size : 0 <= dr_sensorDataSummarySize req <= MAX_SENSORS_DATA_SUMMARY_SIZE;
  fw_stop : dr_sensorDataSummarySize req = 0 -> st_mode (dr_pssStatus req) = ERROR -> dr_requestId req = UINT32_MAX;
  fw_mode : 0 <= st_mode (dr_pssStatus req) <= ERROR;
  fw_events : Forall (fun d => valid_event (sd_event d)) (populated req);
  fw_severity : severity_rules (st_mode (dr_pssStatus req)) (populated req);
}.

Lemma sendable_forwardable r :
  sendable r -> length (dr_sensorDataSummary r) = Z.to_nat MAX_SENSORS_DATA_SUMMARY_SIZE -> forwardable r.
Proof. intros [Hs Hm He Hv] Hl. constructor; try done; lia. Qed.

Definition packet_accepted (p : NvPSDGatewayDecisionRequestPacket) : Prop :=
  NvPSDGatewayDecisionPacketHeaderIsValid (Some p) = true /\
  validateDecisionRequest (Some (pk_request p)) = PSS_VALID.

Lemma severity_rules_sublist mode l k : l `sublist_of` k -> severity_rules mode k -> severity_rules mode l.
Proof. intros Hs [s H]. exists s. intros d Hd. apply H. by eapply elem_of_sublist. Qed.

Lemma subscribed_sublist req types : subscribed_entries req types `sublist_of` populated req.
Proof. apply sublist_filter. Qed.

Lemma filtered_sendable req types :
  forwardable req -> NoDup types ->
  let '(out, n) := buildRequestFromIndex req (buildEventTypeToIndices req) types in 0 < n -> sendable out.
Proof.
  intros F Hnd. pose proof (build_from_index req (fw_len req F) types Hnd) as H.
  destruct (buildRequestFromIndex req _ types) as [out n]. destruct H as (Hp & _ & Hs & Hn & _ & _ & Hst). intros Hpos.
  constructor; rewrite ?Hp, ?Hst; [unfold MAX_SENSORS_DATA_SUMMARY_SIZE; lia|apply F|..].
  - eapply Forall_sublist_of; [apply subscribed_sublist|apply F].
  - eapply severity_rules_sublist; [apply subscribed_sublist|apply F].
Qed.

(** A full request is cut at the array bound; what remains is forwardable. *)
Lemma full_valid req :
  forwardable req ->
  NvPSDGatewayShouldSendDecisionRequest true (summary_count req) (st_mode (dr_pssStatus req)) = true ->
  valid_request (pssDecisionRequestSetCRC (set_dr_size (summary_count req) req)).
Proof.
  intros F Hsend.
  assert (summary_count req = dr_sensorDataSummarySize req) as E.
  { unfold summary_count. pose proof (fw_size req F). case_match; bool_prop; lia. }
  assert (set_dr_size (summary_count req) req = req) as -> by (rewrite E; by destruct req).
  rewrite E in Hsend. pose proof (fw_size req F) as Hsz.
  destruct (decide (1 <= dr_sensorDataSummarySize req)) as [Hpos|Hz].
  - apply sendable_SetCRC. constructor; [lia|apply F|apply F|apply F].
  - assert (dr_sensorDataSummarySize req = 0) as H0 by lia.
    unfold NvPSDGatewayShouldSendDecisionRequest in Hsend. rewrite H0 in Hsend. cbn in Hsend. bool_prop.
    constructor; cbn; [done|apply DecisionRequestSetCRC_verifies|lia| |apply F|apply F|apply F].
    intros _. split; [by apply F|done].
Qed.

Lemma items_accepted maxF req full recovery l item :
  forwardable req -> Forall entry_ok l -> item ∈ items_from maxF req full recovery 0 l -> packet_accepted (si_packet item).
Proof.
  intros F Hok (i & ce & Hl & Hr & ->)%elem_of_items. unfold receives in Hr. bool_prop.
  assert (entry_ok ce) as Hce by (rewrite Forall_forall in Hok; by eapply Hok, list_elem_of_lookup_2).
  destruct Hce as [He Hs]; [done|]. apply seq_valid_iff in Hs. split.
  - cbn. by rewrite He, Hs.
  - cbn [client_item si_packet pk_request]. apply validateDecisionRequest_zero. unfold client_payload in *.
    destruct full; cbn [fst snd] in *; [by apply full_valid|].
    pose proof (filtered_sendable req (elements (ce_eventTypes ce)) F (NoDup_elements _)) as Hf.
    destruct (buildRequestFromIndex _ _ _) as [out n]. cbn [fst snd] in *.
    apply sendable_SetCRC, Hf. unfold NvPSDGatewayShouldSendDecisionRequest in *. by bool_prop.
Qed.

(** ** What a critical section does to one slot *)

(** Acknowledgement state: unchanged, acknowledged, re-registered or missed. *)
Inductive hb_step (maxF : Z) (op : GatewayOp) (ce ce' : ClientEntry) : Prop :=
  | hb_same : (forall seq, op = OpLadder seq -> ce_inUse ce && isSeqAhead seq (ce_lastAckedSeq ce) = false) ->
      ce_lastAckedSeq ce' = ce_lastAckedSeq ce -> ce_missedCount ce' = ce_missedCount ce -> hb_step maxF op ce ce'
  | hb_ack ackSeq : op = OpAck (ce_peer ce) ackSeq -> ce_inUse ce = true -> hb_step maxF op ce ce'
  | hb_reregister types : op = OpRegister (ce_peer ce) types -> ce_inUse ce = true -> hb_step maxF op ce ce'
  | hb_missed seq : op = OpLadder seq -> isSeqAhead seq (ce_lastAckedSeq ce) = true ->
      ce_missedCount ce + 1 < maxF -> ce_lastAckedSeq ce' = ce_lastAckedSeq ce ->
      ce_missedCount ce' = ce_missedCount ce + 1 -> hb_step maxF op ce ce'.

(** Recovery debt: unchanged, raised by a fault or paid by a sent record. *)
Inductive debt_step (gw : Gateway) (op : GatewayOp) (i : nat) (ce ce' : ClientEntry) : Prop :=
  | debt_same : (op = OpNote -> ce_inUse ce = false) -> ce_recoveryOwedGen ce' = ce_recoveryOwedGen ce -> debt_step gw op i ce ce'
  | debt_raised : op = OpNote -> ce_recoveryOwedGen ce' = u64 (gw_pssFaultGeneration gw + 1) -> debt_step gw op i ce ce'
  | debt_paid sent r : op = OpPay sent -> r ∈ sent -> rs_slot r = i -> rs_peer r = ce_peer ce ->
      rs_recoveryOwedGen r = ce_recoveryOwedGen ce -> ce_recoveryOwedGen ce' = 0 -> debt_step gw op i ce ce'.

(** The next transmit number. *)
Definition next_seq_after (maxF : Z) (op : GatewayOp) (ce : ClientEntry) : Z :=
  match op with
  | OpFanout req full recovery => ce_nextGatewayTxSeq (advance maxF req full recovery ce)
  | _ => ce_nextGatewayTxSeq ce
  end.

Inductive slot_step (maxF : Z) (gw : Gateway) (op : GatewayOp) (i : nat) (ce ce' : ClientEntry) : Prop :=
  | slot_kept : ce_inUse ce' = ce_inUse ce -> ce_peer ce' = ce_peer ce ->
      ce_gatewayTxEpoch ce' = ce_gatewayTxEpoch ce -> ce_nextGatewayTxSeq ce' = next_seq_after maxF op ce ->
      hb_step maxF op ce ce' -> debt_step gw op i ce ce' -> slot_step maxF gw op i ce ce'
  | slot_released : ce_inUse ce = true -> ce_inUse ce' = false ->
      (exists nd, op = OpGone (ce_peer ce) nd) \/
      (exists seq, op = OpLadder seq /\ isSeqAhead seq (ce_lastAckedSeq ce) = true /\ maxF <= ce_missedCount ce + 1) ->
      slot_step maxF gw op i ce ce'
  | slot_new from types : op = OpRegister from types -> registration_slot from (gw_clients gw) = Some (i, false) ->
      ce_inUse ce = false -> ce_inUse ce' = true ->
      ce_peer ce' = from -> ce_gatewayTxEpoch ce' = (allocateGatewayClientEpoch (gw_epochSeed gw)).1 ->
      gw_epochSeed (gateway_op maxF gw op).1 = (allocateGatewayClientEpoch (gw_epochSeed gw)).2 ->
      ce_nextGatewayTxSeq ce' = NVPSD_GATEWAY_DECISION_TX_SEQ_MIN ->
      ce_recoveryOwedGen ce' = 0 \/ ce_recoveryOwedGen ce' = gw_pssFaultGeneration gw -> slot_step maxF gw op i ce ce'.

Lemma find_slot_Some p l i : find_slot p l = Some i -> exists ce, l !! i = Some ce /\ p ce = true.
Proof.
  revert i. induction l as [|ce l IH]; intros i; cbn; [done|].
  destruct (p ce) eqn:E; [intros [= <-]; by exists ce|].
  destruct (find_slot p l) as [j|]; [|done]. intros [= <-]. by apply IH.
Qed.

Lemma findSlotByPeer_Some peer l i :
  findSlotByPeerLocked peer l = Some i -> exists ce, l !! i = Some ce /\ ce_inUse ce = true /\ ce_peer ce = peer.
Proof.
  unfold findSlotByPeerLocked. case_match; [done|]. intros (ce & ? & ?)%find_slot_Some. exists ce. by bool_prop.
Qed.

(** An operation that leaves the clients alone. *)
Lemma slot_same maxF gw op i ce :
  (forall req full recovery, op <> OpFanout req full recovery) -> (forall seq, op <> OpLadder seq) -> op <> OpNote ->
  slot_step maxF gw op i ce ce.
Proof.
  intros Hf Hl Hn. apply slot_kept; [done..| |by apply hb_same; [intros ? ->; by destruct (Hl seq)|..]|by apply debt_same].
  destruct op; try done. by destruct (Hf req sendFullRequest recovery).
Qed.

Lemma pay_debts_slot gw sent sent0 l i ce0 :
  sent `sublist_of` sent0 ->
  (forall ce, l !! i = Some ce -> exists g, ce = set_ce_owed g ce0 /\ debt_step gw (OpPay sent0) i ce0 ce) ->
  forall ce', fold_left pay_debt sent l !! i = Some ce' ->
  exists g, ce' = set_ce_owed g ce0 /\ debt_step gw (OpPay sent0) i ce0 ce'.
Proof.
  revert l. induction sent as [|r sent IH]; intros l Hsub Hl; cbn [fold_left]; [done|].
  apply IH; [etransitivity; [by apply sublist_cons|done]|]. intros ce Hce.
  assert (r ∈ sent0) as Hr by (eapply elem_of_sublist; [|exact Hsub]; left).
  unfold pay_debt in Hce. destruct (l !! rs_slot r) as [old|] eqn:El; [|by apply Hl].
  destruct (negb (ce_inUse old) || negb (ce_peer old =? rs_peer r)) eqn:Eb; [by apply Hl|].
  destruct (decide (rs_slot r = i)) as [<-|Hne]; [|rewrite list_lookup_insert_ne in Hce by done; by apply Hl].
  rewrite list_lookup_insert_eq in Hce by (by eapply lookup_lt_Some). simplify_eq.
  destruct (Hl old El) as (g & -> & Hd). eexists. split; [done|].
  unfold NvPSDGatewayRecoveryDebtAfterSend. cbn [set_ce_owed ce_recoveryOwedGen andb].
  destruct (Z.eqb_spec g (rs_recoveryOwedGen r)) as [->|Hg].
  - destruct Hd as [Hn Hs|?|sent1 r1 E1 Hr1 Hs1 Hp1 Hg1 H01]; [|done|by eapply debt_paid].
    bool_prop. by eapply (debt_paid _ _ _ _ _ sent0 r); cbn in *.
  - destruct Hd as [Hn Hs|?|sent1 r1 E1 Hr1 Hs1 Hp1 Hg1 H01]; [by apply debt_same|done|by eapply debt_paid].
Qed.

(** [slot_step] for a client list rewritten entry by entry. *)
Lemma lookup_map_Some {A B} (f : A -> B) l i y : map f l !! i = Some y -> exists x, l !! i = Some x /\ y = f x.
Proof. change (map f l) with (f <$> l). rewrite list_lookup_fmap. destruct (l !! i); [|done]. intros [= <-]. eauto. Qed.

Lemma ladder_slot maxF gw seq i ce : slot_step maxF gw (OpLadder seq) i ce (ladder_client maxF seq ce).1.
Proof.
  unfold ladder_client. destruct (ce_inUse ce && isSeqAhead seq (ce_lastAckedSeq ce)) eqn:E.
  - cbn [set_ce_hb ce_missedCount]. destruct (Z.leb_spec maxF (ce_missedCount ce + 1)).
    + apply slot_released; bool_prop; [done|done|]. right. by exists seq.
    + apply slot_kept; [done..| |by apply debt_same]. bool_prop. by eapply hb_missed.
  - apply slot_kept; [done..| |by apply debt_same]. apply hb_same; [|done|done]. by intros ? [= <-].
Qed.

Lemma register_slot maxF gw from types i ce' :
  gw_clients (register_client from types gw) !! i = Some ce' ->
  exists ce, gw_clients gw !! i = Some ce /\ slot_step maxF gw (OpRegister from types) i ce ce'.
Proof.
  assert (forall ce, gw_clients gw !! i = Some ce -> slot_step maxF gw (OpRegister from types) i ce ce) as Hsame
    by (intros; by apply slot_same).
  pose proof (eq_refl (register_client from types gw)) as Hreg. revert Hreg.
  unfold register_client at 2 3. destruct (registration_slot from (gw_clients gw)) as [[s ex]|] eqn:Er; [|eauto].
  pose proof Er as Er0. revert Er0. unfold registration_slot.
  destruct (findSlotByPeerLocked from (gw_clients gw)) as [s'|] eqn:Ef.
  - intros [= -> <-]. destruct (findSlotByPeer_Some _ _ _ Ef) as (old & Hs & Hu & Hp). rewrite Hs.
    cbn [gw_clients set_clients set_pending]. intros _.
    destruct (decide (s = i)) as [->|Hne]; [|rewrite list_lookup_insert_ne by done; eauto].
    rewrite list_lookup_insert_eq by (by eapply lookup_lt_Some). intros [= <-]. exists old. split; [done|].
    apply slot_kept; [done|done|done|done|by eapply hb_reregister; [rewrite Hp|]|by apply debt_same].
  - destruct (find_slot _ (gw_clients gw)) as [s'|] eqn:Es; cbn [fmap option_fmap option_map]; [|done]. intros [= -> <-].
    destruct (find_slot_Some _ _ _ Es) as (old & Hs & Hu). rewrite Hs.
    cbn [gw_clients set_clients set_pending gw_epochSeed].
    destruct (allocateGatewayClientEpoch (gw_epochSeed gw)) as [epoch seed] eqn:Ea.
    cbn [gw_clients set_clients set_pending gw_epochSeed set_seed]. intros Hreg.
    destruct (decide (s = i)) as [->|Hne];
      [|rewrite list_lookup_alter_ne, list_lookup_insert_ne by done; eauto].
    rewrite list_lookup_alter_eq, list_lookup_insert_eq by (by eapply lookup_lt_Some). intros [= <-]. exists old.
    split; [done|]. bool_prop. eapply slot_new; [done|exact Er|done|done|done|by rewrite Ea|by rewrite Ea; cbn; rewrite Hreg|done|].
    cbn [set_ce_owed ce_recoveryOwedGen gw_pssFaultGeneration set_pending]. destruct (recoveryOwedByAnyLocked _); auto.
Qed.

Lemma op_slot maxF gw op i ce' :
  Forall entry_ok (gw_clients gw) -> gw_clients (gateway_op maxF gw op).1 !! i = Some ce' ->
  exists ce, gw_clients gw !! i = Some ce /\ slot_step maxF gw op i ce ce'.
Proof.
  intros Hok.
  assert (forall ce, (forall req full recovery, op <> OpFanout req full recovery) -> (forall seq, op <> OpLadder seq) ->
    op <> OpNote -> gw_clients gw !! i = Some ce -> exists ce0, gw_clients gw !! i = Some ce0 /\ slot_step maxF gw op i ce0 ce) as Hsame
    by (intros ce ? ? ? Hce; exists ce; split; [done|]; by apply slot_same).
  destruct op as [id|req full rec| |sent| |peer now|from now|peer|peer nd|from ack|from now|from types|now| |seq];
    try (apply Hsame; done).
  - rewrite fanout_op by done. cbn [fst gw_clients set_seed set_clients]. intros (ce & Hce & ->)%lookup_map_Some.
    exists ce. split; [done|]. destruct (advance_keeps maxF req full rec ce) as (? & ? & ? & ? & ? & ?).
    apply slot_kept; [done..|by apply hb_same|by apply debt_same].
  - cbn. intros (ce & Hce & ->)%lookup_map_Some. exists ce. split; [done|].
    destruct (ce_inUse ce) eqn:E; (apply slot_kept; [done..|by apply hb_same|]); [by apply debt_raised|by apply debt_same].
  - cbn. intros Hl. destruct (gw_clients gw !! i) as [ce0|] eqn:E0.
    + exists ce0. split; [done|]. edestruct (pay_debts_slot gw sent sent (gw_clients gw) i ce0) as (g & Hg & Hd); [done| |exact Hl|].
      * intros ce Hce. assert (ce = ce0) as -> by congruence. exists (ce_recoveryOwedGen ce0). split; [by destruct ce0|by apply debt_same].
      * subst ce'. apply slot_kept; [done..|by apply hb_same|done].
    + exfalso. revert E0 Hl. clear. generalize (gw_clients gw).
      induction sent as [|r sent IH]; intros l E0; cbn [fold_left]; [by rewrite E0|]. apply IH.
      unfold pay_debt. destruct (l !! rs_slot r); [|done]. case_match; [done|].
      apply lookup_ge_None. rewrite length_insert. by apply lookup_ge_None.
  - cbn. destruct (findSlotByPeerLocked from (gw_clients gw)); [by apply Hsame|]. by destruct (existsb _ _); apply Hsame.
  - cbn [gateway_op gw_clients set_pending]. destruct (findSlotByPeerLocked peer (gw_clients gw)) as [s|] eqn:Ef; [|by apply Hsame].
    destruct (findSlotByPeer_Some _ _ _ Ef) as (old & Hs & Hu & Hp). cbn [fst]. unfold releaseClientSlotLocked.
    cbn [gw_clients set_pending]. rewrite Hs. cbn [release_entry gw_clients set_drops set_clients].
    destruct (decide (s = i)) as [->|Hne]; [|rewrite list_lookup_insert_ne by done; by apply Hsame].
    rewrite list_lookup_insert_eq by (by eapply lookup_lt_Some). intros [= <-]. exists old. split; [done|].
    apply slot_released; [done|done|]. left. exists nd. by rewrite Hp.
  - cbn [gateway_op]. destruct (findSlotByPeerLocked from (gw_clients gw)) as [s|] eqn:Ef; [|by apply Hsame].
    destruct (findSlotByPeer_Some _ _ _ Ef) as (old & Hs & Hu & Hp). cbn [fst gw_clients set_clients].
    destruct (decide (s = i)) as [->|Hne]; [|rewrite list_lookup_alter_ne by done; by apply Hsame].
    rewrite list_lookup_alter_eq, Hs. intros [= <-]. exists old. split; [done|].
    destruct (isSeqAhead ack _); [|by apply slot_same].
    apply slot_kept; [done..| |by apply debt_same]. by eapply hb_ack; [rewrite Hp|].
  - apply register_slot.
  - cbn [gateway_op fst gw_clients set_drops set_clients]. rewrite map_map. intros (ce & Hce & ->)%lookup_map_Some.
    exists ce. split; [done|]. apply ladder_slot.
Qed.

(** ** The table invariant *)

Lemma allocated_epoch_valid seed : NvPSDGatewayDecisionPacketEpochIsValid (allocateGatewayClientEpoch seed).1 = true.
Proof. unfold allocateGatewayClientEpoch. by destruct (NvPSDGatewayDecisionPacketEpochIsValid seed) eqn:E. Qed.

Lemma seq_min_valid : valid_seq NVPSD_GATEWAY_DECISION_TX_SEQ_MIN.
Proof. unfold valid_seq, NVPSD_GATEWAY_DECISION_TX_SEQ_MIN. lia. Qed.

Lemma op_table_ok maxF gw op : Forall entry_ok (gw_clients gw) -> Forall entry_ok (gw_clients (gateway_op maxF gw op).1).
Proof.
  intros Hok. apply Forall_lookup. intros i ce' Hce'.
  destruct (op_slot maxF gw op i ce' Hok Hce') as (ce & Hce & Hs).
  assert (entry_ok ce) as He by (by eapply Forall_lookup_1).
  destruct Hs as [Hu Hp Hep Hsq _ _|_ Hu _|from types _ _ _ Hu _ Hep _ Hsq _]; unfold entry_ok; [|congruence|].
  - rewrite Hu, Hep, Hsq. intros H. destruct (He H) as [? ?]. split; [done|].
    destruct op; try done. apply (advance_ok maxF req sendFullRequest recovery ce He).
    destruct (advance_keeps maxF req sendFullRequest recovery ce) as (_ & -> & _). done.
  - intros _. rewrite Hep, Hsq. split; [apply allocated_epoch_valid|apply seq_min_valid].
Qed.

Lemma run_table_ok maxF gw ops : Forall entry_ok (gw_clients gw) -> Forall entry_ok (gw_clients (gateway_state maxF gw ops)).
Proof.
  unfold gateway_state. revert gw. induction ops as [|op ops IH]; intros gw Hok; cbn [gateway_run]; [done|].
  pose proof (op_table_ok maxF gw op Hok) as H. destruct (gateway_op maxF gw op) as [gw1 items1]. cbn in H.
  specialize (IH gw1 H). by destruct (gateway_run maxF gw1 ops).
Qed.

Lemma launch_table_ok n seed m w gw : launchPSDControl n seed m w = Some gw -> Forall entry_ok (gw_clients gw).
Proof.
  unfold launchPSDControl. case_match; [done|]. intros [= <-]. cbn. apply Forall_replicate. by intros ?.
Qed.

(** ** Transmit streams *)

(** The packets of one epoch, in the order they were built. *)
Definition stream (e : Z) (items : list SendItem) : list SendItem :=
  filter (fun it => pk_gatewayEpoch (si_packet it) = e) items.

Definition tx_seqs (items : list SendItem) : list Z := map (fun it => pk_gatewayTxSeq (si_packet it)) items.

(** The first [k] transmit numbers of an epoch. *)
Definition nth_seq (k : nat) : Z := Nat.iter k nextGatewayTxSeqAfter NVPSD_GATEWAY_DECISION_TX_SEQ_MIN.
Definition numbers (k : nat) : list Z := map nth_seq (seq 0 k).

Lemma numbers_S k : numbers (S k) = numbers k ++ [nth_seq k].
Proof. unfold numbers. by rewrite seq_S, map_app. Qed.

Definition epochs_unique (l : list ClientEntry) : Prop :=
  forall i j ci cj, l !! i = Some ci -> l !! j = Some cj -> ce_inUse ci = true -> ce_inUse cj = true ->
  ce_gatewayTxEpoch ci = ce_gatewayTxEpoch cj -> i = j.

Section streams.
Context (maxF : Z) (req : DecisionRequest) (full recovery : bool).

Lemma receives_inUse ce : receives maxF req full recovery ce = true -> ce_inUse ce = true.
Proof. unfold receives. intros H. by bool_prop. Qed.

Lemma stream_none slot l e :
  (forall i ce, l !! i = Some ce -> ce_inUse ce = true -> ce_gatewayTxEpoch ce <> e) ->
  stream e (items_from maxF req full recovery slot l) = [].
Proof.
  intros H. unfold stream. apply filter_none. apply Forall_forall.
  intros it (i & ce & Hl & Hr & ->)%elem_of_items. cbn. by eapply H, receives_inUse.
Qed.

Lemma stream_one slot l i ce :
  epochs_unique l -> l !! i = Some ce -> ce_inUse ce = true ->
  stream (ce_gatewayTxEpoch ce) (items_from maxF req full recovery slot l) =
  if receives maxF req full recovery ce then [client_item req full (slot + i) ce] else [].
Proof.
  revert slot i. induction l as [|c l IH]; intros slot i Huq Hl Hu; [done|].
  cbn [items_from]. unfold stream. rewrite filter_app.
  fold (stream (ce_gatewayTxEpoch ce) (items_from maxF req full recovery (S slot) l)).
  destruct i as [|i]; cbn in Hl.
  - simplify_eq. rewrite stream_none; [|intros j cj Hj Huj Heq; by specialize (Huq 0%nat (S j) ce cj eq_refl Hj Hu Huj (eq_sym Heq))].
    rewrite Nat.add_0_r, app_nil_r. destruct (receives _ _ _ _ ce); [|done]. by rewrite filter_cons_True.
  - rewrite (IH (S slot) i); [|intros a b ca cb Ha Hb Hua Hub Heq;
      by injection (Huq (S a) (S b) ca cb Ha Hb Hua Hub Heq)|done|done].
    rewrite Nat.add_succ_r. destruct (receives _ _ _ _ c) eqn:Er; [|done].
    rewrite filter_cons_False; [done|]. cbn. intros Heq.
    by specialize (Huq 0%nat (S i) c ce eq_refl Hl (receives_inUse c Er) Hu Heq).
Qed.
End streams.

(** Everything known of the numbers handed out so far. *)
Record tx_inv (gw : Gateway) (items : list SendItem) : Prop := {
  ti_ok : Forall entry_ok (gw_clients gw);
  ti_unique : epochs_unique (gw_clients gw);
  ti_below : forall i ce, gw_clients gw !! i = Some ce -> ce_inUse ce = true -> ce_gatewayTxEpoch ce < gw_epochSeed gw;
  ti_items : Forall (fun it => NvPSDGatewayDecisionPacketEpochIsValid (pk_gatewayEpoch (si_packet it)) = true /\
    pk_gatewayEpoch (si_packet it) < gw_epochSeed gw) items;
  ti_stream : forall e, tx_seqs (stream e items) = numbers (length (stream e items));
  ti_next : forall i ce, gw_clients gw !! i = Some ce -> ce_inUse ce = true ->
    ce_nextGatewayTxSeq ce = nth_seq (length (stream (ce_gatewayTxEpoch ce) items)) /\
    Forall (fun it => si_peer it = ce_peer ce) (stream (ce_gatewayTxEpoch ce) items);
  ti_peer : forall e, exists p, Forall (fun it => si_peer it = p) (stream e items);
}.

Lemma stream_app e l k : stream e (l ++ k) = stream e l ++ stream e k.
Proof. apply filter_app. Qed.

Lemma stream_fresh e items : Forall (fun it => pk_gatewayEpoch (si_packet it) < e) items -> stream e items = [].
Proof. intros H. apply filter_none. eapply Forall_impl; [exact H|]. cbn. lia. Qed.

Lemma alloc_in_range seed : 0 < seed < UINT64_MAX -> allocateGatewayClientEpoch seed = (seed, seed + 1).
Proof.
  intros Hs. unfold allocateGatewayClientEpoch, NvPSDGatewayDecisionPacketEpochIsValid, NVPSD_GATEWAY_DECISION_EPOCH_MAX.
  destruct (Z.eqb_spec seed 0); [lia|]. destruct (Z.eqb_spec seed UINT64_MAX); [lia|]. cbn [negb andb].
  rewrite u64_small; [done|]. unfold is_u64, UINT64_MAX in *. lia.
Qed.

Lemma op_seed maxF gw op :
  Forall entry_ok (gw_clients gw) -> 0 < gw_epochSeed gw < UINT64_MAX ->
  gw_epochSeed gw <= gw_epochSeed (gateway_op maxF gw op).1 <= gw_epochSeed gw + 1.
Proof.
  intros Hok Hs. destruct op; try (cbn; lia).
  - rewrite fanout_op by done. cbn. lia.
  - cbn. destruct (findSlotByPeerLocked from (gw_clients gw)); [cbn; lia|]. destruct (existsb _ _); cbn; lia.
  - cbn. destruct (findSlotByPeerLocked peer (gw_clients gw)); [|cbn; lia].
    unfold releaseClientSlotLocked. cbn. destruct (gw_clients gw !! n); cbn; lia.
  - cbn. destruct (findSlotByPeerLocked from (gw_clients gw)); cbn; lia.
  - cbn. unfold register_client. destruct (registration_slot from (gw_clients gw)) as [[s [|]]|]; [..|lia];
      (destruct (gw_clients gw !! s); [|lia]); [cbn; lia|]. cbn [gw_epochSeed set_pending].
    rewrite alloc_in_range by done. cbn. lia.
Qed.

Lemma op_items maxF gw op : (forall req full recovery, op <> OpFanout req full recovery) -> (gateway_op maxF gw op).2 = [].
Proof.
  intros H. destruct op; try done; cbn.
  - by destruct (H req sendFullRequest recovery).
  - destruct (findSlotByPeerLocked from _); [done|]. by destruct (existsb _ _).
  - by destruct (findSlotByPeerLocked peer _).
  - by destruct (findSlotByPeerLocked from _).
Qed.

(** A critical section that builds no packet. *)
Lemma tx_inv_quiet maxF gw op items :
  (forall req full recovery, op <> OpFanout req full recovery) ->
  0 < gw_epochSeed gw < UINT64_MAX -> tx_inv gw items -> tx_inv (gateway_op maxF gw op).1 items.
Proof.
  intros Hq Hs [Hok Huq Hbelow Hit Hst Hnext Hpeer].
  pose proof (op_seed maxF gw op Hok Hs) as Hseed.
  assert (forall ce, next_seq_after maxF op ce = ce_nextGatewayTxSeq ce) as Hsame
    by (intros ce; destruct op; try done; by destruct (Hq req sendFullRequest recovery)).
  constructor; [by apply op_table_ok|..|done| |done].
  - intros i j ci' cj' Hi Hj Hui Huj Heq.
    destruct (op_slot _ _ _ _ _ Hok Hi) as (ci & Hci & Si). destruct (op_slot _ _ _ _ _ Hok Hj) as (cj & Hcj & Sj).
    destruct Si as [Eu _ Ee _ _ _|_ ? _|f t Eop Er _ _ _ Ee _ _ _]; [|congruence|];
      destruct Sj as [Eu' _ Ee' _ _ _|_ ? _|f' t' Eop' Er' _ _ _ Ee' _ _ _]; try congruence;
      rewrite ?alloc_in_range in * by done; cbn in *.
    + eapply (Huq i j ci cj); congruence.
    + specialize (Hbelow i ci Hci). rewrite <- Eu in Hbelow. specialize (Hbelow Hui). lia.
    + specialize (Hbelow j cj Hcj). rewrite <- Eu' in Hbelow. specialize (Hbelow Huj). lia.
  - intros i ce' Hi Hu. destruct (op_slot _ _ _ _ _ Hok Hi) as (ce & Hce & S).
    destruct S as [Eu _ Ee _ _ _|_ ? _|f t Eop Er _ _ _ Ee Es _ _]; [|congruence|].
    + rewrite Ee. specialize (Hbelow i ce Hce). rewrite <- Eu in Hbelow. specialize (Hbelow Hu). lia.
    + rewrite Ee, Es. rewrite alloc_in_range by done. cbn. lia.
  - eapply Forall_impl; [exact Hit|]. cbn. intros it [? ?]. split; [done|lia].
  - intros i ce' Hi Hu. destruct (op_slot _ _ _ _ _ Hok Hi) as (ce & Hce & S).
    destruct S as [Eu Ep Ee En _ _|_ ? _|f t Eop Er _ _ _ Ee _ En _]; [|congruence|].
    + rewrite Ee, En, Ep, Hsame. apply (Hnext i ce Hce). congruence.
    + rewrite Ee, En, alloc_in_range by done. cbn [fst]. rewrite stream_fresh; [done|]. by eapply Forall_impl; [exact Hit|intros it [_ ?]].
Qed.

Lemma epochs_unique_advance maxF req full recovery l :
  epochs_unique l -> epochs_unique (map (advance maxF req full recovery) l).
Proof.
  intros Huq i j ci cj (ci0 & Hi & ->)%lookup_map_Some (cj0 & Hj & ->)%lookup_map_Some.
  destruct (advance_keeps maxF req full recovery ci0) as (_ & -> & -> & _).
  destruct (advance_keeps maxF req full recovery cj0) as (_ & -> & -> & _). by apply Huq.
Qed.

(** How a fan-out extends one epoch's stream. *)
Lemma stream_extends maxF req full recovery gw items e :
  tx_inv gw items ->
  let new := stream e (items_from maxF req full recovery 0 (gw_clients gw)) in
  (new = [] /\ forall i ce, gw_clients gw !! i = Some ce -> ce_inUse ce = true -> ce_gatewayTxEpoch ce = e ->
     receives maxF req full recovery ce = false) \/
  exists i ce, gw_clients gw !! i = Some ce /\ ce_inUse ce = true /\ ce_gatewayTxEpoch ce = e /\
    receives maxF req full recovery ce = true /\ new = [client_item req full i ce].
Proof.
  intros I. cbv zeta. set (P := fun ce => ce_inUse ce = true /\ ce_gatewayTxEpoch ce = e).
  destruct (decide (Exists P (gw_clients gw))) as [Hex|Hno].
  - apply Exists_exists in Hex as (ce & Hin & Hu & He). apply list_elem_of_lookup in Hin as [i Hi].
    rewrite <- He, (stream_one maxF req full recovery 0 _ i ce (ti_unique _ _ I) Hi Hu). cbn [Nat.add].
    destruct (receives maxF req full recovery ce) eqn:Er; [right; by exists i, ce|left].
    split; [done|]. intros j cj Hj Huj Hej. assert (j = i) as -> by (by eapply (ti_unique _ _ I)). by simplify_eq.
  - left. rewrite <- Forall_Exists_neg, Forall_lookup in Hno. split.
    + apply stream_none. intros i ce Hi Hu He. by apply (Hno i ce Hi).
    + intros i ce Hi Hu He. by destruct (Hno i ce Hi).
Qed.

Lemma tx_inv_fanout maxF gw req full recovery items :
  tx_inv gw items ->
  tx_inv (gateway_op maxF gw (OpFanout req full recovery)).1
    (items ++ (gateway_op maxF gw (OpFanout req full recovery)).2).
Proof.
  intros I. pose proof I as [Hok Huq Hbelow Hit Hst Hnext Hpeer]. rewrite fanout_op by done. cbn [fst snd].
  constructor; cbn [gw_clients set_seed set_clients gw_epochSeed].
  - apply Forall_map. eapply Forall_impl; [exact Hok|]. apply advance_ok.
  - by apply epochs_unique_advance.
  - intros i ce' (ce & Hce & ->)%lookup_map_Some. destruct (advance_keeps maxF req full recovery ce) as (_ & -> & -> & _). eauto.
  - apply Forall_app. split; [done|]. apply Forall_forall. intros it (i & ce & Hce & Hr & ->)%elem_of_items.
    apply receives_inUse in Hr. split; [by apply (Forall_lookup_1 _ _ _ _ Hok Hce)|by apply (Hbelow i ce Hce)].
  - intros e. rewrite stream_app. destruct (stream_extends maxF req full recovery gw items e I) as [[-> _]|(i & ce & Hi & Hu & He & Hr & ->)].
    + by rewrite app_nil_r.
    + unfold tx_seqs. rewrite map_app, length_app. fold (tx_seqs (stream e items)). rewrite Hst.
      rewrite Nat.add_1_r, numbers_S. f_equal. cbn. f_equal. destruct (Hnext i ce Hi Hu) as [-> _]. by rewrite He.
  - intros i ce' (ce & Hce & ->)%lookup_map_Some. destruct (advance_keeps maxF req full recovery ce) as (-> & -> & -> & _).
    intros Hu. destruct (Hnext i ce Hce Hu) as [Hn Hp]. rewrite stream_app.
    rewrite (stream_one maxF req full recovery 0 _ i ce Huq Hce Hu), length_app, Forall_app. unfold advance.
    destruct (receives maxF req full recovery ce); cbn [set_ce_tx ce_nextGatewayTxSeq length].
    + rewrite Nat.add_1_r. split; [by rewrite Hn|]. split; [done|by repeat constructor].
    + rewrite Nat.add_0_r. split; [done|]. split; [done|constructor].
  - intros e. rewrite stream_app. destruct (stream_extends maxF req full recovery gw items e I) as [[-> _]|(i & ce & Hi & Hu & He & Hr & ->)].
    + by rewrite app_nil_r.
    + exists (ce_peer ce). apply Forall_app. split; [|by repeat constructor]. rewrite <- He. by apply (Hnext i ce).
Qed.

Lemma tx_inv_run maxF gw ops items :
  tx_inv gw items -> 0 < gw_epochSeed gw -> gw_epochSeed gw + Z.of_nat (length ops) < UINT64_MAX ->
  tx_inv (gateway_run maxF gw ops).1 (items ++ (gateway_run maxF gw ops).2).
Proof.
  revert gw items. induction ops as [|op ops IH]; intros gw items I H0 Hb; cbn [gateway_run]; [by rewrite app_nil_r|].
  cbn [length] in Hb. pose proof (op_seed maxF gw op (ti_ok _ _ I) ltac:(lia)) as Hseed.
  assert (tx_inv (gateway_op maxF gw op).1 (items ++ (gateway_op maxF gw op).2)) as I1.
  { destruct op as [|req full rec| | | | | | | | | | | | |]; [|by apply tx_inv_fanout|..];
      (rewrite op_items by done; rewrite app_nil_r; apply tx_inv_quiet; [done|lia|done]). }
  destruct (gateway_op maxF gw op) as [gw1 items1]. cbn [fst snd] in *.
  specialize (IH gw1 (items ++ items1) I1 ltac:(lia) ltac:(lia)).
  destruct (gateway_run maxF gw1 ops) as [gw2 items2]. cbn [fst snd] in *. by rewrite app_assoc.
Qed.

Lemma launch_tx_inv n seed m w gw : launchPSDControl n seed m w = Some gw -> tx_inv gw [].
Proof.
  intros Hl. pose proof (launch_table_ok _ _ _ _ _ Hl) as Hok. revert Hl. unfold launchPSDControl.
  case_match; [done|]. intros [= <-].
  assert (forall i ce, replicate n free_entry !! i = Some ce -> ce_inUse ce = true -> False) as Hfree
    by (intros i ce [-> _]%lookup_replicate; done).
  constructor; cbn; [done|..|constructor|done| |by exists 0].
  - intros i j ci cj Hi _ Hu. by destruct (Hfree i ci).
  - intros i ce Hi Hu. by destruct (Hfree i ce).
  - intros i ce Hi Hu. by destruct (Hfree i ce).
Qed.

(** Numbers below the wrap are consecutive integers. *)
Lemma nth_seq_small k : Z.of_nat k < NVPSD_GATEWAY_DECISION_TX_SEQ_MAX -> nth_seq k = Z.of_nat k + 1.
Proof.
  induction k as [|k IH]; intros Hk; [done|]. change (nth_seq (S k)) with (nextGatewayTxSeqAfter (nth_seq k)). rewrite IH by lia.
  unfold nextGatewayTxSeqAfter, NVPSD_GATEWAY_DECISION_TX_SEQ_MAX, UINT32_MAX in *.
  destruct (Z.leb_spec (4294967295 - 1) (Z.of_nat k + 1)); [lia|]. rewrite u32_small; [lia|]. unfold is_u32. lia.
Qed.

Lemma numbers_sorted k :
  Z.of_nat k <= NVPSD_GATEWAY_DECISION_TX_SEQ_MAX -> StronglySorted Z.lt (numbers k) /\ Forall valid_seq (numbers k).
Proof.
  induction k as [|k IH]; intros Hk; [split; constructor|]. rewrite numbers_S.
  destruct IH as [Hs Hv]; [lia|]. rewrite (nth_seq_small k) by lia. split.
  - apply StronglySorted_app_2; [|done|repeat constructor]. intros x y Hx Hy. apply list_elem_of_singleton in Hy as ->.
    unfold numbers in Hx. apply list_elem_of_fmap in Hx as (i & -> & Hi). apply elem_of_seq in Hi.
    rewrite nth_seq_small by lia. lia.
  - apply Forall_app. split; [done|]. constructor; [|constructor].
    unfold valid_seq, NVPSD_GATEWAY_DECISION_TX_SEQ_MAX, UINT32_MAX in *. lia.
Qed.

Lemma gap_in_iff rs : SEQUENCE_GAP ∈ rs <-> existsb (fun r => bool_decide (r = SEQUENCE_GAP)) rs = true.
Proof.
  rewrite existsb_elem_of. split.
  - intros H. exists SEQUENCE_GAP. split; [done|]. by apply bool_decide_eq_true.
  - intros (r & Hr & Heq%bool_decide_eq_true). by subst.
Qed.

(** A decision maker that starts on an epoch and receives part of its stream. *)
Lemma observe_stream e k s received :
  NvPSDGatewayDecisionPacketEpochIsValid e = true -> Z.of_nat k <= NVPSD_GATEWAY_DECISION_TX_SEQ_MAX ->
  (s :: received) `sublist_of` numbers k ->
  (SEQUENCE_GAP ∈ observe_all sdmGatewayDecisionSequenceReset e (s :: received) <-> consecutive s received = false) /\
  Forall (fun r => r = SEQUENCE_ACCEPTED \/ r = SEQUENCE_GAP) (observe_all sdmGatewayDecisionSequenceReset e (s :: received)).
Proof.
  intros He Hk Hsub. destruct (numbers_sorted k Hk) as [Hso Hv].
  assert (Forall valid_seq (s :: received)) as Hv' by (by eapply Forall_sublist_of).
  assert (StronglySorted Z.lt (s :: received)) as Hso' by (by eapply sorted_sublist).
  inversion_clear Hv' as [|? ? Hs Hr]. destruct (observe_all_spec e received s He Hs Hr Hso') as [Hgap Hall].
  cbn [observe_all]. unfold sdmGatewayDecisionSequenceObserve. rewrite He, (proj2 (seq_valid_iff s) Hs).
  cbn [negb orb sdmGatewayDecisionSequenceReset sq_initialized]. split.
  - rewrite gap_in_iff. cbn [existsb]. rewrite bool_decide_eq_false_2 by done. cbn [orb]. rewrite Hgap. by rewrite negb_true_iff.
  - constructor; [by left|done].
Qed.

(** ** Reachable gateways

    Any interleaving of critical sections after [launchPSDControl], with the
    packets built so far.  The 64-bit epoch seed and fault generation are not
    exhausted. *)

Inductive gateway_reachable (maxF : Z) : Gateway -> list SendItem -> Prop :=
  | gr_launch n seed m w gw : 0 < seed -> launchPSDControl n seed m w = Some gw -> gateway_reachable maxF gw []
  | gr_step gw items op : gateway_reachable maxF gw items ->
      gw_epochSeed gw < UINT64_MAX -> gw_pssFaultGeneration gw < UINT64_MAX ->
      gateway_reachable maxF (gateway_op maxF gw op).1 (items ++ (gateway_op maxF gw op).2).

Definition debts_ok (gw : Gateway) : Prop :=
  0 <= gw_pssFaultGeneration gw /\
  forall i ce, gw_clients gw !! i = Some ce -> ce_inUse ce = true -> 0 <= ce_recoveryOwedGen ce <= gw_pssFaultGeneration gw.

Record gateway_wf (gw : Gateway) (items : list SendItem) : Prop := {
  gwf_tx : tx_inv gw items;
  gwf_seed : 0 < gw_epochSeed gw;
  gwf_debts : debts_ok gw;
}.

Lemma op_generation maxF gw op :
  gw_pssFaultGeneration (gateway_op maxF gw op).1 =
  match op with OpNote => u64 (gw_pssFaultGeneration gw + 1) | _ => gw_pssFaultGeneration gw end.
Proof.
  destruct op; try done; cbn.
  - by destruct (fanout_clients maxF req sendFullRequest recovery 0 _ _) as [[? ?] ?].
  - destruct (findSlotByPeerLocked from _); [done|]. by destruct (existsb _ _).
  - destruct (findSlotByPeerLocked peer _); [|done]. unfold releaseClientSlotLocked. by case_match.
  - by destruct (findSlotByPeerLocked from _).
  - unfold register_client. repeat case_match; done.
Qed.

Lemma op_debts_ok maxF gw op :
  Forall entry_ok (gw_clients gw) -> gw_pssFaultGeneration gw < UINT64_MAX -> debts_ok gw -> debts_ok (gateway_op maxF gw op).1.
Proof.
  intros Hok Hg [H0 Hd]. assert (u64 (gw_pssFaultGeneration gw + 1) = gw_pssFaultGeneration gw + 1) as Hu64
    by (apply u64_small; unfold is_u64, UINT64_MAX in *; lia).
  split; [rewrite op_generation; destruct op; lia|]. intros i ce' Hi Hu. rewrite op_generation.
  destruct (op_slot _ _ _ _ _ Hok Hi) as (ce & Hce & S). specialize (Hd i ce Hce).
  destruct S as [Eu _ _ _ _ D|_ ? _|f t Eop _ _ _ _ _ _ _ Ho]; [|congruence|subst op; lia].
  rewrite Eu in Hu. specialize (Hd Hu). destruct D as [_ Ho|Eop Ho|sent r Eop _ _ _ _ Ho]; [rewrite Ho; destruct op; lia|subst op; lia|subst op; lia].
Qed.

Lemma gateway_reachable_wf maxF gw items : gateway_reachable maxF gw items -> gateway_wf gw items.
Proof.
  induction 1 as [n seed m w gw Hs Hl|gw items op _ [Htx Hseed Hd] Hse Hge].
  - constructor; [by eapply launch_tx_inv|..]; revert Hl; unfold launchPSDControl; (case_match; [done|]); intros [= <-]; cbn.
    + done.
    + split; cbn; [lia|]. intros i ce [-> _]%lookup_replicate. done.
  - pose proof (ti_ok _ _ Htx) as Hok. constructor; [|pose proof (op_seed maxF gw op Hok ltac:(lia)); lia|by apply op_debts_ok].
    destruct op as [|req full rec| | | | | | | | | | | | |]; [|by apply tx_inv_fanout|..];
      (rewrite op_items by done; rewrite app_nil_r; apply tx_inv_quiet; [done|lia|done]).
Qed.

(** Room for [n] more critical sections. *)
Definition gateway_room (n : nat) (gw : Gateway) : Prop :=
  gw_epochSeed gw + Z.of_nat n < UINT64_MAX /\ gw_pssFaultGeneration gw + Z.of_nat n < UINT64_MAX.

Lemma room_op maxF gw items op n :
  gateway_wf gw items -> gateway_room (S n) gw -> gateway_room n (gateway_op maxF gw op).1.
Proof.
  intros [Htx Hs [H0 _]] [Hr1 Hr2]. pose proof (op_seed maxF gw op (ti_ok _ _ Htx) ltac:(lia)).
  split; [lia|]. rewrite op_generation. destruct op; try lia.
  rewrite u64_small; [lia|]. unfold is_u64, UINT64_MAX in *. lia.
Qed.

(** Slot [i], as long as it belongs to the registration of epoch [e], owes peer
    [p] a record of generation [g] or newer. *)
Definition owes (i : nat) (e p g : Z) (gw : Gateway) : Prop :=
  e < gw_epochSeed gw /\
  forall ce, gw_clients gw !! i = Some ce -> ce_inUse ce = true -> ce_gatewayTxEpoch ce = e ->
  ce_peer ce = p /\ g <= ce_recoveryOwedGen ce.

(** [op] pays no debt of generation [g] or newer to [p] in slot [i]. *)
Definition pays_less (i : nat) (p g : Z) (op : GatewayOp) : Prop :=
  forall sent r, op = OpPay sent -> r ∈ sent -> rs_slot r = i -> rs_peer r = p -> rs_recoveryOwedGen r < g.

Lemma owes_op maxF gw items op i e p g :
  gateway_wf gw items -> gateway_room 1 gw -> pays_less i p g op -> owes i e p g gw -> owes i e p g (gateway_op maxF gw op).1.
Proof.
  intros [Htx Hs [H0 Hd]] [Hr1 Hr2] Hpay [He Ho]. pose proof (ti_ok _ _ Htx) as Hok.
  pose proof (op_seed maxF gw op Hok ltac:(lia)) as Hseed. split; [lia|]. intros ce' Hi Hu Hee.
  destruct (op_slot _ _ _ _ _ Hok Hi) as (ce & Hce & S).
  destruct S as [Eu Ep Ee _ _ D|_ ? _|f t _ _ _ _ _ Ee _ _ _]; [|congruence|].
  - destruct (Ho ce Hce) as [Hp Hg]; [congruence..|]. split; [congruence|].
    specialize (Hd i ce Hce ltac:(congruence)). destruct D as [_ Eo|Eop Eo|sent r Eop Hr Hi' Hp' Hg' _]; [congruence|rewrite Eo|].
    + rewrite u64_small; [lia|]. unfold is_u64, UINT64_MAX in *. lia.
    + specialize (Hpay sent r Eop Hr Hi' ltac:(congruence)). lia.
  - rewrite alloc_in_range in Ee by lia. cbn in Ee. lia.
Qed.

Lemma reachable_op maxF gw items op :
  gateway_reachable maxF gw items -> gateway_room 1 gw ->
  gateway_reachable maxF (gateway_op maxF gw op).1 (items ++ (gateway_op maxF gw op).2).
Proof. intros H [? ?]. apply gr_step; [done|lia|lia]. Qed.

Lemma gateway_state_cons maxF gw op ops :
  gateway_state maxF gw (op :: ops) = gateway_state maxF (gateway_op maxF gw op).1 ops.
Proof.
  unfold gateway_state. cbn [gateway_run]. destruct (gateway_op maxF gw op) as [gw1 ?]. cbn.
  by destruct (gateway_run maxF gw1 ops).
Qed.

Lemma gateway_state_app maxF gw ops1 ops2 :
  gateway_state maxF gw (ops1 ++ ops2) = gateway_state maxF (gateway_state maxF gw ops1) ops2.
Proof.
  revert gw. induction ops1 as [|op ops1 IH]; intros gw; [done|]. cbn [app]. by rewrite !gateway_state_cons, IH.
Qed.

(** A debt survives everything but a record sent for it. *)
Lemma owes_run maxF gw items ops i e p g :
  gateway_reachable maxF gw items -> gateway_room (length ops) gw -> Forall (pays_less i p g) ops ->
  owes i e p g gw -> owes i e p g (gateway_state maxF gw ops).
Proof.
  revert gw items. induction ops as [|op ops IH]; intros gw items Hr Hroom Hpay Ho; [done|].
  inversion_clear Hpay. rewrite gateway_state_cons. pose proof (gateway_reachable_wf _ _ _ Hr) as W.
  assert (gateway_room 1 gw) as Hr1 by (destruct Hroom; split; cbn [length] in *; lia).
  eapply IH; [by apply reachable_op|by eapply room_op|done|by eapply owes_op].
Qed.

(** ** The heartbeat ladder *)

Lemma op_length maxF gw op :
  Forall entry_ok (gw_clients gw) -> length (gw_clients (gateway_op maxF gw op).1) = length (gw_clients gw).
Proof.
  intros Hok. destruct op; try done.
  - rewrite fanout_op by done. apply length_map.
  - apply length_map.
  - cbn. generalize (gw_clients gw). clear. induction sent as [|r sent IH]; intros l; [done|]. cbn [fold_left].
    rewrite IH. unfold pay_debt. destruct (l !! rs_slot r); [|done]. case_match; [done|]. apply length_insert.
  - cbn. destruct (findSlotByPeerLocked from _); [done|]. by destruct (existsb _ _).
  - cbn. destruct (findSlotByPeerLocked peer _); [|done]. unfold releaseClientSlotLocked. cbn. case_match; [|done]. apply length_insert.
  - cbn. destruct (findSlotByPeerLocked from _); [|done]. apply length_alter.
  - cbn. unfold register_client. destruct (registration_slot from (gw_clients gw)) as [[s [|]]|]; [..|done];
      (destruct (gw_clients gw !! s); [|done]); [apply length_insert|].
    destruct (allocateGatewayClientEpoch _). cbn [gw_clients set_seed set_clients]. by rewrite length_alter, length_insert.
  - cbn. by rewrite !length_map.
Qed.

Section ladder.
Context (maxF : Z) (i : nat) (e p acked : Z).

(** Slot [i] holds the registration of epoch [e] with [m] missed heartbeats. *)
Definition silent (m : Z) (gw : Gateway) : Prop :=
  exists ce, gw_clients gw !! i = Some ce /\ ce_inUse ce = true /\ ce_gatewayTxEpoch ce = e /\ ce_peer ce = p /\
    ce_lastAckedSeq ce = acked /\ ce_missedCount ce = m.

(** The registration of epoch [e] has left slot [i]. *)
Definition reclaimed (gw : Gateway) : Prop :=
  e < gw_epochSeed gw /\
  forall ce, gw_clients gw !! i = Some ce -> ce_inUse ce = true -> ce_gatewayTxEpoch ce <> e.

(** The client neither acknowledges, nor registers again, nor disconnects. *)
Definition not_from (op : GatewayOp) : Prop :=
  match op with
  | OpAck from _ | OpRegister from _ | OpGone from _ => from <> p
  | _ => True
  end.

Definition ladder_seqs (ops : list GatewayOp) : list Z :=
  omap (fun op => match op with OpLadder seq => Some seq | _ => None end) ops.

Lemma reclaimed_op gw items op :
  gateway_wf gw items -> gateway_room 1 gw -> reclaimed gw -> reclaimed (gateway_op maxF gw op).1.
Proof.
  intros [Htx Hs _] [Hr1 _] [He Hno]. pose proof (ti_ok _ _ Htx) as Hok.
  pose proof (op_seed maxF gw op Hok ltac:(lia)). split; [lia|]. intros ce' Hi Hu.
  destruct (op_slot _ _ _ _ _ Hok Hi) as (ce & Hce & S).
  destruct S as [Eu _ Ee _ _ _|_ ? _|f t _ _ _ _ _ Ee _ _ _]; [|congruence|].
  - rewrite Ee. apply (Hno ce Hce). congruence.
  - rewrite Ee, alloc_in_range by lia. cbn. lia.
Qed.

Lemma silent_op gw items op m :
  gateway_wf gw items -> gateway_room 1 gw -> not_from op ->
  (forall s, op = OpLadder s -> isSeqAhead s acked = true) -> silent m gw ->
  let m' := match op with OpLadder _ => m + 1 | _ => m end in
  (m' < maxF \/ m' = m -> silent m' (gateway_op maxF gw op).1) /\
  (m' = m + 1 -> maxF <= m' -> reclaimed (gateway_op maxF gw op).1).
Proof.
  intros [Htx Hs _] [Hr1 _] Hn Ha (ce & Hce & Hu & He & Hp & Hk & Hm). cbv zeta.
  pose proof (ti_ok _ _ Htx) as Hok. pose proof (op_seed maxF gw op Hok ltac:(lia)) as Hseed.
  assert (exists ce', gw_clients (gateway_op maxF gw op).1 !! i = Some ce') as [ce' Hi].
  { apply lookup_lt_is_Some. rewrite op_length by done. by eapply lookup_lt_Some. }
  pose proof Hi as Hi0. apply op_slot in Hi0 as (ce0 & Hce0 & S); [|done]. assert (ce0 = ce) as -> by congruence.
  pose proof (ti_below _ _ Htx i ce Hce Hu) as Hlt.
  destruct S as [Eu Ep Ee _ H _|_ Eu Hr|f t _ _ ? _ _ _ _ _ _]; [| |congruence].
  - destruct H as [Hl El Em|a -> _|t -> _|s -> Hah Hlm El Em]; cbn in Hn; try congruence.
    + destruct op; try (split; [intros _; exists ce'; split_and!; congruence|lia]).
      specialize (Ha seq eq_refl). specialize (Hl seq eq_refl). rewrite Hu, Hk, Ha in Hl. done.
    + split; [intros _; exists ce'; split_and!; congruence|lia].
  - destruct Hr as [[nd ->]|(s & -> & Hah & Hmf)]; cbn in Hn; [congruence|].
    split; [lia|]. intros _ _. split; [lia|]. intros c Hc. congruence.
Qed.

Lemma reclaimed_run gw items ops :
  gateway_reachable maxF gw items -> gateway_room (length ops) gw -> reclaimed gw -> reclaimed (gateway_state maxF gw ops).
Proof.
  revert gw items. induction ops as [|op ops IH]; intros gw items Hr Hroom Hg; [done|].
  rewrite gateway_state_cons. pose proof (gateway_reachable_wf _ _ _ Hr) as W.
  assert (gateway_room 1 gw) as Hr1 by (destruct Hroom; split; cbn [length] in *; lia).
  eapply IH; [by apply reachable_op|by eapply room_op|by eapply reclaimed_op].
Qed.

Lemma silent_run gw items ops m :
  gateway_reachable maxF gw items -> gateway_room (length ops) gw -> Forall not_from ops ->
  Forall (fun s => isSeqAhead s acked = true) (ladder_seqs ops) -> silent m gw -> m < maxF ->
  let n := m + Z.of_nat (length (ladder_seqs ops)) in
  (n < maxF -> silent n (gateway_state maxF gw ops)) /\ (maxF <= n -> reclaimed (gateway_state maxF gw ops)).
Proof.
  revert gw items m. induction ops as [|op ops IH]; intros gw items m Hr Hroom Hnf Hah Hs Hm; cbv zeta.
  { cbn. rewrite Z.add_0_r. split; [done|lia]. }
  rewrite gateway_state_cons. pose proof (gateway_reachable_wf _ _ _ Hr) as W.
  inversion_clear Hnf as [|? ? Hop Hops].
  assert (gateway_room 1 gw) as Hr1 by (destruct Hroom; split; cbn [length] in *; lia).
  pose proof (reachable_op maxF gw items op Hr Hr1) as Hr'. pose proof (room_op maxF gw items op _ W Hroom) as Hroom'.
  assert (forall s, op = OpLadder s -> isSeqAhead s acked = true) as Ha by (intros s ->; by inversion_clear Hah).
  destruct (silent_op gw items op m W Hr1 Hop Ha Hs) as [Hs1 Hs2].
  assert ((exists s, op = OpLadder s) \/ ~ exists s, op = OpLadder s) as [[s ->]|Hnl]
    by (destruct op; (by right; intros []) || (by left; eexists)).
  - cbn [ladder_seqs omap list_omap length] in *. inversion_clear Hah as [|? ? _ Hah'].
    destruct (decide (m + 1 < maxF)) as [Hlt|Hge].
    + destruct (IH _ _ _ Hr' Hroom' Hops Hah' (Hs1 (or_introl Hlt)) Hlt) as [H1 H2].
      split; intros Hn; [replace (m + _) with (m + 1 + Z.of_nat (length (ladder_seqs ops))) by (unfold ladder_seqs; lia)|];
        [apply H1|apply H2]; unfold ladder_seqs; lia.
    + split; [lia|]. intros _. eapply reclaimed_run; [exact Hr'|exact Hroom'|]. apply Hs2; lia.
  - assert (ladder_seqs (op :: ops) = ladder_seqs ops) as E by (destruct op; try done; by destruct Hnl; eexists).
    rewrite E in *. assert ((match op with OpLadder _ => m + 1 | _ => m end) = m) as Em by (destruct op; try done; by destruct Hnl; eexists).
    rewrite Em in Hs1. eapply IH; [exact Hr'|exact Hroom'|done|done|by apply Hs1; right|done].
Qed.
End ladder.

Lemma reachable_run maxF gw items ops :
  gateway_reachable maxF gw items -> gateway_room (length ops) gw ->
  gateway_reachable maxF (gateway_state maxF gw ops) (items ++ (gateway_run maxF gw ops).2).
Proof.
  revert gw items. induction ops as [|op ops IH]; intros gw items Hr Hroom; [by rewrite app_nil_r|].
  pose proof (gateway_reachable_wf _ _ _ Hr) as W.
  assert (gateway_room 1 gw) as Hr1 by (destruct Hroom; split; cbn [length] in *; lia).
  specialize (IH _ _ (reachable_op maxF gw items op Hr Hr1) (room_op _ _ _ _ _ W Hroom)).
  unfold gateway_state in *. cbn [gateway_run]. destruct (gateway_op maxF gw op) as [gw1 items1]. cbn [fst snd] in *.
  destruct (gateway_run maxF gw1 ops) as [gw2 items2]. cbn [fst snd] in *. by rewrite app_assoc.
Qed.

(** The items of one slot in a fan-out. *)
Lemma items_of_slot maxF req full recovery start l i ce :
  l !! i = Some ce ->
  filter (fun it => si_slot it = (start + i)%nat) (items_from maxF req full recovery start l) =
  if receives maxF req full recovery ce then [client_item req full (start + i) ce] else [].
Proof.
  revert start i. induction l as [|c l IH]; intros start i Hl; [done|]. cbn [items_from]. rewrite filter_app.
  destruct i as [|i]; cbn in Hl.
  - simplify_eq. rewrite Nat.add_0_r, (filter_none _ (items_from _ _ _ _ _ l)), app_nil_r.
    + destruct (receives _ _ _ _ ce); [|done]. by rewrite filter_cons_True.
    + apply Forall_forall. intros it (j & cj & _ & _ & ->)%elem_of_items. cbn. lia.
  - rewrite Nat.add_succ_r, <- Nat.add_succ_l, (IH (S start) i Hl).
    destruct (receives _ _ _ _ c); [|done]. rewrite filter_cons_False; [done|]. cbn. lia.
Qed.

Lemma subscribed_order req types types' : types ≡ₚ types' -> subscribed_entries req types = subscribed_entries req types'.
Proof. intros Hp. unfold subscribed_entries. apply list_filter_iff. intros d. by rewrite Hp. Qed.

Lemma build_order req types types' :
  NoDup types -> types ≡ₚ types' ->
  buildRequestFromIndex req (buildEventTypeToIndices req) types = buildRequestFromIndex req (buildEventTypeToIndices req) types'.
Proof.
  intros Hnd Hp. assert (NoDup types') by (by rewrite <- Hp). unfold buildRequestFromIndex.
  rewrite !sorted_indices by done.
  assert (forall l, filter (fun i => type_at req i ∈ types) l = filter (fun i => type_at req i ∈ types') l) as ->
    by (intros l; apply list_filter_iff; intros k; by rewrite Hp). done.
Qed.

(** ** Properties *)

(** Exact filtering: a filtered fan-out builds, for every registered client
    outside the degraded heartbeat tier, one packet carrying exactly the
    populated entries whose type the client subscribed to, in request order and
    with the request's id and status, and none when there is no such entry; the
    iteration order of the client's hash set does not matter. *)
Theorem filtered_fanout_exact maxF gw items req i ce :
  gateway_reachable maxF gw items -> forwardable req ->
  gw_clients gw !! i = Some ce -> ce_inUse ce = true -> degraded maxF ce = false ->
  let expected := filter (fun d => ev_type (sd_event d) ∈ ce_eventTypes ce) (populated req) in
  map (fun it => (si_peer it, populated (pk_request (si_packet it)),
                  dr_requestId (pk_request (si_packet it)), dr_pssStatus (pk_request (si_packet it))))
    (filter (fun it => si_slot it = i) (gateway_op maxF gw (OpFanout req false false)).2) =
  match expected with [] => [] | _ => [(ce_peer ce, expected, dr_requestId req, dr_pssStatus req)] end /\
  forall order, order ≡ₚ elements (ce_eventTypes ce) ->
    buildRequestFromIndex req (buildEventTypeToIndices req) order =
    buildRequestFromIndex req (buildEventTypeToIndices req) (elements (ce_eventTypes ce)).
Proof.
  intros Hr F Hi Hu Hd. cbv zeta. split; [|intros order Hp; apply build_order; [rewrite Hp; apply NoDup_elements|done]].
  rewrite fanout_op by apply (gateway_reachable_wf _ _ _ Hr). cbn [snd].
  pose proof (items_of_slot maxF req false false 0 (gw_clients gw) i ce Hi) as E. cbn [Nat.add] in E. rewrite E. clear E.
  pose proof (build_from_index req (fw_len req F) _ (NoDup_elements (ce_eventTypes ce))) as H.
  unfold receives, client_item, client_payload. rewrite Hu, Hd.
  destruct (buildRequestFromIndex req _ _) as [out n]. destruct H as (Hp & Hn & Hs & _ & _ & Hid & Hst). cbn [fst snd negb andb].
  assert (filter (fun d => ev_type (sd_event d) ∈ ce_eventTypes ce) (populated req) = populated out) as ->.
  { rewrite Hp. apply list_filter_iff. intros d. by rewrite elem_of_elements. }
  rewrite <- Hp in Hn. unfold NvPSDGatewayShouldSendDecisionRequest. rewrite Hn. clear Hn Hs n Hp.
  destruct (populated out) as [|d l] eqn:Eo; [done|].
  destruct (Z.ltb_spec 0 (Z.of_nat (length (d :: l)))); [|cbn in *; lia]. cbn [map si_peer si_packet pk_request].
  by rewrite <- Eo, <- Hid, <- Hst.
Qed.


(** The heartbeat ladder: a client that neither acknowledges, re-registers
    nor disconnects has, after the heartbeats it left unanswered, exactly that
    many more misses as long as the limit is not reached; from the limit on its
    slot has been released; and while it is past half the limit no request is
    forwarded to it. *)
Theorem silent_client_reclaimed maxF gw items i ce ops :
  gateway_reachable maxF gw items -> gateway_room (length ops) gw ->
  gw_clients gw !! i = Some ce -> ce_inUse ce = true -> 0 <= ce_missedCount ce < maxF ->
  Forall (not_from (ce_peer ce)) ops ->
  Forall (fun s => isSeqAhead s (ce_lastAckedSeq ce) = true) (ladder_seqs ops) ->
  let n := ce_missedCount ce + Z.of_nat (length (ladder_seqs ops)) in
  let gw' := gateway_state maxF gw ops in
  (n < maxF -> exists ce', gw_clients gw' !! i = Some ce' /\ ce_inUse ce' = true /\
     ce_gatewayTxEpoch ce' = ce_gatewayTxEpoch ce /\ ce_missedCount ce' = n /\
     (maxF / 2 < n -> forall req full recovery,
        Forall (fun it => si_slot it <> i) (gateway_op maxF gw' (OpFanout req full recovery)).2)) /\
  (maxF <= n -> forall ce', gw_clients gw' !! i = Some ce' -> ce_inUse ce' = true ->
     ce_gatewayTxEpoch ce' <> ce_gatewayTxEpoch ce).
Proof.
  intros Hr Hroom Hi Hu Hm Hnf Hah. cbv zeta.
  destruct (silent_run maxF i (ce_gatewayTxEpoch ce) (ce_peer ce) (ce_lastAckedSeq ce) gw items ops (ce_missedCount ce))
    as [H1 H2]; [done..|by exists ce|lia|]. split; [|intros Hn; by apply H2].
  intros Hn. destruct (H1 Hn) as (ce' & Hi' & Hu' & He' & _ & _ & Hm'). exists ce'. split_and!; try done.
  intros Hw req full recovery. rewrite fanout_op by (by apply run_table_ok; eapply gateway_reachable_wf).
  cbn [snd]. apply Forall_forall. intros it (j & cj & Hj & Hrc & ->)%elem_of_items. cbn. intros ->.
  assert (cj = ce') as -> by congruence. unfold receives, degraded in Hrc. rewrite Hm' in Hrc. bool_prop.
  pose proof (Z.div_pos maxF 2). lia.
Qed.

(** ** Witnesses *)

(** Two registered clients, the first subscribed to events 0 to 3. *)
Definition demo_launch : Gateway :=
  default (set_pending [] {| gw_clients := []; gw_pending := []; gw_deferredDrops := []; gw_pssFaultGeneration := 0; gw_epochSeed := 1;
    gw_hbSeqNo := 1; gw_pssSequence := initial_pss_sequence; gw_limiter := regr_configure 4 1000 |})
    (launchPSDControl 3 7 4 1000).

Definition demo_ops : list GatewayOp :=
  [OpRegister 5 (NvPSDGatewayAddMandatoryEventTypes {[0; 1; 2; 3]}); OpRegister 6 (NvPSDGatewayAddMandatoryEventTypes {[9]})].

Definition demo_gateway : Gateway := gateway_state 4 demo_launch demo_ops.

Lemma demo_reachable : gateway_reachable 4 demo_gateway [].
Proof.
  apply (reachable_run 4 demo_launch [] demo_ops); [|by vm_compute].
  by apply (gr_launch 4 3 7 4 1000).
Qed.

Definition demo_client : ClientEntry := {|
  ce_peer := 5; ce_eventTypes := NvPSDGatewayAddMandatoryEventTypes {[0; 1; 2; 3]}; ce_inUse := true;
  ce_lastAckedSeq := HB_SEQ_NONE; ce_gatewayTxEpoch := 7; ce_nextGatewayTxSeq := 1; ce_missedCount := 0; ce_recoveryOwedGen := 0 |}.

Lemma filtered_fanout_exact_witness :
  map (fun it => (si_peer it, populated (pk_request (si_packet it)),
                  dr_requestId (pk_request (si_packet it)), dr_pssStatus (pk_request (si_packet it))))
    (filter (fun it => si_slot it = 0%nat) (gateway_op 4 demo_gateway (OpFanout (sample_request 9) false false)).2) =
  [(5, populated (sample_request 9), 9, dr_pssStatus (sample_request 9))].
Proof.
  etransitivity.
  - apply (filtered_fanout_exact 4 demo_gateway [] (sample_request 9) 0 demo_client demo_reachable).
    + apply sendable_forwardable; [apply sample_sendable|reflexivity].
    + vm_compute. reflexivity.
    + reflexivity.
    + reflexivity.
  - vm_compute. reflexivity.
Defined.

(** Three fan-outs, the second of which is lost on its way to the first client. *)
Definition demo_fanouts : list GatewayOp :=
  [OpFanout (sample_request 9) false false; OpFanout (sample_request 10) false false; OpFanout (sample_request 11) false false].


Definition demo_ticks : list GatewayOp := [OpLadder 1; OpLadder 2; OpHbSeq; OpLadder 3].

Lemma silent_client_reclaimed_witness :
  exists ce', gw_clients (gateway_state 4 demo_gateway demo_ticks) !! 0%nat = Some ce' /\ ce_missedCount ce' = 3.
Proof.
  destruct (silent_client_reclaimed 4 demo_gateway [] 0 demo_client demo_ticks demo_reachable) as [H _].
  - vm_compute. split; reflexivity.
  - vm_compute. reflexivity.
  - reflexivity.
  - vm_compute. split; [discriminate|reflexivity].
  - repeat constructor.
  - repeat constructor.
  - destruct (H eq_refl) as (ce' & Hi & _ & _ & Hm & _). exists ce'. split; [exact Hi|exact Hm].
Defined.
