(* ===== verification/GatewayCallback.v ===== *)
(** * The gateway's callback under interference

    [onEventNotificationReceive] as a sequence of critical sections with the
    other threads' sections in between: every packet it sends is acceptable to
    the decision maker, a fault of the PSS link reaches every client and leaves
    it owing a recovery record, and such a debt is paid only by a record the
    transport accepted. *)

From S2P Require Import Prelude Protocol Crc Validate SdmRequestState GatewayContract SdmSequence Gateway GatewaySafety.

(** ** Requests that may be forwarded *)

Lemma valid_forwardable r : wf_request r -> valid_request r -> forwardable r.
Proof.
  intros W V. constructor; try apply V; [apply W|..].
  - pose proof (wfr_size r W) as [? _]. split; [done|apply V].
  - intros Hz _. by apply (vr_stop r V).
Qed.

Section synthetic.
Context (current : DecisionRequest) (Hmode : 0 <= st_mode (dr_pssStatus current) <= ERROR).

Lemma gap_forwardable : forwardable (NvPSDGatewayBuildPssSequenceGapSwFailRequest current).
Proof. apply sendable_forwardable; [synthetic|done]. Qed.

Lemma invalid_forwardable : forwardable (NvPSDGatewayBuildInvalidPssRequestIdSwFailRequest current).
Proof. apply sendable_forwardable; [synthetic|done]. Qed.

Lemma error_forwardable : forwardable (NvPSDGatewayBuildPssErrorSwFailRequest current).
Proof. apply sendable_forwardable; [synthetic|done]. Qed.

Lemma recovered_forwardable : forwardable (NvPSDGatewayBuildPssCommRecoveredRequest current).
Proof. apply sendable_forwardable; [synthetic|done]. Qed.
End synthetic.

Lemma pss_dead_forwardable : forwardable pss_dead_request.
Proof. constructor; try done. exists CRITICAL. by intros d Hd%elem_of_nil. Qed.

(** ** The callback as a run of critical sections *)

Section callback.
Context (maxF : Z) (transport : option (SendItem -> NvPSFTransportErr)) (between : nat -> list GatewayOp).

(** [gw'] is reached from [gw] by at most [n] sections, all satisfying [P]. *)
Definition steps (P : GatewayOp -> Prop) (n : nat) (gw gw' : Gateway) : Prop :=
  exists ops, gw' = gateway_state maxF gw ops /\ Forall P ops /\ (length ops <= n)%nat.

Lemma steps_refl P n gw : steps P n gw gw.
Proof. exists []. split_and!; [done|constructor|cbn; lia]. Qed.

Lemma steps_trans P n1 n2 gw1 gw2 gw3 : steps P n1 gw1 gw2 -> steps P n2 gw2 gw3 -> steps P (n1 + n2) gw1 gw3.
Proof.
  intros (o1 & -> & F1 & L1) (o2 & -> & F2 & L2). exists (o1 ++ o2).
  split_and!; [by rewrite gateway_state_app|by apply Forall_app|rewrite length_app; lia].
Qed.

Lemma steps_weaken (P Q : GatewayOp -> Prop) n m gw gw' :
  (forall op, P op -> Q op) -> (n <= m)%nat -> steps P n gw gw' -> steps Q m gw gw'.
Proof. intros HPQ Hnm (o & -> & F & L). exists o. split_and!; [done|by eapply Forall_impl|lia]. Qed.

Lemma steps_ops P gw ops : Forall P ops -> steps P (length ops) gw (gateway_state maxF gw ops).
Proof. intros F. by exists ops. Qed.

(** Sections each handler may take: what [between] allows and its own. *)
Section interference.
Context (P : GatewayOp -> Prop) (bound : nat).
Hypothesis (HP : forall k, Forall P (between k)) (Hb : forall k, (length (between k) <= bound)%nat).

Lemma steps_between k gw : steps P bound gw (gateway_state maxF gw (between k)).
Proof. eapply steps_weaken; [done|apply (Hb k)|by apply steps_ops]. Qed.

Lemma steps_section k op gw : P op -> steps P (S bound) gw (section_at maxF between k op gw).1.
Proof.
  intros Hop. rewrite <- Nat.add_1_r. eapply steps_trans; [apply steps_between|].
  unfold section_at. exists [op]. by split_and!; [rewrite gateway_state_cons|constructor; [|constructor]|].
Qed.

Lemma steps_send k req full recovery gw :
  P (OpFanout req full recovery) -> P OpFlush ->
  steps P (2 * S bound) gw (sendToRelevantClients maxF transport between k req full recovery gw).1.
Proof.
  intros H1 H2. unfold sendToRelevantClients. pose proof (steps_section k _ gw H1) as S1.
  destruct (section_at maxF between k _ gw) as [gw1 its]. cbn [fst] in S1.
  pose proof (steps_section (S k) _ gw1 H2) as S2. destruct its as [|it its].
  - eapply steps_weaken; [done| |exact S1]. lia.
  - replace (2 * S bound)%nat with (S bound + S bound)%nat by lia.
    destruct transport; cbn [fst]; (eapply steps_trans; [exact S1|exact S2]).
Qed.

Lemma steps_fault k req gw :
  P (OpFanout req true false) -> P OpFlush -> P OpNote ->
  steps P (3 * S bound) gw (broadcast_fault maxF transport between k req gw).1.
Proof.
  intros H1 H2 H3. unfold broadcast_fault. pose proof (steps_send k req true false gw H1 H2) as S1.
  destruct (sendToRelevantClients _ _ _ k _ _ _ gw) as [gw1 sent]. cbn [fst] in *.
  replace (3 * S bound)%nat with (2 * S bound + S bound)%nat by lia.
  eapply steps_trans; [exact S1|]. by apply steps_section.
Qed.
End interference.

(** ** What is sent *)

Definition all_accepted (sent : list (SendItem * NvPSFTransportErr)) : Prop :=
  Forall (fun s => packet_accepted (si_packet s.1)) sent.

Definition table_ok (gw : Gateway) : Prop := Forall entry_ok (gw_clients gw).

Lemma section_table_ok k op gw : table_ok gw -> table_ok (section_at maxF between k op gw).1.
Proof. intros H. by apply op_table_ok, run_table_ok. Qed.

(** What a fan-out sends are items built from the table it finds. *)
Lemma send_items k req full recovery gw :
  table_ok gw ->
  Forall (fun s => s.1 ∈ items_from maxF req full recovery 0 (gw_clients (gateway_state maxF gw (between k))))
    (sendToRelevantClients maxF transport between k req full recovery gw).2.
Proof.
  intros H. unfold sendToRelevantClients, section_at at 1.
  rewrite fanout_op by (by apply run_table_ok). destruct (items_from _ _ _ _ _ _) as [|it its]; [constructor|].
  destruct transport as [send|]; [|constructor]. cbn [snd]. apply Forall_map, Forall_forall. by intros x Hx.
Qed.

Lemma send_ok k req full recovery gw :
  forwardable req -> table_ok gw ->
  table_ok (sendToRelevantClients maxF transport between k req full recovery gw).1 /\
  all_accepted (sendToRelevantClients maxF transport between k req full recovery gw).2.
Proof.
  intros F H. split.
  - unfold sendToRelevantClients. pose proof (section_table_ok k (OpFanout req full recovery) gw H) as H1.
    destruct (section_at maxF between k _ gw) as [gw1 [|it its]]; [done|].
    destruct transport; by apply section_table_ok.
  - eapply Forall_impl; [by apply send_items|]. intros s Hs. by eapply items_accepted; [| |exact Hs]; [|apply run_table_ok].
Qed.

Lemma fault_ok k req gw :
  forwardable req -> table_ok gw ->
  table_ok (broadcast_fault maxF transport between k req gw).1 /\ all_accepted (broadcast_fault maxF transport between k req gw).2.
Proof.
  intros F H. unfold broadcast_fault. destruct (send_ok k req true false gw F H) as [H1 H2].
  destruct (sendToRelevantClients _ _ _ k _ _ _ gw) as [gw1 sent]. split; [by apply section_table_ok|done].
Qed.

Lemma recover_ok k request gw :
  0 <= st_mode (dr_pssStatus request) <= ERROR -> table_ok gw ->
  table_ok (recover_clients maxF transport between k request gw).1 /\
  all_accepted (recover_clients maxF transport between k request gw).2.
Proof.
  intros Hm H. unfold recover_clients. destruct (recoveryOwedByAnyLocked _); [|split; [by apply run_table_ok|constructor]].
  destruct (send_ok (k + 1) _ true true (gateway_state maxF gw (between k)) (recovered_forwardable request)) as [H1 H2];
    [by apply run_table_ok|].
  destruct (sendToRelevantClients _ _ _ _ _ _ _ _) as [gw1 sent]. split; [by apply section_table_ok|done].
Qed.
End callback.

(** ** The shape of the callback

    A relation between the states before and after and what was sent, counting
    critical sections, holds of the callback if it composes and holds of the
    callback's parts. *)

Section shape.
Context (maxF : Z) (transport : option (SendItem -> NvPSFTransportErr)) (between : nat -> list GatewayOp)
  (request : DecisionRequest) (R : nat -> Gateway -> Gateway -> list (SendItem * NvPSFTransportErr) -> Prop).
Hypothesis (Rnil : forall gw, R 0 gw gw [])
  (Rtrans : forall n m gw1 gw2 gw3 s1 s2, R n gw1 gw2 s1 -> R m gw2 gw3 s2 -> R (n + m) gw1 gw3 (s1 ++ s2))
  (Rweak : forall n m gw gw' s, (n <= m)%nat -> R n gw gw' s -> R m gw gw' s)
  (Robserve : forall gw, R 1 gw (gateway_op maxF gw (OpObserve (dr_requestId request))).1 [])
  (Rfault : forall k fault gw,
     fault ∈ [NvPSDGatewayBuildPssSequenceGapSwFailRequest request; NvPSDGatewayBuildInvalidPssRequestIdSwFailRequest request;
              NvPSDGatewayBuildPssErrorSwFailRequest request] ->
     R 3 gw (broadcast_fault maxF transport between k fault gw).1 (broadcast_fault maxF transport between k fault gw).2)
  (Rrecover : forall gw, st_mode (dr_pssStatus request) <> ERROR ->
     R 4 gw (recover_clients maxF transport between 8 request gw).1 (recover_clients maxF transport between 8 request gw).2)
  (Rsend : forall k gw,
     R 2 gw (sendToRelevantClients maxF transport between k request false false gw).1
       (sendToRelevantClients maxF transport between k request false false gw).2).

Lemma Rif (b : bool) n gw r : R n gw r.1 r.2 -> R n gw (if b then r else (gw, [])).1 (if b then r else (gw, [])).2.
Proof using Rnil Rweak. destruct b; [done|]. intros _. by apply (Rweak 0); [lia|]. Qed.

Lemma callback_shape gw response :
  let cb := onEventNotificationReceive maxF transport between gw (Some request) response in
  R 10 gw (cb_gateway cb) (cb_sent cb).
Proof using All.
  cbv zeta. destruct response as [response|]; [|by apply (Rweak 0); [lia|]]. unfold onEventNotificationReceive.
  pose proof (Robserve gw) as H0. set (obs := (NvPSDGatewayObservePssRequestId _ _).2). set (gw0 := (gateway_op maxF gw _).1) in *.
  clearbody gw0 obs. change 10%nat with (1 + (3 + (4 + 2)))%nat.
  destruct (negb _).
  - case_decide; cbn [cb_gateway cb_sent]; [by apply (Rweak 1); [lia|]|].
    pose proof (Rfault 0 (NvPSDGatewayBuildInvalidPssRequestIdSwFailRequest request) gw0 ltac:(set_solver)) as H1.
    destruct (broadcast_fault _ _ _ _ _ _) as [gw1 sent]. apply (Rweak (1 + 3)); [lia|]. by apply (Rtrans _ _ _ _ _ [] sent H0).
  - pose proof (Rif (bool_decide (obs = GAP) && negb (st_mode (dr_pssStatus request) =? ERROR)) 3 gw0 _
      (Rfault 0 (NvPSDGatewayBuildPssSequenceGapSwFailRequest request) gw0 ltac:(set_solver))) as H1.
    destruct (if _ && _ then _ else _) as [gw1 sent0]. cbn [fst snd] in H1.
    pose proof (Rtrans _ _ _ _ _ [] _ H0 H1) as H01. cbn [app] in H01. rewrite Nat.add_assoc.
    destruct (Z.eqb_spec (st_mode (dr_pssStatus request)) ERROR) as [Hm|Hm].
    + pose proof (Rfault 3 (NvPSDGatewayBuildPssErrorSwFailRequest request) gw1 ltac:(set_solver)) as H2.
      destruct (broadcast_fault _ _ _ _ _ _) as [gw2 sent1]. cbn [fst snd] in H2. pose proof (Rsend 6 gw2) as H3.
      destruct (sendToRelevantClients _ _ _ _ _ _ _ _) as [gw3 sent2]. cbn [cb_gateway cb_sent].
      apply (Rtrans _ _ _ gw1); [exact H01|]. apply (Rweak (3 + 2)); [lia|]. by apply (Rtrans _ _ _ gw2).
    + pose proof (Rif (bool_decide (obs = ACCEPT)) 4 gw1 _ (Rrecover gw1 Hm)) as H2.
      replace (if decide (obs = ACCEPT) then recover_clients maxF transport between 8 request gw1 else (gw1, []))
        with (if bool_decide (obs = ACCEPT) then recover_clients maxF transport between 8 request gw1 else (gw1, []))
        by (destruct (decide (obs = ACCEPT)) as [E|E]; [by rewrite bool_decide_eq_true_2|by rewrite bool_decide_eq_false_2]).
      destruct (if bool_decide _ then _ else _) as [gw2 sent1]. cbn [fst snd] in H2.
      destruct (0 <? _); cbn [cb_gateway cb_sent].
      * pose proof (Rsend 12 gw2) as H3. destruct (sendToRelevantClients _ _ _ _ _ _ _ _) as [gw3 sent2]. cbn [cb_gateway cb_sent].
        apply (Rtrans _ _ _ gw1); [exact H01|]. by apply (Rtrans _ _ _ gw2).
      * apply (Rtrans _ _ _ gw1); [exact H01|]. by apply (Rweak 4); [lia|].
Qed.
End shape.

(** Everything the callback sends is acceptable: given a request that passed
    the validator, and whatever the other threads and the transport do, every
    packet handed to the transport (synthetic faults, recovery records and the
    filtered request) has a valid header and carries a request the decision
    maker's validator accepts; the same holds of the terminal request fanned
    out when the PSS is presumed dead. *)
Theorem callback_packets_accepted maxF transport between gw items request response :
  gateway_reachable maxF gw items -> wf_request request -> validateDecisionRequest (Some request) = PSS_VALID ->
  all_accepted (cb_sent (onEventNotificationReceive maxF transport between gw (Some request) response)) /\
  all_accepted (sendToRelevantClients maxF transport between 0 pss_dead_request true false gw).2.
Proof.
  intros Hr W V%validateDecisionRequest_zero. pose proof (valid_forwardable request W V) as F.
  pose proof (fw_mode request F) as Hm. pose proof (ti_ok _ _ (gwf_tx _ _ (gateway_reachable_wf _ _ _ Hr))) as Hok.
  split; [|by apply send_ok; [apply pss_dead_forwardable|]].
  apply (callback_shape maxF transport between request
    (fun _ g g' sent => table_ok g -> table_ok g' /\ all_accepted sent)); [..|exact Hok].
  - intros g H. split; [done|constructor].
  - intros n m g1 g2 g3 s1 s2 H1 H2 H. destruct (H1 H) as [H' A1]. destruct (H2 H') as [? A2].
    split; [done|by apply Forall_app_2].
  - intros n m g g' s _ H. exact H.
  - intros g H. split; [done|constructor].
  - intros k fault g Hf. apply fault_ok. rewrite !elem_of_cons, elem_of_nil in Hf.
    destruct Hf as [-> | [-> | [-> | []]]];
      [by apply gap_forwardable|by apply invalid_forwardable|apply error_forwardable].
  - intros g _. by apply recover_ok.
  - intros k g. by apply send_ok.
Qed.

(** ** Recovery debts *)

(** A recovery record accepted by the transport for [r]'s slot and peer. *)
Definition record_sent (request : DecisionRequest) (sent : list (SendItem * NvPSFTransportErr)) (r : RecoverySent) : Prop :=
  exists item, (item, NVPSF_TRANSPORT_OK) ∈ sent /\ si_slot item = rs_slot r /\ si_peer item = rs_peer r /\
    pk_request (si_packet item) = pssDecisionRequestSetCRC (NvPSDGatewayBuildPssCommRecoveredRequest request).

Definition pays_sent (request : DecisionRequest) (sent : list (SendItem * NvPSFTransportErr)) (op : GatewayOp) : Prop :=
  match op with OpPay paid => Forall (record_sent request sent) paid | _ => True end.

Definition pays_nothing (op : GatewayOp) : Prop := match op with OpPay _ => False | _ => True end.

Lemma pays_sent_mono request s1 s2 op : s1 ⊆ s2 -> pays_sent request s1 op -> pays_sent request s2 op.
Proof.
  intros Hs. destruct op; try done. cbn. intros HF. eapply Forall_impl; [exact HF|]. intros r (item & Hin & H). exists item. by split; [apply Hs|].
Qed.

Lemma pays_nothing_sent request s op : pays_nothing op -> pays_sent request s op.
Proof. by destruct op. Qed.

Section debts.
Context (maxF : Z) (transport : option (SendItem -> NvPSFTransportErr)) (between : nat -> list GatewayOp)
  (request : DecisionRequest) (bound : nat).
Hypothesis (Hpay : forall k, Forall pays_nothing (between k)) (Hlen : forall k, (length (between k) <= bound)%nat).

(** At most [n] own sections, paying only for records in [sent]. *)
Definition debt_run (n : nat) (gw gw' : Gateway) (sent : list (SendItem * NvPSFTransportErr)) : Prop :=
  table_ok gw -> table_ok gw' /\ steps maxF (pays_sent request sent) (n * S bound) gw gw'.

Lemma debt_run_quiet n gw gw' sent :
  (table_ok gw -> table_ok gw') -> steps maxF pays_nothing (n * S bound) gw gw' -> debt_run n gw gw' sent.
Proof. intros Ht H Hok. split; [auto|]. eapply steps_weaken; [|reflexivity|exact H]. apply pays_nothing_sent. Qed.

Lemma recovery_sent_records gw k :
  table_ok gw ->
  let sent := (sendToRelevantClients maxF transport between k (NvPSDGatewayBuildPssCommRecoveredRequest request) true true gw).2 in
  Forall (record_sent request sent) (recovery_sent sent).
Proof.
  intros Hok. cbv zeta. pose proof (send_items maxF transport between k
    (NvPSDGatewayBuildPssCommRecoveredRequest request) true true gw Hok) as Hit. rewrite Forall_forall in Hit.
  apply Forall_forall. intros r Hr. unfold recovery_sent in Hr. apply list_elem_of_omap in Hr as ([item err] & Hin & Hr).
  case_decide; [|done]. simplify_eq. exists item. split_and!; [done..|].
  specialize (Hit _ Hin). cbn in Hit. by apply elem_of_items in Hit as (i & ce & _ & _ & ->).
Qed.

Lemma send_table_ok k req full recovery gw :
  table_ok gw -> table_ok (sendToRelevantClients maxF transport between k req full recovery gw).1.
Proof using.
  intros Hok. unfold sendToRelevantClients.
  pose proof (section_table_ok maxF between k (OpFanout req full recovery) gw Hok).
  destruct (section_at _ _ _ _ _) as [g [|it its]]; [done|]. destruct transport; by apply section_table_ok.
Qed.

Lemma debt_run_recover gw :
  debt_run 4 gw (recover_clients maxF transport between 8 request gw).1 (recover_clients maxF transport between 8 request gw).2.
Proof.
  intros Hok. unfold recover_clients. set (gw0 := gateway_state maxF gw (between 8)).
  assert (table_ok gw0) as Hok0 by (by apply run_table_ok).
  assert (forall s, steps maxF (pays_sent request s) bound gw gw0) as S0.
  { intros s. apply steps_between; [|done]. intros k. eapply Forall_impl; [apply Hpay|]. apply pays_nothing_sent. }
  destruct (recoveryOwedByAnyLocked _); [|split; [done|]; eapply steps_weaken; [done| |apply S0]; cbn; lia].
  pose proof (recovery_sent_records gw0 (8 + 1) Hok0) as Hrec. cbv zeta in Hrec.
  pose proof (send_table_ok (8 + 1) (NvPSDGatewayBuildPssCommRecoveredRequest request) true true gw0 Hok0) as Hok1.
  pose proof (steps_send maxF transport between pays_nothing bound Hpay Hlen (8 + 1)
    (NvPSDGatewayBuildPssCommRecoveredRequest request) true true gw0 I I) as S1.
  destruct (sendToRelevantClients _ _ _ _ _ _ _ _) as [gw1 sent]. cbn [fst snd] in *.
  split; [by apply section_table_ok|].
  eapply (steps_weaken _ (pays_sent request sent) _ (bound + (2 * S bound + S bound))); [done|lia|].
  eapply steps_trans; [apply S0|]. eapply steps_trans.
  - eapply steps_weaken; [apply pays_nothing_sent|reflexivity|exact S1].
  - apply steps_section; [|done|done]. intros k. eapply Forall_impl; [apply Hpay|]. apply pays_nothing_sent.
Qed.

Lemma debt_run_callback gw response :
  let cb := onEventNotificationReceive maxF transport between gw (Some request) response in
  debt_run 10 gw (cb_gateway cb) (cb_sent cb).
Proof.
  apply callback_shape.
  - intros g. apply debt_run_quiet; [done|]. apply steps_refl.
  - intros n m g1 g2 g3 s1 s2 H1 H2 Hok. destruct (H1 Hok) as [Hok2 S1]. destruct (H2 Hok2) as [Hok3 S2]. split; [done|].
    rewrite Nat.mul_add_distr_r. eapply steps_trans.
    + eapply steps_weaken; [|reflexivity|exact S1]. intros op. apply pays_sent_mono. intros x Hx. apply elem_of_app. by left.
    + eapply steps_weaken; [|reflexivity|exact S2]. intros op. apply pays_sent_mono. intros x Hx. apply elem_of_app. by right.
  - intros n m g g' s Hnm H Hok. destruct (H Hok) as [? S]. split; [done|]. eapply steps_weaken; [done| |exact S]. nia.
  - intros g. apply debt_run_quiet; [by intros H; apply op_table_ok|].
    exists [OpObserve (dr_requestId request)]. split_and!; [done|by repeat constructor|cbn; lia].
  - intros k fault g _. apply debt_run_quiet; [|by apply steps_fault].
    intros Hok. unfold broadcast_fault. pose proof (send_table_ok k fault true false g Hok).
    destruct (sendToRelevantClients _ _ _ _ _ _ _ _). by apply section_table_ok.
  - intros g _. apply debt_run_recover.
  - intros k g. apply debt_run_quiet; [apply send_table_ok|by apply steps_send].
Qed.
End debts.

(** A recovery debt is paid only by a record: whatever the other threads do
    between the callback's critical sections, a registered client that owed a
    recovery record before the callback and, still under the same
    registration, owes none after it, was sent the recovery record in this
    callback and the transport accepted it. *)
Theorem recovery_debt_paid_by_record maxF transport between gw items request response bound i ce :
  gateway_reachable maxF gw items -> gateway_room (10 * S bound) gw ->
  (forall k, Forall pays_nothing (between k)) -> (forall k, (length (between k) <= bound)%nat) ->
  gw_clients gw !! i = Some ce -> ce_inUse ce = true -> ce_recoveryOwedGen ce <> 0 ->
  let cb := onEventNotificationReceive maxF transport between gw (Some request) response in
  forall ce', gw_clients (cb_gateway cb) !! i = Some ce' -> ce_inUse ce' = true ->
  ce_gatewayTxEpoch ce' = ce_gatewayTxEpoch ce -> ce_recoveryOwedGen ce' = 0 ->
  exists item, (item, NVPSF_TRANSPORT_OK) ∈ cb_sent cb /\ si_slot item = i /\ si_peer item = ce_peer ce /\
    pk_request (si_packet item) = pssDecisionRequestSetCRC (NvPSDGatewayBuildPssCommRecoveredRequest request).
Proof.
  intros Hr Hroom Hpay Hlen Hi Hu Ho cb ce' Hi' Hu' He H0.
  pose proof (gateway_reachable_wf _ _ _ Hr) as [Htx Hseed [_ Hd]].
  pose proof (debt_run_callback maxF transport between request bound Hpay Hlen gw response) as Hrun. cbv zeta in Hrun.
  destruct (Hrun (ti_ok _ _ Htx)) as [_ (ops & Eg & Fo & Lo)]. fold cb in Eg, Fo.
  set (paid_to := fun op => match op with
    | OpPay paid => existsb (fun r => (rs_slot r =? i)%nat && (rs_peer r =? ce_peer ce)) paid | _ => false end).
  destruct (decide (Exists (fun op => paid_to op = true) ops)) as [Hex|Hno].
  - apply Exists_exists in Hex as (op & Hop & Hp). rewrite Forall_forall in Fo. specialize (Fo op Hop).
    destruct op; try done.
    apply existsb_elem_of in Hp as (r & Hin & Hp). bool_prop. apply Nat.eqb_eq in H as <-. cbn in Fo.
    rewrite Forall_forall in Fo. destruct (Fo r Hin) as (item & ? & ? & Hp' & ?). exists item. by split_and!; try congruence.
  - exfalso. rewrite <- Forall_Exists_neg, Forall_forall in Hno. specialize (Hd i ce Hi Hu).
    assert (owes i (ce_gatewayTxEpoch ce) (ce_peer ce) (ce_recoveryOwedGen ce) (cb_gateway cb)) as [_ Howe].
    { rewrite Eg. eapply owes_run; [exact Hr| | |].
      - destruct Hroom. split; lia.
      - apply Forall_forall. intros op Hop sent r -> Hr' Hs Hp'. exfalso. apply (Hno _ Hop). apply existsb_elem_of.
        exists r. by rewrite Hs, Hp', Nat.eqb_refl, Z.eqb_refl.
      - split; [by eapply ti_below|]. intros c Hc _ _. assert (c = ce) as -> by congruence. split; [done|lia]. }
    destruct (Howe ce' Hi' Hu' He) as [_ ?]. lia.
Qed.

(** ** The callback without interference *)

Section quiet.
Context (maxF : Z) (send : SendItem -> NvPSFTransportErr).

Definition quiet : nat -> list GatewayOp := fun _ => [].

Lemma send_quiet k req full recovery gw :
  table_ok gw ->
  let r := sendToRelevantClients maxF (Some send) quiet k req full recovery gw in
  r.2 = map (fun it => (it, send it)) (items_from maxF req full recovery 0 (gw_clients gw)) /\
  gw_clients r.1 = map (advance maxF req full recovery) (gw_clients gw) /\
  gw_pssFaultGeneration r.1 = gw_pssFaultGeneration gw.
Proof.
  intros Hok. cbv zeta. unfold sendToRelevantClients, section_at, quiet. change (gateway_state maxF gw []) with gw.
  rewrite fanout_op by done. by destruct (items_from _ _ _ _ _ _).
Qed.

(** A registered client, with the debt it has. *)
Definition client_owes (gw : Gateway) (i : nat) (inUse : bool) (missed owed : Z) : Prop :=
  exists ce, gw_clients gw !! i = Some ce /\ ce_inUse ce = inUse /\ ce_missedCount ce = missed /\ ce_recoveryOwedGen ce = owed.

Lemma client_owes_send k req full recovery gw i u m o :
  table_ok gw -> client_owes gw i u m o ->
  client_owes (sendToRelevantClients maxF (Some send) quiet k req full recovery gw).1 i u m o.
Proof.
  intros Hok (ce & Hi & Hu & Hm & Ho). destruct (send_quiet k req full recovery gw Hok) as (_ & Hc & _). unfold client_owes. rewrite Hc.
  exists (advance maxF req full recovery ce). destruct (advance_keeps maxF req full recovery ce) as (_ & -> & _ & -> & -> & _).
  split_and!; [|done..]. change (map ?f ?l) with (f <$> l). by rewrite list_lookup_fmap, Hi.
Qed.

(** Every client a full fan-out addresses is sent it. *)
Lemma send_reaches k req gw i ce :
  table_ok gw -> gw_clients gw !! i = Some ce -> ce_inUse ce = true -> degraded maxF ce = false -> 0 < summary_count req ->
  exists item err, (item, err) ∈ (sendToRelevantClients maxF (Some send) quiet k req true false gw).2 /\
    si_slot item = i /\ si_peer item = ce_peer ce /\
    dr_sensorDataSummary (pk_request (si_packet item)) = dr_sensorDataSummary req.
Proof.
  intros Hok Hi Hu Hd Hs. destruct (send_quiet k req true false gw Hok) as (-> & _ & _).
  exists (client_item req true i ce), (send (client_item req true i ce)). split_and!; [|done..].
  apply list_elem_of_fmap. eexists. split; [done|]. apply elem_of_items. exists i, ce. split_and!; [done| |done].
  unfold receives, client_payload, NvPSDGatewayShouldSendDecisionRequest. rewrite Hu, Hd. cbn [fst snd negb andb orb].
  destruct (Z.ltb_spec 0 (summary_count req)); [done|lia].
Qed.

(** A fault leaves every client owing. *)
Lemma fault_quiet k fault gw i u m o :
  table_ok gw -> 0 <= gw_pssFaultGeneration gw < UINT64_MAX -> client_owes gw i u m o ->
  let r := broadcast_fault maxF (Some send) quiet k fault gw in
  r.2 = (sendToRelevantClients maxF (Some send) quiet k fault true false gw).2 /\
  table_ok r.1 /\ gw_pssFaultGeneration r.1 = gw_pssFaultGeneration gw + 1 /\
  client_owes r.1 i u m (if u then gw_pssFaultGeneration gw + 1 else o).
Proof.
  intros Hok Hg Hc. cbv zeta. unfold broadcast_fault. pose proof (client_owes_send k fault true false gw i u m o Hok Hc) as (ce & Hi & Hu & Hm & Ho).
  pose proof (send_table_ok maxF (Some send) quiet k fault true false gw Hok) as Hok1.
  destruct (send_quiet k fault true false gw Hok) as (_ & _ & Hgen).
  destruct (sendToRelevantClients _ _ _ _ _ _ _ _) as [gw1 sent]. cbn [fst snd] in *.
  assert (u64 (gw_pssFaultGeneration gw1 + 1) = gw_pssFaultGeneration gw + 1) as E.
  { rewrite Hgen. apply u64_small. unfold is_u64, UINT64_MAX in *. lia. }
  split_and!; [done|by apply section_table_ok|exact E|].
  unfold section_at. change (gateway_state maxF gw1 (quiet (k + 2))) with gw1.
  exists (if u then set_ce_owed (u64 (gw_pssFaultGeneration gw1 + 1)) ce else ce).
  cbn [gateway_op fst gw_clients notePssSyntheticFaultBroadcast set_generation set_clients].
  change (map ?f ?l) with (f <$> l). rewrite list_lookup_fmap, Hi. cbn [fmap option_fmap option_map]. rewrite Hu.
  by destruct u; cbn; split_and!.
Qed.

Lemma pay_debt_other l r i ce : rs_slot r <> i -> l !! i = Some ce -> pay_debt l r !! i = Some ce.
Proof. intros Hn Hi. unfold pay_debt. repeat case_match; rewrite ?list_lookup_insert_ne by done; done. Qed.

(** A record for the debt a client has pays it; paid debts stay paid. *)
Lemma pay_debts_clear sent l i ce :
  l !! i = Some ce -> ce_inUse ce = true ->
  ce_recoveryOwedGen ce = 0 \/
  (exists r, r ∈ sent /\ rs_slot r = i /\ rs_peer r = ce_peer ce /\ rs_recoveryOwedGen r = ce_recoveryOwedGen ce) ->
  fold_left pay_debt sent l !! i = Some (set_ce_owed 0 ce).
Proof.
  revert l ce. induction sent as [|r sent IH]; intros l ce Hi Hu H; cbn [fold_left].
  - destruct H as [H|(r & Hr & _)]; [|by apply elem_of_nil in Hr]. rewrite Hi. f_equal. destruct ce. cbn in *. by subst.
  - destruct (decide (rs_slot r = i /\ rs_peer r = ce_peer ce)) as [[Hs Hp]|Hn].
    + set (g := NvPSDGatewayRecoveryDebtAfterSend (ce_recoveryOwedGen ce) (rs_recoveryOwedGen r) true).
      assert (pay_debt l r !! i = Some (set_ce_owed g ce)) as Hi'.
      { unfold pay_debt. rewrite Hs, Hi, Hu, Hp, Z.eqb_refl. cbn [negb orb]. apply list_lookup_insert_eq. by eapply lookup_lt_Some. }
      rewrite (IH _ _ Hi' Hu); [done|]. cbn [set_ce_owed ce_recoveryOwedGen ce_peer]. unfold g, NvPSDGatewayRecoveryDebtAfterSend. cbn [andb].
      destruct (Z.eqb_spec (ce_recoveryOwedGen ce) (rs_recoveryOwedGen r)) as [E|E]; [by left|].
      destruct H as [H|(r' & Hr' & H1 & H2 & H3)]; [by left|]. apply elem_of_cons in Hr' as [->|Hr']; [congruence|]. right. by exists r'.
    + assert (pay_debt l r !! i = Some ce) as Hi'.
      { destruct (decide (rs_slot r = i)) as [Hs|Hs]; [|by apply pay_debt_other].
        unfold pay_debt. rewrite Hs, Hi. destruct (Z.eqb_spec (ce_peer ce) (rs_peer r)) as [E|E]; [by destruct Hn|].
        by rewrite orb_true_r. }
      apply (IH _ _ Hi' Hu). destruct H as [H|(r' & Hr' & H1 & H2 & H3)]; [by left|]. right. exists r'. split_and!; try done.
      apply elem_of_cons in Hr' as [->|Hr']; [|done]. by destruct Hn.
Qed.

Lemma recover_quiet request gw i m o :
  table_ok gw -> client_owes gw i true m o -> (forall it, send it = NVPSF_TRANSPORT_OK) ->
  (0 <? m) && (maxF / 2 <? m) && (m <? maxF) = false ->
  client_owes (recover_clients maxF (Some send) quiet 8 request gw).1 i true m 0.
Proof.
  intros Hok (ce & Hi & Hu & Hm & Ho) Hsend Hdeg. unfold recover_clients. change (gateway_state maxF gw (quiet 8)) with gw.
  destruct (recoveryOwedByAnyLocked (gw_clients gw)) eqn:Eo.
  - destruct (send_quiet (8 + 1) (NvPSDGatewayBuildPssCommRecoveredRequest request) true true gw Hok) as (Hs & Hc & _).
    destruct (sendToRelevantClients _ _ _ _ _ _ _ _) as [gw1 sent]. cbn [fst snd] in *.
    set (ce1 := advance maxF (NvPSDGatewayBuildPssCommRecoveredRequest request) true true ce).
    assert (gw_clients gw1 !! i = Some ce1) as Hi1.
    { rewrite Hc. change (map ?f ?l) with (f <$> l). by rewrite list_lookup_fmap, Hi. }
    destruct (advance_keeps maxF (NvPSDGatewayBuildPssCommRecoveredRequest request) true true ce) as (Kp & Ku & _ & Ko & Km & _).
    fold ce1 in Kp, Ku, Ko, Km. exists (set_ce_owed 0 ce1). cbn [set_ce_owed ce_inUse ce_missedCount ce_recoveryOwedGen].
    split_and!; [|congruence|congruence|done]. unfold section_at. change (gateway_state maxF gw1 _) with gw1. cbn.
    apply pay_debts_clear; [done|congruence|]. destruct (decide (ce_recoveryOwedGen ce = 0)) as [Hz|Hz]; [left; congruence|right].
    eexists {| rs_slot := i; rs_peer := ce_peer ce; rs_recoveryOwedGen := ce_recoveryOwedGen ce |}.
    split_and!; [|done|done|done]. apply list_elem_of_omap.
    exists (client_item (NvPSDGatewayBuildPssCommRecoveredRequest request) true i ce, NVPSF_TRANSPORT_OK).
    split; [|by rewrite decide_True]. rewrite Hs. apply list_elem_of_fmap. eexists. split; [by rewrite Hsend|].
    apply elem_of_items. exists i, ce. split_and!; [done| |done].
    unfold receives, degraded, NvPSDGatewayRecoveryRecordOwed. rewrite Hu, Hm, Hdeg.
    destruct (Z.eqb_spec (ce_recoveryOwedGen ce) 0); [done|]. done.
  - exists ce. split_and!; [done|done|done|]. destruct (decide (ce_recoveryOwedGen ce = 0)) as [|Hz]; [done|exfalso].
    apply not_true_iff_false in Eo. apply Eo, existsb_elem_of. exists ce. split; [by eapply list_elem_of_lookup_2|].
    rewrite Hu. by destruct (Z.eqb_spec (ce_recoveryOwedGen ce) 0).
Qed.
End quiet.

(** A synthetic fault about the PSS link. *)
Definition is_link_fault (d : SensorData) : Prop :=
  ev_type (sd_event d) = SW_FAIL /\ ev_severity (sd_event d) = CRITICAL /\
  ev_cause (sd_event d) ∈ [CAUSE_PSS_REQUEST_SEQUENCE_GAP; CAUSE_PSS_REQUEST_ID_INVALID; CAUSE_PSS_ERROR].

(** The client of slot [i], outside the degraded tier, was sent a link fault;
    it owes a recovery record in any case. *)
Definition fault_delivered (maxF : Z) (i : nat) (ce : ClientEntry) (gw : Gateway)
    (sent : list (SendItem * NvPSFTransportErr)) : Prop :=
  (degraded maxF ce = false -> exists item err, (item, err) ∈ sent /\ si_slot item = i /\
     si_peer item = ce_peer ce /\ is_link_fault (first_entry (pk_request (si_packet item)))) /\
  exists owed, owed <> 0 /\ client_owes gw i true (ce_missedCount ce) owed.

Ltac link_fault := unfold is_link_fault; cbn; set_solver.

(** A fault broadcast, possibly followed by the filtered request. *)
Lemma fault_then_request maxF send k k' fault request (forward : bool) gw i ce :
  table_ok gw -> 0 <= gw_pssFaultGeneration gw < UINT64_MAX ->
  gw_clients gw !! i = Some ce -> ce_inUse ce = true -> is_link_fault (first_entry fault) -> 0 < summary_count fault ->
  let r := broadcast_fault maxF (Some send) quiet k fault gw in
  let r' := if forward then sendToRelevantClients maxF (Some send) quiet k' request false false r.1 else (r.1, []) in
  fault_delivered maxF i ce r'.1 (r.2 ++ r'.2).
Proof.
  intros Hok Hg Hi Hu Hf Hs. cbv zeta.
  assert (client_owes gw i true (ce_missedCount ce) (ce_recoveryOwedGen ce)) as Hown by (by exists ce).
  destruct (fault_quiet maxF send k fault gw i _ _ _ Hok Hg Hown) as (Hsent & Hok1 & _ & Ho).
  destruct (broadcast_fault _ _ _ _ _ _) as [gw1 sent]. cbn [fst snd] in *.
  pose proof (client_owes_send maxF send k' request false false gw1 i _ _ _ Hok1 Ho) as Ho'. split.
  - intros Hd. destruct (send_reaches maxF send k fault gw i ce Hok Hi Hu Hd Hs) as (item & err & Hin & H1 & H2 & H3).
    exists item, err. unfold first_entry. rewrite H3. split_and!; [|done..]. rewrite <- Hsent in Hin. set_solver.
  - eexists. split; [|destruct forward; [exact Ho'|exact Ho]]. lia.
Qed.


(** ** Witnesses *)

(** The demonstration gateway after a fault: both clients owe a record. *)
Definition indebted_gateway : Gateway := gateway_state 4 demo_gateway [OpNote].

Lemma indebted_reachable : gateway_reachable 4 indebted_gateway [].
Proof. apply (reachable_run 4 demo_gateway [] [OpNote] demo_reachable). by vm_compute. Qed.

Definition indebted_client : ClientEntry := set_ce_owed 1 demo_client.

Lemma callback_packets_accepted_witness :
  all_accepted (cb_sent (onEventNotificationReceive 4 (Some (fun _ => NVPSF_TRANSPORT_OK)) quiet indebted_gateway
    (Some (pssDecisionRequestSetCRC (sample_request 9))) (Some (respond (sample_request 9) 0 0)))).
Proof.
  apply (callback_packets_accepted 4 (Some (fun _ => NVPSF_TRANSPORT_OK)) quiet indebted_gateway []).
  - exact indebted_reachable.
  - destruct (wf_sample_request 9 ltac:(unfold is_u32; lia)) as [Hid Hsz Hl He Hm]. constructor; done.
  - vm_compute. reflexivity.
Defined.

Lemma recovery_debt_paid_by_record_witness :
  exists item, (item, NVPSF_TRANSPORT_OK) ∈ cb_sent (onEventNotificationReceive 4 (Some (fun _ => NVPSF_TRANSPORT_OK)) quiet
    indebted_gateway (Some (sample_request 9)) (Some (respond (sample_request 9) 0 0))) /\
    si_slot item = 0%nat /\ si_peer item = 5 /\
    pk_request (si_packet item) = pssDecisionRequestSetCRC (NvPSDGatewayBuildPssCommRecoveredRequest (sample_request 9)).
Proof.
  eapply (recovery_debt_paid_by_record 4 (Some (fun _ => NVPSF_TRANSPORT_OK)) quiet indebted_gateway [] (sample_request 9) _ 0 0
    indebted_client indebted_reachable).
  - by vm_compute.
  - intros k. constructor.
  - intros k. constructor.
  - vm_compute. reflexivity.
  - reflexivity.
  - vm_compute. discriminate.
  - vm_compute. reflexivity.
  - reflexivity.
  - reflexivity.
  - reflexivity.
Defined.

(** A request out of sequence: 9 after 4. *)
Definition gap_gateway : Gateway := gateway_state 4 demo_gateway [OpObserve 4].

Lemma gap_reachable : gateway_reachable 4 gap_gateway [].
Proof. apply (reachable_run 4 demo_gateway [] [OpObserve 4] demo_reachable). by vm_compute. Qed.


(** A reconnect forgets the debt: when the only client that owes a record
    disconnects and registers again, it owes none, although it still holds the
    fault. *)
Lemma reconnect_drops_debt :
  exists gw0, launchPSDControl 1 7 4 1000 = Some gw0 /\
  client_owes (gateway_state 4 gw0 [OpRegister 5 {[3]}; OpNote]) 0 true 0 1 /\
  client_owes (gateway_state 4 gw0 [OpRegister 5 {[3]}; OpNote; OpGone 5 true; OpRegister 6 {[3]}]) 0 true 0 0.
Proof. eexists. split; [reflexivity|]. split; (eexists; split_and!; [vm_compute; reflexivity|reflexivity..]). Qed.
