(* ===== verification/Float32.v ===== *)
(** * Single and double precision arithmetic

    IEEE 754 values are the [spec_float]s of the Standard Library, computed with
    round to nearest even; a stored [float] is its bit pattern (as in
    [Protocol.v]).  [std::min] and [std::max] are written out as the library
    defines them, because they decide what happens to a NaN. *)

From S2P Require Import Prelude Protocol.

Definition f32_add : spec_float -> spec_float -> spec_float := SFadd 24 128.
Definition f32_sub : spec_float -> spec_float -> spec_float := SFsub 24 128.
Definition f32_mul : spec_float -> spec_float -> spec_float := SFmul 24 128.
Definition f32_div : spec_float -> spec_float -> spec_float := SFdiv 24 128.
Definition f32_sqrt : spec_float -> spec_float := SFsqrt 24 128.

Definition f64_mul : spec_float -> spec_float -> spec_float := SFmul 53 1024.
Definition f64_div : spec_float -> spec_float -> spec_float := SFdiv 53 1024.

(** Conversions: [static_cast<double>] of an integer, [static_cast<float>] of a
    double. *)
Definition f64_of_Z (z : Z) : spec_float := binary_normalize 53 1024 z 0 false.

Definition f32_of_f64 (x : spec_float) : spec_float :=
  match x with
  | S754_finite s m e => binary_normalize 24 128 (if s then Zneg m else Zpos m) e s
  | _ => x
  end.

(** The bit pattern of a binary32 value. *)
Definition f32_bits (x : spec_float) : Z :=
  match x with
  | S754_zero s => if s then 0x80000000 else 0
  | S754_infinity s => if s then 0xFF800000 else 0x7F800000
  | S754_nan => 0x7FC00000
  | S754_finite s m e =>
    let sign := if s then 0x80000000 else 0 in
    if Zpos m <? 0x800000 then sign + Zpos m else sign + (e + 150) * 0x800000 + (Zpos m - 0x800000)
  end.

Definition f32_pos_zero : spec_float := S754_zero false.
Definition f32_value_one : spec_float := f32_value f32_one.
Definition f32_infinity : spec_float := S754_infinity false.

Section minmax.
Context {A : Type} (ltb : A -> A -> bool).

Definition std_max (a b : A) : A := if ltb a b then b else a.
Definition std_min (a b : A) : A := if ltb b a then b else a.
Definition std_min3 (a b c : A) : A := std_min (std_min a b) c.
End minmax.

(** ** The order of non-NaN values *)

(** Lexicographic key: sign class, exponent, mantissa. *)
Definition sf_key (x : spec_float) : Z * Z * Z :=
  match x with
  | S754_infinity true => (-2, 0, 0)
  | S754_finite true m e => (-1, - e, Zneg m)
  | S754_zero _ => (0, 0, 0)
  | S754_finite false m e => (1, e, Zpos m)
  | S754_infinity false => (2, 0, 0)
  | S754_nan => (3, 0, 0)
  end.

Definition key_lt (a b : Z * Z * Z) : Prop :=
  a.1.1 < b.1.1 \/ (a.1.1 = b.1.1 /\ (a.1.2 < b.1.2 \/ (a.1.2 = b.1.2 /\ a.2 < b.2))).

Definition not_nan (x : spec_float) : Prop := x <> S754_nan.

Lemma SFltb_key x y : not_nan x -> not_nan y -> SFltb x y = true <-> key_lt (sf_key x) (sf_key y).
Proof.
  intros Hx Hy. unfold SFltb, key_lt.
  destruct x as [sx|sx| |sx mx ex], y as [sy|sy| |sy my ey]; try done;
    try (destruct sx); try (destruct sy); cbn; try (split; [done|]; lia); try (split; [lia|done]); try (split; intros; lia || done).
  - destruct (Z.compare_spec ex ey); [subst|split; [done|lia]|split; [lia|done]].
    change (Pos.compare_cont Eq mx my) with (Pos.compare mx my). destruct (Pos.compare_spec mx my); cbn; split; intros; try done; try lia.
  - destruct (Z.compare_spec ex ey); [subst|split; [lia|done]|split; [done|lia]].
    change (Pos.compare_cont Eq mx my) with (Pos.compare mx my). destruct (Pos.compare_spec mx my); cbn; split; intros; try done; try lia.
Qed.

Definition sle (x y : spec_float) : Prop := SFltb y x = false.

Lemma sle_key x y : not_nan x -> not_nan y -> sle x y <-> ~ key_lt (sf_key y) (sf_key x).
Proof. intros Hx Hy. unfold sle. rewrite <- SFltb_key by done. by destruct (SFltb y x). Qed.

Lemma sle_trans x y z : not_nan x -> not_nan y -> not_nan z -> sle x y -> sle y z -> sle x z.
Proof. intros Hx Hy Hz. rewrite !sle_key by done. unfold key_lt. lia. Qed.

Lemma sle_refl x : not_nan x -> sle x x.
Proof. intros Hx. rewrite sle_key by done. unfold key_lt. lia. Qed.

Lemma slt_sle x y : not_nan x -> not_nan y -> SFltb x y = true -> sle x y.
Proof. intros Hx Hy. rewrite SFltb_key, sle_key by done. unfold key_lt. lia. Qed.

(** [std::max] and [std::min] of numbers are one of their arguments, and bound
    both. *)
Lemma max_spec x y :
  not_nan x -> not_nan y ->
  let v := std_max SFltb x y in (v = x \/ v = y) /\ sle x v /\ sle y v.
Proof.
  intros Hx Hy. unfold std_max. destruct (SFltb x y) eqn:E; cbn.
  - split_and!; auto using slt_sle, sle_refl.
  - split_and!; auto using sle_refl.
Qed.

Lemma min_spec x y :
  not_nan x -> not_nan y ->
  let v := std_min SFltb x y in (v = x \/ v = y) /\ sle v x /\ sle v y.
Proof.
  intros Hx Hy. unfold std_min. destruct (SFltb y x) eqn:E; cbn.
  - split_and!; auto using slt_sle, sle_refl.
  - split_and!; auto using sle_refl.
Qed.

Lemma min3_spec x y z :
  not_nan x -> not_nan y -> not_nan z ->
  let v := std_min3 SFltb x y z in (v = x \/ v = y \/ v = z) /\ sle v x /\ sle v y /\ sle v z.
Proof.
  intros Hx Hy Hz v. unfold v, std_min3.
  destruct (min_spec x y) as (Hw & Hwx & Hwy); [done..|]. cbn in *.
  set (w := std_min SFltb x y) in *.
  assert (not_nan w) by (destruct Hw as [-> | ->]; done).
  destruct (min_spec w z) as (Hu & Huw & Huz); [done..|]. cbn in *.
  set (u := std_min SFltb w z) in *.
  assert (not_nan u) by (destruct Hu as [-> | ->]; done).
  split; [|split_and!; eauto using sle_trans].
  destruct Hu as [-> | ->]; [destruct Hw as [-> | ->]|]; auto.
Qed.

(** ** Operations that cannot produce a NaN *)

Definition sf_nonneg (x : spec_float) : Prop :=
  match x with
  | S754_zero _ | S754_infinity false | S754_finite false _ _ => True
  | _ => False
  end.

Definition sf_finite (x : spec_float) : Prop :=
  match x with S754_zero _ | S754_finite _ _ _ => True | _ => False end.

Section rounding.
Variables prec emax : Z.

Lemma shr_1_nonneg mrs : 0 <= shr_m mrs -> 0 <= shr_m (shr_1 mrs).
Proof. destruct mrs as [[|[p|p|]|p] r s]; cbn; lia. Qed.

Lemma iter_shr_nonneg p mrs : 0 <= shr_m mrs -> 0 <= shr_m (iter_pos shr_1 p mrs).
Proof. revert mrs. induction p; intros mrs Hm; cbn; eauto using shr_1_nonneg. Qed.

Lemma shr_fexp_nonneg m e l : 0 <= m -> 0 <= shr_m (shr_fexp prec emax m e l).1.
Proof.
  intros Hm. unfold shr_fexp, shr.
  assert (0 <= shr_m (shr_record_of_loc m l)) by (destruct l as [|[]]; done).
  case_match; cbn; auto using iter_shr_nonneg.
Qed.

Lemma round_nonneg m l : 0 <= m -> 0 <= round_nearest_even m l.
Proof. intros. unfold round_nearest_even. repeat case_match; lia. Qed.

(** Rounding a magnitude keeps its sign and never gives a NaN. *)
Lemma round_aux_class s m e l :
  0 <= m ->
  let v := binary_round_aux prec emax s m e l in not_nan v /\ (s = false -> sf_nonneg v).
Proof.
  intros Hm. unfold binary_round_aux.
  pose proof (shr_fexp_nonneg m e l Hm) as H1.
  destruct (shr_fexp prec emax m e l) as [mrs' e'] eqn:E1. cbn in H1.
  pose proof (shr_fexp_nonneg (round_nearest_even (shr_m mrs') (loc_of_shr_record mrs')) e' loc_Exact
                (round_nonneg _ _ H1)) as H2.
  destruct (shr_fexp _ _ _ e' loc_Exact) as [mrs'' e''] eqn:E2. cbn in H2.
  destruct (shr_m mrs''); [by split|case_match; (split; [done|by intros ->])|lia].
Qed.

Lemma round_class s m e :
  let v := binary_round prec emax s m e in not_nan v /\ (s = false -> sf_nonneg v).
Proof. unfold binary_round. destruct (shl_align _ _ _). by apply round_aux_class. Qed.

Lemma normalize_class m e s :
  let v := binary_normalize prec emax m e s in not_nan v /\ (0 <= m -> sf_nonneg v).
Proof.
  destruct m as [|p|p]; cbn; [done| |].
  - destruct (round_class false p e); auto.
  - destruct (round_class true p e). split; [done|lia].
Qed.
End rounding.

Lemma sub_not_nan x y : sf_finite x -> sf_finite y -> not_nan (f32_sub x y).
Proof.
  unfold f32_sub. destruct x as [[]|[]| |], y as [[]|[]| |]; try done. intros _ _. apply normalize_class.
Qed.

Lemma square_nonneg x : not_nan x -> sf_nonneg (f32_mul x x).
Proof.
  unfold f32_mul. destruct x as [[]|[]| |s m e]; try done. intros _. cbn -[binary_round_aux].
  apply round_aux_class; [lia|by destruct s].
Qed.

Lemma add_nonneg x y : sf_nonneg x -> sf_nonneg y -> sf_nonneg (f32_add x y).
Proof.
  unfold f32_add. destruct x as [[]|[]| |[] mx ex], y as [[]|[]| |[] my ey]; try done. intros _ _.
  apply normalize_class. cbn. lia.
Qed.

Lemma sqrt_not_nan x : sf_nonneg x -> not_nan (f32_sqrt x).
Proof.
  unfold f32_sqrt. destruct x as [[]|[]| |[] m e]; try done. intros _. cbn -[binary_round_aux SFsqrt_core_binary].
  destruct (SFsqrt_core_binary 24 128 (Zpos m) e) as [[q e'] l] eqn:E.
  apply round_aux_class. unfold SFsqrt_core_binary in E.
  match type of E with context [Z.sqrtrem ?n] => pose proof (Z.sqrtrem_sqrt n); pose proof (Z.sqrt_nonneg n) end.
  destruct (Z.sqrtrem _); cbn in *. by simplify_eq.
Qed.
