(* ===== verification/SpatialCorrelation.v ===== *)
(** * Spatial correlation of trajectories

    [NvPSSSpatialCorrelation.cpp]: the discrete Fréchet distance of two
    trajectories by a two-row dynamic program, and the similarity weight the
    fusion engine derives from it.  Floating-point operations are evaluated one
    by one in binary32, with no fused multiply-add.

    The reference is the textbook definition: a coupling walks both trajectories
    from their first to their last points, advancing one or both at each step;
    its cost is the largest distance it meets, and the Fréchet distance is the
    least cost of a coupling. *)

From S2P Require Import Prelude Protocol Float32.

Record Point := mkPoint { point_x : spec_float; point_y : spec_float }.

Definition distance (p q : Point) : spec_float :=
  let dx := f32_sub (point_x p) (point_x q) in
  let dy := f32_sub (point_y p) (point_y q) in
  f32_sqrt (f32_add (f32_mul dx dx) (f32_mul dy dy)).

(** [1e-9] rounded to single precision. *)
Definition SC_EPSILON : spec_float := f32_value 0x3089705F.

Definition fmax : spec_float -> spec_float -> spec_float := std_max SFltb.
Definition fmin : spec_float -> spec_float -> spec_float := std_min SFltb.

(** ** The bounding box of both trajectories *)

Record BoundingBox := mkBox { min_x : spec_float; max_x : spec_float; min_y : spec_float; max_y : spec_float }.

Definition widen_box (b : BoundingBox) (p : Point) : BoundingBox :=
  mkBox (fmin (min_x b) (point_x p)) (fmax (max_x b) (point_x p))
        (fmin (min_y b) (point_y p)) (fmax (max_y b) (point_y p)).

Definition calculateMaxDistance (traj1 traj2 : list Point) : spec_float :=
  match traj1, traj2 with
  | p :: _, q :: _ =>
    let box0 := mkBox (fmin (point_x p) (point_x q)) (fmax (point_x p) (point_x q))
                      (fmin (point_y p) (point_y q)) (fmax (point_y p) (point_y q)) in
    let box := foldl widen_box (foldl widen_box box0 traj1) traj2 in
    let width := f32_sub (max_x box) (min_x box) in
    let height := f32_sub (max_y box) (min_y box) in
    f32_sqrt (f32_add (f32_mul width width) (f32_mul height height))
  | _, _ => f32_value_one
  end.

(** ** The dynamic program *)

(** The rest of the first row, left to right. *)
Fixpoint first_row_from (p : Point) (left : spec_float) (qs : list Point) : list spec_float :=
  match qs with
  | [] => []
  | q :: qs' => let v := fmax (distance p q) left in v :: first_row_from p v qs'
  end.

Definition first_row (p : Point) (traj2 : list Point) : list spec_float :=
  match traj2 with
  | [] => []
  | q :: qs => let d := distance p q in d :: first_row_from p d qs
  end.

(** The rest of a later row: [above] is the previous row from this column on,
    [diag] its value one column to the left. *)
Fixpoint next_row_from (p : Point) (left diag : spec_float) (qs : list Point) (above : list spec_float)
  : list spec_float :=
  match qs, above with
  | q :: qs', up :: ups =>
    let v := fmax (distance p q) (std_min3 SFltb up left diag) in v :: next_row_from p v up qs' ups
  | _, _ => []
  end.

Definition next_row (traj2 : list Point) (prev : list spec_float) (p : Point) : list spec_float :=
  match traj2, prev with
  | q :: qs, d :: ds => let c := fmax (distance p q) d in c :: next_row_from p c d qs ds
  | _, _ => []
  end.

Definition computeDiscreteFrechetDistance (traj1 traj2 : list Point) : spec_float :=
  match traj1, traj2 with
  | p :: ps, _ :: _ => List.last (foldl (next_row traj2) (first_row p traj2) ps) f32_infinity
  | _, _ => f32_infinity
  end.

(** ** The similarity weight *)

Definition f32_isinf (x : spec_float) : bool := match x with S754_infinity _ => true | _ => false end.

(** No pair at the same index lies further apart than [SC_EPSILON]. *)
Definition identical_points (traj1 traj2 : list Point) : bool :=
  forallb (fun '(p, q) => negb (SFltb SC_EPSILON (distance p q))) (zip traj1 traj2).

(** The assertion that neither trajectory is empty is the precondition. *)
Definition calculateSpatialCorrelation (traj1 traj2 : list Point) : spec_float :=
  if bool_decide (length traj1 = length traj2) && identical_points traj1 traj2 then f32_value_one else
  let frechet := computeDiscreteFrechetDistance traj1 traj2 in
  if f32_isinf frechet then f32_pos_zero else
  let max_distance := calculateMaxDistance traj1 traj2 in
  if SFltb max_distance SC_EPSILON then f32_value_one else
  let similarity := f32_sub f32_value_one (fmin f32_value_one (f32_div frechet max_distance)) in
  fmax f32_pos_zero similarity.

Definition createTrajectory (x_coords y_coords : list spec_float) (size : nat) : list Point :=
  map (fun '(x, y) => mkPoint x y) (take size (zip x_coords y_coords)).

(** ** The reference: couplings *)

(** [coupling i j w]: [w] walks from the two first points to points [i] and
    [j] (most recent pair first). *)
Inductive coupling : nat -> nat -> list (nat * nat) -> Prop :=
| coupling_start : coupling 0 0 [(0, 0)%nat]
| coupling_first i j w : coupling i j w -> coupling (S i) j ((S i, j) :: w)
| coupling_second i j w : coupling i j w -> coupling i (S j) ((i, S j) :: w)
| coupling_both i j w : coupling i j w -> coupling (S i) (S j) ((S i, S j) :: w).

Section reference.
Variable d : nat -> nat -> spec_float.

(** [v] is the least over all couplings of the largest distance on the coupling:
    some coupling meets no distance above [v] and does meet [v], and every
    coupling meets a distance of at least [v]. *)
Definition frechet_value (i j : nat) (v : spec_float) : Prop :=
  (exists w, coupling i j w /\ Forall (fun ab => sle (d ab.1 ab.2) v) w /\ Exists (fun ab => d ab.1 ab.2 = v) w)
  /\ (forall w, coupling i j w -> Exists (fun ab => sle v (d ab.1 ab.2)) w).

(** The table of the dynamic program, as a recursive function. *)
Fixpoint frechet (i : nat) : nat -> spec_float :=
  match i with
  | O => fix row j := match j with O => d 0 0 | S j' => fmax (d 0 j) (row j') end
  | S i' =>
    fix row j :=
      match j with
      | O => fmax (d i 0) (frechet i' 0)
      | S j' => fmax (d i j) (std_min3 SFltb (frechet i' j) (row j') (frechet i' j'))
      end
  end.

Hypothesis d_number : forall a b, not_nan (d a b).

Lemma frechet_value_number i j v : frechet_value i j v -> not_nan v.
Proof. intros ((w & _ & _ & Hv) & _). apply Exists_exists in Hv as (ab & _ & <-). apply d_number. Qed.

(** One step: [u] is the value of the best predecessor. *)
Lemma frechet_extend i j i0 j0 u :
  frechet_value i0 j0 u ->
  (forall w, coupling i0 j0 w -> coupling i j ((i, j) :: w)) ->
  (forall w, coupling i j w -> exists i1 j1 u1 w1,
     w = (i, j) :: w1 /\ coupling i1 j1 w1 /\ frechet_value i1 j1 u1 /\ sle u u1) ->
  frechet_value i j (fmax (d i j) u).
Proof.
  intros Hu Hext Hinv. pose proof (frechet_value_number _ _ _ Hu) as Hun.
  destruct (max_spec (d i j) u) as (Hv & Hd & Huv); [apply d_number|done|]. cbn in *.
  fold fmax in *. set (v := fmax (d i j) u) in *.
  assert (not_nan v) as Hvn by (destruct Hv as [-> | ->]; [apply d_number|done]).
  split.
  - destruct Hu as ((w & Hw & Hall & Hat) & _). exists ((i, j) :: w). split; [by apply Hext|]. split.
    + constructor; [done|]. eapply Forall_impl; [exact Hall|]. intros ab Hab. cbn in *.
      eapply sle_trans; [apply d_number|exact Hun|exact Hvn|exact Hab|exact Huv].
    + destruct Hv as [-> | ->]; [by left|by right].
  - intros w Hw. destruct (Hinv w Hw) as (i1 & j1 & u1 & w1 & -> & Hw1 & Hu1 & Hle).
    pose proof (frechet_value_number _ _ _ Hu1) as Hu1n.
    destruct Hv as [-> | ->]; [left; apply sle_refl, d_number|right].
    destruct Hu1 as (_ & Hlow). eapply Exists_impl; [exact (Hlow w1 Hw1)|]. intros ab Hab. cbn in *.
    eapply sle_trans; [exact Hun|exact Hu1n|apply d_number|exact Hle|exact Hab].
Qed.

Lemma frechet_correct i j : frechet_value i j (frechet i j).
Proof.
  revert j. induction i as [|i IHi]; intros j.
  - induction j as [|j IHj].
    + split.
      * exists [(0, 0)%nat]. split; [constructor|]. split; [repeat constructor; apply sle_refl, d_number|by left].
      * intros w Hw. inversion Hw; subst. left. apply sle_refl, d_number.
    + change (frechet 0 (S j)) with (fmax (d 0 (S j)) (frechet 0 j)).
      eapply frechet_extend; [exact IHj|by constructor|]. intros w Hw. inversion Hw; subst.
      do 4 eexists; split_and!; [done|eassumption|exact IHj|]. apply sle_refl. by eapply frechet_value_number.
  - induction j as [|j IHj].
    + change (frechet (S i) 0) with (fmax (d (S i) 0) (frechet i 0)).
      eapply frechet_extend; [exact (IHi 0%nat)|by constructor|]. intros w Hw. inversion Hw; subst.
      do 4 eexists; split_and!; [done|eassumption|exact (IHi 0%nat)|]. apply sle_refl. by eapply frechet_value_number.
    + change (frechet (S i) (S j))
        with (fmax (d (S i) (S j)) (std_min3 SFltb (frechet i (S j)) (frechet (S i) j) (frechet i j))).
      pose proof (IHi (S j)) as Hup. pose proof (IHi j) as Hdg.
      destruct (min3_spec (frechet i (S j)) (frechet (S i) j) (frechet i j)) as (Hm & L1 & L2 & L3);
        [by eapply frechet_value_number..|]. cbn in *.
      set (m := std_min3 _ _ _ _) in *.
      assert (forall w, coupling (S i) (S j) w -> exists i1 j1 u1 w1,
        w = (S i, S j) :: w1 /\ coupling i1 j1 w1 /\ frechet_value i1 j1 u1 /\ sle m u1) as Hinv.
      { intros w Hw. inversion Hw; subst; do 4 eexists; split_and!; eauto. }
      destruct Hm as [E | [E | E]].
      * apply (frechet_extend _ _ i (S j)); [by rewrite E|by constructor|done].
      * apply (frechet_extend _ _ (S i) j); [by rewrite E|by constructor|done].
      * apply (frechet_extend _ _ i j); [by rewrite E|by constructor|done].
Qed.
End reference.

(** ** The dynamic program fills the reference table *)

Section table.
Variables (d : nat -> nat -> spec_float) (traj2 : list Point).

Lemma first_row_from_table p k qs :
  (forall j q, qs !! j = Some q -> distance p q = d 0 (S (k + j))) ->
  first_row_from p (frechet d 0 k) qs = map (frechet d 0) (seq (S k) (length qs)).
Proof.
  revert k. induction qs as [|q qs IH]; intros k Hd; [done|].
  cbn [first_row_from length seq map]. pose proof (Hd 0%nat q eq_refl) as H0. rewrite Nat.add_0_r in H0.
  assert (fmax (distance p q) (frechet d 0 k) = frechet d 0 (S k)) as Ev by (by rewrite H0).
  rewrite Ev. f_equal. apply IH. intros j q' Hj. rewrite (Hd (S j) q' Hj). f_equal. lia.
Qed.

Lemma next_row_from_table p i k qs :
  (forall j q, qs !! j = Some q -> distance p q = d (S i) (S (k + j))) ->
  next_row_from p (frechet d (S i) k) (frechet d i k) qs (map (frechet d i) (seq (S k) (length qs)))
  = map (frechet d (S i)) (seq (S k) (length qs)).
Proof.
  revert k. induction qs as [|q qs IH]; intros k Hd; [done|].
  cbn [next_row_from length seq map]. pose proof (Hd 0%nat q eq_refl) as H0. rewrite Nat.add_0_r in H0.
  assert (fmax (distance p q) (std_min3 SFltb (frechet d i (S k)) (frechet d (S i) k) (frechet d i k))
          = frechet d (S i) (S k)) as Ev by (by rewrite H0).
  rewrite Ev. f_equal. apply IH. intros j q' Hj. rewrite (Hd (S j) q' Hj). f_equal. lia.
Qed.

Lemma rows_table i ps :
  (forall k p j q, ps !! k = Some p -> traj2 !! j = Some q -> distance p q = d (S (i + k)) j) ->
  foldl (next_row traj2) (map (frechet d i) (seq 0 (length traj2))) ps
  = map (frechet d (i + length ps)) (seq 0 (length traj2)).
Proof.
  revert i. induction ps as [|p ps IH]; intros i Hd; [by rewrite Nat.add_0_r|].
  cbn [foldl length]. replace (i + S (length ps))%nat with (S i + length ps)%nat by lia.
  rewrite <- IH.
  - f_equal. destruct traj2 as [|q qs]; [done|]. cbn [next_row length seq map].
    pose proof (Hd 0%nat p 0%nat q eq_refl eq_refl) as H0. rewrite Nat.add_0_r in H0.
    assert (fmax (distance p q) (frechet d i 0) = frechet d (S i) 0) as Ev by (by rewrite H0).
    rewrite Ev. f_equal. apply next_row_from_table. intros j q' Hj.
    rewrite (Hd 0%nat p (S j) q' eq_refl Hj). f_equal. lia.
  - intros k p' j q Hk Hj. rewrite (Hd (S k) p' j q Hk Hj). f_equal. lia.
Qed.
End table.

(** Distances by index; the first point stands in past the end. *)
Definition distance_at (traj1 traj2 : list Point) (i j : nat) : spec_float :=
  let default := mkPoint f32_pos_zero f32_pos_zero in
  distance (nth i traj1 (List.hd default traj1)) (nth j traj2 (List.hd default traj2)).

Lemma nth_hd_lookup (l : list Point) i p x : l !! i = Some p -> nth i l x = p.
Proof. revert i. induction l as [|y l IH]; intros [|i] Hi; try done; [by simplify_eq/=|]. by apply IH. Qed.

Lemma computeDiscreteFrechetDistance_table p ps q qs :
  let d := distance_at (p :: ps) (q :: qs) in
  computeDiscreteFrechetDistance (p :: ps) (q :: qs) = frechet d (length ps) (length qs).
Proof.
  intros d. unfold computeDiscreteFrechetDistance.
  assert (first_row p (q :: qs) = map (frechet d 0) (seq 0 (length (q :: qs)))) as ->.
  { cbn [first_row length seq map]. change (distance p q) with (frechet d 0 0). f_equal.
    apply first_row_from_table. intros j q' Hj. unfold d, distance_at. cbn. by erewrite nth_hd_lookup. }
  rewrite rows_table.
  - cbn [length]. rewrite seq_S, map_app. cbn [map]. by rewrite List.last_last, !Nat.add_0_l.
  - intros k p' j q' Hk Hj. unfold d, distance_at. 
    change (nth (S (0 + k)) (p :: ps)) with (nth k ps). cbn [List.hd].
    by rewrite (nth_hd_lookup _ _ _ _ Hk), (nth_hd_lookup _ _ _ _ Hj).
Qed.

Definition finite_point (p : Point) : Prop := sf_finite (point_x p) /\ sf_finite (point_y p).

Lemma distance_number p q : finite_point p -> finite_point q -> not_nan (distance p q).
Proof.
  intros [] []. unfold distance. apply sqrt_not_nan, add_nonneg; apply square_nonneg; by apply sub_not_nan.
Qed.

Lemma nth_Forall (P : Point -> Prop) i p ps : Forall P (p :: ps) -> P (nth i (p :: ps) p).
Proof.
  intros H. destruct (nth_in_or_default i (p :: ps) p) as [Hin| ->]; [|by inversion H].
  rewrite Forall_forall in H. apply H. by apply list_elem_of_In.
Qed.

(** C31. The two-row dynamic program computes the discrete Fréchet distance: for
    non-empty trajectories with finite coordinates its result is the least, over
    all couplings of the two trajectories, of the largest distance met on the
    coupling. *)
Theorem frechet_distance_is_least_coupling (traj1 traj2 : list Point) :
  traj1 <> [] -> traj2 <> [] -> Forall finite_point traj1 -> Forall finite_point traj2 ->
  frechet_value (distance_at traj1 traj2) (length traj1 - 1) (length traj2 - 1)
    (computeDiscreteFrechetDistance traj1 traj2).
Proof.
  intros H1 H2 F1 F2. destruct traj1 as [|p ps]; [done|]. destruct traj2 as [|q qs]; [done|].
  rewrite computeDiscreteFrechetDistance_table. cbn [length]. rewrite !Nat.sub_succ, !Nat.sub_0_r.
  apply frechet_correct. intros a b. unfold distance_at. cbn [List.hd].
  apply distance_number; by apply nth_Forall.
Qed.

(** Two trajectories of three points, in whole metres. *)
Definition metres (x y : Z) : Point := mkPoint (binary_normalize 24 128 x 0 false) (binary_normalize 24 128 y 0 false).
Definition demo_path1 : list Point := [metres 0 0; metres 1 0; metres 2 0].
Definition demo_path2 : list Point := [metres 0 3; metres 2 4].

Lemma frechet_distance_is_least_coupling_witness :
  frechet_value (distance_at demo_path1 demo_path2) 2 1 (f32_value 0x40800000)
  /\ calculateSpatialCorrelation demo_path1 demo_path2 = f32_value 0x3DD83690.
Proof.
  split; [|by vm_compute].
  apply (frechet_distance_is_least_coupling demo_path1 demo_path2); [done|done|repeat constructor|repeat constructor].
Defined.

Lemma clamp_number x : let v := fmax f32_pos_zero x in not_nan v /\ sf_nonneg v.
Proof.
  unfold fmax, std_max, not_nan. destruct (SFltb f32_pos_zero x) eqn:E; [|done].
  destruct x as [[]|[]| |[]]; done.
Qed.

(** The weight is always a number and never negative, whatever the
    coordinates (NaN and infinities included). *)
Theorem spatial_correlation_number (traj1 traj2 : list Point) :
  let w := calculateSpatialCorrelation traj1 traj2 in not_nan w /\ sf_nonneg w.
Proof.
  unfold calculateSpatialCorrelation.
  repeat case_match; try (split; done).
  apply clamp_number.
Qed.

(** A coordinate that is not a number compares as a perfect match: two
    trajectories of equal length in which every point has a NaN coordinate have
    the weight of identical ones. *)
Theorem nan_trajectories_correlate (traj1 traj2 : list Point) :
  length traj1 = length traj2 ->
  Forall (fun p => point_x p = S754_nan \/ point_y p = S754_nan) traj1 ->
  calculateSpatialCorrelation traj1 traj2 = f32_value_one.
Proof.
  intros Hlen Hnan. unfold calculateSpatialCorrelation. rewrite bool_decide_eq_true_2 by done.
  enough (identical_points traj1 traj2 = true) as -> by done.
  unfold identical_points. clear Hlen. revert traj2. induction Hnan as [|p ps Hp Hps IH]; intros [|q qs]; try done.
  cbn. rewrite IH, andb_true_r. unfold distance.
  destruct Hp as [-> | ->]; [done|]. by destruct (f32_mul (f32_sub (point_x p) (point_x q)) _) as [[]|[]| |[]].
Qed.

Lemma nan_trajectories_correlate_witness :
  let nan := mkPoint S754_nan f32_pos_zero in
  calculateSpatialCorrelation [nan; nan] demo_path2 = f32_value_one.
Proof. apply nan_trajectories_correlate; [done|by repeat constructor]. Defined.
