(* ===== verification/FusionEngine.v ===== *)
(** * The fusion engine

    [NvPSSSafetyEventFusion.{hpp,cpp}]: events of one type reported by different
    pipelines are matched by similarity and replaced by one fused event; an event
    that finds no partner leaves as a pass-through event once it is older than
    the time window.

    [FusionEngine] is the object: its configuration, a queue per event type, the
    ids of the events that have left, the registered pipelines, and the output.
    An operation is a function on it, executed as one step; it also returns, for
    each event it appends to the output, the ids of the source events behind it.

    Three things the C++ standard library leaves open are parameters: [std::exp];
    the order [std::sort] gives to equal keys; and the iteration order of an
    [unordered_map].  A position in the sorted index vector is represented by the
    event index it holds, and a [vector<bool>] over positions by the set of the
    indices marked. *)

From S2P Require Import Prelude Protocol Float32 SpatialCorrelation.

Record FusionConfig := {
  fc_timeWindowSize : Z;
  fc_fusionThreshold : spec_float;
  fc_alpha : spec_float;
  fc_beta : spec_float;
  fc_gamma : spec_float;
  fc_temporalTolerance : Z;
  fc_trajectoryCount : Z;
  fc_maxSupportedPipelines : Z;
  fc_earlyTerminationThreshold : spec_float;
  fc_enableEarlyTermination : bool;
}.

Record FusionEngine := {
  fe_config : FusionConfig;
  fe_eventTypeQueues : gmap EventType (list SafetyEvent);
  fe_processedEventIds : gset Z;
  fe_registeredPipelines : gset Z;
  fe_fusedEvents : list FusedSafetyEvent;
}.

Inductive NvPSSDErr := NVPSSD_SUCCESS | NVPSSD_FAIL.

#[global] Instance NvPSSDErr_eq_dec : EqDecision NvPSSDErr.
Proof. solve_decision. Defined.

(** The constructor. *)
Definition SafetyEventFusion (config : FusionConfig) : FusionEngine := {|
  fe_config := config; fe_eventTypeQueues := ∅; fe_processedEventIds := ∅;
  fe_registeredPipelines := ∅; fe_fusedEvents := [] |}.

(** Field updates. *)
Definition set_fe_config (c : FusionConfig) (s : FusionEngine) : FusionEngine := {|
  fe_config := c; fe_eventTypeQueues := fe_eventTypeQueues s; fe_processedEventIds := fe_processedEventIds s;
  fe_registeredPipelines := fe_registeredPipelines s; fe_fusedEvents := fe_fusedEvents s |}.

Definition set_fe_queues (q : gmap EventType (list SafetyEvent)) (s : FusionEngine) : FusionEngine := {|
  fe_config := fe_config s; fe_eventTypeQueues := q; fe_processedEventIds := fe_processedEventIds s;
  fe_registeredPipelines := fe_registeredPipelines s; fe_fusedEvents := fe_fusedEvents s |}.

Definition set_fe_registered (r : gset Z) (s : FusionEngine) : FusionEngine := {|
  fe_config := fe_config s; fe_eventTypeQueues := fe_eventTypeQueues s; fe_processedEventIds := fe_processedEventIds s;
  fe_registeredPipelines := r; fe_fusedEvents := fe_fusedEvents s |}.

(** Append to the output, recording the ids that left. *)
Definition fe_output (out : list FusedSafetyEvent) (ids : list Z) (s : FusionEngine) : FusionEngine := {|
  fe_config := fe_config s; fe_eventTypeQueues := fe_eventTypeQueues s;
  fe_processedEventIds := fe_processedEventIds s ∪ list_to_set ids;
  fe_registeredPipelines := fe_registeredPipelines s; fe_fusedEvents := fe_fusedEvents s ++ out |}.

(** ** Checked time arithmetic *)

Definition SafeTimeAdd (a multiplier b : Z) : option Z :=
  if (0 <? a) && (UINT64_MAX / a <? multiplier) then None else
  let product := u64 (a * multiplier) in
  if UINT64_MAX - b <? product then None else Some (product + b).

Definition SafeTimeSub (a b : Z) : option Z := if a <? b then None else Some (a - b).

Definition SafeTimeMul (a b : Z) : option Z :=
  if (0 <? a) && (UINT64_MAX / a <? b) then None else Some (u64 (a * b)).

(** [clock_gettime(CLOCK_MONOTONIC)]. *)
Record timespec := { tv_sec : Z; tv_nsec : Z }.

(** The prologue of [ProcessNewSafetyEvent] and [ProcessUnmatchedEvents]: the
    instant before which an event lies outside the window. *)
Definition window_cutoff (ts : timespec) (timeWindowSize : Z) : option Z :=
  match SafeTimeAdd (tv_sec ts) 1000000000 (tv_nsec ts) with
  | None => None
  | Some now =>
    match SafeTimeMul timeWindowSize 1000000 with
    | None => None
    | Some timeWindowNs => Some (default 0 (SafeTimeSub now timeWindowNs))
    end
  end.

(** ** Setters *)

Definition f32_unit_range (x : spec_float) : bool :=
  negb (SFltb x f32_pos_zero || SFltb f32_value_one x).

Definition SetFusionThreshold (t : spec_float) (s : FusionEngine) : FusionEngine * NvPSSDErr :=
  if f32_unit_range t then
    let c := fe_config s in
    (set_fe_config {| fc_timeWindowSize := fc_timeWindowSize c; fc_fusionThreshold := t;
       fc_alpha := fc_alpha c; fc_beta := fc_beta c; fc_gamma := fc_gamma c;
       fc_temporalTolerance := fc_temporalTolerance c; fc_trajectoryCount := fc_trajectoryCount c;
       fc_maxSupportedPipelines := fc_maxSupportedPipelines c;
       fc_earlyTerminationThreshold := fc_earlyTerminationThreshold c;
       fc_enableEarlyTermination := fc_enableEarlyTermination c |} s, NVPSSD_SUCCESS)
  else (s, NVPSSD_FAIL).

Definition SetTimeWindowSize (w : Z) (s : FusionEngine) : FusionEngine * NvPSSDErr :=
  if w =? 0 then (s, NVPSSD_FAIL) else
    let c := fe_config s in
    (set_fe_config {| fc_timeWindowSize := w; fc_fusionThreshold := fc_fusionThreshold c;
       fc_alpha := fc_alpha c; fc_beta := fc_beta c; fc_gamma := fc_gamma c;
       fc_temporalTolerance := fc_temporalTolerance c; fc_trajectoryCount := fc_trajectoryCount c;
       fc_maxSupportedPipelines := fc_maxSupportedPipelines c;
       fc_earlyTerminationThreshold := fc_earlyTerminationThreshold c;
       fc_enableEarlyTermination := fc_enableEarlyTermination c |} s, NVPSSD_SUCCESS).

Definition SetTemporalTolerance (t : Z) (s : FusionEngine) : FusionEngine * NvPSSDErr :=
  if t =? 0 then (s, NVPSSD_FAIL) else
    let c := fe_config s in
    (set_fe_config {| fc_timeWindowSize := fc_timeWindowSize c; fc_fusionThreshold := fc_fusionThreshold c;
       fc_alpha := fc_alpha c; fc_beta := fc_beta c; fc_gamma := fc_gamma c;
       fc_temporalTolerance := t; fc_trajectoryCount := fc_trajectoryCount c;
       fc_maxSupportedPipelines := fc_maxSupportedPipelines c;
       fc_earlyTerminationThreshold := fc_earlyTerminationThreshold c;
       fc_enableEarlyTermination := fc_enableEarlyTermination c |} s, NVPSSD_SUCCESS).

(** [0.01f]. *)
Definition WEIGHT_SUM_TOLERANCE : spec_float := f32_value 0x3C23D70A.

Definition SetFusionWeights (a b g : spec_float) (s : FusionEngine) : FusionEngine * NvPSSDErr :=
  let totalW := f32_add (f32_add a b) g in
  if SFltb WEIGHT_SUM_TOLERANCE (SFabs (f32_sub totalW f32_value_one)) then (s, NVPSSD_FAIL) else
    let c := fe_config s in
    (set_fe_config {| fc_timeWindowSize := fc_timeWindowSize c; fc_fusionThreshold := fc_fusionThreshold c;
       fc_alpha := a; fc_beta := b; fc_gamma := g;
       fc_temporalTolerance := fc_temporalTolerance c; fc_trajectoryCount := fc_trajectoryCount c;
       fc_maxSupportedPipelines := fc_maxSupportedPipelines c;
       fc_earlyTerminationThreshold := fc_earlyTerminationThreshold c;
       fc_enableEarlyTermination := fc_enableEarlyTermination c |} s, NVPSSD_SUCCESS).

Definition SetTrajectoryCount (n : Z) (s : FusionEngine) : FusionEngine * NvPSSDErr :=
  if 10 <? n then (s, NVPSSD_FAIL) else
    let c := fe_config s in
    (set_fe_config {| fc_timeWindowSize := fc_timeWindowSize c; fc_fusionThreshold := fc_fusionThreshold c;
       fc_alpha := fc_alpha c; fc_beta := fc_beta c; fc_gamma := fc_gamma c;
       fc_temporalTolerance := fc_temporalTolerance c; fc_trajectoryCount := n;
       fc_maxSupportedPipelines := fc_maxSupportedPipelines c;
       fc_earlyTerminationThreshold := fc_earlyTerminationThreshold c;
       fc_enableEarlyTermination := fc_enableEarlyTermination c |} s, NVPSSD_SUCCESS).

Definition SetMaxPipelines (n : Z) (s : FusionEngine) : FusionEngine * NvPSSDErr :=
  if (n =? 0) || (MAX_SUPPORTED_PIPELINES <? n) then (s, NVPSSD_FAIL) else
    let c := fe_config s in
    (set_fe_config {| fc_timeWindowSize := fc_timeWindowSize c; fc_fusionThreshold := fc_fusionThreshold c;
       fc_alpha := fc_alpha c; fc_beta := fc_beta c; fc_gamma := fc_gamma c;
       fc_temporalTolerance := fc_temporalTolerance c; fc_trajectoryCount := fc_trajectoryCount c;
       fc_maxSupportedPipelines := n;
       fc_earlyTerminationThreshold := fc_earlyTerminationThreshold c;
       fc_enableEarlyTermination := fc_enableEarlyTermination c |} s, NVPSSD_SUCCESS).

Definition SetEarlyTerminationThreshold (t : spec_float) (s : FusionEngine) : FusionEngine * NvPSSDErr :=
  if f32_unit_range t then
    let c := fe_config s in
    (set_fe_config {| fc_timeWindowSize := fc_timeWindowSize c; fc_fusionThreshold := fc_fusionThreshold c;
       fc_alpha := fc_alpha c; fc_beta := fc_beta c; fc_gamma := fc_gamma c;
       fc_temporalTolerance := fc_temporalTolerance c; fc_trajectoryCount := fc_trajectoryCount c;
       fc_maxSupportedPipelines := fc_maxSupportedPipelines c;
       fc_earlyTerminationThreshold := t;
       fc_enableEarlyTermination := fc_enableEarlyTermination c |} s, NVPSSD_SUCCESS)
  else (s, NVPSSD_FAIL).

Definition EnableEarlyTermination (b : bool) (s : FusionEngine) : FusionEngine * NvPSSDErr :=
    let c := fe_config s in
    (set_fe_config {| fc_timeWindowSize := fc_timeWindowSize c; fc_fusionThreshold := fc_fusionThreshold c;
       fc_alpha := fc_alpha c; fc_beta := fc_beta c; fc_gamma := fc_gamma c;
       fc_temporalTolerance := fc_temporalTolerance c; fc_trajectoryCount := fc_trajectoryCount c;
       fc_maxSupportedPipelines := fc_maxSupportedPipelines c;
       fc_earlyTerminationThreshold := fc_earlyTerminationThreshold c;
       fc_enableEarlyTermination := b |} s, NVPSSD_SUCCESS).

(** ** Similarity *)

Record SimilarityResult := {
  sr_temporalSim : spec_float;
  sr_spatialSim : spec_float;
  sr_attributeSim : spec_float;
  sr_overallSim : spec_float;
  sr_earlyReject : bool;
}.

(** The first event of a comparison is a [SafetyEvent] or a [FusedSafetyEvent];
    the overloads read only these fields of it. *)
Record EventView := { vw_timestamp : Z; vw_metadata : EventFusionMetadata }.

Definition view_event (e : SafetyEvent) : EventView := {|
  vw_timestamp := se_timestamp e; vw_metadata := se_fusionMetadata e |}.

Definition view_fused (e : FusedSafetyEvent) : EventView := {|
  vw_timestamp := ev_timestamp e; vw_metadata := ev_fusionMetadata e |}.

Definition speedAttributeTolerance : spec_float := f32_value_one.
Definition attributesCount : Z := 2.

Section engine.
Variable std_exp : spec_float -> spec_float.
Variable sort_by_time : list SafetyEvent -> list nat -> list nat.
Variable map_order : gmap EventType (list SafetyEvent) -> list EventType.

Definition CalculateTemporalSimilarity (c : FusionConfig) (timestamp1 timestamp2 : Z) : spec_float :=
  if fc_temporalTolerance c =? 0 then f32_pos_zero else
  let timeDiff := if timestamp2 <=? timestamp1 then (timestamp1 - timestamp2) / 1000000
                  else (timestamp2 - timestamp1) / 1000000 in
  let timeDiffDouble := f64_of_Z timeDiff in
  let toleranceDouble := f64_of_Z (fc_temporalTolerance c) in
  let squaredDiff := f64_mul timeDiffDouble timeDiffDouble in
  let sigmaSq := f64_mul toleranceDouble toleranceDouble in
  let exponent := f64_div (SFopp squaredDiff) (f64_mul (f64_of_Z 2) sigmaSq) in
  if SFltb exponent (f64_of_Z (-100)) then f32_pos_zero else f32_of_f64 (std_exp exponent).

Definition coordinates_x (m : EventFusionMetadata) : list spec_float := map (fun p => f32_value (tc_x p)) (fm_coordinates m).
Definition coordinates_y (m : EventFusionMetadata) : list spec_float := map (fun p => f32_value (tc_y p)) (fm_coordinates m).

Definition CalculateSpatialSimilarity (c : FusionConfig) (m1 m2 : EventFusionMetadata) : spec_float :=
  let n := Z.to_nat (fc_trajectoryCount c) in
  calculateSpatialCorrelation (createTrajectory (coordinates_x m1) (coordinates_y m1) n)
                              (createTrajectory (coordinates_x m2) (coordinates_y m2) n).

(** [matchingAttributes / attributesCount] is a division of integers, converted
    to [float] afterwards. *)
Definition CalculateAttributeSimilarity (m1 m2 : EventFusionMetadata) : spec_float :=
  let sameObject := (fm_objectType m1).1 =? (fm_objectType m2).1 in
  let sameSpeed := SFltb (SFabs (f32_sub (f32_value (fm_speed m1)) (f32_value (fm_speed m2)))) speedAttributeTolerance in
  let matchingAttributes := Z.b2z sameObject + Z.b2z sameSpeed in
  binary_normalize 24 128 (matchingAttributes / attributesCount) 0 false.

Definition CalculateOverallSimilarity (c : FusionConfig) (temporalSim spatialSim attrSim : spec_float) : spec_float :=
  f32_add (f32_add (f32_mul (fc_alpha c) temporalSim) (f32_mul (fc_beta c) spatialSim)) (f32_mul (fc_gamma c) attrSim).

Definition CalculateSimilarity (c : FusionConfig) (first : EventView) (candidate : SafetyEvent) : SimilarityResult :=
  let reject t s := {| sr_temporalSim := t; sr_spatialSim := s; sr_attributeSim := f32_pos_zero;
                       sr_overallSim := f32_pos_zero; sr_earlyReject := true |} in
  let temporalSim := CalculateTemporalSimilarity c (vw_timestamp first) (se_timestamp candidate) in
  if SFltb (f32_mul temporalSim (fc_alpha c)) (f32_sub (fc_fusionThreshold c) (f32_add (fc_beta c) (fc_gamma c)))
  then reject temporalSim f32_pos_zero else
  let spatialSim := CalculateSpatialSimilarity c (vw_metadata first) (se_fusionMetadata candidate) in
  let partialScore := f32_add (f32_mul (fc_alpha c) temporalSim) (f32_mul (fc_beta c) spatialSim) in
  if SFltb partialScore (f32_sub (fc_fusionThreshold c) (fc_gamma c)) then reject temporalSim spatialSim else
  let attributeSim := CalculateAttributeSimilarity (vw_metadata first) (se_fusionMetadata candidate) in
  {| sr_temporalSim := temporalSim; sr_spatialSim := spatialSim; sr_attributeSim := attributeSim;
     sr_overallSim := CalculateOverallSimilarity c temporalSim spatialSim attributeSim; sr_earlyReject := false |}.

(** ** Output events *)

Definition copy_identifier (id : list Z) : list Z := strncpy id (MAX_INDENTIFIER_LENGTH - 1) ++ [0].

(** [c1 + c2 - (c1 * c2)]. *)
Definition fuse_confidence (c1 c2 : f32) : f32 :=
  let x := f32_value c1 in let y := f32_value c2 in f32_bits (f32_sub (f32_add x y) (f32_mul x y)).

Definition CreateFusedSafetyEvent (event1 event2 : SafetyEvent) : FusedSafetyEvent := {|
  ev_id := se_id event1;
  ev_sensorIdentifier := copy_identifier (se_sensorIdentifier event1);
  ev_type := se_type event1;
  ev_cause := if se_cause event1 =? se_cause event2 then se_cause event1 else CAUSE_NONE;
  ev_severity := OPERATIONAL;
  ev_timestamp := Z.min (se_timestamp event1) (se_timestamp event2);
  ev_confidenceLevel := fuse_confidence (se_confidenceLevel event1) (se_confidenceLevel event2);
  ev_status := FUSED;
  ev_fusionMetadata := se_fusionMetadata event1 |}.

Definition CreateFusedSafetyEvent_extend (existingFused : FusedSafetyEvent) (newEvent : SafetyEvent) : FusedSafetyEvent := {|
  ev_id := ev_id existingFused;
  ev_sensorIdentifier := copy_identifier (ev_sensorIdentifier existingFused);
  ev_type := ev_type existingFused;
  ev_cause := if ev_cause existingFused =? se_cause newEvent then ev_cause existingFused else CAUSE_NONE;
  ev_severity := if ev_severity existingFused =? CRITICAL then CRITICAL else OPERATIONAL;
  ev_timestamp := Z.min (ev_timestamp existingFused) (se_timestamp newEvent);
  ev_confidenceLevel := fuse_confidence (ev_confidenceLevel existingFused) (se_confidenceLevel newEvent);
  ev_status := FUSED;
  ev_fusionMetadata := ev_fusionMetadata existingFused |}.

Definition CreatePassThroughEvent (event : SafetyEvent) (isStale : bool) : FusedSafetyEvent := {|
  ev_id := se_id event;
  ev_sensorIdentifier := copy_identifier (se_sensorIdentifier event);
  ev_type := se_type event;
  ev_cause := se_cause event;
  ev_severity := OPERATIONAL;
  ev_timestamp := se_timestamp event;
  ev_confidenceLevel := se_confidenceLevel event;
  ev_status := if isStale then STALE else PASSTHROUGH;
  ev_fusionMetadata := se_fusionMetadata event |}.

(** ** Ingestion *)

Definition RegisterPipeline (pipelineId : Z) (s : FusionEngine) : FusionEngine * NvPSSDErr :=
  if (pipelineId =? 0) || (fc_maxSupportedPipelines (fe_config s) <? pipelineId) then (s, NVPSSD_FAIL)
  else (set_fe_registered (fe_registeredPipelines s ∪ {[pipelineId]}) s, NVPSSD_SUCCESS).

(** The result of an operation: the new state, its return code, and the source
    ids behind each event appended to the output. *)
Record FusionResult := mkResult { fr_state : FusionEngine; fr_code : NvPSSDErr; fr_sources : list (list Z) }.

Definition ProcessNewSafetyEvent (ts : timespec) (event : SafetyEvent) (s : FusionEngine) : FusionResult :=
  match window_cutoff ts (fc_timeWindowSize (fe_config s)) with
  | None => mkResult s NVPSSD_FAIL []
  | Some cutoffTime =>
    if se_timestamp event <? cutoffTime then
      mkResult (fe_output [CreatePassThroughEvent event true] [] s) NVPSSD_SUCCESS [[se_id event]]
    else if fm_pipelineID (se_fusionMetadata event) =? 0 then
      mkResult (fe_output [CreatePassThroughEvent event false] [] s) NVPSSD_SUCCESS [[se_id event]]
    else if fc_maxSupportedPipelines (fe_config s) <? fm_pipelineID (se_fusionMetadata event) then
      mkResult s NVPSSD_FAIL []
    else
      let s1 := (RegisterPipeline (fm_pipelineID (se_fusionMetadata event)) s).1 in
      let q := default [] (fe_eventTypeQueues s1 !! se_type event) in
      mkResult (set_fe_queues (<[se_type event := q ++ [event]]> (fe_eventTypeQueues s1)) s1) NVPSSD_SUCCESS []
  end.

(** ** Matching *)

Inductive candidate_verdict := Skip | StopSearch | Consider (similarity : spec_float).

(** The search loop: keep the best candidate so far ([MatchResult]). *)
Fixpoint best_match (c : FusionConfig) (judge : nat -> candidate_verdict) (js : list nat)
    (best : option nat) (similarity : spec_float) : option nat * spec_float :=
  match js with
  | [] => (best, similarity)
  | j :: js' =>
    match judge j with
    | Skip => best_match c judge js' best similarity
    | StopSearch => (best, similarity)
    | Consider overallSim =>
      if SFltb similarity overallSim then
        if fc_enableEarlyTermination c && SFleb (fc_earlyTerminationThreshold c) overallSim
        then (Some j, overallSim)
        else best_match c judge js' (Some j) overallSim
      else best_match c judge js' best similarity
    end
  end.

Definition event_at (events : list SafetyEvent) (k : nat) : SafetyEvent := nth k events zero_SafetyEvent.

Definition window_ns (c : FusionConfig) : Z := u64 (fc_timeWindowSize c * 1000000).
Definition min_time (c : FusionConfig) (t : Z) : Z := if window_ns c <? t then t - window_ns c else 0.
Definition max_time (c : FusionConfig) (t : Z) : Z := u64 (t + window_ns c).

Definition similarity_verdict (c : FusionConfig) (first : EventView) (candidate : SafetyEvent) : candidate_verdict :=
  let r := CalculateSimilarity c first candidate in
  if sr_earlyReject r then Skip else Consider (sr_overallSim r).

(** Phase 1: candidates are in timestamp order, so the first one past the window
    ends the search. *)
Definition judge_pair (c : FusionConfig) (events : list SafetyEvent) (eventProcessed : gset nat) (i j : nat)
  : candidate_verdict :=
  let base := event_at events i in
  let candidate := event_at events j in
  if bool_decide (j ∈ eventProcessed) then Skip
  else if max_time c (se_timestamp base) <? se_timestamp candidate then StopSearch
  else if se_timestamp candidate <? min_time c (se_timestamp base) then Skip
  else if fm_pipelineID (se_fusionMetadata base) =? fm_pipelineID (se_fusionMetadata candidate) then Skip
  else similarity_verdict c (view_event base) candidate.

(** The [superseded] field is never written or read. *)
Record FusedEventTracker := {
  tr_fusedEvent : FusedSafetyEvent;
  tr_contributingPipelines : gset Z;
  tr_sourceEventIds : list Z;
  tr_fusionIterations : Z;
  tr_canBeFusedAgain : bool;
}.

(** Phase 2: a candidate from a pipeline that has not contributed yet. *)
Definition judge_extension (c : FusionConfig) (events : list SafetyEvent) (thisIterationProcessed : gset nat)
    (tr : FusedEventTracker) (j : nat) : candidate_verdict :=
  let candidate := event_at events j in
  let t := ev_timestamp (tr_fusedEvent tr) in
  if bool_decide (j ∈ thisIterationProcessed) then Skip
  else if max_time c t <? se_timestamp candidate then Skip
  else if se_timestamp candidate <? min_time c t then Skip
  else if bool_decide (fm_pipelineID (se_fusionMetadata candidate) ∈ tr_contributingPipelines tr) then Skip
  else similarity_verdict c (view_fused (tr_fusedEvent tr)) candidate.

Definition set_se_processed (e : SafetyEvent) : SafetyEvent := {|
  se_id := se_id e; se_sensorIdentifier := se_sensorIdentifier e; se_type := se_type e;
  se_timestamp := se_timestamp e; se_confidenceLevel := se_confidenceLevel e;
  se_processed := true; se_fusionMetadata := se_fusionMetadata e;
  se_cause := se_cause e; se_integrity := se_integrity e |}.

Definition mark_processed (k : nat) (events : list SafetyEvent) : list SafetyEvent :=
  alter set_se_processed k events.

Definition fewer_than_max (c : FusionConfig) (pipelines : gset Z) : bool :=
  Z.of_nat (size pipelines) <? fc_maxSupportedPipelines c.

Record Matching := { mt_events : list SafetyEvent; mt_processed : gset nat; mt_trackers : list FusedEventTracker }.

Definition new_tracker (c : FusionConfig) (base candidate : SafetyEvent) : FusedEventTracker :=
  let pipelines : gset Z := {[fm_pipelineID (se_fusionMetadata base); fm_pipelineID (se_fusionMetadata candidate)]} in
  {| tr_fusedEvent := CreateFusedSafetyEvent base candidate;
     tr_contributingPipelines := pipelines;
     tr_sourceEventIds := [se_id base; se_id candidate];
     tr_fusionIterations := 1;
     tr_canBeFusedAgain := fewer_than_max c pipelines |}.

(** One round of the phase 1 loop: base event [i] against the later ones. *)
Definition fuse_base (c : FusionConfig) (i : nat) (later : list nat) (m : Matching) : Matching :=
  if bool_decide (i ∈ mt_processed m) then m else
  match best_match c (judge_pair c (mt_events m) (mt_processed m) i) later None f32_pos_zero with
  | (Some j, similarity) =>
    if SFleb (fc_fusionThreshold c) similarity then
      {| mt_events := mark_processed j (mark_processed i (mt_events m));
         mt_processed := mt_processed m ∪ {[i; j]};
         mt_trackers := mt_trackers m ++ [new_tracker c (event_at (mt_events m) i) (event_at (mt_events m) j)] |}
    else m
  | (None, _) => m
  end.

Fixpoint fuse_pairs (c : FusionConfig) (indices : list nat) (m : Matching) : Matching :=
  match indices with
  | [] => m
  | i :: later => fuse_pairs c later (fuse_base c i later m)
  end.

Definition extend_tracker (c : FusionConfig) (tr : FusedEventTracker) (candidate : SafetyEvent) : FusedEventTracker :=
  let pipelines := tr_contributingPipelines tr ∪ {[fm_pipelineID (se_fusionMetadata candidate)]} in
  {| tr_fusedEvent := CreateFusedSafetyEvent_extend (tr_fusedEvent tr) candidate;
     tr_contributingPipelines := pipelines;
     tr_sourceEventIds := tr_sourceEventIds tr ++ [se_id candidate];
     tr_fusionIterations := u8 (tr_fusionIterations tr + 1);
     tr_canBeFusedAgain := fewer_than_max c pipelines |}.

(** One tracker of a phase 2 iteration; [mt_processed] is
    [thisIterationProcessed], [mt_trackers] the trackers already visited. *)
Definition extend_one (c : FusionConfig) (unfused : list nat) (m : Matching) (tr : FusedEventTracker) : Matching :=
  let keep := {| mt_events := mt_events m; mt_processed := mt_processed m; mt_trackers := mt_trackers m ++ [tr] |} in
  if negb (tr_canBeFusedAgain tr) then keep else
  match best_match c (judge_extension c (mt_events m) (mt_processed m) tr) unfused None f32_pos_zero with
  | (Some j, similarity) =>
    if SFleb (fc_fusionThreshold c) similarity then
      {| mt_events := mark_processed j (mt_events m);
         mt_processed := mt_processed m ∪ {[j]};
         mt_trackers := mt_trackers m ++ [extend_tracker c tr (event_at (mt_events m) j)] |}
    else keep
  | (None, _) => keep
  end.

(** [fuel] is the number of iterations left. *)
Fixpoint extend_iterations (c : FusionConfig) (fuel : nat) (unfused : list nat) (events : list SafetyEvent)
    (trackers : list FusedEventTracker) : list SafetyEvent * list FusedEventTracker :=
  match fuel with
  | O => (events, trackers)
  | S fuel' =>
    if bool_decide (unfused = []) then (events, trackers) else
    let m := foldl (extend_one c unfused) {| mt_events := events; mt_processed := ∅; mt_trackers := [] |} trackers in
    let stillUnfused := filter (fun i => i ∉ mt_processed m) unfused in
    if bool_decide (mt_processed m = ∅) then (mt_events m, mt_trackers m)
    else extend_iterations c fuel' stillUnfused (mt_events m) (mt_trackers m)
  end.

Definition unprocessed_indices (events : list SafetyEvent) (processedIds : gset Z) : list nat :=
  filter (fun k => se_processed (event_at events k) = false /\ se_id (event_at events k) ∉ processedIds)
         (seq 0 (length events)).

(** The matching of one queue: the events with their flags, and the fused
    events. *)
Definition match_events (c : FusionConfig) (events : list SafetyEvent) (processedIds : gset Z)
  : list SafetyEvent * list FusedEventTracker :=
  let unprocessed := unprocessed_indices events processedIds in
  if (length unprocessed <=? 1)%nat then (events, []) else
  let indices := sort_by_time events unprocessed in
  let m := fuse_pairs c indices {| mt_events := events; mt_processed := ∅; mt_trackers := [] |} in
  let remaining := filter (fun i => i ∉ mt_processed m) indices in
  if fc_maxSupportedPipelines c <=? 2 then (mt_events m, mt_trackers m)
  else if bool_decide (mt_trackers m = []) then (mt_events m, mt_trackers m)
  else extend_iterations c (Z.to_nat (fc_maxSupportedPipelines c - 2)) remaining (mt_events m) (mt_trackers m).

Definition ProcessSafetyEvents (s : FusionEngine) (type : EventType) : FusionEngine * list (list Z) :=
  match fe_eventTypeQueues s !! type with
  | None | Some [] => (s, [])
  | Some events =>
    let '(events', trackers) := match_events (fe_config s) events (fe_processedEventIds s) in
    (fe_output (map tr_fusedEvent trackers) (concat (map tr_sourceEventIds trackers))
       (set_fe_queues (<[type := events']> (fe_eventTypeQueues s)) s),
     map tr_sourceEventIds trackers)
  end.

(** [EVENT_0 .. SW_FAIL - 1]. *)
Definition fusion_types : list EventType := map Z.of_nat (seq (Z.to_nat EVENT_0) (Z.to_nat (SW_FAIL - EVENT_0))).

Definition fold_types (f : FusionEngine -> EventType -> FusionEngine * list (list Z)) (types : list EventType)
    (s : FusionEngine) : FusionEngine * list (list Z) :=
  foldl (fun '(s, log) t => let '(s', l) := f s t in (s', log ++ l)) (s, []) types.

Definition PerformSafetyEventFusion (s : FusionEngine) : FusionResult :=
  let '(s', log) := fold_types ProcessSafetyEvents fusion_types s in mkResult s' NVPSSD_SUCCESS log.

(** ** Release and clean-up *)

Definition unmatched (cutoffTime : Z) (e : SafetyEvent) : bool :=
  negb (se_processed e) && (se_timestamp e <? cutoffTime).

Definition release_type (cutoffTime : Z) (s : FusionEngine) (type : EventType) : FusionEngine * list (list Z) :=
  let events := default [] (fe_eventTypeQueues s !! type) in
  let released := filter (fun e => unmatched cutoffTime e = true) events in
  (fe_output (map (fun e => CreatePassThroughEvent e false) released) (map se_id released)
     (set_fe_queues
        (<[type := map (fun e => if unmatched cutoffTime e then set_se_processed e else e) events]> (fe_eventTypeQueues s)) s),
   map (fun e => [se_id e]) released).

Definition ProcessUnmatchedEvents (ts : timespec) (s : FusionEngine) : FusionResult :=
  match window_cutoff ts (fc_timeWindowSize (fe_config s)) with
  | None => mkResult s NVPSSD_FAIL []
  | Some cutoffTime =>
    let '(s', log) := fold_types (release_type cutoffTime) (map_order (fe_eventTypeQueues s)) s in
    mkResult s' NVPSSD_SUCCESS log
  end.

Definition CleanProcessedEvents (s : FusionEngine) : FusionResult :=
  mkResult
    (set_fe_queues
       (filter (fun e => ~ (se_processed e = true \/ se_id e ∈ fe_processedEventIds s)) <$> fe_eventTypeQueues s) s)
    NVPSSD_SUCCESS [].

Definition ClearFusedEvents (count : nat) (s : FusionEngine) : FusionResult :=
  if (count =? 0)%nat || (length (fe_fusedEvents s) <? count)%nat then mkResult s NVPSSD_FAIL []
  else mkResult {| fe_config := fe_config s; fe_eventTypeQueues := fe_eventTypeQueues s;
                   fe_processedEventIds := fe_processedEventIds s;
                   fe_registeredPipelines := fe_registeredPipelines s;
                   fe_fusedEvents := drop count (fe_fusedEvents s) |} NVPSSD_SUCCESS [].

Definition ClearEventQueues (s : FusionEngine) : FusionEngine := {|
  fe_config := fe_config s; fe_eventTypeQueues := ∅; fe_processedEventIds := ∅;
  fe_registeredPipelines := fe_registeredPipelines s; fe_fusedEvents := [] |}.
End engine.
