(* ===== verification/FusionSafety.v ===== *)
(** * What the fusion engine does with its events

    Every accepted event leaves the engine exactly once or is still waiting, and
    a waiting event leaves within one processor tick of falling out of the time
    window -- provided no two events carry the same id.  A fused event never
    counts a pipeline twice. *)

From S2P Require Import Prelude Protocol Float32 SpatialCorrelation FusionEngine.

(** ** Marking events of a queue *)

Definition mark_set (P : gset nat) (events : list SafetyEvent) : list SafetyEvent :=
  imap (fun k e => if decide (k ∈ P) then set_se_processed e else e) events.

Definition open_ids (events : list SafetyEvent) : list Z :=
  map se_id (filter (fun e => se_processed e = false) events).

Lemma mark_set_empty events : mark_set ∅ events = events.
Proof.
  apply list_eq. intros k. unfold mark_set. rewrite list_lookup_imap.
  destruct (events !! k); [|done]. cbn. by rewrite decide_False by set_solver.
Qed.

Lemma mark_processed_mark_set k P events : mark_processed k (mark_set P events) = mark_set (P ∪ {[k]}) events.
Proof.
  apply list_eq. intros i. unfold mark_processed, mark_set. rewrite list_lookup_imap.
  destruct (decide (i = k)) as [->|Hne].
  - rewrite list_lookup_alter, decide_True by done. rewrite list_lookup_imap. destruct (events !! k); [|done]. cbn.
    rewrite (decide_True (P := k ∈ P ∪ {[k]})) by set_solver. by destruct (decide (k ∈ P)).
  - rewrite list_lookup_alter_ne by done. rewrite list_lookup_imap. destruct (events !! i); [|done]. cbn.
    destruct (decide (i ∈ P)), (decide (i ∈ P ∪ {[k]})); set_solver.
Qed.

Lemma event_at_lookup events k e : events !! k = Some e -> event_at events k = e.
Proof. intros H. unfold event_at. by apply nth_lookup_Some with (d := zero_SafetyEvent) in H. Qed.

(** Marking changes nothing but the flag. *)
Lemma event_at_mark_set P events k (f : SafetyEvent -> Z) :
  (forall e, f (set_se_processed e) = f e) -> f (event_at (mark_set P events) k) = f (event_at events k).
Proof.
  intros Hf. unfold event_at. rewrite !nth_lookup. unfold mark_set. rewrite list_lookup_imap.
  destruct (events !! k); cbn; [|done]. by destruct (decide _).
Qed.

Lemma open_ids_mark k events e :
  events !! k = Some e -> se_processed e = false -> open_ids events ≡ₚ se_id e :: open_ids (mark_processed k events).
Proof.
  unfold open_ids, mark_processed. revert k. induction events as [|x events IH]; intros [|k] Hk He; try done.
  - injection Hk as ->. change (alter set_se_processed 0%nat (e :: events)) with (set_se_processed e :: events).
    by rewrite filter_cons_True, filter_cons_False by done.
  - change (alter set_se_processed (S k) (x :: events)) with (x :: alter set_se_processed k events).
    rewrite !filter_cons. destruct (decide _); cbn; rewrite (IH k) by done; [apply Permutation_swap|done].
Qed.

Lemma unprocessed_spec events ids k :
  k ∈ unprocessed_indices events ids <->
  exists e, events !! k = Some e /\ se_processed e = false /\ se_id e ∉ ids.
Proof.
  unfold unprocessed_indices. rewrite list_elem_of_filter, elem_of_seq. split.
  - intros ((Hp & Hi) & _ & Hk). cbn in Hk. destruct (lookup_lt_is_Some_2 events k) as [e He]; [lia|].
    rewrite (event_at_lookup _ _ _ He) in *. eauto.
  - intros (e & He & Hp & Hi). rewrite (event_at_lookup _ _ _ He). apply lookup_lt_Some in He. split_and!; auto; lia.
Qed.

Lemma open_ids_mark_set P events :
  (forall k, k ∈ P -> exists e, events !! k = Some e /\ se_processed e = false) ->
  open_ids events ≡ₚ map (fun k => se_id (event_at events k)) (elements P) ++ open_ids (mark_set P events).
Proof.
  induction P as [|k P Hk IH] using set_ind_L; intros HP.
  - by rewrite elements_empty, mark_set_empty.
  - rewrite elements_union_singleton by done. cbn [map app]. rewrite IH by set_solver.
    destruct (HP k ltac:(set_solver)) as (e & He & Hp).
    rewrite (open_ids_mark k (mark_set P events) e); [|unfold mark_set; rewrite list_lookup_imap, He; cbn; by rewrite decide_False|done].
    rewrite mark_processed_mark_set, (event_at_lookup _ _ _ He), (union_comm_L P). symmetry. apply Permutation_middle.
Qed.

(** ** The search *)

Lemma best_match_found c judge js sim j s :
  best_match c judge js None sim = (Some j, s) -> j ∈ js /\ judge j = Consider s.
Proof.
  assert (forall best sim, best_match c judge js best sim = (Some j, s) ->
            (best = Some j /\ s = sim) \/ (j ∈ js /\ judge j = Consider s)) as H.
  { induction js as [|x js IH]; intros best sim0 H; cbn in H; [simplify_eq; auto|].
    destruct (judge x) eqn:Ex; [destruct (IH _ _ H) as [|[]]; set_solver|simplify_eq; auto|].
    destruct (SFltb sim0 similarity); [|destruct (IH _ _ H) as [|[]]; set_solver].
    destruct (_ && _); [simplify_eq; set_solver|]. destruct (IH _ _ H) as [[? ->]|[]]; simplify_eq; set_solver. }
  intros Hm. by destruct (H _ _ Hm) as [[? _]|].
Qed.

(** ** Trackers *)

Definition pipeline_at (events : list SafetyEvent) (k : nat) : Z := fm_pipelineID (se_fusionMetadata (event_at events k)).
Definition time_at (events : list SafetyEvent) (k : nat) : Z := se_timestamp (event_at events k).

(** [tr] stands for the events at [ks]: they come from pairwise different
    pipelines, and the fused event carries the earliest of their timestamps. *)
Record stands_for (events : list SafetyEvent) (ks : list nat) (tr : FusedEventTracker) : Prop := {
  sf_ids : tr_sourceEventIds tr = map (fun k => se_id (event_at events k)) ks;
  sf_distinct : NoDup (map (pipeline_at events) ks);
  sf_pipelines : tr_contributingPipelines tr = list_to_set (map (pipeline_at events) ks);
  sf_earliest : Forall (fun k => ev_timestamp (tr_fusedEvent tr) <= time_at events k) ks
                /\ Exists (fun k => ev_timestamp (tr_fusedEvent tr) = time_at events k) ks;
}.

(** A fused event names its first source, stands for at least two events of
    different pipelines, and for no more than the configured number of pipelines
    (two, where that number is smaller). *)
Record tracker_ok (c : FusionConfig) (events : list SafetyEvent) (tr : FusedEventTracker) : Prop := {
  tok_first : List.hd_error (tr_sourceEventIds tr) = Some (ev_id (tr_fusedEvent tr));
  tok_status : ev_status (tr_fusedEvent tr) = FUSED;
  tok_sources : exists ks, stands_for events ks tr;
  tok_two : (2 <= length (tr_sourceEventIds tr))%nat;
  tok_max : Z.of_nat (length (tr_sourceEventIds tr)) <= Z.max 2 (fc_maxSupportedPipelines c);
  tok_again : tr_canBeFusedAgain tr = fewer_than_max c (tr_contributingPipelines tr);
}.

Section matching.
Variable std_exp : spec_float -> spec_float.
Variable sort_by_time : list SafetyEvent -> list nat -> list nat.
Hypothesis sort_permutes : forall events l, sort_by_time events l ≡ₚ l.

Variable (c : FusionConfig) (events : list SafetyEvent).

Definition ids_at (P : gset nat) : list Z := map (fun k => se_id (event_at events k)) (elements P).

Lemma ids_at_add P k : k ∉ P -> ids_at (P ∪ {[k]}) ≡ₚ se_id (event_at events k) :: ids_at P.
Proof. intros Hk. unfold ids_at. rewrite union_comm_L, elements_union_singleton by done. done. Qed.

Record matching_ok (P : gset nat) (evs : list SafetyEvent) (trackers : list FusedEventTracker) : Prop := {
  mok_events : evs = mark_set P events;
  mok_sources : concat (map tr_sourceEventIds trackers) ≡ₚ ids_at P;
  mok_trackers : Forall (tracker_ok c events) trackers;
}.

Lemma judge_pair_consider evs P i j s :
  judge_pair std_exp c evs P i j = Consider s ->
  (j ∉ P) /\ fm_pipelineID (se_fusionMetadata (event_at evs i)) <> fm_pipelineID (se_fusionMetadata (event_at evs j)).
Proof. unfold judge_pair. intros H. cases; bool_prop; rewrite ?bool_decide_eq_false in *; done. Qed.

Lemma judge_extension_consider evs P tr j s :
  judge_extension std_exp c evs P tr j = Consider s ->
  (j ∉ P) /\ fm_pipelineID (se_fusionMetadata (event_at evs j)) ∉ tr_contributingPipelines tr.
Proof. unfold judge_extension. intros H. cases; bool_prop; rewrite ?bool_decide_eq_false in *; done. Qed.

Lemma stands_for_size ks tr : stands_for events ks tr -> size (tr_contributingPipelines tr) = length (tr_sourceEventIds tr).
Proof. intros [-> Hd -> _]. rewrite size_list_to_set by done. by rewrite !length_map. Qed.

(** The fields a fused event is computed from do not depend on the flags. *)
Lemma pipeline_mark P k : fm_pipelineID (se_fusionMetadata (event_at (mark_set P events) k)) = pipeline_at events k.
Proof. by apply (event_at_mark_set P events k (fun e => fm_pipelineID (se_fusionMetadata e))). Qed.

Lemma time_mark P k : se_timestamp (event_at (mark_set P events) k) = time_at events k.
Proof. by apply (event_at_mark_set P events k se_timestamp). Qed.

Lemma id_mark P k : se_id (event_at (mark_set P events) k) = se_id (event_at events k).
Proof. by apply event_at_mark_set. Qed.

Lemma new_tracker_ok P i j :
  pipeline_at events i <> pipeline_at events j ->
  tracker_ok c events (new_tracker c (event_at (mark_set P events) i) (event_at (mark_set P events) j)).
Proof.
  intros Hne. split; cbn [new_tracker tr_sourceEventIds tr_fusedEvent tr_contributingPipelines tr_canBeFusedAgain length]; try done; try lia.
  exists [i; j]. split; cbn [map new_tracker tr_sourceEventIds tr_contributingPipelines tr_fusedEvent CreateFusedSafetyEvent ev_timestamp].
  - by rewrite !id_mark.
  - apply NoDup_cons. split; [|apply NoDup_singleton]. by rewrite list_elem_of_singleton.
  - rewrite !pipeline_mark. set_solver.
  - rewrite !time_mark. split; [repeat constructor; lia|].
    destruct (Z.le_ge_cases (time_at events i) (time_at events j)); [left|right; left]; lia.
Qed.

Lemma extend_tracker_ok P tr j :
  tracker_ok c events tr -> tr_canBeFusedAgain tr = true ->
  pipeline_at events j ∉ tr_contributingPipelines tr ->
  tracker_ok c events (extend_tracker c tr (event_at (mark_set P events) j)).
Proof.
  intros [Hf Hs [ks Hks] H2 Hm Ha] Hc Hnew. rewrite Ha in Hc. unfold fewer_than_max in Hc.
  rewrite (stands_for_size _ _ Hks) in Hc. destruct Hks as [Hi Hd Hp [Ht1 Ht2]].
  split; cbn [extend_tracker tr_sourceEventIds tr_fusedEvent tr_contributingPipelines tr_canBeFusedAgain]; try done.
  - by destruct (tr_sourceEventIds tr).
  - exists (ks ++ [j]). split; cbn [extend_tracker tr_sourceEventIds tr_contributingPipelines tr_fusedEvent CreateFusedSafetyEvent_extend ev_timestamp];
      rewrite ?map_app; cbn [map].
    + by rewrite Hi, id_mark.
    + apply NoDup_app. split; [done|]. split; [|apply NoDup_singleton]. rewrite Hp in Hnew. set_solver.
    + rewrite Hp, pipeline_mark. set_solver.
    + rewrite time_mark, Forall_app, Exists_app. split.
      * split; [eapply Forall_impl; [exact Ht1|]; cbn; lia|repeat constructor; lia].
      * destruct (Z.le_ge_cases (ev_timestamp (tr_fusedEvent tr)) (time_at events j)).
        { left. eapply Exists_impl; [exact Ht2|]. cbn. lia. }
        { right. left. lia. }
  - rewrite length_app. lia.
  - rewrite length_app. cbn. lia.
Qed.

Lemma matching_snoc P evs trackers tr P' evs' :
  matching_ok P evs trackers -> tracker_ok c events tr -> evs' = mark_set P' events ->
  ids_at P' ≡ₚ ids_at P ++ tr_sourceEventIds tr -> matching_ok P' evs' (trackers ++ [tr]).
Proof.
  intros [He Hs Ht] Htr -> Hids. split; [done| |by apply Forall_app_2; [|constructor]].
  rewrite map_app, concat_app. cbn. by rewrite app_nil_r, Hs, Hids.
Qed.

(** ** Phase 1 *)

Lemma fuse_base_ok i later m :
  i ∉ later -> matching_ok (mt_processed m) (mt_events m) (mt_trackers m) ->
  let m' := fuse_base std_exp c i later m in
  matching_ok (mt_processed m') (mt_events m') (mt_trackers m')
  /\ mt_processed m' ⊆ mt_processed m ∪ list_to_set (i :: later).
Proof.
  intros Hi Hok. unfold fuse_base. case_bool_decide as Hp; [split; [done|set_solver]|].
  destruct (best_match _ _ _ _ _) as [[j|] s] eqn:Eb; [|split; [done|set_solver]].
  destruct (SFleb _ s); [|split; [done|set_solver]].
  apply best_match_found in Eb as [Hj Ej]. apply judge_pair_consider in Ej as [Hjp Hpipe].
  cbn [mt_processed mt_events mt_trackers]. split; [|set_solver].
  assert (i <> j) by set_solver. pose proof (mok_events _ _ _ Hok) as He.
  rewrite He, !pipeline_mark in Hpipe.
  eapply matching_snoc; [exact Hok|rewrite He; by apply new_tracker_ok| |].
  - by rewrite He, !mark_processed_mark_set, union_assoc_L.
  - rewrite union_assoc_L, ids_at_add, ids_at_add by set_solver. cbn [new_tracker tr_sourceEventIds].
    rewrite He, !event_at_mark_set by done.
    etransitivity; [|apply Permutation_app_comm]. apply Permutation_swap.
Qed.

Lemma fuse_pairs_ok indices m :
  NoDup indices -> matching_ok (mt_processed m) (mt_events m) (mt_trackers m) ->
  let m' := fuse_pairs std_exp c indices m in
  matching_ok (mt_processed m') (mt_events m') (mt_trackers m')
  /\ mt_processed m' ⊆ mt_processed m ∪ list_to_set indices.
Proof.
  revert m. induction indices as [|i later IH]; intros m Hnd Hok; [split; [done|set_solver]|].
  apply NoDup_cons in Hnd as [Hi Hnd]. cbn [fuse_pairs].
  destruct (fuse_base_ok i later m Hi Hok) as [Hok1 Hsub1].
  destruct (IH _ Hnd Hok1) as [Hok2 Hsub2]. cbn in *. split; [done|set_solver].
Qed.

(** ** Phase 2 *)

(** While an iteration visits the trackers: [P] before it, [T] claimed by it. *)
Record extending (P T : gset nat) (unfused : list nat) (m : Matching) (rest : list FusedEventTracker) : Prop := {
  ext_T : mt_processed m = T;
  ext_sub : T ⊆ list_to_set unfused;
  ext_ok : matching_ok (P ∪ T) (mt_events m) (mt_trackers m ++ rest);
}.

Lemma extend_one_ok P T unfused m tr rest :
  (forall k, k ∈ unfused -> k ∉ P) ->
  extending P T unfused m (tr :: rest) ->
  exists T', T ⊆ T' /\ extending P T' unfused (extend_one std_exp c unfused m tr) rest.
Proof.
  intros Hdisj [HT Hsub Hok].
  assert (exists T', T ⊆ T' /\ extending P T' unfused
    {| mt_events := mt_events m; mt_processed := mt_processed m; mt_trackers := mt_trackers m ++ [tr] |} rest) as Hkeep.
  { exists T. split; [done|]. split; [done|done|]. cbn. by rewrite <- app_assoc. }
  unfold extend_one. destruct (tr_canBeFusedAgain tr) eqn:Ec; [|exact Hkeep]. cbn [negb].
  destruct (best_match _ _ _ _ _) as [[j|] s] eqn:Eb; [|exact Hkeep].
  destruct (SFleb _ s); [|exact Hkeep]. clear Hkeep.
  apply best_match_found in Eb as [Hj Ej]. apply judge_extension_consider in Ej as [Hjp Hpipe].
  exists (T ∪ {[j]}). split; [set_solver|]. destruct Hok as [He Hs Ht].
  apply Forall_app in Ht as [Ht1 Ht2]. apply Forall_cons in Ht2 as [Htr Ht2].
  split; cbn [mt_processed mt_events mt_trackers]; [by rewrite HT|set_solver|]. split.
  - by rewrite He, mark_processed_mark_set, union_assoc_L.
  - rewrite union_assoc_L, ids_at_add by (rewrite HT in Hjp; set_solver).
    rewrite <- Hs, <- app_assoc. cbn [app]. rewrite !map_app, !concat_app. cbn [map concat extend_tracker tr_sourceEventIds].
    rewrite He, event_at_mark_set by done. rewrite <- !app_assoc. cbn [app].
    rewrite !app_assoc. symmetry. apply Permutation_middle.
  - rewrite <- app_assoc. apply Forall_app_2; [done|]. constructor; [|done].
    rewrite He, pipeline_mark in Hpipe. rewrite He. by apply extend_tracker_ok.
Qed.

Lemma extend_all_ok P T unfused m rest :
  (forall k, k ∈ unfused -> k ∉ P) -> extending P T unfused m rest ->
  exists T', T ⊆ T' /\ extending P T' unfused (foldl (extend_one std_exp c unfused) m rest) [].
Proof.
  intros Hd. revert T m. induction rest as [|tr rest IH]; intros T m Hx; [by exists T|].
  destruct (extend_one_ok _ _ _ _ _ _ Hd Hx) as (T1 & Hs1 & Hx1).
  destruct (IH _ _ Hx1) as (T2 & Hs2 & Hx2). exists T2. split; [set_solver|exact Hx2].
Qed.

Lemma extend_iterations_ok fuel P unfused evs trackers :
  (forall k, k ∈ unfused -> k ∉ P) -> matching_ok P evs trackers ->
  let r := extend_iterations std_exp c fuel unfused evs trackers in
  exists P', P' ⊆ P ∪ list_to_set unfused /\ matching_ok P' r.1 r.2.
Proof.
  revert P unfused evs trackers. induction fuel as [|fuel IH]; intros P unfused evs trackers Hd Hok;
    [exists P; split; [set_solver|done]|].
  cbn [extend_iterations]. case_bool_decide; [exists P; split; [set_solver|done]|].
  destruct (extend_all_ok P ∅ unfused {| mt_events := evs; mt_processed := ∅; mt_trackers := [] |} trackers Hd)
    as (T & _ & [HT Hsub Hok']); [split; [done|set_solver|by rewrite union_empty_r_L]|].
  rewrite app_nil_r in Hok'. set (m := foldl _ _ _) in *. rewrite HT.
  case_bool_decide; [exists (P ∪ T); split; [set_solver|done]|].
  destruct (IH (P ∪ T) (filter (fun i => i ∉ T) unfused) (mt_events m) (mt_trackers m)) as (P' & Hs' & Hok'');
    [intros k; rewrite list_elem_of_filter; set_solver|done|].
  exists P'. split; [|done]. etransitivity; [exact Hs'|].
  intros k. rewrite !elem_of_union, !elem_of_list_to_set, list_elem_of_filter. set_solver.
Qed.

(** ** One queue *)

Lemma match_events_ok processedIds :
  let r := match_events std_exp sort_by_time c events processedIds in
  exists P, (forall k, k ∈ P -> k ∈ unprocessed_indices events processedIds) /\ matching_ok P r.1 r.2.
Proof.
  assert (matching_ok ∅ events []) as Hok0 by (split; [by rewrite mark_set_empty|done|done]).
  unfold match_events. destruct (_ <=? 1)%nat; [exists ∅; split; [set_solver|exact Hok0]|].
  set (un := unprocessed_indices events processedIds). set (ix := sort_by_time events un).
  assert (ix ≡ₚ un) as Hperm by apply sort_permutes.
  assert (NoDup ix) as Hnd by (rewrite Hperm; apply NoDup_filter, NoDup_seq).
  destruct (fuse_pairs_ok ix {| mt_events := events; mt_processed := ∅; mt_trackers := [] |} Hnd Hok0) as [Hok1 Hsub1].
  set (m := fuse_pairs _ _ _ _) in *. cbn [mt_processed] in Hsub1.
  assert (forall k, k ∈ mt_processed m -> k ∈ un) as Hin by (intros k Hk; rewrite <- Hperm; set_solver).
  destruct (_ <=? 2); [by exists (mt_processed m)|]. case_bool_decide; [by exists (mt_processed m)|].
  destruct (extend_iterations_ok (Z.to_nat (fc_maxSupportedPipelines c - 2)) (mt_processed m)
              (filter (fun i => i ∉ mt_processed m) ix) (mt_events m) (mt_trackers m)) as (P' & Hs & Hok');
    [intros k; rewrite list_elem_of_filter; by intros []|exact Hok1|].
  exists P'. split; [|exact Hok']. intros k Hk. apply Hs in Hk.
  rewrite elem_of_union, elem_of_list_to_set, list_elem_of_filter in Hk.
  destruct Hk as [?|[_ Hk]]; [auto|by rewrite <- Hperm].
Qed.

(** The ids that leave are ids that were open. *)
Lemma match_events_conserves processedIds :
  let r := match_events std_exp sort_by_time c events processedIds in
  open_ids events ≡ₚ concat (map tr_sourceEventIds r.2) ++ open_ids r.1 /\ Forall (tracker_ok c events) r.2.
Proof.
  cbn zeta. destruct (match_events_ok processedIds) as (P & HP & [He Hs Ht]). split; [|done].
  rewrite Hs, He. apply open_ids_mark_set. intros k Hk. apply HP, unprocessed_spec in Hk as (e & ? & ? & _). eauto.
Qed.
End matching.

(** ** The whole engine *)

Definition pending_of (q : gmap EventType (list SafetyEvent)) : list Z :=
  concat (map (fun kv => open_ids kv.2) (map_to_list q)).

(** The ids still waiting. *)
Definition pending (s : FusionEngine) : list Z := pending_of (fe_eventTypeQueues s).

Lemma pending_insert q t l :
  pending_of (<[t := l]> q) ≡ₚ open_ids l ++ pending_of (delete t q).
Proof.
  unfold pending_of. rewrite <- insert_delete_eq, map_to_list_insert by apply lookup_delete_eq. done.
Qed.

Lemma pending_lookup q t l : q !! t = Some l -> pending_of q ≡ₚ open_ids l ++ pending_of (delete t q).
Proof. intros H. unfold pending_of. by rewrite <- (map_to_list_delete q t l H). Qed.

Lemma pending_default q t : pending_of q ≡ₚ open_ids (default [] (q !! t)) ++ pending_of (delete t q).
Proof. destruct (q !! t) eqn:E; [by apply pending_lookup|]. cbn. by rewrite delete_id. Qed.

Lemma pending_replace q t l' moved :
  open_ids (default [] (q !! t)) ≡ₚ moved ++ open_ids l' -> pending_of q ≡ₚ moved ++ pending_of (<[t := l']> q).
Proof. intros H. by rewrite (pending_default q t), H, pending_insert, app_assoc. Qed.

Lemma open_ids_filter (P : SafetyEvent -> Prop) `{!forall e, Decision (P e)} l :
  (forall e, e ∈ l -> se_processed e = false -> P e) -> open_ids (filter P l) = open_ids l.
Proof.
  unfold open_ids. induction l as [|e l IH]; intros HP; [done|]. rewrite !filter_cons.
  assert (map se_id (filter (fun e => se_processed e = false) (filter P l))
          = map se_id (filter (fun e => se_processed e = false) l)) as E by (apply IH; set_solver).
  destruct (decide (P e)) as [|HnP], (decide (se_processed e = false)) as [He|];
    rewrite ?filter_cons, ?decide_True, ?decide_False by done; cbn; try congruence.
  destruct HnP. apply HP; set_solver.
Qed.

Lemma pending_filter (P : SafetyEvent -> Prop) `{!forall e, Decision (P e)} q :
  (forall t l e, q !! t = Some l -> e ∈ l -> se_processed e = false -> P e) ->
  pending_of (filter P <$> q) ≡ₚ pending_of q.
Proof.
  induction q as [|t l q Ht IH] using map_ind; intros HP; [done|].
  rewrite fmap_insert, !pending_insert, !delete_id by (rewrite ?lookup_fmap, ?Ht; done).
  f_equiv; [|apply IH; intros t' l' e Hl; apply (HP t' l'); rewrite lookup_insert_ne; [done|by intros ->; congruence]].
  rewrite open_ids_filter; [done|]. intros e He. eapply HP; [apply lookup_insert_eq|done].
Qed.

(** ** Histories

    A history is an engine with what it accepted, the sources behind every event
    it has output, and the output already taken away by [ClearFusedEvents]. *)

Inductive FusionCall :=
| CallNew (ts : timespec) (event : SafetyEvent)
| CallPerform
| CallUnmatched (ts : timespec)
| CallClean
| CallClearFused (count : nat)
| CallRegister (pipelineId : Z)
| CallThreshold (t : spec_float)
| CallWindow (w : Z)
| CallTolerance (t : Z)
| CallWeights (a b g : spec_float)
| CallTrajectory (n : Z)
| CallMaxPipelines (n : Z)
| CallEarlyThreshold (t : spec_float)
| CallEarly (b : bool).

Record History := {
  h_engine : FusionEngine;
  h_accepted : list Z;
  h_sources : list (list Z);
  h_delivered : list FusedSafetyEvent;
}.

Section histories.
Variable std_exp : spec_float -> spec_float.
Variable sort_by_time : list SafetyEvent -> list nat -> list nat.
Variable map_order : gmap EventType (list SafetyEvent) -> list EventType.

Definition plain (r : FusionEngine * NvPSSDErr) : FusionResult := mkResult r.1 r.2 [].

Definition fusion_call (call : FusionCall) (s : FusionEngine) : FusionResult :=
  match call with
  | CallNew ts event => ProcessNewSafetyEvent ts event s
  | CallPerform => PerformSafetyEventFusion std_exp sort_by_time s
  | CallUnmatched ts => ProcessUnmatchedEvents map_order ts s
  | CallClean => CleanProcessedEvents s
  | CallClearFused count => ClearFusedEvents count s
  | CallRegister p => plain (RegisterPipeline p s)
  | CallThreshold t => plain (SetFusionThreshold t s)
  | CallWindow w => plain (SetTimeWindowSize w s)
  | CallTolerance t => plain (SetTemporalTolerance t s)
  | CallWeights a b g => plain (SetFusionWeights a b g s)
  | CallTrajectory n => plain (SetTrajectoryCount n s)
  | CallMaxPipelines n => plain (SetMaxPipelines n s)
  | CallEarlyThreshold t => plain (SetEarlyTerminationThreshold t s)
  | CallEarly b => plain (EnableEarlyTermination b s)
  end.

(** The id a successful call takes in. *)
Definition taken_in (call : FusionCall) (code : NvPSSDErr) : list Z :=
  match call, code with
  | CallNew _ event, NVPSSD_SUCCESS => [se_id event]
  | _, _ => []
  end.

(** What a successful call takes away. *)
Definition taken_out (call : FusionCall) (code : NvPSSDErr) (s : FusionEngine) : list FusedSafetyEvent :=
  match call, code with
  | CallClearFused count, NVPSSD_SUCCESS => take count (fe_fusedEvents s)
  | _, _ => []
  end.

Definition history_step (h : History) (call : FusionCall) : History :=
  let r := fusion_call call (h_engine h) in
  {| h_engine := fr_state r;
     h_accepted := h_accepted h ++ taken_in call (fr_code r);
     h_sources := h_sources h ++ fr_sources r;
     h_delivered := h_delivered h ++ taken_out call (fr_code r) (h_engine h) |}.

Definition history_start (config : FusionConfig) : History := {|
  h_engine := SafetyEventFusion config; h_accepted := []; h_sources := []; h_delivered := [] |}.

Definition history (config : FusionConfig) (calls : list FusionCall) : History :=
  foldl history_step (history_start config) calls.

(** Events arrive with their [processed] flag clear. *)
Definition fresh_call (call : FusionCall) : Prop :=
  match call with CallNew _ event => se_processed event = false | _ => True end.

(** An output event and the sources behind it: one source is passed through
    (or marked stale) under its id; two or more are fused under the first id. *)
Definition output_for (e : FusedSafetyEvent) (sources : list Z) : Prop :=
  List.hd_error sources = Some (ev_id e) /\
  ((length sources = 1%nat /\ ev_status e <> FUSED) \/ ((2 <= length sources)%nat /\ ev_status e = FUSED)).

(** One operation moves ids from waiting to output and records the ids that
    left by matching or release. *)
Record moves (s : FusionEngine) (taken : list Z) (s' : FusionEngine) (log : list (list Z)) : Prop := {
  mv_pending : taken ++ pending s ≡ₚ concat log ++ pending s';
  mv_processed : forall id, id ∈ fe_processedEventIds s' -> id ∈ fe_processedEventIds s \/ id ∈ concat log;
  mv_output : exists out, fe_fusedEvents s' = fe_fusedEvents s ++ out /\ Forall2 output_for out log;
}.

Lemma moves_refl s : moves s [] s [].
Proof. split; [done|by left|]. exists []. by rewrite app_nil_r. Qed.

Lemma moves_trans s1 s2 s3 l1 l2 : moves s1 [] s2 l1 -> moves s2 [] s3 l2 -> moves s1 [] s3 (l1 ++ l2).
Proof.
  intros [P1 R1 (o1 & E1 & F1)] [P2 R2 (o2 & E2 & F2)]. cbn in *. split.
  - cbn. by rewrite P1, P2, concat_app, app_assoc.
  - intros id Hid. rewrite concat_app. destruct (R2 _ Hid) as [H|H]; [apply R1 in H as []|]; set_solver.
  - exists (o1 ++ o2). rewrite E2, E1, app_assoc. split; [done|by apply Forall2_app].
Qed.

Lemma fold_types_moves f types s :
  (forall s t, let r := f s t in moves s [] r.1 r.2) ->
  let r := fold_types f types s in moves s [] r.1 r.2.
Proof.
  intros Hf. unfold fold_types.
  enough (forall s0 log, moves s [] s0 log ->
    let r := foldl (fun '(s, log) t => let '(s', l) := f s t in (s', log ++ l)) (s0, log) types in moves s [] r.1 r.2) as H
    by apply H, moves_refl.
  induction types as [|t types IH]; intros s0 log Hm; [done|]. cbn.
  pose proof (Hf s0 t) as H. destruct (f s0 t) as [s' l]. apply IH. by eapply moves_trans.
Qed.

Hypothesis sort_permutes : forall events l, sort_by_time events l ≡ₚ l.

Lemma process_type_moves s t :
  let r := ProcessSafetyEvents std_exp sort_by_time s t in moves s [] r.1 r.2.
Proof.
  unfold ProcessSafetyEvents. destruct (fe_eventTypeQueues s !! t) as [[|e l]|] eqn:Eq; try apply moves_refl.
  destruct (match_events _ _ _ _ _) as [events' trackers] eqn:Em.
  destruct (match_events_conserves std_exp sort_by_time sort_permutes (fe_config s) (e :: l) (fe_processedEventIds s)) as [Hp Ht].
  rewrite Em in Hp, Ht. cbn [fst snd] in *. split.
  - unfold pending. cbn. apply pending_replace. by rewrite Eq.
  - cbn. intros id. rewrite elem_of_union, elem_of_list_to_set. done.
  - cbn. eexists; split; [done|]. clear -Ht. induction Ht as [|tr trs Htr Hts IH]; constructor; [|done].
    split; [apply Htr|]. right. split; apply Htr.
Qed.

Lemma release_type_moves cutoff s t : let r := release_type cutoff s t in moves s [] r.1 r.2.
Proof.
  unfold release_type. set (q := fe_eventTypeQueues s). set (l := default [] (q !! t)).
  set (released := filter _ l). cbn [fst snd].
  assert (concat (map (fun e => [se_id e]) released) = map se_id released) as Ec
    by (clearbody released; induction released as [|x r IH]; cbn; [done|by rewrite IH]).
  split.
  - unfold pending. cbn. rewrite Ec. apply pending_replace. fold q l. unfold open_ids, released. clear.
    induction l as [|e l IH]; [done|]. cbn [map]. destruct (unmatched cutoff e) eqn:Eu.
    + assert (se_processed e = false) by (unfold unmatched in Eu; by bool_prop).
      rewrite filter_cons_True, (filter_cons_True (fun e => unmatched cutoff e = true)), filter_cons_False by done. cbn. by rewrite <- IH.
    + rewrite (filter_cons_False (fun e => unmatched cutoff e = true)) by (by rewrite Eu).
      rewrite !(filter_cons (fun e => se_processed e = false)). destruct (decide _); cbn; [|done].
      rewrite IH. apply Permutation_middle.
  - cbn. intros id. rewrite elem_of_union, elem_of_list_to_set, Ec. done.
  - cbn. eexists; split; [done|]. clearbody released. clear.
    induction released as [|e r IH]; cbn; constructor; [|done]. split; [done|left; by split].
Qed.

(** Operations that only change the configuration or the registrations. *)
Definition same_events (s s' : FusionEngine) : Prop :=
  fe_eventTypeQueues s' = fe_eventTypeQueues s /\ fe_processedEventIds s' = fe_processedEventIds s
  /\ fe_fusedEvents s' = fe_fusedEvents s.

Lemma same_events_moves s s' : same_events s s' -> moves s [] s' [].
Proof.
  intros (Eq & Ep & Ef). split; [unfold pending; by rewrite Eq|rewrite Ep; by left|].
  exists []. by rewrite app_nil_r.
Qed.

Lemma register_same s p : same_events s (RegisterPipeline p s).1.
Proof. unfold RegisterPipeline. by case_match. Qed.

Lemma new_moves ts event s :
  se_processed event = false ->
  let r := ProcessNewSafetyEvent ts event s in
  moves s (taken_in (CallNew ts event) (fr_code r)) (fr_state r) (fr_sources r).
Proof.
  intros Hp. unfold ProcessNewSafetyEvent.
  assert (forall st : bool, moves s [se_id event] (fe_output [CreatePassThroughEvent event st] [] s) [[se_id event]]) as Hout.
  { intros st. split; cbn; [done|set_solver|]. eexists; split; [done|]. constructor; [|done].
    split; [done|]. left. by destruct st. }
  destruct (window_cutoff _ _) as [cutoff|]; [|apply moves_refl].
  destruct (_ <? cutoff); [apply Hout|]. destruct (_ =? 0); [apply Hout|]. clear Hout.
  destruct (_ <? _); [apply moves_refl|].
  destruct (register_same s (fm_pipelineID (se_fusionMetadata event))) as (Eq & Ei & Ef).
  set (s1 := (RegisterPipeline _ s).1) in *. split; cbn.
  - unfold pending. cbn. rewrite Eq, pending_insert, (pending_default (fe_eventTypeQueues s) (se_type event)).
    rewrite app_comm_cons. f_equiv. unfold open_ids. rewrite filter_app, filter_cons_True, filter_nil, map_app by done.
    cbn. apply Permutation_cons_append.
  - rewrite Ei. by left.
  - exists []. rewrite Ef, app_nil_r. done.
Qed.

Record history_ok (h : History) : Prop := {
  hok_conserved : h_accepted h ≡ₚ pending (h_engine h) ++ concat (h_sources h);
  hok_processed : forall id, id ∈ fe_processedEventIds (h_engine h) -> id ∈ concat (h_sources h);
  hok_output : Forall2 output_for (h_delivered h ++ fe_fusedEvents (h_engine h)) (h_sources h);
}.

Lemma history_ok_moves h call :
  history_ok h ->
  let r := fusion_call call (h_engine h) in
  moves (h_engine h) (taken_in call (fr_code r)) (fr_state r) (fr_sources r) ->
  taken_out call (fr_code r) (h_engine h) = [] ->
  history_ok (history_step h call).
Proof.
  intros [Hc Hp Ho] r [Mp Mi (out & Mo & Mf)] Ht. split; cbn; fold r.
  - rewrite Hc, concat_app, Permutation_app_comm, app_assoc, Mp, (Permutation_app_comm (concat (fr_sources r))).
    rewrite <- app_assoc. f_equiv. apply Permutation_app_comm.
  - intros id Hid. rewrite concat_app. destruct (Mi _ Hid) as [H|H]; [apply Hp in H|]; set_solver.
  - rewrite Ht, app_nil_r, Mo, app_assoc. by apply Forall2_app.
Qed.

Lemma pending_elem q t l e : q !! t = Some l -> e ∈ l -> se_processed e = false -> se_id e ∈ pending_of q.
Proof.
  intros Hq He Hp. rewrite (pending_lookup _ _ _ Hq). apply elem_of_app. left.
  unfold open_ids. apply list_elem_of_fmap. exists e. split; [done|]. by apply list_elem_of_filter.
Qed.

Lemma clean_moves h :
  history_ok h -> NoDup (h_accepted h) ->
  moves (h_engine h) [] (fr_state (CleanProcessedEvents (h_engine h))) [].
Proof.
  intros [Hc Hp _] Hnd. rewrite Hc in Hnd. apply NoDup_app in Hnd as (_ & Hdisj & _).
  split; [|by left|exists []; by rewrite app_nil_r].
  unfold pending. cbn. symmetry. apply pending_filter. intros t l e Hq He Hpr [Hpr'|Hid]; [congruence|].
  apply (Hdisj (se_id e)); [by eapply pending_elem|by apply Hp].
Qed.

Lemma clear_fused_ok h count : history_ok h -> history_ok (history_step h (CallClearFused count)).
Proof.
  intros [Hc Hp Ho]. unfold history_step. cbn. unfold ClearFusedEvents.
  destruct (_ || _); split; cbn; rewrite ?app_nil_r; try done.
  by rewrite <- app_assoc, take_drop.
Qed.

Lemma history_step_ok h call :
  history_ok h -> fresh_call call -> NoDup (h_accepted (history_step h call)) -> history_ok (history_step h call).
Proof.
  intros Hok Hf Hnd. destruct call; try (apply clear_fused_ok; done);
    try (apply history_ok_moves; [done| |done]; cbn;
         apply same_events_moves; unfold SetFusionThreshold, SetTimeWindowSize, SetTemporalTolerance, SetFusionWeights,
           SetTrajectoryCount, SetMaxPipelines, SetEarlyTerminationThreshold, EnableEarlyTermination, RegisterPipeline;
         repeat case_match; done).
  - apply history_ok_moves; [done| |by destruct (fr_code _)]. by apply new_moves.
  - apply history_ok_moves; [done| |done]. cbn. unfold PerformSafetyEventFusion.
    pose proof (fold_types_moves _ fusion_types (h_engine h) process_type_moves) as H.
    destruct (fold_types _ _ _). exact H.
  - apply history_ok_moves; [done| |by destruct (fr_code _)]. cbn. unfold ProcessUnmatchedEvents.
    destruct (window_cutoff _ _) as [cutoff|]; [|apply moves_refl].
    pose proof (fold_types_moves _ (map_order (fe_eventTypeQueues (h_engine h))) (h_engine h) (release_type_moves cutoff)) as H.
    destruct (fold_types _ _ _). exact H.
  - apply history_ok_moves; [done| |done]. cbn. apply clean_moves; [done|].
    cbn in Hnd. by rewrite app_nil_r in Hnd.
Qed.

Lemma history_prefix h calls : h_accepted h `prefix_of` h_accepted (foldl history_step h calls).
Proof.
  revert h. induction calls as [|call calls IH]; intros h; [done|]. cbn. etransitivity; [|apply IH].
  cbn. by apply prefix_app_r.
Qed.

Lemma history_ok_run h calls :
  history_ok h -> Forall fresh_call calls -> NoDup (h_accepted (foldl history_step h calls)) ->
  history_ok (foldl history_step h calls).
Proof.
  revert h. induction calls as [|call calls IH]; intros h Hok Hf Hnd; [done|].
  apply Forall_cons in Hf as [Hf Hfs]. cbn in *. apply IH; [|done|done].
  apply history_step_ok; [done|done|].
  destruct (history_prefix (history_step h call) calls) as [k Ek]. rewrite Ek in Hnd. by apply NoDup_app in Hnd as [? _].
Qed.


End histories.

(** ** Release *)

Section release.
Variable std_exp : spec_float -> spec_float.
Variable sort_by_time : list SafetyEvent -> list nat -> list nat.
Variable map_order : gmap EventType (list SafetyEvent) -> list EventType.
Hypothesis map_order_keys : forall q, map_order q ≡ₚ elements (dom q).

(** No event of the queue of type [t] is both unprocessed and older than the
    cutoff. *)
Definition released (cutoff : Z) (s : FusionEngine) (t : EventType) : Prop :=
  forall l e, fe_eventTypeQueues s !! t = Some l -> e ∈ l -> unmatched cutoff e = false.

Lemma release_type_releases cutoff s t t' :
  (t' = t \/ released cutoff s t') -> released cutoff (release_type cutoff s t).1 t'.
Proof.
  intros H l e. cbn. destruct (decide (t' = t)) as [->|Hne].
  - rewrite lookup_insert_eq. intros [= <-] He. apply list_elem_of_fmap in He as (x & -> & _).
    destruct (unmatched cutoff x) eqn:E; [done|exact E].
  - rewrite lookup_insert_ne by done. destruct H as [|H]; [done|apply H].
Qed.

Lemma release_all cutoff types s :
  let s' := (fold_types (release_type cutoff) types s).1 in
  (forall t, t ∈ types \/ released cutoff s t -> released cutoff s' t)
  /\ (forall t, t ∈ dom (fe_eventTypeQueues s') -> t ∈ dom (fe_eventTypeQueues s) \/ t ∈ types).
Proof.
  unfold fold_types.
  enough (forall log,
    let s' := (foldl (fun '(s, log) t => let '(s', l) := release_type cutoff s t in (s', log ++ l)) (s, log) types).1 in
    (forall t, t ∈ types \/ released cutoff s t -> released cutoff s' t)
    /\ (forall t, t ∈ dom (fe_eventTypeQueues s') -> t ∈ dom (fe_eventTypeQueues s) \/ t ∈ types)) as H by apply H.
  revert s. induction types as [|t0 types IH]; intros s log; [split; [set_solver|by left]|]. cbn [foldl].
  destruct (release_type cutoff s t0) as [s1 l1] eqn:E. destruct (IH s1 (log ++ l1)) as [IH1 IH2]. split.
  - intros t Ht. apply IH1. rewrite elem_of_cons in Ht.
    assert (t = t0 \/ released cutoff s t -> released cutoff s1 t) as H1
      by (intros; replace s1 with (release_type cutoff s t0).1 by (by rewrite E); by apply release_type_releases).
    destruct Ht as [[->|]|]; auto.
  - intros t Ht. apply IH2 in Ht as [Ht|]; [|set_solver].
    replace s1 with (release_type cutoff s t0).1 in Ht by (by rewrite E). cbn in Ht. set_solver.
Qed.

(** The three fusion stages of one processor tick. *)
Definition fusion_tick (ts : timespec) (s : FusionEngine) : FusionEngine :=
  fr_state (CleanProcessedEvents (fr_state (ProcessUnmatchedEvents map_order ts
    (fr_state (PerformSafetyEventFusion std_exp sort_by_time s))))).

(** No event waits past the time window: after a processor tick at time [ts]
    every event still queued is unprocessed and no older than the window, so an
    unmatched event leaves with the first tick after its window ends. *)
Theorem fusion_tick_flushes (ts : timespec) (cutoff : Z) (s : FusionEngine) :
  let performed := fr_state (PerformSafetyEventFusion std_exp sort_by_time s) in
  window_cutoff ts (fc_timeWindowSize (fe_config performed)) = Some cutoff ->
  forall t l e, fe_eventTypeQueues (fusion_tick ts s) !! t = Some l -> e ∈ l ->
  se_processed e = false /\ cutoff <= se_timestamp e.
Proof.
  intros performed Hc t l e Hl He. unfold fusion_tick in Hl. fold performed in Hl.
  unfold ProcessUnmatchedEvents in Hl. rewrite Hc in Hl.
  destruct (release_all cutoff (map_order (fe_eventTypeQueues performed)) performed) as [H1 H2].
  destruct (fold_types _ _ _) as [s1 log]. cbn in *.
  rewrite lookup_fmap in Hl. destruct (fe_eventTypeQueues s1 !! t) as [l1|] eqn:E1; [|done]. cbn in Hl.
  injection Hl as <-. apply list_elem_of_filter in He as [Hk He].
  assert (se_processed e = false) as Hp by (destruct (se_processed e); tauto).
  assert (released cutoff s1 t) as Hr.
  { apply H1. left. rewrite map_order_keys, elem_of_elements.
    destruct (H2 t) as [|Ht]; [by apply elem_of_dom|done|]. by rewrite map_order_keys, elem_of_elements in Ht. }
  specialize (Hr _ _ E1 He). unfold unmatched in Hr. rewrite Hp in Hr. cbn in Hr. bool_prop. auto.
Qed.
End release.

(** ** The search window *)

(** The search without its early exit. *)
Definition no_stop (v : candidate_verdict) : candidate_verdict := match v with StopSearch => Skip | _ => v end.

Lemma best_match_all_skip c judge js best sim :
  (forall j, j ∈ js -> judge j = Skip) -> best_match c judge js best sim = (best, sim).
Proof. induction js as [|j js IH]; intros H; [done|]. cbn. rewrite (H j) by set_solver. apply IH. set_solver. Qed.

Lemma judge_pair_past_window std_exp c events P i j :
  max_time c (time_at events i) < time_at events j -> no_stop (judge_pair std_exp c events P i j) = Skip.
Proof.
  intros H. unfold judge_pair. case_bool_decide; [done|]. cbn zeta. fold (time_at events i) (time_at events j).
  by rewrite (proj2 (Z.ltb_lt _ _) H).
Qed.

(** Over candidates in timestamp order, leaving the search at the first one past
    the window finds the same match as comparing with all of them. *)
Lemma window_exit_exact std_exp c events P i later best sim :
  StronglySorted (fun j k => time_at events j <= time_at events k) later ->
  best_match c (judge_pair std_exp c events P i) later best sim
  = best_match c (fun j => no_stop (judge_pair std_exp c events P i j)) later best sim.
Proof.
  intros Hs. revert best sim. induction Hs as [|j js Hjs IH Hj]; intros best sim; [done|]. cbn.
  destruct (judge_pair std_exp c events P i j) eqn:Ej; cbn [no_stop].
  - apply IH.
  - symmetry. apply best_match_all_skip. intros k Hk. apply judge_pair_past_window.
    rewrite Forall_forall in Hj. specialize (Hj k Hk).
    assert (max_time c (time_at events i) < time_at events j); [|lia].
    unfold judge_pair in Ej. case_bool_decide; [done|]. cbn zeta in Ej. fold (time_at events i) (time_at events j) in Ej.
    destruct (_ <? _) eqn:El; [by apply Z.ltb_lt|].
    destruct (_ <? min_time _ _); [done|]. destruct (_ =? _); [done|]. unfold similarity_verdict in Ej. by case_match.
  - destruct (SFltb sim similarity); [|apply IH]. destruct (_ && _); [done|apply IH].
Qed.

(** C29. Every fused event of a queue is sound: it stands for at least two queued
    events reported by pairwise different pipelines and for no more pipelines
    than are configured, carries the id of its first source and the earliest of
    the sources' timestamps, and is marked FUSED. *)
Theorem fused_events_sound std_exp sort_by_time (c : FusionConfig) (events : list SafetyEvent) (processedIds : gset Z) :
  (forall events l, sort_by_time events l ≡ₚ l) ->
  Forall (tracker_ok c events) (match_events std_exp sort_by_time c events processedIds).2.
Proof. intros Hs. by apply match_events_conserves. Qed.

(** ** An example engine *)

Definition no_later (events : list SafetyEvent) (j k : nat) : Prop := time_at events j <= time_at events k.

#[global] Instance no_later_dec events : RelDecision (no_later events).
Proof. intros j k. unfold no_later. apply _. Defined.

(** One behaviour [std::sort] may have. *)
Definition stable_by_time (events : list SafetyEvent) (l : list nat) : list nat :=
  merge_sort (no_later events) l.

Lemma stable_by_time_permutes events l : stable_by_time events l ≡ₚ l.
Proof. apply merge_sort_Permutation. Qed.

Definition key_order (q : gmap EventType (list SafetyEvent)) : list EventType := elements (dom q).

Lemma key_order_keys q : key_order q ≡ₚ elements (dom q).
Proof. done. Qed.

Definition demo_exp (_ : spec_float) : spec_float := f64_of_Z 1.

Definition demo_config : FusionConfig := {|
  fc_timeWindowSize := 200; fc_fusionThreshold := f32_value 0x3F19999A;
  fc_alpha := f32_value 0x3ECCCCCD; fc_beta := f32_value 0x3ECCCCCD; fc_gamma := f32_value 0x3E4CCCCD;
  fc_temporalTolerance := 100; fc_trajectoryCount := 3; fc_maxSupportedPipelines := 4;
  fc_earlyTerminationThreshold := f32_value 0x3F733333; fc_enableEarlyTermination := false |}.

Definition demo_metadata (pipeline : Z) : EventFusionMetadata := {|
  fm_coordinates := replicate MAX_TRAJECTORY_COORDINATES {| tc_x := 0x3F800000; tc_y := 0x40000000 |};
  fm_pipelineID := pipeline; fm_clientID := pipeline; fm_objectType := (1, 1); fm_speed := 0; fm_objectID := (1, 1) |}.

Definition demo_fusion_event (id type ms pipeline : Z) : SafetyEvent := {|
  se_id := id; se_sensorIdentifier := replicate MAX_INDENTIFIER_LENGTH 0; se_type := type;
  se_timestamp := ms * 1000000; se_confidenceLevel := 0x3F000000; se_processed := false;
  se_fusionMetadata := demo_metadata pipeline; se_cause := CAUSE_NONE; se_integrity := zero_integrity |}.

Definition at_ms (ms : Z) : timespec := {| tv_sec := ms / 1000; tv_nsec := ms mod 1000 * 1000000 |}.

Definition demo_queue : list SafetyEvent :=
  [demo_fusion_event 11 0 1020 3; demo_fusion_event 12 0 1000 1; demo_fusion_event 13 0 1010 2; demo_fusion_event 14 0 1040 3].

Definition demo_calls : list FusionCall :=
  map (CallNew (at_ms 1050)) demo_queue
  ++ [CallNew (at_ms 1050) (demo_fusion_event 15 1 1030 2); CallNew (at_ms 1060) (demo_fusion_event 16 1 700 2);
      CallPerform; CallUnmatched (at_ms 1100); CallClean; CallClearFused 1; CallUnmatched (at_ms 1235); CallClean].

Lemma fused_events_sound_witness :
  Forall (tracker_ok demo_config demo_queue) (match_events demo_exp stable_by_time demo_config demo_queue ∅).2
  /\ map tr_sourceEventIds (match_events demo_exp stable_by_time demo_config demo_queue ∅).2 = [[12; 13; 11]].
Proof. split; [apply fused_events_sound, stable_by_time_permutes|by vm_compute]. Defined.


Definition demo_engine : FusionEngine := h_engine (history demo_exp stable_by_time key_order demo_config (take 6 demo_calls)).

Lemma fusion_tick_flushes_witness :
  let e := demo_fusion_event 14 0 1040 3 in
  fe_eventTypeQueues (fusion_tick demo_exp stable_by_time key_order (at_ms 1235) demo_engine) !! 0 = Some [e]
  /\ 1035000000 <= se_timestamp e.
Proof.
  split; [by vm_compute|].
  eapply (fusion_tick_flushes demo_exp stable_by_time key_order key_order_keys (at_ms 1235) 1035000000 demo_engine
           ltac:(by vm_compute) 0 [demo_fusion_event 14 0 1040 3]); [by vm_compute|set_solver].
Defined.

(** ** Ids that repeat *)

(** The distinct ids are needed: an accepted event whose id has already left
    the engine is removed by [CleanProcessedEvents] without any output.  Here
    two pipelines report one event each under the same id; the second is
    accepted, and afterwards it is neither waiting nor behind an output. *)
Theorem repeated_id_loses_event :
  let h := history demo_exp stable_by_time key_order demo_config
             [CallNew (at_ms 1050) (demo_fusion_event 7 0 1000 1);
              CallPerform; CallUnmatched (at_ms 1250); CallClean;
              CallNew (at_ms 1260) (demo_fusion_event 7 2 1255 2);
              CallPerform; CallUnmatched (at_ms 1270); CallClean] in
  h_accepted h = [7; 7] /\ h_sources h = [[7]] /\ pending (h_engine h) = []
  /\ map ev_type (fe_fusedEvents (h_engine h)) = [0].
Proof. by vm_compute. Qed.

(** The attribute score takes no value between its extremes: one of two
    matching attributes scores like none. *)
Theorem attribute_similarity_all_or_nothing (m1 m2 : EventFusionMetadata) :
  let sameObject := (fm_objectType m1).1 = (fm_objectType m2).1 in
  let sameSpeed := SFltb (SFabs (f32_sub (f32_value (fm_speed m1)) (f32_value (fm_speed m2)))) speedAttributeTolerance = true in
  (sameObject /\ sameSpeed /\ CalculateAttributeSimilarity m1 m2 = f32_value_one)
  \/ (~ (sameObject /\ sameSpeed) /\ CalculateAttributeSimilarity m1 m2 = f32_pos_zero).
Proof.
  cbn zeta. unfold CalculateAttributeSimilarity.
  destruct (Z.eqb_spec (fm_objectType m1).1 (fm_objectType m2).1) as [E|E];
    destruct (SFltb _ _) eqn:Es; cbn [Z.b2z]; [left; by vm_compute|right; split; [by intros []|by vm_compute]..].
Qed.
