(* ===== verification/FusionHealth.v ===== *)
(** * Health of the fusion stages

    [NvPSSSafetyEventManager.hpp]: five stages on two threads; a stage that fails
    without interruption for its threshold raises one fault, which clears only
    when every stage is healthy.  [NvPSSFusionHealthLatch] keeps lock-free streak
    counters and takes the two edge decisions under a mutex.

    The latch is a state machine: each step is one atomic access (or the
    acquisition of the mutex) by one of the two threads, and a schedule
    interleaves them freely.  Atomic accesses are sequentially consistent.

    The audit records of a failing stage ([NvPSSFusionStageEpisode]) are rate
    limited by an episode with hysteresis. *)

From stdpp Require Import functions.
From S2P Require Import Prelude.

Definition NVPSS_FUSION_FAILURE_ERROR_MS_MIN : Z := 100.
Definition NVPSS_FUSION_FAILURE_ERROR_MS_MAX : Z := 60000.
Definition NVPSS_FUSION_FAILURE_ERROR_MS_DEFAULT : Z := 1000.
Definition NVPSS_FUSION_FAILURE_STREAK_MIN : Z := 2.

Definition NvPSSFusionFailureStreakThreshold (errorMs periodUs : Z) : Z :=
  if periodUs =? 0 then NVPSS_FUSION_FAILURE_STREAK_MIN else
  let iterations := u64 (errorMs * 1000) / periodUs in
  if iterations <? NVPSS_FUSION_FAILURE_STREAK_MIN then NVPSS_FUSION_FAILURE_STREAK_MIN
  else if UINT32_MAX <? iterations then UINT32_MAX else u32 iterations.

Definition NvPSSFusionFailureErrorMsIsValid (errorMs : Z) : bool :=
  (NVPSS_FUSION_FAILURE_ERROR_MS_MIN <=? errorMs) && (errorMs <=? NVPSS_FUSION_FAILURE_ERROR_MS_MAX).

(** ** Stages and threads *)

Definition FUSION_STAGE_PROCESS_EVENT : nat := 0.
Definition FUSION_STAGE_PERFORM_FUSION : nat := 1.
Definition FUSION_STAGE_PROCESS_UNMATCHED : nat := 2.
Definition FUSION_STAGE_CLEAN_PROCESSED : nat := 3.
Definition FUSION_STAGE_HANDLE_FUSED : nat := 4.
Definition FUSION_STAGE_COUNT : nat := 5.

Inductive StageThread := InputThread | FusionThread.

(** The input loop runs the first stage, the fusion loop the others. *)
Definition stage_thread (stage : nat) : StageThread :=
  if (stage =? FUSION_STAGE_PROCESS_EVENT)%nat then InputThread else FusionThread.

#[global] Instance StageThread_eq_dec : EqDecision StageThread.
Proof. solve_decision. Defined.

Section thresholds.
Variables (fusionFailureErrorMs inputSafetyEventQuePeriod fusionEventPeriod : Z).

Definition fusionStageStreakThreshold (stage : nat) : Z :=
  NvPSSFusionFailureStreakThreshold fusionFailureErrorMs
    (match stage_thread stage with InputThread => inputSafetyEventQuePeriod | FusionThread => fusionEventPeriod end).
End thresholds.

(** ** The latch *)

(** Where a thread stands inside [noteFailure] or [noteSuccess]. *)
Inductive LatchPc :=
| PcIdle
| PcRaising (stage : nat)  (* over the threshold, waiting for the mutex *)
| PcRaiseLocked (stage : nat)
| PcStored (stage : nat)   (* streak reset, about to read the fault *)
| PcClearing (stage : nat) (* fault seen, waiting for the mutex *)
| PcChecking (i : nat).    (* mutex held, stages below [i] read as zero *)

Record LatchState := {
  ls_streak : nat -> Z;
  ls_error : bool;
  ls_pc : StageThread -> LatchPc;
}.

Definition latch_start : LatchState := {| ls_streak := fun _ => 0; ls_error := false; ls_pc := fun _ => PcIdle |}.

Definition set_pc (t : StageThread) (pc : LatchPc) (st : LatchState) : LatchState := {|
  ls_streak := ls_streak st; ls_error := ls_error st; ls_pc := <[t := pc]> (ls_pc st) |}.

Definition set_streak (stage : nat) (v : Z) (st : LatchState) : LatchState := {|
  ls_streak := <[stage := v]> (ls_streak st); ls_error := ls_error st; ls_pc := ls_pc st |}.

Definition set_error (b : bool) (st : LatchState) : LatchState := {|
  ls_streak := ls_streak st; ls_error := b; ls_pc := ls_pc st |}.

Definition holds_mutex (pc : LatchPc) : bool :=
  match pc with PcRaiseLocked _ | PcChecking _ => true | _ => false end.

Definition other_thread (t : StageThread) : StageThread :=
  match t with InputThread => FusionThread | FusionThread => InputThread end.

Inductive StageOutcome := StageFailed | StageSucceeded.

Section latch.
Variable threshold : nat -> Z.

(** The first access of [noteFailure]. *)
Definition noteFailure_enter (t : StageThread) (stage : nat) (st : LatchState) : LatchState :=
  let streak := u32 (ls_streak st stage + 1) in
  let st1 := set_streak stage streak st in
  if streak <? threshold stage then st1 else set_pc t (PcRaising stage) st1.

(** The first accesses of [noteSuccess]. *)
Definition noteSuccess_enter (t : StageThread) (stage : nat) (st : LatchState) : LatchState :=
  if ls_streak st stage =? 0 then st else set_pc t (PcStored stage) (set_streak stage 0 st).

(** One step of thread [t].  An idle thread starts on the outcome of one of its
    stages; a thread that needs the mutex waits while the other holds it. *)
Definition health_latch_step (st : LatchState) (sched : StageThread * (nat * StageOutcome)) : LatchState :=
  let '(t, (stage, outcome)) := sched in
  let locked := holds_mutex (ls_pc st (other_thread t)) in
  match ls_pc st t with
  | PcIdle =>
    if bool_decide (stage_thread stage = t) && (stage <? FUSION_STAGE_COUNT)%nat then
      match outcome with
      | StageFailed => noteFailure_enter t stage st
      | StageSucceeded => noteSuccess_enter t stage st
      end
    else st
  | PcRaising s => if locked then st else set_pc t (PcRaiseLocked s) st
  | PcRaiseLocked _ => set_pc t PcIdle (set_error true st)
  | PcStored s => set_pc t (if ls_error st then PcClearing s else PcIdle) st
  | PcClearing _ => if locked then st else set_pc t (PcChecking 0) st
  | PcChecking i =>
    if (i <? FUSION_STAGE_COUNT)%nat then
      set_pc t (if ls_streak st i =? 0 then PcChecking (S i) else PcIdle) st
    else set_pc t PcIdle (set_error false st)
  end.

Definition latch_run (schedule : list (StageThread * (nat * StageOutcome))) : LatchState :=
  foldl health_latch_step latch_start schedule.

(** ** The fault is never lost *)

(** The call that must raise the fault for [stage] has not reached it yet. *)
Definition raising (st : LatchState) (stage : nat) : Prop :=
  ls_pc st (stage_thread stage) = PcRaising stage \/ ls_pc st (stage_thread stage) = PcRaiseLocked stage.

Record latch_ok (st : LatchState) : Prop := {
  lok_fault : forall s, threshold s <= ls_streak st s -> ls_error st = true \/ raising st s;
  lok_checked : forall t i s, ls_pc st t = PcChecking i -> (s < i)%nat -> threshold s <= ls_streak st s ->
                ls_pc st (stage_thread s) = PcRaising s;
  lok_mutex : forall t, holds_mutex (ls_pc st t) = true -> holds_mutex (ls_pc st (other_thread t)) = false;
  lok_range : forall s, (FUSION_STAGE_COUNT <= s)%nat -> ls_streak st s = 0;
}.

Hypothesis threshold_min : forall s, NVPSS_FUSION_FAILURE_STREAK_MIN <= threshold s.

Lemma threshold_pos s : 0 < threshold s.
Proof. pose proof (threshold_min s). unfold NVPSS_FUSION_FAILURE_STREAK_MIN in *. lia. Qed.

Lemma pc_eq t pc st : ls_pc (set_pc t pc st) t = pc.
Proof. cbn. apply fn_lookup_insert. Qed.

Lemma pc_ne t t' pc st : t <> t' -> ls_pc (set_pc t pc st) t' = ls_pc st t'.
Proof. intros. cbn. by apply fn_lookup_insert_ne. Qed.

Lemma thread_cases t t' : t' = t \/ t' = other_thread t.
Proof. destruct t, t'; auto. Qed.

Lemma other_ne t : t <> other_thread t.
Proof. by destruct t. Qed.

(** Moving thread [t] to [pc]. *)
Lemma latch_ok_set_pc t pc st :
  latch_ok st ->
  (forall s, stage_thread s = t -> raising st s -> ls_error st = true \/ pc = PcRaising s \/ pc = PcRaiseLocked s) ->
  (forall i s, pc = PcChecking i -> (s < i)%nat -> threshold s <= ls_streak st s ->
     stage_thread s = other_thread t /\ ls_pc st (other_thread t) = PcRaising s) ->
  (forall s, stage_thread s = t -> ls_pc st t = PcRaising s -> pc = PcRaising s \/ holds_mutex (ls_pc st (other_thread t)) = false) ->
  (holds_mutex pc = true -> holds_mutex (ls_pc st (other_thread t)) = false) ->
  latch_ok (set_pc t pc st).
Proof.
  intros [Hf Hc Hm Hr] H1 H2 H3 H4. split.
  - intros s Hs. cbn in Hs. destruct (Hf s Hs) as [?|Hra]; [by left|].
    destruct (thread_cases t (stage_thread s)) as [E|E].
    + destruct (H1 s E Hra) as [?|[->| ->]]; [by left|right; left|right; right]; by rewrite E, pc_eq.
    + right. unfold raising. rewrite E, pc_ne by apply other_ne. rewrite <- E. exact Hra.
  - intros t' i s Hpc Hi Hs. cbn in Hs. destruct (thread_cases t t') as [->| ->].
    + rewrite pc_eq in Hpc. destruct (H2 i s Hpc Hi Hs) as [E ?]. by rewrite E, pc_ne by apply other_ne.
    + rewrite pc_ne in Hpc by apply other_ne. pose proof (Hc _ _ _ Hpc Hi Hs) as Hra.
      destruct (thread_cases t (stage_thread s)) as [E|E]; rewrite E in *.
      * rewrite pc_eq. destruct (H3 s E Hra) as [?|Hno]; [done|]. by rewrite Hpc in Hno.
      * by rewrite pc_ne by apply other_ne.
  - intros t'. destruct (thread_cases t t') as [->| ->].
    + rewrite pc_eq, pc_ne by apply other_ne. exact H4.
    + assert (other_thread (other_thread t) = t) as -> by (by destruct t).
      rewrite pc_ne, pc_eq by apply other_ne. destruct (holds_mutex pc) eqn:E; [|done]. rewrite H4 by done. done.
  - exact Hr.
Qed.

(** A new value of a streak is below the threshold, or its thread is about to
    raise. *)
Lemma latch_ok_streak stage v st :
  (stage < FUSION_STAGE_COUNT)%nat -> v < threshold stage -> latch_ok st -> latch_ok (set_streak stage v st).
Proof.
  intros Hs Hv [Hf Hc Hm Hr]. split; cbn.
  - intros s. destruct (decide (stage = s)) as [->|]; [rewrite fn_lookup_insert; lia|].
    rewrite fn_lookup_insert_ne by done. apply Hf.
  - intros t i s. destruct (decide (stage = s)) as [->|]; [rewrite fn_lookup_insert; lia|].
    rewrite fn_lookup_insert_ne by done. apply Hc.
  - exact Hm.
  - intros s Hle. rewrite fn_lookup_insert_ne by lia. by apply Hr.
Qed.

Lemma noteFailure_over t stage v st :
  (stage < FUSION_STAGE_COUNT)%nat -> stage_thread stage = t -> ls_pc st t = PcIdle -> latch_ok st ->
  latch_ok (set_pc t (PcRaising stage) (set_streak stage v st)).
Proof.
  intros Hs Ht Hidle [Hf Hc Hm Hr].
  assert (forall s, stage_thread s = t -> ~ raising st s) as Hnr by (intros s E [H|H]; rewrite E, Hidle in H; done).
  split.
  - intros s. cbn. destruct (decide (stage = s)) as [<-|Hne].
    + intros _. right. left. by rewrite Ht, pc_eq.
    + rewrite fn_lookup_insert_ne by done. intros Hle. destruct (Hf s Hle) as [?|Hra]; [by left|]. right.
      destruct (thread_cases t (stage_thread s)) as [E|E]; [by destruct (Hnr s E)|].
      unfold raising. rewrite E, pc_ne by apply other_ne. rewrite <- E. exact Hra.
  - intros t' i s Hpc Hi Hle. destruct (thread_cases t t') as [->| ->]; [by rewrite pc_eq in Hpc|].
    rewrite pc_ne in Hpc by apply other_ne. cbn in Hpc. cbn in Hle. destruct (decide (stage = s)) as [<-|Hne].
    + by rewrite Ht, pc_eq.
    + rewrite fn_lookup_insert_ne in Hle by done. pose proof (Hc _ _ _ Hpc Hi Hle) as Hra.
      destruct (thread_cases t (stage_thread s)) as [E|E]; rewrite E in *; [congruence|].
      by rewrite pc_ne by apply other_ne.
  - intros t'. destruct (thread_cases t t') as [->| ->]; [by rewrite pc_eq|].
    assert (other_thread (other_thread t) = t) as -> by (by destruct t). by rewrite pc_eq.
  - intros s Hle. cbn. rewrite fn_lookup_insert_ne by lia. by apply Hr.
Qed.

Lemma health_latch_step_ok st sched : latch_ok st -> latch_ok (health_latch_step st sched).
Proof.
  intros Hok. destruct sched as [t [stage outcome]]. unfold health_latch_step.
  destruct (ls_pc st t) as [|s|s|s|s|i] eqn:Epc.
  - case_bool_decide as Ht; [|done]. destruct (stage <? _)%nat eqn:Es; [|done]. apply Nat.ltb_lt in Es. cbn [andb].
    destruct outcome.
    + unfold noteFailure_enter. case_match; [apply latch_ok_streak; [done|lia|done]|by apply noteFailure_over].
    + unfold noteSuccess_enter. case_match; [done|]. apply latch_ok_set_pc; try done.
      * apply latch_ok_streak; [done|apply threshold_pos|done].
      * intros s E [H0|H0]; cbn in H0; rewrite E, Epc in H0; done.
      * cbn. intros s E H0. congruence.
  - destruct (holds_mutex _) eqn:El; [done|]. apply latch_ok_set_pc; try done; [|auto].
    intros s' E [H0|H0]; rewrite E, Epc in H0; simplify_eq; auto.
  - pose proof (lok_mutex _ Hok t ltac:(by rewrite Epc)) as Hno.
    assert (latch_ok (set_error true st)) as Hok1.
    { destruct Hok as [Hf Hc Hm Hr]. split; try done. by left. }
    apply latch_ok_set_pc; try done; [by left|by right].
  - apply latch_ok_set_pc; try done.
    + intros s' E [H0|H0]; rewrite E, Epc in H0; done.
    + intros i s'. by destruct (ls_error st).
    + intros s' E H0. congruence.
    + by destruct (ls_error st).
  - destruct (holds_mutex _) eqn:El; [done|]. apply latch_ok_set_pc; try done.
    + intros s' E [H0|H0]; rewrite E, Epc in H0; done.
    + intros i s' [= <-] Hi. lia.
    + by right.
  - pose proof (lok_mutex _ Hok t ltac:(by rewrite Epc)) as Hno.
    destruct (i <? _)%nat eqn:Ei.
    + apply latch_ok_set_pc; try done.
      * intros s' E [H0|H0]; rewrite E, Epc in H0; done.
      * intros i' s'. destruct (ls_streak st i =? 0) eqn:Ez; [|done]. intros [= <-] Hi Hle.
        assert (s' <> i) by (intros ->; pose proof (threshold_pos i); lia).
        pose proof (lok_checked _ Hok t i s' Epc ltac:(lia) Hle) as Hra.
        destruct (thread_cases t (stage_thread s')) as [E|E]; rewrite E in Hra; [congruence|done].
      * by right.
    + assert (latch_ok (set_error false st)) as Hok1.
      { destruct Hok as [Hf Hc Hm Hr]. split; try done. intros s Hle. cbn in Hle. right. left.
        apply (Hc t i); [done| |done]. apply Nat.ltb_ge in Ei.
        destruct (Nat.lt_ge_cases s i); [done|]. rewrite (Hr s) in Hle by lia. pose proof (threshold_pos s). lia. }
      apply latch_ok_set_pc; try done; [|by right].
      intros s E [H0|H0]; cbn in H0; rewrite E, Epc in H0; done.
Qed.

Lemma latch_run_ok schedule : latch_ok (latch_run schedule).
Proof.
  unfold latch_run. apply foldl_inv; [|intros; by apply health_latch_step_ok].
  split; cbn; try done. intros s. pose proof (threshold_pos s). lia.
Qed.

(** C30. The fusion-health fault is never lost.  Under every interleaving of the
    two threads, when a stage has failed without interruption for its threshold
    the fault is set, or the very call that counted the last failure is still on
    its way to set it; in particular a recovery of one stage never clears the
    fault of another. *)
Theorem fusion_fault_not_lost schedule stage :
  let st := latch_run schedule in
  threshold stage <= ls_streak st stage -> ls_error st = true \/ raising st stage.
Proof. apply lok_fault, latch_run_ok. Qed.

(** Once both threads are between calls the fault is set exactly as the streaks
    demand. *)
Lemma fusion_fault_quiescent schedule stage :
  let st := latch_run schedule in
  (forall t, ls_pc st t = PcIdle) -> ls_error st = false -> ls_streak st stage < threshold stage.
Proof.
  intros st Hidle He. destruct (Z.lt_ge_cases (ls_streak st stage) (threshold stage)) as [|Hge]; [done|].
  destruct (lok_fault _ (latch_run_ok schedule) stage Hge) as [E|[E|E]]; fold st in E; [congruence|rewrite Hidle in E; done..].
Qed.
End latch.

(** The thresholds the daemon computes satisfy the minimum. *)
Lemma streak_threshold_min errorMs periodUs :
  NVPSS_FUSION_FAILURE_STREAK_MIN <= NvPSSFusionFailureStreakThreshold errorMs periodUs.
Proof.
  unfold NvPSSFusionFailureStreakThreshold, NVPSS_FUSION_FAILURE_STREAK_MIN. cases; try lia; [done|].
  assert (UINT32_MAX = 2 ^ 32 - 1) as E by done. rewrite u32_small; [lia|]. unfold is_u32. lia.
Qed.

(** The threshold is the configured duration of uninterrupted failure. *)
Lemma streak_threshold_duration errorMs periodUs :
  NvPSSFusionFailureErrorMsIsValid errorMs = true -> 0 < periodUs -> 2 * periodUs <= errorMs * 1000 ->
  let n := NvPSSFusionFailureStreakThreshold errorMs periodUs in
  n * periodUs <= errorMs * 1000 < (n + 1) * periodUs.
Proof.
  unfold NvPSSFusionFailureErrorMsIsValid, NvPSSFusionFailureStreakThreshold. intros Hv Hp H2.
  unfold NVPSS_FUSION_FAILURE_ERROR_MS_MIN, NVPSS_FUSION_FAILURE_ERROR_MS_MAX, NVPSS_FUSION_FAILURE_STREAK_MIN in *. bool_prop.
  rewrite u64_small by (unfold is_u64; lia). set (x := errorMs * 1000) in *.
  pose proof (Z.div_mod x periodUs ltac:(lia)). pose proof (Z.mod_pos_bound x periodUs Hp).
  assert (2 <= x / periodUs) by (apply Z.div_le_lower_bound; lia).
  assert (x / periodUs <= x) by (apply Z.div_le_upper_bound; nia).
  assert (x <= 60000000) by lia. assert (UINT32_MAX = 2 ^ 32 - 1) as E by done.
  rewrite (proj2 (Z.eqb_neq periodUs 0)), (proj2 (Z.ltb_ge _ _)), (proj2 (Z.ltb_ge _ _)), u32_small by (unfold is_u32; lia).
  nia.
Qed.

(** Two stages on two threads: the fusion thread recovers while the input stage
    crosses its threshold. *)
Definition demo_schedule : list (StageThread * (nat * StageOutcome)) :=
  let fail s := (s, StageFailed) in let ok s := (s, StageSucceeded) in
  [(FusionThread, fail 1%nat); (FusionThread, fail 1%nat); (FusionThread, fail 1%nat); (FusionThread, fail 1%nat);
   (FusionThread, ok 1%nat); (FusionThread, ok 1%nat); (FusionThread, ok 1%nat); (FusionThread, ok 1%nat); (FusionThread, ok 1%nat);
   (InputThread, fail 0%nat); (InputThread, fail 0%nat); (InputThread, fail 0%nat);
   (FusionThread, ok 1%nat); (FusionThread, ok 1%nat); (FusionThread, ok 1%nat); (FusionThread, ok 1%nat)].

Lemma fusion_fault_not_lost_witness :
  let st := latch_run (fun _ => 2) demo_schedule in
  ls_error st = false /\ (ls_error st = true \/ raising st 0).
Proof.
  split; [by vm_compute|].
  apply (fusion_fault_not_lost (fun _ => 2)); [done|by vm_compute].
Defined.

(** ** Audit records *)

Definition NVPSS_FUSION_STAGE_RECORD_INTERVAL_MS : Z := 1000.

Inductive NvPSSFusionStageRecord := RECORD_NONE | RECORD_STARTED | RECORD_ONGOING | RECORD_ENDED.

#[global] Instance NvPSSFusionStageRecord_eq_dec : EqDecision NvPSSFusionStageRecord.
Proof. solve_decision. Defined.

Record NvPSSFusionStageEpisode := {
  ep_open : bool;
  ep_openedMs : Z;
  ep_lastFailureMs : Z;
  ep_lastRecordMs : Z;
  ep_failures : Z;
}.

Definition episode_start : NvPSSFusionStageEpisode := {|
  ep_open := false; ep_openedMs := 0; ep_lastFailureMs := 0; ep_lastRecordMs := 0; ep_failures := 0 |}.

Definition NvPSSFusionStageNoteFailure (e : NvPSSFusionStageEpisode) (nowMs intervalMs : Z)
  : NvPSSFusionStageEpisode * NvPSSFusionStageRecord :=
  if negb (ep_open e) then
    ({| ep_open := true; ep_openedMs := nowMs; ep_lastFailureMs := nowMs; ep_lastRecordMs := nowMs; ep_failures := 1 |},
     RECORD_STARTED)
  else
    let failures := if ep_failures e <? UINT32_MAX then ep_failures e + 1 else ep_failures e in
    if intervalMs <=? u64 (nowMs - ep_lastRecordMs e) then
      ({| ep_open := true; ep_openedMs := ep_openedMs e; ep_lastFailureMs := nowMs; ep_lastRecordMs := nowMs;
          ep_failures := failures |}, RECORD_ONGOING)
    else
      ({| ep_open := true; ep_openedMs := ep_openedMs e; ep_lastFailureMs := nowMs; ep_lastRecordMs := ep_lastRecordMs e;
          ep_failures := failures |}, RECORD_NONE).

Definition NvPSSFusionStageNoteSuccess (e : NvPSSFusionStageEpisode) (nowMs intervalMs : Z)
  : NvPSSFusionStageEpisode * NvPSSFusionStageRecord :=
  if negb (ep_open e) || (u64 (nowMs - ep_lastFailureMs e) <? intervalMs) then (e, RECORD_NONE)
  else ({| ep_open := false; ep_openedMs := ep_openedMs e; ep_lastFailureMs := ep_lastFailureMs e;
           ep_lastRecordMs := ep_lastRecordMs e; ep_failures := ep_failures e |}, RECORD_ENDED).

(** A stage's outcomes, each with the time it was noted; the result pairs each
    record with its time. *)
Definition episode_step (intervalMs : Z) (e : NvPSSFusionStageEpisode) (outcome : StageOutcome) (nowMs : Z)
  : NvPSSFusionStageEpisode * NvPSSFusionStageRecord :=
  match outcome with
  | StageFailed => NvPSSFusionStageNoteFailure e nowMs intervalMs
  | StageSucceeded => NvPSSFusionStageNoteSuccess e nowMs intervalMs
  end.

Fixpoint episode_records (intervalMs : Z) (e : NvPSSFusionStageEpisode) (outcomes : list (Z * StageOutcome))
  : list (Z * NvPSSFusionStageRecord) :=
  match outcomes with
  | [] => []
  | (nowMs, o) :: rest =>
    let '(e', r) := episode_step intervalMs e o nowMs in (nowMs, r) :: episode_records intervalMs e' rest
  end.

(** The records that report failing. *)
Definition failing_record (r : Z * NvPSSFusionStageRecord) : Prop := r.2 = RECORD_STARTED \/ r.2 = RECORD_ONGOING.

#[global] Instance failing_record_dec r : Decision (failing_record r).
Proof. unfold failing_record. apply _. Defined.

Definition failing_times (records : list (Z * NvPSSFusionStageRecord)) : list Z := map fst (filter failing_record records).

(** Times are those of a clock that does not run backwards. *)
Fixpoint clock_from (t : Z) (outcomes : list (Z * StageOutcome)) : Prop :=
  match outcomes with
  | [] => True
  | (nowMs, _) :: rest => t <= nowMs /\ is_u64 nowMs /\ clock_from nowMs rest
  end.

(** [last] is the time of the last failing record, if any. *)
Definition episode_ok (intervalMs : Z) (e : NvPSSFusionStageEpisode) (last : option Z) (t : Z) : Prop :=
  match last with
  | None => ep_open e = false
  | Some r => ep_lastRecordMs e = r /\ 0 <= r <= ep_lastFailureMs e /\ ep_lastFailureMs e <= t
              /\ (ep_open e = false -> r + intervalMs <= t)
  end.

Lemma episode_spacing intervalMs outcomes : forall e last t,
  0 <= intervalMs -> is_u64 t -> episode_ok intervalMs e last t -> clock_from t outcomes ->
  let times := failing_times (episode_records intervalMs e outcomes) in
  Forall (fun r' => forall r, last = Some r -> r + intervalMs <= r') times
  /\ StronglySorted (fun r r' => r + intervalMs <= r') times.
Proof.
  induction outcomes as [|[now o] rest IH]; intros e last t Hi Ht Hok Hc; [split; constructor|].
  destruct Hc as (Hle & Hnow & Hc).
  assert (forall e' r, episode_ok intervalMs e' (Some now) now ->
    (failing_record (now, r)) -> (forall r0, last = Some r0 -> r0 + intervalMs <= now) ->
    let times := failing_times ((now, r) :: episode_records intervalMs e' rest) in
    Forall (fun r' => forall r, last = Some r -> r + intervalMs <= r') times
    /\ StronglySorted (fun r r' => r + intervalMs <= r') times) as Hrec.
  { intros e' r Hok' Hr Hlast. destruct (IH e' (Some now) now Hi Hnow Hok' Hc) as [H1 H2].
    unfold failing_times in *. rewrite filter_cons_True by done. cbn [map fst]. split.
    - constructor; [done|]. eapply Forall_impl; [exact H1|]. intros r' Hr' r0 ->. specialize (Hlast r0 eq_refl).
      specialize (Hr' now eq_refl). lia.
    - constructor; [done|]. eapply Forall_impl; [exact H1|]. intros r' Hr'. by apply Hr'. }
  assert (forall e' r, episode_ok intervalMs e' last now -> ~ failing_record (now, r) ->
    let times := failing_times ((now, r) :: episode_records intervalMs e' rest) in
    Forall (fun r' => forall r, last = Some r -> r + intervalMs <= r') times
    /\ StronglySorted (fun r r' => r + intervalMs <= r') times) as Hquiet.
  { intros e' r Hok' Hr. unfold failing_times. rewrite filter_cons_False by done. by apply (IH e' last now). }
  cbn [episode_records episode_step]. destruct o.
  - unfold episode_step, NvPSSFusionStageNoteFailure. destruct (ep_open e) eqn:Eo; cbn [negb].
    + destruct last as [r0|]; [|cbn in Hok; congruence]. destruct Hok as (Er & Hr & Hf & _).
      rewrite u64_small by (unfold is_u64 in *; lia). destruct (intervalMs <=? _) eqn:El; bool_prop.
      * apply Hrec; [|by right|]; [|intros ? [= <-]; lia]. unfold is_u64 in *. cbn. split_and!; lia || done.
      * apply Hquiet; [|intros [|]; done]. unfold is_u64 in *. cbn. split_and!; lia || done.
    + apply Hrec; [|by left|]; [|].
      * unfold is_u64 in *. cbn. split_and!; lia || done.
      * intros r0 ->. destruct Hok as (_ & _ & _ & H). specialize (H Eo). lia.
  - unfold episode_step, NvPSSFusionStageNoteSuccess. destruct (ep_open e) eqn:Eo; cbn [negb orb].
    + destruct last as [r0|]; [|cbn in Hok; congruence]. destruct Hok as (Er & Hr & Hf & _).
      rewrite u64_small by (unfold is_u64 in *; lia). destruct (_ <? intervalMs) eqn:El; bool_prop;
        (apply Hquiet; [|intros [|]; done]); unfold is_u64 in *; cbn; rewrite ?Eo; split_and!; lia || done.
    + apply Hquiet; [|intros [|]; done]. destruct last as [r0|]; [|done]. destruct Hok as (Er & Hr & Hf & H).
      specialize (H Eo). cbn. split_and!; lia || done.
Qed.

(** The audit log of a failing stage is rate limited whatever the pattern of
    failures and successes: any two records that report it failing (an episode's
    start, or its progress) are at least one interval apart. *)
Theorem stage_records_spaced intervalMs outcomes :
  0 <= intervalMs -> clock_from 0 outcomes ->
  StronglySorted (fun r r' => r + intervalMs <= r') (failing_times (episode_records intervalMs episode_start outcomes)).
Proof. intros Hi Hc. apply (episode_spacing intervalMs outcomes episode_start None 0); try done. Qed.

Lemma stage_records_spaced_witness :
  let outcomes := [(10, StageFailed); (12, StageFailed); (14, StageSucceeded); (900, StageFailed);
                   (1015, StageFailed); (2100, StageSucceeded); (2101, StageFailed)] in
  let times := failing_times (episode_records 1000 episode_start outcomes) in
  times = [10; 1015; 2101] /\ StronglySorted (fun r r' => r + 1000 <= r') times.
Proof. split; [by vm_compute|]. apply stage_records_spaced; [lia|]. cbn. unfold is_u64. lia. Defined.
