(* ===== verification/EventManager.v ===== *)
(** * Trust, source validation and routing of incoming events

    The part of [NvPSSSafetyEventManager.cpp] between the client interface and
    the staging lanes: trust reports and the verdict derived for a group of
    sensors, the input queue, the checks an event passes before it may drive a
    decision, and the event processor with fusion on or off.

    [EventManager] is the state guarded by [trustStateMutex] and
    [inputSafetyEventQueMutex], with the fusion engine and the counter of daemon
    event ids.  A handler is a function on it that also returns the calls of
    [enqueuePsdFusedEvent] it makes, in order ([Enqueue] of [Staging.v]); it runs
    as one step.  Clock readings and the operational mode are arguments.  Log
    records are not modelled. *)

From S2P Require Import Prelude Protocol Crc Validate DeliveryFailSafe Staging Float32 SpatialCorrelation FusionEngine FusionHealth.

Definition CLIENT_SAFETY_MONITOR : Z := 2.
Definition CLIENT_PERCEPTION_MONITOR : Z := 4.

Definition kBypassDrainPerTick : nat := 64.

Inductive GroupVerdict := GroupTrusted | GroupUntrusted | GroupPending.

#[global] Instance GroupVerdict_eq_dec : EqDecision GroupVerdict.
Proof. solve_decision. Defined.

(** Startup configuration, read-only afterwards. *)
Record ManagerConfig := {
  mc_fusionEnabled : bool;
  mc_maxPipelinesSupported : Z;
  mc_stalenessThresholdMs : Z;
  mc_sensorConfigIdToName : gmap Z (list Z);
  mc_sensorGroupPipelineId : Z;
  mc_sensorGroupMembers : list Z;
  mc_bypassFusionEvents : gset EventType;
}.

Record EventManager := {
  em_invalidSensors : gmap Z EventCause;
  em_aiPipelineInvalidGlobal : bool;
  em_lastEmittedGroupVerdict : GroupVerdict;
  em_lastGroupVerdict : GroupVerdict;
  em_inputSafetyEventQue : list (Z * SafetyEvent);
  em_registeredPipelines : gset Z;
  em_eventFusion : option FusionEngine;
  em_eventIdCounter : Z;
}.

Definition start_manager (engine : option FusionEngine) (seed : Z) : EventManager := {|
  em_invalidSensors := ∅; em_aiPipelineInvalidGlobal := false;
  em_lastEmittedGroupVerdict := GroupTrusted; em_lastGroupVerdict := GroupTrusted;
  em_inputSafetyEventQue := []; em_registeredPipelines := ∅;
  em_eventFusion := engine; em_eventIdCounter := u32 seed |}.

(** Field updates. *)
Definition set_trust (invalid : gmap Z EventCause) (ai : bool) (emitted last : GroupVerdict) (m : EventManager) : EventManager := {|
  em_invalidSensors := invalid; em_aiPipelineInvalidGlobal := ai;
  em_lastEmittedGroupVerdict := emitted; em_lastGroupVerdict := last;
  em_inputSafetyEventQue := em_inputSafetyEventQue m; em_registeredPipelines := em_registeredPipelines m;
  em_eventFusion := em_eventFusion m; em_eventIdCounter := em_eventIdCounter m |}.

Definition set_queue (q : list (Z * SafetyEvent)) (m : EventManager) : EventManager := {|
  em_invalidSensors := em_invalidSensors m; em_aiPipelineInvalidGlobal := em_aiPipelineInvalidGlobal m;
  em_lastEmittedGroupVerdict := em_lastEmittedGroupVerdict m; em_lastGroupVerdict := em_lastGroupVerdict m;
  em_inputSafetyEventQue := q; em_registeredPipelines := em_registeredPipelines m;
  em_eventFusion := em_eventFusion m; em_eventIdCounter := em_eventIdCounter m |}.

Definition set_engine (registered : gset Z) (engine : option FusionEngine) (m : EventManager) : EventManager := {|
  em_invalidSensors := em_invalidSensors m; em_aiPipelineInvalidGlobal := em_aiPipelineInvalidGlobal m;
  em_lastEmittedGroupVerdict := em_lastEmittedGroupVerdict m; em_lastGroupVerdict := em_lastGroupVerdict m;
  em_inputSafetyEventQue := em_inputSafetyEventQue m; em_registeredPipelines := registered;
  em_eventFusion := engine; em_eventIdCounter := em_eventIdCounter m |}.

Definition set_counter (c : Z) (m : EventManager) : EventManager := {|
  em_invalidSensors := em_invalidSensors m; em_aiPipelineInvalidGlobal := em_aiPipelineInvalidGlobal m;
  em_lastEmittedGroupVerdict := em_lastEmittedGroupVerdict m; em_lastGroupVerdict := em_lastGroupVerdict m;
  em_inputSafetyEventQue := em_inputSafetyEventQue m; em_registeredPipelines := em_registeredPipelines m;
  em_eventFusion := em_eventFusion m; em_eventIdCounter := c |}.

(** ** Daemon event ids *)

Definition reserved_id (id : Z) : bool := (id =? 0) || (id =? UINT32_MAX).

(** The loop; [None] when [fuel] draws were all reserved. *)
Fixpoint draw_id (fuel : nat) (counter : Z) : option (Z * Z) :=
  match fuel with
  | O => None
  | S fuel' =>
    let id := counter in
    let counter' := u32 (counter + 1) in
    if reserved_id id then draw_id fuel' counter' else Some (id, counter')
  end.

(** Three draws are enough: the two reserved ids are neighbours. *)
Definition nextDaemonEventId (counter : Z) : Z * Z := default (0, counter) (draw_id 3 counter).

(** ** Configuration *)

(** [ConfigureEventStream]: the accepted staleness threshold and pipeline
    bound. *)
Definition ConfigureEventStream (timeWindowMs maxPipelines : Z) : option (Z * Z) :=
  if (maxPipelines =? 0) || (MAX_SUPPORTED_PIPELINES <? maxPipelines) then None
  else if timeWindowMs <? 0 then None
  else Some (timeWindowMs, maxPipelines).

(** [maxPipelinesSupported] is [None] until the event stream is configured. *)
Definition ConfigureMultiCameraFusion (maxPipelinesSupported : option Z) (args : FusionConfig) (m : EventManager)
  : EventManager * NvPSSDErr :=
  match maxPipelinesSupported with
  | None => (m, NVPSSD_FAIL)
  | Some maxSupported =>
    if negb (f32_unit_range (fc_fusionThreshold args)) then (m, NVPSSD_FAIL)
    else if SFltb WEIGHT_SUM_TOLERANCE
              (SFabs (f32_sub (f32_add (f32_add (fc_alpha args) (fc_beta args)) (fc_gamma args)) f32_value_one))
    then (m, NVPSSD_FAIL)
    else
      let engine :=
        match em_eventFusion m with
        | None =>
          SafetyEventFusion {| fc_timeWindowSize := fc_timeWindowSize args; fc_fusionThreshold := fc_fusionThreshold args;
            fc_alpha := fc_alpha args; fc_beta := fc_beta args; fc_gamma := fc_gamma args;
            fc_temporalTolerance := fc_temporalTolerance args; fc_trajectoryCount := fc_trajectoryCount args;
            fc_maxSupportedPipelines := maxSupported;
            fc_earlyTerminationThreshold := fc_earlyTerminationThreshold args;
            fc_enableEarlyTermination := fc_enableEarlyTermination args |}
        | Some e =>
          let e := (SetMaxPipelines (fc_maxSupportedPipelines args) e).1 in
          let e := (SetTimeWindowSize (fc_timeWindowSize args) e).1 in
          let e := (SetFusionThreshold (fc_fusionThreshold args) e).1 in
          let e := (SetTemporalTolerance (fc_temporalTolerance args) e).1 in
          let e := (SetFusionWeights (fc_alpha args) (fc_beta args) (fc_gamma args) e).1 in
          let e := (SetTrajectoryCount (fc_trajectoryCount args) e).1 in
          let e := (EnableEarlyTermination (fc_enableEarlyTermination args) e).1 in
          (SetEarlyTerminationThreshold (fc_earlyTerminationThreshold args) e).1
        end in
      (set_engine (em_registeredPipelines m) (Some engine) m, NVPSSD_SUCCESS)
  end.

(** ** Clock *)

Definition monotonicNowNs (ts : timespec) : Z := u64 (tv_sec ts * 1000000000 + tv_nsec ts).
Definition monotonicNowMs (ts : timespec) : Z := u64 (tv_sec ts * 1000 + tv_nsec ts / 1000000).

Section manager.
Variable cfg : ManagerConfig.

Definition sensorConfigLoaded : bool := negb (bool_decide (mc_sensorConfigIdToName cfg = ∅)).
Definition nameOf (id : Z) : list Z := default [] (mc_sensorConfigIdToName cfg !! id).
Definition groupConfigured : bool := match mc_sensorGroupMembers cfg with [] => false | _ => true end.

Definition IsSensorGroupId (pipelineId : Z) : bool :=
  groupConfigured && (pipelineId =? mc_sensorGroupPipelineId cfg).

Definition IsRequiredSourcePipeline (pipelineId : Z) : bool :=
  if pipelineId =? 0 then false
  else if groupConfigured then pipelineId =? mc_sensorGroupPipelineId cfg
  else if negb sensorConfigLoaded then false
  else bool_decide (is_Some (mc_sensorConfigIdToName cfg !! pipelineId)).

(** ** Trust *)

Fixpoint group_scan (invalid : gmap Z EventCause) (members : list Z) (anyInit : bool) : GroupVerdict :=
  match members with
  | [] => if anyInit then GroupPending else GroupUntrusted
  | member :: rest =>
    match invalid !! member with
    | None => GroupTrusted
    | Some cause => group_scan invalid rest (anyInit || (cause =? CAUSE_SAIM_INIT))
    end
  end.

Definition EvaluateGroupVerdictLocked (m : EventManager) : GroupVerdict :=
  group_scan (em_invalidSensors m) (mc_sensorGroupMembers cfg) false.

Definition QueryTrustState (pipelineId : Z) (m : EventManager) : TrustState :=
  if IsSensorGroupId pipelineId then
    {| ts_sensorInvalid := bool_decide (EvaluateGroupVerdictLocked m = GroupUntrusted);
       ts_aiPipelineInvalid := em_aiPipelineInvalidGlobal m |}
  else
    {| ts_sensorInvalid := bool_decide (is_Some (em_invalidSensors m !! pipelineId));
       ts_aiPipelineInvalid := em_aiPipelineInvalidGlobal m |}.

Definition distrusted (t : TrustState) : bool := ts_sensorInvalid t || ts_aiPipelineInvalid t.

(** A daemon-originated trust report. *)
Definition daemon_event (id : Z) (type : EventType) (nowNs pipelineId : Z) (cause : EventCause) (name : list Z) : SafetyEvent :=
  pssSafetyEventSetCRC
    {| se_id := id; se_sensorIdentifier := snprintf_s name MAX_INDENTIFIER_LENGTH; se_type := type;
       se_timestamp := nowNs; se_confidenceLevel := f32_one; se_processed := false;
       se_fusionMetadata := {| fm_coordinates := fm_coordinates zero_metadata; fm_pipelineID := pipelineId;
                               fm_clientID := 0; fm_objectType := fm_objectType zero_metadata;
                               fm_speed := fm_speed zero_metadata; fm_objectID := fm_objectID zero_metadata |};
       se_cause := cause; se_integrity := zero_integrity |}.

Definition EmitGroupTrustEvent (type : EventType) (groupId : Z) (groupName : list Z) (ts : timespec) (m : EventManager) : EventManager :=
  if bool_decide (groupName = []) then m else
  let '(id, counter) := nextDaemonEventId (em_eventIdCounter m) in
  let cause := if type =? SENSOR_INVALID then CAUSE_SAIM_UNKNOWN else CAUSE_SAIM_SENSOR_HEALTHY in
  let ev := daemon_event id type (monotonicNowNs ts) groupId cause groupName in
  set_queue (em_inputSafetyEventQue m ++ [(0, ev)]) (set_counter counter m).

Definition isSensorTrustReport (type : EventType) : bool := (type =? SENSOR_INVALID) || (type =? SENSOR_VALID).
Definition isAIPipelineTrustReport (type : EventType) : bool := (type =? AI_PIPELINE_INVALID) || (type =? AI_PIPELINE_VALID).

(** The checks that reject a report before any state is touched. *)
Definition trust_report_accepted (reporterClientType : Z) (event : SafetyEvent) : bool :=
  let sensorReport := isSensorTrustReport (se_type event) in
  let aiReport := isAIPipelineTrustReport (se_type event) in
  if negb sensorReport && negb aiReport then false
  else if (sensorReport && negb (reporterClientType =? CLIENT_SAFETY_MONITOR)) ||
          (aiReport && negb (reporterClientType =? CLIENT_PERCEPTION_MONITOR)) then false
  else negb (sensorReport && IsSensorGroupId (fm_pipelineID (se_fusionMetadata event))).

(** The critical section: apply the report, then decide whether the decision
    makers must be told a new group verdict. *)
Definition apply_trust_report (event : SafetyEvent) (m : EventManager) : EventManager * option GroupVerdict :=
  let pipelineId := fm_pipelineID (se_fusionMetadata event) in
  let type := se_type event in
  let invalid :=
    if type =? SENSOR_INVALID then <[pipelineId := se_cause event]> (em_invalidSensors m)
    else if type =? SENSOR_VALID then delete pipelineId (em_invalidSensors m)
    else em_invalidSensors m in
  let ai := if type =? AI_PIPELINE_INVALID then true
            else if type =? AI_PIPELINE_VALID then false else em_aiPipelineInvalidGlobal m in
  if isSensorTrustReport type && groupConfigured then
    let verdict := group_scan invalid (mc_sensorGroupMembers cfg) false in
    let emit := negb (bool_decide (verdict = GroupPending)) && negb (bool_decide (verdict = em_lastEmittedGroupVerdict m)) in
    (set_trust invalid ai (if emit then verdict else em_lastEmittedGroupVerdict m) verdict m,
     if emit then Some verdict else None)
  else (set_trust invalid ai (em_lastEmittedGroupVerdict m) (em_lastGroupVerdict m) m, None).

Definition OnTrustReport (reporterClientType : Z) (event : SafetyEvent) (ts : timespec) (m : EventManager) : EventManager * bool :=
  if negb (trust_report_accepted reporterClientType event) then (m, false) else
  let '(m1, emit) := apply_trust_report event m in
  match emit with
  | None => (m1, true)
  | Some verdict =>
    (EmitGroupTrustEvent (if bool_decide (verdict = GroupUntrusted) then SENSOR_INVALID else SENSOR_VALID)
       (mc_sensorGroupPipelineId cfg) (nameOf (mc_sensorGroupPipelineId cfg)) ts m1, true)
  end.

(** ** Standing verdicts *)

Definition pipeline_le (a b : Z * EventCause) : Prop := a.1 < b.1 \/ (a.1 = b.1 /\ a.2 <= b.2).

#[global] Instance pipeline_le_dec : RelDecision pipeline_le.
Proof. intros a b. unfold pipeline_le. apply _. Defined.

(** What must be said again: report type, pipeline, cause and name. *)
Definition standing_verdicts (m : EventManager) : list (EventType * Z * EventCause * list Z) :=
  let ai := if em_aiPipelineInvalidGlobal m then [(AI_PIPELINE_INVALID, 0, CAUSE_NONE, [])] else [] in
  let groupId := mc_sensorGroupPipelineId cfg in
  let group :=
    if groupConfigured && bool_decide (em_lastEmittedGroupVerdict m = GroupUntrusted)
       && negb (bool_decide (nameOf groupId = []))
    then [(SENSOR_INVALID, groupId, CAUSE_SAIM_UNKNOWN, nameOf groupId)] else [] in
  let cameras := if groupConfigured then [] else merge_sort pipeline_le (map_to_list (em_invalidSensors m)) in
  let named := filter (fun c => nameOf c.1 <> []) cameras in
  ai ++ group ++ map (fun c => (SENSOR_INVALID, c.1, c.2, nameOf c.1)) named.

Fixpoint make_events (verdicts : list (EventType * Z * EventCause * list Z)) (clock : nat -> timespec) (counter : Z)
  : list SafetyEvent * Z :=
  match verdicts with
  | [] => ([], counter)
  | (type, pipelineId, cause, name) :: rest =>
    let '(id, counter1) := nextDaemonEventId counter in
    let '(events, counter2) := make_events rest (fun k => clock (S k)) counter1 in
    (daemon_event id type (monotonicNowNs (clock 0%nat)) pipelineId cause name :: events, counter2)
  end.

Definition ReassertStandingVerdicts (clock : nat -> timespec) (m : EventManager) : EventManager :=
  let '(events, counter) := make_events (standing_verdicts m) clock (em_eventIdCounter m) in
  set_queue (em_inputSafetyEventQue m ++ map (fun ev => (0, ev)) events) (set_counter counter m).

(** ** Source validation and freshness *)

Definition ValidateEventSource (event : SafetyEvent) : bool :=
  let pipelineId := fm_pipelineID (se_fusionMetadata event) in
  if mc_maxPipelinesSupported cfg <? pipelineId then false
  else if sensorConfigLoaded && negb (pipelineId =? 0) then
    match mc_sensorConfigIdToName cfg !! pipelineId with
    | None => false
    | Some name =>
      let sensorId := c_str (take MAX_INDENTIFIER_LENGTH (se_sensorIdentifier event)) in
      if bool_decide (sensorId = []) then
        if IsSensorGroupId pipelineId then false
        else NvPSSPsdIsMustDeliverReport (se_type event)
      else bool_decide (sensorId = name)
    end
  else true.

Definition isEventStale (eventTimestampNs nowMs : Z) : bool :=
  let eventMs := eventTimestampNs / 1000000 in
  if (nowMs <? eventMs) && (mc_stalenessThresholdMs cfg <? eventMs - nowMs) then true
  else (eventMs <? nowMs) && (mc_stalenessThresholdMs cfg <? nowMs - eventMs).

(** [CreateBypassEvent] and [CreateInvalidSourceEvent] differ in the severity. *)
Definition forward_event (severity : SeverityLevel) (event : SafetyEvent) (id : Z) (ts : timespec) : FusedSafetyEvent := {|
  ev_id := id;
  ev_sensorIdentifier := copy_identifier (se_sensorIdentifier event);
  ev_type := se_type event;
  ev_cause := se_cause event;
  ev_severity := severity;
  ev_timestamp := se_timestamp event;
  ev_confidenceLevel := se_confidenceLevel event;
  ev_status := if isEventStale (se_timestamp event) (monotonicNowMs ts) then STALE else UNKNOWN;
  ev_fusionMetadata := se_fusionMetadata event |}.

Definition CreateBypassEvent (event : SafetyEvent) (ts : timespec) (m : EventManager) : FusedSafetyEvent * EventManager :=
  let '(id, counter) := nextDaemonEventId (em_eventIdCounter m) in
  (forward_event OPERATIONAL event id ts, set_counter counter m).

Definition CreateInvalidSourceEvent (event : SafetyEvent) (ts : timespec) (m : EventManager) : FusedSafetyEvent * EventManager :=
  let '(id, counter) := nextDaemonEventId (em_eventIdCounter m) in
  (forward_event CRITICAL event id ts, set_counter counter m).

(** Classify by trust and mode, then stage. *)
Definition stage (event : FusedSafetyEvent) (trust : TrustState) (mode : OperationalMode) : Enqueue :=
  let severity := NvPSSClassifyPsdSeverity event (negb (ts_sensorInvalid trust)) (negb (ts_aiPipelineInvalid trust)) mode in
  let event := set_ev_severity severity event in
  {| en_priority := NvPSSPsdSendPriorityFromSeverity severity;
     en_clientId := fm_clientID (ev_fusionMetadata event);
     en_event := event;
     en_evictable := NvPSSPsdEvictable event (distrusted trust);
     en_queuedTrust := trust |}.

(** The bypass block of [ProcessSafetyEventForFusion] leaves the last two
    arguments at their defaults. *)
Definition stage_bypass (event : FusedSafetyEvent) (mode : OperationalMode) : Enqueue :=
  let severity := NvPSSClassifyPsdSeverity event true true mode in
  {| en_priority := NvPSSPsdSendPriorityFromSeverity severity;
     en_clientId := fm_clientID (ev_fusionMetadata event);
     en_event := set_ev_severity severity event;
     en_evictable := false;
     en_queuedTrust := trusted |}.

(** ** Routing one event *)

Record Routed := mkRouted { rt_manager : EventManager; rt_staged : list Enqueue; rt_code : NvPSSDErr }.

Definition with_engine (engine : FusionEngine) (m : EventManager) : EventManager :=
  set_engine (em_registeredPipelines m) (Some engine) m.

Definition ProcessSafetyEventForFusion (event : SafetyEvent) (ts : timespec) (mode : OperationalMode) (m : EventManager) : Routed :=
  match (if mc_fusionEnabled cfg then em_eventFusion m else None) with
  | None => mkRouted m [] NVPSSD_FAIL
  | Some engine =>
    let pipelineId := fm_pipelineID (se_fusionMetadata event) in
    let registration :=
      if negb (pipelineId =? 0) && negb (bool_decide (pipelineId ∈ em_registeredPipelines m)) then
        let '(engine1, code) := RegisterPipeline pipelineId engine in
        match code with
        | NVPSSD_FAIL => None
        | NVPSSD_SUCCESS => Some (set_engine (em_registeredPipelines m ∪ {[pipelineId]}) (Some engine1) m, engine1)
        end
      else Some (m, engine) in
    match registration with
    | None => mkRouted m [] NVPSSD_FAIL
    | Some (m1, engine1) =>
      let '(fusedEvent, m2) := CreateBypassEvent event ts m1 in
      if bool_decide (se_type event ∈ mc_bypassFusionEvents cfg) then
        mkRouted m2 [stage_bypass fusedEvent mode] NVPSSD_SUCCESS
      else if ev_status fusedEvent =? STALE then
        mkRouted m2 [stage fusedEvent (QueryTrustState pipelineId m2) mode] NVPSSD_SUCCESS
      else
        let r := ProcessNewSafetyEvent ts event engine1 in
        mkRouted (with_engine (fr_state r) m2) [] (fr_code r)
    end
  end.

(** One event taken from the input queue with fusion on; the outcome noted for
    the first stage, if any. *)
Definition route_fusing (event : SafetyEvent) (ts : timespec) (mode : OperationalMode) (m : EventManager)
  : EventManager * list Enqueue * option StageOutcome :=
  let trust := QueryTrustState (fm_pipelineID (se_fusionMetadata event)) m in
  if distrusted trust then
    let '(invalidEvent, m1) := CreateInvalidSourceEvent event ts m in (m1, [stage invalidEvent trust mode], None)
  else if negb (ValidateEventSource event) then (m, [], None)
  else
    let r := ProcessSafetyEventForFusion event ts mode m in
    (rt_manager r, rt_staged r,
     match rt_code r with
     | NVPSSD_SUCCESS => Some StageSucceeded
     | NVPSSD_FAIL => match em_eventFusion (rt_manager r) with Some _ => Some StageFailed | None => None end
     end).

(** One event of the bypass drain, with fusion off. *)
Definition route_bypassing (event : SafetyEvent) (ts : timespec) (mode : OperationalMode) (m : EventManager)
  : EventManager * list Enqueue :=
  let trust := QueryTrustState (fm_pipelineID (se_fusionMetadata event)) m in
  if negb (distrusted trust) && negb (ValidateEventSource event) then (m, [])
  else
    let '(fusedEvent, m1) := if distrusted trust then CreateInvalidSourceEvent event ts m else CreateBypassEvent event ts m in
    (m1, [stage fusedEvent trust mode]).

(** ** The loops *)

(** One pass of [manageInputSafetyEventQue]. *)
Definition input_pass (ts : timespec) (mode : OperationalMode) (m : EventManager)
  : EventManager * list Enqueue * option StageOutcome :=
  match em_inputSafetyEventQue m with
  | [] => (m, [], None)
  | (_, event) :: rest =>
    if mc_fusionEnabled cfg then route_fusing event ts mode (set_queue rest m) else (m, [], None)
  end.

(** The bypass drain: at most [budget] events, in order. *)
Fixpoint bypass_drain (budget : nat) (ts : timespec) (mode : OperationalMode) (m : EventManager) : EventManager * list Enqueue :=
  match budget with
  | O => (m, [])
  | S budget' =>
    match em_inputSafetyEventQue m with
    | [] => (m, [])
    | (_, event) :: rest =>
      let '(m1, staged1) := route_bypassing event ts mode (set_queue rest m) in
      let '(m2, staged2) := bypass_drain budget' ts mode m1 in
      (m2, staged1 ++ staged2)
    end
  end.

(** [std::stable_sort] by timestamp. *)
Fixpoint insert_by_time (e : FusedSafetyEvent) (l : list FusedSafetyEvent) : list FusedSafetyEvent :=
  match l with
  | [] => [e]
  | x :: rest => if ev_timestamp x <? ev_timestamp e then x :: insert_by_time e rest else e :: x :: rest
  end.

Definition stable_sort_by_time (l : list FusedSafetyEvent) : list FusedSafetyEvent := foldr insert_by_time [] l.

Definition HandleFusedEvents (ts : timespec) (mode : OperationalMode) (m : EventManager) : EventManager * list Enqueue :=
  if negb (mc_fusionEnabled cfg) then bypass_drain kBypassDrainPerTick ts mode m
  else match em_eventFusion m with
       | None => (m, []) (* not reached: startup configures the engine before fusion is enabled *)
       | Some engine =>
         let fusedEvents := stable_sort_by_time (fe_fusedEvents engine) in
         (with_engine (fr_state (ClearFusedEvents (length fusedEvents) engine)) m,
          map (fun e => stage e (QueryTrustState (fm_pipelineID (ev_fusionMetadata e)) m) mode) fusedEvents)
       end.

Section processor.
Variable std_exp : spec_float -> spec_float.
Variable sort_by_time : list SafetyEvent -> list nat -> list nat.
Variable map_order : gmap EventType (list SafetyEvent) -> list EventType.

Definition stage_outcome (code : NvPSSDErr) : StageOutcome :=
  match code with NVPSSD_SUCCESS => StageSucceeded | NVPSSD_FAIL => StageFailed end.

(** One pass of [fusionProcessingLoop], with the outcome noted for each stage. *)
Definition processor_pass (ts : timespec) (mode : OperationalMode) (m : EventManager)
  : EventManager * list Enqueue * list (nat * StageOutcome) :=
  let '(m1, outcomes) :=
    match (if mc_fusionEnabled cfg then em_eventFusion m else None) with
    | None => (m, [])
    | Some engine =>
      let r1 := PerformSafetyEventFusion std_exp sort_by_time engine in
      let r2 := ProcessUnmatchedEvents map_order ts (fr_state r1) in
      let r3 := CleanProcessedEvents (fr_state r2) in
      (with_engine (fr_state r3) m,
       [(FUSION_STAGE_PERFORM_FUSION, stage_outcome (fr_code r1));
        (FUSION_STAGE_PROCESS_UNMATCHED, stage_outcome (fr_code r2));
        (FUSION_STAGE_CLEAN_PROCESSED, stage_outcome (fr_code r3))])
    end in
  let '(m2, staged) := HandleFusedEvents ts mode m1 in
  (m2, staged, outcomes ++ [(FUSION_STAGE_HANDLE_FUSED, StageSucceeded)]).
End processor.
End manager.
