(* ===== verification/EventManagerSafety.v ===== *)
(** * What the event manager promises

    Daemon event ids are never reserved and do not repeat; the decision makers
    know the verdict of a sensor group; events of distrusted, unidentified or
    stale origin are treated the same whether fusion is on or off, and never
    enter the fusion engine; fused events are staged once, in time order;
    standing verdicts are said again exactly. *)

From S2P Require Import Prelude Protocol Crc Validate DeliveryFailSafe Staging Float32 SpatialCorrelation FusionEngine FusionHealth EventManager.

(** ** Daemon event ids *)

(** The id after [id]: the reserved values are skipped. *)
Definition succ_id (id : Z) : Z := if id =? UINT32_MAX - 1 then 1 else id + 1.

Definition usable_id (id : Z) : Prop := 1 <= id <= UINT32_MAX - 1.

Lemma draw_usable c : usable_id c -> draw_id 3 c = Some (c, u32 (c + 1)).
Proof.
  intros H. unfold usable_id, UINT32_MAX in H. unfold draw_id, reserved_id, UINT32_MAX.
  rewrite (proj2 (Z.eqb_neq c 0)), (proj2 (Z.eqb_neq c 4294967295)) by lia. done.
Qed.

Lemma draw_after c : usable_id c -> draw_id 3 (u32 (c + 1)) = Some (succ_id c, u32 (succ_id c + 1)).
Proof.
  intros H. unfold succ_id. destruct (Z.eqb_spec c (UINT32_MAX - 1)) as [->|Hne]; [by vm_compute|].
  unfold usable_id in *. assert (UINT32_MAX = 2 ^ 32 - 1) as E by done.
  rewrite u32_small by (unfold is_u32; lia). apply draw_usable. unfold usable_id. lia.
Qed.

Lemma draw_start c : is_u32 c -> exists id, draw_id 3 c = Some (id, u32 (id + 1)) /\ usable_id id.
Proof.
  intros H. assert (UINT32_MAX = 2 ^ 32 - 1) as E by done. unfold is_u32 in H.
  destruct (decide (c = 0)) as [->|]; [exists 1; by vm_compute|].
  destruct (decide (c = UINT32_MAX)) as [->|]; [exists 1; by vm_compute|].
  exists c. assert (usable_id c) by (unfold usable_id; lia). split; [by apply draw_usable|done].
Qed.

Lemma next_draw c r : draw_id 3 c = Some r -> nextDaemonEventId c = r.
Proof. unfold nextDaemonEventId. by intros ->. Qed.

Lemma succ_usable id : usable_id id -> usable_id (succ_id id).
Proof. unfold usable_id, succ_id, UINT32_MAX. intros H. case_match; bool_prop; lia. Qed.

(** The ids of [n] successive calls. *)
Fixpoint daemon_ids (n : nat) (counter : Z) : list Z :=
  match n with
  | O => []
  | S n' => let '(id, counter') := nextDaemonEventId counter in id :: daemon_ids n' counter'
  end.

(** The [k]-th id after [id]. *)
Definition id_after (id : Z) (k : nat) : Z := 1 + (id - 1 + Z.of_nat k) mod (UINT32_MAX - 1).

Lemma id_after_0 id : usable_id id -> id_after id 0 = id.
Proof. unfold usable_id, id_after, UINT32_MAX. intros H. rewrite Z.add_0_r, Z.mod_small; lia. Qed.

Lemma id_after_succ id k : usable_id id -> id_after (succ_id id) k = id_after id (S k).
Proof.
  unfold usable_id, id_after, succ_id, UINT32_MAX. intros H. destruct (Z.eqb_spec id (4294967295 - 1)) as [->|].
  - f_equal. replace (4294967295 - 1 - 1 + Z.of_nat (S k)) with (Z.of_nat k + 1 * (4294967295 - 1)) by lia.
    rewrite Z.mod_add by lia. f_equal; lia.
  - f_equal; f_equal; lia.
Qed.

Lemma daemon_ids_from n id c :
  usable_id id -> draw_id 3 c = Some (id, u32 (id + 1)) -> daemon_ids n c = map (id_after id) (seq 0 n).
Proof.
  revert id c. induction n as [|n IH]; intros id c Hid Hd; [done|].
  cbn [daemon_ids seq map]. rewrite (next_draw _ _ Hd), id_after_0 by done. f_equal.
  rewrite (IH (succ_id id)); [|by apply succ_usable|by apply draw_after].
  rewrite <- seq_shift, map_map. apply map_ext. intros k. by apply id_after_succ.
Qed.

Lemma id_after_inj id i j :
  usable_id id -> Z.of_nat i < UINT32_MAX - 1 -> Z.of_nat j < UINT32_MAX - 1 -> id_after id i = id_after id j -> i = j.
Proof.
  unfold id_after, UINT32_MAX. intros H Hi Hj E.
  assert ((id - 1 + Z.of_nat i) mod (4294967295 - 1) = (id - 1 + Z.of_nat j) mod (4294967295 - 1)) as E' by lia.
  set (M := 4294967295 - 1) in *. assert (0 < M) as HM by done.
  pose proof (Z.div_mod (id - 1 + Z.of_nat i) M ltac:(lia)).
  pose proof (Z.div_mod (id - 1 + Z.of_nat j) M ltac:(lia)). nia.
Qed.

(** Drawing a daemon event id terminates within three draws of the counter
    from any counter value; the ids of successive calls are never 0 or
    [UINT32_MAX], and the ids of up to 2^32 - 2 successive calls are pairwise
    different. *)
Theorem daemon_ids_unique (seed : Z) (n : nat) :
  let counter := u32 seed in
  is_Some (draw_id 3 counter)
  /\ Forall (fun id => reserved_id id = false /\ is_u32 id) (daemon_ids n counter)
  /\ (Z.of_nat n <= UINT32_MAX - 1 -> NoDup (daemon_ids n counter)).
Proof.
  intros counter. destruct (draw_start counter) as (id & Hd & Hid); [apply u32_range|].
  rewrite (daemon_ids_from n id counter Hid Hd). split_and!; [by rewrite Hd| |].
  - apply Forall_map, Forall_forall. intros k _. unfold id_after, reserved_id, is_u32, UINT32_MAX in *.
    pose proof (Z.mod_pos_bound (id - 1 + Z.of_nat k) (4294967295 - 1) ltac:(lia)).
    rewrite (proj2 (Z.eqb_neq _ 0)), (proj2 (Z.eqb_neq _ 4294967295)) by lia. split; [done|lia].
  - intros Hn. apply NoDup_fmap_2_strong; [|apply NoDup_seq]. intros i j Hi Hj.
    apply elem_of_seq in Hi, Hj. by apply id_after_inj; [done|lia|lia].
Qed.

Lemma daemon_ids_unique_witness :
  daemon_ids 4 (u32 4294967294) = [4294967294; 1; 2; 3] /\ NoDup (daemon_ids 4 (u32 4294967294)).
Proof. split; [by vm_compute|]. apply (daemon_ids_unique 4294967294 4). unfold UINT32_MAX. lia. Defined.

(** ** Trust state *)

Definition same_trust (m m' : EventManager) : Prop :=
  em_invalidSensors m' = em_invalidSensors m /\ em_aiPipelineInvalidGlobal m' = em_aiPipelineInvalidGlobal m
  /\ em_lastEmittedGroupVerdict m' = em_lastEmittedGroupVerdict m /\ em_lastGroupVerdict m' = em_lastGroupVerdict m.

Lemma same_trust_refl m : same_trust m m.
Proof. done. Qed.

Lemma same_trust_trans m1 m2 m3 : same_trust m1 m2 -> same_trust m2 m3 -> same_trust m1 m3.
Proof. intros (?&?&?&?) (?&?&?&?). split_and!; etransitivity; eassumption. Qed.

#[export] Hint Resolve same_trust_refl : safety_core.

Section trust.
Variable cfg : ManagerConfig.

Lemma query_same_trust m m' p : same_trust m m' -> QueryTrustState cfg p m' = QueryTrustState cfg p m.
Proof. intros (E1 & E2 & _). unfold QueryTrustState, EvaluateGroupVerdictLocked. by rewrite E1, E2. Qed.

Lemma create_bypass_trust event ts m : same_trust m (CreateBypassEvent cfg event ts m).2.
Proof. unfold CreateBypassEvent. by destruct (nextDaemonEventId _). Qed.

Lemma create_invalid_trust event ts m : same_trust m (CreateInvalidSourceEvent cfg event ts m).2.
Proof. unfold CreateInvalidSourceEvent. by destruct (nextDaemonEventId _). Qed.

Lemma process_trust event ts mode m : same_trust m (rt_manager (ProcessSafetyEventForFusion cfg event ts mode m)).
Proof.
  unfold ProcessSafetyEventForFusion, CreateBypassEvent, RegisterPipeline.
  repeat (case_match; simplify_eq/=); done.
Qed.

Lemma route_fusing_trust event ts mode m : same_trust m (route_fusing cfg event ts mode m).1.1.
Proof.
  unfold route_fusing. destruct (distrusted _).
  - pose proof (create_invalid_trust event ts m) as H. by destruct (CreateInvalidSourceEvent _ _ _ _).
  - destruct (negb _); [done|]. apply process_trust.
Qed.

Lemma route_bypassing_trust event ts mode m : same_trust m (route_bypassing cfg event ts mode m).1.
Proof.
  unfold route_bypassing. destruct (_ && _); [done|].
  pose proof (create_invalid_trust event ts m) as H1. pose proof (create_bypass_trust event ts m) as H2.
  destruct (distrusted _); [by destruct (CreateInvalidSourceEvent _ _ _ _)|by destruct (CreateBypassEvent _ _ _ _)].
Qed.

Lemma input_pass_trust ts mode m : same_trust m (input_pass cfg ts mode m).1.1.
Proof.
  unfold input_pass. destruct (em_inputSafetyEventQue m) as [|[k e] rest]; [done|]. destruct (mc_fusionEnabled cfg); [|done].
  eapply same_trust_trans; [|apply route_fusing_trust]. done.
Qed.

Lemma bypass_drain_trust budget ts mode m : same_trust m (bypass_drain cfg budget ts mode m).1.
Proof.
  revert m. induction budget as [|b IH]; intros m; [done|]. cbn.
  destruct (em_inputSafetyEventQue m) as [|[k e] rest]; [done|].
  pose proof (route_bypassing_trust e ts mode (set_queue rest m)) as H1.
  destruct (route_bypassing _ _ _ _ _) as [m1 s1]. pose proof (IH m1) as H2.
  destruct (bypass_drain _ _ _ _ m1) as [m2 s2]. cbn in *. by eapply same_trust_trans; [|exact H2].
Qed.

Lemma handle_fused_trust ts mode m : same_trust m (HandleFusedEvents cfg ts mode m).1.
Proof. unfold HandleFusedEvents. destruct (negb _); [apply bypass_drain_trust|]. by destruct (em_eventFusion m). Qed.

Lemma processor_pass_trust e sb mo ts mode m : same_trust m (processor_pass cfg e sb mo ts mode m).1.1.
Proof.
  unfold processor_pass.
  match goal with |- context [let '(_, _) := ?x in _] => destruct x as [m1 outs] eqn:E1 end.
  assert (same_trust m m1) as H1 by (repeat case_match; by simplify_eq/=).
  pose proof (handle_fused_trust ts mode m1) as H2. destruct (HandleFusedEvents _ _ _ _) as [m2 st].
  by eapply same_trust_trans.
Qed.

Lemma reassert_trust clock m : same_trust m (ReassertStandingVerdicts cfg clock m).
Proof. unfold ReassertStandingVerdicts. by destruct (make_events _ _ _). Qed.

(** ** The group verdict *)

(** Everything that happens to the manager. *)
Inductive ManagerStep :=
| StepReport (reporterClientType : Z) (event : SafetyEvent) (ts : timespec)
| StepArrive (clientId : Z) (event : SafetyEvent)
| StepInput (ts : timespec) (mode : OperationalMode)
| StepProcessor (ts : timespec) (mode : OperationalMode)
| StepReassert (clock : nat -> timespec).

Variable std_exp : spec_float -> spec_float.
Variable sort_by_time : list SafetyEvent -> list nat -> list nat.
Variable map_order : gmap EventType (list SafetyEvent) -> list EventType.

Definition manager_step (m : EventManager) (step : ManagerStep) : EventManager :=
  match step with
  | StepReport reporter event ts => (OnTrustReport cfg reporter event ts m).1
  | StepArrive clientId event => set_queue (em_inputSafetyEventQue m ++ [(clientId, event)]) m
  | StepInput ts mode => (input_pass cfg ts mode m).1.1
  | StepProcessor ts mode => (processor_pass cfg std_exp sort_by_time map_order ts mode m).1.1
  | StepReassert clock => ReassertStandingVerdicts cfg clock m
  end.

(** The reports the manager originates on a change of the group verdict. *)
Definition group_reports (m : EventManager) (step : ManagerStep) : list SafetyEvent :=
  match step with
  | StepReport _ _ _ => map snd (drop (length (em_inputSafetyEventQue m)) (em_inputSafetyEventQue (manager_step m step)))
  | _ => []
  end.

(** A run with the group reports it originated. *)
Definition manager_run (m : EventManager) (steps : list ManagerStep) : EventManager * list SafetyEvent :=
  foldl (fun '(m, log) step => (manager_step m step, log ++ group_reports m step)) (m, []) steps.

(** The verdict a receiver of these reports holds. *)
Definition told (reports : list SafetyEvent) : GroupVerdict :=
  match last reports with
  | None => GroupTrusted
  | Some e => if se_type e =? SENSOR_INVALID then GroupUntrusted else GroupTrusted
  end.

(** Each report changes what the receiver holds. *)
Definition alternating (reports : list SafetyEvent) : Prop :=
  forall pre e post, reports = pre ++ e :: post -> told (pre ++ [e]) <> told pre.

Definition group_report (e : SafetyEvent) : Prop :=
  (se_type e = SENSOR_INVALID \/ se_type e = SENSOR_VALID)
  /\ fm_pipelineID (se_fusionMetadata e) = mc_sensorGroupPipelineId cfg
  /\ se_sensorIdentifier e = snprintf_s (nameOf cfg (mc_sensorGroupPipelineId cfg)) MAX_INDENTIFIER_LENGTH.

Hypothesis group_members : mc_sensorGroupMembers cfg <> [].
Hypothesis group_named : nameOf cfg (mc_sensorGroupPipelineId cfg) <> [].

Record group_ok (m : EventManager) (log : list SafetyEvent) : Prop := {
  gok_verdict : EvaluateGroupVerdictLocked cfg m = GroupPending
                \/ EvaluateGroupVerdictLocked cfg m = em_lastEmittedGroupVerdict m;
  gok_emitted : em_lastEmittedGroupVerdict m = told log;
  gok_alternating : alternating log;
  gok_reports : Forall group_report log;
}.

Lemma told_snoc log e : told (log ++ [e]) = if se_type e =? SENSOR_INVALID then GroupUntrusted else GroupTrusted.
Proof. unfold told. by rewrite last_snoc. Qed.

Lemma alternating_snoc log e : alternating log -> told (log ++ [e]) <> told log -> alternating (log ++ [e]).
Proof.
  intros Ha He pre x post E. destruct post as [|y post _] using rev_ind.
  - apply app_inj_tail in E as [-> ->]. done.
  - rewrite app_comm_cons, app_assoc in E. apply app_inj_tail in E as [-> _]. by eapply Ha.
Qed.

Lemma group_ok_same_trust m m' log : same_trust m m' -> group_ok m log -> group_ok m' log.
Proof.
  intros (E1 & _ & E3 & _) [Hv He Ha Hr]. split; try done; unfold EvaluateGroupVerdictLocked in *; rewrite ?E1, ?E3; done.
Qed.

Lemma groupConfigured_true : groupConfigured cfg = true.
Proof. unfold groupConfigured. by destruct (mc_sensorGroupMembers cfg). Qed.

(** The event [EmitGroupTrustEvent] appends. *)
Lemma emit_appends type ts m :
  exists e, em_inputSafetyEventQue
              (EmitGroupTrustEvent type (mc_sensorGroupPipelineId cfg) (nameOf cfg (mc_sensorGroupPipelineId cfg)) ts m)
            = em_inputSafetyEventQue m ++ [(0, e)]
  /\ se_type e = type /\ fm_pipelineID (se_fusionMetadata e) = mc_sensorGroupPipelineId cfg
  /\ se_sensorIdentifier e = snprintf_s (nameOf cfg (mc_sensorGroupPipelineId cfg)) MAX_INDENTIFIER_LENGTH
  /\ same_trust m (EmitGroupTrustEvent type (mc_sensorGroupPipelineId cfg) (nameOf cfg (mc_sensorGroupPipelineId cfg)) ts m).
Proof.
  unfold EmitGroupTrustEvent. rewrite bool_decide_eq_false_2 by done. destruct (nextDaemonEventId _).
  eexists. split; [done|]. done.
Qed.

(** Applying a report keeps the verdict in step with what is emitted. *)
Lemma apply_report_verdict event m :
  let r := apply_trust_report cfg event m in
  em_inputSafetyEventQue r.1 = em_inputSafetyEventQue m
  /\ (EvaluateGroupVerdictLocked cfg m = GroupPending
      \/ EvaluateGroupVerdictLocked cfg m = em_lastEmittedGroupVerdict m ->
      EvaluateGroupVerdictLocked cfg r.1 = GroupPending
      \/ EvaluateGroupVerdictLocked cfg r.1 = em_lastEmittedGroupVerdict r.1)
  /\ match r.2 with
     | None => em_lastEmittedGroupVerdict r.1 = em_lastEmittedGroupVerdict m
     | Some v => v <> GroupPending /\ v <> em_lastEmittedGroupVerdict m /\ em_lastEmittedGroupVerdict r.1 = v
     end.
Proof.
  unfold apply_trust_report. rewrite groupConfigured_true, andb_true_r.
  destruct (isSensorTrustReport (se_type event)) eqn:Es.
  - cbn zeta. set (v := group_scan _ _ _). unfold EvaluateGroupVerdictLocked.
    destruct (decide (v = GroupPending)) as [Hp|Hp]; [rewrite (bool_decide_eq_true_2 _ Hp)|rewrite (bool_decide_eq_false_2 _ Hp)]; cbn [negb andb].
    + cbn. fold v. auto.
    + destruct (decide (v = em_lastEmittedGroupVerdict m)) as [He|He];
        [rewrite (bool_decide_eq_true_2 _ He)|rewrite (bool_decide_eq_false_2 _ He)]; cbn; fold v; auto.
  - unfold isSensorTrustReport in Es. apply orb_false_iff in Es as [-> ->]. cbn. auto.
Qed.

Lemma group_ok_step m log step : group_ok m log -> group_ok (manager_step m step) (log ++ group_reports m step).
Proof.
  intros Hok. destruct step as [reporter event ts|clientId event|ts mode|ts mode|clock];
    try (cbn; rewrite app_nil_r; eapply group_ok_same_trust; [|exact Hok];
         first [done|apply input_pass_trust|apply processor_pass_trust|apply reassert_trust]).
  unfold group_reports, manager_step, OnTrustReport.
  destruct (negb (trust_report_accepted cfg reporter event)); [cbn; by rewrite drop_all, app_nil_r|].
  destruct (apply_report_verdict event m) as (Eq & Hv & Hl).
  destruct (apply_trust_report cfg event m) as [m1 [v|]]; cbn [fst snd] in *.
  - destruct Hl as (Hnp & Hne & Hem). destruct Hok as [Hv0 He Ha Hr].
    destruct (emit_appends (if bool_decide (v = GroupUntrusted) then SENSOR_INVALID else SENSOR_VALID) ts m1)
      as (e & Eapp & Etype & Epipe & Ename & Htr).
    rewrite Eapp, Eq, drop_app_length. cbn [map snd].
    assert (told (log ++ [e]) = v) as Etold
      by (rewrite told_snoc, Etype; destruct v; done).
    eapply group_ok_same_trust; [exact Htr|]. split.
    + apply Hv. exact Hv0.
    + by rewrite Hem, Etold.
    + apply alternating_snoc; [done|]. rewrite Etold, <- He. done.
    + apply Forall_app_2; [done|]. constructor; [|done]. split_and!; [|done|done].
      rewrite Etype. case_bool_decide; auto.
  - rewrite Eq, drop_all. cbn [map]. rewrite app_nil_r. destruct Hok as [Hv0 He Ha Hr]. split; try done.
    + by apply Hv.
    + by rewrite Hl.
Qed.

Lemma group_start engine seed : group_ok (start_manager engine seed) [].
Proof.
  split; [right| | |constructor].
  - unfold EvaluateGroupVerdictLocked. cbn. by destruct (mc_sensorGroupMembers cfg).
  - done.
  - intros [] ? ? ?; done.
Qed.

Lemma manager_run_ok steps m log :
  group_ok m log ->
  let r := foldl (fun '(m, log) step => (manager_step m step, log ++ group_reports m step)) (m, log) steps in
  group_ok r.1 r.2.
Proof. revert m log. induction steps as [|st steps IH]; intros m log Hok; [done|]. cbn. by apply IH, group_ok_step. Qed.

(** C14. The decision makers always hold the verdict of the sensor group.  In
    every run, whatever reports arrive and however events are processed, the
    verdict of the members' current state is the one conveyed by the last group
    report originated (trusted before any), or is pending; every originated
    report names the group and changes what its receiver holds; and routing
    treats the group as invalid only if its receivers were told so. *)
Theorem group_verdict_known engine seed steps :
  let '(m, reports) := manager_run (start_manager engine seed) steps in
  (EvaluateGroupVerdictLocked cfg m = GroupPending \/ EvaluateGroupVerdictLocked cfg m = told reports)
  /\ alternating reports /\ Forall group_report reports
  /\ (ts_sensorInvalid (QueryTrustState cfg (mc_sensorGroupPipelineId cfg) m) = true -> told reports = GroupUntrusted).
Proof.
  pose proof (manager_run_ok steps _ [] (group_start engine seed)) as Hok. unfold manager_run.
  destruct (foldl _ _ steps) as [m reports]. destruct Hok as [Hv He Ha Hr]. cbn [fst snd] in *.
  rewrite He in Hv. split_and!; try done.
  unfold QueryTrustState, IsSensorGroupId. rewrite groupConfigured_true, Z.eqb_refl. cbn.
  case_bool_decide as Hu; [|done]. intros _. destruct Hv as [Hp|Hp]; congruence.
Qed.
End trust.

(** A report is applied exactly when its reporter may make it: a sensor verdict
    by the safety monitor and not for a group, an AI-pipeline verdict by the
    perception monitor.  A refused report changes nothing. *)
Lemma trust_report_authorised cfg reporter event ts m :
  let type := se_type event in
  ((OnTrustReport cfg reporter event ts m).2 = true <->
   ((type = SENSOR_INVALID \/ type = SENSOR_VALID) /\ reporter = CLIENT_SAFETY_MONITOR
    /\ IsSensorGroupId cfg (fm_pipelineID (se_fusionMetadata event)) = false)
   \/ ((type = AI_PIPELINE_INVALID \/ type = AI_PIPELINE_VALID) /\ reporter = CLIENT_PERCEPTION_MONITOR))
  /\ ((OnTrustReport cfg reporter event ts m).2 = false -> (OnTrustReport cfg reporter event ts m).1 = m).
Proof.
  intros type.
  assert ((OnTrustReport cfg reporter event ts m).2 = trust_report_accepted cfg reporter event) as E2.
  { unfold OnTrustReport. destruct (trust_report_accepted cfg reporter event); [|done]. cbn [negb].
    by destruct (apply_trust_report cfg event m) as [m1 [v|]]. }
  split.
  - rewrite E2. unfold trust_report_accepted, isSensorTrustReport, isAIPipelineTrustReport. fold type.
    unfold SENSOR_INVALID, SENSOR_VALID, AI_PIPELINE_INVALID, AI_PIPELINE_VALID, CLIENT_SAFETY_MONITOR, CLIENT_PERCEPTION_MONITOR.
    destruct (Z.eqb_spec type 26), (Z.eqb_spec type 27), (Z.eqb_spec type 28), (Z.eqb_spec type 29),
      (Z.eqb_spec reporter 2), (Z.eqb_spec reporter 4); try lia; cbn;
      try (destruct (IsSensorGroupId _ _)); cbn; split; intros; try done; try lia; intuition (try lia; try done).
  - rewrite E2. unfold OnTrustReport. intros ->. done.
Qed.

(** ** Fusion on and fusion off *)

Definition with_fusion (on : bool) (cfg : ManagerConfig) : ManagerConfig := {|
  mc_fusionEnabled := on; mc_maxPipelinesSupported := mc_maxPipelinesSupported cfg;
  mc_stalenessThresholdMs := mc_stalenessThresholdMs cfg; mc_sensorConfigIdToName := mc_sensorConfigIdToName cfg;
  mc_sensorGroupPipelineId := mc_sensorGroupPipelineId cfg; mc_sensorGroupMembers := mc_sensorGroupMembers cfg;
  mc_bypassFusionEvents := mc_bypassFusionEvents cfg |}.

(** The engine was built by [ConfigureMultiCameraFusion] for the configured
    number of pipelines. *)
Definition engine_matches (cfg : ManagerConfig) (m : EventManager) : Prop :=
  exists engine, em_eventFusion m = Some engine
                 /\ fc_maxSupportedPipelines (fe_config engine) = mc_maxPipelinesSupported cfg.

Section modes.
Variables (cfg : ManagerConfig) (event : SafetyEvent) (ts : timespec) (mode : OperationalMode) (m : EventManager).

Definition event_pipeline : Z := fm_pipelineID (se_fusionMetadata event).

(** The trust the event is routed by, and its freshness. *)
Definition event_trust : TrustState := QueryTrustState cfg event_pipeline m.
Definition event_stale : bool := isEventStale cfg (se_timestamp event) (monotonicNowMs ts).

(** What both modes stage for an event that is only evidence. *)
Definition evidence (severity : SeverityLevel) : Enqueue :=
  stage (forward_event cfg severity event (nextDaemonEventId (em_eventIdCounter m)).1 ts) event_trust mode.

Lemma bypassing_distrusted :
  distrusted event_trust = true ->
  route_bypassing (with_fusion false cfg) event ts mode m
  = (set_counter (nextDaemonEventId (em_eventIdCounter m)).2 m, [evidence CRITICAL]).
Proof.
  intros Hd. unfold route_bypassing.
  change (QueryTrustState (with_fusion false cfg) _ m) with event_trust. rewrite Hd. cbn [negb andb].
  unfold CreateInvalidSourceEvent, evidence. by destruct (nextDaemonEventId _).
Qed.

Lemma fusing_distrusted :
  distrusted event_trust = true ->
  route_fusing (with_fusion true cfg) event ts mode m
  = (set_counter (nextDaemonEventId (em_eventIdCounter m)).2 m, [evidence CRITICAL], None).
Proof.
  intros Hd. unfold route_fusing.
  change (QueryTrustState (with_fusion true cfg) _ m) with event_trust. rewrite Hd.
  unfold CreateInvalidSourceEvent, evidence. by destruct (nextDaemonEventId _).
Qed.

Lemma bypassing_trusted :
  distrusted event_trust = false ->
  (route_bypassing (with_fusion false cfg) event ts mode m).2
  = if ValidateEventSource cfg event then [evidence OPERATIONAL] else [].
Proof.
  intros Hd. unfold route_bypassing.
  change (QueryTrustState (with_fusion false cfg) _ m) with event_trust. rewrite Hd. cbn [negb andb].
  change (ValidateEventSource (with_fusion false cfg) event) with (ValidateEventSource cfg event).
  destruct (ValidateEventSource cfg event); [|done]. cbn [negb].
  unfold CreateBypassEvent, evidence. by destruct (nextDaemonEventId _).
Qed.

Lemma stale_status severity id : (ev_status (forward_event cfg severity event id ts) =? STALE) = event_stale.
Proof. unfold forward_event, event_stale. cbn. by destruct (isEventStale _ _ _). Qed.

(** Registration of a validated pipeline cannot fail. *)
Lemma validated_in_range : ValidateEventSource cfg event = true -> event_pipeline <= mc_maxPipelinesSupported cfg.
Proof. unfold ValidateEventSource. fold event_pipeline. destruct (Z.ltb_spec (mc_maxPipelinesSupported cfg) event_pipeline); [done|lia]. Qed.

Lemma fusing_trusted_stale :
  engine_matches cfg m -> distrusted event_trust = false -> ValidateEventSource cfg event = true -> event_stale = true ->
  se_type event ∉ mc_bypassFusionEvents cfg ->
  (route_fusing (with_fusion true cfg) event ts mode m).1.2 = [evidence OPERATIONAL]
  /\ (forall e e', em_eventFusion m = Some e -> em_eventFusion (route_fusing (with_fusion true cfg) event ts mode m).1.1 = Some e' ->
        fe_eventTypeQueues e' = fe_eventTypeQueues e /\ fe_fusedEvents e' = fe_fusedEvents e).
Proof.
  intros (engine & He & Hmax) Hd Hv Hs Hb. unfold route_fusing.
  change (QueryTrustState (with_fusion true cfg) (fm_pipelineID (se_fusionMetadata event)) m) with event_trust. rewrite Hd.
  change (ValidateEventSource (with_fusion true cfg) event) with (ValidateEventSource cfg event). rewrite Hv. cbn [negb].
  unfold ProcessSafetyEventForFusion. cbn [mc_fusionEnabled with_fusion]. rewrite He. fold event_pipeline.
  pose proof (validated_in_range Hv) as Hr.
  assert (forall m1 e1, same_trust m m1 -> em_eventIdCounter m1 = em_eventIdCounter m ->
    em_eventFusion m1 = Some e1 ->
    let r := (let '(fusedEvent, m2) := CreateBypassEvent (with_fusion true cfg) event ts m1 in
      if bool_decide (se_type event ∈ mc_bypassFusionEvents (with_fusion true cfg)) then
        mkRouted m2 [stage_bypass fusedEvent mode] NVPSSD_SUCCESS
      else if ev_status fusedEvent =? STALE then
        mkRouted m2 [stage fusedEvent (QueryTrustState (with_fusion true cfg) event_pipeline m2) mode] NVPSSD_SUCCESS
      else let r := ProcessNewSafetyEvent ts event e1 in mkRouted (with_engine (fr_state r) m2) [] (fr_code r)) in
    rt_staged r = [evidence OPERATIONAL] /\ em_eventFusion (rt_manager r) = Some e1) as Hrest.
  { intros m1 e1 Ht Ec Ee. unfold CreateBypassEvent. rewrite Ec. destruct (nextDaemonEventId _) as [id counter] eqn:En.
    rewrite bool_decide_eq_false_2 by exact Hb.
    change (forward_event (with_fusion true cfg)) with (forward_event cfg). rewrite stale_status, Hs. cbn.
    split; [|done]. unfold evidence. rewrite En. cbn [fst]. do 2 f_equal.
    change (QueryTrustState (with_fusion true cfg) event_pipeline (set_counter counter m1))
      with (QueryTrustState cfg event_pipeline (set_counter counter m1)).
    apply query_same_trust. by eapply same_trust_trans; [exact Ht|]. }
  destruct (negb (event_pipeline =? 0) && _) eqn:Ereg.
  - unfold RegisterPipeline. apply andb_true_iff in Ereg as [Ez _]. apply negb_true_iff in Ez. rewrite Ez.
    rewrite Hmax, (proj2 (Z.ltb_ge _ _) Hr). cbn [orb].
    destruct (Hrest (set_engine (em_registeredPipelines m ∪ {[event_pipeline]})
      (Some (set_fe_registered (fe_registeredPipelines engine ∪ {[event_pipeline]}) engine)) m) _
      ltac:(done) eq_refl eq_refl) as [H1 H2].
    split; [exact H1|]. intros e e' He1 He'. pose proof (eq_trans (eq_sym He') H2) as E. by simplify_eq/=.
  - destruct (Hrest m engine (same_trust_refl m) eq_refl He) as [H1 H2].
    split; [exact H1|]. intros e e' He1 He'. pose proof (eq_trans (eq_sym He') H2) as E. by simplify_eq/=.
Qed.

End modes.

(** ** Delivery of the engine's output *)

Lemma insert_by_time_perm e l : insert_by_time e l ≡ₚ e :: l.
Proof. induction l as [|x l IH]; cbn; [done|]. destruct (_ <? _); [|done]. rewrite IH. apply Permutation_swap. Qed.

Definition time_ordered : list FusedSafetyEvent -> Prop := StronglySorted (fun a b => ev_timestamp a <= ev_timestamp b).

Lemma insert_by_time_sorted e l : time_ordered l -> time_ordered (insert_by_time e l).
Proof.
  unfold time_ordered. induction 1 as [|x l Hl IH Hx]; cbn; [repeat constructor|].
  destruct (Z.ltb_spec (ev_timestamp x) (ev_timestamp e)).
  - constructor; [done|]. rewrite insert_by_time_perm. constructor; [lia|done].
  - constructor; [by constructor|]. constructor; [done|]. eapply Forall_impl; [exact Hx|]. cbn. lia.
Qed.

Lemma stable_sort_perm l : stable_sort_by_time l ≡ₚ l.
Proof. unfold stable_sort_by_time. induction l as [|e l IH]; [done|]. cbn. by rewrite insert_by_time_perm, IH. Qed.

Lemma stable_sort_sorted l : time_ordered (stable_sort_by_time l).
Proof. unfold stable_sort_by_time. induction l as [|e l IH]; cbn; [constructor|by apply insert_by_time_sorted]. Qed.

(** With fusion on, every event the engine has output is staged exactly once
    and then removed from the engine; the staging calls come in timestamp order,
    and each carries the trust of its source at that moment. *)
Theorem engine_output_staged cfg ts mode m engine :
  mc_fusionEnabled cfg = true -> em_eventFusion m = Some engine ->
  let '(m', staged) := HandleFusedEvents cfg ts mode m in
  (exists sorted, sorted ≡ₚ fe_fusedEvents engine /\ time_ordered sorted
     /\ staged = map (fun e => stage e (QueryTrustState cfg (fm_pipelineID (ev_fusionMetadata e)) m) mode) sorted)
  /\ exists engine', em_eventFusion m' = Some engine' /\ fe_fusedEvents engine' = []
     /\ fe_eventTypeQueues engine' = fe_eventTypeQueues engine
     /\ fe_processedEventIds engine' = fe_processedEventIds engine.
Proof.
  intros Hon He. unfold HandleFusedEvents. rewrite Hon, He. cbn [negb]. split.
  - eexists; split; [apply stable_sort_perm|]. split; [apply stable_sort_sorted|done].
  - assert (length (stable_sort_by_time (fe_fusedEvents engine)) = length (fe_fusedEvents engine)) as ->
      by apply Permutation_length, stable_sort_perm.
    eexists; split; [done|]. unfold ClearFusedEvents.
    destruct (fe_fusedEvents engine) as [|e l] eqn:Ef; [cbn; by rewrite Ef|].
    rewrite (proj2 (Nat.ltb_ge _ _)) by done. cbn. by rewrite drop_all.
Qed.

(** With fusion off, a tick takes the first events of the input queue in order,
    at most [kBypassDrainPerTick] of them, and leaves the rest. *)
Lemma bypass_drain_takes cfg budget ts mode m :
  em_inputSafetyEventQue (bypass_drain cfg budget ts mode m).1 = drop budget (em_inputSafetyEventQue m).
Proof.
  revert m. induction budget as [|b IH]; intros m; [done|]. cbn [bypass_drain].
  destruct (em_inputSafetyEventQue m) as [|[k e] rest] eqn:Eq; [cbn; by rewrite Eq|].
  assert (em_inputSafetyEventQue (route_bypassing cfg e ts mode (set_queue rest m)).1 = rest) as E1.
  { unfold route_bypassing, CreateInvalidSourceEvent, CreateBypassEvent.
    destruct (nextDaemonEventId _). repeat case_match; by simplify_eq/=. }
  destruct (route_bypassing _ _ _ _ _) as [m1 s1]. pose proof (IH m1) as H.
  destruct (bypass_drain _ _ _ _ m1) as [m2 s2]. cbn in *. by rewrite H, E1.
Qed.

(** ** Standing verdicts *)

Lemma snprintf_terminated name : isNulTerminated (snprintf_s name MAX_INDENTIFIER_LENGTH) MAX_INDENTIFIER_LENGTH = true.
Proof.
  unfold snprintf_s. set (t := take _ (c_str name)).
  assert (length t < MAX_INDENTIFIER_LENGTH)%nat as Hl
    by (unfold t; rewrite length_take; unfold MAX_INDENTIFIER_LENGTH; lia).
  clearbody t. revert Hl. generalize MAX_INDENTIFIER_LENGTH. induction t as [|c t IH]; intros [|n] Hl; cbn in *; try lia; try done.
  destruct (c =? 0); [done|]. apply IH. lia.
Qed.

Lemma make_events_spec verdicts clock counter :
  is_u32 counter ->
  Forall2 (fun e '(type, p, cause, name) =>
    exists id now, e = daemon_event id type now p cause name /\ reserved_id id = false
                   /\ exists k, now = monotonicNowNs (clock k))
    (make_events verdicts clock counter).1 verdicts.
Proof.
  revert clock counter. induction verdicts as [|[[[type p] cause] name] rest IH]; intros clock counter Hc; [constructor|].
  cbn [make_events]. destruct (draw_start counter Hc) as (id & Hd & Hid).
  rewrite (next_draw _ _ Hd).
  pose proof (IH (fun k => clock (S k)) (u32 (id + 1)) (u32_range _)) as H.
  destruct (make_events rest _ _) as [events c2]. constructor.
  - exists id, (monotonicNowNs (clock 0%nat)). split_and!; [done| |by eexists].
    unfold reserved_id, usable_id, UINT32_MAX in *.
    rewrite (proj2 (Z.eqb_neq _ 0)), (proj2 (Z.eqb_neq _ 4294967295)) by lia. done.
  - eapply Forall2_impl; [exact H|]. intros e [[[? ?] ?] ?] (id' & now & -> & ? & k & ->). eauto 10.
Qed.

(** The verdicts that stand. *)
Lemma standing_verdicts_spec cfg m type p cause name :
  (type, p, cause, name) ∈ standing_verdicts cfg m <->
  (type = AI_PIPELINE_INVALID /\ p = 0 /\ cause = CAUSE_NONE /\ name = [] /\ em_aiPipelineInvalidGlobal m = true)
  \/ (type = SENSOR_INVALID /\ name = nameOf cfg p /\ name <> [] /\
      if groupConfigured cfg
      then p = mc_sensorGroupPipelineId cfg /\ cause = CAUSE_SAIM_UNKNOWN /\ em_lastEmittedGroupVerdict m = GroupUntrusted
      else em_invalidSensors m !! p = Some cause).
Proof.
  unfold standing_verdicts. rewrite !elem_of_app.
  assert (forall l, (type, p, cause, name) ∈ map (fun c => (SENSOR_INVALID, c.1, c.2, nameOf cfg c.1)) (filter (fun c => nameOf cfg c.1 <> []) l)
    <-> type = SENSOR_INVALID /\ name = nameOf cfg p /\ name <> [] /\ (p, cause) ∈ l) as Hmap.
  { intros l. change (map ?f ?x) with (f <$> x). rewrite list_elem_of_fmap. split.
    - intros ([p' c'] & [= -> -> -> ->] & Hin). apply list_elem_of_filter in Hin as [? ?]. auto.
    - intros (-> & -> & Hn & Hin). exists (p, cause). split; [done|]. by apply list_elem_of_filter. }
  rewrite Hmap. destruct (groupConfigured cfg); cbn [andb].
  - destruct (em_aiPipelineInvalidGlobal m); case_bool_decide as Hu; cbn [andb]; try case_bool_decide as Hn; cbn [negb];
      rewrite ?list_elem_of_singleton, ?elem_of_nil; naive_solver.
  - rewrite (merge_sort_Permutation pipeline_le), elem_of_map_to_list.
    destruct (em_aiPipelineInvalidGlobal m); rewrite ?list_elem_of_singleton, ?elem_of_nil; naive_solver.
Qed.

(** Once per status interval every INVALID verdict that stands is said again,
    and nothing else: the AI-pipeline verdict, the sensor group as last told (or,
    without a group, each invalid camera with its recorded cause), in valid,
    CRC-stamped reports that name their sensor and carry an unreserved id.  The
    trust state itself does not change. *)
Theorem standing_verdicts_reasserted cfg clock m :
  is_u32 (em_eventIdCounter m) -> (forall k, monotonicNowNs (clock k) <> 0) ->
  map_Forall (fun _ cause => cause < CAUSE_COUNT) (em_invalidSensors m) ->
  let m' := ReassertStandingVerdicts cfg clock m in
  same_trust m m'
  /\ exists events, em_inputSafetyEventQue m' = em_inputSafetyEventQue m ++ map (fun e => (0, e)) events
  /\ Forall (fun e => validateSafetyEvent (Some e) = PSS_VALID /\ reserved_id (se_id e) = false /\ se_processed e = false) events
  /\ (forall type p cause,
        (exists e, e ∈ events /\ se_type e = type /\ fm_pipelineID (se_fusionMetadata e) = p /\ se_cause e = cause) <->
        (type = AI_PIPELINE_INVALID /\ p = 0 /\ cause = CAUSE_NONE /\ em_aiPipelineInvalidGlobal m = true)
        \/ (type = SENSOR_INVALID /\ nameOf cfg p <> [] /\
            if groupConfigured cfg
            then p = mc_sensorGroupPipelineId cfg /\ cause = CAUSE_SAIM_UNKNOWN /\ em_lastEmittedGroupVerdict m = GroupUntrusted
            else em_invalidSensors m !! p = Some cause)).
Proof.
  intros Hc Hclock Hcauses m'. split; [apply reassert_trust|]. unfold m', ReassertStandingVerdicts.
  pose proof (make_events_spec (standing_verdicts cfg m) clock (em_eventIdCounter m) Hc) as HF.
  destruct (make_events _ _ _) as [events counter]. cbn [fst] in HF. exists events. split; [done|]. split.
  - apply Forall_lookup. intros i e Hi. destruct (Forall2_lookup_l _ _ _ _ _ HF Hi) as ([[[type p] cause] name] & Hv & Hspec).
    apply list_elem_of_lookup_2 in Hv. apply standing_verdicts_spec in Hv.
    destruct Hspec as (id & now & -> & Hid & k & ->).
    split_and!; [|exact Hid|done]. apply validateSafetyEvent_zero. split_and!; [done|apply SafetyEventSetCRC_verifies|].
    split; cbn; [|by vm_compute|apply Hclock|apply snprintf_terminated| |by vm_compute].
    + destruct Hv as [(-> & _)|(-> & _)]; by vm_compute.
    + destruct Hv as [(_ & _ & -> & _)|(_ & _ & _ & Hv)]; [by vm_compute|].
      destruct (groupConfigured cfg); [destruct Hv as (_ & -> & _); by vm_compute|]. by apply Hcauses in Hv.
  - intros type p cause. split.
    + intros (e & He & Ht & Hp & Hca). apply list_elem_of_lookup in He as [i Hi].
      destruct (Forall2_lookup_l _ _ _ _ _ HF Hi) as ([[[type' p'] cause'] name] & Hv & id & now & -> & _).
      apply list_elem_of_lookup_2, standing_verdicts_spec in Hv. cbn in Ht, Hp, Hca. subst.
      destruct Hv as [(-> & -> & -> & _ & ?)|(-> & -> & Hn & Hg)]; auto.
    + intros Hv. assert (exists name, (type, p, cause, name) ∈ standing_verdicts cfg m) as [name Hin].
      { destruct Hv as [(-> & -> & -> & ?)|(-> & Hn & Hg)]; [exists []|exists (nameOf cfg p)]; apply standing_verdicts_spec; auto 10. }
      apply list_elem_of_lookup in Hin as [i Hi].
      destruct (Forall2_lookup_r _ _ _ _ _ HF Hi) as (e & He & id & now & -> & _).
      eexists. split; [by eapply list_elem_of_lookup_2|done].
Qed.

(** ** An example installation: two cameras forming a group *)

Definition name_camera1 : list Z := bytes_of_string "cam1".
Definition name_camera2 : list Z := bytes_of_string "cam2".
Definition name_group : list Z := bytes_of_string "bev".

Definition demo_manager_config : ManagerConfig := {|
  mc_fusionEnabled := true; mc_maxPipelinesSupported := 4; mc_stalenessThresholdMs := 400;
  mc_sensorConfigIdToName := {[1 := name_camera1; 2 := name_camera2; 3 := name_group]};
  mc_sensorGroupPipelineId := 3; mc_sensorGroupMembers := [1; 2];
  mc_bypassFusionEvents := {[SW_FAIL; SENSOR_INVALID; SENSOR_VALID; AI_PIPELINE_INVALID; AI_PIPELINE_VALID]} |}.

Definition demo_fusion_config : FusionConfig := {|
  fc_timeWindowSize := 400; fc_fusionThreshold := f32_value_one; fc_alpha := f32_value_one; fc_beta := f32_pos_zero;
  fc_gamma := f32_pos_zero; fc_temporalTolerance := 100; fc_trajectoryCount := 3; fc_maxSupportedPipelines := 4;
  fc_earlyTerminationThreshold := f32_value_one; fc_enableEarlyTermination := false |}.

Definition seconds (s : Z) : timespec := {| tv_sec := s; tv_nsec := 0 |}.

Definition sensor_event (type pipeline : Z) (cause : EventCause) (name : list Z) (s : Z) : SafetyEvent :=
  daemon_event 9 type (monotonicNowNs (seconds s)) pipeline cause name.

Definition demo_start : EventManager := start_manager (Some (SafetyEventFusion demo_fusion_config)) 100.

Definition demo_steps : list ManagerStep :=
  let sm := CLIENT_SAFETY_MONITOR in
  [StepReport sm (sensor_event SENSOR_INVALID 1 CAUSE_SAIM_FRAME_DROP name_camera1 5) (seconds 5);
   StepReport sm (sensor_event SENSOR_INVALID 2 CAUSE_SAIM_INIT name_camera2 6) (seconds 6);
   StepInput (seconds 6) NORMAL;
   StepReport sm (sensor_event SENSOR_INVALID 2 CAUSE_SAIM_FRAME_DROP name_camera2 7) (seconds 7);
   StepReport sm (sensor_event SENSOR_VALID 3 CAUSE_SAIM_SENSOR_HEALTHY name_group 8) (seconds 8);
   StepInput (seconds 8) NORMAL].

Definition idle_exp (x : spec_float) : spec_float := x.
Definition idle_sort (_ : list SafetyEvent) (l : list nat) : list nat := l.
Definition idle_order (q : gmap EventType (list SafetyEvent)) : list EventType := elements (dom q).

Definition demo_run : EventManager * list SafetyEvent :=
  manager_run demo_manager_config idle_exp idle_sort idle_order demo_start demo_steps.

(** One camera initialising keeps the verdict pending; both failed make it
    untrusted, one report; the client's claim that the group is valid changes
    nothing. *)
Lemma group_verdict_known_witness :
  (EvaluateGroupVerdictLocked demo_manager_config demo_run.1 = GroupUntrusted /\ map se_type demo_run.2 = [SENSOR_INVALID])
  /\ (let '(m, reports) := demo_run in
      EvaluateGroupVerdictLocked demo_manager_config m = GroupPending
      \/ EvaluateGroupVerdictLocked demo_manager_config m = told reports).
Proof.
  split; [by vm_compute|].
  pose proof (group_verdict_known demo_manager_config idle_exp idle_sort idle_order
    ltac:(by vm_compute) ltac:(by vm_compute) (Some (SafetyEventFusion demo_fusion_config)) 100 demo_steps) as H.
  fold demo_start in H. unfold demo_run. destruct (manager_run _ _ _ _ _ _) as [m reports]. apply H.
Defined.


Definition demo_output : FusionEngine :=
  fe_output [set_ev_id 1 zero_event; set_ev_id 2 zero_event] [] (SafetyEventFusion demo_fusion_config).

Lemma engine_output_staged_witness :
  let m := start_manager (Some demo_output) 100 in
  exists engine', em_eventFusion (HandleFusedEvents demo_manager_config (seconds 7) NORMAL m).1 = Some engine'
                  /\ fe_fusedEvents engine' = [].
Proof.
  intros m.
  pose proof (engine_output_staged demo_manager_config (seconds 7) NORMAL m demo_output eq_refl eq_refl) as H.
  destruct (HandleFusedEvents _ _ _ _) as [m' staged]. destruct H as (_ & e' & He & Hf & _). by exists e'.
Defined.

Lemma standing_verdicts_reasserted_witness :
  let m := demo_run.1 in
  map (fun e => (se_type e.2, fm_pipelineID (se_fusionMetadata e.2)))
      (em_inputSafetyEventQue (ReassertStandingVerdicts demo_manager_config (fun _ => seconds 9) m)) = [(SENSOR_INVALID, 3)]
  /\ same_trust m (ReassertStandingVerdicts demo_manager_config (fun _ => seconds 9) m).
Proof.
  intros m. split; [by vm_compute|].
  apply (standing_verdicts_reasserted demo_manager_config (fun _ => seconds 9) m).
  - unfold is_u32. by vm_compute.
  - intros k. by vm_compute.
  - apply (bool_decide_eq_true_1 (map_Forall _ _)). by vm_compute.
Defined.
