(* ===== verification/Rpc.v ===== *)
(** * The client interface of the daemon

    [NvPSSDRPC.cpp]: registration, heartbeats, reports and the loss of a client.
    A client occupies a slot.  Every [std::map] the class keys by client id is a
    field of the slot ([None] when the map has no entry), so iterating over a map
    is walking the slots in order; client ids are slot numbers, all below
    [maxClients], the number of slots.  The bit masks, the mirror of the safety
    monitor's tier and the queue of pending disconnects are kept beside them.

    A handler returns the new state and the [RpcAction]s it performs, in order:
    events pushed on the input queue, responses and dropped peers.  [heartbeatMutex]
    makes each one a step; the heartbeat monitor's tick runs on another thread and
    is a step of its own.  Clock readings, the transport's outcomes and the state of
    the event manager are arguments.  Whether a response arrives changes nothing in
    the server; log records and the records deferred to [flushDeferredRecords] are
    not modelled. *)

From S2P Require Import Prelude Protocol Crc EventCodec Validate EventManager.

Definition MAX_POSSIBLE_CLIENTS : nat := 100.
Definition CLIENT_MDX : Z := 1.
Definition CLIENT_PSD_GATEWAY : Z := 3.
Definition PSS_MDX_INSTANCE_MAX : Z := 8.
Definition REGISTER_ACCEPTED : Z := 1.
Definition REGISTER_REJECTED_DUPLICATE_TYPE : Z := 2.
Definition REGISTER_REJECTED_INVALID_TYPE : Z := 3.
Definition REGISTER_REJECTED_INVALID_INSTANCE : Z := 4.
Definition TERMINATE_ACCEPTED : Z := 1.
Definition REPORT_ACCEPTED : Z := 1.
Definition REPORT_REJECTED_CLIENTID_MISMATCH : Z := 2.
Definition REPORT_REJECTED_UNAUTHORIZED : Z := 3.
Definition REPORT_REJECTED_LOW_CONFIDENCE : Z := 4.
Definition REPORT_REJECTED_VALIDATION_FAILED : Z := 5.
Definition REPORT_REJECTED_UNRESOLVED_SENSOR : Z := 6.
Definition HEARTBEAT_ACK : Z := 1.
Definition HB_MSG : Z := 0x7E.
Definition HB_INTERVAL_MS : Z := 5000.
Definition HB_STALE_GRACE_MS : Z := 1500.
Definition HB_TIMEOUT_MS : Z := HB_INTERVAL_MS + HB_STALE_GRACE_MS.
Definition NVPSS_CLIENT_REJECT_ERROR_THRESHOLD_MIN : Z := 3.
Definition NVPSS_CLIENT_REJECT_ERROR_THRESHOLD_MAX : Z := 10000.
Definition NVPSS_CLIENT_REJECT_ERROR_THRESHOLD_DEFAULT : Z := 50.
Definition kNoSafetyMonitorClientId : Z := UINT32_MAX.

(** [NvPSSDRPCMsg], as the [int] on the wire. *)
Definition REGISTER_CLIENT : Z := 0.
Definition TERMINATE_CLIENT : Z := 1.
Definition REPORT_SAFETY_EVENT : Z := 2.
Definition SEND_HEARTBEAT : Z := 3.

Record NvPSSDRPCMsgReq := { rq_msg : Z; rq_reqSeqNo : Z; rq_size : Z; rq_payload : list Z }.

(** The payload is given up to [size]; the rest is zero. *)
Record NvPSSDRPCMsgResp := { rs_respSeqNo : Z; rs_payload : list Z }.

Definition payload_at (req : NvPSSDRPCMsgReq) (k : nat) : Z := nth k (rq_payload req) 0.

(** ** State *)

Record Heartbeat := {
  hb_last : option Z;
  hb_count : option Z;
  hb_miss : option Z;
  hb_missFast : Z;
  hb_fault : option bool;
  hb_faultFast : Z;
}.

Record RejectEpisode := {
  rj_streak : option Z;
  rj_pipeline : option Z;
  rj_raised : option bool;
  rj_noted : option bool;
}.

Record ClientSlot := {
  cs_peer : Z;
  cs_generation : Z;
  cs_type : option Z;
  cs_instance : option Z;
  cs_hb : Heartbeat;
  cs_rej : RejectEpisode;
}.

Record SourceMasks := {
  ms_required : Z;
  ms_everRegistered : Z;
  ms_everPresent : Z;
  ms_due : bool;
  ms_neverRaised : Z;
  ms_neverPending : Z;
  ms_expected : Z;
  ms_presence : Z;
}.

Record InputState := { in_confirmed : Z; in_unusablePublished : Z; in_confirmedPublished : Z }.

Record MonitorCache := {
  mo_clientId : Z;
  mo_miss : Z;
  mo_fault : bool;
  mo_cacheMaxMiss : Z;
  mo_cacheAnyFault : bool;
}.

Record Rpc := {
  rp_slots : list ClientSlot;
  rp_masks : SourceMasks;
  rp_input : InputState;
  rp_monitor : MonitorCache;
  rp_threshold : Z;
  rp_pending : list (nat * Z);
  rp_pendingSeen : gset nat;
  rp_startTime : Z;
}.

Definition no_heartbeat : Heartbeat :=
  {| hb_last := None; hb_count := None; hb_miss := None; hb_missFast := 0; hb_fault := None; hb_faultFast := 0 |}.
Definition no_episode : RejectEpisode := {| rj_streak := None; rj_pipeline := None; rj_raised := None; rj_noted := None |}.

Definition free_slot : ClientSlot := {|
  cs_peer := NVPSF_PEER_INVALID; cs_generation := 0; cs_type := None; cs_instance := None;
  cs_hb := no_heartbeat; cs_rej := no_episode |}.

Definition no_monitor : MonitorCache := {|
  mo_clientId := kNoSafetyMonitorClientId; mo_miss := 0; mo_fault := false; mo_cacheMaxMiss := 0; mo_cacheAnyFault := false |}.

(** The constructor. *)
Definition new_rpc (maxClients : nat) (startTime : Z) : Rpc := {|
  rp_slots := replicate maxClients free_slot;
  rp_masks := {| ms_required := 0; ms_everRegistered := 0; ms_everPresent := 0; ms_due := false;
                 ms_neverRaised := 0; ms_neverPending := 0; ms_expected := 0; ms_presence := 0 |};
  rp_input := {| in_confirmed := 0; in_unusablePublished := 0; in_confirmedPublished := 0 |};
  rp_monitor := no_monitor; rp_threshold := NVPSS_CLIENT_REJECT_ERROR_THRESHOLD_DEFAULT;
  rp_pending := []; rp_pendingSeen := ∅; rp_startTime := startTime |}.

(** ** Field updates *)

Definition set_slots (l : list ClientSlot) (r : Rpc) : Rpc := {|
  rp_slots := l; rp_masks := rp_masks r; rp_input := rp_input r; rp_monitor := rp_monitor r;
  rp_threshold := rp_threshold r; rp_pending := rp_pending r; rp_pendingSeen := rp_pendingSeen r;
  rp_startTime := rp_startTime r |}.

Definition set_masks (m : SourceMasks) (r : Rpc) : Rpc := {|
  rp_slots := rp_slots r; rp_masks := m; rp_input := rp_input r; rp_monitor := rp_monitor r;
  rp_threshold := rp_threshold r; rp_pending := rp_pending r; rp_pendingSeen := rp_pendingSeen r;
  rp_startTime := rp_startTime r |}.

Definition set_input (i : InputState) (r : Rpc) : Rpc := {|
  rp_slots := rp_slots r; rp_masks := rp_masks r; rp_input := i; rp_monitor := rp_monitor r;
  rp_threshold := rp_threshold r; rp_pending := rp_pending r; rp_pendingSeen := rp_pendingSeen r;
  rp_startTime := rp_startTime r |}.

Definition set_monitor (m : MonitorCache) (r : Rpc) : Rpc := {|
  rp_slots := rp_slots r; rp_masks := rp_masks r; rp_input := rp_input r; rp_monitor := m;
  rp_threshold := rp_threshold r; rp_pending := rp_pending r; rp_pendingSeen := rp_pendingSeen r;
  rp_startTime := rp_startTime r |}.

Definition set_threshold (t : Z) (r : Rpc) : Rpc := {|
  rp_slots := rp_slots r; rp_masks := rp_masks r; rp_input := rp_input r; rp_monitor := rp_monitor r;
  rp_threshold := t; rp_pending := rp_pending r; rp_pendingSeen := rp_pendingSeen r;
  rp_startTime := rp_startTime r |}.

Definition set_pending (l : list (nat * Z)) (seen : gset nat) (r : Rpc) : Rpc := {|
  rp_slots := rp_slots r; rp_masks := rp_masks r; rp_input := rp_input r; rp_monitor := rp_monitor r;
  rp_threshold := rp_threshold r; rp_pending := l; rp_pendingSeen := seen;
  rp_startTime := rp_startTime r |}.

Definition set_presence (p : Z) (m : SourceMasks) : SourceMasks := {|
  ms_required := ms_required m; ms_everRegistered := ms_everRegistered m; ms_everPresent := ms_everPresent m;
  ms_due := ms_due m; ms_neverRaised := ms_neverRaised m; ms_neverPending := ms_neverPending m;
  ms_expected := ms_expected m; ms_presence := p |}.

Definition set_ever (registered present : Z) (m : SourceMasks) : SourceMasks := {|
  ms_required := ms_required m; ms_everRegistered := registered; ms_everPresent := present;
  ms_due := ms_due m; ms_neverRaised := ms_neverRaised m; ms_neverPending := ms_neverPending m;
  ms_expected := ms_expected m; ms_presence := ms_presence m |}.

Definition set_required (required : Z) (due : bool) (m : SourceMasks) : SourceMasks := {|
  ms_required := required; ms_everRegistered := ms_everRegistered m; ms_everPresent := ms_everPresent m;
  ms_due := due; ms_neverRaised := ms_neverRaised m; ms_neverPending := ms_neverPending m;
  ms_expected := ms_expected m; ms_presence := ms_presence m |}.

Definition set_never (raised pending : Z) (m : SourceMasks) : SourceMasks := {|
  ms_required := ms_required m; ms_everRegistered := ms_everRegistered m; ms_everPresent := ms_everPresent m;
  ms_due := ms_due m; ms_neverRaised := raised; ms_neverPending := pending;
  ms_expected := ms_expected m; ms_presence := ms_presence m |}.

Definition set_expected (e : Z) (m : SourceMasks) : SourceMasks := {|
  ms_required := ms_required m; ms_everRegistered := ms_everRegistered m; ms_everPresent := ms_everPresent m;
  ms_due := ms_due m; ms_neverRaised := ms_neverRaised m; ms_neverPending := ms_neverPending m;
  ms_expected := e; ms_presence := ms_presence m |}.

Definition set_peer (peer : Z) (s : ClientSlot) : ClientSlot := {|
  cs_peer := peer; cs_generation := cs_generation s; cs_type := cs_type s; cs_instance := cs_instance s;
  cs_hb := cs_hb s; cs_rej := cs_rej s |}.

Definition set_hb (h : Heartbeat) (s : ClientSlot) : ClientSlot := {|
  cs_peer := cs_peer s; cs_generation := cs_generation s; cs_type := cs_type s; cs_instance := cs_instance s;
  cs_hb := h; cs_rej := cs_rej s |}.

Definition set_rej (j : RejectEpisode) (s : ClientSlot) : ClientSlot := {|
  cs_peer := cs_peer s; cs_generation := cs_generation s; cs_type := cs_type s; cs_instance := cs_instance s;
  cs_hb := cs_hb s; cs_rej := j |}.

Definition slot_at (i : nat) (r : Rpc) : ClientSlot := default free_slot (rp_slots r !! i).
Definition put_slot (i : nat) (s : ClientSlot) (r : Rpc) : Rpc := set_slots (<[i := s]> (rp_slots r)) r.
Definition maxClients (r : Rpc) : nat := length (rp_slots r).

(** ** Identities *)

Definition presenceBitForClient (clientType instance : Z) : Z :=
  if clientType =? CLIENT_SAFETY_MONITOR then PSS_PRESENCE_SAFETY_MONITOR
  else if clientType =? CLIENT_PERCEPTION_MONITOR then PSS_PRESENCE_PERCEPTION_MONITOR
  else if clientType =? CLIENT_MDX then
    if (1 <=? instance) && (instance <=? PSS_MDX_INSTANCE_MAX) then PSS_PRESENCE_MDX_INSTANCE instance else 0
  else 0.

Definition monitorLostCause (clientType instance : Z) : EventCause :=
  if presenceBitForClient clientType instance =? 0 then CAUSE_NONE
  else if clientType =? CLIENT_SAFETY_MONITOR then CAUSE_SAFETY_MONITOR_LOST
  else if clientType =? CLIENT_PERCEPTION_MONITOR then CAUSE_PERCEPTION_MONITOR_LOST
  else if clientType =? CLIENT_MDX then CAUSE_MDX_CLIENT_LOST
  else CAUSE_NONE.

(** The loop over instance numbers. *)
Definition clientForPresenceBit (bit : Z) : option (Z * Z) :=
  if bit =? PSS_PRESENCE_SAFETY_MONITOR then Some (CLIENT_SAFETY_MONITOR, 0)
  else if bit =? PSS_PRESENCE_PERCEPTION_MONITOR then Some (CLIENT_PERCEPTION_MONITOR, 0)
  else match find (fun k => bit =? PSS_PRESENCE_MDX_INSTANCE k) (seqZ 1 PSS_MDX_INSTANCE_MAX) with
       | Some k => Some (CLIENT_MDX, k)
       | None => None
       end.

Definition clientInstance (s : ClientSlot) : Z := default 0 (cs_instance s).
Definition getClientType (i : nat) (r : Rpc) : Z := default 0 (cs_type (slot_at i r)).
Definition getClientInstance (i : nat) (r : Rpc) : Z := clientInstance (slot_at i r).
Definition latched (s : ClientSlot) : bool := default false (hb_fault (cs_hb s)).

(** The tracked bit of a registered client; 0 for every other slot. *)
Definition tracked_bit (s : ClientSlot) : Z :=
  match cs_type s with Some t => presenceBitForClient t (clientInstance s) | None => 0 end.

Definition inputIdentityLocked (s : ClientSlot) : Z :=
  match cs_type s with
  | None => 0
  | Some t =>
    let instance := clientInstance s in
    let bit := presenceBitForClient t instance in
    if negb (bit =? 0) then bit
    else if (t =? CLIENT_MDX) && (instance =? 0) then PSS_INPUT_ANONYMOUS_CLIENT else 0
  end.

(** ** Published masks *)

Definition or_slots (f : ClientSlot -> Z) (l : list ClientSlot) : Z := foldl (fun mask s => Z.lor mask (f s)) 0 l.

(** Registered, heartbeated since registering, and not faulted. *)
Definition present_bit (s : ClientSlot) : Z :=
  match hb_count (cs_hb s) with
  | None => 0
  | Some count => if count =? 0 then 0 else if latched s then 0 else tracked_bit s
  end.

Definition recomputePresenceMaskLocked (r : Rpc) : Rpc :=
  set_masks (set_presence (or_slots present_bit (rp_slots r)) (rp_masks r)) r.

Definition expected_of (m : SourceMasks) : Z := Z.lor (ms_everPresent m) (if ms_due m then ms_required m else 0).

Definition recomputeExpectedMaskLocked (r : Rpc) : Rpc :=
  set_masks (set_expected (expected_of (rp_masks r)) (rp_masks r)) r.

Definition unusable_bit (s : ClientSlot) : Z :=
  if default false (rj_raised (cs_rej s)) then inputIdentityLocked s else 0.

Definition recomputeInputStateLocked (r : Rpc) : Rpc :=
  let confirmed := in_confirmed (rp_input r) in
  set_input {| in_confirmed := confirmed;
               in_unusablePublished := Z.land (or_slots unusable_bit (rp_slots r)) PSS_INPUT_STATE_MASK;
               in_confirmedPublished := Z.land confirmed PSS_INPUT_STATE_MASK |} r.

Definition setRequiredSourceMask (mask : Z) (r : Rpc) : Rpc :=
  recomputeExpectedMaskLocked
    (set_masks (set_required (Z.land mask (Z.lor (Z.lor PSS_PRESENCE_SAFETY_MONITOR PSS_PRESENCE_PERCEPTION_MONITOR)
                                                 PSS_PRESENCE_MDX_MASK)) (ms_due (rp_masks r)) (rp_masks r)) r).

Definition setClientRejectErrorThreshold (threshold : Z) (r : Rpc) : Rpc :=
  if (threshold <? NVPSS_CLIENT_REJECT_ERROR_THRESHOLD_MIN) || (NVPSS_CLIENT_REJECT_ERROR_THRESHOLD_MAX <? threshold)
  then r else set_threshold threshold r.

(** ** Actions *)

Inductive RpcAction :=
| QueueEvent (client : Z) (event : SafetyEvent)
| SendResponse (peer : Z) (resp : NvPSSDRPCMsgResp)
| TransportDropPeer (peer : Z).

(** The SW_FAIL events the server originates. *)
Definition rpc_sw_fail (cause : EventCause) (clientID objectID nowNs : Z) : SafetyEvent :=
  pssSafetyEventSetCRC
    {| se_id := 0; se_sensorIdentifier := snprintf_s (bytes_of_string "PSS_RPC") MAX_INDENTIFIER_LENGTH;
       se_type := SW_FAIL; se_timestamp := nowNs; se_confidenceLevel := f32_one; se_processed := false;
       se_fusionMetadata := {| fm_coordinates := fm_coordinates zero_metadata; fm_pipelineID := 0;
                               fm_clientID := clientID; fm_objectType := (0, 0); fm_speed := 0;
                               fm_objectID := (objectID, 0) |};
       se_cause := cause; se_integrity := zero_integrity |}.

(** [None] is the slot UINT32_MAX: the source never had one. *)
Definition injectMonitorLostSwFail (slot : option nat) (clientType instance nowNs : Z) : list RpcAction :=
  let cause := monitorLostCause clientType instance in
  if cause =? CAUSE_NONE then [] else
  let clientID := match slot with Some i => Z.land (Z.of_nat i) 0xFF | None => 0 end in
  [QueueEvent (match slot with Some i => Z.of_nat i | None => -1 end)
     (rpc_sw_fail cause clientID (presenceBitForClient clientType instance) nowNs)].

Definition injectClientInputUnusableSwFail (i : nat) (nowNs : Z) (r : Rpc) : list RpcAction :=
  [QueueEvent (Z.of_nat i)
     (rpc_sw_fail CAUSE_CLIENT_INPUT_UNUSABLE (Z.land (Z.of_nat i) 0xFF) (inputIdentityLocked (slot_at i r)) nowNs)].

(** ** Clearing a slot *)

Definition cleared (s : ClientSlot) : ClientSlot := {|
  cs_peer := cs_peer s; cs_generation := cs_generation s; cs_type := None; cs_instance := None;
  cs_hb := no_heartbeat; cs_rej := no_episode |}.

Definition clearClientStateLocked (i : nat) (r : Rpc) : Rpc :=
  let s := slot_at i r in
  let wasSm := bool_decide (cs_type s = Some CLIENT_SAFETY_MONITOR) in
  let r1 := put_slot i (cleared s) r in
  let r2 := if wasSm && (mo_clientId (rp_monitor r1) =? Z.of_nat i) then set_monitor no_monitor r1 else r1 in
  recomputeInputStateLocked (recomputePresenceMaskLocked r2).

(** The state, and the peer the caller must drop. *)
Definition disconnectClientLocked (i : nat) (r : Rpc) : Rpc * option Z :=
  let s := slot_at i r in
  if (i <? MAX_POSSIBLE_CLIENTS)%nat && negb (cs_peer s =? NVPSF_PEER_INVALID)
  then (clearClientStateLocked i (put_slot i (set_peer NVPSF_PEER_INVALID s) r), Some (cs_peer s))
  else (clearClientStateLocked i r, None).

Definition drop_peer (doomed : option Z) : list RpcAction :=
  match doomed with Some peer => [TransportDropPeer peer] | None => [] end.

Definition disconnectClient (i : nat) (r : Rpc) : Rpc * list RpcAction :=
  let '(r1, doomed) := disconnectClientLocked i r in (r1, drop_peer doomed).

Definition dropClient (i : nat) (nowNs : Z) (r : Rpc) : Rpc * list RpcAction :=
  let clientType := getClientType i r in
  let instance := getClientInstance i r in
  let '(r1, actions) := disconnectClient i r in
  (r1, actions ++ injectMonitorLostSwFail (Some i) clientType instance nowNs).

(** ** Heartbeats *)

Definition millis (ns : Z) : Z := Z.quot ns 1000000.

Definition updateClientHeartbeat (i : nat) (clientType now : Z) (r : Rpc) : Rpc :=
  let s := slot_at i r in
  if latched s then r else
  let h := cs_hb s in
  let bit := presenceBitForClient clientType (clientInstance s) in
  let count := match hb_last h with None => 1 | Some _ => u32 (default 0 (hb_count h) + 1) end in
  let r1 := put_slot i (set_hb {| hb_last := Some now; hb_count := Some count; hb_miss := Some 0; hb_missFast := 0;
                                  hb_fault := hb_fault h; hb_faultFast := hb_faultFast h |} s) r in
  let r2 :=
    if clientType =? CLIENT_SAFETY_MONITOR then
      let m := rp_monitor r1 in
      set_monitor {| mo_clientId := Z.of_nat i; mo_miss := 0; mo_fault := mo_fault m;
                     mo_cacheMaxMiss := 0; mo_cacheAnyFault := mo_cacheAnyFault m |} r1
    else r1 in
  if negb (bit =? 0) then
    let ever := ms_everPresent (rp_masks r2) in
    let r3 :=
      if Z.land ever bit =? 0
      then recomputeExpectedMaskLocked
             (set_masks (set_ever (ms_everRegistered (rp_masks r2)) (Z.lor ever bit) (rp_masks r2)) r2)
      else r2 in
    recomputePresenceMaskLocked r3
  else r2.

Definition hasRecentHeartbeat (i : nat) (now : Z) (r : Rpc) : bool :=
  match hb_last (cs_hb (slot_at i r)) with
  | None => false
  | Some last => let elapsed := millis (now - last) in (0 <=? elapsed) && (u32 elapsed <=? HB_TIMEOUT_MS)
  end.

(** Set the fault of a slot. *)
Definition latch_slot (s : ClientSlot) : ClientSlot :=
  let h := cs_hb s in
  set_hb {| hb_last := hb_last h; hb_count := hb_count h; hb_miss := hb_miss h; hb_missFast := hb_missFast h;
            hb_fault := Some true; hb_faultFast := 1 |} s.

Definition miss_slot (m : Z) (s : ClientSlot) : ClientSlot :=
  let h := cs_hb s in
  set_hb {| hb_last := hb_last h; hb_count := hb_count h; hb_miss := Some m; hb_missFast := m;
            hb_fault := hb_fault h; hb_faultFast := hb_faultFast h |} s.

Definition next_miss (s : ClientSlot) : Z :=
  let miss := default 0 (hb_miss (cs_hb s)) in if miss <? UINT32_MAX then miss + 1 else miss.

(** One client of the first loop; the clients to disconnect so far. *)
Definition tick_client (maxFailures now : Z) (acc : Rpc * list nat) (i : nat) : Rpc * list nat :=
  let '(r, toDisconnect) := acc in
  let s := slot_at i r in
  match hb_last (cs_hb s) with
  | None => acc
  | Some last =>
    if latched s then acc
    else if millis (now - last) <=? HB_TIMEOUT_MS then acc
    else match cs_type s with
    | None => (put_slot i (latch_slot s) r, toDisconnect ++ [i])
    | Some t =>
      let m := next_miss s in
      let r1 := put_slot i (miss_slot m s) r in
      let isSm := t =? CLIENT_SAFETY_MONITOR in
      let mon := rp_monitor r1 in
      let r2 := if isSm then set_monitor {| mo_clientId := Z.of_nat i; mo_miss := m; mo_fault := mo_fault mon;
                                            mo_cacheMaxMiss := m; mo_cacheAnyFault := mo_cacheAnyFault mon |} r1
                else r1 in
      if maxFailures <=? m then
        let r3 := put_slot i (latch_slot (miss_slot m s)) r2 in
        let mon := rp_monitor r3 in
        let r4 := if isSm then set_monitor {| mo_clientId := mo_clientId mon; mo_miss := mo_miss mon; mo_fault := true;
                                              mo_cacheMaxMiss := mo_cacheMaxMiss mon; mo_cacheAnyFault := true |} r3
                  else r3 in
        let r5 := if negb (presenceBitForClient t (clientInstance s) =? 0) then recomputePresenceMaskLocked r4 else r4 in
        (r5, toDisconnect ++ [i])
      else (r2, toDisconnect)
    end
  end.

(** The required sources, once the budget since the start has run out. *)
Definition tick_required (maxFailures now : Z) (r : Rpc) : Rpc :=
  if ms_required (rp_masks r) =? 0 then r else
  let budgetMs := HB_TIMEOUT_MS + (maxFailures - 1) * HB_INTERVAL_MS in
  if millis (now - rp_startTime r) <? budgetMs then r else
  let r1 := if ms_due (rp_masks r) then r
            else recomputeExpectedMaskLocked (set_masks (set_required (ms_required (rp_masks r)) true (rp_masks r)) r) in
  let m := rp_masks r1 in
  let missing := Z.land (Z.land (ms_required m) (u32_not (ms_everRegistered m))) (u32_not (ms_neverRaised m)) in
  set_masks (set_never (Z.lor (ms_neverRaised m) missing) (Z.lor (ms_neverPending m) missing) m) r1.

Definition enqueue_disconnect (r : Rpc) (i : nat) : Rpc :=
  if bool_decide (i ∈ rp_pendingSeen r) then r
  else set_pending (rp_pending r ++ [(i, if (i <? MAX_POSSIBLE_CLIENTS)%nat then cs_generation (slot_at i r) else 0)])
                   ({[i]} ∪ rp_pendingSeen r) r.

Definition heartbeatMonitorTick (maxFailures now : Z) (r : Rpc) : Rpc :=
  if maxFailures =? 0 then r else
  let '(r1, toDisconnect) := foldl (tick_client maxFailures now) (r, []) (seq 0 (maxClients r)) in
  foldl enqueue_disconnect (tick_required maxFailures now r1) toDisconnect.

Definition getSafetyMonitorOperationalMode (maxFailures warnThreshold : Z) (r : Rpc) : OperationalMode :=
  if maxFailures =? 0 then NORMAL else
  let anyFault := mo_cacheAnyFault (rp_monitor r) in
  let maxMiss := mo_cacheMaxMiss (rp_monitor r) in
  if anyFault || (maxFailures <=? maxMiss) then ERROR
  else if (warnThreshold <? maxMiss) && (maxMiss <? maxFailures) then DEGRADED
  else NORMAL.

(** ** Pending disconnects *)

(** The bits of the mask, lowest first: one loss each. *)
Definition never_registered_events (pending : Z) (clock : nat -> Z) : list RpcAction :=
  concat (imap (fun k bit =>
    match clientForPresenceBit bit with
    | Some (type, instance) => injectMonitorLostSwFail None type instance (clock k)
    | None => []
    end) (filter (fun bit => Z.land pending bit <> 0) (map (fun p => Z.shiftl 1 p) (seqZ 0 32)))).

Definition disconnect_pending (acc : Rpc * list RpcAction) (entry : (nat * Z) * Z) : Rpc * list RpcAction :=
  let '(r, actions) := acc in
  let '((i, enqueueGen), nowNs) := entry in
  let s := slot_at i r in
  if (maxClients r <=? i)%nat then acc
  else if negb (cs_generation s =? enqueueGen) then acc
  else if cs_peer s =? NVPSF_PEER_INVALID then acc
  else
    let slotType := getClientType i r in
    let slotInstance := getClientInstance i r in
    let event :=
      if negb (presenceBitForClient slotType slotInstance =? 0) then
        injectMonitorLostSwFail (Some i) slotType slotInstance nowNs
      else if negb (slotType =? 0) then
        [QueueEvent (Z.of_nat i) (rpc_sw_fail CAUSE_HEARTBEAT_FAULT (Z.land (Z.of_nat i) 0xFF) 0 nowNs)]
      else [] in
    let '(r1, dropped) := disconnectClient i r in
    (r1, actions ++ event ++ dropped).

(** [clock] gives the time stamps of the events, in order. *)
Definition processPendingDisconnects (clock : nat -> Z) (r : Rpc) : Rpc * list RpcAction :=
  let batch := rp_pending r in
  let r1 := set_pending [] ∅ r in
  let never := ms_neverPending (rp_masks r1) in
  let r2 := set_masks (set_never (ms_neverRaised (rp_masks r1)) 0 (rp_masks r1)) r1 in
  foldl disconnect_pending (r2, never_registered_events never clock)
    (imap (fun k entry => (entry, clock (32 + k)%nat)) batch).

(** ** Connections *)

Fixpoint find_peer (peer : Z) (l : list ClientSlot) : option nat :=
  match l with
  | [] => None
  | s :: rest => if cs_peer s =? peer then Some O else S <$> find_peer peer rest
  end.

Definition admitted (peer now : Z) (s : ClientSlot) : ClientSlot := {|
  cs_peer := peer; cs_generation := u32 (cs_generation s + 1); cs_type := cs_type s; cs_instance := cs_instance s;
  cs_hb := {| hb_last := Some now; hb_count := hb_count (cs_hb s); hb_miss := Some 0; hb_missFast := 0;
              hb_fault := Some false; hb_faultFast := 0 |};
  cs_rej := cs_rej s |}.

Definition peer_connected (peer now : Z) (r : Rpc) : Rpc * list RpcAction :=
  match find_peer NVPSF_PEER_INVALID (rp_slots r) with
  | None => (r, [TransportDropPeer peer])
  | Some i =>
    let r1 := clearClientStateLocked i r in
    (put_slot i (admitted peer now (slot_at i r1)) r1, [])
  end.

Definition peer_gone (peer nowNs : Z) (r : Rpc) : Rpc * list RpcAction :=
  match find_peer peer (rp_slots r) with
  | None => (r, [])
  | Some i => dropClient i nowNs r
  end.

(** ** Registration *)

(** [None]: a live client has the identity.  [Some stale]: the faulted slot to
    evict, if any. *)
Fixpoint singleton_scan (self : nat) (type instance : Z) (i : nat) (l : list ClientSlot) (stale : option nat)
  : option (option nat) :=
  match l with
  | [] => Some stale
  | s :: rest =>
    if bool_decide (cs_type s = Some type) && (clientInstance s =? instance) && negb (i =? self)%nat
       && (i <? MAX_POSSIBLE_CLIENTS)%nat && negb (cs_peer s =? NVPSF_PEER_INVALID)
    then if latched s then singleton_scan self type instance (S i) rest (Some i) else None
    else singleton_scan self type instance (S i) rest stale
  end.

Definition valid_client_type (t : Z) : bool :=
  (t =? CLIENT_MDX) || (t =? CLIENT_SAFETY_MONITOR) || (t =? CLIENT_PSD_GATEWAY) || (t =? CLIENT_PERCEPTION_MONITOR).

Definition is_singleton (type instance : Z) : bool :=
  (type =? CLIENT_SAFETY_MONITOR) || (type =? CLIENT_PSD_GATEWAY) || (type =? CLIENT_PERCEPTION_MONITOR)
  || negb (instance =? 0).

Definition registered (type instance now : Z) (s : ClientSlot) : ClientSlot := {|
  cs_peer := cs_peer s; cs_generation := cs_generation s; cs_type := Some type; cs_instance := Some instance;
  cs_hb := {| hb_last := Some now; hb_count := None; hb_miss := Some 0; hb_missFast := 0;
              hb_fault := Some false; hb_faultFast := 0 |};
  cs_rej := cs_rej s |}.

(** The part after the checks. *)
Definition accept_registration (i : nat) (type instance now : Z) (r : Rpc) : Rpc :=
  let r1 := put_slot i (registered type instance now (slot_at i r)) r in
  let m := rp_masks r1 in
  let r2 := set_masks (set_ever (Z.lor (ms_everRegistered m) (presenceBitForClient type instance)) (ms_everPresent m) m) r1 in
  let r3 := if type =? CLIENT_SAFETY_MONITOR
            then set_monitor {| mo_clientId := Z.of_nat i; mo_miss := 0; mo_fault := false;
                                mo_cacheMaxMiss := 0; mo_cacheAnyFault := false |} r2
            else r2 in
  recomputePresenceMaskLocked r3.

(** What [validateAndAcceptRegistration] hands out of an eviction. *)
Record Evicted := { ev_slot : nat; ev_peer : option Z; ev_clientType : Z; ev_instance : Z }.

Definition validateAndAcceptRegistration (i : nat) (req : NvPSSDRPCMsgReq) (now : Z) (r : Rpc)
  : Rpc * Z * option Evicted :=
  if rq_size req <? 1 then (r, REGISTER_REJECTED_INVALID_TYPE, None) else
  let type := payload_at req 0 in
  if negb (valid_client_type type) then (r, REGISTER_REJECTED_INVALID_TYPE, None) else
  let instance := if 2 <=? rq_size req then payload_at req 1 else 0 in
  if (PSS_MDX_INSTANCE_MAX <? instance) || (negb (instance =? 0) && negb (type =? CLIENT_MDX))
  then (r, REGISTER_REJECTED_INVALID_INSTANCE, None)
  else if is_singleton type instance then
    match singleton_scan i type instance 0 (rp_slots r) None with
    | None => (r, REGISTER_REJECTED_DUPLICATE_TYPE, None)
    | Some None => (accept_registration i type instance now r, REGISTER_ACCEPTED, None)
    | Some (Some staleSlot) =>
      let '(r1, evicted) := disconnectClientLocked staleSlot r in
      (accept_registration i type instance now r1, REGISTER_ACCEPTED,
       Some {| ev_slot := staleSlot; ev_peer := evicted; ev_clientType := type; ev_instance := instance |})
    end
  else (accept_registration i type instance now r, REGISTER_ACCEPTED, None).

(** [htonl]. *)
Definition be_bytes4 (z : Z) : list Z := rev (le_bytes 4 z).

Definition encoded_client_id (i : nat) (r : Rpc) : Z :=
  Z.lor (u32 (Z.shiftl (cs_generation (slot_at i r)) 8)) (Z.of_nat i).

Definition handle_register (i : nat) (peer : Z) (req : NvPSSDRPCMsgReq) (now nowNs : Z) (r : Rpc) : Rpc * list RpcAction :=
  let wireId := be_bytes4 (encoded_client_id i r) in
  let '(r1, regStatus, evicted) := validateAndAcceptRegistration i req now r in
  let eviction :=
    match evicted with
    | None => []
    | Some e => drop_peer (ev_peer e) ++ injectMonitorLostSwFail (Some (ev_slot e)) (ev_clientType e) (ev_instance e) nowNs
    end in
  let response := [SendResponse peer {| rs_respSeqNo := 0; rs_payload := wireId ++ [regStatus] |}] in
  if regStatus =? REGISTER_ACCEPTED then (r1, eviction ++ response)
  else let '(r2, dropped) := dropClient i nowNs r1 in (r2, eviction ++ response ++ dropped).

(** ** Rejected and accepted reports *)

Definition isMonitorReport (eventType : EventType) : bool :=
  (eventType =? SENSOR_INVALID) || (eventType =? SENSOR_VALID)
  || (eventType =? AI_PIPELINE_INVALID) || (eventType =? AI_PIPELINE_VALID).

Definition set_confirmed (c : Z) (r : Rpc) : Rpc :=
  set_input {| in_confirmed := c; in_unusablePublished := in_unusablePublished (rp_input r);
               in_confirmedPublished := in_confirmedPublished (rp_input r) |} r.

Definition noteReportAccepted (i : nat) (pipelineId : Z) (eventType : EventType) (r : Rpc) : Rpc :=
  let s := slot_at i r in
  let pipeline := if negb (isMonitorReport eventType) && negb (pipelineId =? 0) then Some pipelineId
                  else rj_pipeline (cs_rej s) in
  let r1 := put_slot i (set_rej {| rj_streak := Some 0; rj_pipeline := pipeline;
                                   rj_raised := Some false; rj_noted := Some false |} s) r in
  recomputeInputStateLocked
    (set_confirmed (Z.lor (in_confirmed (rp_input r1)) (inputIdentityLocked (slot_at i r1))) r1).

Section server.
Context {M : Type}.
(** The event manager behind the two callbacks; [None] is the null pointer. *)
Variable trustReportCb : option (Z -> Z -> SafetyEvent -> M -> M * bool).
Variable requiredSourceCb : option (M -> Z -> bool).
Variables maxFailures warnThreshold : Z.
Variable thresholdConfidence : f32.

(** [true] on the escalation edge. *)
Definition noteReportRejected (i : nat) (m : M) (r : Rpc) : Rpc * bool :=
  let s := slot_at i r in
  let j := cs_rej s in
  let streak := u32 (default 0 (rj_streak j) + 1) in
  let threshold := rp_threshold r in
  let counted := {| rj_streak := Some streak; rj_pipeline := rj_pipeline j;
                    rj_raised := rj_raised j; rj_noted := rj_noted j |} in
  let r1 := put_slot i (set_rej counted s) r in
  if streak <? threshold then (r1, false)
  else if default false (rj_raised j) then (r1, false)
  else
    let identityRequired := negb (Z.land (tracked_bit s) (ms_required (rp_masks r)) =? 0) in
    match rj_pipeline j, identityRequired with
    | None, false => (r1, false)
    | established, _ =>
      let pipelineRequired :=
        match established, requiredSourceCb with Some p, Some cb => cb m p | _, _ => false end in
      if identityRequired || pipelineRequired then
        let raised := {| rj_streak := Some streak; rj_pipeline := rj_pipeline j;
                         rj_raised := Some true; rj_noted := rj_noted j |} in
        let r2 := put_slot i (set_rej raised s) r1 in
        (recomputeInputStateLocked
           (set_confirmed (Z.land (in_confirmed (rp_input r2)) (u32_not (inputIdentityLocked (slot_at i r2)))) r2), true)
      else if default false (rj_noted j) then (r1, false)
      else
        let noted := {| rj_streak := Some streak; rj_pipeline := rj_pipeline j;
                        rj_raised := rj_raised j; rj_noted := Some true |} in
        (put_slot i (set_rej noted s) r1, false)
    end.

(** The heartbeat tier refuses the reports of the client. *)
Definition tier_refuses (s : ClientSlot) : bool :=
  let miss := hb_missFast (cs_hb s) in
  (0 <? maxFailures) &&
  (negb (hb_faultFast (cs_hb s) =? 0) || (maxFailures <=? miss) || ((warnThreshold <? miss) && (miss <? maxFailures))).

Definition unresolved_sensor (event : SafetyEvent) : bool :=
  negb (isAIPipelineTrustReport (se_type event)) && negb (se_type event =? SW_FAIL)
  && negb (se_type event =? PSS_STATUS_NOOP) && (fm_pipelineID (se_fusionMetadata event) =? 0).

Definition reporter_authorized (clientType : Z) (event : SafetyEvent) : bool :=
  (isSensorTrustReport (se_type event) && (clientType =? CLIENT_SAFETY_MONITOR))
  || (isAIPipelineTrustReport (se_type event) && (clientType =? CLIENT_PERCEPTION_MONITOR)).

(** The status of a report of a registered client, the manager after the
    callback, and the event that is queued when it is accepted. *)
Definition judge_report (i : nat) (req : NvPSSDRPCMsgReq) (now : Z) (m : M) (r : Rpc) : M * Z * SafetyEvent :=
  let event := dec_SafetyEvent (rq_payload req) in
  if tier_refuses (slot_at i r) then (m, REPORT_REJECTED_UNAUTHORIZED, event)
  else if negb (rq_size req =? SAFETY_EVENT_SIZE) then (m, REPORT_REJECTED_UNAUTHORIZED, event)
  else if negb (validateSafetyEvent (Some event) =? PSS_VALID) then (m, REPORT_REJECTED_VALIDATION_FAILED, event)
  else
    let clientType := getClientType i r in
    let isTrustReport := isSensorTrustReport (se_type event) || isAIPipelineTrustReport (se_type event) in
    if unresolved_sensor event then (m, REPORT_REJECTED_UNRESOLVED_SENSOR, event)
    else if isTrustReport && (negb (reporter_authorized clientType event) || negb (hasRecentHeartbeat i now r))
    then (m, REPORT_REJECTED_UNAUTHORIZED, event)
    else if isTrustReport then
      match trustReportCb with
      | None => (m, REPORT_REJECTED_UNAUTHORIZED, event)
      | Some cb =>
        let '(m1, accept) := cb (Z.of_nat i) clientType event m in
        (m1, if accept then REPORT_ACCEPTED else REPORT_REJECTED_UNAUTHORIZED, event)
      end
    else if (0xFF <? Z.of_nat i) || negb (u8 (Z.of_nat i) =? fm_clientID (se_fusionMetadata event))
    then (m, REPORT_REJECTED_CLIENTID_MISMATCH, event)
    else if f32_leb thresholdConfidence (se_confidenceLevel event) then (m, REPORT_ACCEPTED, event)
    else (m, REPORT_REJECTED_LOW_CONFIDENCE, event).

(** The sequence number is passed as a [uint32_t]. *)
Definition report_response (peer : Z) (req : NvPSSDRPCMsgReq) (status : Z) : RpcAction :=
  SendResponse peer {| rs_respSeqNo := u32 (rq_reqSeqNo req); rs_payload := [status] |}.

Definition handle_report (i : nat) (peer : Z) (req : NvPSSDRPCMsgReq) (now nowNs : Z) (m : M) (r : Rpc)
  : Rpc * list RpcAction * M :=
  if getClientType i r =? 0 then
    let '(r1, dropped) := disconnectClient i r in
    (r1, report_response peer req REPORT_REJECTED_UNAUTHORIZED :: dropped, m)
  else
    let '(m1, status, event) := judge_report i req now m r in
    if status =? REPORT_ACCEPTED then
      (noteReportAccepted i (fm_pipelineID (se_fusionMetadata event)) (se_type event) r,
       [QueueEvent (Z.of_nat i) event; report_response peer req status], m1)
    else
      let '(r1, escalate) := noteReportRejected i m1 r in
      (r1, (if escalate then injectClientInputUnusableSwFail i nowNs r1 else []) ++ [report_response peer req status], m1).

Definition handle_terminate (i : nat) (peer : Z) (req : NvPSSDRPCMsgReq) (nowNs : Z) (r : Rpc) : Rpc * list RpcAction :=
  let '(r1, dropped) := dropClient i nowNs r in
  (r1, SendResponse peer {| rs_respSeqNo := rq_reqSeqNo req; rs_payload := [TERMINATE_ACCEPTED] |} :: dropped).

Definition handle_heartbeat (i : nat) (peer : Z) (req : NvPSSDRPCMsgReq) (now nowNs : Z) (r : Rpc) : Rpc * list RpcAction :=
  if rq_size req <? 2 then (r, [])
  else if negb (payload_at req 0 =? HB_MSG) then (r, [])
  else
    let registeredType := getClientType i r in
    if registeredType =? 0 then disconnectClient i r
    else if negb (payload_at req 1 =? registeredType) then dropClient i nowNs r
    else (updateClientHeartbeat i registeredType now r,
          [SendResponse peer {| rs_respSeqNo := rq_reqSeqNo req; rs_payload := [HEARTBEAT_ACK] |}]).

Definition handle_message (i : nat) (peer : Z) (req : NvPSSDRPCMsgReq) (now nowNs : Z) (m : M) (r : Rpc)
  : Rpc * list RpcAction * M :=
  if rq_msg req =? REGISTER_CLIENT then (handle_register i peer req now nowNs r, m)
  else if rq_msg req =? REPORT_SAFETY_EVENT then handle_report i peer req now nowNs m r
  else if rq_msg req =? TERMINATE_CLIENT then (handle_terminate i peer req nowNs r, m)
  else if rq_msg req =? SEND_HEARTBEAT then (handle_heartbeat i peer req now nowNs r, m)
  else (r, [], m).

(** ** The server *)

(** What [NvPSFTransportRecv] returned: the peer is gone, a message that is
    truncated, wrong-sized or failed, or a request. *)
Inductive RecvOutcome := RecvGone | RecvMalformed | RecvRequest (req : NvPSSDRPCMsgReq).

Definition receive (peer : Z) (outcome : RecvOutcome) (now nowNs : Z) (m : M) (r : Rpc) : Rpc * list RpcAction * M :=
  match find_peer peer (rp_slots r) with
  | None => (r, [], m)
  | Some i =>
    match outcome with
    | RecvGone | RecvMalformed => (dropClient i nowNs r, m)
    | RecvRequest req => handle_message i peer req now nowNs m r
    end
  end.

Inductive RpcOp :=
| Tick (now : Z)
| Pending (clock : nat -> Z)
| PeerConnected (peer now : Z)
| PeerGone (peer nowNs : Z)
| Received (peer : Z) (outcome : RecvOutcome) (now nowNs : Z) (m : M)
| SetRequired (mask : Z)
| SetThreshold (threshold : Z).

Definition rpc_step (r : Rpc) (op : RpcOp) : Rpc * list RpcAction :=
  match op with
  | Tick now => (heartbeatMonitorTick maxFailures now r, [])
  | Pending clock => processPendingDisconnects clock r
  | PeerConnected peer now => peer_connected peer now r
  | PeerGone peer nowNs => peer_gone peer nowNs r
  | Received peer outcome now nowNs m => (receive peer outcome now nowNs m r).1
  | SetRequired mask => (setRequiredSourceMask mask r, [])
  | SetThreshold threshold => (setClientRejectErrorThreshold threshold r, [])
  end.

Fixpoint rpc_run (r : Rpc) (ops : list RpcOp) : Rpc * list RpcAction :=
  match ops with
  | [] => (r, [])
  | op :: rest =>
    let '(r1, actions) := rpc_step r op in
    let '(r2, more) := rpc_run r1 rest in
    (r2, actions ++ more)
  end.

(** One pass of the server loop: the pending disconnects, the events of the
    poll, then at most [maxClients] messages, ending when none is ready. *)
Inductive PollEvent := EvConnected (peer now : Z) | EvGone (peer nowNs : Z).

Definition poll_op (e : PollEvent) : RpcOp :=
  match e with EvConnected peer now => PeerConnected peer now | EvGone peer nowNs => PeerGone peer nowNs end.

Fixpoint drain_ops (budget : nat) (ready : list (Z * RecvOutcome * Z * Z * M)) : list RpcOp :=
  match budget, ready with
  | S budget', (peer, outcome, now, nowNs, m) :: rest => Received peer outcome now nowNs m :: drain_ops budget' rest
  | _, _ => []
  end.

Definition server_pass (r : Rpc) (clock : nat -> Z) (events : list PollEvent) (ready : list (Z * RecvOutcome * Z * Z * M))
  : list RpcOp :=
  Pending clock :: map poll_op events ++ drain_ops (maxClients r) ready.
End server.

(** ** Closing *)

Definition refreshSafetyMonitorOperationalCacheLocked (r : Rpc) : Rpc :=
  let found := list_find (fun s => cs_type s = Some CLIENT_SAFETY_MONITOR) (rp_slots r) in
  let cache :=
    match found with
    | None => no_monitor
    | Some (i, s) =>
      let miss := hb_missFast (cs_hb s) in
      {| mo_clientId := Z.of_nat i; mo_miss := miss; mo_fault := latched s; mo_cacheMaxMiss := miss; mo_cacheAnyFault := latched s |}
    end in
  recomputePresenceMaskLocked (set_monitor cache r).

(** The instance and rejection maps are not cleared. *)
Definition closed_slot (s : ClientSlot) : ClientSlot := {|
  cs_peer := cs_peer s; cs_generation := cs_generation s; cs_type := None; cs_instance := cs_instance s;
  cs_hb := no_heartbeat; cs_rej := cs_rej s |}.

Definition NvPSSDCloseRPCServer (r : Rpc) : Rpc :=
  let r1 := refreshSafetyMonitorOperationalCacheLocked (set_slots (map closed_slot (rp_slots r)) r) in
  let r2 := set_pending [] ∅ r1 in
  set_slots (map (set_peer NVPSF_PEER_INVALID) (rp_slots r2)) r2.

Definition getActiveClientCount (r : Rpc) : nat := length (filter (fun s => is_Some (hb_last (cs_hb s))) (rp_slots r)).
