(* ===== verification/RpcSafety.v ===== *)
(** * What the client interface promises

    The published masks say exactly which sources are registered, alive and not
    faulted; a singleton identity has one client; the mirror of the safety monitor
    follows its slot; a source that was present is not lost without a report. *)

From S2P Require Import Prelude Protocol Crc EventCodec Validate EventManager Rpc.

(** ** Slots *)

Lemma slot_put i j s r :
  slot_at j (put_slot i s r) = if bool_decide (j = i) && (i <? maxClients r)%nat then s else slot_at j r.
Proof.
  unfold slot_at, put_slot, maxClients. cbn [set_slots rp_slots].
  destruct (Nat.ltb_spec i (length (rp_slots r))) as [Hi|Hi]; rewrite ?andb_true_r, ?andb_false_r.
  - case_bool_decide as Hj; [subst j; by rewrite list_lookup_insert_eq|by rewrite list_lookup_insert_ne].
  - by rewrite list_insert_ge.
Qed.

Lemma slot_put_eq i s r : (i < maxClients r)%nat -> slot_at i (put_slot i s r) = s.
Proof. intros Hi. rewrite slot_put, bool_decide_true by done. by apply Nat.ltb_lt in Hi as ->. Qed.

Lemma slot_put_ne i j s r : j <> i -> slot_at j (put_slot i s r) = slot_at j r.
Proof. intros H. by rewrite slot_put, bool_decide_false. Qed.

Lemma slot_out i r : (maxClients r <= i)%nat -> slot_at i r = free_slot.
Proof. intros H. unfold slot_at. by rewrite (proj2 (lookup_ge_None _ _)). Qed.

Lemma max_put i s r : maxClients (put_slot i s r) = maxClients r.
Proof. unfold maxClients, put_slot. cbn [set_slots rp_slots]. by rewrite length_insert. Qed.

Lemma or_slots_map f l : or_slots f l = foldl Z.lor 0 (map f l).
Proof.
  unfold or_slots. generalize 0. induction l as [|s l IH]; intros z; [done|]. cbn [map foldl]. apply IH.
Qed.

Lemma foldl_lor l z : foldl Z.lor z l = Z.lor z (foldr Z.lor 0 l).
Proof.
  revert z. induction l as [|x l IH]; intros z; cbn [foldl foldr]; [by rewrite Z.lor_0_r|].
  by rewrite IH, Z.lor_assoc.
Qed.

Lemma or_slots_put f i s r :
  f s = f (slot_at i r) -> or_slots f (rp_slots (put_slot i s r)) = or_slots f (rp_slots r).
Proof.
  intros E. rewrite !or_slots_map. f_equal. unfold put_slot. cbn [set_slots rp_slots].
  destruct (decide (i < length (rp_slots r))%nat) as [Hi|Hi]; [|by rewrite list_insert_ge by lia].
  apply list_eq. intros j. change (map f) with (fmap (M:=list) f). rewrite !list_lookup_fmap.
  destruct (decide (j = i)) as [->|Hj]; [|by rewrite list_lookup_insert_ne].
  rewrite list_lookup_insert_eq by done. unfold slot_at in E.
  apply lookup_lt_is_Some in Hi as [x Hx]. rewrite Hx in *. cbn in *. by rewrite E.
Qed.

(** A source is in a mask when some slot puts it there. *)
Lemma or_slots_bit f r bit :
  f free_slot = 0 -> Z.land (or_slots f (rp_slots r)) bit <> 0 <-> exists i, Z.land (f (slot_at i r)) bit <> 0.
Proof.
  intros Hf. rewrite or_slots_map, foldl_lor, Z.lor_0_l. unfold slot_at.
  induction (rp_slots r) as [|s l IH]; cbn [map foldr].
  - split; [by rewrite Z.land_0_l|]. intros [i Hi]. change (Z.land (f free_slot) bit <> 0) in Hi. by rewrite Hf in Hi.
  - rewrite Z.land_lor_distr_l, lor_eq_0. split.
    + intros H. destruct (decide (Z.land (f s) bit = 0)) as [E|E]; [|by exists 0%nat].
      destruct (proj1 IH) as [i Hi]; [tauto|by exists (S i)].
    + intros [[|i] Hi] [H1 H2]; [done|]. apply (proj2 IH); [by exists i|done].
Qed.

(** ** Identities *)

Definition valid_identity (t k : Z) : Prop :=
  valid_client_type t = true /\ 0 <= k <= PSS_MDX_INSTANCE_MAX /\ (k <> 0 -> t = CLIENT_MDX).

Ltac client_codes := unfold CLIENT_MDX, CLIENT_SAFETY_MONITOR, CLIENT_PSD_GATEWAY, CLIENT_PERCEPTION_MONITOR,
  PSS_MDX_INSTANCE_MAX in *.

(** The tracked identities, one by one. *)
Definition tracked_identities : list (Z * Z) :=
  [(2, 0); (4, 0); (1, 1); (1, 2); (1, 3); (1, 4); (1, 5); (1, 6); (1, 7); (1, 8)].

Lemma tracked_listed t k : valid_identity t k -> presenceBitForClient t k <> 0 -> (t, k) ∈ tracked_identities.
Proof.
  unfold valid_identity, valid_client_type, presenceBitForClient. client_codes. intros (Ht & Hk & Hm) Hb.
  repeat match type of Hb with context [?a =? ?b] => destruct (Z.eqb_spec a b) as [->|] end; cbn in Ht; try done.
  - assert (k = 0) as -> by lia. unfold tracked_identities. set_solver.
  - assert (k = 0) as -> by lia. unfold tracked_identities. set_solver.
  - destruct (Z.leb_spec 1 k); [|done].
    assert (k = 1 \/ k = 2 \/ k = 3 \/ k = 4 \/ k = 5 \/ k = 6 \/ k = 7 \/ k = 8) as H8 by lia.
    unfold tracked_identities. destruct H8 as [->|[->|[->|[->|[->|[->|[->| ->]]]]]]]; set_solver.
Qed.

Lemma tracked_disjoint t k t' k' :
  valid_identity t k -> valid_identity t' k' ->
  Z.land (presenceBitForClient t k) (presenceBitForClient t' k') <> 0 -> t = t' /\ k = k'.
Proof.
  intros H H' Hl.
  assert ((t, k) ∈ tracked_identities) as Hin by (apply tracked_listed; [done|intros E; by rewrite E in Hl]).
  assert ((t', k') ∈ tracked_identities) as Hin' by (apply tracked_listed; [done|intros E; by rewrite E, Z.land_0_r in Hl]).
  assert (forallb (fun a => forallb (fun b =>
    bool_decide (a = b) || (Z.land (presenceBitForClient a.1 a.2) (presenceBitForClient b.1 b.2) =? 0)) tracked_identities)
    tracked_identities = true) as Hall by by vm_compute.
  rewrite forallb_forall in Hall. specialize (Hall _ (proj1 (list_elem_of_In _ _) Hin)).
  rewrite forallb_forall in Hall. specialize (Hall _ (proj1 (list_elem_of_In _ _) Hin')). cbn [fst snd] in Hall.
  apply orb_true_iff in Hall as [E|E]; [apply bool_decide_eq_true in E; by simplify_eq|by apply Z.eqb_eq in E].
Qed.

Lemma tracked_self t k : Z.land (presenceBitForClient t k) (presenceBitForClient t k) = presenceBitForClient t k.
Proof. apply Z.land_diag. Qed.

Lemma tracked_singleton t k : presenceBitForClient t k <> 0 -> is_singleton t k = true.
Proof.
  unfold presenceBitForClient, is_singleton. client_codes. intros H.
  destruct (Z.eqb_spec t 2); [done|]. destruct (Z.eqb_spec t 4); [by rewrite ?orb_true_r|].
  destruct (Z.eqb_spec t 1); [|done]. destruct (Z.leb_spec 1 k); [|done].
  rewrite (proj2 (Z.eqb_neq k 0)) by lia. by rewrite !orb_true_r.
Qed.

(** ** The invariant *)

Definition miss_of (s : ClientSlot) : Z := default 0 (hb_miss (cs_hb s)).

Record slot_ok (s : ClientSlot) : Prop := {
  so_identity t : cs_type s = Some t -> valid_identity t (clientInstance s);
  so_live : is_Some (hb_last (cs_hb s)) -> cs_peer s <> NVPSF_PEER_INVALID;
  so_tracked : is_Some (cs_type s) -> is_Some (hb_last (cs_hb s));
  so_latched : latched s = true -> is_Some (hb_last (cs_hb s));
  so_untyped : cs_type s = None -> cs_instance s = None;
  so_miss : hb_missFast (cs_hb s) = miss_of s;
  so_miss0 : 0 <= miss_of s;
  so_fault : hb_faultFast (cs_hb s) = if latched s then 1 else 0;
}.

Lemma so_peer s : slot_ok s -> is_Some (cs_type s) -> cs_peer s <> NVPSF_PEER_INVALID.
Proof. intros H Ht. by apply (so_live s H), (so_tracked s H). Qed.

(** Every bit of [a] is in [b]. *)
Definition submask (a b : Z) : Prop := Z.lor a b = b.

Definition monitor_of (i : nat) (s : ClientSlot) : MonitorCache := {|
  mo_clientId := Z.of_nat i; mo_miss := miss_of s; mo_fault := latched s;
  mo_cacheMaxMiss := miss_of s; mo_cacheAnyFault := latched s |}.

Definition same_identity (s s' : ClientSlot) : Prop :=
  is_Some (cs_type s) /\ cs_type s = cs_type s' /\ clientInstance s = clientInstance s'.

(** All but the published presence mask. *)
Record table_ok (r : Rpc) : Prop := {
  tb_size : (maxClients r <= MAX_POSSIBLE_CLIENTS)%nat;
  tb_expected : ms_expected (rp_masks r) = expected_of (rp_masks r);
  tb_slots i : slot_ok (slot_at i r);
  tb_unique i j t : cs_type (slot_at i r) = Some t -> is_singleton t (clientInstance (slot_at i r)) = true ->
                    same_identity (slot_at i r) (slot_at j r) -> i = j;
  tb_monitor i : cs_type (slot_at i r) = Some CLIENT_SAFETY_MONITOR -> rp_monitor r = monitor_of i (slot_at i r);
  tb_ever i : submask (present_bit (slot_at i r)) (ms_everPresent (rp_masks r));
  tb_registered i : submask (tracked_bit (slot_at i r)) (ms_everRegistered (rp_masks r));
}.

Definition presence_ok (r : Rpc) : Prop := ms_presence (rp_masks r) = or_slots present_bit (rp_slots r).

Definition rpc_inv (r : Rpc) : Prop := table_ok r /\ presence_ok r.

Lemma submask_refl a : submask a a.
Proof. apply Z.lor_diag. Qed.

Lemma submask_0 a : submask 0 a.
Proof. apply Z.lor_0_l. Qed.

Lemma submask_trans a b c : submask a b -> submask b c -> submask a c.
Proof. unfold submask. intros H1 H2. rewrite <- H2 at 1. by rewrite Z.lor_assoc, H1. Qed.

Lemma submask_lor_l a b : submask a (Z.lor a b).
Proof. unfold submask. by rewrite Z.lor_assoc, Z.lor_diag. Qed.

Lemma submask_lor_r a b : submask b (Z.lor a b).
Proof. rewrite Z.lor_comm. apply submask_lor_l. Qed.

#[export] Hint Resolve submask_refl submask_0 submask_lor_l submask_lor_r : safety_core.

Lemma submask_land a b bit : submask a b -> Z.land a bit <> 0 -> Z.land b bit <> 0.
Proof. unfold submask. intros <- H. rewrite Z.land_lor_distr_l, lor_eq_0. tauto. Qed.

Lemma slot_insert i j s r r' :
  rp_slots r' = <[i := s]> (rp_slots r) -> (i < maxClients r)%nat ->
  slot_at j r' = if bool_decide (j = i) then s else slot_at j r.
Proof.
  intros E Hi. pose proof (slot_put i j s r) as H. apply Nat.ltb_lt in Hi. rewrite Hi, andb_true_r in H.
  rewrite <- H. unfold slot_at, put_slot. cbn [set_slots rp_slots]. by rewrite E.
Qed.

(** One slot changes. *)
Lemma table_update i s r r' :
  table_ok r -> (i < maxClients r)%nat ->
  rp_slots r' = <[i := s]> (rp_slots r) ->
  ms_expected (rp_masks r') = expected_of (rp_masks r') ->
  submask (ms_everPresent (rp_masks r)) (ms_everPresent (rp_masks r')) ->
  submask (ms_everRegistered (rp_masks r)) (ms_everRegistered (rp_masks r')) ->
  slot_ok s ->
  (forall t j, cs_type s = Some t -> is_singleton t (clientInstance s) = true -> j <> i -> ~ same_identity s (slot_at j r)) ->
  (cs_type s = Some CLIENT_SAFETY_MONITOR -> rp_monitor r' = monitor_of i s) ->
  (rp_monitor r' = rp_monitor r \/ cs_type s = Some CLIENT_SAFETY_MONITOR \/ cs_type (slot_at i r) = Some CLIENT_SAFETY_MONITOR) ->
  submask (present_bit s) (ms_everPresent (rp_masks r')) ->
  submask (tracked_bit s) (ms_everRegistered (rp_masks r')) ->
  table_ok r'.
Proof.
  intros T Hi E Hex Hep Her Hs Hu Hm Hmo Hp Ht.
  assert (forall x y : ClientSlot, slot_ok x -> slot_ok y -> cs_type x = Some CLIENT_SAFETY_MONITOR ->
            cs_type y = Some CLIENT_SAFETY_MONITOR -> same_identity x y) as Hsame.
  { intros x y Hx Hy Ex Ey. destruct (so_identity x Hx _ Ex) as (_ & _ & Ix). destruct (so_identity y Hy _ Ey) as (_ & _ & Iy).
    client_codes. split_and!; [by eauto|congruence|].
    destruct (decide (clientInstance x = 0)), (decide (clientInstance y = 0)); try congruence; naive_solver. }
  assert (forall x, slot_ok x -> cs_type x = Some CLIENT_SAFETY_MONITOR -> is_singleton CLIENT_SAFETY_MONITOR (clientInstance x) = true)
    as Hsing by done.
  split; try intros j; try setoid_rewrite (slot_insert i _ s r r' E Hi).
  - unfold maxClients. rewrite E, length_insert. apply T.
  - done.
  - case_bool_decide; [done|apply T].
  - intros k t. case_bool_decide as Ej; case_bool_decide as Ek; subst; try done.
    + intros Et Es Hsm. by edestruct Hu.
    + intros Et Es Hsm. destruct Hsm as (Hx & E1 & E2). exfalso.
      eapply (Hu t j); [congruence|congruence|done|]. split_and!; [rewrite <- E1; done|done|done].
    + apply T.
  - case_bool_decide as Ej; [subst j; apply Hm|]. intros Et. destruct Hmo as [->|[Hmo|Hmo]]; [by apply T| |].
    + exfalso. eapply Hu; [exact Hmo|done|exact Ej|]. apply Hsame; [done|apply T|done|done].
    + exfalso. apply Ej. symmetry. eapply (tb_unique r T); [exact Hmo|done|]. apply Hsame; [apply T|apply T|done|done].
  - case_bool_decide; [done|]. eapply submask_trans; [apply T|done].
  - case_bool_decide; [done|]. eapply submask_trans; [apply T|done].
Qed.

(** No slot changes. *)
Lemma table_same r r' :
  table_ok r -> rp_slots r' = rp_slots r -> rp_monitor r' = rp_monitor r ->
  ms_expected (rp_masks r') = expected_of (rp_masks r') ->
  submask (ms_everPresent (rp_masks r)) (ms_everPresent (rp_masks r')) ->
  submask (ms_everRegistered (rp_masks r)) (ms_everRegistered (rp_masks r')) ->
  table_ok r'.
Proof.
  intros T E Em Hex Hep Her.
  assert (forall i, slot_at i r' = slot_at i r) as Es by (intros i; unfold slot_at; by rewrite E).
  split; try intros j; try setoid_rewrite Es.
  - unfold maxClients. rewrite E. apply T.
  - done.
  - apply T.
  - apply T.
  - rewrite Em. apply T.
  - eapply submask_trans; [apply T|done].
  - eapply submask_trans; [apply T|done].
Qed.

(** ** Freeing a slot *)

Definition freed_slot (s : ClientSlot) : ClientSlot := cleared (set_peer NVPSF_PEER_INVALID s).

Definition monitor_without (i : nat) (r : Rpc) : MonitorCache :=
  if bool_decide (cs_type (slot_at i r) = Some CLIENT_SAFETY_MONITOR) && (mo_clientId (rp_monitor r) =? Z.of_nat i)
  then no_monitor else rp_monitor r.

(** [r'] is [r] with slot [i] emptied to [s]. *)
Record empties (i : nat) (s : ClientSlot) (r r' : Rpc) : Prop := {
  em_slots : rp_slots r' = <[i := s]> (rp_slots r);
  em_masks : rp_masks r' = set_presence (or_slots present_bit (rp_slots r')) (rp_masks r);
  em_monitor : rp_monitor r' = monitor_without i r;
  em_confirmed : in_confirmed (rp_input r') = in_confirmed (rp_input r);
  em_unusable : in_unusablePublished (rp_input r') = Z.land (or_slots unusable_bit (rp_slots r')) PSS_INPUT_STATE_MASK;
  em_published : in_confirmedPublished (rp_input r') = Z.land (in_confirmed (rp_input r)) PSS_INPUT_STATE_MASK;
  em_rest : rp_threshold r' = rp_threshold r /\ rp_pending r' = rp_pending r /\ rp_pendingSeen r' = rp_pendingSeen r
            /\ rp_startTime r' = rp_startTime r;
}.

Lemma clear_empties i r : empties i (cleared (slot_at i r)) r (clearClientStateLocked i r).
Proof.
  unfold clearClientStateLocked, monitor_without. cbn [put_slot set_slots rp_monitor].
  split; unfold monitor_without; destruct (_ && _); done.
Qed.

Lemma disconnect_empties i r :
  (maxClients r <= MAX_POSSIBLE_CLIENTS)%nat -> empties i (freed_slot (slot_at i r)) r (disconnectClientLocked i r).1.
Proof.
  intros Hn. unfold disconnectClientLocked. destruct (Nat.ltb_spec i MAX_POSSIBLE_CLIENTS) as [Hi|Hi]; cbn [andb].
  - destruct (Z.eqb_spec (cs_peer (slot_at i r)) NVPSF_PEER_INVALID) as [E|E]; cbn [negb fst].
    + replace (freed_slot (slot_at i r)) with (cleared (slot_at i r)); [apply clear_empties|].
      unfold freed_slot, cleared. cbn. by rewrite E.
    + pose proof (clear_empties i (put_slot i (set_peer NVPSF_PEER_INVALID (slot_at i r)) r)) as [Es Em Eo Ec Eu Ep Er].
      destruct (decide (i < maxClients r)%nat) as [Hi'|Hi']; [|by rewrite slot_out in E by lia].
      rewrite slot_put_eq in Es by done. split; try done.
      * rewrite Es. cbn [put_slot set_slots rp_slots]. by rewrite list_insert_insert_eq.
      * rewrite Eo. unfold monitor_without. by rewrite slot_put_eq.
  - replace (freed_slot (slot_at i r)) with (cleared (slot_at i r)); [apply clear_empties|].
    by rewrite slot_out by lia.
Qed.

Lemma cleared_ok s : slot_ok (cleared s).
Proof. split; cbn; try done; by intros []. Qed.

Lemma empties_present i s r r' : empties i s r r' -> presence_ok r'.
Proof. intros E. unfold presence_ok. by rewrite (em_masks _ _ _ _ E). Qed.

Lemma empties_table i s r r' : cs_type s = None -> slot_ok s -> present_bit s = 0 -> empties i s r r' -> table_ok r -> table_ok r'.
Proof.
  intros Ht Hs Hp E T.
  assert (tracked_bit s = 0) as Htr by (unfold tracked_bit; by rewrite Ht).
  assert (expected_of (rp_masks r') = expected_of (rp_masks r)) as Hx by by rewrite (em_masks _ _ _ _ E).
  destruct (decide (i < maxClients r)%nat) as [Hi|Hi].
  - eapply (table_update i s); [done|done|apply E|..].
    + rewrite Hx, (em_masks _ _ _ _ E). apply T.
    + rewrite (em_masks _ _ _ _ E). apply submask_refl.
    + rewrite (em_masks _ _ _ _ E). apply submask_refl.
    + done.
    + by rewrite Ht.
    + by rewrite Ht.
    + rewrite (em_monitor _ _ _ _ E). unfold monitor_without. case_bool_decide; [|by left]. by right; right.
    + rewrite Hp. apply submask_0.
    + rewrite Htr. apply submask_0.
  - eapply table_same; [exact T|..].
    + rewrite (em_slots _ _ _ _ E). by rewrite list_insert_ge by (unfold maxClients in Hi; lia).
    + rewrite (em_monitor _ _ _ _ E). unfold monitor_without. by rewrite slot_out by lia.
    + rewrite Hx, (em_masks _ _ _ _ E). apply T.
    + rewrite (em_masks _ _ _ _ E). apply submask_refl.
    + rewrite (em_masks _ _ _ _ E). apply submask_refl.
Qed.

Lemma clear_inv i r : table_ok r -> rpc_inv (clearClientStateLocked i r).
Proof.
  intros T. pose proof (clear_empties i r) as E.
  split; [|by eapply empties_present]. by eapply empties_table; [..|exact E|done]; [|apply cleared_ok|].
Qed.

Lemma disconnect_inv i r : table_ok r -> rpc_inv (disconnectClientLocked i r).1.
Proof.
  intros T. pose proof (disconnect_empties i r (tb_size r T)) as E.
  split; [|by eapply empties_present]. by eapply empties_table; [..|exact E|done]; [|apply cleared_ok|].
Qed.

Lemma disconnectClient_fst i r : (disconnectClient i r).1 = (disconnectClientLocked i r).1.
Proof. unfold disconnectClient. by destruct (disconnectClientLocked i r). Qed.

Lemma dropClient_fst i nowNs r : (dropClient i nowNs r).1 = (disconnectClientLocked i r).1.
Proof. unfold dropClient. rewrite <- disconnectClient_fst. by destruct (disconnectClient i r). Qed.

(** A tracked bit is a single bit. *)
Lemma single_bit_submask p m : 0 <= p -> Z.land m (2 ^ p) <> 0 -> submask (2 ^ p) m.
Proof.
  intros Hp H. assert (Z.testbit m p = true) as Hb.
  { destruct (Z.testbit m p) eqn:E; [done|]. exfalso. apply H. apply Z.bits_inj'. intros n Hn.
    rewrite Z.land_spec, Z.pow2_bits_eqb, Z.testbit_0_l by done.
    destruct (Z.eqb_spec p n) as [->|]; by rewrite ?E, ?andb_false_r. }
  apply Z.bits_inj'. intros n Hn. rewrite Z.lor_spec, Z.pow2_bits_eqb by done.
  by destruct (Z.eqb_spec p n) as [<-|]; [rewrite Hb|].
Qed.

Lemma tracked_pow t k : valid_identity t k -> presenceBitForClient t k <> 0 -> exists p, 0 <= p < 16 /\ presenceBitForClient t k = 2 ^ p.
Proof.
  intros H Hb. pose proof (tracked_listed _ _ H Hb) as Hin.
  assert (forallb (fun a => existsb (fun p => presenceBitForClient a.1 a.2 =? 2 ^ p) (seqZ 0 16)) tracked_identities = true)
    as Hall by by vm_compute.
  rewrite forallb_forall in Hall. specialize (Hall _ (proj1 (list_elem_of_In _ _) Hin)).
  apply existsb_elem_of in Hall as (p & Hp & E). apply elem_of_seqZ in Hp. apply Z.eqb_eq in E. exists p. split; [lia|done].
Qed.

Lemma tracked_single t k m :
  valid_identity t k -> Z.land m (presenceBitForClient t k) <> 0 -> submask (presenceBitForClient t k) m.
Proof.
  intros H Hl. destruct (tracked_pow t k H) as (p & Hp & E); [intros E; by rewrite E, Z.land_0_r in Hl|].
  rewrite E in *. apply single_bit_submask; [lia|done].
Qed.

(** ** Changing a slot but not its identity *)

Lemma table_touch i s r r' :
  table_ok r -> (i < maxClients r)%nat ->
  cs_type s = cs_type (slot_at i r) -> cs_instance s = cs_instance (slot_at i r) ->
  rp_slots r' = <[i := s]> (rp_slots r) ->
  ms_expected (rp_masks r') = expected_of (rp_masks r') ->
  submask (ms_everPresent (rp_masks r)) (ms_everPresent (rp_masks r')) ->
  submask (ms_everRegistered (rp_masks r)) (ms_everRegistered (rp_masks r')) ->
  slot_ok s ->
  (cs_type s = Some CLIENT_SAFETY_MONITOR -> rp_monitor r' = monitor_of i s) ->
  (rp_monitor r' = rp_monitor r \/ cs_type s = Some CLIENT_SAFETY_MONITOR) ->
  submask (present_bit s) (ms_everPresent (rp_masks r')) ->
  table_ok r'.
Proof.
  intros T Hi Et Ei E Hex Hep Her Hs Hm Hmo Hp.
  assert (clientInstance s = clientInstance (slot_at i r)) as Eci by (unfold clientInstance; by rewrite Ei).
  eapply (table_update i s); try done.
  - intros t j Ht Hsg Hj (H1 & H2 & H3). apply Hj. symmetry. eapply (tb_unique r T); [by rewrite <- Et|by rewrite <- Eci|].
    split_and!; congruence.
  - destruct Hmo; tauto.
  - assert (tracked_bit s = tracked_bit (slot_at i r)) as -> by (unfold tracked_bit; by rewrite Et, Eci).
    eapply submask_trans; [apply T|done].
Qed.

Lemma slot_ok_hb s h :
  slot_ok s -> is_Some (hb_last (cs_hb s)) -> is_Some (hb_last h) -> hb_missFast h = default 0 (hb_miss h) -> 0 <= default 0 (hb_miss h) ->
  hb_faultFast h = (if default false (hb_fault h) then 1 else 0) -> slot_ok (set_hb h s).
Proof. intros H Hl ? ? ? ?. split; cbn; try done; try apply H. intros _. by apply (so_live s H). Qed.

Lemma slot_ok_rej s j : slot_ok s -> slot_ok (set_rej j s).
Proof. intros H. split; apply H. Qed.

Lemma typed_in_range i r t : cs_type (slot_at i r) = Some t -> (i < maxClients r)%nat.
Proof. intros E. destruct (decide (i < maxClients r)%nat); [done|]. by rewrite slot_out in E by lia. Qed.

Lemma getClientType_Some i r t : getClientType i r = t -> t <> 0 -> cs_type (slot_at i r) = Some t.
Proof. unfold getClientType. destruct (cs_type _); cbn; congruence. Qed.

Lemma recompute_presence_ok r : presence_ok (recomputePresenceMaskLocked r).
Proof. done. Qed.

Lemma presence_put i s r r' :
  presence_ok r -> rp_slots r' = <[i := s]> (rp_slots r) -> ms_presence (rp_masks r') = ms_presence (rp_masks r) ->
  present_bit s = present_bit (slot_at i r) -> presence_ok r'.
Proof. unfold presence_ok. intros P -> -> E. rewrite P. symmetry. by apply (or_slots_put present_bit i s r). Qed.

Lemma present_tracked s : tracked_bit s = 0 -> present_bit s = 0.
Proof. unfold present_bit. intros ->. by repeat case_match. Qed.

Lemma updateClientHeartbeat_inv i t now r :
  rpc_inv r -> cs_type (slot_at i r) = Some t -> rpc_inv (updateClientHeartbeat i t now r).
Proof.
  intros [T P] Et. unfold updateClientHeartbeat. destruct (latched (slot_at i r)) eqn:Hl; [done|].
  pose proof (typed_in_range _ _ _ Et) as Hi. pose proof (tb_slots r T i) as Hs.
  set (h := Build_Heartbeat (Some now) _ _ _ _ _). set (s := set_hb h (slot_at i r)).
  assert (slot_ok s) as Hs' by (apply slot_ok_hb; [done|apply (so_tracked _ Hs); by eexists|by eexists|done|done|apply (so_fault _ Hs)]).
  assert (tracked_bit s = presenceBitForClient t (clientInstance (slot_at i r))) as Hb.
  { unfold tracked_bit. cbn. by rewrite Et. }
  set (r2 := if t =? CLIENT_SAFETY_MONITOR then _ else _).
  assert (rp_slots r2 = <[i := s]> (rp_slots r) /\ rp_masks r2 = rp_masks r) as [E2 M2] by (unfold r2; by case_match).
  assert (cs_type s = Some CLIENT_SAFETY_MONITOR -> rp_monitor r2 = monitor_of i s) as Mo1.
  { cbn [s set_hb cs_type]. rewrite Et. intros [= ->]. unfold r2. rewrite Z.eqb_refl. cbn [set_monitor rp_monitor put_slot set_slots].
    rewrite (tb_monitor r T i Et). unfold monitor_of, miss_of, latched in *. cbn. by rewrite Hl. }
  assert (rp_monitor r2 = rp_monitor r \/ cs_type s = Some CLIENT_SAFETY_MONITOR) as Mo2.
  { unfold r2. destruct (Z.eqb_spec t CLIENT_SAFETY_MONITOR) as [->|]; [by right|by left]. }
  destruct (Z.eqb_spec (presenceBitForClient t (clientInstance (slot_at i r))) 0) as [Hz|Hz]; cbn [negb].
  - split.
    + eapply (table_touch i s); try done; rewrite ?M2; auto with safety_core; [apply T|].
      rewrite present_tracked by congruence. apply submask_0.
    + eapply presence_put; [done|exact E2|by rewrite M2|].
      rewrite !present_tracked; [done|unfold tracked_bit; by rewrite Et|congruence].
  - rewrite M2. set (bit := presenceBitForClient t _) in *.
    assert (submask (present_bit s) bit) as Hsub.
    { unfold present_bit. repeat case_match; rewrite ?Hb; auto with safety_core. }
    split; [|apply recompute_presence_ok].
    destruct (Z.eqb_spec (Z.land (ms_everPresent (rp_masks r)) bit) 0) as [Hn|Hn].
    + eapply (table_touch i s); try done; cbn; auto with safety_core.
      eapply submask_trans; [exact Hsub|apply submask_lor_r].
    + eapply (table_touch i s); try done; cbn; rewrite ?M2; auto with safety_core; [apply T|].
      eapply submask_trans; [exact Hsub|]. apply tracked_single; [|done].
      by apply (so_identity _ Hs).
Qed.

(** ** The heartbeat monitor *)

Lemma latch_ok s : slot_ok s -> is_Some (hb_last (cs_hb s)) -> slot_ok (latch_slot s).
Proof. intros H Hl. apply slot_ok_hb; try done; [apply (so_miss s H)|apply (so_miss0 s H)]. Qed.

Lemma miss_ok m s : slot_ok s -> 0 <= m -> is_Some (hb_last (cs_hb s)) -> slot_ok (miss_slot m s).
Proof. intros H Hm Hl. apply slot_ok_hb; try done. apply (so_fault s H). Qed.

Lemma next_miss_range s : slot_ok s -> 0 <= next_miss s.
Proof. intros H. pose proof (so_miss0 s H). unfold next_miss, miss_of in *. case_match; lia. Qed.

Lemma miss_present m s : present_bit (miss_slot m s) = present_bit s.
Proof. done. Qed.

Lemma latch_present s : present_bit (latch_slot s) = 0.
Proof. unfold present_bit. cbn. by repeat case_match. Qed.

Lemma tick_client_inv maxF now acc i : rpc_inv acc.1 -> rpc_inv (tick_client maxF now acc i).1.
Proof.
  destruct acc as [r dis]. cbn [fst]. intros [T P]. unfold tick_client.
  pose proof (tb_slots r T i) as Hs. set (s := slot_at i r) in *.
  destruct (hb_last (cs_hb s)) as [last|] eqn:Hlast; [|done].
  assert (i < maxClients r)%nat as Hi.
  { destruct (decide (i < maxClients r)%nat); [done|]. unfold s in Hlast. by rewrite slot_out in Hlast by lia. }
  assert (is_Some (hb_last (cs_hb s))) as Hsome by by eexists.
  destruct (latched s) eqn:Hl; [done|]. destruct (_ <=? _); [done|].
  destruct (cs_type s) as [t|] eqn:Et; cbn [fst].
  2:{ split.
      - eapply (table_touch i (latch_slot s)); try done; auto with safety_core; try apply T.
        + by apply latch_ok.
        + cbn. by rewrite Et.
        + rewrite latch_present. apply submask_0.
      - eapply presence_put; [exact P|done|done|]. fold s. rewrite latch_present. symmetry. apply present_tracked.
        unfold tracked_bit. by rewrite Et. }
  set (m := next_miss s). set (mon := rp_monitor (put_slot i (miss_slot m s) r)).
  assert (mon = rp_monitor r) as Emon by done.
  destruct (maxF <=? m); cbn [fst].
  - set (s' := latch_slot (miss_slot m s)).
    assert (slot_ok s') as Hs' by (apply latch_ok; [apply miss_ok; [done|by apply next_miss_range|done]|done]).
    assert (forall r', rp_slots r' = <[i := s']> (rp_slots r) -> rp_masks r' = rp_masks r ->
              rp_monitor r' = (if t =? CLIENT_SAFETY_MONITOR then monitor_of i s' else rp_monitor r) ->
              table_ok r') as Hgen.
    { intros r' E1 E2 E3. eapply (table_touch i s'); try done; rewrite ?E2; auto with safety_core; try apply T.
      - cbn. rewrite Et, E3. intros [= ->]. done.
      - rewrite E3. cbn. rewrite Et. destruct (Z.eqb_spec t CLIENT_SAFETY_MONITOR) as [->|]; auto.
      - unfold s'. rewrite latch_present. apply submask_0. }
    destruct (Z.eqb_spec (presenceBitForClient t (clientInstance s)) 0) as [Hz|Hz]; cbn [negb].
    + split.
      * apply Hgen; destruct (t =? CLIENT_SAFETY_MONITOR) eqn:Esm; cbn; rewrite ?list_insert_insert_eq; done.
      * eapply presence_put; [exact P| | |].
        -- destruct (t =? CLIENT_SAFETY_MONITOR); cbn; by rewrite list_insert_insert_eq.
        -- by destruct (t =? CLIENT_SAFETY_MONITOR).
        -- fold s s'. unfold s'. rewrite latch_present. symmetry. apply present_tracked. unfold tracked_bit. by rewrite Et.
    + split; [|apply recompute_presence_ok].
      match goal with |- table_ok (recomputePresenceMaskLocked ?x) => assert (table_ok x) as Tx end.
      { apply Hgen; destruct (t =? CLIENT_SAFETY_MONITOR) eqn:Esm; cbn; rewrite ?list_insert_insert_eq; done. }
      eapply table_same; [exact Tx|done|done|apply Tx|apply submask_refl|apply submask_refl].
  - split.
    + eapply (table_touch i (miss_slot m s)); try done.
      * by destruct (t =? CLIENT_SAFETY_MONITOR).
      * destruct (t =? CLIENT_SAFETY_MONITOR); apply T.
      * destruct (t =? CLIENT_SAFETY_MONITOR); apply submask_refl.
      * destruct (t =? CLIENT_SAFETY_MONITOR); apply submask_refl.
      * apply miss_ok; [done|by apply next_miss_range|done].
      * cbn. rewrite Et. intros [= ->]. cbn. unfold mon. cbn. rewrite (tb_monitor r T i Et). fold s.
        unfold monitor_of, latched in *. cbn. by rewrite Hl.
      * cbn. rewrite Et. destruct (Z.eqb_spec t CLIENT_SAFETY_MONITOR) as [->|]; auto.
      * rewrite miss_present. destruct (t =? CLIENT_SAFETY_MONITOR); apply T.
    + eapply presence_put; [exact P| | |].
      * by destruct (t =? CLIENT_SAFETY_MONITOR).
      * by destruct (t =? CLIENT_SAFETY_MONITOR).
      * done.
Qed.

Lemma tick_required_inv maxF now r : rpc_inv r -> rpc_inv (tick_required maxF now r).
Proof.
  intros [T P]. unfold tick_required. destruct (_ =? 0); [done|]. destruct (_ <? _); [done|].
  split; [|by destruct (ms_due (rp_masks r))].
  eapply table_same; [exact T|..]; destruct (ms_due (rp_masks r)) eqn:E; cbn; auto with safety_core. apply T.
Qed.

Lemma enqueue_disconnect_same r i :
  rp_slots (enqueue_disconnect r i) = rp_slots r /\ rp_masks (enqueue_disconnect r i) = rp_masks r
  /\ rp_monitor (enqueue_disconnect r i) = rp_monitor r /\ rp_input (enqueue_disconnect r i) = rp_input r.
Proof. unfold enqueue_disconnect. by case_bool_decide. Qed.

Lemma inv_same r r' :
  rpc_inv r -> rp_slots r' = rp_slots r -> rp_masks r' = rp_masks r -> rp_monitor r' = rp_monitor r -> rpc_inv r'.
Proof.
  intros [T P] E1 E2 E3. split; [|unfold presence_ok; by rewrite E1, E2].
  eapply table_same; [exact T|done|done|rewrite E2; apply T|rewrite E2; apply submask_refl|rewrite E2; apply submask_refl].
Qed.

Lemma tick_inv maxF now r : rpc_inv r -> rpc_inv (heartbeatMonitorTick maxF now r).
Proof.
  intros I. unfold heartbeatMonitorTick. destruct (_ =? 0); [done|].
  assert (rpc_inv (foldl (tick_client maxF now) (r, []) (seq 0 (maxClients r))).1) as I1.
  { apply (foldl_inv (fun acc => rpc_inv acc.1)); [done|]. intros. by apply tick_client_inv. }
  destruct (foldl _ _ _) as [r1 dis]. cbn [fst] in I1.
  apply (foldl_inv rpc_inv); [by apply tick_required_inv|]. intros x j Ix.
  destruct (enqueue_disconnect_same x j) as (? & ? & ? & ?). by eapply inv_same.
Qed.

(** ** Connections *)

Lemma find_peer_Some peer l i : find_peer peer l = Some i -> exists s, l !! i = Some s /\ cs_peer s = peer.
Proof.
  revert i. induction l as [|s l IH]; intros i; cbn; [done|].
  destruct (Z.eqb_spec (cs_peer s) peer) as [E|E]; [intros [= <-]; by exists s|].
  destruct (find_peer peer l) as [j|]; cbn; [|done]. intros [= <-]. by apply IH.
Qed.

Lemma find_peer_slot peer r i : find_peer peer (rp_slots r) = Some i -> (i < maxClients r)%nat /\ cs_peer (slot_at i r) = peer.
Proof.
  intros H. apply find_peer_Some in H as (s & Hs & E). split; [by apply lookup_lt_Some in Hs|].
  unfold slot_at. by rewrite Hs.
Qed.

Lemma clear_slot_eq i r : (i < maxClients r)%nat -> slot_at i (clearClientStateLocked i r) = cleared (slot_at i r).
Proof. intros Hi. rewrite (slot_insert i i _ _ _ (em_slots _ _ _ _ (clear_empties i r)) Hi). by rewrite bool_decide_true. Qed.

Lemma empties_max i s r r' : empties i s r r' -> maxClients r' = maxClients r.
Proof. intros E. unfold maxClients. by rewrite (em_slots _ _ _ _ E), length_insert. Qed.

Lemma peer_connected_inv peer now r : rpc_inv r -> peer <> NVPSF_PEER_INVALID -> rpc_inv (peer_connected peer now r).1.
Proof.
  intros [T P] Hpeer. unfold peer_connected. destruct (find_peer _ _) as [i|] eqn:E; [|done]. cbn [fst].
  apply find_peer_slot in E as [Hi _]. destruct (clear_inv i r T) as [T1 P1].
  set (r1 := clearClientStateLocked i r) in *. pose proof (clear_slot_eq i r Hi) as Es. fold r1 in Es.
  assert (i < maxClients r1)%nat as Hi1 by (unfold r1; by rewrite (empties_max _ _ _ _ (clear_empties i r))).
  split.
  - eapply (table_touch i (admitted peer now (slot_at i r1))); try done; auto with safety_core; try apply T1.
    + rewrite Es. split; cbn; try done; by intros [].
    + cbn. by rewrite Es.
    + rewrite Es. apply submask_0.
  - eapply presence_put; [exact P1|done|done|]. fold r1. by rewrite Es.
Qed.

(** ** Registration *)

Definition claims (self : nat) (t k : Z) (i : nat) (s : ClientSlot) : bool :=
  bool_decide (cs_type s = Some t) && (clientInstance s =? k) && negb (i =? self)%nat
  && (i <? MAX_POSSIBLE_CLIENTS)%nat && negb (cs_peer s =? NVPSF_PEER_INVALID).

Lemma singleton_scan_spec self t k off l stale res :
  singleton_scan self t k off l stale = Some res ->
  (forall j s, l !! j = Some s -> claims self t k (off + j) s = true -> latched s = true)
  /\ match res with
     | None => stale = None /\ forall j s, l !! j = Some s -> claims self t k (off + j) s = false
     | Some st => stale = Some st \/ exists j s, l !! j = Some s /\ st = (off + j)%nat /\ claims self t k st s = true
     end.
Proof.
  revert off stale. induction l as [|s l IH]; intros off stale; cbn [singleton_scan].
  - intros [= <-]. split; [done|]. destruct stale; [by left|done].
  - change (_ && negb (cs_peer s =? NVPSF_PEER_INVALID)) with (claims self t k off s).
    assert (forall j, (off + S j = S off + j)%nat) as Hsh by lia.
    destruct (claims self t k off s) eqn:Hc.
    + destruct (latched s) eqn:Hl; [|done]. intros H. destruct (IH _ _ H) as [H1 H2]. split.
      * intros [|j] s' Hj Hcl; [by injection Hj as <-|]. rewrite Hsh in Hcl. by eapply H1.
      * destruct res as [st|]; [|by destruct H2]. right. destruct H2 as [[= <-]|(j & s' & Hj & Est & Hcl)].
        -- exists 0%nat, s. by rewrite Nat.add_0_r.
        -- exists (S j), s'. by rewrite Hsh.
    + intros H. destruct (IH _ _ H) as [H1 H2]. split.
      * intros [|j] s' Hj Hcl; [injection Hj as <-; by rewrite Nat.add_0_r, Hc in Hcl|]. rewrite Hsh in Hcl. by eapply H1.
      * destruct res as [st|].
        -- destruct H2 as [?|(j & s' & Hj & Est & Hcl)]; [by left|]. right. exists (S j), s'. by rewrite Hsh.
        -- destruct H2 as [? H2]. split; [done|]. intros [|j] s' Hj; [injection Hj as <-; by rewrite Nat.add_0_r|].
           rewrite Hsh. by eapply H2.
Qed.

(** The scan on a well-formed table: another client has the identity only as
    the faulted client that is evicted. *)
Lemma scan_table i t k r res :
  table_ok r -> singleton_scan i t k 0 (rp_slots r) None = Some res -> is_singleton t k = true ->
  (forall j, j <> i -> cs_type (slot_at j r) = Some t -> clientInstance (slot_at j r) = k ->
             res = Some j /\ latched (slot_at j r) = true)
  /\ (forall j, res = Some j -> j <> i /\ cs_type (slot_at j r) = Some t /\ clientInstance (slot_at j r) = k
                              /\ latched (slot_at j r) = true /\ cs_peer (slot_at j r) <> NVPSF_PEER_INVALID).
Proof.
  intros T Hscan Hsg. destruct (singleton_scan_spec _ _ _ _ _ _ _ Hscan) as [H1 H2].
  assert (forall j s, rp_slots r !! j = Some s -> slot_at j r = s) as Hat by (intros j s Hj; unfold slot_at; by rewrite Hj).
  assert (forall j, res = Some j -> j <> i /\ cs_type (slot_at j r) = Some t /\ clientInstance (slot_at j r) = k
                              /\ latched (slot_at j r) = true /\ cs_peer (slot_at j r) <> NVPSF_PEER_INVALID) as Hres.
  { intros j ->. destruct H2 as [|(j' & s & Hj & -> & Hc)]; [done|]. cbn [Nat.add] in Hc |- *. pose proof (H1 _ _ Hj Hc) as Hl.
    rewrite (Hat _ _ Hj). unfold claims in Hc. bool_prop.
    repeat match goal with H : _ && _ = true |- _ => apply andb_true_iff in H; destruct H end.
    match goal with H : bool_decide _ = true |- _ => apply bool_decide_eq_true in H end.
    match goal with H : (_ =? i)%nat = false |- _ => apply Nat.eqb_neq in H end. done. }
  split; [|done]. intros j Hji Et Ek. pose proof (typed_in_range _ _ _ Et) as Hj.
  apply lookup_lt_is_Some in Hj as [s Hs]. pose proof (Hat _ _ Hs) as E.
  assert (claims i t k j s = true) as Hc.
  { unfold claims. rewrite <- E, bool_decide_true, Ek, Z.eqb_refl by done. cbn [andb].
    rewrite (proj2 (Nat.eqb_neq j i)) by done.
    rewrite (proj2 (Nat.ltb_lt j MAX_POSSIBLE_CLIENTS)) by (pose proof (tb_size r T); apply typed_in_range in Et; lia).
    rewrite (proj2 (Z.eqb_neq _ _)); [done|]. apply (so_peer _ (tb_slots r T j)). by eexists. }
  split; [|rewrite E; by eapply H1]. destruct res as [st|].
  - f_equal. destruct (Hres st eq_refl) as (Hne & Et' & Ek' & _).
    eapply (tb_unique r T); [exact Et'|by rewrite Ek'|]. split_and!; [by eexists|congruence|congruence].
  - destruct H2 as [_ H2]. specialize (H2 j s Hs). cbn [Nat.add] in H2. congruence.
Qed.

Lemma accept_inv i t k now r :
  table_ok r -> (i < maxClients r)%nat -> cs_peer (slot_at i r) <> NVPSF_PEER_INVALID -> valid_identity t k ->
  (is_singleton t k = true -> forall j, j <> i -> cs_type (slot_at j r) = Some t -> clientInstance (slot_at j r) = k -> False) ->
  rpc_inv (accept_registration i t k now r).
Proof.
  intros T Hi Hp Hid Hu. split; [|apply recompute_presence_ok].
  set (s := registered t k now (slot_at i r)).
  assert (tracked_bit s = presenceBitForClient t k) as Etr by done.
  eapply (table_update i s); unfold accept_registration; cbv zeta; fold s.
  - exact T.
  - done.
  - by destruct (t =? CLIENT_SAFETY_MONITOR).
  - destruct (t =? CLIENT_SAFETY_MONITOR); apply T.
  - destruct (t =? CLIENT_SAFETY_MONITOR); apply submask_refl.
  - destruct (t =? CLIENT_SAFETY_MONITOR); cbn; apply submask_lor_l.
  - split; cbn; try done. by intros t' [= <-].
  - intros t' j [= <-] Hsg Hj (_ & E1 & E2). eapply (Hu Hsg j); [done|by symmetry|by symmetry].
  - intros [= ->]. done.
  - destruct (Z.eqb_spec t CLIENT_SAFETY_MONITOR) as [->|]; [by right; left|by left].
  - apply submask_0.
  - rewrite Etr. destruct (t =? CLIENT_SAFETY_MONITOR); cbn; apply submask_lor_r.
Qed.

(** What [validateAndAcceptRegistration] may do. *)
Inductive register_outcome (i : nat) (req : NvPSSDRPCMsgReq) (now : Z) (r : Rpc) : Rpc * Z * option Evicted -> Prop :=
| reg_rejected status : status <> REGISTER_ACCEPTED -> register_outcome i req now r (r, status, None)
| reg_accepted t k :
    valid_identity t k ->
    (is_singleton t k = true -> forall j, j <> i -> cs_type (slot_at j r) = Some t -> clientInstance (slot_at j r) = k -> False) ->
    register_outcome i req now r (accept_registration i t k now r, REGISTER_ACCEPTED, None)
| reg_evicting t k j :
    valid_identity t k -> is_singleton t k = true ->
    (forall j', j' <> i -> cs_type (slot_at j' r) = Some t -> clientInstance (slot_at j' r) = k -> j' = j) ->
    j <> i -> cs_type (slot_at j r) = Some t -> clientInstance (slot_at j r) = k -> latched (slot_at j r) = true ->
    register_outcome i req now r
      (accept_registration i t k now (disconnectClientLocked j r).1, REGISTER_ACCEPTED,
       Some {| ev_slot := j; ev_peer := (disconnectClientLocked j r).2; ev_clientType := t; ev_instance := k |}).

Lemma register_outcome_ok i req now r :
  table_ok r -> Forall is_byte (rq_payload req) -> register_outcome i req now r (validateAndAcceptRegistration i req now r).
Proof.
  intros T Hb. unfold validateAndAcceptRegistration. destruct (_ <? 1); [by apply reg_rejected|].
  destruct (valid_client_type (payload_at req 0)) eqn:Ht; cbn [negb]; [|by apply reg_rejected].
  set (t := payload_at req 0) in *. set (k := if 2 <=? rq_size req then payload_at req 1 else 0).
  assert (0 <= k) as Hk.
  { unfold k. destruct (_ <=? _); [|done]. unfold payload_at. destruct (nth_in_or_default 1 (rq_payload req) 0) as [Hin|Hz]; [|by rewrite Hz].
    apply list_elem_of_In in Hin. rewrite Forall_forall in Hb. apply Hb in Hin. destruct Hin. done. }
  destruct (_ || _) eqn:Hrange; [by apply reg_rejected|]. bool_prop.
  assert (valid_identity t k) as Hid.
  { split_and!; [done|lia|lia|]. intros Hne. match goal with H : _ && _ = false |- _ => apply andb_false_iff in H as [H|H] end; bool_prop; done. }
  destruct (is_singleton t k) eqn:Hsg; [|apply reg_accepted; [done|by rewrite Hsg]].
  destruct (singleton_scan i t k 0 (rp_slots r) None) as [[j|]|] eqn:Hscan; [|..|by apply reg_rejected].
  - destruct (scan_table _ _ _ _ _ T Hscan Hsg) as [H1 H2]. destruct (H2 j eq_refl) as (? & ? & ? & ? & ?).
    rewrite (surjective_pairing (disconnectClientLocked j r)). apply reg_evicting; try done.
    intros j' Hj' Et Ek. destruct (H1 j' Hj' Et Ek) as [[= ->] _]. done.
  - destruct (scan_table _ _ _ _ _ T Hscan Hsg) as [H1 _]. apply reg_accepted; [done|].
    intros _ j Hj Et Ek. by destruct (H1 j Hj Et Ek).
Qed.

Lemma disconnect_slot i j r :
  table_ok r -> slot_at j (disconnectClientLocked i r).1 = if bool_decide (j = i) then freed_slot (slot_at i r) else slot_at j r.
Proof.
  intros T. pose proof (disconnect_empties i r (tb_size r T)) as E.
  destruct (decide (i < maxClients r)%nat) as [Hi|Hi]; [apply (slot_insert i j _ _ _ (em_slots _ _ _ _ E) Hi)|].
  assert (rp_slots (disconnectClientLocked i r).1 = rp_slots r) as Es.
  { rewrite (em_slots _ _ _ _ E). apply list_insert_ge. unfold maxClients in Hi. lia. }
  transitivity (slot_at j r); [unfold slot_at; by rewrite Es|]. case_bool_decide; [|done]. subst. by rewrite slot_out by lia.
Qed.

Lemma disconnect_max i r : table_ok r -> maxClients (disconnectClientLocked i r).1 = maxClients r.
Proof. intros T. by eapply empties_max, disconnect_empties, T. Qed.

Lemma register_inv i req now r :
  rpc_inv r -> (i < maxClients r)%nat -> cs_peer (slot_at i r) <> NVPSF_PEER_INVALID -> Forall is_byte (rq_payload req) ->
  rpc_inv (validateAndAcceptRegistration i req now r).1.1.
Proof.
  intros [T P] Hi Hp Hb. destruct (register_outcome_ok i req now r T Hb) as [| |t k j Hid Hsg Honly Hj Et Ek Hl]; [done|by apply accept_inv|].
  cbn [fst]. destruct (disconnect_inv j r T) as [T1 P1].
  apply accept_inv; [done|by rewrite disconnect_max|by rewrite disconnect_slot, bool_decide_false by done|done|].
  intros _ j' Hj' Et' Ek'. rewrite disconnect_slot in Et', Ek' by done. case_bool_decide; [done|].
  by apply H, (Honly j').
Qed.

(** ** Reports *)

Lemma rej_inv i j r r' :
  rpc_inv r -> rp_slots r' = <[i := set_rej j (slot_at i r)]> (rp_slots r) -> rp_masks r' = rp_masks r ->
  rp_monitor r' = rp_monitor r -> rpc_inv r'.
Proof.
  intros [T P] E1 E2 E3. destruct (decide (i < maxClients r)%nat) as [Hi|Hi].
  - split; [|by eapply presence_put; [exact P|exact E1|by rewrite E2|]].
    eapply (table_touch i (set_rej j (slot_at i r))); try done; rewrite ?E2; auto with safety_core; try apply T.
    + by apply slot_ok_rej, T.
    + rewrite E3. apply T.
  - eapply inv_same; [by split| |done|done]. rewrite E1. apply list_insert_ge. unfold maxClients in Hi. lia.
Qed.

Lemma noteReportAccepted_slots i p e r :
  exists j, rp_slots (noteReportAccepted i p e r) = <[i := set_rej j (slot_at i r)]> (rp_slots r)
  /\ rp_masks (noteReportAccepted i p e r) = rp_masks r /\ rp_monitor (noteReportAccepted i p e r) = rp_monitor r
  /\ rp_pending (noteReportAccepted i p e r) = rp_pending r.
Proof. by eexists. Qed.

Section server.
Context {M : Type}.
Variable trustReportCb : option (Z -> Z -> SafetyEvent -> M -> M * bool).
Variable requiredSourceCb : option (M -> Z -> bool).
Variables maxFailures warnThreshold : Z.
Variable thresholdConfidence : f32.

Abbreviation step := (rpc_step trustReportCb requiredSourceCb maxFailures warnThreshold thresholdConfidence).
Abbreviation run := (rpc_run trustReportCb requiredSourceCb maxFailures warnThreshold thresholdConfidence).
Abbreviation Op := (@RpcOp M).

Lemma noteReportRejected_slots i m r :
  let r' := (noteReportRejected requiredSourceCb i m r).1 in
  exists j, rp_slots r' = <[i := set_rej j (slot_at i r)]> (rp_slots r)
  /\ rp_masks r' = rp_masks r /\ rp_monitor r' = rp_monitor r /\ rp_pending r' = rp_pending r.
Proof.
  unfold noteReportRejected. repeat (case_match; cbn [fst]); eexists; cbn; rewrite ?list_insert_insert_eq; split_and!; reflexivity.
Qed.

Lemma accepted_inv i p e r : rpc_inv r -> rpc_inv (noteReportAccepted i p e r).
Proof. intros I. destruct (noteReportAccepted_slots i p e r) as (j & ? & ? & ? & ?). by eapply rej_inv. Qed.

Lemma rejected_inv i m r : rpc_inv r -> rpc_inv (noteReportRejected requiredSourceCb i m r).1.
Proof. intros I. destruct (noteReportRejected_slots i m r) as (j & ? & ? & ? & ?). by eapply rej_inv. Qed.

Lemma disconnectClient_inv i r : rpc_inv r -> rpc_inv (disconnectClient i r).1.
Proof. intros [T _]. rewrite disconnectClient_fst. by apply disconnect_inv. Qed.

Lemma dropClient_inv i nowNs r : rpc_inv r -> rpc_inv (dropClient i nowNs r).1.
Proof. intros [T _]. rewrite dropClient_fst. by apply disconnect_inv. Qed.

Lemma handle_register_fst i peer req now nowNs r :
  let v := validateAndAcceptRegistration i req now r in
  (handle_register i peer req now nowNs r).1 =
  if v.1.2 =? REGISTER_ACCEPTED then v.1.1 else (disconnectClientLocked i v.1.1).1.
Proof.
  cbv zeta. unfold handle_register. destruct (validateAndAcceptRegistration i req now r) as [[r1 st] ev]. cbn [fst snd].
  destruct (_ =? _); [done|]. pose proof (dropClient_fst i nowNs r1) as E. destruct (dropClient i nowNs r1). exact E.
Qed.

Lemma handle_report_cases i peer req now nowNs (m : M) r :
  let r' := (handle_report trustReportCb requiredSourceCb maxFailures warnThreshold thresholdConfidence i peer req now nowNs m r).1.1 in
  r' = (disconnectClientLocked i r).1 /\ getClientType i r = 0
  \/ (exists p e, r' = noteReportAccepted i p e r) \/ (exists m, r' = (noteReportRejected requiredSourceCb i m r).1).
Proof.
  cbv zeta. unfold handle_report. destruct (Z.eqb_spec (getClientType i r) 0) as [E|E].
  - left. rewrite <- disconnectClient_fst. by destruct (disconnectClient i r).
  - right. destruct (judge_report _ _ _ _ _ _ _ _) as [[m1 st] ev]. destruct (_ =? _); [left; by eexists _, _|].
    right. exists m1. by destruct (noteReportRejected _ _ _ _).
Qed.

(** What the transport promises: a connection and a request have a valid peer,
    and a payload is made of bytes. *)
Definition op_ok (op : Op) : Prop :=
  match op with
  | PeerConnected peer _ => peer <> NVPSF_PEER_INVALID
  | Received peer (RecvRequest req) _ _ _ => peer <> NVPSF_PEER_INVALID /\ Forall is_byte (rq_payload req)
  | _ => True
  end.

Lemma disconnect_pending_inv acc entry : rpc_inv acc.1 -> rpc_inv (disconnect_pending acc entry).1.
Proof.
  destruct acc as [r a], entry as [[i g] nowNs]. cbn [fst]. intros I. unfold disconnect_pending.
  destruct (_ <=? _)%nat; [done|]. destruct (negb _); [done|]. destruct (_ =? _); [done|].
  pose proof (disconnectClient_inv i r I) as Hi. by destruct (disconnectClient i r).
Qed.

Lemma pending_inv clock r : rpc_inv r -> rpc_inv (processPendingDisconnects clock r).1.
Proof.
  intros [T P]. unfold processPendingDisconnects. apply (foldl_inv (fun acc => rpc_inv acc.1)).
  - cbn [fst]. split; [|done]. eapply table_same; [exact T|done|done|apply T|apply submask_refl|apply submask_refl].
  - intros. by apply disconnect_pending_inv.
Qed.

Lemma required_inv mask r : rpc_inv r -> rpc_inv (setRequiredSourceMask mask r).
Proof.
  intros [T P]. split; [|done]. eapply table_same; [exact T|done|done|done|apply submask_refl|apply submask_refl].
Qed.

Lemma step_inv r (op : Op) : rpc_inv r -> op_ok op -> rpc_inv (step r op).1.
Proof.
  intros I Hop. destruct op as [now|clock|peer now|peer nowNs|peer out now nowNs m|mask|th]; cbn [rpc_step fst].
  - by apply tick_inv.
  - by apply pending_inv.
  - by apply peer_connected_inv.
  - unfold peer_gone. destruct (find_peer _ _); [by apply dropClient_inv|done].
  - unfold receive. destruct (find_peer peer (rp_slots r)) as [i|] eqn:Hf; [|done].
    apply find_peer_slot in Hf as [Hi Hp]. destruct out as [| |req]; [by apply dropClient_inv..|].
    destruct Hop as [Hpv Hb]. unfold handle_message.
    destruct (_ =? REGISTER_CLIENT); [|destruct (_ =? REPORT_SAFETY_EVENT); [|destruct (_ =? TERMINATE_CLIENT); [|destruct (_ =? SEND_HEARTBEAT); [|done]]]].
    + cbn [fst]. rewrite handle_register_fst. cbv zeta.
      pose proof (register_inv i req now r I Hi ltac:(congruence) Hb) as I1.
      destruct (_ =? _); [done|]. by apply disconnect_inv, I1.
    + pose proof (handle_report_cases i peer req now nowNs m r) as H. cbv zeta in H.
      destruct H as [[-> _]|[(p & e & ->)|(m' & ->)]]; [by apply disconnect_inv, I|by apply accepted_inv|by apply rejected_inv].
    + cbn [fst]. unfold handle_terminate. pose proof (dropClient_inv i nowNs r I) as I1. by destruct (dropClient i nowNs r).
    + cbn [fst]. unfold handle_heartbeat. destruct (_ <? 2); [done|]. destruct (negb _); [done|].
      destruct (Z.eqb_spec (getClientType i r) 0) as [E|E]; [by apply disconnectClient_inv|].
      destruct (negb _); [by apply dropClient_inv|]. cbn [fst]. apply updateClientHeartbeat_inv; [done|].
      by apply getClientType_Some.
  - by apply required_inv.
  - unfold setClientRejectErrorThreshold. destruct (_ || _); [done|]. by apply (inv_same r).
Qed.

Lemma new_inv n t : (n <= MAX_POSSIBLE_CLIENTS)%nat -> rpc_inv (new_rpc n t).
Proof.
  intros Hn. assert (forall i, slot_at i (new_rpc n t) = free_slot) as Hs.
  { intros i. unfold slot_at, new_rpc. cbn [rp_slots]. destruct (decide (i < n)%nat).
    - by rewrite lookup_replicate_2 by done.
    - by rewrite lookup_ge_None_2 by (rewrite length_replicate; lia). }
  split.
  - split; try intros i; rewrite ?Hs; try done.
    + unfold maxClients, new_rpc. cbn [rp_slots]. by rewrite length_replicate.
    + apply (cleared_ok free_slot).
  - unfold presence_ok, new_rpc. cbn [rp_slots rp_masks ms_presence]. clear. rewrite or_slots_map.
    induction n as [|n IH]; [done|]. cbn. exact IH.
Qed.

Lemma run_inv r (ops : list Op) : rpc_inv r -> Forall op_ok ops -> rpc_inv (run r ops).1.
Proof.
  intros I H. revert r I. induction H as [|op ops Hop _ IH]; intros r I; cbn [rpc_run]; [done|].
  pose proof (step_inv r op I Hop) as I1. destruct (step r op) as [r1 a]. specialize (IH r1 I1).
  by destruct (run r1 ops).
Qed.

(** ** The published masks *)

Definition source_present (t k : Z) (r : Rpc) : Prop := Z.land (ms_presence (rp_masks r)) (presenceBitForClient t k) <> 0.

(** The client of slot [i] is [(t, k)], has heartbeated since it registered and
    is not faulted. *)
Definition alive (t k : Z) (i : nat) (r : Rpc) : Prop :=
  let s := slot_at i r in
  cs_type s = Some t /\ clientInstance s = k /\ (exists c, hb_count (cs_hb s) = Some c /\ c <> 0) /\ latched s = false.

Lemma present_bit_alive t k i r :
  valid_identity t k -> slot_ok (slot_at i r) -> presenceBitForClient t k <> 0 ->
  Z.land (present_bit (slot_at i r)) (presenceBitForClient t k) <> 0 <-> alive t k i r.
Proof.
  intros Hid Hs Hb. unfold alive, present_bit, tracked_bit. split.
  - intros H. destruct (hb_count _) as [c|] eqn:Hc; [|done]. destruct (Z.eqb_spec c 0); [done|].
    destruct (latched _) eqn:Hl; [done|]. destruct (cs_type (slot_at i r)) as [t'|] eqn:Et; [|done].
    destruct (tracked_disjoint t' (clientInstance (slot_at i r)) t k) as [-> ->]; [by apply (so_identity _ Hs)|done|done|].
    split_and!; eauto.
  - intros (Et & Ek & (c & Hc & Hc0) & Hl). rewrite Hc, Hl, Et, Ek, (proj2 (Z.eqb_neq c 0)) by done. by rewrite tracked_self.
Qed.

Lemma present_iff t k r :
  rpc_inv r -> valid_identity t k -> presenceBitForClient t k <> 0 -> source_present t k r <-> exists i, alive t k i r.
Proof.
  intros [T P] Hid Hb. unfold source_present. rewrite P, or_slots_bit by done.
  split; intros [i Hi]; exists i; by apply present_bit_alive; [..|apply T| |].
Qed.

Lemma or_slots_submask f r m : (forall i, submask (f (slot_at i r)) m) -> submask (or_slots f (rp_slots r)) m.
Proof.
  unfold slot_at. intros H. rewrite or_slots_map, foldl_lor, Z.lor_0_l.
  induction (rp_slots r) as [|s l IH]; cbn [map foldr]; [apply submask_0|]. unfold submask in *.
  rewrite <- Z.lor_assoc, IH; [exact (H 0%nat)|intros i; exact (H (S i))].
Qed.

(** At every moment of every run of the client server, a source is in the
    published presence mask exactly when one client is registered under that
    identity, has heartbeated since it registered and is not heartbeat-faulted;
    that client is the only one with the identity.  Every present source is in the
    published expected mask, which is the set of sources ever present together with
    the required sources once their time to appear has run out. *)
Theorem presence_mask_exact (n : nat) (start : Z) (ops : list Op) (t k : Z) :
  (n <= MAX_POSSIBLE_CLIENTS)%nat -> Forall op_ok ops -> valid_identity t k -> presenceBitForClient t k <> 0 ->
  let r := (run (new_rpc n start) ops).1 in
  (source_present t k r <-> exists i, alive t k i r)
  /\ (forall i j, cs_type (slot_at i r) = Some t -> clientInstance (slot_at i r) = k ->
                  cs_type (slot_at j r) = Some t -> clientInstance (slot_at j r) = k -> i = j)
  /\ submask (ms_presence (rp_masks r)) (ms_expected (rp_masks r))
  /\ ms_expected (rp_masks r) =
     Z.lor (ms_everPresent (rp_masks r)) (if ms_due (rp_masks r) then ms_required (rp_masks r) else 0).
Proof.
  intros Hn Hops Hid Hb r. pose proof (run_inv _ ops (new_inv n start Hn) Hops) as I. fold r in I. destruct I as [T P].
  split_and!.
  - by apply present_iff.
  - intros i j Ei Eki Ej Ekj. eapply (tb_unique r T); [exact Ei|rewrite Eki; by apply tracked_singleton|].
    split_and!; [by eexists|congruence|congruence].
  - rewrite P, (tb_expected r T). eapply submask_trans; [|apply submask_lor_l]. apply or_slots_submask. apply T.
  - apply T.
Qed.

(** While a safety monitor is registered, the operational mode the daemon reads
    without a lock is the one its own heartbeat record gives: ERROR when its fault is
    latched or its misses have reached the limit, DEGRADED above the warning
    threshold, NORMAL otherwise; with the limit at 0 the mode is always NORMAL. *)
Theorem safety_monitor_mode (n : nat) (start : Z) (ops : list Op) (i : nat) (limit warn : Z) :
  (n <= MAX_POSSIBLE_CLIENTS)%nat -> Forall op_ok ops ->
  let r := (run (new_rpc n start) ops).1 in
  let s := slot_at i r in
  cs_type s = Some CLIENT_SAFETY_MONITOR ->
  getSafetyMonitorOperationalMode limit warn r =
    if limit =? 0 then NORMAL
    else if latched s || (limit <=? miss_of s) then ERROR
    else if warn <? miss_of s then DEGRADED else NORMAL.
Proof.
  intros Hn Hops r s Hs. destruct (run_inv _ ops (new_inv n start Hn) Hops) as [T _]. fold r in T.
  unfold getSafetyMonitorOperationalMode. destruct (limit =? 0); [done|].
  rewrite (tb_monitor r T i Hs). cbn [monitor_of mo_cacheAnyFault mo_cacheMaxMiss]. fold s.
  destruct (latched s); cbn [orb]; [done|]. destruct (Z.leb_spec limit (miss_of s)); [done|].
  destruct (warn <? miss_of s); cbn [andb]; [|done]. by rewrite (proj2 (Z.ltb_lt _ _)).
Qed.
End server.
