(* ===== verification/RpcLoss.v ===== *)
(** * No source is lost in silence

    What one step of the client server does to the slot of a tracked source:
    either the source stays registered there, or a SW_FAIL naming it is queued.
    From it follow that a source which was present and no longer is has been
    reported lost by the end of the next server pass, and that a source which goes
    silent is reported lost.  The last part shows the schedules and requests that
    these theorems exclude. *)

From S2P Require Import Prelude Protocol Crc EventCodec Validate EventManager Rpc RpcSafety.

(** ** One tick, slot by slot *)

Definition tick_slot (maxFailures now : Z) (s : ClientSlot) : ClientSlot :=
  match hb_last (cs_hb s) with
  | None => s
  | Some last =>
    if latched s then s
    else if millis (now - last) <=? HB_TIMEOUT_MS then s
    else match cs_type s with
         | None => latch_slot s
         | Some _ => let m := next_miss s in
                     if maxFailures <=? m then latch_slot (miss_slot m s) else miss_slot m s
         end
  end.

Definition newly_latched (maxFailures now : Z) (s : ClientSlot) : bool :=
  negb (latched s) && latched (tick_slot maxFailures now s).

Lemma tick_client_slot maxF now r dis i :
  let acc := tick_client maxF now (r, dis) i in
  (forall j, slot_at j acc.1 = if bool_decide (j = i) then tick_slot maxF now (slot_at i r) else slot_at j r)
  /\ acc.2 = dis ++ (if newly_latched maxF now (slot_at i r) then [i] else [])
  /\ maxClients acc.1 = maxClients r /\ rp_pending acc.1 = rp_pending r /\ rp_pendingSeen acc.1 = rp_pendingSeen r.
Proof.
  cbv zeta. unfold tick_client, newly_latched, tick_slot. set (s := slot_at i r).
  assert (forall j, slot_at j r = if bool_decide (j = i) then s else slot_at j r) as Hid by (intros j; by case_bool_decide; subst).
  destruct (hb_last (cs_hb s)) as [last|] eqn:Hlast;
    [|split_and!; try done; destruct (latched s); cbn; by rewrite app_nil_r].
  assert (i < maxClients r)%nat as Hi.
  { destruct (decide (i < maxClients r)%nat); [done|]. unfold s in Hlast. by rewrite slot_out in Hlast by lia. }
  destruct (latched s) eqn:Hl; [split_and!; try done; cbn; by rewrite app_nil_r|].
  destruct (_ <=? _); [split_and!; try done; rewrite Hl; cbn; by rewrite app_nil_r|].
  assert (forall r' s', rp_slots r' = <[i := s']> (rp_slots r) ->
            (forall j, slot_at j r' = if bool_decide (j = i) then s' else slot_at j r) /\ maxClients r' = maxClients r) as Hput.
  { intros r' s' E. split; [intros j; by apply slot_insert|]. unfold maxClients. by rewrite E, length_insert. }
  destruct (cs_type s) as [t|] eqn:Et.
  2:{ destruct (Hput (put_slot i (latch_slot s) r) (latch_slot s) eq_refl). by split_and!. }
  destruct (maxF <=? next_miss s); cbn [fst snd].
  - set (s' := latch_slot (miss_slot (next_miss s) s)).
    match goal with |- context [slot_at _ ?x] => destruct (Hput x s') as [E1 E2] end.
    { destruct (negb _), (t =? CLIENT_SAFETY_MONITOR); cbn; by rewrite list_insert_insert_eq. }
    split_and!; [done|done|done|..]; by destruct (negb _), (t =? CLIENT_SAFETY_MONITOR).
  - match goal with |- context [slot_at _ ?x] => destruct (Hput x (miss_slot (next_miss s) s)) as [E1 E2] end.
    { by destruct (t =? CLIENT_SAFETY_MONITOR). }
    assert (latched (miss_slot (next_miss s) s) = false) as -> by done.
    split_and!; [done|cbn; by rewrite app_nil_r|done|..]; by destruct (t =? CLIENT_SAFETY_MONITOR).
Qed.

Lemma tick_clients_slot maxF now l r dis :
  NoDup l ->
  let acc := foldl (tick_client maxF now) (r, dis) l in
  (forall j, slot_at j acc.1 = if bool_decide (j ∈ l) then tick_slot maxF now (slot_at j r) else slot_at j r)
  /\ (forall j, j ∈ acc.2 <-> j ∈ dis \/ (j ∈ l /\ newly_latched maxF now (slot_at j r) = true))
  /\ maxClients acc.1 = maxClients r /\ rp_pending acc.1 = rp_pending r /\ rp_pendingSeen acc.1 = rp_pendingSeen r.
Proof.
  revert r dis. induction l as [|i l IH]; intros r dis Hnd; cbv zeta; cbn [foldl].
  - split_and!; try done. intros j. rewrite elem_of_nil. tauto.
  - apply NoDup_cons in Hnd as [Hni Hnd]. pose proof (tick_client_slot maxF now r dis i) as H. cbv zeta in H.
    destruct (tick_client maxF now (r, dis) i) as [r1 dis1]. destruct H as (E1 & E2 & E3 & E4 & E5). cbn [fst snd] in *.
    destruct (IH r1 dis1 Hnd) as (F1 & F2 & F3 & F4 & F5). split_and!; [| |congruence..].
    + intros j. rewrite F1, E1. destruct (decide (j = i)) as [->|Hji].
      * rewrite (bool_decide_false (i ∈ l)), !bool_decide_true by (done || left). done.
      * rewrite (bool_decide_false (j = i)) by done. case_bool_decide as Hj.
        -- rewrite bool_decide_true by by right. done.
        -- rewrite bool_decide_false; [done|]. rewrite elem_of_cons. tauto.
    + intros j. rewrite F2, E2, elem_of_app, E1, elem_of_cons. destruct (decide (j = i)) as [->|Hji].
      * destruct (newly_latched maxF now (slot_at i r)); [rewrite list_elem_of_singleton|rewrite elem_of_nil]; naive_solver.
      * rewrite bool_decide_false by done.
        destruct (newly_latched maxF now (slot_at i r)); [rewrite list_elem_of_singleton|rewrite elem_of_nil]; naive_solver.
Qed.

Lemma tick_required_slots maxF now r :
  rp_slots (tick_required maxF now r) = rp_slots r /\ rp_pending (tick_required maxF now r) = rp_pending r
  /\ rp_pendingSeen (tick_required maxF now r) = rp_pendingSeen r.
Proof. unfold tick_required. destruct (_ =? 0); [done|]. destruct (_ <? _); [done|]. by destruct (ms_due (rp_masks r)). Qed.

(** The queue after a list of clients was handed over. *)
Lemma enqueue_disconnects l r :
  (forall i, i ∈ l -> (i < MAX_POSSIBLE_CLIENTS)%nat) ->
  (forall i, i ∈ rp_pendingSeen r -> (i, cs_generation (slot_at i r)) ∈ rp_pending r) ->
  let r' := foldl enqueue_disconnect r l in
  rp_slots r' = rp_slots r
  /\ (forall e, e ∈ rp_pending r -> e ∈ rp_pending r')
  /\ (forall i, i ∈ l -> (i, cs_generation (slot_at i r)) ∈ rp_pending r').
Proof.
  revert r. induction l as [|i l IH]; intros r Hl Hseen; cbv zeta; cbn [foldl]; [split_and!; set_solver|].
  destruct (enqueue_disconnect_same r i) as (Es & _).
  assert (forall j, slot_at j (enqueue_disconnect r i) = slot_at j r) as Eat by (intros j; unfold slot_at; by rewrite Es).
  assert ((forall e, e ∈ rp_pending r -> e ∈ rp_pending (enqueue_disconnect r i))
          /\ (i, cs_generation (slot_at i r)) ∈ rp_pending (enqueue_disconnect r i)
          /\ (forall j, j ∈ rp_pendingSeen (enqueue_disconnect r i) -> (j, cs_generation (slot_at j r)) ∈ rp_pending (enqueue_disconnect r i)))
    as (Hold & Hnew & Hseen').
  { unfold enqueue_disconnect. case_bool_decide as Hin; [by split_and!; [|apply Hseen|]|]. cbn [set_pending rp_pending rp_pendingSeen].
    rewrite (proj2 (Nat.ltb_lt i MAX_POSSIBLE_CLIENTS)) by (apply Hl; left).
    split_and!; [set_solver|set_solver|]. intros j Hj. apply elem_of_union in Hj as [Hj|Hj]; [|set_solver].
    apply elem_of_singleton in Hj as ->. set_solver. }
  destruct (IH (enqueue_disconnect r i)) as (F1 & F2 & F3).
  - intros j Hj. apply Hl. by right.
  - intros j Hj. rewrite Eat. by apply Hseen'.
  - split_and!; [congruence|auto|]. intros j Hj. apply elem_of_cons in Hj as [->|Hj]; [by apply F2|].
    rewrite <- (Eat j). by apply F3.
Qed.

(** Every faulted client waits for its disconnect under its own generation. *)
Definition faults_pending (r : Rpc) : Prop :=
  forall i, latched (slot_at i r) = true -> (i, cs_generation (slot_at i r)) ∈ rp_pending r.

Lemma tick_slot_generation maxF now s : cs_generation (tick_slot maxF now s) = cs_generation s.
Proof. unfold tick_slot. by repeat case_match. Qed.

Lemma tick_effect maxF now r :
  rpc_inv r -> maxF <> 0 ->
  let r' := heartbeatMonitorTick maxF now r in
  (forall j, slot_at j r' = tick_slot maxF now (slot_at j r))
  /\ (rp_pendingSeen r = ∅ -> faults_pending r -> faults_pending r').
Proof.
  intros I HmaxF. cbv zeta. unfold heartbeatMonitorTick. rewrite (proj2 (Z.eqb_neq maxF 0)) by done.
  pose proof (tick_clients_slot maxF now (seq 0 (maxClients r)) r [] (NoDup_seq _ _)) as H. cbv zeta in H.
  destruct (foldl _ _ _) as [r1 dis]. cbn [fst snd] in H. destruct H as (E1 & E2 & E3 & E4 & E5).
  destruct (tick_required_slots maxF now r1) as (G1 & G2 & G3).
  set (r2 := tick_required maxF now r1) in *.
  assert (forall j, slot_at j r2 = tick_slot maxF now (slot_at j r)) as Eat.
  { intros j. transitivity (slot_at j r1); [unfold slot_at; by rewrite G1|]. rewrite E1. case_bool_decide as Hj; [done|].
    rewrite elem_of_seq in Hj. rewrite slot_out by lia. done. }
  assert (forall l x, (forall j, slot_at j (foldl enqueue_disconnect x l) = slot_at j x)) as Henq.
  { induction l as [|i l IH]; intros x j; [done|]. cbn [foldl]. rewrite IH. destruct (enqueue_disconnect_same x i) as (Es & _).
    unfold slot_at. by rewrite Es. }
  split; [intros j; by rewrite Henq|]. intros Hseen Hfp i Hl.
  destruct (enqueue_disconnects dis r2) as (F1 & F2 & F3).
  - intros j Hj. apply E2 in Hj as [Hj|[Hj _]]; [by apply elem_of_nil in Hj|]. rewrite elem_of_seq in Hj. pose proof (tb_size r (proj1 I)). lia.
  - intros j. rewrite G3, E5, Hseen. set_solver.
  - rewrite Henq in Hl |- *. rewrite Eat in Hl |- *. destruct (latched (slot_at i r)) eqn:Hold.
    + apply F2. rewrite G2, E4, tick_slot_generation. by apply Hfp.
    + specialize (F3 i). rewrite Eat in F3. apply F3, E2. right. split.
      * apply elem_of_seq. destruct (decide (i < maxClients r)%nat); [lia|]. by rewrite slot_out in Hl by lia.
      * unfold newly_latched. by rewrite Hold, Hl.
Qed.

(** ** The report of a loss *)

(** A SW_FAIL with the cause of the source and its bit in [objectID[0]]. *)
Definition reports_loss (t k : Z) (a : RpcAction) : Prop :=
  match a with
  | QueueEvent _ ev => se_type ev = SW_FAIL /\ se_cause ev = monitorLostCause t k
                       /\ (fm_objectID (se_fusionMetadata ev)).1 = presenceBitForClient t k
  | _ => False
  end.

Definition loss_in (t k : Z) (actions : list RpcAction) : Prop := Exists (reports_loss t k) actions.

Lemma loss_app_l t k a b : loss_in t k a -> loss_in t k (a ++ b).
Proof. intros H. apply Exists_app. by left. Qed.

Lemma loss_app_r t k a b : loss_in t k b -> loss_in t k (a ++ b).
Proof. intros H. apply Exists_app. by right. Qed.

#[export] Hint Resolve loss_app_l loss_app_r : safety_core.

Lemma lost_cause t k : presenceBitForClient t k <> 0 -> monitorLostCause t k <> CAUSE_NONE.
Proof.
  intros H. unfold monitorLostCause. rewrite (proj2 (Z.eqb_neq _ _)) by done. revert H. unfold presenceBitForClient.
  repeat case_match; done.
Qed.

Lemma inject_reports slot t k nowNs : presenceBitForClient t k <> 0 -> loss_in t k (injectMonitorLostSwFail slot t k nowNs).
Proof.
  intros H. unfold injectMonitorLostSwFail. rewrite (proj2 (Z.eqb_neq _ _)) by by apply lost_cause.
  apply Exists_cons. by left.
Qed.

(** The client of slot [i] is [(t, k)]. *)
Definition client_at (t k : Z) (i : nat) (r : Rpc) : Prop :=
  cs_type (slot_at i r) = Some t /\ clientInstance (slot_at i r) = k.

Lemma client_getters t k i r : client_at t k i r -> getClientType i r = t /\ getClientInstance i r = k.
Proof. unfold client_at, getClientType, getClientInstance. by intros [-> ->]. Qed.

Lemma drop_reports t k i nowNs r :
  client_at t k i r -> presenceBitForClient t k <> 0 -> loss_in t k (dropClient i nowNs r).2.
Proof.
  intros H Hb. destruct (client_getters t k i r H) as [E1 E2]. unfold dropClient. rewrite E1, E2.
  destruct (disconnectClient i r). cbn [snd]. by apply loss_app_r, inject_reports.
Qed.

(** ** Pending disconnects *)

Definition current (e : nat * Z) (r : Rpc) : Prop :=
  (e.1 < maxClients r)%nat /\ cs_generation (slot_at e.1 r) = e.2 /\ cs_peer (slot_at e.1 r) <> NVPSF_PEER_INVALID.

Lemma disconnect_pending_cases r a e nowNs :
  let acc := disconnect_pending (r, a) (e, nowNs) in
  (acc = (r, a) /\ ~ current e r)
  \/ (current e r /\ acc.1 = (disconnectClientLocked e.1 r).1
      /\ exists event, (exists rest, acc.2 = a ++ event ++ rest)
                       /\ forall t k, client_at t k e.1 r -> presenceBitForClient t k <> 0 -> loss_in t k event).
Proof.
  destruct e as [i g]. cbv zeta. unfold disconnect_pending, current. cbn [fst snd].
  destruct (Nat.leb_spec (maxClients r) i); [left; split; [done|lia]|].
  destruct (Z.eqb_spec (cs_generation (slot_at i r)) g); cbn [negb]; [|left; split; [done|tauto]].
  destruct (Z.eqb_spec (cs_peer (slot_at i r)) NVPSF_PEER_INVALID); [left; split; [done|tauto]|].
  right. rewrite <- disconnectClient_fst. destruct (disconnectClient i r) as [r1 d]. cbn [fst snd].
  split_and!; [done|done|done|done|]. eexists. split; [by eexists|]. intros t k Hc Hb.
  destruct (client_getters t k i r Hc) as [-> ->]. rewrite (proj2 (Z.eqb_neq _ _)) by done. by apply inject_reports.
Qed.

(** Each slot is left as it was or freed, and freeing a tracked client reports
    its loss; the slots named by a current entry are freed. *)
Lemma pending_fold L r a :
  rpc_inv r ->
  let acc := foldl disconnect_pending (r, a) L in
  (exists b, acc.2 = a ++ b)
  /\ (forall j, slot_at j acc.1 = slot_at j r
       \/ slot_at j acc.1 = freed_slot (slot_at j r)
          /\ forall t k, client_at t k j r -> presenceBitForClient t k <> 0 -> loss_in t k acc.2)
  /\ (forall e nowNs, (e, nowNs) ∈ L -> current e r -> slot_at e.1 acc.1 = freed_slot (slot_at e.1 r)).
Proof.
  revert r a. induction L as [|[e nowNs] L IH]; intros r a I; cbv zeta; cbn [foldl].
  - split_and!; [exists []; by rewrite app_nil_r|by left|]. intros e nowNs He. by apply elem_of_nil in He.
  - pose proof (disconnect_pending_inv (r, a) (e, nowNs) I) as I1.
    pose proof (disconnect_pending_cases r a e nowNs) as Hc. cbv zeta in Hc.
    destruct (disconnect_pending (r, a) (e, nowNs)) as [r1 a1]. cbn [fst snd] in *.
    destruct (IH r1 a1 I1) as ((b & Eb) & H1 & H2). cbv zeta in *. destruct Hc as [[[= -> ->] Hno]|(Hcur & E1 & event & (rest & Ea) & Hloss)].
    + split_and!; [by exists b|done|]. intros e' ts' Hin Hcur. apply elem_of_cons in Hin as [[= -> ->]|Hin]; [done|by eapply H2].
    + assert (forall j, slot_at j r1 = if bool_decide (j = e.1) then freed_slot (slot_at e.1 r) else slot_at j r) as Eat.
      { intros j. rewrite E1. apply disconnect_slot, I. }
      assert (maxClients r1 = maxClients r) as Emax by (rewrite E1; apply disconnect_max, I).
      split_and!.
      * exists (event ++ rest ++ b). by rewrite Eb, Ea, <- !app_assoc.
      * intros j. destruct (decide (j = e.1)) as [->|Hj].
        -- right. split.
           ++ destruct (H1 e.1) as [->|[-> _]]; by rewrite Eat, bool_decide_true.
           ++ intros t k Hat Hb. rewrite Eb, Ea. by apply loss_app_l, loss_app_r, loss_app_l, Hloss.
        -- specialize (H1 j). rewrite Eat, bool_decide_false in H1 by done. destruct H1 as [?|[? Hl]]; [by left|right].
           split; [done|]. intros t k Hat Hb. apply (Hl t k); [|done]. unfold client_at in *. by rewrite Eat, bool_decide_false.
      * intros e' ts' Hin Hcur'. destruct (decide (e'.1 = e.1)) as [Ee|Ee].
        -- destruct (H1 e'.1) as [->|[-> _]]; by rewrite Eat, bool_decide_true, Ee by done.
        -- apply elem_of_cons in Hin as [[= -> ->]|Hin]; [done|]. rewrite (H2 e' ts' Hin).
           ++ by rewrite Eat, bool_decide_false.
           ++ unfold current in *. by rewrite Emax, Eat, bool_decide_false.
Qed.

Lemma pending_effect clock r :
  rpc_inv r ->
  let acc := processPendingDisconnects clock r in
  (forall j, slot_at j acc.1 = slot_at j r
     \/ slot_at j acc.1 = freed_slot (slot_at j r)
        /\ forall t k, client_at t k j r -> presenceBitForClient t k <> 0 -> loss_in t k acc.2)
  /\ (faults_pending r -> forall j, latched (slot_at j acc.1) = false).
Proof.
  intros I. cbv zeta. unfold processPendingDisconnects. set (L := imap _ _).
  match goal with |- context [foldl disconnect_pending (?x, ?a) L] => set (r2 := x); set (a0 := a) end.
  assert (rpc_inv r2) as I2.
  { split; [|apply I]. eapply table_same; [apply I|done|done|apply I|apply submask_refl|apply submask_refl]. }
  destruct (pending_fold L r2 a0 I2) as (_ & H1 & H2).
  split; [exact H1|]. intros Hfp j. destruct (latched (slot_at j r)) eqn:Hl.
  - pose proof (Hfp j Hl) as Hin. apply list_elem_of_lookup in Hin as [m Hm].
    assert (((j, cs_generation (slot_at j r)), clock (32 + m)%nat) ∈ L) as HL.
    { apply list_elem_of_lookup. exists m. unfold L. rewrite list_lookup_imap, Hm. done. }
    assert (current (j, cs_generation (slot_at j r)) r2) as Hcur.
    { pose proof (tb_slots r (proj1 I) j) as Hs. split_and!; cbn [fst snd]; [|done|].
      - destruct (decide (j < maxClients r)%nat); [done|]. by rewrite slot_out in Hl by lia.
      - apply (so_live _ Hs), (so_latched _ Hs), Hl. }
    specialize (H2 _ _ HL Hcur). cbn [fst] in H2. by rewrite H2.
  - destruct (H1 j) as [->|[-> _]]; done.
Qed.

(** ** One step of the server *)

Lemma accept_slot i j t k now r :
  (i < maxClients r)%nat ->
  slot_at j (accept_registration i t k now r) = if bool_decide (j = i) then registered t k now (slot_at i r) else slot_at j r.
Proof. intros Hi. apply slot_insert; [|done]. unfold accept_registration. by destruct (t =? CLIENT_SAFETY_MONITOR). Qed.

Lemma drop_slot i j nowNs r :
  table_ok r -> slot_at j (dropClient i nowNs r).1 = if bool_decide (j = i) then freed_slot (slot_at i r) else slot_at j r.
Proof. intros T. rewrite dropClient_fst. by apply disconnect_slot. Qed.

(** The slot after a heartbeat of its client. *)
Definition beaten (now : Z) (s : ClientSlot) : ClientSlot :=
  set_hb {| hb_last := Some now; hb_count := Some (u32 (default 0 (hb_count (cs_hb s)) + 1)); hb_miss := Some 0;
            hb_missFast := 0; hb_fault := hb_fault (cs_hb s); hb_faultFast := hb_faultFast (cs_hb s) |} s.

Lemma heartbeat_slot i j t now r :
  table_ok r -> cs_type (slot_at i r) = Some t ->
  slot_at j (updateClientHeartbeat i t now r) =
  if bool_decide (j = i) && negb (latched (slot_at i r)) then beaten now (slot_at i r) else slot_at j r.
Proof.
  intros T Et. unfold updateClientHeartbeat. destruct (latched (slot_at i r)) eqn:Hl; [by rewrite andb_false_r|].
  rewrite andb_true_r. apply slot_insert; [|by eapply typed_in_range].
  destruct (so_tracked _ (tb_slots r T i)) as [last Hlast]; [by eexists|].
  assert (beaten now (slot_at i r) = set_hb (Build_Heartbeat (Some now)
    (Some (match hb_last (cs_hb (slot_at i r)) with Some _ => u32 (default 0 (hb_count (cs_hb (slot_at i r))) + 1) | None => 1 end))
    (Some 0) 0 (hb_fault (cs_hb (slot_at i r))) (hb_faultFast (cs_hb (slot_at i r)))) (slot_at i r)) as ->
    by (rewrite Hlast; done).
  by repeat case_match.
Qed.

Lemma rej_slot i j e r r' :
  rp_slots r' = <[i := set_rej e (slot_at i r)]> (rp_slots r) -> (i < maxClients r)%nat ->
  slot_at j r' = if bool_decide (j = i) then set_rej e (slot_at i r) else slot_at j r.
Proof. intros E Hi. by apply slot_insert. Qed.

Section server.
Context {M : Type}.
Variable trustReportCb : option (Z -> Z -> SafetyEvent -> M -> M * bool).
Variable requiredSourceCb : option (M -> Z -> bool).
Variables maxFailures warnThreshold : Z.
Variable thresholdConfidence : f32.

Abbreviation step := (rpc_step trustReportCb requiredSourceCb maxFailures warnThreshold thresholdConfidence).
Abbreviation run := (rpc_run trustReportCb requiredSourceCb maxFailures warnThreshold thresholdConfidence).
Abbreviation Op := (@RpcOp M).

(** A client registers once per connection, and the server makes a pass between
    two ticks of the heartbeat monitor. *)
Definition fresh_op (r : Rpc) (op : Op) : Prop :=
  match op with
  | Tick _ => rp_pendingSeen r = ∅
  | Received peer (RecvRequest req) _ _ _ =>
    rq_msg req = REGISTER_CLIENT -> forall i, find_peer peer (rp_slots r) = Some i -> cs_type (slot_at i r) = None
  | _ => True
  end.

Fixpoint scheduled (r : Rpc) (ops : list Op) : Prop :=
  match ops with
  | [] => True
  | op :: rest => fresh_op r op /\ scheduled (step r op).1 rest
  end.

(** What a step may do to the slot of a client it does not disconnect. *)
Definition kept (op : Op) (s s' : ClientSlot) : Prop :=
  match op with
  | Tick now => s' = if maxFailures =? 0 then s else tick_slot maxFailures now s
  | Received peer _ now _ _ =>
    s' = s \/ cs_peer s = peer /\ ((exists j, s' = set_rej j s) \/ (latched s = false /\ s' = beaten now s))
  | _ => s' = s
  end.

Lemma message_client i j t k peer req now nowNs (m : M) r :
  rpc_inv r -> (j < maxClients r)%nat -> cs_peer (slot_at j r) = peer -> peer <> NVPSF_PEER_INVALID -> Forall is_byte (rq_payload req) ->
  (rq_msg req = REGISTER_CLIENT -> cs_type (slot_at j r) = None) ->
  client_at t k i r -> presenceBitForClient t k <> 0 ->
  let out := (handle_message trustReportCb requiredSourceCb maxFailures warnThreshold thresholdConfidence j peer req now nowNs m r).1 in
  loss_in t k out.2
  \/ slot_at i out.1 = slot_at i r
  \/ (cs_peer (slot_at i r) = peer /\ ((exists e, slot_at i out.1 = set_rej e (slot_at i r))
       \/ (latched (slot_at i r) = false /\ slot_at i out.1 = beaten now (slot_at i r)))).
Proof.
  intros I Hj Hpeer Hpv Hb Hfresh Hc Htr. pose proof (proj1 I) as T. unfold handle_message.
  assert (forall x, loss_in t k (dropClient x nowNs r).2 \/ slot_at i (dropClient x nowNs r).1 = slot_at i r) as Hdrop.
  { intros x. destruct (decide (i = x)) as [<-|Hx]; [left; by apply drop_reports|right]. by rewrite drop_slot, bool_decide_false. }
  assert (getClientType j r = 0 -> i <> j) as Hzero.
  { intros Hz <-. destruct Hc as [Et Ek]. destruct (so_identity _ (tb_slots r T i) t Et) as (Hv & _).
    unfold getClientType in Hz. rewrite Et in Hz. cbn in Hz. by subst. }
  destruct (Z.eqb_spec (rq_msg req) REGISTER_CLIENT) as [Hreg|_]; [|destruct (_ =? REPORT_SAFETY_EVENT);
    [|destruct (_ =? TERMINATE_CLIENT); [|destruct (_ =? SEND_HEARTBEAT); [|by right; left]]]]; cbn [fst snd].
  - (* REGISTER_CLIENT *)
    specialize (Hfresh Hreg). assert (i <> j) as Hij by (intros <-; destruct Hc; congruence).
    unfold handle_register. pose proof (register_outcome_ok j req now r T Hb) as Ho.
    destruct (validateAndAcceptRegistration j req now r) as [[r1 st] ev]. inversion Ho; subst; clear Ho.
    + rewrite (proj2 (Z.eqb_neq st _)) by done. right; left. pose proof (drop_slot j i nowNs r1 T) as Ed.
      destruct (dropClient j nowNs r1) as [r2 d]. cbn [fst] in *. by rewrite Ed, bool_decide_false.
    + right; left. cbn [fst]. rewrite Z.eqb_refl. cbn [fst]. by rewrite accept_slot, bool_decide_false.
    + rewrite Z.eqb_refl. cbn [fst snd ev_slot ev_clientType ev_instance ev_peer].
      match goal with H : cs_type (slot_at ?x r) = Some ?t0 |- _ => destruct (decide (i = x)) as [->|Hne] end.
      * left. destruct Hc as [Hc1 Hc2]. apply loss_app_l, loss_app_r. simplify_eq. by apply inject_reports.
      * right; left. by rewrite accept_slot, bool_decide_false, disconnect_slot, bool_decide_false by (rewrite ?disconnect_max; done).
  - (* REPORT_SAFETY_EVENT *)
    right. pose proof (handle_report_cases trustReportCb requiredSourceCb maxFailures warnThreshold thresholdConfidence j peer req now nowNs m r) as H.
    cbv zeta in H. destruct H as [[-> Hz]|[(p & e & ->)|(m' & ->)]].
    + left. rewrite disconnect_slot, bool_decide_false; [done|by apply Hzero|done].
    + destruct (noteReportAccepted_slots j p e r) as (x & E & _). rewrite (rej_slot j i x r _ E Hj).
      case_bool_decide as Eij; [|by left]. subst j. right. eauto.
    + destruct (noteReportRejected_slots requiredSourceCb j m' r) as (x & E & _). rewrite (rej_slot j i x r _ E Hj).
      case_bool_decide as Eij; [|by left]. subst j. right. eauto.
  - (* TERMINATE_CLIENT *)
    unfold handle_terminate. destruct (Hdrop j) as [H|H].
    + left. destruct (dropClient j nowNs r). cbn [fst snd] in *. by apply Exists_cons; right.
    + right; left. by destruct (dropClient j nowNs r).
  - (* SEND_HEARTBEAT *)
    unfold handle_heartbeat. destruct (_ <? 2); [by right; left|]. destruct (negb _); [by right; left|].
    destruct (Z.eqb_spec (getClientType j r) 0) as [Hz|Hz].
    + right; left. rewrite disconnectClient_fst, disconnect_slot, bool_decide_false; [done|by apply Hzero|done].
    + destruct (negb _); [destruct (Hdrop j); [by left|by right; left]|]. right. cbn [fst].
      rewrite heartbeat_slot by (done || by apply getClientType_Some).
      case_bool_decide as Eij; [|by left]. subst j. destruct (latched (slot_at i r)); cbn; [by left|]. right. auto.
Qed.

Lemma step_client i t k r (op : Op) :
  rpc_inv r -> op_ok op -> fresh_op r op -> client_at t k i r -> presenceBitForClient t k <> 0 ->
  loss_in t k (step r op).2 \/ kept op (slot_at i r) (slot_at i (step r op).1).
Proof.
  intros I Hok Hfresh Hc Htr. pose proof (proj1 I) as T.
  assert (forall x nowNs, loss_in t k (dropClient x nowNs r).2 \/ slot_at i (dropClient x nowNs r).1 = slot_at i r) as Hdrop.
  { intros x nowNs. destruct (decide (i = x)) as [<-|Hx]; [left; by apply drop_reports|right]. by rewrite drop_slot, bool_decide_false. }
  destruct op as [now|clock|peer now|peer nowNs|peer out now nowNs m|mask|th]; cbn [rpc_step fst snd kept].
  - right. destruct (Z.eqb_spec maxFailures 0) as [->|Hne]; [done|]. by apply tick_effect.
  - destruct (pending_effect clock r I) as [H _]. destruct (H i) as [?|[_ Hl]]; [by right|left]. by apply Hl.
  - right. unfold peer_connected. destruct (find_peer _ _) as [j|] eqn:Hf; [|done]. cbn [fst].
    apply find_peer_slot in Hf as [Hj Hp].
    assert (i <> j) as Hij by (intros <-; destruct Hc as [Et _]; apply (so_peer _ (tb_slots r T i)); [by eexists|done]).
    rewrite slot_put_ne by done. by rewrite (slot_insert j i _ _ _ (em_slots _ _ _ _ (clear_empties j r))), bool_decide_false.
  - unfold peer_gone. destruct (find_peer _ _) as [j|]; [apply Hdrop|by right].
  - unfold receive. destruct (find_peer peer (rp_slots r)) as [j|] eqn:Hf; [|by right; left].
    destruct (find_peer_slot _ _ _ Hf) as [Hj Hp].
    destruct out as [| |req]; [destruct (Hdrop j nowNs); [by left|by right; left]..|].
    destruct Hok as [Hpv Hb]. apply (message_client i j t k peer req now nowNs m r); try done.
    intros Hreg. by apply (Hfresh Hreg).
  - by right.
  - right. unfold setClientRejectErrorThreshold. by destruct (_ || _).
Qed.

(** ** The moves of a slot *)

Inductive moves (op : Op) (s : ClientSlot) : ClientSlot -> Prop :=
| mv_same : moves op s s
| mv_freed : moves op s (freed_slot s)
| mv_admitted peer now : moves op s (admitted peer now (cleared s))
| mv_registered t k now : moves op s (registered t k now s)
| mv_beaten now : latched s = false -> moves op s (beaten now s)
| mv_rejected e : moves op s (set_rej e s)
| mv_tick now : op = Tick now -> moves op s (tick_slot maxFailures now s).

Lemma disconnect_moves op i j r : table_ok r -> moves op (slot_at j r) (slot_at j (disconnectClientLocked i r).1).
Proof. intros T. rewrite disconnect_slot by done. case_bool_decide; [subst; apply mv_freed|apply mv_same]. Qed.

Lemma drop_moves op i j nowNs r : table_ok r -> moves op (slot_at j r) (slot_at j (dropClient i nowNs r).1).
Proof. rewrite dropClient_fst. apply disconnect_moves. Qed.

Lemma message_moves op i j peer req now nowNs (m : M) r :
  rpc_inv r -> (i < maxClients r)%nat -> Forall is_byte (rq_payload req) ->
  moves op (slot_at j r) (slot_at j (handle_message trustReportCb requiredSourceCb maxFailures warnThreshold thresholdConfidence i peer req now nowNs m r).1.1).
Proof.
  intros I Hi Hb. pose proof (proj1 I) as T. unfold handle_message.
  destruct (_ =? REGISTER_CLIENT); [|destruct (_ =? REPORT_SAFETY_EVENT);
    [|destruct (_ =? TERMINATE_CLIENT); [|destruct (_ =? SEND_HEARTBEAT); [|apply mv_same]]]]; cbn [fst].
  - rewrite handle_register_fst. cbv zeta. destruct (register_outcome_ok i req now r T Hb) as [st Hst| |t k x]; cbn [fst snd].
    + rewrite (proj2 (Z.eqb_neq st _)) by done. by apply disconnect_moves.
    + rewrite Z.eqb_refl, accept_slot by done. case_bool_decide; [subst; apply mv_registered|apply mv_same].
    + rewrite Z.eqb_refl, accept_slot by by rewrite disconnect_max. case_bool_decide; [subst|by apply disconnect_moves].
      rewrite disconnect_slot, bool_decide_false by done. apply mv_registered.
  - pose proof (handle_report_cases trustReportCb requiredSourceCb maxFailures warnThreshold thresholdConfidence i peer req now nowNs m r) as H.
    cbv zeta in H. destruct H as [[-> _]|[(p & e & ->)|(m' & ->)]]; [by apply disconnect_moves|..].
    + destruct (noteReportAccepted_slots i p e r) as (x & E & _). rewrite (rej_slot i j x r _ E Hi).
      case_bool_decide; [subst; apply mv_rejected|apply mv_same].
    + destruct (noteReportRejected_slots requiredSourceCb i m' r) as (x & E & _). rewrite (rej_slot i j x r _ E Hi).
      case_bool_decide; [subst; apply mv_rejected|apply mv_same].
  - unfold handle_terminate. pose proof (drop_moves op i j nowNs r T). by destruct (dropClient i nowNs r).
  - unfold handle_heartbeat. destruct (_ <? 2); [apply mv_same|]. destruct (negb _); [apply mv_same|].
    destruct (Z.eqb_spec (getClientType i r) 0); [rewrite disconnectClient_fst; by apply disconnect_moves|].
    destruct (negb _); [by apply drop_moves|]. cbn [fst]. rewrite heartbeat_slot by (done || by apply getClientType_Some).
    case_bool_decide; [subst|apply mv_same]. destruct (latched (slot_at i r)) eqn:Hl; [apply mv_same|by apply mv_beaten].
Qed.

Lemma step_moves r (op : Op) j : rpc_inv r -> op_ok op -> moves op (slot_at j r) (slot_at j (step r op).1).
Proof.
  intros I Hok. pose proof (proj1 I) as T.
  destruct op as [now|clock|peer now|peer nowNs|peer out now nowNs m|mask|th]; cbn [rpc_step fst].
  - destruct (Z.eqb_spec maxFailures 0) as [E|E]; [unfold heartbeatMonitorTick; rewrite E; apply mv_same|].
    destruct (tick_effect maxFailures now r I E) as [-> _]. by apply mv_tick.
  - destruct (pending_effect clock r I) as [H _]. destruct (H j) as [->|[-> _]]; [apply mv_same|apply mv_freed].
  - unfold peer_connected. destruct (find_peer _ _) as [i|] eqn:Hf; [|apply mv_same]. cbn [fst].
    apply find_peer_slot in Hf as [Hi _]. rewrite slot_put, (empties_max _ _ _ _ (clear_empties i r)).
    rewrite (proj2 (Nat.ltb_lt _ _) Hi), andb_true_r. case_bool_decide; [subst; rewrite clear_slot_eq by done; apply mv_admitted|].
    rewrite (slot_insert i j _ _ _ (em_slots _ _ _ _ (clear_empties i r)) Hi), bool_decide_false by done. apply mv_same.
  - unfold peer_gone. destruct (find_peer _ _) as [i|]; [by apply drop_moves|apply mv_same].
  - unfold receive. destruct (find_peer peer (rp_slots r)) as [i|] eqn:Hf; [|apply mv_same].
    destruct (find_peer_slot _ _ _ Hf) as [Hi Hp]. destruct out as [| |req]; [by apply drop_moves..|].
    apply message_moves; [done|done|apply Hok].
  - apply mv_same.
  - unfold setClientRejectErrorThreshold. destruct (_ || _); apply mv_same.
Qed.

(** Only the tick adds to the queue of disconnects, only the server pass takes
    from it. *)
Lemma disconnect_queue i r : table_ok r -> rp_pending (disconnectClientLocked i r).1 = rp_pending r.
Proof. intros T. by destruct (em_rest _ _ _ _ (disconnect_empties i r (tb_size r T))) as (_ & ? & _). Qed.

Lemma accept_queue i t k now r : rp_pending (accept_registration i t k now r) = rp_pending r.
Proof. unfold accept_registration. by destruct (t =? CLIENT_SAFETY_MONITOR). Qed.

Lemma heartbeat_queue i t now r : rp_pending (updateClientHeartbeat i t now r) = rp_pending r.
Proof. unfold updateClientHeartbeat. by repeat case_match. Qed.

Lemma message_queue i peer req now nowNs (m : M) r :
  rpc_inv r -> Forall is_byte (rq_payload req) ->
  rp_pending (handle_message trustReportCb requiredSourceCb maxFailures warnThreshold thresholdConfidence i peer req now nowNs m r).1.1 = rp_pending r.
Proof.
  intros I Hb. pose proof (proj1 I) as T. unfold handle_message.
  destruct (_ =? REGISTER_CLIENT); [|destruct (_ =? REPORT_SAFETY_EVENT);
    [|destruct (_ =? TERMINATE_CLIENT); [|destruct (_ =? SEND_HEARTBEAT); [|done]]]]; cbn [fst].
  - rewrite handle_register_fst. cbv zeta. destruct (register_outcome_ok i req now r T Hb) as [st Hst| |]; cbn [fst snd].
    + rewrite (proj2 (Z.eqb_neq st _)) by done. by apply disconnect_queue.
    + by rewrite Z.eqb_refl, accept_queue.
    + rewrite Z.eqb_refl, accept_queue. by apply disconnect_queue.
  - pose proof (handle_report_cases trustReportCb requiredSourceCb maxFailures warnThreshold thresholdConfidence i peer req now nowNs m r) as H.
    cbv zeta in H. destruct H as [[-> _]|[(p & e & ->)|(m' & ->)]]; [by apply disconnect_queue|..].
    + by destruct (noteReportAccepted_slots i p e r) as (x & _ & _ & _ & ?).
    + by destruct (noteReportRejected_slots requiredSourceCb i m' r) as (x & _ & _ & _ & ?).
  - unfold handle_terminate. pose proof (dropClient_fst i nowNs r) as E. destruct (dropClient i nowNs r). cbn [fst] in *.
    subst. by apply disconnect_queue.
  - unfold handle_heartbeat. destruct (_ <? 2); [done|]. destruct (negb _); [done|].
    destruct (_ =? 0); [rewrite disconnectClient_fst; by apply disconnect_queue|].
    destruct (negb _); [rewrite dropClient_fst; by apply disconnect_queue|]. apply heartbeat_queue.
Qed.

Lemma step_queue r (op : Op) :
  rpc_inv r -> op_ok op -> (forall now, op <> Tick now) -> (forall clock, op <> Pending clock) -> rp_pending (step r op).1 = rp_pending r.
Proof.
  intros I Hok Hnt Hnp. pose proof (proj1 I) as T.
  destruct op as [now|clock|peer now|peer nowNs|peer out now nowNs m|mask|th]; cbn [rpc_step fst]; [by edestruct Hnt|by edestruct Hnp|..].
  - unfold peer_connected. destruct (find_peer _ _) as [i|]; [|done]. cbn [fst put_slot set_slots rp_pending].
    by destruct (em_rest _ _ _ _ (clear_empties i r)) as (_ & ? & _).
  - unfold peer_gone. destruct (find_peer _ _) as [i|]; [rewrite dropClient_fst; by apply disconnect_queue|done].
  - unfold receive. destruct (find_peer peer (rp_slots r)) as [i|]; [|done].
    destruct out as [| |req]; [cbn [fst]; rewrite dropClient_fst; by apply disconnect_queue..|].
    apply message_queue; [done|apply Hok].
  - done.
  - unfold setClientRejectErrorThreshold. by destruct (_ || _).
Qed.

Lemma moves_latched op s s' :
  moves op s s' -> (forall now, op <> Tick now) -> latched s' = true -> latched s = true /\ cs_generation s' = cs_generation s.
Proof. intros Hm Hnt Hl. destruct Hm; try done. by edestruct Hnt. Qed.

Lemma step_faults_pending r (op : Op) :
  rpc_inv r -> op_ok op -> fresh_op r op -> faults_pending r -> faults_pending (step r op).1.
Proof.
  intros I Hok Hfresh Hfp. destruct op as [now|clock|peer now|peer nowNs|peer out now nowNs m|mask|th] eqn:Eop.
  1:{ cbn [rpc_step fst]. destruct (Z.eqb_spec maxFailures 0) as [E|E]; [unfold heartbeatMonitorTick; by rewrite E|].
      by apply tick_effect. }
  1:{ intros i Hl. cbn [rpc_step] in Hl. destruct (pending_effect clock r I) as [_ H]. by rewrite (H Hfp i) in Hl. }
  all: intros i Hl; destruct (moves_latched op _ _ (step_moves r op i I ltac:(by subst op)) ltac:(subst op; by intros) ltac:(by subst op)) as [Hl' Hg];
    subst op; rewrite Hg, step_queue by done; by apply Hfp.
Qed.

Definition counts_below (b : Z) (r : Rpc) : Prop := forall i c, hb_count (cs_hb (slot_at i r)) = Some c -> 0 <= c <= b.

Lemma tick_slot_keeps now s :
  let s' := tick_slot maxFailures now s in
  hb_count (cs_hb s') = hb_count (cs_hb s) /\ hb_last (cs_hb s') = hb_last (cs_hb s)
  /\ cs_type s' = cs_type s /\ cs_instance s' = cs_instance s /\ cs_peer s' = cs_peer s.
Proof. unfold tick_slot. by repeat case_match. Qed.

Lemma step_counts b r (op : Op) : rpc_inv r -> op_ok op -> 0 <= b -> counts_below b r -> counts_below (b + 1) (step r op).1.
Proof.
  intros I Hok Hb0 Hb i c. destruct (step_moves r op i I Hok) as [| | | |now Hl|e|now E]; cbn; try done.
  - intros Hc. apply Hb in Hc. lia.
  - intros [= <-]. specialize (Hb i). destruct (hb_count _) as [c0|]; cbn [default from_option id]; [specialize (Hb c0 eq_refl)|assert (u32 (0 + 1) = 1) as -> by done; lia].
    pose proof (Z.mod_le (c0 + 1) (2 ^ 32) ltac:(lia) ltac:(lia)). pose proof (u32_range (c0 + 1)) as [? _]. unfold u32 in *. lia.
  - intros Hc. apply Hb in Hc. lia.
  - destruct (tick_slot_keeps now (slot_at i r)) as [-> _]. intros Hc. apply Hb in Hc. lia.
Qed.

(** ** Runs *)

Lemma run_cons r (op : Op) ops : run r (op :: ops) = ((run (step r op).1 ops).1, (step r op).2 ++ (run (step r op).1 ops).2).
Proof. cbn [rpc_run]. destruct (step r op) as [r1 a]. cbn [fst snd]. by destruct (run r1 ops). Qed.

Lemma run_app r (a b : list Op) : run r (a ++ b) = ((run (run r a).1 b).1, (run r a).2 ++ (run (run r a).1 b).2).
Proof.
  revert r. induction a as [|op a IH]; intros r; [cbn; by destruct (run r b)|]. cbn [app].
  rewrite !run_cons, IH. cbn [fst snd]. by rewrite app_assoc.
Qed.

Lemma scheduled_app r (a b : list Op) : scheduled r (a ++ b) <-> scheduled r a /\ scheduled (run r a).1 b.
Proof.
  revert r. induction a as [|op a IH]; intros r; cbn [app scheduled]; [cbn; tauto|]. rewrite IH, run_cons. cbn [fst]. tauto.
Qed.

Record good (b : Z) (r : Rpc) : Prop := {
  gd_inv : rpc_inv r;
  gd_faults : faults_pending r;
  gd_counts : counts_below b r;
  gd_bound : 0 <= b;
}.

Lemma step_good b r (op : Op) : good b r -> op_ok op -> fresh_op r op -> good (b + 1) (step r op).1.
Proof.
  intros [I F C B] Hok Hf. split; [by apply step_inv|by apply step_faults_pending|by apply step_counts|lia].
Qed.

Lemma run_good b r (ops : list Op) :
  good b r -> Forall op_ok ops -> scheduled r ops -> good (b + Z.of_nat (length ops)) (run r ops).1.
Proof.
  intros G Hok. revert b r G. induction Hok as [|op ops Hop _ IH]; intros b r G Hs; [by rewrite Z.add_0_r|].
  destruct Hs as [Hf Hs]. rewrite run_cons. cbn [fst].
  replace (b + Z.of_nat (length (op :: ops))) with (b + 1 + Z.of_nat (length ops)) by (cbn [length]; lia).
  apply IH; [by apply step_good|done].
Qed.

Lemma new_good n start : (n <= MAX_POSSIBLE_CLIENTS)%nat -> good 0 (new_rpc n start).
Proof.
  intros Hn. assert (forall i, slot_at i (new_rpc n start) = free_slot) as Hs.
  { intros i. unfold slot_at, new_rpc. cbn [rp_slots]. destruct (decide (i < n)%nat).
    - by rewrite lookup_replicate_2 by done.
    - by rewrite lookup_ge_None_2 by (rewrite length_replicate; lia). }
  split; [by apply new_inv|..|done]; intros i; by rewrite Hs.
Qed.

(** The client of slot [i] has heartbeated since it registered. *)
Definition heartbeated (t k : Z) (i : nat) (r : Rpc) : Prop :=
  client_at t k i r /\ exists c, hb_count (cs_hb (slot_at i r)) = Some c /\ 0 < c.

Lemma kept_identity op s s' :
  kept op s s' -> cs_type s' = cs_type s /\ cs_instance s' = cs_instance s /\ cs_peer s' = cs_peer s.
Proof.
  destruct op as [now| | | |peer out now nowNs m| |]; cbn [kept]; try by intros ->.
  - intros ->. destruct (_ =? 0); [done|]. destruct (tick_slot_keeps now s) as (_ & _ & ? & ? & ?). done.
  - intros [->|[_ [[e ->]|[_ ->]]]]; done.
Qed.

Lemma kept_client t k i r r' op : kept op (slot_at i r) (slot_at i r') -> client_at t k i r -> client_at t k i r'.
Proof. intros Hk [H1 H2]. destruct (kept_identity _ _ _ Hk) as (E1 & E2 & _). unfold client_at, clientInstance in *. by rewrite E1, E2. Qed.

Lemma step_heartbeated t k i b r (op : Op) :
  good b r -> op_ok op -> fresh_op r op -> presenceBitForClient t k <> 0 -> b + 1 < 2 ^ 32 -> heartbeated t k i r ->
  loss_in t k (step r op).2 \/ heartbeated t k i (step r op).1.
Proof.
  intros G Hok Hf Hb Hlt [Hc (c & Ec & Hc0)].
  destruct (step_client i t k r op (gd_inv _ _ G) Hok Hf Hc Hb) as [|Hk]; [by left|right].
  split; [by eapply kept_client|]. pose proof (gd_counts _ _ G i c Ec) as Hcb.
  destruct op as [now| | | |peer out now nowNs m| |]; cbn [kept] in Hk.
  5:{ destruct Hk as [->|[_ [[e ->]|[_ ->]]]]; [by exists c|by exists c|]. cbn [beaten set_hb cs_hb hb_count].
      eexists. split; [done|]. rewrite Ec. cbn [default from_option id]. rewrite u32_small; [lia|unfold is_u32; lia]. }
  1:{ exists c. rewrite Hk. destruct (_ =? 0); [done|]. destruct (tick_slot_keeps now (slot_at i r)) as [-> _]. done. }
  all: rewrite Hk; by exists c.
Qed.

Lemma run_heartbeated t k i b r (ops : list Op) :
  good b r -> Forall op_ok ops -> scheduled r ops -> presenceBitForClient t k <> 0 -> b + Z.of_nat (length ops) < 2 ^ 32 ->
  heartbeated t k i r -> loss_in t k (run r ops).2 \/ heartbeated t k i (run r ops).1.
Proof.
  intros G Hok. revert b r G. induction Hok as [|op ops Hop _ IH]; intros b r G Hs Hb Hlt Hh; [by right|].
  destruct Hs as [Hf Hs]. cbn [length] in Hlt. rewrite run_cons. cbn [fst snd].
  destruct (step_heartbeated t k i b r op G Hop Hf Hb ltac:(lia) Hh) as [|Hh1]; [left; by apply loss_app_l|].
  destruct (IH (b + 1) _ (step_good b r op G Hop Hf) Hs Hb ltac:(lia) Hh1); [left; by apply loss_app_r|by right].
Qed.

(** A faulted client is reported lost by the next pass. *)
Lemma faulted_reported t k i b r clock :
  good b r -> client_at t k i r -> latched (slot_at i r) = true -> presenceBitForClient t k <> 0 ->
  loss_in t k (step r (Pending clock)).2.
Proof.
  intros G Hc Hl Hb. cbn [rpc_step]. destruct (pending_effect clock r (gd_inv _ _ G)) as [H1 H2].
  destruct (H1 i) as [E|[_ Hloss]]; [|by apply Hloss]. specialize (H2 (gd_faults _ _ G) i). congruence.
Qed.


(** ** A silent source *)

Definition stale_tick (t0 : Z) (op : Op) : bool :=
  match op with Tick now => HB_TIMEOUT_MS <? millis (now - t0) | _ => false end.

(** The ticks that find the heartbeat of [t0] overdue. *)
Definition stale_ticks (t0 : Z) (ops : list Op) : Z := Z.of_nat (length (filter (fun op => stale_tick t0 op = true) ops)).

(** Nothing is received from [peer]. *)
Definition silent (peer : Z) (op : Op) : Prop := match op with Received p _ _ _ _ => p <> peer | _ => True end.

(** [m] overdue ticks were counted, or the fault is latched. *)
Definition overdue (t k t0 peer : Z) (m : Z) (i : nat) (r : Rpc) : Prop :=
  let s := slot_at i r in
  client_at t k i r /\ hb_last (cs_hb s) = Some t0 /\ cs_peer s = peer
  /\ (latched s = true \/ (m <= miss_of s /\ (m = 0 \/ miss_of s < maxFailures))).

Lemma tick_overdue t0 now s m :
  0 < maxFailures <= UINT32_MAX -> is_Some (cs_type s) -> hb_last (cs_hb s) = Some t0 -> 0 <= m ->
  latched s = true \/ (m <= miss_of s /\ (m = 0 \/ miss_of s < maxFailures)) ->
  let s' := tick_slot maxFailures now s in
  let m' := m + (if HB_TIMEOUT_MS <? millis (now - t0) then 1 else 0) in
  latched s' = true \/ (m' <= miss_of s' /\ (m' = 0 \/ miss_of s' < maxFailures)).
Proof.
  intros HF [t Et] Hl Hm H. cbv zeta. unfold tick_slot. rewrite Hl, Et. destruct (latched s) eqn:El; [by left|].
  destruct H as [|H]; [done|]. destruct (Z.leb_spec (millis (now - t0)) HB_TIMEOUT_MS) as [Hle|Hgt].
  - rewrite (proj2 (Z.ltb_ge _ _)) by done. right. rewrite Z.add_0_r. done.
  - rewrite (proj2 (Z.ltb_lt _ _)) by done. destruct (Z.leb_spec maxFailures (next_miss s)) as [|Hn]; [by left|right].
    change (miss_of (miss_slot (next_miss s) s)) with (next_miss s).
    unfold next_miss, miss_of in *. destruct (Z.ltb_spec (default 0 (hb_miss (cs_hb s))) UINT32_MAX); lia.
Qed.

Lemma step_overdue t k t0 peer m i b r (op : Op) :
  0 < maxFailures <= UINT32_MAX -> good b r -> op_ok op -> fresh_op r op -> presenceBitForClient t k <> 0 -> silent peer op -> 0 <= m ->
  overdue t k t0 peer m i r ->
  loss_in t k (step r op).2 \/ overdue t k t0 peer (m + (if stale_tick t0 op then 1 else 0)) i (step r op).1.
Proof.
  intros HF G Hok Hf Hb Hsil Hm (Hc & Hl & Hp & Ho).
  destruct (step_client i t k r op (gd_inv _ _ G) Hok Hf Hc Hb) as [|Hk]; [by left|right].
  pose proof (kept_identity _ _ _ Hk) as (_ & _ & Ep). split; [by eapply kept_client|].
  assert (slot_at i (step r op).1 = slot_at i r -> stale_tick t0 op = false ->
    hb_last (cs_hb (slot_at i (step r op).1)) = Some t0 /\ cs_peer (slot_at i (step r op).1) = peer /\
    (latched (slot_at i (step r op).1) = true \/ m + (if stale_tick t0 op then 1 else 0) <= miss_of (slot_at i (step r op).1)
      /\ (m + (if stale_tick t0 op then 1 else 0) = 0 \/ miss_of (slot_at i (step r op).1) < maxFailures))) as Hsame.
  { intros -> ->. by rewrite Z.add_0_r. }
  destruct op as [now| | | |p out now nowNs x| |]; cbn [kept] in Hk; try by apply Hsame.
  - rewrite (proj2 (Z.eqb_neq maxFailures 0)) in Hk by lia. rewrite Hk in Ep |- *.
    destruct (tick_slot_keeps now (slot_at i r)) as (_ & -> & _). split; [done|]. split; [congruence|].
    cbn [stale_tick]. apply tick_overdue; try done. destruct Hc as [-> _]. by eexists.
  - destruct Hk as [E|[E _]]; [by apply Hsame|]. cbn [silent] in Hsil. congruence.
Qed.

Lemma run_overdue t k t0 peer m i b r (ops : list Op) :
  0 < maxFailures <= UINT32_MAX -> good b r -> Forall op_ok ops -> scheduled r ops -> presenceBitForClient t k <> 0 ->
  Forall (silent peer) ops -> 0 <= m -> overdue t k t0 peer m i r ->
  loss_in t k (run r ops).2 \/ overdue t k t0 peer (m + stale_ticks t0 ops) i (run r ops).1.
Proof.
  intros HF G Hok. revert m b r G. induction Hok as [|op ops Hop _ IH]; intros m b r G Hs Hb Hsil Hm Ho.
  { right. by rewrite Z.add_0_r. }
  destruct Hs as [Hf Hs]. inversion_clear Hsil as [|? ? Hsil1 Hsil2]. rewrite run_cons. cbn [fst snd].
  destruct (step_overdue t k t0 peer m i b r op) as [|Ho1]; try done; [left; by apply loss_app_l|].
  edestruct IH as [|Ho2]; [by apply step_good|done|done|done| |exact Ho1|left; by apply loss_app_r|].
  - destruct (stale_tick t0 op); lia.
  - right. replace (m + stale_ticks t0 (op :: ops)) with (m + (if stale_tick t0 op then 1 else 0) + stale_ticks t0 ops); [done|].
    unfold stale_ticks. rewrite filter_cons. case_decide as E.
    + rewrite E. cbn [length]. lia.
    + destruct (stale_tick t0 op); [done|lia].
Qed.

(** A tracked client that stops sending is reported lost: once as many ticks of
    the heartbeat monitor as the configured limit have found its last heartbeat
    overdue, the SW_FAIL naming it has been queued by the end of the next server
    pass, whatever the other clients do in between. *)
Theorem silent_source_lost (n : nat) (start : Z) (ops1 ops2 : list Op) (clock : nat -> Z) (t k t0 : Z) (i : nat) :
  (n <= MAX_POSSIBLE_CLIENTS)%nat -> 0 < maxFailures <= UINT32_MAX ->
  Forall op_ok (ops1 ++ ops2) -> scheduled (new_rpc n start) (ops1 ++ ops2) ->
  valid_identity t k -> presenceBitForClient t k <> 0 ->
  let r1 := (run (new_rpc n start) ops1).1 in
  client_at t k i r1 -> hb_last (cs_hb (slot_at i r1)) = Some t0 ->
  Forall (silent (cs_peer (slot_at i r1))) ops2 -> maxFailures <= stale_ticks t0 ops2 ->
  loss_in t k (run r1 (ops2 ++ [Pending clock])).2.
Proof.
  intros Hn HF Hok Hs Hid Hb r1 Hc Hl Hsil Hticks. apply Forall_app in Hok as [Hok1 Hok2]. apply scheduled_app in Hs as [Hs1 Hs2].
  fold r1 in Hs2. pose proof (run_good 0 _ ops1 (new_good n start Hn) Hok1 Hs1) as G1. fold r1 in G1.
  pose proof (run_good _ r1 ops2 G1 Hok2 Hs2) as G2. rewrite run_app. cbn [snd].
  destruct (run_overdue t k t0 (cs_peer (slot_at i r1)) 0 i _ r1 ops2 HF G1 Hok2 Hs2 Hb Hsil ltac:(lia)) as [|(Hc2 & _ & _ & Ho)].
  - split_and!; try done. right. split; [|by left]. apply (so_miss0 _ (tb_slots _ (proj1 (gd_inv _ _ G1)) i)).
  - by apply loss_app_l.
  - apply loss_app_r. rewrite run_cons. cbn [snd]. apply loss_app_l. eapply (faulted_reported t k i); [exact G2|done| |done].
    destruct Ho as [|Ho]; [done|lia].
Qed.
End server.

(** ** Runs of one monitor *)

Definition client_msg (msg : Z) (payload : list Z) : NvPSSDRPCMsgReq :=
  {| rq_msg := msg; rq_reqSeqNo := 1; rq_size := Z.of_nat (length payload); rq_payload := payload |}.

Definition from_client (peer : Z) (req : NvPSSDRPCMsgReq) (now : Z) : @RpcOp unit := Received peer (RecvRequest req) now now tt.

Definition connect (peer now : Z) : @RpcOp unit := PeerConnected peer now.
Definition register_as (peer type instance now : Z) : @RpcOp unit := from_client peer (client_msg REGISTER_CLIENT [type; instance]) now.
Definition heartbeat_as (peer type now : Z) : @RpcOp unit := from_client peer (client_msg SEND_HEARTBEAT [HB_MSG; type]) now.
Definition seconds (s : Z) : Z := s * 1000000000.

(** A server with four slots, a limit of two misses and no callbacks. *)
Definition small_run : Rpc -> list (@RpcOp unit) -> Rpc * list RpcAction := rpc_run None None 2 1 f32_one.

Definition monitor_up : list (@RpcOp unit) :=
  [connect 7 0; register_as 7 CLIENT_SAFETY_MONITOR 0 0; heartbeat_as 7 CLIENT_SAFETY_MONITOR (seconds 1)].

Lemma monitor_identity : valid_identity CLIENT_SAFETY_MONITOR 0.
Proof. by repeat split. Qed.

Ltac run_ok := repeat match goal with |- Forall _ _ => constructor end; cbn; repeat split; try done;
  repeat constructor; done.
Ltac run_scheduled := vm_compute; repeat split; intros; simplify_eq; done.

Lemma presence_mask_exact_witness :
  let r := (small_run (new_rpc 4 0) monitor_up).1 in
  source_present CLIENT_SAFETY_MONITOR 0 r /\ submask (ms_presence (rp_masks r)) (ms_expected (rp_masks r)).
Proof.
  edestruct (presence_mask_exact None None 2 1 f32_one 4 0 monitor_up CLIENT_SAFETY_MONITOR 0) as (H1 & _ & H2 & _);
    [by vm_compute; lia|run_ok|apply monitor_identity|done|].
  split; [|exact H2]. apply H1. exists 0%nat. vm_compute. repeat split. exists 1. done.
Defined.

Lemma safety_monitor_mode_witness :
  getSafetyMonitorOperationalMode 4 0 (small_run (new_rpc 4 0) (monitor_up ++ [Tick (seconds 10)])).1 = DEGRADED.
Proof.
  pose proof (safety_monitor_mode None None 2 1 f32_one 4 0 (monitor_up ++ [Tick (seconds 10)]) 0 4 0) as H.
  cbv zeta in H. unfold small_run. rewrite H; [by vm_compute|by vm_compute; lia|run_ok|by vm_compute].
Defined.


(** Two overdue ticks with a server pass between them, while another client
    connects and registers. *)
Definition monitor_hangs : list (@RpcOp unit) :=
  [Tick (seconds 5); Tick (seconds 10); Pending (fun _ => seconds 10); connect 8 (seconds 11);
   register_as 8 CLIENT_MDX 3 (seconds 11); Tick (seconds 15)].

Lemma silent_source_lost_witness :
  let r1 := (small_run (new_rpc 4 0) monitor_up).1 in
  loss_in CLIENT_SAFETY_MONITOR 0 (small_run r1 (monitor_hangs ++ [Pending (fun _ => seconds 16)])).2.
Proof.
  apply (silent_source_lost None None 2 1 f32_one 4 0 monitor_up monitor_hangs (fun _ => seconds 16) CLIENT_SAFETY_MONITOR 0 (seconds 1) 0);
    [by vm_compute; lia|by vm_compute|run_ok|run_scheduled|apply monitor_identity|done|by vm_compute|by vm_compute| |by vm_compute].
  repeat constructor; by vm_compute.
Defined.

(** ** What the schedules exclude *)

(** The events queued under a list of actions. *)
Definition queued (actions : list RpcAction) : list (Z * SafetyEvent) :=
  omap (fun a => match a with QueueEvent c ev => Some (c, ev) | _ => None end) actions.

(** A required source can be reported lost as never registered while it is
    registered and present: the tick hands the loss to the server thread without
    looking again, so a safety monitor that registers and heartbeats before the next
    server pass is in the presence mask when its loss is queued. *)
Theorem late_source_reported_lost :
  let ops := [SetRequired PSS_PRESENCE_SAFETY_MONITOR; Tick (seconds 12); connect 7 (seconds 12);
              register_as 7 CLIENT_SAFETY_MONITOR 0 (seconds 12); heartbeat_as 7 CLIENT_SAFETY_MONITOR (seconds 12)] in
  let r := (small_run (new_rpc 4 0) ops).1 in
  let last := processPendingDisconnects (fun _ => seconds 13) r in
  source_present CLIENT_SAFETY_MONITOR 0 r /\ loss_in CLIENT_SAFETY_MONITOR 0 last.2
  /\ source_present CLIENT_SAFETY_MONITOR 0 last.1.
Proof.
  cbv zeta. split_and!; [by vm_compute| |by vm_compute]. vm_compute. apply Exists_cons. left. by vm_compute.
Qed.

(** A client that registers again over its connection under another identity leaves
    the presence mask without any event, and the mode of the monitor it was stays. *)
Lemma reregistration_unreported :
  let r := (small_run (new_rpc 4 0) (monitor_up ++ [Tick (seconds 10)])).1 in
  let again := small_run r [register_as 7 CLIENT_MDX 0 (seconds 11); Pending (fun _ => seconds 11)] in
  source_present CLIENT_SAFETY_MONITOR 0 r /\ ~ source_present CLIENT_SAFETY_MONITOR 0 again.1
  /\ queued again.2 = []
  /\ getSafetyMonitorOperationalMode 2 0 again.1 = DEGRADED
  /\ Forall (fun s => cs_type s <> Some CLIENT_SAFETY_MONITOR) (rp_slots again.1).
Proof. cbv zeta. split_and!; [by vm_compute|vm_compute; tauto|by vm_compute|by vm_compute|]. vm_compute. repeat constructor; done. Qed.

(** A gateway whose heartbeat fault is pending is evicted by its successor, and no
    event tells of the fault. *)
Lemma evicted_gateway_unreported :
  let r := (small_run (new_rpc 4 0) [connect 7 0; register_as 7 CLIENT_PSD_GATEWAY 0 0; Tick (seconds 10); Tick (seconds 15)]).1 in
  let next := small_run r [connect 8 (seconds 15); register_as 8 CLIENT_PSD_GATEWAY 0 (seconds 15); Pending (fun _ => seconds 16)] in
  latched (slot_at 0 r) = true /\ queued next.2 = []
  /\ queued (small_run r [Pending (fun _ => seconds 16)]).2 =
     [(0, rpc_sw_fail CAUSE_HEARTBEAT_FAULT 0 0 (seconds 16))].
Proof. cbv zeta. by vm_compute. Qed.

(** The queue remembers slots, not generations: a client that takes over a slot
    whose disconnect is still queued, and is faulted before the next server pass, is
    never disconnected. *)
Lemma stalled_server_keeps_faulted_client :
  let r := (small_run (new_rpc 4 0)
              [connect 7 0; register_as 7 CLIENT_MDX 1 0; heartbeat_as 7 CLIENT_MDX 0; Tick (seconds 10); Tick (seconds 15);
               PeerGone 7 (seconds 15); connect 8 (seconds 15); register_as 8 CLIENT_MDX 2 (seconds 15);
               Tick (seconds 25); Tick (seconds 30)]).1 in
  let later := (small_run r [Pending (fun _ => seconds 31); Tick (seconds 35); Pending (fun _ => seconds 36)]).1 in
  latched (slot_at 0 r) = true /\ latched (slot_at 0 later) = true /\ client_at CLIENT_MDX 2 0 later /\ rp_pending later = [].
Proof. cbv zeta. by vm_compute. Qed.
