(* ===== verification/RpcInput.v ===== *)
(** * Reports at the client interface

    Which events reach the input queue of the daemon, that a client's event gets
    there unchanged, and what is published about clients whose reports are refused
    again and again. *)

From S2P Require Import Prelude Protocol Crc EventCodec Validate FusionEngine EventManager Rpc RpcSafety RpcLoss.

(** ** The origin of a queued event *)

(** One of the SW_FAIL events the server makes itself. *)
Definition server_fault (ev : SafetyEvent) : Prop :=
  exists cause clientID objectID nowNs, ev = rpc_sw_fail cause clientID objectID nowNs
  /\ cause ∈ [CAUSE_HEARTBEAT_FAULT; CAUSE_CLIENT_INPUT_UNUSABLE; CAUSE_SAFETY_MONITOR_LOST;
              CAUSE_PERCEPTION_MONITOR_LOST; CAUSE_MDX_CLIENT_LOST].

Definition server_made (actions : list RpcAction) : Prop :=
  Forall (fun a => match a with QueueEvent _ ev => server_fault ev | _ => True end) actions.

Lemma server_made_app a b : server_made a -> server_made b -> server_made (a ++ b).
Proof. intros. by apply Forall_app. Qed.

Lemma inject_server slot t k nowNs : server_made (injectMonitorLostSwFail slot t k nowNs).
Proof.
  unfold injectMonitorLostSwFail. destruct (Z.eqb_spec (monitorLostCause t k) CAUSE_NONE) as [E|E]; [constructor|].
  constructor; [|constructor]. eexists _, _, _, _. split; [done|]. revert E. unfold monitorLostCause.
  repeat case_match; set_solver.
Qed.

Lemma drop_peer_server d : server_made (drop_peer d).
Proof. destruct d; repeat constructor. Qed.

#[export] Hint Resolve inject_server drop_peer_server server_made_app : safety_core.

Lemma disconnectClient_server i r : server_made (disconnectClient i r).2.
Proof. unfold disconnectClient. destruct (disconnectClientLocked i r). apply drop_peer_server. Qed.

Lemma dropClient_server i nowNs r : server_made (dropClient i nowNs r).2.
Proof.
  unfold dropClient. pose proof (disconnectClient_server i r). destruct (disconnectClient i r). cbn [snd] in *. auto with safety_core.
Qed.

Lemma disconnect_pending_server acc e : server_made acc.2 -> server_made (disconnect_pending acc e).2.
Proof.
  destruct acc as [r a], e as [[i g] nowNs]. cbn [snd]. intros Ha. unfold disconnect_pending.
  destruct (_ <=? _)%nat; [done|]. destruct (negb _); [done|]. destruct (_ =? _); [done|].
  pose proof (disconnectClient_server i r). destruct (disconnectClient i r). cbn [snd] in *.
  apply server_made_app; [done|]. apply server_made_app; [|done].
  destruct (negb _); [apply inject_server|]. destruct (negb _); [|constructor]. constructor; [|constructor].
  eexists _, _, _, _. split; [done|]. set_solver.
Qed.

Lemma never_registered_server pending clock : server_made (never_registered_events pending clock).
Proof.
  unfold never_registered_events, server_made. apply Forall_concat, Forall_lookup. intros m x.
  rewrite list_lookup_imap. destruct (_ !! m) as [bit|]; [|done]. cbn. intros [= <-].
  destruct (clientForPresenceBit bit) as [[]|]; [apply inject_server|constructor].
Qed.

Section server.
Context {M : Type}.
Variable trustReportCb : option (Z -> Z -> SafetyEvent -> M -> M * bool).
Variable requiredSourceCb : option (M -> Z -> bool).
Variables maxFailures warnThreshold : Z.
Variable thresholdConfidence : f32.

Abbreviation step := (rpc_step trustReportCb requiredSourceCb maxFailures warnThreshold thresholdConfidence).
Abbreviation run := (rpc_run trustReportCb requiredSourceCb maxFailures warnThreshold thresholdConfidence).
Abbreviation Op := (@RpcOp M).

Definition is_trust_report (ev : SafetyEvent) : bool := isSensorTrustReport (se_type ev) || isAIPipelineTrustReport (se_type ev).

(** [ev] was reported over the connection of slot [i] at time [now], and the
    client was entitled to report it. *)
Record entitled (i : nat) (now : Z) (ev : SafetyEvent) (r : Rpc) : Prop := {
  en_registered : is_Some (cs_type (slot_at i r));
  en_heartbeat : 0 < maxFailures -> latched (slot_at i r) = false /\ miss_of (slot_at i r) < maxFailures
                                    /\ miss_of (slot_at i r) <= warnThreshold;
  en_valid : validateSafetyEvent (Some ev) = PSS_VALID;
  en_sensor : unresolved_sensor ev = false;
  en_trust : is_trust_report ev = true ->
             reporter_authorized (getClientType i r) ev = true /\ hasRecentHeartbeat i now r = true;
  en_client : is_trust_report ev = false ->
              fm_clientID (se_fusionMetadata ev) = Z.of_nat i /\ f32_leb thresholdConfidence (se_confidenceLevel ev) = true;
}.

Lemma tier_passes s :
  slot_ok s -> tier_refuses maxFailures warnThreshold s = false -> 0 < maxFailures ->
  latched s = false /\ miss_of s < maxFailures /\ miss_of s <= warnThreshold.
Proof.
  intros Hs H HF. unfold tier_refuses in H. rewrite (so_miss s Hs), (so_fault s Hs), (proj2 (Z.ltb_lt _ _) HF) in H.
  cbn [andb] in H. destruct (latched s); [done|]. cbn [negb orb Z.eqb] in H.
  destruct (Z.leb_spec maxFailures (miss_of s)); [done|]. cbn [orb] in H.
  rewrite (proj2 (Z.ltb_lt (miss_of s) maxFailures)), andb_true_r in H by done. apply Z.ltb_ge in H. done.
Qed.

Lemma judge_accepts i req now (m : M) r :
  slot_ok (slot_at i r) -> is_Some (cs_type (slot_at i r)) ->
  (judge_report trustReportCb maxFailures warnThreshold thresholdConfidence i req now m r).1.2 = REPORT_ACCEPTED ->
  let ev := dec_SafetyEvent (rq_payload req) in
  (judge_report trustReportCb maxFailures warnThreshold thresholdConfidence i req now m r).2 = ev /\ entitled i now ev r.
Proof.
  intros Hs Ht. cbv zeta. unfold judge_report. set (ev := dec_SafetyEvent (rq_payload req)).
  destruct (tier_refuses _ _ _) eqn:Htier; [done|]. destruct (negb (rq_size req =? _)); [done|].
  destruct (Z.eqb_spec (validateSafetyEvent (Some ev)) PSS_VALID) as [Hv|]; cbn [negb]; [|done].
  destruct (unresolved_sensor ev) eqn:Hu; [done|]. fold (is_trust_report ev).
  destruct (is_trust_report ev) eqn:Hr; cbn [andb].
  - destruct (reporter_authorized _ ev) eqn:Ha; cbn [negb orb]; [|done].
    destruct (hasRecentHeartbeat i now r) eqn:Hh; cbn [negb]; [|done].
    destruct trustReportCb as [cb|]; [|done]. destruct (cb _ _ ev m) as [m1 []]; [|done]. intros _. split; [done|].
    split; [done|by apply tier_passes|done|done|done|congruence].
  - destruct (_ || _) eqn:Hc; [done|]. destruct (f32_leb _ _) eqn:Hf; [|done]. intros _. split; [done|].
    split; [done|by apply tier_passes|done|done|congruence|]. intros _. apply orb_false_iff in Hc as [Hc1 Hc2]. bool_prop.
    rewrite u8_small in Hc2 by (unfold is_u8; lia). done.
Qed.

(** C24. Everything the client server ever puts on the daemon's input queue is
    either one of its own five kinds of SW_FAIL, or an event received over the
    connection of a registered client whose heartbeat tier allows it, that passed the
    validator, names a sensor where it must, and is covered by the client's
    authorisation: a trust report only from the monitor of that kind with a recent
    heartbeat, any other event only under the client's own id and above the
    confidence threshold. *)
Theorem queued_events_authentic (n : nat) (start : Z) (ops : list Op) (op : Op) (client : Z) (ev : SafetyEvent) :
  (n <= MAX_POSSIBLE_CLIENTS)%nat -> Forall op_ok ops ->
  let r := (run (new_rpc n start) ops).1 in
  QueueEvent client ev ∈ (step r op).2 ->
  server_fault ev
  \/ exists i peer req now nowNs m,
       op = Received peer (RecvRequest req) now nowNs m /\ find_peer peer (rp_slots r) = Some i
       /\ client = Z.of_nat i /\ ev = dec_SafetyEvent (rq_payload req) /\ entitled i now ev r.
Proof.
  intros Hn Hok r. destruct (run_inv trustReportCb requiredSourceCb maxFailures warnThreshold thresholdConfidence _ ops (new_inv n start Hn) Hok) as [T _].
  fold r in T. clearbody r.
  assert (forall a, server_made a -> QueueEvent client ev ∈ a -> server_fault ev) as Hmade.
  { intros a Ha Hin. by apply (proj1 (Forall_forall _ _) Ha) in Hin. }
  destruct op as [now|clock|peer now|peer nowNs|peer out now nowNs m|mask|th]; cbn [rpc_step snd]; try (intros H; by apply elem_of_nil in H).
  - intros H. left. eapply Hmade; [|exact H]. unfold processPendingDisconnects.
    apply (foldl_inv (fun acc => server_made acc.2)); [apply never_registered_server|intros; by apply disconnect_pending_server].
  - unfold peer_connected. destruct (find_peer _ _); cbn [snd]; set_solver.
  - unfold peer_gone. destruct (find_peer _ _); [|intros H; by apply elem_of_nil in H]. intros H. left. eapply Hmade; [apply dropClient_server|exact H].
  - unfold receive. destruct (find_peer peer (rp_slots r)) as [i|] eqn:Hf; [|intros H; by apply elem_of_nil in H].
    destruct out as [| |req]; cbn [fst]; [intros H; left; eapply Hmade; [apply dropClient_server|exact H]..|].
    unfold handle_message.
    destruct (_ =? REGISTER_CLIENT); [|destruct (_ =? REPORT_SAFETY_EVENT);
      [|destruct (_ =? TERMINATE_CLIENT); [|destruct (_ =? SEND_HEARTBEAT); [|intros H; by apply elem_of_nil in H]]]]; cbn [fst].
    + intros H. left. eapply Hmade; [|exact H]. unfold handle_register.
      destruct (validateAndAcceptRegistration i req now r) as [[r1 st] evd].
      assert (server_made (match evd with None => [] | Some e => drop_peer (ev_peer e) ++ injectMonitorLostSwFail (Some (ev_slot e)) (ev_clientType e) (ev_instance e) nowNs end))
        by (destruct evd; [auto with safety_core|constructor]).
      pose proof (dropClient_server i nowNs r1). destruct (_ =? _); [|destruct (dropClient i nowNs r1)]; cbn [snd] in *;
        repeat apply server_made_app; try done; repeat constructor.
    + unfold handle_report. destruct (Z.eqb_spec (getClientType i r) 0) as [Hz|Hz].
      * intros H. left. eapply Hmade; [|exact H]. pose proof (disconnectClient_server i r).
        destruct (disconnectClient i r). cbn [fst snd] in *. by constructor.
      * assert (is_Some (cs_type (slot_at i r))) as Ht by (eexists; by apply getClientType_Some).
        pose proof (judge_accepts i req now m r (tb_slots r T i) Ht) as Hj. cbv zeta in Hj.
        destruct (judge_report _ _ _ _ _ _ _ _) as [[m1 st] ev0]. cbn [fst snd] in Hj.
        destruct (Z.eqb_spec st REPORT_ACCEPTED) as [->|Hst]; cbn [fst snd].
        -- destruct (Hj eq_refl) as [-> Hen]. intros H. right. apply elem_of_cons in H as [[= -> ->]|H]; [|set_solver].
           by exists i, peer, req, now, nowNs, m.
        -- destruct (noteReportRejected _ _ _ _) as [r1 esc]. cbn [fst snd]. intros H. left. eapply Hmade; [|exact H].
           apply server_made_app; [|repeat constructor]. destruct esc; [|constructor]. constructor; [|constructor].
           eexists _, _, _, _. split; [done|]. set_solver.
    + intros H. left. eapply Hmade; [|exact H]. unfold handle_terminate. pose proof (dropClient_server i nowNs r).
      destruct (dropClient i nowNs r). cbn [snd] in *. by constructor.
    + intros H. left. eapply Hmade; [|exact H]. unfold handle_heartbeat. repeat case_match;
        [constructor|constructor|apply disconnectClient_server|apply dropClient_server|repeat constructor].
Qed.

(** ** Delivery of a client's event *)

(** The request a client makes of its event. *)
Definition report_msg (seqNo : Z) (padding : list Z) (e : SafetyEvent) : NvPSSDRPCMsgReq :=
  {| rq_msg := REPORT_SAFETY_EVENT; rq_reqSeqNo := seqNo; rq_size := SAFETY_EVENT_SIZE; rq_payload := enc_event_bytes e ++ padding |}.

Lemma judge_delivers i seqNo padding e now (m : M) r t :
  cs_type (slot_at i r) = Some t -> tier_refuses maxFailures warnThreshold (slot_at i r) = false ->
  wf_SafetyEvent e -> validateSafetyEvent (Some e) = PSS_VALID -> unresolved_sensor e = false -> is_trust_report e = false ->
  fm_clientID (se_fusionMetadata e) = Z.of_nat i -> f32_leb thresholdConfidence (se_confidenceLevel e) = true ->
  judge_report trustReportCb maxFailures warnThreshold thresholdConfidence i (report_msg seqNo padding e) now m r = (m, REPORT_ACCEPTED, e).
Proof.
  intros Ht Htier We Hv Hu Hr Hc Hf. unfold judge_report, report_msg. cbn [rq_payload rq_size].
  rewrite dec_enc_event, Htier, Hv, Hu, !Z.eqb_refl by done. cbn [negb]. fold (is_trust_report e). rewrite Hr. cbn [andb].
  pose proof (wfm_client _ (wse_meta e We)) as Hu8. rewrite Hc in Hu8 |- *. rewrite u8_small, Z.eqb_refl by done.
  rewrite (proj2 (Z.ltb_ge _ _)) by (unfold is_u8 in Hu8; lia). cbn [negb orb]. by rewrite Hf.
Qed.

(** C25. A valid event that a registered client reports under its own id, with its
    heartbeats up to date and enough confidence, crosses the byte encoding of the
    request unchanged: exactly that event is queued, the client is told it was
    accepted under the sequence number it sent, its run of rejections ends, and its
    input is published as usable. *)
Theorem stamped_event_delivered (n : nat) (start : Z) (ops : list Op) (peer seqNo now nowNs : Z) (padding : list Z)
    (e : SafetyEvent) (i : nat) (t : Z) (m : M) :
  (n <= MAX_POSSIBLE_CLIENTS)%nat -> Forall op_ok ops ->
  let r := (run (new_rpc n start) ops).1 in
  find_peer peer (rp_slots r) = Some i -> cs_type (slot_at i r) = Some t ->
  tier_refuses maxFailures warnThreshold (slot_at i r) = false ->
  wf_SafetyEvent e -> validateSafetyEvent (Some e) = PSS_VALID -> unresolved_sensor e = false -> is_trust_report e = false ->
  fm_clientID (se_fusionMetadata e) = Z.of_nat i -> f32_leb thresholdConfidence (se_confidenceLevel e) = true -> is_u32 seqNo ->
  let out := step r (Received peer (RecvRequest (report_msg seqNo padding e)) now nowNs m) in
  out.2 = [QueueEvent (Z.of_nat i) e; SendResponse peer {| rs_respSeqNo := seqNo; rs_payload := [REPORT_ACCEPTED] |}]
  /\ rj_streak (cs_rej (slot_at i out.1)) = Some 0 /\ rj_raised (cs_rej (slot_at i out.1)) = Some false
  /\ submask (Z.land (inputIdentityLocked (slot_at i r)) PSS_INPUT_STATE_MASK) (in_confirmedPublished (rp_input out.1)).
Proof.
  intros Hn Hok r Hfind Ht Htier We Hv Hu Hr Hc Hf Hseq.
  destruct (run_inv trustReportCb requiredSourceCb maxFailures warnThreshold thresholdConfidence _ ops (new_inv n start Hn) Hok) as [T _].
  fold r in T. clearbody r. destruct (find_peer_slot _ _ _ Hfind) as [Hi _]. cbv zeta. cbn [rpc_step]. unfold receive. rewrite Hfind.
  unfold handle_message. cbn [report_msg rq_msg Z.eqb REGISTER_CLIENT REPORT_SAFETY_EVENT Pos.eqb]. unfold handle_report.
  destruct (so_identity _ (tb_slots r T i) t Ht) as (Hvt & _).
  assert (getClientType i r = t) as -> by (unfold getClientType; by rewrite Ht).
  rewrite (proj2 (Z.eqb_neq t 0)) by (intros ->; done). fold (report_msg seqNo padding e).
  rewrite (judge_delivers i seqNo padding e now m r t) by done. rewrite Z.eqb_refl. cbn [fst snd]. split_and!.
  - unfold report_response. cbn [report_msg rq_reqSeqNo]. by rewrite u32_small.
  - unfold noteReportAccepted. cbv zeta. change (slot_at i (recomputeInputStateLocked ?x)) with (slot_at i x).
    change (slot_at i (set_confirmed ?c ?x)) with (slot_at i x). by rewrite slot_put_eq.
  - unfold noteReportAccepted. cbv zeta. change (slot_at i (recomputeInputStateLocked ?x)) with (slot_at i x).
    change (slot_at i (set_confirmed ?c ?x)) with (slot_at i x). by rewrite slot_put_eq.
  - unfold noteReportAccepted. cbn [recomputeInputStateLocked set_confirmed set_input rp_input in_confirmed in_confirmedPublished].
    rewrite slot_put_eq by done. change (inputIdentityLocked (set_rej ?x ?s)) with (inputIdentityLocked s).
    unfold submask. rewrite <- Z.land_lor_distr_l. f_equal. apply submask_lor_r.
Qed.
End server.

(** ** Open episodes *)

Definition raised (s : ClientSlot) : bool := default false (rj_raised (cs_rej s)).

(** The published sets are current; an open episode keeps its tracked identity
    unconfirmed; an unregistered slot has none. *)
Record input_ok (r : Rpc) : Prop := {
  io_unusable : in_unusablePublished (rp_input r) = Z.land (or_slots unusable_bit (rp_slots r)) PSS_INPUT_STATE_MASK;
  io_confirmed : in_confirmedPublished (rp_input r) = Z.land (in_confirmed (rp_input r)) PSS_INPUT_STATE_MASK;
  io_range : is_u32 (in_confirmed (rp_input r));
  io_open i : raised (slot_at i r) = true -> Z.land (in_confirmed (rp_input r)) (tracked_bit (slot_at i r)) = 0;
  io_untyped i : cs_type (slot_at i r) = None -> raised (slot_at i r) = false;
}.

Lemma or_slots_ext f r r' :
  maxClients r' = maxClients r -> (forall j, f (slot_at j r') = f (slot_at j r)) -> or_slots f (rp_slots r') = or_slots f (rp_slots r).
Proof.
  intros El Hj. rewrite !or_slots_map. f_equal. apply list_eq. intros j. specialize (Hj j). unfold slot_at, maxClients in *.
  change (map f) with (fmap (M:=list) f). rewrite !list_lookup_fmap.
  destruct (decide (j < length (rp_slots r))%nat) as [H|H].
  - destruct (proj2 (lookup_lt_is_Some (rp_slots r) j) H) as [x Hx].
    destruct (proj2 (lookup_lt_is_Some (rp_slots r') j) ltac:(lia)) as [y Hy]. rewrite Hx, Hy in *. cbn in *. by rewrite Hj.
  - by rewrite !lookup_ge_None_2 by lia.
Qed.

(** The slots move without touching an episode, and the input state stays. *)
Lemma input_keep r r' :
  input_ok r -> rp_input r' = rp_input r -> maxClients r' = maxClients r ->
  (forall j, (raised (slot_at j r') = false /\ unusable_bit (slot_at j r) = 0)
             \/ (raised (slot_at j r') = raised (slot_at j r) /\ cs_type (slot_at j r') = cs_type (slot_at j r)
                 /\ cs_instance (slot_at j r') = cs_instance (slot_at j r))) ->
  input_ok r'.
Proof.
  intros [Hu Hc Hr Ho Ht] Ei El Hj.
  assert (forall j, unusable_bit (slot_at j r') = unusable_bit (slot_at j r)) as Hub.
  { intros j. destruct (Hj j) as [[H1 H2]|(H1 & H2 & H3)].
    - rewrite H2. unfold unusable_bit. fold (raised (slot_at j r')). by rewrite H1.
    - unfold unusable_bit. fold (raised (slot_at j r')) (raised (slot_at j r)). unfold inputIdentityLocked, clientInstance.
      by rewrite H1, H2, H3. }
  split; rewrite ?Ei; try done.
  - rewrite Hu. f_equal. symmetry. by apply or_slots_ext.
  - intros j Hrj. destruct (Hj j) as [[H1 _]|(H1 & H2 & H3)]; [congruence|].
    assert (tracked_bit (slot_at j r') = tracked_bit (slot_at j r)) as -> by (unfold tracked_bit, clientInstance; by rewrite H2, H3).
    apply Ho. congruence.
  - intros j Htj. destruct (Hj j) as [[H1 _]|(H1 & H2 & H3)]; [done|]. rewrite H1. apply Ht. congruence.
Qed.

Lemma input_empties i s r r' :
  input_ok r -> empties i s r r' -> raised s = false -> input_ok r'.
Proof.
  intros [Hu Hc Hr Ho Ht] E Hs.
  assert (forall j, slot_at j r' = s \/ slot_at j r' = slot_at j r) as Hj.
  { intros j. destruct (decide (i < maxClients r)%nat) as [Hi|Hi].
    - rewrite (slot_insert i j _ _ _ (em_slots _ _ _ _ E) Hi). case_bool_decide; auto.
    - right. unfold slot_at. rewrite (em_slots _ _ _ _ E), list_insert_ge; [done|]. unfold maxClients in Hi. lia. }
  split.
  - apply (em_unusable _ _ _ _ E).
  - rewrite (em_published _ _ _ _ E), (em_confirmed _ _ _ _ E). done.
  - by rewrite (em_confirmed _ _ _ _ E).
  - intros j Hrj. rewrite (em_confirmed _ _ _ _ E). destruct (Hj j) as [Ej|Ej]; rewrite Ej in *; [congruence|by apply Ho].
  - intros j Htj. destruct (Hj j) as [Ej|Ej]; rewrite Ej in *; [done|by apply Ht].
Qed.

Lemma clear_slot_input i r : input_ok r -> input_ok (clearClientStateLocked i r).
Proof. intros H. by eapply input_empties; [exact H|apply clear_empties|]. Qed.

Lemma disconnect_input i r : table_ok r -> input_ok r -> input_ok (disconnectClientLocked i r).1.
Proof. intros T H. by eapply input_empties; [exact H|apply disconnect_empties, T|]. Qed.

Lemma accept_input i t k now r :
  input_ok r -> (i < maxClients r)%nat -> cs_type (slot_at i r) = None -> input_ok (accept_registration i t k now r).
Proof.
  intros H Hi Ht. eapply input_keep; [exact H| | |].
  - unfold accept_registration. by destruct (t =? CLIENT_SAFETY_MONITOR).
  - unfold maxClients, accept_registration. destruct (t =? CLIENT_SAFETY_MONITOR); cbn; by rewrite length_insert.
  - intros j. rewrite accept_slot by done. case_bool_decide as E; [subst j; left|by right]. split.
    + unfold raised. cbn. fold (raised (slot_at i r)). by apply H.
    + unfold unusable_bit, inputIdentityLocked. rewrite Ht. by case_match.
Qed.

Lemma heartbeat_input i t now r :
  table_ok r -> input_ok r -> cs_type (slot_at i r) = Some t -> input_ok (updateClientHeartbeat i t now r).
Proof.
  intros T H Et. eapply input_keep; [exact H| | |].
  - unfold updateClientHeartbeat. by repeat case_match.
  - unfold maxClients, updateClientHeartbeat. repeat case_match; cbn; by rewrite ?length_insert.
  - intros j. right. rewrite heartbeat_slot by done. destruct (bool_decide _ && _) eqn:E; [|done].
    apply andb_true_iff in E as [E _]. apply bool_decide_eq_true in E as ->. done.
Qed.

Lemma tick_input maxF now r : rpc_inv r -> input_ok r -> input_ok (heartbeatMonitorTick maxF now r).
Proof.
  intros I H. destruct (Z.eqb_spec maxF 0) as [->|HF]; [done|].
  destruct (tick_effect maxF now r I HF) as [Hs _]. eapply input_keep; [exact H| | |].
  - unfold heartbeatMonitorTick. rewrite (proj2 (Z.eqb_neq _ _)) by done.
    assert (rp_input (foldl (tick_client maxF now) (r, []) (seq 0 (maxClients r))).1 = rp_input r) as E.
    { apply (foldl_inv (fun acc => rp_input acc.1 = rp_input r)); [done|]. intros [x d] i <-. unfold tick_client.
      by repeat case_match. }
    destruct (foldl (tick_client maxF now) _ _) as [r1 d]. cbn [fst] in E. rewrite <- E.
    apply (foldl_inv (fun x => rp_input x = rp_input r1)).
    + unfold tick_required. destruct (_ =? 0); [done|]. destruct (_ <? _); [done|]. by destruct (ms_due (rp_masks r1)).
    + intros x i <-. by destruct (enqueue_disconnect_same x i) as (_ & _ & _ & ?).
  - unfold heartbeatMonitorTick. rewrite (proj2 (Z.eqb_neq _ _)) by done.
    pose proof (tick_clients_slot maxF now (seq 0 (maxClients r)) r [] (NoDup_seq _ _)) as Ht. cbv zeta in Ht.
    destruct (foldl (tick_client maxF now) _ _) as [r1 d]. destruct Ht as (_ & _ & El & _). cbn [fst] in El. rewrite <- El.
    apply (foldl_inv (fun x => maxClients x = maxClients r1)).
    + unfold maxClients. by destruct (tick_required_slots maxF now r1) as (-> & _).
    + intros x i <-. unfold maxClients. by destruct (enqueue_disconnect_same x i) as (-> & _).
  - intros j. right. rewrite Hs. unfold tick_slot. by repeat case_match.
Qed.

(** *** Reports *)

Lemma identity_disjoint s t k :
  slot_ok s -> valid_identity t k -> Z.land (inputIdentityLocked s) (presenceBitForClient t k) <> 0 ->
  cs_type s = Some t /\ clientInstance s = k.
Proof.
  intros Hs Hid. unfold inputIdentityLocked. destruct (cs_type s) as [t'|] eqn:Et; [|done].
  destruct (Z.eqb_spec (presenceBitForClient t' (clientInstance s)) 0) as [Hz|Hz]; cbn [negb].
  - destruct (_ && _); [|done]. intros Hl. exfalso. apply Hl. clear Hl.
    destruct (decide (presenceBitForClient t k = 0)) as [->|Hne]; [apply Z.land_0_r|].
    pose proof (tracked_listed _ _ Hid Hne) as Hin.
    assert (forallb (fun a => Z.land PSS_INPUT_ANONYMOUS_CLIENT (presenceBitForClient a.1 a.2) =? 0) tracked_identities = true)
      as Hall by by vm_compute.
    rewrite forallb_forall in Hall. specialize (Hall _ (proj1 (list_elem_of_In _ _) Hin)). by apply Z.eqb_eq in Hall.
  - intros Hl. destruct (tracked_disjoint t' (clientInstance s) t k) as [-> ->]; [by apply (so_identity s Hs)|done|done|done].
Qed.

Lemma identity_range s : slot_ok s -> is_u32 (inputIdentityLocked s).
Proof.
  intros Hs. unfold inputIdentityLocked. destruct (cs_type s) as [t|] eqn:Et; [|done].
  destruct (Z.eqb_spec (presenceBitForClient t (clientInstance s)) 0) as [Hz|Hz]; cbn [negb]; [by destruct (_ && _)|].
  destruct (tracked_pow t (clientInstance s)) as (p & Hp & ->); [by apply (so_identity s Hs)|done|].
  split; [lia|]. apply Z.pow_lt_mono_r; lia.
Qed.

Lemma tracked_identity s : tracked_bit s <> 0 -> inputIdentityLocked s = tracked_bit s.
Proof.
  unfold tracked_bit, inputIdentityLocked. destruct (cs_type s); [|done]. intros H. by rewrite (proj2 (Z.eqb_neq _ _)).
Qed.

Lemma lor_range32 a b : is_u32 a -> is_u32 b -> is_u32 (Z.lor a b).
Proof. apply lor_range. lia. Qed.

(** An accepted report closes the episode and confirms the identity. *)
Lemma accepted_input i p e r : table_ok r -> (i < maxClients r)%nat -> is_Some (cs_type (slot_at i r)) -> input_ok r -> input_ok (noteReportAccepted i p e r).
Proof.
  intros T Hi Hty [Hu Hc Hr Ho Ht]. unfold noteReportAccepted.
  set (s := slot_at i r) in *. set (s' := set_rej _ s). set (r1 := put_slot i s' r).
  assert (slot_at i r1 = s') as Es by by apply slot_put_eq.
  assert (inputIdentityLocked s' = inputIdentityLocked s) as Eid by done.
  assert (forall j, j <> i -> slot_at j r1 = slot_at j r) as Eo by (intros; by apply slot_put_ne).
  rewrite Es, Eid. set (c := Z.lor (in_confirmed (rp_input r1)) (inputIdentityLocked s)).
  set (r2 := set_confirmed c r1).
  assert (forall j, slot_at j (recomputeInputStateLocked r2) = slot_at j r1) as E2 by done.
  split; [done|done| | |].
  - cbn. apply lor_range32; [done|]. apply identity_range, T.
  - intros j. rewrite E2. destruct (decide (j = i)) as [->|Hj]; [by rewrite Es|]. rewrite Eo by done. intros Hrj.
    cbn [recomputeInputStateLocked set_input rp_input in_confirmed r2 set_confirmed]. unfold c. cbn [r1 put_slot set_slots rp_input].
    rewrite Z.land_lor_distr_l, (Ho j Hrj), Z.lor_0_l.
    destruct (decide (Z.land (inputIdentityLocked s) (tracked_bit (slot_at j r)) = 0)) as [|Hne]; [done|exfalso].
    destruct (cs_type (slot_at j r)) as [t|] eqn:Etj; [|by rewrite Ht in Hrj].
    unfold tracked_bit in Hne. rewrite Etj in Hne.
    destruct (identity_disjoint s t (clientInstance (slot_at j r))) as [E1 E3];
      [apply T|by apply (so_identity _ (tb_slots r T j))|done|].
    assert (presenceBitForClient t (clientInstance (slot_at j r)) <> 0) as Hb by (intros E; by rewrite E, Z.land_0_r in Hne).
    apply Hj. eapply (tb_unique r T); [exact Etj|by apply tracked_singleton|].
    split_and!; [by eexists|unfold s in *; congruence|unfold s in *; congruence].
  - intros j. rewrite E2. destruct (decide (j = i)) as [->|Hj]; [by rewrite Es|]. rewrite Eo by done. apply Ht.
Qed.

Lemma land_without a b : is_u32 a -> is_u32 b -> Z.land (Z.land a (u32_not b)) b = 0.
Proof.
  intros Ha Hb. apply bits_zero_u32.
  - rewrite <- Z.land_assoc. apply land_range; [lia|done|]. apply Z.land_nonneg. left. apply (u32_not_range b Hb).
  - intros i Hi. rewrite !Z.land_spec, u32_not_spec by done. by destruct (Z.testbit a i), (Z.testbit b i).
Qed.

Lemma land_keeps_0 a x b : Z.land a b = 0 -> Z.land (Z.land a x) b = 0.
Proof. intros H. rewrite <- Z.land_assoc, (Z.land_comm x b), Z.land_assoc, H. apply Z.land_0_l. Qed.

(** An escalation opens the episode and takes the confirmation back. *)
Lemma escalated_input i j r :
  table_ok r -> (i < maxClients r)%nat -> is_Some (cs_type (slot_at i r)) -> input_ok r ->
  let r2 := put_slot i (set_rej j (slot_at i r)) r in
  input_ok (recomputeInputStateLocked
    (set_confirmed (Z.land (in_confirmed (rp_input r2)) (u32_not (inputIdentityLocked (slot_at i r2)))) r2)).
Proof.
  intros T Hi Hty [Hu Hc Hr Ho Ht]. cbv zeta. set (s := slot_at i r) in *. set (s' := set_rej j s). set (r2 := put_slot i s' r).
  assert (slot_at i r2 = s') as Es by by apply slot_put_eq.
  assert (inputIdentityLocked s' = inputIdentityLocked s) as Eid by done.
  assert (forall j, j <> i -> slot_at j r2 = slot_at j r) as Eo by (intros; by apply slot_put_ne).
  rewrite Es, Eid. set (c := Z.land (in_confirmed (rp_input r2)) (u32_not (inputIdentityLocked s))).
  assert (forall j, slot_at j (recomputeInputStateLocked (set_confirmed c r2)) = slot_at j r2) as E2 by done.
  pose proof (identity_range s (tb_slots r T i)) as Hid.
  split; [done|done| | |].
  - cbn. apply land_range; [lia|done|]. apply (u32_not_range _ Hid).
  - intros x. rewrite E2. cbn [recomputeInputStateLocked set_input rp_input in_confirmed set_confirmed]. unfold c. cbn [r2 put_slot set_slots rp_input].
    destruct (decide (x = i)) as [->|Hx].
    + intros _. rewrite Es. change (tracked_bit s') with (tracked_bit s).
      destruct (decide (tracked_bit s = 0)) as [->|Hne]; [apply Z.land_0_r|].
      rewrite <- (tracked_identity s Hne). by apply land_without.
    + rewrite Eo by done. intros Hrx. by apply land_keeps_0, Ho.
  - intros x. rewrite E2. destruct (decide (x = i)) as [->|Hx]; [|rewrite Eo by done; apply Ht].
    rewrite Es. cbn. intros E. unfold s in *. rewrite E in Hty. by destruct Hty.
Qed.

Section server.
Context {M : Type}.
Variable trustReportCb : option (Z -> Z -> SafetyEvent -> M -> M * bool).
Variable requiredSourceCb : option (M -> Z -> bool).
Variables maxFailures warnThreshold : Z.
Variable thresholdConfidence : f32.

Abbreviation step := (rpc_step trustReportCb requiredSourceCb maxFailures warnThreshold thresholdConfidence).
Abbreviation run := (rpc_run trustReportCb requiredSourceCb maxFailures warnThreshold thresholdConfidence).
Abbreviation Op := (@RpcOp M).
Abbreviation fresh := (@fresh_op M).
Abbreviation sched := (scheduled trustReportCb requiredSourceCb maxFailures warnThreshold thresholdConfidence).

Lemma noteReportRejected_cases i (m : M) r :
  let out := noteReportRejected requiredSourceCb i m r in
  (out.2 = false /\ rp_input out.1 = rp_input r
   /\ exists j, rj_raised j = rj_raised (cs_rej (slot_at i r)) /\ rp_slots out.1 = <[i := set_rej j (slot_at i r)]> (rp_slots r))
  \/ (out.2 = true /\ raised (slot_at i r) = false /\ exists j, rj_raised j = Some true /\
      let r2 := put_slot i (set_rej j (slot_at i r)) r in
      out.1 = recomputeInputStateLocked
        (set_confirmed (Z.land (in_confirmed (rp_input r2)) (u32_not (inputIdentityLocked (slot_at i r2)))) r2)).
Proof.
  cbv zeta. unfold noteReportRejected. set (s := slot_at i r). set (streak := u32 _). fold (raised s).
  assert (forall a b x, put_slot i a (put_slot i b x) = put_slot i a x) as Hpp.
  { intros a b x. unfold put_slot. cbn. unfold set_slots. cbn. by rewrite list_insert_insert_eq. }
  destruct (_ <? _); [left; split_and!; [done|done|eexists; split; [|done]; done]|].
  destruct (raised s) eqn:Hr; [left; split_and!; [done|done|eexists; split; [|done]; done]|]. rewrite !Hpp.
  destruct (rj_pipeline (cs_rej s)) as [p|].
  - destruct (_ || _).
    + right. split_and!; [done|done|]. eexists. split; [|done]. done.
    + destruct (default false (rj_noted (cs_rej s))); left; (split_and!; [done|done|]); eexists; (split; [|done]); done.
  - destruct (negb _); cbn [orb].
    + right. split_and!; [done|done|]. eexists. split; [|done]. done.
    + left. split_and!; [done|done|]. eexists. split; [|done]. done.
Qed.

Lemma rejected_input i (m : M) r :
  table_ok r -> (i < maxClients r)%nat -> is_Some (cs_type (slot_at i r)) -> input_ok r -> input_ok (noteReportRejected requiredSourceCb i m r).1.
Proof.
  intros T Hi Hty H. destruct (noteReportRejected_cases i m r) as [(_ & Ei & j & Ej & Es)|(_ & _ & j & Ej & ->)]; [|by apply escalated_input].
  eapply input_keep; [exact H|exact Ei|unfold maxClients; by rewrite Es, length_insert|].
  intros x. right. rewrite (rej_slot i x j r _ Es Hi). case_bool_decide; [subst|done]. unfold raised. cbn. by rewrite Ej.
Qed.

Lemma message_input i peer req now nowNs (m : M) r :
  rpc_inv r -> input_ok r -> (i < maxClients r)%nat -> Forall is_byte (rq_payload req) ->
  (rq_msg req = REGISTER_CLIENT -> cs_type (slot_at i r) = None) ->
  input_ok (handle_message trustReportCb requiredSourceCb maxFailures warnThreshold thresholdConfidence i peer req now nowNs m r).1.1.
Proof.
  intros I H Hi Hb Hfresh. pose proof (proj1 I) as T. unfold handle_message.
  destruct (Z.eqb_spec (rq_msg req) REGISTER_CLIENT) as [Hreg|_]; [|destruct (_ =? REPORT_SAFETY_EVENT);
    [|destruct (_ =? TERMINATE_CLIENT); [|destruct (_ =? SEND_HEARTBEAT); [|done]]]]; cbn [fst].
  - specialize (Hfresh Hreg). rewrite handle_register_fst. cbv zeta.
    destruct (register_outcome_ok i req now r T Hb) as [st Hst|t k|t k x Hid Hsg Honly Hx Et Ek Hl]; cbn [fst snd].
    + rewrite (proj2 (Z.eqb_neq st _)) by done. by apply disconnect_input.
    + rewrite Z.eqb_refl. by apply accept_input.
    + rewrite Z.eqb_refl. apply accept_input; [by apply disconnect_input|by rewrite disconnect_max|].
      by rewrite disconnect_slot, bool_decide_false.
  - pose proof (handle_report_cases trustReportCb requiredSourceCb maxFailures warnThreshold thresholdConfidence i peer req now nowNs m r) as Hc.
    cbv zeta in Hc. destruct (Z.eqb_spec (getClientType i r) 0) as [Hz|Hz].
    + unfold handle_report. rewrite Hz. cbn [Z.eqb]. pose proof (disconnectClient_fst i r) as E. destruct (disconnectClient i r).
      cbn [fst] in *. subst. by apply disconnect_input.
    + assert (is_Some (cs_type (slot_at i r))) by (eexists; by apply getClientType_Some).
      destruct Hc as [[_ ?]|[(p & e & ->)|(m' & ->)]]; [done|by apply accepted_input|by apply rejected_input].
  - unfold handle_terminate. pose proof (dropClient_fst i nowNs r) as E. destruct (dropClient i nowNs r). cbn [fst] in *.
    subst. by apply disconnect_input.
  - unfold handle_heartbeat. destruct (_ <? 2); [done|]. destruct (negb _); [done|].
    destruct (Z.eqb_spec (getClientType i r) 0); [rewrite disconnectClient_fst; by apply disconnect_input|].
    destruct (negb _); [rewrite dropClient_fst; by apply disconnect_input|]. cbn [fst].
    apply heartbeat_input; [done|done|by apply getClientType_Some].
Qed.

Lemma pending_input clock r : rpc_inv r -> input_ok r -> input_ok (processPendingDisconnects clock r).1.
Proof.
  intros I H. unfold processPendingDisconnects.
  apply (foldl_inv (fun acc => rpc_inv acc.1 /\ input_ok acc.1)).
  - cbn [fst]. split; [|by destruct H; split]. split; [|apply I].
    eapply table_same; [apply I|done|done|apply I|apply submask_refl|apply submask_refl].
  - intros [x a] [e ts] [Ix Hx]. cbn [fst] in *. split; [by apply (disconnect_pending_inv (x, a))|].
    destruct (disconnect_pending_cases x a e ts) as [[-> _]|(_ & -> & _)]; [done|]. apply disconnect_input; [apply Ix|done].
Qed.

Lemma step_input r (op : Op) : rpc_inv r -> input_ok r -> op_ok op -> fresh r op -> input_ok (step r op).1.
Proof.
  intros I H Hok Hf. pose proof (proj1 I) as T.
  destruct op as [now|clock|peer now|peer nowNs|peer out now nowNs m|mask|th]; cbn [rpc_step fst].
  - by apply tick_input.
  - by apply pending_input.
  - unfold peer_connected. destruct (find_peer _ _) as [i|] eqn:Hfp; [|done]. cbn [fst]. apply find_peer_slot in Hfp as [Hi _].
    eapply input_keep; [by apply (clear_slot_input i)|done|by rewrite max_put|].
    intros j. right. rewrite slot_put. destruct (bool_decide (j = i) && _) eqn:E; [|done].
    apply andb_true_iff in E as [E _]. apply bool_decide_eq_true in E as ->. done.
  - unfold peer_gone. destruct (find_peer _ _) as [i|]; [|done]. rewrite dropClient_fst. by apply disconnect_input.
  - unfold receive. destruct (find_peer peer (rp_slots r)) as [i|] eqn:Hfp; [|done].
    destruct (find_peer_slot _ _ _ Hfp) as [Hi _].
    destruct out as [| |req]; [cbn [fst]; rewrite dropClient_fst; by apply disconnect_input..|].
    apply message_input; [done|done|done|apply Hok|]. intros Hreg. by apply (Hf Hreg).
  - by destruct H; split.
  - unfold setClientRejectErrorThreshold. destruct (_ || _); [done|]. by destruct H; split.
Qed.

Lemma run_input r (ops : list Op) : rpc_inv r -> input_ok r -> Forall op_ok ops -> sched r ops -> input_ok (run r ops).1.
Proof.
  intros I H Hok. revert r I H. induction Hok as [|op ops Hop _ IH]; intros r I H Hs; [done|]. destruct Hs as [Hf Hs].
  rewrite run_cons. cbn [fst]. apply IH; [by apply step_inv|by apply step_input|done].
Qed.

Lemma new_input n start : input_ok (new_rpc n start).
Proof.
  assert (forall i, slot_at i (new_rpc n start) = free_slot) as Hs.
  { intros i. unfold slot_at, new_rpc. cbn [rp_slots]. destruct (decide (i < n)%nat).
    - by rewrite lookup_replicate_2 by done.
    - by rewrite lookup_ge_None_2 by (rewrite length_replicate; lia). }
  split; try done; try (intros i; by rewrite Hs). rewrite or_slots_map. unfold new_rpc. cbn [rp_slots rp_input in_unusablePublished].
  clear. induction n as [|n IH]; [done|]. cbn. exact IH.
Qed.

(** While a client's run of rejected reports stands escalated, its input identity
    is in the published set of unusable inputs, and a tracked identity is not in the
    published set of confirmed ones; every identity published as unusable has such a
    client.  An escalation happens only when none is open for the client, and opens
    one, so an episode queues one SW_FAIL.  (For runs in which a client registers once
    per connection and the server makes a pass between two ticks.) *)
Theorem unusable_episode_published (n : nat) (start : Z) (ops : list Op) (i : nat) (m : M) :
  (n <= MAX_POSSIBLE_CLIENTS)%nat -> Forall op_ok ops -> sched (new_rpc n start) ops ->
  let r := (run (new_rpc n start) ops).1 in
  let s := slot_at i r in
  (raised s = true ->
     submask (Z.land (inputIdentityLocked s) PSS_INPUT_STATE_MASK) (in_unusablePublished (rp_input r))
     /\ Z.land (in_confirmedPublished (rp_input r)) (tracked_bit s) = 0)
  /\ (forall bit, Z.land (in_unusablePublished (rp_input r)) bit <> 0 ->
        exists j, raised (slot_at j r) = true /\ Z.land (inputIdentityLocked (slot_at j r)) bit <> 0)
  /\ ((noteReportRejected requiredSourceCb i m r).2 = true -> (i < maxClients r)%nat ->
        raised s = false /\ raised (slot_at i (noteReportRejected requiredSourceCb i m r).1) = true).
Proof.
  intros Hn Hok Hs r s.
  pose proof (run_inv trustReportCb requiredSourceCb maxFailures warnThreshold thresholdConfidence _ ops (new_inv n start Hn) Hok) as I.
  pose proof (run_input _ ops (new_inv n start Hn) (new_input n start) Hok Hs) as [Hu Hc Hr Ho Ht]. fold r in I, Hu, Hc, Hr, Ho, Ht.
  split_and!.
  - intros Hrs. split; [|rewrite Hc; apply land_keeps_0, Ho, Hrs].
    rewrite Hu. unfold submask. rewrite <- Z.land_lor_distr_l. f_equal.
    assert (unusable_bit s = inputIdentityLocked s) as <- by (unfold unusable_bit; fold (raised s); by rewrite Hrs).
    assert (submask (unusable_bit s) (or_slots unusable_bit (rp_slots r))) as H; [|exact H].
    rewrite or_slots_map, foldl_lor, Z.lor_0_l. unfold s, slot_at. clear. revert i.
    induction (rp_slots r) as [|x l IH]; intros i; [apply submask_0|]. destruct i as [|i]; cbn [map foldr].
    + apply submask_lor_l.
    + eapply submask_trans; [apply IH|apply submask_lor_r].
  - intros bit Hbit. rewrite Hu in Hbit.
    assert (Z.land (or_slots unusable_bit (rp_slots r)) bit <> 0) as Hb by (intros E; apply Hbit; by apply land_keeps_0).
    apply or_slots_bit in Hb as [j Hj]; [|done]. exists j. unfold unusable_bit in Hj. fold (raised (slot_at j r)) in Hj.
    by destruct (raised (slot_at j r)).
  - intros He Hi. destruct (noteReportRejected_cases i m r) as [(E & _)|(_ & Hf & j & Ej & ->)]; [congruence|]. split; [done|].
    change (slot_at i (recomputeInputStateLocked ?x)) with (slot_at i x). change (slot_at i (set_confirmed ?c ?x)) with (slot_at i x).
    rewrite slot_put_eq by done. unfold raised. cbn. by rewrite Ej.
Qed.
End server.

(** ** With the event manager behind the callbacks *)

(** [onTrustReportFromRPC] and [isRequiredSourceFromRPC] of the daemon. *)
Definition onTrustReportFromRPC (cfg : ManagerConfig) (ts : timespec) (clientId reporterClientType : Z) (event : SafetyEvent)
  (m : EventManager) : EventManager * bool := OnTrustReport cfg reporterClientType event ts m.

Definition isRequiredSourceFromRPC (cfg : ManagerConfig) (m : EventManager) (pipelineId : Z) : bool := IsRequiredSourcePipeline cfg pipelineId.

(** The two checks of who may report what agree: what the server authorises the
    manager refuses only when a sensor report names the group itself. *)
Lemma authorisation_mirrored cfg ts client t ev m :
  reporter_authorized t ev = true ->
  (onTrustReportFromRPC cfg ts client t ev m).2 =
  negb (isSensorTrustReport (se_type ev) && IsSensorGroupId cfg (fm_pipelineID (se_fusionMetadata ev))).
Proof.
  intros Ha. unfold onTrustReportFromRPC, OnTrustReport.
  assert (trust_report_accepted cfg t ev = negb (isSensorTrustReport (se_type ev) && IsSensorGroupId cfg (fm_pipelineID (se_fusionMetadata ev)))) as E.
  { unfold trust_report_accepted, reporter_authorized in *.
    destruct (isSensorTrustReport (se_type ev)) eqn:Hs, (isAIPipelineTrustReport (se_type ev)) eqn:Hai; cbn [andb orb negb] in *.
    - exfalso. unfold isSensorTrustReport, isAIPipelineTrustReport in *. codes.
      apply orb_true_iff in Hs as [Hs|Hs], Hai as [Hai|Hai]; bool_prop; congruence.
    - rewrite orb_false_r in Ha. rewrite Ha. done.
    - rewrite Ha. done.
    - done. }
  rewrite <- E. destruct (trust_report_accepted cfg t ev); [|done]. cbn [negb].
  destruct (apply_trust_report cfg ev m) as [m1 []]; done.
Qed.

(** ** Runs *)

Definition sample_report : SafetyEvent :=
  pssSafetyEventSetCRC
    {| se_id := 9; se_sensorIdentifier := snprintf_s (bytes_of_string "cam1") MAX_INDENTIFIER_LENGTH; se_type := EVENT_0;
       se_timestamp := seconds 2; se_confidenceLevel := f32_one; se_processed := false;
       se_fusionMetadata := {| fm_coordinates := fm_coordinates zero_metadata; fm_pipelineID := 3; fm_clientID := 0;
                               fm_objectType := (0, 0); fm_speed := 0; fm_objectID := (5, 6) |};
       se_cause := CAUSE_NONE; se_integrity := zero_integrity |}.

Definition mdx_up : list (@RpcOp unit) :=
  [SetRequired (PSS_PRESENCE_MDX_INSTANCE 1); SetThreshold 3; connect 7 0; register_as 7 CLIENT_MDX 1 0; heartbeat_as 7 CLIENT_MDX (seconds 1)].

Definition sample_op : @RpcOp unit := from_client 7 (report_msg 12 [] sample_report) (seconds 2).

Lemma sample_report_wf : wf_SafetyEvent sample_report.
Proof.
  assert (is_u32 (mi_crc32 (se_integrity sample_report))) as Hcrc by by vm_compute.
  split; [done|done|done|done|done| |done|done|exact Hcrc].
  split; [|done..]. apply Forall_replicate. done.
Qed.

Lemma queued_events_authentic_witness :
  let r := (small_run (new_rpc 4 0) mdx_up).1 in
  QueueEvent 0 sample_report ∈ (rpc_step None None 2 1 f32_one r sample_op).2
  /\ (server_fault sample_report \/ exists i peer req now nowNs m,
       sample_op = Received peer (RecvRequest req) now nowNs m /\ find_peer peer (rp_slots r) = Some i
       /\ 0 = Z.of_nat i /\ sample_report = dec_SafetyEvent (rq_payload req) /\ entitled 2 1 f32_one i now sample_report r).
Proof.
  cbv zeta. unfold small_run.
  assert (QueueEvent 0 sample_report ∈ (rpc_step None None 2 1 f32_one (rpc_run None None 2 1 f32_one (new_rpc 4 0) mdx_up).1 sample_op).2) as H.
  { assert ((rpc_step None None 2 1 f32_one (rpc_run None None 2 1 f32_one (new_rpc 4 0) mdx_up).1 sample_op).2 =
      [QueueEvent 0 sample_report; SendResponse 7 {| rs_respSeqNo := 12; rs_payload := [REPORT_ACCEPTED] |}]) as ->
      by (vm_compute; reflexivity). left. }
  split; [exact H|]. apply (queued_events_authentic None None 2 1 f32_one 4 0 mdx_up sample_op 0 sample_report);
    [by vm_compute; lia|run_ok|exact H].
Defined.

Lemma stamped_event_delivered_witness :
  let r := (small_run (new_rpc 4 0) mdx_up).1 in
  (rpc_step None None 2 1 f32_one r sample_op).2 =
  [QueueEvent 0 sample_report; SendResponse 7 {| rs_respSeqNo := 12; rs_payload := [REPORT_ACCEPTED] |}].
Proof.
  apply (stamped_event_delivered None None 2 1 f32_one 4 0 mdx_up 7 12 (seconds 2) (seconds 2) [] sample_report 0 CLIENT_MDX tt);
    try by vm_compute.
  - vm_compute. lia.
  - run_ok.
  - apply sample_report_wf.
Defined.

(** Three reports without a payload. *)
Definition mdx_broken : list (@RpcOp unit) := mdx_up ++ replicate 3 (from_client 7 (client_msg REPORT_SAFETY_EVENT []) (seconds 2)).

Lemma unusable_episode_published_witness :
  let r := (small_run (new_rpc 4 0) mdx_broken).1 in
  Z.land (in_unusablePublished (rp_input r)) (PSS_PRESENCE_MDX_INSTANCE 1) <> 0
  /\ exists j, raised (slot_at j r) = true /\ Z.land (inputIdentityLocked (slot_at j r)) (PSS_PRESENCE_MDX_INSTANCE 1) <> 0.
Proof.
  cbv zeta. unfold small_run.
  assert (Z.land (in_unusablePublished (rp_input (rpc_run None None 2 1 f32_one (new_rpc 4 0) mdx_broken).1)) (PSS_PRESENCE_MDX_INSTANCE 1) <> 0) as H by by vm_compute.
  split; [exact H|].
  apply (unusable_episode_published None None 2 1 f32_one 4 0 mdx_broken 0 tt); [by vm_compute; lia|run_ok|run_scheduled|exact H].
Defined.
