(* ===== verification/PsdLink.v ===== *)
(** * The daemon's link to its decision clients

    [NvPSSDToPSD.cpp]: the server thread admits clients, publishes which client
    takes which event type and hands decision responses to the sender that waits
    for them; [sendDecisionRequestToPSD] runs on the callers' threads.  Each step
    of [link_step] is what a thread does between two points where another thread
    can get in: a critical section of [clientMapMtx] or [mailboxMtx], or a call of
    the transport.

    The transport is the set of peers it has a slot for ([lk_live]).  What the link
    relies on is in the guards: poll and receive release the slot of a peer they
    report gone, a send to a peer without a slot fails, and the id of a new
    connection is one nobody holds any more (the generation in the id).  Client ids
    are below [MAX_PSD_CLIENTS] and name a mailbox each.  Log text is not
    modelled. *)

From S2P Require Import Prelude Protocol Crc EventCodec Validate.

Definition MAX_PSD_CLIENTS : nat := 32.
Definition REGISTER_EVENT_TYPES : Z := 101.
Definition UNREGISTER_PSD_CLIENT : Z := 102.
Definition kMaxEventSlots : nat := 10.

(** [sizeof(DecisionResponse)] and [sizeof(PSDRegistrationMsg)]: the length of a
    message tells which it is. *)
Definition DECISION_RESPONSE_SIZE : nat := 12.
Definition PSD_REGISTRATION_SIZE : nat := 52.

Record PSDRegistrationMsg := {
  rm_msgType : Z;
  rm_clientId : Z;
  rm_eventTypesCount : Z;
  rm_eventTypes : list Z;
}.

Inductive NvPSSDeliveryFailureReason := NONE | PROCESS_DECISION_REQUEST_FAILED | RESPONSE_TIMEOUT.

Definition dec_DecisionResponse (l : list Z) : DecisionResponse :=
  let '(decisionId, l) := read_u 4 l in
  let '(action, l) := read_i32 l in
  let '(confidence, _) := read_u 4 l in
  {| rsp_decisionId := decisionId; rsp_action := action; rsp_confidenceLevel := confidence |}.

Fixpoint read_types (n : nat) (l : list Z) : list Z :=
  match n with
  | O => []
  | S n' => let '(t, l) := read_i32 l in t :: read_types n' l
  end.

Definition dec_PSDRegistrationMsg (l : list Z) : PSDRegistrationMsg :=
  let '(msgType, l) := read_u 4 l in
  let '(clientId, l) := read_u 4 l in
  let '(count, l) := read_u 4 l in
  {| rm_msgType := msgType; rm_clientId := clientId; rm_eventTypesCount := count;
     rm_eventTypes := read_types kMaxEventSlots l |}.

(** ** State *)

(** [mb_from] is not in the code: the peer whose message filled the mailbox. *)
Record ResponseMailbox := {
  mb_armed : bool;
  mb_requestId : Z;
  mb_have : bool;
  mb_peerLost : bool;
  mb_response : DecisionResponse;
  mb_from : Z;
}.

Definition zero_response : DecisionResponse := {| rsp_decisionId := 0; rsp_action := 0; rsp_confidenceLevel := 0 |}.

Definition free_mailbox : ResponseMailbox := {|
  mb_armed := false; mb_requestId := 0; mb_have := false; mb_peerLost := false;
  mb_response := zero_response; mb_from := NVPSF_PEER_INVALID |}.

Inductive PollEvent := PeerConnected (p : Z) | PeerGone (p : Z) | MessageReady.

Inductive RecvResult :=
| RecvWouldBlock
| RecvPeerGone (from : Z)
| RecvError (* truncated, or any other failure *)
| RecvOk (from : Z) (bytes : list Z).

(** Where the server thread stands; [AtLoop] is the head of the loop over the
    events of one poll, or the poll itself when none is left. *)
Inductive ServerPc :=
| AtLoop
| AtAssign (p : Z) (c : option nat) (* after admitPeer, before the assignment is sent *)
| AtReject (p : Z)
| AtDispatch (c : nat) (p : Z) (bytes : list Z)
| AtAck (c : nat) (p : Z)
| AtUnpublish (c : nat) (* on entry to handlePSDClientDisconnection *)
| AtDropPeer (c : nat) (p : Z)
| AtFailWaiter (c : nat).

Record Outcome := {
  oc_ok : bool;
  oc_reason : NvPSSDeliveryFailureReason;
  oc_response : option DecisionResponse;
}.

(** One call of [sendDecisionRequestToPSD]; [Closing] runs the mailbox guard. *)
Inductive Call :=
| Resolved (request : DecisionRequest) (c : nat) (p : Z)
| Armed (request : DecisionRequest) (c : nat) (p : Z)
| Sent (request : DecisionRequest) (c : nat) (p : Z)
| Closing (request : DecisionRequest) (c : nat) (o : Outcome)
| Done (request : DecisionRequest) (o : Outcome).

Inductive StopPhase := Serving | Released | Closed.

(** What a successful send put on the wire. *)
Inductive LinkMessage :=
| Assignment (p : Z) (clientId : nat) (status : Z)
| RegistrationAck (p : Z) (clientId : nat)
| RequestFor (p : Z) (call : nat) (request : DecisionRequest).

Record Link := {
  lk_peers : gmap nat Z; (* clientIdToPeer *)
  lk_types : gmap Z nat; (* eventTypeToClient *)
  lk_mailbox : list ResponseMailbox;
  lk_running : bool; (* runningPSSDServer *)
  lk_pc : ServerPc;
  lk_events : list PollEvent; (* left of the last poll *)
  lk_live : gset Z;
  lk_calls : gmap nat Call;
  lk_stop : StopPhase;
  lk_wire : list LinkMessage;
}.

(** After [initializePSSDServer] and [startPSSDServer]. *)
Definition started : Link := {|
  lk_peers := ∅; lk_types := ∅; lk_mailbox := replicate MAX_PSD_CLIENTS free_mailbox; lk_running := true;
  lk_pc := AtLoop; lk_events := []; lk_live := ∅; lk_calls := ∅; lk_stop := Serving; lk_wire := [] |}.

(** ** Field updates *)

Definition set_maps (peers : gmap nat Z) (types : gmap Z nat) (l : Link) : Link := {|
  lk_peers := peers; lk_types := types; lk_mailbox := lk_mailbox l; lk_running := lk_running l; lk_pc := lk_pc l;
  lk_events := lk_events l; lk_live := lk_live l; lk_calls := lk_calls l; lk_stop := lk_stop l; lk_wire := lk_wire l |}.
Definition set_mailboxes (m : list ResponseMailbox) (l : Link) : Link := {|
  lk_peers := lk_peers l; lk_types := lk_types l; lk_mailbox := m; lk_running := lk_running l; lk_pc := lk_pc l;
  lk_events := lk_events l; lk_live := lk_live l; lk_calls := lk_calls l; lk_stop := lk_stop l; lk_wire := lk_wire l |}.
Definition set_pc (pc : ServerPc) (l : Link) : Link := {|
  lk_peers := lk_peers l; lk_types := lk_types l; lk_mailbox := lk_mailbox l; lk_running := lk_running l; lk_pc := pc;
  lk_events := lk_events l; lk_live := lk_live l; lk_calls := lk_calls l; lk_stop := lk_stop l; lk_wire := lk_wire l |}.
Definition set_events (es : list PollEvent) (l : Link) : Link := {|
  lk_peers := lk_peers l; lk_types := lk_types l; lk_mailbox := lk_mailbox l; lk_running := lk_running l; lk_pc := lk_pc l;
  lk_events := es; lk_live := lk_live l; lk_calls := lk_calls l; lk_stop := lk_stop l; lk_wire := lk_wire l |}.
Definition set_live (live : gset Z) (l : Link) : Link := {|
  lk_peers := lk_peers l; lk_types := lk_types l; lk_mailbox := lk_mailbox l; lk_running := lk_running l; lk_pc := lk_pc l;
  lk_events := lk_events l; lk_live := live; lk_calls := lk_calls l; lk_stop := lk_stop l; lk_wire := lk_wire l |}.
Definition set_call (k : nat) (x : Call) (l : Link) : Link := {|
  lk_peers := lk_peers l; lk_types := lk_types l; lk_mailbox := lk_mailbox l; lk_running := lk_running l; lk_pc := lk_pc l;
  lk_events := lk_events l; lk_live := lk_live l; lk_calls := <[k := x]> (lk_calls l); lk_stop := lk_stop l;
  lk_wire := lk_wire l |}.
Definition set_stop (running : bool) (ph : StopPhase) (l : Link) : Link := {|
  lk_peers := lk_peers l; lk_types := lk_types l; lk_mailbox := lk_mailbox l; lk_running := running; lk_pc := lk_pc l;
  lk_events := lk_events l; lk_live := lk_live l; lk_calls := lk_calls l; lk_stop := ph; lk_wire := lk_wire l |}.
Definition put_wire (m : LinkMessage) (l : Link) : Link := {|
  lk_peers := lk_peers l; lk_types := lk_types l; lk_mailbox := lk_mailbox l; lk_running := lk_running l; lk_pc := lk_pc l;
  lk_events := lk_events l; lk_live := lk_live l; lk_calls := lk_calls l; lk_stop := lk_stop l;
  lk_wire := lk_wire l ++ [m] |}.

Definition with_mailbox (c : nat) (f : ResponseMailbox -> ResponseMailbox) (l : Link) : Link :=
  set_mailboxes (alter f c (lk_mailbox l)) l.

(** ** The server thread *)

(** The hash table visits the entries in an order of its own; at most one entry
    has the peer ([peers_injective]), so the order does not matter. *)
Definition clientIdForPeerLocked (p : Z) (l : Link) : option nat :=
  find (fun c => bool_decide (lk_peers l !! c = Some p)) (seq 0 MAX_PSD_CLIENTS).

Definition admitPeer (p : Z) (l : Link) : option nat * Link :=
  match find (fun c => bool_decide (lk_peers l !! c = None)) (seq 0 MAX_PSD_CLIENTS) with
  | Some c => (Some c, set_maps (<[c := p]> (lk_peers l)) (lk_types l) l)
  | None => (None, l)
  end.

Definition deliver (p : Z) (response : DecisionResponse) (mb : ResponseMailbox) : ResponseMailbox :=
  if mb_armed mb && negb (mb_have mb) && (rsp_decisionId response =? mb_requestId mb)
  then {| mb_armed := mb_armed mb; mb_requestId := mb_requestId mb; mb_have := true; mb_peerLost := mb_peerLost mb;
          mb_response := response; mb_from := p |}
  else mb.

Definition deliverResponse (c : nat) (p : Z) (response : DecisionResponse) : Link -> Link :=
  with_mailbox c (deliver p response).

Definition lose (mb : ResponseMailbox) : ResponseMailbox := {|
  mb_armed := mb_armed mb; mb_requestId := mb_requestId mb; mb_have := mb_have mb; mb_peerLost := true;
  mb_response := mb_response mb; mb_from := mb_from mb |}.

Definition failWaiter (c : nat) : Link -> Link :=
  with_mailbox c (fun mb => if mb_armed mb && negb (mb_have mb) then lose mb else mb).

(** The types of one registration, at most as many as the message has room for. *)
Definition registered_types (msg : PSDRegistrationMsg) : list Z :=
  take (Nat.min (Z.to_nat (rm_eventTypesCount msg)) kMaxEventSlots) (rm_eventTypes msg).

(** The critical section of the registration; the peer to acknowledge to, if the
    client is still there.  The client id in the message is not used. *)
Definition handlePSDEventTypeRegistration (c : nat) (msg : PSDRegistrationMsg) (l : Link) : Link :=
  match lk_peers l !! c with
  | Some p =>
    set_pc (AtAck c p)
      (set_maps (lk_peers l) (foldl (fun m t => <[t := c]> m) (lk_types l) (registered_types msg)) l)
  | None => set_pc AtLoop l
  end.

(** Dispatch on the length of a message of client [c]. *)
Definition dispatch (c : nat) (p : Z) (bytes : list Z) (l : Link) : Link :=
  if (length bytes =? DECISION_RESPONSE_SIZE)%nat then
    set_pc AtLoop (deliverResponse c p (dec_DecisionResponse bytes) l)
  else if (length bytes =? PSD_REGISTRATION_SIZE)%nat then
    let msg := dec_PSDRegistrationMsg bytes in
    if rm_msgType msg =? REGISTER_EVENT_TYPES then handlePSDEventTypeRegistration c msg l
    else set_pc (AtUnpublish c) l
  else set_pc (AtUnpublish c) l.

(** The critical section of [handlePSDClientDisconnection]. *)
Definition unpublish (c : nat) (l : Link) : Link :=
  if (MAX_PSD_CLIENTS <=? c)%nat then set_pc AtLoop l else
  let l' := set_maps (delete c (lk_peers l)) (filter (fun kv => kv.2 <> c) (lk_types l)) l in
  match lk_peers l !! c with
  | Some p => set_pc (AtDropPeer c p) l'
  | None => set_pc (AtFailWaiter c) l'
  end.

(** One event of a poll; [r] is what receive returns for [MessageReady]. *)
Definition server_event (e : PollEvent) (r : RecvResult) (l : Link) : Link :=
  let gone p l :=
    match clientIdForPeerLocked p l with Some c => set_pc (AtUnpublish c) l | None => l end in
  match e with
  | PeerConnected p => let '(c, l) := admitPeer p l in set_pc (AtAssign p c) l
  | PeerGone p => gone p l
  | MessageReady =>
    match r with
    | RecvWouldBlock | RecvError => l
    | RecvPeerGone p => gone p (set_live (lk_live l ∖ {[p]}) l)
    | RecvOk p bytes =>
      match clientIdForPeerLocked p l with Some c => set_pc (AtDispatch c p bytes) l | None => l end
    end
  end.

(** The server thread goes on; [ok] is the outcome of the send it makes, if any. *)
Definition server_continue (ok : bool) (l : Link) : option Link :=
  match lk_pc l with
  | AtLoop => None
  | AtAssign p (Some c) =>
    Some (if ok then put_wire (Assignment p c 0) (set_pc AtLoop l) else set_pc (AtUnpublish c) l)
  | AtAssign p None =>
    Some (if ok then put_wire (Assignment p 0 1) (set_pc (AtReject p) l) else set_pc (AtReject p) l)
  | AtReject p => Some (set_pc AtLoop (set_live (lk_live l ∖ {[p]}) l))
  | AtDispatch c p bytes => Some (dispatch c p bytes l)
  | AtAck c p => Some (if ok then put_wire (RegistrationAck p c) (set_pc AtLoop l) else set_pc AtLoop l)
  | AtUnpublish c => Some (unpublish c l)
  | AtDropPeer c p => Some (set_pc (AtFailWaiter c) (set_live (lk_live l ∖ {[p]}) l))
  | AtFailWaiter c => Some (set_pc AtLoop (failWaiter c l))
  end.

(** ** The callers' threads *)

Definition refused : Outcome :=
  {| oc_ok := false; oc_reason := PROCESS_DECISION_REQUEST_FAILED; oc_response := None |}.
Definition timed_out : Outcome := {| oc_ok := false; oc_reason := RESPONSE_TIMEOUT; oc_response := None |}.
Definition answered (response : DecisionResponse) : Outcome :=
  {| oc_ok := true; oc_reason := NONE; oc_response := Some response |}.

Definition first_type (request : DecisionRequest) : Z :=
  match dr_sensorDataSummary request with s :: _ => ev_type (sd_event s) | [] => 0 end.

(** Up to the validation: the target, or [None] for a refusal. *)
Definition resolve (response : bool) (request : DecisionRequest) (l : Link) : option (nat * Z) :=
  if negb response then None else
  if dr_sensorDataSummarySize request =? 0 then None else
  match lk_types l !! first_type request with
  | None => None
  | Some c =>
    match lk_peers l !! c with
    | None => None
    | Some p =>
      if p =? NVPSF_PEER_INVALID then None else
      if (MAX_PSD_CLIENTS <=? c)%nat then None else
      if negb (validateDecisionRequest (Some request) =? PSS_VALID) then None else Some (c, p)
    end
  end.

Definition arm (request : DecisionRequest) (mb : ResponseMailbox) : ResponseMailbox := {|
  mb_armed := true; mb_requestId := dr_requestId request; mb_have := false; mb_peerLost := false;
  mb_response := zero_response; mb_from := NVPSF_PEER_INVALID |}.

Definition disarm (mb : ResponseMailbox) : ResponseMailbox := {|
  mb_armed := false; mb_requestId := mb_requestId mb; mb_have := mb_have mb; mb_peerLost := mb_peerLost mb;
  mb_response := mb_response mb; mb_from := mb_from mb |}.

Definition mailbox_at (c : nat) (l : Link) : ResponseMailbox := nth c (lk_mailbox l) free_mailbox.

(** The predicate of the wait. *)
Definition wait_over (request : DecisionRequest) (mb : ResponseMailbox) : bool :=
  mb_have mb && (mb_requestId mb =? dr_requestId request) || mb_peerLost mb.

(** What the call returns once [wait_until] has returned [delivered]. *)
Definition wait_result (request : DecisionRequest) (delivered : bool) (mb : ResponseMailbox) : Outcome :=
  if negb delivered || negb (mb_have mb) || negb (mb_requestId mb =? dr_requestId request)
  then timed_out else answered (mb_response mb).

(** ** Steps *)

Inductive LinkStep :=
| SPoll (batch : list PollEvent)
| SEvent (r : RecvResult)
| SServer (ok : bool)
| SCall (k : nat) (response : bool) (request : DecisionRequest)
| SArm (k : nat)
| STransmit (k : nat) (ok : bool)
| SWait (k : nat) (expired : bool)
| SDisarm (k : nat)
| SStop (* runningPSSDServer.store(false) *)
| SRelease (* once the thread is joined *)
| SClose (* NvPSFTransportClose *)
| SClear. (* the end of stopPSSDServer *)

Definition event_peers (es : list PollEvent) : list Z :=
  omap (fun e => match e with PeerConnected p | PeerGone p => Some p | MessageReady => None end) es.
Definition connected (es : list PollEvent) : list Z :=
  omap (fun e => match e with PeerConnected p => Some p | _ => None end) es.
Definition gone_peers (es : list PollEvent) : list Z :=
  omap (fun e => match e with PeerGone p => Some p | _ => None end) es.

(** The peer a call may still send to or be answered by. *)
Definition call_peer (x : Call) : option Z :=
  match x with Resolved _ _ p | Armed _ _ p | Sent _ _ p => Some p | _ => None end.

(** What the transport promises of the events of one poll: a peer reported gone
    had a slot, and the id of a new one is held by nobody. *)
Definition unheld (l : Link) (p : Z) : Prop :=
  p <> NVPSF_PEER_INVALID /\ (p ∉ lk_live l) /\ map_Forall (fun _ q => q <> p) (lk_peers l) /\
  map_Forall (fun _ x => call_peer x <> Some p) (lk_calls l).

Definition batch_ok (batch : list PollEvent) (l : Link) : Prop :=
  NoDup (event_peers batch) /\ Forall (fun p => p ∈ lk_live l) (gone_peers batch) /\
  Forall (unheld l) (connected batch).

(** A send succeeds only on a peer that has a slot. *)
Definition send_ok (ok : bool) (p : Z) (l : Link) : Prop := ok = true -> p ∈ lk_live l.

(** What receive may return: a peer it names has a slot. *)
Definition recv_ok (r : RecvResult) (l : Link) : Prop :=
  match r with RecvPeerGone p | RecvOk p _ => p ∈ lk_live l | _ => True end.

Definition server_send_ok (ok : bool) (l : Link) : Prop :=
  match lk_pc l with AtAssign p _ | AtAck _ p => send_ok ok p l | _ => True end.

#[global] Instance send_ok_dec ok p l : Decision (send_ok ok p l).
Proof. unfold send_ok. apply _. Defined.
#[global] Instance recv_ok_dec r l : Decision (recv_ok r l).
Proof. unfold recv_ok. destruct r; apply _. Defined.
#[global] Instance server_send_ok_dec ok l : Decision (server_send_ok ok l).
Proof. unfold server_send_ok. destruct (lk_pc l); apply _. Defined.
#[global] Instance unheld_dec l p : Decision (unheld l p).
Proof. unfold unheld. apply _. Defined.
#[global] Instance batch_ok_dec batch l : Decision (batch_ok batch l).
Proof. unfold batch_ok. apply _. Defined.

Definition poll (batch : list PollEvent) (l : Link) : Link :=
  set_events batch
    (set_live ((lk_live l ∖ list_to_set (gone_peers batch)) ∪ list_to_set (connected batch)) l).

(** The first part of [sendDecisionRequestToPSD]. *)
Definition begin_call (k : nat) (response : bool) (request : DecisionRequest) (l : Link) : Link :=
  set_call k (match resolve response request l with
              | Some (c, p) => Resolved request c p
              | None => Done request refused
              end) l.

Definition arm_call (k : nat) (request : DecisionRequest) (c : nat) (p : Z) (l : Link) : Link :=
  if mb_armed (mailbox_at c l) then set_call k (Done request refused) l
  else set_call k (Armed request c p) (with_mailbox c (arm request) l).

Definition transmit (k : nat) (ok : bool) (request : DecisionRequest) (c : nat) (p : Z) (l : Link) : Link :=
  if ok then put_wire (RequestFor p k request) (set_call k (Sent request c p) l)
  else set_call k (Closing request c refused) l.

Definition end_wait (k : nat) (request : DecisionRequest) (c : nat) (l : Link) : Link :=
  set_call k (Closing request c
    (wait_result request (wait_over request (mailbox_at c l)) (mailbox_at c l))) l.

Definition release_waiters (l : Link) : Link :=
  set_mailboxes (map (fun mb => if mb_armed mb then lose mb else mb) (lk_mailbox l)) l.

Inductive link_step : Link -> LinkStep -> Link -> Prop :=
| link_poll batch l :
    lk_running l = true -> lk_pc l = AtLoop -> lk_events l = [] -> batch_ok batch l ->
    link_step l (SPoll batch) (poll batch l)
| link_event e es r l :
    lk_pc l = AtLoop -> lk_events l = e :: es -> recv_ok r l ->
    link_step l (SEvent r) (server_event e r (set_events es l))
| link_server ok l l' :
    server_send_ok ok l -> server_continue ok l = Some l' -> link_step l (SServer ok) l'
| link_call k response request l :
    lk_calls l !! k = None -> link_step l (SCall k response request) (begin_call k response request l)
| link_arm k request c p l :
    lk_calls l !! k = Some (Resolved request c p) -> link_step l (SArm k) (arm_call k request c p l)
| link_transmit k ok request c p l :
    lk_calls l !! k = Some (Armed request c p) -> send_ok ok p l ->
    link_step l (STransmit k ok) (transmit k ok request c p l)
| link_wait k expired request c p l :
    lk_calls l !! k = Some (Sent request c p) ->
    expired = true \/ wait_over request (mailbox_at c l) = true ->
    link_step l (SWait k expired) (end_wait k request c l)
| link_disarm k request c o l :
    lk_calls l !! k = Some (Closing request c o) ->
    link_step l (SDisarm k) (set_call k (Done request o) (with_mailbox c disarm l))
| link_stop l : link_step l SStop (set_stop false (lk_stop l) l)
| link_release l :
    lk_running l = false -> lk_pc l = AtLoop -> lk_events l = [] ->
    link_step l SRelease (set_stop false Released (release_waiters l))
| link_close l :
    lk_stop l = Released -> link_step l SClose (set_stop false Closed (set_live ∅ l))
| link_clear l :
    lk_stop l = Closed -> link_step l SClear (set_maps ∅ ∅ l).

(** Every state the threads can reach together. *)
Inductive reachable_link : Link -> Prop :=
| reachable_started : reachable_link started
| reachable_link_step l s l' : reachable_link l -> link_step l s l' -> reachable_link l'.

(** The same step as a function, [None] where it is not enabled. *)
Definition exec (s : LinkStep) (l : Link) : option Link :=
  match s with
  | SPoll batch =>
    match lk_running l, lk_pc l, lk_events l with
    | true, AtLoop, [] => if decide (batch_ok batch l) then Some (poll batch l) else None
    | _, _, _ => None
    end
  | SEvent r =>
    match lk_pc l, lk_events l with
    | AtLoop, e :: es => if decide (recv_ok r l) then Some (server_event e r (set_events es l)) else None
    | _, _ => None
    end
  | SServer ok => if decide (server_send_ok ok l) then server_continue ok l else None
  | SCall k response request =>
    match lk_calls l !! k with None => Some (begin_call k response request l) | Some _ => None end
  | SArm k =>
    match lk_calls l !! k with Some (Resolved request c p) => Some (arm_call k request c p l) | _ => None end
  | STransmit k ok =>
    match lk_calls l !! k with
    | Some (Armed request c p) => if decide (send_ok ok p l) then Some (transmit k ok request c p l) else None
    | _ => None
    end
  | SWait k expired =>
    match lk_calls l !! k with
    | Some (Sent request c p) =>
      if expired || wait_over request (mailbox_at c l) then Some (end_wait k request c l) else None
    | _ => None
    end
  | SDisarm k =>
    match lk_calls l !! k with
    | Some (Closing request c o) => Some (set_call k (Done request o) (with_mailbox c disarm l))
    | _ => None
    end
  | SStop => Some (set_stop false (lk_stop l) l)
  | SRelease =>
    match lk_running l, lk_pc l, lk_events l with
    | false, AtLoop, [] => Some (set_stop false Released (release_waiters l))
    | _, _, _ => None
    end
  | SClose => match lk_stop l with Released => Some (set_stop false Closed (set_live ∅ l)) | _ => None end
  | SClear => match lk_stop l with Closed => Some (set_maps ∅ ∅ l) | _ => None end
  end.

Fixpoint exec_all (ss : list LinkStep) (l : Link) : option Link :=
  match ss with
  | [] => Some l
  | s :: ss => match exec s l with Some l' => exec_all ss l' | None => None end
  end.

Lemma exec_step s l l' : exec s l = Some l' <-> link_step l s l'.
Proof.
  split.
  - destruct s; cbn [exec]; intros H; repeat (case_match; simplify_eq; try done); simplify_eq;
      first [by constructor | eapply link_event; eauto | eapply link_transmit; eauto | eapply link_wait; eauto | eapply link_disarm; eauto].
    by apply orb_true_iff.
  - destruct 1; cbn [exec]; repeat (case_match; simplify_eq; try done); try done.
    match goal with H : _ \/ _ |- _ => destruct H; simplify_eq end; bool_prop; congruence.
Qed.

Lemma exec_all_reachable ss l l' : reachable_link l -> exec_all ss l = Some l' -> reachable_link l'.
Proof.
  revert l. induction ss as [|s ss IH]; intros l Hl H; cbn [exec_all] in H; [by simplify_eq|].
  destruct (exec s l) eqn:E; [|done]. apply exec_step in E. eapply IH; [|done]. by econstructor.
Qed.
