(* ===== verification/PsdLinkSafety.v ===== *)
(** * The link never mixes up its callers, and strands none

    Invariants of [PsdLink] under every interleaving of the server thread, the
    callers and the shutdown: the client maps ([maps_inv]), the mailboxes and the
    calls that own them ([box_inv]), and what a call knows of its target
    ([target_inv]). *)

From S2P Require Import Prelude Protocol Crc EventCodec Validate PsdLink.

(** ** Lookups *)

Lemma clientIdForPeer_Some p l c :
  clientIdForPeerLocked p l = Some c -> (c < MAX_PSD_CLIENTS)%nat /\ lk_peers l !! c = Some p.
Proof.
  intros [Hin Hp]%find_some. apply bool_decide_eq_true in Hp. apply in_seq in Hin. split; [lia|done].
Qed.

Lemma clientIdForPeer_None p l c :
  clientIdForPeerLocked p l = None -> (c < MAX_PSD_CLIENTS)%nat -> lk_peers l !! c <> Some p.
Proof.
  intros H Hc. pose proof (find_none _ _ H c) as Hn. cbn beta in Hn.
  rewrite bool_decide_eq_false in Hn. apply Hn, in_seq. lia.
Qed.

Lemma admitPeer_spec p l c l' :
  admitPeer p l = (c, l') ->
  match c with
  | Some c => (c < MAX_PSD_CLIENTS)%nat /\ lk_peers l !! c = None /\
      l' = set_maps (<[c := p]> (lk_peers l)) (lk_types l) l
  | None => l' = l /\ forall c, (c < MAX_PSD_CLIENTS)%nat -> is_Some (lk_peers l !! c)
  end.
Proof.
  unfold admitPeer. destruct (find _ _) as [c'|] eqn:E; intros [= <- <-].
  - apply find_some in E as [Hin Hp]. apply bool_decide_eq_true in Hp. apply in_seq in Hin. repeat split; [lia|done].
  - split; [done|]. intros c Hc. pose proof (find_none _ _ E c) as Hn. cbn beta in Hn.
    rewrite bool_decide_eq_false in Hn. apply not_eq_None_Some, Hn, in_seq. lia.
Qed.

Lemma elem_of_connected p es : p ∈ connected es <-> PeerConnected p ∈ es.
Proof.
  unfold connected. rewrite list_elem_of_omap. split; [|by eexists].
  intros ([] & ? & ?); by simplify_eq.
Qed.

Lemma elem_of_gone p es : p ∈ gone_peers es <-> PeerGone p ∈ es.
Proof.
  unfold gone_peers. rewrite list_elem_of_omap. split; [|by eexists].
  intros ([] & ? & ?); by simplify_eq.
Qed.

Lemma registered_lookup (types : gmap Z nat) c ts t c' :
  foldl (fun m t => <[t := c]> m) types ts !! t = Some c' -> c' = c \/ types !! t = Some c'.
Proof.
  revert types. induction ts as [|t' ts IH]; intros types; cbn [foldl]; [by right|].
  intros [->|H]%IH; [by left|]. destruct (decide (t' = t)) as [->|]; simplify_map_eq; auto.
Qed.

(** ** The client maps *)

(** A peer the maps still name has its slot, or the server is on its way to
    take it out. *)
Definition peer_held (l : Link) (c : nat) (p : Z) : Prop :=
  p ∈ lk_live l \/ PeerGone p ∈ lk_events l \/ lk_pc l = AtUnpublish c \/ lk_pc l = AtAssign p (Some c).

Record maps_inv (l : Link) : Prop := {
  mi_ids : forall c p, lk_peers l !! c = Some p -> (c < MAX_PSD_CLIENTS)%nat /\ p <> NVPSF_PEER_INVALID;
  mi_inj : forall c1 c2 p, lk_peers l !! c1 = Some p -> lk_peers l !! c2 = Some p -> c1 = c2;
  mi_types : forall t c, lk_types l !! t = Some c -> is_Some (lk_peers l !! c);
  mi_connected : NoDup (connected (lk_events l));
  mi_new : forall p, PeerConnected p ∈ lk_events l ->
    p <> NVPSF_PEER_INVALID /\ forall c, lk_peers l !! c <> Some p;
  mi_pc : match lk_pc l with
          | AtAssign p (Some c) | AtDispatch c p _ => lk_peers l !! c = Some p
          | AtAssign p None | AtReject p | AtDropPeer _ p => forall c, lk_peers l !! c <> Some p
          | _ => True
          end;
  mi_live : lk_stop l = Serving -> forall c p, lk_peers l !! c = Some p -> peer_held l c p;
  mi_stop : lk_stop l <> Serving -> lk_running l = false /\ lk_pc l = AtLoop /\ lk_events l = [];
}.

(** The steps of the callers leave all of this alone. *)
Lemma maps_inv_frame l l' :
  lk_peers l' = lk_peers l -> lk_types l' = lk_types l -> lk_pc l' = lk_pc l -> lk_events l' = lk_events l ->
  lk_live l' = lk_live l -> lk_stop l' = lk_stop l -> lk_running l' = lk_running l -> maps_inv l -> maps_inv l'.
Proof.
  intros E1 E2 E3 E4 E5 E6 E7 [].
  split; unfold peer_held in *; rewrite ?E1, ?E2, ?E3, ?E4, ?E5, ?E6, ?E7; done.
Qed.

Lemma poll_maps_inv batch l :
  maps_inv l -> lk_running l = true -> lk_pc l = AtLoop -> lk_events l = [] -> batch_ok batch l ->
  maps_inv (poll batch l).
Proof.
  intros I Hr Hpc Hev (Hnd & Hg & Hnew). rewrite Forall_forall in Hnew.
  split; cbn [poll set_events set_live lk_peers lk_types lk_events lk_pc lk_stop lk_running]; try apply I.
  - revert Hnd. clear. unfold connected, event_peers. induction batch as [|[p|p|] batch IH]; cbn; [done|..].
    + intros [Hp Hnd]%NoDup_cons. apply NoDup_cons. split; [|auto]. intros (e & He & Heq)%list_elem_of_omap.
      apply Hp, list_elem_of_omap. exists e. by destruct e.
    + intros [_ Hnd]%NoDup_cons. auto.
    + auto.
  - intros p Hp%elem_of_connected. destruct (Hnew p Hp) as (Hi & _ & Hm & _). split; [done|].
    intros c Hc. by apply (Hm c p Hc).
  - intros Hs c p Hp. unfold peer_held. cbn. destruct (mi_live _ I Hs c p Hp) as [Hl|[H|[H|H]]];
      [|rewrite ?Hev, ?Hpc in H; by inv H..].
    destruct (decide (p ∈ gone_peers batch)) as [Hgone|]; [right; left; by apply elem_of_gone|left].
    apply elem_of_union_l, elem_of_difference. by rewrite elem_of_list_to_set.
  - intros Hs. destruct (mi_stop _ I Hs). congruence.
Qed.

(** Leaving the head of the loop with one event less. *)
Lemma next_event_maps_inv e es l :
  maps_inv l -> lk_pc l = AtLoop -> lk_events l = e :: es -> (forall p, e <> PeerGone p) -> maps_inv (set_events es l).
Proof.
  intros I Hpc Hev He.
  split; cbn [set_events lk_peers lk_types lk_events lk_pc lk_stop lk_running]; try apply I.
  - pose proof (mi_connected _ I) as H. rewrite Hev in H. destruct e; [by apply NoDup_cons in H as []|done..].
  - intros p Hp. apply (mi_new _ I). rewrite Hev. by right.
  - intros Hs c p Hp. unfold peer_held. cbn. destruct (mi_live _ I Hs c p Hp) as [|[H|]]; auto.
    rewrite Hev in H. inv H; [by destruct (He p)|auto].
  - intros Hs. destruct (mi_stop _ I Hs) as (_ & _ & H). congruence.
Qed.

(** The server finds the client of a peer that has gone. *)
Lemma gone_maps_inv p l l0 :
  maps_inv l0 -> lk_pc l0 = AtLoop -> lk_stop l0 = Serving ->
  lk_peers l = lk_peers l0 -> lk_types l = lk_types l0 -> lk_pc l = AtLoop -> lk_stop l = Serving ->
  NoDup (connected (lk_events l)) ->
  (forall q, PeerConnected q ∈ lk_events l -> PeerConnected q ∈ lk_events l0) ->
  (forall c q, q <> p -> peer_held l0 c q -> peer_held l c q) ->
  maps_inv (match clientIdForPeerLocked p l with Some c => set_pc (AtUnpublish c) l | None => l end).
Proof.
  intros I Hpc0 Hs0 Ep Et Hpc Hs Hnd Hconn Hheld.
  assert (forall c q, q <> p -> lk_peers l !! c = Some q -> peer_held l c q) as Hother.
  { intros c q Hq Hc. apply Hheld; [done|]. apply (mi_live _ I); [done|by rewrite <- Ep]. }
  destruct (clientIdForPeerLocked p l) as [c|] eqn:E.
  - apply clientIdForPeer_Some in E as [Hc Hp].
    split; cbn [set_pc lk_peers lk_types lk_events lk_pc lk_stop lk_running]; rewrite ?Ep, ?Et; try apply I; try done.
    + intros q Hq%Hconn. by apply (mi_new _ I).
    + intros _ c' q Hq. rewrite <- Ep in Hq. unfold peer_held. cbn. destruct (decide (q = p)) as [->|Hne].
      * right; right; left. f_equal. rewrite Ep in Hp, Hq. by apply (mi_inj _ I c c' p).
      * destruct (Hother c' q Hne Hq) as [|[|[H|H]]]; auto; rewrite Hpc in H; done.
  - assert (forall c, lk_peers l !! c <> Some p) as Hno.
    { intros c Hc. pose proof Hc as Hc'. rewrite Ep in Hc'. apply (mi_ids _ I) in Hc' as [Hlt _].
      by apply (clientIdForPeer_None p l c). }
    split; rewrite ?Ep, ?Et, ?Hpc, ?Hs; try apply I; try done.
    + intros q Hq%Hconn. by apply (mi_new _ I).
    + intros _ c q Hq. rewrite <- Ep in Hq. apply Hother; [|done]. intros ->. by apply (Hno c).
Qed.

Lemma server_event_maps_inv e es r l :
  maps_inv l -> lk_pc l = AtLoop -> lk_events l = e :: es -> maps_inv (server_event e r (set_events es l)).
Proof.
  intros I Hpc Hev.
  assert (lk_stop l = Serving) as Hs.
  { destruct (lk_stop l) eqn:E; [done|..]; destruct (mi_stop l I) as (_ & _ & ?); congruence. }
  assert (NoDup (connected es)) as Hnd.
  { pose proof (mi_connected _ I) as H. rewrite Hev in H. destruct e; [by apply NoDup_cons in H as []|done..]. }
  destruct e as [p|p|]; cbn [server_event].
  - assert (forall q, PeerConnected p <> PeerGone q) as Hne by done.
    pose proof (next_event_maps_inv _ _ _ I Hpc Hev Hne) as I'.
    destruct (mi_new _ I p) as [Hp Hfresh]; [rewrite Hev; by left|].
    assert (PeerConnected p ∉ es) as Hdup.
    { pose proof (mi_connected _ I) as H. rewrite Hev in H. apply NoDup_cons in H as [H _].
      by rewrite <- elem_of_connected. }
    destruct (admitPeer p (set_events es l)) as [c l'] eqn:E. apply admitPeer_spec in E.
    destruct c as [c|]; [destruct E as (Hc & Hfree & ->)|destruct E as [-> _]];
      split; cbn [set_pc set_maps set_events lk_peers lk_types lk_events lk_pc lk_stop lk_running] in *;
      try exact Hfresh; try apply I'.
    + intros c' q Hq. destruct (decide (c' = c)) as [->|]; simplify_map_eq; [done|by apply (mi_ids _ I)].
    + intros c1 c2 q H1 H2. destruct (decide (c1 = c)) as [->|], (decide (c2 = c)) as [->|]; simplify_map_eq;
        [done|by destruct (Hfresh c2)|by destruct (Hfresh c1)|by apply (mi_inj _ I c1 c2 q)].
    + intros t c' Ht. apply lookup_insert_is_Some'. right. by apply (mi_types _ I t).
    + intros q Hq. destruct (mi_new _ I' q Hq) as [Hi Hn]. split; [done|]. intros c' Hc'.
      destruct (decide (c' = c)) as [->|]; simplify_map_eq. by apply (Hn c').
    + by rewrite lookup_insert_eq.
    + intros _ c' q Hq. unfold peer_held. cbn. destruct (decide (c' = c)) as [->|]; simplify_map_eq; [auto|].
      destruct (mi_live _ I' Hs c' q Hq) as [|[|[H|H]]]; cbn in *; auto; congruence.
    + by rewrite Hs.
    + intros _ c' q Hq. unfold peer_held. cbn.
      destruct (mi_live _ I' Hs c' q Hq) as [|[|[H|H]]]; cbn in *; auto; congruence.
    + by rewrite Hs.
  - apply (gone_maps_inv p (set_events es l) l); cbn; try done.
    + intros q Hq. rewrite Hev. by right.
    + intros c q Hq. unfold peer_held. cbn. rewrite Hev. intros [|[H|]]; auto. inv H; auto.
  - assert (forall q, MessageReady <> PeerGone q) as Hne by done.
    pose proof (next_event_maps_inv _ _ _ I Hpc Hev Hne) as I'.
    destruct r as [|p| |p bytes]; try done.
    + apply (gone_maps_inv p (set_live (lk_live l ∖ {[p]}) (set_events es l)) (set_events es l)); try done.
      intros c q Hq. unfold peer_held. cbn. intros [|]; [left; set_solver|auto].
    + destruct (clientIdForPeerLocked p _) as [c|] eqn:E; [|done]. apply clientIdForPeer_Some in E as [Hc Hp].
      split; cbn [set_pc set_events lk_peers lk_types lk_events lk_pc lk_stop lk_running] in *; try apply I'; try done.
      intros _ c' q Hq. unfold peer_held. cbn.
        destruct (mi_live _ I' Hs c' q Hq) as [|[|[H|H]]]; cbn in *; auto; congruence.
Qed.

(** A step of the server that moves only its own position. *)
Lemma set_pc_maps_inv pc l :
  maps_inv l -> lk_pc l <> AtLoop ->
  match pc with
  | AtAssign p (Some c) | AtDispatch c p _ => lk_peers l !! c = Some p
  | AtAssign p None | AtReject p | AtDropPeer _ p => forall c, lk_peers l !! c <> Some p
  | _ => True
  end ->
  (forall c p, lk_peers l !! c = Some p -> peer_held l c p -> peer_held (set_pc pc l) c p) ->
  maps_inv (set_pc pc l).
Proof.
  intros I Hpc Hm Hh. split; cbn [set_pc lk_peers lk_types lk_events lk_pc lk_stop lk_running]; try apply I; try done.
  - intros Hs c p Hp. apply Hh; [done|]. by apply (mi_live _ I).
  - intros Hs. by destruct (mi_stop _ I Hs) as (_ & ? & _).
Qed.

Lemma drop_maps_inv p pc l :
  maps_inv l -> lk_pc l <> AtLoop -> (forall c, lk_peers l !! c <> Some p) ->
  (forall c, lk_pc l <> AtUnpublish c) -> (forall c q, lk_pc l <> AtAssign q (Some c)) ->
  pc = AtLoop \/ (exists c, pc = AtFailWaiter c) ->
  maps_inv (set_pc pc (set_live (lk_live l ∖ {[p]}) l)).
Proof.
  intros I Hpc Hn Hu Ha Hto.
  split; cbn [set_pc set_live lk_peers lk_types lk_events lk_pc lk_stop lk_running]; try apply I.
  - by destruct Hto as [->|[? ->]].
  - intros Hs c q Hq. unfold peer_held. cbn. destruct (mi_live _ I Hs c q Hq) as [|[|[H|H]]]; auto;
      [|by apply Hu in H|by apply Ha in H].
    left. assert (q <> p) by (intros ->; by apply (Hn c)). set_solver.
  - intros Hs. by destruct (mi_stop _ I Hs) as (_ & ? & _).
Qed.

Lemma unpublish_maps_inv c l : maps_inv l -> lk_pc l = AtUnpublish c -> maps_inv (unpublish c l).
Proof.
  intros I Hpc. unfold unpublish.
  assert (lk_stop l = Serving) as Hs.
  { destruct (lk_stop l) eqn:E; [done|..]; destruct (mi_stop l I) as (_ & ? & _); congruence. }
  destruct (MAX_PSD_CLIENTS <=? c)%nat eqn:Hc.
  { apply set_pc_maps_inv; [done|congruence|done|]. intros c' p Hp. unfold peer_held. cbn. rewrite Hpc.
    intros [|[|[[= ->]|?]]]; auto; [|congruence]. apply Nat.leb_le in Hc. apply (mi_ids _ I) in Hp as []. lia. }
  set (l' := set_maps (delete c (lk_peers l)) (filter (fun kv => kv.2 <> c) (lk_types l)) l).
  assert (forall pc, match pc with AtDropPeer _ p => lk_peers l !! c = Some p | AtFailWaiter _ => True | _ => False end ->
          maps_inv (set_pc pc l')) as Hgo.
  { intros pc Hp. split; cbn [l' set_pc set_maps lk_peers lk_types lk_events lk_pc lk_stop lk_running]; try apply I.
    - intros c' p [_ Hq]%lookup_delete_Some. by apply (mi_ids _ I).
    - intros c1 c2 p [_ H1]%lookup_delete_Some [_ H2]%lookup_delete_Some. by apply (mi_inj _ I c1 c2 p).
    - intros t c' [Ht Hne]%map_lookup_filter_Some. cbn in Hne. rewrite lookup_delete_ne by done.
      by apply (mi_types _ I t).
    - intros p Hq. destruct (mi_new _ I p Hq) as [Hi Hn]. split; [done|]. intros c' [_ H]%lookup_delete_Some. by apply (Hn c').
    - destruct pc as [|? []| | | | | |]; try done. intros c' [Hne H]%lookup_delete_Some. by apply Hne, (mi_inj _ I c c' p).
    - intros _ c' p [Hne Hq]%lookup_delete_Some. unfold peer_held. cbn. pose proof (mi_live _ I Hs c' p Hq) as H.
      unfold peer_held in H. rewrite Hpc in H. destruct H as [|[|[H|H]]]; auto; congruence.
    - by rewrite Hs. }
  destruct (lk_peers l !! c) as [p|] eqn:E; by apply Hgo.
Qed.

Lemma dispatch_maps_inv c p bytes l :
  maps_inv l -> lk_pc l = AtDispatch c p bytes -> maps_inv (dispatch c p bytes l).
Proof.
  intros I Hpc. pose proof (mi_pc _ I) as Hc. rewrite Hpc in Hc.
  assert (forall c' q, peer_held l c' q -> q ∈ lk_live l \/ PeerGone q ∈ lk_events l) as Hh.
  { unfold peer_held. rewrite Hpc. intros c' q [|[|[|]]]; auto; congruence. }
  assert (forall pc, match pc with AtLoop | AtAck _ _ | AtUnpublish _ => True | _ => False end -> maps_inv (set_pc pc l)) as Hgo.
  { intros pc Hp. apply set_pc_maps_inv; [done|congruence|by destruct pc as [|? []| | | | | |]|].
    intros c' q Hq [|]%Hh; unfold peer_held; auto. }
  unfold dispatch, handlePSDEventTypeRegistration, deliverResponse, with_mailbox. rewrite Hc.
  repeat case_match; try by apply Hgo.
  - apply (maps_inv_frame (set_pc AtLoop l)); try done. by apply Hgo.
  - specialize (Hgo (AtAck c p) Logic.I).
    split; cbn [set_pc set_maps lk_peers lk_types lk_events lk_pc lk_stop lk_running]; try apply Hgo.
    intros t c' [->|Ht]%registered_lookup; [by eexists|by apply (mi_types _ I t)].
Qed.

Lemma server_continue_maps_inv ok l l' :
  maps_inv l -> server_send_ok ok l -> server_continue ok l = Some l' -> maps_inv l'.
Proof.
  unfold server_send_ok, server_continue. intros I Hok H. pose proof (mi_pc _ I) as Hc.
  destruct (lk_pc l) as [|p [c|]|p|c p bytes|c p|c|c p|c] eqn:Hpc; simplify_eq.
  - destruct ok.
    + apply (maps_inv_frame (set_pc AtLoop l)); try done. apply set_pc_maps_inv; [done|congruence|done|].
      intros c' q Hq. unfold peer_held. cbn. rewrite Hpc. intros [|[|[|[= -> ->]]]]; auto.
      congruence.
    + apply set_pc_maps_inv; [done|congruence|done|].
      intros c' q Hq. unfold peer_held. cbn. rewrite Hpc. intros [|[|[|[= -> ->]]]]; auto; congruence.
  - assert (maps_inv (set_pc (AtReject p) l)) as H.
    { apply set_pc_maps_inv; [done|congruence|done|]. intros c' q Hq. unfold peer_held. cbn. rewrite Hpc.
      intros [|[|[|]]]; auto; congruence. }
    destruct ok; [|done]. by apply (maps_inv_frame (set_pc (AtReject p) l)).
  - apply drop_maps_inv; rewrite ?Hpc; auto.
  - by apply dispatch_maps_inv.
  - assert (maps_inv (set_pc AtLoop l)) as H.
    { apply set_pc_maps_inv; [done|congruence|done|]. intros c' q Hq. unfold peer_held. cbn. rewrite Hpc.
      intros [|[|[|]]]; auto; congruence. }
    destruct ok; [|done]. by apply (maps_inv_frame (set_pc AtLoop l)).
  - by apply unpublish_maps_inv.
  - apply drop_maps_inv; rewrite ?Hpc; eauto.
  - apply (maps_inv_frame (set_pc AtLoop l)); try done. apply set_pc_maps_inv; [done|congruence|done|].
    intros c' q Hq. unfold peer_held. cbn. rewrite Hpc. intros [|[|[|]]]; auto; congruence.
Qed.

Lemma step_maps_inv l s l' : maps_inv l -> link_step l s l' -> maps_inv l'.
Proof.
  intros I H. destruct H.
  - by apply poll_maps_inv.
  - by apply server_event_maps_inv.
  - by eapply server_continue_maps_inv.
  - by apply (maps_inv_frame l).
  - unfold arm_call. case_match; by apply (maps_inv_frame l).
  - unfold transmit. case_match; by apply (maps_inv_frame l).
  - by apply (maps_inv_frame l).
  - by apply (maps_inv_frame l).
  - split; try apply I. intros Hs. by destruct (mi_stop _ I Hs) as (_ & ? & ?).
  - split; try apply I; try done.
  - split; try apply I; try done. intros _. destruct (mi_stop _ I) as (_ & ? & ?); [by rewrite H|done].
  - split; cbn; try done; try apply I.
    + destruct (mi_stop _ I) as (_ & _ & ->); [by rewrite H|]. intros p Hp. by apply elem_of_nil in Hp.
    + destruct (mi_stop _ I) as (_ & -> & _); [by rewrite H|done].
Qed.

Lemma reachable_maps_inv l : reachable_link l -> maps_inv l.
Proof.
  induction 1 as [|l s l' _ IH Hs]; [|by eapply step_maps_inv].
  split; cbn; try done; [apply NoDup_nil_2|intros p Hp; by apply elem_of_nil in Hp].
Qed.

(** ** Mailboxes and the calls that own them *)

Lemma mailbox_at_lookup c l : (c < length (lk_mailbox l))%nat -> lk_mailbox l !! c = Some (mailbox_at c l).
Proof. intros [mb Hmb]%lookup_lt_is_Some. unfold mailbox_at. by rewrite nth_lookup, Hmb. Qed.

Lemma mailbox_at_same c f l :
  (c < length (lk_mailbox l))%nat -> mailbox_at c (with_mailbox c f l) = f (mailbox_at c l).
Proof.
  intros H. unfold mailbox_at at 1. cbn [with_mailbox set_mailboxes lk_mailbox].
  rewrite nth_lookup, list_lookup_alter_eq, mailbox_at_lookup by done. done.
Qed.

Lemma mailbox_at_other c c' f l : c <> c' -> mailbox_at c (with_mailbox c' f l) = mailbox_at c l.
Proof.
  intros H. unfold mailbox_at. cbn [with_mailbox set_mailboxes lk_mailbox]. by rewrite !nth_lookup, list_lookup_alter_ne.
Qed.

(** The request and the client of a call whose mailbox is armed for it. *)
Definition in_flight (x : Call) : option (DecisionRequest * nat) :=
  match x with Armed r c _ | Sent r c _ | Closing r c _ => Some (r, c) | _ => None end.

Definition flight (l : Link) (k : nat) : option (DecisionRequest * nat) := lk_calls l !! k ≫= in_flight.

Definition answer_ok (mb : ResponseMailbox) : Prop :=
  mb_have mb = true -> rsp_decisionId (mb_response mb) = mb_requestId mb.

Record box_inv (l : Link) : Prop := {
  bi_length : length (lk_mailbox l) = MAX_PSD_CLIENTS;
  bi_resolved : forall k r c p, lk_calls l !! k = Some (Resolved r c p) -> (c < MAX_PSD_CLIENTS)%nat;
  bi_owner : forall k r c, flight l k = Some (r, c) ->
    (c < MAX_PSD_CLIENTS)%nat /\ mb_armed (mailbox_at c l) = true /\ mb_requestId (mailbox_at c l) = dr_requestId r;
  bi_alone : forall k1 k2 r1 r2 c, flight l k1 = Some (r1, c) -> flight l k2 = Some (r2, c) -> k1 = k2;
  bi_armed : forall c, mb_armed (mailbox_at c l) = true -> exists k r, flight l k = Some (r, c);
  bi_answer : forall c, answer_ok (mailbox_at c l);
}.

(** What the server does to a mailbox. *)
Definition tended (mb mb' : ResponseMailbox) : Prop :=
  mb_armed mb' = mb_armed mb /\ mb_requestId mb' = mb_requestId mb /\ (answer_ok mb -> answer_ok mb').

Lemma tended_refl mb : tended mb mb.
Proof. done. Qed.

Lemma deliver_tended p rsp mb : tended mb (deliver p rsp mb).
Proof. unfold deliver, tended, answer_ok. case_match; bool_prop; by cbn. Qed.

Lemma lose_tended (b : bool) mb : tended mb (if b then lose mb else mb).
Proof. by destruct b. Qed.

Lemma with_mailbox_tended c f l c' :
  (forall mb, tended mb (f mb)) -> tended (mailbox_at c' l) (mailbox_at c' (with_mailbox c f l)).
Proof.
  intros Hf. destruct (decide (c' = c)) as [->|]; [|by rewrite mailbox_at_other].
  destruct (decide (c < length (lk_mailbox l))%nat); [by rewrite mailbox_at_same|].
  unfold mailbox_at. cbn [with_mailbox set_mailboxes lk_mailbox]. rewrite !nth_overflow; [done|..];
    rewrite ?length_alter; lia.
Qed.

(** Steps that arm and disarm nothing, for the same calls in flight. *)
Lemma box_inv_tended l l' :
  box_inv l -> length (lk_mailbox l') = length (lk_mailbox l) ->
  (forall k r c p, lk_calls l' !! k = Some (Resolved r c p) -> (c < MAX_PSD_CLIENTS)%nat) ->
  (forall k, flight l' k = flight l k) -> (forall c, tended (mailbox_at c l) (mailbox_at c l')) -> box_inv l'.
Proof.
  intros I Hl Hr Hf Ht. split; [by rewrite Hl; apply I|done|..].
  - intros k r c H. rewrite Hf in H. destruct (Ht c) as (-> & -> & _). by apply (bi_owner _ I k).
  - intros k1 k2 r1 r2 c. rewrite !Hf. apply (bi_alone _ I).
  - intros c. destruct (Ht c) as (-> & _ & _). intros (k & r & H)%(bi_armed _ I). exists k, r. by rewrite Hf.
  - intros c. destruct (Ht c) as (_ & _ & H). apply H, I.
Qed.

Lemma flight_set_call k x l k' :
  flight (set_call k x l) k' = if decide (k' = k) then in_flight x else flight l k'.
Proof. unfold flight. cbn. case_decide; subst; by simplify_map_eq. Qed.

(** A call moves on without taking or leaving its mailbox. *)
Lemma set_call_box_inv k x l :
  box_inv l -> flight l k = in_flight x ->
  (forall r c p, x = Resolved r c p -> (c < MAX_PSD_CLIENTS)%nat) -> box_inv (set_call k x l).
Proof.
  intros I Hk Hx. apply (box_inv_tended l); try done.
  - intros k' r c p H. cbn in H. destruct (decide (k' = k)) as [->|]; simplify_map_eq; [by eapply Hx|].
    by eapply (bi_resolved _ I).
  - intros k'. rewrite flight_set_call. case_decide; by subst.
Qed.

Lemma arm_box_inv k r c p l :
  box_inv l -> lk_calls l !! k = Some (Resolved r c p) -> box_inv (arm_call k r c p l).
Proof.
  intros I Hk. pose proof (bi_resolved _ I _ _ _ _ Hk) as Hc. unfold arm_call.
  assert (flight l k = None) as Hf by (unfold flight; by rewrite Hk).
  destruct (mb_armed (mailbox_at c l)) eqn:E; [by apply set_call_box_inv|].
  assert (c < length (lk_mailbox l))%nat as Hcl by (by rewrite (bi_length _ I)).
  set (l' := set_call k (Armed r c p) (with_mailbox c (arm r) l)).
  assert (forall c', mailbox_at c' l' = if decide (c' = c) then arm r (mailbox_at c l) else mailbox_at c' l) as Hm.
  { intros c'. change (mailbox_at c' l') with (mailbox_at c' (with_mailbox c (arm r) l)).
    case_decide; subst; [by rewrite mailbox_at_same|by rewrite mailbox_at_other]. }
  assert (forall k', flight l' k' = if decide (k' = k) then Some (r, c) else flight l k') as Hf'.
  { intros k'. unfold l'. rewrite flight_set_call. by case_decide. }
  assert (forall k' r', flight l k' <> Some (r', c)) as Hno.
  { intros k' r' H. destruct (bi_owner _ I _ _ _ H) as (_ & H' & _). congruence. }
  split.
  - cbn. rewrite length_alter. apply I.
  - intros k' r' c' p' H. cbn in H. destruct (decide (k' = k)) as [->|]; simplify_map_eq. by eapply (bi_resolved _ I).
  - intros k' r' c'. rewrite Hf', Hm. intros H. case_decide; simplify_eq; [by rewrite decide_True|].
    case_decide; subst; [by destruct (Hno k' r')|by apply (bi_owner _ I k')].
  - intros k1 k2 r1 r2 c'. rewrite !Hf'. intros H1 H2. repeat case_decide; simplify_eq; try done;
      first [by eapply (bi_alone _ I)|by edestruct Hno].
  - intros c'. rewrite Hm. case_decide; subst; [intros _; exists k, r; by rewrite Hf', decide_True|].
    intros (k' & r' & Hk')%(bi_armed _ I). exists k', r'. rewrite Hf', decide_False; [done|]. intros ->. congruence.
  - intros c'. rewrite Hm. case_decide; [done|apply I].
Qed.

Lemma disarm_box_inv k r c o l :
  box_inv l -> lk_calls l !! k = Some (Closing r c o) -> box_inv (set_call k (Done r o) (with_mailbox c disarm l)).
Proof.
  intros I Hk. assert (flight l k = Some (r, c)) as Hf by (unfold flight; by rewrite Hk).
  destruct (bi_owner _ I _ _ _ Hf) as (Hc & _ & _).
  assert (c < length (lk_mailbox l))%nat as Hcl by (by rewrite (bi_length _ I)).
  set (l' := set_call k (Done r o) (with_mailbox c disarm l)).
  assert (forall c', mailbox_at c' l' = if decide (c' = c) then disarm (mailbox_at c l) else mailbox_at c' l) as Hm.
  { intros c'. change (mailbox_at c' l') with (mailbox_at c' (with_mailbox c disarm l)).
    case_decide; subst; [by rewrite mailbox_at_same|by rewrite mailbox_at_other]. }
  assert (forall k', flight l' k' = if decide (k' = k) then None else flight l k') as Hf'.
  { intros k'. unfold l'. rewrite flight_set_call. by case_decide. }
  split.
  - cbn. rewrite length_alter. apply I.
  - intros k' r' c' p' H. cbn in H. destruct (decide (k' = k)) as [->|]; simplify_map_eq. by eapply (bi_resolved _ I).
  - intros k' r' c'. rewrite Hf', Hm. intros H. repeat case_decide; simplify_eq; [|by apply (bi_owner _ I k')].
    by destruct (bi_alone _ I k' k r' r c).
  - intros k1 k2 r1 r2 c'. rewrite !Hf'. intros H1 H2. repeat case_decide; simplify_eq. by eapply (bi_alone _ I).
  - intros c'. rewrite Hm. case_decide; [done|]. intros (k' & r' & Hk')%(bi_armed _ I). exists k', r'.
    rewrite Hf', decide_False; [done|]. intros ->. congruence.
  - intros c'. rewrite Hm. case_decide; [|apply I]. intros Hh. by apply (bi_answer _ I c).
Qed.

(** What a step of the server leaves of the mailboxes and the calls. *)
Lemma server_tended ok l l' :
  server_continue ok l = Some l' ->
  lk_calls l' = lk_calls l /\ length (lk_mailbox l') = length (lk_mailbox l) /\
  forall c, tended (mailbox_at c l) (mailbox_at c l').
Proof.
  assert (forall c f, (forall mb, tended mb (f mb)) ->
    lk_calls (with_mailbox c f l) = lk_calls l /\ length (lk_mailbox (with_mailbox c f l)) = length (lk_mailbox l) /\
    forall c', tended (mailbox_at c' l) (mailbox_at c' (with_mailbox c f l))) as Hm.
  { intros c f Hf. repeat split; [cbn; by rewrite length_alter|by apply with_mailbox_tended..]. }
  unfold server_continue, dispatch, handlePSDEventTypeRegistration, unpublish. intros H.
  repeat (case_match; simplify_eq/=; try done).
  - apply Hm. apply deliver_tended.
  - apply Hm. intros mb. apply lose_tended.
Qed.

Lemma server_event_tended e r l :
  lk_calls (server_event e r l) = lk_calls l /\ lk_mailbox (server_event e r l) = lk_mailbox l.
Proof.
  unfold server_event. repeat case_match; try done.
  match goal with H : admitPeer _ _ = _ |- _ => apply admitPeer_spec in H end.
  case_match; destruct_and!; by subst.
Qed.

Lemma step_box_inv l s l' : maps_inv l -> box_inv l -> link_step l s l' -> box_inv l'.
Proof.
  intros M I H. destruct H as [batch l|e es r l|ok l l'|k rs r l Hk|k r c p l Hk|k ok r c p l Hk|k ex r c p l Hk
    |k r c o l Hk|l|l|l|l].
  - by apply (box_inv_tended l); try apply I.
  - destruct (server_event_tended e r (set_events es l)) as [Hc Hm]. cbn in Hc, Hm.
    apply (box_inv_tended l); [done|by rewrite Hm|rewrite Hc; apply I|unfold flight; by rewrite Hc|].
    intros c. unfold mailbox_at. by rewrite Hm.
  - destruct (server_tended ok l l') as (Hc & Hm & Ht); [done|].
    by apply (box_inv_tended l); [..|rewrite Hc; apply I|unfold flight; rewrite Hc|].
  - apply set_call_box_inv; [done|..].
    + unfold flight. rewrite Hk. by case_match; [case_match|].
    + intros r' c' p' Hx. case_match eqn:E; [|done]. case_match; simplify_eq. revert E. unfold resolve.
      intros E. repeat (case_match; simplify_eq). by apply Nat.leb_gt.
  - by apply (arm_box_inv k r c p).
  - unfold transmit. case_match; [apply (box_inv_tended (set_call k (Sent r c p) l)); try done|];
      try (apply set_call_box_inv; [done|unfold flight; by rewrite Hk|done]).
  - apply set_call_box_inv; [done|unfold flight; by rewrite Hk|done].
  - by apply (disarm_box_inv k r c o).
  - by apply (box_inv_tended l); try apply I.
  - apply (box_inv_tended l); [done|cbn; by rewrite length_map|apply I|done|].
    intros c. unfold mailbox_at. cbn. rewrite (nth_lookup (map _ _)), (nth_lookup (lk_mailbox l)), list_lookup_fmap.
    destruct (lk_mailbox l !! c); [cbn; apply lose_tended|done].
  - by apply (box_inv_tended l); try apply I.
  - by apply (box_inv_tended l); try apply I.
Qed.

Lemma reachable_box_inv l : reachable_link l -> box_inv l.
Proof.
  induction 1 as [|l s l' Hr IH Hs]; [|by eapply step_box_inv; [apply reachable_maps_inv|..]].
  assert (forall c, mailbox_at c started = free_mailbox) as Hm.
  { intros c. unfold mailbox_at. cbn [started lk_mailbox]. rewrite nth_lookup.
    destruct (replicate _ _ !! c) eqn:E; [|done]. by apply lookup_replicate in E as [-> _]. }
  split; try done; intros c; rewrite Hm; done.
Qed.

(** ** What a call knows of its target *)

(** Peer [p] is the one the maps name client [c], or the server has just taken it
    out and not yet dropped it. *)
Definition claims (l : Link) (c : nat) (p : Z) : Prop := lk_peers l !! c = Some p \/ lk_pc l = AtDropPeer c p.

Record target_inv (l : Link) : Prop := {
  ti_aim : forall k r c p,
    lk_calls l !! k = Some (Resolved r c p) \/ lk_calls l !! k = Some (Armed r c p) ->
    p ∈ lk_live l -> lk_stop l = Serving -> claims l c p;
  ti_sent : forall k r c p,
    lk_calls l !! k = Some (Sent r c p) -> lk_stop l = Serving ->
    mb_have (mailbox_at c l) = true \/ mb_peerLost (mailbox_at c l) = true \/ claims l c p \/ lk_pc l = AtFailWaiter c;
  ti_armed_from : forall k r c p,
    lk_calls l !! k = Some (Armed r c p) -> mb_have (mailbox_at c l) = true -> mb_peerLost (mailbox_at c l) = false ->
    mb_from (mailbox_at c l) = p \/ p ∉ lk_live l;
  ti_sent_from : forall k r c p,
    lk_calls l !! k = Some (Sent r c p) -> mb_have (mailbox_at c l) = true -> mb_peerLost (mailbox_at c l) = false ->
    mb_from (mailbox_at c l) = p;
}.

(** Steps of the server that touch no mailbox. *)
Lemma target_inv_frame l l' :
  target_inv l -> lk_calls l' = lk_calls l -> lk_mailbox l' = lk_mailbox l -> lk_stop l' = lk_stop l ->
  (forall k x p, lk_calls l !! k = Some x -> call_peer x = Some p -> p ∈ lk_live l' -> p ∈ lk_live l) ->
  (forall c p, p ∈ lk_live l' -> claims l c p -> claims l' c p) ->
  (forall c p, claims l c p \/ lk_pc l = AtFailWaiter c -> claims l' c p \/ lk_pc l' = AtFailWaiter c) ->
  target_inv l'.
Proof.
  intros I Hc Hm Hs Hl Ha Hw.
  assert (forall c, mailbox_at c l' = mailbox_at c l) as Hb by (intros; unfold mailbox_at; by rewrite Hm).
  split; intros k r c p; rewrite Hc, ?Hb, ?Hs.
  - intros H Hp Hst. apply Ha; [done|]. apply (ti_aim _ I k r); [done| |done].
    destruct H as [H|H]; by eapply Hl.
  - intros H Hst. destruct (ti_sent _ I _ _ _ _ H Hst) as [|[|H']]; auto.
  - intros H H1 H2. destruct (ti_armed_from _ I _ _ _ _ H H1 H2) as [|Hn]; [auto|right].
    intros Hp. apply Hn. by eapply Hl.
  - apply (ti_sent_from _ I).
Qed.

Lemma serving_at_work l : maps_inv l -> lk_pc l <> AtLoop \/ lk_events l <> [] -> lk_stop l = Serving.
Proof.
  intros I H. destruct (lk_stop l) eqn:E; [done|..]; destruct (mi_stop l I) as (_ & ? & ?);
    rewrite ?E; naive_solver.
Qed.

Lemma server_event_target_inv e es r l :
  maps_inv l -> target_inv l -> lk_pc l = AtLoop -> lk_events l = e :: es ->
  target_inv (server_event e r (set_events es l)).
Proof.
  intros M I Hpc Hev.
  assert (forall l', lk_peers l ⊆ lk_peers l' -> lk_calls l' = lk_calls l -> lk_mailbox l' = lk_mailbox l ->
    lk_stop l' = lk_stop l -> lk_live l' ⊆ lk_live l -> target_inv l') as Hgo.
  { intros l' Hp Hc Hm Hs Hlive. apply (target_inv_frame l); try done.
    - set_solver.
    - intros c p _ [H|H]; [left; by eapply lookup_weaken|congruence].
    - intros c p [[H|H]|H]; [left; left; by eapply lookup_weaken|congruence..]. }
  unfold server_event. destruct e as [p|p|]; [|repeat case_match; apply Hgo; cbn; try done; set_solver..].
  - destruct (admitPeer p (set_events es l)) as [c l'] eqn:E. apply admitPeer_spec in E.
    destruct c as [c|]; [destruct E as (_ & Hfree & ->)|destruct E as [-> _]]; apply Hgo; try done.
    cbn. by apply insert_subseteq.
Qed.

Lemma deliver_target_inv c p bytes l :
  maps_inv l -> target_inv l -> lk_pc l = AtDispatch c p bytes ->
  forall rsp, target_inv (set_pc AtLoop (deliverResponse c p rsp l)).
Proof.
  intros M I Hpc rsp. pose proof (mi_pc _ M) as Hp. rewrite Hpc in Hp.
  assert (lk_stop l = Serving) as Hs by (apply serving_at_work; [done|left; congruence]).
  set (l' := set_pc AtLoop (deliverResponse c p rsp l)).
  assert (forall c' q, claims l c' q -> lk_peers l !! c' = Some q) as Hcl.
  { intros c' q [|H]; [done|congruence]. }
  assert (forall c', mailbox_at c' l' = mailbox_at c' l \/
            c' = c /\ mb_have (mailbox_at c l) = false /\ mb_peerLost (mailbox_at c' l') = mb_peerLost (mailbox_at c l) /\
            mb_have (mailbox_at c' l') = true /\ mb_from (mailbox_at c' l') = p) as Hb.
  { intros c'. change (mailbox_at c' l') with (mailbox_at c' (with_mailbox c (deliver p rsp) l)).
    destruct (decide (c' = c)) as [->|]; [|left; by apply mailbox_at_other].
    destruct (decide (c < length (lk_mailbox l))%nat).
    - rewrite mailbox_at_same by done. unfold deliver. case_match; [right|by left]. bool_prop. done.
    - left. unfold mailbox_at. cbn [with_mailbox set_mailboxes lk_mailbox].
      rewrite !nth_overflow; [done|..]; rewrite ?length_alter; lia. }
  split; intros k r c' q; change (lk_calls l') with (lk_calls l); change (lk_live l') with (lk_live l).
  - intros H Hq _. left. by eapply Hcl, (ti_aim _ I).
  - intros H _. destruct (Hb c') as [->|(_ & _ & _ & -> & _)]; [|auto].
    destruct (ti_sent _ I _ _ _ _ H Hs) as [|[|[H'|H']]]; [auto..| |congruence]. right; right; left; left. by apply Hcl.
  - intros H. destruct (Hb c') as [->|(-> & Hno & -> & Hh & ->)]; [by apply (ti_armed_from _ I k r)|]. intros _ Hl.
    destruct (decide (q ∈ lk_live l)) as [Hq|]; [left|auto].
    enough (lk_peers l !! c = Some q) by congruence. apply Hcl, (ti_aim _ I k r); auto.
  - intros H. destruct (Hb c') as [->|(-> & Hno & -> & Hh & ->)]; [by apply (ti_sent_from _ I k r)|]. intros _ Hl.
    destruct (ti_sent _ I _ _ _ _ H Hs) as [|[|[H'%Hcl|]]]; congruence.
Qed.

Lemma failWaiter_target_inv c l :
  box_inv l -> target_inv l -> lk_pc l = AtFailWaiter c -> target_inv (set_pc AtLoop (failWaiter c l)).
Proof.
  intros B I Hpc. set (l' := set_pc AtLoop (failWaiter c l)).
  assert (forall c' q, claims l c' q -> claims l' c' q) as Hcl by (intros c' q [|]; [by left|congruence]).
  assert (forall c', mailbox_at c' l' = mailbox_at c' l \/ mb_peerLost (mailbox_at c' l') = true) as Hb.
  { intros c'. change (mailbox_at c' l') with (mailbox_at c' (failWaiter c l)). unfold failWaiter.
    destruct (decide (c' = c)) as [->|]; [|left; by apply mailbox_at_other].
    destruct (decide (c < length (lk_mailbox l))%nat).
    - rewrite mailbox_at_same by done. case_match; auto.
    - left. unfold mailbox_at. cbn [with_mailbox set_mailboxes lk_mailbox].
      rewrite !nth_overflow; [done|..]; rewrite ?length_alter; lia. }
  split; intros k r c' q; change (lk_calls l') with (lk_calls l); change (lk_live l') with (lk_live l);
    change (lk_stop l') with (lk_stop l).
  - intros H Hq Hs. by eapply Hcl, (ti_aim _ I).
  - intros H Hs. destruct (bi_owner _ B k r c') as (Hlt & Harm & _); [unfold flight; by rewrite H|].
    destruct (decide (c' = c)) as [->|Hne].
    + change (mailbox_at c l') with (mailbox_at c (failWaiter c l)). unfold failWaiter.
      rewrite mailbox_at_same by (by rewrite (bi_length _ B)). rewrite Harm.
      destruct (mb_have (mailbox_at c l)) eqn:E; cbn; auto.
    + destruct (Hb c') as [->|]; [|auto]. destruct (ti_sent _ I _ _ _ _ H Hs) as [|[|[|]]]; auto. congruence.
  - intros H Hh Hl. destruct (Hb c') as [E|]; [rewrite E in *|congruence]. by apply (ti_armed_from _ I k r).
  - intros H Hh Hl. destruct (Hb c') as [E|]; [rewrite E in *|congruence]. by apply (ti_sent_from _ I k r).
Qed.

Lemma unpublish_target_inv c l : maps_inv l -> target_inv l -> lk_pc l = AtUnpublish c -> target_inv (unpublish c l).
Proof.
  intros M I Hpc.
  assert (forall c' q, claims l c' q -> claims (unpublish c l) c' q) as Hcl.
  { intros c' q [H|]; [|congruence]. unfold unpublish, claims. case_match eqn:E; [by left|].
    destruct (decide (c' = c)) as [->|]; [rewrite H; by right|].
    destruct (lk_peers l !! c); left; cbn; by rewrite lookup_delete_ne. }
  apply (target_inv_frame l); try done; try (unfold unpublish; repeat case_match; done).
  - intros c' q _. apply Hcl.
  - intros c' q [H|]; [left; by apply Hcl|congruence].
Qed.

Lemma server_continue_target_inv ok l l' :
  maps_inv l -> box_inv l -> target_inv l -> server_continue ok l = Some l' -> target_inv l'.
Proof.
  intros M B I H. unfold server_continue in H.
  assert (forall l', (forall c p, lk_pc l <> AtDropPeer c p) -> (forall c, lk_pc l <> AtFailWaiter c) ->
    lk_peers l' = lk_peers l -> lk_calls l' = lk_calls l -> lk_mailbox l' = lk_mailbox l -> lk_stop l' = lk_stop l ->
    lk_live l' ⊆ lk_live l -> target_inv l') as Hgo.
  { intros l0 Hd Hf Hp Hc Hm Hs Hlive. apply (target_inv_frame l); try done; unfold claims; rewrite ?Hp.
    - set_solver.
    - intros c p _ [|Hx]; [by left|by apply Hd in Hx].
    - intros c p [[|Hx]|Hx]; [by left; left|by apply Hd in Hx|by apply Hf in Hx]. }
  destruct (lk_pc l) as [|p [c|]|p|c p bytes|c p|c|c p|c] eqn:Hpc; simplify_eq.
  - destruct ok; by apply Hgo; rewrite ?Hpc.
  - destruct ok; by apply Hgo; rewrite ?Hpc.
  - apply Hgo; rewrite ?Hpc; try done. cbn. set_solver.
  - unfold dispatch, handlePSDEventTypeRegistration. repeat case_match; try (by apply Hgo; rewrite ?Hpc).
    by apply (deliver_target_inv c p bytes).
  - destruct ok; by apply Hgo; rewrite ?Hpc.
  - by apply unpublish_target_inv.
  - apply (target_inv_frame l); try done; unfold claims; cbn.
    + set_solver.
    + intros c' q Hq [|Hx]; [by left|]. rewrite Hpc in Hx. simplify_eq. set_solver.
    + intros c' q [[|Hx]|Hx]; [by left; left| |congruence]. rewrite Hpc in Hx. simplify_eq. by right.
  - by apply failWaiter_target_inv.
Qed.

(** A call moves on and its mailbox is not touched. *)
Lemma set_call_target_inv k x l :
  target_inv l ->
  (forall r c p, x = Resolved r c p \/ x = Armed r c p -> p ∈ lk_live l -> lk_stop l = Serving -> claims l c p) ->
  (forall r c p, x = Armed r c p -> mb_have (mailbox_at c l) = false) ->
  (forall r c p, x = Sent r c p -> lk_calls l !! k = Some (Armed r c p) /\ p ∈ lk_live l) ->
  target_inv (set_call k x l).
Proof.
  intros I Haim Harm Hsent.
  assert (forall k' y, lk_calls (set_call k x l) !! k' = Some y -> k' = k /\ y = x \/ lk_calls l !! k' = Some y) as Hlk.
  { intros k' y H. cbn in H. destruct (decide (k' = k)) as [->|]; simplify_map_eq; auto. }
  split; intros k' r c p; change (mailbox_at c (set_call k x l)) with (mailbox_at c l).
  - intros [[[-> Hx]|H]%Hlk|[[-> Hx]|H]%Hlk] Hp Hs;
      first [by apply (Haim r); auto|by apply (ti_aim _ I k' r); auto].
  - intros [[-> Hx]|H]%Hlk Hs; [|by apply (ti_sent _ I k' r)].
    destruct (Hsent r c p) as [Hc Hp]; [done|]. right; right; left. eapply (ti_aim _ I); eauto.
  - intros [[-> Hx]|H]%Hlk Hh Hl; [|by apply (ti_armed_from _ I k' r)].
    by rewrite (Harm r c p) in Hh.
  - intros [[-> Hx]|H]%Hlk Hh Hl; [|by apply (ti_sent_from _ I k' r)].
    destruct (Hsent r c p) as [Hc Hp]; [done|]. by destruct (ti_armed_from _ I _ _ _ _ Hc Hh Hl).
Qed.

(** A mailbox changes under no call that waits, or without losing what it says. *)
Lemma mailbox_target_inv c f l :
  target_inv l ->
  (forall k r p, lk_calls l !! k = Some (Armed r c p) \/ lk_calls l !! k = Some (Sent r c p) -> False) ->
  target_inv (with_mailbox c f l).
Proof.
  intros I Hno. assert (forall c', c' <> c -> mailbox_at c' (with_mailbox c f l) = mailbox_at c' l) as Hb.
  { intros c' Hne. by apply mailbox_at_other. }
  split; intros k r c' p; try apply (ti_aim _ I);
    (destruct (decide (c' = c)) as [->|]; [intros H; destruct (Hno k r p); auto|rewrite Hb by done]).
  - apply (ti_sent _ I k r).
  - apply (ti_armed_from _ I k r).
  - apply (ti_sent_from _ I k r).
Qed.

Lemma release_target_inv l :
  box_inv l -> target_inv l -> target_inv (set_stop false Released (release_waiters l)).
Proof.
  intros B I. set (l' := set_stop false Released (release_waiters l)).
  assert (forall k r c, flight l k = Some (r, c) -> mb_peerLost (mailbox_at c l') = true) as Hlost.
  { intros k r c (Hlt & Harm & _)%(bi_owner _ B). unfold mailbox_at. cbn.
    rewrite nth_lookup, list_lookup_fmap, mailbox_at_lookup by (by rewrite (bi_length _ B)). cbn. by rewrite Harm. }
  split; try done; intros k r c p H _ Hl;
    (rewrite (Hlost k r c) in Hl; [done|]); change (flight l' k) with (flight l k); unfold flight;
    change (lk_calls l') with (lk_calls l) in H; by rewrite H.
Qed.

Lemma resolve_Some rs r l c p :
  resolve rs r l = Some (c, p) ->
  lk_types l !! first_type r = Some c /\ lk_peers l !! c = Some p /\ (c < MAX_PSD_CLIENTS)%nat /\
  validateDecisionRequest (Some r) = PSS_VALID.
Proof.
  unfold resolve. intros H. repeat (case_match; simplify_eq; try done). bool_prop. repeat split; try done.
  by apply Nat.leb_gt.
Qed.

Lemma step_target_inv l s l' : maps_inv l -> box_inv l -> target_inv l -> link_step l s l' -> target_inv l'.
Proof.
  intros M B I H. destruct H as [batch l Hr Hpc Hev Hb|e es r l|ok l l'|k rs r l Hk|k r c p l Hk|k ok r c p l Hk Hok
    |k ex r c p l Hk|k r c o l Hk|l|l|l Hst|l Hst].
  - apply (target_inv_frame l); try done. destruct Hb as (_ & _ & Hnew). rewrite Forall_forall in Hnew.
    intros k x p Hk Hx Hp. cbn in Hp. apply elem_of_union in Hp as [Hp|Hp]; [set_solver|].
    apply elem_of_list_to_set in Hp. destruct (Hnew p Hp) as (_ & _ & _ & Hc). by destruct (Hc k x Hk).
  - by apply server_event_target_inv.
  - by eapply server_continue_target_inv.
  - apply set_call_target_inv; try done; destruct (resolve rs r l) as [[c p]|] eqn:E; try (intros ???; naive_solver).
    intros r' c' p' [|] Hp Hs; simplify_eq. left. by apply resolve_Some in E as (_ & ? & _).
  - unfold arm_call. destruct (mb_armed (mailbox_at c l)) eqn:E; [apply set_call_target_inv; naive_solver|].
    pose proof (bi_resolved _ B _ _ _ _ Hk) as Hc. apply set_call_target_inv; try done.
    + apply mailbox_target_inv; [done|]. intros k' r' p' H'.
      destruct (bi_owner _ B k' r' c) as (_ & ? & _); [|congruence]. unfold flight. by destruct H' as [->| ->].
    + intros r' c' p' [|]; simplify_eq. intros Hp Hs. eapply (ti_aim _ I); eauto.
    + intros r' c' p' [= <- <- <-]. by rewrite mailbox_at_same by (by rewrite (bi_length _ B)).
  - unfold transmit. destruct ok.
    + assert (target_inv (set_call k (Sent r c p) l)) as T.
      { apply set_call_target_inv; naive_solver. }
      split; apply T.
    + apply set_call_target_inv; naive_solver.
  - apply set_call_target_inv; naive_solver.
  - apply set_call_target_inv; try naive_solver. apply mailbox_target_inv; [done|]. intros k' r' p' H'.
    assert (k' = k) as ->; [|rewrite Hk in H'; naive_solver].
    apply (bi_alone _ B k' k r' r c); unfold flight; [by destruct H' as [->| ->]|by rewrite Hk].
  - split; apply I.
  - by apply release_target_inv.
  - split; try done; [|apply I]. intros k r c p _ _ _. right. set_solver.
  - split; try done; try apply I; cbn; congruence.
Qed.

Lemma reachable_target_inv l : reachable_link l -> target_inv l.
Proof.
  induction 1 as [|l s l' Hr IH Hs]; [split; naive_solver|].
  eapply step_target_inv; [by apply reachable_maps_inv|by apply reachable_box_inv|done..].
Qed.

(** ** What a call reports of itself *)

(** The requests call [k] has put on the wire, with their receivers. *)
Definition requests_of (k : nat) (wire : list LinkMessage) : list (Z * DecisionRequest) :=
  omap (fun m => match m with RequestFor p k' r => if decide (k' = k) then Some (p, r) else None | _ => None end) wire.

(** The reported reason against what happened. *)
Definition outcome_true (k : nat) (r : DecisionRequest) (o : Outcome) (wire : list LinkMessage) : Prop :=
  match oc_reason o with
  | NONE =>
    oc_ok o = true /\ (exists p, requests_of k wire = [(p, r)]) /\
    exists rsp, oc_response o = Some rsp /\ rsp_decisionId rsp = dr_requestId r
  | RESPONSE_TIMEOUT => oc_ok o = false /\ oc_response o = None /\ exists p, requests_of k wire = [(p, r)]
  | PROCESS_DECISION_REQUEST_FAILED => oc_ok o = false /\ oc_response o = None /\ requests_of k wire = []
  end.

Definition call_true (k : nat) (x : option Call) (wire : list LinkMessage) : Prop :=
  match x with
  | None | Some (Resolved _ _ _) | Some (Armed _ _ _) => requests_of k wire = []
  | Some (Sent r _ p) => requests_of k wire = [(p, r)]
  | Some (Closing r _ o) | Some (Done r o) => outcome_true k r o wire
  end.

Definition wire_inv (l : Link) : Prop := forall k, call_true k (lk_calls l !! k) (lk_wire l).

Lemma requests_of_app k w1 w2 : requests_of k (w1 ++ w2) = requests_of k w1 ++ requests_of k w2.
Proof. apply omap_app. Qed.

(** The wire as the calls see it did not change. *)
Lemma wire_inv_same l l' :
  wire_inv l -> lk_calls l' = lk_calls l -> (forall k, requests_of k (lk_wire l') = requests_of k (lk_wire l)) ->
  wire_inv l'.
Proof.
  intros I Hc Hw k. specialize (I k). rewrite Hc. unfold call_true, outcome_true in *. by rewrite Hw.
Qed.

Lemma wire_inv_set_call k x l : wire_inv l -> call_true k (Some x) (lk_wire l) -> wire_inv (set_call k x l).
Proof. intros I Hx k'. cbn. destruct (decide (k' = k)) as [->|]; simplify_map_eq; [done|apply I]. Qed.

Lemma server_wire ok l l' k : server_continue ok l = Some l' -> requests_of k (lk_wire l') = requests_of k (lk_wire l).
Proof.
  unfold server_continue, dispatch, handlePSDEventTypeRegistration, unpublish. intros H.
  repeat (case_match; simplify_eq; cbn [put_wire set_pc set_live set_maps lk_wire]);
    rewrite ?requests_of_app; cbn; by rewrite ?app_nil_r.
Qed.

Lemma server_event_wire e r l : lk_wire (server_event e r l) = lk_wire l.
Proof.
  unfold server_event. repeat case_match; try done.
  match goal with H : admitPeer _ _ = _ |- _ => apply admitPeer_spec in H end.
  case_match; destruct_and!; by subst.
Qed.

Lemma wait_result_true k r c p b l :
  box_inv l -> lk_calls l !! k = Some (Sent r c p) -> requests_of k (lk_wire l) = [(p, r)] ->
  outcome_true k r (wait_result r b (mailbox_at c l)) (lk_wire l).
Proof.
  intros B Hk Hw. unfold wait_result. case_match; cbn; [eauto|]. bool_prop.
  split; [done|]. split; [eauto|]. eexists. split; [done|]. by rewrite (bi_answer _ B c).
Qed.

Lemma step_wire_inv l s l' : box_inv l -> wire_inv l -> link_step l s l' -> wire_inv l'.
Proof.
  intros B I H. destruct H as [batch l|e es r l|ok l l' Ho Hc|k rs r l Hk|k r c p l Hk|k ok r c p l Hk
    |k ex r c p l Hk|k r c o l Hk|l|l|l|l]; try (by apply (wire_inv_same l)).
  - destruct (server_event_tended e r (set_events es l)) as [Hc _].
    apply (wire_inv_same l); [done|by rewrite Hc|]. intros k. by rewrite server_event_wire.
  - apply (wire_inv_same l); [done|by apply (server_tended ok l l')|]. intros k. by apply (server_wire ok).
  - pose proof (I k) as Hi. rewrite Hk in Hi. apply wire_inv_set_call; [done|]. by repeat case_match.
  - pose proof (I k) as Hi. rewrite Hk in Hi. unfold arm_call. case_match; by apply wire_inv_set_call.
  - pose proof (I k) as Hi. rewrite Hk in Hi. unfold transmit. case_match; [|by apply wire_inv_set_call].
    intros k'. cbn [put_wire set_call lk_calls lk_wire]. destruct (decide (k' = k)) as [->|Hne].
    + rewrite lookup_insert_eq. cbn [call_true]. rewrite requests_of_app. cbn in Hi. rewrite Hi. cbn. by rewrite decide_True.
    + rewrite lookup_insert_ne by done. specialize (I k'). unfold call_true, outcome_true in *.
      by rewrite requests_of_app; cbn; rewrite decide_False, app_nil_r by done.
  - pose proof (I k) as Hi. rewrite Hk in Hi. apply wire_inv_set_call; [done|].
    by apply (wait_result_true k r c p).
  - pose proof (I k) as Hi. rewrite Hk in Hi. by apply wire_inv_set_call.
Qed.

Lemma reachable_wire_inv l : reachable_link l -> wire_inv l.
Proof.
  induction 1 as [|l s l' Hr IH Hs]; [done|]. by eapply step_wire_inv; [apply reachable_box_inv|..].
Qed.

(** ** Properties *)

(** C13. The outcome a call returns is the truth: NONE means that its own request
    went out once and that the response it hands back bears the id of that request;
    RESPONSE_TIMEOUT, that the request went out once and no answer is handed back;
    PROCESS_DECISION_REQUEST_FAILED, that nothing of it went out.  This holds under
    every interleaving of callers, clients that come, go and register, and a
    shutdown. *)
Theorem call_outcome_exact l k r o :
  reachable_link l -> lk_calls l !! k = Some (Done r o) -> outcome_true k r o (lk_wire l).
Proof. intros Hl Hk. pose proof (reachable_wire_inv l Hl k) as H. by rewrite Hk in H. Qed.

(** C32. A waiting caller is never left alone: whenever the server is back at its
    poll, the wait of every call that has sent its request is over at once, or its
    client is still connected on the very peer the request was sent to.  A client
    that goes away between any two steps of the caller is noticed. *)
Theorem waiter_not_stranded l k r c p :
  reachable_link l -> lk_stop l = Serving -> lk_pc l = AtLoop -> lk_events l = [] ->
  lk_calls l !! k = Some (Sent r c p) ->
  wait_over r (mailbox_at c l) = true \/ lk_peers l !! c = Some p /\ p ∈ lk_live l.
Proof.
  intros Hl Hs Hpc Hev Hk. pose proof (reachable_maps_inv _ Hl) as M. pose proof (reachable_box_inv _ Hl) as B.
  destruct (bi_owner _ B k r c) as (_ & _ & Hid); [unfold flight; by rewrite Hk|].
  unfold wait_over. rewrite Hid, Z.eqb_refl, andb_true_r.
  destruct (ti_sent _ (reachable_target_inv _ Hl) _ _ _ _ Hk Hs) as [->|[->|[[Hp|]|]]]; [auto|left; by rewrite orb_true_r| |congruence..].
  right. split; [done|]. destruct (mi_live _ M Hs c p Hp) as [|[H|[H|H]]]; [done|rewrite Hev in H; by inv H|congruence..].
Qed.

(** A call whose client was not lost meanwhile takes its answer from the peer
    it sent the request to, and two calls never wait on one mailbox. *)
Theorem answer_from_target l k r c p :
  reachable_link l -> lk_calls l !! k = Some (Sent r c p) -> mb_peerLost (mailbox_at c l) = false ->
  (forall o, wait_result r (wait_over r (mailbox_at c l)) (mailbox_at c l) = o -> oc_ok o = true ->
     mb_from (mailbox_at c l) = p /\ exists rsp, o = answered rsp /\ rsp_decisionId rsp = dr_requestId r) /\
  forall k' r' p', lk_calls l !! k' = Some (Sent r' c p') -> k' = k.
Proof.
  intros Hl Hk Hlost. pose proof (reachable_box_inv _ Hl) as B. split.
  - intros o <-. unfold wait_result. case_match; [done|]. bool_prop. intros _.
    split; [by apply (ti_sent_from _ (reachable_target_inv _ Hl) k r)|]. eexists. split; [done|].
    by rewrite (bi_answer _ B c).
  - intros k' r' p' Hk'. apply (bi_alone _ B k' k r' r c); unfold flight; [by rewrite Hk'|by rewrite Hk].
Qed.

(** The steps call [k] makes itself. *)
Definition own_step (k : nat) (s : LinkStep) : bool :=
  match s with
  | SCall k' _ _ | SArm k' | STransmit k' _ | SWait k' _ | SDisarm k' => bool_decide (k' = k)
  | _ => false
  end.

Definition call_rank (x : Call) : nat :=
  match x with Resolved _ _ _ => 4 | Armed _ _ _ => 3 | Sent _ _ _ => 2 | Closing _ _ _ => 1 | Done _ _ => 0 end.

Lemma other_step_keeps_call l s l' k : link_step l s l' -> own_step k s = false -> lk_calls l' !! k = lk_calls l !! k.
Proof.
  assert (forall k' x l, bool_decide (k' = k) = false -> lk_calls (set_call k' x l) !! k = lk_calls l !! k) as Hs.
  { intros k' x l0 Hn%bool_decide_eq_false. cbn. by rewrite lookup_insert_ne. }
  intros H Ho. destruct H as [| |ok l l' _ Hc| | |? [] | | | | | |]; cbn in Ho; try done;
    unfold begin_call, end_wait, arm_call, transmit; try (by rewrite Hs).
  - by destruct (server_event_tended e r (set_events es l)) as [-> _].
  - by destruct (server_tended ok l l' Hc) as [-> _].
  - case_match; by rewrite Hs.
  - by apply (Hs k0 (Sent request c p) l).
Qed.

Lemma own_step_advances l s l' k x :
  link_step l s l' -> own_step k s = true -> lk_calls l !! k = Some x ->
  exists x', lk_calls l' !! k = Some x' /\ (call_rank x' < call_rank x)%nat.
Proof.
  intros H Ho Hx. destruct H as [| | | |? ? ? ? ? Hk|? [] ? ? ? ? Hk|? ? ? ? ? ? Hk|? ? ? ? ? Hk| | | |]; cbn in Ho; try done;
    apply bool_decide_eq_true in Ho; subst; simplify_eq;
    first [unfold arm_call; case_match|idtac]; cbn; rewrite lookup_insert_eq; eexists; (split; [done|cbn; lia]).
Qed.

Lemma call_has_step l k x :
  lk_calls l !! k = Some x -> call_rank x <> 0%nat -> exists s l', own_step k s = true /\ link_step l s l'.
Proof.
  intros Hk Hr. destruct x as [r c p|r c p|r c p|r c o|r o]; [..|done].
  - exists (SArm k). eexists. split; [by apply bool_decide_eq_true|by eapply link_arm].
  - exists (STransmit k false). eexists. split; [by apply bool_decide_eq_true|by eapply link_transmit].
  - exists (SWait k true). eexists. split; [by apply bool_decide_eq_true|by eapply link_wait; [|left]].
  - exists (SDisarm k). eexists. split; [by apply bool_decide_eq_true|by eapply link_disarm].
Qed.

(** C33. A call returns after at most four more steps of its own, whatever the other
    threads do in between: they leave its position alone, it always has a step to
    make (the deadline ends the wait), and each one brings it nearer to the end.
    When every call has returned no mailbox is left armed, so the next call to any
    client is not refused as already in flight. *)
Theorem call_returns l :
  reachable_link l ->
  (forall k x, lk_calls l !! k = Some x -> (call_rank x <= 4)%nat /\
     (call_rank x <> 0%nat -> exists s l', own_step k s = true /\ link_step l s l') /\
     forall s l', link_step l s l' ->
       exists x', lk_calls l' !! k = Some x' /\
         if own_step k s then (call_rank x' < call_rank x)%nat else x' = x) /\
  ((forall k x, lk_calls l !! k = Some x -> call_rank x = 0%nat) -> forall c, mb_armed (mailbox_at c l) = false).
Proof.
  intros Hl. split.
  - intros k x Hk. split; [destruct x; cbn; lia|]. split; [by apply call_has_step|]. intros s l' Hs.
    destruct (own_step k s) eqn:E; [by eapply own_step_advances|]. exists x.
    by rewrite (other_step_keeps_call _ _ _ _ Hs E).
  - intros Hdone c. apply not_true_is_false. intros (k & r & Hf)%(bi_armed _ (reachable_box_inv _ Hl)).
    unfold flight in Hf. destruct (lk_calls l !! k) as [x|] eqn:E; [|done]. apply Hdone in E. by destruct x.
Qed.

(** The refusals a caller can meet before its mailbox: the maps never name a client
    that is not connected or out of range. *)
Lemma resolve_refusals l rs r :
  reachable_link l -> resolve rs r l = None <->
  rs = false \/ dr_sensorDataSummarySize r = 0 \/ lk_types l !! first_type r = None \/
  validateDecisionRequest (Some r) <> PSS_VALID.
Proof.
  intros M%reachable_maps_inv. unfold resolve. destruct rs; cbn [negb]; [|naive_solver].
  destruct (dr_sensorDataSummarySize r =? 0) eqn:E; [apply Z.eqb_eq in E; naive_solver|]. apply Z.eqb_neq in E.
  destruct (lk_types l !! first_type r) as [c|] eqn:Et; [|naive_solver].
  destruct (mi_types _ M _ _ Et) as [p Hp]. rewrite Hp. destruct (mi_ids _ M _ _ Hp) as [Hc Hv].
  apply Z.eqb_neq in Hv. rewrite Hv. replace (MAX_PSD_CLIENTS <=? c)%nat with false by (symmetry; by apply Nat.leb_gt).
  destruct (validateDecisionRequest (Some r) =? PSS_VALID) eqn:Ev; cbn; [apply Z.eqb_eq in Ev|apply Z.eqb_neq in Ev];
    naive_solver.
Qed.

(** ** Runs *)

Definition registration_bytes (types : list Z) : list Z :=
  le_bytes 4 REGISTER_EVENT_TYPES ++ le_bytes 4 0 ++ le_bytes 4 (Z.of_nat (length types)) ++
  concat (map (le_bytes 4) (types ++ replicate (kMaxEventSlots - length types) 0)).

Definition response_bytes (id : Z) : list Z := le_bytes 4 id ++ le_bytes 4 0 ++ le_bytes 4 f32_one.

Definition stamped_request (id : Z) : DecisionRequest := pssDecisionRequestSetCRC (sample_request id).

Definition connects (p : Z) : list LinkStep := [SPoll [PeerConnected p]; SEvent RecvWouldBlock; SServer true].
Definition says (p : Z) (bytes : list Z) : list LinkStep := [SPoll [MessageReady]; SEvent (RecvOk p bytes); SServer true].
Definition registers (p : Z) (types : list Z) : list LinkStep := says p (registration_bytes types) ++ [SServer true].
Definition leaves (p : Z) : list LinkStep :=
  [SPoll [PeerGone p]; SEvent RecvWouldBlock; SServer true; SServer true; SServer true].

Definition sample_type : Z := first_type (sample_request 7).

(** One client, one request, its answer. *)
Definition answered_run : list LinkStep :=
  connects 1 ++ registers 1 [sample_type] ++ [SCall 0 true (stamped_request 7); SArm 0; STransmit 0 true] ++
  says 1 (response_bytes 7).

Definition link_after (ss : list LinkStep) : Link := default started (exec_all ss started).

Lemma link_after_reachable ss : exec_all ss started <> None -> reachable_link (link_after ss).
Proof.
  intros H. unfold link_after. destruct (exec_all ss started) as [l|] eqn:E; [|done].
  eapply exec_all_reachable; [apply reachable_started|done].
Qed.

(** The client goes away while its caller waits; the next client gets its id and
    answers with the id of the outstanding request before the caller runs. *)
Definition recycled_run : list LinkStep :=
  connects 1 ++ registers 1 [sample_type] ++ [SCall 0 true (stamped_request 7); SArm 0; STransmit 0 true] ++
  leaves 1 ++ connects 2 ++ says 2 (response_bytes 7) ++ [SWait 0 false; SDisarm 0].

(** The other side of [answer_from_target]: after the loss of its client a
    waiting call still accepts an answer, and from whoever has been given the id
    since.  The request went to peer 1 only; the call returns success with what
    peer 2 sent. *)
Theorem recycled_client_answers :
  let l := link_after recycled_run in
  reachable_link l /\ requests_of 0 (lk_wire l) = [(1, stamped_request 7)] /\
  lk_calls l !! 0%nat = Some (Done (stamped_request 7) (answered (dec_DecisionResponse (response_bytes 7)))) /\
  mb_peerLost (mailbox_at 0 l) = true /\ mb_from (mailbox_at 0 l) = 2.
Proof.
  split; [|by vm_compute]. apply link_after_reachable. by vm_compute.
Qed.

(** A second client that registers a type takes it over; when it leaves, the type
    has no client although the first one is still connected. *)
Lemma takeover_unroutes_type :
  let l := link_after (connects 1 ++ registers 1 [sample_type] ++ connects 2 ++ registers 2 [sample_type] ++ leaves 2) in
  reachable_link l /\ lk_peers l !! 0%nat = Some 1 /\ 1 ∈ lk_live l /\ resolve true (stamped_request 7) l = None.
Proof.
  split; [apply link_after_reachable; by vm_compute|]. split; [by vm_compute|]. split; [|by vm_compute].
  apply (bool_decide_unpack _). by vm_compute.
Qed.

Lemma call_outcome_exact_witness :
  let l := link_after (answered_run ++ [SWait 0 false; SDisarm 0]) in
  outcome_true 0 (stamped_request 7) (answered (dec_DecisionResponse (response_bytes 7))) (lk_wire l).
Proof.
  apply call_outcome_exact; [apply link_after_reachable; by vm_compute|by vm_compute].
Defined.

Lemma waiter_not_stranded_witness :
  let l := link_after (connects 1 ++ registers 1 [sample_type] ++
             [SCall 0 true (stamped_request 7); SArm 0; STransmit 0 true] ++ leaves 1) in
  wait_over (stamped_request 7) (mailbox_at 0 l) = true \/ lk_peers l !! 0%nat = Some 1 /\ 1 ∈ lk_live l.
Proof.
  apply (waiter_not_stranded _ 0); [apply link_after_reachable|..]; by vm_compute.
Defined.

Lemma answer_from_target_witness :
  let l := link_after answered_run in
  mb_from (mailbox_at 0 l) = 1 /\
  exists rsp, answered (dec_DecisionResponse (response_bytes 7)) = answered rsp /\ rsp_decisionId rsp = 7.
Proof.
  apply (answer_from_target (link_after answered_run) 0 (stamped_request 7) 0 1);
    [apply link_after_reachable|..]; by vm_compute.
Defined.

Lemma call_returns_witness :
  (forall k x, lk_calls (link_after (answered_run ++ [SWait 0 false; SDisarm 0])) !! k = Some x -> call_rank x = 0%nat) /\
  forall c, mb_armed (mailbox_at c (link_after (answered_run ++ [SWait 0 false; SDisarm 0]))) = false.
Proof.
  assert (map_Forall (fun _ x => call_rank x = 0%nat)
    (lk_calls (link_after (answered_run ++ [SWait 0 false; SDisarm 0])))) as H.
  { apply (bool_decide_unpack _). by vm_compute. }
  split; [exact H|]. apply call_returns; [apply link_after_reachable; by vm_compute|exact H].
Defined.
