(* ===== verification/Threads.v ===== *)
(** * Programs of several threads over one shared state

    The decision makers run their handlers on several threads that share static
    variables, guarded by mutexes and atomics.  A thread's code is a tree of
    atomic actions: [Act f k] performs [f] on the shared state in one step and
    goes on with [k]; [f] answers [None] while it is blocked (a mutex another
    thread owns).  A pool interleaves the threads step by step under an explicit
    schedule; the environment supplies clock readings and outcomes of sends with
    each step.

    [wp] is the rely-guarantee condition of a thread: whatever the other threads
    do in between as long as they keep their guarantee, every step of the thread
    keeps the invariant and its own guarantee, and a step is blocked only while
    the thread may wait.  [exec_good] is the soundness of the method, [progress]
    the absence of deadlock. *)

From S2P Require Import Prelude.

(** ** Programs *)

Section Programs.
Context {S E : Type}.

Inductive prog (A : Type) : Type :=
  | Ret (a : A)
  | Act (B : Type) (f : E -> S -> option (B * S)) (k : B -> prog A).
Arguments Ret {A} a.
Arguments Act {A B} f k.

Fixpoint pbind {A B} (p : prog A) (q : A -> prog B) : prog B :=
  match p with
  | Ret a => q a
  | Act f k => Act f (fun b => pbind (k b) q)
  end.

Definition act {B} (f : E -> S -> option (B * S)) : prog B := Act f Ret.

(** Actions that never block. *)
Definition pgets {B} (f : E -> S -> B) : prog B := act (fun e s => Some (f e s, s)).
Definition pmodify (f : E -> S -> S) : prog unit := act (fun e s => Some (tt, f e s)).
Definition pupdate {B} (f : E -> S -> B * S) : prog B := act (fun e s => Some (f e s)).

Definition pwhen (b : bool) (p : prog unit) : prog unit := if b then p else Ret tt.

(** A loop whose body accumulates a flag. *)
Fixpoint pany {X} (body : X -> prog bool) (l : list X) : prog bool :=
  match l with
  | [] => Ret false
  | x :: l' => pbind (body x) (fun a => pbind (pany body l') (fun b => Ret (a || b)))
  end.

Fixpoint peach {X} (body : X -> prog unit) (l : list X) : prog unit :=
  match l with
  | [] => Ret tt
  | x :: l' => pbind (body x) (fun _ => peach body l')
  end.

(** ** Pools of threads *)

Context {T I : Type} `{!EqDecision T}.

Record Pool := { shared : S; code : T -> prog unit }.

Definition is_idle (p : prog unit) : bool := match p with Ret _ => true | Act _ _ => false end.

Definition set_code (t : T) (p : prog unit) (c : T -> prog unit) : T -> prog unit :=
  fun t' => if decide (t' = t) then p else c t'.

(** [body t i]: what thread [t] runs for input [i], if it takes such inputs. *)
Variable body : T -> I -> option (prog unit).

Inductive Label := Start (t : T) (i : I) | Run (t : T) (e : E).

Definition step (l : Label) (c : Pool) : option Pool :=
  match l with
  | Start t i =>
    match code c t, body t i with
    | Ret _, Some p => Some {| shared := shared c; code := set_code t p (code c) |}
    | _, _ => None
    end
  | Run t e =>
    match code c t with
    | Ret _ => None
    | Act f k =>
      match f e (shared c) with
      | Some (b, s') => Some {| shared := s'; code := set_code t (k b) (code c) |}
      | None => None
      end
    end
  end.

Fixpoint exec (ls : list Label) (c : Pool) : option Pool :=
  match ls with
  | [] => Some c
  | l :: ls' => match step l c with Some c' => exec ls' c' | None => None end
  end.

Definition idle_pool (s : S) : Pool := {| shared := s; code := fun _ => Ret tt |}.

Definition all_idle (c : Pool) : Prop := forall t, is_idle (code c t) = true.

(** ** Rely-guarantee *)

Section Logic.
Context (Inv : S -> Prop) (G : T -> S -> S -> Prop) (Waits : T -> S -> Prop).

(** A step another thread may take. *)
Definition others (t : T) (s s' : S) : Prop := exists t', t' <> t /\ G t' s s' /\ Inv s'.

Definition Rely (t : T) : S -> S -> Prop := rtc (others t).

Fixpoint wp (t : T) {A} (p : prog A) (Q : A -> S -> Prop) (s : S) : Prop :=
  match p with
  | Ret a => forall s1, Rely t s s1 -> Inv s1 -> Q a s1
  | Act f k => forall s1, Rely t s s1 -> Inv s1 ->
      ((forall e, f e s1 = None) -> Waits t s1) /\
      (forall e b s2, f e s1 = Some (b, s2) -> Inv s2 /\ G t s1 s2 /\ wp t (k b) Q s2)
  end.

Definition stable (t : T) (P : S -> Prop) : Prop :=
  forall t' s s', t' <> t -> Inv s -> Inv s' -> G t' s s' -> P s -> P s'.

Lemma stable_rely t P s s1 : stable t P -> Inv s -> Rely t s s1 -> P s -> P s1.
Proof.
  intros HP Hi Hr. revert Hi.
  induction Hr as [|s s1 s2 (t' & Hne & HG & Hi1) _ IH]; [done|].
  intros Hi Hs. apply IH; [done|]. by eapply HP.
Qed.

Lemma wp_rely t {A} (p : prog A) Q s s1 : Rely t s s1 -> wp t p Q s -> wp t p Q s1.
Proof.
  intros Hr. destruct p as [a|B f k]; simpl; intros Hw s2 Hr2; apply Hw; by etrans.
Qed.

Lemma wp_bind t {A B} (p : prog A) (q : A -> prog B) Q s :
  wp t p (fun a => wp t (q a) Q) s -> Inv s -> wp t (pbind p q) Q s.
Proof.
  revert s. induction p as [a|C f k IH]; simpl; intros s Hw Hi; [by apply Hw|].
  intros s1 Hr Hi1. destruct (Hw s1 Hr Hi1) as [Hb Hs]. split; [done|].
  intros e b s2 Hf. destruct (Hs e b s2 Hf) as (Hi2 & HG & Hk). split_and!; [done|done|]. by apply IH.
Qed.

Lemma wp_mono t {A} (p : prog A) (Q Q' : A -> S -> Prop) s :
  (forall a s', Inv s' -> Q a s' -> Q' a s') -> wp t p Q s -> wp t p Q' s.
Proof.
  intros HQ. revert s. induction p as [a|C f k IH]; simpl; intros s Hw s1 Hr Hi1; [by apply HQ, Hw|].
  destruct (Hw s1 Hr Hi1) as [Hb Hs]. split; [done|].
  intros e b s2 Hf. destruct (Hs e b s2 Hf) as (? & ? & ?). eauto.
Qed.

(** Triples: a stable precondition, so that proofs speak of the state before the
    step only. *)
Definition triple (t : T) {A} (P : S -> Prop) (p : prog A) (Q : A -> S -> Prop) : Prop :=
  forall s, Inv s -> P s -> wp t p Q s.

Lemma triple_ret t {A} (a : A) (P : S -> Prop) (Q : A -> S -> Prop) :
  stable t P -> (forall s, Inv s -> P s -> Q a s) -> triple t P (Ret a) Q.
Proof. intros HP HQ s Hi Hs s1 Hr Hi1. apply HQ; [done|]. by apply (stable_rely t P s s1 HP Hi Hr). Qed.

Lemma triple_act t {A} (f : E -> S -> option (A * S)) (P : S -> Prop) (Q : A -> S -> Prop) :
  stable t P -> (forall a, stable t (Q a)) ->
  (forall s, Inv s -> P s -> (forall e, f e s = None) -> Waits t s) ->
  (forall s e a s', Inv s -> P s -> f e s = Some (a, s') -> Inv s' /\ G t s s' /\ Q a s') ->
  triple t P (act f) Q.
Proof.
  intros HP HQ Hb Hs s Hi Hp s1 Hr Hi1. pose proof (stable_rely t P s s1 HP Hi Hr Hp) as Hp1.
  split; [by apply Hb|]. intros e a s2 Hf. destruct (Hs s1 e a s2 Hi1 Hp1 Hf) as (Hi2 & HG & Hq).
  split_and!; [done|done|]. intros s3 Hr3 Hi3. by apply (stable_rely t (Q a) s2 s3 (HQ a) Hi2 Hr3).
Qed.

Lemma triple_bind t {A B} (p : prog A) (q : A -> prog B) P (R : A -> S -> Prop) Q :
  triple t P p R -> (forall a, triple t (R a) (q a) Q) -> triple t P (pbind p q) Q.
Proof.
  intros Hp Hq s Hi Hs. apply wp_bind; [|done]. eapply wp_mono; [|by apply Hp]. intros a s' Hi' Ha. by apply Hq.
Qed.

Lemma triple_conseq t {A} (p : prog A) (P P' : S -> Prop) (Q Q' : A -> S -> Prop) :
  triple t P' p Q' -> (forall s, Inv s -> P s -> P' s) -> (forall a s, Inv s -> Q' a s -> Q a s) ->
  triple t P p Q.
Proof. intros Ht HP HQ s Hi Hs. eapply wp_mono; [exact HQ|]. apply Ht; [done|]. by apply HP. Qed.

Lemma triple_pre t {A} (p : prog A) (P P' : S -> Prop) (Q : A -> S -> Prop) :
  triple t P' p Q -> (forall s, Inv s -> P s -> P' s) -> triple t P p Q.
Proof. intros Ht HP. eapply triple_conseq; [done|done|]. done. Qed.

Lemma triple_post t {A} (p : prog A) (P : S -> Prop) (Q Q' : A -> S -> Prop) :
  triple t P p Q' -> (forall a s, Inv s -> Q' a s -> Q a s) -> triple t P p Q.
Proof. intros Ht HQ. by eapply triple_conseq. Qed.

(** ** Soundness *)

Context (Idle : T -> S -> Prop).

Definition good (c : Pool) : Prop :=
  Inv (shared c) /\ forall t, wp t (code c t) (fun _ => Idle t) (shared c).

Hypothesis body_ok : forall t i p, body t i = Some p -> triple t (Idle t) p (fun _ => Idle t).

Lemma exec_step_good l c c' : good c -> step l c = Some c' ->
  good c' /\ match l with Start _ _ => shared c' = shared c | Run t _ => G t (shared c) (shared c') end.
Proof.
  intros [Hi Hc] Hs. destruct l as [t i|t e]; simpl in Hs.
  - destruct (code c t) as [u|] eqn:Hp; [|done]. destruct (body t i) as [p|] eqn:Hb; [|done]. simplify_eq/=.
    split; [|done]. split; [done|]. intros t'. simpl. unfold set_code. case_decide; [|by apply Hc]. subst.
    apply (body_ok t i); [done..|]. specialize (Hc t). rewrite Hp in Hc. by apply (Hc (shared c)).
  - destruct (code c t) as [|B f k] eqn:Hp; [done|].
    destruct (f e (shared c)) as [[b s']|] eqn:Hf; [|done]. simplify_eq/=.
    pose proof (Hc t) as Ht. rewrite Hp in Ht. destruct (Ht (shared c)) as [_ Ht']; [done|done|].
    destruct (Ht' e b s' Hf) as (Hi' & HG & Hk). split; [|done]. split; [done|].
    intros t'. simpl. unfold set_code. case_decide; [by subst|].
    eapply wp_rely; [|by apply Hc]. apply rtc_once. exists t. done.
Qed.

Lemma exec_good ls c c' : good c -> exec ls c = Some c' -> good c'.
Proof.
  revert c. induction ls as [|l ls IH]; simpl; intros c Hc He; [by simplify_eq|].
  destruct (step l c) as [c1|] eqn:Hs; [|done]. eapply IH; [|done]. by eapply exec_step_good.
Qed.

Lemma idle_pool_good s : Inv s -> (forall t s', Inv s' -> Rely t s s' -> Idle t s') -> good (idle_pool s).
Proof. intros Hi Hid. split; [done|]. intros t. simpl. intros s1 Hr Hi1. by apply Hid. Qed.

Lemma good_idle c t : good c -> is_idle (code c t) = true -> Idle t (shared c).
Proof. intros [Hi Hc] Ht. specialize (Hc t). destruct (code c t); [|done]. by apply (Hc (shared c)). Qed.

(** A thread that cannot move is waiting. *)
Lemma good_blocked c t : good c -> is_idle (code c t) = false -> (forall e, step (Run t e) c = None) ->
  Waits t (shared c).
Proof.
  intros [Hi Hc] Hn Hb. specialize (Hc t). simpl in Hb. destruct (code c t) as [|B f k]; [done|].
  destruct (Hc (shared c)) as [Hw _]; [done|done|]. apply Hw. intros e. specialize (Hb e).
  by destruct (f e (shared c)) as [[]|].
Qed.
End Logic.
End Programs.

Arguments prog : clear implicits.
Arguments Ret {S E A} a.
Arguments Act {S E A B} f k.

Declare Scope prog_scope.
Delimit Scope prog_scope with prog.
Notation "x ← y ; z" := (pbind y (fun x => z)) : prog_scope.
Notation "y ;; z" := (pbind y (fun _ => z)) : prog_scope.

(** Pools that run the same code run alike. *)
Lemma exec_ext {S E T I : Type} `{!EqDecision T} (body body' : T -> I -> option (@prog S E unit)) ls c :
  (forall t i, body t i = body' t i) -> exec body ls c = exec body' ls c.
Proof.
  intros Hb. revert c. induction ls as [|l ls IH]; intros c; [done|]. simpl.
  assert (step body l c = step body' l c) as -> by (destruct l; simpl; [by rewrite Hb|done]).
  by destruct (step body' l c).
Qed.
