(* ===== verification/PlcPacket.v ===== *)
(** * The command packet of the PLC link

    [proximity_cmd_pkt.h] (the crossing-junction and ATL-proximity decision
    makers use the same 64-byte layout): opcodes, object records, the packet's
    bytes and its table-driven CRC-32, which skips the checksum's own field. *)

From S2P Require Import Prelude Protocol Crc EventCodec.

(** ** Opcodes *)

Definition COMMAND_PACKET_SIZE : nat := 64.
Definition COMMAND_NUM_OBJECTS : nat := 2.

Definition CMD_HEARTBEAT : Z := 0x00.
Definition CMD_HW_ERROR : Z := 0x01.
Definition CMD_STOP : Z := 0x02.
Definition CMD_SW_ERROR : Z := 0x03.
Definition CMD_REDUCE : Z := 0x05.
Definition CMD_NORMAL : Z := 0x07.
Definition CMD_SAFE_RELEASE_REQUEST : Z := 0x08.
Definition CMD_SAFE_RELEASE_ACK : Z := 0x09.
Definition CMD_SAFE_RELEASE_DENIED : Z := 0x0A.

(** ** Records *)

Record ObjectRecord := {
  or_object_id : Z;
  or_x : f32;
  or_y : f32;
  or_z : f32;
  or_metadata : Z;
}.

#[export] Instance ObjectRecord_eq_dec : EqDecision ObjectRecord.
Proof. solve_decision. Defined.

Definition zero_object : ObjectRecord :=
  {| or_object_id := 0; or_x := 0; or_y := 0; or_z := 0; or_metadata := 0 |}.

Record CmdPacket := {
  cp_identifier : Z;
  cp_seq : Z;
  cp_command : Z;
  cp_ts_seconds : Z;
  cp_ts_microseconds : Z;
  cp_crc32 : Z;
  cp_objects : ObjectRecord * ObjectRecord;
}.

Definition set_cp_crc32 (c : Z) (p : CmdPacket) : CmdPacket := {|
  cp_identifier := cp_identifier p; cp_seq := cp_seq p; cp_command := cp_command p;
  cp_ts_seconds := cp_ts_seconds p; cp_ts_microseconds := cp_ts_microseconds p; cp_crc32 := c;
  cp_objects := cp_objects p |}.

(** ** Bytes *)

Definition enc_object (o : ObjectRecord) : list Z :=
  le_bytes 4 (or_object_id o) ++ le_bytes 4 (or_x o) ++ le_bytes 4 (or_y o) ++ le_bytes 4 (or_z o) ++
  le_bytes 4 (or_metadata o).

(** Bytes 0-19. *)
Definition enc_head (p : CmdPacket) : list Z :=
  le_bytes 1 (cp_identifier p) ++ le_bytes 2 (cp_seq p) ++ le_bytes 1 (cp_command p) ++
  le_bytes 8 (cp_ts_seconds p) ++ le_bytes 8 (cp_ts_microseconds p).

(** Bytes 24-63. *)
Definition enc_objects (p : CmdPacket) : list Z := enc_object (cp_objects p).1 ++ enc_object (cp_objects p).2.

Definition enc_packet (p : CmdPacket) : list Z := enc_head p ++ le_bytes 4 (cp_crc32 p) ++ enc_objects p.

Definition read_object (l : list Z) : ObjectRecord * list Z :=
  let '(id, l) := read_u 4 l in
  let '(x, l) := read_u 4 l in
  let '(y, l) := read_u 4 l in
  let '(z, l) := read_u 4 l in
  let '(m, l) := read_u 4 l in
  ({| or_object_id := id; or_x := x; or_y := y; or_z := z; or_metadata := m |}, l).

(** The receiver's cast of the 64 bytes it read. *)
Definition dec_packet (l : list Z) : CmdPacket :=
  let '(identifier, l) := read_u 1 l in
  let '(seq, l) := read_u 2 l in
  let '(command, l) := read_u 1 l in
  let '(sec, l) := read_u 8 l in
  let '(usec, l) := read_u 8 l in
  let '(crc, l) := read_u 4 l in
  let '(o1, l) := read_object l in
  let '(o2, _) := read_object l in
  {| cp_identifier := identifier; cp_seq := seq; cp_command := command; cp_ts_seconds := sec;
     cp_ts_microseconds := usec; cp_crc32 := crc; cp_objects := (o1, o2) |}.

(** ** Checksum *)

(** [table[i]], filled on first use. *)
Definition crc_table : list Z := map (fun i => crc_bits 8 (Z.of_nat i)) (seq 0 256).

(** [crc = (crc >> 8) ^ table[(crc ^ p[i]) & 0xFF]] *)
Definition crc_table_byte (crc b : Z) : Z :=
  Z.lxor (Z.shiftr crc 8) (nth (Z.to_nat (Z.land (Z.lxor crc b) 0xFF)) crc_table 0).

Definition cmdPacketCRC32 (p : CmdPacket) : Z :=
  let crc := fold_left crc_table_byte (take 20 (enc_packet p)) 0xFFFFFFFF in
  let crc := fold_left crc_table_byte (drop 24 (enc_packet p)) crc in
  Z.lxor crc 0xFFFFFFFF.

Definition cmdPacketValidateCRC (p : CmdPacket) : bool := cp_crc32 p =? cmdPacketCRC32 p.

(** ** What the C types guarantee *)

Record wf_object (o : ObjectRecord) : Prop := {
  wo_id : is_u32 (or_object_id o);
  wo_x : is_u32 (or_x o);
  wo_y : is_u32 (or_y o);
  wo_z : is_u32 (or_z o);
  wo_meta : is_u32 (or_metadata o);
}.

Record wf_packet (p : CmdPacket) : Prop := {
  wp_identifier : is_u8 (cp_identifier p);
  wp_seq : is_u16 (cp_seq p);
  wp_command : is_u8 (cp_command p);
  wp_sec : is_u64 (cp_ts_seconds p);
  wp_usec : is_u64 (cp_ts_microseconds p);
  wp_crc : is_u32 (cp_crc32 p);
  wp_o1 : wf_object (cp_objects p).1;
  wp_o2 : wf_object (cp_objects p).2;
}.

(** ** The table computes the bitwise checksum *)

Lemma crc_bits_8_split c : is_u32 c ->
  crc_bits 8 c = Z.lxor (Z.shiftr c 8) (crc_bits 8 (Z.land c 0xFF)).
Proof.
  intros Hc.
  assert (c = Z.lxor (Z.shiftl (Z.shiftr c 8) 8) (Z.land c 0xFF)) as Hsplit.
  { apply Z.bits_inj'. intros i Hi. rewrite Z.lxor_spec. change 255 with (Z.ones 8).
    rewrite Z.land_spec, Z.testbit_ones by lia.
    destruct (decide (i < 8)).
    - rewrite Z.shiftl_spec_low by lia. rewrite (proj2 (Z.ltb_lt _ _)), (proj2 (Z.leb_le _ _)) by lia.
      by rewrite andb_true_r, xorb_false_l.
    - rewrite Z.shiftl_spec_high, Z.shiftr_spec by lia. rewrite (proj2 (Z.ltb_ge _ _)) by lia.
      rewrite andb_false_r, andb_false_r, xorb_false_r. f_equal. lia. }
  rewrite Hsplit at 1. rewrite crc_bits_lxor. f_equal. apply (crc_bits_shiftl 8).
Qed.

Lemma crc_table_lookup i : 0 <= i < 256 -> nth (Z.to_nat i) crc_table 0 = crc_bits 8 i.
Proof.
  intros Hi. unfold crc_table.
  rewrite (nth_indep _ 0 (crc_bits 8 (Z.of_nat 0))) by (rewrite length_map, length_seq; lia).
  rewrite (map_nth (fun i => crc_bits 8 (Z.of_nat i))), seq_nth by lia. f_equal. lia.
Qed.

Lemma crc_table_byte_spec c b : is_u32 c -> is_byte b -> crc_table_byte c b = crc_byte c b.
Proof.
  intros Hc Hb. unfold crc_table_byte. rewrite crc_byte_eq, crc_bits_8_split.
  - rewrite crc_table_lookup.
    + f_equal. rewrite Z.shiftr_lxor.
      assert (Z.shiftr b 8 = 0) as ->; [|by rewrite Z.lxor_0_r].
      rewrite Z.shiftr_div_pow2 by lia. apply Z.div_small. exact Hb.
    + change 255 with (Z.ones 8). rewrite Z.land_ones by lia. apply Z.mod_pos_bound. lia.
  - destruct Hb. apply lxor_range; [lia|done|lia].
Qed.

Lemma crc_table_bytes c l : is_u32 c -> Forall is_byte l -> fold_left crc_table_byte l c = crc_bytes c l.
Proof.
  intros Hc Hl. revert c Hc. induction Hl as [|b l Hb _ IH]; intros c Hc; [done|].
  cbn [fold_left]. rewrite crc_table_byte_spec by done. rewrite crc_bytes_cons. apply IH. by apply crc_byte_range.
Qed.

(** ** Lengths and ranges *)

Lemma enc_head_length p : length (enc_head p) = 20%nat.
Proof. unfold enc_head. by rewrite !length_app, !le_bytes_length. Qed.

Lemma enc_object_length o : length (enc_object o) = 20%nat.
Proof. unfold enc_object. by rewrite !length_app, !le_bytes_length. Qed.

Lemma enc_packet_length p : length (enc_packet p) = COMMAND_PACKET_SIZE.
Proof.
  unfold enc_packet, enc_objects. by rewrite !length_app, enc_head_length, !enc_object_length, le_bytes_length.
Qed.

Lemma enc_object_bytes o : Forall is_byte (enc_object o).
Proof. unfold enc_object. rewrite !Forall_app. split_and!; apply le_bytes_bytes. Qed.

Lemma enc_head_bytes p : Forall is_byte (enc_head p).
Proof. unfold enc_head. rewrite !Forall_app. split_and!; apply le_bytes_bytes. Qed.

(** The bytes the checksum covers. *)
Definition covered (p : CmdPacket) : list Z := enc_head p ++ enc_objects p.

Lemma covered_bytes p : Forall is_byte (covered p).
Proof.
  unfold covered, enc_objects. rewrite !Forall_app.
  split_and!; [apply enc_head_bytes|apply enc_object_bytes..].
Qed.

Lemma cmdPacketCRC32_spec p : cmdPacketCRC32 p = Z.lxor (crc_bytes UINT32_MAX (covered p)) UINT32_MAX.
Proof.
  assert (take 20 (enc_packet p) = enc_head p) as Ht.
  { unfold enc_packet. rewrite <- (enc_head_length p). apply take_app_length. }
  assert (drop 24 (enc_packet p) = enc_objects p) as Hd.
  { unfold enc_packet. rewrite app_assoc.
    replace 24%nat with (length (enc_head p ++ le_bytes 4 (cp_crc32 p)))
      by (rewrite length_app, enc_head_length, le_bytes_length; done).
    apply drop_app_length. }
  unfold cmdPacketCRC32. rewrite Ht, Hd. cbv zeta.
  pose proof (covered_bytes p) as Hb. unfold covered in *. apply Forall_app in Hb as [H1 H2].
  assert (is_u32 0xFFFFFFFF) by (unfold is_u32; lia).
  rewrite (crc_table_bytes _ (enc_head p)) by done.
  rewrite crc_table_bytes by (done || by apply crc_bytes_range).
  by rewrite crc_bytes_app.
Qed.

(** ** Round trip *)

Lemma read_object_bytes o l : wf_object o -> read_object (enc_object o ++ l) = (o, l).
Proof.
  intros []. unfold read_object, enc_object. rewrite <- !app_assoc.
  rewrite read_u_bytes by done. rewrite read_u_bytes by done. rewrite read_u_bytes by done.
  rewrite read_u_bytes by done. rewrite read_u_bytes by done. by destruct o.
Qed.

(** The packet a sender builds is the packet the receiver reads, and its
    checksum is the bitwise CRC-32 of the 60 bytes around the checksum field. *)
Theorem packet_roundtrip p : wf_packet p ->
  length (enc_packet p) = COMMAND_PACKET_SIZE /\
  dec_packet (enc_packet p) = p /\
  cmdPacketCRC32 p = pssComputeCRC32 (Some (covered p)) 60.
Proof.
  intros []. split_and!; [apply enc_packet_length| |].
  - unfold dec_packet, enc_packet, enc_head, enc_objects. rewrite <- !app_assoc.
    rewrite read_u_bytes by done. rewrite read_u_bytes by done. rewrite read_u_bytes by done.
    rewrite read_u_bytes by done. rewrite read_u_bytes by done. rewrite read_u_bytes by done.
    rewrite read_object_bytes by done. rewrite <- (app_nil_r (enc_object (cp_objects p).2)).
    rewrite read_object_bytes by done. destruct p as [? ? ? ? ? ? []]. done.
  - rewrite cmdPacketCRC32_spec. unfold pssComputeCRC32. rewrite take_ge; [done|].
    unfold covered, enc_objects. rewrite !length_app, enc_head_length, !enc_object_length. lia.
Qed.

(** A packet whose covered bytes differ from a stamped one within four
    consecutive bytes, with the same checksum field, is refused. *)
Theorem corrupted_packet_refused p p' pre x y suf :
  covered p = pre ++ x ++ suf -> covered p' = pre ++ y ++ suf ->
  cp_crc32 p' = cmdPacketCRC32 p -> length x = length y -> (length x <= 4)%nat -> x <> y ->
  cmdPacketValidateCRC p' = false.
Proof.
  intros Hx Hy Hcrc Hlen H4 Hne. unfold cmdPacketValidateCRC. apply Z.eqb_neq. intros Heq.
  apply Hne. rewrite Hcrc, !cmdPacketCRC32_spec, Hx, Hy in Heq.
  pose proof (covered_bytes p) as Bp. pose proof (covered_bytes p') as Bp'. rewrite Hx in Bp. rewrite Hy in Bp'.
  rewrite !Forall_app in Bp, Bp'. destruct Bp as (? & ? & ?), Bp' as (? & ? & ?).
  assert (is_u32 UINT32_MAX) by (unfold is_u32, UINT32_MAX; lia).
  apply (crc_bytes_burst UINT32_MAX pre x y suf); try done.
  apply (f_equal (fun z => Z.lxor z UINT32_MAX)) in Heq.
  by rewrite !Z.lxor_assoc, Z.lxor_nilpotent, !Z.lxor_0_r in Heq.
Qed.
