(* ===== verification/SdmCore.v ===== *)
(** * The core shared by three decision makers

    [ProximityControl.cpp], [CrossingJunctionSafetyControl.cpp] and
    [AtlProximityControl.cpp] are one program with three decision rules: the same
    latches, sub-causes, watchdogs, release protocol, PLC link and threads, over
    an application state of their own.  This file is that program, with the
    application as a class ([SdmApp]); [Proximity], [Junction] and [AtlProximity]
    are its instances.  The comments name the functions of [ProximityControl.cpp].

    Every thread of the process is a [Threads.prog].  One access to an atomic, and
    one critical section of the short mutexes ([safeStateLatchMtx], [hbMtx],
    [decisionFreshnessMtx], [commandStatusMtx], [plcSocketMtx] and the
    application's), is one atomic action; [faultTransitionMtx] and
    [decisionSendMtx], which span several actions, are locks with an owner.  Clock
    readings and the outcome of [sendto] come with the step.  Log text and the
    best-effort copy to the halo listener are left out.

    [sm_owes] is an auxiliary variable: no program reads it.  It records that a
    thread latched a fault outside [decisionSendMtx] and has yet to send the hold
    for it. *)

From S2P Require Import Prelude Protocol Crc Validate SdmRequestState GatewayContract SdmSequence Threads PlcPacket.

(** ** Data *)

(** The threads of the process. *)
Inductive Tid :=
  | Listener | AckHandler | HbWatchdog | FreshnessWatchdog | PeriodicDecision | HeartbeatTx | EvalTick.

#[export] Instance Tid_eq_dec : EqDecision Tid.
Proof. solve_decision. Defined.

(** What a step gets from outside: the steady clock (ms), the wall clock (us) and
    whether a [sendto] of the step goes out. *)
Record Env := { e_now : Z; e_wall : Z; e_ok : bool }.

(** One send on the PLC socket and its outcome. *)
Record Tx := { tx_packet : CmdPacket; tx_ok : bool }.

Definition tx_command (x : Tx) : Z := cp_command (tx_packet x).

Record CommandStatus := {
  cs_sentTime : Z;
  cs_command : Z;
  cs_acknowledged : bool;
  cs_sentTimeSec : Z;
  cs_sentTimeMicro : Z;
}.

Definition set_acknowledged (c : CommandStatus) : CommandStatus := {|
  cs_sentTime := cs_sentTime c; cs_command := cs_command c; cs_acknowledged := true;
  cs_sentTimeSec := cs_sentTimeSec c; cs_sentTimeMicro := cs_sentTimeMicro c |}.

(** [PssSubCause] indices. *)
Definition kPssSubModeError : Z := 0.
Definition kPssSubGatewayComm : Z := 1.
Definition kPssSubSwFail : Z := 2.
Definition kPssSubMonitorLost : Z := 3.
Definition kPssSubPerceptionMonitorLost : Z := 4.
Definition kPssSubMdxLost : Z := 5.
Definition kPssSubInputUnusable : Z := 6.

Definition all_sub_causes : list Z := [0; 1; 2; 3; 4; 5; 6].

(** [safeStateLatchCauses] bits. *)
Definition kSafeLatchGatewayHb : Z := Z.shiftl 1 0.
Definition kSafeLatchPss : Z := Z.shiftl 1 1.
Definition kSafeLatchDecisionFreshness : Z := Z.shiftl 1 2.
Definition kSafeLatchGatewayDecisionSequence : Z := Z.shiftl 1 3.
Definition kSafeLatchAllSafetyRelevantSensorsFailed : Z := Z.shiftl 1 4.
Definition kSafeLatchAiPipelineInvalid : Z := Z.shiftl 1 5.

Definition kReviewedSensorMaxPipelineId : Z := 31.
Definition ACK_TIMEOUT_SECONDS : Z := 3.
Definition ACK_CLEANUP_SECONDS : Z := 10.
Definition ACK_MONITOR_INTERVAL_S : Z := 1.

(** What start-up fixes. *)
Record SdmConfig := {
  cf_reviewed : list Z;
  cf_maxHbFailures : Z;
  cf_hbStaleMs : Z;
  cf_hbPeriodMs : Z;
  cf_freshnessTimeoutMs : Z;
}.

(** [g_warnThresholdCfg]. *)
Definition cf_warnThreshold (c : SdmConfig) : Z := cf_maxHbFailures c / 2.

Record Sdm (App : Type) := {
  sm_subActive : Z; (* pssSubCauseActive[], bit c for cause c *)
  sm_pssSuppress : bool; (* pssErrorFusionSuppressLatched *)
  sm_latch : Z; (* safeStateLatchCauses *)
  sm_hbFault : bool; (* hbFaultLatched *)
  sm_tier2Hold : bool; (* hbTier2SafeHoldActive *)
  sm_lastMiss : Z; (* g_lastGatewayHbMissCount *)
  sm_prevMiss : Z; (* the watchdog loop's prevMiss *)
  sm_tier2Attempts : Z; (* regrTier2AttemptsRemaining *)
  sm_hbLastRecv : Z; (* hbLastRecvTime *)
  sm_freshFault : bool; (* decisionFreshnessFaultActive *)
  sm_lastValid : Z; (* lastValidDecisionRequestTime *)
  sm_seqFault : bool; (* gatewayDecisionSequenceFaultActive *)
  sm_seqState : SdmGatewayDecisionSequenceState; (* gatewayDecisionSequenceState *)
  sm_failedMask : Z; (* failedSafetyRelevantSensorMask *)
  sm_saimPending : Z; (* saimInitPendingSensorMask *)
  sm_allFailed : bool; (* allSafetyRelevantSensorsFailedActive *)
  sm_aiInvalid : bool; (* aiPipelineInvalidActive *)
  sm_presenceSeen : Z; (* sourcePresenceSeen *)
  sm_unusableSeen : Z; (* sourceInputUnusableSeen *)
  sm_lastRelease : option Z; (* lastSafeReleaseRequestTime *)
  sm_cmdSeqNo : Z; (* cmdSeqNo *)
  sm_pending : gmap Z CommandStatus; (* pendingCommands *)
  sm_lastScan : Z; (* the ACK loop's lastTimeoutScan *)
  sm_app : App; (* the application's own state *)
  sm_ftOwner : option Tid; (* faultTransitionMtx *)
  sm_dsOwner : option Tid; (* decisionSendMtx *)
  sm_sent : list Tx; (* sends to the PLC, newest first *)
  sm_owes : Tid -> bool; (* auxiliary: latched outside decisionSendMtx, hold not yet sent *)
}.
Arguments sm_subActive {App} s.
Arguments sm_pssSuppress {App} s.
Arguments sm_latch {App} s.
Arguments sm_hbFault {App} s.
Arguments sm_tier2Hold {App} s.
Arguments sm_lastMiss {App} s.
Arguments sm_prevMiss {App} s.
Arguments sm_tier2Attempts {App} s.
Arguments sm_hbLastRecv {App} s.
Arguments sm_freshFault {App} s.
Arguments sm_lastValid {App} s.
Arguments sm_seqFault {App} s.
Arguments sm_seqState {App} s.
Arguments sm_failedMask {App} s.
Arguments sm_saimPending {App} s.
Arguments sm_allFailed {App} s.
Arguments sm_aiInvalid {App} s.
Arguments sm_presenceSeen {App} s.
Arguments sm_unusableSeen {App} s.
Arguments sm_lastRelease {App} s.
Arguments sm_cmdSeqNo {App} s.
Arguments sm_pending {App} s.
Arguments sm_lastScan {App} s.
Arguments sm_app {App} s.
Arguments sm_ftOwner {App} s.
Arguments sm_dsOwner {App} s.
Arguments sm_sent {App} s.
Arguments sm_owes {App} s.

(** ** Field updates *)

Definition set_subActive {App} (x : Z) (s : Sdm App) : Sdm App := {|
  sm_subActive := x; sm_pssSuppress := sm_pssSuppress s; sm_latch := sm_latch s; sm_hbFault := sm_hbFault s;
  sm_tier2Hold := sm_tier2Hold s; sm_lastMiss := sm_lastMiss s; sm_prevMiss := sm_prevMiss s;
  sm_tier2Attempts := sm_tier2Attempts s; sm_hbLastRecv := sm_hbLastRecv s; sm_freshFault := sm_freshFault
  s; sm_lastValid := sm_lastValid s; sm_seqFault := sm_seqFault s; sm_seqState := sm_seqState s;
  sm_failedMask := sm_failedMask s; sm_saimPending := sm_saimPending s; sm_allFailed := sm_allFailed s;
  sm_aiInvalid := sm_aiInvalid s; sm_presenceSeen := sm_presenceSeen s; sm_unusableSeen := sm_unusableSeen
  s; sm_lastRelease := sm_lastRelease s; sm_cmdSeqNo := sm_cmdSeqNo s; sm_pending := sm_pending s;
  sm_lastScan := sm_lastScan s; sm_app := sm_app s; sm_ftOwner := sm_ftOwner s; sm_dsOwner := sm_dsOwner s;
  sm_sent := sm_sent s; sm_owes := sm_owes s |}.

Definition set_pssSuppress {App} (x : bool) (s : Sdm App) : Sdm App := {|
  sm_subActive := sm_subActive s; sm_pssSuppress := x; sm_latch := sm_latch s; sm_hbFault := sm_hbFault s;
  sm_tier2Hold := sm_tier2Hold s; sm_lastMiss := sm_lastMiss s; sm_prevMiss := sm_prevMiss s;
  sm_tier2Attempts := sm_tier2Attempts s; sm_hbLastRecv := sm_hbLastRecv s; sm_freshFault := sm_freshFault
  s; sm_lastValid := sm_lastValid s; sm_seqFault := sm_seqFault s; sm_seqState := sm_seqState s;
  sm_failedMask := sm_failedMask s; sm_saimPending := sm_saimPending s; sm_allFailed := sm_allFailed s;
  sm_aiInvalid := sm_aiInvalid s; sm_presenceSeen := sm_presenceSeen s; sm_unusableSeen := sm_unusableSeen
  s; sm_lastRelease := sm_lastRelease s; sm_cmdSeqNo := sm_cmdSeqNo s; sm_pending := sm_pending s;
  sm_lastScan := sm_lastScan s; sm_app := sm_app s; sm_ftOwner := sm_ftOwner s; sm_dsOwner := sm_dsOwner s;
  sm_sent := sm_sent s; sm_owes := sm_owes s |}.

Definition set_latch {App} (x : Z) (s : Sdm App) : Sdm App := {|
  sm_subActive := sm_subActive s; sm_pssSuppress := sm_pssSuppress s; sm_latch := x; sm_hbFault :=
  sm_hbFault s; sm_tier2Hold := sm_tier2Hold s; sm_lastMiss := sm_lastMiss s; sm_prevMiss := sm_prevMiss s;
  sm_tier2Attempts := sm_tier2Attempts s; sm_hbLastRecv := sm_hbLastRecv s; sm_freshFault := sm_freshFault
  s; sm_lastValid := sm_lastValid s; sm_seqFault := sm_seqFault s; sm_seqState := sm_seqState s;
  sm_failedMask := sm_failedMask s; sm_saimPending := sm_saimPending s; sm_allFailed := sm_allFailed s;
  sm_aiInvalid := sm_aiInvalid s; sm_presenceSeen := sm_presenceSeen s; sm_unusableSeen := sm_unusableSeen
  s; sm_lastRelease := sm_lastRelease s; sm_cmdSeqNo := sm_cmdSeqNo s; sm_pending := sm_pending s;
  sm_lastScan := sm_lastScan s; sm_app := sm_app s; sm_ftOwner := sm_ftOwner s; sm_dsOwner := sm_dsOwner s;
  sm_sent := sm_sent s; sm_owes := sm_owes s |}.

Definition set_hbFault {App} (x : bool) (s : Sdm App) : Sdm App := {|
  sm_subActive := sm_subActive s; sm_pssSuppress := sm_pssSuppress s; sm_latch := sm_latch s; sm_hbFault :=
  x; sm_tier2Hold := sm_tier2Hold s; sm_lastMiss := sm_lastMiss s; sm_prevMiss := sm_prevMiss s;
  sm_tier2Attempts := sm_tier2Attempts s; sm_hbLastRecv := sm_hbLastRecv s; sm_freshFault := sm_freshFault
  s; sm_lastValid := sm_lastValid s; sm_seqFault := sm_seqFault s; sm_seqState := sm_seqState s;
  sm_failedMask := sm_failedMask s; sm_saimPending := sm_saimPending s; sm_allFailed := sm_allFailed s;
  sm_aiInvalid := sm_aiInvalid s; sm_presenceSeen := sm_presenceSeen s; sm_unusableSeen := sm_unusableSeen
  s; sm_lastRelease := sm_lastRelease s; sm_cmdSeqNo := sm_cmdSeqNo s; sm_pending := sm_pending s;
  sm_lastScan := sm_lastScan s; sm_app := sm_app s; sm_ftOwner := sm_ftOwner s; sm_dsOwner := sm_dsOwner s;
  sm_sent := sm_sent s; sm_owes := sm_owes s |}.

Definition set_tier2Hold {App} (x : bool) (s : Sdm App) : Sdm App := {|
  sm_subActive := sm_subActive s; sm_pssSuppress := sm_pssSuppress s; sm_latch := sm_latch s; sm_hbFault :=
  sm_hbFault s; sm_tier2Hold := x; sm_lastMiss := sm_lastMiss s; sm_prevMiss := sm_prevMiss s;
  sm_tier2Attempts := sm_tier2Attempts s; sm_hbLastRecv := sm_hbLastRecv s; sm_freshFault := sm_freshFault
  s; sm_lastValid := sm_lastValid s; sm_seqFault := sm_seqFault s; sm_seqState := sm_seqState s;
  sm_failedMask := sm_failedMask s; sm_saimPending := sm_saimPending s; sm_allFailed := sm_allFailed s;
  sm_aiInvalid := sm_aiInvalid s; sm_presenceSeen := sm_presenceSeen s; sm_unusableSeen := sm_unusableSeen
  s; sm_lastRelease := sm_lastRelease s; sm_cmdSeqNo := sm_cmdSeqNo s; sm_pending := sm_pending s;
  sm_lastScan := sm_lastScan s; sm_app := sm_app s; sm_ftOwner := sm_ftOwner s; sm_dsOwner := sm_dsOwner s;
  sm_sent := sm_sent s; sm_owes := sm_owes s |}.

Definition set_lastMiss {App} (x : Z) (s : Sdm App) : Sdm App := {|
  sm_subActive := sm_subActive s; sm_pssSuppress := sm_pssSuppress s; sm_latch := sm_latch s; sm_hbFault :=
  sm_hbFault s; sm_tier2Hold := sm_tier2Hold s; sm_lastMiss := x; sm_prevMiss := sm_prevMiss s;
  sm_tier2Attempts := sm_tier2Attempts s; sm_hbLastRecv := sm_hbLastRecv s; sm_freshFault := sm_freshFault
  s; sm_lastValid := sm_lastValid s; sm_seqFault := sm_seqFault s; sm_seqState := sm_seqState s;
  sm_failedMask := sm_failedMask s; sm_saimPending := sm_saimPending s; sm_allFailed := sm_allFailed s;
  sm_aiInvalid := sm_aiInvalid s; sm_presenceSeen := sm_presenceSeen s; sm_unusableSeen := sm_unusableSeen
  s; sm_lastRelease := sm_lastRelease s; sm_cmdSeqNo := sm_cmdSeqNo s; sm_pending := sm_pending s;
  sm_lastScan := sm_lastScan s; sm_app := sm_app s; sm_ftOwner := sm_ftOwner s; sm_dsOwner := sm_dsOwner s;
  sm_sent := sm_sent s; sm_owes := sm_owes s |}.

Definition set_prevMiss {App} (x : Z) (s : Sdm App) : Sdm App := {|
  sm_subActive := sm_subActive s; sm_pssSuppress := sm_pssSuppress s; sm_latch := sm_latch s; sm_hbFault :=
  sm_hbFault s; sm_tier2Hold := sm_tier2Hold s; sm_lastMiss := sm_lastMiss s; sm_prevMiss := x;
  sm_tier2Attempts := sm_tier2Attempts s; sm_hbLastRecv := sm_hbLastRecv s; sm_freshFault := sm_freshFault
  s; sm_lastValid := sm_lastValid s; sm_seqFault := sm_seqFault s; sm_seqState := sm_seqState s;
  sm_failedMask := sm_failedMask s; sm_saimPending := sm_saimPending s; sm_allFailed := sm_allFailed s;
  sm_aiInvalid := sm_aiInvalid s; sm_presenceSeen := sm_presenceSeen s; sm_unusableSeen := sm_unusableSeen
  s; sm_lastRelease := sm_lastRelease s; sm_cmdSeqNo := sm_cmdSeqNo s; sm_pending := sm_pending s;
  sm_lastScan := sm_lastScan s; sm_app := sm_app s; sm_ftOwner := sm_ftOwner s; sm_dsOwner := sm_dsOwner s;
  sm_sent := sm_sent s; sm_owes := sm_owes s |}.

Definition set_tier2Attempts {App} (x : Z) (s : Sdm App) : Sdm App := {|
  sm_subActive := sm_subActive s; sm_pssSuppress := sm_pssSuppress s; sm_latch := sm_latch s; sm_hbFault :=
  sm_hbFault s; sm_tier2Hold := sm_tier2Hold s; sm_lastMiss := sm_lastMiss s; sm_prevMiss := sm_prevMiss s;
  sm_tier2Attempts := x; sm_hbLastRecv := sm_hbLastRecv s; sm_freshFault := sm_freshFault s; sm_lastValid :=
  sm_lastValid s; sm_seqFault := sm_seqFault s; sm_seqState := sm_seqState s; sm_failedMask := sm_failedMask
  s; sm_saimPending := sm_saimPending s; sm_allFailed := sm_allFailed s; sm_aiInvalid := sm_aiInvalid s;
  sm_presenceSeen := sm_presenceSeen s; sm_unusableSeen := sm_unusableSeen s; sm_lastRelease :=
  sm_lastRelease s; sm_cmdSeqNo := sm_cmdSeqNo s; sm_pending := sm_pending s; sm_lastScan := sm_lastScan s;
  sm_app := sm_app s; sm_ftOwner := sm_ftOwner s; sm_dsOwner := sm_dsOwner s; sm_sent := sm_sent s; sm_owes
  := sm_owes s |}.

Definition set_hbLastRecv {App} (x : Z) (s : Sdm App) : Sdm App := {|
  sm_subActive := sm_subActive s; sm_pssSuppress := sm_pssSuppress s; sm_latch := sm_latch s; sm_hbFault :=
  sm_hbFault s; sm_tier2Hold := sm_tier2Hold s; sm_lastMiss := sm_lastMiss s; sm_prevMiss := sm_prevMiss s;
  sm_tier2Attempts := sm_tier2Attempts s; sm_hbLastRecv := x; sm_freshFault := sm_freshFault s; sm_lastValid
  := sm_lastValid s; sm_seqFault := sm_seqFault s; sm_seqState := sm_seqState s; sm_failedMask :=
  sm_failedMask s; sm_saimPending := sm_saimPending s; sm_allFailed := sm_allFailed s; sm_aiInvalid :=
  sm_aiInvalid s; sm_presenceSeen := sm_presenceSeen s; sm_unusableSeen := sm_unusableSeen s; sm_lastRelease
  := sm_lastRelease s; sm_cmdSeqNo := sm_cmdSeqNo s; sm_pending := sm_pending s; sm_lastScan := sm_lastScan
  s; sm_app := sm_app s; sm_ftOwner := sm_ftOwner s; sm_dsOwner := sm_dsOwner s; sm_sent := sm_sent s;
  sm_owes := sm_owes s |}.

Definition set_freshFault {App} (x : bool) (s : Sdm App) : Sdm App := {|
  sm_subActive := sm_subActive s; sm_pssSuppress := sm_pssSuppress s; sm_latch := sm_latch s; sm_hbFault :=
  sm_hbFault s; sm_tier2Hold := sm_tier2Hold s; sm_lastMiss := sm_lastMiss s; sm_prevMiss := sm_prevMiss s;
  sm_tier2Attempts := sm_tier2Attempts s; sm_hbLastRecv := sm_hbLastRecv s; sm_freshFault := x; sm_lastValid
  := sm_lastValid s; sm_seqFault := sm_seqFault s; sm_seqState := sm_seqState s; sm_failedMask :=
  sm_failedMask s; sm_saimPending := sm_saimPending s; sm_allFailed := sm_allFailed s; sm_aiInvalid :=
  sm_aiInvalid s; sm_presenceSeen := sm_presenceSeen s; sm_unusableSeen := sm_unusableSeen s; sm_lastRelease
  := sm_lastRelease s; sm_cmdSeqNo := sm_cmdSeqNo s; sm_pending := sm_pending s; sm_lastScan := sm_lastScan
  s; sm_app := sm_app s; sm_ftOwner := sm_ftOwner s; sm_dsOwner := sm_dsOwner s; sm_sent := sm_sent s;
  sm_owes := sm_owes s |}.

Definition set_lastValid {App} (x : Z) (s : Sdm App) : Sdm App := {|
  sm_subActive := sm_subActive s; sm_pssSuppress := sm_pssSuppress s; sm_latch := sm_latch s; sm_hbFault :=
  sm_hbFault s; sm_tier2Hold := sm_tier2Hold s; sm_lastMiss := sm_lastMiss s; sm_prevMiss := sm_prevMiss s;
  sm_tier2Attempts := sm_tier2Attempts s; sm_hbLastRecv := sm_hbLastRecv s; sm_freshFault := sm_freshFault
  s; sm_lastValid := x; sm_seqFault := sm_seqFault s; sm_seqState := sm_seqState s; sm_failedMask :=
  sm_failedMask s; sm_saimPending := sm_saimPending s; sm_allFailed := sm_allFailed s; sm_aiInvalid :=
  sm_aiInvalid s; sm_presenceSeen := sm_presenceSeen s; sm_unusableSeen := sm_unusableSeen s; sm_lastRelease
  := sm_lastRelease s; sm_cmdSeqNo := sm_cmdSeqNo s; sm_pending := sm_pending s; sm_lastScan := sm_lastScan
  s; sm_app := sm_app s; sm_ftOwner := sm_ftOwner s; sm_dsOwner := sm_dsOwner s; sm_sent := sm_sent s;
  sm_owes := sm_owes s |}.

Definition set_seqFault {App} (x : bool) (s : Sdm App) : Sdm App := {|
  sm_subActive := sm_subActive s; sm_pssSuppress := sm_pssSuppress s; sm_latch := sm_latch s; sm_hbFault :=
  sm_hbFault s; sm_tier2Hold := sm_tier2Hold s; sm_lastMiss := sm_lastMiss s; sm_prevMiss := sm_prevMiss s;
  sm_tier2Attempts := sm_tier2Attempts s; sm_hbLastRecv := sm_hbLastRecv s; sm_freshFault := sm_freshFault
  s; sm_lastValid := sm_lastValid s; sm_seqFault := x; sm_seqState := sm_seqState s; sm_failedMask :=
  sm_failedMask s; sm_saimPending := sm_saimPending s; sm_allFailed := sm_allFailed s; sm_aiInvalid :=
  sm_aiInvalid s; sm_presenceSeen := sm_presenceSeen s; sm_unusableSeen := sm_unusableSeen s; sm_lastRelease
  := sm_lastRelease s; sm_cmdSeqNo := sm_cmdSeqNo s; sm_pending := sm_pending s; sm_lastScan := sm_lastScan
  s; sm_app := sm_app s; sm_ftOwner := sm_ftOwner s; sm_dsOwner := sm_dsOwner s; sm_sent := sm_sent s;
  sm_owes := sm_owes s |}.

Definition set_seqState {App} (x : SdmGatewayDecisionSequenceState) (s : Sdm App) : Sdm App := {|
  sm_subActive := sm_subActive s; sm_pssSuppress := sm_pssSuppress s; sm_latch := sm_latch s; sm_hbFault :=
  sm_hbFault s; sm_tier2Hold := sm_tier2Hold s; sm_lastMiss := sm_lastMiss s; sm_prevMiss := sm_prevMiss s;
  sm_tier2Attempts := sm_tier2Attempts s; sm_hbLastRecv := sm_hbLastRecv s; sm_freshFault := sm_freshFault
  s; sm_lastValid := sm_lastValid s; sm_seqFault := sm_seqFault s; sm_seqState := x; sm_failedMask :=
  sm_failedMask s; sm_saimPending := sm_saimPending s; sm_allFailed := sm_allFailed s; sm_aiInvalid :=
  sm_aiInvalid s; sm_presenceSeen := sm_presenceSeen s; sm_unusableSeen := sm_unusableSeen s; sm_lastRelease
  := sm_lastRelease s; sm_cmdSeqNo := sm_cmdSeqNo s; sm_pending := sm_pending s; sm_lastScan := sm_lastScan
  s; sm_app := sm_app s; sm_ftOwner := sm_ftOwner s; sm_dsOwner := sm_dsOwner s; sm_sent := sm_sent s;
  sm_owes := sm_owes s |}.

Definition set_failedMask {App} (x : Z) (s : Sdm App) : Sdm App := {|
  sm_subActive := sm_subActive s; sm_pssSuppress := sm_pssSuppress s; sm_latch := sm_latch s; sm_hbFault :=
  sm_hbFault s; sm_tier2Hold := sm_tier2Hold s; sm_lastMiss := sm_lastMiss s; sm_prevMiss := sm_prevMiss s;
  sm_tier2Attempts := sm_tier2Attempts s; sm_hbLastRecv := sm_hbLastRecv s; sm_freshFault := sm_freshFault
  s; sm_lastValid := sm_lastValid s; sm_seqFault := sm_seqFault s; sm_seqState := sm_seqState s;
  sm_failedMask := x; sm_saimPending := sm_saimPending s; sm_allFailed := sm_allFailed s; sm_aiInvalid :=
  sm_aiInvalid s; sm_presenceSeen := sm_presenceSeen s; sm_unusableSeen := sm_unusableSeen s; sm_lastRelease
  := sm_lastRelease s; sm_cmdSeqNo := sm_cmdSeqNo s; sm_pending := sm_pending s; sm_lastScan := sm_lastScan
  s; sm_app := sm_app s; sm_ftOwner := sm_ftOwner s; sm_dsOwner := sm_dsOwner s; sm_sent := sm_sent s;
  sm_owes := sm_owes s |}.

Definition set_saimPending {App} (x : Z) (s : Sdm App) : Sdm App := {|
  sm_subActive := sm_subActive s; sm_pssSuppress := sm_pssSuppress s; sm_latch := sm_latch s; sm_hbFault :=
  sm_hbFault s; sm_tier2Hold := sm_tier2Hold s; sm_lastMiss := sm_lastMiss s; sm_prevMiss := sm_prevMiss s;
  sm_tier2Attempts := sm_tier2Attempts s; sm_hbLastRecv := sm_hbLastRecv s; sm_freshFault := sm_freshFault
  s; sm_lastValid := sm_lastValid s; sm_seqFault := sm_seqFault s; sm_seqState := sm_seqState s;
  sm_failedMask := sm_failedMask s; sm_saimPending := x; sm_allFailed := sm_allFailed s; sm_aiInvalid :=
  sm_aiInvalid s; sm_presenceSeen := sm_presenceSeen s; sm_unusableSeen := sm_unusableSeen s; sm_lastRelease
  := sm_lastRelease s; sm_cmdSeqNo := sm_cmdSeqNo s; sm_pending := sm_pending s; sm_lastScan := sm_lastScan
  s; sm_app := sm_app s; sm_ftOwner := sm_ftOwner s; sm_dsOwner := sm_dsOwner s; sm_sent := sm_sent s;
  sm_owes := sm_owes s |}.

Definition set_allFailed {App} (x : bool) (s : Sdm App) : Sdm App := {|
  sm_subActive := sm_subActive s; sm_pssSuppress := sm_pssSuppress s; sm_latch := sm_latch s; sm_hbFault :=
  sm_hbFault s; sm_tier2Hold := sm_tier2Hold s; sm_lastMiss := sm_lastMiss s; sm_prevMiss := sm_prevMiss s;
  sm_tier2Attempts := sm_tier2Attempts s; sm_hbLastRecv := sm_hbLastRecv s; sm_freshFault := sm_freshFault
  s; sm_lastValid := sm_lastValid s; sm_seqFault := sm_seqFault s; sm_seqState := sm_seqState s;
  sm_failedMask := sm_failedMask s; sm_saimPending := sm_saimPending s; sm_allFailed := x; sm_aiInvalid :=
  sm_aiInvalid s; sm_presenceSeen := sm_presenceSeen s; sm_unusableSeen := sm_unusableSeen s; sm_lastRelease
  := sm_lastRelease s; sm_cmdSeqNo := sm_cmdSeqNo s; sm_pending := sm_pending s; sm_lastScan := sm_lastScan
  s; sm_app := sm_app s; sm_ftOwner := sm_ftOwner s; sm_dsOwner := sm_dsOwner s; sm_sent := sm_sent s;
  sm_owes := sm_owes s |}.

Definition set_aiInvalid {App} (x : bool) (s : Sdm App) : Sdm App := {|
  sm_subActive := sm_subActive s; sm_pssSuppress := sm_pssSuppress s; sm_latch := sm_latch s; sm_hbFault :=
  sm_hbFault s; sm_tier2Hold := sm_tier2Hold s; sm_lastMiss := sm_lastMiss s; sm_prevMiss := sm_prevMiss s;
  sm_tier2Attempts := sm_tier2Attempts s; sm_hbLastRecv := sm_hbLastRecv s; sm_freshFault := sm_freshFault
  s; sm_lastValid := sm_lastValid s; sm_seqFault := sm_seqFault s; sm_seqState := sm_seqState s;
  sm_failedMask := sm_failedMask s; sm_saimPending := sm_saimPending s; sm_allFailed := sm_allFailed s;
  sm_aiInvalid := x; sm_presenceSeen := sm_presenceSeen s; sm_unusableSeen := sm_unusableSeen s;
  sm_lastRelease := sm_lastRelease s; sm_cmdSeqNo := sm_cmdSeqNo s; sm_pending := sm_pending s; sm_lastScan
  := sm_lastScan s; sm_app := sm_app s; sm_ftOwner := sm_ftOwner s; sm_dsOwner := sm_dsOwner s; sm_sent :=
  sm_sent s; sm_owes := sm_owes s |}.

Definition set_presenceSeen {App} (x : Z) (s : Sdm App) : Sdm App := {|
  sm_subActive := sm_subActive s; sm_pssSuppress := sm_pssSuppress s; sm_latch := sm_latch s; sm_hbFault :=
  sm_hbFault s; sm_tier2Hold := sm_tier2Hold s; sm_lastMiss := sm_lastMiss s; sm_prevMiss := sm_prevMiss s;
  sm_tier2Attempts := sm_tier2Attempts s; sm_hbLastRecv := sm_hbLastRecv s; sm_freshFault := sm_freshFault
  s; sm_lastValid := sm_lastValid s; sm_seqFault := sm_seqFault s; sm_seqState := sm_seqState s;
  sm_failedMask := sm_failedMask s; sm_saimPending := sm_saimPending s; sm_allFailed := sm_allFailed s;
  sm_aiInvalid := sm_aiInvalid s; sm_presenceSeen := x; sm_unusableSeen := sm_unusableSeen s; sm_lastRelease
  := sm_lastRelease s; sm_cmdSeqNo := sm_cmdSeqNo s; sm_pending := sm_pending s; sm_lastScan := sm_lastScan
  s; sm_app := sm_app s; sm_ftOwner := sm_ftOwner s; sm_dsOwner := sm_dsOwner s; sm_sent := sm_sent s;
  sm_owes := sm_owes s |}.

Definition set_unusableSeen {App} (x : Z) (s : Sdm App) : Sdm App := {|
  sm_subActive := sm_subActive s; sm_pssSuppress := sm_pssSuppress s; sm_latch := sm_latch s; sm_hbFault :=
  sm_hbFault s; sm_tier2Hold := sm_tier2Hold s; sm_lastMiss := sm_lastMiss s; sm_prevMiss := sm_prevMiss s;
  sm_tier2Attempts := sm_tier2Attempts s; sm_hbLastRecv := sm_hbLastRecv s; sm_freshFault := sm_freshFault
  s; sm_lastValid := sm_lastValid s; sm_seqFault := sm_seqFault s; sm_seqState := sm_seqState s;
  sm_failedMask := sm_failedMask s; sm_saimPending := sm_saimPending s; sm_allFailed := sm_allFailed s;
  sm_aiInvalid := sm_aiInvalid s; sm_presenceSeen := sm_presenceSeen s; sm_unusableSeen := x; sm_lastRelease
  := sm_lastRelease s; sm_cmdSeqNo := sm_cmdSeqNo s; sm_pending := sm_pending s; sm_lastScan := sm_lastScan
  s; sm_app := sm_app s; sm_ftOwner := sm_ftOwner s; sm_dsOwner := sm_dsOwner s; sm_sent := sm_sent s;
  sm_owes := sm_owes s |}.

Definition set_lastRelease {App} (x : option Z) (s : Sdm App) : Sdm App := {|
  sm_subActive := sm_subActive s; sm_pssSuppress := sm_pssSuppress s; sm_latch := sm_latch s; sm_hbFault :=
  sm_hbFault s; sm_tier2Hold := sm_tier2Hold s; sm_lastMiss := sm_lastMiss s; sm_prevMiss := sm_prevMiss s;
  sm_tier2Attempts := sm_tier2Attempts s; sm_hbLastRecv := sm_hbLastRecv s; sm_freshFault := sm_freshFault
  s; sm_lastValid := sm_lastValid s; sm_seqFault := sm_seqFault s; sm_seqState := sm_seqState s;
  sm_failedMask := sm_failedMask s; sm_saimPending := sm_saimPending s; sm_allFailed := sm_allFailed s;
  sm_aiInvalid := sm_aiInvalid s; sm_presenceSeen := sm_presenceSeen s; sm_unusableSeen := sm_unusableSeen
  s; sm_lastRelease := x; sm_cmdSeqNo := sm_cmdSeqNo s; sm_pending := sm_pending s; sm_lastScan :=
  sm_lastScan s; sm_app := sm_app s; sm_ftOwner := sm_ftOwner s; sm_dsOwner := sm_dsOwner s; sm_sent :=
  sm_sent s; sm_owes := sm_owes s |}.

Definition set_cmdSeqNo {App} (x : Z) (s : Sdm App) : Sdm App := {|
  sm_subActive := sm_subActive s; sm_pssSuppress := sm_pssSuppress s; sm_latch := sm_latch s; sm_hbFault :=
  sm_hbFault s; sm_tier2Hold := sm_tier2Hold s; sm_lastMiss := sm_lastMiss s; sm_prevMiss := sm_prevMiss s;
  sm_tier2Attempts := sm_tier2Attempts s; sm_hbLastRecv := sm_hbLastRecv s; sm_freshFault := sm_freshFault
  s; sm_lastValid := sm_lastValid s; sm_seqFault := sm_seqFault s; sm_seqState := sm_seqState s;
  sm_failedMask := sm_failedMask s; sm_saimPending := sm_saimPending s; sm_allFailed := sm_allFailed s;
  sm_aiInvalid := sm_aiInvalid s; sm_presenceSeen := sm_presenceSeen s; sm_unusableSeen := sm_unusableSeen
  s; sm_lastRelease := sm_lastRelease s; sm_cmdSeqNo := x; sm_pending := sm_pending s; sm_lastScan :=
  sm_lastScan s; sm_app := sm_app s; sm_ftOwner := sm_ftOwner s; sm_dsOwner := sm_dsOwner s; sm_sent :=
  sm_sent s; sm_owes := sm_owes s |}.

Definition set_pending {App} (x : gmap Z CommandStatus) (s : Sdm App) : Sdm App := {|
  sm_subActive := sm_subActive s; sm_pssSuppress := sm_pssSuppress s; sm_latch := sm_latch s; sm_hbFault :=
  sm_hbFault s; sm_tier2Hold := sm_tier2Hold s; sm_lastMiss := sm_lastMiss s; sm_prevMiss := sm_prevMiss s;
  sm_tier2Attempts := sm_tier2Attempts s; sm_hbLastRecv := sm_hbLastRecv s; sm_freshFault := sm_freshFault
  s; sm_lastValid := sm_lastValid s; sm_seqFault := sm_seqFault s; sm_seqState := sm_seqState s;
  sm_failedMask := sm_failedMask s; sm_saimPending := sm_saimPending s; sm_allFailed := sm_allFailed s;
  sm_aiInvalid := sm_aiInvalid s; sm_presenceSeen := sm_presenceSeen s; sm_unusableSeen := sm_unusableSeen
  s; sm_lastRelease := sm_lastRelease s; sm_cmdSeqNo := sm_cmdSeqNo s; sm_pending := x; sm_lastScan :=
  sm_lastScan s; sm_app := sm_app s; sm_ftOwner := sm_ftOwner s; sm_dsOwner := sm_dsOwner s; sm_sent :=
  sm_sent s; sm_owes := sm_owes s |}.

Definition set_lastScan {App} (x : Z) (s : Sdm App) : Sdm App := {|
  sm_subActive := sm_subActive s; sm_pssSuppress := sm_pssSuppress s; sm_latch := sm_latch s; sm_hbFault :=
  sm_hbFault s; sm_tier2Hold := sm_tier2Hold s; sm_lastMiss := sm_lastMiss s; sm_prevMiss := sm_prevMiss s;
  sm_tier2Attempts := sm_tier2Attempts s; sm_hbLastRecv := sm_hbLastRecv s; sm_freshFault := sm_freshFault
  s; sm_lastValid := sm_lastValid s; sm_seqFault := sm_seqFault s; sm_seqState := sm_seqState s;
  sm_failedMask := sm_failedMask s; sm_saimPending := sm_saimPending s; sm_allFailed := sm_allFailed s;
  sm_aiInvalid := sm_aiInvalid s; sm_presenceSeen := sm_presenceSeen s; sm_unusableSeen := sm_unusableSeen
  s; sm_lastRelease := sm_lastRelease s; sm_cmdSeqNo := sm_cmdSeqNo s; sm_pending := sm_pending s;
  sm_lastScan := x; sm_app := sm_app s; sm_ftOwner := sm_ftOwner s; sm_dsOwner := sm_dsOwner s; sm_sent :=
  sm_sent s; sm_owes := sm_owes s |}.

Definition set_app {App} (x : App) (s : Sdm App) : Sdm App := {|
  sm_subActive := sm_subActive s; sm_pssSuppress := sm_pssSuppress s; sm_latch := sm_latch s; sm_hbFault :=
  sm_hbFault s; sm_tier2Hold := sm_tier2Hold s; sm_lastMiss := sm_lastMiss s; sm_prevMiss := sm_prevMiss s;
  sm_tier2Attempts := sm_tier2Attempts s; sm_hbLastRecv := sm_hbLastRecv s; sm_freshFault := sm_freshFault
  s; sm_lastValid := sm_lastValid s; sm_seqFault := sm_seqFault s; sm_seqState := sm_seqState s;
  sm_failedMask := sm_failedMask s; sm_saimPending := sm_saimPending s; sm_allFailed := sm_allFailed s;
  sm_aiInvalid := sm_aiInvalid s; sm_presenceSeen := sm_presenceSeen s; sm_unusableSeen := sm_unusableSeen
  s; sm_lastRelease := sm_lastRelease s; sm_cmdSeqNo := sm_cmdSeqNo s; sm_pending := sm_pending s;
  sm_lastScan := sm_lastScan s; sm_app := x; sm_ftOwner := sm_ftOwner s; sm_dsOwner := sm_dsOwner s; sm_sent
  := sm_sent s; sm_owes := sm_owes s |}.

Definition set_ftOwner {App} (x : option Tid) (s : Sdm App) : Sdm App := {|
  sm_subActive := sm_subActive s; sm_pssSuppress := sm_pssSuppress s; sm_latch := sm_latch s; sm_hbFault :=
  sm_hbFault s; sm_tier2Hold := sm_tier2Hold s; sm_lastMiss := sm_lastMiss s; sm_prevMiss := sm_prevMiss s;
  sm_tier2Attempts := sm_tier2Attempts s; sm_hbLastRecv := sm_hbLastRecv s; sm_freshFault := sm_freshFault
  s; sm_lastValid := sm_lastValid s; sm_seqFault := sm_seqFault s; sm_seqState := sm_seqState s;
  sm_failedMask := sm_failedMask s; sm_saimPending := sm_saimPending s; sm_allFailed := sm_allFailed s;
  sm_aiInvalid := sm_aiInvalid s; sm_presenceSeen := sm_presenceSeen s; sm_unusableSeen := sm_unusableSeen
  s; sm_lastRelease := sm_lastRelease s; sm_cmdSeqNo := sm_cmdSeqNo s; sm_pending := sm_pending s;
  sm_lastScan := sm_lastScan s; sm_app := sm_app s; sm_ftOwner := x; sm_dsOwner := sm_dsOwner s; sm_sent :=
  sm_sent s; sm_owes := sm_owes s |}.

Definition set_dsOwner {App} (x : option Tid) (s : Sdm App) : Sdm App := {|
  sm_subActive := sm_subActive s; sm_pssSuppress := sm_pssSuppress s; sm_latch := sm_latch s; sm_hbFault :=
  sm_hbFault s; sm_tier2Hold := sm_tier2Hold s; sm_lastMiss := sm_lastMiss s; sm_prevMiss := sm_prevMiss s;
  sm_tier2Attempts := sm_tier2Attempts s; sm_hbLastRecv := sm_hbLastRecv s; sm_freshFault := sm_freshFault
  s; sm_lastValid := sm_lastValid s; sm_seqFault := sm_seqFault s; sm_seqState := sm_seqState s;
  sm_failedMask := sm_failedMask s; sm_saimPending := sm_saimPending s; sm_allFailed := sm_allFailed s;
  sm_aiInvalid := sm_aiInvalid s; sm_presenceSeen := sm_presenceSeen s; sm_unusableSeen := sm_unusableSeen
  s; sm_lastRelease := sm_lastRelease s; sm_cmdSeqNo := sm_cmdSeqNo s; sm_pending := sm_pending s;
  sm_lastScan := sm_lastScan s; sm_app := sm_app s; sm_ftOwner := sm_ftOwner s; sm_dsOwner := x; sm_sent :=
  sm_sent s; sm_owes := sm_owes s |}.

Definition set_sent {App} (x : list Tx) (s : Sdm App) : Sdm App := {|
  sm_subActive := sm_subActive s; sm_pssSuppress := sm_pssSuppress s; sm_latch := sm_latch s; sm_hbFault :=
  sm_hbFault s; sm_tier2Hold := sm_tier2Hold s; sm_lastMiss := sm_lastMiss s; sm_prevMiss := sm_prevMiss s;
  sm_tier2Attempts := sm_tier2Attempts s; sm_hbLastRecv := sm_hbLastRecv s; sm_freshFault := sm_freshFault
  s; sm_lastValid := sm_lastValid s; sm_seqFault := sm_seqFault s; sm_seqState := sm_seqState s;
  sm_failedMask := sm_failedMask s; sm_saimPending := sm_saimPending s; sm_allFailed := sm_allFailed s;
  sm_aiInvalid := sm_aiInvalid s; sm_presenceSeen := sm_presenceSeen s; sm_unusableSeen := sm_unusableSeen
  s; sm_lastRelease := sm_lastRelease s; sm_cmdSeqNo := sm_cmdSeqNo s; sm_pending := sm_pending s;
  sm_lastScan := sm_lastScan s; sm_app := sm_app s; sm_ftOwner := sm_ftOwner s; sm_dsOwner := sm_dsOwner s;
  sm_sent := x; sm_owes := sm_owes s |}.

Definition set_owes {App} (x : Tid -> bool) (s : Sdm App) : Sdm App := {|
  sm_subActive := sm_subActive s; sm_pssSuppress := sm_pssSuppress s; sm_latch := sm_latch s; sm_hbFault :=
  sm_hbFault s; sm_tier2Hold := sm_tier2Hold s; sm_lastMiss := sm_lastMiss s; sm_prevMiss := sm_prevMiss s;
  sm_tier2Attempts := sm_tier2Attempts s; sm_hbLastRecv := sm_hbLastRecv s; sm_freshFault := sm_freshFault
  s; sm_lastValid := sm_lastValid s; sm_seqFault := sm_seqFault s; sm_seqState := sm_seqState s;
  sm_failedMask := sm_failedMask s; sm_saimPending := sm_saimPending s; sm_allFailed := sm_allFailed s;
  sm_aiInvalid := sm_aiInvalid s; sm_presenceSeen := sm_presenceSeen s; sm_unusableSeen := sm_unusableSeen
  s; sm_lastRelease := sm_lastRelease s; sm_cmdSeqNo := sm_cmdSeqNo s; sm_pending := sm_pending s;
  sm_lastScan := sm_lastScan s; sm_app := sm_app s; sm_ftOwner := sm_ftOwner s; sm_dsOwner := sm_dsOwner s;
  sm_sent := sm_sent s; sm_owes := x |}.

(** ** Object records of a packet *)

(** What the caller hands to [sendDecisionCommand] for the packet's objects: the
    request and its winning slot, or the records themselves. *)
Record Attach := {
  at_request : option DecisionRequest;
  at_slot : option nat;
  at_pair : option (ObjectRecord * ObjectRecord);
}.

Definition no_attach : Attach := {| at_request := None; at_slot := None; at_pair := None |}.
Definition attach_request (r : DecisionRequest) : Attach :=
  {| at_request := Some r; at_slot := None; at_pair := None |}.
Definition attach_slot (r : DecisionRequest) (slot : nat) : Attach :=
  {| at_request := Some r; at_slot := Some slot; at_pair := None |}.

(** Entry [index] of a metadata array of two. *)
Definition pair_nth {A} (p : A * A) (index : bool) : A := if index then p.2 else p.1.

Definition copyObjectRecordFromMetadata (meta : EventFusionMetadata) (index : bool) : ObjectRecord :=
  let c := nth (if index then 1 else 0)%nat (fm_coordinates meta) zero_coordinates in
  {| or_object_id := pair_nth (fm_objectID meta) index; or_x := tc_x c; or_y := tc_y c; or_z := 0;
     or_metadata := u32 (pair_nth (fm_objectType meta) index) |}.

(** The first slot whose type satisfies [p]. *)
Definition first_type (p : ObjectType -> bool) (meta : EventFusionMetadata) : option bool :=
  if p (fm_objectType meta).1 then Some false else if p (fm_objectType meta).2 then Some true else None.

Definition fillPairObjectRecords (meta : EventFusionMetadata) : ObjectRecord * ObjectRecord :=
  let firstPerson := first_type (fun t => t =? PERSON) meta in
  let firstNonPerson := first_type (fun t => negb (t =? PERSON)) meta in
  match firstPerson with
  | Some person =>
    (match firstNonPerson with
     | Some other => copyObjectRecordFromMetadata meta other
     | None => zero_object
     end, copyObjectRecordFromMetadata meta person)
  | None => (copyObjectRecordFromMetadata meta false, copyObjectRecordFromMetadata meta true)
  end.

Definition usable_entry (sd : SensorData) : bool :=
  negb (ev_status (sd_event sd) =? STALE) && sd_isHealthy sd && sd_isTrustedSource sd.

Definition isUsableObjectMetadataSlot (r : DecisionRequest) (slot : nat) : bool :=
  match populated r !! slot with Some sd => usable_entry sd | None => false end.

(** The slot whose metadata the packet carries. *)
Definition object_slot (r : DecisionRequest) (winningSlot : option nat) : option nat :=
  match winningSlot with
  | Some slot => if isUsableObjectMetadataSlot r slot then Some slot
                 else fst <$> list_find (fun sd => Is_true (usable_entry sd)) (populated r)
  | None => fst <$> list_find (fun sd => Is_true (usable_entry sd)) (populated r)
  end.

(** [fill] is the application's [fillPairObjectRecords]. *)
Definition fillObjectRecords (fill : EventFusionMetadata -> ObjectRecord * ObjectRecord)
    (request : option DecisionRequest) (winningSlot : option nat) : ObjectRecord * ObjectRecord :=
  match request with
  | None => (zero_object, zero_object)
  | Some r =>
    match object_slot r winningSlot with
    | None => (zero_object, zero_object)
    | Some slot => fill (ev_fusionMetadata (sd_event (nth slot (populated r) zero_sensorData)))
    end
  end.

(** ** The application *)

Class SdmApp (App : Type) := {
  (** Packet identifier, and the opcode the application sends besides STOP and NORMAL. *)
  app_identifier : Z;
  app_motion : Z;
  app_initial : App;
  (** The clock (us) acknowledgements are timed with. *)
  app_ackClock : Env -> Z;
  (** The object records of a packet. *)
  app_objects : Z -> App -> Z -> Attach -> ObjectRecord * ObjectRecord;
  (** The published command becomes STOP. *)
  app_stop : App -> App;
  (** A release returns the state to normal. *)
  app_release : App -> App;
  (** Critical sections in which a batch received at a time updates the state. *)
  app_ingest : DecisionRequest -> Z -> list (App -> App);
  (** Whether the verdict on a batch is taken under [decisionSendMtx]. *)
  app_under_send : bool;
  (** The command for a batch, if it has one. *)
  app_verdict : DecisionRequest -> Z -> App -> option (Z * Attach) * App;
  (** Publish the command of a batch. *)
  app_commit : Z -> App -> App;
  (** The command the periodic thread repeats. *)
  app_periodic : Z -> App -> (Z * Attach) * App;
  (** The verdict of the evaluation tick, for an application that has one. *)
  app_tick : option (Z -> App -> Z * App);
  (** Publish a tick's verdict; true when it changed. *)
  app_publish : Z -> App -> bool * App;
}.

Section Core.
Context {App : Type} `{!SdmApp App} (cf : SdmConfig).

Local Abbreviation P := (prog (Sdm App) Env).
Local Open Scope prog_scope.

(** ** Locks and the auxiliary variable *)

Definition lock_ft (t : Tid) : P unit :=
  act (fun _ s => match sm_ftOwner s with None => Some (tt, set_ftOwner (Some t) s) | Some _ => None end).
Definition unlock_ft : P unit := pmodify (fun _ s => set_ftOwner None s).
Definition lock_ds (t : Tid) : P unit :=
  act (fun _ s => match sm_dsOwner s with None => Some (tt, set_dsOwner (Some t) s) | Some _ => None end).
Definition unlock_ds : P unit := pmodify (fun _ s => set_dsOwner None s).

(** A scope that holds [decisionSendMtx]. *)
Definition with_ds {A} (t : Tid) (p : P A) : P A := lock_ds t ;; a ← p; unlock_ds ;; Ret a.

Definition owe (t : Tid) (b : bool) (s : Sdm App) : Sdm App :=
  set_owes (fun t' => if decide (t' = t) then b else sm_owes s t') s.
Definition borrow (t : Tid) (b : bool) (s : Sdm App) : Sdm App := if b then owe t true s else s.

(** ** The PLC link *)

Definition tracked_command (command : Z) : bool :=
  (command =? CMD_STOP) || (command =? app_motion) || (command =? CMD_NORMAL) || (command =? CMD_SW_ERROR) ||
  (command =? CMD_SAFE_RELEASE_ACK) || (command =? CMD_SAFE_RELEASE_DENIED).

Definition nextCommandSeq : P Z := pupdate (fun _ s => (u16 (sm_cmdSeqNo s), set_cmdSeqNo (u32 (sm_cmdSeqNo s + 1)) s)).

(** Seconds and microseconds of the wall clock. *)
Definition getCurrentUTCTimeForPacket : P (Z * Z) :=
  pgets (fun e _ => (u64 (e_wall e / 1000000), u64 (e_wall e mod 1000000))).

Definition stamp (p : CmdPacket) : CmdPacket := set_cp_crc32 (cmdPacketCRC32 p) p.

Definition make_packet (seqNo command : Z) (ts : Z * Z) (objects : ObjectRecord * ObjectRecord) : CmdPacket :=
  stamp {| cp_identifier := app_identifier; cp_seq := seqNo; cp_command := command; cp_ts_seconds := ts.1;
           cp_ts_microseconds := ts.2; cp_crc32 := 0; cp_objects := objects |}.

(** [sendto]; the hold is complete with its SW_ERROR. *)
Definition plc_send (t : Tid) (p : CmdPacket) : P bool :=
  pupdate (fun e s =>
    let s := set_sent ({| tx_packet := p; tx_ok := e_ok e |} :: sm_sent s) s in
    (e_ok e, if cp_command p =? CMD_SW_ERROR then owe t false s else s)).

(** Drop the pending entry of a send that failed. *)
Definition forget_pending (seqNo command : Z) (ts : Z * Z) (m : gmap Z CommandStatus) : gmap Z CommandStatus :=
  match m !! seqNo with
  | Some c => if (cs_command c =? command) && (cs_sentTimeSec c =? ts.1) && (cs_sentTimeMicro c =? ts.2)
              then delete seqNo m else m
  | None => m
  end.

Definition sendDecisionCommand (t : Tid) (command : Z) (trackAck : bool) (a : Attach) : P bool :=
  seqNo ← nextCommandSeq;
  ts ← getCurrentUTCTimeForPacket;
  objects ← pgets (fun e s => app_objects (e_now e) (sm_app s) command a);
  let track := trackAck && tracked_command command in
  pwhen track (pmodify (fun e s => set_pending (<[seqNo := {|
    cs_sentTime := app_ackClock e; cs_command := command; cs_acknowledged := false;
    cs_sentTimeSec := ts.1; cs_sentTimeMicro := ts.2 |}]> (sm_pending s)) s)) ;;
  sentOk ← plc_send t (make_packet seqNo command ts objects);
  pwhen (negb sentOk && track) (pmodify (fun _ s => set_pending (forget_pending seqNo command ts (sm_pending s)) s)) ;;
  Ret sentOk.

(** [sendProximitySafeHold]: STOP then SW_ERROR. *)
Definition sendSafeHold (t : Tid) (a : Attach) : P unit :=
  sendDecisionCommand t CMD_STOP true a ;;
  sendDecisionCommand t CMD_SW_ERROR true a ;;
  Ret tt.

(** [sendLatchedProximitySafeHold]. *)
Definition sendLatchedSafeHold (t : Tid) : P unit := with_ds t (sendSafeHold t no_attach).

(** ** Latches *)

Definition pssAnySubCauseActive (s : Sdm App) : bool := existsb (Z.testbit (sm_subActive s)) all_sub_causes.

Definition safeStateLatched (s : Sdm App) : bool := negb (sm_latch s =? 0).

Definition or_latch (bit : Z) (s : Sdm App) : Sdm App := set_latch (Z.lor (sm_latch s) bit) s.

Definition markPssSubCause (cause : Z) : P unit :=
  pmodify (fun _ s =>
    or_latch kSafeLatchPss (set_pssSuppress true (set_subActive (Z.setbit (sm_subActive s) cause) s))).

Definition clear_sub_cause (cause : Z) (s : Sdm App) : Sdm App :=
  if negb (Z.testbit (sm_subActive s) cause) then s
  else
    let s := set_subActive (Z.clearbit (sm_subActive s) cause) s in
    if negb (pssAnySubCauseActive s) then set_pssSuppress false s else s.

Definition clearPssSubCause (cause : Z) : P unit := pmodify (fun _ => clear_sub_cause cause).

(** The published command becomes STOP, under the application's state mutex. *)
Definition publish_stop : P unit := pmodify (fun _ s => set_app (app_stop (sm_app s)) s).

(** ** Sensor health *)

Definition safetyRelevantSensorBit (pipelineId : Z) : Z :=
  if (pipelineId =? 0) || (kReviewedSensorMaxPipelineId <? pipelineId) then 0
  else if existsb (Z.eqb pipelineId) (cf_reviewed cf) then Z.shiftl 1 (pipelineId - 1) else 0.

(** [gReviewedSensors.mask]. *)
Definition reviewed_mask : Z := fold_left (fun m id => Z.lor m (Z.shiftl 1 (id - 1))) (cf_reviewed cf) 0.

Definition markAllSafetyRelevantSensorsFailedLatched (t : Tid) : P bool :=
  was ← pupdate (fun _ s => (sm_allFailed s, set_allFailed true s));
  if was : bool then Ret false
  else pmodify (fun _ s => borrow t true (or_latch kSafeLatchAllSafetyRelevantSensorsFailed s)) ;; Ret true.

Definition clearAllSafetyRelevantSensorsFailedActiveIfRecovered (failedMask : Z) : P unit :=
  pwhen (negb (Z.land failedMask reviewed_mask =? reviewed_mask)) (pmodify (fun _ s => set_allFailed false s)).

Definition updateSafetyRelevantSensorFailedBit (bit : Z) (failed : bool) : P Z :=
  pupdate (fun _ s =>
    let mask := if failed then Z.lor (sm_failedMask s) bit else Z.land (sm_failedMask s) (u32_not bit) in
    (mask, set_failedMask mask s)).

(** One entry: [None] leaves the sensor's failed bit alone. *)
Definition sensor_verdict (bit : Z) (sd : SensorData) : P (option bool) :=
  let et := ev_type (sd_event sd) in
  if (et =? SENSOR_INVALID) || negb (sd_isHealthy sd) then
    if ev_cause (sd_event sd) =? CAUSE_SAIM_INIT then
      pwhen (et =? SENSOR_INVALID) (pmodify (fun _ s => set_saimPending (Z.lor (sm_saimPending s) bit) s)) ;;
      Ret None
    else if et =? SENSOR_INVALID then Ret (Some true)
    else
      pending ← pgets (fun _ s => sm_saimPending s);
      Ret (if negb (Z.land pending bit =? 0) then None else Some true)
  else if (et =? SENSOR_VALID) || (sd_isHealthy sd && sd_isTrustedSource sd) then
    pmodify (fun _ s => set_saimPending (Z.land (sm_saimPending s) (u32_not bit)) s) ;; Ret (Some false)
  else Ret None.

Definition updateSensorHealth_entry (t : Tid) (sd : SensorData) : P bool :=
  if ev_status (sd_event sd) =? STALE then Ret false
  else if ev_type (sd_event sd) =? PSS_STATUS_NOOP then Ret false
  else
    let bit := safetyRelevantSensorBit (fm_pipelineID (ev_fusionMetadata (sd_event sd))) in
    if bit =? 0 then Ret false
    else
      verdict ← sensor_verdict bit sd;
      match verdict with
      | None => Ret false
      | Some failed =>
        newMask ← updateSafetyRelevantSensorFailedBit bit failed;
        if Z.land newMask reviewed_mask =? reviewed_mask
        then markAllSafetyRelevantSensorsFailedLatched t
        else clearAllSafetyRelevantSensorsFailedActiveIfRecovered newMask ;; Ret false
      end.

Definition updateSensorHealthFromDecisionRequest (t : Tid) (r : DecisionRequest) : P bool :=
  pany (updateSensorHealth_entry t) (populated r).

(** ** AI-pipeline trust *)

Definition markAiPipelineInvalidLatched (t : Tid) : P bool :=
  pupdate (fun _ s =>
    let firstEdge := negb (sm_aiInvalid s) in
    (firstEdge, borrow t firstEdge (or_latch kSafeLatchAiPipelineInvalid (set_aiInvalid true s)))).

Definition clearAiPipelineInvalidActive : P unit := pmodify (fun _ s => set_aiInvalid false s).

Definition updateAiPipelineTrust_entry (t : Tid) (sd : SensorData) : P bool :=
  if ev_status (sd_event sd) =? STALE then Ret false
  else if ev_type (sd_event sd) =? AI_PIPELINE_INVALID then markAiPipelineInvalidLatched t
  else if ev_type (sd_event sd) =? AI_PIPELINE_VALID then clearAiPipelineInvalidActive ;; Ret false
  else Ret false.

Definition updateAiPipelineTrustFromDecisionRequest (t : Tid) (r : DecisionRequest) : P bool :=
  pany (updateAiPipelineTrust_entry t) (populated r).

(** ** Other latches *)

Definition markGatewayHbFaultLatched : P bool :=
  pupdate (fun _ s =>
    if sm_hbFault s then (false, s) else (true, or_latch kSafeLatchGatewayHb (set_hbFault true s))).

Definition clearGatewayHbFaultActive : P unit := pmodify (fun _ s => set_hbFault false s).

Definition markDecisionFreshnessFaultLatched (t : Tid) : P bool :=
  pupdate (fun _ s =>
    if sm_freshFault s then (false, s)
    else (true, borrow t true (or_latch kSafeLatchDecisionFreshness (set_freshFault true s)))).

Definition markGatewayDecisionSequenceFaultLatched (t : Tid) : P bool :=
  pupdate (fun _ s =>
    if sm_seqFault s then (false, s)
    else (true, borrow t true (or_latch kSafeLatchGatewayDecisionSequence (set_seqFault true s)))).

Definition markGatewayDecisionSequenceRecovered : P unit := pmodify (fun _ s => set_seqFault false s).

Definition markDecisionRequestFresh : P unit :=
  pmodify (fun e s => set_lastValid (e_now e) s) ;; pmodify (fun _ s => set_freshFault false s).

(** ** PSS sub-causes of one request *)

Definition kTracked : list Z := [kPssSubMonitorLost; kPssSubPerceptionMonitorLost; kPssSubMdxLost].

(** First loop of [applySourcePresence]; true when the cause must be entered. *)
Definition presence_transition (d : SdmPssSubCauseDelta) (cause : Z) : P bool :=
  pwhen (Z.testbit (d_cleared d) cause) (clearPssSubCause cause) ;;
  if Z.testbit (d_raised d) cause then pgets (fun _ s => negb (Z.testbit (sm_subActive s) cause)) else Ret false.

Fixpoint presence_transitions (d : SdmPssSubCauseDelta) (causes : list Z) : P (list Z) :=
  match causes with
  | [] => Ret []
  | c :: cs => e ← presence_transition d c; es ← presence_transitions d cs;
               Ret (if e : bool then c :: es else es)
  end.

(** Enter [causes], publish STOP and send the hold, under [decisionSendMtx]. *)
Definition enter_causes (t : Tid) (causes : list Z) (a : Attach) : P unit :=
  with_ds t (peach markPssSubCause causes ;; publish_stop ;; sendSafeHold t a).

Definition applySourcePresence (t : Tid) (r : DecisionRequest) : P unit :=
  d ← pupdate (fun _ s => let '(seen, d) := SdmSourcePresenceEvaluate (sm_presenceSeen s) (Some r) in
                          (d, set_presenceSeen seen s));
  entered ← presence_transitions d kTracked;
  match entered with
  | [] => Ret tt
  | _ => enter_causes t entered (attach_request r)
  end.

Definition applySourceInputState (t : Tid) (r : DecisionRequest) : P unit :=
  d ← pupdate (fun _ s => let '(seen, d) := SdmSourceInputStateEvaluate (sm_unusableSeen s) (Some r) in
                          (d, set_unusableSeen seen s));
  pwhen (Z.testbit (d_cleared d) kPssSubInputUnusable) (clearPssSubCause kPssSubInputUnusable) ;;
  if negb (Z.testbit (d_raised d) kPssSubInputUnusable) then Ret tt
  else
    active ← pgets (fun _ s => Z.testbit (sm_subActive s) kPssSubInputUnusable);
    if active : bool then Ret tt
    else enter_causes t [kPssSubInputUnusable] (attach_request r).

Definition is_sw_fail (sd : SensorData) : bool := ev_type (sd_event sd) =? SW_FAIL.

(** Loop of [applySwFailEvents]: the sub-cause masks of the SW_FAILs. *)
Definition sw_fail_raised (r : DecisionRequest) : Z :=
  fold_left (fun m sd => if is_sw_fail sd then Z.lor m (SdmSwFailSubCause (sd_event sd)) else m) (populated r) 0.

Definition first_sw_fail (r : DecisionRequest) : option nat :=
  fst <$> list_find (fun sd => Is_true (is_sw_fail sd)) (populated r).

Definition applySwFailEvents (t : Tid) (r : DecisionRequest) : P bool :=
  let raised := sw_fail_raised r in
  if raised =? 0 then Ret false
  else
    enter_causes t (List.filter (Z.testbit raised) all_sub_causes)
      {| at_request := Some r; at_slot := first_sw_fail r; at_pair := None |} ;;
    Ret true.

(** ** One decision request *)

(** Publish STOP and send the hold for a latch entered before. *)
Definition stop_and_hold (t : Tid) (r : DecisionRequest) : P unit :=
  with_ds t (publish_stop ;; sendSafeHold t (attach_request r)).

(** The hold check of the event path, and the command. *)
Definition send_or_hold (t : Tid) (command : Z) (a : Attach) : P unit :=
  tier2 ← pgets (fun _ s => sm_tier2Hold s);
  if tier2 : bool then sendSafeHold t a
  else
    latched ← pgets (fun _ s => safeStateLatched s);
    if latched : bool then sendSafeHold t a
    else sendDecisionCommand t command true a ;; Ret tt.

(** The decision on the batch. *)
Definition process_batch (t : Tid) (r : DecisionRequest) : P unit :=
  let verdict := pupdate (fun e s => let '(v, a) := app_verdict r (e_now e) (sm_app s) in (v, set_app a s)) in
  if app_under_send then
    with_ds t (
      v ← verdict;
      match v with
      | None => Ret tt
      | Some (command, a) => send_or_hold t command a
      end)
  else
    now ← pgets (fun e _ => e_now e);
    peach (fun f => pmodify (fun _ s => set_app (f (sm_app s)) s)) (app_ingest r now) ;;
    v ← verdict;
    match v with
    | None => Ret tt
    | Some (command, a) =>
      with_ds t (pmodify (fun _ s => set_app (app_commit command (sm_app s)) s) ;; send_or_hold t command a)
    end.

(** [mode == ERROR]. *)
Definition process_error_mode (t : Tid) (r : DecisionRequest) : P unit :=
  applySwFailEvents t r ;; enter_causes t [kPssSubModeError] (attach_request r).

(** [mode != ERROR]. *)
Definition process_normal_mode (t : Tid) (sensorLatchEntered : bool) (r : DecisionRequest) : P unit :=
  pwhen (SdmDecisionRequestClearsPssModeError (Some r)) (clearPssSubCause kPssSubModeError) ;;
  if (summary_count r =? 1) && (ev_type (sd_event (first_entry r)) =? PSS_STATUS_NOOP) then
    pwhen (SdmDecisionRequestIsGatewayCommRecovered (Some r)) (clearPssSubCause kPssSubGatewayComm)
  else
    pwhen (SdmDecisionRequestClearsPssSwFail (Some r))
      (clearPssSubCause kPssSubSwFail ;; clearPssSubCause kPssSubGatewayComm) ;;
    failed ← applySwFailEvents t r;
    if failed : bool then Ret tt
    else if sensorLatchEntered then stop_and_hold t r
    else process_batch t r.

Definition processDecisionRequestLocked (t : Tid) (r : DecisionRequest) : P unit :=
  aiEntered ← updateAiPipelineTrustFromDecisionRequest t r;
  pwhen aiEntered (stop_and_hold t r) ;;
  applySourcePresence t r ;;
  applySourceInputState t r ;;
  sensorLatchEntered ← updateSensorHealthFromDecisionRequest t r;
  if st_mode (dr_pssStatus r) =? ERROR then process_error_mode t r
  else process_normal_mode t sensorLatchEntered r.

(** ** The gateway listener *)

(** The packet under [faultTransitionMtx]. *)
Definition packet_transition (t : Tid) (packet : NvPSDGatewayDecisionRequestPacket) : P unit :=
  result ← pupdate (fun _ s =>
    let '(st, r) := sdmGatewayDecisionSequenceObserve (sm_seqState s) (pk_gatewayEpoch packet) (pk_gatewayTxSeq packet) in
    (r, set_seqState st s));
  match result with
  | SEQUENCE_DUPLICATE_OR_STALE | SEQUENCE_INVALID => Ret tt
  | SEQUENCE_GAP =>
    entered ← markGatewayDecisionSequenceFaultLatched t;
    pwhen entered (sendLatchedSafeHold t) ;;
    markDecisionRequestFresh ;;
    processDecisionRequestLocked t (pk_request packet)
  | SEQUENCE_ACCEPTED =>
    markGatewayDecisionSequenceRecovered ;;
    markDecisionRequestFresh ;;
    processDecisionRequestLocked t (pk_request packet)
  end.

Definition on_packet (t : Tid) (packet : NvPSDGatewayDecisionRequestPacket) : P unit :=
  if negb (NvPSDGatewayDecisionPacketHeaderIsValid (Some packet)) then Ret tt
  else if negb (validateDecisionRequest (Some (pk_request packet)) =? PSS_VALID) then Ret tt
  else lock_ft t ;; packet_transition t packet ;; unlock_ft.

Definition on_heartbeat : P unit := pmodify (fun e s => set_hbLastRecv (e_now e) s).

(** ** PLC safe-release *)

Definition flag (b : bool) (bit : Z) (active : Z) : Z := if b then Z.lor active bit else active.

Definition activeSafeLatchCauses (s : Sdm App) : Z :=
  let active := 0 in
  let active := flag (sm_hbFault s || sm_tier2Hold s) kSafeLatchGatewayHb active in
  let active := flag (pssAnySubCauseActive s) kSafeLatchPss active in
  let active := flag (sm_freshFault s) kSafeLatchDecisionFreshness active in
  let active := flag (sm_seqFault s) kSafeLatchGatewayDecisionSequence active in
  let active := flag (sm_allFailed s) kSafeLatchAllSafetyRelevantSensorsFailed active in
  flag (sm_aiInvalid s) kSafeLatchAiPipelineInvalid active.

Definition resetStateFromPlcSafeRelease : P unit := pmodify (fun _ s => set_app (app_release (sm_app s)) s).

Definition markSafeReleaseNoopResponseSuccess (now : Z) : P unit := pmodify (fun _ s => set_lastRelease (Some now) s).

(** Clear the latch if it is still the snapshot and nothing is active. *)
Definition clear_latch (releaseLatchSnapshot : Z) : P bool :=
  pupdate (fun _ s =>
    if (sm_latch s =? releaseLatchSnapshot) && (activeSafeLatchCauses s =? 0) then (true, set_latch 0 s) else (false, s)).

(** The release of a latched state, once no cause was active. *)
Definition release_latched (t : Tid) (snapshot : Z) : P unit :=
  now ← pgets (fun e _ => e_now e);
  ackSent ← sendDecisionCommand t CMD_SAFE_RELEASE_ACK false no_attach;
  normalSent ← sendDecisionCommand t CMD_NORMAL true no_attach;
  if ackSent && normalSent then
    latchCleared ← clear_latch snapshot;
    if latchCleared : bool then
      resetStateFromPlcSafeRelease ;;
      pmodify (fun _ s => set_tier2Hold false s) ;;
      markSafeReleaseNoopResponseSuccess now
    else sendSafeHold t no_attach
  else Ret tt.

(** The answer when nothing is latched. *)
Definition release_unlatched (t : Tid) : P unit :=
  now ← pgets (fun e _ => e_now e);
  ackSent ← sendDecisionCommand t CMD_SAFE_RELEASE_ACK false no_attach;
  normalSent ← sendDecisionCommand t CMD_NORMAL true no_attach;
  if ackSent && normalSent then resetStateFromPlcSafeRelease ;; markSafeReleaseNoopResponseSuccess now
  else Ret tt.

(** The release under both locks. *)
Definition release_locked (t : Tid) : P unit :=
  active ← pgets (fun _ s => activeSafeLatchCauses s);
  if negb (active =? 0) then
    sendDecisionCommand t CMD_SAFE_RELEASE_DENIED false no_attach ;; sendSafeHold t no_attach
  else
    snapshot ← pgets (fun _ s => sm_latch s);
    if negb (snapshot =? 0) then release_latched t snapshot else release_unlatched t.

Definition handleSafeReleaseRequest (t : Tid) : P unit :=
  lock_ft t ;; with_ds t (release_locked t) ;; unlock_ft.

(** ** The ACK thread *)

Definition isValidPlcInboundCommand (command : Z) : bool :=
  (command =? CMD_HEARTBEAT) || (command =? CMD_STOP) || (command =? app_motion) || (command =? CMD_NORMAL) ||
  (command =? CMD_HW_ERROR) || (command =? CMD_SW_ERROR) || (command =? CMD_SAFE_RELEASE_REQUEST).

(** Match an ACK with its pending command; true when it must be dropped. *)
Definition receive_ack (pkt : CmdPacket) : P bool :=
  pupdate (fun _ s =>
    match sm_pending s !! cp_seq pkt with
    | Some c =>
      if negb (cp_command pkt =? cs_command c) then (true, s)
      else (false, set_pending (<[cp_seq pkt := set_acknowledged c]> (sm_pending s)) s)
    | None => (false, s)
    end).

(** Whether the scan at [now] (wall clock, us) keeps an entry. *)
Definition keeps_pending (now : Z) (c : CommandStatus) : bool :=
  now - cs_sentTime c <=? (if cs_acknowledged c then ACK_CLEANUP_SECONDS else ACK_TIMEOUT_SECONDS) * 1000000.

(** The timeout and clean-up scan. *)
Definition scan_pending : P unit :=
  due ← pupdate (fun e s => if ACK_MONITOR_INTERVAL_S * 1000 <=? e_now e - sm_lastScan s
                            then (true, set_lastScan (e_now e) s) else (false, s));
  pwhen due (pmodify (fun e s =>
    set_pending (filter (fun kc => Is_true (keeps_pending (app_ackClock e) kc.2)) (sm_pending s)) s)).

(** One pass of [ackHandlerLoop]: a datagram, with whether it came from the
    configured endpoint, or none. *)
Definition ackHandlerLoop (t : Tid) (datagram : option (bool * list Z)) : P unit :=
  match datagram with
  | Some (configured, bytes) =>
    if negb (length bytes =? COMMAND_PACKET_SIZE)%nat then scan_pending
    else if negb configured then Ret tt
    else
      let pkt := dec_packet bytes in
      if negb (cp_identifier pkt =? app_identifier) then scan_pending
      else if negb (cmdPacketValidateCRC pkt) then scan_pending
      else if negb (isValidPlcInboundCommand (cp_command pkt)) then scan_pending
      else if cp_command pkt =? CMD_SAFE_RELEASE_REQUEST then handleSafeReleaseRequest t ;; scan_pending
      else
        dropAck ← receive_ack pkt;
        if dropAck : bool then Ret tt else scan_pending
  | None => scan_pending
  end.

(** ** Watchdogs and periodic threads *)

Definition gatewayMissFromElapsedMs (elapsedMs : Z) : Z :=
  if elapsedMs <=? cf_hbStaleMs cf then 0
  else
    let m := 1 + Z.quot (elapsedMs - cf_hbStaleMs cf) (cf_hbPeriodMs cf) in
    if cf_maxHbFailures cf <? m then cf_maxHbFailures cf else m.

(** [m <= warnW]: leave the tier-2 hold. *)
Definition leave_tier2 (t : Tid) : P unit :=
  hadTier2 ← pupdate (fun _ s => (sm_tier2Hold s, set_tier2Hold false s));
  if hadTier2 : bool then
    suppressed ← pgets (fun _ s => sm_pssSuppress s);
    pwhen suppressed (sendLatchedSafeHold t)
  else Ret tt.

(** One pass of [gatewayHeartbeatWatchdog]. *)
Definition gatewayHeartbeatWatchdog (t : Tid) : P unit :=
  let maxF := cf_maxHbFailures cf in
  let warnW := cf_warnThreshold cf in
  elapsed ← pgets (fun e s => e_now e - sm_hbLastRecv s);
  let m := gatewayMissFromElapsedMs elapsed in
  pwhen (m =? 0) clearGatewayHbFaultActive ;;
  pwhen (m <=? warnW) (leave_tier2 t) ;;
  prevMiss ← pgets (fun _ s => sm_prevMiss s);
  pwhen ((warnW <? m) && (m <? maxF) && (prevMiss <=? warnW))
    (pmodify (fun _ s => set_tier2Attempts (if warnW + 1 <? maxF then maxF - warnW - 1 else 0) s) ;;
     with_ds t (pmodify (fun _ s => set_tier2Hold true s) ;; sendSafeHold t no_attach)) ;;
  pmodify (fun _ s => set_prevMiss m s) ;;
  pmodify (fun _ s => set_lastMiss m s) ;;
  pwhen (maxF <=? m)
    (with_ds t (entered ← markGatewayHbFaultLatched; pwhen entered (sendSafeHold t no_attach))).

(** One pass of [decisionFreshnessWatchdog]. *)
Definition decisionFreshnessWatchdog (t : Tid) : P unit :=
  lastValid ← pgets (fun _ s => sm_lastValid s);
  now ← pgets (fun e _ => e_now e);
  if sdmDecisionFreshnessExpired (u64 (now - lastValid)) (cf_freshnessTimeoutMs cf) then
    entered ← markDecisionFreshnessFaultLatched t;
    pwhen entered (sendLatchedSafeHold t)
  else Ret tt.

(** One pass of [heartbeatTransmitter]. *)
Definition heartbeatTransmitter (t : Tid) : P unit :=
  with_ds t (sendDecisionCommand t CMD_HEARTBEAT true no_attach) ;; Ret tt.

(** One pass of [proximityPeriodicDecisionLoop]. *)
Definition periodicDecisionLoop (t : Tid) : P unit :=
  with_ds t (
    latched ← pgets (fun _ s => safeStateLatched s);
    if latched : bool then sendSafeHold t no_attach
    else
      suppressed ← pgets (fun _ s => sm_pssSuppress s);
      if suppressed : bool then sendSafeHold t no_attach
      else
        tier2 ← pgets (fun _ s => sm_tier2Hold s);
        if tier2 : bool then sendSafeHold t no_attach
        else
          ca ← pupdate (fun e s => let '(ca, a) := app_periodic (e_now e) (sm_app s) in (ca, set_app a s));
          sendDecisionCommand t ca.1 true ca.2 ;; Ret tt).

(** One pass of [cjsJunctionEvalLoop]. *)
Definition evaluationTick (t : Tid) (tick : Z -> App -> Z * App) : P unit :=
  desired ← pupdate (fun e s => let '(c, a) := tick (e_now e) (sm_app s) in (c, set_app a s));
  with_ds t (
    changed ← pupdate (fun _ s => let '(b, a) := app_publish desired (sm_app s) in (b, set_app a s));
    if negb changed then Ret tt
    else
      latched ← pgets (fun _ s => safeStateLatched s);
      if latched : bool then Ret tt
      else
        suppressed ← pgets (fun _ s => sm_pssSuppress s);
        if suppressed : bool then Ret tt
        else
          tier2 ← pgets (fun _ s => sm_tier2Hold s);
          if tier2 : bool then Ret tt
          else sendDecisionCommand t desired true no_attach ;; Ret tt).

(** ** The process *)

Inductive Input :=
  | InPacket (packet : NvPSDGatewayDecisionRequestPacket)
  | InHeartbeat
  | InPlc (datagram : option (bool * list Z))
  | InTick.

(** What each thread runs for one input: a packet, a datagram, or a wake-up. *)
Definition body (t : Tid) (i : Input) : option (P unit) :=
  match t, i with
  | Listener, InPacket packet => Some (on_packet t packet)
  | Listener, InHeartbeat => Some on_heartbeat
  | AckHandler, InPlc datagram => Some (ackHandlerLoop t datagram)
  | HbWatchdog, InTick => Some (gatewayHeartbeatWatchdog t)
  | FreshnessWatchdog, InTick => Some (decisionFreshnessWatchdog t)
  | PeriodicDecision, InTick => Some (periodicDecisionLoop t)
  | HeartbeatTx, InTick => Some (heartbeatTransmitter t)
  | EvalTick, InTick => evaluationTick t <$> app_tick
  | _, _ => None
  end.

(** After [resetSafeStateFaultsForLaunch], at time [now]. *)
Definition initial (now : Z) : Sdm App := {|
  sm_subActive := 0; sm_pssSuppress := false; sm_latch := 0; sm_hbFault := false; sm_tier2Hold := false;
  sm_lastMiss := 0; sm_prevMiss := 0; sm_tier2Attempts := 0; sm_hbLastRecv := now; sm_freshFault := false;
  sm_lastValid := now; sm_seqFault := false; sm_seqState := sdmGatewayDecisionSequenceReset;
  sm_failedMask := 0; sm_saimPending := 0; sm_allFailed := false; sm_aiInvalid := false;
  sm_presenceSeen := 0; sm_unusableSeen := 0; sm_lastRelease := None; sm_cmdSeqNo := 0; sm_pending := ∅;
  sm_lastScan := now; sm_app := app_initial; sm_ftOwner := None; sm_dsOwner := None; sm_sent := [];
  sm_owes := fun _ => false |}.

(** A run of the process from launch under a schedule. *)
Definition runs (now : Z) (schedule : list Label) : option (@Pool (Sdm App) Env Tid) :=
  exec body schedule (idle_pool (initial now)).
End Core.
