(* ===== verification/SdmRules.v ===== *)
(** * Rely-guarantee rules of the decision-maker core

    The invariant of the shared state of [SdmCore], what each step of a thread
    guarantees to the others, and one rule per atomic action.  [SdmSafety] puts
    the handlers together from them. *)

From S2P Require Import Prelude Protocol Crc Validate SdmRequestState GatewayContract SdmSequence Threads PlcPacket SdmCore.

(** ** What the PLC was told last *)

Inductive Word := WHold | WSplit | WMotion.

#[export] Instance Word_eq_dec : EqDecision Word.
Proof. solve_decision. Defined.

(** Commands that leave the PLC's state of motion alone. *)
Definition no_motion (c : Z) : bool :=
  (c =? CMD_HEARTBEAT) || (c =? CMD_SAFE_RELEASE_ACK) || (c =? CMD_SAFE_RELEASE_DENIED) || (c =? CMD_SW_ERROR).

(** From the newest send back: a SW_ERROR right after a STOP is the hold; a
    delivered motion command is its own word, except a NORMAL whose release
    acknowledgement was not delivered (a split release); an undelivered one says
    nothing. *)
Fixpoint last_word (l : list Tx) : Word :=
  match l with
  | [] => WMotion
  | x :: l' =>
    match l' with
    | y :: _ =>
      if (tx_command x =? CMD_SW_ERROR) && (tx_command y =? CMD_STOP) then WHold
      else if no_motion (tx_command x) || negb (tx_ok x) then last_word l'
      else if (tx_command x =? CMD_NORMAL) && (tx_command y =? CMD_SAFE_RELEASE_ACK) && negb (tx_ok y) then WSplit
      else WMotion
    | [] => WMotion
    end
  end.

Section Safety.
Context {App : Type} `{!SdmApp App} (cf : SdmConfig).

Local Abbreviation P := (prog (Sdm App) Env).
Local Open Scope prog_scope.

Implicit Types (s : Sdm App) (t : Tid).

(** ** Assertions *)

(** The state in which every command must give way to the hold. *)
Definition needs_hold s : Prop := sm_latch s <> 0 \/ sm_tier2Hold s = true.

Definition word_ok s : Prop := last_word (sm_sent s) <> WMotion.

Definition balanced s : Prop := needs_hold s -> word_ok s \/ exists t, sm_owes s t = true.

Record Inv s : Prop := {
  inv_word : sm_dsOwner s = None -> balanced s;
  inv_suppress : sm_pssSuppress s = pssAnySubCauseActive s;
  inv_pss : pssAnySubCauseActive s = true -> Z.testbit (sm_latch s) 1 = true;
  inv_hb : sm_hbFault s = true -> Z.testbit (sm_latch s) 0 = true;
  inv_fresh : sm_freshFault s = true -> Z.testbit (sm_latch s) 2 = true;
  inv_seq : sm_seqFault s = true -> Z.testbit (sm_latch s) 3 = true;
  inv_all : sm_allFailed s = true -> Z.testbit (sm_latch s) 4 = true \/ sm_ftOwner s = Some Listener;
  inv_ai : sm_aiInvalid s = true -> Z.testbit (sm_latch s) 5 = true;
}.

(** The one step that clears latches: a release whose two answers went out, with
    no fault active. *)
Definition release_clears t s s' : Prop :=
  t = AckHandler /\ sm_ftOwner s = Some t /\ sm_dsOwner s = Some t /\ sm_latch s' = 0 /\
  activeSafeLatchCauses s = 0 /\
  exists n a l, sm_sent s = n :: a :: l /\ tx_command n = CMD_NORMAL /\ tx_ok n = true /\
    tx_command a = CMD_SAFE_RELEASE_ACK /\ tx_ok a = true.

(** What every step of thread [t] guarantees to the others. *)
Record Guar t s s' : Prop := {
  gu_ft t' : t' <> t -> sm_ftOwner s' = Some t' <-> sm_ftOwner s = Some t';
  gu_ds t' : t' <> t -> sm_dsOwner s' = Some t' <-> sm_dsOwner s = Some t';
  gu_sent : sm_dsOwner s <> Some t -> sm_sent s' = sm_sent s;
  gu_tier2 : sm_dsOwner s <> Some t -> sm_tier2Hold s' = true -> sm_tier2Hold s = true;
  gu_owes t' : t' <> t -> sm_owes s' t' = sm_owes s t';
  gu_debt : sm_dsOwner s <> Some t -> sm_owes s t = true -> sm_owes s' t = true;
  gu_latch_new : sm_dsOwner s <> Some t -> sm_latch s' <> 0 -> sm_latch s <> 0 \/ sm_owes s' t = true;
  gu_latch : (forall k, Z.testbit (sm_latch s) k = true -> Z.testbit (sm_latch s') k = true) \/ release_clears t s s';
  gu_all : t <> Listener -> sm_allFailed s' = sm_allFailed s;
}.

(** Why a thread may be blocked: another owns [decisionSendMtx], or another owns
    [faultTransitionMtx] and this one does not own [decisionSendMtx]. *)
Definition Waits t s : Prop :=
  (exists t', t' <> t /\ sm_dsOwner s = Some t') \/
  (exists t', t' <> t /\ sm_ftOwner s = Some t' /\ sm_dsOwner s <> Some t).

Definition Idle t s : Prop := sm_ftOwner s <> Some t /\ sm_dsOwner s <> Some t /\ sm_owes s t = false.

(** All-sensors-failed is latched, as the listener sees it. *)
Definition all_latched t s : Prop :=
  t = Listener -> sm_allFailed s = true -> Z.testbit (sm_latch s) 4 = true.

(** Thread [t] owns the locks [ft] and [ds] and owes a hold or not. *)
Record At t (ft ds ow : bool) s : Prop := {
  at_ft : bool_decide (sm_ftOwner s = Some t) = ft;
  at_ds : bool_decide (sm_dsOwner s = Some t) = ds;
  at_owes : sm_owes s t = ow;
  at_all : all_latched t s;
}.

(** Inside [decisionSendMtx]: some other thread owes the hold for whatever is
    latched, so that any command may be sent. *)
Definition covered_latch t s : Prop := sm_latch s <> 0 -> exists t', t' <> t /\ sm_owes s t' = true.
Definition free_to_send t s : Prop := covered_latch t s /\ sm_tier2Hold s = false.

Definition Ds t (ft ow : bool) (Phi : Sdm App -> Prop) s : Prop := At t ft true ow s /\ Phi s.

(** ** Stability *)

Abbreviation stable := (stable Inv Guar).
Abbreviation triple := (triple (E:=Env) Inv Guar Waits).

Lemma owner_agree (o o' : option Tid) t : (o' = Some t <-> o = Some t) ->
  bool_decide (o' = Some t) = bool_decide (o = Some t).
Proof. intros H. by apply bool_decide_ext. Qed.

Lemma all_latched_stable t : stable t (fun s => all_latched t s).
Proof.
  intros t' s s' Hne Hi Hi' HG Ha -> Hf. rewrite (gu_all _ _ _ HG) in Hf by done.
  destruct (gu_latch _ _ _ HG) as [Hk|(? & Hft & _)]; [by apply Hk, Ha|].
  destruct (inv_all _ Hi' ) as [?|Hl]; [by rewrite (gu_all _ _ _ HG)|done|].
  exfalso. apply (gu_ft _ _ _ HG Listener) in Hl; [|done]. congruence.
Qed.

Lemma at_stable t ft ds ow : stable t (At t ft ds ow).
Proof.
  intros t' s s' Hne Hi Hi' HG [Hft Hds How Ha]. split.
  - rewrite <- Hft. apply owner_agree, (gu_ft _ _ _ HG). congruence.
  - rewrite <- Hds. apply owner_agree, (gu_ds _ _ _ HG). congruence.
  - rewrite <- How. apply (gu_owes _ _ _ HG). congruence.
  - by apply (all_latched_stable t t' s s').
Qed.

Lemma idle_stable t : stable t (Idle t).
Proof.
  intros t' s s' Hne Hi Hi' HG (Hft & Hds & How). split_and!.
  - rewrite (gu_ft _ _ _ HG) by congruence. done.
  - rewrite (gu_ds _ _ _ HG) by congruence. done.
  - rewrite (gu_owes _ _ _ HG) by congruence. done.
Qed.

(** What holds under [decisionSendMtx] whatever the others do. *)
Definition ds_stable t (Phi : Sdm App -> Prop) : Prop :=
  forall t' s s', t' <> t -> sm_dsOwner s = Some t -> Inv s -> Inv s' -> Guar t' s s' -> Phi s -> Phi s'.

Lemma ds_stable_Ds t ft ow Phi : ds_stable t Phi -> stable t (Ds t ft ow Phi).
Proof.
  intros HP t' s s' Hne Hi Hi' HG [Ha Hp]. split; [by apply (at_stable t ft true ow t' s s')|].
  apply (HP t' s s'); try done. by eapply bool_decide_eq_true_1, at_ds.
Qed.

Lemma ds_not_other t t' s : t' <> t -> sm_dsOwner s = Some t -> sm_dsOwner s <> Some t'.
Proof. congruence. Qed.

Lemma sent_ds_stable t (Phi : list Tx -> Prop) : ds_stable t (fun s => Phi (sm_sent s)).
Proof. intros t' s s' Hne Ho _ _ HG. by rewrite (gu_sent _ _ _ HG) by (by eapply ds_not_other). Qed.

Lemma covered_latch_stable t : ds_stable t (covered_latch t).
Proof.
  intros t' s s' Hne Ho _ _ HG Hc Hl. pose proof (ds_not_other _ _ _ Hne Ho) as Hno.
  destruct (gu_latch_new _ _ _ HG Hno Hl) as [Hold|?]; [|by exists t'].
  destruct (Hc Hold) as (u & Hu & Hou). exists u. split; [done|].
  destruct (decide (u = t')) as [->|]; [by apply (gu_debt _ _ _ HG)|]. by rewrite (gu_owes _ _ _ HG).
Qed.

Lemma no_tier2_stable t : ds_stable t (fun s => sm_tier2Hold s = false).
Proof.
  intros t' s s' Hne Ho _ _ HG Hf. apply not_true_is_false. intros Ht.
  apply (gu_tier2 _ _ _ HG) in Ht; [congruence|by eapply ds_not_other].
Qed.

Lemma balanced_stable t : ds_stable t balanced.
Proof.
  intros t' s s' Hne Ho _ _ HG Hb Hn. pose proof (ds_not_other _ _ _ Hne Ho) as Hno.
  assert (Hkeep : (exists u, sm_owes s u = true) -> exists u, sm_owes s' u = true).
  { intros [u Hu]. exists u. destruct (decide (u = t')) as [->|]; [by apply (gu_debt _ _ _ HG)|].
    by rewrite (gu_owes _ _ _ HG). }
  assert (needs_hold s \/ exists u, sm_owes s' u = true) as [Hs|?]; [|..|by right].
  { destruct Hn as [Hl|Ht].
    - destruct (gu_latch_new _ _ _ HG Hno Hl); [by left; left|right; eauto].
    - left. right. by apply (gu_tier2 _ _ _ HG). }
  destruct (Hb Hs) as [Hw|Hd]; [left|right; by apply Hkeep].
  unfold word_ok. by rewrite (gu_sent _ _ _ HG).
Qed.

Lemma and_ds_stable t (Phi Psi : Sdm App -> Prop) :
  ds_stable t Phi -> ds_stable t Psi -> ds_stable t (fun s => Phi s /\ Psi s).
Proof. intros HP HQ t' s s' Hne Ho Hi Hi' HG [? ?]. split; eauto. Qed.

Lemma true_ds_stable t : ds_stable t (fun _ => True).
Proof. done. Qed.

Lemma free_to_send_stable t : ds_stable t (free_to_send t).
Proof. apply and_ds_stable; [apply covered_latch_stable|apply no_tier2_stable]. Qed.

(** ** Steps that latch nothing *)

(** A step of [t] that leaves locks, latches, sends and debts alone and at most
    clears fault flags. *)
Record softens t s s' : Prop := {
  so_ft : sm_ftOwner s' = sm_ftOwner s;
  so_ds : sm_dsOwner s' = sm_dsOwner s;
  so_sent : sm_sent s' = sm_sent s;
  so_owes : sm_owes s' = sm_owes s;
  so_latch : sm_latch s' = sm_latch s;
  so_tier2 : sm_tier2Hold s' = true -> sm_tier2Hold s = true;
  so_suppress : sm_pssSuppress s = pssAnySubCauseActive s -> sm_pssSuppress s' = pssAnySubCauseActive s';
  so_pss : pssAnySubCauseActive s' = true -> pssAnySubCauseActive s = true;
  so_hb : sm_hbFault s' = true -> sm_hbFault s = true;
  so_fresh : sm_freshFault s' = true -> sm_freshFault s = true;
  so_seq : sm_seqFault s' = true -> sm_seqFault s = true;
  so_all : sm_allFailed s' = true -> sm_allFailed s = true;
  so_all_same : t <> Listener -> sm_allFailed s' = sm_allFailed s;
  so_ai : sm_aiInvalid s' = true -> sm_aiInvalid s = true;
}.

Lemma softens_inv t s s' : softens t s s' -> Inv s -> Inv s'.
Proof.
  intros [] []. split; rewrite ?so_latch0, ?so_ft0, ?so_ds0; auto.
  intros Ho Hn. destruct inv_word0 as [Hw|[u Hu]]; [done| |left|right].
  - destruct Hn as [Hl|Ht]; [left; congruence|right; auto].
  - unfold word_ok. by rewrite so_sent0.
  - exists u. by rewrite so_owes0.
Qed.

Lemma softens_guar t s s' : softens t s s' -> Guar t s s'.
Proof. intros []. split; rewrite ?so_ft0, ?so_ds0, ?so_sent0, ?so_owes0, ?so_latch0; auto. Qed.

(** Assertions such a step keeps. *)
Definition soft t (Phi : Sdm App -> Prop) : Prop := forall s s', softens t s s' -> Phi s -> Phi s'.

Lemma at_soft t ft ds ow : soft t (At t ft ds ow).
Proof.
  intros s s' [] [? ? ? Ha]. split; [by rewrite so_ft0|by rewrite so_ds0|by rewrite so_owes0|].
  intros Ht Hf. rewrite so_latch0. auto.
Qed.

Lemma idle_soft t : soft t (Idle t).
Proof. intros s s' [] (? & ? & ?). split_and!; congruence. Qed.

Lemma balanced_soft t : soft t balanced.
Proof.
  intros s s' [] Hb Hn. destruct Hb as [Hw|[u Hu]]; [|left|right].
  - destruct Hn as [Hl|Ht]; [left; congruence|right; auto].
  - unfold word_ok. by rewrite so_sent0.
  - exists u. by rewrite so_owes0.
Qed.

Lemma sent_soft t (Phi : list Tx -> Prop) : soft t (fun s => Phi (sm_sent s)).
Proof. intros s s' []. by rewrite so_sent0. Qed.

Lemma covered_latch_soft t : soft t (covered_latch t).
Proof. intros s s' [] Hc. unfold covered_latch. by rewrite so_latch0, so_owes0. Qed.

Lemma no_tier2_soft t : soft t (fun s => sm_tier2Hold s = false).
Proof. intros s s' [] Hf. apply not_true_is_false. intros Ht. apply so_tier3 in Ht. congruence. Qed.

Lemma and_soft t (Phi Psi : Sdm App -> Prop) : soft t Phi -> soft t Psi -> soft t (fun s => Phi s /\ Psi s).
Proof. intros HP HQ s s' Hs [? ?]. split; eauto. Qed.

Lemma true_soft t : soft t (fun _ => True).
Proof. done. Qed.

Lemma free_to_send_soft t : soft t (free_to_send t).
Proof. apply and_soft; [apply covered_latch_soft|apply no_tier2_soft]. Qed.

Lemma ds_soft t ft ow Phi : soft t Phi -> soft t (Ds t ft ow Phi).
Proof. apply and_soft, at_soft. Qed.

Lemma triple_soft t {A} (f : Env -> Sdm App -> A * Sdm App) (Pre : Sdm App -> Prop) :
  stable t Pre -> soft t Pre -> (forall e s, softens t s (f e s).2) -> triple t Pre (pupdate f) (fun _ => Pre).
Proof.
  intros Hst Hso Hf. apply triple_act; [done|done| |].
  - intros s _ _ Hb. by specialize (Hb {| e_now := 0; e_wall := 0; e_ok := true |}).
  - intros s e a s' Hi Hp [= Hs]. specialize (Hf e s). rewrite Hs in Hf. simpl in Hf.
    split_and!; [by eapply softens_inv|by apply softens_guar|by eapply Hso].
Qed.

Lemma softens_refl t s : softens t s s.
Proof. by split. Qed.

(** Reads; the value read is known at the time of reading. *)
Lemma triple_read t {A} (f : Env -> Sdm App -> A) (Pre : Sdm App -> Prop) (Post : A -> Sdm App -> Prop) :
  stable t Pre -> (forall a, stable t (Post a)) ->
  (forall e s, Inv s -> Pre s -> Post (f e s) s) -> triple t Pre (pgets f) Post.
Proof.
  intros Hst Hst' Hf. apply triple_act; [done|done| |].
  - intros s _ _ Hb. by specialize (Hb {| e_now := 0; e_wall := 0; e_ok := true |}).
  - intros s e a s' Hi Hp [= <- <-]. split_and!; [done|apply softens_guar, softens_refl|by apply Hf].
Qed.

Lemma triple_update t {A} (f : Env -> Sdm App -> A * Sdm App) (Pre : Sdm App -> Prop) (Post : A -> Sdm App -> Prop) :
  stable t Pre -> (forall a, stable t (Post a)) ->
  (forall e s, Inv s -> Pre s -> Inv (f e s).2 /\ Guar t s (f e s).2 /\ Post (f e s).1 (f e s).2) ->
  triple t Pre (pupdate f) Post.
Proof.
  intros Hst Hst' Hf. apply triple_act; [done|done| |].
  - intros s _ _ Hb. by specialize (Hb {| e_now := 0; e_wall := 0; e_ok := true |}).
  - intros s e a s' Hi Hp [= Hs]. specialize (Hf e s Hi Hp). by rewrite Hs in Hf.
Qed.

(** ** Locks *)

Lemma owned t (o : option Tid) : bool_decide (o = Some t) = true -> o = Some t.
Proof. apply bool_decide_eq_true_1. Qed.

Lemma not_owned t (o : option Tid) : bool_decide (o = Some t) = false -> o <> Some t.
Proof. apply bool_decide_eq_false_1. Qed.

Lemma other_owner t (o : option Tid) : o <> Some t -> o <> None -> exists t', t' <> t /\ o = Some t'.
Proof. destruct o as [t'|]; [|done]. intros Hne _. exists t'. split; congruence. Qed.

Lemma triple_lock_ft t ow : triple t (At t false false ow) (lock_ft t) (fun _ => At t true false ow).
Proof.
  apply triple_act; [apply at_stable|intros; apply at_stable| |].
  - intros s Hi [Hft Hds _ _] Hb. right. apply not_owned in Hft, Hds.
    destruct (other_owner t (sm_ftOwner s) Hft) as (t' & ? & ?); [|by exists t'].
    intros Hn. specialize (Hb {| e_now := 0; e_wall := 0; e_ok := true |}). by rewrite Hn in Hb.
  - intros s e [] s' [] [Hft Hds How Ha] Hf. destruct (sm_ftOwner s) eqn:Ho; simplify_eq/=.
    split_and!; [split; simpl; auto| |].
    + intros Hall. destruct (inv_all0 Hall) as [?|?]; [by left|congruence].
    + split; simpl; auto; try congruence. intros t' Hne. rewrite Ho. split; congruence.
    + split; simpl; auto. by apply bool_decide_eq_true_2.
Qed.

Lemma triple_unlock_ft t ow : triple t (At t true false ow) unlock_ft (fun _ => At t false false ow).
Proof.
  apply triple_update; [apply at_stable|intros; apply at_stable|].
  intros e s [] [Hft Hds How Ha]. simpl. apply owned in Hft. split_and!.
  - split; simpl; auto. intros Hall. left. destruct (inv_all0 Hall) as [?|Hl]; [done|].
    apply Ha; [congruence|done].
  - split; simpl; auto. intros t' Hne. split; congruence.
  - split; simpl; auto.
Qed.

Lemma triple_lock_ds t ft ow : triple t (At t ft false ow) (lock_ds t) (fun _ => Ds t ft ow balanced).
Proof.
  apply triple_act; [apply at_stable|intros; apply ds_stable_Ds, balanced_stable| |].
  - intros s Hi [Hft Hds _ _] Hb. left. apply not_owned in Hds.
    destruct (other_owner t (sm_dsOwner s) Hds) as (t' & ? & ?); [|by exists t'].
    intros Hn. specialize (Hb {| e_now := 0; e_wall := 0; e_ok := true |}). by rewrite Hn in Hb.
  - intros s e [] s' [] [Hft Hds How Ha] Hf. destruct (sm_dsOwner s) eqn:Ho; simplify_eq/=.
    split_and!; [split; simpl; auto; done| |].
    + split; simpl; auto; try congruence. intros t' Hne. rewrite Ho. split; congruence.
    + split; [split; simpl; auto; by apply bool_decide_eq_true_2|]. by apply inv_word0.
Qed.

Lemma triple_unlock_ds t ft ow : triple t (Ds t ft ow balanced) unlock_ds (fun _ => At t ft false ow).
Proof.
  apply triple_update; [apply ds_stable_Ds, balanced_stable|intros; apply at_stable|].
  intros e s [] [[Hft Hds How Ha] Hb]. simpl. apply owned in Hds. split_and!.
  - by split.
  - split; simpl; auto. intros t' Hne. split; congruence.
  - split; simpl; auto.
Qed.

Lemma triple_with_ds t {A} (p : P A) ft ow (ow' : A -> bool) :
  triple t (Ds t ft ow balanced) p (fun a => Ds t ft (ow' a) balanced) ->
  triple t (At t ft false ow) (with_ds t p) (fun a => At t ft false (ow' a)).
Proof.
  intros Hp. eapply triple_bind; [apply triple_lock_ds|]. intros []. eapply triple_bind; [exact Hp|].
  intros a. eapply triple_bind; [apply triple_unlock_ds|]. intros [].
  apply triple_ret; [apply at_stable|done].
Qed.

(** ** Sends *)

(** An assertion about a section under [decisionSendMtx]. *)
Record Cond t (Phi : Sdm App -> Prop) : Prop := { co_stable : ds_stable t Phi; co_soft : soft t Phi }.

Lemma cond_true t : Cond t (fun _ => True).
Proof. split; [apply true_ds_stable|apply true_soft]. Qed.

Lemma cond_balanced t : Cond t balanced.
Proof. split; [apply balanced_stable|apply balanced_soft]. Qed.

Lemma cond_free t : Cond t (free_to_send t).
Proof. split; [apply free_to_send_stable|apply free_to_send_soft]. Qed.

Lemma cond_covered t : Cond t (covered_latch t).
Proof. split; [apply covered_latch_stable|apply covered_latch_soft]. Qed.

Lemma cond_no_tier2 t : Cond t (fun s => sm_tier2Hold s = false).
Proof. split; [apply no_tier2_stable|apply no_tier2_soft]. Qed.

Lemma cond_sent t (Phi : list Tx -> Prop) : Cond t (fun s => Phi (sm_sent s)).
Proof. split; [apply sent_ds_stable|apply sent_soft]. Qed.

Lemma cond_and t Phi Psi : Cond t Phi -> Cond t Psi -> Cond t (fun s => Phi s /\ Psi s).
Proof. intros [] []. split; [by apply and_ds_stable|by apply and_soft]. Qed.

(** The state after a send of [t]. *)
Definition pushed t (p : CmdPacket) (ok : bool) s : Sdm App :=
  let s := set_sent ({| tx_packet := p; tx_ok := ok |} :: sm_sent s) s in
  if cp_command p =? CMD_SW_ERROR then owe t false s else s.

Lemma pushed_fields t p ok s :
  sm_ftOwner (pushed t p ok s) = sm_ftOwner s /\ sm_dsOwner (pushed t p ok s) = sm_dsOwner s /\
  sm_latch (pushed t p ok s) = sm_latch s /\ sm_tier2Hold (pushed t p ok s) = sm_tier2Hold s /\
  sm_allFailed (pushed t p ok s) = sm_allFailed s /\
  sm_sent (pushed t p ok s) = {| tx_packet := p; tx_ok := ok |} :: sm_sent s /\
  (forall t', t' <> t -> sm_owes (pushed t p ok s) t' = sm_owes s t') /\
  sm_owes (pushed t p ok s) t = (if cp_command p =? CMD_SW_ERROR then false else sm_owes s t).
Proof.
  unfold pushed, owe. destruct (cp_command p =? CMD_SW_ERROR); simpl; split_and!; try done.
  - intros t' Hne. by rewrite decide_False.
  - by rewrite decide_True.
Qed.

Lemma triple_plc_send t ft ow p Phi (Psi : bool -> Sdm App -> Prop) :
  Cond t Phi -> (forall b, Cond t (Psi b)) ->
  (forall s ok, Phi s -> Psi ok (pushed t p ok s)) ->
  triple t (Ds t ft ow Phi) (plc_send t p)
    (fun ok => Ds t ft (if cp_command p =? CMD_SW_ERROR then false else ow) (Psi ok)).
Proof.
  intros HP HQ Hpush.
  apply triple_update; [by apply ds_stable_Ds, co_stable|intros; by apply ds_stable_Ds, co_stable|].
  intros e s Hi [[Hft Hds How Ha] Hphi]. pose proof (owned _ _ Hds) as Hown.
  pose proof (pushed_fields t p (e_ok e) s) as (F1 & F2 & F3 & F4 & F5 & F6 & F7 & F8).
  cbn [fst snd]. change (if cp_command p =? CMD_SW_ERROR then owe t false ?x else ?x) with (pushed t p (e_ok e) s).
  split_and!.
  - destruct Hi. unfold pushed, owe in *. by destruct (cp_command p =? CMD_SW_ERROR); split; simpl; auto; congruence.
  - split; rewrite ?F1, ?F2, ?F3, ?F4, ?F5; auto; done.
  - split; [|by apply Hpush].
    split; [by rewrite F1|by rewrite F2|rewrite F8; by destruct (_ =? _)|].
    intros Ht. rewrite F5, F3. by apply Ha.
Qed.

Lemma triple_soft_unit t (f : Env -> Sdm App -> Sdm App) (Pre : Sdm App -> Prop) :
  stable t Pre -> soft t Pre -> (forall e s, softens t s (f e s)) -> triple t Pre (pmodify f) (fun _ => Pre).
Proof. intros ? ? Hf. by apply (triple_soft t (fun e s => (tt, f e s))). Qed.

Lemma triple_same t {A} (a : A) Pre : stable t Pre -> triple t Pre (Ret a) (fun _ => Pre).
Proof. intros. by apply triple_ret. Qed.

Lemma triple_when t b p Pre : stable t Pre -> triple t Pre p (fun _ => Pre) -> triple t Pre (pwhen b p) (fun _ => Pre).
Proof. intros Hs Hp. destruct b; [done|]. by apply triple_same. Qed.

Lemma triple_look t {A} (f : Env -> Sdm App -> A) Pre : stable t Pre -> triple t Pre (pgets f) (fun _ => Pre).
Proof. intros. by apply triple_read. Qed.

Lemma triple_send t ft ow c track a Phi (Psi : bool -> Sdm App -> Prop) :
  Cond t Phi -> (forall b, Cond t (Psi b)) ->
  (forall s p ok, Phi s -> cp_command p = c -> Psi ok (pushed t p ok s)) ->
  triple t (Ds t ft ow Phi) (sendDecisionCommand t c track a)
    (fun ok => Ds t ft (if c =? CMD_SW_ERROR then false else ow) (Psi ok)).
Proof.
  intros HP HQ Hpush.
  assert (HS : stable t (Ds t ft ow Phi)) by (by apply ds_stable_Ds, co_stable).
  assert (HF : soft t (Ds t ft ow Phi)) by (by apply ds_soft, co_soft).
  eapply triple_bind; [apply triple_soft; [done..|by split]|]. intros seqNo.
  eapply triple_bind; [by apply triple_look|]. intros ts.
  eapply triple_bind; [by apply triple_look|]. intros objects.
  eapply triple_bind; [apply triple_when, triple_soft_unit; [done..|by split]|]. intros [].
  eapply triple_bind.
  { apply (triple_plc_send t ft ow (make_packet seqNo c ts objects) Phi Psi); [done..|].
    intros s ok Hs. by apply Hpush. }
  intros ok. cbn [cp_command make_packet stamp set_cp_crc32].
  assert (HS' : stable t (Ds t ft (if c =? CMD_SW_ERROR then false else ow) (Psi ok)))
    by (by apply ds_stable_Ds, co_stable).
  eapply triple_bind; [apply triple_when, triple_soft_unit; [done..|by apply ds_soft, co_soft|by split]|]. intros [].
  by apply triple_ret.
Qed.

(** The newest send. *)
Definition word_is (w : Word) (l : list Tx) : Prop := last_word l = w.

Definition head_is (c : Z) (ok : bool -> Prop) (l : list Tx) : Prop :=
  exists x l', l = x :: l' /\ tx_command x = c /\ ok (tx_ok x).

(** The hold, whatever was known before; it pays the sender's debt. *)
Lemma triple_hold t ft ow a Phi : Cond t Phi ->
  triple t (Ds t ft ow Phi) (sendSafeHold t a) (fun _ => Ds t ft false balanced).
Proof.
  intros HP.
  eapply triple_bind.
  { apply (triple_send t ft ow CMD_STOP true a Phi
      (fun _ s => head_is CMD_STOP (fun _ => True) (sm_sent s))); [done|intros; apply cond_sent|].
    intros s p ok _ Hc. pose proof (pushed_fields t p ok s) as (_ & _ & _ & _ & _ & F6 & _). unfold head_is. rewrite F6. eauto. }
  intros ok. change (CMD_STOP =? CMD_SW_ERROR) with false. cbv iota.
  eapply triple_bind.
  { apply (triple_send t ft ow CMD_SW_ERROR true a _ (fun _ s => word_is WHold (sm_sent s)));
      [apply cond_sent|intros; apply cond_sent|].
    intros s p ok' (x & l' & Hl & Hx & _) Hc. pose proof (pushed_fields t p ok' s) as (_ & _ & _ & _ & _ & F6 & _).
    unfold word_is. rewrite F6, Hl. simpl. unfold tx_command at 1. simpl. by rewrite Hc, Hx. }
  intros ok'. change (CMD_SW_ERROR =? CMD_SW_ERROR) with true. cbv iota.
  apply triple_ret; [apply ds_stable_Ds, (co_stable _ _ (cond_sent t (word_is WHold)))|].
  intros s _ [Ha Hw]. split; [done|]. intros _. left. unfold word_ok. by rewrite Hw.
Qed.

(** A command sent when any command may be. *)
Lemma triple_send_free t ft c track a :
  triple t (Ds t ft false (free_to_send t)) (sendDecisionCommand t c track a) (fun _ => Ds t ft false balanced).
Proof.
  eapply triple_post.
  { apply (triple_send t ft false c track a _ (fun _ => free_to_send t)); [apply cond_free|intros; apply cond_free|].
    intros s p ok [Hl Ht] _. pose proof (pushed_fields t p ok s) as (_ & _ & F3 & F4 & _ & _ & F7 & _).
    split; [|by rewrite F4]. intros Hn. rewrite F3 in Hn. destruct (Hl Hn) as (u & Hu & Ho).
    exists u. split; [done|]. by rewrite F7. }
  intros ok s _ [Ha [Hl Ht]]. split; [by destruct (_ =? _)|].
  intros [Hn|Hn]; [|congruence]. right. destruct (Hl Hn) as (u & _ & ?). eauto.
Qed.

(** ** Latching *)

#[local] Arguments Z.testbit : simpl never.
#[local] Arguments Z.lor : simpl never.

Lemma lor_keeps x bit k : Z.testbit x k = true -> Z.testbit (Z.lor x bit) k = true.
Proof. intros H. by rewrite Z.lor_spec, H. Qed.

Lemma lor_sets x bit k : Z.testbit bit k = true -> Z.testbit (Z.lor x bit) k = true.
Proof. intros H. by rewrite Z.lor_spec, H, orb_true_r. Qed.

Lemma bit_nonzero x k : Z.testbit x k = true -> x <> 0.
Proof. intros H ->. by rewrite Z.testbit_0_l in H. Qed.

Hint Resolve lor_keeps lor_sets : core.

Lemma owe_self t b s : sm_owes (owe t b s) t = b.
Proof. simpl. by rewrite decide_True. Qed.

Lemma owe_other t b s t' : t' <> t -> sm_owes (owe t b s) t' = sm_owes s t'.
Proof. intros. simpl. by rewrite decide_False. Qed.

Lemma any_setbit s c : c ∈ all_sub_causes -> existsb (Z.testbit (Z.setbit (sm_subActive s) c)) all_sub_causes = true.
Proof.
  intros Hc. apply existsb_exists. exists c. split; [by apply list_elem_of_In|].
  apply Z.setbit_eq. unfold all_sub_causes in Hc. set_solver by lia.
Qed.

(** Every assertion of a section under [decisionSendMtx] can be forgotten. *)
Lemma triple_mark_pss t ft ow c Phi : c ∈ all_sub_causes -> Cond t Phi ->
  triple t (Ds t ft ow Phi) (markPssSubCause c) (fun _ => Ds t ft ow (fun _ => True)).
Proof.
  intros Hc HP.
  apply triple_update; [by apply ds_stable_Ds, co_stable|intros; by apply ds_stable_Ds, true_ds_stable|].
  intros e s [] [[Hft Hds How Ha] _]. pose proof (owned _ _ Hds) as Ho. simpl. split_and!.
  - split; simpl; auto; try congruence.
    + symmetry. apply (any_setbit s c Hc).
    + intros Hall. destruct (inv_all0 Hall); [left|right]; auto.
  - split; simpl; auto; done.
  - split; [|done]. split; simpl; auto. intros Ht Hall. apply lor_keeps. by apply Ha.
Qed.

Lemma clear_sub_cause_softens t c s : softens t s (clear_sub_cause c s).
Proof.
  assert (Hany : forall x, existsb (Z.testbit (Z.clearbit x c)) all_sub_causes = true -> existsb (Z.testbit x) all_sub_causes = true).
  { intros x H. apply existsb_exists in H as (k & Hk & Ht). apply existsb_exists. exists k. split; [done|].
    rewrite Z.clearbit_eqb in Ht. by apply andb_true_iff in Ht as [? _]. }
  unfold clear_sub_cause. destruct (negb (Z.testbit (sm_subActive s) c)) eqn:Hc; [by split|].
  destruct (negb (pssAnySubCauseActive (set_subActive (Z.clearbit (sm_subActive s) c) s))) eqn:Hn.
  - split; simpl; auto; unfold pssAnySubCauseActive in *; simpl in *; [|apply Hany].
    intros _. symmetry. by apply negb_true_iff.
  - apply negb_false_iff in Hn. unfold pssAnySubCauseActive in *. simpl in *.
    split; simpl; auto; unfold pssAnySubCauseActive in *; simpl in *; [|apply Hany].
    intros ->. rewrite Hn. by apply Hany.
Qed.

(** A latch set with a debt keeps invariant and guarantee whatever it latches. *)
Ltac owing_step Ha :=
  split_and!;
  [ split; simpl; auto;
    [ let Ho := fresh in intros Ho ?; right; eexists; apply (owe_self _ true)
    | let Hall := fresh in intros Hall;
      match goal with H : sm_allFailed _ = true -> _ |- _ => destruct (H Hall); [left|right]; auto end ]
  | split; simpl; auto; try done; intros; rewrite ?decide_True by done; auto; by rewrite decide_False
  | split; simpl; [done|done|by rewrite decide_True, ?orb_true_r by done|];
    let Ht := fresh in let Hall := fresh in intros Ht Hall; apply lor_keeps; by apply Ha ].

(** A latch set outside [decisionSendMtx] is owed a hold. *)
Lemma triple_mark_ai t ft ow :
  triple t (At t ft false ow) (markAiPipelineInvalidLatched t) (fun entered => At t ft false (ow || entered)).
Proof.
  apply triple_update; [apply at_stable|intros; apply at_stable|].
  intros e s Hi [Hft Hds How Ha]. simpl. pose proof (not_owned _ _ Hds) as Hn.
  destruct (sm_aiInvalid s) eqn:Hai; simpl.
  - pose proof (inv_ai _ Hi Hai) as H5. destruct Hi. split_and!.
    + split; simpl; auto.
      * intros Ho Hnd. destruct inv_word0 as [?|?]; [done| |by left|by right]. destruct Hnd as [_|?]; [left|by right].
        by eapply bit_nonzero.
      * intros Hall. destruct (inv_all0 Hall); [left|right]; auto.
    + split; simpl; auto; try done. intros _ _. left. by eapply bit_nonzero.
    + split; simpl; [done|done|by rewrite orb_false_r|]. intros Ht Hall. apply lor_keeps. by apply Ha.
  - destruct Hi. owing_step Ha.
Qed.

Lemma triple_mark_fresh t ft ow :
  triple t (At t ft false ow) (markDecisionFreshnessFaultLatched t) (fun entered => At t ft false (ow || entered)).
Proof.
  apply triple_update; [apply at_stable|intros; apply at_stable|].
  intros e s Hi [Hft Hds How Ha]. simpl. pose proof (not_owned _ _ Hds) as Hn.
  destruct (sm_freshFault s) eqn:Hf; simpl.
  - split_and!; [done|apply softens_guar, softens_refl|]. split; [done|done|by rewrite orb_false_r|done].
  - destruct Hi. owing_step Ha.
Qed.

Lemma triple_mark_seq t ft ow :
  triple t (At t ft false ow) (markGatewayDecisionSequenceFaultLatched t) (fun entered => At t ft false (ow || entered)).
Proof.
  apply triple_update; [apply at_stable|intros; apply at_stable|].
  intros e s Hi [Hft Hds How Ha]. simpl. pose proof (not_owned _ _ Hds) as Hn.
  destruct (sm_seqFault s) eqn:Hf; simpl.
  - split_and!; [done|apply softens_guar, softens_refl|]. split; [done|done|by rewrite orb_false_r|done].
  - destruct Hi. owing_step Ha.
Qed.

(** The listener between raising the all-sensors-failed flag and latching it. *)
Definition flagged t ow s : Prop :=
  sm_ftOwner s = Some t /\ sm_dsOwner s <> Some t /\ sm_owes s t = ow.

Lemma flagged_stable t ow : stable t (flagged t ow).
Proof.
  intros t' s s' Hne Hi Hi' HG (Hft & Hds & How). split_and!.
  - by apply (gu_ft _ _ _ HG).
  - rewrite (gu_ds _ _ _ HG) by congruence. done.
  - rewrite (gu_owes _ _ _ HG) by congruence. done.
Qed.

Lemma triple_mark_all ow :
  triple Listener (At Listener true false ow) (markAllSafetyRelevantSensorsFailedLatched Listener)
    (fun entered => At Listener true false (ow || entered)).
Proof.
  eapply (triple_bind _ _ _ _ _ _ _ (fun was s => if was : bool then At Listener true false ow s else flagged Listener ow s)).
  - apply triple_update; [apply at_stable|intros []; [apply at_stable|apply flagged_stable]|].
    intros e s Hi [Hft Hds How Ha]. simpl. pose proof (owned _ _ Hft) as Ho. split_and!.
    + destruct Hi. split; simpl; auto.
    + split; simpl; auto. done.
    + destruct (sm_allFailed s) eqn:Hf; [split; simpl; auto|]; [intros _ _; by apply Ha|].
      split_and!; [done|by apply not_owned|done].
  - intros [|].
    + apply triple_ret; [apply at_stable|]. by rewrite orb_false_r.
    + eapply (triple_bind _ _ _ _ _ _ _ (fun _ => At Listener true false true)).
      * apply triple_update; [apply flagged_stable|intros; apply at_stable|].
        intros e s [] (Hft & Hds & How). simpl.
        assert (Hf : bool_decide (sm_ftOwner s = Some Listener) = true) by (by apply bool_decide_eq_true_2).
        assert (Hd : bool_decide (sm_dsOwner s = Some Listener) = false) by (by apply bool_decide_eq_false_2).
        split_and!.
        -- split; simpl; auto. intros Ho ?; right; eexists; apply (owe_self _ true).
        -- split; simpl; auto; try done; intros; rewrite ?decide_True by done; auto; by rewrite decide_False.
        -- split; simpl; [done|done|done|]. intros _ _. by apply lor_sets.
      * intros []. apply triple_ret; [apply at_stable|]. by rewrite orb_true_r.
Qed.

(** ** Latching under [decisionSendMtx] *)

Lemma triple_mark_hb t ft ow Phi : Cond t Phi ->
  triple t (Ds t ft ow Phi) markGatewayHbFaultLatched
    (fun entered => Ds t ft ow (if entered then fun _ => True else Phi)).
Proof.
  intros HP. apply triple_update; [by apply ds_stable_Ds, co_stable| |].
  { intros [|]; apply ds_stable_Ds; [apply true_ds_stable|by apply co_stable]. }
  intros e s Hi [[Hft Hds How Ha] Hphi]. simpl. pose proof (owned _ _ Hds) as Ho.
  destruct (sm_hbFault s) eqn:Hf; simpl.
  - split_and!; [done|apply softens_guar, softens_refl|]. by split.
  - destruct Hi. split_and!.
    + split; simpl; auto; try congruence. intros Hall. destruct (inv_all0 Hall); [left|right]; auto.
    + split; simpl; auto; done.
    + split; [|done]. split; simpl; auto. intros Ht Hall. apply lor_keeps. by apply Ha.
Qed.

Lemma triple_set_tier2 t ft ow Phi : Cond t Phi ->
  triple t (Ds t ft ow Phi) (pmodify (fun _ s => set_tier2Hold true s)) (fun _ => Ds t ft ow (fun _ => True)).
Proof.
  intros HP. apply triple_update; [by apply ds_stable_Ds, co_stable|intros; by apply ds_stable_Ds, true_ds_stable|].
  intros e s [] [[Hft Hds How Ha] Hphi]. simpl. pose proof (owned _ _ Hds) as Ho. split_and!.
  - split; simpl; auto. congruence.
  - split; simpl; auto; done.
  - split; [|done]. by split.
Qed.

(** ** Release *)

Lemma active_causes_zero s : activeSafeLatchCauses s = 0 ->
  sm_hbFault s = false /\ sm_tier2Hold s = false /\ pssAnySubCauseActive s = false /\ sm_freshFault s = false /\
  sm_seqFault s = false /\ sm_allFailed s = false /\ sm_aiInvalid s = false.
Proof.
  unfold activeSafeLatchCauses, flag.
  destruct (sm_hbFault s), (sm_tier2Hold s), (pssAnySubCauseActive s), (sm_freshFault s), (sm_seqFault s),
    (sm_allFailed s), (sm_aiInvalid s); vm_compute; intros; try done; by split_and!.
Qed.

(** Both answers of a release went out. *)
Definition answered (l : list Tx) : Prop :=
  exists n a l', l = n :: a :: l' /\ tx_command n = CMD_NORMAL /\ tx_ok n = true /\
    tx_command a = CMD_SAFE_RELEASE_ACK /\ tx_ok a = true.

Lemma triple_clear_latch snapshot :
  triple AckHandler (Ds AckHandler true false (fun s => answered (sm_sent s))) (clear_latch snapshot)
    (fun cleared => Ds AckHandler true false (if cleared then free_to_send AckHandler else fun _ => True)).
Proof.
  apply triple_update; [apply ds_stable_Ds, sent_ds_stable| |].
  { intros [|]; apply ds_stable_Ds; [apply free_to_send_stable|apply true_ds_stable]. }
  intros e s Hi [[Hft Hds How Ha] Hans]. simpl. pose proof (owned _ _ Hds) as Ho. pose proof (owned _ _ Hft) as Hf.
  destruct ((sm_latch s =? snapshot) && (activeSafeLatchCauses s =? 0)) eqn:Hc; simpl.
  - apply andb_true_iff in Hc as [_ Hact]. apply Z.eqb_eq in Hact.
    pose proof (active_causes_zero s Hact) as (A1 & A2 & A3 & A4 & A5 & A6 & A7). destruct Hi. split_and!.
    + split; simpl; auto; try congruence.
      unfold pssAnySubCauseActive in *. simpl in *. rewrite A3. done.
    + split; simpl; auto; try done. right. split_and!; try done.
    + split; [by split|]. split; [|done]. intros Hn. done.
  - split_and!; [done|apply softens_guar, softens_refl|]. by split.
Qed.
End Safety.
