(* ===== verification/SdmSafety.v ===== *)
(** * The hold has the last word

    Every handler of [SdmCore] keeps the invariant of [SdmRules] under every
    interleaving of the threads.  So faults are latched, latches fall only to an
    accepted release, the two locks cannot deadlock, and once no thread is inside
    a handler, a latched decision maker has left the PLC with the hold as its last
    command. *)

From S2P Require Import Prelude Protocol Crc Validate SdmRequestState GatewayContract SdmSequence Threads PlcPacket SdmCore SdmRules.

Section Handlers.
Context {App : Type} `{!SdmApp App} (cf : SdmConfig).

Local Abbreviation P := (prog (Sdm App) Env).
Local Abbreviation triple := (triple (E:=Env) (Inv (App:=App)) Guar Waits).
Local Abbreviation stable := (stable (Inv (App:=App)) Guar).

Implicit Types (s : Sdm App) (t : Tid).

(** ** Composition *)

(** A loop that accumulates a debt. *)
Lemma triple_any {X} t (A : bool -> Sdm App -> Prop) (f : X -> P bool) l ow :
  (forall ow, stable t (A ow)) -> (forall x ow, triple t (A ow) (f x) (fun r => A (ow || r))) ->
  triple t (A ow) (pany f l) (fun r => A (ow || r)).
Proof.
  intros Hst Hf. revert ow. induction l as [|x l IH]; intros ow; simpl.
  - apply triple_ret; [done|]. by rewrite orb_false_r.
  - eapply triple_bind; [apply Hf|]. intros a. eapply triple_bind; [apply IH|]. intros b.
    apply triple_ret; [done|]. by rewrite orb_assoc.
Qed.

Lemma triple_each {X} t (Pre : Sdm App -> Prop) (f : X -> P unit) l :
  stable t Pre -> (forall x, x ∈ l -> triple t Pre (f x) (fun _ => Pre)) -> triple t Pre (peach f l) (fun _ => Pre).
Proof.
  intros Hst. induction l as [|x l IH]; intros Hf; simpl; [by apply triple_same|].
  eapply triple_bind; [apply Hf; set_solver|]. intros []. apply IH. intros y Hy. apply Hf. set_solver.
Qed.

(** A postcondition that knows where the result comes from. *)
Lemma stable_pure t (Pre : Sdm App -> Prop) (phi : Prop) : stable t Pre -> stable t (fun s => Pre s /\ phi).
Proof. intros H t' s s' Hne Hi Hi' HG [? ?]. split; [by apply (H t' s s')|done]. Qed.

Lemma triple_pure t {A} (p : P A) Pre (Q : A -> Sdm App -> Prop) (phi : Prop) :
  (phi -> triple t Pre p Q) -> triple t (fun s => Pre s /\ phi) p Q.
Proof. intros H s Hi [Hs Hphi]. by apply H. Qed.

(** ** Pieces of a request *)

Lemma ai_ok t ft r ow :
  triple t (At t ft false ow) (updateAiPipelineTrustFromDecisionRequest t r) (fun e => At t ft false (ow || e)).
Proof.
  apply triple_any; [intros; apply at_stable|]. intros sd ow'. unfold updateAiPipelineTrust_entry.
  assert (Hret : triple t (At t ft false ow') (Ret false) (fun e => At t ft false (ow' || e))).
  { apply triple_ret; [apply at_stable|]. by rewrite orb_false_r. }
  destruct (_ =? STALE); [done|]. destruct (_ =? AI_PIPELINE_INVALID); [apply triple_mark_ai|].
  destruct (_ =? AI_PIPELINE_VALID); [|done].
  eapply triple_bind; [apply triple_soft_unit; [apply at_stable|apply at_soft|by split]|]. intros []. exact Hret.
Qed.

Lemma publish_stop_ok t ft ow Phi : Cond t Phi ->
  triple t (Ds t ft ow Phi) publish_stop (fun _ => Ds t ft ow Phi).
Proof.
  intros []. apply triple_soft_unit; [by apply ds_stable_Ds|by apply ds_soft|by split].
Qed.

Lemma stop_and_hold_ok t ft ow r : triple t (At t ft false ow) (stop_and_hold t r) (fun _ => At t ft false false).
Proof.
  apply (triple_with_ds t _ ft ow (fun _ => false)).
  eapply triple_bind; [apply publish_stop_ok, cond_balanced|]. intros []. apply triple_hold, cond_balanced.
Qed.

Lemma latched_hold_ok t ft ow : triple t (At t ft false ow) (sendLatchedSafeHold t) (fun _ => At t ft false false).
Proof. apply (triple_with_ds t _ ft ow (fun _ => false)), triple_hold, cond_balanced. Qed.

Lemma marks_ok t ft ow causes Phi : Cond t Phi -> Forall (fun c => c ∈ all_sub_causes) causes -> causes <> [] ->
  triple t (Ds t ft ow Phi) (peach markPssSubCause causes) (fun _ => Ds t ft ow (fun _ => True)).
Proof.
  intros HP Hall Hne. destruct causes as [|c cs]; [done|]. inversion Hall as [|? ? Hc Hcs]; subst. cbn [peach].
  eapply triple_bind; [by apply triple_mark_pss|]. intros [].
  apply triple_each; [apply ds_stable_Ds, true_ds_stable|]. intros x Hx.
  apply triple_mark_pss; [|apply cond_true]. rewrite Forall_forall in Hcs. by apply Hcs.
Qed.

Lemma enter_causes_ok t ft ow causes a : Forall (fun c => c ∈ all_sub_causes) causes -> causes <> [] ->
  triple t (At t ft false ow) (enter_causes t causes a) (fun _ => At t ft false false).
Proof.
  intros Hall Hne. apply (triple_with_ds t _ ft ow (fun _ => false)).
  eapply triple_bind; [by apply (marks_ok t ft ow causes balanced); [apply cond_balanced|..]|]. intros [].
  eapply triple_bind; [apply publish_stop_ok, cond_true|]. intros []. apply triple_hold, cond_true.
Qed.

Lemma clear_pss_ok t Pre c : stable t Pre -> soft t Pre -> triple t Pre (clearPssSubCause c) (fun _ => Pre).
Proof. intros. apply triple_soft_unit; [done..|]. intros _ s. apply clear_sub_cause_softens. Qed.

Lemma transitions_ok t Pre d causes : stable t Pre -> soft t Pre ->
  triple t Pre (presence_transitions d causes) (fun es s => Pre s /\ es ⊆ causes).
Proof.
  intros Hst Hso. induction causes as [|c cs IH]; cbn [presence_transitions]; [by apply triple_ret|].
  eapply (triple_bind _ _ _ _ _ _ _ (fun _ => Pre)).
  - eapply triple_bind; [by apply triple_when, clear_pss_ok|]. intros [].
    destruct (Z.testbit (d_raised d) c); [by apply triple_look|by apply triple_same].
  - intros e. eapply triple_bind; [exact IH|]. intros es. apply triple_pure. intros Hes.
    apply triple_ret; [done|]. intros s _ Hs. split; [done|]. destruct e; set_solver.
Qed.

Lemma presence_ok t ft r : triple t (At t ft false false) (applySourcePresence t r) (fun _ => At t ft false false).
Proof.
  eapply triple_bind.
  { apply triple_soft; [apply at_stable|apply at_soft|]. intros _ s. by destruct (SdmSourcePresenceEvaluate _ _). }
  intros d. eapply triple_bind; [apply transitions_ok; [apply at_stable|apply at_soft]|].
  intros es. apply triple_pure. intros Hes. destruct es as [|e es]; [apply triple_same, at_stable|].
  apply enter_causes_ok; [|done]. apply Forall_forall. intros c Hc. apply Hes in Hc.
  unfold kTracked, all_sub_causes in *. set_solver.
Qed.

Lemma input_ok t ft r : triple t (At t ft false false) (applySourceInputState t r) (fun _ => At t ft false false).
Proof.
  eapply triple_bind.
  { apply triple_soft; [apply at_stable|apply at_soft|]. intros _ s. by destruct (SdmSourceInputStateEvaluate _ _). }
  intros d. eapply triple_bind; [apply triple_when, clear_pss_ok; [apply at_stable..|apply at_soft]|]. intros [].
  destruct (negb _); [apply triple_same, at_stable|].
  eapply triple_bind; [apply triple_look, at_stable|]. intros [|]; [apply triple_same, at_stable|].
  apply enter_causes_ok; [|done]. repeat constructor.
Qed.

Lemma sensor_verdict_ok t Pre bit sd : stable t Pre -> soft t Pre -> triple t Pre (sensor_verdict bit sd) (fun _ => Pre).
Proof.
  intros Hst Hso. unfold sensor_verdict. destruct (_ || negb _).
  - destruct (_ =? CAUSE_SAIM_INIT).
    + eapply triple_bind; [apply triple_when, triple_soft_unit; [done..|by split]|]. intros []. by apply triple_same.
    + destruct (_ =? SENSOR_INVALID); [by apply triple_same|].
      eapply triple_bind; [by apply triple_look|]. intros p. by apply triple_same.
  - destruct (_ || _); [|by apply triple_same].
    eapply triple_bind; [apply triple_soft_unit; [done..|by split]|]. intros []. by apply triple_same.
Qed.

Lemma health_ok r ow :
  triple Listener (At Listener true false ow) (updateSensorHealthFromDecisionRequest cf Listener r)
    (fun e => At Listener true false (ow || e)).
Proof.
  apply triple_any; [intros; apply at_stable|]. intros sd ow'. unfold updateSensorHealth_entry.
  assert (Hret : triple Listener (At Listener true false ow') (Ret false) (fun e => At Listener true false (ow' || e))).
  { apply triple_ret; [apply at_stable|]. by rewrite orb_false_r. }
  destruct (_ =? STALE); [done|]. destruct (_ =? PSS_STATUS_NOOP); [done|]. destruct (_ =? 0); [done|].
  eapply triple_bind; [apply sensor_verdict_ok; [apply at_stable|apply at_soft]|]. intros [failed|]; [|done].
  eapply triple_bind; [apply triple_soft; [apply at_stable|apply at_soft|by split]|]. intros m.
  destruct (_ =? _); [apply triple_mark_all|].
  eapply triple_bind; [apply triple_when, triple_soft_unit; [apply at_stable..|apply at_soft|by split]|].
  intros []. exact Hret.
Qed.

Lemma sw_fail_ok t ft ow r :
  triple t (At t ft false ow) (applySwFailEvents t r) (fun e => At t ft false (if e then false else ow)).
Proof.
  unfold applySwFailEvents. destruct (sw_fail_raised r =? 0) eqn:Hz; [apply triple_ret; [apply at_stable|done]|].
  destruct (List.filter (Z.testbit (sw_fail_raised r)) all_sub_causes) as [|c cs] eqn:Hl.
  - eapply triple_bind.
    + apply (triple_with_ds t _ ft ow (fun _ => false)).
      eapply triple_bind; [apply triple_same, ds_stable_Ds, balanced_stable|]. intros [].
      eapply triple_bind; [apply publish_stop_ok, cond_balanced|]. intros []. apply triple_hold, cond_balanced.
    + intros []. apply triple_ret; [apply at_stable|done].
  - eapply triple_bind.
    + apply enter_causes_ok; [|done]. rewrite <- Hl. apply Forall_forall. intros x Hx.
      apply list_elem_of_In, filter_In in Hx as [Hx _]. by apply list_elem_of_In.
    + intros []. apply triple_ret; [apply at_stable|done].
Qed.

(** ** The decision *)

Lemma read_latched_ok t ft ow Phi : Cond t Phi ->
  triple t (Ds t ft ow Phi) (pgets (fun _ s => safeStateLatched s))
    (fun b => Ds t ft ow (fun s => Phi s /\ if b : bool then True else covered_latch t s)).
Proof.
  intros HP. apply triple_read; [by apply ds_stable_Ds, co_stable| |].
  - intros [|]; apply ds_stable_Ds, co_stable; [apply cond_and; [done|apply cond_true]|apply cond_and; [done|apply cond_covered]].
  - intros _ s Hi [Ha Hphi]. split; [done|]. split; [done|]. unfold safeStateLatched.
    destruct (sm_latch s =? 0) eqn:Hl; simpl; [|done]. intros Hn. by apply Z.eqb_eq in Hl.
Qed.

Lemma read_tier2_ok t ft ow Phi : Cond t Phi ->
  triple t (Ds t ft ow Phi) (pgets (fun _ s => sm_tier2Hold s))
    (fun b => Ds t ft ow (fun s => Phi s /\ if b : bool then True else sm_tier2Hold s = false)).
Proof.
  intros HP. apply triple_read; [by apply ds_stable_Ds, co_stable| |].
  - intros [|]; apply ds_stable_Ds, co_stable; [apply cond_and; [done|apply cond_true]|apply cond_and; [done|apply cond_no_tier2]].
  - intros _ s Hi [Ha Hphi]. split; [done|]. split; [done|]. by destruct (sm_tier2Hold s).
Qed.

Lemma read_suppress_ok t ft ow Phi : Cond t Phi ->
  triple t (Ds t ft ow Phi) (pgets (fun _ s => sm_pssSuppress s)) (fun _ => Ds t ft ow Phi).
Proof. intros HP. apply triple_look. by apply ds_stable_Ds, co_stable. Qed.

Lemma send_or_hold_ok t ft c a Phi : Cond t Phi ->
  triple t (Ds t ft false Phi) (send_or_hold t c a) (fun _ => Ds t ft false balanced).
Proof.
  intros HP. eapply triple_bind; [by apply read_tier2_ok|]. intros [|].
  { apply triple_hold, cond_and; [done|apply cond_true]. }
  eapply triple_bind; [apply read_latched_ok, cond_and; [done|apply cond_no_tier2]|]. intros [|].
  { apply triple_hold, cond_and; [apply cond_and; [done|apply cond_no_tier2]|apply cond_true]. }
  eapply triple_bind; [eapply triple_pre; [apply triple_send_free|]|].
  - intros s _ [Ha [[_ Ht] Hc]]. split; [done|]. by split.
  - intros ok. apply triple_ret; [apply ds_stable_Ds, balanced_stable|done].
Qed.

Lemma app_step_softens t (a : App) s : softens t s (set_app a s).
Proof. by split. Qed.

Lemma batch_ok t ft r : triple t (At t ft false false) (process_batch t r) (fun _ => At t ft false false).
Proof.
  unfold process_batch. destruct app_under_send.
  - apply (triple_with_ds t _ ft false (fun _ => false)).
    eapply triple_bind.
    { apply triple_soft; [apply ds_stable_Ds, balanced_stable|apply ds_soft, balanced_soft|].
      intros e s. destruct (app_verdict _ _ _). apply app_step_softens. }
    intros [[c a]|]; [|apply triple_same, ds_stable_Ds, balanced_stable]. apply send_or_hold_ok, cond_balanced.
  - eapply triple_bind; [apply triple_look, at_stable|]. intros now.
    eapply triple_bind.
    { apply triple_each; [apply at_stable|]. intros f _. apply triple_soft_unit; [apply at_stable|apply at_soft|].
      intros _ s. apply app_step_softens. }
    intros []. eapply triple_bind.
    { apply triple_soft; [apply at_stable|apply at_soft|].
      intros e s. destruct (app_verdict _ _ _). apply app_step_softens. }
    intros [[c a]|]; [|apply triple_same, at_stable].
    apply (triple_with_ds t _ ft false (fun _ => false)).
    eapply triple_bind.
    { apply triple_soft_unit; [apply ds_stable_Ds, balanced_stable|apply ds_soft, balanced_soft|].
      intros _ s. apply app_step_softens. }
    intros []. apply send_or_hold_ok, cond_balanced.
Qed.

(** A no-op request says nothing about sensors. *)
Lemma noop_health t r :
  (summary_count r =? 1) && (ev_type (sd_event (first_entry r)) =? PSS_STATUS_NOOP) = true ->
  updateSensorHealthFromDecisionRequest (App:=App) cf t r = Ret false.
Proof.
  rewrite andb_true_iff, Z.eqb_eq. intros [Hc Hn]. unfold updateSensorHealthFromDecisionRequest, populated.
  rewrite Hc. unfold first_entry in Hn. destruct (dr_sensorDataSummary r) as [|sd l]; [done|]. simpl in *.
  unfold updateSensorHealth_entry. rewrite Hn. by destruct (_ =? STALE).
Qed.

Lemma error_mode_ok t ft ow r : triple t (At t ft false ow) (process_error_mode t r) (fun _ => At t ft false false).
Proof.
  eapply triple_bind; [apply sw_fail_ok|]. intros e. apply enter_causes_ok; [|done]. repeat constructor.
Qed.

Lemma normal_mode_ok t ft entered r :
  ((summary_count r =? 1) && (ev_type (sd_event (first_entry r)) =? PSS_STATUS_NOOP) = true -> entered = false) ->
  triple t (At t ft false entered) (process_normal_mode t entered r) (fun _ => At t ft false false).
Proof.
  intros Hnoop. unfold process_normal_mode.
  eapply triple_bind; [apply triple_when, clear_pss_ok; [apply at_stable..|apply at_soft]|]. intros [].
  destruct (_ && _) eqn:Hb.
  - rewrite Hnoop by done. apply triple_when, clear_pss_ok; [apply at_stable..|apply at_soft].
  - eapply (triple_bind _ _ _ _ _ _ _ (fun _ => At t ft false entered)).
    { apply triple_when; [apply at_stable|]. eapply triple_bind; [apply clear_pss_ok; [apply at_stable|apply at_soft]|].
      intros []. apply clear_pss_ok; [apply at_stable|apply at_soft]. }
    intros []. eapply triple_bind; [apply sw_fail_ok|]. intros [|]; [apply triple_same, at_stable|].
    destruct entered; [apply stop_and_hold_ok|apply batch_ok].
Qed.

Lemma process_ok r :
  triple Listener (At Listener true false false) (processDecisionRequestLocked cf Listener r)
    (fun _ => At Listener true false false).
Proof.
  eapply triple_bind; [apply ai_ok|]. intros e. cbn [orb].
  eapply (triple_bind _ _ _ _ _ _ _ (fun _ => At Listener true false false)).
  { destruct e; [apply stop_and_hold_ok|apply triple_same, at_stable]. }
  intros []. eapply triple_bind; [apply presence_ok|]. intros []. eapply triple_bind; [apply input_ok|]. intros [].
  destruct ((summary_count r =? 1) && (ev_type (sd_event (first_entry r)) =? PSS_STATUS_NOOP)) eqn:Hn.
  - rewrite noop_health by done. cbn [pbind]. destruct (_ =? ERROR); [apply error_mode_ok|by apply normal_mode_ok].
  - eapply triple_bind; [apply (health_ok r false)|]. intros entered. cbn [orb].
    destruct (_ =? ERROR); [apply error_mode_ok|]. apply normal_mode_ok. rewrite Hn. done.
Qed.

(** ** The packet *)

Lemma fresh_ok t Pre : stable t Pre -> soft t Pre -> triple t Pre markDecisionRequestFresh (fun _ => Pre).
Proof.
  intros. eapply triple_bind; [apply triple_soft_unit; [done..|by split]|]. intros [].
  apply triple_soft_unit; [done..|by split].
Qed.

Lemma transition_ok packet :
  triple Listener (At Listener true false false) (packet_transition cf Listener packet)
    (fun _ => At Listener true false false).
Proof.
  eapply triple_bind.
  { apply triple_soft; [apply at_stable|apply at_soft|]. intros e s. by destruct (sdmGatewayDecisionSequenceObserve _ _ _). }
  intros [| | |]; [| |apply triple_same, at_stable..].
  - eapply triple_bind; [apply triple_soft_unit; [apply at_stable|apply at_soft|by split]|]. intros [].
    eapply triple_bind; [apply fresh_ok; [apply at_stable|apply at_soft]|]. intros []. apply process_ok.
  - eapply triple_bind; [apply triple_mark_seq|]. intros e. cbn [orb].
    eapply (triple_bind _ _ _ _ _ _ _ (fun _ => At Listener true false false)).
    { destruct e; [apply latched_hold_ok|apply triple_same, at_stable]. }
    intros []. eapply triple_bind; [apply fresh_ok; [apply at_stable|apply at_soft]|]. intros []. apply process_ok.
Qed.

Lemma at_idle t s : Inv s -> At t false false false s <-> Idle t s.
Proof.
  intros Hi. split.
  - intros [Hft Hds How _]. split_and!; [by apply not_owned|by apply not_owned|done].
  - intros (Hft & Hds & How). split; [by apply bool_decide_eq_false_2..|done|].
    intros -> Hf. destruct (inv_all _ Hi Hf); [done|congruence].
Qed.

(** A handler that starts and ends between locks. *)
Lemma triple_idle t (p : P unit) :
  triple t (At t false false false) p (fun _ => At t false false false) -> triple t (Idle t) p (fun _ => Idle t).
Proof. intros Hp. eapply triple_conseq; [exact Hp|..]; intros; by apply at_idle. Qed.

Lemma packet_ok packet : triple Listener (Idle Listener) (on_packet cf Listener packet) (fun _ => Idle Listener).
Proof.
  apply triple_idle. unfold on_packet. destruct (negb _); [apply triple_same, at_stable|].
  destruct (negb _); [apply triple_same, at_stable|].
  eapply triple_bind; [apply triple_lock_ft|]. intros []. eapply triple_bind; [apply transition_ok|]. intros [].
  apply triple_unlock_ft.
Qed.

(** ** The release *)

Lemma last_word_skip x l : tx_command x <> CMD_SW_ERROR -> no_motion (tx_command x) || negb (tx_ok x) = true ->
  last_word (x :: l) = last_word l.
Proof.
  intros Hc Hs. destruct l as [|y l]; [done|]. cbn [last_word].
  by rewrite (proj2 (Z.eqb_neq _ _) Hc), Hs.
Qed.

(** A send the PLC's motion does not depend on. *)
Lemma pushed_balanced t p ok s : cp_command p <> CMD_SW_ERROR -> no_motion (cp_command p) || negb ok = true ->
  balanced s -> balanced (pushed t p ok s).
Proof.
  intros Hc Hs Hb. pose proof (pushed_fields t p ok s) as (_ & _ & F3 & F4 & _ & F6 & F7 & F8).
  rewrite (proj2 (Z.eqb_neq _ _) Hc) in F8.
  intros Hn. unfold needs_hold in Hn. rewrite F3, F4 in Hn. destruct (Hb Hn) as [Hw|[u Hu]]; [left|right].
  - unfold word_ok. by rewrite F6, last_word_skip.
  - exists u. destruct (decide (u = t)) as [->|]; [by rewrite F8|by rewrite F7].
Qed.

Lemma pushed_free t p ok s : free_to_send t s -> free_to_send t (pushed t p ok s).
Proof.
  intros [Hl Ht]. pose proof (pushed_fields t p ok s) as (_ & _ & F3 & F4 & _ & _ & F7 & _).
  split; [|by rewrite F4]. intros Hn. rewrite F3 in Hn. destruct (Hl Hn) as (u & Hu & Ho).
  exists u. split; [done|]. by rewrite F7.
Qed.

Lemma reset_ok t ft ow Phi : Cond t Phi ->
  triple t (Ds t ft ow Phi) resetStateFromPlcSafeRelease (fun _ => Ds t ft ow Phi).
Proof. intros []. apply triple_soft_unit; [by apply ds_stable_Ds|by apply ds_soft|by split]. Qed.

Lemma mark_release_ok t ft ow now Phi : Cond t Phi ->
  triple t (Ds t ft ow Phi) (markSafeReleaseNoopResponseSuccess now) (fun _ => Ds t ft ow Phi).
Proof. intros []. apply triple_soft_unit; [by apply ds_stable_Ds|by apply ds_soft|by split]. Qed.

(** The acknowledgement was the last send. *)
Definition acked (ackSent : bool) s : Prop := balanced s /\ head_is CMD_SAFE_RELEASE_ACK (fun b => b = ackSent) (sm_sent s).

Lemma cond_acked t b : Cond t (acked b).
Proof. apply cond_and; [apply cond_balanced|apply cond_sent]. Qed.

Lemma ack_ok t ft :
  triple t (Ds t ft false balanced) (sendDecisionCommand t CMD_SAFE_RELEASE_ACK false no_attach)
    (fun b => Ds t ft false (acked b)).
Proof.
  apply (triple_send t ft false CMD_SAFE_RELEASE_ACK false no_attach balanced acked);
    [apply cond_balanced|intros; apply cond_acked|].
  intros s p ok Hb Hc. split.
  - apply pushed_balanced; [by rewrite Hc|by rewrite Hc|done].
  - pose proof (pushed_fields t p ok s) as (_ & _ & _ & _ & _ & F6 & _). rewrite F6.
    by exists {| tx_packet := p; tx_ok := ok |}, (sm_sent s).
Qed.

(** What is known after NORMAL. *)
Definition after_normal (ackSent normalSent : bool) s : Prop :=
  if ackSent && normalSent then answered (sm_sent s) else balanced s.

Lemma cond_after_normal t a n : Cond t (after_normal a n).
Proof. unfold after_normal. destruct (a && n); [apply cond_sent|apply cond_balanced]. Qed.

Lemma normal_ok t ft a :
  triple t (Ds t ft false (acked a)) (sendDecisionCommand t CMD_NORMAL true no_attach)
    (fun n => Ds t ft false (after_normal a n)).
Proof.
  apply (triple_send t ft false CMD_NORMAL true no_attach (acked a) (after_normal a));
    [apply cond_acked|intros; apply cond_after_normal|].
  intros s p ok [Hb (x & l & Hl & Hx & Hok)] Hc.
  pose proof (pushed_fields t p ok s) as (_ & _ & _ & _ & _ & F6 & _).
  unfold after_normal. destruct ok; [destruct a; simpl|rewrite andb_false_r].
  - unfold answered. rewrite F6, Hl. eexists _, x, l. by split_and!.
  - intros _. left. unfold word_ok. rewrite F6, Hl. cbn [last_word].
    change (tx_command {| tx_packet := p; tx_ok := true |}) with (cp_command p). by rewrite Hc, Hx, Hok.
  - apply pushed_balanced; [by rewrite Hc|by rewrite Hc|done].
Qed.

Lemma release_latched_ok snapshot :
  triple AckHandler (Ds AckHandler true false balanced) (release_latched AckHandler snapshot)
    (fun _ => Ds AckHandler true false balanced).
Proof.
  eapply triple_bind; [apply triple_look, ds_stable_Ds, balanced_stable|]. intros now.
  eapply triple_bind; [apply ack_ok|]. intros a. eapply triple_bind; [apply normal_ok|]. intros n.
  unfold after_normal. destruct (a && n); [|apply triple_same, ds_stable_Ds, balanced_stable].
  eapply triple_bind; [apply triple_clear_latch|]. intros [|]; [|apply triple_hold, cond_true].
  eapply triple_bind; [apply reset_ok, cond_free|]. intros [].
  eapply (triple_bind _ _ _ _ _ _ _ (fun _ => Ds AckHandler true false (free_to_send AckHandler))).
  { apply triple_soft_unit; [apply ds_stable_Ds, free_to_send_stable|apply ds_soft, free_to_send_soft|by split]. }
  intros []. eapply triple_post; [apply mark_release_ok, cond_free|].
  intros [] s _ [Ha [Hl Ht]]. split; [done|]. intros [Hn|Hn]; [|congruence].
  right. destruct (Hl Hn) as (u & _ & ?). eauto.
Qed.

Lemma release_unlatched_ok t ft :
  triple t (Ds t ft false (free_to_send t)) (release_unlatched t) (fun _ => Ds t ft false balanced).
Proof.
  eapply triple_bind; [apply triple_look, ds_stable_Ds, free_to_send_stable|]. intros now.
  eapply triple_bind.
  { apply (triple_send t ft false CMD_SAFE_RELEASE_ACK false no_attach _ (fun _ => free_to_send t));
      [apply cond_free|intros; apply cond_free|]. intros s p ok Hf _. by apply pushed_free. }
  intros a. change (CMD_SAFE_RELEASE_ACK =? CMD_SW_ERROR) with false. cbv iota.
  eapply triple_bind; [apply triple_send_free|]. intros n.
  destruct (a && n); [|apply triple_same, ds_stable_Ds, balanced_stable].
  eapply triple_bind; [apply reset_ok, cond_balanced|]. intros []. apply mark_release_ok, cond_balanced.
Qed.

Lemma release_locked_ok :
  triple AckHandler (Ds AckHandler true false balanced) (release_locked AckHandler)
    (fun _ => Ds AckHandler true false balanced).
Proof.
  set (Read1 := fun (act : Z) s => balanced s /\ (act = 0 -> sm_tier2Hold s = false)).
  assert (HC1 : forall act, Cond AckHandler (Read1 act)).
  { intros act. apply cond_and; [apply cond_balanced|]. destruct (decide (act = 0)).
    - destruct (cond_no_tier2 (App:=App) AckHandler) as [H1 H2].
      split; [intros ? ? ? ? ? ? ? ? H ?; eapply H1; eauto|intros ? ? ? H ?; eapply H2; eauto].
    - split; unfold ds_stable, soft; intros; congruence. }
  eapply (triple_bind _ _ _ _ _ _ _ (fun act => Ds AckHandler true false (Read1 act))).
  { apply triple_read; [apply ds_stable_Ds, balanced_stable|intros; apply ds_stable_Ds, co_stable, HC1|].
    intros _ s Hi [Ha Hb]. split; [done|]. split; [done|]. intros Hz. by apply active_causes_zero in Hz as (_ & ? & _). }
  intros act. destruct (negb (act =? 0)) eqn:Hact.
  - eapply (triple_bind _ _ _ _ _ _ _ (fun _ => Ds AckHandler true false (fun _ => True))).
    + apply (triple_send AckHandler true false CMD_SAFE_RELEASE_DENIED false no_attach (Read1 act) (fun _ _ => True));
        [apply HC1|intros; apply cond_true|done].
    + intros ok. apply triple_hold, cond_true.
  - apply negb_false_iff, Z.eqb_eq in Hact. subst act.
    set (Read2 := fun (sn : Z) s => if sn =? 0 then free_to_send AckHandler s else balanced s).
    eapply (triple_bind _ _ _ _ _ _ _ (fun sn => Ds AckHandler true false (Read2 sn))).
    { apply triple_read; [apply ds_stable_Ds, co_stable, HC1| |].
      - intros sn. unfold Read2. destruct (sn =? 0); apply ds_stable_Ds; [apply free_to_send_stable|apply balanced_stable].
      - intros _ s Hi [Ha [Hb Ht]]. split; [done|]. unfold Read2. destruct (sm_latch s =? 0) eqn:Hl; [|done].
        apply Z.eqb_eq in Hl. split; [by intros Hn|by apply Ht]. }
    intros sn. unfold Read2. destruct (sn =? 0); cbn [negb]; [apply release_unlatched_ok|apply release_latched_ok].
Qed.

Lemma release_ok : triple AckHandler (Idle AckHandler) (handleSafeReleaseRequest AckHandler) (fun _ => Idle AckHandler).
Proof.
  apply triple_idle. eapply triple_bind; [apply triple_lock_ft|]. intros [].
  eapply triple_bind; [apply (triple_with_ds AckHandler _ true false (fun _ => false)), release_locked_ok|]. intros [].
  apply triple_unlock_ft.
Qed.

(** ** The other threads *)

Lemma scan_ok t Pre : stable t Pre -> soft t Pre -> triple t Pre scan_pending (fun _ => Pre).
Proof.
  intros. eapply triple_bind; [apply triple_soft; [done..|]|].
  - intros e s. by destruct (_ <=? _); split.
  - intros b. apply triple_when, triple_soft_unit; [done..|by split].
Qed.

Lemma ack_loop_ok d : triple AckHandler (Idle AckHandler) (ackHandlerLoop AckHandler d) (fun _ => Idle AckHandler).
Proof.
  pose proof (scan_ok AckHandler (Idle AckHandler) (idle_stable _) (idle_soft _)) as Hscan.
  pose proof (triple_same (App:=App) AckHandler tt (Idle AckHandler) (idle_stable _)) as Hskip.
  unfold ackHandlerLoop. destruct d as [[configured bytes]|]; [|done].
  destruct (negb _); [done|]. destruct (negb _); [done|]. destruct (negb _); [done|].
  destruct (negb _); [done|]. destruct (negb _); [done|].
  destruct (_ =? CMD_SAFE_RELEASE_REQUEST).
  - eapply triple_bind; [apply release_ok|]. by intros [].
  - eapply triple_bind; [apply triple_soft; [apply idle_stable|apply idle_soft|]|].
    + intros e s. destruct (_ !! _); [destruct (negb _)|]; by split.
    + by intros [].
Qed.

Lemma leave_tier2_ok t : triple t (At t false false false) (leave_tier2 t) (fun _ => At t false false false).
Proof.
  eapply triple_bind; [apply triple_soft; [apply at_stable|apply at_soft|by split]|].
  intros [|]; [|apply triple_same, at_stable].
  eapply triple_bind; [apply triple_look, at_stable|]. intros b.
  apply triple_when; [apply at_stable|]. apply latched_hold_ok.
Qed.

Lemma hb_watchdog_ok t : triple t (Idle t) (gatewayHeartbeatWatchdog cf t) (fun _ => Idle t).
Proof.
  apply triple_idle.
  eapply triple_bind; [apply triple_look, at_stable|]. intros elapsed. cbv zeta.
  eapply triple_bind; [apply triple_when, triple_soft_unit; [apply at_stable..|apply at_soft|by split]|]. intros [].
  eapply triple_bind; [apply triple_when, leave_tier2_ok; apply at_stable|]. intros [].
  eapply triple_bind; [apply triple_look, at_stable|]. intros prevMiss.
  eapply (triple_bind _ _ _ _ _ _ _ (fun _ => At t false false false)).
  { apply triple_when; [apply at_stable|].
    eapply triple_bind; [apply triple_soft_unit; [apply at_stable|apply at_soft|by split]|]. intros [].
    apply (triple_with_ds t _ false false (fun _ => false)).
    eapply triple_bind; [apply triple_set_tier2, cond_balanced|]. intros []. apply triple_hold, cond_true. }
  intros []. eapply triple_bind; [apply triple_soft_unit; [apply at_stable|apply at_soft|by split]|]. intros [].
  eapply triple_bind; [apply triple_soft_unit; [apply at_stable|apply at_soft|by split]|]. intros [].
  apply triple_when; [apply at_stable|]. apply (triple_with_ds t _ false false (fun _ => false)).
  eapply triple_bind; [apply triple_mark_hb, cond_balanced|].
  intros [|]; [apply triple_hold, cond_true|apply triple_same, ds_stable_Ds, balanced_stable].
Qed.

Lemma freshness_watchdog_ok t : triple t (Idle t) (decisionFreshnessWatchdog cf t) (fun _ => Idle t).
Proof.
  apply triple_idle. eapply triple_bind; [apply triple_look, at_stable|]. intros lastValid.
  eapply triple_bind; [apply triple_look, at_stable|]. intros now.
  destruct (sdmDecisionFreshnessExpired _ _); [|apply triple_same, at_stable].
  eapply triple_bind; [apply triple_mark_fresh|]. intros [|]; [apply latched_hold_ok|apply triple_same, at_stable].
Qed.

Lemma heartbeat_tx_ok t : triple t (Idle t) (heartbeatTransmitter t) (fun _ => Idle t).
Proof.
  apply triple_idle. eapply triple_bind; [|intros ok; apply triple_same, at_stable].
  apply (triple_with_ds t _ false false (fun _ => false)).
  apply (triple_send t false false CMD_HEARTBEAT true no_attach balanced (fun _ => balanced));
    [apply cond_balanced|intros; apply cond_balanced|].
  intros s p ok Hb Hc. apply pushed_balanced; [by rewrite Hc|by rewrite Hc|done].
Qed.

(** Latch, suppression and tier-2 flag all read clear, in this order. *)
Lemma read_clear_ok t {A} (hold : P A) (go : P A) Q :
  (forall Phi, Cond t Phi -> triple t (Ds t false false (fun s => balanced s /\ Phi s)) hold Q) ->
  triple t (Ds t false false (free_to_send t)) go Q ->
  triple t (Ds t false false balanced)
    (pbind (pgets (fun _ s => safeStateLatched s)) (fun latched =>
       if latched : bool then hold
       else pbind (pgets (fun _ s => sm_pssSuppress s)) (fun suppressed =>
         if suppressed : bool then hold
         else pbind (pgets (fun _ s => sm_tier2Hold s)) (fun tier2 => if tier2 : bool then hold else go)))) Q.
Proof.
  intros Hh Hg. eapply triple_bind; [apply read_latched_ok, cond_balanced|].
  intros [|]; [apply Hh, cond_true|].
  eapply triple_bind; [apply read_suppress_ok, cond_and; [apply cond_balanced|apply cond_covered]|].
  intros [|]; [apply Hh, cond_covered|].
  eapply triple_bind; [apply read_tier2_ok, cond_and; [apply cond_balanced|apply cond_covered]|].
  intros [|].
  - eapply triple_pre; [apply (Hh (covered_latch t)), cond_covered|]. intros s _ [Ha [Hb _]]. by split.
  - eapply triple_pre; [exact Hg|]. intros s _ [Ha [[_ Hc] Ht]]. split; [done|by split].
Qed.

Lemma periodic_ok t : triple t (Idle t) (periodicDecisionLoop t) (fun _ => Idle t).
Proof.
  apply triple_idle. apply (triple_with_ds t _ false false (fun _ => false)). apply read_clear_ok.
  - intros Phi HP. apply triple_hold, cond_and; [apply cond_balanced|done].
  - eapply triple_bind.
    { apply triple_soft; [apply ds_stable_Ds, free_to_send_stable|apply ds_soft, free_to_send_soft|].
      intros e s. destruct (app_periodic _ _). apply app_step_softens. }
    intros ca. eapply triple_bind; [apply triple_send_free|].
    intros ok. apply triple_same, ds_stable_Ds, balanced_stable.
Qed.

Lemma tick_ok t tick : triple t (Idle t) (evaluationTick t tick) (fun _ => Idle t).
Proof.
  apply triple_idle. eapply triple_bind.
  { apply triple_soft; [apply at_stable|apply at_soft|]. intros e s. destruct (tick _ _). apply app_step_softens. }
  intros desired. apply (triple_with_ds t _ false false (fun _ => false)).
  eapply triple_bind.
  { apply triple_soft; [apply ds_stable_Ds, balanced_stable|apply ds_soft, balanced_soft|].
    intros e s. destruct (app_publish _ _). apply app_step_softens. }
  intros changed. destruct (negb changed); [apply triple_same, ds_stable_Ds, balanced_stable|].
  apply read_clear_ok.
  - intros Phi HP. apply triple_ret; [apply ds_stable_Ds, co_stable, cond_and; [apply cond_balanced|done]|].
    intros s _ [Ha [Hb _]]. by split.
  - eapply triple_bind; [apply triple_send_free|]. intros ok. apply triple_same, ds_stable_Ds, balanced_stable.
Qed.

Lemma body_ok t i p : body cf t i = Some p -> triple t (Idle t) p (fun _ => Idle t).
Proof.
  destruct t, i; intros Hb; simplify_eq/=.
  - apply packet_ok.
  - apply triple_soft_unit; [apply idle_stable|apply idle_soft|by split].
  - apply ack_loop_ok.
  - apply hb_watchdog_ok.
  - apply freshness_watchdog_ok.
  - apply periodic_ok.
  - apply heartbeat_tx_ok.
  - apply fmap_Some in Hb as (tick & _ & ->). apply tick_ok.
Qed.

(** ** Reachable pools *)

Local Abbreviation Good := (good (E:=Env) (Inv (App:=App)) Guar Waits Idle).

Lemma initial_inv now : Inv (initial (App:=App) now).
Proof. split; simpl; try done. intros _ [Hn|Hn]; done. Qed.

Lemma initial_idle now t : Idle t (initial (App:=App) now).
Proof. by split_and!. Qed.

Lemma runs_good now ls c : runs cf now ls = Some c -> Good c.
Proof.
  intros Hr. eapply exec_good; [apply body_ok| |exact Hr]. apply idle_pool_good; [apply initial_inv|].
  intros t s' Hi Hrely. eapply stable_rely; [apply idle_stable|apply initial_inv|exact Hrely|apply initial_idle].
Qed.

(** One more step of a run. *)
Lemma runs_step now ls c l c' : runs cf now ls = Some c -> step (body cf) l c = Some c' ->
  match l with Start _ _ => shared c' = shared c | Run t _ => Guar t (shared c) (shared c') end.
Proof. intros Hr Hs. eapply exec_step_good; [apply body_ok|by eapply runs_good|exact Hs]. Qed.

(** ** Theorems *)

Lemma idle_unowned c : Good c -> all_idle c -> sm_dsOwner (shared c) = None /\ sm_ftOwner (shared c) = None /\
  forall t, sm_owes (shared c) t = false.
Proof.
  intros Hg Hid. assert (Hi : forall t, Idle t (shared c)) by (intros t; by eapply good_idle).
  split_and!.
  - destruct (sm_dsOwner (shared c)) as [t|] eqn:Ho; [|done]. by destruct (Hi t) as (_ & ? & _).
  - destruct (sm_ftOwner (shared c)) as [t|] eqn:Ho; [|done]. by destruct (Hi t) as (? & _ & _).
  - intros t. by destruct (Hi t) as (_ & _ & ?).
Qed.

(** A PSS cause that suppresses fusion is latched. *)
Lemma suppress_latched s : Inv s -> sm_pssSuppress s = true -> sm_latch s <> 0.
Proof. intros Hi Hs. eapply bit_nonzero, (inv_pss _ Hi). by rewrite <- (inv_suppress _ Hi). Qed.

Lemma idle_word now ls c :
  runs cf now ls = Some c -> all_idle c ->
  sm_latch (shared c) <> 0 \/ sm_pssSuppress (shared c) = true \/ sm_tier2Hold (shared c) = true ->
  last_word (sm_sent (shared c)) = WHold \/ last_word (sm_sent (shared c)) = WSplit.
Proof.
  intros Hr Hid Hn. pose proof (runs_good _ _ _ Hr) as Hg. destruct (idle_unowned c Hg Hid) as (Hds & _ & How).
  pose proof (proj1 Hg) as Hi.
  destruct (inv_word _ Hi Hds) as [Hw|[t Ht]].
  - destruct Hn as [?|[Hs|?]]; [by left|left; by apply suppress_latched|by right].
  - unfold word_ok in Hw. destruct (last_word _); auto. done.
  - by rewrite How in Ht.
Qed.

(** C2. In every interleaving of the process's threads, once no thread is inside a
    handler: if a latch is set, fusion is suppressed or the tier-2 heartbeat hold
    is on, then the last command handed to the PLC socket is the hold (STOP then
    SW_ERROR), with one exception: a release whose CMD_NORMAL was delivered and
    whose acknowledgement was not. *)
Theorem hold_has_last_word now ls c :
  runs cf now ls = Some c -> all_idle c ->
  sm_latch (shared c) <> 0 \/ sm_pssSuppress (shared c) = true \/ sm_tier2Hold (shared c) = true ->
  last_word (sm_sent (shared c)) = WHold \/ last_word (sm_sent (shared c)) = WSplit.
Proof. apply idle_word. Qed.

(** C3. A latch bit survives every step of every thread in every reachable pool,
    except the one step of the ACK thread that clears them all: inside a release,
    owning both locks, with no fault source active at that moment and with the
    acknowledgement and CMD_NORMAL as its two newest sends, both delivered. *)
Theorem latch_survives_every_step now ls c l c' k :
  runs cf now ls = Some c -> step (body cf) l c = Some c' ->
  Z.testbit (sm_latch (shared c)) k = true ->
  Z.testbit (sm_latch (shared c')) k = true \/
  exists e, l = Run AckHandler e /\ release_clears AckHandler (shared c) (shared c').
Proof.
  intros Hr Hs Hk. pose proof (runs_step _ _ _ _ _ Hr Hs) as HG. destruct l as [t i|t e].
  - left. by rewrite HG.
  - destruct (gu_latch _ _ _ HG) as [Hkeep|Hrel]; [left; auto|]. right. exists e.
    pose proof Hrel as (-> & _). done.
Qed.

(** Once no thread is inside a handler, every fault that is active (heartbeat,
    PSS sub-cause, freshness, sequence, all sensors failed, AI pipeline) has its
    latch bit set, and fusion is suppressed exactly while a sub-cause is active. *)
Theorem active_faults_latched_when_idle now ls c :
  runs cf now ls = Some c -> all_idle c ->
  (sm_hbFault (shared c) = true -> Z.testbit (sm_latch (shared c)) 0 = true) /\
  (pssAnySubCauseActive (shared c) = true -> Z.testbit (sm_latch (shared c)) 1 = true) /\
  (sm_freshFault (shared c) = true -> Z.testbit (sm_latch (shared c)) 2 = true) /\
  (sm_seqFault (shared c) = true -> Z.testbit (sm_latch (shared c)) 3 = true) /\
  (sm_allFailed (shared c) = true -> Z.testbit (sm_latch (shared c)) 4 = true) /\
  (sm_aiInvalid (shared c) = true -> Z.testbit (sm_latch (shared c)) 5 = true) /\
  sm_pssSuppress (shared c) = pssAnySubCauseActive (shared c).
Proof.
  intros Hr Hid. pose proof (runs_good _ _ _ Hr) as Hg. destruct (idle_unowned c Hg Hid) as (_ & Hft & _).
  pose proof (proj1 Hg) as Hi.
  split_and!; [apply (inv_hb _ Hi)|apply (inv_pss _ Hi)|apply (inv_fresh _ Hi)|apply (inv_seq _ Hi)| |
    apply (inv_ai _ Hi)|apply (inv_suppress _ Hi)].
  intros Hall. destruct (inv_all _ Hi Hall); [done|congruence].
Qed.

(** Some handler is unfinished and no thread can take a step. *)
Definition deadlocked (c : @Pool (Sdm App) Env Tid) : Prop :=
  (exists t, is_idle (code c t) = false) /\ forall t e, step (body cf) (Run t e) c = None.

(** C21. The threads cannot deadlock: in no reachable pool are the unfinished
    handlers all blocked, whatever the schedule, so a release, a packet and the
    watchdogs waiting for each other's two mutexes always let one of them go on. *)
Theorem no_deadlock now ls c : runs cf now ls = Some c -> ~ deadlocked c.
Proof.
  intros Hr [[t0 Ht0] Hb]. pose proof (runs_good _ _ _ Hr) as Hg.
  assert (Hw : forall t, is_idle (code c t) = false -> Waits t (shared c)).
  { intros t Ht. eapply good_blocked; [done|done|]. intros e. apply Hb. }
  assert (Hid : forall t, is_idle (code c t) = true -> Idle t (shared c)) by (intros t; by eapply good_idle).
  assert (Hds : sm_dsOwner (shared c) = None).
  { destruct (sm_dsOwner (shared c)) as [u|] eqn:Ho; [|done]. exfalso.
    destruct (is_idle (code c u)) eqn:Hu; [by destruct (Hid u Hu) as (_ & ? & _)|].
    destruct (Hw u Hu) as [(u' & Hne & ?)|(u' & _ & _ & ?)]; congruence. }
  assert (Hft : sm_ftOwner (shared c) = None).
  { destruct (sm_ftOwner (shared c)) as [u|] eqn:Ho; [|done]. exfalso.
    destruct (is_idle (code c u)) eqn:Hu; [by destruct (Hid u Hu) as (? & _ & _)|].
    destruct (Hw u Hu) as [(u' & _ & ?)|(u' & Hne & ? & _)]; congruence. }
  destruct (Hw t0 Ht0) as [(u & _ & ?)|(u & _ & ? & _)]; congruence.
Qed.
End Handlers.
