(* ===== verification/Proximity.v ===== *)
(** * The proximity decision maker

    [ProximityControl.cpp]: the event table with its start-up binding, the
    worst-case arbitration of a batch, and the instance of [SdmCore].  The event
    numbers come from [ProximityConfig]. *)

From S2P Require Import Prelude Protocol Crc Validate SdmRequestState GatewayContract SdmSequence Threads PlcPacket SdmCore.

(** ** The event table *)

Inductive ProximityPairGroup :=
  | PAIR_GROUP_HUMANOID_PERSON | PAIR_GROUP_FORKLIFT_PERSON | PAIR_GROUP_TRANSPORTER_PERSON
  | PAIR_GROUP_FOURIER_HUMANOID_PERSON.

Inductive ProximityTier := PROXIMITY_TIER_NO_VIOLATION | PROXIMITY_TIER_WARNING | PROXIMITY_TIER_CRITICAL.

#[export] Instance ProximityPairGroup_eq_dec : EqDecision ProximityPairGroup.
Proof. solve_decision. Defined.

#[export] Instance ProximityTier_eq_dec : EqDecision ProximityTier.
Proof. solve_decision. Defined.

Record ProximityEventDescriptor := {
  pd_event : EventType;
  pd_group : ProximityPairGroup;
  pd_tier : ProximityTier;
}.

Definition PROXIMITY_TIERS_PER_GROUP : nat := 3.
Definition PROXIMITY_EVENT_COUNT : nat := 12.

(** The rows of the table, before the binding fills in the event numbers. *)
Definition PROXIMITY_EVENT_ROWS : list (ProximityPairGroup * ProximityTier) :=
  [(PAIR_GROUP_HUMANOID_PERSON, PROXIMITY_TIER_NO_VIOLATION);
   (PAIR_GROUP_HUMANOID_PERSON, PROXIMITY_TIER_WARNING);
   (PAIR_GROUP_HUMANOID_PERSON, PROXIMITY_TIER_CRITICAL);
   (PAIR_GROUP_FORKLIFT_PERSON, PROXIMITY_TIER_NO_VIOLATION);
   (PAIR_GROUP_FORKLIFT_PERSON, PROXIMITY_TIER_WARNING);
   (PAIR_GROUP_FORKLIFT_PERSON, PROXIMITY_TIER_CRITICAL);
   (PAIR_GROUP_TRANSPORTER_PERSON, PROXIMITY_TIER_NO_VIOLATION);
   (PAIR_GROUP_TRANSPORTER_PERSON, PROXIMITY_TIER_WARNING);
   (PAIR_GROUP_TRANSPORTER_PERSON, PROXIMITY_TIER_CRITICAL);
   (PAIR_GROUP_FOURIER_HUMANOID_PERSON, PROXIMITY_TIER_NO_VIOLATION);
   (PAIR_GROUP_FOURIER_HUMANOID_PERSON, PROXIMITY_TIER_WARNING);
   (PAIR_GROUP_FOURIER_HUMANOID_PERSON, PROXIMITY_TIER_CRITICAL)].

Definition PROXIMITY_EVENT_TABLE (events : list EventType) : list ProximityEventDescriptor :=
  zip_with (fun e row => {| pd_event := e; pd_group := row.1; pd_tier := row.2 |}) events PROXIMITY_EVENT_ROWS.

Definition no_events : list EventType := replicate PROXIMITY_EVENT_COUNT EVENT_UNKNOWN.

(** The binding: the events of the table, whether they are configured and whether
    launch has frozen them. *)
Record Binding := { bd_events : list EventType; bd_configured : bool; bd_frozen : bool }.

Definition initial_binding : Binding := {| bd_events := no_events; bd_configured := false; bd_frozen := false |}.

Definition event_at (events : list EventType) (i : nat) : EventType := nth i events EVENT_UNKNOWN.

(** Row [i] of a configuration: its group is complete, its event is in range and
    differs from the events of the rows before. *)
Definition row_ok (events : list EventType) (i : nat) : bool :=
  let first := (i / PROXIMITY_TIERS_PER_GROUP * PROXIMITY_TIERS_PER_GROUP)%nat in
  let enabled := negb (event_at events first =? EVENT_UNKNOWN) in
  if negb (Bool.eqb enabled (negb (event_at events i =? EVENT_UNKNOWN))) then false
  else if negb enabled then true
  else (u32 (event_at events i) <=? EVENT_23) &&
       forallb (fun j => negb (event_at events i =? event_at events j)) (seq 0 i).

(** Rows that are bound. *)
Definition enabled_rows (events : list EventType) : list nat :=
  List.filter (fun i => negb (event_at events i =? EVENT_UNKNOWN)) (seq 0 PROXIMITY_EVENT_COUNT).

Definition proximitySetSubscribedEvents (events : list EventType) (b : Binding) : bool * Binding :=
  if bd_frozen b then (false, b)
  else if negb (forallb (row_ok events) (seq 0 PROXIMITY_EVENT_COUNT)) then (false, b)
  else if (length (enabled_rows events) =? 0)%nat then (false, b)
  else (true, {| bd_events := events; bd_configured := true; bd_frozen := bd_frozen b |}).

(** The first thing [launchProximityControlAlgo] does. *)
Definition freeze_binding (b : Binding) : bool * Binding :=
  if negb (bd_configured b) || bd_frozen b then (false, b)
  else (true, {| bd_events := bd_events b; bd_configured := true; bd_frozen := true |}).

Definition proximityEventDescriptor (events : list EventType) (eventType : EventType) : option ProximityEventDescriptor :=
  List.find (fun d => negb (pd_event d =? EVENT_UNKNOWN) && (pd_event d =? eventType)) (PROXIMITY_EVENT_TABLE events).

(** ** Arbitration *)

Definition proximityCommandSeverityRank (command : Z) : Z :=
  if command =? CMD_STOP then 2 else if command =? CMD_REDUCE then 1 else 0.

Definition tier_command (tier : ProximityTier) : Z :=
  match tier with
  | PROXIMITY_TIER_CRITICAL => CMD_STOP
  | PROXIMITY_TIER_WARNING => CMD_REDUCE
  | PROXIMITY_TIER_NO_VIOLATION => CMD_NORMAL
  end.

(** The command an entry asks for, if it takes part in the decision. *)
Definition candidate (events : list EventType) (sd : SensorData) : option Z :=
  let et := ev_type (sd_event sd) in
  if ev_status (sd_event sd) =? STALE then None
  else if (et =? SENSOR_INVALID) || (et =? SENSOR_VALID) then None
  else if (et =? AI_PIPELINE_INVALID) || (et =? AI_PIPELINE_VALID) then None
  else if negb (sd_isHealthy sd) then None
  else if negb (sd_isTrustedSource sd) then None
  else (fun d => tier_command (pd_tier d)) <$> proximityEventDescriptor events et.

(** The loop of [computeProximityCommandFromBatch] from slot [i] on: the best
    command so far with its slot. *)
Fixpoint worst_case (events : list EventType) (l : list SensorData) (i : nat) (best : option (Z * nat)) : option (Z * nat) :=
  match l with
  | [] => best
  | sd :: l' =>
    let best' :=
      match candidate events sd with
      | None => best
      | Some c =>
        let bestRank := match best with Some (b, _) => proximityCommandSeverityRank b | None => -1 end in
        if bestRank <? proximityCommandSeverityRank c then Some (c, i) else best
      end in
    worst_case events l' (S i) best'
  end.

Definition computeProximityCommandFromBatch (events : list EventType) (r : DecisionRequest) : option (Z * nat) :=
  worst_case events (populated r) 0 None.

(** ** The instance *)

Definition PROXIMITY_PACKET_IDENTIFIER : Z := 0xA5.

(** The application state is [proximityActiveCommand]. *)
Definition proximity_app (events : list EventType) : SdmApp Z := {|
  app_identifier := PROXIMITY_PACKET_IDENTIFIER;
  app_motion := CMD_REDUCE;
  app_initial := CMD_NORMAL;
  app_ackClock := e_wall;
  app_objects := fun _ _ _ a => fillObjectRecords fillPairObjectRecords (at_request a) (at_slot a);
  app_stop := fun _ => CMD_STOP;
  app_release := fun _ => CMD_NORMAL;
  app_ingest := fun _ _ => [];
  app_under_send := false;
  app_verdict := fun r _ a =>
    ((fun cs => (cs.1, attach_slot r cs.2)) <$> computeProximityCommandFromBatch events r, a);
  app_commit := fun c _ => c;
  app_periodic := fun _ a => ((a, no_attach), a);
  app_tick := None;
  app_publish := fun c a => (negb (a =? c), c);
|}.

(** ** The worst case decides *)

Lemma candidate_range events sd c : candidate events sd = Some c -> c = CMD_STOP \/ c = CMD_REDUCE \/ c = CMD_NORMAL.
Proof.
  unfold candidate. repeat (case_match; [done|]). destruct (proximityEventDescriptor _ _) as [d|]; [|done].
  intros [= <-]. destruct (pd_tier d); auto.
Qed.

Lemma rank_inj c c' :
  (c = CMD_STOP \/ c = CMD_REDUCE \/ c = CMD_NORMAL) -> (c' = CMD_STOP \/ c' = CMD_REDUCE \/ c' = CMD_NORMAL) ->
  proximityCommandSeverityRank c = proximityCommandSeverityRank c' -> c = c'.
Proof. intros [->|[->| ->]] [->|[->| ->]]; vm_compute; congruence. Qed.

(** [best] is the first of the most severe candidates among the entries before
    [i] of [l]. *)
Definition is_worst events (l : list SensorData) (best : option (Z * nat)) : Prop :=
  match best with
  | None => forall j sd, l !! j = Some sd -> candidate events sd = None
  | Some (c, j) =>
    (exists sd, l !! j = Some sd /\ candidate events sd = Some c) /\
    forall j' sd' c', l !! j' = Some sd' -> candidate events sd' = Some c' ->
      proximityCommandSeverityRank c' <= proximityCommandSeverityRank c /\
      ((j' < j)%nat -> proximityCommandSeverityRank c' < proximityCommandSeverityRank c)
  end.

Lemma rank_nonneg c : 0 <= proximityCommandSeverityRank c.
Proof. unfold proximityCommandSeverityRank. repeat case_match; lia. Qed.

Lemma worst_case_spec events l pre best :
  is_worst events pre best -> is_worst events (pre ++ l) (worst_case events l (length pre) best).
Proof.
  revert pre best. induction l as [|sd l IH]; intros pre best Hb; simpl; [by rewrite app_nil_r|].
  replace (S (length pre)) with (length (pre ++ [sd])) by (rewrite length_app; simpl; lia).
  rewrite cons_middle, app_assoc. apply IH.
  assert (Hlast : forall j x, (pre ++ [sd]) !! j = Some x -> pre !! j = Some x \/ (j = length pre /\ x = sd)).
  { intros j x Hj. apply lookup_app_Some in Hj as [?|[Hge Hj]]; [by left|right].
    destruct (j - length pre)%nat eqn:E; simplify_eq/=. split; [lia|done]. }
  destruct (candidate events sd) as [c|] eqn:Hc.
  - destruct best as [[b j]|]; simpl in Hb.
    + destruct Hb as [(x & Hx & Hcx) Hmax].
      assert (j < length pre)%nat as Hjlt by (by eapply lookup_lt_Some).
      destruct (Z.ltb_spec (proximityCommandSeverityRank b) (proximityCommandSeverityRank c)) as [Hlt|Hge].
      * split.
        -- exists sd. split; [|done]. rewrite lookup_app_r, Nat.sub_diag by lia. done.
        -- intros j' x' c' Hj' Hc'. destruct (Hlast _ _ Hj') as [Hp|[-> ->]].
           ++ destruct (Hmax j' x' c' Hp Hc'). split; lia.
           ++ simplify_eq. split; lia.
      * split.
        -- exists x. split; [|done]. by rewrite lookup_app_l.
        -- intros j' x' c' Hj' Hc'. destruct (Hlast _ _ Hj') as [Hp|[-> ->]]; [by eapply Hmax|].
           simplify_eq. split; lia.
    + pose proof (rank_nonneg c). rewrite (proj2 (Z.ltb_lt _ _)) by lia. split.
      * exists sd. split; [|done]. rewrite lookup_app_r, Nat.sub_diag by lia. done.
      * intros j' x' c' Hj' Hc'. destruct (Hlast _ _ Hj') as [Hp|[-> ->]].
        -- rewrite (Hb _ _ Hp) in Hc'. done.
        -- simplify_eq. split; lia.
  - destruct best as [[b j]|]; simpl in *.
    + destruct Hb as [(x & Hx & Hcx) Hmax]. split.
      * exists x. split; [|done]. rewrite lookup_app_l; [done|]. by eapply lookup_lt_Some.
      * intros j' x' c' Hj' Hc'. destruct (Hlast _ _ Hj') as [Hp|[-> ->]]; [by eapply Hmax|congruence].
    + intros j x Hj. destruct (Hlast _ _ Hj) as [Hp|[-> ->]]; [by eapply Hb|done].
Qed.

(** The command of a batch is that of its worst usable entry: there is none
    exactly when no entry takes part; otherwise it is the most severe command any
    entry asks for, credited to the first slot that asks for it.  The slot order
    does not matter: a batch with the same entries in another order gets the same
    command. *)
Theorem worst_case_decides events r r' :
  is_worst events (populated r) (computeProximityCommandFromBatch events r) /\
  (populated r ≡ₚ populated r' ->
   fst <$> computeProximityCommandFromBatch events r = fst <$> computeProximityCommandFromBatch events r').
Proof.
  assert (Hspec : forall q, is_worst events (populated q) (computeProximityCommandFromBatch events q)).
  { intros q. apply (worst_case_spec events (populated q) [] None). done. }
  split; [apply Hspec|]. intros Hp. pose proof (Hspec r) as H1. pose proof (Hspec r') as H2.
  assert (Hex : forall l l' : list SensorData, l ≡ₚ l' -> forall j sd, l !! j = Some sd -> exists j', l' !! j' = Some sd).
  { intros l l' Hl j sd Hj. apply list_elem_of_lookup. rewrite <- Hl. by eapply list_elem_of_lookup_2. }
  destruct (computeProximityCommandFromBatch events r) as [[c j]|], (computeProximityCommandFromBatch events r') as [[c' j']|];
    simpl in *; try done.
  - destruct H1 as [(sd & Hsd & Hc) M1], H2 as [(sd' & Hsd' & Hc') M2]. f_equal.
    apply rank_inj; [by eapply candidate_range|by eapply candidate_range|]. apply Z.le_antisymm.
    + destruct (Hex _ _ Hp _ _ Hsd) as [k Hk]. by eapply M2.
    + symmetry in Hp. destruct (Hex _ _ Hp _ _ Hsd') as [k Hk]. by eapply M1.
  - destruct H1 as [(sd & Hsd & Hc) _]. destruct (Hex _ _ Hp _ _ Hsd) as [k Hk]. by rewrite (H2 _ _ Hk) in Hc.
  - destruct H2 as [(sd & Hsd & Hc) _]. symmetry in Hp. destruct (Hex _ _ Hp _ _ Hsd) as [k Hk].
    by rewrite (H1 _ _ Hk) in Hc.
Qed.

(** ** The binding is exact *)

Definition row (events : list EventType) (i : nat) : option ProximityEventDescriptor := PROXIMITY_EVENT_TABLE events !! i.

Lemma binding_rows events b b' : proximitySetSubscribedEvents events b = (true, b') ->
  bd_frozen b = false /\ bd_events b' = events /\ bd_configured b' = true /\
  (forall i, (i < PROXIMITY_EVENT_COUNT)%nat -> row_ok events i = true) /\ enabled_rows events <> [].
Proof.
  unfold proximitySetSubscribedEvents. destruct (bd_frozen b); [done|].
  destruct (negb _) eqn:Hr; [done|]. destruct (length _ =? 0)%nat eqn:Hl; [done|]. intros [= <-].
  apply negb_false_iff in Hr. rewrite forallb_forall in Hr. split_and!; [done..| |].
  - intros i Hi. apply Hr, in_seq. lia.
  - intros He. by rewrite He in Hl.
Qed.

(** A bound row's event is in range and no earlier row has it. *)
Lemma row_ok_enabled events i : row_ok events i = true -> event_at events i <> EVENT_UNKNOWN ->
  u32 (event_at events i) <= EVENT_23 /\ forall j, (j < i)%nat -> event_at events j <> event_at events i.
Proof.
  unfold row_ok. cbv zeta. intros H Hne. rewrite (proj2 (Z.eqb_neq _ _) Hne) in H.
  destruct (event_at events _ =? EVENT_UNKNOWN); [done|].
  cbn [negb Bool.eqb] in H. apply andb_true_iff in H as [Hr Hd]. split; [by apply Z.leb_le|].
  intros j Hj Heq. rewrite forallb_forall in Hd. specialize (Hd j). rewrite in_seq, Heq, Z.eqb_refl in Hd.
  assert (false = true) by (apply Hd; lia). done.
Qed.

Lemma table_lookup events i g tier : length events = PROXIMITY_EVENT_COUNT -> PROXIMITY_EVENT_ROWS !! i = Some (g, tier) ->
  row events i = Some {| pd_event := event_at events i; pd_group := g; pd_tier := tier |}.
Proof.
  intros Hlen Hrow. unfold row, PROXIMITY_EVENT_TABLE. apply lookup_zip_with_Some.
  exists (event_at events i), (g, tier). split_and!; [done| |done].
  unfold event_at. destruct (nth_lookup_or_length events i EVENT_UNKNOWN) as [?|Hge]; [done|].
  apply lookup_lt_Some in Hrow. simpl in Hrow. rewrite Hlen in Hge. unfold PROXIMITY_EVENT_COUNT in Hge. lia.
Qed.

Lemma find_first {A} (f : A -> bool) (l : list A) i x :
  l !! i = Some x -> f x = true -> (forall j y, (j < i)%nat -> l !! j = Some y -> f y = false) -> List.find f l = Some x.
Proof.
  revert i. induction l as [|y l IH]; intros [|i] Hi Hf Hb; simplify_eq/=; [by rewrite Hf|].
  rewrite (Hb 0%nat y) by (done || lia). apply (IH i); [done|done|]. intros j z Hj Hz. apply (Hb (S j)); [lia|done].
Qed.

(** Each bound event selects the row it was bound to. *)
Lemma descriptor_exact events b b' i g tier :
  proximitySetSubscribedEvents events b = (true, b') -> length events = PROXIMITY_EVENT_COUNT ->
  PROXIMITY_EVENT_ROWS !! i = Some (g, tier) -> event_at events i <> EVENT_UNKNOWN ->
  proximityEventDescriptor events (event_at events i) =
    Some {| pd_event := event_at events i; pd_group := g; pd_tier := tier |}.
Proof.
  intros Hb Hlen Hrow Hne. pose proof (binding_rows _ _ _ Hb) as (_ & _ & _ & Hrows & _).
  assert (Hi : (i < PROXIMITY_EVENT_COUNT)%nat) by (apply lookup_lt_Some in Hrow; exact Hrow).
  destruct (row_ok_enabled events i (Hrows i Hi) Hne) as [_ Hd].
  apply (find_first _ _ i); [by apply table_lookup| |].
  - simpl. by rewrite (proj2 (Z.eqb_neq _ _) Hne), Z.eqb_refl.
  - intros j y Hj Hy.
    destruct (PROXIMITY_EVENT_ROWS !! j) as [[g' tier']|] eqn:Hr.
    + pose proof (table_lookup events j g' tier' Hlen Hr) as Ht. unfold row in Ht. simplify_eq/=.
      rewrite (proj2 (Z.eqb_neq _ _) (Hd j Hj)). by rewrite andb_false_r.
    + apply lookup_ge_None_1 in Hr. exfalso. simpl in Hr. unfold PROXIMITY_EVENT_COUNT in Hi. lia.
Qed.

Lemma usable_candidate events b b' i g tier sd :
  proximitySetSubscribedEvents events b = (true, b') -> length events = PROXIMITY_EVENT_COUNT ->
  PROXIMITY_EVENT_ROWS !! i = Some (g, tier) -> event_at events i <> EVENT_UNKNOWN ->
  usable_entry sd = true -> ev_type (sd_event sd) = event_at events i ->
  candidate events sd = Some (tier_command tier).
Proof.
  intros Hb Hlen Hrow Hne Hu Het. pose proof (binding_rows _ _ _ Hb) as (_ & _ & _ & Hrows & _).
  assert (Hi : (i < PROXIMITY_EVENT_COUNT)%nat) by (apply lookup_lt_Some in Hrow; exact Hrow).
  destruct (row_ok_enabled events i (Hrows i Hi) Hne) as [Hr _].
  unfold usable_entry in Hu. rewrite !andb_true_iff, negb_true_iff in Hu. destruct Hu as [[Hs Hh] Ht].
  unfold candidate. rewrite Hs, Hh, Ht, Het. simpl.
  assert (Hno : forall k, EVENT_23 < k < 2 ^ 32 -> (event_at events i =? k) = false).
  { intros k Hk. apply Z.eqb_neq. intros Heq. rewrite Heq, u32_small in Hr by (unfold is_u32, EVENT_23 in *; lia). lia. }
  unfold SENSOR_INVALID, SENSOR_VALID, AI_PIPELINE_INVALID, AI_PIPELINE_VALID.
  rewrite !Hno by (unfold EVENT_23; lia). simpl. by rewrite (descriptor_exact events b b' i g tier).
Qed.

(** A critical pair stops the machine: under a binding start-up accepted, a
    batch with one fresh, healthy and trusted event bound to the critical tier of
    any group gets CMD_STOP, whatever else the batch reports and wherever the
    event sits in it. *)
Theorem critical_pair_stops events b b' r i g sd :
  proximitySetSubscribedEvents events b = (true, b') -> length events = PROXIMITY_EVENT_COUNT ->
  PROXIMITY_EVENT_ROWS !! i = Some (g, PROXIMITY_TIER_CRITICAL) -> event_at events i <> EVENT_UNKNOWN ->
  sd ∈ populated r -> usable_entry sd = true -> ev_type (sd_event sd) = event_at events i ->
  exists slot, computeProximityCommandFromBatch events r = Some (CMD_STOP, slot).
Proof.
  intros Hb Hlen Hrow Hne Hin Hu Het.
  pose proof (usable_candidate events b b' i g _ sd Hb Hlen Hrow Hne Hu Het) as Hc.
  pose proof (worst_case_spec events (populated r) [] None ltac:(done)) as Hw. simpl in Hw.
  unfold computeProximityCommandFromBatch. apply list_elem_of_lookup in Hin as [k Hk].
  destruct (worst_case events (populated r) 0 None) as [[c slot]|]; simpl in Hw.
  - destruct Hw as [(x & Hx & Hcx) Hmax]. exists slot. repeat f_equal.
    destruct (Hmax k sd CMD_STOP Hk Hc) as [Hle _]. pose proof (candidate_range _ _ _ Hcx) as [->|[->| ->]]; [done|..];
      by vm_compute in Hle.
  - by rewrite (Hw k sd Hk) in Hc.
Qed.

(** ** Witnesses *)

(** Humanoid events 8-10 and forklift events 11-13; the other groups disabled. *)
Definition sample_events : list EventType := [8; 9; 10; 11; 12; 13; 25; 25; 25; 25; 25; 25].

Definition sample_entry (type : EventType) : SensorData := {|
  sd_clientID := 1; sd_isHealthy := true; sd_isTrustedSource := true;
  sd_event := set_ev_id 7 {|
    ev_id := 0; ev_sensorIdentifier := []; ev_type := type; ev_cause := 0; ev_severity := OPERATIONAL;
    ev_timestamp := 1; ev_confidenceLevel := f32_one; ev_status := PASSTHROUGH;
    ev_fusionMetadata := {| fm_coordinates := []; fm_pipelineID := 1; fm_clientID := 1; fm_objectType := (OBJECT, PERSON);
                            fm_speed := 0; fm_objectID := (5, 6) |} |} |}.

(** A forklift pair out of range, a humanoid pair in the critical band. *)
Definition sample_batch : DecisionRequest :=
  {| dr_requestId := 1; dr_pssStatus := zero_status; dr_sensorDataSummarySize := 2;
     dr_sensorDataSummary := [sample_entry 11; sample_entry 10]; dr_integrity := zero_integrity |}.

Lemma critical_pair_stops_witness :
  exists slot, computeProximityCommandFromBatch sample_events sample_batch = Some (CMD_STOP, slot).
Proof.
  refine (critical_pair_stops sample_events initial_binding _ sample_batch 2 PAIR_GROUP_HUMANOID_PERSON
            (sample_entry 10) eq_refl eq_refl eq_refl _ _ eq_refl eq_refl).
  - done.
  - vm_compute. right. left.
Defined.

Definition reversed_batch : DecisionRequest :=
  {| dr_requestId := 2; dr_pssStatus := zero_status; dr_sensorDataSummarySize := 2;
     dr_sensorDataSummary := [sample_entry 10; sample_entry 11]; dr_integrity := zero_integrity |}.

Lemma worst_case_decides_witness :
  is_worst sample_events (populated sample_batch) (computeProximityCommandFromBatch sample_events sample_batch) /\
  fst <$> computeProximityCommandFromBatch sample_events sample_batch
  = fst <$> computeProximityCommandFromBatch sample_events reversed_batch.
Proof.
  destruct (worst_case_decides sample_events sample_batch reversed_batch) as [H1 H2].
  split; [exact H1|]. apply H2. change (populated sample_batch) with [sample_entry 11; sample_entry 10].
  change (populated reversed_batch) with [sample_entry 10; sample_entry 11]. apply Permutation_swap.
Defined.
