(* ===== verification/Text.v ===== *)
(** * Text of configuration files

    The start-up files of the processes are lines of [key = value].  Text is a list
    of characters; this file holds what the loaders share: trimming, splitting,
    decimal numbers, the lines of a file, and the text the round trips print. *)

From Stdlib Require Import Ascii String.
From S2P Require Import Prelude Protocol.

Local Open Scope Z_scope.
Local Open Scope list_scope.

(** ** Text *)

Abbreviation text := (list ascii).

Definition str (s : string) : text := list_ascii_of_string s.

Definition SP : ascii := Ascii.ascii_of_nat 32.
Definition TAB : ascii := Ascii.ascii_of_nat 9.
Definition CR : ascii := Ascii.ascii_of_nat 13.
Definition LF : ascii := Ascii.ascii_of_nat 10.
Definition HASH : ascii := "#"%char.
Definition EQUALS : ascii := "="%char.
Definition COMMA : ascii := ","%char.

Definition blank (c : ascii) : bool := Ascii.eqb c SP || Ascii.eqb c TAB || Ascii.eqb c CR || Ascii.eqb c LF.

Fixpoint skip_blank (l : text) : text :=
  match l with
  | [] => []
  | c :: l' => if blank c then skip_blank l' else l
  end.

Definition trim (value : text) : text := reverse (skip_blank (reverse (skip_blank value))).

(** The text before the first [c], and the text after it when there is one. *)
Fixpoint cut_at (c : ascii) (l : text) : text * option text :=
  match l with
  | [] => ([], None)
  | x :: l' => if Ascii.eqb x c then ([], Some l') else let '(a, b) := cut_at c l' in (x :: a, b)
  end.

(** The pieces between separators. *)
Fixpoint split_on (c : ascii) (l : text) : list text :=
  match l with
  | [] => [[]]
  | x :: l' =>
    if Ascii.eqb x c then [] :: split_on c l'
    else match split_on c l' with piece :: rest => (x :: piece) :: rest | [] => [[x]] end
  end.

(** The pieces [std::getline] delivers up to a delimiter: none after a final one. *)
Definition pieces_of (delim : ascii) (s : text) : list text :=
  let pieces := split_on delim s in
  match last pieces with Some [] => take (length pieces - 1) pieces | _ => pieces end.

Definition lines_of (content : text) : list text := pieces_of LF content.

(** The index of a name in a table of names. *)
Definition index_of (name : text) (names : list text) : option nat := fst <$> list_find (fun n => n = name) names.

Definition digit_value (c : ascii) : option Z :=
  let n := Z.of_nat (nat_of_ascii c) - 48 in if (0 <=? n) && (n <=? 9) then Some n else None.

Fixpoint digits_value (raw : Z) (l : text) : option Z :=
  match l with
  | [] => Some raw
  | c :: l' => match digit_value c with Some d => digits_value (u32 (raw * 10 + d)) l' | None => None end
  end.

(** What opening and reading the file gives: its text, and whether reading failed. *)
Record FileContent := { fc_text : text; fc_bad : bool }.

Lemma index_of_lt name names i : index_of name names = Some i -> (i < length names)%nat.
Proof. unfold index_of. intros H. apply fmap_Some in H as ([j x] & Hf & ->). apply list_find_Some in Hf as (Hx & _). by apply lookup_lt_Some in Hx. Qed.

Lemma digits_value_nonneg raw l v : 0 <= raw -> digits_value raw l = Some v -> 0 <= v.
Proof.
  revert raw. induction l as [|c l IH]; intros raw Hr; simpl; [congruence|].
  destruct (digit_value c); [|done]. apply IH, Z.mod_pos_bound. lia.
Qed.

Lemma split_on_nonempty c l : split_on c l <> [].
Proof. destruct l as [|x l]; simpl; [done|]. destruct (Ascii.eqb x c); [done|]. by destruct (split_on c l). Qed.

Lemma nth_insert {A} (l : list A) i j x d : (i < length l)%nat -> nth j (<[i := x]> l) d = if decide (j = i) then x else nth j l d.
Proof.
  intros Hi. rewrite !nth_lookup. case_decide as Hd; [subst j; by rewrite list_lookup_insert_eq|by rewrite list_lookup_insert_ne].
Qed.

Lemma omap_nil {A B} (f : A -> option B) l x : omap f l = [] -> x ∈ l -> f x = None.
Proof.
  intros H Hx. destruct (f x) as [b|] eqn:E; [|done]. assert (Hb : b ∈ omap f l) by (apply list_elem_of_omap; eauto).
  rewrite H in Hb. by apply not_elem_of_nil in Hb.
Qed.

Definition digit (n : Z) : ascii := Ascii.ascii_of_nat (48 + Z.to_nat n).
Definition event_text (e : EventType) : text :=
  str "EVENT_" ++ (if e <? 10 then [digit e] else [digit (e / 10); digit (e mod 10)]).

Fixpoint join (sep : ascii) (l : list text) : text :=
  match l with
  | [] => []
  | [x] => x
  | x :: l' => x ++ sep :: join sep l'
  end.

Definition entry_line (key value : text) : text := key ++ [SP; EQUALS; SP] ++ value.

(** Text without blanks and separators of entries. *)
Definition solid (c : ascii) : bool := negb (blank c || Ascii.eqb c HASH || Ascii.eqb c EQUALS).
Definition clean (w : text) : Prop := forallb solid w = true /\ w <> [].

Lemma solid_not_blank c : solid c = true -> blank c = false.
Proof. unfold solid. rewrite negb_true_iff, !orb_false_iff. tauto. Qed.

Lemma clean_no c w : clean w -> c = HASH \/ c = EQUALS \/ c = LF -> forallb (fun x => negb (Ascii.eqb x c)) w = true.
Proof.
  intros [Hw _] Hc. rewrite forallb_forall in *. intros x Hx. specialize (Hw x Hx). unfold solid, blank in Hw.
  rewrite negb_true_iff, !orb_false_iff in Hw. rewrite negb_true_iff. destruct Hc as [->|[->| ->]]; tauto.
Qed.

Lemma cut_at_none c l : forallb (fun x => negb (Ascii.eqb x c)) l = true -> cut_at c l = (l, None).
Proof. induction l as [|x l IH]; simpl; [done|]. destruct (Ascii.eqb x c); [done|]. intros H. by rewrite IH. Qed.

Lemma cut_at_first c a b : forallb (fun x => negb (Ascii.eqb x c)) a = true -> cut_at c (a ++ c :: b) = (a, Some b).
Proof. induction a as [|x a IH]; simpl; [by rewrite Ascii.eqb_refl|]. destruct (Ascii.eqb x c); [done|]. intros H. by rewrite IH. Qed.

Lemma split_on_first c a b : forallb (fun x => negb (Ascii.eqb x c)) a = true -> split_on c (a ++ c :: b) = a :: split_on c b.
Proof. induction a as [|x a IH]; simpl; [by rewrite Ascii.eqb_refl|]. destruct (Ascii.eqb x c); [done|]. intros H. by rewrite IH. Qed.

Lemma lines_of_printed ls : Forall (fun l => forallb (fun x => negb (Ascii.eqb x LF)) l = true) ls ->
  lines_of (concat (map (fun l => l ++ [LF]) ls)) = ls.
Proof.
  intros Hl. assert (Hs : split_on LF (concat (map (fun l => l ++ [LF]) ls)) = ls ++ [[]]).
  { induction Hl as [|l ls Hl _ IH]; [done|]. simpl. rewrite <- app_assoc. simpl. by rewrite split_on_first, IH. }
  unfold lines_of, pieces_of. rewrite Hs, last_snoc, length_app. simpl. rewrite Nat.add_sub. by rewrite take_app_length.
Qed.

Lemma skip_blanks pre l : forallb blank pre = true -> skip_blank (pre ++ l) = skip_blank l.
Proof. induction pre as [|c pre IH]; simpl; [done|]. rewrite andb_true_iff. intros [-> H]. auto. Qed.

Lemma skip_clean w l : clean w -> skip_blank (w ++ l) = w ++ l.
Proof.
  intros [Hw Hn]. destruct w as [|c w]; [done|]. simpl in *. apply andb_true_iff in Hw as [Hc _]. by rewrite (solid_not_blank c Hc).
Qed.

Lemma clean_reverse w : clean w -> clean (reverse w).
Proof.
  intros [Hw Hn]. split; [|intros E; apply Hn; rewrite <- (reverse_involutive w), E; done].
  rewrite forallb_forall in *. intros x Hx. apply Hw. rewrite <- list_elem_of_In in *. by apply elem_of_reverse.
Qed.

(** Blanks around text that begins and ends with solid words are trimmed. *)
Lemma trim_around pre w mid w' post : forallb blank pre = true -> forallb blank post = true -> clean w -> clean w' ->
  trim (pre ++ w ++ mid ++ w' ++ post) = w ++ mid ++ w'.
Proof.
  intros Hpre Hpost Hw Hw'. unfold trim. rewrite skip_blanks, skip_clean by done.
  rewrite !reverse_app, <- !app_assoc. rewrite skip_blanks, skip_clean.
  - by rewrite !reverse_app, !reverse_involutive, <- !app_assoc.
  - by apply clean_reverse.
  - rewrite forallb_forall in *. intros x Hx. apply Hpost. rewrite <- list_elem_of_In in *. by apply elem_of_reverse.
Qed.

Lemma trim_one pre w post : forallb blank pre = true -> forallb blank post = true -> clean w -> trim (pre ++ w ++ post) = w.
Proof.
  intros Hpre Hpost Hw. unfold trim. rewrite skip_blanks, skip_clean by done. rewrite reverse_app, skip_blanks.
  - rewrite <- (app_nil_r (reverse w)), skip_clean by (by apply clean_reverse). by rewrite app_nil_r, reverse_involutive.
  - rewrite forallb_forall in *. intros x Hx. apply Hpost. rewrite <- list_elem_of_In in *. by apply elem_of_reverse.
Qed.
