(* ===== verification/SensorConfig.v ===== *)
(** * Sensor configuration files

    [sensor_config_parser.cpp]: the cameras ([sensor_config.conf]), the identities
    that arrive on decision-driving events ([sensor_pipelines_config.conf]) and the
    sensor group, and [sdm_reviewed_sensor_set.hpp], which turns the second file
    into the mask behind the all-sensors-failed latch.  A path is [None] when null;
    opening it gives its text or nothing.  A [char] array holds the text before its
    terminator.  The output argument is never null. *)

From Stdlib Require Import Ascii String.
From S2P Require Import Prelude Protocol Crc Validate SdmRequestState GatewayContract SdmSequence AtlControl Threads PlcPacket SdmCore Text.

Local Open Scope Z_scope.
Local Open Scope list_scope.

Definition SENSOR_CONFIG_MAX_NAME_LEN : nat := 64.
Definition SENSOR_CONFIG_MAX_URL_LEN : nat := 256.
Definition SENSOR_CONFIG_MAX_ENTRIES : nat := 8.

Record SensorConfigEntry := { sc_pipelineId : Z; sc_sensorName : text; sc_rtspUrl : text }.
Record SensorPipelineEntry := { sp_pipelineId : Z; sp_sensorName : text }.
Record SensorGroupConfig := { sg_groupPipelineId : Z; sg_groupName : text; sg_memberPipelineIds : list Z }.

(** [SENSOR_CONFIG_OK] is the right injection of a result. *)
Inductive SensorConfigErr :=
  | SENSOR_CONFIG_ERR_FILE_OPEN
  | SENSOR_CONFIG_ERR_PARSE
  | SENSOR_CONFIG_ERR_DUPLICATE_PIPELINE_ID
  | SENSOR_CONFIG_ERR_DUPLICATE_SENSOR_NAME
  | SENSOR_CONFIG_ERR_PIPELINE_ID_RANGE
  | SENSOR_CONFIG_ERR_EMPTY_SENSOR_NAME
  | SENSOR_CONFIG_ERR_TOO_MANY_ENTRIES
  | SENSOR_CONFIG_ERR_NULL_ARG
  | SENSOR_CONFIG_ERR_EMPTY_RTSP_URL
  | SENSOR_CONFIG_ERR_EMPTY_FILE
  | SENSOR_CONFIG_ERR_EMPTY_MEMBER_LIST
  | SENSOR_CONFIG_ERR_MULTIPLE_GROUPS
  | SENSOR_CONFIG_ERR_DUPLICATE_MEMBER
  | SENSOR_CONFIG_ERR_GROUP_ID_IS_MEMBER
  | SENSOR_CONFIG_ERR_PIPELINES_FIELD_COUNT.

(** ** Text *)

Definition NUL : ascii := Ascii.ascii_of_nat 0.
Definition BAR : ascii := "|"%char.

(** [std::isspace] in the C locale. *)
Definition isspace (c : ascii) : bool :=
  let n := nat_of_ascii c in ((9 <=? n) && (n <=? 13) || (n =? 32))%nat.

Fixpoint skip_space (l : text) : text :=
  match l with
  | [] => []
  | c :: l' => if isspace c then skip_space l' else l
  end.

Definition trimWhitespace (s : text) : text := reverse (skip_space (reverse (skip_space s))).

(** [s.c_str()] as a C string. *)
Definition c_str (s : text) : text := (cut_at NUL s).1.

(** [strncpy] into an array of [len] characters whose last one is then zeroed. *)
Definition stored (len : nat) (s : text) : text := take (len - 1) (c_str s).

(** [std::getline] with a delimiter on a string stream: it fails when nothing is left. *)
Definition getline (delim : ascii) (s : text) : option (text * text) :=
  match s with [] => None | _ => let '(a, b) := cut_at delim s in Some (a, default [] b) end.

(** The digits a text begins with, as a number, and the text after them. *)
Fixpoint read_digits (value : Z) (l : text) : Z * text :=
  match l with
  | c :: l' => match digit_value c with Some d => read_digits (value * 10 + d) l' | None => (value, l) end
  | [] => (value, [])
  end.

Definition ULONG_MAX : Z := 2 ^ 64 - 1.

(** [strtoul] base 10: the value and the text at [endptr]; nothing without digits.
    A minus sign negates modulo [2 ^ 64]. *)
Definition strtoul (s : text) : option (Z * text) :=
  let s := skip_space s in
  let '(negative, s) := match s with
    | c :: s' => if Ascii.eqb c "-"%char then (true, s') else if Ascii.eqb c "+"%char then (false, s') else (false, s)
    | [] => (false, s)
    end in
  match head s ≫= digit_value with
  | None => None
  | Some _ =>
    let '(v, rest) := read_digits 0 s in
    Some (if ULONG_MAX <? v then ULONG_MAX else if negative then (- v) mod 2 ^ 64 else v, rest)
  end.

(** The [pipelineId] field: a number from 1 to 8 and nothing else. *)
Definition parse_pipeline_id (idStr : text) : option Z :=
  match strtoul (c_str idStr) with
  | Some (idVal, []) => if (idVal <? 1) || (Z.of_nat SENSOR_CONFIG_MAX_ENTRIES <? idVal) then None else Some idVal
  | _ => None
  end.

(** ** Rows of the first two files *)

(** The entries read so far, and [seenIds] and [seenNames]. *)
Record Rows (E : Type) := { rw_entries : list E; rw_ids : list Z; rw_names : list text }.
Arguments rw_entries {E}.
Arguments rw_ids {E}.
Arguments rw_names {E}.

Definition no_rows {E} : Rows E := {| rw_entries := []; rw_ids := []; rw_names := [] |}.

(** The identifier and name checks of a row, and its entry. *)
Definition add_row {E} (idStr nameStr : text) (make : Z -> E) (st : Rows E) : SensorConfigErr + Rows E :=
  match parse_pipeline_id idStr with
  | None => inl SENSOR_CONFIG_ERR_PIPELINE_ID_RANGE
  | Some pid =>
    if bool_decide (pid ∈ rw_ids st) then inl SENSOR_CONFIG_ERR_DUPLICATE_PIPELINE_ID
    else if bool_decide (nameStr ∈ rw_names st) then inl SENSOR_CONFIG_ERR_DUPLICATE_SENSOR_NAME
    else inr {| rw_entries := rw_entries st ++ [make pid]; rw_ids := rw_ids st ++ [pid]; rw_names := rw_names st ++ [nameStr] |}
  end.

Definition config_row (trimmed : text) (st : Rows SensorConfigEntry) : SensorConfigErr + Rows SensorConfigEntry :=
  match getline COMMA trimmed with
  | None => inl SENSOR_CONFIG_ERR_PARSE
  | Some (idStr, s) =>
    match getline COMMA s with
    | None => inl SENSOR_CONFIG_ERR_PARSE
    | Some (nameStr, s) =>
      match getline LF s with
      | None => inl SENSOR_CONFIG_ERR_PARSE
      | Some (urlStr, _) =>
        let idStr := trimWhitespace idStr in
        let nameStr := trimWhitespace nameStr in
        let urlStr := trimWhitespace urlStr in
        if bool_decide (nameStr = []) then inl SENSOR_CONFIG_ERR_EMPTY_SENSOR_NAME
        else if bool_decide (urlStr = []) then inl SENSOR_CONFIG_ERR_EMPTY_RTSP_URL
        else add_row idStr nameStr (fun pid =>
          {| sc_pipelineId := pid; sc_sensorName := stored SENSOR_CONFIG_MAX_NAME_LEN nameStr;
             sc_rtspUrl := stored SENSOR_CONFIG_MAX_URL_LEN urlStr |}) st
      end
    end
  end.

Definition pipelines_row (trimmed : text) (st : Rows SensorPipelineEntry) : SensorConfigErr + Rows SensorPipelineEntry :=
  match cut_at COMMA trimmed with
  | (_, None) => inl SENSOR_CONFIG_ERR_PIPELINES_FIELD_COUNT
  | (idField, Some rest) =>
    let idStr := trimWhitespace idField in
    if bool_decide (COMMA ∈ rest) then inl SENSOR_CONFIG_ERR_PIPELINES_FIELD_COUNT
    else
      let nameStr := trimWhitespace rest in
      if bool_decide (nameStr = []) then inl SENSOR_CONFIG_ERR_EMPTY_SENSOR_NAME
      else add_row idStr nameStr (fun pid =>
        {| sp_pipelineId := pid; sp_sensorName := stored SENSOR_CONFIG_MAX_NAME_LEN nameStr |}) st
  end.

(** Blank lines and comments. *)
Definition skipped (trimmed : text) : bool := bool_decide (trimmed = []) || bool_decide (head trimmed = Some HASH).

Section Rows.
Context {E : Type} (row : text -> Rows E -> SensorConfigErr + Rows E).

Fixpoint read_rows (lines : list text) (st : Rows E) : SensorConfigErr + Rows E :=
  match lines with
  | [] => inr st
  | line :: lines' =>
    let trimmed := trimWhitespace line in
    if skipped trimmed then read_rows lines' st
    else if (SENSOR_CONFIG_MAX_ENTRIES <=? length (rw_entries st))%nat then inl SENSOR_CONFIG_ERR_TOO_MANY_ENTRIES
    else match row trimmed st with
         | inl e => inl e
         | inr st' => read_rows lines' st'
         end
  end.
End Rows.

Definition sensorConfigParse (path : option (option text)) : SensorConfigErr + list SensorConfigEntry :=
  match path with
  | None => inl SENSOR_CONFIG_ERR_NULL_ARG
  | Some None => inl SENSOR_CONFIG_ERR_FILE_OPEN
  | Some (Some content) =>
    match read_rows config_row (lines_of content) no_rows with
    | inl e => inl e
    | inr st => inr (rw_entries st)
    end
  end.

Definition sensorPipelinesParse (path : option (option text)) : SensorConfigErr + list SensorPipelineEntry :=
  match path with
  | None => inl SENSOR_CONFIG_ERR_NULL_ARG
  | Some None => inl SENSOR_CONFIG_ERR_FILE_OPEN
  | Some (Some content) =>
    match read_rows pipelines_row (lines_of content) no_rows with
    | inl e => inl e
    | inr st => match rw_entries st with [] => inl SENSOR_CONFIG_ERR_EMPTY_FILE | l => inr l end
    end
  end.

(** ** The group file *)

Definition add_member (groupId : Z) (memberStr : text) (members : list Z) : SensorConfigErr + list Z :=
  let memberStr := trimWhitespace memberStr in
  if bool_decide (memberStr = []) then inl SENSOR_CONFIG_ERR_PARSE
  else if (SENSOR_CONFIG_MAX_ENTRIES <=? length members)%nat then inl SENSOR_CONFIG_ERR_TOO_MANY_ENTRIES
  else match parse_pipeline_id memberStr with
       | None => inl SENSOR_CONFIG_ERR_PIPELINE_ID_RANGE
       | Some mid =>
         if mid =? groupId then inl SENSOR_CONFIG_ERR_GROUP_ID_IS_MEMBER
         else if bool_decide (mid ∈ members) then inl SENSOR_CONFIG_ERR_DUPLICATE_MEMBER
         else inr (members ++ [mid])
       end.

Fixpoint add_members (groupId : Z) (pieces : list text) (members : list Z) : SensorConfigErr + list Z :=
  match pieces with
  | [] => inr members
  | piece :: rest => match add_member groupId piece members with inl e => inl e | inr m => add_members groupId rest m end
  end.

Definition group_row (trimmed : text) : SensorConfigErr + SensorGroupConfig :=
  match cut_at COMMA trimmed with
  | (_, None) => inl SENSOR_CONFIG_ERR_PARSE
  | (idField, Some rest) =>
    match cut_at COMMA rest with
    | (_, None) => inl SENSOR_CONFIG_ERR_PARSE
    | (nameField, Some membersField) =>
      let nameStr := trimWhitespace nameField in
      if bool_decide (nameStr = []) then inl SENSOR_CONFIG_ERR_EMPTY_SENSOR_NAME
      else match parse_pipeline_id (trimWhitespace idField) with
           | None => inl SENSOR_CONFIG_ERR_PIPELINE_ID_RANGE
           | Some groupId =>
             match add_members groupId (pieces_of BAR (trimWhitespace membersField)) [] with
             | inl e => inl e
             | inr [] => inl SENSOR_CONFIG_ERR_EMPTY_MEMBER_LIST
             | inr members => inr {| sg_groupPipelineId := groupId;
                                     sg_groupName := stored SENSOR_CONFIG_MAX_NAME_LEN nameStr;
                                     sg_memberPipelineIds := members |}
             end
           end
    end
  end.

Fixpoint read_group (lines : list text) (found : option SensorGroupConfig) : SensorConfigErr + option SensorGroupConfig :=
  match lines with
  | [] => inr found
  | line :: lines' =>
    let trimmed := trimWhitespace line in
    if skipped trimmed then read_group lines' found
    else match found with
         | Some _ => inl SENSOR_CONFIG_ERR_MULTIPLE_GROUPS
         | None => match group_row trimmed with inl e => inl e | inr g => read_group lines' (Some g) end
         end
  end.

Definition sensorGroupConfigParse (path : option (option text)) : SensorConfigErr + SensorGroupConfig :=
  match path with
  | None => inl SENSOR_CONFIG_ERR_NULL_ARG
  | Some None => inl SENSOR_CONFIG_ERR_FILE_OPEN
  | Some (Some content) =>
    match read_group (lines_of content) None with
    | inl e => inl e
    | inr None => inl SENSOR_CONFIG_ERR_EMPTY_FILE
    | inr (Some g) => inr g
    end
  end.

(** ** Wrappers and the reviewed set *)

Definition sensorConfigLoad (path : option text) : list SensorConfigEntry :=
  match sensorConfigParse (Some path) with inl _ => [] | inr entries => entries end.

(** Later entries overwrite earlier ones. *)
Definition sensorConfigNameToIdMap (entries : list SensorConfigEntry) : gmap text Z :=
  fold_left (fun m e => <[sc_sensorName e := sc_pipelineId e]> m) entries ∅.

Definition sensorConfigIdToNameMap (entries : list SensorConfigEntry) : gmap Z text :=
  fold_left (fun m e => <[sc_pipelineId e := sc_sensorName e]> m) entries ∅.

Record ReviewedSensorSet := { rs_entries : list SensorPipelineEntry; rs_mask : Z }.

Inductive ReviewedSetErr := PathEmpty | ParseFailed (e : SensorConfigErr) | NoEntries | IdOutside (id : Z).

Fixpoint reviewed_mask_of (entries : list SensorPipelineEntry) (mask : Z) : ReviewedSetErr + Z :=
  match entries with
  | [] => inr mask
  | e :: rest =>
    let id := sp_pipelineId e in
    if (id =? 0) || (kReviewedSensorMaxPipelineId <? id) then inl (IdOutside id)
    else reviewed_mask_of rest (Z.lor mask (Z.shiftl 1 (id - 1)))
  end.

(** [path]: null or empty, or what opening it gives. *)
Definition loadReviewedSensorSet (path : option (option text)) : ReviewedSetErr + ReviewedSensorSet :=
  match path with
  | None => inl PathEmpty
  | Some file =>
    match sensorPipelinesParse (Some file) with
    | inl e => inl (ParseFailed e)
    | inr [] => inl NoEntries
    | inr entries =>
      match reviewed_mask_of entries 0 with
      | inl e => inl e
      | inr mask => inr {| rs_entries := entries; rs_mask := mask |}
      end
    end
  end.

(** Whether an unreviewed pipeline is to be reported, and the ids reported so far. *)
Definition shouldWarnUnreviewedSensor (warned pipelineId : Z) : bool * Z :=
  if (pipelineId =? 0) || (kReviewedSensorMaxPipelineId <? pipelineId) then (false, warned)
  else
    let bit := Z.shiftl 1 (pipelineId - 1) in
    if negb (Z.land warned bit =? 0) then (false, warned) else (true, Z.lor warned bit).

(** ** What a parsed file contains *)

Section RowsOk.
Context {E : Type} (id_of : E -> Z) (name_of : E -> text).

(** The identifiers and names of the entries read so far. *)
Record rows_ok (st : Rows E) : Prop := {
  ro_ids : map id_of (rw_entries st) = rw_ids st;
  ro_names : map name_of (rw_entries st) = map (stored SENSOR_CONFIG_MAX_NAME_LEN) (rw_names st);
  ro_range : Forall (fun id => 1 <= id <= 8) (rw_ids st);
  ro_nodup : NoDup (rw_ids st);
  ro_distinct : NoDup (rw_names st);
  ro_named : [] ∉ rw_names st;
  ro_count : (length (rw_entries st) <= SENSOR_CONFIG_MAX_ENTRIES)%nat;
}.

Lemma parse_pipeline_id_range s id : parse_pipeline_id s = Some id -> 1 <= id <= 8.
Proof.
  unfold parse_pipeline_id. destruct (strtoul _) as [[v [|]]|]; try done. change (Z.of_nat SENSOR_CONFIG_MAX_ENTRIES) with 8.
  destruct (Z.ltb_spec v 1), (Z.ltb_spec 8 v); simpl; try done. intros [= <-]. lia.
Qed.

Lemma add_row_ok idStr nameStr make st st' : rows_ok st -> (length (rw_entries st) < SENSOR_CONFIG_MAX_ENTRIES)%nat ->
  nameStr <> [] -> (forall pid, id_of (make pid) = pid /\ name_of (make pid) = stored SENSOR_CONFIG_MAX_NAME_LEN nameStr) ->
  add_row idStr nameStr make st = inr st' -> rows_ok st'.
Proof.
  intros [H1 H2 H3 H4 H5 H6 H7] Hlt Hn Hmk. unfold add_row. destruct (parse_pipeline_id idStr) as [pid|] eqn:Hp; [|done].
  case_bool_decide as Hid; [done|]. case_bool_decide as Hname; [done|]. intros [= <-].
  apply parse_pipeline_id_range in Hp. destruct (Hmk pid) as [Hi Hnm].
  split; simpl; rewrite ?map_app, ?length_app; simpl; rewrite ?H1, ?H2, ?Hi, ?Hnm; try done.
  - apply Forall_app. split; [done|by constructor].
  - apply NoDup_app. split_and!; [done|set_solver|apply NoDup_singleton].
  - apply NoDup_app. split_and!; [done|set_solver|apply NoDup_singleton].
  - set_solver.
  - lia.
Qed.

Lemma read_rows_ok row lines st st' :
  (forall trimmed st st', rows_ok st -> (length (rw_entries st) < SENSOR_CONFIG_MAX_ENTRIES)%nat -> row trimmed st = inr st' -> rows_ok st') ->
  rows_ok st -> read_rows row lines st = inr st' -> rows_ok st'.
Proof.
  intros Hrow. revert st. induction lines as [|line lines IH]; intros st Hst; cbn [read_rows]; [by intros [= <-]|]. cbv zeta.
  destruct (skipped _); [by apply IH|]. destruct (Nat.leb_spec SENSOR_CONFIG_MAX_ENTRIES (length (rw_entries st))); [done|].
  destruct (row _ st) as [|st1] eqn:Hr; [done|]. apply IH. by eapply Hrow.
Qed.

Lemma no_rows_ok : rows_ok no_rows.
Proof. split; simpl; auto using NoDup_nil_2, not_elem_of_nil. lia. Qed.
End RowsOk.

Lemma config_row_ok trimmed st st' : rows_ok sc_pipelineId sc_sensorName st ->
  (length (rw_entries st) < SENSOR_CONFIG_MAX_ENTRIES)%nat -> config_row trimmed st = inr st' -> rows_ok sc_pipelineId sc_sensorName st'.
Proof.
  intros Hst Hlt. unfold config_row. repeat (destruct (getline _ _) as [[? ?]|]; [|done]). cbv zeta.
  case_bool_decide as Hn; [done|]. case_bool_decide; [done|]. intros Ha. eapply add_row_ok; [exact Hst|done|exact Hn| |exact Ha]. done.
Qed.

Lemma pipelines_row_ok trimmed st st' : rows_ok sp_pipelineId sp_sensorName st ->
  (length (rw_entries st) < SENSOR_CONFIG_MAX_ENTRIES)%nat -> pipelines_row trimmed st = inr st' -> rows_ok sp_pipelineId sp_sensorName st'.
Proof.
  intros Hst Hlt. unfold pipelines_row. destruct (cut_at COMMA trimmed) as [idField [rest|]]; [|done]. cbv zeta.
  case_bool_decide; [done|]. case_bool_decide as Hn; [done|]. intros Ha. eapply add_row_ok; [exact Hst|done|exact Hn| |exact Ha]. done.
Qed.

Lemma pipelines_parsed path entries : sensorPipelinesParse path = inr entries ->
  exists st, rows_ok sp_pipelineId sp_sensorName st /\ entries = rw_entries st /\ entries <> [].
Proof.
  unfold sensorPipelinesParse. destruct path as [[content|]|]; try done.
  destruct (read_rows pipelines_row _ no_rows) as [|st] eqn:Hr; [done|]. destruct (rw_entries st) eqn:He; [done|]. intros [= <-].
  exists st. split; [|by rewrite He]. eapply read_rows_ok; [exact pipelines_row_ok|apply no_rows_ok|exact Hr].
Qed.

(** ** The reviewed set *)

(** The mask of a list of identifiers. *)
Definition mask_of (ids : list Z) (mask : Z) : Z := fold_left (fun m id => Z.lor m (Z.shiftl 1 (id - 1))) ids mask.

Lemma mask_of_bit ids mask k : 0 <= k -> Forall (fun id => 1 <= id) ids ->
  Z.testbit (mask_of ids mask) k = Z.testbit mask k || bool_decide (k + 1 ∈ ids).
Proof.
  intros Hk Hids. revert mask. induction Hids as [|id ids Hid _ IH]; intros mask.
  { change (mask_of [] mask) with mask. by rewrite bool_decide_eq_false_2, orb_false_r by apply not_elem_of_nil. }
  change (mask_of (id :: ids) mask) with (mask_of ids (Z.lor mask (Z.shiftl 1 (id - 1)))). rewrite IH, Z.lor_spec, Z.shiftl_1_l, Z.pow2_bits_eqb by lia.
  rewrite <- orb_assoc. f_equal. destruct (Z.eqb_spec (id - 1) k) as [He|He]; cbn [orb].
  - symmetry. apply bool_decide_eq_true_2. apply elem_of_cons. left. lia.
  - apply bool_decide_ext. rewrite elem_of_cons. split; [by right|]. intros [?|?]; [lia|done].
Qed.

Lemma reviewed_mask_of_spec entries mask : Forall (fun id => 1 <= id <= 8) (map sp_pipelineId entries) ->
  reviewed_mask_of entries mask = inr (mask_of (map sp_pipelineId entries) mask).
Proof.
  revert mask. induction entries as [|e entries IH]; intros mask Hf; simpl; [done|]. inversion_clear Hf as [|? ? He Hr].
  unfold kReviewedSensorMaxPipelineId. destruct (Z.eqb_spec (sp_pipelineId e) 0), (Z.ltb_spec 31 (sp_pipelineId e)); simpl; try lia.
  by apply IH.
Qed.

Lemma land_covers failed mask : Z.land failed mask = mask <-> forall k, 0 <= k -> Z.testbit mask k = true -> Z.testbit failed k = true.
Proof.
  split.
  - intros H k Hk Hb. rewrite <- H, Z.land_spec in Hb. by apply andb_true_iff in Hb as [? _].
  - intros H. apply Z.bits_inj'. intros k Hk. rewrite Z.land_spec. destruct (Z.testbit mask k) eqn:E; [|apply andb_false_r].
    by rewrite (H k Hk E).
Qed.

Lemma reviewed_set_facts path set : loadReviewedSensorSet path = inr set ->
  let ids := map sp_pipelineId (rs_entries set) in
  (1 <= length ids <= 8)%nat /\ NoDup ids /\ Forall (fun id => 1 <= id <= 8) ids /\
  (forall cf, SdmCore.cf_reviewed cf = ids -> SdmCore.reviewed_mask cf = rs_mask set) /\
  (forall cf, AtlControl.cf_reviewed cf = ids -> AtlControl.reviewed_mask cf = rs_mask set) /\
  (forall failed, Z.land failed (rs_mask set) = rs_mask set <-> forall id, id ∈ ids -> Z.testbit failed (id - 1) = true) /\
  Z.land 0 (rs_mask set) <> rs_mask set.
Proof.
  unfold loadReviewedSensorSet. destruct path as [file|]; [|done].
  destruct (sensorPipelinesParse (Some file)) as [|entries] eqn:Hp; [done|].
  destruct (pipelines_parsed _ _ Hp) as (st & [H1 H2 H3 H4 H5 H6 H7] & He & Hne). rewrite <- He in *. rewrite <- H1 in *.
  destruct entries as [|e0 rest]; [done|]. destruct (reviewed_mask_of (e0 :: rest) 0) as [|m] eqn:Hm; [done|]. intros [= <-].
  cbv zeta. cbn [rs_entries rs_mask]. rewrite reviewed_mask_of_spec in Hm by done.
  set (ids := map sp_pipelineId (e0 :: rest)) in *. assert (m = mask_of ids 0) as -> by congruence.
  assert (Hpos : Forall (fun id => 1 <= id) ids) by (eapply Forall_impl; [exact H3|simpl; lia]).
  assert (Hcov : forall failed, Z.land failed (mask_of ids 0) = mask_of ids 0 <-> forall id, id ∈ ids -> Z.testbit failed (id - 1) = true).
  { intros failed. rewrite land_covers. split.
    - intros H id Hid. assert (1 <= id) by (by eapply Forall_forall in Hpos). apply H; [lia|]. rewrite mask_of_bit by (done || lia).
      rewrite Z.bits_0. apply bool_decide_eq_true_2. by replace (id - 1 + 1) with id by lia.
    - intros H k Hk. rewrite mask_of_bit by done. rewrite Z.bits_0, orb_false_l, bool_decide_eq_true.
      intros Hin. specialize (H _ Hin). by replace (k + 1 - 1) with k in H by lia. }
  split_and!; try done.
  - unfold ids. rewrite length_map. simpl. lia.
  - unfold ids. rewrite length_map. exact H7.
  - intros cf Hcf. unfold SdmCore.reviewed_mask. by rewrite Hcf.
  - intros cf Hcf. unfold AtlControl.reviewed_mask. by rewrite Hcf.
  - rewrite Hcov. intros H. specialize (H (sp_pipelineId e0) ltac:(left)). by rewrite Z.bits_0 in H.
Qed.

(** The reviewed set behind the all-sensors-failed latch is what the file says:
    a file that loads names 1 to 8 pipelines, with distinct identifiers from 1 to 8;
    the mask is the one both models of the latch test; and the latch condition holds
    of a mask of failed sensors exactly when every reviewed pipeline is in it, which
    is never when no sensor has failed. *)
Theorem reviewed_set_exact path set : loadReviewedSensorSet path = inr set ->
  let ids := map sp_pipelineId (rs_entries set) in
  (1 <= length ids <= 8)%nat /\ NoDup ids /\ Forall (fun id => 1 <= id <= 8) ids /\
  (forall cf, SdmCore.cf_reviewed cf = ids -> SdmCore.reviewed_mask cf = rs_mask set) /\
  (forall cf, AtlControl.cf_reviewed cf = ids -> AtlControl.reviewed_mask cf = rs_mask set) /\
  (forall failed, Z.land failed (rs_mask set) = rs_mask set <-> forall id, id ∈ ids -> Z.testbit failed (id - 1) = true) /\
  Z.land 0 (rs_mask set) <> rs_mask set.
Proof. apply reviewed_set_facts. Qed.

(** ** Every set of pipelines has a file *)

(** Text the parser keeps as it is: no white space at its ends, none of the
    characters that end a field, a line or a C string, and short enough. *)
Record field (w : text) : Prop := {
  fd_nonempty : w <> [];
  fd_head : forall c, head w = Some c -> isspace c = false;
  fd_last : forall c, last w = Some c -> isspace c = false;
  fd_chars : forallb (fun c => negb (Ascii.eqb c COMMA || Ascii.eqb c LF || Ascii.eqb c NUL)) w = true;
  fd_short : (length w < SENSOR_CONFIG_MAX_NAME_LEN)%nat;
}.

Lemma field_no c w : field w -> c = COMMA \/ c = LF \/ c = NUL -> forallb (fun x => negb (Ascii.eqb x c)) w = true.
Proof.
  intros [_ _ _ Hw _] Hc. rewrite forallb_forall in *. intros x Hx. specialize (Hw x Hx).
  rewrite negb_true_iff, !orb_false_iff in Hw. rewrite negb_true_iff. destruct Hc as [->|[->| ->]]; tauto.
Qed.

Lemma skip_space_head l : (forall c, head l = Some c -> isspace c = false) -> skip_space l = l.
Proof. destruct l as [|c l]; [done|]. intros H. simpl. by rewrite (H c eq_refl). Qed.

Lemma last_head_reverse {A} (l : list A) : head (reverse l) = last l.
Proof. induction l as [|x l IH] using rev_ind; [done|]. by rewrite reverse_snoc, last_snoc. Qed.

Lemma trim_tight w : (forall c, head w = Some c -> isspace c = false) -> (forall c, last w = Some c -> isspace c = false) ->
  trimWhitespace w = w.
Proof.
  intros Hh Hl. unfold trimWhitespace. rewrite (skip_space_head w Hh). rewrite skip_space_head; [apply reverse_involutive|].
  intros c. rewrite last_head_reverse. apply Hl.
Qed.

Lemma stored_field w : field w -> stored SENSOR_CONFIG_MAX_NAME_LEN w = w.
Proof.
  intros Hw. unfold stored, c_str. rewrite cut_at_none by (by apply field_no; auto). cbn [fst]. apply take_ge.
  destruct Hw as [_ _ _ _ Hs]. unfold SENSOR_CONFIG_MAX_NAME_LEN in *. lia.
Qed.

Definition pipeline_line (row : Z * text) : text := [digit row.1; COMMA; SP] ++ row.2.
Definition print_pipelines (rows : list (Z * text)) : text := concat (map (fun r => pipeline_line r ++ [LF]) rows).
Definition entry_of (row : Z * text) : SensorPipelineEntry := {| sp_pipelineId := row.1; sp_sensorName := row.2 |}.

Lemma digit_facts id : 1 <= id <= 8 ->
  parse_pipeline_id [digit id] = Some id /\ isspace (digit id) = false /\ Ascii.eqb (digit id) HASH = false /\
  Ascii.eqb (digit id) COMMA = false /\ Ascii.eqb (digit id) LF = false.
Proof.
  intros Hid. assert (id = 1 \/ id = 2 \/ id = 3 \/ id = 4 \/ id = 5 \/ id = 6 \/ id = 7 \/ id = 8) as H by lia.
  repeat (destruct H as [->|H]; [vm_compute; auto|]). subst id. vm_compute. auto.
Qed.

Lemma pipeline_line_row id name st : 1 <= id <= 8 -> field name -> id ∉ rw_ids st -> name ∉ rw_names st ->
  trimWhitespace (pipeline_line (id, name)) = pipeline_line (id, name) /\ skipped (pipeline_line (id, name)) = false /\
  pipelines_row (pipeline_line (id, name)) st =
    inr {| rw_entries := rw_entries st ++ [entry_of (id, name)]; rw_ids := rw_ids st ++ [id]; rw_names := rw_names st ++ [name] |}.
Proof.
  intros Hid Hf Hni Hnn. destruct (digit_facts id Hid) as (Hp & Hs & Hh & Hc & _). pose proof (fd_nonempty _ Hf) as Hne.
  split_and!.
  - apply trim_tight; [intros c; simpl; by intros [= <-]|]. unfold pipeline_line. cbn [fst snd]. intros c Hl.
    apply (fd_last _ Hf). rewrite last_app in Hl. by destruct (last name) eqn:E; [|by apply last_None in E].
  - unfold skipped, pipeline_line. cbn [app fst snd head]. rewrite !bool_decide_eq_false_2; [done| |done].
    intros [= E]. rewrite E in Hh. done.
  - unfold pipelines_row, pipeline_line. cbn [fst snd app]. cbn [cut_at]. rewrite Hc. change (Ascii.eqb COMMA COMMA) with true. cbv iota beta zeta.
    rewrite bool_decide_eq_false_2.
    2: { intros Hin. pose proof (field_no COMMA name Hf ltac:(auto)) as Hno. rewrite forallb_forall in Hno.
         apply elem_of_cons in Hin as [?|Hin]; [done|]. apply list_elem_of_In, Hno in Hin. by rewrite Ascii.eqb_refl in Hin. }
    assert (Ht : trimWhitespace (SP :: name) = name).
    { change (trimWhitespace (SP :: name)) with (trimWhitespace name). apply trim_tight; apply Hf. }
    rewrite Ht, bool_decide_eq_false_2 by done. unfold add_row.
    rewrite (trim_tight [digit id]) by (intros c; simpl; by intros [= <-]). rewrite Hp, !bool_decide_eq_false_2 by done.
    by rewrite stored_field.
Qed.

Lemma read_printed rows processed : NoDup (map fst (processed ++ rows)) -> NoDup (map snd (processed ++ rows)) ->
  Forall (fun r => 1 <= r.1 <= 8 /\ field r.2) rows -> (length (processed ++ rows) <= SENSOR_CONFIG_MAX_ENTRIES)%nat ->
  read_rows pipelines_row (map pipeline_line rows)
    {| rw_entries := map entry_of processed; rw_ids := map fst processed; rw_names := map snd processed |}
  = inr {| rw_entries := map entry_of (processed ++ rows); rw_ids := map fst (processed ++ rows); rw_names := map snd (processed ++ rows) |}.
Proof.
  revert processed. induction rows as [|[id name] rows IH]; intros processed Hi Hn Hf Hl; cbn [map read_rows].
  { by rewrite app_nil_r. }
  inversion_clear Hf as [|? ? [Hid Hname] Hr]. cbn [fst snd] in Hid, Hname.
  rewrite cons_middle, app_assoc in Hi, Hn, Hl. rewrite (cons_middle (id, name) processed rows), (app_assoc processed [(id, name)] rows).
  set (st := {| rw_entries := map entry_of processed; rw_ids := map fst processed; rw_names := map snd processed |}).
  assert (Hfresh : (id ∉ rw_ids st) /\ (name ∉ rw_names st)).
  { subst st. rewrite !map_app in Hi, Hn. apply NoDup_app in Hi as (Hi & _ & _). apply NoDup_app in Hn as (Hn & _ & _).
    apply NoDup_app in Hi as (_ & Hi & _). apply NoDup_app in Hn as (_ & Hn & _). cbn [rw_ids rw_names].
    split; [intros Hin; apply (Hi id Hin)|intros Hin; apply (Hn name Hin)]; by left. }
  destruct (pipeline_line_row id name st Hid Hname (proj1 Hfresh) (proj2 Hfresh)) as (Ht & Hs & Hrow).
  cbv zeta. rewrite Ht, Hs, Hrow. subst st. cbn [rw_entries rw_ids rw_names]. rewrite length_map.
  destruct (Nat.leb_spec SENSOR_CONFIG_MAX_ENTRIES (length processed)); [rewrite !length_app in Hl; cbn [length] in Hl; lia|].
  rewrite <- (IH (processed ++ [(id, name)]) Hi Hn Hr Hl). by rewrite !map_app.
Qed.

(** Every set of pipelines has a file: for 1 to 8 pipelines with distinct
    identifiers from 1 to 8 and distinct names that are fields of the format, the
    printed rows parse to exactly those entries. *)
Theorem pipelines_roundtrip rows : (1 <= length rows <= 8)%nat -> NoDup (map fst rows) -> NoDup (map snd rows) ->
  Forall (fun r => 1 <= r.1 <= 8 /\ field r.2) rows ->
  sensorPipelinesParse (Some (Some (print_pipelines rows))) = inr (map entry_of rows).
Proof.
  intros Hlen Hi Hn Hf. unfold sensorPipelinesParse, print_pipelines.
  rewrite <- (map_map pipeline_line (fun l => l ++ [LF])). rewrite lines_of_printed.
  2: { apply Forall_map. eapply Forall_impl; [exact Hf|]. intros [id name] [Hid Hname]. simpl in Hid, Hname.
       destruct (digit_facts id Hid) as (_ & _ & _ & _ & Hlf). unfold pipeline_line. cbn [fst snd].
       rewrite forallb_app, (field_no LF name) by auto. cbn [forallb]. by rewrite Hlf. }
  pose proof (read_printed rows [] Hi Hn Hf ltac:(apply Hlen)) as Hr. cbn [map app] in Hr. unfold no_rows. rewrite Hr. cbn [rw_entries].
  destruct rows as [|r rows]; [simpl in Hlen; lia|done].
Qed.

Lemma pipelines_roundtrip_witness :
  sensorPipelinesParse (Some (Some (print_pipelines [(2, str "Camera"); (1, str "Camera 01")]))) =
  inr [{| sp_pipelineId := 2; sp_sensorName := str "Camera" |}; {| sp_pipelineId := 1; sp_sensorName := str "Camera 01" |}].
Proof.
  apply (pipelines_roundtrip [(2, str "Camera"); (1, str "Camera 01")]).
  - simpl. lia.
  - apply NoDup_ListNoDup. repeat constructor; simpl; lia.
  - by apply (bool_decide_unpack _).
  - repeat constructor; simpl; try lia; try done; try (by intros c [= <-]); lia.
Defined.

Lemma reviewed_set_exact_witness :
  exists set, loadReviewedSensorSet (Some (Some (print_pipelines [(2, str "Camera"); (1, str "Camera_01")]))) = inr set /\
    Z.land 2 (rs_mask set) <> rs_mask set /\ Z.land 3 (rs_mask set) = rs_mask set.
Proof.
  destruct (loadReviewedSensorSet (Some (Some (print_pipelines [(2, str "Camera"); (1, str "Camera_01")])))) as [e|set] eqn:E;
    [vm_compute in E; discriminate|].
  exists set. split; [reflexivity|]. destruct (reviewed_set_exact _ _ E) as (_ & _ & _ & _ & _ & Hf & _).
  vm_compute in E. injection E as <-. split; [|by apply Hf; intros id Hid; vm_compute in Hid |- *; set_solver].
  intros H. pose proof (proj1 (Hf 2) H 1 ltac:(set_solver)) as Hb. done.
Defined.

(** ** Names longer than the array *)

(** Two rows are distinct by their whole names and stored by the first 63
    characters: both are accepted and the name map keeps one of them. *)
Definition long_name (c : ascii) : text := replicate 63 "n"%char ++ [c].
Definition long_rows : text :=
  [digit 1; COMMA] ++ long_name "a"%char ++ [COMMA] ++ str "rtsp://a" ++ [LF] ++
  [digit 2; COMMA] ++ long_name "b"%char ++ [COMMA] ++ str "rtsp://b".

Lemma long_names_collide :
  map sc_pipelineId (sensorConfigLoad (Some long_rows)) = [1; 2] /\
  sensorConfigNameToIdMap (sensorConfigLoad (Some long_rows)) = {[ replicate 63 "n"%char := 2 ]}.
Proof. split; vm_compute; reflexivity. Qed.

(** A minus sign is taken: the value wraps to an identifier in range. *)
Lemma negative_pipeline_id_accepted :
  sensorPipelinesParse (Some (Some (str "-18446744073709551615,cam"))) =
  inr [{| sp_pipelineId := 1; sp_sensorName := str "cam" |}].
Proof. vm_compute. reflexivity. Qed.

(** ** The group *)

Record group_ok (groupId : Z) (members : list Z) : Prop := {
  go_range : Forall (fun id => 1 <= id <= 8) members;
  go_nodup : NoDup members;
  go_other : groupId ∉ members;
  go_count : (length members <= SENSOR_CONFIG_MAX_ENTRIES)%nat;
}.

Lemma add_members_ok groupId pieces members out : group_ok groupId members -> add_members groupId pieces members = inr out ->
  group_ok groupId out.
Proof.
  revert members. induction pieces as [|piece pieces IH]; intros members Hm; cbn [add_members]; [by intros [= <-]|].
  destruct (add_member groupId piece members) as [|m] eqn:Ha; [done|]. apply IH. destruct Hm as [H1 H2 H3 H4].
  unfold add_member in Ha. cbv zeta in Ha. case_bool_decide; [done|].
  destruct (Nat.leb_spec SENSOR_CONFIG_MAX_ENTRIES (length members)); [done|].
  destruct (parse_pipeline_id _) as [mid|] eqn:Hp; [|done]. destruct (Z.eqb_spec mid groupId); [done|].
  case_bool_decide as Hin; [done|]. injection Ha as <-. apply parse_pipeline_id_range in Hp. split.
  - apply Forall_app. split; [done|by constructor].
  - apply NoDup_app. split_and!; [done|set_solver|apply NoDup_singleton].
  - set_solver.
  - rewrite length_app. simpl. lia.
Qed.

Lemma group_row_ok trimmed g : group_row trimmed = inr g ->
  1 <= sg_groupPipelineId g <= 8 /\ sg_memberPipelineIds g <> [] /\ group_ok (sg_groupPipelineId g) (sg_memberPipelineIds g).
Proof.
  unfold group_row. destruct (cut_at COMMA trimmed) as [idField [rest|]]; [|done].
  destruct (cut_at COMMA rest) as [nameField [membersField|]]; [|done]. cbv zeta. case_bool_decide; [done|].
  destruct (parse_pipeline_id _) as [gid|] eqn:Hp; [|done]. destruct (add_members gid _ []) as [|members] eqn:Ha; [done|].
  destruct members as [|m members]; [done|]. intros [= <-]. apply parse_pipeline_id_range in Hp. split; [exact Hp|]. split; [done|].
  eapply add_members_ok, Ha. split; auto using NoDup_nil_2, not_elem_of_nil. simpl. lia.
Qed.

(** A group that loads has an identifier from 1 to 8 and 1 to 8 distinct members
    from 1 to 8, itself not among them. *)
Theorem group_config_sound path g : sensorGroupConfigParse path = inr g ->
  1 <= sg_groupPipelineId g <= 8 /\ sg_memberPipelineIds g <> [] /\ group_ok (sg_groupPipelineId g) (sg_memberPipelineIds g).
Proof.
  unfold sensorGroupConfigParse. destruct path as [[content|]|]; try done.
  assert (forall lines found out, read_group lines found = inr out ->
    (forall x, found = Some x -> exists t, group_row t = inr x) -> forall x, out = Some x -> exists t, group_row t = inr x) as Hrg.
  { induction lines as [|line lines IH]; intros found out; cbn [read_group]; [intros [= <-]; auto|]. cbv zeta.
    destruct (skipped _); [apply IH|]. destruct found; [done|]. destruct (group_row _) as [|x] eqn:Hx; [done|].
    intros Hr _. eapply IH; [exact Hr|]. intros y [= <-]. eauto. }
  destruct (read_group _ None) as [|[x|]] eqn:Hr; [done| |done]. intros [= <-].
  destruct (Hrg _ _ _ Hr ltac:(done) x eq_refl) as [t Ht]. by eapply group_row_ok.
Qed.
