(* ===== verification/AtlStartup.v ===== *)
(** * Start-up of the ATL decision maker

    [atl_sdm_config.cpp], the binding of the six situations in [ATLControl.cpp] and
    the checks of [launchATLControlAlgo] before any socket or thread exists.  The
    result of a start-up is the configuration [AtlControl] runs with.  Error texts
    are constructors. *)

From Stdlib Require Import Ascii String.
From S2P Require Import Prelude Protocol Crc Validate SdmRequestState GatewayContract SdmSequence AtlControl Text SensorConfig.

Local Open Scope Z_scope.
Local Open Scope list_scope.

Definition ATL_EVENT_COUNT : nat := 6.

Definition kEventKeys : list text := map str
  ["forklift_entered"; "forklift_exited"; "person_entered"; "person_exited"; "roi_violation"; "roi_cleared"]%string.

Definition kRetiredPipelineKey : text := str "safety_pipelines".

Definition atlTrim (s : text) : text := trim s.
Definition atlStripInlineComment (s : text) : text := (cut_at HASH s).1.

(** ** Event names *)

Definition atlParseEventTypeName (name : text) : option EventType :=
  if negb (bool_decide (take 6 name = str "EVENT_")) then None
  else
    let digits := drop 6 name in
    if bool_decide (digits = []) || (2 <? length digits)%nat ||
       negb (forallb (fun c => bool_decide (is_Some (digit_value c))) digits) ||
       ((1 <? length digits)%nat && bool_decide (head digits = Some "0"%char)) then None
    else
      let value := (read_digits 0 digits).1 in
      if EVENT_23 <? value then None else Some value.

(** The first pair of situations that share a code. *)
Definition atlEventsAreDistinct (events : list EventType) : option (nat * nat) :=
  List.find (fun p => nth p.1 events EVENT_UNKNOWN =? nth p.2 events EVENT_UNKNOWN)
    (concat (map (fun i => map (fun j => (i, j)) (seq (i + 1) (ATL_EVENT_COUNT - (i + 1)))) (seq 0 ATL_EVENT_COUNT))).

(** ** The file *)

Inductive AtlConfigError :=
  | CannotOpen
  | ExpectedKeyValue (line : Z)
  | RetiredKey (line : Z)
  | UnknownKey (line : Z) (key : text)
  | KeyTwice (line : Z) (key : text)
  | NoValue (line : Z) (key : text)
  | ReadError
  | MissingKey (key : text)
  | SwFailReserved (line : Z) (key : text)
  | BadEventType (line : Z) (key value : text)
  | NotDistinct (event : EventType) (key other : text).

(** [values] with [keyLines]; [None] is a key not seen. *)
Definition Values : Type := list (option (Z * text)).

Definition value_at (i : nat) (vs : Values) : option (Z * text) := nth i vs None.

Definition load_entry (lineNo : Z) (key value : text) (vs : Values) : AtlConfigError + Values :=
  match index_of key kEventKeys with
  | None => inl (if bool_decide (key = kRetiredPipelineKey) then RetiredKey lineNo else UnknownKey lineNo key)
  | Some slot =>
    if bool_decide (is_Some (value_at slot vs)) then inl (KeyTwice lineNo key)
    else if bool_decide (value = []) then inl (NoValue lineNo key)
    else inr (<[slot := Some (lineNo, value)]> vs)
  end.

Definition load_line (lineNo : Z) (line : text) (vs : Values) : AtlConfigError + Values :=
  let trimmed := atlTrim line in
  if bool_decide (trimmed = []) || bool_decide (head trimmed = Some HASH) then inr vs
  else match cut_at EQUALS trimmed with
       | (_, None) => inl (ExpectedKeyValue lineNo)
       | (key, Some rest) => load_entry lineNo (atlTrim key) (atlTrim (atlStripInlineComment rest)) vs
       end.

Fixpoint load_lines (lineNo : Z) (lines : list text) (vs : Values) : AtlConfigError + Values :=
  match lines with
  | [] => inr vs
  | line :: rest => match load_line lineNo line vs with inl e => inl e | inr vs' => load_lines (lineNo + 1) rest vs' end
  end.

Definition missing_key (vs : Values) : option text :=
  (fun i => nth i kEventKeys []) <$> List.find (fun i => bool_decide (value_at i vs = None)) (seq 0 ATL_EVENT_COUNT).

(** The values in order, read as event names. *)
Fixpoint read_events (i : nat) (vs : Values) : AtlConfigError + list EventType :=
  match vs with
  | [] => inr []
  | None :: _ => inl (MissingKey (nth i kEventKeys []))
  | Some (lineNo, value) :: rest =>
    match atlParseEventTypeName value with
    | None =>
      inl (if bool_decide (value = str "SW_FAIL") then SwFailReserved lineNo (nth i kEventKeys [])
           else BadEventType lineNo (nth i kEventKeys []) value)
    | Some e => match read_events (i + 1) rest with inl err => inl err | inr es => inr (e :: es) end
    end
  end.

Definition atlSdmConfigLoad (file : option FileContent) : AtlConfigError + list EventType :=
  match file with
  | None => inl CannotOpen
  | Some content =>
    match load_lines 1 (lines_of (fc_text content)) (replicate ATL_EVENT_COUNT None) with
    | inl e => inl e
    | inr vs =>
      if fc_bad content then inl ReadError
      else match missing_key vs with
           | Some key => inl (MissingKey key)
           | None =>
             match read_events 0 vs with
             | inl e => inl e
             | inr events =>
               match atlEventsAreDistinct events with
               | Some (i, j) => inl (NotDistinct (nth i events EVENT_UNKNOWN) (nth i kEventKeys []) (nth j kEventKeys []))
               | None => inr events
               end
             end
           end
    end
  end.

(** ** The binding *)

(** [atlEvent], [atlEventSource] and [atlBindingFrozen]. *)
Record AtlBinding := { ab_events : list EventType; ab_source : text; ab_frozen : bool }.

Definition initial_atl_binding : AtlBinding := {|
  ab_events := replicate ATL_EVENT_COUNT EVENT_UNKNOWN; ab_source := []; ab_frozen := false |}.

(** [count] is the length of the array. *)
Definition atlSetSubscribedEvents (events : option (list EventType)) (source : option text) (b : AtlBinding) : bool * AtlBinding :=
  if ab_frozen b then (false, b)
  else match events, source with
       | Some events, Some source =>
         if negb (length events =? ATL_EVENT_COUNT)%nat || bool_decide (source = []) then (false, b)
         else if negb (forallb (fun e => (EVENT_0 <=? e) && (e <=? EVENT_23)) events) || bool_decide (is_Some (atlEventsAreDistinct events))
         then (false, b)
         else (true, {| ab_events := events; ab_source := source; ab_frozen := ab_frozen b |})
       | _, _ => (false, b)
       end.

(** The event types of the REGR. *)
Definition atlSubscribedEvents (b : AtlBinding) : list EventType := ab_events b ++ [SW_FAIL].

(** ** Launch *)

Definition kDecisionRepeatIntervalMsMinNonZero : Z := 100.
Definition kDecisionRepeatIntervalMsMax : Z := 36000.
Definition kHbTimingMsMin : Z := 100.
Definition kHbTimingMsMax : Z := 600000.

Record AtlLaunch := {
  la_gatewayPort : Z;
  la_plcPort : Z;
  la_maxHbFailures : Z;
  la_decisionRepeatIntervalMs : Z;
  la_hbStaleMs : Z;
  la_hbPeriodMs : Z;
  la_freshnessTimeoutMs : Z;
  la_sensorPipelines : option (option text); (* the reviewed sensor file *)
}.

Inductive LaunchError := NoBinding | BadPorts | BadMaxHb | BadRepeat | BadHbTiming | BadFreshness | BadSensors (e : ReviewedSetErr).

Definition hb_timing_bad (ms : Z) : bool := (ms <? kHbTimingMsMin) || (kHbTimingMsMax <? ms).

Definition configured (events : list EventType) (set : ReviewedSensorSet) (a : AtlLaunch) : AtlConfig := {|
  cf_forkliftEntered := nth 0 events EVENT_UNKNOWN; cf_forkliftExited := nth 1 events EVENT_UNKNOWN;
  cf_personEntered := nth 2 events EVENT_UNKNOWN; cf_personExited := nth 3 events EVENT_UNKNOWN;
  cf_roiViolation := nth 4 events EVENT_UNKNOWN; cf_roiCleared := nth 5 events EVENT_UNKNOWN;
  cf_reviewed := map sp_pipelineId (rs_entries set); cf_maxHbFailures := la_maxHbFailures a;
  cf_hbStaleMs := la_hbStaleMs a; cf_hbPeriodMs := la_hbPeriodMs a; cf_freshnessTimeoutMs := la_freshnessTimeoutMs a |}.

(** The checks of the launch; the binding is frozen first, whatever follows. *)
Definition launchATLControlAlgo (a : AtlLaunch) (b : AtlBinding) : (LaunchError + AtlConfig) * AtlBinding :=
  if bool_decide (ab_source b = []) || ab_frozen b then (inl NoBinding, b)
  else
    let b' := {| ab_events := ab_events b; ab_source := ab_source b; ab_frozen := true |} in
    (if (la_gatewayPort a =? 0) || (la_plcPort a =? 0) then inl BadPorts
     else if la_maxHbFailures a =? 0 then inl BadMaxHb
     else if (kDecisionRepeatIntervalMsMax <? la_decisionRepeatIntervalMs a) ||
             (negb (la_decisionRepeatIntervalMs a =? 0) && (la_decisionRepeatIntervalMs a <? kDecisionRepeatIntervalMsMinNonZero))
     then inl BadRepeat
     else if hb_timing_bad (la_hbStaleMs a) || hb_timing_bad (la_hbPeriodMs a) then inl BadHbTiming
     else if negb (sdmDecisionFreshnessTimeoutMsIsValid (la_freshnessTimeoutMs a)) then inl BadFreshness
     else match loadReviewedSensorSet (la_sensorPipelines a) with
          | inl e => inl (BadSensors e)
          | inr set => inr (configured (ab_events b) set a)
          end, b').

(** [main]: the file, the binding, the launch. *)
Definition atl_start (file : option FileContent) (a : AtlLaunch) : option AtlConfig :=
  match atlSdmConfigLoad file with
  | inl _ => None
  | inr events =>
    match atlSetSubscribedEvents (Some events) (Some (str "--config")) initial_atl_binding with
    | (false, _) => None
    | (true, b) => match (launchATLControlAlgo a b).1 with inl _ => None | inr cf => Some cf end
    end
  end.

(** ** What the loader accepts *)

Lemma event_pairs i j :
  In (i, j) (concat (map (fun i => map (fun j => (i, j)) (seq (i + 1) (ATL_EVENT_COUNT - (i + 1)))) (seq 0 ATL_EVENT_COUNT)))
  <-> (i < j < ATL_EVENT_COUNT)%nat.
Proof.
  rewrite in_concat. setoid_rewrite in_map_iff. split.
  - intros (l & (i' & <- & Hi) & Hl). apply in_map_iff in Hl as (j' & [= -> ->] & Hj). rewrite in_seq in Hi, Hj. lia.
  - intros H. eexists. split; [exists i; split; [reflexivity|apply in_seq; lia]|]. apply in_map_iff. exists j.
    split; [done|apply in_seq; lia].
Qed.

Lemma distinct_spec events : length events = ATL_EVENT_COUNT -> atlEventsAreDistinct events = None <-> NoDup events.
Proof.
  intros Hlen. unfold atlEventsAreDistinct. split.
  - intros Hf. apply NoDup_alt. intros i j x Hi Hj. pose proof (lookup_lt_Some _ _ _ Hi). pose proof (lookup_lt_Some _ _ _ Hj).
    apply (nth_lookup_Some _ _ EVENT_UNKNOWN) in Hi, Hj. destruct (lt_eq_lt_dec i j) as [[Hlt|]|Hlt]; [|done|].
    + pose proof (find_none _ _ Hf (i, j) (proj2 (event_pairs i j) ltac:(lia))) as Hn. simpl in Hn.
      rewrite Hi, Hj, Z.eqb_refl in Hn. done.
    + pose proof (find_none _ _ Hf (j, i) (proj2 (event_pairs j i) ltac:(lia))) as Hn. simpl in Hn.
      rewrite Hi, Hj, Z.eqb_refl in Hn. done.
  - intros Hnd. destruct (List.find _ _) as [[i j]|] eqn:Hf; [|done]. exfalso. apply find_some in Hf as [Hin He].
    apply event_pairs in Hin. apply Z.eqb_eq in He. simpl in He.
    destruct (lookup_lt_is_Some_2 events i ltac:(lia)) as [x Hx]. destruct (lookup_lt_is_Some_2 events j ltac:(lia)) as [y Hy].
    rewrite (nth_lookup_Some _ _ _ _ Hx), (nth_lookup_Some _ _ _ _ Hy) in He. subst y.
    pose proof (NoDup_lookup _ _ _ _ Hnd Hx Hy). lia.
Qed.

Definition generic (e : EventType) : Prop := EVENT_0 <= e <= EVENT_23.

(** What the control layer accepts of an unfrozen binding. *)
Lemma set_spec events source b : ab_frozen b = false -> source <> [] ->
  (atlSetSubscribedEvents (Some events) (Some source) b).1 = true <->
  length events = ATL_EVENT_COUNT /\ Forall generic events /\ NoDup events.
Proof.
  intros Hfr Hs. unfold atlSetSubscribedEvents. rewrite Hfr. rewrite (bool_decide_eq_false_2 (source = [])) by done. rewrite orb_false_r.
  destruct (Nat.eqb_spec (length events) ATL_EVENT_COUNT) as [Hlen|]; cbn [negb]; [|simpl; naive_solver].
  rewrite <- (distinct_spec events Hlen).
  destruct (forallb _ events) eqn:Hr; cbn [negb orb].
  - assert (Forall generic events).
    { apply Forall_forall. intros e He. rewrite forallb_forall in Hr. apply list_elem_of_In, Hr in He. unfold generic. lia. }
    destruct (atlEventsAreDistinct events) as [p|]; simpl; [|tauto]. split; [done|]. intros (_ & _ & ?). done.
  - split; [done|]. intros (_ & Hg & _). exfalso. enough (forallb (fun e => (EVENT_0 <=? e) && (e <=? EVENT_23)) events = true) by congruence.
    apply forallb_forall. intros e He. rewrite Forall_forall in Hg. apply list_elem_of_In, Hg in He. unfold generic in He. lia.
Qed.

Lemma read_digits_nonneg v l : 0 <= v -> 0 <= (read_digits v l).1.
Proof.
  revert v. induction l as [|c l IH]; intros v Hv; simpl; [done|]. unfold digit_value.
  destruct (Z.leb_spec 0 (Z.of_nat (nat_of_ascii c) - 48)); simpl; [|done].
  destruct (Z.leb_spec (Z.of_nat (nat_of_ascii c) - 48) 9); simpl; [|done]. apply IH. lia.
Qed.

Lemma parse_generic name e : atlParseEventTypeName name = Some e -> generic e.
Proof.
  unfold atlParseEventTypeName. destruct (negb _); [done|]. cbv zeta. destruct (_ || _ || _ || _); [done|].
  destruct (Z.ltb_spec EVENT_23 (read_digits 0 (drop 6 name)).1); [done|]. intros [= <-].
  split; [by apply read_digits_nonneg|done].
Qed.

Lemma read_events_spec i vs events : read_events i vs = inr events -> length events = length vs /\ Forall generic events.
Proof.
  revert i events. induction vs as [|[[n value]|] vs IH]; intros i events; simpl; [intros [= <-]; by split|  |done].
  destruct (atlParseEventTypeName value) as [e|] eqn:He; [|done]. destruct (read_events (i + 1) vs) as [|es] eqn:Hr; [done|].
  intros [= <-]. destruct (IH _ _ Hr) as [Hl Hg]. split; [simpl; by rewrite Hl|]. constructor; [by eapply parse_generic|done].
Qed.

Lemma load_lines_length n lines vs vs' : load_lines n lines vs = inr vs' -> length vs' = length vs.
Proof.
  revert n vs. induction lines as [|line lines IH]; intros n vs; simpl; [by intros [= <-]|].
  destruct (load_line n line vs) as [|vs1] eqn:Hl; [done|]. intros H. rewrite (IH _ _ H). unfold load_line in Hl. cbv zeta in Hl.
  destruct (_ || _) in Hl; [by injection Hl as <-|]. destruct (cut_at EQUALS _) as [key [rest|]]; [|done]. unfold load_entry in Hl.
  destruct (index_of _ _) as [slot|]; [|done]. repeat (case_bool_decide; [done|]). injection Hl as <-. apply length_insert.
Qed.

Lemma loaded_events file events : atlSdmConfigLoad file = inr events ->
  length events = ATL_EVENT_COUNT /\ Forall generic events /\ NoDup events.
Proof.
  unfold atlSdmConfigLoad. destruct file as [[content bad]|]; [|done]. cbn [fc_text fc_bad].
  destruct (load_lines 1 _ _) as [|vs] eqn:Hl; [done|]. destruct bad; [done|]. destruct (missing_key vs); [done|].
  destruct (read_events 0 vs) as [|es] eqn:Hr; [done|]. destruct (atlEventsAreDistinct es) as [[i j]|] eqn:Hd; [done|]. intros [= <-].
  apply load_lines_length in Hl. destruct (read_events_spec _ _ _ Hr) as [Hlen Hg]. rewrite Hl in Hlen.
  split_and!; [done|done|]. by apply distinct_spec.
Qed.

(** ** Every binding has a file *)

Definition atl_config_lines (events : list EventType) : list text := zip_with entry_line kEventKeys (map event_text events).
Definition print_atl_config (events : list EventType) : text := concat (map (fun l => l ++ [LF]) (atl_config_lines events)).

Lemma atl_event_facts e : generic e -> atlParseEventTypeName (event_text e) = Some e /\ clean (event_text e).
Proof.
  intros [H0 H1]. unfold EVENT_0, EVENT_23 in *.
  assert (H : forallb (fun n => let e := Z.of_nat n in
    bool_decide (atlParseEventTypeName (event_text e) = Some e) && forallb solid (event_text e)) (seq 0 24) = true) by (vm_compute; reflexivity).
  rewrite forallb_forall in H. specialize (H (Z.to_nat e) ltac:(apply in_seq; lia)). cbv zeta in H. rewrite Z2Nat.id in H by lia.
  rewrite andb_true_iff, bool_decide_eq_true in H. split; [tauto|]. split; [tauto|]. unfold event_text. by destruct (e <? 10).
Qed.

Lemma clean_head w : clean w -> head w <> Some HASH.
Proof. intros [Hw Hn]. destruct w as [|c w]; [done|]. intros [= ->]. done. Qed.

Lemma load_atl_line n key value vs : clean key -> clean value -> load_line n (entry_line key value) vs = load_entry n key value vs.
Proof.
  intros Hk Hv. unfold load_line, entry_line, atlTrim, atlStripInlineComment. cbv zeta.
  pose proof (trim_around [] key [SP; EQUALS; SP] value [] eq_refl eq_refl Hk Hv) as Ht. rewrite app_nil_r in Ht.
  cbn [app] in Ht |- *. rewrite Ht. rewrite !bool_decide_eq_false_2.
  2: { pose proof (clean_head _ Hk). destruct Hk as [_ Hk]. by destruct key. }
  2: { destruct Hk as [_ Hk]. by destruct key. }
  cbn [orb]. change (key ++ SP :: EQUALS :: SP :: value) with (key ++ [SP] ++ EQUALS :: SP :: value). rewrite app_assoc.
  rewrite cut_at_first. 2: { rewrite forallb_app, (clean_no EQUALS key) by auto. done. }
  rewrite (cut_at_none HASH (SP :: value)). 2: { cbn [forallb]. by rewrite (clean_no HASH value) by auto. }
  f_equal; [apply (trim_one [] key [SP])|]; [done..|].
  pose proof (trim_one [SP] value [] eq_refl eq_refl Hv) as Hx. by rewrite app_nil_r in Hx.
Qed.

Lemma atl_keys_clean : Forall clean kEventKeys.
Proof. repeat constructor; done. Qed.

Lemma entry_one_line key value : clean key -> clean value ->
  forallb (fun x => negb (Ascii.eqb x LF)) (entry_line key value) = true.
Proof. intros Hk Hv. unfold entry_line. rewrite !forallb_app, (clean_no LF key), (clean_no LF value) by auto. done. Qed.

(** The value of a key not seen is stored. *)
Lemma load_fresh n slot value vs : (slot < ATL_EVENT_COUNT)%nat -> clean value -> value_at slot vs = None ->
  load_line n (entry_line (nth slot kEventKeys []) value) vs = inr (<[slot := Some (n, value)]> vs).
Proof.
  intros Hs Hv Hn. rewrite load_atl_line; [|eapply Forall_forall; [exact atl_keys_clean|apply list_elem_of_In, nth_In; exact Hs]|done].
  unfold load_entry. assert (index_of (nth slot kEventKeys []) kEventKeys = Some slot) as ->.
  { unfold ATL_EVENT_COUNT in Hs. do 6 (destruct slot as [|slot]; [vm_compute; reflexivity|]). lia. }
  rewrite Hn, !bool_decide_eq_false_2; [done|by destruct Hv|by intros [? ?]].
Qed.

Lemma printed_loads events : length events = ATL_EVENT_COUNT -> Forall generic events -> NoDup events ->
  atlSdmConfigLoad (Some {| fc_text := print_atl_config events; fc_bad := false |}) = inr events.
Proof.
  intros Hlen Hg Hnd. unfold atlSdmConfigLoad, print_atl_config. cbn [fc_text fc_bad].
  assert (Hc : forall e, e ∈ events -> clean (event_text e)).
  { intros e He. eapply Forall_forall in Hg; [|exact He]. by apply atl_event_facts. }
  rewrite lines_of_printed.
  2: { unfold atl_config_lines. apply Forall_forall. intros l Hl. apply list_elem_of_lookup in Hl as [i Hi].
       rewrite lookup_zip_with, list_lookup_fmap in Hi. destruct (kEventKeys !! i) as [key|] eqn:Hk; [|done].
       destruct (events !! i) as [e|] eqn:He; [|done]. injection Hi as <-. apply entry_one_line.
       - eapply Forall_forall; [exact atl_keys_clean|by eapply list_elem_of_lookup_2].
       - apply Hc. by eapply list_elem_of_lookup_2. }
  pose proof (proj2 (distinct_spec events Hlen) Hnd) as Hd.
  destruct events as [|e0 [|e1 [|e2 [|e3 [|e4 [|e5 [|]]]]]]]; try done.
  assert (Hrow : forall n slot e vs, (slot < ATL_EVENT_COUNT)%nat -> e ∈ [e0; e1; e2; e3; e4; e5] -> value_at slot vs = None ->
    load_line n (entry_line (nth slot kEventKeys []) (event_text e)) vs = inr (<[slot := Some (n, event_text e)]> vs)).
  { intros n slot e vs Hs He Hn. apply load_fresh; auto. }
  assert (load_lines 1 (atl_config_lines [e0; e1; e2; e3; e4; e5]) (replicate ATL_EVENT_COUNT None) =
    inr [Some (1, event_text e0); Some (2, event_text e1); Some (3, event_text e2); Some (4, event_text e3);
         Some (5, event_text e4); Some (6, event_text e5)]) as ->.
  { change (atl_config_lines [e0; e1; e2; e3; e4; e5]) with
      [entry_line (nth 0 kEventKeys []) (event_text e0); entry_line (nth 1 kEventKeys []) (event_text e1);
       entry_line (nth 2 kEventKeys []) (event_text e2); entry_line (nth 3 kEventKeys []) (event_text e3);
       entry_line (nth 4 kEventKeys []) (event_text e4); entry_line (nth 5 kEventKeys []) (event_text e5)].
    cbn [load_lines].
    rewrite (Hrow 1 0%nat e0); [|unfold ATL_EVENT_COUNT; lia|set_solver|reflexivity].
    rewrite (Hrow (1 + 1) 1%nat e1); [|unfold ATL_EVENT_COUNT; lia|set_solver|reflexivity].
    rewrite (Hrow (1 + 1 + 1) 2%nat e2); [|unfold ATL_EVENT_COUNT; lia|set_solver|reflexivity].
    rewrite (Hrow (1 + 1 + 1 + 1) 3%nat e3); [|unfold ATL_EVENT_COUNT; lia|set_solver|reflexivity].
    rewrite (Hrow (1 + 1 + 1 + 1 + 1) 4%nat e4); [|unfold ATL_EVENT_COUNT; lia|set_solver|reflexivity].
    rewrite (Hrow (1 + 1 + 1 + 1 + 1 + 1) 5%nat e5); [|unfold ATL_EVENT_COUNT; lia|set_solver|reflexivity].
    reflexivity. }
  assert (Hp : forall e, e ∈ [e0; e1; e2; e3; e4; e5] -> atlParseEventTypeName (event_text e) = Some e).
  { intros e He. eapply Forall_forall in Hg; [|exact He]. by apply atl_event_facts. }
  change (missing_key _) with (@None text). cbn [read_events].
  rewrite (Hp e0), (Hp e1), (Hp e2), (Hp e3), (Hp e4), (Hp e5), Hd by set_solver. reflexivity.
Qed.

(** The file loader and the control layer agree: a list of event types comes
    from some configuration file exactly when the control layer binds it, so the
    branch of [main] for validators that drifted apart is never taken, and every
    binding the control layer takes can be configured. *)
Theorem atl_validators_agree events source : source <> [] ->
  (exists file, atlSdmConfigLoad file = inr events) <->
  (atlSetSubscribedEvents (Some events) (Some source) initial_atl_binding).1 = true.
Proof.
  intros Hs. rewrite set_spec by done. split.
  - intros [file Hl]. by eapply loaded_events.
  - intros (Hlen & Hg & Hnd). eexists. by apply printed_loads.
Qed.

Lemma atl_validators_agree_witness :
  (atlSetSubscribedEvents (Some [4; 5; 0; 1; 22; 23]) (Some (str "--config")) initial_atl_binding).1 = true.
Proof.
  apply (atl_validators_agree [4; 5; 0; 1; 22; 23] (str "--config") ltac:(done)).
  exists (Some {| fc_text := print_atl_config [4; 5; 0; 1; 22; 23]; fc_bad := false |}). vm_compute. reflexivity.
Defined.

(** ** What a start-up leads to *)

Definition situations (cf : AtlConfig) : list EventType :=
  [cf_forkliftEntered cf; cf_forkliftExited cf; cf_personEntered cf; cf_personExited cf; cf_roiViolation cf; cf_roiCleared cf].

Lemma generic_subscribable e : generic e -> subscribable e = true.
Proof.
  intros [H0 H1]. unfold subscribable. destruct (Z.leb_spec EVENT_UNKNOWN e) as [H|]; [|done].
  unfold EVENT_UNKNOWN, EVENT_23 in *. lia.
Qed.

Lemma situations_registered events : length events = ATL_EVENT_COUNT -> Forall generic events ->
  exists S, NvPSDGatewayClassifyRegr (Some (build_regr (events ++ [SW_FAIL]))) = inr S /\
    forall x, x ∈ S <-> x ∈ events \/ x ∈ mandatory_event_types.
Proof.
  intros Hlen Hg. assert (Hn : Z.of_nat (length (events ++ [SW_FAIL])) = 7) by (rewrite length_app, Hlen; done).
  destruct (regr_classified (events ++ [SW_FAIL])) as (S & HS & Hx).
  - apply Forall_app. split; [eapply Forall_impl; [exact Hg|]|repeat constructor; done].
    intros e [H0 H1]. unfold is_u32, EVENT_0, EVENT_23 in *. lia.
  - lia.
  - destruct events as [|e rest]; [done|]. exists e. split; [by left|]. inversion_clear Hg. by apply generic_subscribable.
  - exists S. split; [done|]. intros x. rewrite Hx, elem_of_app, list_elem_of_singleton. split.
    + intros [[[?| ->] _]|?]; [by left|right; set_solver|by right].
    + intros [Hin|?]; [|by right]. left. split; [by left|]. eapply Forall_forall in Hg; [|exact Hin]. by apply generic_subscribable.
Qed.


Definition sample_launch : AtlLaunch := {|
  la_gatewayPort := 5000; la_plcPort := 5001; la_maxHbFailures := 10; la_decisionRepeatIntervalMs := 5000; la_hbStaleMs := 5000;
  la_hbPeriodMs := 5500; la_freshnessTimeoutMs := 7000;
  la_sensorPipelines := Some (Some (print_pipelines [(1, str "Camera"); (2, str "Camera_01")])) |}.

