(* ===== verification/ProximityConfig.v ===== *)
(** * The proximity start-up configuration

    [proximity_sdm_config.cpp]: the key/value file that selects pair groups and
    binds each of their tiers to an event type.  Theorems: what the loader accepts, start-up accepts; and every selection has a
    file that loads to it. *)

From Stdlib Require Import Ascii String.
From S2P Require Import Prelude Protocol Crc Validate SdmRequestState GatewayContract SdmSequence Threads PlcPacket SdmCore Proximity Text.

Local Open Scope Z_scope.
Local Open Scope list_scope.

(** ** Keys *)

Definition kEventKeys : list text := map str
  ["humanoid_person_normal"; "humanoid_person_reduce"; "humanoid_person_stop";
   "forklift_person_normal"; "forklift_person_reduce"; "forklift_person_stop";
   "transporter_person_normal"; "transporter_person_reduce"; "transporter_person_stop";
   "fourier_humanoid_person_normal"; "fourier_humanoid_person_reduce"; "fourier_humanoid_person_stop"]%string.

Definition kPairGroups : list text :=
  map str ["humanoid_person"; "forklift_person"; "transporter_person"; "fourier_humanoid_person"]%string.

Fixpoint select_groups (names : list text) (enabled : list bool) : option (list bool) :=
  match names with
  | [] => Some enabled
  | name :: rest =>
    match index_of (trim name) kPairGroups with
    | None => None
    | Some group => if nth group enabled false then None else select_groups rest (<[group := true]> enabled)
    end
  end.

Definition parsePairGroups (value : text) : option (list bool) := select_groups (split_on COMMA value) [false; false; false; false].

Definition parseEvent (value : text) : option EventType :=
  if negb (bool_decide (take 6 value = str "EVENT_")) then None
  else
    let digits := drop 6 value in
    if bool_decide (digits = []) || (2 <? length digits)%nat ||
       ((1 <? length digits)%nat && bool_decide (head digits = Some "0"%char)) then None
    else
      match digits_value 0 digits with
      | Some raw => if EVENT_23 <? raw then None else Some raw
      | None => None
      end.

(** ** Loading *)

Inductive ConfigError :=
  | CannotOpen
  | ExpectedKeyValue (line : Z)
  | GroupsTwice (line : Z)
  | BadGroups (line : Z)
  | UnknownKey (line : Z) (key : text)
  | KeyTwice (line : Z) (key : text)
  | BadEvent (line : Z) (key : text)
  | NotDistinct (line : Z) (key other : text)
  | ReadError
  | MissingKey (key : text)
  | UnselectedKey (key : text).

Record Loading := {
  ld_events : list EventType;
  ld_seen : list bool;
  ld_enabled : list bool;
  ld_groupsSeen : bool;
}.

Definition loading0 : Loading := {|
  ld_events := replicate PROXIMITY_EVENT_COUNT EVENT_UNKNOWN; ld_seen := replicate PROXIMITY_EVENT_COUNT false;
  ld_enabled := [true; true; true; false]; ld_groupsSeen := false |}.

Definition seen_at (st : Loading) (i : nat) : bool := nth i (ld_seen st) false.

(** The first key already seen with the same event. *)
Definition clashing (st : Loading) (event : EventType) : option nat :=
  List.find (fun i => seen_at st i && (event_at (ld_events st) i =? event)) (seq 0 PROXIMITY_EVENT_COUNT).

Definition bind_event (slot : nat) (event : EventType) (st : Loading) : Loading := {|
  ld_events := <[slot := event]> (ld_events st); ld_seen := <[slot := true]> (ld_seen st);
  ld_enabled := ld_enabled st; ld_groupsSeen := ld_groupsSeen st |}.

Definition set_enabled (enabled : list bool) (st : Loading) : Loading := {|
  ld_events := ld_events st; ld_seen := ld_seen st; ld_enabled := enabled; ld_groupsSeen := true |}.

Definition load_entry (lineNo : Z) (key value : text) (st : Loading) : ConfigError + Loading :=
  if bool_decide (key = str "pair_groups") then
    if ld_groupsSeen st then inl (GroupsTwice lineNo)
    else match parsePairGroups value with
         | None => inl (BadGroups lineNo)
         | Some enabled => inr (set_enabled enabled st)
         end
  else
    match index_of key kEventKeys with
    | None => inl (UnknownKey lineNo key)
    | Some slot =>
      if seen_at st slot then inl (KeyTwice lineNo key)
      else match parseEvent value with
           | None => inl (BadEvent lineNo key)
           | Some event =>
             match clashing st event with
             | Some other => inl (NotDistinct lineNo key (nth other kEventKeys []))
             | None => inr (bind_event slot event st)
             end
           end
    end.

Definition load_line (lineNo : Z) (line : text) (st : Loading) : ConfigError + Loading :=
  let text := trim (cut_at HASH line).1 in
  if bool_decide (text = []) then inr st
  else match cut_at EQUALS text with
       | (_, None) => inl (ExpectedKeyValue lineNo)
       | (key, Some value) => load_entry lineNo (trim key) (trim value) st
       end.

Fixpoint load_lines (lineNo : Z) (lines : list text) (st : Loading) : ConfigError + Loading :=
  match lines with
  | [] => inr st
  | line :: rest => match load_line lineNo line st with inl e => inl e | inr st => load_lines (lineNo + 1) rest st end
  end.

(** The check that the keys are those of the selected groups. *)
Definition selected (st : Loading) (i : nat) : bool := nth (i / PROXIMITY_TIERS_PER_GROUP) (ld_enabled st) false.

Definition complete_at (st : Loading) (i : nat) : option ConfigError :=
  if selected st i && negb (seen_at st i) then Some (MissingKey (nth i kEventKeys []))
  else if negb (selected st i) && seen_at st i then Some (UnselectedKey (nth i kEventKeys []))
  else None.

Definition proximitySdmConfigLoad (file : option FileContent) : ConfigError + list EventType :=
  match file with
  | None => inl CannotOpen
  | Some content =>
    match load_lines 1 (lines_of (fc_text content)) loading0 with
    | inl e => inl e
    | inr st =>
      if fc_bad content then inl ReadError
      else match omap (complete_at st) (seq 0 PROXIMITY_EVENT_COUNT) with
           | e :: _ => inl e
           | [] => inr (ld_events st)
           end
    end
  end.

(** ** A loaded configuration is accepted at start-up *)

Lemma parseEvent_range value e : parseEvent value = Some e -> 0 <= e <= EVENT_23.
Proof.
  unfold parseEvent. destruct (negb _); [done|]. cbv zeta. destruct (_ || _); [done|].
  destruct (digits_value 0 _) as [raw|] eqn:Hd; [|done]. destruct (Z.ltb_spec EVENT_23 raw); [done|]. intros [= <-].
  apply digits_value_nonneg in Hd; lia.
Qed.

Lemma select_groups_spec names enabled out : select_groups names enabled = Some out ->
  length enabled = 4%nat -> length out = 4%nat /\ (names <> [] \/ true ∈ enabled -> true ∈ out).
Proof.
  revert enabled. induction names as [|name rest IH]; intros enabled; cbn [select_groups].
  { intros [= <-] Hl. split; [done|]. by intros [?|?]. }
  destruct (index_of (trim name) kPairGroups) as [g|] eqn:Hg; [|done]. destruct (nth g enabled false); [done|]. intros Hs Hl.
  apply index_of_lt in Hg. change (length kPairGroups) with 4%nat in Hg.
  destruct (IH _ Hs) as [H1 H2]; [by rewrite length_insert|]. split; [done|]. intros _. apply H2. right.
  apply (list_elem_of_lookup_2 _ g), list_lookup_insert_eq. lia.
Qed.

Record loading_ok (st : Loading) : Prop := {
  lo_events : length (ld_events st) = PROXIMITY_EVENT_COUNT;
  lo_seen : length (ld_seen st) = PROXIMITY_EVENT_COUNT;
  lo_enabled : length (ld_enabled st) = 4%nat /\ true ∈ ld_enabled st;
  lo_unseen : forall i, seen_at st i = false -> event_at (ld_events st) i = EVENT_UNKNOWN;
  lo_range : forall i, seen_at st i = true -> 0 <= event_at (ld_events st) i <= EVENT_23;
  lo_distinct : forall i j, seen_at st i = true -> seen_at st j = true ->
    event_at (ld_events st) i = event_at (ld_events st) j -> i = j;
}.

Lemma clashing_none st e i : clashing st e = None -> seen_at st i = true -> (i < PROXIMITY_EVENT_COUNT)%nat -> event_at (ld_events st) i <> e.
Proof.
  intros Hc Hs Hi He. apply (find_none _ _) with (x := i) in Hc; [|apply in_seq; lia]. rewrite Hs, He, Z.eqb_refl in Hc. done.
Qed.

Lemma seen_lt st i : length (ld_seen st) = PROXIMITY_EVENT_COUNT -> seen_at st i = true -> (i < PROXIMITY_EVENT_COUNT)%nat.
Proof.
  unfold seen_at. intros Hl Hs. destruct (decide (i < length (ld_seen st))%nat); [congruence|]. by rewrite nth_overflow in Hs by lia.
Qed.

Lemma bind_event_ok slot e st : loading_ok st -> (slot < PROXIMITY_EVENT_COUNT)%nat -> seen_at st slot = false ->
  0 <= e <= EVENT_23 -> clashing st e = None -> loading_ok (bind_event slot e st).
Proof.
  intros [H1 H2 H3 H4 H5 H6] Hs Hn He Hc.
  assert (Hev : forall i, event_at (ld_events (bind_event slot e st)) i = if decide (i = slot) then e else event_at (ld_events st) i)
    by (intros i; unfold event_at; simpl; by rewrite nth_insert by lia).
  assert (Hse : forall i, seen_at (bind_event slot e st) i = if decide (i = slot) then true else seen_at st i)
    by (intros i; unfold seen_at; simpl; by rewrite nth_insert by lia).
  split; simpl; rewrite ?length_insert; try done.
  - intros i. rewrite Hse, Hev. case_decide; [done|auto].
  - intros i. rewrite Hse, Hev. case_decide; [done|auto].
  - intros i j. rewrite !Hse, !Hev. case_decide as Hi; case_decide as Hj; subst; [done|..]; intros Hsi Hsj Heq.
    + by destruct (clashing_none st e j Hc Hsj (seen_lt st j H2 Hsj)).
    + by destruct (clashing_none st e i Hc Hsi (seen_lt st i H2 Hsi)).
    + by apply H6.
Qed.

Lemma load_entry_ok n key value st st' : loading_ok st -> load_entry n key value st = inr st' -> loading_ok st'.
Proof.
  intros Hst. unfold load_entry. case_bool_decide.
  - destruct (ld_groupsSeen st); [done|]. destruct (parsePairGroups value) as [enabled|] eqn:Hp; [|done]. intros [= <-].
    destruct Hst as [H1 H2 H3 H4 H5 H6]. split; try done. simpl.
    destruct (select_groups_spec _ _ _ Hp eq_refl) as [Hl Ht]. split; [done|]. apply Ht. left. apply split_on_nonempty.
  - destruct (index_of key kEventKeys) as [slot|] eqn:Hi; [|done]. destruct (seen_at st slot) eqn:Hs; [done|].
    destruct (parseEvent value) as [e|] eqn:He; [|done]. destruct (clashing st e) eqn:Hc; [done|]. intros [= <-].
    apply index_of_lt in Hi. apply parseEvent_range in He. by apply bind_event_ok.
Qed.

Lemma load_lines_ok n lines st st' : loading_ok st -> load_lines n lines st = inr st' -> loading_ok st'.
Proof.
  revert n st. induction lines as [|line lines IH]; intros n st Hst; simpl; [by intros [= <-]|].
  destruct (load_line n line st) as [|st1] eqn:Hl; [done|]. apply IH. unfold load_line in Hl. cbv zeta in Hl.
  case_bool_decide; [by injection Hl as <-|]. destruct (cut_at EQUALS _) as [key [value|]]; [|done]. by eapply load_entry_ok.
Qed.

Lemma loading0_ok : loading_ok loading0.
Proof.
  split; simpl; [done|done|split; [done|by left]|..].
  - intros i _. unfold event_at. do 12 (destruct i as [|i]; [done|]). by destruct i.
  - intros i Hs. unfold seen_at in Hs. simpl in Hs. do 12 (destruct i as [|i]; [done|]). by destruct i.
  - intros i j Hs. unfold seen_at in Hs. simpl in Hs. do 12 (destruct i as [|i]; [done|]). by destruct i.
Qed.

Lemma load_complete file events : proximitySdmConfigLoad file = inr events ->
  exists st, loading_ok st /\ events = ld_events st /\ forall i, (i < PROXIMITY_EVENT_COUNT)%nat -> seen_at st i = selected st i.
Proof.
  unfold proximitySdmConfigLoad. destruct file as [[content bad]|]; [|done]. cbn [fc_text fc_bad].
  destruct (load_lines 1 _ loading0) as [|st] eqn:Hl; [done|]. destruct bad; [done|].
  destruct (omap (complete_at st) (seq 0 PROXIMITY_EVENT_COUNT)) as [|] eqn:Hc; [|done]. intros [= <-]. exists st.
  split_and!; [by eapply load_lines_ok, Hl; apply loading0_ok|done|]. intros i Hi.
  pose proof (omap_nil _ _ i Hc ltac:(apply elem_of_seq; lia)) as Hn. unfold complete_at in Hn.
  by destruct (selected st i), (seen_at st i).
Qed.

(** What the loader accepts, start-up accepts: every configuration loaded from
    a file, whatever its text, is a complete binding that
    [proximitySetSubscribedEvents] takes, with whole groups, event types EVENT_0 to
    EVENT_23 that are pairwise different, and at least one group. *)
Theorem loaded_config_accepted file events : proximitySdmConfigLoad file = inr events ->
  length events = PROXIMITY_EVENT_COUNT /\
  proximitySetSubscribedEvents events initial_binding =
    (true, {| bd_events := events; bd_configured := true; bd_frozen := false |}).
Proof.
  intros Hl. apply load_complete in Hl as (st & [H1 H2 [H3 H3'] H4 H5 H6] & -> & Hsel). split; [done|].
  assert (Hen : forall i, negb (event_at (ld_events st) i =? EVENT_UNKNOWN) = seen_at st i).
  { intros i. destruct (seen_at st i) eqn:Hs; [|rewrite (H4 i Hs); done].
    specialize (H5 i Hs). apply negb_true_iff, Z.eqb_neq. unfold EVENT_UNKNOWN, EVENT_23 in *. lia. }
  unfold proximitySetSubscribedEvents. cbn [initial_binding bd_frozen].
  assert (forallb (row_ok (ld_events st)) (seq 0 PROXIMITY_EVENT_COUNT) = true) as Hrows.
  { apply forallb_forall. intros i Hi. apply in_seq in Hi. unfold row_ok. cbv zeta. rewrite !Hen.
    assert (Hfirst : (i / PROXIMITY_TIERS_PER_GROUP * PROXIMITY_TIERS_PER_GROUP < PROXIMITY_EVENT_COUNT)%nat).
    { unfold PROXIMITY_EVENT_COUNT, PROXIMITY_TIERS_PER_GROUP in *. pose proof (Nat.div_mod_eq i 3). lia. }
    assert (Hsame : selected st (i / PROXIMITY_TIERS_PER_GROUP * PROXIMITY_TIERS_PER_GROUP) = selected st i).
    { unfold selected. by rewrite Nat.div_mul by done. }
    rewrite !Hsel, Hsame by lia. rewrite eqb_reflx. cbn [negb]. destruct (selected st i) eqn:Hs; [|done]. cbn [negb].
    rewrite <- Hsel in Hs by lia. apply andb_true_iff. split.
    - apply Z.leb_le. specialize (H5 i Hs). rewrite u32_small; [lia|]. unfold is_u32, EVENT_23 in *. lia.
    - apply forallb_forall. intros j Hj. apply in_seq in Hj. apply negb_true_iff, Z.eqb_neq. intros Heq.
      destruct (seen_at st j) eqn:Hsj; [specialize (H6 i j Hs Hsj Heq); lia|].
      rewrite (H4 j Hsj) in Heq. specialize (H5 i Hs). unfold EVENT_UNKNOWN, EVENT_23 in *. lia. }
  rewrite Hrows. cbn [negb].
  assert (Hne : enabled_rows (ld_events st) <> []).
  { apply list_elem_of_lookup in H3' as [g Hg]. pose proof (lookup_lt_Some _ _ _ Hg) as Hlt. rewrite H3 in Hlt.
    assert (Hin : In (g * 3)%nat (enabled_rows (ld_events st))).
    { apply filter_In. rewrite Hen. split; [apply in_seq; unfold PROXIMITY_EVENT_COUNT; lia|].
      rewrite Hsel by (unfold PROXIMITY_EVENT_COUNT; lia). unfold selected, PROXIMITY_TIERS_PER_GROUP. rewrite Nat.div_mul by done.
      by apply nth_lookup_Some. }
    intros E. by rewrite E in Hin. }
  destruct (enabled_rows (ld_events st)); done.
Qed.

(** ** Every accepted binding has a file *)

Definition is_i32 (z : Z) : Prop := - 2 ^ 31 <= z < 2 ^ 31.

(** A bound event is a physical event type. *)
Lemma bound_range events b b' x : proximitySetSubscribedEvents events b = (true, b') -> length events = PROXIMITY_EVENT_COUNT ->
  Forall is_i32 events -> x ∈ events -> x <> EVENT_UNKNOWN -> 0 <= x <= EVENT_23.
Proof.
  intros Hb Hlen Hi Hin Hne. pose proof (binding_rows _ _ _ Hb) as (_ & _ & _ & Hrows & _).
  apply list_elem_of_lookup in Hin as [i Hx]. pose proof (lookup_lt_Some _ _ _ Hx) as Hlt. rewrite Hlen in Hlt.
  assert (He : event_at events i = x) by (unfold event_at; by apply nth_lookup_Some).
  destruct (row_ok_enabled events i (Hrows i Hlt)) as [Hr _]; [congruence|]. rewrite He in Hr.
  rewrite Forall_forall in Hi. specialize (Hi x (list_elem_of_lookup_2 _ _ _ Hx)). unfold is_i32 in Hi. unfold u32, EVENT_23 in *.
  destruct (decide (0 <= x)); [rewrite Z.mod_small in Hr; lia|]. 
  assert (x mod 2 ^ 32 = x + 2 ^ 32) as E by (symmetry; apply (Z.mod_unique _ _ (-1)); lia). lia.
Qed.

(** The groups a binding enables, and the text that selects them. *)
Definition groups_of (events : list EventType) : list bool := map (fun g => negb (event_at events (3 * g) =? EVENT_UNKNOWN)) (seq 0 4).
Definition groups_text (enabled : list bool) : text :=
  join COMMA (omap (fun ge : text * bool => if ge.2 then Some ge.1 else None) (zip kPairGroups enabled)).

Definition config_lines (events : list EventType) : list text :=
  entry_line (str "pair_groups") (groups_text (groups_of events)) ::
  map (fun i => entry_line (nth i kEventKeys []) (event_text (event_at events i))) (enabled_rows events).

Definition print_config (events : list EventType) : text := concat (map (fun l => l ++ [LF]) (config_lines events)).

(** The line of an entry is read back as the entry. *)
Lemma load_entry_line n key value st : clean key -> clean value -> load_line n (entry_line key value) st = load_entry n key value st.
Proof.
  intros Hk Hv. unfold load_line, entry_line. cbv zeta.
  rewrite cut_at_none. 2: { rewrite !forallb_app, (clean_no HASH key), (clean_no HASH value) by auto. done. }
  cbn [fst]. pose proof (trim_around [] key [SP; EQUALS; SP] value [] eq_refl eq_refl Hk Hv) as Ht. rewrite app_nil_r in Ht.
  cbn [app] in Ht |- *. rewrite Ht. rewrite bool_decide_eq_false_2 by (destruct Hk as [_ Hk]; by destruct key).
  change (key ++ SP :: EQUALS :: SP :: value) with (key ++ [SP] ++ EQUALS :: SP :: value). rewrite app_assoc.
  rewrite cut_at_first. 2: { rewrite forallb_app, (clean_no EQUALS key) by auto. done. }
  f_equal; [apply (trim_one [] key [SP])|]; [done..|].
  pose proof (trim_one [SP] value [] eq_refl eq_refl Hv) as Hx. by rewrite app_nil_r in Hx.
Qed.

Lemma entry_line_one_line key value : clean key -> clean value ->
  forallb (fun x => negb (Ascii.eqb x LF)) (entry_line key value) = true.
Proof. intros Hk Hv. unfold entry_line. rewrite !forallb_app, (clean_no LF key), (clean_no LF value) by auto. done. Qed.

(** Facts about the tables of names. *)
Lemma keys_check : forallb (fun i =>
  bool_decide (index_of (nth i kEventKeys []) kEventKeys = Some i) && forallb solid (nth i kEventKeys []) &&
  negb (bool_decide (nth i kEventKeys [] = [])) && negb (bool_decide (nth i kEventKeys [] = str "pair_groups")))
  (seq 0 PROXIMITY_EVENT_COUNT) = true.
Proof. vm_compute. reflexivity. Qed.

Lemma key_facts i : (i < PROXIMITY_EVENT_COUNT)%nat ->
  index_of (nth i kEventKeys []) kEventKeys = Some i /\ clean (nth i kEventKeys []) /\ nth i kEventKeys [] <> str "pair_groups".
Proof.
  intros Hi. pose proof keys_check as H. rewrite forallb_forall in H. specialize (H i ltac:(apply in_seq; lia)).
  rewrite !andb_true_iff, !negb_true_iff, bool_decide_eq_true, !bool_decide_eq_false in H. unfold clean. tauto.
Qed.

Lemma events_check : forallb (fun n => let e := Z.of_nat n in
  bool_decide (parseEvent (event_text e) = Some e) && forallb solid (event_text e)) (seq 0 24) = true.
Proof. vm_compute. reflexivity. Qed.

Lemma event_facts e : 0 <= e <= EVENT_23 -> parseEvent (event_text e) = Some e /\ clean (event_text e).
Proof.
  intros He. unfold EVENT_23 in He. pose proof events_check as H. rewrite forallb_forall in H.
  specialize (H (Z.to_nat e) ltac:(apply in_seq; lia)). cbv zeta in H. rewrite Z2Nat.id in H by lia.
  rewrite andb_true_iff, bool_decide_eq_true in H. split; [tauto|]. split; [tauto|]. unfold event_text. by destruct (e <? 10).
Qed.

Lemma groups_facts a b c d : (a || b || c || d) = true ->
  parsePairGroups (groups_text [a; b; c; d]) = Some [a; b; c; d] /\ clean (groups_text [a; b; c; d]).
Proof. intros H. destruct a, b, c, d; try done; (split; [vm_compute; reflexivity|split; [vm_compute; reflexivity|done]]). Qed.

Section Print.
Context (events : list EventType) (b' : Binding).
Hypothesis (Hset : proximitySetSubscribedEvents events initial_binding = (true, b'))
  (Hlen : length events = PROXIMITY_EVENT_COUNT) (Hi32 : Forall is_i32 events).

Lemma enabled_row i : In i (enabled_rows events) <-> (i < PROXIMITY_EVENT_COUNT)%nat /\ event_at events i <> EVENT_UNKNOWN.
Proof. unfold enabled_rows. rewrite filter_In, in_seq, negb_true_iff, Z.eqb_neq. lia. Qed.

Lemma enabled_range i : In i (enabled_rows events) -> 0 <= event_at events i <= EVENT_23.
Proof.
  intros Hi. apply enabled_row in Hi as [Hi Hne]. eapply bound_range; [exact Hset|done|done| |done].
  unfold event_at. apply list_elem_of_In, nth_In. lia.
Qed.

Lemma enabled_distinct i j : In i (enabled_rows events) -> In j (enabled_rows events) -> event_at events i = event_at events j -> i = j.
Proof.
  intros Hi Hj He. apply enabled_row in Hi as [Hi Hni]. apply enabled_row in Hj as [Hj Hnj].
  pose proof (binding_rows _ _ _ Hset) as (_ & _ & _ & Hrows & _).
  destruct (row_ok_enabled events i (Hrows i Hi) Hni) as [_ Di]. destruct (row_ok_enabled events j (Hrows j Hj) Hnj) as [_ Dj].
  destruct (lt_eq_lt_dec i j) as [[Hlt|]|Hlt]; [|done|]; [by destruct (Dj i Hlt)|by destruct (Di j Hlt)].
Qed.

(** A row is bound exactly when its group is selected. *)
Lemma row_selected i : (i < PROXIMITY_EVENT_COUNT)%nat ->
  nth (i / PROXIMITY_TIERS_PER_GROUP) (groups_of events) false = negb (event_at events i =? EVENT_UNKNOWN).
Proof.
  intros Hi. pose proof (binding_rows _ _ _ Hset) as (_ & _ & _ & Hrows & _). specialize (Hrows i Hi).
  unfold row_ok in Hrows. cbv zeta in Hrows.
  assert (Hg : nth (i / PROXIMITY_TIERS_PER_GROUP) (groups_of events) false =
    negb (event_at events (i / PROXIMITY_TIERS_PER_GROUP * PROXIMITY_TIERS_PER_GROUP) =? EVENT_UNKNOWN)).
  { unfold groups_of. assert (Hd : (i / PROXIMITY_TIERS_PER_GROUP < 4)%nat) by (apply Nat.Div0.div_lt_upper_bound; exact Hi).
    destruct (i / PROXIMITY_TIERS_PER_GROUP)%nat as [|[|[|[|k]]]]; [reflexivity..|lia]. }
  rewrite Hg. destruct (eqb _ _) eqn:E in Hrows; [|done]. by apply eqb_prop in E.
Qed.

(** The loader after the rows [done]. *)
Record printed (processed : list nat) (st : Loading) : Prop := {
  pr_events : length (ld_events st) = PROXIMITY_EVENT_COUNT;
  pr_seen_len : length (ld_seen st) = PROXIMITY_EVENT_COUNT;
  pr_enabled : ld_enabled st = groups_of events;
  pr_seen : forall i, seen_at st i = bool_decide (i ∈ processed);
  pr_event : forall i, event_at (ld_events st) i = if bool_decide (i ∈ processed) then event_at events i else EVENT_UNKNOWN;
}.

Lemma load_row n processed r st : printed processed st -> r ∉ processed -> In r (enabled_rows events) ->
  (forall i, i ∈ processed -> In i (enabled_rows events)) ->
  exists st', load_line n (entry_line (nth r kEventKeys []) (event_text (event_at events r))) st = inr st' /\
    printed (processed ++ [r]) st'.
Proof.
  intros [H1 H2 H3 H4 H5] Hr Hin Hall. assert (Hlt : (r < PROXIMITY_EVENT_COUNT)%nat) by (by apply enabled_row in Hin as [? _]).
  destruct (key_facts r Hlt) as (Hidx & Hck & Hnp). destruct (event_facts _ (enabled_range r Hin)) as [Hpe Hce].
  rewrite load_entry_line by done. unfold load_entry. rewrite bool_decide_eq_false_2, Hidx, H4, bool_decide_eq_false_2, Hpe by done.
  assert (Hcl : clashing st (event_at events r) = None).
  { destruct (clashing st (event_at events r)) as [i|] eqn:E; [|done]. exfalso. apply find_some in E as [_ Hb].
    rewrite H4, H5, andb_true_iff, bool_decide_eq_true, Z.eqb_eq in Hb. destruct Hb as [Hi He]. rewrite bool_decide_eq_true_2 in He by done.
    apply enabled_distinct in He; [by subst i|by apply Hall|done]. }
  rewrite Hcl. eexists. split; [reflexivity|]. split; simpl; rewrite ?length_insert; try done.
  - intros i. unfold seen_at in *. simpl. rewrite nth_insert by lia. case_decide as Hd.
    + subst i. by rewrite bool_decide_eq_true_2 by (apply elem_of_app; right; by left).
    + rewrite H4. apply bool_decide_ext. set_solver.
  - intros i. unfold event_at in H5 |- *. rewrite nth_insert by lia. case_decide as Hd.
    + subst i. by rewrite bool_decide_eq_true_2 by (apply elem_of_app; right; by left).
    + rewrite H5. erewrite bool_decide_ext; [done|]. set_solver.
Qed.

Lemma load_rows rows n processed st : printed processed st -> NoDup (processed ++ rows) ->
  (forall i, i ∈ processed ++ rows -> In i (enabled_rows events)) ->
  exists st', load_lines n (map (fun i => entry_line (nth i kEventKeys []) (event_text (event_at events i))) rows) st = inr st' /\
    printed (processed ++ rows) st'.
Proof.
  revert n processed st. induction rows as [|r rows IH]; intros n processed st Hp Hnd Hall; cbn [map load_lines].
  { exists st. by rewrite app_nil_r. }
  assert (Hr : r ∉ processed). { apply NoDup_app in Hnd as (_ & Hd & _). intros Hin. apply (Hd r Hin). by left. }
  destruct (load_row n processed r st Hp Hr) as (st1 & -> & Hp1); [apply Hall; set_solver|intros i Hi; apply Hall; set_solver|].
  destruct (IH (n + 1) (processed ++ [r]) st1 Hp1) as (st2 & -> & Hp2); [by rewrite <- app_assoc|by rewrite <- app_assoc|].
  exists st2. by rewrite <- app_assoc in Hp2.
Qed.

Lemma some_group : exists a b c d, groups_of events = [a; b; c; d] /\ (a || b || c || d) = true.
Proof.
  pose proof (binding_rows _ _ _ Hset) as (_ & _ & _ & _ & Hen). destruct (enabled_rows events) as [|i l] eqn:E; [done|].
  assert (Hi : In i (enabled_rows events)) by (rewrite E; by left). apply enabled_row in Hi as [Hi Hne].
  pose proof (row_selected i Hi) as Hs. rewrite (proj2 (Z.eqb_neq _ _) Hne) in Hs. simpl negb in Hs.
  unfold groups_of in *. simpl map in *. do 4 eexists. split; [reflexivity|].
  destruct (i / PROXIMITY_TIERS_PER_GROUP)%nat as [|[|[|[|k]]]]; simpl nth in Hs; rewrite ?Hs, ?orb_true_r; try done. by destruct k.
Qed.

Lemma load_printed : proximitySdmConfigLoad (Some {| fc_text := print_config events; fc_bad := false |}) = inr events.
Proof.
  destruct some_group as (ga & gb & gc & gd & Hg & Hor). destruct (groups_facts _ _ _ _ Hor) as [Hpg Hcg].
  assert (Hck : clean (str "pair_groups")) by (split; done).
  unfold proximitySdmConfigLoad, print_config. cbn [fc_text fc_bad]. rewrite lines_of_printed.
  2: { unfold config_lines. rewrite Hg. constructor; [by apply entry_line_one_line|].
       apply Forall_map, Forall_forall. intros i Hi. apply list_elem_of_In in Hi. destruct (event_facts _ (enabled_range i Hi)) as [_ Hce].
       apply enabled_row in Hi as [Hi _]. destruct (key_facts i Hi) as (_ & Hk & _).
       by apply entry_line_one_line. }
  unfold config_lines. cbn [load_lines]. rewrite Hg, load_entry_line by done. unfold load_entry at 1.
  rewrite bool_decide_eq_true_2 by done. cbn [loading0 ld_groupsSeen]. rewrite Hpg.
  destruct (load_rows (enabled_rows events) (1 + 1) [] (set_enabled [ga; gb; gc; gd] loading0)) as (st & -> & [H1 H2 H3 H4 H5]).
  - split; [done|done|by rewrite Hg|..]; intros i; rewrite bool_decide_eq_false_2 by apply not_elem_of_nil.
    + unfold seen_at. simpl. do 12 (destruct i as [|i]; [done|]). by destruct i.
    + unfold event_at. simpl. do 12 (destruct i as [|i]; [done|]). by destruct i.
  - simpl. unfold enabled_rows. apply NoDup_ListNoDup, List.NoDup_filter, NoDup_ListNoDup, NoDup_seq.
  - intros i Hi. by apply list_elem_of_In.
  - simpl app in *.
    assert (Hsel : forall i, (i < PROXIMITY_EVENT_COUNT)%nat -> complete_at st i = None).
    { intros i Hi. unfold complete_at. assert (selected st i = seen_at st i) as ->; [|by destruct (seen_at st i)].
      unfold selected. rewrite H3, row_selected, H4 by done. symmetry.
      destruct (Z.eqb_spec (event_at events i) EVENT_UNKNOWN) as [He|He]; cbn [negb].
      - apply bool_decide_eq_false_2. intros Hin. apply list_elem_of_In, enabled_row in Hin as [_ ?]. done.
      - apply bool_decide_eq_true_2, list_elem_of_In, enabled_row. done. }
    assert (omap (complete_at st) (seq 0 PROXIMITY_EVENT_COUNT) = []) as ->.
    { destruct (omap (complete_at st) (seq 0 PROXIMITY_EVENT_COUNT)) as [|e l] eqn:E; [done|]. exfalso.
      assert (He : e ∈ omap (complete_at st) (seq 0 PROXIMITY_EVENT_COUNT)) by (rewrite E; by left).
      apply list_elem_of_omap in He as (i & Hi & He). apply elem_of_seq in Hi. rewrite Hsel in He by lia. done. }
    f_equal. apply (nth_ext _ _ EVENT_UNKNOWN EVENT_UNKNOWN); [congruence|]. intros i Hi. rewrite H1 in Hi.
    fold (event_at (ld_events st) i). fold (event_at events i). rewrite H5. case_bool_decide as Hin; [done|].
    destruct (decide (event_at events i = EVENT_UNKNOWN)); [done|]. exfalso. apply Hin, list_elem_of_In, enabled_row. done.
Qed.
End Print.

(** Every binding start-up accepts can be configured: the printed file of an
    accepted binding loads to exactly that binding, disabled groups included. *)
Theorem config_roundtrip events b' :
  proximitySetSubscribedEvents events initial_binding = (true, b') -> length events = PROXIMITY_EVENT_COUNT -> Forall is_i32 events ->
  proximitySdmConfigLoad (Some {| fc_text := print_config events; fc_bad := false |}) = inr events.
Proof. intros Hset Hlen Hi. by apply (load_printed events b'). Qed.

(** The file loader and the control layer agree: a binding of the twelve tiers
    comes from some configuration file exactly when start-up takes it, so what the
    loader accepts is never refused later, and every binding start-up takes can be
    configured, disabled groups included. *)
Theorem proximity_validators_agree events : length events = PROXIMITY_EVENT_COUNT -> Forall is_i32 events ->
  (exists file, proximitySdmConfigLoad file = inr events) <-> (proximitySetSubscribedEvents events initial_binding).1 = true.
Proof.
  intros Hlen Hi. split.
  - intros [file Hl]. by rewrite (proj2 (loaded_config_accepted _ _ Hl)).
  - destruct (proximitySetSubscribedEvents events initial_binding) as [ok b'] eqn:Hs. simpl. intros ->. eexists.
    by apply (config_roundtrip events b').
Qed.

Lemma proximity_validators_agree_witness :
  (exists file, proximitySdmConfigLoad file = inr sample_events) <-> (proximitySetSubscribedEvents sample_events initial_binding).1 = true.
Proof. apply (proximity_validators_agree sample_events eq_refl). unfold sample_events. repeat constructor; done. Defined.

Example sample_config_loads :
  proximitySdmConfigLoad (Some {| fc_text := print_config sample_events; fc_bad := false |}) = inr sample_events.
Proof. vm_compute. reflexivity. Qed.
