(* ===== verification/ProximityRuns.v ===== *)
(** * Runs of the proximity decision maker

    Concrete schedules of the whole process: the premises of the theorems of
    [SdmSafety] on the proximity instance, and a release whose acknowledgement is
    lost while its CMD_NORMAL is delivered. *)

From S2P Require Import Prelude Protocol Crc Validate SdmRequestState GatewayContract SdmSequence Threads PlcPacket SdmCore SdmRules SdmSafety Proximity.

Definition px_app : SdmApp Z := proximity_app sample_events.
#[local] Existing Instance px_app.

Definition px_config : SdmConfig := {|
  cf_reviewed := [1; 2]; cf_maxHbFailures := 2; cf_hbStaleMs := 5000; cf_hbPeriodMs := 5500;
  cf_freshnessTimeoutMs := 7000 |}.

Definition at_time (now : Z) (ok : bool) : Env := {| e_now := now; e_wall := 1000 * now; e_ok := ok |}.

(** [n] steps of thread [t]. *)
Definition steps (t : Tid) (n : nat) (e : Env) : list (Label (E:=Env) (T:=Tid) (I:=Input)) := replicate n (Run t e).

(** A release request of the PLC. *)
Definition release_packet : CmdPacket :=
  let p := {| cp_identifier := PROXIMITY_PACKET_IDENTIFIER; cp_seq := 3; cp_command := CMD_SAFE_RELEASE_REQUEST;
              cp_ts_seconds := 0; cp_ts_microseconds := 0; cp_crc32 := 0; cp_objects := (zero_object, zero_object) |} in
  set_cp_crc32 (cmdPacketCRC32 p) p.

Definition release_input : Input := InPlc (Some (true, enc_packet release_packet)).

Definition tids : list Tid :=
  [Listener; AckHandler; HbWatchdog; FreshnessWatchdog; PeriodicDecision; HeartbeatTx; EvalTick].

Definition all_idleb (c : @Pool (Sdm Z) Env Tid) : bool := forallb (fun t => is_idle (code c t)) tids.

Lemma all_idleb_spec c : all_idleb c = true -> all_idle c.
Proof. intros H t. unfold all_idleb in H. rewrite forallb_forall in H. apply H. destruct t; simpl; tauto. Qed.

(** The gateway goes silent: the heartbeat watchdog latches and sends the hold. *)
Definition silent_gateway : list Label :=
  Start HbWatchdog InTick :: steps HbWatchdog 17 (at_time 100000 true).


(** The gateway is back: a heartbeat, and the watchdog clears the fault. *)
Definition gateway_back : list Label :=
  Start Listener InHeartbeat :: steps Listener 1 (at_time 100000 true) ++
  Start HbWatchdog InTick :: steps HbWatchdog 6 (at_time 100001 true).

(** The release, with the acknowledgement's send failing. *)
Definition split_release : list Label :=
  Start AckHandler release_input :: steps AckHandler 8 (at_time 101000 true) ++
  steps AckHandler 1 (at_time 101000 false) ++ steps AckHandler 9 (at_time 101000 true).

(** A run that ends in a pool satisfying [f]. *)
Lemma run_exists ls (f : @Pool (Sdm Z) Env Tid -> bool) :
  match runs px_config 0 ls with Some c => f c | None => false end = true ->
  exists c, runs px_config 0 ls = Some c /\ f c = true.
Proof. intros H. destruct (runs px_config 0 ls) as [c|]; [by exists c|done]. Qed.

Definition latched_idle (c : @Pool (Sdm Z) Env Tid) : bool := all_idleb c && Z.testbit (sm_latch (shared c)) 0.


(** ** Witnesses *)

Lemma hold_has_last_word_witness :
  exists c, runs px_config 0 silent_gateway = Some c /\
    (last_word (sm_sent (shared c)) = WHold \/ last_word (sm_sent (shared c)) = WSplit).
Proof.
  destruct (run_exists silent_gateway latched_idle) as (c & Hr & Hf); [vm_compute; reflexivity|].
  apply andb_true_iff in Hf as [Hi Hl]. exists c. split; [done|].
  apply (hold_has_last_word px_config 0 silent_gateway c Hr); [by apply all_idleb_spec|].
  left. intros H0. by rewrite H0 in Hl.
Defined.

Definition heartbeat_arrives : Label (E:=Env) (T:=Tid) (I:=Input) := Start Listener InHeartbeat.

(** A heartbeat arrives while the latch is set. *)
Lemma latch_survives_every_step_witness :
  exists c c', runs px_config 0 silent_gateway = Some c /\
    step (body px_config) heartbeat_arrives c = Some c' /\
    (Z.testbit (sm_latch (shared c')) 0 = true \/
     exists e, heartbeat_arrives = Run AckHandler e /\ release_clears AckHandler (shared c) (shared c')).
Proof.
  destruct (run_exists silent_gateway
    (fun c => Z.testbit (sm_latch (shared c)) 0 &&
              match step (body px_config) heartbeat_arrives c with Some _ => true | None => false end))
    as (c & Hr & Hf); [vm_compute; reflexivity|].
  apply andb_true_iff in Hf as [Hl Hs].
  destruct (step (body px_config) heartbeat_arrives c) as [c'|] eqn:Hst; [|done].
  exists c, c'. split; [done|]. split; [done|].
  exact (latch_survives_every_step px_config 0 silent_gateway c heartbeat_arrives c' 0 Hr Hst Hl).
Defined.

Lemma active_faults_latched_when_idle_witness :
  exists c, runs px_config 0 silent_gateway = Some c /\ sm_hbFault (shared c) = true /\
    Z.testbit (sm_latch (shared c)) 0 = true.
Proof.
  destruct (run_exists silent_gateway (fun c => all_idleb c && sm_hbFault (shared c))) as (c & Hr & Hf);
    [vm_compute; reflexivity|].
  apply andb_true_iff in Hf as [Hi Hl]. exists c. split; [done|]. split; [done|].
  apply (active_faults_latched_when_idle px_config 0 silent_gateway c Hr); [by apply all_idleb_spec|done].
Defined.

Lemma no_deadlock_witness :
  exists c, runs px_config 0 (Start HbWatchdog InTick :: steps HbWatchdog 5 (at_time 100000 true)) = Some c /\
    ~ deadlocked px_config c.
Proof.
  destruct (run_exists (Start HbWatchdog InTick :: steps HbWatchdog 5 (at_time 100000 true)) (fun _ => true))
    as (c & Hr & _); [vm_compute; reflexivity|].
  exists c. split; [done|]. exact (no_deadlock px_config 0 _ c Hr).
Defined.
