(* ===== verification/Junction.v ===== *)
(** * The crossing-junction decision maker

    [CrossingJunctionSafetyControl.cpp]: the junction state machine (per-sensor
    views pooled into debounced levels, the engagement latch, the verdict) and the
    instance of [SdmCore].  A [std::map] keyed by a byte is a [gmap]; it is walked
    in ascending key order. *)

From S2P Require Import Prelude Protocol Crc Validate SdmRequestState GatewayContract SdmSequence Threads PlcPacket SdmCore.

(** ** Data *)

Definition CMD_JUNCTION_ALARM : Z := 0x0C.
Definition CROSSING_JUNCTION_SAFETY_PACKET_IDENTIFIER : Z := 0xA7.

Definition EVENT_0_FORKLIFT_TRIPWIRE_INBOUND : EventType := 0.
Definition EVENT_1_PERSON_IN_JUNCTION_ROI : EventType := 1.
Definition EVENT_2_FORKLIFT_IN_JUNCTION_ROI : EventType := 2.
Definition EVENT_3_PERSON_VACATED_JUNCTION : EventType := 3.
Definition EVENT_4_FORKLIFT_VACATED_JUNCTION : EventType := 4.

Definition kAggregateJunctionKey : Z := 0.

(** The tunables of the state machine, in ms. *)
Record JunctionConfig := {
  jc_tripwireEngageWindowMs : Z;
  jc_roiEntryPulseMs : Z;
  jc_personRoiHoldMs : Z;
  jc_forkliftRoiHoldMs : Z;
  jc_clearDebounceMs : Z;
  jc_perSensorJunctions : bool;
}.

(** ** Launch *)

Definition kJunctionHoldMsMin : Z := 100.
Definition kJunctionHoldMsMax : Z := 60000.
Definition kJunctionEvalPeriodMsMin : Z := 20.
Definition kJunctionEvalPeriodMsMax : Z := 5000.

(** The junction arguments of [launchCrossingJunctionSafetyControlAlgo]: 32-bit
    milliseconds. *)
Record JunctionLaunch := {
  jl_tripwireEngageWindowMs : Z;
  jl_personRoiHoldMs : Z;
  jl_forkliftRoiHoldMs : Z;
  jl_junctionEvalPeriodMs : Z;
  jl_perSensorJunctions : bool;
  jl_clearDebounceMs : Z;
  jl_roiEntryPulseMs : Z;
}.

Definition default_launch : JunctionLaunch := {|
  jl_tripwireEngageWindowMs := 5000; jl_personRoiHoldMs := 1500; jl_forkliftRoiHoldMs := 2000;
  jl_junctionEvalPeriodMs := 200; jl_perSensorJunctions := false; jl_clearDebounceMs := 500; jl_roiEntryPulseMs := 5000 |}.

Definition hold_out_of_range (ms : Z) : bool := (ms <? kJunctionHoldMsMin) || (kJunctionHoldMsMax <? ms).

(** The argument checks and the stores that follow them; [None] is the return of -1. *)
Definition configure_junctions (a : JunctionLaunch) : option JunctionConfig :=
  if hold_out_of_range (jl_tripwireEngageWindowMs a) || hold_out_of_range (jl_personRoiHoldMs a) ||
     hold_out_of_range (jl_forkliftRoiHoldMs a) || hold_out_of_range (jl_clearDebounceMs a) then None
  else if negb (jl_roiEntryPulseMs a =? 0) && hold_out_of_range (jl_roiEntryPulseMs a) then None
  else if (jl_junctionEvalPeriodMs a <? kJunctionEvalPeriodMsMin) || (kJunctionEvalPeriodMsMax <? jl_junctionEvalPeriodMs a) then None
  else if jl_clearDebounceMs a <? jl_junctionEvalPeriodMs a then None
  else Some {|
    jc_tripwireEngageWindowMs := jl_tripwireEngageWindowMs a; jc_roiEntryPulseMs := jl_roiEntryPulseMs a;
    jc_personRoiHoldMs := jl_personRoiHoldMs a; jc_forkliftRoiHoldMs := jl_forkliftRoiHoldMs a;
    jc_clearDebounceMs := jl_clearDebounceMs a; jc_perSensorJunctions := jl_perSensorJunctions a |}.

(** ** The state of a junction *)

Inductive JunctionPhase := kClear | kPersonInRoi | kForkliftInRoi | kAlarm.

#[export] Instance JunctionPhase_eq_dec : EqDecision JunctionPhase.
Proof. solve_decision. Defined.

Record SensorJunctionView := {
  sv_personOccupied : bool;
  sv_forkliftOccupied : bool;
  sv_lastPersonReportMs : Z;
  sv_lastForkliftReportMs : Z;
}.

Definition empty_view : SensorJunctionView :=
  {| sv_personOccupied := false; sv_forkliftOccupied := false; sv_lastPersonReportMs := 0; sv_lastForkliftReportMs := 0 |}.

Definition report_person (occupied : bool) (now : Z) (v : SensorJunctionView) : SensorJunctionView :=
  {| sv_personOccupied := occupied; sv_forkliftOccupied := sv_forkliftOccupied v;
     sv_lastPersonReportMs := now; sv_lastForkliftReportMs := sv_lastForkliftReportMs v |}.

Definition report_forklift (occupied : bool) (now : Z) (v : SensorJunctionView) : SensorJunctionView :=
  {| sv_personOccupied := sv_personOccupied v; sv_forkliftOccupied := occupied;
     sv_lastPersonReportMs := sv_lastPersonReportMs v; sv_lastForkliftReportMs := now |}.

Record JunctionZoneState := {
  jz_lastTripwireInboundMs : Z;
  jz_lastForkliftInRoiMs : Z;
  jz_lastPersonInRoiMs : Z;
  jz_bySensor : gmap Z SensorJunctionView;
  jz_personInRoi : bool;
  jz_forkliftInRoi : bool;
  jz_personVacantSinceMs : Z;
  jz_forkliftVacantSinceMs : Z;
  jz_lastForkliftRoiEntryMs : Z;
  jz_engaged : bool;
  jz_engagingForkliftId : Z;
  jz_forkliftInRoiId : Z;
  jz_personInRoiId : Z;
  jz_forkliftRecord : ObjectRecord;
  jz_personRecord : ObjectRecord;
  jz_reportedPhase : JunctionPhase;
  jz_phaseEverReported : bool;
}.

Definition empty_zone : JunctionZoneState := {|
  jz_lastTripwireInboundMs := 0; jz_lastForkliftInRoiMs := 0; jz_lastPersonInRoiMs := 0; jz_bySensor := ∅;
  jz_personInRoi := false; jz_forkliftInRoi := false; jz_personVacantSinceMs := 0; jz_forkliftVacantSinceMs
  := 0; jz_lastForkliftRoiEntryMs := 0; jz_engaged := false; jz_engagingForkliftId := 0; jz_forkliftInRoiId
  := 0; jz_personInRoiId := 0; jz_forkliftRecord := zero_object; jz_personRecord := zero_object;
  jz_reportedPhase := kClear; jz_phaseEverReported := false |}.

Definition jset_lastTripwireInboundMs (x : Z) (s : JunctionZoneState) : JunctionZoneState := {|
  jz_lastTripwireInboundMs := x; jz_lastForkliftInRoiMs := jz_lastForkliftInRoiMs s; jz_lastPersonInRoiMs :=
  jz_lastPersonInRoiMs s; jz_bySensor := jz_bySensor s; jz_personInRoi := jz_personInRoi s; jz_forkliftInRoi
  := jz_forkliftInRoi s; jz_personVacantSinceMs := jz_personVacantSinceMs s; jz_forkliftVacantSinceMs :=
  jz_forkliftVacantSinceMs s; jz_lastForkliftRoiEntryMs := jz_lastForkliftRoiEntryMs s; jz_engaged :=
  jz_engaged s; jz_engagingForkliftId := jz_engagingForkliftId s; jz_forkliftInRoiId := jz_forkliftInRoiId
  s; jz_personInRoiId := jz_personInRoiId s; jz_forkliftRecord := jz_forkliftRecord s; jz_personRecord :=
  jz_personRecord s; jz_reportedPhase := jz_reportedPhase s; jz_phaseEverReported := jz_phaseEverReported s
  |}.

Definition jset_lastForkliftInRoiMs (x : Z) (s : JunctionZoneState) : JunctionZoneState := {|
  jz_lastTripwireInboundMs := jz_lastTripwireInboundMs s; jz_lastForkliftInRoiMs := x; jz_lastPersonInRoiMs
  := jz_lastPersonInRoiMs s; jz_bySensor := jz_bySensor s; jz_personInRoi := jz_personInRoi s;
  jz_forkliftInRoi := jz_forkliftInRoi s; jz_personVacantSinceMs := jz_personVacantSinceMs s;
  jz_forkliftVacantSinceMs := jz_forkliftVacantSinceMs s; jz_lastForkliftRoiEntryMs :=
  jz_lastForkliftRoiEntryMs s; jz_engaged := jz_engaged s; jz_engagingForkliftId := jz_engagingForkliftId s;
  jz_forkliftInRoiId := jz_forkliftInRoiId s; jz_personInRoiId := jz_personInRoiId s; jz_forkliftRecord :=
  jz_forkliftRecord s; jz_personRecord := jz_personRecord s; jz_reportedPhase := jz_reportedPhase s;
  jz_phaseEverReported := jz_phaseEverReported s |}.

Definition jset_lastPersonInRoiMs (x : Z) (s : JunctionZoneState) : JunctionZoneState := {|
  jz_lastTripwireInboundMs := jz_lastTripwireInboundMs s; jz_lastForkliftInRoiMs := jz_lastForkliftInRoiMs
  s; jz_lastPersonInRoiMs := x; jz_bySensor := jz_bySensor s; jz_personInRoi := jz_personInRoi s;
  jz_forkliftInRoi := jz_forkliftInRoi s; jz_personVacantSinceMs := jz_personVacantSinceMs s;
  jz_forkliftVacantSinceMs := jz_forkliftVacantSinceMs s; jz_lastForkliftRoiEntryMs :=
  jz_lastForkliftRoiEntryMs s; jz_engaged := jz_engaged s; jz_engagingForkliftId := jz_engagingForkliftId s;
  jz_forkliftInRoiId := jz_forkliftInRoiId s; jz_personInRoiId := jz_personInRoiId s; jz_forkliftRecord :=
  jz_forkliftRecord s; jz_personRecord := jz_personRecord s; jz_reportedPhase := jz_reportedPhase s;
  jz_phaseEverReported := jz_phaseEverReported s |}.

Definition jset_bySensor (x : gmap Z SensorJunctionView) (s : JunctionZoneState) : JunctionZoneState := {|
  jz_lastTripwireInboundMs := jz_lastTripwireInboundMs s; jz_lastForkliftInRoiMs := jz_lastForkliftInRoiMs
  s; jz_lastPersonInRoiMs := jz_lastPersonInRoiMs s; jz_bySensor := x; jz_personInRoi := jz_personInRoi s;
  jz_forkliftInRoi := jz_forkliftInRoi s; jz_personVacantSinceMs := jz_personVacantSinceMs s;
  jz_forkliftVacantSinceMs := jz_forkliftVacantSinceMs s; jz_lastForkliftRoiEntryMs :=
  jz_lastForkliftRoiEntryMs s; jz_engaged := jz_engaged s; jz_engagingForkliftId := jz_engagingForkliftId s;
  jz_forkliftInRoiId := jz_forkliftInRoiId s; jz_personInRoiId := jz_personInRoiId s; jz_forkliftRecord :=
  jz_forkliftRecord s; jz_personRecord := jz_personRecord s; jz_reportedPhase := jz_reportedPhase s;
  jz_phaseEverReported := jz_phaseEverReported s |}.

Definition jset_personInRoi (x : bool) (s : JunctionZoneState) : JunctionZoneState := {|
  jz_lastTripwireInboundMs := jz_lastTripwireInboundMs s; jz_lastForkliftInRoiMs := jz_lastForkliftInRoiMs
  s; jz_lastPersonInRoiMs := jz_lastPersonInRoiMs s; jz_bySensor := jz_bySensor s; jz_personInRoi := x;
  jz_forkliftInRoi := jz_forkliftInRoi s; jz_personVacantSinceMs := jz_personVacantSinceMs s;
  jz_forkliftVacantSinceMs := jz_forkliftVacantSinceMs s; jz_lastForkliftRoiEntryMs :=
  jz_lastForkliftRoiEntryMs s; jz_engaged := jz_engaged s; jz_engagingForkliftId := jz_engagingForkliftId s;
  jz_forkliftInRoiId := jz_forkliftInRoiId s; jz_personInRoiId := jz_personInRoiId s; jz_forkliftRecord :=
  jz_forkliftRecord s; jz_personRecord := jz_personRecord s; jz_reportedPhase := jz_reportedPhase s;
  jz_phaseEverReported := jz_phaseEverReported s |}.

Definition jset_forkliftInRoi (x : bool) (s : JunctionZoneState) : JunctionZoneState := {|
  jz_lastTripwireInboundMs := jz_lastTripwireInboundMs s; jz_lastForkliftInRoiMs := jz_lastForkliftInRoiMs
  s; jz_lastPersonInRoiMs := jz_lastPersonInRoiMs s; jz_bySensor := jz_bySensor s; jz_personInRoi :=
  jz_personInRoi s; jz_forkliftInRoi := x; jz_personVacantSinceMs := jz_personVacantSinceMs s;
  jz_forkliftVacantSinceMs := jz_forkliftVacantSinceMs s; jz_lastForkliftRoiEntryMs :=
  jz_lastForkliftRoiEntryMs s; jz_engaged := jz_engaged s; jz_engagingForkliftId := jz_engagingForkliftId s;
  jz_forkliftInRoiId := jz_forkliftInRoiId s; jz_personInRoiId := jz_personInRoiId s; jz_forkliftRecord :=
  jz_forkliftRecord s; jz_personRecord := jz_personRecord s; jz_reportedPhase := jz_reportedPhase s;
  jz_phaseEverReported := jz_phaseEverReported s |}.

Definition jset_personVacantSinceMs (x : Z) (s : JunctionZoneState) : JunctionZoneState := {|
  jz_lastTripwireInboundMs := jz_lastTripwireInboundMs s; jz_lastForkliftInRoiMs := jz_lastForkliftInRoiMs
  s; jz_lastPersonInRoiMs := jz_lastPersonInRoiMs s; jz_bySensor := jz_bySensor s; jz_personInRoi :=
  jz_personInRoi s; jz_forkliftInRoi := jz_forkliftInRoi s; jz_personVacantSinceMs := x;
  jz_forkliftVacantSinceMs := jz_forkliftVacantSinceMs s; jz_lastForkliftRoiEntryMs :=
  jz_lastForkliftRoiEntryMs s; jz_engaged := jz_engaged s; jz_engagingForkliftId := jz_engagingForkliftId s;
  jz_forkliftInRoiId := jz_forkliftInRoiId s; jz_personInRoiId := jz_personInRoiId s; jz_forkliftRecord :=
  jz_forkliftRecord s; jz_personRecord := jz_personRecord s; jz_reportedPhase := jz_reportedPhase s;
  jz_phaseEverReported := jz_phaseEverReported s |}.

Definition jset_forkliftVacantSinceMs (x : Z) (s : JunctionZoneState) : JunctionZoneState := {|
  jz_lastTripwireInboundMs := jz_lastTripwireInboundMs s; jz_lastForkliftInRoiMs := jz_lastForkliftInRoiMs
  s; jz_lastPersonInRoiMs := jz_lastPersonInRoiMs s; jz_bySensor := jz_bySensor s; jz_personInRoi :=
  jz_personInRoi s; jz_forkliftInRoi := jz_forkliftInRoi s; jz_personVacantSinceMs := jz_personVacantSinceMs
  s; jz_forkliftVacantSinceMs := x; jz_lastForkliftRoiEntryMs := jz_lastForkliftRoiEntryMs s; jz_engaged :=
  jz_engaged s; jz_engagingForkliftId := jz_engagingForkliftId s; jz_forkliftInRoiId := jz_forkliftInRoiId
  s; jz_personInRoiId := jz_personInRoiId s; jz_forkliftRecord := jz_forkliftRecord s; jz_personRecord :=
  jz_personRecord s; jz_reportedPhase := jz_reportedPhase s; jz_phaseEverReported := jz_phaseEverReported s
  |}.

Definition jset_lastForkliftRoiEntryMs (x : Z) (s : JunctionZoneState) : JunctionZoneState := {|
  jz_lastTripwireInboundMs := jz_lastTripwireInboundMs s; jz_lastForkliftInRoiMs := jz_lastForkliftInRoiMs
  s; jz_lastPersonInRoiMs := jz_lastPersonInRoiMs s; jz_bySensor := jz_bySensor s; jz_personInRoi :=
  jz_personInRoi s; jz_forkliftInRoi := jz_forkliftInRoi s; jz_personVacantSinceMs := jz_personVacantSinceMs
  s; jz_forkliftVacantSinceMs := jz_forkliftVacantSinceMs s; jz_lastForkliftRoiEntryMs := x; jz_engaged :=
  jz_engaged s; jz_engagingForkliftId := jz_engagingForkliftId s; jz_forkliftInRoiId := jz_forkliftInRoiId
  s; jz_personInRoiId := jz_personInRoiId s; jz_forkliftRecord := jz_forkliftRecord s; jz_personRecord :=
  jz_personRecord s; jz_reportedPhase := jz_reportedPhase s; jz_phaseEverReported := jz_phaseEverReported s
  |}.

Definition jset_engaged (x : bool) (s : JunctionZoneState) : JunctionZoneState := {|
  jz_lastTripwireInboundMs := jz_lastTripwireInboundMs s; jz_lastForkliftInRoiMs := jz_lastForkliftInRoiMs
  s; jz_lastPersonInRoiMs := jz_lastPersonInRoiMs s; jz_bySensor := jz_bySensor s; jz_personInRoi :=
  jz_personInRoi s; jz_forkliftInRoi := jz_forkliftInRoi s; jz_personVacantSinceMs := jz_personVacantSinceMs
  s; jz_forkliftVacantSinceMs := jz_forkliftVacantSinceMs s; jz_lastForkliftRoiEntryMs :=
  jz_lastForkliftRoiEntryMs s; jz_engaged := x; jz_engagingForkliftId := jz_engagingForkliftId s;
  jz_forkliftInRoiId := jz_forkliftInRoiId s; jz_personInRoiId := jz_personInRoiId s; jz_forkliftRecord :=
  jz_forkliftRecord s; jz_personRecord := jz_personRecord s; jz_reportedPhase := jz_reportedPhase s;
  jz_phaseEverReported := jz_phaseEverReported s |}.

Definition jset_engagingForkliftId (x : Z) (s : JunctionZoneState) : JunctionZoneState := {|
  jz_lastTripwireInboundMs := jz_lastTripwireInboundMs s; jz_lastForkliftInRoiMs := jz_lastForkliftInRoiMs
  s; jz_lastPersonInRoiMs := jz_lastPersonInRoiMs s; jz_bySensor := jz_bySensor s; jz_personInRoi :=
  jz_personInRoi s; jz_forkliftInRoi := jz_forkliftInRoi s; jz_personVacantSinceMs := jz_personVacantSinceMs
  s; jz_forkliftVacantSinceMs := jz_forkliftVacantSinceMs s; jz_lastForkliftRoiEntryMs :=
  jz_lastForkliftRoiEntryMs s; jz_engaged := jz_engaged s; jz_engagingForkliftId := x; jz_forkliftInRoiId :=
  jz_forkliftInRoiId s; jz_personInRoiId := jz_personInRoiId s; jz_forkliftRecord := jz_forkliftRecord s;
  jz_personRecord := jz_personRecord s; jz_reportedPhase := jz_reportedPhase s; jz_phaseEverReported :=
  jz_phaseEverReported s |}.

Definition jset_forkliftInRoiId (x : Z) (s : JunctionZoneState) : JunctionZoneState := {|
  jz_lastTripwireInboundMs := jz_lastTripwireInboundMs s; jz_lastForkliftInRoiMs := jz_lastForkliftInRoiMs
  s; jz_lastPersonInRoiMs := jz_lastPersonInRoiMs s; jz_bySensor := jz_bySensor s; jz_personInRoi :=
  jz_personInRoi s; jz_forkliftInRoi := jz_forkliftInRoi s; jz_personVacantSinceMs := jz_personVacantSinceMs
  s; jz_forkliftVacantSinceMs := jz_forkliftVacantSinceMs s; jz_lastForkliftRoiEntryMs :=
  jz_lastForkliftRoiEntryMs s; jz_engaged := jz_engaged s; jz_engagingForkliftId := jz_engagingForkliftId s;
  jz_forkliftInRoiId := x; jz_personInRoiId := jz_personInRoiId s; jz_forkliftRecord := jz_forkliftRecord s;
  jz_personRecord := jz_personRecord s; jz_reportedPhase := jz_reportedPhase s; jz_phaseEverReported :=
  jz_phaseEverReported s |}.

Definition jset_personInRoiId (x : Z) (s : JunctionZoneState) : JunctionZoneState := {|
  jz_lastTripwireInboundMs := jz_lastTripwireInboundMs s; jz_lastForkliftInRoiMs := jz_lastForkliftInRoiMs
  s; jz_lastPersonInRoiMs := jz_lastPersonInRoiMs s; jz_bySensor := jz_bySensor s; jz_personInRoi :=
  jz_personInRoi s; jz_forkliftInRoi := jz_forkliftInRoi s; jz_personVacantSinceMs := jz_personVacantSinceMs
  s; jz_forkliftVacantSinceMs := jz_forkliftVacantSinceMs s; jz_lastForkliftRoiEntryMs :=
  jz_lastForkliftRoiEntryMs s; jz_engaged := jz_engaged s; jz_engagingForkliftId := jz_engagingForkliftId s;
  jz_forkliftInRoiId := jz_forkliftInRoiId s; jz_personInRoiId := x; jz_forkliftRecord := jz_forkliftRecord
  s; jz_personRecord := jz_personRecord s; jz_reportedPhase := jz_reportedPhase s; jz_phaseEverReported :=
  jz_phaseEverReported s |}.

Definition jset_forkliftRecord (x : ObjectRecord) (s : JunctionZoneState) : JunctionZoneState := {|
  jz_lastTripwireInboundMs := jz_lastTripwireInboundMs s; jz_lastForkliftInRoiMs := jz_lastForkliftInRoiMs
  s; jz_lastPersonInRoiMs := jz_lastPersonInRoiMs s; jz_bySensor := jz_bySensor s; jz_personInRoi :=
  jz_personInRoi s; jz_forkliftInRoi := jz_forkliftInRoi s; jz_personVacantSinceMs := jz_personVacantSinceMs
  s; jz_forkliftVacantSinceMs := jz_forkliftVacantSinceMs s; jz_lastForkliftRoiEntryMs :=
  jz_lastForkliftRoiEntryMs s; jz_engaged := jz_engaged s; jz_engagingForkliftId := jz_engagingForkliftId s;
  jz_forkliftInRoiId := jz_forkliftInRoiId s; jz_personInRoiId := jz_personInRoiId s; jz_forkliftRecord :=
  x; jz_personRecord := jz_personRecord s; jz_reportedPhase := jz_reportedPhase s; jz_phaseEverReported :=
  jz_phaseEverReported s |}.

Definition jset_personRecord (x : ObjectRecord) (s : JunctionZoneState) : JunctionZoneState := {|
  jz_lastTripwireInboundMs := jz_lastTripwireInboundMs s; jz_lastForkliftInRoiMs := jz_lastForkliftInRoiMs
  s; jz_lastPersonInRoiMs := jz_lastPersonInRoiMs s; jz_bySensor := jz_bySensor s; jz_personInRoi :=
  jz_personInRoi s; jz_forkliftInRoi := jz_forkliftInRoi s; jz_personVacantSinceMs := jz_personVacantSinceMs
  s; jz_forkliftVacantSinceMs := jz_forkliftVacantSinceMs s; jz_lastForkliftRoiEntryMs :=
  jz_lastForkliftRoiEntryMs s; jz_engaged := jz_engaged s; jz_engagingForkliftId := jz_engagingForkliftId s;
  jz_forkliftInRoiId := jz_forkliftInRoiId s; jz_personInRoiId := jz_personInRoiId s; jz_forkliftRecord :=
  jz_forkliftRecord s; jz_personRecord := x; jz_reportedPhase := jz_reportedPhase s; jz_phaseEverReported :=
  jz_phaseEverReported s |}.

Definition jset_reportedPhase (x : JunctionPhase) (s : JunctionZoneState) : JunctionZoneState := {|
  jz_lastTripwireInboundMs := jz_lastTripwireInboundMs s; jz_lastForkliftInRoiMs := jz_lastForkliftInRoiMs
  s; jz_lastPersonInRoiMs := jz_lastPersonInRoiMs s; jz_bySensor := jz_bySensor s; jz_personInRoi :=
  jz_personInRoi s; jz_forkliftInRoi := jz_forkliftInRoi s; jz_personVacantSinceMs := jz_personVacantSinceMs
  s; jz_forkliftVacantSinceMs := jz_forkliftVacantSinceMs s; jz_lastForkliftRoiEntryMs :=
  jz_lastForkliftRoiEntryMs s; jz_engaged := jz_engaged s; jz_engagingForkliftId := jz_engagingForkliftId s;
  jz_forkliftInRoiId := jz_forkliftInRoiId s; jz_personInRoiId := jz_personInRoiId s; jz_forkliftRecord :=
  jz_forkliftRecord s; jz_personRecord := jz_personRecord s; jz_reportedPhase := x; jz_phaseEverReported :=
  jz_phaseEverReported s |}.

Definition jset_phaseEverReported (x : bool) (s : JunctionZoneState) : JunctionZoneState := {|
  jz_lastTripwireInboundMs := jz_lastTripwireInboundMs s; jz_lastForkliftInRoiMs := jz_lastForkliftInRoiMs
  s; jz_lastPersonInRoiMs := jz_lastPersonInRoiMs s; jz_bySensor := jz_bySensor s; jz_personInRoi :=
  jz_personInRoi s; jz_forkliftInRoi := jz_forkliftInRoi s; jz_personVacantSinceMs := jz_personVacantSinceMs
  s; jz_forkliftVacantSinceMs := jz_forkliftVacantSinceMs s; jz_lastForkliftRoiEntryMs :=
  jz_lastForkliftRoiEntryMs s; jz_engaged := jz_engaged s; jz_engagingForkliftId := jz_engagingForkliftId s;
  jz_forkliftInRoiId := jz_forkliftInRoiId s; jz_personInRoiId := jz_personInRoiId s; jz_forkliftRecord :=
  jz_forkliftRecord s; jz_personRecord := jz_personRecord s; jz_reportedPhase := jz_reportedPhase s;
  jz_phaseEverReported := x |}.

(** ** Maps keyed by a byte *)

Definition byte_keys : list Z := map Z.of_nat (seq 0 256).

(** The entries in iteration order. *)
Definition ordered {A} (m : gmap Z A) : list (Z * A) := omap (fun k => (fun a => (k, a)) <$> m !! k) byte_keys.

(** ** The state machine *)

Definition junctionSignalFresh (lastMs nowMs windowMs : Z) : bool := negb (lastMs =? 0) && (nowMs - lastMs <=? windowMs).

Record JunctionVerdict := { jv_a1 : bool; jv_a2 : bool; jv_phase : JunctionPhase; jv_command : Z }.

Section Machine.
Context (jc : JunctionConfig).

(** Whether some sensor that is still reporting sees a person, a forklift. *)
Definition rawPerson (nowMs : Z) (st : JunctionZoneState) : bool :=
  existsb (fun kv => sv_personOccupied kv.2 &&
                     junctionSignalFresh (sv_lastPersonReportMs kv.2) nowMs (jc_personRoiHoldMs jc)) (ordered (jz_bySensor st)).
Definition rawForklift (nowMs : Z) (st : JunctionZoneState) : bool :=
  existsb (fun kv => sv_forkliftOccupied kv.2 &&
                     junctionSignalFresh (sv_lastForkliftReportMs kv.2) nowMs (jc_forkliftRoiHoldMs jc)) (ordered (jz_bySensor st)).

Definition update_person (nowMs : Z) (raw : bool) (st : JunctionZoneState) : JunctionZoneState :=
  if raw then jset_personVacantSinceMs 0 (jset_personInRoi true st)
  else
    let st := if jz_personVacantSinceMs st =? 0 then jset_personVacantSinceMs nowMs st else st in
    if jc_clearDebounceMs jc <=? nowMs - jz_personVacantSinceMs st then jset_personInRoi false st else st.

Definition update_forklift (nowMs : Z) (raw : bool) (st : JunctionZoneState) : JunctionZoneState :=
  if raw then
    let st := if negb (jz_forkliftInRoi st) then jset_lastForkliftRoiEntryMs nowMs st else st in
    jset_forkliftVacantSinceMs 0 (jset_forkliftInRoi true st)
  else
    let st := if jz_forkliftVacantSinceMs st =? 0 then jset_forkliftVacantSinceMs nowMs st else st in
    if jc_clearDebounceMs jc <=? nowMs - jz_forkliftVacantSinceMs st then jset_forkliftInRoi false st else st.

Definition updateJunctionLevelsLocked (nowMs : Z) (st : JunctionZoneState) : JunctionZoneState :=
  let person := rawPerson nowMs st in
  let forklift := rawForklift nowMs st in
  update_forklift nowMs forklift (update_person nowMs person st).

Definition junctionVerdictLocked (nowMs : Z) (st : JunctionZoneState) : JunctionVerdict :=
  let crossedInbound := junctionSignalFresh (jz_lastTripwireInboundMs st) nowMs (jc_tripwireEngageWindowMs jc) in
  let entryPulseMs := jc_roiEntryPulseMs jc in
  let recentlyEnteredRoi := (0 <? entryPulseMs) && junctionSignalFresh (jz_lastForkliftRoiEntryMs st) nowMs entryPulseMs in
  let a1 := (jz_engaged st && (crossedInbound || jz_forkliftInRoi st)) || recentlyEnteredRoi in
  let a2 := jz_personInRoi st in
  {| jv_a1 := a1; jv_a2 := a2;
     jv_phase := if a1 && a2 then kAlarm else if a1 then kForkliftInRoi else if a2 then kPersonInRoi else kClear;
     jv_command := if a1 && a2 then CMD_JUNCTION_ALARM else CMD_NORMAL |}.

Definition evaluateJunctionLocked (nowMs : Z) (st : JunctionZoneState) : JunctionVerdict * JunctionZoneState :=
  let st := updateJunctionLevelsLocked nowMs st in
  let v := junctionVerdictLocked nowMs st in
  (v, if negb (jv_a1 v) then jset_engaged false st else st).

(** The state update of [logJunctionPhaseTransitionLocked]. *)
Definition logJunctionPhaseTransitionLocked (v : JunctionVerdict) (st : JunctionZoneState) : JunctionZoneState :=
  if jz_phaseEverReported st && bool_decide (jz_reportedPhase st = jv_phase v) then st
  else jset_phaseEverReported true (jset_reportedPhase (jv_phase v) st).

(** One event on its junction. *)
Definition ingest_zone (event : FusedSafetyEvent) (nowMs : Z) (st : JunctionZoneState) : JunctionZoneState :=
  let meta := ev_fusionMetadata event in
  let objectId := (fm_objectID meta).1 in
  let sensor := fm_pipelineID meta in
  let view := default empty_view (jz_bySensor st !! sensor) in
  let set_view v := jset_bySensor (<[sensor := v]> (jz_bySensor st)) in
  let record := copyObjectRecordFromMetadata meta false in
  let st :=
    if ev_type event =? EVENT_0_FORKLIFT_TRIPWIRE_INBOUND then
      jset_forkliftRecord record (jset_engagingForkliftId objectId (jset_engaged true
        (jset_lastTripwireInboundMs nowMs (set_view view st))))
    else if ev_type event =? EVENT_1_PERSON_IN_JUNCTION_ROI then
      jset_personRecord record (jset_personInRoiId objectId (jset_lastPersonInRoiMs nowMs
        (set_view (report_person true nowMs view) st)))
    else if ev_type event =? EVENT_2_FORKLIFT_IN_JUNCTION_ROI then
      jset_forkliftRecord record (jset_forkliftInRoiId objectId (jset_lastForkliftInRoiMs nowMs
        (set_view (report_forklift true nowMs view) st)))
    else if ev_type event =? EVENT_3_PERSON_VACATED_JUNCTION then set_view (report_person false nowMs view) st
    else if ev_type event =? EVENT_4_FORKLIFT_VACATED_JUNCTION then set_view (report_forklift false nowMs view) st
    else set_view view st in
  updateJunctionLevelsLocked nowMs st.

(** ** All junctions *)

Definition junction_key (event : FusedSafetyEvent) : Z :=
  if jc_perSensorJunctions jc then fm_pipelineID (ev_fusionMetadata event) else kAggregateJunctionKey.

Definition ingestJunctionEvent (event : FusedSafetyEvent) (nowMs : Z) (m : gmap Z JunctionZoneState) : gmap Z JunctionZoneState :=
  let key := junction_key event in
  <[key := ingest_zone event nowMs (default empty_zone (m !! key))]> m.

Definition cjsCommandSeverityRank (command : Z) : Z :=
  if command =? CMD_STOP then 2 else if command =? CMD_JUNCTION_ALARM then 1 else 0.

(** The loop of [resolveJunctionCommand] over the junctions in key order. *)
Fixpoint resolve_zones (nowMs : Z) (l : list (Z * JunctionZoneState)) (worstCmd worstRank : Z)
    (m : gmap Z JunctionZoneState) : Z * gmap Z JunctionZoneState :=
  match l with
  | [] => (worstCmd, m)
  | (key, st) :: l' =>
    let '(v, st) := evaluateJunctionLocked nowMs st in
    let st := logJunctionPhaseTransitionLocked v st in
    let rank := cjsCommandSeverityRank (jv_command v) in
    let m := <[key := st]> m in
    if worstRank <? rank then resolve_zones nowMs l' (jv_command v) rank m
    else resolve_zones nowMs l' worstCmd worstRank m
  end.

Definition resolveJunctionCommand (nowMs : Z) (m : gmap Z JunctionZoneState) : Z * gmap Z JunctionZoneState :=
  resolve_zones nowMs (ordered m) CMD_NORMAL (-1) m.

(** The pair of the first junction in alarm. *)
Definition fillJunctionAlarmObjectRecords (nowMs : Z) (m : gmap Z JunctionZoneState) : option (ObjectRecord * ObjectRecord) :=
  (fun kv => (jz_forkliftRecord kv.2, jz_personRecord kv.2)) <$>
    List.find (fun kv => jv_command (junctionVerdictLocked nowMs kv.2) =? CMD_JUNCTION_ALARM) (ordered m).

(** ** Batches *)

Definition junction_event (et : EventType) : bool :=
  (et =? EVENT_0_FORKLIFT_TRIPWIRE_INBOUND) || (et =? EVENT_1_PERSON_IN_JUNCTION_ROI) ||
  (et =? EVENT_2_FORKLIFT_IN_JUNCTION_ROI) || (et =? EVENT_3_PERSON_VACATED_JUNCTION) ||
  (et =? EVENT_4_FORKLIFT_VACATED_JUNCTION).

(** Whether [computeJunctionCommandFromBatch] folds an entry in. *)
Definition ingestible (sd : SensorData) : bool :=
  let et := ev_type (sd_event sd) in
  if ev_status (sd_event sd) =? STALE then false
  else if (et =? SENSOR_INVALID) || (et =? SENSOR_VALID) then false
  else if (et =? AI_PIPELINE_INVALID) || (et =? AI_PIPELINE_VALID) then false
  else if negb (sd_isHealthy sd) then false
  else if negb (sd_isTrustedSource sd) then false
  else junction_event et.

Definition is_person_entry (sd : SensorData) : bool :=
  ingestible sd && (ev_type (sd_event sd) =? EVENT_1_PERSON_IN_JUNCTION_ROI).

(** Slots satisfying [p]. *)
Definition slots_of (p : SensorData -> bool) (r : DecisionRequest) : list nat :=
  omap (fun x => x) (imap (fun i sd => if p sd then Some i else None) (populated r)).

(** The slot the command is attributed to: the first person, or the last event. *)
Definition attributed_slot (r : DecisionRequest) (cmd : Z) : option nat :=
  let lastSlot := last (slots_of ingestible r) in
  match head (slots_of is_person_entry r) with
  | Some personSlot => if cmd =? CMD_JUNCTION_ALARM then Some personSlot else lastSlot
  | None => lastSlot
  end.
End Machine.

(** ** The instance *)

Record Cjs := { cj_activeCommand : Z; cj_junctions : gmap Z JunctionZoneState }.

Definition cset_active (c : Z) (s : Cjs) : Cjs := {| cj_activeCommand := c; cj_junctions := cj_junctions s |}.
Definition cset_junctions (m : gmap Z JunctionZoneState) (s : Cjs) : Cjs :=
  {| cj_activeCommand := cj_activeCommand s; cj_junctions := m |}.

(** The second half of [computeJunctionCommandFromBatch], after the events are in. *)
Definition junction_verdict (jc : JunctionConfig) (r : DecisionRequest) (now : Z) (s : Cjs) : option (Z * Attach) * Cjs :=
  if negb (existsb ingestible (populated r)) then (None, s)
  else
    let '(cmd, m) := resolveJunctionCommand jc now (cj_junctions s) in
    (Some (cmd, {| at_request := Some r; at_slot := attributed_slot r cmd; at_pair := None |}), cset_junctions m s).

(** The objects of a packet: the pair in alarm, or those of the request. *)
Definition junction_objects (jc : JunctionConfig) (now : Z) (s : Cjs) (command : Z) (a : Attach) : ObjectRecord * ObjectRecord :=
  match (if command =? CMD_JUNCTION_ALARM then fillJunctionAlarmObjectRecords jc now (cj_junctions s) else None) with
  | Some objects => objects
  | None => fillObjectRecords fillPairObjectRecords (at_request a) (at_slot a)
  end.

Definition junction_app (jc : JunctionConfig) : SdmApp Cjs := {|
  app_identifier := CROSSING_JUNCTION_SAFETY_PACKET_IDENTIFIER;
  app_motion := CMD_JUNCTION_ALARM;
  app_initial := {| cj_activeCommand := CMD_NORMAL; cj_junctions := ∅ |};
  app_ackClock := e_wall;
  app_objects := junction_objects jc;
  app_stop := cset_active CMD_STOP;
  app_release := cset_active CMD_NORMAL;
  app_ingest := fun r now =>
    map (fun sd s => cset_junctions (ingestJunctionEvent jc (sd_event sd) now (cj_junctions s)) s)
      (List.filter ingestible (populated r));
  app_under_send := false;
  app_verdict := junction_verdict jc;
  app_commit := cset_active;
  app_periodic := fun _ s => ((cj_activeCommand s, no_attach), s);
  app_tick := Some (fun now s =>
    let '(cmd, m) := resolveJunctionCommand jc now (cj_junctions s) in (cmd, cset_junctions m s));
  app_publish := fun c s => (negb (cj_activeCommand s =? c), cset_active c s);
|}.
