(* ===== verification/JunctionSafety.v ===== *)
(** * The junction alarm is raised at once and released in bounded time

    Theorems about [Junction] over every sequence of ingested events and
    evaluations, so over every interleaving of the event path with the evaluation
    tick (each is one critical section of [g_junctionMtx]). *)

From S2P Require Import Prelude Protocol Crc Validate SdmRequestState GatewayContract SdmSequence Threads PlcPacket SdmCore Junction.

(** ** Steps on the junctions *)

Inductive JStep := JIngest (event : FusedSafetyEvent) (now : Z) | JResolve (now : Z).

Definition js_time (x : JStep) : Z := match x with JIngest _ now | JResolve now => now end.

Definition js_event (x : JStep) (et : EventType) : bool :=
  match x with JIngest ev _ => ev_type ev =? et | JResolve _ => false end.

Definition jstep (jc : JunctionConfig) (x : JStep) (m : gmap Z JunctionZoneState) : gmap Z JunctionZoneState :=
  match x with
  | JIngest ev now => ingestJunctionEvent jc ev now m
  | JResolve now => (resolveJunctionCommand jc now m).2
  end.

Definition jrun (jc : JunctionConfig) (l : list JStep) (m : gmap Z JunctionZoneState) : gmap Z JunctionZoneState :=
  fold_left (fun m x => jstep jc x m) l m.

Lemma jrun_split jc l1 x l2 m : jrun jc (l1 ++ x :: l2) m = jrun jc l2 (jstep jc x (jrun jc l1 m)).
Proof. unfold jrun. by rewrite fold_left_app. Qed.

(** ** Maps in key order *)

Lemma byte_keys_spec k : k ∈ byte_keys <-> 0 <= k < 256.
Proof.
  unfold byte_keys. rewrite list_elem_of_fmap. split.
  - intros (n & -> & Hn). apply elem_of_seq in Hn. lia.
  - intros Hk. exists (Z.to_nat k). split; [lia|]. apply elem_of_seq. lia.
Qed.

Lemma byte_keys_NoDup : NoDup byte_keys.
Proof. unfold byte_keys. apply NoDup_fmap_2; [intros ? ? ?; lia|apply NoDup_seq]. Qed.

#[local] Opaque byte_keys.

Lemma ordered_spec {A} (m : gmap Z A) k a : (k, a) ∈ ordered m <-> 0 <= k < 256 /\ m !! k = Some a.
Proof.
  unfold ordered. rewrite list_elem_of_omap. split.
  - intros (k' & Hk & He). apply fmap_Some in He as (a' & Ha & [= -> ->]). by apply byte_keys_spec in Hk.
  - intros [Hk Ha]. exists k. rewrite byte_keys_spec, Ha. done.
Qed.

Lemma ordered_NoDup {A} (m : gmap Z A) : NoDup (ordered m).*1.
Proof.
  assert (Hsub : forall ks, NoDup ks -> NoDup (omap (fun k => (fun a : A => (k, a)) <$> m !! k) ks).*1 /\
    forall k, k ∈ (omap (fun k => (fun a : A => (k, a)) <$> m !! k) ks).*1 -> k ∈ ks).
  { intros ks. induction 1 as [|k ks Hk Hks [IH1 IH2]]; [simpl; split; [constructor|done]|].
    simpl. destruct (m !! k) as [a|]; simpl; split.
    - constructor; [|done]. intros Hin. by apply Hk, IH2.
    - intros k' Hin. apply elem_of_cons in Hin as [->|Hin]; [left|right; auto].
    - done.
    - intros k' Hin. right. auto. }
  apply Hsub, byte_keys_NoDup.
Qed.

(** What a launched process knows of its tunables. *)
Lemma configured_bounds a jc : configure_junctions a = Some jc ->
  100 <= jc_tripwireEngageWindowMs jc /\ 100 <= jc_personRoiHoldMs jc /\ 100 <= jc_clearDebounceMs jc /\
  jl_junctionEvalPeriodMs a <= jc_clearDebounceMs jc /\ jc_perSensorJunctions jc = jl_perSensorJunctions a.
Proof.
  unfold configure_junctions, hold_out_of_range, kJunctionHoldMsMin. intros H.
  repeat (match type of H with (if ?b then _ else _) = _ => destruct b eqn:?; [done|] end).
  injection H as <-. simpl. rewrite !orb_false_iff, !Z.ltb_ge in *. split_and!; try done; lia.
Qed.

Section Alarm.
Context (jc : JunctionConfig).

(** ** The verdict over all junctions *)

Definition in_alarm (now : Z) (st : JunctionZoneState) : bool :=
  jv_command (evaluateJunctionLocked jc now st).1 =? CMD_JUNCTION_ALARM.

(** What an evaluation leaves of a junction. *)
Definition evaluated (now : Z) (st : JunctionZoneState) : JunctionZoneState :=
  let '(v, st) := evaluateJunctionLocked jc now st in logJunctionPhaseTransitionLocked v st.

Lemma verdict_command now st : jv_command (junctionVerdictLocked jc now st) = CMD_JUNCTION_ALARM \/
  jv_command (junctionVerdictLocked jc now st) = CMD_NORMAL.
Proof. unfold junctionVerdictLocked. simpl. destruct (_ && jz_personInRoi st); auto. Qed.

Lemma resolve_zones_spec now l cmd rank m :
  NoDup l.*1 -> (forall k st, (k, st) ∈ l -> m !! k = Some st) ->
  (cmd = CMD_NORMAL /\ rank <= 0 \/ cmd = CMD_JUNCTION_ALARM /\ rank = 1) ->
  (resolve_zones jc now l cmd rank m).1 =
    (if (cmd =? CMD_JUNCTION_ALARM) || existsb (fun kv => in_alarm now kv.2) l then CMD_JUNCTION_ALARM else CMD_NORMAL) /\
  forall k, (resolve_zones jc now l cmd rank m).2 !! k =
    (if bool_decide (k ∈ l.*1) then evaluated now <$> m !! k else m !! k).
Proof.
  revert cmd rank m. induction l as [|[key st] l IH]; intros cmd rank m Hnd Hm Hc.
  { simpl. split; [by destruct Hc as [[-> _]|[-> _]]|done]. }
  cbn [resolve_zones existsb fmap list_fmap fst snd]. inversion Hnd as [|? ? Hk Hnd']; subst.
  unfold evaluated at 1, in_alarm at 1. destruct (evaluateJunctionLocked jc now st) as [v st'] eqn:Ev. cbn [fst].
  assert (Hv : jv_command v = CMD_JUNCTION_ALARM \/ jv_command v = CMD_NORMAL).
  { unfold evaluateJunctionLocked in Ev. injection Ev as <- _. apply verdict_command. }
  set (m' := <[key := logJunctionPhaseTransitionLocked v st']> m).
  assert (Hm' : forall k x, (k, x) ∈ l -> m' !! k = Some x).
  { intros k x Hin. unfold m'. rewrite lookup_insert_ne; [apply Hm; by right|].
    intros <-. apply Hk. change key with (key, x).1. by apply list_elem_of_fmap_2. }
  assert (Hlook : forall k, (if bool_decide (k ∈ l.*1) then evaluated now <$> m' !! k else m' !! k) =
    (if bool_decide (k ∈ key :: l.*1) then evaluated now <$> m !! k else m !! k)).
  { intros k. destruct (decide (k = key)) as [->|Hne].
    - rewrite bool_decide_eq_false_2 by done. rewrite bool_decide_eq_true_2 by (by left).
      unfold m'. rewrite lookup_insert_eq, (Hm key st) by (by left). simpl. unfold evaluated. by rewrite Ev.
    - unfold m'. rewrite lookup_insert_ne by done.
      erewrite bool_decide_ext; [done|]. rewrite elem_of_cons. naive_solver. }
  destruct Hv as [Hv|Hv]; rewrite Hv.
  - change (cjsCommandSeverityRank CMD_JUNCTION_ALARM) with 1. change (CMD_JUNCTION_ALARM =? CMD_JUNCTION_ALARM) with true.
    rewrite orb_true_l, orb_true_r. destruct (Z.ltb_spec rank 1).
    + destruct (IH CMD_JUNCTION_ALARM 1 m' Hnd' Hm' (or_intror (conj eq_refl eq_refl))) as [H1 H2].
      split; [by rewrite H1|]. intros k. by rewrite H2.
    + destruct Hc as [[_ ?]|[-> ->]]; [lia|].
      destruct (IH CMD_JUNCTION_ALARM 1 m' Hnd' Hm' (or_intror (conj eq_refl eq_refl))) as [H1 H2].
      split; [by rewrite H1|]. intros k. by rewrite H2.
  - change (cjsCommandSeverityRank CMD_NORMAL) with 0. change (CMD_NORMAL =? CMD_JUNCTION_ALARM) with false.
    rewrite orb_false_l. destruct (Z.ltb_spec rank 0).
    + destruct Hc as [[-> _]|[-> ->]]; [|lia].
      destruct (IH CMD_NORMAL 0 m' Hnd' Hm') as [H1 H2]; [left; lia|]. split; [by rewrite H1|]. intros k. by rewrite H2.
    + destruct (IH cmd rank m' Hnd' Hm' Hc) as [H1 H2]. split; [by rewrite H1|]. intros k. by rewrite H2.
Qed.

(** The verdict is the alarm exactly when some junction is in alarm, and every
    junction is evaluated. *)
Lemma resolve_spec now m :
  (resolveJunctionCommand jc now m).1 =
    (if existsb (fun kv => in_alarm now kv.2) (ordered m) then CMD_JUNCTION_ALARM else CMD_NORMAL) /\
  forall k, 0 <= k < 256 -> (resolveJunctionCommand jc now m).2 !! k = evaluated now <$> m !! k.
Proof.
  destruct (resolve_zones_spec now (ordered m) CMD_NORMAL (-1) m) as [H1 H2].
  - apply ordered_NoDup.
  - intros k st Hin. by apply (ordered_spec m k st) in Hin as [_ ?].
  - left. split; [done|lia].
  - split; [exact H1|]. intros k Hk. unfold resolveJunctionCommand. rewrite H2.
    destruct (m !! k) as [st|] eqn:Hm; [|by destruct (bool_decide _)]. rewrite bool_decide_eq_true_2; [done|].
    change k with (k, st).1. apply list_elem_of_fmap_2, ordered_spec. done.
Qed.

(** ** One junction *)

(** The debounced person level after an update. *)
Definition person_level (now : Z) (raw lvl : bool) (vacantSince : Z) : bool * Z :=
  if raw then (true, 0)
  else let since := if vacantSince =? 0 then now else vacantSince in
       (if jc_clearDebounceMs jc <=? now - since then false else lvl, since).

Lemma update_fields now st :
  let st' := updateJunctionLevelsLocked jc now st in
  jz_bySensor st' = jz_bySensor st /\ jz_engaged st' = jz_engaged st /\
  jz_lastTripwireInboundMs st' = jz_lastTripwireInboundMs st /\
  (jz_personInRoi st', jz_personVacantSinceMs st') =
    person_level now (rawPerson jc now st) (jz_personInRoi st) (jz_personVacantSinceMs st).
Proof.
  unfold updateJunctionLevelsLocked, update_forklift, update_person, person_level. cbv zeta.
  destruct (rawPerson jc now st), (rawForklift jc now st); simpl;
    repeat (match goal with |- context [if ?b then _ else _] => destruct b eqn:?; simpl in * end); split_and!; done.
Qed.

Lemma evaluated_fields now st :
  let st1 := updateJunctionLevelsLocked jc now st in
  let st' := evaluated now st in
  jz_bySensor st' = jz_bySensor st /\ jz_lastTripwireInboundMs st' = jz_lastTripwireInboundMs st /\
  jz_personInRoi st' = jz_personInRoi st1 /\ jz_personVacantSinceMs st' = jz_personVacantSinceMs st1 /\
  jz_engaged st' = (if jv_a1 (junctionVerdictLocked jc now st1) then jz_engaged st else false).
Proof.
  cbv zeta. pose proof (update_fields now st) as (H1 & H2 & H3 & _). cbv zeta in *.
  unfold evaluated, evaluateJunctionLocked. set (st1 := updateJunctionLevelsLocked jc now st) in *.
  unfold logJunctionPhaseTransitionLocked.
  destruct (jv_a1 (junctionVerdictLocked jc now st1)) eqn:Ha; cbn [negb]; destruct (_ && bool_decide _); simpl; auto.
Qed.

(** The view an ingested event leaves for its sensor. *)
Lemma ingest_fields ev now st :
  let st' := ingest_zone jc ev now st in
  let sensor := fm_pipelineID (ev_fusionMetadata ev) in
  let view := default empty_view (jz_bySensor st !! sensor) in
  exists st0, st' = updateJunctionLevelsLocked jc now st0 /\
    jz_personInRoi st0 = jz_personInRoi st /\ jz_personVacantSinceMs st0 = jz_personVacantSinceMs st /\
    (exists v, jz_bySensor st0 = <[sensor := v]> (jz_bySensor st) /\
       (ev_type ev = EVENT_1_PERSON_IN_JUNCTION_ROI -> v = report_person true now view) /\
       (ev_type ev <> EVENT_1_PERSON_IN_JUNCTION_ROI -> sv_personOccupied v = true ->
          sv_personOccupied view = true /\ sv_lastPersonReportMs v = sv_lastPersonReportMs view)) /\
    (if ev_type ev =? EVENT_0_FORKLIFT_TRIPWIRE_INBOUND then jz_engaged st0 = true /\ jz_lastTripwireInboundMs st0 = now
     else jz_engaged st0 = jz_engaged st /\ jz_lastTripwireInboundMs st0 = jz_lastTripwireInboundMs st).
Proof.
  cbv zeta. unfold ingest_zone. cbv zeta.
  destruct (ev_type ev =? EVENT_0_FORKLIFT_TRIPWIRE_INBOUND) eqn:E0;
    [|destruct (ev_type ev =? EVENT_1_PERSON_IN_JUNCTION_ROI) eqn:E1;
      [|destruct (ev_type ev =? EVENT_2_FORKLIFT_IN_JUNCTION_ROI) eqn:E2;
        [|destruct (ev_type ev =? EVENT_3_PERSON_VACATED_JUNCTION) eqn:E3;
          [|destruct (ev_type ev =? EVENT_4_FORKLIFT_VACATED_JUNCTION) eqn:E4]]]];
    eexists; (split; [reflexivity|]); simpl; split_and!; try done;
    eexists; (split; [reflexivity|]); (split; [intros He; rewrite He in *; try done|intros He Ho; try done]);
    try (split; done); by apply Z.eqb_eq in E1.
Qed.

Lemma raw_person_spec now st : rawPerson jc now st = true <->
  exists k v, 0 <= k < 256 /\ jz_bySensor st !! k = Some v /\ sv_personOccupied v = true /\
    sv_lastPersonReportMs v <> 0 /\ now - sv_lastPersonReportMs v <= jc_personRoiHoldMs jc.
Proof.
  unfold rawPerson, junctionSignalFresh. rewrite existsb_exists. split.
  - intros ([k v] & Hin & Hb). apply list_elem_of_In, ordered_spec in Hin as [Hk Hv].
    simpl in Hb. rewrite !andb_true_iff, negb_true_iff, Z.eqb_neq, Z.leb_le in Hb. naive_solver.
  - intros (k & v & Hk & Hv & Ho & Hn & Hh). exists (k, v). split; [by apply list_elem_of_In, ordered_spec|].
    simpl. by rewrite Ho, (proj2 (Z.eqb_neq _ _) Hn), (proj2 (Z.leb_le _ _) Hh).
Qed.

(** ** Raising *)

Section Raise.
Context (T0 T1 : Z).
Hypothesis (Hpos : 0 < T0) (Hdeb : T1 - T0 < jc_clearDebounceMs jc)
  (Hwin : T1 - T0 <= jc_tripwireEngageWindowMs jc) (Hhold : 0 <= jc_personRoiHoldMs jc).

Definition within (now : Z) : Prop := T0 <= now <= T1.

(** The engagement of a crossing, a person level, that began in the window. *)
Definition armed (st : JunctionZoneState) : Prop := jz_engaged st = true /\ within (jz_lastTripwireInboundMs st).
Definition present (st : JunctionZoneState) : Prop :=
  jz_personInRoi st = true /\ (jz_personVacantSinceMs st = 0 \/ T0 <= jz_personVacantSinceMs st).

Lemma level_present now raw lvl since : within now -> lvl = true -> since = 0 \/ T0 <= since ->
  (person_level now raw lvl since).1 = true /\
  ((person_level now raw lvl since).2 = 0 \/ T0 <= (person_level now raw lvl since).2).
Proof.
  intros Hn -> Hs. unfold within in Hn. unfold person_level. destruct raw; simpl; [auto|].
  destruct (Z.eqb_spec since 0); simpl; rewrite (proj2 (Z.leb_gt _ _)) by lia; split; auto; lia.
Qed.

Lemma present_update now st : within now -> present st -> present (updateJunctionLevelsLocked jc now st).
Proof.
  intros Hn [Hp Hs]. pose proof (update_fields now st) as (_ & _ & _ & He). cbv zeta in He.
  pose proof (level_present now (rawPerson jc now st) (jz_personInRoi st) (jz_personVacantSinceMs st) Hn Hp Hs) as [H1 H2].
  rewrite <- He in H1, H2. done.
Qed.

Lemma present_raised now st : rawPerson jc now st = true -> present (updateJunctionLevelsLocked jc now st).
Proof.
  intros Hr. pose proof (update_fields now st) as (_ & _ & _ & He). cbv zeta in He. rewrite Hr in He. simpl in He.
  injection He as H1 H2. unfold present. rewrite H1, H2. split; [done|by left].
Qed.

Lemma armed_a1 now st : within now -> armed st -> jv_a1 (junctionVerdictLocked jc now st) = true.
Proof.
  intros Hn [He Ht]. unfold within in *. unfold junctionVerdictLocked. simpl. rewrite He. unfold junctionSignalFresh.
  rewrite (proj2 (Z.eqb_neq (jz_lastTripwireInboundMs st) 0)) by lia. rewrite (proj2 (Z.leb_le _ _)) by lia. done.
Qed.

Lemma armed_update now st : armed st -> armed (updateJunctionLevelsLocked jc now st).
Proof.
  intros [He Ht]. pose proof (update_fields now st) as (_ & H1 & H2 & _). cbv zeta in *.
  unfold armed. rewrite H1, H2. done.
Qed.

Lemma armed_evaluated now st : within now -> armed st -> armed (evaluated now st).
Proof.
  intros Hn Ha. pose proof (evaluated_fields now st) as (_ & H1 & _ & _ & H2). cbv zeta in *.
  unfold armed. rewrite H1, H2, (armed_a1 now _ Hn (armed_update now st Ha)). exact Ha.
Qed.

Lemma present_evaluated now st : within now -> present st -> present (evaluated now st).
Proof.
  intros Hn Hp. pose proof (evaluated_fields now st) as (_ & _ & H1 & H2 & _). cbv zeta in *.
  unfold present. rewrite H1, H2. by apply present_update.
Qed.

Lemma armed_ingest ev now st : within now -> armed st \/ ev_type ev = EVENT_0_FORKLIFT_TRIPWIRE_INBOUND ->
  armed (ingest_zone jc ev now st).
Proof.
  intros Hn Ha. pose proof (ingest_fields ev now st) as (st0 & -> & _ & _ & _ & Hf). apply armed_update.
  unfold armed. destruct (Z.eqb_spec (ev_type ev) EVENT_0_FORKLIFT_TRIPWIRE_INBOUND); destruct Hf as [-> ->]; [done|].
  by destruct Ha.
Qed.

Lemma present_ingest ev now st : within now ->
  present st \/ (ev_type ev = EVENT_1_PERSON_IN_JUNCTION_ROI /\ is_u8 (fm_pipelineID (ev_fusionMetadata ev))) ->
  present (ingest_zone jc ev now st).
Proof.
  intros Hn Hp. pose proof (ingest_fields ev now st) as (st0 & -> & H1 & H2 & (v & Hv & Hv1 & _) & _).
  destruct Hp as [[Hp Hs]|[He Hk]].
  - apply present_update; [done|]. unfold present. by rewrite H1, H2.
  - apply present_raised, raw_person_spec. exists (fm_pipelineID (ev_fusionMetadata ev)), v.
    rewrite Hv, lookup_insert_eq, (Hv1 He). unfold within in Hn. unfold is_u8 in Hk. simpl. split_and!; try done; lia.
Qed.

(** The pooled junction satisfies [Phi]. *)
Definition pooled (Phi : JunctionZoneState -> Prop) (m : gmap Z JunctionZoneState) : Prop :=
  exists st, m !! kAggregateJunctionKey = Some st /\ Phi st.

Hypothesis (Hpool : jc_perSensorJunctions jc = false).

Lemma pooled_step Phi x m : within (js_time x) ->
  (forall st now, within now -> Phi st -> Phi (evaluated now st)) ->
  (forall st ev now, within now -> Phi st -> Phi (ingest_zone jc ev now st)) ->
  pooled Phi m -> pooled Phi (jstep jc x m).
Proof.
  intros Hn He Hi (st & Hst & HP). destruct x as [ev now|now]; simpl in *.
  - unfold ingestJunctionEvent, junction_key. rewrite Hpool. exists (ingest_zone jc ev now st).
    rewrite lookup_insert_eq, Hst. simpl. split; [done|]. by apply Hi.
  - exists (evaluated now st). destruct (resolve_spec now m) as [_ Hm].
    rewrite Hm, Hst by (unfold kAggregateJunctionKey; lia). split; [done|]. by apply He.
Qed.

Lemma pooled_run Phi l m : Forall (fun x => within (js_time x)) l ->
  (forall st now, within now -> Phi st -> Phi (evaluated now st)) ->
  (forall st ev now, within now -> Phi st -> Phi (ingest_zone jc ev now st)) ->
  pooled Phi m -> pooled Phi (jrun jc l m).
Proof.
  intros Hl He Hi. revert m. induction Hl as [|x l Hx _ IH]; intros m Hm; [done|]. simpl. apply IH. by apply pooled_step.
Qed.

(** An ingested event that establishes [Phi] does so for the rest of the window. *)
Lemma pooled_after Phi ev now l m : JIngest ev now ∈ l -> Forall (fun x => within (js_time x)) l ->
  (forall st now, within now -> Phi st -> Phi (evaluated now st)) ->
  (forall st ev now, within now -> Phi st -> Phi (ingest_zone jc ev now st)) ->
  (forall st, Phi (ingest_zone jc ev now st)) -> pooled Phi (jrun jc l m).
Proof.
  intros Hin Hl He Hi Hev. apply list_elem_of_split in Hin as (l1 & l2 & ->). rewrite jrun_split.
  apply Forall_app in Hl as [_ Hl]. inversion Hl as [|? ? _ Hl2]; subst. apply (pooled_run Phi l2); [done..|].
  unfold jstep, ingestJunctionEvent, junction_key. rewrite Hpool. eexists. rewrite lookup_insert_eq. split; [reflexivity|]. apply Hev.
Qed.
End Raise.

Lemma alarm_raised T0 T1 l m crossing t1 person t2 now :
  0 < T0 -> T1 - T0 < jc_clearDebounceMs jc -> T1 - T0 <= jc_tripwireEngageWindowMs jc -> 0 <= jc_personRoiHoldMs jc ->
  jc_perSensorJunctions jc = false ->
  Forall (fun x => T0 <= js_time x <= T1) l -> T0 <= now <= T1 ->
  JIngest crossing t1 ∈ l -> ev_type crossing = EVENT_0_FORKLIFT_TRIPWIRE_INBOUND ->
  JIngest person t2 ∈ l -> ev_type person = EVENT_1_PERSON_IN_JUNCTION_ROI -> is_u8 (fm_pipelineID (ev_fusionMetadata person)) ->
  (resolveJunctionCommand jc now (jrun jc l m)).1 = CMD_JUNCTION_ALARM.
Proof.
  intros Hpos Hdeb Hwin Hhold Hpool Hl Hnow Hc Hct Hp Hpt Hk.
  assert (Ht : forall ev t, JIngest ev t ∈ l -> T0 <= t <= T1).
  { intros ev t Hin. rewrite Forall_forall in Hl. by apply (Hl _ Hin). }
  assert (pooled (armed T0 T1) (jrun jc l m)) as (st & Hst & Ha).
  { apply (pooled_after T0 T1 Hpool _ crossing t1); [done|done|..].
    - intros. by apply armed_evaluated.
    - intros st ev t ? ?. apply armed_ingest; [done|by left].
    - intros st. apply armed_ingest; [by apply (Ht crossing)|by right]. }
  assert (pooled (present T0) (jrun jc l m)) as (st' & Hst' & Hb).
  { apply (pooled_after T0 T1 Hpool _ person t2); [done|done|..].
    - intros. by apply (present_evaluated T0 T1).
    - intros st' ev t ? ?. apply (present_ingest T0 T1); [done..|by left].
    - intros st'. apply (present_ingest T0 T1); [done..|by apply (Ht person)|by right]. }
  assert (st' = st) as -> by congruence.
  destruct (resolve_spec now (jrun jc l m)) as [-> _].
  assert (existsb (fun kv => in_alarm now kv.2) (ordered (jrun jc l m)) = true) as ->; [|done].
  apply existsb_exists. exists (kAggregateJunctionKey, st).
  split; [apply list_elem_of_In, ordered_spec; split; [unfold kAggregateJunctionKey; lia|done]|].
  unfold in_alarm, evaluateJunctionLocked. simpl.
  pose proof (armed_a1 T0 T1 Hpos Hwin now _ Hnow (armed_update T0 T1 now st Ha)) as H1.
  destruct (present_update T0 T1 Hpos Hdeb now st Hnow Hb) as [H2 _]. simpl in H1. rewrite H1, H2. done.
Qed.

(** ** Releasing *)

Section Release.
Context (T : Z).

(** No sensor has reported a person after [T]. *)
Definition quiet_views (st : JunctionZoneState) : Prop :=
  forall k v, jz_bySensor st !! k = Some v -> sv_personOccupied v = true -> sv_lastPersonReportMs v <= T.

(** Before the evaluation at [since]; from then on. *)
Definition settling (since : Z) (st : JunctionZoneState) : Prop :=
  quiet_views st /\ 0 <= jz_personVacantSinceMs st <= since.
Definition vacating (since : Z) (st : JunctionZoneState) : Prop :=
  quiet_views st /\ (jz_personInRoi st = false \/ 0 < jz_personVacantSinceMs st <= since).

Lemma quiet_raw now st : quiet_views st -> T + jc_personRoiHoldMs jc < now -> rawPerson jc now st = false.
Proof.
  intros Hq Hn. destruct (rawPerson jc now st) eqn:E; [|done]. exfalso.
  apply raw_person_spec in E as (k & v & _ & Hv & Ho & _ & Hh). specialize (Hq k v Hv Ho). lia.
Qed.

Lemma quiet_ingest ev now st : ev_type ev <> EVENT_1_PERSON_IN_JUNCTION_ROI \/ now <= T ->
  quiet_views st -> quiet_views (ingest_zone jc ev now st).
Proof.
  intros Hev Hq. pose proof (ingest_fields ev now st) as (st0 & -> & _ & _ & (v & Hv & Hv1 & Hv2) & _).
  pose proof (update_fields now st0) as (Hb & _). cbv zeta in Hb. unfold quiet_views. rewrite Hb, Hv.
  intros k w Hw Ho. destruct (decide (k = fm_pipelineID (ev_fusionMetadata ev))) as [->|Hne].
  - rewrite lookup_insert_eq in Hw. injection Hw as <-.
    destruct (decide (ev_type ev = EVENT_1_PERSON_IN_JUNCTION_ROI)) as [He|He].
    + rewrite (Hv1 He). simpl. by destruct Hev.
    + destruct (Hv2 He Ho) as [Hocc ->]. destruct (jz_bySensor st !! fm_pipelineID (ev_fusionMetadata ev)) as [u|] eqn:Hu; [|done].
      by apply (Hq _ u Hu).
  - rewrite lookup_insert_ne in Hw by done. by apply (Hq k w).
Qed.

Lemma quiet_evaluated now st : quiet_views st -> quiet_views (evaluated now st).
Proof. intros Hq. pose proof (evaluated_fields now st) as (H & _). cbv zeta in H. unfold quiet_views. by rewrite H. Qed.

Lemma quiet_empty : quiet_views empty_zone.
Proof. intros k v Hv. simpl in Hv. by rewrite lookup_empty in Hv. Qed.

Lemma settling_level since now raw lvl vs : 0 < now <= since -> 0 <= vs <= since ->
  0 <= (person_level now raw lvl vs).2 <= since.
Proof. intros Hn Hv. unfold person_level. destruct raw; simpl; [lia|]. destruct (vs =? 0); lia. Qed.

Lemma vacating_level since now lvl vs : lvl = false \/ 0 < vs <= since ->
  (person_level now false lvl vs).1 = false \/ 0 < (person_level now false lvl vs).2 <= since.
Proof.
  intros [->|Hv]; unfold person_level; simpl; [left; by destruct (_ <=? _)|].
  destruct (Z.eqb_spec vs 0); [lia|by right].
Qed.

Lemma settling_update since now st : 0 < now <= since -> settling since st -> settling since (updateJunctionLevelsLocked jc now st).
Proof.
  intros Hn [Hq Hv]. pose proof (update_fields now st) as (H1 & _ & _ & He). cbv zeta in *.
  split; [unfold quiet_views; by rewrite H1|].
  pose proof (settling_level since now (rawPerson jc now st) (jz_personInRoi st) _ Hn Hv) as H. by rewrite <- He in H.
Qed.

Lemma vacating_update since now st : T + jc_personRoiHoldMs jc < now -> vacating since st ->
  vacating since (updateJunctionLevelsLocked jc now st).
Proof.
  intros Hn [Hq Hv]. pose proof (update_fields now st) as (H1 & _ & _ & He). cbv zeta in *.
  split; [unfold quiet_views; by rewrite H1|].
  pose proof (vacating_level since now _ _ Hv) as H. rewrite (quiet_raw now st Hq Hn) in He. rewrite <- He in H. exact H.
Qed.

(** The first evaluation that sees nobody starts the release. *)
Lemma vacating_starts since st : 0 < since -> T + jc_personRoiHoldMs jc < since -> settling since st ->
  vacating since (updateJunctionLevelsLocked jc since st).
Proof.
  intros Hp Hn [Hq Hv]. pose proof (update_fields since st) as (H1 & _ & _ & He). cbv zeta in *.
  split; [unfold quiet_views; by rewrite H1|]. right. rewrite (quiet_raw since st Hq Hn) in He. simpl in He.
  injection He as _ ->. destruct (Z.eqb_spec (jz_personVacantSinceMs st) 0); lia.
Qed.

Lemma quiet_evaluate now (Q : Z -> bool -> Prop) st :
  let st1 := updateJunctionLevelsLocked jc now st in
  quiet_views st1 /\ Q (jz_personVacantSinceMs st1) (jz_personInRoi st1) ->
  quiet_views (evaluated now st) /\ Q (jz_personVacantSinceMs (evaluated now st)) (jz_personInRoi (evaluated now st)).
Proof.
  cbv zeta. intros [Hq HQ]. pose proof (evaluated_fields now st) as (H1 & _ & H2 & H3 & _). cbv zeta in *.
  rewrite H2, H3. split; [|done]. pose proof (update_fields now st) as (H4 & _). cbv zeta in H4.
  unfold quiet_views in *. by rewrite H1, <- H4.
Qed.

Lemma settling_ingest since ev now st : 0 < now <= since -> ev_type ev <> EVENT_1_PERSON_IN_JUNCTION_ROI \/ now <= T ->
  settling since st -> settling since (ingest_zone jc ev now st).
Proof.
  intros Hn Hev [Hq Hv]. split; [by apply quiet_ingest|].
  pose proof (ingest_fields ev now st) as (st0 & -> & _ & H2 & _).
  pose proof (update_fields now st0) as (_ & _ & _ & He). cbv zeta in He. rewrite H2 in He.
  pose proof (settling_level since now (rawPerson jc now st0) (jz_personInRoi st0) _ Hn Hv) as H. by rewrite <- He in H.
Qed.

Lemma vacating_ingest since ev now st : T + jc_personRoiHoldMs jc < now ->
  ev_type ev <> EVENT_1_PERSON_IN_JUNCTION_ROI \/ now <= T ->
  vacating since st -> vacating since (ingest_zone jc ev now st).
Proof.
  intros Hn Hev [Hq Hv]. assert (Hq' := quiet_ingest ev now st Hev Hq). split; [done|].
  pose proof (ingest_fields ev now st) as (st0 & E & H1 & H2 & _). rewrite E in Hq' |- *.
  pose proof (update_fields now st0) as (H3 & _ & _ & He). cbv zeta in *. rewrite H1, H2 in He.
  pose proof (vacating_level since now _ _ Hv) as H.
  rewrite (quiet_raw now st0) in He; [by rewrite <- He in H| |done]. unfold quiet_views in Hq' |- *. by rewrite H3 in Hq'.
Qed.

(** ** Over all junctions *)

Definition zones (Phi : JunctionZoneState -> Prop) (m : gmap Z JunctionZoneState) : Prop :=
  forall k st, 0 <= k < 256 -> m !! k = Some st -> Phi st.

Lemma zones_resolve (Phi Psi : JunctionZoneState -> Prop) now m :
  (forall st, Phi st -> Psi (evaluated now st)) -> zones Phi m -> zones Psi (resolveJunctionCommand jc now m).2.
Proof.
  intros He Hm k st' Hk Hs. destruct (resolve_spec now m) as [_ Hr]. rewrite (Hr k Hk) in Hs.
  apply fmap_Some in Hs as (st & Hst & ->). apply He. by apply (Hm k).
Qed.

Lemma zones_ingest (Phi : JunctionZoneState -> Prop) ev now m : Phi empty_zone ->
  (forall st, Phi st -> Phi (ingest_zone jc ev now st)) -> zones Phi m -> zones Phi (ingestJunctionEvent jc ev now m).
Proof.
  intros H0 Hi Hm k st Hk Hs. unfold ingestJunctionEvent in Hs. cbv zeta in Hs.
  destruct (decide (k = junction_key jc ev)) as [->|Hne].
  - rewrite lookup_insert_eq in Hs. injection Hs as <-. apply Hi.
    destruct (m !! junction_key jc ev) as [st|] eqn:E; [by apply (Hm _ st Hk E)|done].
  - rewrite lookup_insert_ne in Hs by done. by apply (Hm k).
Qed.

(** The reports of persons are not newer than [T]. *)
Definition last_person_by (x : JStep) : Prop := js_event x EVENT_1_PERSON_IN_JUNCTION_ROI = true -> js_time x <= T.

Lemma last_person_ingest ev now : last_person_by (JIngest ev now) -> ev_type ev <> EVENT_1_PERSON_IN_JUNCTION_ROI \/ now <= T.
Proof. unfold last_person_by. simpl. rewrite Z.eqb_eq. intros H. destruct (decide (ev_type ev = EVENT_1_PERSON_IN_JUNCTION_ROI)); auto. Qed.

Lemma zones_run (Phi : JunctionZoneState -> Prop) (ok : JStep -> Prop) l m : Phi empty_zone -> Forall ok l ->
  (forall ev now st, ok (JIngest ev now) -> Phi st -> Phi (ingest_zone jc ev now st)) ->
  (forall now st, ok (JResolve now) -> Phi st -> Phi (evaluated now st)) ->
  zones Phi m -> zones Phi (jrun jc l m).
Proof.
  intros H0 Hl Hi He. revert m. induction Hl as [|x l Hx _ IH]; intros m Hm; [exact Hm|].
  change (jrun jc (x :: l) m) with (jrun jc l (jstep jc x m)). apply IH. destruct x as [ev now|now]; unfold jstep.
  - apply zones_ingest; [exact H0| |exact Hm]. intros st. by apply Hi.
  - apply (zones_resolve Phi); [|exact Hm]. intros st. by apply He.
Qed.

Lemma settling_run since l m : 0 <= since -> Forall (fun x => 0 < js_time x <= since /\ last_person_by x) l ->
  zones (settling since) m -> zones (settling since) (jrun jc l m).
Proof.
  intros Hs Hl. apply (zones_run _ _ _ _ (conj quiet_empty (conj (Z.le_refl 0) Hs)) Hl).
  - intros ev now st [Ht Hp]. by apply settling_ingest, last_person_ingest.
  - intros now st [Ht _] Hst. apply (quiet_evaluate now (fun vs _ => 0 <= vs <= since)). by apply settling_update.
Qed.

Lemma vacating_run since l m :
  Forall (fun x => T + jc_personRoiHoldMs jc < js_time x /\ last_person_by x) l ->
  zones (vacating since) m -> zones (vacating since) (jrun jc l m).
Proof.
  intros Hl. apply (zones_run _ _ _ _ (conj quiet_empty (or_introl eq_refl)) Hl).
  - intros ev now st [Ht Hp]. by apply vacating_ingest, last_person_ingest.
  - intros now st [Ht _] Hst. apply (quiet_evaluate now (fun vs lvl => lvl = false \/ 0 < vs <= since)). by apply vacating_update.
Qed.

(** Once the vacancy is as long as the debounce, no junction is in alarm. *)
Lemma vacated_normal since now m : zones (vacating since) m -> T + jc_personRoiHoldMs jc < now ->
  since + jc_clearDebounceMs jc <= now -> (resolveJunctionCommand jc now m).1 = CMD_NORMAL.
Proof.
  intros Hm Hn Hs. destruct (resolve_spec now m) as [-> _].
  destruct (existsb _ _) eqn:E; [|done]. exfalso. apply existsb_exists in E as ([k st] & Hin & Ha).
  apply list_elem_of_In, (ordered_spec m k st) in Hin as [Hk Hst]. destruct (Hm k st Hk Hst) as [Hq Hv]. simpl in Ha.
  unfold in_alarm, evaluateJunctionLocked in Ha. simpl in Ha.
  pose proof (update_fields now st) as (_ & _ & _ & He). cbv zeta in He. rewrite (quiet_raw now st Hq Hn) in He. simpl in He.
  assert (jz_personInRoi (updateJunctionLevelsLocked jc now st) = false) as Hp; [|rewrite Hp, andb_false_r in Ha; done].
  injection He as -> _. destruct Hv as [->|Hv]; [by destruct (_ <=? _)|].
  destruct (Z.eqb_spec (jz_personVacantSinceMs st) 0); [lia|]. by rewrite (proj2 (Z.leb_le _ _)) by lia.
Qed.
End Release.

Lemma alarm_released T before tau after now :
  Forall (fun x => 0 < js_time x <= tau) before -> Forall (fun x => tau <= js_time x) after ->
  Forall (last_person_by T) (before ++ after) ->
  0 < tau -> T + jc_personRoiHoldMs jc < tau -> 0 <= jc_clearDebounceMs jc -> tau + jc_clearDebounceMs jc <= now ->
  (resolveJunctionCommand jc now (jrun jc (before ++ JResolve tau :: after) ∅)).1 = CMD_NORMAL.
Proof.
  intros Hb Ha Hp Htau Hhold Hdeb Hnow. apply Forall_app in Hp as [Hpb Hpa].
  rewrite jrun_split. apply (vacated_normal T tau); [|lia..].
  apply (vacating_run T tau after).
  { apply Forall_and. split; [|done]. apply (Forall_impl _ _ _ Ha). lia. }
  unfold jstep at 1. apply (zones_resolve (settling T tau)).
  - intros st Hst. apply (quiet_evaluate T tau (fun vs lvl => lvl = false \/ 0 < vs <= tau)). by apply vacating_starts.
  - apply (settling_run T tau before); [lia|by apply Forall_and|]. intros k st _ Hk. by rewrite lookup_empty in Hk.
Qed.
End Alarm.

(** ** The launched process *)


(** C26. The siren is released in bounded time, also when the vacated report is
    lost: if no sensor has reported a person after [T], then from the first
    evaluation at [tau] past the person hold time every verdict at least the
    release debounce later is [NORMAL], whatever events of whatever sensors and
    evaluations of the tick thread happened before and since; per-sensor and
    pooled junctions alike. *)
Theorem alarm_released_in_bounded_time a jc T before tau after now :
  configure_junctions a = Some jc ->
  Forall (fun x => 0 < js_time x <= tau) before -> Forall (fun x => tau <= js_time x) after ->
  Forall (last_person_by T) (before ++ after) ->
  0 < tau -> T + jc_personRoiHoldMs jc < tau -> tau + jc_clearDebounceMs jc <= now ->
  (resolveJunctionCommand jc now (jrun jc (before ++ JResolve tau :: after) ∅)).1 = CMD_NORMAL.
Proof.
  intros Hc. apply configured_bounds in Hc as (_ & _ & Hd & _ & _).
  intros. apply (alarm_released jc T before tau after now); done || lia.
Qed.

(** ** Instances of the theorems *)

Definition junction_report (et : EventType) (sensor : Z) : FusedSafetyEvent := {|
  ev_id := 0; ev_sensorIdentifier := replicate MAX_INDENTIFIER_LENGTH 0;
  ev_type := et; ev_cause := 0; ev_severity := 0; ev_timestamp := 0; ev_confidenceLevel := 0; ev_status := 0;
  ev_fusionMetadata := {|
    fm_coordinates := replicate MAX_TRAJECTORY_COORDINATES zero_coordinates;
    fm_pipelineID := sensor; fm_clientID := 0; fm_objectType := (0, 0); fm_speed := 0; fm_objectID := (0, 0) |} |}.

(** The crossing is seen by sensor 1, the person by sensor 2, sensor 3 reports the
    junction vacated, and a tick falls between them. *)
Definition sample_steps : list JStep :=
  [JIngest (junction_report EVENT_0_FORKLIFT_TRIPWIRE_INBOUND 1) 1000; JResolve 1010;
   JIngest (junction_report EVENT_1_PERSON_IN_JUNCTION_ROI 2) 1020;
   JIngest (junction_report EVENT_3_PERSON_VACATED_JUNCTION 3) 1030].

Definition default_junctions : JunctionConfig := {|
  jc_tripwireEngageWindowMs := 5000; jc_roiEntryPulseMs := 5000; jc_personRoiHoldMs := 1500; jc_forkliftRoiHoldMs := 2000;
  jc_clearDebounceMs := 500; jc_perSensorJunctions := false |}.


(** The person's sensor falls silent after 1020, and the forklift stays. *)
Definition late_steps : list JStep :=
  [JIngest (junction_report EVENT_2_FORKLIFT_IN_JUNCTION_ROI 1) 2600; JResolve 2700; JIngest (junction_report EVENT_2_FORKLIFT_IN_JUNCTION_ROI 1) 3000].

Lemma alarm_released_in_bounded_time_witness :
  (resolveJunctionCommand default_junctions 3021 (jrun default_junctions (sample_steps ++ JResolve 2521 :: late_steps) ∅)).1 = CMD_NORMAL.
Proof.
  apply (alarm_released_in_bounded_time default_launch default_junctions 1020 sample_steps 2521 late_steps 3021);
    try reflexivity; try (simpl; lia).
  - unfold sample_steps. repeat constructor; simpl; lia.
  - unfold late_steps. repeat constructor; simpl; lia.
  - unfold sample_steps, late_steps. repeat constructor; unfold last_person_by; simpl; intros; lia.
Defined.
