(* ===== verification/PairFusion.v ===== *)
(** * Forklift-to-person pair fusion

    [atl_proximity_pair_fusion.h]: the table of tracked pairs, newest observation
    within a pair, worst case across the live pairs.  An array of entries is a
    list of 128; a loop over it is a fixpoint that carries the loop's locals. *)

From S2P Require Import Prelude Protocol Crc Validate.

(** ** Data *)

Definition EVENT_8 : EventType := 8.
Definition EVENT_9 : EventType := 9.
Definition EVENT_10 : EventType := 10.

Definition ATLPXC_EVENT_NO_VIOLATION : EventType := EVENT_8.
Definition ATLPXC_EVENT_VIOLATION_WARNING : EventType := EVENT_9.
Definition ATLPXC_EVENT_VIOLATION_CRITICAL : EventType := EVENT_10.

(** [AtlPxcSeverityTier], ordered by severity. *)
Definition ATLPXC_TIER_NONE : Z := 0.
Definition ATLPXC_TIER_NORMAL : Z := 1.
Definition ATLPXC_TIER_WARNING : Z := 2.
Definition ATLPXC_TIER_CRITICAL : Z := 3.

Inductive AtlPxcPairRole := ATLPXC_ROLE_UNRESOLVED | ATLPXC_ROLE_RESOLVED.

#[export] Instance AtlPxcPairRole_eq_dec : EqDecision AtlPxcPairRole.
Proof. solve_decision. Defined.

#[export] Instance AtlPxcPairRole_countable : Countable AtlPxcPairRole.
Proof.
  refine (inj_countable' (fun r => match r with ATLPXC_ROLE_UNRESOLVED => false | ATLPXC_ROLE_RESOLVED => true end)
    (fun b : bool => if b then ATLPXC_ROLE_RESOLVED else ATLPXC_ROLE_UNRESOLVED) _). by intros [].
Defined.

Definition ATLPXC_MAX_TRACKED_PAIRS : nat := 128.
Definition ATLPXC_PAIR_TTL_MS_DEFAULT : Z := 2000.
Definition ATLPXC_PAIR_TTL_MS_MIN : Z := 200.
Definition ATLPXC_PAIR_TTL_MS_MAX : Z := 60000.

Record AtlPxcPairObjects := {
  po_forkliftObjectID : Z;
  po_personObjectID : Z;
  po_forkliftObjectType : ObjectType;
  po_personObjectType : ObjectType;
  po_forkliftX : f32;
  po_forkliftY : f32;
  po_personX : f32;
  po_personY : f32;
  po_pipelineID : Z;
  po_role : AtlPxcPairRole;
}.

Definition zero_pair : AtlPxcPairObjects := {|
  po_forkliftObjectID := 0; po_personObjectID := 0; po_forkliftObjectType := 0; po_personObjectType := 0;
  po_forkliftX := 0; po_forkliftY := 0; po_personX := 0; po_personY := 0; po_pipelineID := 0;
  po_role := ATLPXC_ROLE_UNRESOLVED |}.

Record AtlPxcPairEntry := {
  pe_inUse : bool;
  pe_tier : Z;
  pe_lastSeenMs : Z;
  pe_objects : AtlPxcPairObjects;
}.

Definition zero_entry : AtlPxcPairEntry :=
  {| pe_inUse := false; pe_tier := ATLPXC_TIER_NONE; pe_lastSeenMs := 0; pe_objects := zero_pair |}.

Definition set_unused (e : AtlPxcPairEntry) : AtlPxcPairEntry :=
  {| pe_inUse := false; pe_tier := pe_tier e; pe_lastSeenMs := pe_lastSeenMs e; pe_objects := pe_objects e |}.

Record AtlPxcPairTable := {
  pt_entries : list AtlPxcPairEntry;
  pt_ttlMs : Z;
  pt_unresolvedRoleObservations : Z;
  pt_capacityRejectedObservations : Z;
  pt_evictedEntries : Z;
  pt_expiredEntries : Z;
}.

Record AtlPxcAggregate := {
  ag_tier : Z;
  ag_objects : AtlPxcPairObjects;
  ag_livePairs : Z;
  ag_haveObjects : bool;
}.

(** ** Initialisation *)

Definition zeroed_table (ttlMs : Z) : AtlPxcPairTable := {|
  pt_entries := replicate ATLPXC_MAX_TRACKED_PAIRS zero_entry; pt_ttlMs := ttlMs;
  pt_unresolvedRoleObservations := 0; pt_capacityRejectedObservations := 0; pt_evictedEntries := 0; pt_expiredEntries := 0 |}.

Definition AtlPxcPairFusionInit (ttlMs : Z) : AtlPxcPairTable :=
  zeroed_table (if ttlMs <? ATLPXC_PAIR_TTL_MS_MIN then ATLPXC_PAIR_TTL_MS_MIN
                else if ATLPXC_PAIR_TTL_MS_MAX <? ttlMs then ATLPXC_PAIR_TTL_MS_MAX else ttlMs).

Definition AtlPxcPairFusionReset (table : AtlPxcPairTable) : AtlPxcPairTable := zeroed_table (pt_ttlMs table).

Definition AtlPxcTierFromEventType (type : EventType) : Z :=
  if type =? ATLPXC_EVENT_VIOLATION_CRITICAL then ATLPXC_TIER_CRITICAL
  else if type =? ATLPXC_EVENT_VIOLATION_WARNING then ATLPXC_TIER_WARNING
  else if type =? ATLPXC_EVENT_NO_VIOLATION then ATLPXC_TIER_NORMAL
  else ATLPXC_TIER_NONE.

(** ** Roles *)

(** The pair with the endpoint of slot [forklift] first. *)
Definition endpoints (meta : EventFusionMetadata) (forklift : bool) (role : AtlPxcPairRole) : AtlPxcPairObjects :=
  let slot {A} (p : A * A) (i : bool) := if i then p.2 else p.1 in
  let coordinate i := nth (if i : bool then 1 else 0)%nat (fm_coordinates meta) zero_coordinates in
  {| po_forkliftObjectID := slot (fm_objectID meta) forklift; po_personObjectID := slot (fm_objectID meta) (negb forklift);
     po_forkliftObjectType := slot (fm_objectType meta) forklift;
     po_personObjectType := slot (fm_objectType meta) (negb forklift);
     po_forkliftX := tc_x (coordinate forklift); po_forkliftY := tc_y (coordinate forklift);
     po_personX := tc_x (coordinate (negb forklift)); po_personY := tc_y (coordinate (negb forklift));
     po_pipelineID := fm_pipelineID meta; po_role := role |}.

Definition AtlPxcResolvePairRoles (meta : EventFusionMetadata) : bool * AtlPxcPairObjects :=
  let slot0IsPerson := (fm_objectType meta).1 =? PERSON in
  let slot1IsPerson := (fm_objectType meta).2 =? PERSON in
  if negb (eqb slot0IsPerson slot1IsPerson) then (true, endpoints meta slot0IsPerson ATLPXC_ROLE_RESOLVED)
  else (false, endpoints meta (negb ((fm_objectID meta).1 <=? (fm_objectID meta).2)) ATLPXC_ROLE_UNRESOLVED).

Definition AtlPxcSamePair (a b : AtlPxcPairObjects) : bool :=
  (po_forkliftObjectID a =? po_forkliftObjectID b) && (po_personObjectID a =? po_personObjectID b) &&
  bool_decide (po_role a = po_role b).

Definition AtlPxcEntryExpired (e : AtlPxcPairEntry) (nowMs ttlMs : Z) : bool :=
  if nowMs <=? pe_lastSeenMs e then false else ttlMs <? nowMs - pe_lastSeenMs e.

(** ** Observation *)

(** The locals of the scan: the first free slot, the eviction candidate, and the
    entries expired on the way. *)
Record Scan := {
  sc_free : option nat;
  sc_weakest : option nat;
  sc_weakestTier : Z;
  sc_weakestSeenMs : Z;
  sc_expired : Z;
}.

Definition scan_start : Scan := {|
  sc_free := None; sc_weakest := None; sc_weakestTier := ATLPXC_TIER_CRITICAL; sc_weakestSeenMs := UINT64_MAX; sc_expired := 0 |}.

Definition note_free (i : nat) (expired : Z) (sc : Scan) : Scan := {|
  sc_free := match sc_free sc with None => Some i | Some f => Some f end; sc_weakest := sc_weakest sc;
  sc_weakestTier := sc_weakestTier sc; sc_weakestSeenMs := sc_weakestSeenMs sc; sc_expired := sc_expired sc + expired |}.

Definition note_weakest (i : nat) (e : AtlPxcPairEntry) (sc : Scan) : Scan :=
  if (pe_tier e <? sc_weakestTier sc) || ((pe_tier e =? sc_weakestTier sc) && (pe_lastSeenMs e <? sc_weakestSeenMs sc)) then
    {| sc_free := sc_free sc; sc_weakest := Some i; sc_weakestTier := pe_tier e; sc_weakestSeenMs := pe_lastSeenMs e;
       sc_expired := sc_expired sc |}
  else sc.

Section Observe.
Context (objects : AtlPxcPairObjects) (tier nowMs ttlMs : Z).

Definition observation : AtlPxcPairEntry :=
  {| pe_inUse := true; pe_tier := tier; pe_lastSeenMs := nowMs; pe_objects := objects |}.

(** The loop from slot [i]: whether the pair was found and overwritten, the locals
    and the entries. *)
Fixpoint scan (i : nat) (sc : Scan) (entries : list AtlPxcPairEntry) : bool * Scan * list AtlPxcPairEntry :=
  match entries with
  | [] => (false, sc, [])
  | e :: rest =>
    if negb (pe_inUse e) then
      let '(found, sc, rest) := scan (S i) (note_free i 0 sc) rest in (found, sc, e :: rest)
    else if AtlPxcEntryExpired e nowMs ttlMs then
      let '(found, sc, rest) := scan (S i) (note_free i 1 sc) rest in (found, sc, set_unused e :: rest)
    else if AtlPxcSamePair (pe_objects e) objects then (true, sc, observation :: rest)
    else let '(found, sc, rest) := scan (S i) (note_weakest i e sc) rest in (found, sc, e :: rest)
  end.
End Observe.

Definition AtlPxcPairFusionObserve (table : AtlPxcPairTable) (objects : AtlPxcPairObjects) (tier nowMs : Z)
    : bool * AtlPxcPairTable :=
  if tier =? ATLPXC_TIER_NONE then (false, table)
  else
    let unresolved := if decide (po_role objects = ATLPXC_ROLE_UNRESOLVED) then u32 (pt_unresolvedRoleObservations table + 1)
                      else pt_unresolvedRoleObservations table in
    let '(found, sc, entries) := scan objects tier nowMs (pt_ttlMs table) 0 scan_start (pt_entries table) in
    let with_entries entries rejected evicted := {|
      pt_entries := entries; pt_ttlMs := pt_ttlMs table; pt_unresolvedRoleObservations := unresolved;
      pt_capacityRejectedObservations := rejected; pt_evictedEntries := evicted;
      pt_expiredEntries := u32 (pt_expiredEntries table + sc_expired sc) |} in
    let entry := observation objects tier nowMs in
    let rejected := pt_capacityRejectedObservations table in
    let evicted := pt_evictedEntries table in
    if found then (true, with_entries entries rejected evicted)
    else
      match sc_free sc, sc_weakest sc with
      | Some slot, _ => (true, with_entries (<[slot := entry]> entries) rejected evicted)
      | None, Some slot =>
        if sc_weakestTier sc <? tier then (true, with_entries (<[slot := entry]> entries) rejected (u32 (evicted + 1)))
        else (false, with_entries entries (u32 (rejected + 1)) evicted)
      | None, None => (false, with_entries entries (u32 (rejected + 1)) evicted)
      end.

(** ** Aggregation *)

(** The best entry so far, or the entry of this slot. *)
Definition prefer (best : option AtlPxcPairEntry) (e : AtlPxcPairEntry) : AtlPxcPairEntry :=
  match best with
  | None => e
  | Some b =>
    if (pe_tier b <? pe_tier e) || ((pe_tier e =? pe_tier b) && (pe_lastSeenMs b <? pe_lastSeenMs e)) then e else b
  end.

(** The loop: the best entry, the live and the expired ones counted, the entries. *)
Fixpoint aggregate_scan (nowMs ttlMs : Z) (best : option AtlPxcPairEntry) (live expired : Z) (entries : list AtlPxcPairEntry)
    : option AtlPxcPairEntry * Z * Z * list AtlPxcPairEntry :=
  match entries with
  | [] => (best, live, expired, [])
  | e :: rest =>
    if negb (pe_inUse e) then
      let '(b, l, x, rest) := aggregate_scan nowMs ttlMs best live expired rest in (b, l, x, e :: rest)
    else if AtlPxcEntryExpired e nowMs ttlMs then
      let '(b, l, x, rest) := aggregate_scan nowMs ttlMs best live (expired + 1) rest in (b, l, x, set_unused e :: rest)
    else
      let '(b, l, x, rest) := aggregate_scan nowMs ttlMs (Some (prefer best e)) (live + 1) expired rest in (b, l, x, e :: rest)
  end.

Definition AtlPxcPairFusionAggregate (table : AtlPxcPairTable) (nowMs : Z) : AtlPxcAggregate * AtlPxcPairTable :=
  let '(best, live, expired, entries) := aggregate_scan nowMs (pt_ttlMs table) None 0 0 (pt_entries table) in
  (match best with
   | Some e => {| ag_tier := pe_tier e; ag_objects := pe_objects e; ag_livePairs := live; ag_haveObjects := true |}
   | None => {| ag_tier := ATLPXC_TIER_NONE; ag_objects := zero_pair; ag_livePairs := live; ag_haveObjects := false |}
   end,
   {| pt_entries := entries; pt_ttlMs := pt_ttlMs table;
      pt_unresolvedRoleObservations := pt_unresolvedRoleObservations table;
      pt_capacityRejectedObservations := pt_capacityRejectedObservations table; pt_evictedEntries := pt_evictedEntries table;
      pt_expiredEntries := u32 (pt_expiredEntries table + expired) |}).
