(* ===== verification/PairFusionSafety.v ===== *)
(** * The pair table computes the worst case of the newest observations

    The bounded table of [PairFusion] implements an unbounded map from pairs to
    their newest observation as long as at most 128 pairs are live; whatever the
    load, an observation counts for the verdict of its own moment. *)

From S2P Require Import Prelude Protocol Crc Validate PairFusion.
From Stdlib Require Import Sorting.Sorted.

(** ** The specification *)

Definition Key : Type := Z * Z * AtlPxcPairRole.

Definition pair_key (o : AtlPxcPairObjects) : Key := (po_forkliftObjectID o, po_personObjectID o, po_role o).
Definition entry_key (e : AtlPxcPairEntry) : Key := pair_key (pe_objects e).

Definition live (now ttl : Z) (e : AtlPxcPairEntry) : bool := negb (AtlPxcEntryExpired e now ttl).

(** The live observations of a map of pairs, and the most severe of them. *)
Definition live_tiers (now ttl : Z) (m : gmap Key AtlPxcPairEntry) : list Z :=
  pe_tier <$> List.filter (live now ttl) (map_to_list m).*2.
Definition worst (now ttl : Z) (m : gmap Key AtlPxcPairEntry) : Z := foldr Z.max ATLPXC_TIER_NONE (live_tiers now ttl m).

(** Whether the pair [k] has room beside the other live pairs. *)
Definition room (now ttl : Z) (k : Key) (m : gmap Key AtlPxcPairEntry) : Prop :=
  (size (filter (fun ke : Key * AtlPxcPairEntry => live now ttl ke.2 = true /\ ke.1 <> k) m) < ATLPXC_MAX_TRACKED_PAIRS)%nat.

#[export] Instance room_dec now ttl k m : Decision (room now ttl k m).
Proof. unfold room. apply _. Defined.

(** ** Keys, liveness *)

Lemma same_pair_spec a b : AtlPxcSamePair a b = true <-> pair_key a = pair_key b.
Proof.
  unfold AtlPxcSamePair, pair_key. rewrite !andb_true_iff, !Z.eqb_eq, bool_decide_eq_true. split; [intros [[-> ->] ->]|intros [= -> -> ->]]; done.
Qed.

Lemma expired_mono e now now' ttl : now <= now' -> AtlPxcEntryExpired e now ttl = true -> AtlPxcEntryExpired e now' ttl = true.
Proof.
  unfold AtlPxcEntryExpired. intros Hle. destruct (Z.leb_spec now (pe_lastSeenMs e)); [done|].
  rewrite Z.ltb_lt. intros H'. destruct (Z.leb_spec now' (pe_lastSeenMs e)); [lia|]. apply Z.ltb_lt. lia.
Qed.

Lemma live_mono e now now' ttl : now <= now' -> live now' ttl e = true -> live now ttl e = true.
Proof.
  unfold live. intros Hle. rewrite !negb_true_iff. intros H. destruct (AtlPxcEntryExpired e now ttl) eqn:E; [|done].
  by rewrite (expired_mono e now now' ttl Hle E) in H.
Qed.

Lemma live_now o tier now ttl : live now ttl (observation o tier now) = true.
Proof. unfold live, AtlPxcEntryExpired. simpl. by rewrite Z.leb_refl. Qed.

(** ** The table as a map *)

Definition active (e : AtlPxcPairEntry) : Prop := pe_inUse e = true.

#[export] Instance active_dec e : Decision (active e).
Proof. unfold active. apply _. Defined.

(** [l] holds exactly the pairs of [m] that are live at [now], each once. *)
Record tracks (now ttl : Z) (l : list AtlPxcPairEntry) (m : gmap Key AtlPxcPairEntry) : Prop := {
  tr_keys : NoDup (entry_key <$> filter active l);
  tr_sound : forall e, e ∈ l -> active e -> m !! entry_key e = Some e;
  tr_complete : forall k e, m !! k = Some e -> live now ttl e = true -> e ∈ l /\ active e /\ entry_key e = k;
}.

Lemma tracks_later now now' ttl l m : now <= now' -> tracks now ttl l m -> tracks now' ttl l m.
Proof. intros Hle [H1 H2 H3]. split; [done..|]. intros k e Hm Hl. apply H3; [done|]. by apply (live_mono e now now'). Qed.

Lemma tracks_empty now ttl : tracks now ttl (replicate ATLPXC_MAX_TRACKED_PAIRS zero_entry) ∅.
Proof.
  split.
  - apply NoDup_nil_2.
  - intros e He Ha. apply elem_of_replicate in He as [-> _]. done.
  - intros k e Hm. by rewrite lookup_empty in Hm.
Qed.

(** Entries that expire leave the table. *)
Definition purge (now ttl : Z) (e : AtlPxcPairEntry) : AtlPxcPairEntry :=
  if pe_inUse e && AtlPxcEntryExpired e now ttl then set_unused e else e.

Lemma purge_active now ttl e : active (purge now ttl e) <-> active e /\ live now ttl e = true.
Proof. unfold purge, active, live. destruct (pe_inUse e) eqn:?, (AtlPxcEntryExpired e now ttl); simpl; naive_solver. Qed.

Lemma purge_id now ttl e : active (purge now ttl e) -> purge now ttl e = e.
Proof. rewrite purge_active. unfold purge, live. intros [-> Hl]. simpl. by apply negb_true_iff in Hl as ->. Qed.

Lemma purged_elem now ttl (l : list AtlPxcPairEntry) e : e ∈ purge now ttl <$> l -> active e -> e ∈ l /\ live now ttl e = true.
Proof.
  intros He Ha. apply list_elem_of_fmap in He as (e' & -> & He'). rewrite (purge_id _ _ _ Ha).
  split; [done|]. by apply purge_active in Ha as [_ ?].
Qed.

Lemma purged_filter now ttl (l : list AtlPxcPairEntry) :
  filter active (purge now ttl <$> l) = filter (fun e => live now ttl e = true) (filter active l).
Proof.
  induction l as [|e l IH]; [done|]. rewrite fmap_cons. destruct (decide (active (purge now ttl e))) as [Ha|Ha].
  - rewrite filter_cons_True by done. rewrite (purge_id _ _ _ Ha). apply purge_active in Ha as [Ha Hl].
    rewrite (filter_cons_True _ _ _ Ha), filter_cons_True by done. by rewrite IH.
  - rewrite filter_cons_False by done. rewrite purge_active in Ha. destruct (decide (active e)).
    + rewrite (filter_cons_True active) by done. rewrite filter_cons_False by naive_solver. done.
    + by rewrite (filter_cons_False active) by done.
Qed.

(** A prefix of the table purged. *)
Lemma tracks_purge_prefix now ttl l1 l2 m : tracks now ttl (l1 ++ l2) m -> tracks now ttl ((purge now ttl <$> l1) ++ l2) m.
Proof.
  intros [H1 H2 H3]. split.
  - refine (sublist_NoDup _ _ H1 _). apply fmap_sublist. rewrite !filter_app, purged_filter.
    apply sublist_app; [apply sublist_filter|done].
  - intros e He Ha. apply H2; [|done]. rewrite elem_of_app in *. destruct He as [He|He]; [left|by right].
    by apply (purged_elem now ttl).
  - intros k e Hm Hl. destruct (H3 k e Hm Hl) as (He & Ha & Hk). split_and!; [|done..].
    rewrite elem_of_app in *. destruct He as [He|He]; [left|by right].
    rewrite <- (purge_id now ttl e) by (by apply purge_active). by apply list_elem_of_fmap_2.
Qed.

Lemma tracks_purge now ttl l m : tracks now ttl l m -> tracks now ttl (purge now ttl <$> l) m.
Proof. intros H. rewrite <- (app_nil_r (_ <$> l)). apply tracks_purge_prefix. by rewrite app_nil_r. Qed.

(** One slot takes the newest observation of a pair no other slot holds. *)
Lemma tracks_observed now ttl o tier l1 e0 l2 m :
  let e := observation o tier now in
  tracks now ttl (l1 ++ e0 :: l2) m -> (active e0 -> entry_key e0 = pair_key o) ->
  (forall x, x ∈ l1 ++ l2 -> active x -> entry_key x <> pair_key o) ->
  tracks now ttl (l1 ++ e :: l2) (<[pair_key o := e]> m).
Proof.
  intros e [H1 H2 H3] H0 Hother.
  assert (Hout : forall x, x ∈ l1 ++ l2 -> x ∈ l1 ++ e0 :: l2) by (intros x; rewrite !elem_of_app, elem_of_cons; naive_solver).
  split.
  - rewrite filter_app, fmap_app, (filter_cons_True active) by done. rewrite fmap_cons.
    rewrite filter_app, fmap_app in H1.
    assert (Hnd : NoDup ((entry_key <$> filter active l1) ++ (entry_key <$> filter active l2))).
    { refine (sublist_NoDup _ _ H1 _). apply sublist_app; [done|]. apply fmap_sublist.
      destruct (decide (active e0)); [rewrite filter_cons_True by done; by apply sublist_cons|by rewrite filter_cons_False]. }
    rewrite NoDup_app in Hnd |- *. destruct Hnd as (Hn1 & Hn2 & Hn3). 
    assert (Hk : forall l : list AtlPxcPairEntry, (forall x, x ∈ l -> active x -> entry_key x <> pair_key o) -> pair_key o ∉ entry_key <$> filter active l).
    { intros l Hl Hin. apply list_elem_of_fmap in Hin as (x & Hx & Hin). apply list_elem_of_filter in Hin as [Ha Hin].
      by apply (Hl x Hin Ha). }
    split_and!; [done| |].
    + intros k Hk1 Hk2. apply elem_of_cons in Hk2 as [->|Hk2]; [|by apply (Hn2 k)].
      apply (Hk l1); [|done]. intros x Hx. apply Hother, elem_of_app. by left.
    + constructor; [|done]. apply Hk. intros x Hx. apply Hother, elem_of_app. by right.
  - intros x Hx Ha. rewrite elem_of_app, elem_of_cons in Hx. assert (x = e \/ x ∈ l1 ++ l2) as [->|Hin] by (rewrite elem_of_app; naive_solver).
    { by rewrite lookup_insert_eq. }
    rewrite lookup_insert_ne; [by apply H2; [apply Hout|]|]. intros Heq. by apply (Hother x Hin Ha).
  - intros k x Hm Hl. destruct (decide (k = pair_key o)) as [->|Hne].
    + rewrite lookup_insert_eq in Hm. injection Hm as <-. split_and!; [|done..]. rewrite elem_of_app, elem_of_cons. auto.
    + rewrite lookup_insert_ne in Hm by done. destruct (H3 k x Hm Hl) as (Hx & Ha & Hk). split_and!; [|done..].
      rewrite elem_of_app, elem_of_cons in *. destruct Hx as [?|[->|?]]; [by left| |by right; right].
      rewrite H0 in Hk by done. congruence.
Qed.

(** ** The scan *)

Section Scan.
Context (o : AtlPxcPairObjects) (tier now ttl : Z).

(** A live entry of another pair. *)
Definition other (e : AtlPxcPairEntry) : Prop := active e -> live now ttl e = true -> entry_key e <> pair_key o.

(** What the locals know of the slots scanned so far, [l]. *)
Record scanned (sc : Scan) (l : list AtlPxcPairEntry) : Prop := {
  sd_free : forall slot, sc_free sc = Some slot -> exists e, (purge now ttl <$> l) !! slot = Some e /\ ~ active e;
  sd_full : sc_free sc = None -> Forall (fun e => active e /\ live now ttl e = true) l;
  sd_weakest : forall slot, sc_weakest sc = Some slot -> exists e, l !! slot = Some e /\ pe_tier e = sc_weakestTier sc;
  sd_tier : Forall (fun e => active e -> live now ttl e = true -> sc_weakestTier sc <= pe_tier e) l;
  sd_none : sc_weakest sc = None -> sc_weakestTier sc = ATLPXC_TIER_CRITICAL;
}.

Lemma scanned_start : scanned scan_start [].
Proof. by split. Qed.

Lemma lookup_snoc_old {A} (l : list A) x i y : l !! i = Some y -> (l ++ [x]) !! i = Some y.
Proof. intros H. by apply lookup_app_l_Some. Qed.

Lemma scanned_free sc l e n : scanned sc l -> ~ (active e /\ live now ttl e = true) -> scanned (note_free (length l) n sc) (l ++ [e]).
Proof.
  intros [H1 H2 H3 H4 H5] Hd. split; simpl.
  - intros slot Hs. rewrite fmap_app. destruct (sc_free sc) as [f|].
    + destruct (H1 f eq_refl) as (x & Hx & Ha). injection Hs as <-. exists x. split; [by apply lookup_snoc_old|done].
    + injection Hs as <-. exists (purge now ttl e). split; [|by rewrite purge_active].
      by rewrite lookup_app_r, length_fmap, Nat.sub_diag by (by rewrite length_fmap).
  - by destruct (sc_free sc).
  - intros slot Hs. destruct (H3 slot Hs) as (x & Hx & Hxt). exists x. split; [by apply lookup_snoc_old|done].
  - apply Forall_app. split; [done|]. constructor; [|constructor]. intros Ha Hl. by destruct Hd.
  - done.
Qed.

Lemma scanned_live sc l e : scanned sc l -> active e -> live now ttl e = true -> scanned (note_weakest (length l) e sc) (l ++ [e]).
Proof.
  intros [H1 H2 H3 H4 H5] Ha Hl.
  assert (Hf : sc_free (note_weakest (length l) e sc) = sc_free sc) by (unfold note_weakest; by destruct (_ || _)).
  assert (Hw : sc_weakestTier (note_weakest (length l) e sc) <= sc_weakestTier sc /\
               sc_weakestTier (note_weakest (length l) e sc) <= pe_tier e).
  { unfold note_weakest. destruct (Z.ltb_spec (pe_tier e) (sc_weakestTier sc)); simpl; [lia|].
    destruct (Z.eqb_spec (pe_tier e) (sc_weakestTier sc)); simpl; [destruct (_ <? _); simpl; lia|lia]. }
  split.
  - rewrite Hf. intros slot Hs. destruct (H1 slot Hs) as (x & Hx & Hn). exists x. rewrite fmap_app. split; [by apply lookup_snoc_old|done].
  - rewrite Hf. intros Hs. apply Forall_app. split; [auto|]. by constructor.
  - intros slot. unfold note_weakest. destruct (_ || _); simpl.
    + intros [= <-]. exists e. by rewrite lookup_app_r, Nat.sub_diag.
    + intros Hs. destruct (H3 slot Hs) as (x & Hx & Hxt). exists x. split; [by apply lookup_snoc_old|done].
  - apply Forall_app. split; [|constructor; [lia|constructor]]. eapply Forall_impl; [exact H4|]. simpl. intros x Hx Hax Hlx.
    specialize (Hx Hax Hlx). lia.
  - unfold note_weakest. by destruct (_ || _).
Qed.

(** The scan from the slots [done] on: it stops at the pair, or sees all slots. *)
Lemma pair_scan_spec rest seen sc :
  scanned sc seen -> Forall other seen ->
  match scan o tier now ttl (length seen) sc rest with
  | (true, _, out) => exists r1 e r2, rest = r1 ++ e :: r2 /\ out = (purge now ttl <$> r1) ++ observation o tier now :: r2 /\
      active e /\ entry_key e = pair_key o /\ Forall other (seen ++ r1)
  | (false, sc', out) => out = purge now ttl <$> rest /\ scanned sc' (seen ++ rest) /\ Forall other (seen ++ rest)
  end.
Proof.
  revert seen sc. induction rest as [|e rest IH]; intros seen sc Hsc Ho; simpl; [by rewrite app_nil_r|].
  assert (Hnext : forall sc', scanned sc' (seen ++ [e]) -> other e ->
    match scan o tier now ttl (S (length seen)) sc' rest with
    | (true, _, out) => exists r1 e' r2, rest = r1 ++ e' :: r2 /\ out = (purge now ttl <$> r1) ++ observation o tier now :: r2 /\
        active e' /\ entry_key e' = pair_key o /\ Forall other (seen ++ e :: r1)
    | (false, sc', out) => out = purge now ttl <$> rest /\ scanned sc' (seen ++ e :: rest) /\ Forall other (seen ++ e :: rest)
    end).
  { intros sc' Hsc' He. specialize (IH (seen ++ [e]) sc' Hsc'). rewrite length_app, Nat.add_1_r in IH.
    specialize (IH ltac:(apply Forall_app; split; [done|by constructor])).
    destruct (scan o tier now ttl (S (length seen)) sc' rest) as [[[] sc''] out].
    - destruct IH as (r1 & e' & r2 & H1 & H2 & H3 & H4 & H5). exists r1, e', r2. by rewrite <- app_assoc in H5.
    - by rewrite <- !app_assoc in IH. }
  destruct (pe_inUse e) eqn:Hu; simpl; [destruct (AtlPxcEntryExpired e now ttl) eqn:Hx|].
  - assert (Hd : ~ (active e /\ live now ttl e = true)) by (unfold live; rewrite Hx; naive_solver).
    assert (Hp : purge now ttl e = set_unused e) by (unfold purge; by rewrite Hu, Hx).
    specialize (Hnext _ (scanned_free sc seen e 1 Hsc Hd) ltac:(unfold other; naive_solver)).
    destruct (scan _ _ _ _ _ _ rest) as [[[] sc''] out].
    + destruct Hnext as (r1 & e' & r2 & -> & -> & ?). exists (e :: r1), e', r2. by rewrite fmap_cons, Hp.
    + destruct Hnext as (-> & ?). by rewrite Hp.
  - assert (Hl : live now ttl e = true) by (unfold live; by rewrite Hx).
    assert (Hp : purge now ttl e = e) by (unfold purge; by rewrite Hu, Hx).
    destruct (AtlPxcSamePair (pe_objects e) o) eqn:Hs.
    { exists [], e, rest. rewrite same_pair_spec in Hs. rewrite app_nil_r. done. }
    assert (He : other e). { intros _ _ Hk. apply same_pair_spec in Hk. congruence. }
    specialize (Hnext _ (scanned_live sc seen e Hsc Hu Hl) He).
    destruct (scan _ _ _ _ _ _ rest) as [[[] sc''] out].
    + destruct Hnext as (r1 & e' & r2 & -> & -> & ?). exists (e :: r1), e', r2. by rewrite fmap_cons, Hp.
    + destruct Hnext as (-> & ?). by rewrite Hp.
  - assert (Hd : ~ (active e /\ live now ttl e = true)) by (unfold active; naive_solver congruence).
    assert (Hp : purge now ttl e = e) by (unfold purge; by rewrite Hu).
    specialize (Hnext _ (scanned_free sc seen e 0 Hsc Hd) ltac:(unfold other; naive_solver)).
    destruct (scan _ _ _ _ _ _ rest) as [[[] sc''] out].
    + destruct Hnext as (r1 & e' & r2 & -> & -> & ?). exists (e :: r1), e', r2. by rewrite fmap_cons, Hp.
    + destruct Hnext as (-> & ?). by rewrite Hp.
Qed.
End Scan.

(** ** Observation *)

Definition full (now ttl : Z) (l : list AtlPxcPairEntry) : Prop := Forall (fun e => active e /\ live now ttl e = true) l.

Lemma filter_all {A} (Q : A -> Prop) `{!forall x, Decision (Q x)} l : Forall Q l -> filter Q l = l.
Proof. induction 1 as [|x l Hx _ IH]; [done|]. by rewrite filter_cons_True, IH. Qed.

(** A table without room holds 128 live pairs. *)
Lemma full_no_room now ttl o l m : tracks now ttl l m -> full now ttl l -> Forall (other o now ttl) l ->
  length l = ATLPXC_MAX_TRACKED_PAIRS -> ~ room now ttl (pair_key o) m.
Proof.
  intros [H1 H2 _] Hf Ho Hlen Hroom. unfold room in Hroom. unfold full in Hf.
  rewrite filter_all in H1 by (eapply Forall_impl; [exact Hf|]; naive_solver).
  set (m' := filter _ m) in Hroom. assert (Hsub : list_to_set (entry_key <$> l) ⊆ dom m').
  { intros k Hk. apply elem_of_list_to_set, list_elem_of_fmap in Hk as (e & -> & He).
    rewrite Forall_forall in Hf, Ho. destruct (Hf e He) as [Ha Hl]. apply elem_of_dom. exists e.
    apply map_lookup_filter_Some. split; [by apply H2|]. split; [done|]. by apply (Ho e He). }
  apply subseteq_size in Hsub. rewrite size_list_to_set, length_fmap, size_dom in Hsub by done. lia.
Qed.

(** The outcome of an observation, by what the scan found. *)
Lemma observe_spec table o tier now :
  let ttl := pt_ttlMs table in
  let l := pt_entries table in
  tier <> ATLPXC_TIER_NONE ->
  pt_ttlMs (AtlPxcPairFusionObserve table o tier now).2 = ttl /\
  match AtlPxcPairFusionObserve table o tier now with
  | (true, table') =>
    (exists r1 e r2, l = r1 ++ e :: r2 /\ pt_entries table' = (purge now ttl <$> r1) ++ observation o tier now :: r2 /\
       active e /\ entry_key e = pair_key o /\ Forall (other o now ttl) r1) \/
    (Forall (other o now ttl) l /\ exists slot e, (purge now ttl <$> l) !! slot = Some e /\
       pt_entries table' = <[slot := observation o tier now]> (purge now ttl <$> l) /\
       (~ active e \/ full now ttl l /\ pe_tier e < tier))
  | (false, table') =>
    pt_entries table' = purge now ttl <$> l /\ full now ttl l /\ Forall (other o now ttl) l /\
    Forall (fun e => Z.min tier ATLPXC_TIER_CRITICAL <= pe_tier e) l
  end.
Proof.
  intros ttl l Ht. unfold AtlPxcPairFusionObserve. rewrite (proj2 (Z.eqb_neq _ _) Ht). fold ttl. fold l.
  pose proof (pair_scan_spec o tier now ttl l [] scan_start (scanned_start now ttl) (List.Forall_nil _)) as Hs. simpl in Hs.
  destruct (scan o tier now ttl 0 scan_start l) as [[[] sc] out]; simpl.
  { split; [done|]. left. destruct Hs as (r1 & e & r2 & H). exists r1, e, r2. naive_solver. }
  destruct Hs as (-> & [H1 H2 H3 H4 H5] & Ho). destruct (sc_free sc) as [slot|] eqn:Ef; simpl.
  { split; [done|]. right. destruct (H1 slot eq_refl) as (e & He & Ha). split; [done|]. exists slot, e. auto. }
  assert (Hfull : full now ttl l) by (by apply H2).
  assert (Hp : forall e, e ∈ l -> purge now ttl e = e).
  { intros e He. unfold full in Hfull. rewrite Forall_forall in Hfull. apply purge_id, purge_active. auto. }
  assert (Hall : forall b, sc_weakestTier sc >= b -> Forall (fun e => b <= pe_tier e) l).
  { intros b Hb. apply Forall_forall. intros e He. unfold full in Hfull. rewrite Forall_forall in Hfull, H4.
    specialize (Hfull e He). specialize (H4 e He). naive_solver lia. }
  destruct (sc_weakest sc) as [slot|] eqn:Ew; [destruct (Z.ltb_spec (sc_weakestTier sc) tier)|]; simpl; (split; [done|]).
  - right. split; [done|]. destruct (H3 slot eq_refl) as (e & He & Het).
    exists slot, e. split_and!; [|done|right; split; [done|lia]].
    rewrite list_lookup_fmap, He. simpl. by rewrite (Hp e (list_elem_of_lookup_2 _ _ _ He)).
  - split_and!; [done..|]. apply Hall. lia.
  - split_and!; [done..|]. apply Hall. rewrite H5 by done. lia.
Qed.

Lemma observe_length table o tier now :
  length (pt_entries (AtlPxcPairFusionObserve table o tier now).2) = length (pt_entries table).
Proof.
  destruct (decide (tier = ATLPXC_TIER_NONE)) as [->|Ht]; [done|].
  pose proof (observe_spec table o tier now Ht) as [_ Hs]. destruct (AtlPxcPairFusionObserve table o tier now) as [[] table']; simpl.
  - destruct Hs as [(r1 & e & r2 & -> & -> & _)|(_ & slot & e & _ & -> & _)];
      rewrite ?length_insert, ?length_fmap, ?length_app, ?length_fmap; simpl; lia.
  - destruct Hs as (-> & _). by rewrite length_fmap.
Qed.

(** With room for the pair, an observation is an update of the map. *)
Lemma observe_refines table o tier now m :
  let ttl := pt_ttlMs table in
  tier <> ATLPXC_TIER_NONE -> tracks now ttl (pt_entries table) m -> length (pt_entries table) = ATLPXC_MAX_TRACKED_PAIRS ->
  room now ttl (pair_key o) m ->
  exists table', AtlPxcPairFusionObserve table o tier now = (true, table') /\ pt_ttlMs table' = ttl /\
    tracks now ttl (pt_entries table') (<[pair_key o := observation o tier now]> m).
Proof.
  intros ttl Ht Htr Hlen Hroom. pose proof (observe_spec table o tier now Ht) as [Httl Hs].
  pose proof (fun Hf Ho => full_no_room now ttl o _ m Htr Hf Ho Hlen Hroom) as Hnf.
  destruct (AtlPxcPairFusionObserve table o tier now) as [[] table']; simpl in *.
  2: { destruct Hs as (_ & Hf & Ho & _). by destruct (Hnf Hf Ho). }
  exists table'. split_and!; [done..|].
  destruct Hs as [(r1 & e & r2 & El & -> & Ha & Hk & Ho)|(Ho & slot & e & He & -> & [Hn|[Hf _]])]; [| |by destruct (Hnf Hf Ho)].
  - rewrite El in Htr. apply tracks_purge_prefix in Htr. apply (tracks_observed now ttl o tier _ e); [done..|].
    intros x Hx Hax. apply elem_of_app in Hx as [Hx|Hx].
    + destruct (purged_elem _ _ _ _ Hx Hax) as [Hx1 Hl]. rewrite Forall_forall in Ho. by apply (Ho x Hx1).
    + destruct Htr as [Hnd _ _]. rewrite filter_app, fmap_app, NoDup_app in Hnd. destruct Hnd as (_ & _ & Hnd).
      rewrite (filter_cons_True active) in Hnd by done. rewrite fmap_cons in Hnd. inversion Hnd as [|? ? Hni _]; subst.
      intros Hkx. apply Hni. rewrite Hk, <- Hkx. apply list_elem_of_fmap_2. by apply list_elem_of_filter.
  - fold ttl in He, Ho |- *. apply tracks_purge in Htr. rewrite <- (take_drop_middle _ slot e He) in Htr.
    rewrite insert_take_drop by (by apply lookup_lt_Some in He). apply (tracks_observed now ttl o tier _ e); [done|done|].
    intros x Hx Hax. assert (Hin : x ∈ purge now ttl <$> pt_entries table).
    { apply elem_of_app in Hx as [Hx|Hx]; refine (elem_of_sublist _ _ _ Hx _); [apply sublist_take|apply sublist_drop]. }
    destruct (purged_elem _ _ _ _ Hin Hax) as [Hx1 Hl]. rewrite Forall_forall in Ho. by apply (Ho x Hx1).
Qed.

(** ** Aggregation *)

Definition live_entry (now ttl : Z) (e : AtlPxcPairEntry) : Prop := active e /\ live now ttl e = true.

#[export] Instance live_entry_dec now ttl e : Decision (live_entry now ttl e).
Proof. unfold live_entry. apply _. Defined.

Lemma prefer_spec best e :
  (prefer best e = e \/ best = Some (prefer best e)) /\ pe_tier e <= pe_tier (prefer best e) /\
  (forall x, best = Some x -> pe_tier x <= pe_tier (prefer best e)).
Proof.
  destruct best as [b|]; simpl; [|split_and!; [by left|lia|done]].
  destruct (Z.ltb_spec (pe_tier b) (pe_tier e)); simpl; [split_and!; [by left|lia|intros x [= <-]; lia]|].
  destruct (Z.eqb_spec (pe_tier e) (pe_tier b)); simpl; [destruct (_ <? _)|]; split_and!; auto; try lia; intros x [= <-]; lia.
Qed.

Lemma aggregate_scan_spec now ttl l best n x :
  let '(b, n', x', out) := aggregate_scan now ttl best n x l in
  out = purge now ttl <$> l /\ n' = n + Z.of_nat (length (filter (live_entry now ttl) l)) /\
  (forall y, best = Some y -> exists b', b = Some b' /\ pe_tier y <= pe_tier b') /\
  (forall e, e ∈ l -> live_entry now ttl e -> exists b', b = Some b' /\ pe_tier e <= pe_tier b') /\
  (forall b', b = Some b' -> best = Some b' \/ b' ∈ l /\ live_entry now ttl b').
Proof.
  revert best n x. induction l as [|e l IH]; intros best n x; simpl.
  { split_and!; [done|lia|naive_solver|intros e He; by apply not_elem_of_nil in He|naive_solver]. }
  destruct (pe_inUse e) eqn:Hu; simpl; [destruct (AtlPxcEntryExpired e now ttl) eqn:Hx|].
  - specialize (IH best n (x + 1)). destruct (aggregate_scan _ _ _ _ _ l) as [[[b n'] x'] out].
    destruct IH as (-> & -> & H1 & H2 & H3).
    assert (Hd : ~ live_entry now ttl e) by (unfold live_entry, live; rewrite Hx; naive_solver).
    rewrite (filter_cons_False _ _ _ Hd). assert (Hp : purge now ttl e = set_unused e) by (unfold purge; by rewrite Hu, Hx).
    rewrite Hp. split_and!; [done..| |]; intros; set_unfold; naive_solver.
  - specialize (IH (Some (prefer best e)) (n + 1) x). destruct (aggregate_scan _ _ _ _ _ l) as [[[b n'] x'] out].
    destruct IH as (-> & -> & H1 & H2 & H3).
    assert (Hd : live_entry now ttl e) by (split; [done|unfold live; by rewrite Hx]).
    rewrite (filter_cons_True _ _ _ Hd). assert (Hp : purge now ttl e = e) by (unfold purge; by rewrite Hu, Hx).
    rewrite Hp. destruct (prefer_spec best e) as (P1 & P2 & P3). destruct (H1 _ eq_refl) as (b' & -> & Hb').
    split_and!; [done|simpl; lia|..].
    + intros y Hy. exists b'. split; [done|]. specialize (P3 y Hy). lia.
    + intros y Hy Hly. apply elem_of_cons in Hy as [->|Hy]; [|by apply H2]. exists b'. split; [done|lia].
    + intros z [= <-]. destruct (H3 b' eq_refl) as [[= <-]|[? ?]]; [|set_solver].
      destruct P1 as [->|P1]; [right; set_solver|by left].
  - specialize (IH best n x). destruct (aggregate_scan _ _ _ _ _ l) as [[[b n'] x'] out].
    destruct IH as (-> & -> & H1 & H2 & H3).
    assert (Hd : ~ live_entry now ttl e) by (unfold live_entry, active; naive_solver congruence).
    rewrite (filter_cons_False _ _ _ Hd). assert (Hp : purge now ttl e = e) by (unfold purge; by rewrite Hu).
    rewrite Hp. split_and!; [done..| |]; intros; set_unfold; naive_solver.
Qed.

Lemma foldr_max_exact l w : (forall x, x ∈ l -> x <= w) -> 0 <= w -> (w = 0 \/ w ∈ l) -> foldr Z.max 0 l = w.
Proof.
  intros Hle Hw Hin. apply Z.le_antisymm.
  - induction l as [|x l IH]; simpl; [done|]. apply Z.max_lub; [apply Hle; by left|].
    assert (forall y, y ∈ l -> y <= w) by (intros; apply Hle; by right). clear -H Hw. induction l as [|y l IH]; simpl; [done|].
    apply Z.max_lub; [apply H; by left|]. apply IH. intros; apply H; by right.
  - destruct Hin as [->|Hin]; [clear; induction l; simpl; lia|].
    clear -Hin. induction l as [|x l IH]; simpl; [by apply not_elem_of_nil in Hin|].
    apply elem_of_cons in Hin as [->|Hin]; [lia|]. specialize (IH Hin). lia.
Qed.

Lemma worst_exact now ttl m w :
  (forall k e, m !! k = Some e -> live now ttl e = true -> pe_tier e <= w) -> 0 <= w ->
  (w = 0 \/ exists k e, m !! k = Some e /\ live now ttl e = true /\ pe_tier e = w) -> worst now ttl m = w.
Proof.
  intros H1 H2 H3. unfold worst, live_tiers.
  assert (Hel : forall x, x ∈ pe_tier <$> List.filter (live now ttl) (map_to_list m).*2 <->
    exists k e, m !! k = Some e /\ live now ttl e = true /\ pe_tier e = x).
  { intros x. rewrite list_elem_of_fmap. setoid_rewrite list_elem_of_In. setoid_rewrite filter_In.
    setoid_rewrite <- list_elem_of_In. setoid_rewrite list_elem_of_fmap. split.
    - intros (e & -> & ([k e'] & -> & He) & Hl). apply elem_of_map_to_list in He. by exists k, e'.
    - intros (k & e & He & Hl & <-). exists e. split_and!; [done| |done]. exists (k, e). split; [done|]. by apply elem_of_map_to_list. }
  apply foldr_max_exact; [|done|].
  - intros x Hx. apply Hel in Hx as (k & e & He & Hl & <-). by apply (H1 k).
  - destruct H3 as [?|?]; [by left|right; by apply Hel].
Qed.

(** The verdict is at least as severe as any live entry. *)
Lemma aggregate_lower table now e : e ∈ pt_entries table -> live_entry now (pt_ttlMs table) e ->
  pe_tier e <= ag_tier (AtlPxcPairFusionAggregate table now).1.
Proof.
  intros He Hl. unfold AtlPxcPairFusionAggregate.
  pose proof (aggregate_scan_spec now (pt_ttlMs table) (pt_entries table) None 0 0) as Hs.
  destruct (aggregate_scan _ _ _ _ _ _) as [[[b n'] x'] out]. destruct Hs as (_ & _ & _ & Hmax & _).
  by destruct (Hmax e He Hl) as (b' & -> & Hle).
Qed.

Definition tiers_ok (m : gmap Key AtlPxcPairEntry) : Prop := forall k e, m !! k = Some e -> ATLPXC_TIER_NONE < pe_tier e.

(** The aggregate is the worst case of the map, and aggregation leaves the map. *)
Lemma aggregate_refines table now m :
  let ttl := pt_ttlMs table in
  tracks now ttl (pt_entries table) m -> tiers_ok m ->
  ag_tier (AtlPxcPairFusionAggregate table now).1 = worst now ttl m /\
  pt_entries (AtlPxcPairFusionAggregate table now).2 = purge now ttl <$> pt_entries table /\
  pt_ttlMs (AtlPxcPairFusionAggregate table now).2 = ttl.
Proof.
  intros ttl [H1 H2 H3] Ht. unfold AtlPxcPairFusionAggregate. fold ttl.
  pose proof (aggregate_scan_spec now ttl (pt_entries table) None 0 0) as Hs.
  destruct (aggregate_scan _ _ _ _ _ _) as [[[b n'] x'] out]. destruct Hs as (-> & _ & _ & Hmax & Hb). simpl.
  split_and!; [|done..]. symmetry. destruct b as [b|]; simpl.
  - destruct (Hb b eq_refl) as [?|[Hin [Ha Hl]]]; [done|]. pose proof (H2 b Hin Ha) as Hm.
    apply worst_exact; [|specialize (Ht _ b Hm); unfold ATLPXC_TIER_NONE in *; lia|right; eauto].
    intros k e Hk Hle. destruct (H3 k e Hk Hle) as (He & Hae & _). destruct (Hmax e He (conj Hae Hle)) as (b' & [= <-] & ?). done.
  - apply worst_exact; [|done|by left]. intros k e Hk Hle. destruct (H3 k e Hk Hle) as (He & Hae & _).
    by destruct (Hmax e He (conj Hae Hle)) as (b' & ? & _).
Qed.

(** ** Runs *)

Inductive FOp := FObserve (objects : AtlPxcPairObjects) (tier now : Z) | FAggregate (now : Z).

Definition fop_time (x : FOp) : Z := match x with FObserve _ _ now | FAggregate now => now end.
Definition fop_ok (x : FOp) : Prop := match x with FObserve _ tier _ => ATLPXC_TIER_NONE < tier | FAggregate _ => True end.

Definition fstep (x : FOp) (table : AtlPxcPairTable) : AtlPxcPairTable :=
  match x with
  | FObserve o tier now => (AtlPxcPairFusionObserve table o tier now).2
  | FAggregate now => (AtlPxcPairFusionAggregate table now).2
  end.

(** The newest observation of every pair, expiry left to the reader of the map. *)
Definition note_newest (x : FOp) (m : gmap Key AtlPxcPairEntry) : gmap Key AtlPxcPairEntry :=
  match x with FObserve o tier now => <[pair_key o := observation o tier now]> m | FAggregate _ => m end.

Definition frun (ops : list FOp) (table : AtlPxcPairTable) : AtlPxcPairTable := fold_left (fun t x => fstep x t) ops table.
Definition newest (ops : list FOp) (m : gmap Key AtlPxcPairEntry) : gmap Key AtlPxcPairEntry :=
  fold_left (fun m x => note_newest x m) ops m.

(** No observation finds 128 other pairs live. *)
Fixpoint fits (ttl : Z) (ops : list FOp) (m : gmap Key AtlPxcPairEntry) : Prop :=
  match ops with
  | [] => True
  | x :: ops' =>
    match x with FObserve o _ now => room now ttl (pair_key o) m | FAggregate _ => True end /\ fits ttl ops' (note_newest x m)
  end.

(** The table [table] stands for the map [m] at [clock]. *)
Record represents (clock ttl : Z) (table : AtlPxcPairTable) (m : gmap Key AtlPxcPairEntry) : Prop := {
  re_ttl : pt_ttlMs table = ttl;
  re_length : length (pt_entries table) = ATLPXC_MAX_TRACKED_PAIRS;
  re_tracks : tracks clock ttl (pt_entries table) m;
  re_tiers : tiers_ok m;
}.

Lemma represents_later clock now ttl table m : clock <= now -> represents clock ttl table m -> represents now ttl table m.
Proof. intros Hle [H1 H2 H3 H4]. split; [done..| |done]. by apply (tracks_later clock). Qed.

Lemma represents_start clock ttl : represents clock ttl (zeroed_table ttl) ∅.
Proof. split; [done|done|apply tracks_empty|]. intros k e He. by rewrite lookup_empty in He. Qed.

Lemma represents_observe ttl table m o tier now :
  represents now ttl table m -> ATLPXC_TIER_NONE < tier -> room now ttl (pair_key o) m ->
  (AtlPxcPairFusionObserve table o tier now).1 = true /\
  represents now ttl (AtlPxcPairFusionObserve table o tier now).2 (<[pair_key o := observation o tier now]> m).
Proof.
  intros [<- H2 H3 H4] Ht Hr. pose proof (observe_length table o tier now) as Hlen.
  destruct (observe_refines table o tier now m) as (table' & E & Httl & Htr); [lia|done..|]. rewrite E in *. simpl in *.
  split; [done|]. split; [done|congruence|done|].
  intros k e. rewrite lookup_insert_Some. intros [[_ <-]|[_ Hk]]; [done|by apply (H4 k)].
Qed.

Lemma represents_aggregate ttl table m now : represents now ttl table m ->
  ag_tier (AtlPxcPairFusionAggregate table now).1 = worst now ttl m /\
  represents now ttl (AtlPxcPairFusionAggregate table now).2 m.
Proof.
  intros [<- H2 H3 H4]. destruct (aggregate_refines table now m H3 H4) as (E1 & E2 & E3). split; [done|].
  split; [done|by rewrite E2, length_fmap| |done]. rewrite E2. by apply tracks_purge.
Qed.

Lemma represents_run ttl ops clock now table m :
  Sorted Z.le (clock :: map fop_time ops ++ [now]) -> Forall fop_ok ops -> fits ttl ops m ->
  represents clock ttl table m -> represents now ttl (frun ops table) (newest ops m).
Proof.
  revert clock table m. induction ops as [|x ops IH]; intros clock table m Hs Hok Hfit Hr; simpl in *.
  - apply Sorted_inv in Hs as [_ Hs]. inversion Hs; subst. by apply (represents_later clock).
  - apply Sorted_inv in Hs as [Hs Hh]. inversion Hh as [|? ? Hle]; subst. apply Forall_cons in Hok as [Hx Hok].
    destruct Hfit as [Hroom Hfit]. apply (IH (fop_time x)); [done..|]. apply (represents_later _ _ _ _ _ Hle) in Hr.
    destruct x as [o tier t|t]; simpl in *; [by apply represents_observe|by apply represents_aggregate].
Qed.

(** The pair table implements "newest within a pair, worst case across
    pairs": after any sequence of observations and aggregations in time order in
    which no more than 128 pairs are live at once, the aggregate is the most severe
    of the newest observations of the pairs seen within the time to live, although
    the table drops expired pairs in passing and reuses their slots. *)
Theorem pair_table_refines_newest ttlMs ops now :
  let table := AtlPxcPairFusionInit ttlMs in
  Sorted Z.le (map fop_time ops ++ [now]) -> Forall fop_ok ops -> fits (pt_ttlMs table) ops ∅ ->
  ag_tier (AtlPxcPairFusionAggregate (frun ops table) now).1 = worst now (pt_ttlMs table) (newest ops ∅).
Proof.
  intros table Hs Hok Hfit. apply (represents_aggregate (pt_ttlMs table)).
  set (clock := match ops with [] => now | x :: _ => fop_time x end).
  apply (represents_run _ _ clock); [|done..|apply represents_start].
  constructor; [done|]. destruct ops; simpl; by constructor.
Qed.

(** An observation counts even in a full table: right after it the aggregate
    is at least as severe as what was observed, whether the pair was updated, took
    a free slot, evicted a less severe pair or was dropped. *)
Theorem observed_tier_counts table o tier now :
  length (pt_entries table) = ATLPXC_MAX_TRACKED_PAIRS -> ATLPXC_TIER_NONE < tier <= ATLPXC_TIER_CRITICAL ->
  tier <= ag_tier (AtlPxcPairFusionAggregate (AtlPxcPairFusionObserve table o tier now).2 now).1.
Proof.
  intros Hlen Ht. pose proof (observe_spec table o tier now ltac:(lia)) as [Httl Hs].
  destruct (AtlPxcPairFusionObserve table o tier now) as [[] table']; simpl in *.
  - change tier with (pe_tier (observation o tier now)). apply aggregate_lower; [|split; [done|apply live_now]].
    destruct Hs as [(r1 & e & r2 & _ & -> & _)|(_ & slot & e & He & -> & _)]; [set_solver|].
    apply (list_elem_of_lookup_2 _ slot), list_lookup_insert_eq. by apply lookup_lt_Some in He.
  - destruct Hs as (El & Hf & _ & Hmin). destruct (pt_entries table) as [|e l]; [done|].
    apply Forall_cons in Hf as [Hf _]. apply Forall_cons in Hmin as [Hmin _].
    assert (He : purge now (pt_ttlMs table) e = e) by (by apply purge_id, purge_active).
    transitivity (pe_tier e); [lia|]. apply aggregate_lower; [rewrite El; simpl; rewrite He; by left|by rewrite Httl].
Qed.

(** ** Instances, and the price of a full table *)

Definition sample_pair (forklift person : Z) : AtlPxcPairObjects := {|
  po_forkliftObjectID := forklift; po_personObjectID := person; po_forkliftObjectType := OBJECT; po_personObjectType := PERSON;
  po_forkliftX := 0; po_forkliftY := 0; po_personX := 0; po_personY := 0; po_pipelineID := 1; po_role := ATLPXC_ROLE_RESOLVED |}.

(** Pair (1, 2) turns critical and is lowered again, pair (1, 3) turns critical and is not seen again. *)
Definition sample_ops : list FOp :=
  [FObserve (sample_pair 1 2) ATLPXC_TIER_CRITICAL 1000; FObserve (sample_pair 1 3) ATLPXC_TIER_CRITICAL 1500;
   FAggregate 1600; FObserve (sample_pair 1 2) ATLPXC_TIER_WARNING 3000].

Lemma pair_table_refines_newest_witness :
  (worst 3400 2000 (newest sample_ops ∅), worst 3600 2000 (newest sample_ops ∅)) = (ATLPXC_TIER_CRITICAL, ATLPXC_TIER_WARNING) /\
  ag_tier (AtlPxcPairFusionAggregate (frun sample_ops (AtlPxcPairFusionInit 2000)) 3600).1 = worst 3600 2000 (newest sample_ops ∅).
Proof.
  split; [vm_compute; reflexivity|].
  apply (pair_table_refines_newest 2000 sample_ops 3600).
  - unfold sample_ops. simpl. repeat constructor; lia.
  - unfold sample_ops. repeat constructor.
  - unfold sample_ops, fits, room. split_and!; try exact I; apply Nat.ltb_lt; vm_compute; reflexivity.
Defined.

Lemma observed_tier_counts_witness :
  ATLPXC_TIER_WARNING <=
    ag_tier (AtlPxcPairFusionAggregate (AtlPxcPairFusionObserve (frun sample_ops (AtlPxcPairFusionInit 2000))
      (sample_pair 4 5) ATLPXC_TIER_WARNING 3700).2 3700).1.
Proof. apply (observed_tier_counts _ (sample_pair 4 5) ATLPXC_TIER_WARNING 3700); [reflexivity|done]. Defined.

(** 128 critical pairs, then one more. *)
Definition crowded_ops : list FOp :=
  map (fun i => FObserve (sample_pair 1 (Z.of_nat i)) ATLPXC_TIER_CRITICAL 1000) (seq 10 ATLPXC_MAX_TRACKED_PAIRS) ++
  [FObserve (sample_pair 1 2) ATLPXC_TIER_CRITICAL 2900].

(** A pair dropped for want of a slot is forgotten: with 128 critical pairs
    live, one more critical pair is refused although the residents are only as
    severe, and when the residents expire the aggregate reports no pair at all
    while the newest observation of the refused pair is 200 ms old and critical. *)
Theorem dropped_pair_forgotten :
  (AtlPxcPairFusionObserve (frun (take 128 crowded_ops) (AtlPxcPairFusionInit 2000)) (sample_pair 1 2) ATLPXC_TIER_CRITICAL 2900).1 = false /\
  worst 3100 2000 (newest crowded_ops ∅) = ATLPXC_TIER_CRITICAL /\
  ag_tier (AtlPxcPairFusionAggregate (frun crowded_ops (AtlPxcPairFusionInit 2000)) 3100).1 = ATLPXC_TIER_NONE.
Proof. split_and!; vm_compute; reflexivity. Qed.
