(* ===== verification/AtlProximity.v ===== *)
(** * The ATL-proximity decision maker

    [AtlProximityControl.cpp]: the instance of [SdmCore] whose command is derived
    from the pair table of [PairFusion], on every batch and on every periodic
    repeat.  The theorems say that the command is the worst case of the newest
    observations of the pairs within the time to live. *)

From S2P Require Import Prelude Protocol Crc Validate SdmRequestState GatewayContract SdmSequence Threads PlcPacket SdmCore Proximity PairFusion PairFusionSafety.
From Stdlib Require Import Sorting.Sorted.

(** ** State *)

Record Apx := { ap_activeCommand : Z; ap_table : AtlPxcPairTable }.

Definition set_active (c : Z) (s : Apx) : Apx := {| ap_activeCommand := c; ap_table := ap_table s |}.
Definition set_table (t : AtlPxcPairTable) (s : Apx) : Apx := {| ap_activeCommand := ap_activeCommand s; ap_table := t |}.

(** ** Object records *)

Definition fillRoleNormalizedObjectRecords (meta : EventFusionMetadata) : ObjectRecord * ObjectRecord :=
  let record slot := match slot with Some i => copyObjectRecordFromMetadata meta i | None => zero_object end in
  (record (first_type (fun t => negb (t =? PERSON)) meta), record (first_type (fun t => t =? PERSON) meta)).

Definition fillObjectRecordsFromPair (pair : AtlPxcPairObjects) : ObjectRecord * ObjectRecord :=
  ({| or_object_id := po_forkliftObjectID pair; or_x := po_forkliftX pair; or_y := po_forkliftY pair; or_z := 0;
      or_metadata := u32 (po_forkliftObjectType pair) |},
   {| or_object_id := po_personObjectID pair; or_x := po_personX pair; or_y := po_personY pair; or_z := 0;
      or_metadata := u32 (po_personObjectType pair) |}).

Definition apx_objects (a : Attach) : ObjectRecord * ObjectRecord :=
  match at_pair a with
  | Some objects => objects
  | None => fillObjectRecords fillRoleNormalizedObjectRecords (at_request a) (at_slot a)
  end.

(** ** The command *)

Definition atlProximityCommandFromTier (tier : Z) : Z :=
  if tier =? ATLPXC_TIER_CRITICAL then CMD_STOP
  else if tier =? ATLPXC_TIER_WARNING then CMD_REDUCE
  else CMD_NORMAL.

Definition atlProximityDeriveCommandLocked (nowMs : Z) (s : Apx) : Z * AtlPxcAggregate * Apx :=
  let '(agg, table) := AtlPxcPairFusionAggregate (ap_table s) nowMs in
  let cmd := atlProximityCommandFromTier (ag_tier agg) in
  (cmd, agg, set_active cmd (set_table table s)).

(** The tier an entry of a batch reports, [NONE] when the entry is skipped. *)
Definition entry_tier (sd : SensorData) : Z :=
  let et := ev_type (sd_event sd) in
  if ev_status (sd_event sd) =? STALE then ATLPXC_TIER_NONE
  else if (et =? SENSOR_INVALID) || (et =? SENSOR_VALID) then ATLPXC_TIER_NONE
  else if (et =? AI_PIPELINE_INVALID) || (et =? AI_PIPELINE_VALID) then ATLPXC_TIER_NONE
  else if negb (sd_isHealthy sd) then ATLPXC_TIER_NONE
  else if negb (sd_isTrustedSource sd) then ATLPXC_TIER_NONE
  else AtlPxcTierFromEventType et.

Definition entry_pair (sd : SensorData) : AtlPxcPairObjects :=
  (AtlPxcResolvePairRoles (ev_fusionMetadata (sd_event sd))).2.

(** The loop over the entries: whether one was recorded, and the table. *)
Fixpoint fold_entries (nowMs : Z) (entries : list SensorData) (observedAny : bool) (table : AtlPxcPairTable)
    : bool * AtlPxcPairTable :=
  match entries with
  | [] => (observedAny, table)
  | sd :: rest =>
    let tier := entry_tier sd in
    if tier =? ATLPXC_TIER_NONE then fold_entries nowMs rest observedAny table
    else
      let '(recorded, table) := AtlPxcPairFusionObserve table (entry_pair sd) tier nowMs in
      fold_entries nowMs rest (observedAny || recorded) table
  end.

Definition foldAtlProximityBatchLocked (request : DecisionRequest) (nowMs : Z) (s : Apx) : option (Z * AtlPxcAggregate) * Apx :=
  let '(observedAny, table) := fold_entries nowMs (populated request) false (ap_table s) in
  let s := set_table table s in
  if negb observedAny then (None, s)
  else let '(cmd, agg, s) := atlProximityDeriveCommandLocked nowMs s in (Some (cmd, agg), s).

(** ** The instance *)

Definition aggregate_pair (agg : AtlPxcAggregate) : option (ObjectRecord * ObjectRecord) :=
  if ag_haveObjects agg then Some (fillObjectRecordsFromPair (ag_objects agg)) else None.

Definition apx_verdict (r : DecisionRequest) (nowMs : Z) (s : Apx) : option (Z * Attach) * Apx :=
  let '(decision, s) := foldAtlProximityBatchLocked r nowMs s in
  (match decision with
   | None => None
   | Some (cmd, agg) => Some (cmd, {| at_request := Some r; at_slot := None; at_pair := aggregate_pair agg |})
   end, s).

Definition apx_periodic (nowMs : Z) (s : Apx) : (Z * Attach) * Apx :=
  let '(cmd, agg, s) := atlProximityDeriveCommandLocked nowMs s in
  ((cmd, {| at_request := None; at_slot := None; at_pair := aggregate_pair agg |}), s).

(** [resetAtlProximityStateFromPlcSafeRelease]. *)
Definition apx_release (s : Apx) : Apx :=
  {| ap_activeCommand := CMD_NORMAL; ap_table := AtlPxcPairFusionReset (ap_table s) |}.

Definition atl_proximity_app (pairTtlMs : Z) : SdmApp Apx := {|
  app_identifier := PROXIMITY_PACKET_IDENTIFIER;
  app_motion := CMD_REDUCE;
  app_initial := {| ap_activeCommand := CMD_NORMAL; ap_table := AtlPxcPairFusionInit pairTtlMs |};
  app_ackClock := fun e => 1000 * e_now e;
  app_objects := fun _ _ _ => apx_objects;
  app_stop := set_active CMD_STOP;
  app_release := apx_release;
  app_ingest := fun _ _ => [];
  app_under_send := true;
  app_verdict := apx_verdict;
  app_commit := fun _ s => s;
  app_periodic := apx_periodic;
  app_tick := None;
  app_publish := fun _ s => (false, s);
|}.

(** ** The command is the worst case of the newest observations *)

Abbreviation PairMap := (gmap Key AtlPxcPairEntry).

(** An entry, a batch as updates of the map of newest observations. *)
Definition absorb_entry (now : Z) (sd : SensorData) (m : PairMap) : PairMap :=
  if entry_tier sd =? ATLPXC_TIER_NONE then m
  else <[pair_key (entry_pair sd) := observation (entry_pair sd) (entry_tier sd) now]> m.

Definition absorb (now : Z) (entries : list SensorData) (m : PairMap) : PairMap :=
  fold_left (fun m sd => absorb_entry now sd m) entries m.

Definition observes (sd : SensorData) : bool := negb (entry_tier sd =? ATLPXC_TIER_NONE).

(** No entry of the batch finds 128 other pairs live. *)
Fixpoint batch_fits (ttl now : Z) (entries : list SensorData) (m : PairMap) : Prop :=
  match entries with
  | [] => True
  | sd :: rest => (observes sd = true -> room now ttl (pair_key (entry_pair sd)) m) /\ batch_fits ttl now rest (absorb_entry now sd m)
  end.

(** The process as its decision state sees it. *)
Inductive AStep := ABatch (r : DecisionRequest) (now : Z) | APeriodic (now : Z) | AStop (now : Z) | ARelease (now : Z).

Definition as_time (x : AStep) : Z := match x with ABatch _ now | APeriodic now | AStop now | ARelease now => now end.

Definition astep (x : AStep) (s : Apx) : Apx :=
  match x with
  | ABatch r now => (apx_verdict r now s).2
  | APeriodic now => (apx_periodic now s).2
  | AStop _ => set_active CMD_STOP s
  | ARelease _ => apx_release s
  end.

Definition anote (x : AStep) (m : PairMap) : PairMap :=
  match x with ABatch r now => absorb now (populated r) m | ARelease _ => ∅ | APeriodic _ | AStop _ => m end.

Definition arun (steps : list AStep) (s : Apx) : Apx := fold_left (fun s x => astep x s) steps s.
Definition anewest (steps : list AStep) (m : PairMap) : PairMap := fold_left (fun m x => anote x m) steps m.

Fixpoint run_fits (ttl : Z) (steps : list AStep) (m : PairMap) : Prop :=
  match steps with
  | [] => True
  | x :: steps' =>
    match x with ABatch r now => batch_fits ttl now (populated r) m | _ => True end /\ run_fits ttl steps' (anote x m)
  end.

Lemma entry_tier_range sd : ATLPXC_TIER_NONE <= entry_tier sd <= ATLPXC_TIER_CRITICAL.
Proof.
  unfold entry_tier, AtlPxcTierFromEventType, ATLPXC_TIER_NONE, ATLPXC_TIER_NORMAL, ATLPXC_TIER_WARNING, ATLPXC_TIER_CRITICAL.
  repeat (destruct (_ : bool)); lia.
Qed.

Section Fold.
Context (ttl now : Z).

Lemma fold_entries_spec entries b table m :
  represents now ttl table m -> batch_fits ttl now entries m ->
  (fold_entries now entries b table).1 = b || existsb observes entries /\
  represents now ttl (fold_entries now entries b table).2 (absorb now entries m).
Proof.
  revert b table m. induction entries as [|sd rest IH]; intros b table m Hr Hfit; simpl; [by rewrite orb_false_r|].
  destruct Hfit as [Hroom Hfit]. pose proof (entry_tier_range sd) as [Hlo _].
  change (absorb now (sd :: rest) m) with (absorb now rest (absorb_entry now sd m)).
  unfold observes, absorb_entry in *. destruct (Z.eqb_spec (entry_tier sd) ATLPXC_TIER_NONE) as [E|E]; simpl in *; [by apply IH|].
  destruct (represents_observe ttl table m (entry_pair sd) (entry_tier sd) now Hr) as [H1 H2]; [lia|auto|].
  destruct (AtlPxcPairFusionObserve table (entry_pair sd) (entry_tier sd) now) as [recorded table']. simpl in *. subst recorded.
  destruct (IH (b || true) table' _ H2 Hfit) as [-> H3]. split; [by rewrite orb_true_r|done].
Qed.

Lemma derive_spec s m : represents now ttl (ap_table s) m ->
  let '(cmd, agg, s') := atlProximityDeriveCommandLocked now s in
  cmd = atlProximityCommandFromTier (worst now ttl m) /\ ag_tier agg = worst now ttl m /\ represents now ttl (ap_table s') m.
Proof.
  intros Hr. unfold atlProximityDeriveCommandLocked. destruct (represents_aggregate ttl _ m now Hr) as [H1 H2].
  destruct (AtlPxcPairFusionAggregate (ap_table s) now) as [agg table]. simpl in *. by rewrite H1.
Qed.

Lemma verdict_spec r s m : represents now ttl (ap_table s) m -> batch_fits ttl now (populated r) m ->
  let m' := absorb now (populated r) m in
  fst <$> (apx_verdict r now s).1 =
    (if existsb observes (populated r) then Some (atlProximityCommandFromTier (worst now ttl m')) else None) /\
  represents now ttl (ap_table (apx_verdict r now s).2) m'.
Proof.
  intros Hr Hfit m'. unfold apx_verdict, foldAtlProximityBatchLocked.
  destruct (fold_entries_spec (populated r) false (ap_table s) m Hr Hfit) as [H1 H2].
  destruct (fold_entries now (populated r) false (ap_table s)) as [any table]. simpl in *. subst any.
  destruct (existsb observes (populated r)); simpl; [|done].
  pose proof (derive_spec (set_table table s) m' H2) as H. destruct (atlProximityDeriveCommandLocked _ _) as [[cmd agg] s'].
  destruct H as (-> & _ & H). done.
Qed.

Lemma periodic_spec s m : represents now ttl (ap_table s) m ->
  (apx_periodic now s).1.1 = atlProximityCommandFromTier (worst now ttl m) /\
  represents now ttl (ap_table (apx_periodic now s).2) m.
Proof.
  intros Hr. unfold apx_periodic. pose proof (derive_spec s m Hr) as H.
  destruct (atlProximityDeriveCommandLocked _ _) as [[cmd agg] s']. destruct H as (-> & _ & H). done.
Qed.
End Fold.

Lemma arun_spec ttl steps clock now s m :
  Sorted Z.le (clock :: map as_time steps ++ [now]) -> run_fits ttl steps m ->
  represents clock ttl (ap_table s) m -> represents now ttl (ap_table (arun steps s)) (anewest steps m).
Proof.
  revert clock s m. induction steps as [|x steps IH]; intros clock s m Hs Hfit Hr; simpl in *.
  - apply Sorted_inv in Hs as [_ Hs]. inversion Hs; subst. by apply (represents_later clock).
  - apply Sorted_inv in Hs as [Hs Hh]. inversion Hh as [|? ? Hle]; subst. destruct Hfit as [Hx Hfit].
    apply (IH (as_time x)); [done..|]. apply (represents_later _ _ _ _ _ Hle) in Hr.
    destruct x as [r t|t|t|t]; simpl in *; [by apply verdict_spec|by apply periodic_spec|done|].
    destruct Hr as [<- _ _ _]. apply represents_start.
Qed.


(** A forklift and person pair [(forklift, person)] reported at [et]. *)
Definition pair_report (et : EventType) (forklift person : Z) : SensorData := {|
  sd_clientID := 1; sd_isHealthy := true; sd_isTrustedSource := true;
  sd_event := {|
    ev_id := 7; ev_sensorIdentifier := []; ev_type := et; ev_cause := 0; ev_severity := OPERATIONAL; ev_timestamp := 1;
    ev_confidenceLevel := f32_one; ev_status := PASSTHROUGH;
    ev_fusionMetadata := {| fm_coordinates := []; fm_pipelineID := 1; fm_clientID := 1; fm_objectType := (OBJECT, PERSON);
                            fm_speed := 0; fm_objectID := (forklift, person) |} |} |}.

Definition pair_batch (entries : list SensorData) : DecisionRequest := {|
  dr_requestId := 1; dr_pssStatus := zero_status; dr_sensorDataSummarySize := Z.of_nat (length entries);
  dr_sensorDataSummary := entries; dr_integrity := zero_integrity |}.

(** A critical pair, a later batch that does not report it, a repeat. *)
Definition pair_steps : list AStep :=
  [ABatch (pair_batch [pair_report EVENT_10 1 2; pair_report EVENT_8 1 3]) 1000; APeriodic 1500].

