(* ===== verification/SdmInstances.v ===== *)
(** * The other two decision makers of the core

    [CrossingJunctionSafetyControl.cpp] and [AtlProximityControl.cpp] carry their own
    copies of the functions of [ProximityControl.cpp] that [SdmCore] models; the
    copies differ in the packet identifier, the motion opcode, the object records,
    the reviewed sensors, the clock of the acknowledgements and the application's
    own state, all of them arguments of the core.  Each definition below is the
    copy of one function; [cjs_body] and [apx_body] assemble the threads of the two
    processes from them, and both are instances of [body], so the theorems of
    [SdmSafety] hold of both. *)

From S2P Require Import Prelude Protocol Crc Validate SdmRequestState GatewayContract SdmSequence Threads PlcPacket SdmCore SdmRules SdmSafety Proximity Junction PairFusion AtlProximity.

(** ** CrossingJunctionSafetyControl.cpp *)

Definition cjs_copyObjectRecordFromMetadata := copyObjectRecordFromMetadata.
Definition cjs_fillPairObjectRecords := fillPairObjectRecords.
Definition cjs_isUsableObjectMetadataSlot := isUsableObjectMetadataSlot.
Definition cjs_fillObjectRecords := fillObjectRecords cjs_fillPairObjectRecords.

(** The sensors reviewed for this deployment, by pipeline. *)
Definition kSafetyRelevantSensors : list Z := [1; 2].

Definition cjs_config (maxHbFailures hbStaleMs hbPeriodMs freshnessTimeoutMs : Z) : SdmConfig := {|
  cf_reviewed := kSafetyRelevantSensors; cf_maxHbFailures := maxHbFailures; cf_hbStaleMs := hbStaleMs;
  cf_hbPeriodMs := hbPeriodMs; cf_freshnessTimeoutMs := freshnessTimeoutMs |}.

Section CjsProcess.
Context (jc : JunctionConfig).
#[local] Instance cjs_app : SdmApp Cjs := junction_app jc.

Definition cjs_nextCommandSeq := nextCommandSeq (App := Cjs).
Definition cjs_getCurrentUTCTimeForPacket := getCurrentUTCTimeForPacket (App := Cjs).
Definition cjs_gatewayMissFromElapsedMs := gatewayMissFromElapsedMs.
Definition cjs_safeStateLatched := safeStateLatched (App := Cjs).
Definition cjs_pssAnySubCauseActive := pssAnySubCauseActive (App := Cjs).
Definition cjs_markPssSubCause := markPssSubCause (App := Cjs).
Definition cjs_clearPssSubCause := clearPssSubCause (App := Cjs).
Definition cjs_safetyRelevantSensorBit := safetyRelevantSensorBit.
Definition cjs_markAllSafetyRelevantSensorsFailedLatched := markAllSafetyRelevantSensorsFailedLatched (App := Cjs).
Definition cjs_clearAllSafetyRelevantSensorsFailedActiveIfRecovered := clearAllSafetyRelevantSensorsFailedActiveIfRecovered (App := Cjs).
Definition cjs_updateSafetyRelevantSensorFailedBit := updateSafetyRelevantSensorFailedBit (App := Cjs).
Definition cjs_updateSensorHealthFromDecisionRequest := updateSensorHealthFromDecisionRequest (App := Cjs).
Definition cjs_markAiPipelineInvalidLatched := markAiPipelineInvalidLatched (App := Cjs).
Definition cjs_clearAiPipelineInvalidActive := clearAiPipelineInvalidActive (App := Cjs).
Definition cjs_updateAiPipelineTrustFromDecisionRequest := updateAiPipelineTrustFromDecisionRequest (App := Cjs).
Definition cjs_markGatewayHbFaultLatched := markGatewayHbFaultLatched (App := Cjs).
Definition cjs_clearGatewayHbFaultActive := clearGatewayHbFaultActive (App := Cjs).
Definition cjs_sendDecisionCommand := sendDecisionCommand (App := Cjs).
Definition cjs_isValidPlcInboundCommand := isValidPlcInboundCommand (App := Cjs).
Definition cjs_resetStateFromPlcSafeRelease := resetStateFromPlcSafeRelease (App := Cjs).
Definition cjs_activeSafeLatchCauses := activeSafeLatchCauses (App := Cjs).
Definition cjs_markSafeReleaseNoopResponseSuccess := markSafeReleaseNoopResponseSuccess (App := Cjs).
Definition cjs_sendSafeHold := sendSafeHold (App := Cjs).
Definition cjs_markDecisionRequestFresh := markDecisionRequestFresh (App := Cjs).
Definition cjs_markDecisionFreshnessFaultLatched := markDecisionFreshnessFaultLatched (App := Cjs).
Definition cjs_markGatewayDecisionSequenceFaultLatched := markGatewayDecisionSequenceFaultLatched (App := Cjs).
Definition cjs_markGatewayDecisionSequenceRecovered := markGatewayDecisionSequenceRecovered (App := Cjs).
Definition cjs_sendLatchedSafeHold := sendLatchedSafeHold (App := Cjs).
Definition cjs_decisionFreshnessWatchdog := decisionFreshnessWatchdog (App := Cjs).
Definition cjs_handleSafeReleaseRequest := handleSafeReleaseRequest (App := Cjs).
Definition cjs_ackHandlerLoop := ackHandlerLoop (App := Cjs).
Definition cjs_heartbeatTransmitter := heartbeatTransmitter (App := Cjs).
Definition cjs_gatewayHeartbeatWatchdog := gatewayHeartbeatWatchdog (App := Cjs).
Definition cjs_periodicDecisionLoop := periodicDecisionLoop (App := Cjs).
Definition cjs_applySourcePresence := applySourcePresence (App := Cjs).
Definition cjs_applySourceInputState := applySourceInputState (App := Cjs).
Definition cjs_applySwFailEvents := applySwFailEvents (App := Cjs).
Definition cjs_processDecisionRequestLocked := processDecisionRequestLocked (App := Cjs).
Definition cjs_on_packet := on_packet (App := Cjs).
Definition cjs_on_heartbeat := on_heartbeat (App := Cjs).
Definition cjs_junctionEvalLoop (t : Tid) : prog (Sdm Cjs) Env unit :=
  evaluationTick t (fun now s =>
    let '(cmd, m) := resolveJunctionCommand jc now (cj_junctions s) in (cmd, cset_junctions m s)).

Section CjsThreads.
Context (cf : SdmConfig).

(** The threads of the process, and what each runs for one input. *)
Definition cjs_body (t : Tid) (i : Input) : option (prog (Sdm Cjs) Env unit) :=
  match t, i with
  | Listener, InPacket packet => Some (cjs_on_packet cf t packet)
  | Listener, InHeartbeat => Some cjs_on_heartbeat
  | AckHandler, InPlc datagram => Some (cjs_ackHandlerLoop t datagram)
  | HbWatchdog, InTick => Some (cjs_gatewayHeartbeatWatchdog cf t)
  | FreshnessWatchdog, InTick => Some (cjs_decisionFreshnessWatchdog cf t)
  | PeriodicDecision, InTick => Some (cjs_periodicDecisionLoop t)
  | HeartbeatTx, InTick => Some (cjs_heartbeatTransmitter t)
  | EvalTick, InTick => Some (cjs_junctionEvalLoop t)
  | _, _ => None
  end.

Lemma cjs_body_core t i : cjs_body t i = body (App := Cjs) cf t i.
Proof. by destruct t, i. Qed.

Definition cjs_runs (now : Z) (schedule : list Label) : option (@Pool (Sdm Cjs) Env Tid) :=
  exec cjs_body schedule (idle_pool (initial now)).

Lemma cjs_runs_core now schedule : cjs_runs now schedule = runs (App := Cjs) cf now schedule.
Proof. apply exec_ext. apply cjs_body_core. Qed.
End CjsThreads.
End CjsProcess.

(** ** AtlProximityControl.cpp *)

Definition apx_copyObjectRecordFromMetadata := copyObjectRecordFromMetadata.
Definition apx_isUsableObjectMetadataSlot := isUsableObjectMetadataSlot.
Definition apx_fillObjectRecords := fillObjectRecords fillRoleNormalizedObjectRecords.

Section ApxProcess.
Context (pairTtlMs : Z).
#[local] Instance apx_app : SdmApp Apx := atl_proximity_app pairTtlMs.

Definition apx_nextCommandSeq := nextCommandSeq (App := Apx).
Definition apx_getCurrentUTCTimeForPacket := getCurrentUTCTimeForPacket (App := Apx).
Definition apx_gatewayMissFromElapsedMs := gatewayMissFromElapsedMs.
Definition apx_safeStateLatched := safeStateLatched (App := Apx).
Definition apx_pssAnySubCauseActive := pssAnySubCauseActive (App := Apx).
Definition apx_markPssSubCause := markPssSubCause (App := Apx).
Definition apx_clearPssSubCause := clearPssSubCause (App := Apx).
Definition apx_safetyRelevantSensorBit := safetyRelevantSensorBit.
Definition apx_markAllSafetyRelevantSensorsFailedLatched := markAllSafetyRelevantSensorsFailedLatched (App := Apx).
Definition apx_clearAllSafetyRelevantSensorsFailedActiveIfRecovered := clearAllSafetyRelevantSensorsFailedActiveIfRecovered (App := Apx).
Definition apx_updateSafetyRelevantSensorFailedBit := updateSafetyRelevantSensorFailedBit (App := Apx).
Definition apx_updateSensorHealthFromDecisionRequest := updateSensorHealthFromDecisionRequest (App := Apx).
Definition apx_markAiPipelineInvalidLatched := markAiPipelineInvalidLatched (App := Apx).
Definition apx_clearAiPipelineInvalidActive := clearAiPipelineInvalidActive (App := Apx).
Definition apx_updateAiPipelineTrustFromDecisionRequest := updateAiPipelineTrustFromDecisionRequest (App := Apx).
Definition apx_markGatewayHbFaultLatched := markGatewayHbFaultLatched (App := Apx).
Definition apx_clearGatewayHbFaultActive := clearGatewayHbFaultActive (App := Apx).
Definition apx_sendDecisionCommand := sendDecisionCommand (App := Apx).
Definition apx_isValidPlcInboundCommand := isValidPlcInboundCommand (App := Apx).
Definition apx_resetStateFromPlcSafeRelease := resetStateFromPlcSafeRelease (App := Apx).
Definition apx_activeSafeLatchCauses := activeSafeLatchCauses (App := Apx).
Definition apx_markSafeReleaseNoopResponseSuccess := markSafeReleaseNoopResponseSuccess (App := Apx).
Definition apx_sendSafeHold := sendSafeHold (App := Apx).
Definition apx_markDecisionRequestFresh := markDecisionRequestFresh (App := Apx).
Definition apx_markDecisionFreshnessFaultLatched := markDecisionFreshnessFaultLatched (App := Apx).
Definition apx_markGatewayDecisionSequenceFaultLatched := markGatewayDecisionSequenceFaultLatched (App := Apx).
Definition apx_markGatewayDecisionSequenceRecovered := markGatewayDecisionSequenceRecovered (App := Apx).
Definition apx_sendLatchedSafeHold := sendLatchedSafeHold (App := Apx).
Definition apx_decisionFreshnessWatchdog := decisionFreshnessWatchdog (App := Apx).
Definition apx_handleSafeReleaseRequest := handleSafeReleaseRequest (App := Apx).
Definition apx_ackHandlerLoop := ackHandlerLoop (App := Apx).
Definition apx_heartbeatTransmitter := heartbeatTransmitter (App := Apx).
Definition apx_gatewayHeartbeatWatchdog := gatewayHeartbeatWatchdog (App := Apx).
Definition apx_periodicDecisionLoop := periodicDecisionLoop (App := Apx).
Definition apx_applySourcePresence := applySourcePresence (App := Apx).
Definition apx_applySourceInputState := applySourceInputState (App := Apx).
Definition apx_applySwFailEvents := applySwFailEvents (App := Apx).
Definition apx_processDecisionRequestLocked := processDecisionRequestLocked (App := Apx).
Definition apx_on_packet := on_packet (App := Apx).
Definition apx_on_heartbeat := on_heartbeat (App := Apx).

Section ApxThreads.
Context (cf : SdmConfig).

(** The threads of the process, and what each runs for one input. *)
Definition apx_body (t : Tid) (i : Input) : option (prog (Sdm Apx) Env unit) :=
  match t, i with
  | Listener, InPacket packet => Some (apx_on_packet cf t packet)
  | Listener, InHeartbeat => Some apx_on_heartbeat
  | AckHandler, InPlc datagram => Some (apx_ackHandlerLoop t datagram)
  | HbWatchdog, InTick => Some (apx_gatewayHeartbeatWatchdog cf t)
  | FreshnessWatchdog, InTick => Some (apx_decisionFreshnessWatchdog cf t)
  | PeriodicDecision, InTick => Some (apx_periodicDecisionLoop t)
  | HeartbeatTx, InTick => Some (apx_heartbeatTransmitter t)
  | _, _ => None
  end.

Lemma apx_body_core t i : apx_body t i = body (App := Apx) cf t i.
Proof. by destruct t, i. Qed.

Definition apx_runs (now : Z) (schedule : list Label) : option (@Pool (Sdm Apx) Env Tid) :=
  exec apx_body schedule (idle_pool (initial now)).

Lemma apx_runs_core now schedule : apx_runs now schedule = runs (App := Apx) cf now schedule.
Proof. apply exec_ext. apply apx_body_core. Qed.
End ApxThreads.
End ApxProcess.
