(* ===== verification/SdmSiblings.v ===== *)
(** * The safety theorems on the two sibling processes

    The crossing-junction and the ATL-proximity processes run the threads of
    [SdmInstances]; the theorem on the last word of [SdmSafety] is carried over to
    them, with a schedule that latches both. *)

From S2P Require Import Prelude Protocol Crc Validate SdmRequestState GatewayContract SdmSequence Threads PlcPacket SdmCore SdmRules SdmSafety Proximity ProximityRuns Junction JunctionSafety PairFusion AtlProximity SdmInstances.

(** The hold is the last word of a process, when its threads are idle. *)
Definition holds_last_word {App} (c : @Pool (Sdm App) Env Tid) : Prop :=
  sm_latch (shared c) <> 0 \/ sm_pssSuppress (shared c) = true \/ sm_tier2Hold (shared c) = true ->
  last_word (sm_sent (shared c)) = WHold \/ last_word (sm_sent (shared c)) = WSplit.

(** In the crossing-junction and in the ATL-proximity process too, in every
    interleaving of the threads (the junction evaluation tick included) and once
    none is inside a handler: with a latch set, fusion suppressed or the tier-2
    hold on, the last command handed to the PLC socket is the hold, save after a
    release whose CMD_NORMAL was delivered and whose acknowledgement was not. *)
Theorem siblings_hold_has_last_word jc pairTtlMs cf now ls :
  (forall c, cjs_runs jc cf now ls = Some c -> all_idle c -> holds_last_word c) /\
  (forall c, apx_runs pairTtlMs cf now ls = Some c -> all_idle c -> holds_last_word c).
Proof.
  split; intros c Hr Hid.
  - rewrite cjs_runs_core in Hr. exact (idle_word (SdmApp0 := junction_app jc) cf now ls c Hr Hid).
  - rewrite apx_runs_core in Hr. exact (idle_word (SdmApp0 := atl_proximity_app pairTtlMs) cf now ls c Hr Hid).
Qed.

Definition pool_idleb {App} (c : @Pool (Sdm App) Env Tid) : bool := forallb (fun t => is_idle (code c t)) tids.

Lemma pool_idleb_spec {App} (c : @Pool (Sdm App) Env Tid) : pool_idleb c = true -> all_idle c.
Proof. intros H t. unfold pool_idleb in H. rewrite forallb_forall in H. apply H. destruct t; simpl; tauto. Qed.

Definition held {App} (c : @Pool (Sdm App) Env Tid) : bool := pool_idleb c && Z.testbit (sm_latch (shared c)) 0.

Lemma held_latched {App} (c : @Pool (Sdm App) Env Tid) : held c = true -> all_idle c /\ sm_latch (shared c) <> 0.
Proof.
  intros H. apply andb_true_iff in H as [Hi Hl]. split; [by apply pool_idleb_spec|]. intros H0. by rewrite H0 in Hl.
Qed.

Lemma some_pool {App} (o : option (@Pool (Sdm App) Env Tid)) f :
  match o with Some c => f c | None => false end = true -> exists c, o = Some c /\ f c = true.
Proof. destruct o as [c|]; [by exists c|done]. Qed.

Lemma siblings_hold_has_last_word_witness :
  (exists c, cjs_runs default_junctions px_config 0 silent_gateway = Some c /\ sm_latch (shared c) <> 0 /\
     (last_word (sm_sent (shared c)) = WHold \/ last_word (sm_sent (shared c)) = WSplit)) /\
  (exists c, apx_runs ATLPXC_PAIR_TTL_MS_DEFAULT px_config 0 silent_gateway = Some c /\ sm_latch (shared c) <> 0 /\
     (last_word (sm_sent (shared c)) = WHold \/ last_word (sm_sent (shared c)) = WSplit)).
Proof.
  destruct (siblings_hold_has_last_word default_junctions ATLPXC_PAIR_TTL_MS_DEFAULT px_config 0 silent_gateway)
    as [Hc Ha]. split.
  - destruct (some_pool (cjs_runs default_junctions px_config 0 silent_gateway) held) as (c & Hr & Hf);
      [vm_compute; reflexivity|].
    apply held_latched in Hf as [Hi Hl]. exists c. split; [done|]. split; [done|]. apply (Hc c Hr Hi). by left.
  - destruct (some_pool (apx_runs ATLPXC_PAIR_TTL_MS_DEFAULT px_config 0 silent_gateway) held) as (c & Hr & Hf);
      [vm_compute; reflexivity|].
    apply held_latched in Hf as [Hi Hl]. exists c. split; [done|]. split; [done|]. apply (Ha c Hr Hi). by left.
Defined.
