(* ===== verification/SdmLink.v ===== *)
(** * A decision maker's link to the gateway

    The upstream side of [ProximityControl.cpp]: opening, losing and re-opening
    the transport, the registration (REGR) and its retries, the heartbeat
    acknowledgement that is kept while the transport is full, and the event
    listener's loop around them.  [CrossingJunctionSafetyControl.cpp] has the same
    code; [AtlProximityControl.cpp] differs in not keeping the acknowledgement.

    The listener is a program over the calls it makes: each call of the transport,
    the clock, another thread's atomics or the decision handlers is a node of the
    tree, followed by the program for each answer.  A loop takes a number of
    rounds; [Cut] ends the observation of a program that would go on, so that a
    statement about every number of rounds is one about every finite prefix of a
    run.  Log text and the transport's own code are not part of the model. *)

From S2P Require Import Prelude Protocol Crc Validate SdmRequestState GatewayContract SdmSequence Gateway.

Definition NVPSD_GATEWAY_HB_MAGIC_GATEWAY : list Z := bytes_of_string "HBPG".
Definition REG_RETRY_INTERVAL_MS : Z := 30000.
Definition REGR_SEND_MAX_ATTEMPTS : nat := 32.
Definition REGR_SEND_RETRY_SLEEP_MS : Z := 5.
Definition GW_RECONNECT_INTERVAL_MS : Z := 500.

(** [sizeof(NvPSDGatewayDecisionRequestPacket)]. *)
Definition DECISION_PACKET_SIZE : nat := (Z.to_nat NVPSD_GATEWAY_DECISION_HEADER_SIZE + (DECISION_REQUEST_CRC_OFFSET + 4))%nat.

(** ** Programs over calls *)

(** What the periodic registration reads of the other threads. *)
Record Watch := { wa_latched : bool; wa_missCount : Z; wa_tier2Attempts : Z }.

Inductive call : Type -> Type :=
  | Stopping : call bool
  | Clock : call Z
  | ReadWatch : call Watch
  | TakeTier2Attempt : call unit
  | Open : call (option Z)
  | SolePeer (h : Z) : call bool
  | Close (h : Z) : call unit
  | Send (h : Z) (buf : list Z) : call NvPSFTransportErr
  | Poll (h : Z) : call (NvPSFTransportErr * list bool)
  | Recv (h : Z) : call (NvPSFTransportErr * list Z)
  | Sleep (ms : Z) : call unit
  | OnHeartbeat : call unit
  | OnDecision (buf : list Z) : call unit.

Inductive io (A : Type) : Type :=
  | Done (a : A)
  | Cut
  | Call (B : Type) (c : call B) (k : B -> io A).
Arguments Done {A} a.
Arguments Cut {A}.
Arguments Call {A B} c k.

(** The static variables of the link. *)
Record Link := {
  lk_transport : option Z;
  lk_ackPending : bool;
  lk_ackBuf : list Z;
  lk_lastRegistration : Z;
  lk_lastRefusal : Z;
}.

Definition set_transport (t : option Z) (l : Link) : Link := {|
  lk_transport := t; lk_ackPending := lk_ackPending l; lk_ackBuf := lk_ackBuf l;
  lk_lastRegistration := lk_lastRegistration l; lk_lastRefusal := lk_lastRefusal l |}.
Definition set_ack (pending : bool) (buf : list Z) (l : Link) : Link := {|
  lk_transport := lk_transport l; lk_ackPending := pending; lk_ackBuf := buf;
  lk_lastRegistration := lk_lastRegistration l; lk_lastRefusal := lk_lastRefusal l |}.
Definition set_lastRegistration (now : Z) (l : Link) : Link := {|
  lk_transport := lk_transport l; lk_ackPending := lk_ackPending l; lk_ackBuf := lk_ackBuf l;
  lk_lastRegistration := now; lk_lastRefusal := lk_lastRefusal l |}.
Definition set_lastRefusal (r : Z) (l : Link) : Link := {|
  lk_transport := lk_transport l; lk_ackPending := lk_ackPending l; lk_ackBuf := lk_ackBuf l;
  lk_lastRegistration := lk_lastRegistration l; lk_lastRefusal := r |}.

Definition M (A : Type) : Type := Link -> io (A * Link).

Fixpoint io_bind {A B} (p : io A) (q : A -> io B) : io B :=
  match p with
  | Done a => q a
  | Cut => Cut
  | Call c k => Call c (fun b => io_bind (k b) q)
  end.

Definition ret {A} (a : A) : M A := fun l => Done (a, l).
Definition bind {A B} (m : M A) (f : A -> M B) : M B := fun l => io_bind (m l) (fun al => f al.1 al.2).
Definition perform {B} (c : call B) : M B := fun l => Call c (fun b => Done (b, l)).
Definition gets {A} (f : Link -> A) : M A := fun l => Done (f l, l).
Definition modify (f : Link -> Link) : M unit := fun l => Done (tt, f l).
Definition cut {A} : M A := fun _ => Cut.
Definition when (b : bool) (m : M unit) : M unit := if b then m else ret tt.

Declare Scope link_scope.
Delimit Scope link_scope with link.
Notation "x ← y ; z" := (bind y (fun x => z)) : link_scope.
Notation "y ;; z" := (bind y (fun _ => z)) : link_scope.
Local Open Scope link_scope.

(** ** Transport *)

Definition openGatewayTransport : M bool :=
  t ← perform Open;
  match t with
  | None => ret false
  | Some h =>
    known ← perform (SolePeer h);
    if known : bool then modify (set_transport (Some h));; ret true
    else perform (Close h);; ret false
  end.

Definition closeGatewayTransport : M unit :=
  t ← gets lk_transport;
  modify (set_transport None);;
  match t with Some h => perform (Close h) | None => ret tt end.

Definition gatewaySend (buf : list Z) : M NvPSFTransportErr :=
  t ← gets lk_transport;
  match t with Some h => perform (Send h buf) | None => ret NVPSF_TRANSPORT_PEER_GONE end.

(** ** Heartbeat acknowledgement *)

Definition hbAckApplySendResult (err : NvPSFTransportErr) (requirePendingFlag : bool) : M unit :=
  modify (fun l =>
    if requirePendingFlag && negb (lk_ackPending l) then l
    else match err with
         | NVPSF_TRANSPORT_WOULD_BLOCK => l
         | _ => set_ack false (lk_ackBuf l) l
         end).

Definition flushPendingHbAck : M unit :=
  l ← gets (fun l => l);
  if negb (lk_ackPending l) || bool_decide (lk_transport l = None) then ret tt
  else err ← gatewaySend (lk_ackBuf l); hbAckApplySendResult err true.

Definition emitHbAckTryOnce (ack : list Z) : M unit :=
  modify (set_ack true ack);;
  t ← gets lk_transport;
  match t with
  | None => ret tt
  | Some _ => err ← gatewaySend ack; hbAckApplySendResult err false
  end.

(** [HBPC] and the sequence number of the heartbeat. *)
Definition make_ack (heartbeat : list Z) : list Z := NVPSD_GATEWAY_HB_MAGIC_CLIENT ++ take 4 (drop 4 heartbeat).

(** ** The link of one process *)

Record LinkConfig := {
  lc_subscribed : list EventType; (* the event types of the REGR *)
  lc_keepsAck : bool; (* whether an acknowledgement the transport refuses is kept *)
  lc_closesFailedLaunch : bool; (* whether a launch whose REGR fails closes the transport *)
  lc_warnThreshold : Z;
  lc_maxHbFailures : Z;
}.

Section Process.
Context (lc : LinkConfig).

Definition regr : list Z := build_regr (lc_subscribed lc).

(** [attempts] more sends of the REGR. *)
Fixpoint registration_attempts (retryUntilWritable : bool) (attempts : nat) : M bool :=
  match attempts with
  | O => ret false
  | S attempts' =>
    err ← gatewaySend regr;
    match err with
    | NVPSF_TRANSPORT_OK => ret true
    | NVPSF_TRANSPORT_WOULD_BLOCK =>
      if negb retryUntilWritable then ret false
      else perform (Sleep REGR_SEND_RETRY_SLEEP_MS);; registration_attempts retryUntilWritable attempts'
    | _ => ret false
    end
  end.

Definition sendGatewayRegistration (retryUntilWritable : bool) : M bool :=
  registration_attempts retryUntilWritable (if retryUntilWritable then REGR_SEND_MAX_ATTEMPTS else 1%nat).

(** Up to [rounds] rounds of the reconnect loop; false on shutdown. *)
Fixpoint reconnectGatewayTransport (rounds : nat) : M bool :=
  match rounds with
  | O => cut
  | S rounds' =>
    stop ← perform Stopping;
    if stop : bool then ret false
    else
      opened ← openGatewayTransport;
      registered ← (if opened : bool then sendGatewayRegistration true else ret false);
      if registered : bool then
        now ← perform Clock;
        modify (set_lastRegistration now);;
        ret true
      else
        when opened closeGatewayTransport;;
        perform (Sleep GW_RECONNECT_INTERVAL_MS);;
        reconnectGatewayTransport rounds'
  end.

(** Whether a due REGR is tried, and whether it uses up a tier-2 attempt. *)
Definition registration_allowed (w : Watch) : bool * bool :=
  if wa_latched w then (true, false)
  else if wa_missCount w <=? lc_warnThreshold lc then (true, false)
  else if (wa_missCount w <? lc_maxHbFailures lc) && (0 <? wa_tier2Attempts w) then (true, true)
  else (false, false).

Definition periodicRegistration : M unit :=
  now ← perform Clock;
  last ← gets lk_lastRegistration;
  if now - last <? REG_RETRY_INTERVAL_MS then ret tt
  else
    w ← perform ReadWatch;
    let '(allow, tier2Attempt) := registration_allowed w in
    if negb allow then ret tt
    else
      when tier2Attempt (perform TakeTier2Attempt);;
      sent ← sendGatewayRegistration false;
      when sent (modify (set_lastRegistration now)).

Definition acknowledge (heartbeat : list Z) : M unit :=
  let ack := make_ack heartbeat in
  if lc_keepsAck lc then emitHbAckTryOnce ack else err ← gatewaySend ack; ret tt.

(** One message of the gateway. *)
Definition onGatewayMessage (buf : list Z) : M unit :=
  if (length buf =? NVPSD_GATEWAY_HB_MSG_SIZE)%nat && bool_decide (take 4 buf = NVPSD_GATEWAY_HB_MAGIC_GATEWAY) then
    perform OnHeartbeat;;
    modify (set_lastRefusal 0);;
    acknowledge buf
  else
    match NvPSDGatewayParseRegReject (Some buf) with
    | Some refusal => modify (set_lastRefusal refusal)
    | None => if (length buf =? DECISION_PACKET_SIZE)%nat then perform (OnDecision buf) else ret tt
    end.

(** One round of [psdGatewayEventListener]; false when it leaves the loop.
    [rounds] bounds a reconnect. *)
Definition listenerRound (rounds : nat) : M bool :=
  when (lc_keepsAck lc) flushPendingHbAck;;
  periodicRegistration;;
  t ← gets lk_transport;
  match t with
  | None => reconnectGatewayTransport rounds
  | Some h =>
    polled ← perform (Poll h);
    let peerGone := existsb (fun gone => gone) polled.2 in
    if negb peerGone && negb (bool_decide (polled.1 = NVPSF_TRANSPORT_OK)) && negb (bool_decide (polled.1 = NVPSF_TRANSPORT_TIMEOUT))
    then perform (Sleep 50);; ret true
    else
      received ← (if peerGone then ret (NVPSF_TRANSPORT_WOULD_BLOCK, []) else perform (Recv h));
      if peerGone || bool_decide (received.1 = NVPSF_TRANSPORT_PEER_GONE) then
        closeGatewayTransport;;
        reconnectGatewayTransport rounds
      else
        match received.1 with
        | NVPSF_TRANSPORT_OK => onGatewayMessage received.2;; ret true
        | _ => ret true
        end
  end.

Fixpoint psdGatewayEventListener (rounds : nat) : M unit :=
  match rounds with
  | O => cut
  | S rounds' =>
    stop ← perform Stopping;
    if stop : bool then ret tt
    else
      more ← listenerRound rounds';
      if more : bool then psdGatewayEventListener rounds' else ret tt
  end.

(** The transport part of the launch. *)
Definition launchGatewayLink : M unit :=
  opened ← openGatewayTransport;
  registered ← (if opened : bool then sendGatewayRegistration true else ret false);
  when (lc_closesFailedLaunch lc && negb registered) closeGatewayTransport;;
  now ← perform Clock;
  modify (set_lastRegistration (if registered : bool then now else now - REG_RETRY_INTERVAL_MS)).

(** Launch, the listener, shutdown. *)
Definition gatewayLink (rounds : nat) : M unit :=
  launchGatewayLink;;
  psdGatewayEventListener rounds;;
  closeGatewayTransport.
End Process.

Definition initial_link : Link := {|
  lk_transport := None; lk_ackPending := false; lk_ackBuf := replicate NVPSD_GATEWAY_HB_MSG_SIZE 0;
  lk_lastRegistration := 0; lk_lastRefusal := 0 |}.
