(* ===== verification/SdmLinkSafety.v ===== *)
(** * What the gateway can rely on from a decision maker's link

    Monitors read the calls a run of [SdmLink.gatewayLink] makes, with their
    answers, and reject a trace that breaks a rule: one about the transport's
    handle and the registration, one about heartbeat acknowledgements.  A
    weakest-precondition calculus over programs shows that no run, whatever the
    transport answers, is rejected. *)

From S2P Require Import Prelude Protocol Crc Validate SdmRequestState GatewayContract SdmSequence Gateway SdmLink.

(** ** Traces *)

Inductive event :=
  | EOpen (answer : option Z)
  | ESolePeer (h : Z)
  | EClose (h : Z)
  | ESend (h : Z) (buf : list Z) (answer : NvPSFTransportErr)
  | EPoll (h : Z)
  | ERecv (h : Z) (answer : NvPSFTransportErr) (buf : list Z)
  | EOther.

Definition event_of {B} (c : call B) : B -> event :=
  match c with
  | Open => EOpen
  | SolePeer h => fun _ => ESolePeer h
  | Close h => fun _ => EClose h
  | Send h buf => ESend h buf
  | Poll h => fun _ => EPoll h
  | Recv h => fun answer => ERecv h answer.1 answer.2
  | _ => fun _ => EOther
  end.

(** [trace p es r]: [es] is a run of [p], to its end with a result or up to a cut. *)
Inductive trace {A} : io A -> list event -> option A -> Prop :=
  | TrDone a : trace (Done a) [] (Some a)
  | TrCut : trace Cut [] None
  | TrCall B (c : call B) k (b : B) es r : trace (k b) es r -> trace (Call c k) (event_of c b :: es) r.

(** ** Monitors *)

Section Monitor.
Context {S : Type} (check : event -> S -> option S).

Fixpoint accepts (es : list event) (s : S) : option S :=
  match es with
  | [] => Some s
  | e :: es' => s' ← check e s; accepts es' s'
  end.

(** No run of [p] from [s] is rejected, and a run that ends establishes [Q]. *)
Fixpoint wp {A} (p : io A) (Q : A -> S -> Prop) (s : S) : Prop :=
  match p with
  | Done a => Q a s
  | Cut => True
  | Call c k => forall b, match check (event_of c b) s with Some s' => wp (k b) Q s' | None => False end
  end.

Lemma wp_sound {A} (p : io A) Q s es r : trace p es r -> wp p Q s ->
  exists s', accepts es s = Some s' /\ match r with Some a => Q a s' | None => True end.
Proof.
  intros Ht. revert s. induction Ht as [a| |B c k b es r _ IH]; intros s Hw; simpl in *; [by exists s|by exists s|].
  specialize (Hw b). destruct (check (event_of c b) s) as [s'|]; [|done]. by apply IH.
Qed.

Lemma link_mono {A} (p : io A) (Q Q' : A -> S -> Prop) s : (forall a s, Q a s -> Q' a s) -> wp p Q s -> wp p Q' s.
Proof.
  intros HQ. revert s. induction p as [a| |B c k IH]; intros s; simpl; [auto|done|].
  intros Hw b. specialize (Hw b). destruct (check (event_of c b) s); [by apply IH|done].
Qed.

Lemma wp_io_bind {A B} (p : io A) (q : A -> io B) Q s : wp p (fun a s => wp (q a) Q s) s -> wp (io_bind p q) Q s.
Proof.
  revert s. induction p as [a| |C c k IH]; intros s; simpl; [auto|done|].
  intros Hw b. specialize (Hw b). destruct (check (event_of c b) s); [by apply IH|done].
Qed.

(** Triples of programs with the link's variables. *)
Definition triple {A} (P : Link -> S -> Prop) (m : M A) (Q : A -> Link -> S -> Prop) : Prop :=
  forall l s, P l s -> wp (m l) (fun al s' => Q al.1 al.2 s') s.

Lemma link_ret {A} (a : A) Q : triple (Q a) (ret a) Q.
Proof. intros l s H. done. Qed.

Lemma link_bind {A B} P R Q (m : M A) (f : A -> M B) :
  triple P m R -> (forall a, triple (R a) (f a) Q) -> triple P (bind m f) Q.
Proof.
  intros H1 H2 l s HP. unfold bind. apply wp_io_bind. eapply link_mono; [|by apply H1]. simpl. intros [a l'] s' HR. by apply H2.
Qed.

Lemma triple_weaken {A} (P P' : Link -> S -> Prop) (Q Q' : A -> Link -> S -> Prop) m :
  (forall l s, P' l s -> P l s) -> (forall a l s, Q a l s -> Q' a l s) -> triple P m Q -> triple P' m Q'.
Proof. intros HP HQ H l s HP'. eapply link_mono; [|apply H, HP, HP']. intros [a l'] s'. apply HQ. Qed.

Lemma triple_gets {A} (f : Link -> A) P : triple P (gets f) (fun a l s => a = f l /\ P l s).
Proof. intros l s H. done. Qed.

Lemma triple_modify f (P : Link -> S -> Prop) : triple (fun l s => P (f l) s) (modify f) (fun _ => P).
Proof. intros l s H. done. Qed.

Lemma triple_cut {A} P (Q : A -> Link -> S -> Prop) : triple P cut Q.
Proof. intros l s H. done. Qed.

Lemma triple_perform {B} (c : call B) (P : Link -> S -> Prop) (Q : B -> Link -> S -> Prop) :
  (forall l s b, P l s -> exists s', check (event_of c b) s = Some s' /\ Q b l s') -> triple P (perform c) Q.
Proof. intros H l s HP b. simpl. destruct (H l s b HP) as (s' & -> & HQ). done. Qed.

(** Calls the monitor does not read. *)
Lemma triple_neutral {B} (c : call B) P : (forall b s, check (event_of c b) s = Some s) -> triple P (perform c) (fun _ => P).
Proof. intros H. apply triple_perform. intros l s b HP. rewrite H. by exists s. Qed.

Lemma link_when b (m : M unit) P : (b = true -> triple P m (fun _ => P)) -> triple P (when b m) (fun _ => P).
Proof. intros H. destruct b; simpl; [auto|apply (link_ret tt (fun _ => P))]. Qed.
End Monitor.

(** ** The handle and the registration *)

(** The open handle, whether a REGR has gone out on it, and whether it is the one
    opened at launch. *)
Record Conn := { cn_handle : option Z; cn_registered : bool; cn_launch : bool }.

Definition conn0 : Conn := {| cn_handle := None; cn_registered := false; cn_launch := true |}.

Section Handle.
Context (lc : LinkConfig).

(** At most one handle is open; a call uses the open handle; the listener waits
    only on a handle whose registration went out, the launch's own apart. *)
Definition check_handle (e : event) (s : Conn) : option Conn :=
  match e with
  | EOpen None => Some {| cn_handle := cn_handle s; cn_registered := cn_registered s; cn_launch := false |}
  | EOpen (Some h) =>
    if cn_handle s is Some _ then None else Some {| cn_handle := Some h; cn_registered := false; cn_launch := cn_launch s |}
  | EClose h => if decide (cn_handle s = Some h) then Some {| cn_handle := None; cn_registered := false; cn_launch := false |} else None
  | ESolePeer h => if decide (cn_handle s = Some h) then Some s else None
  | ESend h buf err =>
    if decide (cn_handle s = Some h) then
      Some (if decide (buf = regr lc /\ err = NVPSF_TRANSPORT_OK)
            then {| cn_handle := cn_handle s; cn_registered := true; cn_launch := cn_launch s |} else s)
    else None
  | EPoll h | ERecv h _ _ => if decide (cn_handle s = Some h /\ (cn_registered s || cn_launch s) = true) then Some s else None
  | EOther => Some s
  end.

(** The link's variable names the open handle ([Same]), which may be waited on
    ([Ready]); no handle is open ([Empty]). *)
Definition Same (l : Link) (s : Conn) : Prop := lk_transport l = cn_handle s.
Definition Ready (l : Link) (s : Conn) : Prop := Same l s /\ (is_Some (cn_handle s) -> (cn_registered s || cn_launch s) = true).
Definition Empty (l : Link) (s : Conn) : Prop := lk_transport l = None /\ cn_handle s = None.

Local Abbreviation triple := (triple check_handle).

Lemma empty_ready l s : Empty l s -> Ready l s.
Proof. intros [H1 H2]. split; [unfold Same; congruence|]. rewrite H2. by intros [? ?]. Qed.

Lemma triple_other {B} (c : call B) P : (forall b, event_of c b = EOther) -> triple P (perform c) (fun _ => P).
Proof. intros H. apply triple_neutral. intros b s. by rewrite H. Qed.

(** Changes of the link that leave its handle. *)
Lemma triple_local f P : (forall l, lk_transport (f l) = lk_transport l) ->
  (forall l l' s, lk_transport l' = lk_transport l -> P l s -> P l' s) -> triple P (modify f) (fun _ => P).
Proof. intros Hf HP l s H. simpl. by apply (HP l). Qed.

Lemma same_local (l l' : Link) s : lk_transport l' = lk_transport l -> Same l s -> Same l' s.
Proof. unfold Same. congruence. Qed.

Lemma ready_local (l l' : Link) s : lk_transport l' = lk_transport l -> Ready l s -> Ready l' s.
Proof. intros He [H1 H2]. split; [by apply (same_local l)|done]. Qed.

Lemma open_spec c : triple (fun l s => Empty l s /\ (c = true -> cn_launch s = true)) openGatewayTransport
  (fun ok l s => if ok : bool then Same l s /\ (c = true -> cn_launch s = true) else Empty l s).
Proof.
  eapply (link_bind _ _ (fun r l s =>
    match r with None => Empty l s | Some h => lk_transport l = None /\ cn_handle s = Some h /\ (c = true -> cn_launch s = true) end)).
  { apply triple_perform. intros l s [h|] [[H1 H2] H3]; simpl; [rewrite H2; simpl|]; eexists; (split; [reflexivity|]); done. }
  intros [h|]; [|apply (link_ret _ false (fun ok l s => if ok : bool then _ else Empty l s))].
  eapply (link_bind _ _ (fun _ l s => lk_transport l = None /\ cn_handle s = Some h /\ (c = true -> cn_launch s = true))).
  { apply triple_perform. intros l s b (H1 & H2 & H3). simpl. rewrite decide_True by done. eauto. }
  intros [].
  - eapply (link_bind _ _ (fun _ l s => Same l s /\ (c = true -> cn_launch s = true))).
    + intros l s (H1 & H2 & H3). simpl. split; [by unfold Same; simpl|done].
    + intros []. intros l s H. done.
  - eapply (link_bind _ _ (fun _ => Empty)); [|intros []; intros l s H; done].
    apply triple_perform. intros l s b (H1 & H2 & H3). simpl. rewrite decide_True by done. eexists. split; [reflexivity|done].
Qed.

Lemma close_spec : triple Same closeGatewayTransport (fun _ => Empty).
Proof.
  eapply link_bind; [apply triple_gets|]. intros t.
  eapply (link_bind _ _ (fun _ l s => lk_transport l = None /\ cn_handle s = t)).
  - intros l s [-> H]. simpl. split; [done|]. by rewrite <- H.
  - intros []. destruct t as [h|]; [|by intros l s [? ?]].
    apply triple_perform. intros l s b [H1 H2]. simpl. rewrite decide_True by done. eexists. split; [reflexivity|done].
Qed.

(** A send leaves the handle; an accepted REGR registers it. *)
Lemma send_spec buf c r :
  triple (fun l s => Same l s /\ (c = true -> cn_launch s = true) /\ (r = true -> is_Some (cn_handle s) -> (cn_registered s || cn_launch s) = true))
    (gatewaySend buf)
    (fun err l s => Same l s /\ (c = true -> cn_launch s = true) /\
       (r = true \/ buf = regr lc /\ err = NVPSF_TRANSPORT_OK -> is_Some (cn_handle s) -> (cn_registered s || cn_launch s) = true)).
Proof.
  eapply link_bind; [apply triple_gets|]. intros [h|].
  - apply triple_perform. intros l s err (Ht & Hs & Hc & Hr). unfold Same in Hs. rewrite <- Ht in Hs. simpl.
    rewrite decide_True by done. case_decide as Hd; eexists; (split; [reflexivity|]); simpl.
    + split_and!; [unfold Same; simpl; congruence|done|done].
    + split_and!; [unfold Same; congruence|done|]. intros [H|H]; [auto|done].
  - intros l s (Ht & Hs & Hc & Hr). simpl. split_and!; [done|done|]. unfold Same in Hs. intros _ [h Hh]. congruence.
Qed.

Lemma send_ready buf : triple Ready (gatewaySend buf) (fun _ => Ready).
Proof.
  eapply triple_weaken; [| |apply (send_spec buf false true)]; simpl.
  - intros l s [H1 H2]. split_and!; [done|done|auto].
  - intros err l s (H1 & _ & H3). split; [done|]. apply H3. by left.
Qed.

Lemma attempts_spec c retry n :
  triple (fun l s => Same l s /\ (c = true -> cn_launch s = true)) (registration_attempts lc retry n)
    (fun ok l s => Same l s /\ (c = true -> cn_launch s = true) /\ (ok = true -> Ready l s)).
Proof.
  induction n as [|n IH]; simpl; [intros l s H; simpl; naive_solver|].
  eapply link_bind.
  { eapply triple_weaken; [| |apply (send_spec (regr lc) c false)]; [|intros ? ? ?; exact id]. naive_solver. }
  intros err. simpl.
  assert (Hno : triple (fun l s => Same l s /\ (c = true -> cn_launch s = true) /\
       (false = true \/ regr lc = regr lc /\ err = NVPSF_TRANSPORT_OK -> is_Some (cn_handle s) -> (cn_registered s || cn_launch s) = true))
    (ret false) (fun ok l s => Same l s /\ (c = true -> cn_launch s = true) /\ (ok = true -> Ready l s))) by (intros l s H; simpl; naive_solver).
  destruct err; try exact Hno.
  - intros l s (H1 & H2 & H3). simpl. split_and!; [done|done|]. intros _. split; [done|]. apply H3. by right.
  - destruct retry; simpl; [|exact Hno]. eapply link_bind; [apply triple_other; done|]. intros [].
    eapply triple_weaken; [| |exact IH]; [naive_solver|done].
Qed.

Lemma registration_spec c retry :
  triple (fun l s => Same l s /\ (c = true -> cn_launch s = true)) (sendGatewayRegistration lc retry)
    (fun ok l s => Same l s /\ (c = true -> cn_launch s = true) /\ (ok = true -> Ready l s)).
Proof. apply attempts_spec. Qed.

(** A single attempt on a link in use. *)
Lemma send1_ready : triple Ready (sendGatewayRegistration lc false) (fun _ => Ready).
Proof.
  unfold sendGatewayRegistration. cbn [registration_attempts]. eapply link_bind; [apply send_ready|].
  intros []; by intros l s H.
Qed.

(** What follows an attempt to open. *)
Definition Opened (c opened : bool) (l : Link) (s : Conn) : Prop :=
  if opened then Same l s /\ (c = true -> cn_launch s = true) else Empty l s.

Lemma opened_same c opened l s : Opened c opened l s -> Same l s.
Proof. destruct opened; [by intros [? _]|]. intros H. by apply empty_ready in H as [? _]. Qed.

Lemma register_opened c opened :
  triple (Opened c opened) (if opened : bool then sendGatewayRegistration lc true else ret false)
    (fun registered l s => Opened c opened l s /\ (registered = true -> Ready l s)).
Proof.
  destruct opened; [|by intros l s H]. eapply triple_weaken; [| |apply (registration_spec c)]; [done|]. intros ok l s; simpl; naive_solver.
Qed.

Lemma reconnect_spec n : triple Empty (reconnectGatewayTransport lc n) (fun _ => Ready).
Proof.
  induction n as [|n IH]; cbn [reconnectGatewayTransport]; [apply triple_cut|].
  eapply link_bind; [apply triple_other; done|]. intros []; [intros l s H; by apply empty_ready|].
  eapply link_bind; [eapply triple_weaken; [| |apply (open_spec false)]; [naive_solver|intros ? ? ?; exact id]|]. intros opened.
  eapply link_bind; [apply (register_opened false)|]. intros [].
  - eapply (link_bind _ _ (fun _ => Ready)).
    + eapply triple_weaken; [| |apply (triple_other _ Ready); done]; [naive_solver|done].
    + intros now. eapply link_bind; [apply triple_local; [done|apply ready_local]|]. intros []. by intros l s H.
  - eapply (link_bind _ _ (fun _ => Empty)).
    + destruct opened; [|by intros l s [H _]]. eapply triple_weaken; [| |apply close_spec]; [|done]. by intros l s [[? _] _].
    + intros []. eapply link_bind; [apply triple_other; done|]. by intros [].
Qed.

Lemma flush_ready : triple Ready flushPendingHbAck (fun _ => Ready).
Proof.
  eapply link_bind; [apply triple_gets|]. intros l0. destruct (_ || _); [by intros l s [_ H]|].
  eapply link_bind; [eapply triple_weaken; [| |apply send_ready]; [by intros l s [_ H]|done]|].
  intros err. apply triple_local; [|apply ready_local]. intros l. simpl. by destruct (lk_ackPending l), err.
Qed.

Lemma emit_ready ack : triple Ready (emitHbAckTryOnce ack) (fun _ => Ready).
Proof.
  eapply link_bind; [apply triple_local; [done|apply ready_local]|]. intros [].
  eapply link_bind; [apply triple_gets|]. intros [h|]; [|by intros l s [_ H]].
  eapply link_bind; [eapply triple_weaken; [| |apply send_ready]; [by intros l s [_ H]|done]|].
  intros err. apply triple_local; [|apply ready_local]. intros l. by destruct err.
Qed.

Lemma periodic_ready : triple Ready (periodicRegistration lc) (fun _ => Ready).
Proof.
  eapply link_bind; [apply triple_other; done|]. intros now.
  eapply link_bind; [apply triple_gets|]. intros last. destruct (_ <? _); [by intros l s [_ H]|].
  eapply (link_bind _ _ (fun _ => Ready)).
  { eapply triple_weaken; [| |apply (triple_other _ Ready); done]; [by intros l s [_ H]|done]. }
  intros w. destruct (registration_allowed lc w) as [[] tier2]; [|by intros l s H].
  eapply link_bind; [apply link_when; intros _; by apply triple_other|]. intros [].
  eapply (link_bind _ _ (fun _ => Ready)); [by apply send1_ready|].
  intros sent. apply link_when. intros _. apply triple_local; [done|apply ready_local].
Qed.

Lemma acknowledge_ready heartbeat : triple Ready (acknowledge lc heartbeat) (fun _ => Ready).
Proof.
  unfold acknowledge. destruct (lc_keepsAck lc); [apply emit_ready|].
  eapply link_bind; [apply send_ready|]. by intros err l s H.
Qed.

Lemma message_ready buf : triple Ready (onGatewayMessage lc buf) (fun _ => Ready).
Proof.
  unfold onGatewayMessage. destruct (_ && _).
  - eapply link_bind; [apply triple_other; done|]. intros [].
    eapply link_bind; [apply triple_local; [done|apply ready_local]|]. intros []. apply acknowledge_ready.
  - destruct (NvPSDGatewayParseRegReject _); [apply triple_local; [done|apply ready_local]|].
    destruct (_ =? _)%nat; [by apply triple_other|by intros l s H].
Qed.

(** Waiting and receiving on the link's handle. *)
Lemma triple_wait {B} (c : call B) h : (forall b, event_of c b = EPoll h \/ exists err buf, event_of c b = ERecv h err buf) ->
  triple (fun l s => Some h = lk_transport l /\ Ready l s) (perform c) (fun _ l s => Some h = lk_transport l /\ Ready l s).
Proof.
  intros Hc. apply triple_perform. intros l s b (Ht & Hs & Hr). unfold Same in Hs.
  assert (Hd : cn_handle s = Some h /\ (cn_registered s || cn_launch s) = true) by (split; [congruence|apply Hr; rewrite <- Hs, <- Ht; eauto]).
  exists s. destruct (Hc b) as [->|(err & buf & ->)]; simpl; (rewrite decide_True by done); done.
Qed.

Lemma round_ready n : triple Ready (listenerRound lc n) (fun _ => Ready).
Proof.
  eapply link_bind; [apply link_when; intros _; apply flush_ready|]. intros [].
  eapply link_bind; [apply periodic_ready|]. intros []. eapply link_bind; [apply triple_gets|]. intros [h|].
  - eapply link_bind; [apply triple_wait; auto|]. intros [perr gone]. cbv zeta. cbn [fst snd].
    destruct (_ && _); [eapply link_bind; [eapply triple_weaken; [| |apply (triple_other _ Ready); done]; [by intros l s [_ H]|done]|by intros [] l s H]|].
    eapply (link_bind _ _ (fun _ l s => Some h = lk_transport l /\ Ready l s)).
    { destruct (existsb _ gone); [by intros l s H|]. apply triple_wait. simpl. eauto. }
    intros [rerr buf]. cbn [fst snd]. destruct (_ || _).
    + eapply link_bind; [eapply triple_weaken; [| |apply close_spec]; [by intros l s [_ [? _]]|done]|]. intros []. apply reconnect_spec.
    + destruct rerr; try (by intros l s [_ H]).
      eapply link_bind; [eapply triple_weaken; [| |apply message_ready]; [by intros l s [_ H]|done]|]. by intros [] l s H.
  - eapply triple_weaken; [| |apply reconnect_spec]; [|done]. intros l s (Ht & Hs & _). split; [done|]. unfold Same in Hs. congruence.
Qed.

Lemma listener_ready n : triple Ready (psdGatewayEventListener lc n) (fun _ => Ready).
Proof.
  induction n as [|n IH]; cbn [psdGatewayEventListener]; [apply triple_cut|].
  eapply link_bind; [apply triple_other; done|]. intros []; [by intros l s H|].
  eapply link_bind; [apply round_ready|]. intros []; [exact IH|by intros l s H].
Qed.

Lemma launch_ready opened l s : Opened true opened l s -> Ready l s.
Proof.
  destruct opened; simpl; [|apply empty_ready]. intros [Hs Hl]. split; [done|]. intros _. rewrite Hl by done. apply orb_true_r.
Qed.

Lemma link_spec n : triple (fun l s => Empty l s /\ cn_launch s = true) (gatewayLink lc n) (fun _ => Empty).
Proof.
  eapply (link_bind _ _ (fun _ => Ready)).
  - eapply link_bind; [eapply triple_weaken; [| |apply (open_spec true)]; [naive_solver|intros ? ? ?; exact id]|]. intros opened.
    eapply link_bind; [apply (register_opened true)|]. intros registered.
    eapply (link_bind _ _ (fun _ => Ready)).
    + destruct (lc_closesFailedLaunch lc && negb registered); simpl.
      * eapply triple_weaken; [| |apply close_spec]; [intros l s [Ho _]; by eapply opened_same|intros [] l s; apply empty_ready].
      * intros l s [Ho _]. simpl. by apply launch_ready in Ho.
    + intros []. eapply (link_bind _ _ (fun _ => Ready)); [apply triple_other; done|].
      intros now. apply triple_local; [done|apply ready_local].
  - intros []. eapply link_bind; [apply listener_ready|]. intros [].
    eapply triple_weaken; [| |apply close_spec]; [by intros l s [? _]|done].
Qed.
End Handle.

Lemma link_disciplined lc rounds es r :
  trace (gatewayLink lc rounds initial_link) es r ->
  exists s, accepts (check_handle lc) es conn0 = Some s /\ (is_Some r -> cn_handle s = None).
Proof.
  intros Ht. destruct (wp_sound (check_handle lc) _ _ _ es r Ht (link_spec lc rounds initial_link conn0 ltac:(done))) as (s & Hs & Hr).
  exists s. split; [done|]. intros [[[] l] ->]. by destruct Hr.
Qed.

(** C22. The listener keeps the transport's discipline, whatever the transport
    answers and however long it runs: at most one handle is open at any time, no
    handle is used or closed after it was closed, a handle whose peer cannot be
    named is closed at once, after a lost link the listener waits for messages only
    once the REGR has gone out on the new handle, and shutdown leaves no handle
    open. *)
Theorem link_handle_discipline lc rounds es r :
  trace (gatewayLink lc rounds initial_link) es r ->
  exists s, accepts (check_handle lc) es conn0 = Some s /\ (is_Some r -> cn_handle s = None).
Proof. apply link_disciplined. Qed.

(** ** Heartbeat acknowledgements *)

Definition is_heartbeat (buf : list Z) : bool :=
  (length buf =? NVPSD_GATEWAY_HB_MSG_SIZE)%nat && bool_decide (take 4 buf = NVPSD_GATEWAY_HB_MAGIC_GATEWAY).

(** The acknowledgement of the newest heartbeat while it is owed, and whether it
    was offered to the transport since the last wait. *)
Record AckState := { ak_owed : option (list Z); ak_tried : bool }.

Definition ack0 : AckState := {| ak_owed := None; ak_tried := false |}.

(** A heartbeat owes its acknowledgement; a send pays it, or drops it with the link
    unless the transport was only full; the listener may wait with an
    acknowledgement owed only if it offered it since the last wait. *)
Definition check_ack (e : event) (s : AckState) : option AckState :=
  match e with
  | ERecv _ NVPSF_TRANSPORT_OK buf => Some (if is_heartbeat buf then {| ak_owed := Some (make_ack buf); ak_tried := false |} else s)
  | ESend _ buf err =>
    Some (if decide (ak_owed s = Some buf) then
            match err with NVPSF_TRANSPORT_WOULD_BLOCK => {| ak_owed := ak_owed s; ak_tried := true |} | _ => ack0 end
          else s)
  | EPoll _ =>
    match ak_owed s with
    | None => Some s
    | Some _ => if ak_tried s then Some {| ak_owed := ak_owed s; ak_tried := false |} else None
    end
  | _ => Some s
  end.

Section Acks.
Context (lc : LinkConfig) (Hkeeps : lc_keepsAck lc = true).

Lemma regr_not_ack buf : make_ack buf <> regr lc.
Proof. done. Qed.

(** The link's flag says what is owed; and it was offered. *)
Definition Pend (l : Link) (s : AckState) : Prop :=
  ak_owed s = (if lk_ackPending l then Some (lk_ackBuf l) else None) /\ (lk_ackPending l = true -> lk_ackBuf l <> regr lc).
Definition Offered (l : Link) (s : AckState) : Prop :=
  Pend l s /\ (lk_ackPending l = true -> is_Some (lk_transport l) -> ak_tried s = true).

Local Abbreviation triple := (triple check_ack).

Lemma pend_local (l l' : Link) s : lk_ackPending l' = lk_ackPending l -> lk_ackBuf l' = lk_ackBuf l -> Pend l s -> Pend l' s.
Proof. unfold Pend. by intros -> ->. Qed.

(** The REGR is no acknowledgement. *)
Lemma send_regr P : (forall l s, P l s -> Pend l s) -> triple P (gatewaySend (regr lc)) (fun _ => P).
Proof.
  intros HP. eapply link_bind; [apply triple_gets|]. intros [h|]; [|by intros l s [_ H]].
  apply triple_perform. intros l s err [_ H]. exists s. split; [|done]. simpl. rewrite decide_False; [done|].
  destruct (HP l s H) as [-> Hne]. destruct (lk_ackPending l); [|done]. intros [= He]. by apply Hne.
Qed.

Lemma registration_acks retry P : (forall l s, P l s -> Pend l s) -> triple P (sendGatewayRegistration lc retry) (fun _ => P).
Proof.
  intros HP. unfold sendGatewayRegistration. generalize (if retry then REGR_SEND_MAX_ATTEMPTS else 1%nat) as n.
  induction n as [|n IH]; cbn [registration_attempts]; [by intros l s H|].
  eapply link_bind; [by apply send_regr|]. intros []; try (by intros l s H).
  destruct retry; cbn [negb]; [|by intros l s H]. eapply link_bind; [by apply triple_neutral|]. intros []. exact IH.
Qed.

Lemma open_acks : triple Pend openGatewayTransport (fun _ => Pend).
Proof.
  eapply link_bind; [by apply triple_neutral|]. intros [h|]; [|by intros l s H].
  eapply link_bind; [by apply triple_neutral|]. intros [].
  - eapply (link_bind _ _ (fun _ => Pend)); [by intros l s H|]. by intros [] l s H.
  - eapply link_bind; [by apply triple_neutral|]. by intros [] l s H.
Qed.

Lemma close_acks : triple Pend closeGatewayTransport (fun _ => Pend).
Proof.
  eapply link_bind; [apply triple_gets|]. intros t. eapply (link_bind _ _ (fun _ => Pend)); [by intros l s [_ H]|].
  intros []. destruct t; [by apply triple_neutral|by intros l s H].
Qed.

Lemma reconnect_acks n : triple Pend (reconnectGatewayTransport lc n) (fun _ => Pend).
Proof.
  induction n as [|n IH]; cbn [reconnectGatewayTransport]; [apply triple_cut|].
  eapply link_bind; [by apply triple_neutral|]. intros []; [by intros l s H|].
  eapply link_bind; [apply open_acks|]. intros opened.
  eapply (link_bind _ _ (fun _ => Pend)); [destruct opened; [by apply registration_acks|by intros l s H]|]. intros [].
  - eapply link_bind; [by apply triple_neutral|]. intros now. eapply (link_bind _ _ (fun _ => Pend)); [by intros l s H|]. by intros [] l s H.
  - eapply link_bind; [apply link_when; intros _; apply close_acks|]. intros [].
    eapply link_bind; [by apply triple_neutral|]. intros []. exact IH.
Qed.

(** Offering the pending acknowledgement. *)
Lemma offer_spec require :
  triple (fun l s => Pend l s /\ lk_ackPending l = true /\ is_Some (lk_transport l))
    (l0 ← gets (fun l => l); err ← gatewaySend (lk_ackBuf l0); hbAckApplySendResult err require)%link (fun _ => Offered).
Proof.
  intros l s ((Ho & Hne) & Hp & [h Hh]). unfold gatewaySend, bind, gets, perform. simpl. rewrite Hh. simpl. intros err.
  rewrite Hp in Ho. rewrite decide_True by done. unfold hbAckApplySendResult, modify. simpl. rewrite Hp. simpl. rewrite andb_false_r.
  destruct err; (split; [split|]); simpl; rewrite ?Hp, ?Ho; done || auto.
Qed.

Lemma flush_acks : triple Pend flushPendingHbAck (fun _ => Offered).
Proof.
  intros l s H. unfold flushPendingHbAck, bind at 1, gets at 1. simpl.
  destruct (lk_ackPending l) eqn:Hp; simpl.
  - case_bool_decide as Ht; simpl; [split; [done|]; intros _ [h Hh]; congruence|].
    apply (offer_spec true l s). split_and!; [done|done|]. destruct (lk_transport l); [eauto|done].
  - split; [done|]. intros Hc. congruence.
Qed.

Lemma periodic_acks : triple Offered (periodicRegistration lc) (fun _ => Offered).
Proof.
  eapply link_bind; [by apply triple_neutral|]. intros now.
  eapply link_bind; [apply triple_gets|]. intros last. destruct (_ <? _); [by intros l s [_ H]|].
  eapply (link_bind _ _ (fun _ => Offered)).
  { eapply triple_weaken; [| |by apply (triple_neutral _ _ Offered)]; [by intros l s [_ H]|done]. }
  intros w. destruct (registration_allowed lc w) as [[] tier2]; [|by intros l s H].
  eapply link_bind; [apply link_when; intros _; by apply triple_neutral|]. intros [].
  eapply link_bind; [apply registration_acks; by intros l s [? _]|]. intros []; by intros l s H.
Qed.

(** A message just received on the link. *)
Definition Got (buf : list Z) (l : Link) (s : AckState) : Prop :=
  if is_heartbeat buf then ak_owed s = Some (make_ack buf) /\ is_Some (lk_transport l) else Pend l s.

Lemma message_acks buf : triple (Got buf) (onGatewayMessage lc buf) (fun _ => Pend).
Proof.
  unfold onGatewayMessage. fold (is_heartbeat buf). unfold Got. destruct (is_heartbeat buf).
  - eapply link_bind; [by apply triple_neutral|]. intros [].
    eapply (link_bind _ _ (fun _ l s => ak_owed s = Some (make_ack buf) /\ is_Some (lk_transport l))); [by intros l s H|].
    intros []. unfold acknowledge. rewrite Hkeeps. intros l s [Ho [h Hh]].
    unfold emitHbAckTryOnce, bind at 1, modify at 1. simpl. unfold bind at 1, gets at 1. simpl. rewrite Hh. simpl.
    eapply link_mono; [|apply (offer_spec false (set_ack true (make_ack buf) l) s)].
    { intros [a l'] s' [H _]. exact H. }
    split_and!; [split; [done|by intros _; apply regr_not_ack]|done|simpl; eauto].
  - destruct (NvPSDGatewayParseRegReject _); [by intros l s H|].
    destruct (_ =? _)%nat; [by apply triple_neutral|by intros l s H].
Qed.

Lemma round_acks n : triple Pend (listenerRound lc n) (fun _ => Pend).
Proof.
  unfold listenerRound. rewrite Hkeeps. cbn [when]. eapply link_bind; [apply flush_acks|]. intros [].
  eapply link_bind; [apply periodic_acks|]. intros []. eapply link_bind; [apply triple_gets|]. intros [h|].
  - eapply (link_bind _ _ (fun _ l s => Some h = lk_transport l /\ Pend l s)).
    { apply triple_perform. intros l s b (Ht & (Ho & Hne) & Hof). simpl. destruct (ak_owed s) as [x|] eqn:E.
      - assert (Hp : lk_ackPending l = true) by (by destruct (lk_ackPending l)). assert (Hs : is_Some (lk_transport l)) by (rewrite <- Ht; eauto).
        rewrite (Hof Hp Hs).
        eexists. split; [reflexivity|]. split; [done|]. by split.
      - exists s. split; [done|]. split; [done|]. split; [congruence|done]. }
    intros [perr gone]. cbv zeta. cbn [fst snd].
    destruct (_ && _); [eapply (link_bind _ _ (fun _ => Pend)); [eapply triple_weaken; [| |by apply (triple_neutral _ _ Pend)]; [by intros l s [_ H]|done]|by intros [] l s H]|].
    eapply (link_bind _ _ (fun r l s => (existsb (fun g => g) gone = true -> r.1 <> NVPSF_TRANSPORT_OK) /\
      if decide (r.1 = NVPSF_TRANSPORT_OK) then Got r.2 l s else Pend l s)).
    { destruct (existsb _ gone); [by intros l s [_ H]|]. apply triple_perform. intros l s [err buf] [Ht H]. simpl.
      case_decide as Hd; [subst err|destruct err; try done; by exists s].
      eexists. split; [reflexivity|]. split; [done|]. unfold Got. destruct (is_heartbeat buf); [|done]. simpl. rewrite <- Ht. eauto. }
    intros [rerr buf]. cbn [fst snd]. destruct (existsb _ gone || _) eqn:Hg.
    + eapply (link_bind _ _ (fun _ => Pend)); [|intros []; apply reconnect_acks].
      eapply triple_weaken; [| |apply close_acks]; [|done]. intros l s [Hn H]. rewrite decide_False in H; [done|].
      intros ->. apply orb_true_iff in Hg as [Hg|Hg]; [by apply Hn|by apply bool_decide_eq_true in Hg].
    + destruct rerr; try (by intros l s [_ H]).
      eapply link_bind; [eapply triple_weaken; [| |apply (message_acks buf)]; [by intros l s [_ H]|done]|]. by intros [] l s H.
  - eapply triple_weaken; [| |apply reconnect_acks]; [by intros l s (_ & H & _)|done].
Qed.

Lemma link_acks n : triple Pend (gatewayLink lc n) (fun _ => Pend).
Proof.
  eapply (link_bind _ _ (fun _ => Pend)).
  - eapply link_bind; [apply open_acks|]. intros opened.
    eapply (link_bind _ _ (fun _ => Pend)); [destruct opened; [by apply registration_acks|by intros l s H]|]. intros registered.
    eapply link_bind; [apply link_when; intros _; apply close_acks|]. intros [].
    eapply link_bind; [by apply triple_neutral|]. by intros now l s H.
  - intros []. eapply (link_bind _ _ (fun _ => Pend)); [|intros []; apply close_acks].
    induction n as [|n IH]; cbn [psdGatewayEventListener]; [apply triple_cut|].
    eapply link_bind; [by apply triple_neutral|]. intros []; [by intros l s H|].
    eapply link_bind; [apply round_acks|]. intros []; [exact IH|by intros l s H].
Qed.
End Acks.

(** A heartbeat's acknowledgement is not lost to a full transport: with the
    acknowledgement kept, in every run the listener offers it before it waits for
    messages again, and offers it once per round until the transport takes it, the
    link fails, or a newer heartbeat takes its place. *)
Theorem heartbeat_ack_offered_every_round lc rounds es r : lc_keepsAck lc = true ->
  trace (gatewayLink lc rounds initial_link) es r -> is_Some (accepts check_ack es ack0).
Proof.
  intros Hk Ht. destruct (wp_sound check_ack _ _ _ es r Ht (link_acks lc Hk rounds initial_link ack0 ltac:(done))) as (s & Hs & _). eauto.
Qed.
