(* ===== verification/SdmLinkRuns.v ===== *)
(** * Links of the decision makers

    The link of each process, what its registration asks the gateway for, and runs
    of the listener against concrete answers. *)

From S2P Require Import Prelude Protocol Crc Validate SdmRequestState GatewayContract SdmSequence Gateway Threads PlcPacket SdmCore Proximity ProximityConfig PairFusion SdmLink SdmLinkSafety.

(** ** Subscriptions *)

Definition PROXIMITY_UNTIERED_EVENTS : list EventType := [SW_FAIL].
Definition CJS_SUBSCRIBED_EVENTS : list EventType := [0; 1; 2; 3; 4; SW_FAIL].
Definition ATL_PROXIMITY_SUBSCRIBED_EVENTS : list EventType := [EVENT_8; EVENT_9; EVENT_10; SW_FAIL].

(** The event types of the proximity REGR: the bound rows of the table and the
    untiered extras. *)
Definition proximity_subscribed (events : list EventType) : list EventType :=
  List.filter (fun e => negb (e =? EVENT_UNKNOWN)) (map pd_event (PROXIMITY_EVENT_TABLE events)) ++ PROXIMITY_UNTIERED_EVENTS.

Definition proximity_link (events : list EventType) (warn maxF : Z) : LinkConfig :=
  {| lc_subscribed := proximity_subscribed events; lc_keepsAck := true; lc_closesFailedLaunch := false; lc_warnThreshold := warn; lc_maxHbFailures := maxF |}.
Definition cjs_link (warn maxF : Z) : LinkConfig :=
  {| lc_subscribed := CJS_SUBSCRIBED_EVENTS; lc_keepsAck := true; lc_closesFailedLaunch := false; lc_warnThreshold := warn; lc_maxHbFailures := maxF |}.
Definition apx_link (warn maxF : Z) : LinkConfig :=
  {| lc_subscribed := ATL_PROXIMITY_SUBSCRIBED_EVENTS; lc_keepsAck := false; lc_closesFailedLaunch := true; lc_warnThreshold := warn; lc_maxHbFailures := maxF |}.

Lemma table_events events : length events = PROXIMITY_EVENT_COUNT -> map pd_event (PROXIMITY_EVENT_TABLE events) = events.
Proof.
  intros Hlen. apply list_eq. intros i. rewrite list_lookup_fmap. unfold PROXIMITY_EVENT_TABLE. rewrite lookup_zip_with.
  destruct (events !! i) as [e|] eqn:He; [|done]. simpl.
  destruct (lookup_lt_is_Some_2 PROXIMITY_EVENT_ROWS i) as [row ->]; [|done]. apply lookup_lt_Some in He. by rewrite Hlen in He.
Qed.

(** The events arbitration knows are the bound ones. *)
Lemma descriptor_bound events x : length events = PROXIMITY_EVENT_COUNT ->
  is_Some (proximityEventDescriptor events x) <-> x ∈ events /\ x <> EVENT_UNKNOWN.
Proof.
  intros Hlen. unfold proximityEventDescriptor. rewrite <- (table_events events Hlen) at 2. split.
  - intros [d Hd]. apply find_some in Hd as [Hin Hb]. rewrite andb_true_iff, negb_true_iff, Z.eqb_neq, Z.eqb_eq in Hb.
    destruct Hb as [Hne <-]. split; [|done]. apply list_elem_of_fmap_2. by apply list_elem_of_In.
  - intros [Hin Hne]. apply list_elem_of_fmap in Hin as (d & -> & Hd).
    destruct (List.find _ _) as [d'|] eqn:E; [eauto|]. exfalso.
    apply list_elem_of_In in Hd. pose proof (find_none _ _ E d Hd) as Hb. simpl in Hb.
    by rewrite (proj2 (Z.eqb_neq _ _) Hne), Z.eqb_refl in Hb.
Qed.

(** The gateway registers the proximity decision maker for exactly what it
    arbitrates: under a binding start-up accepted, the REGR it sends is classified
    by the gateway as a registration of the event types that have a row in the
    table, and of the mandatory safety types, and of nothing else. *)
Theorem registration_matches_arbitration events b b' warn maxF :
  proximitySetSubscribedEvents events b = (true, b') -> length events = PROXIMITY_EVENT_COUNT -> Forall is_i32 events ->
  exists S, NvPSDGatewayClassifyRegr (Some (regr (proximity_link events warn maxF))) = inr S /\
    forall x, x ∈ S <-> is_Some (proximityEventDescriptor events x) \/ x ∈ mandatory_event_types.
Proof.
  intros Hb Hlen Hi. pose proof (binding_rows _ _ _ Hb) as (_ & _ & _ & _ & Hen).
  assert (Hsub : forall x, x ∈ proximity_subscribed events <-> x ∈ events /\ x <> EVENT_UNKNOWN \/ x = SW_FAIL).
  { intros x. unfold proximity_subscribed. rewrite table_events by done. rewrite elem_of_app, list_elem_of_In, filter_In, <- list_elem_of_In.
    rewrite negb_true_iff, Z.eqb_neq. unfold PROXIMITY_UNTIERED_EVENTS. set_solver. }
  assert (Hrange : forall x, x ∈ events -> x <> EVENT_UNKNOWN -> 0 <= x <= EVENT_23) by (intros; by eapply bound_range).
  assert (Hok : forall x, 0 <= x <= EVENT_23 -> subscribable x = true).
  { intros x Hx. unfold subscribable. rewrite (proj2 (Z.leb_gt EVENT_UNKNOWN x)); [done|]. unfold EVENT_UNKNOWN, EVENT_23 in *. lia. }
  destruct (regr_classified (proximity_subscribed events)) as (S & HS & Hin).
  - apply Forall_forall. intros x Hx. apply Hsub in Hx as [[Hx Hne]| ->]; [|done].
    specialize (Hrange x Hx Hne). unfold is_u32, EVENT_23 in *. lia.
  - unfold proximity_subscribed. rewrite length_app. simpl. split; [lia|].
    pose proof (filter_length_le (fun e => negb (e =? EVENT_UNKNOWN)) (map pd_event (PROXIMITY_EVENT_TABLE events))) as Hle.
    rewrite table_events, Hlen in Hle by done. rewrite table_events by done. unfold PROXIMITY_EVENT_COUNT in Hle. lia.
  - destruct (enabled_rows events) as [|i l] eqn:E; [done|].
    assert (Hi' : In i (enabled_rows events)) by (rewrite E; by left). unfold enabled_rows in Hi'.
    apply filter_In in Hi' as [Hs Hne]. apply in_seq in Hs. rewrite negb_true_iff, Z.eqb_neq in Hne.
    assert (Hx : event_at events i ∈ events) by (unfold event_at; apply list_elem_of_In, nth_In; rewrite Hlen; lia).
    exists (event_at events i). split; [apply Hsub; auto|]. by apply Hok, Hrange.
  - exists S. split; [exact HS|]. intros x. rewrite Hin, descriptor_bound, Hsub by done. split.
    + intros [[[[Hx Hne]| ->] _]|Hm]; [by left|right; left|by right].
    + intros [[Hx Hne]|Hm]; [left|by right]. split; [by left|]. by apply Hok, Hrange.
Qed.

(** ** Runs against concrete answers *)

(** The run of [p] with the answers of [o], which sees the number of the call. *)
Fixpoint play {A} (o : Z -> forall B, call B -> B) (i : Z) (p : io A) : list event * option A :=
  match p with
  | Done a => ([], Some a)
  | Cut => ([], None)
  | Call c k => let b := o i _ c in let '(es, r) := play o (i + 1) (k b) in (event_of c b :: es, r)
  end.

Lemma play_trace {A} o (p : io A) i : trace p (play o i p).1 (play o i p).2.
Proof.
  revert i. induction p as [a| |B c k IH]; intros i; simpl; [constructor..|].
  specialize (IH (o i B c) (i + 1)). destruct (play o (i + 1) (k (o i B c))) as [es r]. by constructor.
Qed.

Definition heartbeat7 : list Z := NVPSD_GATEWAY_HB_MAGIC_GATEWAY ++ [0; 0; 0; 7].
Definition ack7 : list Z := make_ack heartbeat7.

(** A gateway whose first connection, handle 1, takes no acknowledgement and goes
    away after one heartbeat; a second, handle 2, takes everything. *)
Definition restarting_gateway (i : Z) (B : Type) (c : call B) : B :=
  match c in call B return B with
  | Stopping => 24 <? i
  | Clock => i
  | ReadWatch => {| wa_latched := false; wa_missCount := 0; wa_tier2Attempts := 0 |}
  | TakeTier2Attempt => tt
  | Open => Some (if i <? 10 then 1 else 2)
  | SolePeer _ => true
  | Close _ => tt
  | Send h buf => if (h =? 1) && bool_decide (buf = ack7) then NVPSF_TRANSPORT_WOULD_BLOCK else NVPSF_TRANSPORT_OK
  | Poll h => (NVPSF_TRANSPORT_OK, [(h =? 1) && (10 <? i)])
  | Recv h => if h =? 1 then (NVPSF_TRANSPORT_OK, heartbeat7) else (NVPSF_TRANSPORT_WOULD_BLOCK, [])
  | Sleep _ => tt
  | OnHeartbeat => tt
  | OnDecision _ => tt
  end.

Definition restart_run : list event * option (unit * Link) :=
  play restarting_gateway 0 (gatewayLink (proximity_link sample_events 1 2) 5 initial_link).

Definition restart_events : list event := Eval vm_compute in restart_run.1.

Lemma restart_trace : trace (gatewayLink (proximity_link sample_events 1 2) 5 initial_link) restart_events restart_run.2.
Proof. change restart_events with restart_run.1. apply play_trace. Qed.

Lemma link_handle_discipline_witness :
  exists s, accepts (check_handle (proximity_link sample_events 1 2)) restart_events conn0 = Some s /\
    (is_Some restart_run.2 -> cn_handle s = None).
Proof. apply (link_handle_discipline _ 5), restart_trace. Defined.

Lemma heartbeat_ack_offered_every_round_witness : is_Some (accepts check_ack restart_events ack0).
Proof. apply (heartbeat_ack_offered_every_round (proximity_link sample_events 1 2) 5 _ restart_run.2 eq_refl), restart_trace. Defined.

Lemma registration_matches_arbitration_witness :
  exists S, NvPSDGatewayClassifyRegr (Some (regr (proximity_link sample_events 1 2))) = inr S /\
    forall x, x ∈ S <-> is_Some (proximityEventDescriptor sample_events x) \/ x ∈ mandatory_event_types.
Proof.
  refine (registration_matches_arbitration sample_events initial_binding _ 1 2 eq_refl eq_refl _).
  unfold sample_events. repeat constructor; done.
Defined.

(** An acknowledgement survives the link it was owed on: there is a run in
    which the transport is full when heartbeat 7 arrives on handle 1, the gateway
    goes away and handle 1 is closed, and after the re-registration the listener
    sends the acknowledgement of heartbeat 7 on handle 2. *)
Theorem stale_ack_replayed :
  exists es r, trace (gatewayLink (proximity_link sample_events 1 2) 5 initial_link) es r /\
    es !! 7%nat = Some (ERecv 1 NVPSF_TRANSPORT_OK heartbeat7) /\ es !! 14%nat = Some (EClose 1) /\
    es !! 21%nat = Some (ESend 2 (make_ack heartbeat7) NVPSF_TRANSPORT_OK).
Proof. exists restart_events, restart_run.2. split; [apply restart_trace|]. split_and!; vm_compute; reflexivity. Qed.
