(* ===== verification/SdmLinkInstances.v ===== *)
(** * The gateway links of the other three decision makers

    [CrossingJunctionSafetyControl.cpp], [AtlProximityControl.cpp] and
    [ATLControl.cpp] carry their own copies of the link functions that [SdmLink]
    models.  The copies differ in the event types of the REGR; the ATL-proximity
    one does not keep an acknowledgement the transport refuses.  Each definition
    below is the copy of one function. *)

From S2P Require Import Prelude Protocol Crc Validate SdmRequestState GatewayContract SdmSequence Gateway AtlControl Text SensorConfig AtlStartup Threads PlcPacket SdmCore Proximity ProximityConfig PairFusion SdmLink SdmLinkSafety SdmLinkRuns.

Local Open Scope link_scope.

(** The link of an ATL process, by its binding. *)
Definition atl_link (binding : AtlBinding) (warn maxF : Z) : LinkConfig :=
  {| lc_subscribed := atlSubscribedEvents binding; lc_keepsAck := true; lc_closesFailedLaunch := false; lc_warnThreshold := warn; lc_maxHbFailures := maxF |}.

(** ** CrossingJunctionSafetyControl.cpp *)

Section CjsLink.
Context (warn maxF : Z).

Definition cjs_openGatewayTransport := openGatewayTransport.
Definition cjs_closeGatewayTransport := closeGatewayTransport.
Definition cjs_gatewaySend := gatewaySend.
Definition cjs_hbAckApplySendResult := hbAckApplySendResult.
Definition cjs_flushPendingHbAck := flushPendingHbAck.
Definition cjs_emitHbAckTryOnce := emitHbAckTryOnce.
Definition cjs_sendGatewayRegistration := sendGatewayRegistration (cjs_link warn maxF).
Definition cjs_reconnectGatewayTransport := reconnectGatewayTransport (cjs_link warn maxF).
Definition cjs_periodicRegistration := periodicRegistration (cjs_link warn maxF).
Definition cjs_acknowledge := acknowledge (cjs_link warn maxF).
Definition cjs_psdGatewayEventListener := psdGatewayEventListener (cjs_link warn maxF).
Definition cjs_launchGatewayLink : M unit :=
  opened ← cjs_openGatewayTransport;
  registered ← (if opened : bool then cjs_sendGatewayRegistration true else ret false);
  now ← perform Clock;
  modify (set_lastRegistration (if registered : bool then now else now - REG_RETRY_INTERVAL_MS)).
Definition cjs_gatewayLink (rounds : nat) : M unit :=
  cjs_launchGatewayLink;;
  cjs_psdGatewayEventListener rounds;;
  cjs_closeGatewayTransport.

Lemma cjs_gatewayLink_core rounds : cjs_gatewayLink rounds = gatewayLink (cjs_link warn maxF) rounds.
Proof. reflexivity. Qed.
End CjsLink.

(** ** AtlProximityControl.cpp *)

Section ApxLink.
Context (warn maxF : Z).

Definition apx_openGatewayTransport := openGatewayTransport.
Definition apx_closeGatewayTransport := closeGatewayTransport.
Definition apx_gatewaySend := gatewaySend.
Definition apx_sendGatewayRegistration := sendGatewayRegistration (apx_link warn maxF).
Definition apx_reconnectGatewayTransport := reconnectGatewayTransport (apx_link warn maxF).
Definition apx_periodicRegistration := periodicRegistration (apx_link warn maxF).
Definition apx_acknowledge := acknowledge (apx_link warn maxF).
Definition apx_psdGatewayEventListener := psdGatewayEventListener (apx_link warn maxF).
Definition apx_launchGatewayLink : M unit :=
  opened ← apx_openGatewayTransport;
  registered ← (if opened : bool then apx_sendGatewayRegistration true else ret false);
  when (negb registered) apx_closeGatewayTransport;;
  now ← perform Clock;
  modify (set_lastRegistration (if registered : bool then now else now - REG_RETRY_INTERVAL_MS)).
Definition apx_gatewayLink (rounds : nat) : M unit :=
  apx_launchGatewayLink;;
  apx_psdGatewayEventListener rounds;;
  apx_closeGatewayTransport.

Lemma apx_gatewayLink_core rounds : apx_gatewayLink rounds = gatewayLink (apx_link warn maxF) rounds.
Proof. reflexivity. Qed.
End ApxLink.

(** ** ATLControl.cpp *)

Section AtlLink.
Context (binding : AtlBinding) (warn maxF : Z).

Definition atl_openGatewayTransport := openGatewayTransport.
Definition atl_closeGatewayTransport := closeGatewayTransport.
Definition atl_gatewaySend := gatewaySend.
Definition atl_hbAckApplySendResult := hbAckApplySendResult.
Definition atl_flushPendingHbAck := flushPendingHbAck.
Definition atl_emitHbAckTryOnce := emitHbAckTryOnce.
Definition atl_sendGatewayRegistration := sendGatewayRegistration (atl_link binding warn maxF).
Definition atl_reconnectGatewayTransport := reconnectGatewayTransport (atl_link binding warn maxF).
Definition atl_periodicRegistration := periodicRegistration (atl_link binding warn maxF).
Definition atl_acknowledge := acknowledge (atl_link binding warn maxF).
Definition atl_psdGatewayEventListener := psdGatewayEventListener (atl_link binding warn maxF).
Definition atl_launchGatewayLink : M unit :=
  opened ← atl_openGatewayTransport;
  registered ← (if opened : bool then atl_sendGatewayRegistration true else ret false);
  now ← perform Clock;
  modify (set_lastRegistration (if registered : bool then now else now - REG_RETRY_INTERVAL_MS)).
Definition atl_gatewayLink (rounds : nat) : M unit :=
  atl_launchGatewayLink;;
  atl_psdGatewayEventListener rounds;;
  atl_closeGatewayTransport.

Lemma atl_gatewayLink_core rounds : atl_gatewayLink rounds = gatewayLink (atl_link binding warn maxF) rounds.
Proof. reflexivity. Qed.
End AtlLink.

(** The links of the crossing-junction, ATL-proximity and ATL processes keep the
    transport's discipline, whatever the transport answers: one handle at a time,
    none used after it was closed, after a lost link no waiting for messages before
    the REGR of that process has gone out on the new one, and none left open by
    shutdown. *)
Theorem sibling_links_keep_discipline binding warn maxF process lc rounds es r :
  (process, lc) ∈ [(cjs_gatewayLink warn maxF, cjs_link warn maxF); (apx_gatewayLink warn maxF, apx_link warn maxF);
                   (atl_gatewayLink binding warn maxF, atl_link binding warn maxF)] ->
  trace (process rounds initial_link) es r ->
  exists s, accepts (check_handle lc) es conn0 = Some s /\ (is_Some r -> cn_handle s = None).
Proof.
  intros Hin. assert (process rounds = gatewayLink lc rounds) as ->.
  { rewrite !elem_of_cons in Hin. destruct Hin as [[= -> ->]|[[= -> ->]|[[= -> ->]|Hn]]]; [reflexivity..|by apply not_elem_of_nil in Hn]. }
  apply link_disciplined.
Qed.

(** The ATL-proximity link against the restarting gateway. *)
Lemma sibling_links_keep_discipline_witness :
  exists s, accepts (check_handle (apx_link 1 2)) (play restarting_gateway 0 (apx_gatewayLink 1 2 5 initial_link)).1 conn0 = Some s /\
    (is_Some (play restarting_gateway 0 (apx_gatewayLink 1 2 5 initial_link)).2 -> cn_handle s = None).
Proof.
  apply (sibling_links_keep_discipline initial_atl_binding 1 2 (apx_gatewayLink 1 2) (apx_link 1 2) 5); [right; left|apply play_trace].
Defined.
