(* ===== verification/TransportConfig.v ===== *)
(** * Configuration of a transport endpoint

    The part of [nvpsf_transport.h] and [nvpsf_transport.c] that decides what an
    endpoint may be before a socket exists: the transport kinds and the links that
    carry them, [validateCfg], the source allow-list of a UDP server
    ([allowListParse], [allowListPermits]), the buffer floor
    ([provisionSocketBuffer]) and the operator's choice of a kind.

    Kinds, links and roles are the integers of the C enumerations, so that a value
    outside them can be stated.  An address is its [s_addr] on a little-endian
    host: the first byte of the dotted quad is the lowest.  [strtol] and
    [inet_pton] are the library functions on text without a NUL.  Diagnostics are
    not part of the model. *)

From Stdlib Require Import Ascii String.
From S2P Require Import Prelude Protocol Text.

Local Open Scope Z_scope.
Local Open Scope list_scope.

(** ** Kinds, links, roles *)

Definition NVPSF_TRANSPORT_UNIX_SOCKET : Z := 0.
Definition NVPSF_TRANSPORT_UDP_SOCKET : Z := 1.
Definition NVPSF_TRANSPORT_KIND_COUNT : Z := 2.

Definition NVPSF_LINK_PSS_RPC : Z := 0.
Definition NVPSF_LINK_PSS_TO_PSD : Z := 1.
Definition NVPSF_LINK_GATEWAY_TO_SDM : Z := 2.
Definition NVPSF_LINK_COUNT : Z := 3.

Definition NVPSF_ROLE_SERVER : Z := 0.
Definition NVPSF_ROLE_CLIENT : Z := 1.

Definition NVPSF_TRANSPORT_MAX_PEERS_LIMIT : Z := 64.
Definition NVPSF_TRANSPORT_MAX_MESSAGE_BYTES : Z := 65536.
Definition NVPSF_GATEWAY_SDM_MIN_QUEUE_DEPTH : Z := 516.
Definition NVPSF_ALLOWLIST_MAX : nat := 8.
Definition NVPSF_SO_BUF_ACCOUNTING_FACTOR : Z := 2.
Definition INT_MAX : Z := 2147483647.
Definition LONG_MIN : Z := - 2 ^ 63.
Definition LONG_MAX : Z := 2 ^ 63 - 1.

(** [sizeof(sun_path)], and the buffer of one entry of the allow-list. *)
Definition UNIX_PATH_MAX : nat := 108.
Definition ENTRY_SIZE : nat := 64.

Definition link_table : list (list Z) := [[1; 0]; [1; 0]; [1; 1]].

Definition NvPSFTransportLinkSupportsKind (link kind : Z) : bool :=
  if (link <? 0) || (NVPSF_LINK_COUNT <=? link) then false
  else if (kind <? 0) || (NVPSF_TRANSPORT_KIND_COUNT <=? kind) then false
  else negb (nth (Z.to_nat kind) (nth (Z.to_nat link) link_table []) 0 =? 0).

Definition NvPSFTransportKindName (kind : Z) : text :=
  if kind =? NVPSF_TRANSPORT_UNIX_SOCKET then str "UNIX_SOCKET"
  else if kind =? NVPSF_TRANSPORT_UDP_SOCKET then str "UDP_SOCKET"
  else str "INVALID".

(** [None] is [TransportParse::Unknown]. *)
Definition parseTransportKind (name : text) : option Z :=
  if decide (name = str "UDP_SOCKET") then Some NVPSF_TRANSPORT_UDP_SOCKET
  else if decide (name = str "UNIX_SOCKET") then Some NVPSF_TRANSPORT_UNIX_SOCKET
  else None.

Definition selectTransportKind (name : text) (link : Z) : option Z :=
  match parseTransportKind name with
  | None => None
  | Some kind => if NvPSFTransportLinkSupportsKind link kind then Some kind else None
  end.

Definition supported_kinds (link : Z) : list Z :=
  List.filter (NvPSFTransportLinkSupportsKind link) (map Z.of_nat (seq 0 (Z.to_nat NVPSF_TRANSPORT_KIND_COUNT))).

(** The same text as [selectableKindsFor]. *)
Definition supportedKindsFor (link : Z) : text :=
  foldl (fun acc kind => match acc with [] => [] | _ => acc ++ str ", " end ++ NvPSFTransportKindName kind)
    [] (supported_kinds link).

(** ** Numbers and addresses in text *)

Definition isspace (c : ascii) : bool :=
  let n := Z.of_nat (nat_of_ascii c) in ((9 <=? n) && (n <=? 13)) || (n =? 32).

Fixpoint skip_while (p : ascii -> bool) (l : text) : text :=
  match l with
  | [] => []
  | c :: l' => if p c then skip_while p l' else l
  end.

(** The value of the leading decimal digits, and what follows them. *)
Fixpoint leading_digits (value : Z) (l : text) : Z * text :=
  match l with
  | [] => (value, [])
  | c :: l' => match digit_value c with
               | Some d => leading_digits (value * 10 + d) l'
               | None => (value, l)
               end
  end.

Definition starts_with_digit (l : text) : bool :=
  match l with c :: _ => match digit_value c with Some _ => true | None => false end | [] => false end.

Definition sign_of (l : text) : bool * text :=
  match l with
  | c :: l' => if Ascii.eqb c "-"%char then (true, l') else if Ascii.eqb c "+"%char then (false, l') else (false, l)
  | [] => (false, [])
  end.

(** [strtol(l, &end, 10)]: the number and the text at [end]; [None] when no number
    was read ([end] is the start). *)
Definition strtol (l : text) : option (Z * text) :=
  let '(negative, l1) := sign_of (skip_while isspace l) in
  if starts_with_digit l1 then
    let '(value, rest) := leading_digits 0 l1 in
    Some (Z.max LONG_MIN (Z.min LONG_MAX (if negative then - value else value)), rest)
  else None.

(** One number of a dotted quad: at most 255, without leading zeros. *)
Definition octet (l : text) : option Z :=
  match l with
  | [] => None
  | c :: l' =>
    if starts_with_digit l then
      match leading_digits 0 l with
      | (value, []) =>
        if (value <=? 255) && (negb (Ascii.eqb c "0"%char) || match l' with [] => true | _ => false end)
        then Some value else None
      | _ => None
      end
    else None
  end.

(** [inet_pton(AF_INET, l, &a)]: [a.s_addr]. *)
Definition inet_pton (l : text) : option Z :=
  match mapM octet (split_on "."%char l) with
  | Some [a; b; c; d] => Some (a + b * 2 ^ 8 + c * 2 ^ 16 + d * 2 ^ 24)
  | _ => None
  end.

Definition htonl (x : Z) : Z :=
  Z.lor (Z.lor (Z.shiftl (Z.land x 255) 24) (Z.shiftl (Z.land (Z.shiftr x 8) 255) 16))
        (Z.lor (Z.shiftl (Z.land (Z.shiftr x 16) 255) 8) (Z.land (Z.shiftr x 24) 255)).

(** [NvPSFGatewaySdmMinQueueDepth]; the argument is the value of
    [NVPSF_MIN_QUEUE_DEPTH] in the environment. *)
Definition NvPSFGatewaySdmMinQueueDepth (override : option text) : Z :=
  match override with
  | Some (_ :: _ as value) =>
    match strtol value with
    | Some (v, []) => if (0 <=? v) && (v <=? 1000000) then v else NVPSF_GATEWAY_SDM_MIN_QUEUE_DEPTH
    | _ => NVPSF_GATEWAY_SDM_MIN_QUEUE_DEPTH
    end
  | _ => NVPSF_GATEWAY_SDM_MIN_QUEUE_DEPTH
  end.

(** ** The allow-list of a UDP server *)

Record AllowEntry := { ae_netBE : Z; ae_maskBE : Z }.

#[export] Instance AllowEntry_eq_dec : EqDecision AllowEntry.
Proof. solve_decision. Defined.

Definition maskHost (prefix : Z) : Z :=
  if prefix =? 0 then 0 else u32 (Z.shiftl 0xFFFFFFFF (32 - prefix)).

Definition allow_entry (addr prefix : Z) : AllowEntry := {|
  ae_netBE := Z.land addr (htonl (maskHost prefix));
  ae_maskBE := htonl (maskHost prefix) |}.

Definition SLASH : ascii := "/"%char.
Definition is_space (c : ascii) : bool := Ascii.eqb c SP.

(** What one entry says: the text before the slash is the address, a number in
    0..32 after it the length of the prefix. *)
Definition parse_entry (entry : text) : option AllowEntry :=
  let '(address, suffix) := cut_at SLASH entry in
  let prefix :=
    match suffix with
    | None => Some 32
    | Some digits =>
      match strtol digits with
      | Some (v, []) => if (v <? 0) || (32 <? v) then None else Some v
      | _ => None
      end
    end in
  match prefix with
  | None => None
  | Some prefix =>
    match inet_pton address with
    | Some a => Some (allow_entry a prefix)
    | None => None
    end
  end.

(** The entries are what lies between commas, less the spaces around it; an empty
    one is skipped, one that does not fit the buffer is refused. *)
Fixpoint parse_entries (pieces : list text) (allow : list AllowEntry) : option (list AllowEntry) :=
  match pieces with
  | [] => Some allow
  | piece :: rest =>
    match skip_while is_space piece with
    | [] => parse_entries rest allow
    | raw =>
      if (ENTRY_SIZE - 1 <? length raw)%nat then None
      else if (NVPSF_ALLOWLIST_MAX <=? length allow)%nat then None
      else match parse_entry (reverse (skip_while is_space (reverse raw))) with
           | Some e => parse_entries rest (allow ++ [e])
           | None => None
           end
    end
  end.

Definition allowListParse (spec : text) : option (list AllowEntry) :=
  match parse_entries (split_on COMMA spec) [] with
  | Some [] | None => None
  | Some allow => Some allow
  end.

Definition allowListPermits (allow : list AllowEntry) (s_addr : Z) : bool :=
  existsb (fun e => Z.land s_addr (ae_maskBE e) =? ae_netBE e) allow.

(** ** Configuration *)

Record NvPSFTransportCfg := {
  cfg_kind : Z;
  cfg_role : Z;
  cfg_link : Z;
  cfg_maxPeers : Z;
  cfg_maxMessageBytes : Z;
  cfg_minQueueDepth : Z;
  cfg_recvTimeoutMs : Z;
  cfg_sendTimeoutMs : Z;
  cfg_unixPath : option text;
  cfg_unixMode : Z;
  cfg_allowedGid : Z;
  cfg_inetAddr : option text;
  cfg_inetPort : Z;
  cfg_inetAllowList : option text;
}.

Definition no_text (s : option text) : bool := match s with None | Some [] => true | Some _ => false end.

(** [None] is a null pointer. *)
Definition validateCfg (cfg : option NvPSFTransportCfg) : NvPSFTransportErr :=
  match cfg with
  | None => NVPSF_TRANSPORT_INVALID_ARG
  | Some cfg =>
    if (cfg_kind cfg <? 0) || (NVPSF_TRANSPORT_KIND_COUNT <=? cfg_kind cfg) then NVPSF_TRANSPORT_INVALID_ARG
    else if (cfg_kind cfg =? NVPSF_TRANSPORT_UDP_SOCKET) && (cfg_role cfg =? NVPSF_ROLE_SERVER)
            && no_text (cfg_inetAllowList cfg) then NVPSF_TRANSPORT_INVALID_ARG
    else if (cfg_link cfg <? 0) || (NVPSF_LINK_COUNT <=? cfg_link cfg) then NVPSF_TRANSPORT_INVALID_ARG
    else if negb (cfg_role cfg =? NVPSF_ROLE_SERVER) && negb (cfg_role cfg =? NVPSF_ROLE_CLIENT)
         then NVPSF_TRANSPORT_INVALID_ARG
    else if negb (NvPSFTransportLinkSupportsKind (cfg_link cfg) (cfg_kind cfg)) then NVPSF_TRANSPORT_INVALID_ARG
    else if (cfg_maxMessageBytes cfg =? 0) || (NVPSF_TRANSPORT_MAX_MESSAGE_BYTES <? cfg_maxMessageBytes cfg)
         then NVPSF_TRANSPORT_INVALID_ARG
    else if (cfg_maxPeers cfg =? 0) || (NVPSF_TRANSPORT_MAX_PEERS_LIMIT <? cfg_maxPeers cfg)
         then NVPSF_TRANSPORT_INVALID_ARG
    else NVPSF_TRANSPORT_OK
  end.

Definition copyBounded (dstSize : nat) (src : option text) : option text :=
  match src with
  | None => None
  | Some s => if (length s =? 0)%nat || (dstSize <=? length s)%nat then None else Some s
  end.

(** ** Socket buffers *)

(** What the kernel answers for one option: to setting it, and to reading it back. *)
Record SockOpt := { so_set : bool; so_granted : option Z }.

Definition requested_bytes (depth msgBytes : Z) : Z := depth * msgBytes * NVPSF_SO_BUF_ACCOUNTING_FACTOR.

Definition provisionSocketBuffer (depth msgBytes : Z) (answer : SockOpt) : bool :=
  if depth =? 0 then true
  else if (msgBytes =? 0) || (INT_MAX / NVPSF_SO_BUF_ACCOUNTING_FACTOR / msgBytes <? depth) then false
  else if negb (so_set answer) then false
  else match so_granted answer with
       | None => false
       | Some granted => negb (granted <? requested_bytes depth msgBytes)
       end.

Definition provisionBuffers (cfg : NvPSFTransportCfg) (rcv snd : SockOpt) : bool :=
  if negb (provisionSocketBuffer (cfg_minQueueDepth cfg) (cfg_maxMessageBytes cfg) rcv) then false
  else provisionSocketBuffer (cfg_minQueueDepth cfg) (cfg_maxMessageBytes cfg) snd.

(** ** What a valid configuration says *)

Lemma no_text_false s : no_text s = false -> exists c l, s = Some (c :: l).
Proof. destruct s as [[|c l]|]; [done|eauto|done]. Qed.

(** The fields of a valid configuration are in range, a UDP server has an
    allow-list, and only the gateway's link to the decision makers runs over UDP. *)
Lemma validateCfg_ok cfg : 0 <= cfg_maxPeers cfg -> 0 <= cfg_maxMessageBytes cfg ->
  validateCfg (Some cfg) = NVPSF_TRANSPORT_OK ->
  1 <= cfg_maxPeers cfg <= 64 /\ 1 <= cfg_maxMessageBytes cfg <= 65536 /\
  (cfg_role cfg = NVPSF_ROLE_SERVER \/ cfg_role cfg = NVPSF_ROLE_CLIENT) /\
  (cfg_kind cfg = NVPSF_TRANSPORT_UNIX_SOCKET \/
   cfg_kind cfg = NVPSF_TRANSPORT_UDP_SOCKET /\ cfg_link cfg = NVPSF_LINK_GATEWAY_TO_SDM /\
   (cfg_role cfg = NVPSF_ROLE_SERVER -> exists c l, cfg_inetAllowList cfg = Some (c :: l))).
Proof.
  unfold validateCfg, NVPSF_TRANSPORT_MAX_MESSAGE_BYTES, NVPSF_TRANSPORT_MAX_PEERS_LIMIT,
    NVPSF_TRANSPORT_KIND_COUNT, NVPSF_LINK_COUNT. intros Hp Hm H.
  repeat (case_match; [discriminate|]). bool_prop.
  assert (Hk : cfg_kind cfg = 0 \/ cfg_kind cfg = 1) by lia.
  assert (Hl : cfg_link cfg = 0 \/ cfg_link cfg = 1 \/ cfg_link cfg = 2) by lia.
  unfold NVPSF_ROLE_SERVER, NVPSF_ROLE_CLIENT in *. split_and!; try lia.
  destruct Hk as [Hk|Hk]; [by left|right]. split; [done|]. split.
  - match goal with H : NvPSFTransportLinkSupportsKind _ _ = true |- _ => rewrite Hk in H; revert H end.
    by destruct Hl as [Hl|[Hl|Hl]]; rewrite Hl.
  - intros Hr. apply no_text_false. rewrite Hk, Hr in *. by destruct (no_text (cfg_inetAllowList cfg)).
Qed.

(** A floor that was granted holds the messages it promises; the byte count asked
    for fits an [int]. *)
Lemma provisioned depth msgBytes answer : 0 < depth -> 0 <= msgBytes ->
  provisionSocketBuffer depth msgBytes answer = true ->
  requested_bytes depth msgBytes <= INT_MAX /\
  exists granted, so_granted answer = Some granted /\ requested_bytes depth msgBytes <= granted.
Proof.
  unfold provisionSocketBuffer, NVPSF_SO_BUF_ACCOUNTING_FACTOR. intros Hd Hm H.
  destruct (Z.eqb_spec depth 0); [lia|]. case_match; [done|]. bool_prop.
  case_match; [done|]. destruct (so_granted answer) as [granted|] eqn:E; [|done]. bool_prop. split; [|eauto].
  unfold requested_bytes, NVPSF_SO_BUF_ACCOUNTING_FACTOR.
  assert (msgBytes * (INT_MAX / 2 / msgBytes) <= INT_MAX / 2) by (apply Z.mul_div_le; lia).
  assert (2 * (INT_MAX / 2) <= INT_MAX) by (apply Z.mul_div_le; lia). nia.
Qed.

(** The operator can select exactly the kinds the link carries, by their names. *)
Lemma selectTransportKind_spec name link kind :
  selectTransportKind name link = Some kind <->
  kind ∈ supported_kinds link /\ name = NvPSFTransportKindName kind.
Proof.
  assert (Hs : kind ∈ supported_kinds link <->
    (kind = NVPSF_TRANSPORT_UNIX_SOCKET \/ kind = NVPSF_TRANSPORT_UDP_SOCKET) /\
    NvPSFTransportLinkSupportsKind link kind = true).
  { unfold supported_kinds. rewrite list_elem_of_In, List.filter_In. unfold NVPSF_TRANSPORT_UNIX_SOCKET, NVPSF_TRANSPORT_UDP_SOCKET.
    change (map Z.of_nat _) with [0; 1]. cbn [In]. intuition (subst; auto). }
  rewrite Hs. split.
  - unfold selectTransportKind, parseTransportKind. intros H. repeat case_match; simplify_eq; auto.
  - intros [Hk ->]. unfold selectTransportKind.
    assert (parseTransportKind (NvPSFTransportKindName kind) = Some kind) as -> by by destruct Hk as [[-> | ->] _].
    by destruct Hk as [_ ->].
Qed.

(** ** What the allow-list admits *)

(** Where [htonl] takes a bit from. *)
Definition swapped (i : Z) : Z := 8 * (3 - i / 8) + i mod 8.

Lemma swapped_range i : 0 <= i < 32 -> 0 <= swapped i < 32 /\ swapped (swapped i) = i.
Proof. unfold swapped. intros H. Z.div_mod_to_equations. lia. Qed.

(** One byte of [x], moved. *)
Lemma byte_bits x a b i : 0 <= a -> 0 <= b -> 0 <= i ->
  Z.testbit (Z.shiftl (Z.land (Z.shiftr x a) 255) b) i = (b <=? i) && (i <? b + 8) && Z.testbit x (i - b + a).
Proof.
  intros Ha Hb Hi. rewrite Z.shiftl_spec by done. destruct (Z.leb_spec b i); cbn [andb].
  - rewrite Z.land_spec, Z.shiftr_spec by lia. change 255 with (Z.ones 8). rewrite andb_comm. f_equal.
    destruct (Z.ltb_spec i (b + 8)); [apply Z.ones_spec_low|apply Z.ones_spec_high]; lia.
  - by rewrite Z.testbit_neg_r by lia.
Qed.

Lemma htonl_bits x i : 0 <= i < 32 -> Z.testbit (htonl x) i = Z.testbit x (swapped i).
Proof.
  intros Hi. unfold htonl. rewrite !Z.lor_spec.
  rewrite <- (Z.shiftl_0_r (Z.land (Z.shiftr x 24) 255)), <- (Z.shiftr_0_r x) at 1.
  rewrite !byte_bits by lia. unfold swapped.
  assert (Hk : i / 8 = 0 \/ i / 8 = 1 \/ i / 8 = 2 \/ i / 8 = 3) by (Z.div_mod_to_equations; lia).
  pose proof (Z.div_mod i 8 ltac:(lia)). pose proof (Z.mod_pos_bound i 8 ltac:(lia)).
  destruct Hk as [Hk|[Hk|[Hk|Hk]]]; rewrite Hk in *;
    repeat match goal with
    | |- context [?a <=? i] => first [rewrite (proj2 (Z.leb_le a i)) by lia | rewrite (proj2 (Z.leb_gt a i)) by lia]
    | |- context [i <? ?a] => first [rewrite (proj2 (Z.ltb_lt i a)) by lia | rewrite (proj2 (Z.ltb_ge i a)) by lia]
    end; cbn [andb orb]; rewrite ?orb_false_r; f_equal; lia.
Qed.

Lemma htonl_range x : 0 <= htonl x < 2 ^ 32.
Proof.
  unfold htonl. repeat apply lor_range; try lia; rewrite ?Z.shiftl_mul_pow2 by lia;
    match goal with |- context [Z.land ?a 255] =>
      assert (0 <= Z.land a 255 < 2 ^ 8) by (change 255 with (Z.ones 8); rewrite Z.land_ones by lia; apply Z.mod_pos_bound; lia)
    end; lia.
Qed.

Lemma maskHost_bits p i : 0 <= p <= 32 -> 0 <= i < 32 -> Z.testbit (maskHost p) i = (32 - p <=? i).
Proof.
  intros Hp Hi. unfold maskHost. destruct (Z.eqb_spec p 0) as [->|].
  - rewrite Z.testbit_0_l. symmetry. apply Z.leb_gt. lia.
  - unfold u32. rewrite Z.mod_pow2_bits_low, Z.shiftl_spec by lia.
    destruct (Z.leb_spec (32 - p) i).
    + change 0xFFFFFFFF with (Z.ones 32). apply Z.ones_spec_low. lia.
    + apply Z.testbit_neg_r. lia.
Qed.

(** Equal on the bits of a mask. *)
Lemma land_eq_bits a b m : 0 <= m < 2 ^ 32 ->
  Z.land a m = Z.land b m <-> forall i, 0 <= i < 32 -> Z.testbit m i = true -> Z.testbit a i = Z.testbit b i.
Proof.
  intros Hm. split.
  - intros H i Hi Hb. apply (f_equal (fun z => Z.testbit z i)) in H. by rewrite !Z.land_spec, Hb, !andb_true_r in H.
  - intros H. apply Z.bits_inj'. intros i Hi. rewrite !Z.land_spec.
    destruct (Z.testbit m i) eqn:E; [|by rewrite !andb_false_r]. rewrite !andb_true_r. apply H; [|done].
    destruct (Z.lt_ge_cases i 32); [lia|]. by rewrite (testbit_range_high m 32) in E by lia.
Qed.

Lemma shiftr_eq_bits a b k : 0 <= k -> 0 <= a < 2 ^ 32 -> 0 <= b < 2 ^ 32 ->
  Z.shiftr a k = Z.shiftr b k <-> forall i, k <= i < 32 -> Z.testbit a i = Z.testbit b i.
Proof.
  intros Hk Ha Hb. split.
  - intros H i Hi. apply (f_equal (fun z => Z.testbit z (i - k))) in H. rewrite !Z.shiftr_spec in H by lia.
    by replace (i - k + k) with i in H by lia.
  - intros H. apply Z.bits_inj'. intros i Hi. rewrite !Z.shiftr_spec by lia.
    destruct (Z.lt_ge_cases (i + k) 32); [apply H; lia|].
    rewrite (testbit_range_high a 32), (testbit_range_high b 32) by lia. done.
Qed.

(** An entry admits the sources whose first [p] bits, in the order in which the
    address is written, are those of its address. *)
Lemma allow_entry_permits a s p : 0 <= p <= 32 ->
  Z.land s (ae_maskBE (allow_entry a p)) = ae_netBE (allow_entry a p) <->
  Z.shiftr (htonl s) (32 - p) = Z.shiftr (htonl a) (32 - p).
Proof.
  intros Hp. cbn. rewrite land_eq_bits by apply htonl_range.
  rewrite shiftr_eq_bits by (apply htonl_range || lia). split.
  - intros H i Hi. rewrite !htonl_bits by lia. pose proof (swapped_range i ltac:(lia)) as [Hs Hi'].
    apply H; [done|]. rewrite htonl_bits, Hi', maskHost_bits by lia. apply Z.leb_le. lia.
  - intros H i Hi Hm. pose proof (swapped_range i Hi) as [Hs Hi'].
    rewrite htonl_bits, maskHost_bits in Hm by lia. apply Z.leb_le in Hm.
    specialize (H (swapped i) ltac:(lia)). by rewrite !htonl_bits, Hi' in H by lia.
Qed.

(** ** Printing an allow-list *)

Definition dec (n : Z) : text :=
  if n <? 10 then [digit n]
  else if n <? 100 then [digit (n / 10); digit (n mod 10)]
  else [digit (n / 100); digit (n / 10 mod 10); digit (n mod 10)].

(** A block of addresses as an operator writes it, [a.b.c.d/len]. *)
Record Block := { bl_a : Z; bl_b : Z; bl_c : Z; bl_d : Z; bl_len : Z }.

Definition bl_addr (b : Block) : Z := bl_a b + bl_b b * 2 ^ 8 + bl_c b * 2 ^ 16 + bl_d b * 2 ^ 24.
Definition bl_quad (b : Block) : text := join "."%char [dec (bl_a b); dec (bl_b b); dec (bl_c b); dec (bl_d b)].
Definition bl_text (b : Block) : text := bl_quad b ++ SLASH :: dec (bl_len b).

Definition block_ok (b : Block) : Prop :=
  0 <= bl_a b < 256 /\ 0 <= bl_b b < 256 /\ 0 <= bl_c b < 256 /\ 0 <= bl_d b < 256 /\ 0 <= bl_len b <= 32.

#[export] Instance block_ok_dec b : Decision (block_ok b).
Proof. unfold block_ok. apply _. Defined.

Definition plain (w : text) : bool :=
  forallb (fun c => negb (Ascii.eqb c COMMA || Ascii.eqb c SLASH || Ascii.eqb c SP)) w.
Definition no_dot (w : text) : bool := forallb (fun c => negb (Ascii.eqb c "."%char)) w.

Definition octet_ok (n : Z) : bool :=
  bool_decide (octet (dec n) = Some n) && plain (dec n) && no_dot (dec n) && (length (dec n) <=? 3)%nat &&
  bool_decide (strtol (dec n) = Some (n, [])).

Lemma dec_facts n : 0 <= n < 256 ->
  octet (dec n) = Some n /\ plain (dec n) = true /\ no_dot (dec n) = true /\ (length (dec n) <= 3)%nat /\
  strtol (dec n) = Some (n, []).
Proof.
  intros Hn. assert (Hall : forallb octet_ok (map Z.of_nat (seq 0 256)) = true) by by vm_compute.
  rewrite forallb_forall in Hall. specialize (Hall n). unfold octet_ok in Hall.
  rewrite !andb_true_iff, !bool_decide_eq_true in Hall.
  destruct Hall as ((((H1 & H2) & H3) & H4) & H5); [|apply Nat.leb_le in H4; auto].
  apply in_map_iff. exists (Z.to_nat n). rewrite in_seq. lia.
Qed.

Lemma plain_app v w : plain (v ++ w) = plain v && plain w.
Proof. apply forallb_app. Qed.

Lemma plain_no (c : ascii) w : c = COMMA \/ c = SLASH \/ c = SP -> plain w = true -> forallb (fun x => negb (Ascii.eqb x c)) w = true.
Proof.
  intros Hc Hw. unfold plain in Hw. rewrite forallb_forall in *. intros x Hx. specialize (Hw x Hx).
  rewrite negb_true_iff, !orb_false_iff in Hw. rewrite negb_true_iff. destruct Hc as [->|[->| ->]]; tauto.
Qed.

Lemma quad_facts b : block_ok b ->
  inet_pton (bl_quad b) = Some (bl_addr b) /\ plain (bl_quad b) = true /\ (1 <= length (bl_quad b) <= 15)%nat.
Proof.
  intros (Ha & Hb & Hc & Hd & _).
  destruct (dec_facts _ Ha) as (Oa & Pa & Da & La & _). destruct (dec_facts _ Hb) as (Ob & Pb & Db & Lb & _).
  destruct (dec_facts _ Hc) as (Oc & Pc & Dc & Lc & _). destruct (dec_facts _ Hd) as (Od & Pd & Dd & Ld & _).
  unfold bl_quad. cbn [join]. split_and!.
  - unfold inet_pton. rewrite !split_on_first by done.
    assert (split_on "."%char (dec (bl_d b)) = [dec (bl_d b)]) as ->.
    { revert Dd. generalize (dec (bl_d b)). intros w. induction w as [|x w IH]; [done|]. unfold no_dot. cbn.
      rewrite andb_true_iff. intros [Hx Hw]. destruct (Ascii.eqb x "."%char); [done|]. by rewrite IH. }
    cbn [mapM]. rewrite Oa, Ob, Oc, Od. done.
  - rewrite !plain_app, Pa. cbn. rewrite plain_app, Pb. cbn. by rewrite plain_app, Pc.
  - rewrite !length_app. cbn. rewrite length_app. cbn. rewrite length_app. cbn. lia.
  - rewrite !length_app. cbn. rewrite length_app. cbn. rewrite length_app. cbn. lia.
Qed.

Lemma skip_while_none p (w : text) : forallb (fun c => negb (p c)) w = true -> skip_while p w = w.
Proof. destruct w as [|c w]; [done|]. cbn. rewrite andb_true_iff, negb_true_iff. by intros [-> _]. Qed.

Lemma forallb_reverse {A} (p : A -> bool) l : forallb p (reverse l) = forallb p l.
Proof.
  apply Bool.eq_true_iff_eq. rewrite !forallb_forall. setoid_rewrite <- list_elem_of_In. by setoid_rewrite elem_of_reverse.
Qed.

Lemma split_on_join sep ws : Forall (fun w => forallb (fun x => negb (Ascii.eqb x sep)) w = true) ws -> ws <> [] ->
  split_on sep (join sep ws) = ws.
Proof.
  induction 1 as [|w ws Hw Hws IH]; [done|]. intros _. destruct ws as [|w' ws].
  - cbn [join]. clear -Hw. induction w as [|x w IH]; [done|]. cbn in *. apply andb_true_iff in Hw as [Hx Hw].
    destruct (Ascii.eqb x sep); [done|]. by rewrite IH.
  - cbn [join]. rewrite split_on_first by done. f_equal. by apply IH.
Qed.

(** Neither commas nor spaces, and short enough for the buffer. *)
Lemma block_text_facts b : block_ok b ->
  forallb (fun x => negb (Ascii.eqb x COMMA)) (bl_text b) = true /\ forallb (fun x => negb (is_space x)) (bl_text b) = true /\
  bl_text b <> [] /\ (length (bl_text b) <= 63)%nat /\ parse_entry (bl_text b) = Some (allow_entry (bl_addr b) (bl_len b)).
Proof.
  intros Hb. destruct (quad_facts b Hb) as (Hq & Pq & Lq). destruct Hb as (_ & _ & _ & _ & Hl).
  destruct (dec_facts (bl_len b) ltac:(lia)) as (_ & Pl & _ & Ll & Sl). unfold bl_text. split_and!.
  - rewrite forallb_app. cbn. rewrite !plain_no by auto. done.
  - rewrite forallb_app. cbn. unfold is_space. rewrite !plain_no by auto. done.
  - by destruct (bl_quad b).
  - rewrite length_app. cbn [length]. lia.
  - unfold parse_entry. rewrite cut_at_first by (apply plain_no; auto). rewrite Sl, Hq.
    replace ((bl_len b <? 0) || (32 <? bl_len b)) with false; [done|]. symmetry. apply orb_false_iff. rewrite !Z.ltb_ge. lia.
Qed.

Lemma parse_blocks bs allow : Forall block_ok bs -> (length allow + length bs <= NVPSF_ALLOWLIST_MAX)%nat ->
  parse_entries (map bl_text bs) allow = Some (allow ++ map (fun b => allow_entry (bl_addr b) (bl_len b)) bs).
Proof.
  intros H. revert allow. induction H as [|b bs Hb Hbs IH]; intros allow Hn; cbn [map parse_entries].
  { by rewrite app_nil_r. }
  destruct (block_text_facts b Hb) as (_ & Hs & Hne & Hlen & Hp). rewrite skip_while_none by done.
  destruct (bl_text b) as [|c w] eqn:E; [done|]. rewrite <- E in *. cbn [length] in Hn.
  replace (ENTRY_SIZE - 1 <? length (bl_text b))%nat with false by (symmetry; apply Nat.ltb_ge; unfold ENTRY_SIZE; lia).
  replace (NVPSF_ALLOWLIST_MAX <=? length allow)%nat with false by (symmetry; apply Nat.leb_gt; lia).
  rewrite skip_while_none by (by rewrite forallb_reverse). rewrite reverse_involutive, Hp.
  rewrite IH by (rewrite length_app; cbn; lia). by rewrite <- app_assoc.
Qed.

Lemma allowListParse_printed bs : Forall block_ok bs -> (1 <= length bs <= NVPSF_ALLOWLIST_MAX)%nat ->
  allowListParse (join COMMA (map bl_text bs)) = Some (map (fun b => allow_entry (bl_addr b) (bl_len b)) bs).
Proof.
  intros H Hn. unfold allowListParse. rewrite split_on_join.
  - rewrite parse_blocks by (done || cbn; lia). by destruct bs; [cbn in Hn; lia|].
  - rewrite Forall_map. eapply Forall_impl; [done|]. cbn. intros b Hb. by apply block_text_facts.
  - by destruct bs; [cbn in Hn; lia|].
Qed.

(** A UDP server whose allow-list is written as blocks of addresses starts with
    them, and a datagram may then register exactly when its source agrees with one
    of the blocks on the block's first [len] bits. *)
Theorem allow_list_admits_blocks bs s :
  Forall block_ok bs -> (1 <= length bs <= NVPSF_ALLOWLIST_MAX)%nat ->
  exists allow, allowListParse (join COMMA (map bl_text bs)) = Some allow /\
    (allowListPermits allow s = true <->
     Exists (fun b => Z.shiftr (htonl s) (32 - bl_len b) = Z.shiftr (htonl (bl_addr b)) (32 - bl_len b)) bs).
Proof.
  intros H Hn. eexists. split; [by apply allowListParse_printed|].
  unfold allowListPermits. rewrite existsb_exists. setoid_rewrite Z.eqb_eq. rewrite Exists_exists. split.
  - intros (e & He & Hm). apply in_map_iff in He as (b & <- & Hb). exists b. apply list_elem_of_In in Hb.
    split; [done|]. apply allow_entry_permits; [|done]. rewrite Forall_forall in H. by apply H.
  - intros (b & Hb & Hm). exists (allow_entry (bl_addr b) (bl_len b)). split.
    + apply in_map_iff. exists b. by rewrite <- list_elem_of_In.
    + apply allow_entry_permits; [|done]. rewrite Forall_forall in H. by apply H.
Qed.

Definition subnet_and_host : list Block :=
  [{| bl_a := 10; bl_b := 0; bl_c := 4; bl_d := 0; bl_len := 24 |};
   {| bl_a := 10; bl_b := 0; bl_c := 5; bl_d := 7; bl_len := 32 |}].

Lemma allow_list_admits_blocks_witness :
  exists allow, allowListParse (str "10.0.4.0/24,10.0.5.7/32") = Some allow /\
    (allowListPermits allow (10 + 4 * 2 ^ 16 + 99 * 2 ^ 24) = true <->
     Exists (fun b => Z.shiftr (htonl (10 + 4 * 2 ^ 16 + 99 * 2 ^ 24)) (32 - bl_len b) =
                      Z.shiftr (htonl (bl_addr b)) (32 - bl_len b)) subnet_and_host).
Proof.
  apply (allow_list_admits_blocks subnet_and_host); [apply (bool_decide_unpack _); vm_compute; exact I | unfold NVPSF_ALLOWLIST_MAX; cbn; lia].
Defined.
