(* ===== verification/Transport.v ===== *)
(** * The peer table of a transport endpoint

    [nvpsf_transport.c] after an endpoint is open: the peer slots and their ids, the
    admission rate window, accepting connections, polling, receiving, sending and
    dropping peers.  [TransportOpen] has opening and closing.

    What the kernel answers to a call is an argument of the operation: the
    descriptor of [accept4] and the credential behind it, the [revents] of [poll],
    the result of [recvmsg] and [send], the clock.  What an operation does to the
    kernel is its list of [Action]s, in order.  [SlotTaken] is not in the code: it
    marks that [slotAcquire] handed out a slot.  Pointer arguments are not null and
    the mutex can be locked; a function that holds it is one step, [Poll] is two,
    because it waits without it.  Log text is left out but for the two diagnostics
    that the rate window limits. *)

From S2P Require Import Prelude Protocol TransportConfig.

Local Open Scope Z_scope.

(** ** Data *)

Definition NVPSF_FD_INVALID : Z := -1.
Definition NVPSF_ID_FIELD_MASK : Z := 0xFFFF.
Definition NVPSF_GEN_FIRST : Z := 1.
Definition NVPSF_ACCEPT_WINDOW_MS : Z := 1000.
Definition NVPSF_ACCEPT_PER_WINDOW_PER_PEER : Z := 4.
Definition NVPSF_ACCEPTS_PER_POLL : nat := 8.
Definition NVPSF_POLL_SLOTS : nat := Z.to_nat (NVPSF_TRANSPORT_MAX_PEERS_LIMIT + 1).

(** [sizeof(struct ucred)]. *)
Definition UCRED_SIZE : Z := 12.

Inductive Errno :=
  | EAGAIN | EWOULDBLOCK | EINTR | ENOBUFS | EPIPE | ECONNRESET | ENOTCONN | ECONNREFUSED | EMSGSIZE
  | EADDRINUSE | ENOENT | EPROTOTYPE | EOTHER.

#[export] Instance Errno_eq_dec : EqDecision Errno.
Proof. solve_decision. Defined.

Record NvPSFPeerCred := { pc_pid : Z; pc_uid : Z; pc_gid : Z }.
Record sockaddr_in := { sin_addr : Z; sin_port : Z }.

#[export] Instance sockaddr_in_eq_dec : EqDecision sockaddr_in.
Proof. solve_decision. Defined.

Definition zero_cred : NvPSFPeerCred := {| pc_pid := 0; pc_uid := 0; pc_gid := 0 |}.
Definition zero_addr : sockaddr_in := {| sin_addr := 0; sin_port := 0 |}.

Record NvPSFPeerSlot := {
  ps_fd : Z;
  ps_generation : Z;
  ps_inUse : bool;
  ps_credValid : bool;
  ps_cred : NvPSFPeerCred;
  ps_dropCount : Z;
  ps_addr : sockaddr_in;
  ps_addrValid : bool;
}.

Record NvPSFTransport := {
  tp_kind : Z;
  tp_role : Z;
  tp_link : Z;
  tp_maxPeers : Z;
  tp_maxMessageBytes : Z;
  tp_minQueueDepth : Z;
  tp_recvTimeoutMs : Z;
  tp_sendTimeoutMs : Z;
  tp_peers : list NvPSFPeerSlot;
  tp_rrCursor : Z;
  tp_listenFd : Z;
  tp_unixPath : Text.text;
  tp_pathBound : bool;
  tp_allowedGid : Z;
  tp_udpFd : Z;
  tp_allow : list AllowEntry;
  tp_allowDenyReported : bool;
  tp_acceptWindowStartMs : Z;
  tp_acceptWindowCount : Z;
  tp_acceptWindowDenyReported : bool;
}.

Inductive NvPSFTransportEventKind := NVPSF_EVENT_PEER_CONNECTED | NVPSF_EVENT_PEER_GONE | NVPSF_EVENT_MESSAGE_READY.

Record NvPSFTransportEvent := { te_kind : NvPSFTransportEventKind; te_peer : Z }.

Inductive Action :=
  | FdOpened (fd : Z)
  | FdClosed (fd : Z)
  | ClockRead (nowMs : Z)
  | SlotTaken (slot : nat)
  | RateDenied
  | SourceDenied
  | Transmitted (fd : Z) (dest : option sockaddr_in) (buf : list Z)
  | Bound (path : Text.text)
  | Unlinked (path : Text.text).

(** ** Setters *)

Definition set_peers (peers : list NvPSFPeerSlot) (t : NvPSFTransport) : NvPSFTransport := {|
  tp_kind := tp_kind t; tp_role := tp_role t; tp_link := tp_link t; tp_maxPeers := tp_maxPeers t;
  tp_maxMessageBytes := tp_maxMessageBytes t; tp_minQueueDepth := tp_minQueueDepth t;
  tp_recvTimeoutMs := tp_recvTimeoutMs t; tp_sendTimeoutMs := tp_sendTimeoutMs t; tp_peers := peers;
  tp_rrCursor := tp_rrCursor t; tp_listenFd := tp_listenFd t; tp_unixPath := tp_unixPath t;
  tp_pathBound := tp_pathBound t; tp_allowedGid := tp_allowedGid t; tp_udpFd := tp_udpFd t; tp_allow := tp_allow t;
  tp_allowDenyReported := tp_allowDenyReported t; tp_acceptWindowStartMs := tp_acceptWindowStartMs t;
  tp_acceptWindowCount := tp_acceptWindowCount t; tp_acceptWindowDenyReported := tp_acceptWindowDenyReported t |}.

Definition set_rrCursor (cursor : Z) (t : NvPSFTransport) : NvPSFTransport := {|
  tp_kind := tp_kind t; tp_role := tp_role t; tp_link := tp_link t; tp_maxPeers := tp_maxPeers t;
  tp_maxMessageBytes := tp_maxMessageBytes t; tp_minQueueDepth := tp_minQueueDepth t;
  tp_recvTimeoutMs := tp_recvTimeoutMs t; tp_sendTimeoutMs := tp_sendTimeoutMs t; tp_peers := tp_peers t;
  tp_rrCursor := cursor; tp_listenFd := tp_listenFd t; tp_unixPath := tp_unixPath t;
  tp_pathBound := tp_pathBound t; tp_allowedGid := tp_allowedGid t; tp_udpFd := tp_udpFd t; tp_allow := tp_allow t;
  tp_allowDenyReported := tp_allowDenyReported t; tp_acceptWindowStartMs := tp_acceptWindowStartMs t;
  tp_acceptWindowCount := tp_acceptWindowCount t; tp_acceptWindowDenyReported := tp_acceptWindowDenyReported t |}.

(** The window: its start, the admissions counted, and the two flags of its
    diagnostics. *)
Definition set_window (start count : Z) (denied allowDenied : bool) (t : NvPSFTransport) : NvPSFTransport := {|
  tp_kind := tp_kind t; tp_role := tp_role t; tp_link := tp_link t; tp_maxPeers := tp_maxPeers t;
  tp_maxMessageBytes := tp_maxMessageBytes t; tp_minQueueDepth := tp_minQueueDepth t;
  tp_recvTimeoutMs := tp_recvTimeoutMs t; tp_sendTimeoutMs := tp_sendTimeoutMs t; tp_peers := tp_peers t;
  tp_rrCursor := tp_rrCursor t; tp_listenFd := tp_listenFd t; tp_unixPath := tp_unixPath t;
  tp_pathBound := tp_pathBound t; tp_allowedGid := tp_allowedGid t; tp_udpFd := tp_udpFd t; tp_allow := tp_allow t;
  tp_allowDenyReported := allowDenied; tp_acceptWindowStartMs := start;
  tp_acceptWindowCount := count; tp_acceptWindowDenyReported := denied |}.

(** ** Peer ids and slots *)

Definition peerIdMake (slot generation : Z) : Z :=
  u32 (Z.lor (u32 (Z.shiftl (Z.land generation NVPSF_ID_FIELD_MASK) 16)) (Z.land slot NVPSF_ID_FIELD_MASK)).
Definition peerIdSlot (id : Z) : Z := Z.land id NVPSF_ID_FIELD_MASK.
Definition peerIdGeneration (id : Z) : Z := Z.land (Z.shiftr id 16) NVPSF_ID_FIELD_MASK.

Definition slotFor (id : Z) (t : NvPSFTransport) : option nat :=
  if id =? NVPSF_PEER_INVALID then None
  else if tp_maxPeers t <=? peerIdSlot id then None
  else match tp_peers t !! Z.to_nat (peerIdSlot id) with
       | None => None
       | Some s => if negb (ps_inUse s) then None
                   else if negb (ps_generation s =? peerIdGeneration id) then None
                   else Some (Z.to_nat (peerIdSlot id))
       end.

(** The count of drops survives. *)
Definition released (s : NvPSFPeerSlot) : NvPSFPeerSlot := {|
  ps_fd := NVPSF_FD_INVALID; ps_generation := ps_generation s; ps_inUse := false; ps_credValid := false;
  ps_cred := zero_cred; ps_dropCount := ps_dropCount s; ps_addr := zero_addr; ps_addrValid := false |}.

Definition close_fd (fd : Z) : list Action := if fd =? NVPSF_FD_INVALID then [] else [FdClosed fd].

Definition slotRelease (i : nat) (t : NvPSFTransport) : NvPSFTransport * list Action :=
  match tp_peers t !! i with
  | None => (t, [])
  | Some s => (set_peers (<[i := released s]> (tp_peers t)) t, close_fd (ps_fd s))
  end.

Definition next_generation (g : Z) : Z :=
  let g' := u32 (g + 1) in if Z.land g' NVPSF_ID_FIELD_MASK =? 0 then NVPSF_GEN_FIRST else g'.

Definition taken (s : NvPSFPeerSlot) : NvPSFPeerSlot := {|
  ps_fd := NVPSF_FD_INVALID; ps_generation := next_generation (ps_generation s); ps_inUse := true;
  ps_credValid := ps_credValid s; ps_cred := ps_cred s; ps_dropCount := ps_dropCount s; ps_addr := ps_addr s;
  ps_addrValid := ps_addrValid s |}.

(** The first slot of the table that is free. *)
Fixpoint first_free (peers : list NvPSFPeerSlot) : option nat :=
  match peers with
  | [] => None
  | s :: rest => if ps_inUse s then S <$> first_free rest else Some O
  end.

(** The slot with what the caller of [slotAcquire] writes to it. *)
Definition slotAcquire (fill : NvPSFPeerSlot -> NvPSFPeerSlot) (t : NvPSFTransport) : option (nat * NvPSFTransport) :=
  match first_free (tp_peers t) with
  | None => None
  | Some i =>
    match tp_peers t !! i with
    | None => None
    | Some s => Some (i, set_peers (<[i := fill (taken s)]> (tp_peers t)) t)
    end
  end.

Definition has_addr (addr : sockaddr_in) (s : NvPSFPeerSlot) : bool :=
  ps_inUse s && ps_addrValid s && (sin_addr (ps_addr s) =? sin_addr addr) && (sin_port (ps_addr s) =? sin_port addr).

Fixpoint find_addr (addr : sockaddr_in) (peers : list NvPSFPeerSlot) : option nat :=
  match peers with
  | [] => None
  | s :: rest => if has_addr addr s then Some O else S <$> find_addr addr rest
  end.

Definition slotFindByAddr (addr : sockaddr_in) (t : NvPSFTransport) : option nat := find_addr addr (tp_peers t).

Definition generation_at (i : nat) (t : NvPSFTransport) : Z :=
  match tp_peers t !! i with Some s => ps_generation s | None => 0 end.

Definition id_at (i : nat) (t : NvPSFTransport) : Z := peerIdMake (Z.of_nat i) (generation_at i t).

(** ** Admission *)

Definition accept_budget (t : NvPSFTransport) : Z := u32 (tp_maxPeers t * NVPSF_ACCEPT_PER_WINDOW_PER_PEER).

Definition roll_window (nowMs : Z) (t : NvPSFTransport) : NvPSFTransport :=
  if NVPSF_ACCEPT_WINDOW_MS <=? u64 (nowMs - tp_acceptWindowStartMs t) then set_window nowMs 0 false false t else t.

Definition count_admission (t : NvPSFTransport) : NvPSFTransport :=
  set_window (tp_acceptWindowStartMs t) (u32 (tp_acceptWindowCount t + 1)) (tp_acceptWindowDenyReported t)
    (tp_allowDenyReported t) t.

Definition admissionRateAllows (nowMs : Z) (t : NvPSFTransport) : bool * NvPSFTransport :=
  let t1 := roll_window nowMs t in
  if accept_budget t1 <=? tp_acceptWindowCount t1 then (false, t1) else (true, count_admission t1).

Definition admissionDenyFirstInWindow (t : NvPSFTransport) : bool * NvPSFTransport :=
  if tp_acceptWindowDenyReported t then (false, t)
  else (true, set_window (tp_acceptWindowStartMs t) (tp_acceptWindowCount t) true (tp_allowDenyReported t) t).

(** The diagnostic of a denial, at most once in a window. *)
Definition report_denial (t : NvPSFTransport) : NvPSFTransport * list Action :=
  let '(first, t1) := admissionDenyFirstInWindow t in (t1, if first then [RateDenied] else []).

(** What [SO_PEERCRED] answers: the length and the credential, or that it failed. *)
Definition checkPeerCred (answer : option (Z * NvPSFPeerCred)) (allowedGid : Z) : option NvPSFPeerCred :=
  match answer with
  | None => None
  | Some (len, cred) =>
    if negb (len =? UCRED_SIZE) then None else if negb (pc_gid cred =? allowedGid) then None else Some cred
  end.

Definition with_connection (fd : Z) (cred : NvPSFPeerCred) (s : NvPSFPeerSlot) : NvPSFPeerSlot := {|
  ps_fd := fd; ps_generation := ps_generation s; ps_inUse := ps_inUse s; ps_credValid := true; ps_cred := cred;
  ps_dropCount := ps_dropCount s; ps_addr := ps_addr s; ps_addrValid := ps_addrValid s |}.

Definition with_address (addr : sockaddr_in) (s : NvPSFPeerSlot) : NvPSFPeerSlot := {|
  ps_fd := ps_fd s; ps_generation := ps_generation s; ps_inUse := ps_inUse s; ps_credValid := false;
  ps_cred := ps_cred s; ps_dropCount := ps_dropCount s; ps_addr := addr; ps_addrValid := true |}.

(** What the kernel answers to one [accept4], the clock read after it, and the
    credential of the connection. *)
Record AcceptAnswer := { aa_fd : Z; aa_nowMs : Z; aa_cred : option (Z * NvPSFPeerCred) }.

Definition acceptOne (answer : AcceptAnswer) (t : NvPSFTransport)
    : NvPSFTransport * list Action * option NvPSFTransportEvent :=
  let fd := aa_fd answer in
  let nowMs := aa_nowMs answer in
  if fd <? 0 then (t, [], None)
  else
    let '(allowed, t1) := admissionRateAllows nowMs t in
    if negb allowed then
      let '(t2, report) := report_denial t1 in (t2, FdOpened fd :: ClockRead nowMs :: report ++ [FdClosed fd], None)
    else match checkPeerCred (aa_cred answer) (tp_allowedGid t1) with
    | None => (t1, [FdOpened fd; ClockRead nowMs; FdClosed fd], None)
    | Some cred =>
      match slotAcquire (with_connection fd cred) t1 with
      | None => (t1, [FdOpened fd; ClockRead nowMs; FdClosed fd], None)
      | Some (i, t2) =>
        (t2, [FdOpened fd; ClockRead nowMs; SlotTaken i],
         Some {| te_kind := NVPSF_EVENT_PEER_CONNECTED; te_peer := id_at i t2 |})
      end
    end.

(** The accept loop of [Poll]: [room] events may still be produced.  No answer left
    is an [accept4] that fails. *)
Fixpoint accept_loop (room : nat) (answers : list AcceptAnswer) (t : NvPSFTransport)
    : NvPSFTransport * list Action * list NvPSFTransportEvent :=
  match room, answers with
  | O, _ | _, [] => (t, [], [])
  | S room', answer :: rest =>
    match acceptOne answer t with
    | (t1, acts, None) => (t1, acts, [])
    | (t1, acts, Some e) =>
      let '(t2, acts2, es) := accept_loop room' rest t1 in (t2, acts ++ acts2, e :: es)
    end
  end.

(** ** Poll *)

Definition POLLIN : Z := 1.
Definition POLLERR : Z := 8.
Definition POLLHUP : Z := 16.
Definition POLLNVAL : Z := 32.

Definition has_bits (revents mask : Z) : bool := negb (Z.land revents mask =? 0).

(** An entry of the [poll] array, with what was read of the slot under the lock. *)
Inductive PollEntry :=
  | PollListen (fd : Z)
  | PollShared (fd : Z)
  | PollPeer (fd : Z) (slot : nat) (generation : Z).

Definition peer_entry (i : nat) (s : NvPSFPeerSlot) : option PollEntry :=
  if ps_inUse s && negb (ps_fd s =? NVPSF_FD_INVALID) then Some (PollPeer (ps_fd s) i (ps_generation s)) else None.

Definition peer_entries (peers : list NvPSFPeerSlot) : list PollEntry := omap id (imap peer_entry peers).

(** The array has room for every peer and one socket more ([poll_array_holds_all]). *)
Definition poll_snapshot (t : NvPSFTransport) : list PollEntry :=
  take NVPSF_POLL_SLOTS
    ((if tp_listenFd t =? NVPSF_FD_INVALID then [] else [PollListen (tp_listenFd t)]) ++
     (if tp_udpFd t =? NVPSF_FD_INVALID then [] else [PollShared (tp_udpFd t)]) ++
     (if tp_kind t =? NVPSF_TRANSPORT_UNIX_SOCKET then peer_entries (tp_peers t) else [])).

(** What the kernel answers while [Poll] handles its events: to the [accept4] calls,
    and to the [recv] with [MSG_PEEK] on a descriptor that is not interrupted. *)
Record PollWorld := { pw_accepts : list AcceptAnswer; pw_peek : Z -> Z }.

Definition peerHasQueuedMessage (fd : Z) (w : PollWorld) : bool := 0 <? pw_peek w fd.

Definition peer_event (kind : NvPSFTransportEventKind) (peer : Z) : NvPSFTransportEvent :=
  {| te_kind := kind; te_peer := peer |}.

(** The slot still belongs to the connection that was polled. *)
Definition same_peer (fd : Z) (generation : Z) (s : NvPSFPeerSlot) : bool :=
  ps_inUse s && (ps_fd s =? fd) && (ps_generation s =? generation).

Definition poll_shared (revents : Z) (t : NvPSFTransport) : list NvPSFTransportEvent * bool :=
  if has_bits revents POLLIN
  then ([peer_event NVPSF_EVENT_MESSAGE_READY (if tp_role t =? NVPSF_ROLE_CLIENT then id_at 0 t else NVPSF_PEER_INVALID)], false)
  else ([], has_bits revents (Z.lor POLLERR (Z.lor POLLNVAL POLLHUP))).

Definition poll_peer (fd : Z) (slot : nat) (generation revents : Z) (w : PollWorld) (t : NvPSFTransport)
    : NvPSFTransport * list Action * list NvPSFTransportEvent :=
  match tp_peers t !! slot with
  | None => (t, [], [])
  | Some s =>
    if negb (same_peer fd generation s) then (t, [], [])
    else if has_bits revents (Z.lor POLLHUP (Z.lor POLLERR POLLNVAL)) then
      if negb (has_bits revents POLLNVAL) && peerHasQueuedMessage (ps_fd s) w
      then (t, [], [peer_event NVPSF_EVENT_MESSAGE_READY (id_at slot t)])
      else let '(t1, acts) := slotRelease slot t in (t1, acts, [peer_event NVPSF_EVENT_PEER_GONE (id_at slot t)])
    else if has_bits revents POLLIN then (t, [], [peer_event NVPSF_EVENT_MESSAGE_READY (id_at slot t)])
    else (t, [], [])
  end.

(** One entry; the last component is that the shared socket has failed. *)
Definition poll_entry (room : nat) (entry : PollEntry) (revents : Z) (w : PollWorld) (t : NvPSFTransport)
    : NvPSFTransport * list Action * list NvPSFTransportEvent * bool :=
  if revents =? 0 then (t, [], [], false)
  else match entry with
  | PollListen _ => (accept_loop (Nat.min room NVPSF_ACCEPTS_PER_POLL) (pw_accepts w) t, false)
  | PollShared _ => let '(es, failed) := poll_shared revents t in (t, [], es, failed)
  | PollPeer fd slot generation => (poll_peer fd slot generation revents w t, false)
  end.

Fixpoint poll_scan (room : nat) (entries : list (PollEntry * Z)) (w : PollWorld) (t : NvPSFTransport)
    : NvPSFTransport * list Action * list NvPSFTransportEvent * bool :=
  match room, entries with
  | O, _ | _, [] => (t, [], [], false)
  | _, (entry, revents) :: rest =>
    let '(t1, acts1, es1, failed1) := poll_entry room entry revents w t in
    let '(t2, acts2, es2, failed2) := poll_scan (room - length es1) rest w t1 in
    (t2, acts1 ++ acts2, es1 ++ es2, failed1 || failed2)
  end.

(** [Poll] up to the wait. *)
Definition poll_begin (timeoutMs : Z) (maxEvents : nat) (t : NvPSFTransport) : NvPSFTransportErr + list PollEntry :=
  if (maxEvents =? 0)%nat then inl NVPSF_TRANSPORT_INVALID_ARG
  else if INT_MAX <? timeoutMs then inl NVPSF_TRANSPORT_INVALID_ARG
  else match poll_snapshot t with [] => inl NVPSF_TRANSPORT_TIMEOUT | snapshot => inr snapshot end.

(** What [poll] answers: the [revents] of the entries, in their order. *)
Inductive PollAnswer := PollFailed (e : Errno) | PollTimedOut | PollReady (revents : list Z).

(** [Poll] after the wait. *)
Definition poll_end (maxEvents : nat) (snapshot : list PollEntry) (answer : PollAnswer) (w : PollWorld) (t : NvPSFTransport)
    : NvPSFTransport * list Action * list NvPSFTransportEvent * NvPSFTransportErr :=
  match answer with
  | PollFailed e => (t, [], [], if decide (e = EINTR) then NVPSF_TRANSPORT_TIMEOUT else NVPSF_TRANSPORT_FAIL)
  | PollTimedOut => (t, [], [], NVPSF_TRANSPORT_TIMEOUT)
  | PollReady revents =>
    let '(t1, acts, es, failed) := poll_scan maxEvents (zip snapshot revents) w t in
    (t1, acts, es,
     match es with
     | _ :: _ => NVPSF_TRANSPORT_OK
     | [] => if failed then NVPSF_TRANSPORT_FAIL else NVPSF_TRANSPORT_TIMEOUT
     end)
  end.

(** ** Receive *)

(** What [recvmsg] answers: an error, or the bytes, [MSG_TRUNC] and the source. *)
Inductive RecvAnswer := RecvFailed (e : Errno) | RecvGot (bytes : list Z) (trunc : bool) (src : sockaddr_in).

(** The result and, when it is OK, the bytes and their source. *)
Definition recvOnFd (answer : RecvAnswer) (bufLen : nat) (isSeqPacket : bool)
    : NvPSFTransportErr * option (list Z * sockaddr_in) :=
  match answer with
  | RecvFailed (EAGAIN | EWOULDBLOCK | EINTR) => (NVPSF_TRANSPORT_WOULD_BLOCK, None)
  | RecvFailed (ECONNRESET | ENOTCONN | EPIPE) => (NVPSF_TRANSPORT_PEER_GONE, None)
  | RecvFailed _ => (NVPSF_TRANSPORT_FAIL, None)
  | RecvGot bytes trunc src =>
    if trunc then (NVPSF_TRANSPORT_TRUNCATED, None)
    else if (length bytes =? 0)%nat
         then (if isSeqPacket then NVPSF_TRANSPORT_PEER_GONE else NVPSF_TRANSPORT_TRUNCATED, None)
    else if (bufLen <? length bytes)%nat then (NVPSF_TRANSPORT_TRUNCATED, None)
    else (NVPSF_TRANSPORT_OK, Some (bytes, src))
  end.

(** What [Recv] gives its caller: the result, [fromPeer] and the bytes. *)
Record Received := { rv_err : NvPSFTransportErr; rv_from : Z; rv_bytes : list Z }.

Definition nothing_received (err : NvPSFTransportErr) : Received :=
  {| rv_err := err; rv_from := NVPSF_PEER_INVALID; rv_bytes := [] |}.

Definition report_source (t : NvPSFTransport) : NvPSFTransport * list Action :=
  if tp_allowDenyReported t then (t, [])
  else (set_window (tp_acceptWindowStartMs t) (tp_acceptWindowCount t) (tp_acceptWindowDenyReported t) true t, [SourceDenied]).

(** A datagram of a source without a slot. *)
Definition admit_source (nowMs : Z) (src : sockaddr_in) (t : NvPSFTransport) : NvPSFTransport * list Action * option nat :=
  if tp_role t =? NVPSF_ROLE_CLIENT then (t, [], None)
  else if negb (allowListPermits (tp_allow t) (sin_addr src)) then (report_source t, None)
  else
    let '(allowed, t1) := admissionRateAllows nowMs t in
    if negb allowed then let '(t2, report) := report_denial t1 in (t2, ClockRead nowMs :: report, None)
    else match slotAcquire (with_address src) t1 with
         | None => (t1, [ClockRead nowMs], None)
         | Some (i, t2) => (t2, [ClockRead nowMs; SlotTaken i], Some i)
         end.

(** The bytes are in the caller's buffer, and their number in [outLen], also when
    the source is denied. *)
Definition recvFromUdp (answer : RecvAnswer) (nowMs : Z) (bufLen : nat) (t : NvPSFTransport)
    : NvPSFTransport * list Action * Received :=
  match recvOnFd answer bufLen false with
  | (_, Some (bytes, src)) =>
    let from t' i := {| rv_err := NVPSF_TRANSPORT_OK; rv_from := id_at i t'; rv_bytes := bytes |} in
    match slotFindByAddr src t with
    | Some i => (t, [], from t i)
    | None =>
      match admit_source nowMs src t with
      | (t1, acts, Some i) => (t1, acts, from t1 i)
      | (t1, acts, None) =>
        (t1, acts, {| rv_err := NVPSF_TRANSPORT_DENIED; rv_from := NVPSF_PEER_INVALID; rv_bytes := bytes |})
      end
    end
  | (err, None) => (t, [], nothing_received err)
  end.

(** The slots in the order in which [Recv] tries them. *)
Definition recv_order (t : NvPSFTransport) : list nat :=
  map (fun examined => Z.to_nat ((tp_rrCursor t + 1 + Z.of_nat examined) mod tp_maxPeers t))
      (seq 0 (Z.to_nat (tp_maxPeers t))).

(** [rx] is what [recvmsg] answers on the connection of a slot. *)
Fixpoint recv_loop (slots : list nat) (rx : nat -> RecvAnswer) (bufLen : nat) (t : NvPSFTransport)
    : NvPSFTransport * list Action * Received :=
  match slots with
  | [] => (t, [], nothing_received NVPSF_TRANSPORT_WOULD_BLOCK)
  | slot :: rest =>
    match tp_peers t !! slot with
    | None => recv_loop rest rx bufLen t
    | Some s =>
      if negb (ps_inUse s) || (ps_fd s =? NVPSF_FD_INVALID) then recv_loop rest rx bufLen t
      else
        let '(err, got) := recvOnFd (rx slot) bufLen true in
        if decide (err = NVPSF_TRANSPORT_WOULD_BLOCK) then recv_loop rest rx bufLen t
        else
          let t1 := set_rrCursor (Z.of_nat slot) t in
          let '(t2, acts) := if decide (err = NVPSF_TRANSPORT_PEER_GONE) then slotRelease slot t1 else (t1, []) in
          (t2, acts, {| rv_err := err; rv_from := id_at slot t;
                        rv_bytes := match got with Some (bytes, _) => bytes | None => [] end |})
    end
  end.

(** What the kernel answers to one [Recv]: on the shared socket, or per slot. *)
Record RecvWorld := { rw_shared : RecvAnswer; rw_nowMs : Z; rw_peer : nat -> RecvAnswer }.

Definition NvPSFTransportRecv (bufLen : nat) (w : RecvWorld) (t : NvPSFTransport) : NvPSFTransport * list Action * Received :=
  if (bufLen =? 0)%nat then (t, [], nothing_received NVPSF_TRANSPORT_INVALID_ARG)
  else if tp_kind t =? NVPSF_TRANSPORT_UDP_SOCKET then recvFromUdp (rw_shared w) (rw_nowMs w) bufLen t
  else recv_loop (recv_order t) (rw_peer w) bufLen t.

(** ** Send *)

Definition count_drop (s : NvPSFPeerSlot) : NvPSFPeerSlot := {|
  ps_fd := ps_fd s; ps_generation := ps_generation s; ps_inUse := ps_inUse s; ps_credValid := ps_credValid s;
  ps_cred := ps_cred s; ps_dropCount := u64 (ps_dropCount s + 1); ps_addr := ps_addr s; ps_addrValid := ps_addrValid s |}.

Definition sendErrnoToResult (e : Errno) (s : NvPSFPeerSlot) : NvPSFTransportErr * NvPSFPeerSlot :=
  match e with
  | EAGAIN | EWOULDBLOCK | ENOBUFS => (NVPSF_TRANSPORT_WOULD_BLOCK, count_drop s)
  | EINTR => (NVPSF_TRANSPORT_WOULD_BLOCK, s)
  | EPIPE | ECONNRESET | ENOTCONN | ECONNREFUSED => (NVPSF_TRANSPORT_PEER_GONE, s)
  | EMSGSIZE => (NVPSF_TRANSPORT_TRUNCATED, s)
  | _ => (NVPSF_TRANSPORT_FAIL, s)
  end.

(** What [send] or [sendto] answers: an error, or the bytes taken. *)
Inductive SendAnswer := SendFailed (e : Errno) | SendTook (n : nat).

Definition send_on (fd : Z) (dest : option sockaddr_in) (buf : list Z) (answer : SendAnswer) (i : nat) (t : NvPSFTransport)
    : NvPSFTransport * list Action * NvPSFTransportErr :=
  match answer with
  | SendFailed e =>
    match tp_peers t !! i with
    | None => (t, [], NVPSF_TRANSPORT_FAIL)
    | Some s => let '(err, s') := sendErrnoToResult e s in (set_peers (<[i := s']> (tp_peers t)) t, [], err)
    end
  | SendTook n =>
    (t, [Transmitted fd dest (take n buf)],
     if (n =? length buf)%nat then NVPSF_TRANSPORT_OK else NVPSF_TRANSPORT_TRUNCATED)
  end.

Definition NvPSFTransportSend (toPeer : Z) (buf : list Z) (answer : SendAnswer) (t : NvPSFTransport)
    : NvPSFTransport * list Action * NvPSFTransportErr :=
  if (length buf =? 0)%nat then (t, [], NVPSF_TRANSPORT_INVALID_ARG)
  else if tp_maxMessageBytes t <? Z.of_nat (length buf) then (t, [], NVPSF_TRANSPORT_TRUNCATED)
  else match slotFor toPeer t with
  | None => (t, [], NVPSF_TRANSPORT_PEER_GONE)
  | Some i =>
    match tp_peers t !! i with
    | None => (t, [], NVPSF_TRANSPORT_PEER_GONE)
    | Some s =>
      if tp_kind t =? NVPSF_TRANSPORT_UDP_SOCKET then
        if (tp_udpFd t =? NVPSF_FD_INVALID) || negb (ps_addrValid s) then (t, [], NVPSF_TRANSPORT_PEER_GONE)
        else send_on (tp_udpFd t) (Some (ps_addr s)) buf answer i t
      else if ps_fd s =? NVPSF_FD_INVALID then (t, [], NVPSF_TRANSPORT_PEER_GONE)
      else send_on (ps_fd s) None buf answer i t
    end
  end.

(** ** Peer queries *)

(** The peer, or the error. *)
Definition NvPSFTransportSolePeer (t : NvPSFTransport) : NvPSFTransportErr + Z :=
  if tp_role t =? NVPSF_ROLE_SERVER then inl NVPSF_TRANSPORT_INVALID_ARG
  else match tp_peers t !! 0%nat with
       | Some s => if ps_inUse s then inr (id_at 0 t) else inl NVPSF_TRANSPORT_PEER_GONE
       | None => inl NVPSF_TRANSPORT_PEER_GONE
       end.

Definition NvPSFTransportPeerCred (peer : Z) (t : NvPSFTransport) : NvPSFTransportErr + NvPSFPeerCred :=
  match slotFor peer t ≫= (fun i => tp_peers t !! i) with
  | None => inl NVPSF_TRANSPORT_PEER_GONE
  | Some s => if negb (ps_credValid s) then inl NVPSF_TRANSPORT_DENIED else inr (ps_cred s)
  end.

Definition NvPSFTransportDropPeer (peer : Z) (t : NvPSFTransport) : NvPSFTransport * list Action * NvPSFTransportErr :=
  match slotFor peer t with
  | None => (t, [], NVPSF_TRANSPORT_PEER_GONE)
  | Some i => (slotRelease i t, NVPSF_TRANSPORT_OK)
  end.

Definition NvPSFTransportPeerDropCount (peer : Z) (t : NvPSFTransport) : NvPSFTransportErr + Z :=
  match slotFor peer t ≫= (fun i => tp_peers t !! i) with
  | None => inl NVPSF_TRANSPORT_PEER_GONE
  | Some s => inr (ps_dropCount s)
  end.

(** ** Concurrent use *)

(** Threads call the endpoint at the same time.  Each call is one step, under the
    mutex; a [Poll] is a step before its wait and one after it, and other calls get
    in between. *)
Inductive TpOp :=
  | OpPollBegin (thread : nat) (timeoutMs : Z) (maxEvents : nat)
  | OpPollEnd (thread : nat) (answer : PollAnswer) (w : PollWorld)
  | OpRecv (bufLen : nat) (w : RecvWorld)
  | OpSend (toPeer : Z) (buf : list Z) (answer : SendAnswer)
  | OpDrop (peer : Z).

(** What the caller is told. *)
Inductive Told :=
  | TPolled (err : NvPSFTransportErr) (es : list NvPSFTransportEvent)
  | TReceived (r : Received)
  | TSent (peer : Z) (err : NvPSFTransportErr)
  | TDropped (peer : Z) (err : NvPSFTransportErr)
  | TNothing.

(** The endpoint, and the polls that wait: their [maxEvents] and their array. *)
Record Endpoint := { ep_t : NvPSFTransport; ep_polls : gmap nat (nat * list PollEntry) }.

(** [None]: the thread has no such poll, or is in one. *)
Definition ep_step (op : TpOp) (ep : Endpoint) : option (Endpoint * list Action * Told) :=
  let t := ep_t ep in
  let keep t' := {| ep_t := t'; ep_polls := ep_polls ep |} in
  match op with
  | OpPollBegin k timeoutMs maxEvents =>
    match ep_polls ep !! k with
    | Some _ => None
    | None =>
      match poll_begin timeoutMs maxEvents t with
      | inl err => Some (ep, [], TPolled err [])
      | inr snapshot => Some ({| ep_t := t; ep_polls := <[k := (maxEvents, snapshot)]> (ep_polls ep) |}, [], TNothing)
      end
    end
  | OpPollEnd k answer w =>
    match ep_polls ep !! k with
    | None => None
    | Some (maxEvents, snapshot) =>
      let '(t1, acts, es, err) := poll_end maxEvents snapshot answer w t in
      Some ({| ep_t := t1; ep_polls := delete k (ep_polls ep) |}, acts, TPolled err es)
    end
  | OpRecv bufLen w =>
    let '(t1, acts, r) := NvPSFTransportRecv bufLen w t in Some (keep t1, acts, TReceived r)
  | OpSend peer buf answer =>
    let '(t1, acts, err) := NvPSFTransportSend peer buf answer t in Some (keep t1, acts, TSent peer err)
  | OpDrop peer =>
    let '(t1, acts, err) := NvPSFTransportDropPeer peer t in Some (keep t1, acts, TDropped peer err)
  end.

(** A run, what it did and what its callers were told. *)
Fixpoint ep_run (ops : list TpOp) (ep : Endpoint) : option (Endpoint * list Action * list Told) :=
  match ops with
  | [] => Some (ep, [], [])
  | op :: rest =>
    match ep_step op ep with
    | None => None
    | Some (ep1, acts, told) =>
      match ep_run rest ep1 with
      | None => None
      | Some (ep2, acts2, tolds) => Some (ep2, acts ++ acts2, told :: tolds)
      end
    end
  end.
