(* ===== verification/TransportOpen.v ===== *)
(** * Opening and closing a transport endpoint

    [NvPSFTransportOpen] with its helpers [openUnixServer], [openUnixClient] and
    [openUdp], and [NvPSFTransportClose].  [OpenWorld] holds the answers of the
    calls an opening makes, each of them made at most once but for [bind], which a
    server repeats after it removed a stale path.  A descriptor below 0 is a call
    that failed. *)

From S2P Require Import Prelude Protocol TransportConfig Transport.

Local Open Scope Z_scope.

Record OpenWorld := {
  ow_alloc : bool; (* calloc of the endpoint *)
  ow_allocPeers : bool; (* calloc of the slots *)
  ow_mutex : bool; (* pthread_mutex_init *)
  ow_nowMs : Z;
  ow_socket : Z;
  ow_bind : option Errno; (* None: it succeeded; the same for the calls below *)
  ow_probe : Z; (* the socket of the probe *)
  ow_probeConnect : option Errno;
  ow_unlink : option Errno;
  ow_rebind : option Errno;
  ow_chmod : bool;
  ow_rcvbuf : SockOpt;
  ow_sndbuf : SockOpt;
  ow_listen : bool;
  ow_connect : option Errno;
  ow_cred : option (Z * NvPSFPeerCred);
}.

Definition set_sockets (listenFd udpFd : Z) (pathBound : bool) (t : NvPSFTransport) : NvPSFTransport := {|
  tp_kind := tp_kind t; tp_role := tp_role t; tp_link := tp_link t; tp_maxPeers := tp_maxPeers t;
  tp_maxMessageBytes := tp_maxMessageBytes t; tp_minQueueDepth := tp_minQueueDepth t;
  tp_recvTimeoutMs := tp_recvTimeoutMs t; tp_sendTimeoutMs := tp_sendTimeoutMs t; tp_peers := tp_peers t;
  tp_rrCursor := tp_rrCursor t; tp_listenFd := listenFd; tp_unixPath := tp_unixPath t;
  tp_pathBound := pathBound; tp_allowedGid := tp_allowedGid t; tp_udpFd := udpFd; tp_allow := tp_allow t;
  tp_allowDenyReported := tp_allowDenyReported t; tp_acceptWindowStartMs := tp_acceptWindowStartMs t;
  tp_acceptWindowCount := tp_acceptWindowCount t; tp_acceptWindowDenyReported := tp_acceptWindowDenyReported t |}.

Definition set_path (path : Text.text) (allow : list AllowEntry) (t : NvPSFTransport) : NvPSFTransport := {|
  tp_kind := tp_kind t; tp_role := tp_role t; tp_link := tp_link t; tp_maxPeers := tp_maxPeers t;
  tp_maxMessageBytes := tp_maxMessageBytes t; tp_minQueueDepth := tp_minQueueDepth t;
  tp_recvTimeoutMs := tp_recvTimeoutMs t; tp_sendTimeoutMs := tp_sendTimeoutMs t; tp_peers := tp_peers t;
  tp_rrCursor := tp_rrCursor t; tp_listenFd := tp_listenFd t; tp_unixPath := path;
  tp_pathBound := tp_pathBound t; tp_allowedGid := tp_allowedGid t; tp_udpFd := tp_udpFd t; tp_allow := allow;
  tp_allowDenyReported := tp_allowDenyReported t; tp_acceptWindowStartMs := tp_acceptWindowStartMs t;
  tp_acceptWindowCount := tp_acceptWindowCount t; tp_acceptWindowDenyReported := tp_acceptWindowDenyReported t |}.

(** ** AF_UNIX server *)

(** Whether the path could be bound, and what was done to get there: a path in use
    is removed only when a connection to it is refused. *)
Definition bind_path (path : Text.text) (w : OpenWorld) : list Action * bool :=
  match ow_bind w with
  | None => ([Bound path], true)
  | Some e =>
    if negb (bool_decide (e = EADDRINUSE)) then ([], false)
    else
      let probed := if 0 <=? ow_probe w then [FdOpened (ow_probe w); FdClosed (ow_probe w)] else [] in
      let live := (0 <=? ow_probe w) && bool_decide (ow_probeConnect w = None) in
      let stale := (0 <=? ow_probe w) && bool_decide (ow_probeConnect w = Some ECONNREFUSED) in
      if live then (probed, false)
      else if negb stale then (probed, false)
      else match ow_unlink w with
           | Some e =>
             if negb (bool_decide (e = ENOENT)) then (probed, false)
             else match ow_rebind w with
                  | Some _ => (probed, false)
                  | None => (probed ++ [Bound path], true)
                  end
           | None =>
             match ow_rebind w with
             | Some _ => (probed ++ [Unlinked path], false)
             | None => (probed ++ [Unlinked path; Bound path], true)
             end
           end
  end.

Definition openUnixServer (cfg : NvPSFTransportCfg) (w : OpenWorld) (t : NvPSFTransport)
    : NvPSFTransport * list Action * NvPSFTransportErr :=
  let fd := ow_socket w in
  if fd <? 0 then (t, [], NVPSF_TRANSPORT_FAIL)
  else
    let '(acts, bound) := bind_path (tp_unixPath t) w in
    if negb bound then (t, FdOpened fd :: acts ++ [FdClosed fd], NVPSF_TRANSPORT_FAIL)
    else
      let t1 := set_sockets (tp_listenFd t) (tp_udpFd t) true t in
      if negb (ow_chmod w) then (t1, FdOpened fd :: acts ++ [FdClosed fd], NVPSF_TRANSPORT_FAIL)
      else if negb (provisionBuffers cfg (ow_rcvbuf w) (ow_sndbuf w))
           then (t1, FdOpened fd :: acts ++ [FdClosed fd], NVPSF_TRANSPORT_FAIL)
      else if negb (ow_listen w) then (t1, FdOpened fd :: acts ++ [FdClosed fd], NVPSF_TRANSPORT_FAIL)
      else (set_sockets fd (tp_udpFd t1) true t1, FdOpened fd :: acts, NVPSF_TRANSPORT_OK).

(** ** AF_UNIX client *)

Definition connect_result (e : Errno) : NvPSFTransportErr :=
  match e with
  | EAGAIN | EWOULDBLOCK => NVPSF_TRANSPORT_WOULD_BLOCK
  | EPROTOTYPE => NVPSF_TRANSPORT_FAIL
  | ENOENT | ECONNREFUSED => NVPSF_TRANSPORT_PEER_GONE
  | _ => NVPSF_TRANSPORT_FAIL
  end.

Definition openUnixClient (cfg : NvPSFTransportCfg) (w : OpenWorld) (t : NvPSFTransport)
    : NvPSFTransport * list Action * NvPSFTransportErr :=
  let fd := ow_socket w in
  if fd <? 0 then (t, [], NVPSF_TRANSPORT_FAIL)
  else if negb (provisionBuffers cfg (ow_rcvbuf w) (ow_sndbuf w))
       then (t, [FdOpened fd; FdClosed fd], NVPSF_TRANSPORT_FAIL)
  else match ow_connect w with
  | Some e => (t, [FdOpened fd; FdClosed fd], connect_result e)
  | None =>
    match checkPeerCred (ow_cred w) (tp_allowedGid t) with
    | None => (t, [FdOpened fd; FdClosed fd], NVPSF_TRANSPORT_DENIED)
    | Some cred =>
      match slotAcquire (with_connection fd cred) t with
      | None => (t, [FdOpened fd; FdClosed fd], NVPSF_TRANSPORT_FAIL)
      | Some (i, t1) => (t1, [FdOpened fd; SlotTaken i], NVPSF_TRANSPORT_OK)
      end
    end
  end.

(** ** UDP *)

Definition htons (x : Z) : Z := Z.lor (Z.shiftl (Z.land x 255) 8) (Z.land (Z.shiftr x 8) 255).

(** After the socket has its buffers: a server binds, a client connects and has its
    one peer. *)
Definition attach_udp (fd : Z) (addr : sockaddr_in) (w : OpenWorld) (t : NvPSFTransport)
    : NvPSFTransport * list Action * NvPSFTransportErr :=
  if tp_role t =? NVPSF_ROLE_SERVER then
    match ow_bind w with
    | Some _ => (t, [FdOpened fd; FdClosed fd], NVPSF_TRANSPORT_FAIL)
    | None => (set_sockets (tp_listenFd t) fd (tp_pathBound t) t, [FdOpened fd], NVPSF_TRANSPORT_OK)
    end
  else match ow_connect w with
  | Some _ => (t, [FdOpened fd; FdClosed fd], NVPSF_TRANSPORT_FAIL)
  | None =>
    match slotAcquire (with_address addr) t with
    | None => (t, [FdOpened fd; FdClosed fd], NVPSF_TRANSPORT_FAIL)
    | Some (i, t1) =>
      (set_sockets (tp_listenFd t1) fd (tp_pathBound t1) t1, [FdOpened fd; SlotTaken i], NVPSF_TRANSPORT_OK)
    end
  end.

(** The allow-list of a server; [None] when it cannot be parsed. *)
Definition udp_allow (cfg : NvPSFTransportCfg) (t : NvPSFTransport) : option (list AllowEntry) :=
  if tp_role t =? NVPSF_ROLE_SERVER then cfg_inetAllowList cfg ≫= allowListParse else Some (tp_allow t).

Definition openUdp (cfg : NvPSFTransportCfg) (w : OpenWorld) (t : NvPSFTransport)
    : NvPSFTransport * list Action * NvPSFTransportErr :=
  match udp_allow cfg t with
  | None => (t, [], NVPSF_TRANSPORT_INVALID_ARG)
  | Some allow =>
    let t1 := set_path (tp_unixPath t) allow t in
    match cfg_inetAddr cfg with
    | None => (t1, [], NVPSF_TRANSPORT_INVALID_ARG)
    | Some inetAddr =>
      if cfg_inetPort cfg =? 0 then (t1, [], NVPSF_TRANSPORT_INVALID_ARG)
      else match inet_pton inetAddr with
      | None => (t1, [], NVPSF_TRANSPORT_INVALID_ARG)
      | Some s_addr =>
        let fd := ow_socket w in
        if fd <? 0 then (t1, [], NVPSF_TRANSPORT_FAIL)
        else if negb (provisionBuffers cfg (ow_rcvbuf w) (ow_sndbuf w))
             then (t1, [FdOpened fd; FdClosed fd], NVPSF_TRANSPORT_FAIL)
        else attach_udp fd {| sin_addr := s_addr; sin_port := htons (cfg_inetPort cfg) |} w t1
      end
    end
  end.

(** ** Close *)

Definition NvPSFTransportClose (t : NvPSFTransport) : list Action :=
  concat (map (fun s => close_fd (ps_fd s)) (tp_peers t)) ++
  close_fd (tp_listenFd t) ++ close_fd (tp_udpFd t) ++ (if tp_pathBound t then [Unlinked (tp_unixPath t)] else []).

(** ** Open *)

Definition empty_slot : NvPSFPeerSlot := {|
  ps_fd := NVPSF_FD_INVALID; ps_generation := 0; ps_inUse := false; ps_credValid := false; ps_cred := zero_cred;
  ps_dropCount := 0; ps_addr := zero_addr; ps_addrValid := false |}.

Definition open_maxPeers (cfg : NvPSFTransportCfg) : Z :=
  if cfg_role cfg =? NVPSF_ROLE_CLIENT then 1 else cfg_maxPeers cfg.

Definition fresh_endpoint (cfg : NvPSFTransportCfg) (nowMs : Z) : NvPSFTransport := {|
  tp_kind := cfg_kind cfg; tp_role := cfg_role cfg; tp_link := cfg_link cfg; tp_maxPeers := open_maxPeers cfg;
  tp_maxMessageBytes := cfg_maxMessageBytes cfg; tp_minQueueDepth := cfg_minQueueDepth cfg;
  tp_recvTimeoutMs := cfg_recvTimeoutMs cfg; tp_sendTimeoutMs := cfg_sendTimeoutMs cfg;
  tp_peers := replicate (Z.to_nat (open_maxPeers cfg)) empty_slot; tp_rrCursor := 0; tp_listenFd := NVPSF_FD_INVALID;
  tp_unixPath := []; tp_pathBound := false; tp_allowedGid := cfg_allowedGid cfg; tp_udpFd := NVPSF_FD_INVALID;
  tp_allow := []; tp_allowDenyReported := false; tp_acceptWindowStartMs := nowMs; tp_acceptWindowCount := 0;
  tp_acceptWindowDenyReported := false |}.

Definition open_kind (cfg : NvPSFTransportCfg) (w : OpenWorld) (t : NvPSFTransport)
    : NvPSFTransport * list Action * NvPSFTransportErr :=
  if cfg_kind cfg =? NVPSF_TRANSPORT_UNIX_SOCKET then
    match copyBounded UNIX_PATH_MAX (cfg_unixPath cfg) with
    | None => (t, [], NVPSF_TRANSPORT_INVALID_ARG)
    | Some path =>
      let t1 := set_path path (tp_allow t) t in
      if cfg_role cfg =? NVPSF_ROLE_SERVER then openUnixServer cfg w t1 else openUnixClient cfg w t1
    end
  else if cfg_kind cfg =? NVPSF_TRANSPORT_UDP_SOCKET then openUdp cfg w t
  else (t, [], NVPSF_TRANSPORT_INVALID_ARG).

(** The endpoint, when the result is OK. *)
Definition NvPSFTransportOpen (cfg : option NvPSFTransportCfg) (w : OpenWorld)
    : NvPSFTransportErr * option NvPSFTransport * list Action :=
  match validateCfg cfg, cfg with
  | NVPSF_TRANSPORT_OK, Some cfg =>
    if negb (ow_alloc w) || negb (ow_allocPeers w) || negb (ow_mutex w) then (NVPSF_TRANSPORT_FAIL, None, [])
    else
      let '(t, acts, err) := open_kind cfg w (fresh_endpoint cfg (ow_nowMs w)) in
      if decide (err = NVPSF_TRANSPORT_OK) then (NVPSF_TRANSPORT_OK, Some t, acts)
      else (err, None, acts ++ NvPSFTransportClose t)
  | err, _ => (err, None, [])
  end.
