(* ===== verification/TransportSteps.v ===== *)
(** * The small steps of a transport endpoint

    Every call on an endpoint is a sequence of a few changes of its state: the rate
    window moves on, a slot is taken by a connection or a source, a slot is
    released, a drop is counted, the receive cursor moves.  [prim] lists them with
    what they do to the kernel; [ep_step_prims] shows that the calls consist of
    them.  The invariants of an endpoint are proved once per small step. *)

From S2P Require Import Prelude Protocol TransportConfig Transport.

Local Open Scope Z_scope.

(** ** What never changes after opening *)

Definition config (t : NvPSFTransport) :=
  (tp_kind t, tp_role t, tp_maxPeers t, tp_maxMessageBytes t, tp_allowedGid t, tp_allow t,
   (tp_listenFd t, tp_udpFd t, tp_unixPath t, tp_pathBound t)).

Lemma config_eq t t' : config t' = config t ->
  tp_kind t' = tp_kind t /\ tp_role t' = tp_role t /\ tp_maxPeers t' = tp_maxPeers t /\
  tp_maxMessageBytes t' = tp_maxMessageBytes t /\ tp_allowedGid t' = tp_allowedGid t /\ tp_allow t' = tp_allow t /\
  tp_listenFd t' = tp_listenFd t /\ tp_udpFd t' = tp_udpFd t /\ tp_unixPath t' = tp_unixPath t /\
  tp_pathBound t' = tp_pathBound t.
Proof. unfold config. intros [=]. auto 12. Qed.

(** ** Small steps *)

Definition is_diag (a : Action) : Prop := match a with RateDenied | SourceDenied => True | _ => False end.

(** The window after a request for admission, and after the diagnostic of a denial. *)
Definition rate_step (nowMs : Z) (report : bool) (t : NvPSFTransport) : NvPSFTransport :=
  let t1 := snd (admissionRateAllows nowMs t) in if report then fst (report_denial t1) else t1.

Inductive prim : NvPSFTransport -> list Action -> NvPSFTransport -> Prop :=
| prim_refuse fd nowMs report diag t :
    0 <= fd -> Forall is_diag diag ->
    prim t (FdOpened fd :: ClockRead nowMs :: diag ++ [FdClosed fd]) (rate_step nowMs report t)
| prim_rate nowMs report diag t :
    Forall is_diag diag -> prim t (ClockRead nowMs :: diag) (rate_step nowMs report t)
| prim_source diag t : Forall is_diag diag -> prim t diag (fst (report_source t))
| prim_connect fd nowMs cred i t t1 t2 :
    0 <= fd -> tp_kind t = NVPSF_TRANSPORT_UNIX_SOCKET -> pc_gid cred = tp_allowedGid t ->
    admissionRateAllows nowMs t = (true, t1) -> slotAcquire (with_connection fd cred) t1 = Some (i, t2) ->
    prim t [FdOpened fd; ClockRead nowMs; SlotTaken i] t2
| prim_admit nowMs src i t t1 t2 :
    tp_kind t = NVPSF_TRANSPORT_UDP_SOCKET -> tp_role t <> NVPSF_ROLE_CLIENT ->
    allowListPermits (tp_allow t) (sin_addr src) = true -> slotFindByAddr src t = None ->
    admissionRateAllows nowMs t = (true, t1) -> slotAcquire (with_address src) t1 = Some (i, t2) ->
    prim t [ClockRead nowMs; SlotTaken i] t2
| prim_release i s t :
    tp_peers t !! i = Some s -> ps_inUse s = true -> prim t (close_fd (ps_fd s)) (fst (slotRelease i t))
| prim_drop i s t :
    tp_peers t !! i = Some s -> ps_inUse s = true -> prim t [] (set_peers (<[i := count_drop s]> (tp_peers t)) t)
| prim_cursor cursor t : 0 <= cursor < tp_maxPeers t -> prim t [] (set_rrCursor cursor t)
| prim_sent fd dest buf t : prim t [Transmitted fd dest buf] t.

Inductive prims : NvPSFTransport -> list Action -> NvPSFTransport -> Prop :=
| prims_nil t : prims t [] t
| prims_cons t acts1 t1 acts2 t2 : prim t acts1 t1 -> prims t1 acts2 t2 -> prims t (acts1 ++ acts2) t2.

Lemma prims_one t acts t' : prim t acts t' -> prims t acts t'.
Proof. intros H. rewrite <- (app_nil_r acts). eapply prims_cons; [done|constructor]. Qed.

Lemma prims_app t acts1 t1 acts2 t2 : prims t acts1 t1 -> prims t1 acts2 t2 -> prims t (acts1 ++ acts2) t2.
Proof.
  induction 1 as [|t a t1' b t1 Hp _ IH]; intros H2; [done|]. rewrite <- app_assoc. eapply prims_cons; [done|auto].
Qed.

#[export] Hint Resolve prims_nil prims_one : safety_core.

(** An invariant of the small steps is one of a sequence of them. *)
Lemma prims_inv (P : NvPSFTransport -> Prop) t acts t' :
  (forall t a t', P t -> prim t a t' -> P t') -> prims t acts t' -> P t -> P t'.
Proof. intros Hp. induction 1; eauto. Qed.

(** ** Window, slots *)

Lemma roll_window_peers nowMs t :
  tp_peers (roll_window nowMs t) = tp_peers t /\ config (roll_window nowMs t) = config t /\
  tp_rrCursor (roll_window nowMs t) = tp_rrCursor t.
Proof. unfold roll_window. by case_match. Qed.

Lemma admission_peers nowMs t b t1 : admissionRateAllows nowMs t = (b, t1) ->
  tp_peers t1 = tp_peers t /\ config t1 = config t /\ tp_rrCursor t1 = tp_rrCursor t.
Proof.
  unfold admissionRateAllows. pose proof (roll_window_peers nowMs t) as H. intros E. case_match; simplify_eq; [done|].
  cbn. destruct H as (? & ? & ?). by split_and!.
Qed.

Lemma report_denial_peers t :
  tp_peers (fst (report_denial t)) = tp_peers t /\ config (fst (report_denial t)) = config t /\
  tp_rrCursor (fst (report_denial t)) = tp_rrCursor t.
Proof. unfold report_denial, admissionDenyFirstInWindow. by case_match; case_match; simplify_eq/=. Qed.

Lemma rate_step_peers nowMs report t :
  tp_peers (rate_step nowMs report t) = tp_peers t /\ config (rate_step nowMs report t) = config t /\
  tp_rrCursor (rate_step nowMs report t) = tp_rrCursor t.
Proof.
  unfold rate_step. destruct (admissionRateAllows nowMs t) as [b t1] eqn:E. apply admission_peers in E as (? & ? & ?).
  destruct report; [|done]. cbn [snd]. destruct (report_denial_peers t1) as (? & ? & ?). split_and!; congruence.
Qed.

Lemma report_source_peers t :
  tp_peers (fst (report_source t)) = tp_peers t /\ config (fst (report_source t)) = config t /\
  tp_rrCursor (fst (report_source t)) = tp_rrCursor t.
Proof. unfold report_source. by case_match. Qed.

Lemma first_free_Some peers i : first_free peers = Some i -> exists s, peers !! i = Some s /\ ps_inUse s = false.
Proof.
  revert i. induction peers as [|s peers IH]; intros i; cbn; [done|]. destruct (ps_inUse s) eqn:E.
  - destruct (first_free peers) as [j|]; [|done]. intros [= <-]. by apply IH.
  - intros [= <-]. eauto.
Qed.

Lemma first_free_None peers : first_free peers = None <-> Forall (fun s => ps_inUse s = true) peers.
Proof.
  induction peers as [|s peers IH]; cbn; [done|]. rewrite Forall_cons. destruct (ps_inUse s); [|naive_solver].
  rewrite fmap_None. naive_solver.
Qed.

Lemma slotAcquire_Some fill t i t' : slotAcquire fill t = Some (i, t') ->
  exists s, tp_peers t !! i = Some s /\ ps_inUse s = false /\ t' = set_peers (<[i := fill (taken s)]> (tp_peers t)) t.
Proof.
  unfold slotAcquire. destruct (first_free (tp_peers t)) as [j|] eqn:E; [|done].
  apply first_free_Some in E as (s & Hs & Hf). rewrite Hs. intros [= <- <-]. eauto.
Qed.

(** ** The calls consist of small steps *)

Lemma acceptOne_prims answer t t' acts o :
  tp_kind t = NVPSF_TRANSPORT_UNIX_SOCKET -> acceptOne answer t = (t', acts, o) -> prims t acts t'.
Proof.
  intros Hk. unfold acceptOne. destruct (Z.ltb_spec (aa_fd answer) 0); [intros; simplify_eq; auto with safety_core|].
  destruct (admissionRateAllows (aa_nowMs answer) t) as [allowed t1] eqn:Ea.
  pose proof (admission_peers _ _ _ _ Ea) as (_ & Hc & _).
  apply config_eq in Hc as (_ & _ & _ & _ & Hg & _).
  assert (Hr : forall report, rate_step (aa_nowMs answer) report t = if report then fst (report_denial t1) else t1)
    by (intros; unfold rate_step; by rewrite Ea).
  destruct allowed; cbn [negb].
  - assert (prims t [FdOpened (aa_fd answer); ClockRead (aa_nowMs answer); FdClosed (aa_fd answer)] t1) as Hno.
    { rewrite <- (Hr false). apply prims_one. by apply (prim_refuse _ _ false []). }
    destruct (checkPeerCred (aa_cred answer) (tp_allowedGid t1)) as [cred|] eqn:Ec; [|intros; by simplify_eq].
    destruct (slotAcquire (with_connection (aa_fd answer) cred) t1) as [[i t2]|] eqn:Es; intros; simplify_eq; [|done].
    apply prims_one. eapply prim_connect; eauto. rewrite <- Hg.
    unfold checkPeerCred in Ec. cases. done.
  - destruct (report_denial t1) as [t2 report] eqn:Ed. intros; simplify_eq.
    replace t' with (rate_step (aa_nowMs answer) true t) by (by rewrite Hr).
    apply prims_one, prim_refuse; [done|]. unfold report_denial in Ed.
    destruct (admissionDenyFirstInWindow t1) as [[|] t3]; simplify_eq; by repeat constructor.
Qed.

Lemma prims_config t acts t' : prims t acts t' -> config t' = config t.
Proof.
  intros H. eapply (prims_inv (fun u => config u = config t)); [|done|done]. clear. intros u a u' <- Hp.
  destruct Hp as [fd nowMs report diag u Hfd _|nowMs report diag u _|diag u _|fd nowMs cred i u t1 t2 _ _ _ Ha Hs
    |nowMs src i u t1 t2 _ _ _ _ Ha Hs|i s u Hs _|i s u Hs _|cursor u _|fd dest buf u]; try done.
  - apply rate_step_peers.
  - apply rate_step_peers.
  - apply report_source_peers.
  - apply admission_peers in Ha as (_ & <- & _). apply slotAcquire_Some in Hs as (s & _ & _ & ->). done.
  - apply admission_peers in Ha as (_ & <- & _). apply slotAcquire_Some in Hs as (s & _ & _ & ->). done.
  - unfold slotRelease. by rewrite Hs.
Qed.

Lemma prims_kind t acts t' k : prims t acts t' -> tp_kind t = k -> tp_kind t' = k.
Proof. intros H <-. apply prims_config, config_eq in H. apply H. Qed.

Lemma accept_loop_prims room answers t t' acts es :
  tp_kind t = NVPSF_TRANSPORT_UNIX_SOCKET -> accept_loop room answers t = (t', acts, es) -> prims t acts t'.
Proof.
  revert room t t' acts es. induction answers as [|answer rest IH]; intros [|room] t t' acts es Hk; cbn;
    try (intros; simplify_eq; by constructor).
  destruct (acceptOne answer t) as [[t1 acts1] o] eqn:E. apply acceptOne_prims in E; [|done].
  destruct o as [e|]; [|intros; by simplify_eq].
  destruct (accept_loop room rest t1) as [[t2 acts2] es2] eqn:E2. intros; simplify_eq.
  eapply prims_app; [done|]. eapply IH; [|done]. by eapply prims_kind.
Qed.

(** A listener is polled only on an AF_UNIX endpoint, a shared socket on a UDP one. *)
Definition entry_ok (t : NvPSFTransport) (e : PollEntry) : Prop :=
  match e with
  | PollListen _ => tp_kind t = NVPSF_TRANSPORT_UNIX_SOCKET
  | PollShared _ => tp_kind t = NVPSF_TRANSPORT_UDP_SOCKET
  | PollPeer _ _ _ => True
  end.

Lemma entry_ok_prims t acts t' e : prims t acts t' -> entry_ok t e -> entry_ok t' e.
Proof. intros H. destruct e; cbn; try done; by apply prims_kind with acts. Qed.

Lemma poll_entry_prims room e revents w t t' acts es failed : entry_ok t e ->
  poll_entry room e revents w t = (t', acts, es, failed) -> prims t acts t'.
Proof.
  unfold poll_entry. intros He. case_match; [intros; simplify_eq; constructor|]. destruct e as [fd|fd|fd slot g].
  - destruct (accept_loop _ _ _) as [[t1 acts1] es1] eqn:E. intros; simplify_eq. by eapply accept_loop_prims.
  - case_match. intros; simplify_eq. constructor.
  - unfold poll_peer. destruct (tp_peers t !! slot) as [s|] eqn:Es; [|intros; simplify_eq; constructor].
    destruct (same_peer fd g s) eqn:Eg; cbn [negb]; [|intros; simplify_eq; constructor].
    case_match; [|case_match; intros; simplify_eq; constructor].
    case_match; [intros; simplify_eq; constructor|].
    destruct (slotRelease slot t) as [t1 acts1] eqn:Er. intros; simplify_eq.
    replace t' with (fst (slotRelease slot t)) by (by rewrite Er).
    unfold slotRelease in Er. rewrite Es in Er. simplify_eq. apply prims_one. eapply prim_release; [done|].
    unfold same_peer in Eg. by bool_prop.
Qed.

Lemma poll_scan_prims room entries w t t' acts es failed : Forall (fun e => entry_ok t (fst e)) entries ->
  poll_scan room entries w t = (t', acts, es, failed) -> prims t acts t'.
Proof.
  revert room t t' acts es failed. induction entries as [|[e revents] rest IH]; intros room t t' acts es failed Hf; cbn.
  { destruct room; intros; simplify_eq; constructor. }
  destruct room as [|room]; [intros; simplify_eq; constructor|].
  apply Forall_cons in Hf as [He Hr].
  destruct (poll_entry _ _ _ _ _) as [[[t1 acts1] es1] failed1] eqn:E1. apply poll_entry_prims in E1; [|done].
  destruct (poll_scan _ _ _ _) as [[[t2 acts2] es2] failed2] eqn:E2. intros [= <- <- <- <-].
  eapply prims_app; [done|]. eapply IH; [|done]. eapply Forall_impl; [done|]. intros x. by apply (entry_ok_prims _ _ _ _ E1).
Qed.

Lemma slotFor_Some id t i : slotFor id t = Some i ->
  exists s, tp_peers t !! i = Some s /\ ps_inUse s = true /\ ps_generation s = peerIdGeneration id /\
    i = Z.to_nat (peerIdSlot id) /\ id <> NVPSF_PEER_INVALID /\ peerIdSlot id < tp_maxPeers t.
Proof.
  unfold slotFor. case_match; [done|]. case_match; [done|].
  destruct (tp_peers t !! Z.to_nat (peerIdSlot id)) as [s|] eqn:E; [|done]. case_match; [done|]. case_match; [done|].
  intros [= <-]. bool_prop. by exists s.
Qed.

Lemma slotRelease_prims i s t t' acts : tp_peers t !! i = Some s -> ps_inUse s = true ->
  slotRelease i t = (t', acts) -> prims t acts t'.
Proof.
  intros Hs Hu Er. replace t' with (fst (slotRelease i t)) by (by rewrite Er).
  unfold slotRelease in Er. rewrite Hs in Er. simplify_eq. apply prims_one. by eapply prim_release.
Qed.

Lemma send_on_prims fd dest buf answer i s t t' acts err : tp_peers t !! i = Some s -> ps_inUse s = true ->
  send_on fd dest buf answer i t = (t', acts, err) -> prims t acts t'.
Proof.
  intros Hs Hu. unfold send_on. destruct answer as [e|n]; [|intros; simplify_eq; apply prims_one, prim_sent].
  rewrite Hs. destruct (sendErrnoToResult e s) as [err' s'] eqn:E. intros; simplify_eq.
  assert (Hsame : prims t [] (set_peers (<[i := s]> (tp_peers t)) t)).
  { rewrite list_insert_id by done. replace (set_peers (tp_peers t) t) with t by by destruct t. constructor. }
  assert (Hdrop : prims t [] (set_peers (<[i := count_drop s]> (tp_peers t)) t)) by by eapply prims_one, prim_drop.
  by destruct e; simplify_eq/=.
Qed.

Lemma NvPSFTransportSend_prims peer buf answer t t' acts err :
  NvPSFTransportSend peer buf answer t = (t', acts, err) -> prims t acts t'.
Proof.
  unfold NvPSFTransportSend. case_match; [intros; simplify_eq; constructor|].
  case_match; [intros; simplify_eq; constructor|].
  destruct (slotFor peer t) as [i|] eqn:Ef; [|intros; simplify_eq; constructor].
  apply slotFor_Some in Ef as (s & Hs & Hu & _). rewrite Hs.
  repeat (case_match; [first [by intros; simplify_eq; constructor | by eapply send_on_prims | idtac]|]);
    by eapply send_on_prims.
Qed.

Lemma NvPSFTransportDropPeer_prims peer t t' acts err :
  NvPSFTransportDropPeer peer t = (t', acts, err) -> prims t acts t'.
Proof.
  unfold NvPSFTransportDropPeer. destruct (slotFor peer t) as [i|] eqn:Ef; [|intros; simplify_eq; constructor].
  apply slotFor_Some in Ef as (s & Hs & Hu & _). intros [= Er <-]. by eapply slotRelease_prims.
Qed.

Lemma recv_loop_prims slots rx bufLen t t' acts r : Forall (fun i => Z.of_nat i < tp_maxPeers t) slots ->
  recv_loop slots rx bufLen t = (t', acts, r) -> prims t acts t'.
Proof.
  revert t' acts r. induction slots as [|slot rest IH]; intros t' acts r Hf; cbn.
  { intros; simplify_eq; constructor. }
  apply Forall_cons in Hf as [Hslot Hrest].
  destruct (tp_peers t !! slot) as [s|] eqn:Es; [|by apply IH].
  destruct (negb (ps_inUse s) || (ps_fd s =? NVPSF_FD_INVALID)) eqn:Eu; [by apply IH|]. bool_prop.
  destruct (recvOnFd (rx slot) bufLen true) as [err got]. case_decide; [by apply IH|].
  assert (Hc : prims t [] (set_rrCursor (Z.of_nat slot) t)) by (apply prims_one, prim_cursor; lia).
  case_decide.
  - destruct (slotRelease slot (set_rrCursor (Z.of_nat slot) t)) as [t2 acts2] eqn:Er. intros; simplify_eq.
    apply (prims_app _ [] _ _ _ Hc). by eapply slotRelease_prims.
  - intros; simplify_eq. done.
Qed.

Lemma recv_order_lt t : 0 < tp_maxPeers t -> Forall (fun i => Z.of_nat i < tp_maxPeers t) (recv_order t).
Proof.
  intros Hm. unfold recv_order. rewrite Forall_map, Forall_forall. cbn. intros e _.
  pose proof (Z.mod_pos_bound (tp_rrCursor t + 1 + Z.of_nat e) (tp_maxPeers t) Hm). lia.
Qed.

Lemma recvFromUdp_prims answer nowMs bufLen t t' acts r : tp_kind t = NVPSF_TRANSPORT_UDP_SOCKET ->
  recvFromUdp answer nowMs bufLen t = (t', acts, r) -> prims t acts t'.
Proof.
  intros Hk. unfold recvFromUdp. destruct (recvOnFd answer bufLen false) as [err [[bytes src]|]];
    [|intros; simplify_eq; constructor].
  destruct (slotFindByAddr src t) as [i|] eqn:Ei; [intros; simplify_eq; constructor|].
  destruct (admit_source nowMs src t) as [[t1 acts1] o] eqn:Ea. intros Hr.
  assert (t' = t1 /\ acts = acts1) as [-> ->] by (by destruct o; simplify_eq). clear Hr.
  unfold admit_source in Ea. destruct (Z.eqb_spec (tp_role t) NVPSF_ROLE_CLIENT); [simplify_eq; constructor|].
  destruct (allowListPermits (tp_allow t) (sin_addr src)) eqn:Ep; cbn [negb] in Ea.
  - destruct (admissionRateAllows nowMs t) as [allowed t2] eqn:Er.
    assert (Hr : forall report, rate_step nowMs report t = if report then fst (report_denial t2) else t2)
      by (intros; unfold rate_step; by rewrite Er).
    destruct allowed; cbn [negb] in Ea.
    + destruct (slotAcquire (with_address src) t2) as [[i t3]|] eqn:Es; simplify_eq.
      * apply prims_one. by eapply prim_admit.
      * rewrite <- (Hr false). apply prims_one. by apply (prim_rate _ false []).
    + destruct (report_denial t2) as [t3 report] eqn:Ed. simplify_eq.
      replace t1 with (rate_step nowMs true t) by (by rewrite Hr). apply prims_one, prim_rate.
      unfold report_denial in Ed. destruct (admissionDenyFirstInWindow t2) as [[|] t4]; simplify_eq; by repeat constructor.
  - destruct (report_source t) as [t2 acts2] eqn:Er. simplify_eq. replace t1 with (fst (report_source t)) by (by rewrite Er).
    apply prims_one, prim_source. unfold report_source in Er. case_match; simplify_eq; by repeat constructor.
Qed.

Lemma NvPSFTransportRecv_prims bufLen w t t' acts r : 0 < tp_maxPeers t ->
  NvPSFTransportRecv bufLen w t = (t', acts, r) -> prims t acts t'.
Proof.
  intros Hm. unfold NvPSFTransportRecv. case_match; [intros; simplify_eq; constructor|].
  destruct (Z.eqb_spec (tp_kind t) NVPSF_TRANSPORT_UDP_SOCKET); [by apply recvFromUdp_prims|].
  apply recv_loop_prims. by apply recv_order_lt.
Qed.

(** ** Well-formed endpoints *)

(** A slot that is free holds nothing.  A peer of an AF_UNIX endpoint has a
    descriptor and a checked credential of the allowed group; a peer of a UDP
    server has an address on the allow-list. *)
Definition slot_ok (t : NvPSFTransport) (s : NvPSFPeerSlot) : Prop :=
  0 <= ps_generation s <= 65535 /\
  if ps_inUse s then
    1 <= ps_generation s /\
    if decide (tp_kind t = NVPSF_TRANSPORT_UNIX_SOCKET)
    then 0 <= ps_fd s /\ ps_credValid s = true /\ pc_gid (ps_cred s) = tp_allowedGid t
    else ps_fd s = NVPSF_FD_INVALID /\ ps_credValid s = false /\ ps_addrValid s = true /\
         (tp_role t <> NVPSF_ROLE_CLIENT -> allowListPermits (tp_allow t) (sin_addr (ps_addr s)) = true)
  else ps_fd s = NVPSF_FD_INVALID /\ ps_credValid s = false /\ ps_addrValid s = false.

Record tp_wf (t : NvPSFTransport) : Prop := {
  wf_max : 1 <= tp_maxPeers t <= 64;
  wf_length : Z.of_nat (length (tp_peers t)) = tp_maxPeers t;
  wf_kind : tp_kind t = NVPSF_TRANSPORT_UNIX_SOCKET \/ tp_kind t = NVPSF_TRANSPORT_UDP_SOCKET;
  wf_listen : tp_listenFd t <> NVPSF_FD_INVALID -> tp_kind t = NVPSF_TRANSPORT_UNIX_SOCKET;
  wf_udp : tp_udpFd t <> NVPSF_FD_INVALID -> tp_kind t = NVPSF_TRANSPORT_UDP_SOCKET;
  wf_cursor : 0 <= tp_rrCursor t < tp_maxPeers t;
  wf_count : 0 <= tp_acceptWindowCount t <= accept_budget t;
  wf_slots : forall i s, tp_peers t !! i = Some s -> slot_ok t s;
  (* one slot per source *)
  wf_addr : tp_kind t = NVPSF_TRANSPORT_UDP_SOCKET ->
    forall i j s u, tp_peers t !! i = Some s -> tp_peers t !! j = Some u ->
      ps_inUse s = true -> ps_inUse u = true -> ps_addr s = ps_addr u -> i = j;
}.

Lemma slot_ok_config t t' s : config t' = config t -> slot_ok t s -> slot_ok t' s.
Proof.
  intros Hc. apply config_eq in Hc as (Hk & Hr & _ & _ & Hg & Ha & _). unfold slot_ok. rewrite Hk, Hr, Hg, Ha. done.
Qed.

Lemma budget_range t : 1 <= tp_maxPeers t <= 64 -> accept_budget t = 4 * tp_maxPeers t.
Proof.
  intros H. unfold accept_budget, NVPSF_ACCEPT_PER_WINDOW_PER_PEER. rewrite u32_small; [lia|]. unfold is_u32. lia.
Qed.

(** 0 is skipped, and the generation stays in its sixteen bits. *)
Lemma next_generation_eq g : 0 <= g <= 65535 -> next_generation g = if g =? 65535 then 1 else g + 1.
Proof.
  intros Hg. unfold next_generation, NVPSF_ID_FIELD_MASK, NVPSF_GEN_FIRST.
  rewrite u32_small by (unfold is_u32; lia). change 65535 with (Z.ones 16). rewrite Z.land_ones by lia.
  change (Z.ones 16) with 65535. destruct (Z.eqb_spec g 65535) as [->|]; [done|].
  rewrite Z.mod_small by lia. destruct (Z.eqb_spec (g + 1) 0); lia.
Qed.

Lemma next_generation_range g : 0 <= g <= 65535 -> 1 <= next_generation g <= 65535.
Proof. intros Hg. rewrite next_generation_eq by done. case_match; bool_prop; lia. Qed.

(** The window counts at most its budget. *)
Lemma roll_window_count nowMs t : tp_wf t ->
  0 <= tp_acceptWindowCount (roll_window nowMs t) <= accept_budget t.
Proof.
  intros I. pose proof (wf_count _ I). pose proof (wf_max _ I). unfold roll_window. case_match; cbn; [|lia].
  rewrite budget_range by done. lia.
Qed.

Lemma admission_count nowMs t b t1 : tp_wf t -> admissionRateAllows nowMs t = (b, t1) ->
  0 <= tp_acceptWindowCount t1 <= accept_budget t1.
Proof.
  intros I. pose proof (roll_window_count nowMs t I) as Hc. pose proof (wf_max _ I) as Hm.
  unfold admissionRateAllows. destruct (roll_window_peers nowMs t) as (_ & Hcfg & _).
  assert (accept_budget (roll_window nowMs t) = accept_budget t) as Hb.
  { apply config_eq in Hcfg as (_ & _ & Hx & _). unfold accept_budget. by rewrite Hx. }
  rewrite Hb. rewrite (budget_range t) in * by done. case_match; bool_prop; intros; simplify_eq; rewrite ?Hb; [lia|].
  cbn. change (accept_budget (count_admission (roll_window nowMs t))) with (accept_budget (roll_window nowMs t)).
  rewrite Hb, u32_small by (unfold is_u32; lia). lia.
Qed.

Lemma wf_same t t' : tp_wf t -> config t' = config t -> tp_peers t' = tp_peers t -> 0 <= tp_rrCursor t' < tp_maxPeers t ->
  0 <= tp_acceptWindowCount t' <= accept_budget t -> tp_wf t'.
Proof.
  intros I Hc Hp Hr Hn. pose proof (slot_ok_config t t') as Hs. specialize (fun s => Hs s Hc).
  apply config_eq in Hc as (Hk & _ & Hm & _ & _ & _ & Hl & Hu & _ & _).
  assert (accept_budget t' = accept_budget t) as Hb by (unfold accept_budget; by rewrite Hm).
  split; rewrite ?Hk, ?Hm, ?Hl, ?Hu, ?Hp, ?Hb; try apply I; try done.
  intros i s Hi. apply Hs. by apply (wf_slots _ I i).
Qed.

Lemma wf_put t i s s' : tp_wf t -> tp_peers t !! i = Some s -> slot_ok t s' ->
  (tp_kind t = NVPSF_TRANSPORT_UDP_SOCKET -> ps_inUse s' = true ->
   forall j u, j <> i -> tp_peers t !! j = Some u -> ps_inUse u = true -> ps_addr u <> ps_addr s') ->
  tp_wf (set_peers (<[i := s']> (tp_peers t)) t).
Proof.
  intros I Hi Hs Ha. split; cbn; try apply I.
  - rewrite length_insert. apply I.
  - intros j u Hj. apply list_lookup_insert_Some in Hj as [(<- & <- & _)|[_ Hj]]; [done|]. by apply (wf_slots _ I j).
  - intros Hk j1 j2 u1 u2 H1 H2 Hu1 Hu2 Heq.
    apply list_lookup_insert_Some in H1 as [(<- & <- & _)|[Hn1 H1]]; apply list_lookup_insert_Some in H2 as [(<- & <- & _)|[Hn2 H2]].
    + done.
    + destruct (Ha Hk Hu1 j2 u2); auto.
    + destruct (Ha Hk Hu2 j1 u1); auto.
    + by eapply (wf_addr _ I Hk).
Qed.

Lemma find_addr_None addr peers : find_addr addr peers = None ->
  forall j u, peers !! j = Some u -> ps_inUse u = true -> ps_addrValid u = true -> ps_addr u <> addr.
Proof.
  induction peers as [|s peers IH]; cbn; [done|]. destruct (has_addr addr s) eqn:E; [done|].
  rewrite fmap_None. intros Hf [|j] u Hj Hu Hv; cbn in Hj; [|by eapply IH].
  intros <-. simplify_eq. unfold has_addr in E. by rewrite Hu, Hv, !Z.eqb_refl in E.
Qed.

Lemma find_addr_Some addr peers i : find_addr addr peers = Some i ->
  exists s, peers !! i = Some s /\ ps_inUse s = true /\ ps_addrValid s = true /\ ps_addr s = addr.
Proof.
  revert i. induction peers as [|s peers IH]; intros i; cbn; [done|]. destruct (has_addr addr s) eqn:E.
  - intros [= <-]. exists s. unfold has_addr in E. bool_prop. split_and!; [done..|]. destruct (ps_addr s), addr. cbn in *. congruence.
  - destruct (find_addr addr peers) as [j|]; [|done]. intros [= <-]. by apply IH.
Qed.

Lemma unix_is_not_udp t : tp_kind t = NVPSF_TRANSPORT_UNIX_SOCKET -> tp_kind t <> NVPSF_TRANSPORT_UDP_SOCKET.
Proof. by intros ->. Qed.

Lemma wf_admission nowMs t b t1 : tp_wf t -> admissionRateAllows nowMs t = (b, t1) -> tp_wf t1.
Proof.
  intros I E. destruct (admission_peers _ _ _ _ E) as (Hp & Hc & Hr). pose proof (admission_count _ _ _ _ I E) as Hn.
  apply (wf_same t); [done..| |]; [rewrite Hr; apply I|].
  apply config_eq in Hc as (_ & _ & Hm & _). unfold accept_budget in *. by rewrite <- Hm.
Qed.

Lemma wf_rate_step nowMs report t : tp_wf t -> tp_wf (rate_step nowMs report t).
Proof.
  intros I. unfold rate_step. destruct (admissionRateAllows nowMs t) as [b t1] eqn:E. apply wf_admission in E; [|done].
  destruct report; [|done]. cbn [snd]. destruct (report_denial_peers t1) as (Hp & Hc & Hr).
  apply (wf_same t1); [done..| |]; [rewrite Hr; apply E|].
  replace (tp_acceptWindowCount _) with (tp_acceptWindowCount t1); [apply E|].
  unfold report_denial, admissionDenyFirstInWindow. by case_match; case_match; simplify_eq/=.
Qed.

Lemma taken_ok t fd cred s : slot_ok t s -> ps_inUse s = false -> tp_kind t = NVPSF_TRANSPORT_UNIX_SOCKET -> 0 <= fd ->
  pc_gid cred = tp_allowedGid t -> slot_ok t (with_connection fd cred (taken s)).
Proof.
  unfold slot_ok. intros (Hg & _) _ Hk Hfd Hgid. cbn. pose proof (next_generation_range _ Hg).
  split; [lia|]. split; [lia|]. by rewrite decide_True.
Qed.

Lemma admitted_ok t src s : slot_ok t s -> ps_inUse s = false -> tp_kind t = NVPSF_TRANSPORT_UDP_SOCKET ->
  (tp_role t <> NVPSF_ROLE_CLIENT -> allowListPermits (tp_allow t) (sin_addr src) = true) ->
  slot_ok t (with_address src (taken s)).
Proof.
  unfold slot_ok. intros (Hg & Hf) Hu Hk Hp. rewrite Hu in Hf. destruct Hf as (Hfd & Hc & _). cbn.
  pose proof (next_generation_range _ Hg). split; [lia|]. split; [lia|]. rewrite decide_False by (by rewrite Hk). auto.
Qed.

Lemma released_ok t s : slot_ok t s -> slot_ok t (released s).
Proof. unfold slot_ok. intros (Hg & _). cbn. auto. Qed.

Lemma count_drop_ok t s : slot_ok t s -> slot_ok t (count_drop s).
Proof. done. Qed.

(** The slots of the other peers have other addresses. *)
Lemma fresh_source t t1 src i s : tp_wf t1 -> tp_peers t1 = tp_peers t -> slotFindByAddr src t = None ->
  tp_peers t1 !! i = Some s -> tp_kind t1 = NVPSF_TRANSPORT_UDP_SOCKET ->
  forall j u, j <> i -> tp_peers t1 !! j = Some u -> ps_inUse u = true -> ps_addr u <> src.
Proof.
  intros I Hp Hf Hi Hk j u _ Hj Hu. eapply find_addr_None; [exact Hf|by rewrite <- Hp|done|].
  pose proof (wf_slots _ I j u Hj) as (_ & Ho). rewrite Hu in Ho. destruct Ho as (_ & Ho).
  rewrite decide_False in Ho by (by rewrite Hk). apply Ho.
Qed.

Lemma prim_wf t acts t' : tp_wf t -> prim t acts t' -> tp_wf t'.
Proof.
  intros I Hp. destruct Hp as [fd nowMs report diag t _ _|nowMs report diag t _|diag t _|fd nowMs cred i t t1 t2 Hfd Hk Hg Ha Hs
    |nowMs src i t t1 t2 Hk Hr Hallow Hfind Ha Hs|i s t Hs Hu|i s t Hs Hu|cursor t Hc|fd dest buf t]; try done.
  - by apply wf_rate_step.
  - by apply wf_rate_step.
  - destruct (report_source_peers t) as (? & ? & Hr). apply (wf_same t); [done..| |]; [rewrite Hr; apply I|].
    unfold report_source. case_match; apply I.
  - pose proof (wf_admission _ _ _ _ I Ha) as I1. apply admission_peers in Ha as (_ & Hc & _).
    apply slotAcquire_Some in Hs as (s & Hs & Hu & ->). apply config_eq in Hc as (Hk1 & _ & _ & _ & Hg1 & _).
    eapply wf_put; [done..| |].
    + apply taken_ok; [by eapply (wf_slots _ I1)|done|congruence|done|congruence].
    + rewrite Hk1, Hk. done.
  - pose proof (wf_admission _ _ _ _ I Ha) as I1. apply admission_peers in Ha as (Hp1 & Hc & _).
    apply slotAcquire_Some in Hs as (s & Hs & Hu & ->). apply config_eq in Hc as (Hk1 & Hr1 & _ & _ & Hg1 & Ha1 & _).
    eapply wf_put; [done..| |].
    + apply admitted_ok; [by eapply (wf_slots _ I1)|done|congruence|congruence].
    + intros _ _ j u Hj Huj Hin. cbn. apply (fresh_source t t1 src i s I1 Hp1 Hfind Hs ltac:(congruence) j u); done.
  - unfold slotRelease. rewrite Hs. cbn. eapply wf_put; [done..| |done]. by apply released_ok, (wf_slots _ I i).
  - eapply wf_put; [done..| |].
    + by apply count_drop_ok, (wf_slots _ I i).
    + intros Hk _ j u Hj Huj Hin. cbn. intros Heq. destruct Hj. by eapply (wf_addr _ I Hk j i).
  - apply (wf_same t); [done..| |]; [done|apply I].
Qed.

Lemma prims_wf t acts t' : prims t acts t' -> tp_wf t -> tp_wf t'.
Proof. apply prims_inv. intros ? ? ? I. by apply prim_wf. Qed.

(** ** Endpoints in use by several threads *)

Definition is_peer_entry (e : PollEntry) : Prop := match e with PollPeer _ _ _ => True | _ => False end.

(** The listener or the shared socket comes first, and once. *)
Definition polled_shape (snapshot : list PollEntry) : Prop :=
  match snapshot with
  | PollListen _ :: rest | PollShared _ :: rest => Forall is_peer_entry rest
  | _ => Forall is_peer_entry snapshot
  end.

Record ep_wf (ep : Endpoint) : Prop := {
  ew_t : tp_wf (ep_t ep);
  ew_polls : forall k n snapshot, ep_polls ep !! k = Some (n, snapshot) -> Forall (entry_ok (ep_t ep)) snapshot;
  ew_shape : forall k n snapshot, ep_polls ep !! k = Some (n, snapshot) -> polled_shape snapshot;
}.

Lemma peer_entries_peers peers : Forall is_peer_entry (peer_entries peers).
Proof.
  unfold peer_entries. apply Forall_forall. intros e He.
  apply list_elem_of_omap in He as (o & Ho & Heq). apply elem_of_lookup_imap in Ho as (i & s & -> & _).
  cbn in Heq. unfold peer_entry in Heq. case_match; by simplify_eq.
Qed.

Lemma snapshot_shape t : tp_wf t -> polled_shape (poll_snapshot t).
Proof.
  intros I. unfold poll_snapshot. set (peers := if _ =? NVPSF_TRANSPORT_UNIX_SOCKET then _ else _).
  assert (Hp : Forall is_peer_entry peers) by (unfold peers; case_match; [apply peer_entries_peers|done]).
  clearbody peers. assert (Hs : forall n l, Forall is_peer_entry l -> polled_shape (take n l)).
  { intros n l Hl. apply (Forall_take _ n) in Hl. revert Hl. generalize (take n l). intros [|[] ?]; cbn; try done.
    all: by intros [? _]%Forall_cons. }
  destruct (Z.eqb_spec (tp_listenFd t) NVPSF_FD_INVALID) as [_|Hl].
  - case_match; cbn [app]; [by apply Hs|]. unfold NVPSF_POLL_SLOTS. cbn -[take Z.to_nat]. apply Forall_take, Hp.
  - destruct (Z.eqb_spec (tp_udpFd t) NVPSF_FD_INVALID) as [_|Hu].
    + cbn [app]. unfold NVPSF_POLL_SLOTS. cbn -[take Z.to_nat]. apply Forall_take, Hp.
    + apply (wf_listen _ I) in Hl. apply (wf_udp _ I) in Hu. by rewrite Hl in Hu.
Qed.

Lemma snapshot_entries t : tp_wf t -> Forall (entry_ok t) (poll_snapshot t).
Proof.
  intros I. unfold poll_snapshot. apply Forall_take. rewrite !Forall_app. split_and!.
  - destruct (Z.eqb_spec (tp_listenFd t) NVPSF_FD_INVALID); repeat constructor. cbn. by apply (wf_listen _ I).
  - destruct (Z.eqb_spec (tp_udpFd t) NVPSF_FD_INVALID); repeat constructor. cbn. by apply (wf_udp _ I).
  - case_match; [|done]. eapply Forall_impl; [apply peer_entries_peers|]. by intros [].
Qed.

Lemma poll_end_prims maxEvents snapshot answer w t t' acts es err : Forall (entry_ok t) snapshot ->
  poll_end maxEvents snapshot answer w t = (t', acts, es, err) -> prims t acts t'.
Proof.
  intros Hs. unfold poll_end. destruct answer as [e| |revents]; [intros; simplify_eq; constructor..|].
  destruct (poll_scan _ _ _ _) as [[[t1 acts1] es1] failed] eqn:E. intros; simplify_eq.
  eapply poll_scan_prims; [|done]. apply Forall_forall. intros [e r] He. cbn. rewrite Forall_forall in Hs. apply Hs.
  by apply elem_of_zip_l in He.
Qed.

(** A call is a sequence of small steps. *)
Lemma ep_step_prims op ep ep' acts told : ep_wf ep -> ep_step op ep = Some (ep', acts, told) ->
  prims (ep_t ep) acts (ep_t ep').
Proof.
  intros I. destruct op as [k timeoutMs maxEvents|k answer w|bufLen w|peer buf answer|peer]; cbn.
  - case_match; [done|]. case_match; intros; simplify_eq; constructor.
  - destruct (ep_polls ep !! k) as [[n snapshot]|] eqn:Ek; [|done].
    destruct (poll_end _ _ _ _ _) as [[[t1 acts1] es] err] eqn:E. intros; simplify_eq. cbn.
    eapply poll_end_prims; [by eapply (ew_polls _ I)|done].
  - destruct (NvPSFTransportRecv _ _ _) as [[t1 acts1] r] eqn:E. intros; simplify_eq. cbn.
    eapply NvPSFTransportRecv_prims; [|done]. pose proof (wf_max _ (ew_t _ I)). lia.
  - destruct (NvPSFTransportSend _ _ _ _) as [[t1 acts1] err] eqn:E. intros; simplify_eq. by eapply NvPSFTransportSend_prims.
  - destruct (NvPSFTransportDropPeer _ _) as [[t1 acts1] err] eqn:E. intros; simplify_eq. by eapply NvPSFTransportDropPeer_prims.
Qed.

(** The polls that wait after a step waited before it, or just began. *)
Lemma ep_step_polls op ep ep' acts told : ep_step op ep = Some (ep', acts, told) ->
  forall k p, ep_polls ep' !! k = Some p -> ep_polls ep !! k = Some p \/ snd p = poll_snapshot (ep_t ep).
Proof.
  destruct op as [k timeoutMs maxEvents|k answer w|bufLen w|peer buf answer|peer]; cbn; intros H k' p Hp.
  - case_match; [done|]. unfold poll_begin in H. repeat case_match; simplify_eq; try (by left); cbn in Hp.
    apply lookup_insert_Some in Hp as [[_ <-]|[_ Hp]]; [by right|by left].
  - repeat case_match; simplify_eq; cbn in Hp. apply lookup_delete_Some in Hp as [_ Hp]. by left.
  - repeat case_match; simplify_eq. by left.
  - repeat case_match; simplify_eq. by left.
  - repeat case_match; simplify_eq. by left.
Qed.

Lemma ep_step_wf op ep ep' acts told : ep_wf ep -> ep_step op ep = Some (ep', acts, told) -> ep_wf ep'.
Proof.
  intros I H. pose proof (ep_step_prims _ _ _ _ _ I H) as Hp. split; [apply (prims_wf _ _ _ Hp), I|..].
  - intros k n snapshot Hk. eapply Forall_impl; [|by intros e; apply (entry_ok_prims _ _ _ _ Hp)].
    destruct (ep_step_polls _ _ _ _ _ H _ _ Hk) as [Hold|Hnew]; [by apply (ew_polls _ I k n)|].
    cbn in Hnew. subst. apply snapshot_entries, I.
  - intros k n snapshot Hk. destruct (ep_step_polls _ _ _ _ _ H _ _ Hk) as [Hold|Hnew]; [by apply (ew_shape _ I k n)|].
    cbn in Hnew. subst. apply snapshot_shape, I.
Qed.

Lemma ep_run_prims ops ep ep' acts tolds : ep_wf ep -> ep_run ops ep = Some (ep', acts, tolds) ->
  prims (ep_t ep) acts (ep_t ep') /\ ep_wf ep'.
Proof.
  revert ep ep' acts tolds. induction ops as [|op ops IH]; intros ep ep' acts tolds I; cbn.
  { intros; simplify_eq. split; [constructor|done]. }
  destruct (ep_step op ep) as [[[ep1 acts1] told]|] eqn:E; [|done].
  destruct (ep_run ops ep1) as [[[ep2 acts2] tolds2]|] eqn:E2; [|done]. intros; simplify_eq.
  apply IH in E2 as [Hp2 I2]; [|by eapply ep_step_wf]. split; [|done].
  eapply prims_app; [|done]. by eapply ep_step_prims.
Qed.
