(* ===== verification/TransportOpened.v ===== *)
(** * What opening an endpoint leaves

    An endpoint that was opened is well formed; a path is removed only when nobody
    answers on it or the endpoint itself had bound it.  [in_use] are the
    endpoints in use: opened, and then called. *)

From S2P Require Import Prelude Protocol TransportConfig Transport TransportOpen TransportSteps.

Local Open Scope Z_scope.

Lemma empty_slot_ok t : slot_ok t empty_slot.
Proof. unfold slot_ok. cbn. split; [lia|done]. Qed.

(** An endpoint before its first peer. *)
Record blank (t : NvPSFTransport) : Prop := {
  bk_max : 1 <= tp_maxPeers t <= 64;
  bk_kind : tp_kind t = NVPSF_TRANSPORT_UNIX_SOCKET \/ tp_kind t = NVPSF_TRANSPORT_UDP_SOCKET;
  bk_listen : tp_listenFd t <> NVPSF_FD_INVALID -> tp_kind t = NVPSF_TRANSPORT_UNIX_SOCKET;
  bk_udp : tp_udpFd t <> NVPSF_FD_INVALID -> tp_kind t = NVPSF_TRANSPORT_UDP_SOCKET;
  bk_peers : tp_peers t = replicate (Z.to_nat (tp_maxPeers t)) empty_slot;
  bk_cursor : tp_rrCursor t = 0;
  bk_count : tp_acceptWindowCount t = 0;
}.

Lemma blank_slot t i s : blank t -> tp_peers t !! i = Some s -> s = empty_slot.
Proof. intros B. rewrite (bk_peers _ B). by intros [-> _]%lookup_replicate. Qed.

Lemma blank_wf t : blank t -> tp_wf t.
Proof.
  intros B. pose proof (bk_max _ B) as Hm. split; try apply B.
  - rewrite (bk_peers _ B), length_replicate. lia.
  - rewrite (bk_cursor _ B). lia.
  - rewrite (bk_count _ B), (budget_range _ Hm). lia.
  - intros i s Hi. rewrite (blank_slot _ _ _ B Hi). apply empty_slot_ok.
  - intros _ i j s u Hi Hj Hs. by rewrite (blank_slot _ _ _ B Hi) in Hs.
Qed.

(** The first peer of a blank endpoint. *)
Lemma blank_acquire fill t i t' : blank t -> slotAcquire fill t = Some (i, t') ->
  slot_ok t (fill (taken empty_slot)) -> tp_wf t'.
Proof.
  intros B H Hok. apply slotAcquire_Some in H as (s & Hs & _ & ->). pose proof (blank_slot _ _ _ B Hs). subst s.
  eapply wf_put; [by apply blank_wf|done|done|]. intros _ _ j u Hj Hu Hin. by rewrite (blank_slot _ _ _ B Hu) in Hin.
Qed.

Lemma fresh_blank cfg nowMs : 0 <= cfg_maxPeers cfg -> 0 <= cfg_maxMessageBytes cfg ->
  validateCfg (Some cfg) = NVPSF_TRANSPORT_OK -> blank (fresh_endpoint cfg nowMs).
Proof.
  intros Hp Hb Hv. destruct (validateCfg_ok cfg Hp Hb Hv) as (Hm & _ & _ & Hk).
  split; cbn; try done; [|destruct Hk as [?|[? _]]; auto].
  unfold open_maxPeers. case_match; lia.
Qed.

Lemma checkPeerCred_gid answer gid cred : checkPeerCred answer gid = Some cred -> pc_gid cred = gid.
Proof. unfold checkPeerCred. intros H. cases. done. Qed.

Lemma set_path_blank path allow t : blank t -> blank (set_path path allow t).
Proof. intros B. by split; apply B. Qed.

Lemma openUnixServer_wf cfg w t t' acts : blank t -> tp_kind t = NVPSF_TRANSPORT_UNIX_SOCKET ->
  openUnixServer cfg w t = (t', acts, NVPSF_TRANSPORT_OK) -> tp_wf t'.
Proof.
  intros B Hk. unfold openUnixServer. repeat (case_match; try by intros). intros; simplify_eq.
  apply blank_wf. split; cbn; try apply B. by intros _.
Qed.

Lemma openUnixClient_wf cfg w t t' acts : blank t -> tp_kind t = NVPSF_TRANSPORT_UNIX_SOCKET ->
  openUnixClient cfg w t = (t', acts, NVPSF_TRANSPORT_OK) -> tp_wf t'.
Proof.
  intros B Hk. unfold openUnixClient. destruct (Z.ltb_spec (ow_socket w) 0); [done|]. case_match; [done|].
  destruct (ow_connect w) as [e|]; [by destruct e|].
  destruct (checkPeerCred (ow_cred w) (tp_allowedGid t)) as [cred|] eqn:Ec; [|done].
  destruct (slotAcquire _ t) as [[i t1]|] eqn:Es; [|done]. intros; simplify_eq.
  eapply blank_acquire; [done..|]. apply taken_ok; [apply empty_slot_ok|done|done|done|by eapply checkPeerCred_gid].
Qed.

Lemma openUdp_wf cfg w t t' acts : blank t -> tp_kind t = NVPSF_TRANSPORT_UDP_SOCKET -> tp_listenFd t = NVPSF_FD_INVALID ->
  (tp_role t = NVPSF_ROLE_SERVER \/ tp_role t = NVPSF_ROLE_CLIENT) ->
  openUdp cfg w t = (t', acts, NVPSF_TRANSPORT_OK) -> tp_wf t'.
Proof.
  intros B Hk Hl Hr. unfold openUdp. destruct (udp_allow cfg t) as [allow|]; [|done].
  set (t1 := set_path _ _ _). assert (blank t1) as B1 by by apply set_path_blank.
  destruct (cfg_inetAddr cfg); [|done]. case_match; [done|]. destruct (inet_pton _) as [a|]; [|done].
  case_match; [done|]. case_match; [done|]. unfold attach_udp.
  destruct (Z.eqb_spec (tp_role t1) NVPSF_ROLE_SERVER) as [Hs|Hs].
  - destruct (ow_bind w); [done|]. intros; simplify_eq. apply blank_wf. split; cbn; try apply B1. by intros _.
  - destruct (ow_connect w); [done|]. destruct (slotAcquire _ t1) as [[i t2]|] eqn:Es; [|done]. intros; simplify_eq.
    assert (tp_wf t2) as I2.
    { eapply blank_acquire; [done..|]. apply admitted_ok; [apply empty_slot_ok|done|done|].
      intros Hn. destruct Hr as [Hr|Hr]; [by destruct Hs|by destruct Hn]. }
    apply slotAcquire_Some in Es as (s & _ & _ & ->). split; cbn; try apply I2. by intros _.
Qed.

Lemma open_wf cfg w t acts : 0 <= cfg_maxPeers cfg -> 0 <= cfg_maxMessageBytes cfg ->
  NvPSFTransportOpen (Some cfg) w = (NVPSF_TRANSPORT_OK, Some t, acts) -> tp_wf t.
Proof.
  intros Hp Hb. unfold NvPSFTransportOpen. destruct (validateCfg (Some cfg)) eqn:Ev; [|done..]. case_match; [done|].
  pose proof (fresh_blank cfg (ow_nowMs w) Hp Hb Ev) as B. destruct (validateCfg_ok cfg Hp Hb Ev) as (_ & _ & Hr & _).
  destruct (open_kind _ _ _) as [[t1 acts1] err] eqn:Eo. case_decide; [|by intros]. intros; simplify_eq.
  unfold open_kind in Eo. destruct (Z.eqb_spec (cfg_kind cfg) NVPSF_TRANSPORT_UNIX_SOCKET).
  - destruct (copyBounded _ _) as [path|]; [|done]. case_match.
    + by apply openUnixServer_wf in Eo; [|apply set_path_blank|].
    + by apply openUnixClient_wf in Eo; [|apply set_path_blank|].
  - destruct (Z.eqb_spec (cfg_kind cfg) NVPSF_TRANSPORT_UDP_SOCKET); [|done]. by eapply openUdp_wf.
Qed.

(** ** Endpoints in use *)

(** Opened under some configuration, and called. *)
Definition in_use (ep : Endpoint) : Prop :=
  exists cfg w t acts ops acts' tolds,
    0 <= cfg_maxPeers cfg /\ 0 <= cfg_maxMessageBytes cfg /\
    NvPSFTransportOpen (Some cfg) w = (NVPSF_TRANSPORT_OK, Some t, acts) /\
    ep_run ops {| ep_t := t; ep_polls := ∅ |} = Some (ep, acts', tolds).

Lemma opened_wf t : tp_wf t -> ep_wf {| ep_t := t; ep_polls := ∅ |}.
Proof. intros I. split; [done|..]; cbn; intros k n snapshot; by rewrite lookup_empty. Qed.

Lemma endpoint_wf ep : in_use ep -> ep_wf ep.
Proof.
  intros (cfg & w & t & acts & ops & acts' & tolds & Hp & Hb & Ho & Hr).
  eapply ep_run_prims; [|exact Hr]. by eapply opened_wf, open_wf.
Qed.

Lemma ep_run_app ops1 ops2 ep ep1 acts1 tolds1 :
  ep_run ops1 ep = Some (ep1, acts1, tolds1) ->
  ep_run (ops1 ++ ops2) ep = '(ep2, acts2, tolds2) ← ep_run ops2 ep1; Some (ep2, acts1 ++ acts2, tolds1 ++ tolds2).
Proof.
  revert ep acts1 tolds1. induction ops1 as [|op ops1 IH]; intros ep acts1 tolds1; cbn.
  { intros; simplify_eq. destruct (ep_run ops2 ep1) as [[[? ?] ?]|]; done. }
  destruct (ep_step op ep) as [[[ep' acts] told]|]; [|done].
  destruct (ep_run ops1 ep') as [[[ep1' acts'] tolds']|] eqn:E; [|done]. intros; simplify_eq.
  rewrite (IH _ _ _ E). destruct (ep_run ops2 ep1) as [[[? ?] ?]|]; cbn; [|done]. by rewrite app_assoc.
Qed.

Lemma endpoint_run ops ep ep' acts tolds : in_use ep -> ep_run ops ep = Some (ep', acts, tolds) -> in_use ep'.
Proof.
  intros (cfg & w & t & acts0 & ops0 & acts' & tolds0 & Hp & Hb & Ho & Hr) H.
  eexists cfg, w, t, acts0, (ops0 ++ ops), _, _. split_and!; [done..|]. rewrite (ep_run_app _ _ _ _ _ _ Hr), H. done.
Qed.

(** ** The path of a server *)

Lemma bind_path_touches path w acts b a : bind_path path w = (acts, b) -> a ∈ acts ->
  match a with
  | Unlinked _ => ow_bind w = Some EADDRINUSE /\ 0 <= ow_probe w /\ ow_probeConnect w = Some ECONNREFUSED
  | Bound _ => ow_bind w = None \/ ow_bind w = Some EADDRINUSE /\ 0 <= ow_probe w /\ ow_probeConnect w = Some ECONNREFUSED
  | _ => True
  end.
Proof.
  unfold bind_path. destruct (ow_bind w) as [e|].
  2: { intros; simplify_eq. set_unfold. destruct a; naive_solver. }
  destruct (decide (e = EADDRINUSE)) as [->|Hne]; [|rewrite bool_decide_false by done; cbn; intros; simplify_eq; set_solver].
  rewrite bool_decide_true by done. cbn [negb].
  set (probed := if 0 <=? ow_probe w then _ else _).
  assert (Hp : forall x, x ∈ probed -> x = FdOpened (ow_probe w) \/ x = FdClosed (ow_probe w)).
  { intros x. unfold probed. case_match; set_unfold; naive_solver. }
  clearbody probed. destruct ((0 <=? ow_probe w) && bool_decide (ow_probeConnect w = Some ECONNREFUSED)) eqn:Es.
  - apply andb_true_iff in Es as [H0%Z.leb_le Hc%bool_decide_eq_true]. intros _ _. destruct a; auto.
  - cbn [negb]. intros H Ha. assert (acts = probed) as -> by (by case_match; simplify_eq). apply Hp in Ha. by destruct Ha as [-> | ->].
Qed.

Lemma openUnixServer_touches cfg w t t' acts err path : openUnixServer cfg w t = (t', acts, err) ->
  (Unlinked path ∈ acts \/ Bound path ∈ acts \/ tp_pathBound t' <> tp_pathBound t ->
   ow_bind w = None \/ ow_bind w = Some EADDRINUSE /\ 0 <= ow_probe w /\ ow_probeConnect w = Some ECONNREFUSED).
Proof.
  unfold openUnixServer. case_match; [intros ? [?|[?|?]]; simplify_eq; set_solver|].
  destruct (bind_path (tp_unixPath t) w) as [bacts bound] eqn:Eb.
  assert (Hb : bound = true -> ow_bind w = None \/ ow_bind w = Some EADDRINUSE /\ 0 <= ow_probe w /\ ow_probeConnect w = Some ECONNREFUSED).
  { intros ->. eapply (bind_path_touches _ _ _ _ (Bound (tp_unixPath t)) Eb). unfold bind_path in Eb. repeat case_match; simplify_eq; set_solver. }
  destruct bound; cbn [negb]; [intros _ _; by apply Hb|]. intros Ho Ht. simplify_eq.
  pose proof (fun a => bind_path_touches _ _ _ _ a Eb) as Hx.
  destruct Ht as [Ht|[Ht|Ht]]; [| |done]; apply elem_of_cons in Ht as [Ht|Ht]; try done;
    apply elem_of_app in Ht as [Ht|Ht]; try (apply list_elem_of_singleton in Ht; done); [right; by apply (Hx _ Ht)|by apply (Hx _ Ht)].
Qed.

(** Neither a client nor a UDP endpoint touches a path. *)
Lemma open_others_touch cfg w t t' acts err path : openUnixClient cfg w t = (t', acts, err) \/ openUdp cfg w t = (t', acts, err) ->
  (Unlinked path ∉ acts) /\ (Bound path ∉ acts) /\ tp_pathBound t' = tp_pathBound t.
Proof.
  intros [H|H].
  - unfold openUnixClient in H. repeat case_match; simplify_eq; try (split_and!; [set_solver..|done]).
    match goal with H : slotAcquire _ _ = Some _ |- _ => apply slotAcquire_Some in H as (? & _ & _ & ->) end. split_and!; [set_solver..|done].
  - unfold openUdp, attach_udp in H. repeat case_match; simplify_eq; try (split_and!; [set_solver..|done]).
    match goal with H : slotAcquire _ _ = Some _ |- _ => apply slotAcquire_Some in H as (? & _ & _ & ->) end. split_and!; [set_solver..|done].
Qed.

Lemma close_touches t path : Unlinked path ∈ NvPSFTransportClose t \/ Bound path ∈ NvPSFTransportClose t -> tp_pathBound t = true.
Proof.
  unfold NvPSFTransportClose. destruct (tp_pathBound t); [done|]. rewrite app_nil_r.
  assert (Hc : forall fd a, a ∈ close_fd fd -> a = FdClosed fd) by (intros fd a; unfold close_fd; case_match; set_solver).
  assert (Hall : forall a, a ∈ concat (map (fun s => close_fd (ps_fd s)) (tp_peers t)) ++ close_fd (tp_listenFd t) ++ close_fd (tp_udpFd t) ->
    exists fd, a = FdClosed fd).
  { intros a [Ha|[Ha|Ha]%elem_of_app]%elem_of_app; [|eauto..]. apply list_elem_of_In, in_concat in Ha as (l & Hl & Ha).
    apply in_map_iff in Hl as (s & <- & _). apply list_elem_of_In in Ha. eauto. }
  intros [H|H]; apply Hall in H as [fd H]; done.
Qed.

(** C12. Opening never takes a path from a server that runs: a path is removed or
    bound only when it could be bound at once, or when it was in use and a
    connection to it was refused; a client and a UDP endpoint touch none. *)
Theorem open_spares_live_path cfg w err o acts path :
  NvPSFTransportOpen (Some cfg) w = (err, o, acts) -> Unlinked path ∈ acts \/ Bound path ∈ acts ->
  cfg_kind cfg = NVPSF_TRANSPORT_UNIX_SOCKET /\ cfg_role cfg = NVPSF_ROLE_SERVER /\
  (ow_bind w = None \/ ow_bind w = Some EADDRINUSE /\ 0 <= ow_probe w /\ ow_probeConnect w = Some ECONNREFUSED).
Proof.
  unfold NvPSFTransportOpen. destruct (validateCfg (Some cfg)); try (intros ? [?|?]; simplify_eq; set_solver).
  case_match; [intros ? [?|?]; simplify_eq; set_solver|].
  destruct (open_kind _ _ _) as [[t acts1] err1] eqn:Eo. intros Ho Ht.
  assert (Unlinked path ∈ acts1 \/ Bound path ∈ acts1 \/ tp_pathBound t = true) as Ht'.
  { case_decide; simplify_eq; [tauto|]. rewrite !elem_of_app in Ht. pose proof (close_touches t path). tauto. }
  clear Ht Ho. unfold open_kind in Eo. destruct (Z.eqb_spec (cfg_kind cfg) NVPSF_TRANSPORT_UNIX_SOCKET) as [Hk|Hk].
  - destruct (copyBounded _ _); [|simplify_eq; destruct Ht' as [?|[?|?]]; set_solver].
    destruct (Z.eqb_spec (cfg_role cfg) NVPSF_ROLE_SERVER) as [Hr|Hr].
    + split_and!; [done..|]. eapply (openUnixServer_touches _ _ _ _ _ _ path Eo). cbn. destruct Ht' as [?|[?|Hb]]; auto. right. right. by rewrite Hb.
    + destruct (open_others_touch _ _ _ _ _ _ path (or_introl Eo)) as (? & ? & Hb). cbn in Hb. rewrite Hb in Ht'. naive_solver.
  - destruct (cfg_kind cfg =? NVPSF_TRANSPORT_UDP_SOCKET); [|simplify_eq; destruct Ht' as [?|[?|?]]; set_solver].
    destruct (open_others_touch _ _ _ _ _ _ path (or_intror Eo)) as (? & ? & Hb). cbn in Hb. rewrite Hb in Ht'. naive_solver.
Qed.

(** ** The poll array *)

Lemma length_omap_le {A B} (f : A -> option B) l : (length (omap f l) <= length l)%nat.
Proof. induction l as [|x l IH]; cbn; [lia|]. destruct (f x); cbn; lia. Qed.

(** Every peer and the socket of the endpoint fit the array of a poll. *)
Lemma poll_array_holds_all t : tp_wf t ->
  poll_snapshot t =
    (if tp_listenFd t =? NVPSF_FD_INVALID then [] else [PollListen (tp_listenFd t)]) ++
    (if tp_udpFd t =? NVPSF_FD_INVALID then [] else [PollShared (tp_udpFd t)]) ++
    (if tp_kind t =? NVPSF_TRANSPORT_UNIX_SOCKET then peer_entries (tp_peers t) else []).
Proof.
  intros I. apply take_ge. rewrite !length_app. pose proof (wf_max _ I). pose proof (wf_length _ I).
  assert (length (peer_entries (tp_peers t)) <= length (tp_peers t))%nat.
  { unfold peer_entries. etrans; [apply length_omap_le|]. by rewrite length_imap. }
  unfold NVPSF_POLL_SLOTS, NVPSF_TRANSPORT_MAX_PEERS_LIMIT.
  destruct (Z.eqb_spec (tp_listenFd t) NVPSF_FD_INVALID) as [|Hl]; destruct (Z.eqb_spec (tp_udpFd t) NVPSF_FD_INVALID) as [|Hu];
    try (case_match; cbn [length]; lia).
  apply (wf_listen _ I) in Hl. apply (wf_udp _ I) in Hu. by rewrite Hl in Hu.
Qed.
