(* ===== verification/TransportSafety.v ===== *)
(** * What a transport endpoint guarantees

    Peer ids and the generations behind them, the admission rate and the
    descriptors of an endpoint, for every run of calls by any number of threads and
    every answer of the kernel. *)

From S2P Require Import Prelude Protocol TransportConfig Transport TransportOpen TransportSteps TransportOpened.

Local Open Scope Z_scope.

(** ** Peer ids *)

Lemma peerIdMake_eq slot g : 0 <= slot <= 65535 -> 0 <= g <= 65535 -> peerIdMake slot g = g * 65536 + slot.
Proof.
  intros Hs Hg. unfold peerIdMake, NVPSF_ID_FIELD_MASK. change 0xFFFF with (Z.ones 16).
  rewrite !Z.land_ones, !Z.mod_small by lia. rewrite Z.shiftl_mul_pow2 by lia. rewrite (u32_small (g * 2 ^ 16)) by (unfold is_u32; lia).
  assert (Z.land (g * 2 ^ 16) slot = 0) as Hd.
  { apply Z.bits_inj'. intros n Hn. rewrite Z.land_spec, Z.bits_0. destruct (Z.lt_ge_cases n 16).
    - by rewrite Z.mul_pow2_bits_low.
    - rewrite (testbit_range_high slot 16) by lia. apply andb_false_r. }
  rewrite <- Z.lxor_lor, <- Z.add_nocarry_lxor by done.
  apply u32_small. unfold is_u32. lia.
Qed.

Lemma peerId_fields slot g : 0 <= slot <= 65535 -> 0 <= g <= 65535 ->
  peerIdSlot (peerIdMake slot g) = slot /\ peerIdGeneration (peerIdMake slot g) = g.
Proof.
  intros Hs Hg. rewrite peerIdMake_eq by done. unfold peerIdSlot, peerIdGeneration, NVPSF_ID_FIELD_MASK.
  change 0xFFFF with (Z.ones 16). rewrite !Z.land_ones, Z.shiftr_div_pow2 by lia.
  split; Z.div_mod_to_equations; lia.
Qed.

Lemma peerId_whole id : is_u32 id -> peerIdMake (peerIdSlot id) (peerIdGeneration id) = id.
Proof.
  unfold is_u32. intros Hid. unfold peerIdSlot, peerIdGeneration, NVPSF_ID_FIELD_MASK. change 0xFFFF with (Z.ones 16).
  rewrite !Z.land_ones, Z.shiftr_div_pow2 by lia. rewrite peerIdMake_eq; Z.div_mod_to_equations; lia.
Qed.

(** The ids the endpoint has a slot for. *)
Definition slot_id (i : nat) (s : NvPSFPeerSlot) : option Z :=
  if ps_inUse s then Some (peerIdMake (Z.of_nat i) (ps_generation s)) else None.
Definition live (t : NvPSFTransport) : gset Z := list_to_set (omap id (imap slot_id (tp_peers t))).

Lemma elem_of_live id t :
  id ∈ live t <-> exists i s, tp_peers t !! i = Some s /\ ps_inUse s = true /\ id = peerIdMake (Z.of_nat i) (ps_generation s).
Proof.
  unfold live. rewrite elem_of_list_to_set, list_elem_of_omap. split.
  - intros (o & Ho & Heq). apply elem_of_lookup_imap in Ho as (i & s & -> & Hi). unfold slot_id in Heq. cbn in Heq.
    destruct (ps_inUse s) eqn:E; simplify_eq. eauto.
  - intros (i & s & Hi & Hu & ->). eexists. split; [apply elem_of_lookup_imap; eauto|]. unfold slot_id. by rewrite Hu.
Qed.

Lemma slot_bounds t i s : tp_wf t -> tp_peers t !! i = Some s -> 0 <= Z.of_nat i < tp_maxPeers t /\ Z.of_nat i < 64 /\
  0 <= ps_generation s <= 65535.
Proof.
  intros I Hi. pose proof (wf_slots _ I i s Hi) as [Hg _]. apply lookup_lt_Some in Hi.
  pose proof (wf_length _ I). pose proof (wf_max _ I). lia.
Qed.

(** An id is live exactly when [slotFor] finds its slot. *)
Lemma slotFor_live t i s : tp_wf t -> tp_peers t !! i = Some s -> ps_inUse s = true ->
  slotFor (peerIdMake (Z.of_nat i) (ps_generation s)) t = Some i.
Proof.
  intros I Hi Hu. destruct (slot_bounds t i s I Hi) as (Hm & H64 & Hg).
  destruct (peerId_fields (Z.of_nat i) (ps_generation s)) as [Es Eg]; [lia..|].
  unfold slotFor. rewrite Es, Eg. rewrite peerIdMake_eq by lia.
  replace (_ =? NVPSF_PEER_INVALID) with false; [|symmetry; apply Z.eqb_neq; unfold NVPSF_PEER_INVALID, UINT32_MAX; lia].
  replace (tp_maxPeers t <=? Z.of_nat i) with false by (symmetry; apply Z.leb_gt; lia).
  rewrite Nat2Z.id, Hi, Hu, Z.eqb_refl. done.
Qed.

Lemma live_slotFor id t : tp_wf t -> id ∈ live t -> is_Some (slotFor id t).
Proof. intros I (i & s & Hi & Hu & ->)%elem_of_live. rewrite (slotFor_live t i s) by done. done. Qed.

Lemma slotFor_is_live id t i : tp_wf t -> is_u32 id -> slotFor id t = Some i -> id ∈ live t.
Proof.
  intros I Hid H. apply slotFor_Some in H as (s & Hi & Hu & Hg & -> & _). apply elem_of_live.
  eexists _, s. split_and!; [done..|]. rewrite Hg, Z2Nat.id; [by rewrite peerId_whole|].
  unfold peerIdSlot, NVPSF_ID_FIELD_MASK. by apply Z.land_nonneg; right.
Qed.

(** Two peers never share an id. *)
Lemma slot_id_inj t i j s u : tp_wf t -> tp_peers t !! i = Some s -> tp_peers t !! j = Some u ->
  peerIdMake (Z.of_nat i) (ps_generation s) = peerIdMake (Z.of_nat j) (ps_generation u) -> i = j.
Proof.
  intros I Hi Hj H. destruct (slot_bounds t i s I Hi) as (_ & ? & ?). destruct (slot_bounds t j u I Hj) as (_ & ? & ?).
  rewrite !peerIdMake_eq in H by lia. lia.
Qed.

Lemma live_valid id t : tp_wf t -> id ∈ live t -> id <> NVPSF_PEER_INVALID /\ is_u32 id.
Proof.
  intros I (i & s & Hi & Hu & ->)%elem_of_live. destruct (slot_bounds t i s I Hi) as (_ & ? & ?).
  rewrite peerIdMake_eq by lia. unfold NVPSF_PEER_INVALID, UINT32_MAX, is_u32. lia.
Qed.

(** ** Generations *)

Definition takes (i : nat) (a : Action) : bool := match a with SlotTaken j => (i =? j)%nat | _ => false end.

(** How often slot [i] was handed out. *)
Definition taken_count (i : nat) (acts : list Action) : nat := length (List.filter (takes i) acts).

Lemma taken_count_app i a b : taken_count i (a ++ b) = (taken_count i a + taken_count i b)%nat.
Proof. unfold taken_count. by rewrite List.filter_app, length_app. Qed.

Lemma taken_count_diag i diag : Forall is_diag diag -> taken_count i diag = 0%nat.
Proof. unfold taken_count. induction 1 as [|a l Ha _ IH]; [done|]. by destruct a. Qed.

Lemma taken_count_close i fd : taken_count i (close_fd fd) = 0%nat.
Proof. unfold close_fd. by case_match. Qed.

Lemma generation_put i j s s' t : tp_peers t !! j = Some s ->
  generation_at i (set_peers (<[j := s']> (tp_peers t)) t) = if decide (i = j) then ps_generation s' else generation_at i t.
Proof.
  intros Hj. unfold generation_at. cbn. case_decide as Hd; [subst|by rewrite list_lookup_insert_ne].
  rewrite list_lookup_insert_eq by (by eapply lookup_lt_Some). done.
Qed.

Lemma generation_same i t t' : tp_peers t' = tp_peers t -> generation_at i t' = generation_at i t.
Proof. unfold generation_at. by intros ->. Qed.

(** The generation of a slot moves on each time the slot is handed out, and only
    then. *)
Lemma prim_generation i t acts t' : prim t acts t' ->
  generation_at i t' = Nat.iter (taken_count i acts) next_generation (generation_at i t).
Proof.
  intros Hp. destruct Hp as [fd nowMs report diag t _ Hd|nowMs report diag t Hd|diag t Hd|fd nowMs cred j t t1 t2 _ _ _ Ha Hs
    |nowMs src j t t1 t2 _ _ _ _ Ha Hs|j s t Hs Hu|j s t Hs Hu|cursor t Hc|fd dest buf t]; try done.
  - change (FdOpened fd :: ClockRead nowMs :: diag ++ [FdClosed fd]) with ([FdOpened fd; ClockRead nowMs] ++ diag ++ [FdClosed fd]).
    rewrite !taken_count_app, (taken_count_diag i diag) by done. apply generation_same, rate_step_peers.
  - change (ClockRead nowMs :: diag) with ([ClockRead nowMs] ++ diag).
    rewrite !taken_count_app, (taken_count_diag i diag) by done. apply generation_same, rate_step_peers.
  - rewrite taken_count_diag by done. apply generation_same, report_source_peers.
  - apply admission_peers in Ha as (Hp & _). apply slotAcquire_Some in Hs as (s & Hs & _ & ->).
    rewrite (generation_put _ _ s) by done. unfold taken_count. cbn. case_decide as Hd.
    + subst. rewrite Nat.eqb_refl. cbn. unfold generation_at. by rewrite <- Hp, Hs.
    + rewrite (proj2 (Nat.eqb_neq i j)) by done. by apply generation_same.
  - apply admission_peers in Ha as (Hp & _). apply slotAcquire_Some in Hs as (s & Hs & _ & ->).
    rewrite (generation_put _ _ s) by done. unfold taken_count. cbn. case_decide as Hd.
    + subst. rewrite Nat.eqb_refl. cbn. unfold generation_at. by rewrite <- Hp, Hs.
    + rewrite (proj2 (Nat.eqb_neq i j)) by done. by apply generation_same.
  - rewrite taken_count_close. unfold slotRelease. rewrite Hs. cbn [fst Nat.iter nat_rect]. rewrite (generation_put _ _ s) by done.
    case_decide; [subst|done]. unfold generation_at. by rewrite Hs.
  - rewrite (generation_put _ _ s) by done. case_decide; [subst|done]. unfold generation_at. by rewrite Hs.
Qed.

Lemma prims_generation i t acts t' : prims t acts t' ->
  generation_at i t' = Nat.iter (taken_count i acts) next_generation (generation_at i t).
Proof.
  induction 1 as [t|t a t1 b t2 Hp _ IH]; [done|].
  rewrite taken_count_app, Nat.add_comm, Nat.iter_add, <- (prim_generation _ _ _ _ Hp). done.
Qed.

(** The cycle of a generation has 65535 values. *)
Lemma iter_generation k g : 1 <= g <= 65535 -> Nat.iter k next_generation g = (g - 1 + Z.of_nat k) mod 65535 + 1.
Proof.
  intros Hg. induction k as [|k IH]; [cbn; rewrite Z.mod_small; lia|]. rewrite Nat.iter_succ, IH.
  pose proof (Z.mod_pos_bound (g - 1 + Z.of_nat k) 65535 ltac:(lia)).
  rewrite next_generation_eq by lia. destruct (Z.eqb_spec ((g - 1 + Z.of_nat k) mod 65535 + 1) 65535); Z.div_mod_to_equations; lia.
Qed.

Lemma generation_returns k g : 1 <= g <= 65535 -> (k < Z.to_nat 65535)%nat -> Nat.iter k next_generation g = g -> k = 0%nat.
Proof. intros Hg Hk. rewrite iter_generation by done. intros H. Z.div_mod_to_equations. lia. Qed.

(** ** Admission rate *)

(** The clock does not go back, from [last] on. *)
Fixpoint clock_ok (last : Z) (acts : list Action) : Prop :=
  match acts with
  | [] => True
  | ClockRead nowMs :: rest => last <= nowMs < 2 ^ 64 /\ clock_ok nowMs rest
  | _ :: rest => clock_ok last rest
  end.

Fixpoint last_clock (last : Z) (acts : list Action) : Z :=
  match acts with
  | [] => last
  | ClockRead nowMs :: rest => last_clock nowMs rest
  | _ :: rest => last_clock last rest
  end.

#[export] Instance clock_ok_dec last acts : Decision (clock_ok last acts).
Proof. revert last. induction acts as [|[] acts IH]; intros last; cbn; apply _. Defined.

Lemma clock_ok_app last a b : clock_ok last (a ++ b) <-> clock_ok last a /\ clock_ok (last_clock last a) b.
Proof. revert last. induction a as [|x a IH]; intros last; cbn; [naive_solver|]. destruct x; rewrite ?IH; naive_solver. Qed.

Lemma last_clock_app last a b : last_clock last (a ++ b) = last_clock (last_clock last a) b.
Proof. revert last. induction a as [|x a IH]; intros last; cbn; [done|]. by destruct x. Qed.

Lemma clock_diag last diag : Forall is_diag diag -> last_clock last diag = last.
Proof. induction 1 as [|a l Ha _ IH]; [done|]. by destruct a. Qed.

Lemma clock_close last fd : last_clock last (close_fd fd) = last.
Proof. unfold close_fd. by case_match. Qed.

Lemma clock_ok_le last acts : clock_ok last acts -> last <= last_clock last acts.
Proof. revert last. induction acts as [|[] acts IH]; intros last; cbn; try apply IH; [lia|]. intros [H Hc]. specialize (IH _ Hc). lia. Qed.

Definition is_taken (a : Action) : bool := match a with SlotTaken _ => true | _ => false end.
Definition taken_total (acts : list Action) : Z := Z.of_nat (length (List.filter is_taken acts)).

Lemma taken_total_app a b : taken_total (a ++ b) = taken_total a + taken_total b.
Proof. unfold taken_total. rewrite List.filter_app, length_app. lia. Qed.

Lemma taken_total_diag diag : Forall is_diag diag -> taken_total diag = 0.
Proof. unfold taken_total. induction 1 as [|a l Ha _ IH]; [done|]. by destruct a. Qed.

Lemma taken_total_close fd : taken_total (close_fd fd) = 0.
Proof. unfold close_fd. by case_match. Qed.

Lemma taken_count_total i acts : Z.of_nat (taken_count i acts) <= taken_total acts.
Proof.
  unfold taken_count, taken_total. induction acts as [|a acts IH]; [done|]. cbn.
  destruct a; cbn; try apply IH. destruct (i =? slot)%nat; cbn; lia.
Qed.

(** [w] windows began on the way, at least a second apart; of the [n] slots handed
    out, each is counted in its window. *)
Definition paced (t t' : NvPSFTransport) (n : Z) : Prop :=
  tp_maxPeers t' = tp_maxPeers t /\
  exists w, 0 <= w /\ tp_acceptWindowStartMs t + 1000 * w <= tp_acceptWindowStartMs t' /\
    n + tp_acceptWindowCount t <= tp_acceptWindowCount t' + accept_budget t * w.

Lemma paced_same t t' : tp_maxPeers t' = tp_maxPeers t -> tp_acceptWindowStartMs t' = tp_acceptWindowStartMs t ->
  tp_acceptWindowCount t' = tp_acceptWindowCount t -> paced t t' 0.
Proof. intros Hm Hs Hc. split; [done|]. exists 0. lia. Qed.

Lemma paced_trans t t1 t2 n m : paced t t1 n -> paced t1 t2 m -> paced t t2 (n + m).
Proof.
  intros (Hm1 & w1 & Hw1 & Hs1 & Hc1) (Hm2 & w2 & Hw2 & Hs2 & Hc2). split; [congruence|]. exists (w1 + w2).
  assert (accept_budget t1 = accept_budget t) as Hb by (unfold accept_budget; by rewrite Hm1). rewrite Hb in Hc2. lia.
Qed.

Lemma admission_paced nowMs t b t1 : tp_wf t -> 0 <= tp_acceptWindowStartMs t <= nowMs -> nowMs < 2 ^ 64 ->
  admissionRateAllows nowMs t = (b, t1) ->
  tp_acceptWindowStartMs t1 <= nowMs /\ paced t t1 (if b then 1 else 0).
Proof.
  intros I Hs Hn. pose proof (wf_count _ I) as Hc. pose proof (wf_max _ I) as Hm.
  pose proof (budget_range _ Hm) as Hb.
  unfold admissionRateAllows, roll_window, NVPSF_ACCEPT_WINDOW_MS. rewrite u64_small by (unfold is_u64; lia).
  destruct (Z.leb_spec 1000 (nowMs - tp_acceptWindowStartMs t)).
  - change (accept_budget (set_window nowMs 0 false false t)) with (accept_budget t). cbn.
    destruct (Z.leb_spec (accept_budget t) 0); [lia|]. intros; simplify_eq. cbn. split; [lia|]. split; [done|].
    exists 1. cbn. rewrite u32_small by (unfold is_u32; lia). lia.
  - destruct (Z.leb_spec (accept_budget t) (tp_acceptWindowCount t)); intros; simplify_eq; (split; [cbn; lia|]).
    + by apply paced_same.
    + split; [done|]. exists 0. cbn. rewrite u32_small by (unfold is_u32; lia). lia.
Qed.

Lemma report_denial_window t :
  tp_maxPeers (fst (report_denial t)) = tp_maxPeers t /\
  tp_acceptWindowStartMs (fst (report_denial t)) = tp_acceptWindowStartMs t /\
  tp_acceptWindowCount (fst (report_denial t)) = tp_acceptWindowCount t.
Proof. unfold report_denial, admissionDenyFirstInWindow. by case_match; case_match; simplify_eq/=. Qed.

Lemma rate_step_paced nowMs report t : tp_wf t -> 0 <= tp_acceptWindowStartMs t <= nowMs -> nowMs < 2 ^ 64 ->
  tp_acceptWindowStartMs (rate_step nowMs report t) <= nowMs /\ paced t (rate_step nowMs report t) 0.
Proof.
  intros I Hs Hn. unfold rate_step. destruct (admissionRateAllows nowMs t) as [b t1] eqn:E.
  destruct (admission_paced _ _ _ _ I Hs Hn E) as [Hle Hp]. cbn [snd].
  assert (paced t t1 0) as Hp0.
  { destruct Hp as (Hm & w & Hw & Hst & Hc). split; [done|]. exists w. destruct b; lia. }
  destruct report; [|done]. destruct (report_denial_window t1) as (Hm & Hst & Hc). rewrite Hst. split; [done|].
  apply (paced_trans _ _ _ 0 0 Hp0). by apply paced_same.
Qed.

Lemma prim_paced last t acts t' : tp_wf t -> prim t acts t' -> 0 <= tp_acceptWindowStartMs t <= last -> clock_ok last acts ->
  tp_acceptWindowStartMs t' <= last_clock last acts /\ paced t t' (taken_total acts).
Proof.
  intros I Hp. destruct Hp as [fd nowMs report diag t _ Hd|nowMs report diag t Hd|diag t Hd|fd nowMs cred j t t1 t2 _ _ _ Ha Hs
    |nowMs src j t t1 t2 _ _ _ _ Ha Hs|j s t Hs Hu|j s t Hs Hu|cursor t Hc|fd dest buf t]; intros Hst Hck.
  - change (FdOpened fd :: ClockRead nowMs :: diag ++ [FdClosed fd]) with ([FdOpened fd; ClockRead nowMs] ++ diag ++ [FdClosed fd]).
    rewrite !taken_total_app, (taken_total_diag diag), !last_clock_app, (clock_diag _ diag) by done.
    cbn in Hck |- *. apply rate_step_paced; [done|lia..].
  - change (ClockRead nowMs :: diag) with ([ClockRead nowMs] ++ diag).
    rewrite taken_total_app, (taken_total_diag diag), last_clock_app, (clock_diag _ diag) by done.
    cbn in Hck |- *. apply rate_step_paced; [done|lia..].
  - rewrite taken_total_diag, clock_diag by done. unfold report_source. case_match; (split; [cbn; lia|by apply paced_same]).
  - apply slotAcquire_Some in Hs as (s & _ & _ & ->). cbn in Hck |- *. by eapply admission_paced in Ha; [..|lia|lia].
  - apply slotAcquire_Some in Hs as (s & _ & _ & ->). cbn in Hck |- *. by eapply admission_paced in Ha; [..|lia|lia].
  - rewrite taken_total_close, clock_close. unfold slotRelease. rewrite Hs. split; [cbn; lia|by apply paced_same].
  - split; [cbn; lia|by apply paced_same].
  - split; [cbn; lia|by apply paced_same].
  - split; [cbn; lia|by apply paced_same].
Qed.

Lemma prims_paced t acts t' last : prims t acts t' -> tp_wf t -> 0 <= tp_acceptWindowStartMs t <= last -> clock_ok last acts ->
  tp_acceptWindowStartMs t' <= last_clock last acts /\ paced t t' (taken_total acts).
Proof.
  intros H. revert last. induction H as [t|t a t1 b t2 Hp _ IH]; intros last I Hs Hck.
  { split; [cbn; lia|by apply paced_same]. }
  apply clock_ok_app in Hck as [Ha Hb]. destruct (prim_paced _ _ _ _ I Hp Hs Ha) as [H1 P1].
  destruct P1 as (Hm & w & Hw & Hst & Hc). rewrite last_clock_app, taken_total_app.
  destruct (IH (last_clock last a)) as [H2 P2]; [by eapply prim_wf|lia|done|]. split; [done|].
  eapply paced_trans; [|done]. split; [done|]. by exists w.
Qed.

(** In [d] milliseconds at most [4 * maxPeers * (1 + d / 1000)] peers are admitted. *)
Lemma admissions_bounded t acts t' last : prims t acts t' -> tp_wf t -> 0 <= tp_acceptWindowStartMs t <= last -> clock_ok last acts ->
  taken_total acts <= 4 * tp_maxPeers t * (1 + (last_clock last acts - tp_acceptWindowStartMs t) / 1000).
Proof.
  intros H I Hs Hck. destruct (prims_paced _ _ _ _ H I Hs Hck) as [Hle (Hm & w & Hw & Hst & Hc)].
  pose proof (prims_wf _ _ _ H I) as I'. pose proof (wf_count _ I). pose proof (wf_count _ I') as Hc'.
  pose proof (wf_max _ I) as Hmax. assert (accept_budget t' = accept_budget t) as Hb by (unfold accept_budget; by rewrite Hm).
  rewrite Hb, (budget_range _ Hmax) in *.
  assert (w <= (last_clock last acts - tp_acceptWindowStartMs t) / 1000) by (apply Z.div_le_lower_bound; lia). nia.
Qed.

(** ** Ids of peers that are gone *)

(** A slot that is free stays free until it is handed out. *)
Lemma prim_stays_free i t acts t' s : prim t acts t' -> taken_count i acts = 0%nat ->
  tp_peers t !! i = Some s -> ps_inUse s = false -> exists s', tp_peers t' !! i = Some s' /\ ps_inUse s' = false.
Proof.
  intros Hp. destruct Hp as [fd nowMs report diag t _ Hd|nowMs report diag t Hd|diag t Hd|fd nowMs cred j t t1 t2 _ _ _ Ha Hs
    |nowMs src j t t1 t2 _ _ _ _ Ha Hs|j u t Hs Hu|j u t Hs Hu|cursor t Hc|fd dest buf t]; intros Hn Hi Hf; try by eauto.
  - destruct (rate_step_peers nowMs report t) as (-> & _). eauto.
  - destruct (rate_step_peers nowMs report t) as (-> & _). eauto.
  - destruct (report_source_peers t) as (-> & _). eauto.
  - apply admission_peers in Ha as (Hp & _). apply slotAcquire_Some in Hs as (u & _ & _ & ->). cbn.
    destruct (decide (i = j)) as [->|Hne]; [unfold taken_count in Hn; cbn in Hn; by rewrite Nat.eqb_refl in Hn|].
    rewrite list_lookup_insert_ne, Hp by done. eauto.
  - apply admission_peers in Ha as (Hp & _). apply slotAcquire_Some in Hs as (u & _ & _ & ->). cbn.
    destruct (decide (i = j)) as [->|Hne]; [unfold taken_count in Hn; cbn in Hn; by rewrite Nat.eqb_refl in Hn|].
    rewrite list_lookup_insert_ne, Hp by done. eauto.
  - unfold slotRelease. rewrite Hs. cbn. destruct (decide (i = j)) as [->|Hne]; [simplify_eq; congruence|].
    rewrite list_lookup_insert_ne by done. eauto.
  - cbn. destruct (decide (i = j)) as [->|Hne]; [simplify_eq; congruence|]. rewrite list_lookup_insert_ne by done. eauto.
Qed.

Lemma prims_stays_free i t acts t' s : prims t acts t' -> taken_count i acts = 0%nat ->
  tp_peers t !! i = Some s -> ps_inUse s = false -> exists s', tp_peers t' !! i = Some s' /\ ps_inUse s' = false.
Proof.
  intros H. revert s. induction H as [t|t a t1 b t2 Hp _ IH]; intros s Hn Hi Hf; [eauto|].
  rewrite taken_count_app in Hn. destruct (prim_stays_free i _ _ _ s Hp) as (s1 & Hi1 & Hf1); [lia|done..|].
  apply (IH s1); [lia|done..].
Qed.

(** The id of a slot that was not handed out again [65535] times since is refused
    unless the slot is still the one it named. *)
Lemma stale_id id i t acts t' : tp_wf t -> prims t acts t' -> slotFor id t = Some i ->
  (taken_count i acts < Z.to_nat 65535)%nat -> slotFor id t' = Some i -> taken_count i acts = 0%nat.
Proof.
  intros I Hp Hid Hn Hid'. pose proof (prims_generation i _ _ _ Hp) as Hg.
  apply slotFor_Some in Hid as (s & Hi & Hu & Hgen & _). apply slotFor_Some in Hid' as (s' & Hi' & _ & Hgen' & _).
  unfold generation_at in Hg. rewrite Hi, Hi', Hgen, Hgen' in Hg. symmetry in Hg. rewrite <- Hgen in Hg.
  pose proof (wf_slots _ I i s Hi) as [Hr Hok]. rewrite Hu in Hok. apply generation_returns in Hg; [done|lia|done].
Qed.

Lemma slotFor_index id t t' i j : slotFor id t = Some i -> slotFor id t' = Some j -> i = j.
Proof. intros (_ & _ & _ & _ & -> & _)%slotFor_Some (_ & _ & _ & _ & -> & _)%slotFor_Some. done. Qed.

(** An id that was lost is not found again. *)
Lemma lost_id id i t acts1 t1 acts2 t2 : tp_wf t -> prims t acts1 t1 -> prims t1 acts2 t2 -> slotFor id t = Some i ->
  (taken_count i (acts1 ++ acts2) < Z.to_nat 65535)%nat -> slotFor id t1 = None -> slotFor id t2 = None.
Proof.
  intros I H1 H2 Hid Hn Hgone. destruct (slotFor id t2) as [j|] eqn:E; [exfalso|done].
  pose proof (slotFor_index _ _ _ _ _ Hid E). subst j.
  pose proof (stale_id _ _ _ _ _ I (prims_app _ _ _ _ _ H1 H2) Hid Hn E) as Hz. rewrite taken_count_app in Hz.
  pose proof (prims_generation i _ _ _ H1) as Hg. replace (taken_count i acts1) with 0%nat in Hg by lia. cbn in Hg.
  apply slotFor_Some in Hid as (s & Hi & Hu & Hgen & Hidx & Hval & Hmax).
  pose proof (prims_wf _ _ _ H1 I) as I1. pose proof (prims_config _ _ _ H1) as Hc. apply config_eq in Hc as (_ & _ & Hm & _).
  destruct (tp_peers t1 !! i) as [s1|] eqn:Hi1.
  2: { apply lookup_ge_None in Hi1. apply lookup_lt_Some in Hi. pose proof (wf_length _ I). pose proof (wf_length _ I1). lia. }
  unfold generation_at in Hg. rewrite Hi, Hi1 in Hg.
  assert (ps_inUse s1 = false) as Hf.
  { destruct (ps_inUse s1) eqn:Eu; [|done]. exfalso. revert Hgone. unfold slotFor.
    rewrite (proj2 (Z.eqb_neq _ _) Hval), (proj2 (Z.leb_gt _ _)) by lia. rewrite <- Hidx, Hi1, Eu, Hg, Hgen, Z.eqb_refl. done. }
  destruct (prims_stays_free i _ _ _ s1 H2) as (s2 & Hi2 & Hf2); [lia|done..|].
  apply slotFor_Some in E as (s2' & Hi2' & Hu2 & _). congruence.
Qed.

Lemma send_lost id buf answer t : slotFor id t = None ->
  let '(t', acts, err) := NvPSFTransportSend id buf answer t in t' = t /\ acts = [] /\ err <> NVPSF_TRANSPORT_OK.
Proof. intros H. unfold NvPSFTransportSend. rewrite H. by repeat case_match; simplify_eq. Qed.

(** C7. An id whose peer is gone names nobody else: however the slots are reused by
    the calls after it, a deferred drop or send under that id reaches no peer.  The
    generation of an id has sixteen bits; the admission rate keeps a slot from
    going through all of them for as long as [4 * maxPeers * (1 + d / 1000)] is
    below 65535, where [d] is the time since the rate window began when the id was
    valid: for the 64 peers an endpoint has at most, more than four minutes. *)
Theorem gone_ids_reach_nobody ep id i last ops1 ep1 acts1 tolds1 ops2 ep2 acts2 tolds2 :
  in_use ep -> slotFor id (ep_t ep) = Some i ->
  ep_run ops1 ep = Some (ep1, acts1, tolds1) -> slotFor id (ep_t ep1) = None ->
  ep_run ops2 ep1 = Some (ep2, acts2, tolds2) ->
  0 <= tp_acceptWindowStartMs (ep_t ep) <= last -> clock_ok last (acts1 ++ acts2) ->
  4 * tp_maxPeers (ep_t ep) *
    (1 + (last_clock last (acts1 ++ acts2) - tp_acceptWindowStartMs (ep_t ep)) / 1000) < 65535 ->
  NvPSFTransportDropPeer id (ep_t ep2) = (ep_t ep2, [], NVPSF_TRANSPORT_PEER_GONE) /\
  forall buf answer, let '(t', acts, err) := NvPSFTransportSend id buf answer (ep_t ep2) in
    t' = ep_t ep2 /\ acts = [] /\ err <> NVPSF_TRANSPORT_OK.
Proof.
  intros Hreach Hid Hr1 Hgone Hr2 Hst Hck Hlim. pose proof (endpoint_wf _ Hreach) as I.
  destruct (ep_run_prims _ _ _ _ _ I Hr1) as [Hp1 I1]. destruct (ep_run_prims _ _ _ _ _ I1 Hr2) as [Hp2 I2].
  assert (slotFor id (ep_t ep2) = None) as Hn.
  { eapply lost_id; [apply I|exact Hp1|exact Hp2|done| |done].
    pose proof (admissions_bounded _ _ _ _ (prims_app _ _ _ _ _ Hp1 Hp2) (ew_t _ I) Hst Hck).
    pose proof (taken_count_total i (acts1 ++ acts2)). lia. }
  split; [unfold NvPSFTransportDropPeer; by rewrite Hn|]. intros buf answer. by apply send_lost.
Qed.
