(* ===== verification/TransportFds.v ===== *)
(** * The descriptors of a transport endpoint

    An endpoint closes every descriptor the kernel gave it, once, and none that is
    not its own, whatever the kernel answers and however the calls of its threads
    interleave. *)

From S2P Require Import Prelude Protocol TransportConfig Transport TransportOpen TransportSteps TransportOpened.

Local Open Scope Z_scope.

(** ** Accounts *)

(** The descriptors open after the actions; [None] when one is closed that is not
    open. *)
Fixpoint ledger (fds : gset Z) (acts : list Action) : option (gset Z) :=
  match acts with
  | [] => Some fds
  | FdOpened fd :: rest => ledger ({[fd]} ∪ fds) rest
  | FdClosed fd :: rest => if decide (fd ∈ fds) then ledger (fds ∖ {[fd]}) rest else None
  | _ :: rest => ledger fds rest
  end.

(** The kernel hands out descriptors that are not open. *)
Fixpoint kernel_fresh (fds : gset Z) (acts : list Action) : Prop :=
  match acts with
  | [] => True
  | FdOpened fd :: rest => (fd ∉ fds) /\ kernel_fresh ({[fd]} ∪ fds) rest
  | FdClosed fd :: rest => kernel_fresh (fds ∖ {[fd]}) rest
  | _ :: rest => kernel_fresh fds rest
  end.

#[export] Instance kernel_fresh_dec fds acts : Decision (kernel_fresh fds acts).
Proof. revert fds. induction acts as [|[] acts IH]; intros fds; cbn; apply _. Defined.

Definition keeps_fds (a : Action) : Prop := match a with FdOpened _ | FdClosed _ => False | _ => True end.

Lemma ledger_app fds a b : ledger fds (a ++ b) = fds' ← ledger fds a; ledger fds' b.
Proof. revert fds. induction a as [|x a IH]; intros fds; [done|]. cbn. destruct x; try apply IH. by case_decide. Qed.

Lemma kernel_fresh_app fds a b fds' : ledger fds a = Some fds' ->
  kernel_fresh fds (a ++ b) <-> kernel_fresh fds a /\ kernel_fresh fds' b.
Proof.
  revert fds. induction a as [|x a IH]; intros fds; cbn; [intros [= ->]; tauto|].
  destruct x; try apply IH; [intros H; rewrite (IH _ H); tauto|]. case_decide; [apply IH|done].
Qed.

(** What holds of the first part of a trace carries the whole, whether or not the
    first part is known to balance. *)
Lemma kernel_fresh_prefix fds a b : kernel_fresh fds (a ++ b) -> kernel_fresh fds a.
Proof. revert fds. induction a as [|x a IH]; intros fds; cbn; [done|]. destruct x; try apply IH. intros [? ?]. auto. Qed.

Lemma ledger_keeps fds acts : Forall keeps_fds acts -> ledger fds acts = Some fds /\ kernel_fresh fds acts.
Proof. induction 1 as [|a l Ha _ IH]; [done|]. by destruct a. Qed.

(** ** What an endpoint holds *)

Definition held (fd : Z) : list Z := if fd =? NVPSF_FD_INVALID then [] else [fd].
Definition peer_fds (peers : list NvPSFPeerSlot) : list Z := concat (map (fun s => held (ps_fd s)) peers).
Definition owned (t : NvPSFTransport) : list Z := peer_fds (tp_peers t) ++ held (tp_listenFd t) ++ held (tp_udpFd t).
Definition owns (t : NvPSFTransport) (fds : gset Z) : Prop := NoDup (owned t) /\ fds = list_to_set (owned t).

Lemma peer_fds_put peers i s s' : peers !! i = Some s ->
  held (ps_fd s) ++ peer_fds (<[i := s']> peers) ≡ₚ held (ps_fd s') ++ peer_fds peers.
Proof.
  intros Hi. rewrite <- (take_drop_middle peers i s Hi) at 2. rewrite insert_take_drop by (by eapply lookup_lt_Some).
  unfold peer_fds. rewrite !map_app, !concat_app. cbn [map concat]. solve_Permutation.
Qed.

Lemma owned_put t i s s' : tp_peers t !! i = Some s ->
  held (ps_fd s) ++ owned (set_peers (<[i := s']> (tp_peers t)) t) ≡ₚ held (ps_fd s') ++ owned t.
Proof. intros Hi. unfold owned. cbn. rewrite !app_assoc. by rewrite (peer_fds_put _ _ _ s' Hi). Qed.

Lemma owns_same t t' fds : tp_peers t' = tp_peers t -> config t' = config t -> owns t fds -> owns t' fds.
Proof.
  intros Hp Hc. apply config_eq in Hc as (_ & _ & _ & _ & _ & _ & Hl & Hu & _).
  unfold owns, owned. by rewrite Hp, Hl, Hu.
Qed.

Lemma owns_perm t l fds : owned t ≡ₚ l -> owns t fds <-> NoDup l /\ fds = list_to_set l.
Proof. intros Hp. unfold owns. rewrite (list_to_set_perm_L (C := gset Z) _ _ Hp). by rewrite Hp. Qed.

Lemma held_valid fd : 0 <= fd -> held fd = [fd].
Proof. intros H. unfold held, NVPSF_FD_INVALID. destruct (Z.eqb_spec fd (-1)); [lia|done]. Qed.

Lemma held_cases fd : held fd = [] \/ held fd = [fd].
Proof. unfold held. case_match; auto. Qed.

(** A slot takes a new descriptor, or gives its own back. *)
Lemma owns_take t i s s' fd fds : tp_peers t !! i = Some s -> ps_fd s = NVPSF_FD_INVALID -> ps_fd s' = fd -> 0 <= fd ->
  fd ∉ fds -> owns t fds -> owns (set_peers (<[i := s']> (tp_peers t)) t) ({[fd]} ∪ fds).
Proof.
  intros Hi Hs Hs' Hfd Hn [Hnd ->]. pose proof (owned_put t i s s' Hi) as Hp. rewrite Hs, Hs', (held_valid fd) in Hp by done.
  apply (owns_perm _ _ _ Hp). split; [|done]. cbn. apply NoDup_cons. split; [|done]. by rewrite elem_of_list_to_set in Hn.
Qed.

Lemma owns_keep t i s s' fds : tp_peers t !! i = Some s -> ps_fd s' = ps_fd s -> owns t fds ->
  owns (set_peers (<[i := s']> (tp_peers t)) t) fds.
Proof.
  intros Hi Hs' H. pose proof (owned_put t i s s' Hi) as Hp. rewrite Hs' in Hp. apply Permutation_app_inv_l in Hp.
  by apply (owns_perm _ _ _ Hp).
Qed.

Lemma owns_give t i s s' fds : tp_peers t !! i = Some s -> ps_fd s' = NVPSF_FD_INVALID -> owns t fds ->
  exists fds', ledger fds (close_fd (ps_fd s)) = Some fds' /\ owns (set_peers (<[i := s']> (tp_peers t)) t) fds'.
Proof.
  intros Hi Hs' H. pose proof (owned_put t i s s' Hi) as Hp. rewrite Hs' in Hp. unfold close_fd. unfold held in Hp at 1.
  case_match.
  - exists fds. split; [done|]. by apply (owns_perm _ _ _ Hp).
  - cbn in Hp. symmetry in Hp. apply (owns_perm _ _ _ Hp) in H as [Hnd ->]. apply NoDup_cons in Hnd as [Hnot Hnd].
    cbn. rewrite decide_True by set_solver. eexists. split; [done|]. split; [done|]. set_solver.
Qed.

(** ** The accounts of a run *)

Definition balanced (t : NvPSFTransport) (acts : list Action) (t' : NvPSFTransport) : Prop :=
  forall fds, owns t fds -> kernel_fresh fds acts -> exists fds', ledger fds acts = Some fds' /\ owns t' fds'.

Lemma keeps_diag diag : Forall is_diag diag -> Forall keeps_fds diag.
Proof. intros H. eapply Forall_impl; [done|]. by intros []. Qed.

Lemma balanced_same t acts t' : Forall keeps_fds acts -> tp_peers t' = tp_peers t -> config t' = config t -> balanced t acts t'.
Proof. intros Hk Hp Hc fds Ho _. exists fds. split; [by apply ledger_keeps|by eapply owns_same]. Qed.

Lemma balanced_refuse t t' fd acts : Forall keeps_fds acts -> tp_peers t' = tp_peers t -> config t' = config t ->
  balanced t (FdOpened fd :: acts ++ [FdClosed fd]) t'.
Proof.
  intros Hk Hp Hc fds Ho [Hf _]. exists fds. split; [|by eapply owns_same]. cbn. rewrite ledger_app.
  destruct (ledger_keeps ({[fd]} ∪ fds) acts Hk) as [-> _]. cbn. rewrite decide_True by set_solver. f_equal. set_solver.
Qed.

Lemma prim_balanced t acts t' : tp_wf t -> prim t acts t' -> balanced t acts t'.
Proof.
  intros I Hp. destruct Hp as [fd nowMs report diag t _ Hd|nowMs report diag t Hd|diag t Hd|fd nowMs cred j t t1 t2 Hfd _ _ Ha Hs
    |nowMs src j t t1 t2 Hk _ _ _ Ha Hs|j s t Hs Hu|j s t Hs Hu|cursor t Hc|fd dest buf t].
  - apply (balanced_refuse _ _ _ (ClockRead nowMs :: diag)); [constructor; [done|by apply keeps_diag]|apply rate_step_peers..].
  - apply balanced_same; [constructor; [done|by apply keeps_diag]|apply rate_step_peers..].
  - apply balanced_same; [by apply keeps_diag|apply report_source_peers..].
  - pose proof (wf_admission _ _ _ _ I Ha) as I1. apply admission_peers in Ha as (Hp & Hc & _).
    apply slotAcquire_Some in Hs as (s & Hs & Hu & ->). intros fds Ho [Hf _]. cbn. eexists. split; [done|].
    eapply owns_take; [done| |done|done|done|by eapply owns_same].
    pose proof (wf_slots _ I1 j s Hs) as [_ Hok]. rewrite Hu in Hok. apply Hok.
  - apply admission_peers in Ha as (Hp & Hc & _). apply slotAcquire_Some in Hs as (s & Hs & Hu & ->).
    intros fds Ho _. cbn. eexists. split; [done|]. eapply owns_keep; [done| |by eapply owns_same]. cbn.
    rewrite Hp in Hs. pose proof (wf_slots _ I j s Hs) as [_ Hok]. rewrite Hu in Hok. symmetry. apply Hok.
  - intros fds Ho _. unfold slotRelease. rewrite Hs. by eapply owns_give.
  - intros fds Ho _. exists fds. split; [done|]. by eapply owns_keep.
  - by apply balanced_same.
  - apply balanced_same; [by repeat constructor|done..].
Qed.

Lemma prims_balanced t acts t' : prims t acts t' -> tp_wf t -> balanced t acts t'.
Proof.
  induction 1 as [t|t a t1 b t2 Hp _ IH]; intros I fds Ho Hf; [by exists fds|].
  pose proof (prim_balanced _ _ _ I Hp fds Ho (kernel_fresh_prefix _ _ _ Hf)) as (fds1 & E1 & Ho1).
  pose proof (proj1 (kernel_fresh_app _ _ _ _ E1) Hf) as [_ Hb].
  destruct (IH (prim_wf _ _ _ I Hp) fds1 Ho1 Hb) as (fds2 & E2 & Ho2). exists fds2. by rewrite ledger_app, E1.
Qed.

(** ** Opening and closing *)

Lemma close_held fds fd rest : ledger fds (close_fd fd ++ rest) =
  match held fd with [] => ledger fds rest | _ => if decide (fd ∈ fds) then ledger (fds ∖ {[fd]}) rest else None end.
Proof. unfold close_fd, held. by case_match. Qed.

(** Closing a list of distinct open descriptors closes them all. *)
Lemma ledger_closes (fs : list Z) (fds : gset Z) : NoDup (concat (map held fs)) ->
  list_to_set (concat (map held fs)) ⊆ fds ->
  ledger fds (concat (map close_fd fs)) = Some (fds ∖ list_to_set (concat (map held fs))).
Proof.
  revert fds. induction fs as [|fd fs IH]; intros fds; cbn [map concat]; [intros; cbn; f_equal; set_solver|].
  rewrite close_held. destruct (held fd) as [|x l] eqn:Eh; [by apply IH|].
  assert (x = fd /\ l = []) as [-> ->] by (unfold held in Eh; case_match; by simplify_eq).
  cbn. intros [Hn Hnd]%NoDup_cons Hs. rewrite decide_True by set_solver.
  rewrite IH by (done || set_solver). f_equal. set_solver.
Qed.

Lemma close_actions t : exists tail, Forall keeps_fds tail /\
  NvPSFTransportClose t = concat (map close_fd (map ps_fd (tp_peers t) ++ [tp_listenFd t; tp_udpFd t])) ++ tail.
Proof.
  exists (if tp_pathBound t then [Unlinked (tp_unixPath t)] else []). split; [case_match; by repeat constructor|].
  unfold NvPSFTransportClose. rewrite map_app, concat_app, map_map. cbn. by rewrite app_nil_r, <- !app_assoc.
Qed.

Lemma owned_list t : owned t = concat (map held (map ps_fd (tp_peers t) ++ [tp_listenFd t; tp_udpFd t])).
Proof. unfold owned, peer_fds. rewrite map_app, concat_app, map_map. cbn. by rewrite app_nil_r. Qed.

(** Closing gives back everything. *)
Lemma close_balanced t fds : owns t fds -> ledger fds (NvPSFTransportClose t) = Some ∅.
Proof.
  intros [Hnd ->]. destruct (close_actions t) as (tail & Hk & ->). rewrite owned_list in *.
  rewrite ledger_app, ledger_closes by done. cbn. rewrite difference_diag_L. by apply ledger_keeps.
Qed.

(** What an opening owns on the way: nothing but what its endpoint holds. *)
Lemma blank_peer_fds t : blank t -> peer_fds (tp_peers t) = [].
Proof. intros B. rewrite (bk_peers _ B). unfold peer_fds. by induction (Z.to_nat (tp_maxPeers t)). Qed.

Lemma blank_owned t : blank t -> tp_listenFd t = NVPSF_FD_INVALID -> tp_udpFd t = NVPSF_FD_INVALID -> owned t = [].
Proof.
  intros B Hl Hu. unfold owned. by rewrite Hl, Hu, (blank_peer_fds _ B).
Qed.

Lemma blank_owns t : blank t -> tp_listenFd t = NVPSF_FD_INVALID -> tp_udpFd t = NVPSF_FD_INVALID -> owns t ∅.
Proof. intros B Hl Hu. unfold owns. rewrite blank_owned by done. split; [constructor|done]. Qed.

Lemma bind_path_keeps path w acts b fds : bind_path path w = (acts, b) -> kernel_fresh fds acts -> ledger fds acts = Some fds.
Proof.
  unfold bind_path. destruct (ow_bind w) as [e|]; [|intros; by simplify_eq].
  destruct (negb (bool_decide (e = EADDRINUSE))); [intros; by simplify_eq|].
  set (probed := if 0 <=? ow_probe w then [FdOpened (ow_probe w); FdClosed (ow_probe w)] else []).
  assert (Hp : forall tail, Forall keeps_fds tail -> kernel_fresh fds (probed ++ tail) -> ledger fds (probed ++ tail) = Some fds).
  { intros tail Hk. unfold probed. case_match; cbn; [|by intros; apply ledger_keeps]. intros [Hn _].
    rewrite decide_True by set_solver. replace (({[ow_probe w]} ∪ fds) ∖ {[ow_probe w]}) with fds by set_solver.
    by apply ledger_keeps. }
  pose proof (Hp [] (Forall_nil_2 _)) as Hp0. rewrite app_nil_r in Hp0.
  clearbody probed. intros H. repeat case_match; simplify_eq; first [by apply Hp0 | by apply Hp; repeat constructor].
Qed.

Definition opening (acts : list Action) (t : NvPSFTransport) : Prop :=
  kernel_fresh ∅ acts -> exists fds, ledger ∅ acts = Some fds /\ owns t fds.

Lemma opening_none t : owned t = [] -> opening [] t.
Proof. intros Ho _. exists ∅. split; [done|]. unfold owns. rewrite Ho. split; [constructor|done]. Qed.

(** A socket that is closed again. *)
Lemma opening_fails fd acts t : owned t = [] -> (forall fds, kernel_fresh fds acts -> ledger fds acts = Some fds) ->
  opening (FdOpened fd :: acts ++ [FdClosed fd]) t.
Proof.
  intros Ho Hk [_ Hf]. exists ∅. unfold owns. rewrite Ho. split; [|split; [constructor|done]]. cbn.
  rewrite ledger_app, Hk by (by eapply kernel_fresh_prefix). cbn. rewrite decide_True by set_solver. f_equal. set_solver.
Qed.

Lemma opening_fails_at_once fd t : owned t = [] -> opening [FdOpened fd; FdClosed fd] t.
Proof. intros Ho. by apply (opening_fails fd []). Qed.

(** A socket that the endpoint keeps. *)
Lemma opening_keeps fd acts t : owned t = [fd] -> (forall fds, kernel_fresh fds acts -> ledger fds acts = Some fds) ->
  opening (FdOpened fd :: acts) t.
Proof.
  intros Ho Hk [_ Hf]. exists {[fd]}. unfold owns. rewrite Ho. rewrite union_empty_r_L in Hf. cbn. rewrite union_empty_r_L.
  split; [by apply Hk|]. split; [apply NoDup_singleton|]. cbn. set_solver.
Qed.

Lemma keeps_ledger acts : Forall keeps_fds acts -> forall fds, kernel_fresh fds acts -> ledger fds acts = Some fds.
Proof. intros Hk fds _. by apply ledger_keeps. Qed.

Lemma owned_acquire fill t i t' : blank t -> tp_listenFd t = NVPSF_FD_INVALID -> tp_udpFd t = NVPSF_FD_INVALID ->
  slotAcquire fill t = Some (i, t') -> owned t' = held (ps_fd (fill (taken empty_slot))).
Proof.
  intros B Hl Hu H. apply slotAcquire_Some in H as (s & Hs & _ & ->). pose proof (blank_slot _ _ _ B Hs). subst s.
  pose proof (owned_put t i _ (fill (taken empty_slot)) Hs) as Hp. rewrite (blank_owned t B Hl Hu), app_nil_r in Hp. cbn in Hp.
  destruct (held_cases (ps_fd (fill (taken empty_slot)))) as [E|E]; rewrite E in *;
    [by apply Permutation_nil_r in Hp|by apply Permutation_singleton_r in Hp].
Qed.

Section Openings.
Variables (cfg : NvPSFTransportCfg) (w : OpenWorld) (t t' : NvPSFTransport) (acts : list Action) (err : NvPSFTransportErr).
Hypotheses (B : blank t) (Hl : tp_listenFd t = NVPSF_FD_INVALID) (Hu : tp_udpFd t = NVPSF_FD_INVALID).

Lemma openUnixServer_opening : openUnixServer cfg w t = (t', acts, err) -> opening acts t'.
Proof.
  pose proof (blank_owned t B Hl Hu) as Ho. unfold openUnixServer.
  destruct (Z.ltb_spec (ow_socket w) 0); [intros; simplify_eq; by apply opening_none|].
  destruct (bind_path (tp_unixPath t) w) as [bacts bound] eqn:Eb.
  pose proof (fun fds => bind_path_keeps _ _ _ _ fds Eb) as Hk.
  destruct bound; cbn [negb]; [|intros; simplify_eq; by apply opening_fails].
  repeat (case_match; [intros; simplify_eq; by apply opening_fails|]). intros; simplify_eq.
  apply opening_keeps; [|done]. change (owned _) with (peer_fds (tp_peers t) ++ held (ow_socket w) ++ held (tp_udpFd t)).
  by rewrite Hu, (blank_peer_fds _ B), (held_valid (ow_socket w)).
Qed.

Lemma openUnixClient_opening : openUnixClient cfg w t = (t', acts, err) -> opening acts t'.
Proof.
  pose proof (blank_owned t B Hl Hu) as Ho. unfold openUnixClient.
  destruct (Z.ltb_spec (ow_socket w) 0); [intros; simplify_eq; by apply opening_none|].
  case_match; [intros; simplify_eq; by apply opening_fails_at_once|].
  destruct (ow_connect w); [intros; simplify_eq; by apply opening_fails_at_once|].
  destruct (checkPeerCred _ _) as [cred|]; [|intros; simplify_eq; by apply opening_fails_at_once].
  destruct (slotAcquire _ t) as [[i t1]|] eqn:Es; [|intros; simplify_eq; by apply opening_fails_at_once].
  intros; simplify_eq. apply owned_acquire in Es; [|done..]. apply opening_keeps; [|apply keeps_ledger; by repeat constructor].
  rewrite Es. by apply held_valid.
Qed.

Lemma openUdp_opening : openUdp cfg w t = (t', acts, err) -> opening acts t'.
Proof.
  pose proof (blank_owned t B Hl Hu) as Ho. unfold openUdp.
  destruct (udp_allow cfg t) as [allow|]; [|intros; simplify_eq; by apply opening_none].
  set (t1 := set_path _ _ _). assert (blank t1) as B1 by by apply set_path_blank. assert (owned t1 = []) as Ho1 by done.
  destruct (cfg_inetAddr cfg); [|intros; simplify_eq; by apply opening_none].
  case_match; [intros; simplify_eq; by apply opening_none|].
  destruct (inet_pton _) as [a|]; [|intros; simplify_eq; by apply opening_none].
  destruct (Z.ltb_spec (ow_socket w) 0); [intros; simplify_eq; by apply opening_none|].
  case_match; [intros; simplify_eq; by apply opening_fails_at_once|]. unfold attach_udp. case_match.
  - destruct (ow_bind w); [intros; simplify_eq; by apply opening_fails_at_once|]. intros; simplify_eq.
    apply opening_keeps; [|apply keeps_ledger; by repeat constructor].
    change (owned _) with (peer_fds (tp_peers t) ++ held (tp_listenFd t) ++ held (ow_socket w)).
    by rewrite Hl, (blank_peer_fds _ B), (held_valid (ow_socket w)).
  - destruct (ow_connect w); [intros; simplify_eq; by apply opening_fails_at_once|].
    destruct (slotAcquire _ t1) as [[i t2]|] eqn:Es; [|intros; simplify_eq; by apply opening_fails_at_once].
    intros; simplify_eq. apply opening_keeps; [|apply keeps_ledger; by repeat constructor].
    pose proof (owned_acquire _ _ _ _ B1 Hl Hu Es) as Hown. apply slotAcquire_Some in Es as (s & _ & _ & ->).
    unfold owned in Hown |- *. cbn [set_sockets tp_peers tp_listenFd tp_udpFd set_peers] in *.
    apply app_eq_nil in Hown as [-> Hlu]. change (tp_listenFd t1) with (tp_listenFd t). by rewrite Hl, (held_valid (ow_socket w)).
Qed.

End Openings.

(** The endpoint of an opening owns what was opened; an opening that fails has
    closed everything. *)
Lemma open_balanced cfg w err o acts : 0 <= cfg_maxPeers cfg -> 0 <= cfg_maxMessageBytes cfg ->
  NvPSFTransportOpen (Some cfg) w = (err, o, acts) -> kernel_fresh ∅ acts ->
  match o with
  | Some t => exists fds, ledger ∅ acts = Some fds /\ owns t fds
  | None => ledger ∅ acts = Some ∅
  end.
Proof.
  intros Hp Hb. unfold NvPSFTransportOpen.
  destruct (validateCfg (Some cfg)) eqn:Ev; try (intros; by simplify_eq). case_match; [intros; by simplify_eq|].
  pose proof (fresh_blank cfg (ow_nowMs w) Hp Hb Ev) as B.
  destruct (open_kind _ _ _) as [[t acts1] err1] eqn:Eo.
  assert (opening acts1 t) as Hop.
  { unfold open_kind in Eo. pose proof (blank_owned _ B eq_refl eq_refl) as Hown. repeat case_match; simplify_eq;
      try by apply opening_none.
    - eapply openUnixServer_opening; [by apply set_path_blank|done..].
    - eapply openUnixClient_opening; [by apply set_path_blank|done..].
    - eapply openUdp_opening; [exact B|done..]. }
  case_decide; intros; simplify_eq; [by apply Hop|].
  destruct Hop as (fds & Hled & Hown); [by eapply kernel_fresh_prefix|]. rewrite ledger_app, Hled. by apply close_balanced.
Qed.

(** C10. The descriptors of an endpoint balance: after an opening and any calls of
    any threads, exactly the descriptors in its slots and its sockets are open,
    none was closed twice or without being its own, and closing the endpoint gives
    all of them back.  The kernel is assumed to hand out descriptors that are not
    open. *)
Theorem descriptors_balance cfg w t acts0 ops ep acts1 tolds :
  0 <= cfg_maxPeers cfg -> 0 <= cfg_maxMessageBytes cfg ->
  NvPSFTransportOpen (Some cfg) w = (NVPSF_TRANSPORT_OK, Some t, acts0) ->
  ep_run ops {| ep_t := t; ep_polls := ∅ |} = Some (ep, acts1, tolds) ->
  kernel_fresh ∅ (acts0 ++ acts1) ->
  ledger ∅ (acts0 ++ acts1) = Some (list_to_set (owned (ep_t ep))) /\ NoDup (owned (ep_t ep)) /\
  ledger ∅ (acts0 ++ acts1 ++ NvPSFTransportClose (ep_t ep)) = Some ∅.
Proof.
  intros Hp Hb Ho Hr Hf. pose proof (open_wf _ _ _ _ Hp Hb Ho) as I.
  pose proof (open_balanced _ _ _ _ _ Hp Hb Ho (kernel_fresh_prefix _ _ _ Hf)) as (fds & Hled & Hown).
  pose proof (proj1 (kernel_fresh_app _ _ _ _ Hled) Hf) as [_ Hf1].
  destruct (ep_run_prims _ _ _ _ _ (opened_wf _ I) Hr) as [Hprims _]. cbn in Hprims.
  destruct (prims_balanced _ _ _ Hprims I fds Hown Hf1) as (fds1 & Hled1 & Hown1).
  assert (ledger ∅ (acts0 ++ acts1) = Some fds1) as Hall by by rewrite ledger_app, Hled.
  split_and!; [rewrite Hall; f_equal; apply Hown1|apply Hown1|].
  rewrite app_assoc, ledger_app, Hall. by apply close_balanced.
Qed.
