(* ===== verification/TransportPeers.v ===== *)
(** * An endpoint as a set of peers

    The daemons see an endpoint as the set of peers it has a slot for: polling and
    receiving add and remove peers, a send reaches a peer of the set.  [told_step]
    states that contract on what the callers are told; the slot table with its
    generations implements it in every run. *)

From S2P Require Import Prelude Protocol TransportConfig Transport TransportOpen TransportSteps TransportOpened TransportSafety.

Local Open Scope Z_scope.

(** ** The contract *)

Inductive event_step (unix : bool) : gset Z -> NvPSFTransportEvent -> gset Z -> Prop :=
| es_connected L p : p ∉ L -> p <> NVPSF_PEER_INVALID ->
    event_step unix L (peer_event NVPSF_EVENT_PEER_CONNECTED p) (L ∪ {[p]})
| es_gone L p : p ∈ L -> event_step unix L (peer_event NVPSF_EVENT_PEER_GONE p) (L ∖ {[p]})
| es_ready L p : (unix = true -> p ∈ L) -> event_step unix L (peer_event NVPSF_EVENT_MESSAGE_READY p) L.

Inductive events_step (unix : bool) : gset Z -> list NvPSFTransportEvent -> gset Z -> Prop :=
| ess_nil L : events_step unix L [] L
| ess_cons L e L1 es L2 : event_step unix L e L1 -> events_step unix L1 es L2 -> events_step unix L (e :: es) L2.

(** On a connection a message comes from a peer of the set; on UDP the source of an
    accepted datagram joins it. *)
Inductive told_step (unix : bool) : gset Z -> Told -> gset Z -> Prop :=
| ts_polled L err es L' : events_step unix L es L' -> told_step unix L (TPolled err es) L'
| ts_received L r :
    rv_err r = NVPSF_TRANSPORT_OK -> (unix = true -> rv_from r ∈ L) -> rv_from r <> NVPSF_PEER_INVALID ->
    told_step unix L (TReceived r) (L ∪ {[rv_from r]})
| ts_lost L r : rv_err r = NVPSF_TRANSPORT_PEER_GONE -> rv_from r ∈ L -> told_step unix L (TReceived r) (L ∖ {[rv_from r]})
| ts_not_received L r : rv_err r <> NVPSF_TRANSPORT_OK -> told_step unix L (TReceived r) L
| ts_sent L p err : (err = NVPSF_TRANSPORT_OK -> p ∈ L) -> told_step unix L (TSent p err) L
| ts_dropped L p : p ∈ L -> told_step unix L (TDropped p NVPSF_TRANSPORT_OK) (L ∖ {[p]})
| ts_not_dropped L p : p ∉ L -> told_step unix L (TDropped p NVPSF_TRANSPORT_PEER_GONE) L
| ts_nothing L : told_step unix L TNothing L.

Lemma events_step_app unix L es1 L1 es2 L2 :
  events_step unix L es1 L1 -> events_step unix L1 es2 L2 -> events_step unix L (es1 ++ es2) L2.
Proof. induction 1; cbn; [done|]. econstructor; eauto. Qed.

Lemma events_step_one unix L e L' : event_step unix L e L' -> events_step unix L [e] L'.
Proof. intros H. econstructor; [done|constructor]. Qed.

(** ** The set and the slots *)

Definition is_unix (t : NvPSFTransport) : bool := tp_kind t =? NVPSF_TRANSPORT_UNIX_SOCKET.

Lemma live_same t t' : tp_peers t' = tp_peers t -> live t' = live t.
Proof. unfold live. by intros ->. Qed.

Lemma id_at_slot i s t : tp_peers t !! i = Some s -> id_at i t = peerIdMake (Z.of_nat i) (ps_generation s).
Proof. intros H. unfold id_at, generation_at. by rewrite H. Qed.

Lemma id_at_live i s t : tp_peers t !! i = Some s -> ps_inUse s = true -> id_at i t ∈ live t.
Proof. intros Hi Hu. rewrite (id_at_slot _ _ _ Hi). apply elem_of_live. eauto. Qed.

(** A slot that is freed takes its id out of the set. *)
Lemma live_free t i s s' : tp_wf t -> tp_peers t !! i = Some s -> ps_inUse s' = false -> 
  live (set_peers (<[i := s']> (tp_peers t)) t) = live t ∖ {[id_at i t]}.
Proof.
  intros I Hi Hf. rewrite (id_at_slot _ _ _ Hi). apply set_eq. intros p. rewrite elem_of_difference, elem_of_singleton, !elem_of_live. cbn.
  split.
  - intros (j & u & Hj & Hu & ->). apply list_lookup_insert_Some in Hj as [(<- & <- & _)|[Hne Hj]]; [congruence|].
    split; [by exists j, u|]. intros E. symmetry in E. by apply (slot_id_inj t) in E.
  - intros [(j & u & Hj & Hu & ->) Hne]. exists j, u. split_and!; [|done..].
    rewrite list_lookup_insert_ne; [done|]. intros <-. simplify_eq.
Qed.

(** A free slot that is taken brings an id that was not there. *)
Lemma live_taken t i s s' : tp_wf t -> tp_peers t !! i = Some s -> ps_inUse s = false -> ps_inUse s' = true ->
  0 <= ps_generation s' <= 65535 ->
  let t' := set_peers (<[i := s']> (tp_peers t)) t in live t' = live t ∪ {[id_at i t']} /\ id_at i t' ∉ live t.
Proof.
  intros I Hi Hf Hu' Hg t'. assert (Hi' : tp_peers t' !! i = Some s') by (apply list_lookup_insert_eq; by eapply lookup_lt_Some).
  rewrite (id_at_slot _ _ _ Hi'). split.
  - apply set_eq. intros p. rewrite elem_of_union, elem_of_singleton, !elem_of_live. cbn. split.
    + intros (j & u & Hj & Hu & ->). apply list_lookup_insert_Some in Hj as [(<- & <- & _)|[Hne Hj]]; [by right|left]. eauto.
    + intros [(j & u & Hj & Hu & ->)| ->]; [|by exists i, s'].
      exists j, u. split_and!; [|done..]. rewrite list_lookup_insert_ne; [done|]. intros <-. congruence.
  - rewrite elem_of_live. intros (j & u & Hj & Hu & E).
    destruct (slot_bounds t j u I Hj) as (_ & ? & ?). destruct (slot_bounds t i s I Hi) as (_ & ? & ?).
    rewrite !peerIdMake_eq in E by lia. assert (i = j) as -> by lia. congruence.
Qed.

Lemma live_kept t i s s' : tp_peers t !! i = Some s -> ps_inUse s' = ps_inUse s -> ps_generation s' = ps_generation s ->
  live (set_peers (<[i := s']> (tp_peers t)) t) = live t.
Proof.
  intros Hi Hu Hg. apply set_eq. intros p. rewrite !elem_of_live. cbn. split.
  - intros (j & u & Hj & Huj & ->). apply list_lookup_insert_Some in Hj as [(<- & <- & _)|[Hne Hj]]; [|by eauto].
    exists i, s. by rewrite <- Hu, Hg.
  - intros (j & u & Hj & Huj & ->). destruct (decide (i = j)) as [<-|Hne].
    + simplify_eq. exists i, s'. rewrite list_lookup_insert_eq by (by eapply lookup_lt_Some). by rewrite Hu, Hg.
    + exists j, u. by rewrite list_lookup_insert_ne.
Qed.

Lemma live_release t i s t' acts : tp_wf t -> tp_peers t !! i = Some s -> slotRelease i t = (t', acts) ->
  live t' = live t ∖ {[id_at i t]}.
Proof. intros I Hi. unfold slotRelease. rewrite Hi. intros; simplify_eq. by eapply live_free. Qed.

(** The id of a slot that was handed out. *)
Lemma live_acquire fill t i t' : tp_wf t -> slotAcquire fill t = Some (i, t') ->
  (forall s, ps_inUse (fill s) = ps_inUse s /\ ps_generation (fill s) = ps_generation s) ->
  live t' = live t ∪ {[id_at i t']} /\ (id_at i t' ∉ live t) /\ id_at i t' <> NVPSF_PEER_INVALID.
Proof.
  intros I H Hfill. apply slotAcquire_Some in H as (s & Hi & Hf & ->). destruct (Hfill (taken s)) as [Hu Hg].
  assert (0 <= ps_generation (fill (taken s)) <= 65535) as Hr.
  { rewrite Hg. cbn. destruct (slot_bounds t i s I Hi) as (_ & _ & Hr). pose proof (next_generation_range _ Hr). lia. }
  destruct (live_taken t i s (fill (taken s)) I Hi Hf Hu Hr) as [Hl Hn]. split_and!; [done..|].
  destruct (slot_bounds t i s I Hi) as (_ & ? & _). rewrite (id_at_slot _ (fill (taken s))).
  - rewrite peerIdMake_eq by lia. unfold NVPSF_PEER_INVALID, UINT32_MAX. lia.
  - apply list_lookup_insert_eq. by eapply lookup_lt_Some.
Qed.

(** ** The table implements the contract *)

Lemma with_connection_keeps fd cred s :
  ps_inUse (with_connection fd cred s) = ps_inUse s /\ ps_generation (with_connection fd cred s) = ps_generation s.
Proof. done. Qed.
Lemma with_address_keeps addr s :
  ps_inUse (with_address addr s) = ps_inUse s /\ ps_generation (with_address addr s) = ps_generation s.
Proof. done. Qed.
#[local] Hint Resolve with_connection_keeps with_address_keeps : safety_core.

Lemma acceptOne_events unix answer t t' acts o : tp_wf t -> acceptOne answer t = (t', acts, o) ->
  events_step unix (live t) (from_option (fun e => [e]) [] o) (live t').
Proof.
  intros I. unfold acceptOne. case_match; [intros; simplify_eq; constructor|].
  destruct (admissionRateAllows (aa_nowMs answer) t) as [allowed t1] eqn:Ea.
  pose proof (wf_admission _ _ _ _ I Ea) as I1. apply admission_peers in Ea as (Hp & _ & _).
  rewrite <- (live_same _ _ Hp). destruct allowed; cbn [negb].
  - destruct (checkPeerCred _ _) as [cred|]; [|intros; simplify_eq; constructor].
    destruct (slotAcquire _ t1) as [[i t2]|] eqn:Es; [|intros; simplify_eq; constructor]. intros; simplify_eq.
    destruct (live_acquire _ _ _ _ I1 Es) as (Hl & Hn & Hv); [auto with safety_core|].
    rewrite Hl. by apply events_step_one, es_connected.
  - destruct (report_denial t1) as [t2 report] eqn:Ed. intros; simplify_eq. cbn.
    destruct (report_denial_peers t1) as (Hp2 & _ & _). rewrite Ed in Hp2. cbn in Hp2. rewrite <- (live_same _ _ Hp2). constructor.
Qed.

Lemma accept_loop_events unix room answers t t' acts es : tp_wf t -> tp_kind t = NVPSF_TRANSPORT_UNIX_SOCKET ->
  accept_loop room answers t = (t', acts, es) -> events_step unix (live t) es (live t').
Proof.
  revert room t t' acts es. induction answers as [|answer rest IH]; intros [|room] t t' acts es I Hk; cbn;
    try (intros; simplify_eq; by constructor).
  destruct (acceptOne answer t) as [[t1 acts1] o] eqn:E. pose proof (acceptOne_prims _ _ _ _ _ Hk E) as Hp.
  apply (acceptOne_events unix) in E; [|done]. destruct o as [e|]; [|intros; by simplify_eq].
  destruct (accept_loop room rest t1) as [[t2 acts2] es2] eqn:E2. intros; simplify_eq.
  apply (events_step_app _ _ [e] _ _ _ E). eapply IH; [| |done]; [by eapply prims_wf|by eapply prims_kind].
Qed.

Lemma poll_peer_events unix fd slot g revents w t t' acts es : tp_wf t ->
  poll_peer fd slot g revents w t = (t', acts, es) -> events_step unix (live t) es (live t').
Proof.
  intros I. unfold poll_peer. destruct (tp_peers t !! slot) as [s|] eqn:Es; [|intros; simplify_eq; constructor].
  destruct (same_peer fd g s) eqn:Eg; cbn [negb]; [|intros; simplify_eq; constructor].
  assert (id_at slot t ∈ live t) as Hin by (eapply id_at_live; [done|]; unfold same_peer in Eg; by bool_prop).
  case_match; [|case_match; intros; simplify_eq; [by apply events_step_one, es_ready|constructor]].
  case_match; [intros; simplify_eq; by apply events_step_one, es_ready|].
  destruct (slotRelease slot t) as [t1 acts1] eqn:Er. intros; simplify_eq.
  rewrite (live_release _ _ _ _ _ I Es Er). by apply events_step_one, es_gone.
Qed.

Lemma poll_entry_events room e revents w t t' acts es failed : tp_wf t -> entry_ok t e ->
  poll_entry room e revents w t = (t', acts, es, failed) -> events_step (is_unix t) (live t) es (live t').
Proof.
  intros I He. unfold poll_entry. case_match; [intros; simplify_eq; constructor|]. destruct e as [fd|fd|fd slot g].
  - destruct (accept_loop _ _ _) as [[t1 acts1] es1] eqn:E. intros; simplify_eq. by eapply accept_loop_events.
  - assert (is_unix t = false) as Hu by (unfold is_unix; cbn in He; by rewrite He).
    unfold poll_shared. destruct (has_bits revents POLLIN); intros; simplify_eq; [|constructor]. rewrite Hu. by apply events_step_one, es_ready.
  - destruct (poll_peer _ _ _ _ _ _) as [[t1 acts1] es1] eqn:E. intros; simplify_eq. by eapply poll_peer_events.
Qed.

Lemma prims_unix t acts t' : prims t acts t' -> is_unix t' = is_unix t.
Proof. intros H. apply prims_config, config_eq in H as (Hk & _). unfold is_unix. by rewrite Hk. Qed.

Lemma poll_scan_events room entries w t t' acts es failed : tp_wf t -> Forall (fun e => entry_ok t (fst e)) entries ->
  poll_scan room entries w t = (t', acts, es, failed) -> events_step (is_unix t) (live t) es (live t').
Proof.
  revert room t t' acts es failed. induction entries as [|[e revents] rest IH]; intros room t t' acts es failed I Hf; cbn.
  { destruct room; intros; simplify_eq; constructor. }
  destruct room as [|room]; [intros; simplify_eq; constructor|]. apply Forall_cons in Hf as [He Hr]. cbn in He.
  destruct (poll_entry _ _ _ _ _) as [[[t1 acts1] es1] failed1] eqn:E1.
  pose proof (poll_entry_prims _ _ _ _ _ _ _ _ _ He E1) as Hp. apply poll_entry_events in E1; [|done..].
  destruct (poll_scan _ _ _ _) as [[[t2 acts2] es2] failed2] eqn:E2. intros [= <- <- <- <-].
  eapply events_step_app; [done|]. rewrite <- (prims_unix _ _ _ Hp). eapply IH; [by eapply prims_wf| |done].
  eapply Forall_impl; [done|]. intros x. by apply (entry_ok_prims _ _ _ _ Hp).
Qed.

Lemma recv_loop_told slots rx bufLen t t' acts r : tp_wf t -> tp_kind t = NVPSF_TRANSPORT_UNIX_SOCKET ->
  recv_loop slots rx bufLen t = (t', acts, r) -> told_step (is_unix t) (live t) (TReceived r) (live t').
Proof.
  intros I Hk. revert t' acts r. induction slots as [|slot rest IH]; intros t' acts r; cbn.
  { intros; simplify_eq. by apply ts_not_received. }
  destruct (tp_peers t !! slot) as [s|] eqn:Es; [|by apply IH]. case_match eqn:Eu; [by apply IH|]. bool_prop.
  destruct (recvOnFd (rx slot) bufLen true) as [err got]. case_decide; [by apply IH|].
  assert (id_at slot t ∈ live t) as Hin by by eapply id_at_live.
  destruct (live_valid _ _ I Hin) as [Hv _].
  case_decide as Hgone.
  - destruct (slotRelease slot (set_rrCursor (Z.of_nat slot) t)) as [t2 acts2] eqn:Er. intros; simplify_eq.
    assert (live t' = live t ∖ {[id_at slot t]}) as ->; [|by apply ts_lost].
    unfold slotRelease in Er. cbn [tp_peers set_rrCursor] in Er. rewrite Es in Er. simplify_eq.
    by apply (live_free t slot s).
  - intros; simplify_eq. change (live (set_rrCursor (Z.of_nat slot) t)) with (live t).
    destruct (decide (err = NVPSF_TRANSPORT_OK)) as [->|Hn]; [|by apply ts_not_received].
    replace (live t) with (live t ∪ {[id_at slot t]}) at 2 by set_solver. by apply ts_received.
Qed.

Lemma recvOnFd_none answer bufLen seq err : recvOnFd answer bufLen seq = (err, None) -> err <> NVPSF_TRANSPORT_OK.
Proof. unfold recvOnFd. intros H. repeat case_match; by simplify_eq. Qed.

Lemma admit_source_told nowMs src t t' acts o : tp_wf t -> tp_kind t = NVPSF_TRANSPORT_UDP_SOCKET ->
  admit_source nowMs src t = (t', acts, o) ->
  match o with
  | Some i => live t' = live t ∪ {[id_at i t']} /\ id_at i t' <> NVPSF_PEER_INVALID
  | None => live t' = live t
  end.
Proof.
  intros I Hk. unfold admit_source. case_match; [intros; by simplify_eq|]. case_match.
  { destruct (report_source t) as [t1 acts1] eqn:Er. intros; simplify_eq. destruct (report_source_peers t) as (Hp & _).
    rewrite Er in Hp. by apply live_same. }
  destruct (admissionRateAllows nowMs t) as [allowed t1] eqn:Ea. pose proof (wf_admission _ _ _ _ I Ea) as I1.
  apply admission_peers in Ea as (Hp & _ & _). rewrite <- (live_same _ _ Hp). destruct allowed; cbn [negb].
  - destruct (slotAcquire _ t1) as [[i t2]|] eqn:Es; intros; simplify_eq; [|done].
    destruct (live_acquire _ _ _ _ I1 Es) as (Hl & _ & Hv); [auto with safety_core|]. done.
  - destruct (report_denial t1) as [t2 report] eqn:Ed. intros; simplify_eq.
    destruct (report_denial_peers t1) as (Hp2 & _ & _). rewrite Ed in Hp2. by apply live_same.
Qed.

Lemma recvFromUdp_told answer nowMs bufLen t t' acts r : tp_wf t -> tp_kind t = NVPSF_TRANSPORT_UDP_SOCKET ->
  recvFromUdp answer nowMs bufLen t = (t', acts, r) -> told_step (is_unix t) (live t) (TReceived r) (live t').
Proof.
  intros I Hk. assert (is_unix t = false) as -> by (unfold is_unix; by rewrite Hk). unfold recvFromUdp.
  destruct (recvOnFd answer bufLen false) as [err [[bytes src]|]] eqn:Er.
  2: { intros; simplify_eq. apply ts_not_received. by eapply recvOnFd_none. }
  destruct (slotFindByAddr src t) as [i|] eqn:Ef.
  - intros; simplify_eq. apply find_addr_Some in Ef as (s & Hi & Hu & _).
    assert (id_at i t' ∈ live t') as Hin by by eapply id_at_live. destruct (live_valid _ _ I Hin) as [Hv _].
    replace (live t') with (live t' ∪ {[id_at i t']}) at 2 by set_solver. by apply ts_received.
  - destruct (admit_source nowMs src t) as [[t1 acts1] o] eqn:Ea. apply admit_source_told in Ea; [|done..].
    destruct o as [i|]; intros; simplify_eq.
    + destruct Ea as [-> Hv]. by apply (ts_received false (live t) {| rv_err := _; rv_from := id_at i t'; rv_bytes := bytes |}).
    + rewrite Ea. by apply ts_not_received.
Qed.

Lemma poll_end_told maxEvents snapshot answer w t t' acts es err : tp_wf t -> Forall (entry_ok t) snapshot ->
  poll_end maxEvents snapshot answer w t = (t', acts, es, err) -> events_step (is_unix t) (live t) es (live t').
Proof.
  intros I Hs. unfold poll_end. destruct answer as [e| |revents]; [intros; simplify_eq; constructor..|].
  destruct (poll_scan _ _ _ _) as [[[t1 acts1] es1] failed] eqn:E. intros; simplify_eq.
  eapply poll_scan_events; [done| |done]. apply Forall_forall. intros [e r] He. cbn. rewrite Forall_forall in Hs. apply Hs.
  by apply elem_of_zip_l in He.
Qed.

Lemma send_told peer buf answer t t' acts err : tp_wf t -> is_u32 peer -> NvPSFTransportSend peer buf answer t = (t', acts, err) ->
  live t' = live t /\ (err = NVPSF_TRANSPORT_OK -> peer ∈ live t).
Proof.
  intros I Hp. unfold NvPSFTransportSend. case_match; [intros; by simplify_eq|]. case_match; [intros; by simplify_eq|].
  destruct (slotFor peer t) as [i|] eqn:Ef; [|intros; by simplify_eq].
  pose proof (slotFor_is_live _ _ _ I Hp Ef) as Hin. apply slotFor_Some in Ef as (s & Hs & Hu & _). rewrite Hs.
  assert (Hon : forall fd dest, send_on fd dest buf answer i t = (t', acts, err) ->
    live t' = live t /\ (err = NVPSF_TRANSPORT_OK -> peer ∈ live t)).
  { intros fd dest. unfold send_on. destruct answer as [e|n]; [|intros; by simplify_eq]. rewrite Hs.
    destruct (sendErrnoToResult e s) as [err' s'] eqn:E. intros; simplify_eq. split; [|done].
    apply (live_kept t i s s' Hs); by destruct e; simplify_eq/=. }
  repeat case_match; try (intros; by simplify_eq); by apply Hon.
Qed.

(** The ids a caller may name are those of the type. *)
Definition op_ok (op : TpOp) : Prop :=
  match op with OpSend peer _ _ | OpDrop peer => is_u32 peer | _ => True end.

Lemma ep_step_told op ep ep' acts told : ep_wf ep -> op_ok op -> ep_step op ep = Some (ep', acts, told) ->
  told_step (is_unix (ep_t ep)) (live (ep_t ep)) told (live (ep_t ep')).
Proof.
  intros I Hop. pose proof (ew_t _ I) as It. destruct op as [k timeoutMs maxEvents|k answer w|bufLen w|peer buf answer|peer]; cbn in *.
  - case_match; [done|]. case_match; intros; simplify_eq; [apply ts_polled; constructor|apply ts_nothing].
  - destruct (ep_polls ep !! k) as [[n snapshot]|] eqn:Ek; [|done].
    destruct (poll_end _ _ _ _ _) as [[[t1 acts1] es] err] eqn:E. intros; simplify_eq. cbn. apply ts_polled.
    eapply poll_end_told; [done|by eapply (ew_polls _ I)|done].
  - unfold NvPSFTransportRecv. destruct (bufLen =? 0)%nat; [intros; simplify_eq; by apply ts_not_received|].
    destruct (Z.eqb_spec (tp_kind (ep_t ep)) NVPSF_TRANSPORT_UDP_SOCKET) as [Hk|Hk].
    + destruct (recvFromUdp _ _ _ _) as [[t1 acts1] r] eqn:E. intros; simplify_eq. by eapply recvFromUdp_told.
    + destruct (recv_loop _ _ _ _) as [[t1 acts1] r] eqn:E. intros; simplify_eq. eapply recv_loop_told; [done| |done].
      by destruct (wf_kind _ It).
  - destruct (NvPSFTransportSend _ _ _ _) as [[t1 acts1] err] eqn:E. intros; simplify_eq. cbn.
    apply send_told in E as [-> Hin]; [|done..]. by apply ts_sent.
  - unfold NvPSFTransportDropPeer. destruct (slotFor peer (ep_t ep)) as [i|] eqn:Ef.
    + pose proof (slotFor_is_live _ _ _ It Hop Ef) as Hin. apply slotFor_Some in Ef as (s & Hs & Hu & Hg & Hidx & _).
      destruct (slotRelease i (ep_t ep)) as [t1 acts1] eqn:Er. intros; simplify_eq. cbn.
      rewrite (live_release _ _ _ _ _ It Hs Er). replace (id_at _ (ep_t ep)) with peer; [by apply ts_dropped|].
      rewrite (id_at_slot _ _ _ Hs), Hg, Z2Nat.id; [by rewrite peerId_whole|].
      unfold peerIdSlot, NVPSF_ID_FIELD_MASK. by apply Z.land_nonneg; right.
    + assert (peer ∉ live (ep_t ep)) as Hnot by (intros [j Hj]%live_slotFor; [congruence|done]).
      intros; simplify_eq. by apply ts_not_dropped.
Qed.

(** A run is a sequence of steps of the contract. *)
Inductive told_steps (unix : bool) : gset Z -> list Told -> gset Z -> Prop :=
| tss_nil L : told_steps unix L [] L
| tss_cons L told L1 tolds L2 :
    told_step unix L told L1 -> told_steps unix L1 tolds L2 -> told_steps unix L (told :: tolds) L2.

(** C9. The slot table with its generations implements a set of peers: for every
    run of calls by any threads, with polls that wait while others call, what the
    callers are told is a run of the set.  A connection that is reported is new, a
    peer reported gone or dropped was in the set and leaves it, a message on a
    connection comes from a peer of the set, a send succeeds only to one. *)
Theorem endpoint_refines_peer_set ops ep ep' acts tolds :
  in_use ep -> Forall op_ok ops -> ep_run ops ep = Some (ep', acts, tolds) ->
  told_steps (is_unix (ep_t ep)) (live (ep_t ep)) tolds (live (ep_t ep')).
Proof.
  intros I%endpoint_wf. revert ep ep' acts tolds I. induction ops as [|op ops IH]; intros ep ep' acts tolds I Hok; cbn.
  { intros; simplify_eq. constructor. }
  apply Forall_cons in Hok as [Hop Hok]. destruct (ep_step op ep) as [[[ep1 acts1] told]|] eqn:E; [|done].
  destruct (ep_run ops ep1) as [[[ep2 acts2] tolds2]|] eqn:E2; [|done]. intros; simplify_eq.
  econstructor; [by eapply ep_step_told|]. rewrite <- (prims_unix _ _ _ (ep_step_prims _ _ _ _ _ I E)).
  eapply IH; [by eapply ep_step_wf|done..].
Qed.
