(* ===== verification/TransportLink.v ===== *)
(** * The transport under the link to the decision clients

    [PsdLink] takes the transport as a set of peers and states in its guards what it
    relies on: the peers of one poll are distinct, those reported gone had a slot,
    the id of a new one is held by nobody.  Here the slot table meets those guards.
    An id is held by nobody because the generation of its slot has moved on, which
    needs that the slot did not go through all generations since the holder got its
    id; [gone_ids_reach_nobody] says how long that takes at least. *)

From S2P Require Import Prelude Protocol TransportConfig Transport TransportOpen TransportSteps TransportOpened TransportSafety TransportPeers PsdLink.

Local Open Scope Z_scope.

(** The events of a poll as the link reads them. *)
Definition link_event (e : NvPSFTransportEvent) : PollEvent :=
  match te_kind e with
  | NVPSF_EVENT_PEER_CONNECTED => PeerConnected (te_peer e)
  | NVPSF_EVENT_PEER_GONE => PeerGone (te_peer e)
  | NVPSF_EVENT_MESSAGE_READY => MessageReady
  end.

(** The generation of the slot has moved on [k] times since the id [(i, g)]; a poll
    moves it on at most [NVPSF_ACCEPTS_PER_POLL] times more. *)
Definition recent (t : NvPSFTransport) (i : nat) (g : Z) : Prop :=
  exists k, (k + NVPSF_ACCEPTS_PER_POLL < Z.to_nat 65535)%nat /\ 1 <= g <= 65535 /\
    generation_at i t = Nat.iter k next_generation g.

Definition recent_id (t : NvPSFTransport) (p : Z) : Prop :=
  exists i g, (i < 64)%nat /\ p = peerIdMake (Z.of_nat i) g /\ recent t i g.

Definition recent_entry (t : NvPSFTransport) (e : PollEntry) : Prop :=
  match e with PollPeer _ i g => (i < 64)%nat /\ recent t i g | _ => True end.

(** ** What a poll admits *)

Lemma accept_loop_taken i room answers t t' acts es : accept_loop room answers t = (t', acts, es) ->
  (taken_count i acts <= room)%nat.
Proof.
  revert room t t' acts es. induction answers as [|answer rest IH]; intros [|room] t t' acts es; cbn;
    try (intros; simplify_eq; cbn; lia).
  destruct (acceptOne answer t) as [[t1 acts1] o] eqn:E.
  assert (taken_count i acts1 <= 1)%nat as H1.
  { unfold acceptOne in E. unfold taken_count. repeat case_match; simplify_eq; cbn; try lia.
    - unfold report_denial in *. repeat case_match; simplify_eq; cbn; lia.
    - repeat case_match; cbn; lia. }
  destruct o as [e|]; [|intros; simplify_eq; lia].
  destruct (accept_loop room rest t1) as [[t2 acts2] es2] eqn:E2. intros; simplify_eq.
  apply IH in E2. rewrite taken_count_app. lia.
Qed.

(** An id that a poll brings is not recent. *)
Lemma new_id_not_recent t acts t' p : tp_wf t -> prims t acts t' -> p ∈ live t' -> p ∉ live t ->
  (forall i, taken_count i acts <= NVPSF_ACCEPTS_PER_POLL)%nat -> ~ recent_id t p.
Proof.
  intros I Hp Hin Hnew Hc (i & g & Hi & -> & k & Hk & Hg & Hgen). pose proof (prims_wf _ _ _ Hp I) as I'.
  apply elem_of_live in Hin as (j & s & Hj & Hu & E). destruct (slot_bounds t' j s I' Hj) as (Hm & ? & ?).
  rewrite !peerIdMake_eq in E by lia. assert (i = j) as <- by lia. assert (g = ps_generation s) as -> by lia.
  pose proof (prims_generation i _ _ _ Hp) as Hn. unfold generation_at in Hn at 1. rewrite Hj, Hgen, <- Nat.iter_add in Hn.
  symmetry in Hn. specialize (Hc i). apply generation_returns in Hn; [|lia..].
  assert (k = 0%nat /\ taken_count i acts = 0%nat) as [-> Hz] by lia. cbn in Hgen.
  pose proof (wf_length _ I) as Hlen. pose proof (prims_config _ _ _ Hp) as Hcfg. apply config_eq in Hcfg as (_ & _ & Hmax & _).
  destruct (lookup_lt_is_Some_2 (tp_peers t) i) as [u Hu']; [lia|].
  unfold generation_at in Hgen. rewrite Hu' in Hgen. destruct (ps_inUse u) eqn:Euse.
  - apply Hnew, elem_of_live. exists i, u. by rewrite Hgen.
  - destruct (prims_stays_free i _ _ _ u Hp Hz Hu' Euse) as (s' & Hs' & Hf). congruence.
Qed.

(** ** The batch of a poll *)

Lemma connected_spec p es : p ∈ connected (map link_event es) <-> peer_event NVPSF_EVENT_PEER_CONNECTED p ∈ es.
Proof.
  unfold connected. rewrite list_elem_of_omap. setoid_rewrite list_elem_of_fmap. split.
  - intros (x & ([k q] & -> & Hin) & Hx). by destruct k; cbn in Hx; simplify_eq.
  - intros Hin. eexists. split; [by eexists|done].
Qed.

Lemma gone_spec p es : p ∈ gone_peers (map link_event es) <-> peer_event NVPSF_EVENT_PEER_GONE p ∈ es.
Proof.
  unfold gone_peers. rewrite list_elem_of_omap. setoid_rewrite list_elem_of_fmap. split.
  - intros (x & ([k q] & -> & Hin) & Hx). by destruct k; cbn in Hx; simplify_eq.
  - intros Hin. eexists. split; [by eexists|done].
Qed.

Definition not_connected (e : NvPSFTransportEvent) : Prop := te_kind e <> NVPSF_EVENT_PEER_CONNECTED.
Definition is_connected (e : NvPSFTransportEvent) : Prop := te_kind e = NVPSF_EVENT_PEER_CONNECTED.

(** New connections have distinct ids, none of them in the set. *)
Lemma connections unix L es L' : events_step unix L es L' -> Forall is_connected es ->
  NoDup (event_peers (map link_event es)) /\ gone_peers (map link_event es) = [] /\
  L' = L ∪ list_to_set (connected (map link_event es)) /\
  Forall (fun p => (p ∉ L) /\ p <> NVPSF_PEER_INVALID /\ p ∈ L') (connected (map link_event es)).
Proof.
  induction 1 as [L|L e L1 es L2 He _ IH]; [intros _; cbn; split_and!; [constructor|done|set_solver|constructor]|].
  intros [Hc Hes]%Forall_cons. destruct (IH Hes) as (Hnd & Hg & HL & Hn). inversion He as [L0 p Hp Hv E1 E2|L0 p Hp E1 E2|L0 p Hp E1 E2]; subst;
    unfold is_connected in Hc; cbn in Hc; try done. cbn [map link_event te_kind te_peer peer_event event_peers connected gone_peers omap list_omap] in *.
  fold (event_peers (map link_event es)) (connected (map link_event es)) (gone_peers (map link_event es)) in *.
  assert (Hout : p ∉ event_peers (map link_event es)).
  { intros Hin. assert (p ∈ connected (map link_event es)) as Hin'.
    { unfold event_peers in Hin. apply list_elem_of_omap in Hin as (x & Hx & Hx'). apply list_elem_of_omap. exists x. split; [done|].
      apply list_elem_of_fmap in Hx as ([k q] & -> & Hin). rewrite Forall_forall in Hes. apply Hes in Hin. unfold is_connected in Hin.
      cbn in Hin. subst k. done. }
    rewrite Forall_forall in Hn. apply Hn in Hin' as (Hx & _). set_solver. }
  split_and!.
  - constructor; done.
  - done.
  - set_solver.
  - constructor; [set_solver|]. eapply Forall_impl; [done|]. cbn. intros q (? & ? & ?). set_solver.
Qed.

(** Without new connections the peers reported gone are distinct and were there. *)
Lemma departures unix L es L' : events_step unix L es L' -> Forall not_connected es ->
  NoDup (event_peers (map link_event es)) /\ connected (map link_event es) = [] /\
  L' = L ∖ list_to_set (gone_peers (map link_event es)) /\
  event_peers (map link_event es) = gone_peers (map link_event es) /\
  Forall (fun p => p ∈ L) (gone_peers (map link_event es)).
Proof.
  induction 1 as [L|L e L1 es L2 He _ IH]; [intros _; cbn; split_and!; [constructor|done|set_solver|done|constructor]|].
  intros [Hc Hes]%Forall_cons. destruct (IH Hes) as (Hnd & Hg & HL & Heq & Hn). inversion He as [L0 p Hp Hv E1 E2|L0 p Hp E1 E2|L0 p Hp E1 E2]; subst;
    unfold not_connected in Hc; cbn in Hc; try done;
    cbn [map link_event te_kind te_peer peer_event event_peers connected gone_peers omap list_omap] in *;
    fold (event_peers (map link_event es)) (connected (map link_event es)) (gone_peers (map link_event es)) in *.
  split_and!; [|done|set_solver|by rewrite Heq|].
  - constructor; [|done]. rewrite Heq. intros Hin. rewrite Forall_forall in Hn. apply Hn in Hin. set_solver.
  - constructor; [done|]. eapply Forall_impl; [done|]. cbn. set_solver.
Qed.

Lemma accept_loop_connected room answers t t' acts es : accept_loop room answers t = (t', acts, es) -> Forall is_connected es.
Proof.
  revert room t t' acts es. induction answers as [|answer rest IH]; intros [|room] t t' acts es; cbn;
    try (intros; simplify_eq; by constructor).
  destruct (acceptOne answer t) as [[t1 acts1] o] eqn:E. destruct o as [e|]; [|intros; simplify_eq; constructor].
  destruct (accept_loop room rest t1) as [[t2 acts2] es2] eqn:E2. intros; simplify_eq. constructor; [|by eapply IH].
  unfold acceptOne in E. repeat case_match; by simplify_eq.
Qed.

(** An entry of a peer reports no connection, and a departure under the id that was
    polled. *)
Lemma poll_peer_departs fd slot g revents w t t' acts es : poll_peer fd slot g revents w t = (t', acts, es) ->
  Forall not_connected es /\
  forall p, peer_event NVPSF_EVENT_PEER_GONE p ∈ es -> p = peerIdMake (Z.of_nat slot) g.
Proof.
  unfold poll_peer. destruct (tp_peers t !! slot) as [s|] eqn:Es; [|intros; simplify_eq; split; [constructor|set_solver]].
  destruct (same_peer fd g s) eqn:Eg; cbn [negb]; [|intros; simplify_eq; split; [constructor|set_solver]].
  unfold same_peer in Eg. bool_prop. rewrite (id_at_slot _ _ _ Es).
  intros Hpoll. repeat case_match; simplify_eq; (split; [by repeat constructor|]);
    intros p; rewrite ?list_elem_of_singleton; unfold peer_event; intros Hin; try (by apply not_elem_of_nil in Hin); by simplify_eq.
Qed.

Lemma scan_departs room entries w t t' acts es failed : Forall (fun e => is_peer_entry (fst e)) entries ->
  poll_scan room entries w t = (t', acts, es, failed) ->
  Forall not_connected es /\
  forall p, peer_event NVPSF_EVENT_PEER_GONE p ∈ es ->
    exists fd slot g, PollPeer fd slot g ∈ map fst entries /\ p = peerIdMake (Z.of_nat slot) g.
Proof.
  revert room t t' acts es failed. induction entries as [|[e revents] rest IH]; intros room t t' acts es failed Hf; cbn.
  { destruct room; intros; simplify_eq; split; [constructor|set_solver|constructor|set_solver]. }
  destruct room as [|room]; [intros; simplify_eq; split; [constructor|set_solver]|]. apply Forall_cons in Hf as [He Hr].
  destruct e as [fd|fd|fd slot g]; [done..|].
  destruct (poll_entry _ _ _ _ _) as [[[t1 acts1] es1] failed1] eqn:E1.
  destruct (poll_scan _ _ _ _) as [[[t2 acts2] es2] failed2] eqn:E2. intros [= <- <- <- <-].
  destruct (IH _ _ _ _ _ _ Hr E2) as [Hn2 Hg2].
  assert (Forall not_connected es1 /\ forall p, peer_event NVPSF_EVENT_PEER_GONE p ∈ es1 -> p = peerIdMake (Z.of_nat slot) g) as [Hn1 Hg1].
  { unfold poll_entry in E1. case_match; [simplify_eq; split; [constructor|set_solver]|].
    destruct (poll_peer _ _ _ _ _ _) as [[t3 acts3] es3] eqn:Ep. simplify_eq. by eapply poll_peer_departs. }
  split; [by apply Forall_app|]. intros p [Hp|Hp]%elem_of_app.
  - exists fd, slot, g. split; [by left|by apply Hg1].
  - destruct (Hg2 p Hp) as (fd' & slot' & g' & Hin & ->). exists fd', slot', g'. split; [by right|done].
Qed.

(** What a poll reports: connections, then departures of peers that were polled. *)
Definition poll_parts (t : NvPSFTransport) (snapshot : list PollEntry) (es : list NvPSFTransportEvent) (t' : NvPSFTransport) : Prop :=
  exists t1 acts1 es1 es2, es = es1 ++ es2 /\
    (prims t acts1 t1 /\ (forall i, taken_count i acts1 <= NVPSF_ACCEPTS_PER_POLL)%nat /\
     Forall is_connected es1 /\ events_step true (live t) es1 (live t1)) /\
    (Forall not_connected es2 /\ events_step true (live t1) es2 (live t') /\
     forall p, peer_event NVPSF_EVENT_PEER_GONE p ∈ es2 ->
       exists fd slot g, PollPeer fd slot g ∈ snapshot /\ p = peerIdMake (Z.of_nat slot) g).

Lemma parts_nil t snapshot : poll_parts t snapshot [] t.
Proof.
  exists t, [], [], []. split_and!; try constructor; [intros; cbn; lia|]. intros p Hp. by apply not_elem_of_nil in Hp.
Qed.

Lemma scan_peers l r room w t t' acts es failed : tp_wf t -> is_unix t = true -> Forall is_peer_entry l ->
  poll_scan room (zip l r) w t = (t', acts, es, failed) ->
  Forall not_connected es /\ events_step true (live t) es (live t') /\
  forall p, peer_event NVPSF_EVENT_PEER_GONE p ∈ es -> exists fd slot g, PollPeer fd slot g ∈ l /\ p = peerIdMake (Z.of_nat slot) g.
Proof.
  intros I Hu Hl Es.
  assert (Hz : Forall (fun e : PollEntry * Z => is_peer_entry (fst e)) (zip l r)).
  { apply Forall_forall. intros [e x] He%elem_of_zip_l. rewrite Forall_forall in Hl. by apply Hl. }
  destruct (scan_departs _ _ _ _ _ _ _ _ Hz Es) as [Hn Hg]. split_and!; [done| |].
  - rewrite <- Hu. eapply poll_scan_events; [done| |done]. eapply Forall_impl; [done|]. by intros [[] ?].
  - intros p Hp. destruct (Hg p Hp) as (fd & slot & g & Hin & ->). exists fd, slot, g. split; [|done].
    apply list_elem_of_fmap in Hin as ([e x] & -> & Hin). by apply elem_of_zip_l in Hin.
Qed.

Lemma parts_peers snapshot r room w t t' acts es failed : tp_wf t -> is_unix t = true -> Forall is_peer_entry snapshot ->
  poll_scan room (zip snapshot r) w t = (t', acts, es, failed) -> poll_parts t snapshot es t'.
Proof.
  intros I Hu Hl E. destruct (scan_peers _ _ _ _ _ _ _ _ _ I Hu Hl E) as (Hn & Hs & Hg).
  exists t, [], [], es. split_and!; [done|constructor|intros; cbn; lia|constructor|constructor|done..].
Qed.

Lemma parts_listener fd rest r room w t t' acts es failed : tp_wf t -> is_unix t = true -> Forall is_peer_entry rest ->
  poll_scan room (zip (PollListen fd :: rest) r) w t = (t', acts, es, failed) -> poll_parts t (PollListen fd :: rest) es t'.
Proof.
  intros I Hu Hl. destruct r as [|x r]; [destruct room; cbn; intros; simplify_eq; apply parts_nil|].
  destruct room as [|room]; [cbn; intros; simplify_eq; apply parts_nil|]. cbn.
  destruct (poll_entry (S room) (PollListen fd) x w t) as [[[t1 acts1] es1] failed1] eqn:E1.
  destruct (poll_scan _ _ _ t1) as [[[t3 acts3] es3] failed3] eqn:E3. intros; simplify_eq.
  assert (He : entry_ok t (PollListen fd)) by (unfold is_unix in Hu; cbn; by apply Z.eqb_eq).
  pose proof (poll_entry_prims _ _ _ _ _ _ _ _ _ He E1) as Hp1.
  pose proof (poll_entry_events _ _ _ _ _ _ _ _ _ I He E1) as Hs1. rewrite Hu in Hs1.
  assert (Forall is_connected es1 /\ forall i, (taken_count i acts1 <= NVPSF_ACCEPTS_PER_POLL)%nat) as [Hc Ht].
  { unfold poll_entry in E1. case_match; [simplify_eq; split; [constructor|intros; cbn; lia]|].
    destruct (accept_loop _ _ _) as [[t4 acts4] es4] eqn:Ea. simplify_eq. split; [by eapply accept_loop_connected|].
    intros i. apply (accept_loop_taken i) in Ea. lia. }
  destruct (scan_peers _ _ _ _ _ _ _ _ _ (prims_wf _ _ _ Hp1 I) (eq_trans (prims_unix _ _ _ Hp1) Hu) Hl E3) as (Hn & Hs & Hg).
  exists t1, acts1, es1, es3. split_and!; try done. intros p Hp. destruct (Hg p Hp) as (f & s & g & Hin & ->).
  exists f, s, g. split; [by right|done].
Qed.

Lemma poll_end_parts maxEvents snapshot answer w t t' acts es err :
  tp_wf t -> is_unix t = true -> polled_shape snapshot -> Forall (entry_ok t) snapshot ->
  poll_end maxEvents snapshot answer w t = (t', acts, es, err) -> poll_parts t snapshot es t'.
Proof.
  intros I Hu Hshape Hok. unfold poll_end. destruct answer as [e| |revents]; [intros; simplify_eq; apply parts_nil..|].
  destruct (poll_scan _ _ _ _) as [[[t2 acts2] es2] failed] eqn:E. intros; simplify_eq.
  destruct snapshot as [|[fd|fd|fd slot g] rest].
  - by eapply parts_peers.
  - by eapply parts_listener.
  - apply Forall_cons in Hok as [He _]. cbn in He. unfold is_unix in Hu. by rewrite He in Hu.
  - by eapply parts_peers.
Qed.

Lemma event_peers_app a b : event_peers (a ++ b) = event_peers a ++ event_peers b.
Proof. apply omap_app. Qed.
Lemma connected_app a b : connected (a ++ b) = connected a ++ connected b.
Proof. apply omap_app. Qed.
Lemma gone_peers_app a b : gone_peers (a ++ b) = gone_peers a ++ gone_peers b.
Proof. apply omap_app. Qed.

Lemma event_peers_connections es : Forall is_connected es -> event_peers (map link_event es) = connected (map link_event es).
Proof.
  induction 1 as [|[k p] es Hk _ IH]; [done|]. unfold is_connected in Hk. cbn in Hk. subst k. cbn. f_equal. apply IH.
Qed.

(** The ids the link holds: those of its clients, and of the calls in progress. *)
Definition held_by (l : Link) (p : Z) : Prop :=
  (exists c, lk_peers l !! c = Some p) \/ (exists k x, lk_calls l !! k = Some x /\ call_peer x = Some p).

(** C8. The transport keeps what the link to the decision clients relies on: when
    the link's set is the set of an AF_UNIX endpoint, the events of a poll are a
    batch the link expects, whatever happened while the poll waited, and the set of
    the link after the batch is again the set of the endpoint.  The ids polled and
    held are assumed to be recent. *)
Theorem poll_meets_link_contract ep k n snapshot answer w ep' acts err es l :
  in_use ep -> is_unix (ep_t ep) = true -> ep_polls ep !! k = Some (n, snapshot) ->
  Forall (recent_entry (ep_t ep)) snapshot ->
  ep_step (OpPollEnd k answer w) ep = Some (ep', acts, TPolled err es) ->
  lk_live l = live (ep_t ep) -> (forall p, held_by l p -> recent_id (ep_t ep) p) ->
  batch_ok (map link_event es) l /\ lk_live (poll (map link_event es) l) = live (ep_t ep').
Proof.
  intros I%endpoint_wf Hu Hk Hrec Hstep Hlive Hheld. pose proof (ew_t _ I) as It. cbn in Hstep. rewrite Hk in Hstep.
  destruct (poll_end _ _ _ _ _) as [[[t' acts'] es'] err'] eqn:E. simplify_eq. cbn.
  apply poll_end_parts in E as (t1 & acts1 & es1 & es2 & -> & (Hp & Ht & Hc & Hs1) & Hn & Hs2 & Hg);
    [|done|done|by eapply (ew_shape _ I)|by eapply (ew_polls _ I)].
  destruct (connections _ _ _ _ Hs1 Hc) as (Hnd1 & Hg1 & HL1 & Hnew). destruct (departures _ _ _ _ Hs2 Hn) as (Hnd2 & Hc2 & HL2 & Heq2 & Hold).
  rewrite event_peers_connections in Hnd1 by done.
  assert (Hfresh : forall p, p ∈ connected (map link_event es1) -> ~ recent_id (ep_t ep) p).
  { intros p Hin. rewrite Forall_forall in Hnew. apply Hnew in Hin as (? & _ & ?). by eapply new_id_not_recent. }
  assert (Hdis : forall p, p ∈ connected (map link_event es1) -> p ∉ gone_peers (map link_event es2)).
  { intros p Hin Hin2. apply (Hfresh p Hin). apply gone_spec in Hin2. destruct (Hg p Hin2) as (fd & slot & g & He & ->).
    rewrite Forall_forall in Hrec. apply Hrec in He as [Hlt Hr]. by exists slot, g. }
  assert (Hgone : forall p, p ∈ gone_peers (map link_event es2) -> p ∈ live (ep_t ep)).
  { intros p Hin. assert (p ∈ live t1) as H1 by (rewrite Forall_forall in Hold; by apply Hold). rewrite HL1 in H1.
    apply elem_of_union in H1 as [H1|H1%elem_of_list_to_set]; [done|]. by destruct (Hdis p). }
  rewrite map_app. split.
  - unfold batch_ok. rewrite event_peers_app, connected_app, gone_peers_app, Hg1, Hc2, Heq2, event_peers_connections, app_nil_r by done.
    cbn [app]. rewrite Hlive. split_and!.
    + apply NoDup_app. split_and!; [done|done|by rewrite <- Heq2].
    + by apply Forall_forall.
    + apply Forall_forall. intros p Hin. pose proof Hin as Hin'. rewrite Forall_forall in Hnew. apply Hnew in Hin as (? & ? & _).
      split_and!; [done|by rewrite Hlive|intros c q Hq <-|intros c x Hx Hp'].
      * apply (Hfresh _ Hin'), Hheld. left. eauto.
      * apply (Hfresh _ Hin'), Hheld. right. eauto.
  - unfold poll. cbn. rewrite connected_app, gone_peers_app, Hg1, Hc2, app_nil_r, HL2, HL1, Hlive. cbn. set_solver.
Qed.
