(* ===== verification/TransportRecv.v ===== *)
(** * Receiving in turn

    [Recv] tries the peers of an AF_UNIX endpoint from the one after the last it
    served: a peer with something to receive is served within as many calls as
    there are slots, however busy the others are. *)

From S2P Require Import Prelude Protocol TransportConfig Transport TransportOpen TransportSteps TransportOpened TransportSafety TransportPeers.

Local Open Scope Z_scope.

(** ** The cursor *)

Lemma slotAcquire_cursor fill t i t' : slotAcquire fill t = Some (i, t') -> tp_rrCursor t' = tp_rrCursor t.
Proof. intros (s & _ & _ & ->)%slotAcquire_Some. done. Qed.

Lemma slotRelease_cursor i t t' acts : slotRelease i t = (t', acts) -> tp_rrCursor t' = tp_rrCursor t.
Proof. unfold slotRelease. case_match; intros; by simplify_eq. Qed.

Lemma acceptOne_cursor answer t t' acts o : acceptOne answer t = (t', acts, o) -> tp_rrCursor t' = tp_rrCursor t.
Proof.
  unfold acceptOne. case_match; [intros; by simplify_eq|].
  destruct (admissionRateAllows _ t) as [allowed t1] eqn:Ea. apply admission_peers in Ea as (_ & _ & Hc). rewrite <- Hc.
  destruct allowed; cbn [negb].
  - destruct (checkPeerCred _ _); [|intros; by simplify_eq].
    destruct (slotAcquire _ t1) as [[i t2]|] eqn:Es; intros; simplify_eq; [|done]. by eapply slotAcquire_cursor.
  - destruct (report_denial t1) as [t2 report] eqn:Ed. intros; simplify_eq.
    destruct (report_denial_peers t1) as (_ & _ & Hr). by rewrite Ed in Hr.
Qed.

Lemma accept_loop_cursor room answers t t' acts es : accept_loop room answers t = (t', acts, es) -> tp_rrCursor t' = tp_rrCursor t.
Proof.
  revert room t t' acts es. induction answers as [|answer rest IH]; intros [|room] t t' acts es; cbn; try (intros; by simplify_eq).
  destruct (acceptOne answer t) as [[t1 acts1] o] eqn:E. apply acceptOne_cursor in E. destruct o as [e|]; [|intros; by simplify_eq].
  destruct (accept_loop room rest t1) as [[t2 acts2] es2] eqn:E2. intros; simplify_eq. apply IH in E2. congruence.
Qed.

Lemma poll_entry_cursor room e revents w t t' acts es failed :
  poll_entry room e revents w t = (t', acts, es, failed) -> tp_rrCursor t' = tp_rrCursor t.
Proof.
  unfold poll_entry. case_match; [intros; by simplify_eq|]. destruct e as [fd|fd|fd slot g].
  - destruct (accept_loop _ _ _) as [[t1 acts1] es1] eqn:E. intros; simplify_eq. by eapply accept_loop_cursor.
  - destruct (poll_shared _ _). intros; by simplify_eq.
  - unfold poll_peer. destruct (tp_peers t !! slot); [|intros; by simplify_eq]. case_match; [intros; by simplify_eq|].
    case_match; [|case_match; intros; by simplify_eq]. case_match; [intros; by simplify_eq|].
    destruct (slotRelease slot t) as [t1 acts1] eqn:Er. intros; simplify_eq. by eapply slotRelease_cursor.
Qed.

Lemma poll_scan_cursor room entries w t t' acts es failed :
  poll_scan room entries w t = (t', acts, es, failed) -> tp_rrCursor t' = tp_rrCursor t.
Proof.
  revert room t t' acts es failed. induction entries as [|[e revents] rest IH]; intros [|room] t t' acts es failed; cbn;
    try (intros; by simplify_eq).
  destruct (poll_entry _ _ _ _ _) as [[[t1 acts1] es1] failed1] eqn:E1. apply poll_entry_cursor in E1.
  destruct (poll_scan _ _ _ _) as [[[t2 acts2] es2] failed2] eqn:E2. intros [= <- <- <- <-]. apply IH in E2. congruence.
Qed.

Definition is_recv (op : TpOp) : bool := match op with OpRecv _ _ => true | _ => false end.

Lemma ep_step_cursor op ep ep' acts told : is_recv op = false -> ep_step op ep = Some (ep', acts, told) ->
  tp_rrCursor (ep_t ep') = tp_rrCursor (ep_t ep).
Proof.
  intros Hop. destruct op as [k timeoutMs maxEvents|k answer w|bufLen w|peer buf answer|peer]; cbn in *; [..|done| |].
  - repeat case_match; intros; by simplify_eq.
  - destruct (ep_polls ep !! k) as [[n snapshot]|]; [|done]. destruct (poll_end _ _ _ _ _) as [[[t1 acts1] es] err] eqn:E.
    intros; simplify_eq. cbn. unfold poll_end in E. destruct answer; [by simplify_eq..|].
    destruct (poll_scan _ _ _ _) as [[[t2 acts2] es2] failed] eqn:E2. simplify_eq. by eapply poll_scan_cursor.
  - destruct (NvPSFTransportSend _ _ _ _) as [[t1 acts1] err] eqn:E. intros; simplify_eq. cbn.
    unfold NvPSFTransportSend, send_on in E. repeat case_match; by simplify_eq.
  - unfold NvPSFTransportDropPeer. destruct (slotFor _ _) as [i|]; [|intros; by simplify_eq].
    destruct (slotRelease i _) as [t1 acts1] eqn:E. intros; simplify_eq. by eapply slotRelease_cursor.
Qed.

(** ** One call *)

(** The connection of slot [j] has something to receive. *)
Definition ready (j bufLen : nat) (w : RecvWorld) (t : NvPSFTransport) : Prop :=
  (0 < bufLen)%nat /\ (exists s, tp_peers t !! j = Some s /\ ps_inUse s = true /\ ps_fd s <> NVPSF_FD_INVALID) /\
  fst (recvOnFd (rw_peer w j) bufLen true) <> NVPSF_TRANSPORT_WOULD_BLOCK.

(** The call served slot [i]. *)
Definition serves (i : nat) (t : NvPSFTransport) (r : Received) : Prop :=
  rv_from r = id_at i t /\ rv_err r <> NVPSF_TRANSPORT_WOULD_BLOCK /\ is_Some (tp_peers t !! i).

Lemma recv_loop_serves slots rx bufLen t t' acts r d j s : slots !! d = Some j ->
  tp_peers t !! j = Some s -> ps_inUse s = true -> ps_fd s <> NVPSF_FD_INVALID ->
  fst (recvOnFd (rx j) bufLen true) <> NVPSF_TRANSPORT_WOULD_BLOCK ->
  recv_loop slots rx bufLen t = (t', acts, r) ->
  exists e i, (e <= d)%nat /\ slots !! e = Some i /\ serves i t r /\ tp_rrCursor t' = Z.of_nat i.
Proof.
  intros Hd Hj Hu Hfd Hrx. revert d Hd t' acts r. induction slots as [|slot rest IH]; intros [|d] Hd t' acts r; cbn; try done.
  - cbn in Hd. simplify_eq. rewrite Hj, Hu. cbn [negb orb]. rewrite (proj2 (Z.eqb_neq _ _) Hfd).
    destruct (recvOnFd (rx j) bufLen true) as [err got]. cbn in Hrx. rewrite decide_False by done.
    intros Hl. exists 0%nat, j. split; [lia|]. split; [done|]. unfold serves. rewrite Hj.
    case_decide; [|by simplify_eq]. unfold slotRelease in Hl. cbn [tp_peers set_rrCursor] in Hl. rewrite Hj in Hl. by simplify_eq.
  - cbn in Hd. assert (Hrec : recv_loop rest rx bufLen t = (t', acts, r) ->
      exists e i, (e <= S d)%nat /\ (slot :: rest) !! e = Some i /\ serves i t r /\ tp_rrCursor t' = Z.of_nat i).
    { intros H. destruct (IH d Hd _ _ _ H) as (e & i & He & Hi & Hs). exists (S e), i. split_and!; [lia|done|apply Hs..]. }
    destruct (tp_peers t !! slot) as [u|] eqn:Es; [|done]. destruct (negb (ps_inUse u) || (ps_fd u =? NVPSF_FD_INVALID)); [done|].
    destruct (recvOnFd (rx slot) bufLen true) as [err got]. case_decide; [done|].
    intros Hl. exists 0%nat, slot. split; [lia|]. split; [done|]. unfold serves. rewrite Es.
    case_decide; [|by simplify_eq]. unfold slotRelease in Hl. cbn [tp_peers set_rrCursor] in Hl. rewrite Es in Hl. by simplify_eq.
Qed.

(** How many slots are tried before slot [j]. *)
Definition turns_before (j : nat) (t : NvPSFTransport) : Z := (Z.of_nat j - tp_rrCursor t - 1) mod tp_maxPeers t.

Lemma order_at t e i : 0 < tp_maxPeers t -> recv_order t !! e = Some i ->
  Z.of_nat i = (tp_rrCursor t + 1 + Z.of_nat e) mod tp_maxPeers t.
Proof.
  intros Hm H. unfold recv_order in H. apply list_lookup_fmap_Some in H as (x & -> & Hx). apply lookup_seq in Hx as [-> _].
  rewrite Z2Nat.id; [done|]. by apply Z.mod_pos_bound.
Qed.

Lemma order_distance t j : 0 < tp_maxPeers t -> Z.of_nat j < tp_maxPeers t ->
  recv_order t !! Z.to_nat (turns_before j t) = Some j.
Proof.
  intros Hm Hj. unfold recv_order, turns_before. pose proof (Z.mod_pos_bound (Z.of_nat j - tp_rrCursor t - 1) _ Hm) as Hb.
  rewrite list_lookup_fmap. rewrite (lookup_seq_lt 0) by lia. cbn. f_equal. rewrite Z2Nat.id by lia.
  rewrite Zplus_mod_idemp_r. replace (tp_rrCursor t + 1 + _) with (Z.of_nat j) by lia. rewrite Z.mod_small by lia. lia.
Qed.

(** A call serves slot [j], or brings its turn nearer. *)
Lemma recv_nearer j bufLen w t t' acts r : tp_wf t -> is_unix t = true -> ready j bufLen w t ->
  NvPSFTransportRecv bufLen w t = (t', acts, r) ->
  serves j t r \/ turns_before j t' < turns_before j t.
Proof.
  intros I Hu (Hb & (s & Hj & Hin & Hfd) & Hrx). unfold NvPSFTransportRecv.
  destruct (Nat.eqb_spec bufLen 0); [lia|]. unfold is_unix in Hu. apply Z.eqb_eq in Hu.
  replace (tp_kind t =? NVPSF_TRANSPORT_UDP_SOCKET) with false by (by rewrite Hu). intros H.
  destruct (slot_bounds t j s I Hj) as (Hjm & _). pose proof (wf_max _ I) as Hm.
  destruct (recv_loop_serves _ _ _ _ _ _ _ _ _ _ (order_distance t j ltac:(lia) ltac:(lia)) Hj Hin Hfd Hrx H) as (e & i & He & Hi & Hs & Hc).
  apply order_at in Hi; [|lia]. assert (tp_maxPeers t' = tp_maxPeers t) as Hm'.
  { assert (prims t acts t') as Hp by (eapply recv_loop_prims; [apply recv_order_lt; lia|exact H]).
    apply prims_config, config_eq in Hp as (_ & _ & Hx & _). done. }
  unfold turns_before in *. rewrite Hm', Hc.
  set (m := tp_maxPeers t) in *. set (c := tp_rrCursor t) in *. set (d := (Z.of_nat j - c - 1) mod m) in *.
  assert (Hd : 0 <= d < m) by (apply Z.mod_pos_bound; lia).
  destruct (decide (Z.of_nat e = d)) as [Hed|Hed].
  - left. assert (Z.of_nat i = Z.of_nat j) as Hij.
    { rewrite Hi, Hed. unfold d. rewrite Zplus_mod_idemp_r. replace (c + 1 + _) with (Z.of_nat j) by lia. apply Z.mod_small. lia. }
    by apply Nat2Z.inj in Hij as ->.
  - right. rewrite Hi. replace (Z.of_nat j - (c + 1 + Z.of_nat e) mod m - 1) with ((Z.of_nat j - 1) - (c + 1 + Z.of_nat e) mod m) by lia.
    rewrite Zminus_mod_idemp_r. replace (Z.of_nat j - 1 - (c + 1 + Z.of_nat e)) with ((Z.of_nat j - c - 1) - (Z.of_nat e + 1)) by lia.
    rewrite <- Zminus_mod_idemp_l. fold d. rewrite Z.mod_small; lia.
Qed.

(** ** Many calls *)

(** In every [Recv] of the run slot [j] has something to receive. *)
Fixpoint offered (j : nat) (ops : list TpOp) (ep : Endpoint) : Prop :=
  match ops with
  | [] => True
  | op :: rest =>
    match op with OpRecv bufLen w => ready j bufLen w (ep_t ep) | _ => True end /\
    match ep_step op ep with Some (ep1, _, _) => offered j rest ep1 | None => True end
  end.

Definition recvs (ops : list TpOp) : Z := Z.of_nat (length (List.filter is_recv ops)).

(** A message or the end of the connection of slot [j] was delivered. *)
Definition served (j : nat) (told : Told) : Prop :=
  match told with
  | TReceived r => rv_err r <> NVPSF_TRANSPORT_WOULD_BLOCK /\ peerIdSlot (rv_from r) = Z.of_nat j
  | _ => False
  end.

Lemma serves_served j t r : tp_wf t -> serves j t r -> served j (TReceived r).
Proof.
  intros I (Hf & Hn & s & Hs). split; [done|]. rewrite Hf, (id_at_slot _ _ _ Hs).
  destruct (slot_bounds t j s I Hs) as (? & ? & ?). apply peerId_fields; lia.
Qed.

Lemma turn_comes j ops ep ep' acts tolds : ep_wf ep -> is_unix (ep_t ep) = true -> offered j ops ep ->
  ep_run ops ep = Some (ep', acts, tolds) -> turns_before j (ep_t ep) < recvs ops -> Exists (served j) tolds.
Proof.
  revert ep ep' acts tolds. induction ops as [|op ops IH]; intros ep ep' acts tolds I Hu Hoff Hrun Hd.
  { unfold recvs in Hd. cbn in Hd. pose proof (Z.mod_pos_bound (Z.of_nat j - tp_rrCursor (ep_t ep) - 1) (tp_maxPeers (ep_t ep))) as Hb.
    pose proof (wf_max _ (ew_t _ I)). unfold turns_before in Hd. lia. }
  cbn in Hrun, Hoff. destruct (ep_step op ep) as [[[ep1 acts1] told]|] eqn:E; [|done].
  destruct (ep_run ops ep1) as [[[ep2 acts2] tolds2]|] eqn:E2; [|done]. simplify_eq. destruct Hoff as [Hready Hoff].
  pose proof (ep_step_prims _ _ _ _ _ I E) as Hp. pose proof (ep_step_wf _ _ _ _ _ I E) as I1.
  pose proof (prims_unix _ _ _ Hp) as Hu1. rewrite Hu in Hu1.
  assert (Hmax : tp_maxPeers (ep_t ep1) = tp_maxPeers (ep_t ep)) by (apply prims_config, config_eq in Hp as (_ & _ & ? & _); done).
  destruct (is_recv op) eqn:Er.
  - destruct op as [| |bufLen w| |]; try done. cbn in E.
    destruct (NvPSFTransportRecv bufLen w (ep_t ep)) as [[t1 acts3] r] eqn:En. simplify_eq.
    destruct (recv_nearer _ _ _ _ _ _ _ (ew_t _ I) Hu Hready En) as [Hs|Hs].
    + left. eapply serves_served; [apply I|done].
    + right. eapply (IH _ _ _ _ I1 Hu1 Hoff E2). cbn. unfold recvs in *. cbn in Hd. lia.
  - right. eapply (IH _ _ _ _ I1 Hu1 Hoff E2). unfold turns_before in *. rewrite Hmax, (ep_step_cursor _ _ _ _ _ Er E).
    unfold recvs in *. cbn in Hd. by rewrite Er in Hd.
Qed.

(** C11. No peer is starved: in a run in which a connection has something to receive
    at every [Recv], it is served by the time [Recv] was called as often as the
    endpoint has slots, whatever the other peers send and whatever else the threads
    call. *)
Theorem recv_serves_every_peer j ops ep ep' acts tolds :
  in_use ep -> is_unix (ep_t ep) = true -> offered j ops ep -> ep_run ops ep = Some (ep', acts, tolds) ->
  tp_maxPeers (ep_t ep) <= recvs ops -> Exists (served j) tolds.
Proof.
  intros I%endpoint_wf Hu Hoff Hrun Hn. eapply turn_comes; [done..|]. pose proof (wf_max _ (ew_t _ I)).
  pose proof (Z.mod_pos_bound (Z.of_nat j - tp_rrCursor (ep_t ep) - 1) (tp_maxPeers (ep_t ep))). unfold turns_before. lia.
Qed.
