(* ===== verification/TransportRuns.v ===== *)
(** * Runs of transport endpoints

    Concrete endpoints: an AF_UNIX server with two slots and a UDP server, what
    their calls give, and the instances of the theorems on them. *)

From S2P Require Import Prelude Protocol Text TransportConfig Transport TransportOpen TransportSteps TransportOpened TransportSafety TransportFds TransportPeers TransportRecv PsdLink TransportLink.

Local Open Scope Z_scope.

(** ** An AF_UNIX server *)

Definition server_cfg : NvPSFTransportCfg := {|
  cfg_kind := NVPSF_TRANSPORT_UNIX_SOCKET; cfg_role := NVPSF_ROLE_SERVER; cfg_link := NVPSF_LINK_PSS_RPC; cfg_maxPeers := 2;
  cfg_maxMessageBytes := 64; cfg_minQueueDepth := 0; cfg_recvTimeoutMs := 0; cfg_sendTimeoutMs := 0;
  cfg_unixPath := Some (str "/run/nvpsf/nvpss"); cfg_unixMode := 432; cfg_allowedGid := 7; cfg_inetAddr := None;
  cfg_inetPort := 0; cfg_inetAllowList := None |}.

Definition plain_opt : SockOpt := {| so_set := true; so_granted := Some 1000000 |}.

(** Opening at 1000 ms; the socket is descriptor 3. *)
Definition quiet_world : OpenWorld := {|
  ow_alloc := true; ow_allocPeers := true; ow_mutex := true; ow_nowMs := 1000; ow_socket := 3; ow_bind := None; ow_probe := 9;
  ow_probeConnect := None; ow_unlink := None; ow_rebind := None; ow_chmod := true; ow_rcvbuf := plain_opt;
  ow_sndbuf := plain_opt; ow_listen := true; ow_connect := None; ow_cred := None |}.

(** A path left by a server that is gone, and one of a server that runs. *)
Definition in_use_world (probe : option Errno) : OpenWorld := {|
  ow_alloc := true; ow_allocPeers := true; ow_mutex := true; ow_nowMs := 1000; ow_socket := 3; ow_bind := Some EADDRINUSE;
  ow_probe := 4; ow_probeConnect := probe; ow_unlink := None; ow_rebind := None; ow_chmod := true; ow_rcvbuf := plain_opt;
  ow_sndbuf := plain_opt; ow_listen := true; ow_connect := None; ow_cred := None |}.

Example stale_path_taken_over :
  exists t, NvPSFTransportOpen (Some server_cfg) (in_use_world (Some ECONNREFUSED)) =
    (NVPSF_TRANSPORT_OK, Some t,
     [FdOpened 3; FdOpened 4; FdClosed 4; Unlinked (str "/run/nvpsf/nvpss"); Bound (str "/run/nvpsf/nvpss")]).
Proof. eexists. vm_compute. reflexivity. Qed.

Example live_path_left_alone :
  NvPSFTransportOpen (Some server_cfg) (in_use_world None) =
    (NVPSF_TRANSPORT_FAIL, None, [FdOpened 3; FdOpened 4; FdClosed 4; FdClosed 3]).
Proof. vm_compute. reflexivity. Qed.

Definition opened_at (w : OpenWorld) : NvPSFTransport * list Action :=
  match NvPSFTransportOpen (Some server_cfg) w with
  | (_, Some t, acts) => (t, acts)
  | (_, None, acts) => (fresh_endpoint server_cfg 0, acts)
  end.
Definition server : NvPSFTransport := fst (opened_at quiet_world).
Definition started : Endpoint := {| ep_t := server; ep_polls := ∅ |}.

Lemma server_opened : NvPSFTransportOpen (Some server_cfg) quiet_world = (NVPSF_TRANSPORT_OK, Some server, snd (opened_at quiet_world)).
Proof. vm_compute. reflexivity. Qed.

Definition after (ops : list TpOp) : Endpoint := match ep_run ops started with Some (ep, _, _) => ep | None => started end.
Definition did (ops : list TpOp) : list Action := match ep_run ops started with Some (_, acts, _) => acts | None => [] end.
Definition did_from (ep : Endpoint) (ops : list TpOp) : list Action := match ep_run ops ep with Some (_, acts, _) => acts | None => [] end.
Definition told_from (ep : Endpoint) (ops : list TpOp) : list Told := match ep_run ops ep with Some (_, _, tolds) => tolds | None => [] end.
Definition ep_from (ep : Endpoint) (ops : list TpOp) : Endpoint := match ep_run ops ep with Some (ep', _, _) => ep' | None => ep end.
Definition runs_from (ep : Endpoint) (ops : list TpOp) : bool := match ep_run ops ep with Some _ => true | None => false end.

Lemma run_from ep ops : runs_from ep ops = true -> ep_run ops ep = Some (ep_from ep ops, did_from ep ops, told_from ep ops).
Proof. unfold runs_from, ep_from, did_from, told_from. by destruct (ep_run ops ep) as [[[? ?] ?]|]. Qed.

Lemma in_use_from ops : runs_from started ops = true -> in_use (ep_from started ops).
Proof.
  intros H. exists server_cfg, quiet_world, server, (snd (opened_at quiet_world)), ops, (did_from started ops), (told_from started ops).
  split_and!; [cbn; lia|cbn; lia|apply server_opened|by apply run_from].
Qed.

Definition connection (fd nowMs : Z) : AcceptAnswer :=
  {| aa_fd := fd; aa_nowMs := nowMs; aa_cred := Some (UCRED_SIZE, {| pc_pid := 100; pc_uid := 200; pc_gid := 7 |}) |}.
Definition stranger (fd nowMs : Z) : AcceptAnswer :=
  {| aa_fd := fd; aa_nowMs := nowMs; aa_cred := Some (UCRED_SIZE, {| pc_pid := 100; pc_uid := 200; pc_gid := 8 |}) |}.
Definition accepting (l : list AcceptAnswer) : PollWorld := {| pw_accepts := l; pw_peek := fun _ => 0 |}.

(** A poll of thread 0 whose listener is readable. *)
Definition accept_poll (l : list AcceptAnswer) : list TpOp :=
  [OpPollBegin 0 100 4; OpPollEnd 0 (PollReady [POLLIN]) (accepting l)].

Definition two_peers : list TpOp := accept_poll [connection 4 1200; connection 5 1201].

Example two_peers_told :
  told_from started two_peers =
    [TNothing; TPolled NVPSF_TRANSPORT_OK [peer_event NVPSF_EVENT_PEER_CONNECTED 65536; peer_event NVPSF_EVENT_PEER_CONNECTED 65537]].
Proof. vm_compute. reflexivity. Qed.

(** A refused connection ends the accept loop, also when others are pending. *)
Example refusal_ends_the_loop :
  accept_loop 8 [stranger 4 1200; connection 5 1201] server =
    (count_admission server, [FdOpened 4; ClockRead 1200; FdClosed 4], []).
Proof. vm_compute. reflexivity. Qed.

(** The last message of a peer that closed is delivered before its end. *)
Definition parting : PollWorld := {| pw_accepts := []; pw_peek := fun fd => if fd =? 4 then 1 else 0 |}.
Example message_before_gone :
  told_from (ep_from started two_peers)
    [OpPollBegin 0 100 4; OpPollEnd 0 (PollReady [0; Z.lor POLLIN POLLHUP; Z.lor POLLIN POLLHUP]) parting] =
    [TNothing; TPolled NVPSF_TRANSPORT_OK [peer_event NVPSF_EVENT_MESSAGE_READY 65536; peer_event NVPSF_EVENT_PEER_GONE 65537]].
Proof. vm_compute. reflexivity. Qed.

(** ** Instances of the theorems *)

Lemma descriptors_balance_witness :
  ledger ∅ (snd (opened_at quiet_world) ++ did_from started two_peers) = Some (list_to_set (owned (ep_t (ep_from started two_peers)))) /\
  NoDup (owned (ep_t (ep_from started two_peers))) /\
  ledger ∅ (snd (opened_at quiet_world) ++ did_from started two_peers ++ NvPSFTransportClose (ep_t (ep_from started two_peers))) = Some ∅.
Proof.
  eapply (descriptors_balance server_cfg quiet_world server _ two_peers).
  - cbn. lia.
  - cbn. lia.
  - apply server_opened.
  - apply run_from. vm_compute. reflexivity.
  - apply (bool_decide_unpack _). vm_compute. exact I.
Defined.

(** Peer [65536] is dropped, its slot goes to descriptor 6, and the old id is used
    again. *)
Definition recycled : list TpOp := accept_poll [connection 6 1300].

Lemma gone_ids_reach_nobody_witness :
  let ep := ep_from started two_peers in
  let ep2 := ep_from (ep_from ep [OpDrop 65536]) recycled in
  slotFor 131072 (ep_t ep2) = Some 0%nat /\
  NvPSFTransportDropPeer 65536 (ep_t ep2) = (ep_t ep2, [], NVPSF_TRANSPORT_PEER_GONE) /\
  forall buf answer, let '(t', acts, err) := NvPSFTransportSend 65536 buf answer (ep_t ep2) in
    t' = ep_t ep2 /\ acts = [] /\ err <> NVPSF_TRANSPORT_OK.
Proof.
  split; [vm_compute; reflexivity|].
  eapply (gone_ids_reach_nobody (ep_from started two_peers) 65536 0 1201 [OpDrop 65536] (ep_from (ep_from started two_peers) [OpDrop 65536])
    _ _ recycled).
  - apply in_use_from. vm_compute. reflexivity.
  - vm_compute. reflexivity.
  - apply run_from. vm_compute. reflexivity.
  - vm_compute. reflexivity.
  - apply run_from. vm_compute. reflexivity.
  - vm_compute. split; discriminate.
  - apply (bool_decide_unpack _). vm_compute. exact I.
  - vm_compute. reflexivity.
Defined.

Lemma endpoint_refines_peer_set_witness :
  told_steps true ∅
    [TNothing; TPolled NVPSF_TRANSPORT_OK [peer_event NVPSF_EVENT_PEER_CONNECTED 65536; peer_event NVPSF_EVENT_PEER_CONNECTED 65537]]
    {[65536; 65537]}.
Proof.
  pose proof (endpoint_refines_peer_set two_peers started (ep_from started two_peers) (did_from started two_peers) (told_from started two_peers)
    (in_use_from [] eq_refl)) as H.
  replace (live (ep_t started)) with (∅ : gset Z) in H by (vm_compute; reflexivity).
  replace (live (ep_t (ep_from started two_peers))) with ({[65536; 65537]} : gset Z) in H by (vm_compute; reflexivity).
  replace (told_from started two_peers) with
    [TNothing; TPolled NVPSF_TRANSPORT_OK [peer_event NVPSF_EVENT_PEER_CONNECTED 65536; peer_event NVPSF_EVENT_PEER_CONNECTED 65537]]
    in H by (vm_compute; reflexivity).
  apply H; [repeat constructor|vm_compute; reflexivity].
Defined.

(** Peer 0 always has more, peer 1 is served second. *)
Definition chatty : RecvWorld :=
  {| rw_shared := RecvFailed EAGAIN; rw_nowMs := 0; rw_peer := fun _ => RecvGot [1] false zero_addr |}.
Definition two_recvs : list TpOp := [OpRecv 8 chatty; OpRecv 8 chatty].

Lemma two_offered : offered 1 two_recvs (ep_from started two_peers).
Proof.
  vm_compute. split; [|split; [|exact I]]; (split; [lia|]; split; [|discriminate]; eexists; split; [reflexivity|]; split; [reflexivity|discriminate]).
Qed.

Lemma recv_serves_every_peer_witness : Exists (served 1) (told_from (ep_from started two_peers) two_recvs).
Proof.
  eapply (recv_serves_every_peer 1 two_recvs (ep_from started two_peers)).
  - apply in_use_from. vm_compute. reflexivity.
  - vm_compute. reflexivity.
  - apply two_offered.
  - apply run_from. vm_compute. reflexivity.
  - vm_compute. discriminate.
Defined.

Lemma open_spares_live_path_witness :
  cfg_kind server_cfg = NVPSF_TRANSPORT_UNIX_SOCKET /\ cfg_role server_cfg = NVPSF_ROLE_SERVER /\
  (ow_bind (in_use_world (Some ECONNREFUSED)) = None \/
   ow_bind (in_use_world (Some ECONNREFUSED)) = Some EADDRINUSE /\ 0 <= ow_probe (in_use_world (Some ECONNREFUSED)) /\
   ow_probeConnect (in_use_world (Some ECONNREFUSED)) = Some ECONNREFUSED).
Proof.
  eapply (open_spares_live_path server_cfg (in_use_world (Some ECONNREFUSED)) _ _ _ (str "/run/nvpsf/nvpss")).
  - vm_compute. reflexivity.
  - left. vm_compute. do 3 right. left.
Defined.

(** A poll waits while another thread drops peer [65536]; then both old connections
    hang up and a new one takes the slot: the hang-up of the dropped connection is
    not reported for it. *)
Definition waiting : list TpOp := two_peers ++ [OpPollBegin 0 100 4; OpDrop 65536].
Definition polled : list PollEntry := [PollListen 3; PollPeer 4 0 1; PollPeer 5 1 1].
Definition link_of_one : Link := set_live {[65537]} (set_maps {[1%nat := 65537]} ∅ PsdLink.started).
Definition hung_up : PollAnswer := PollReady [POLLIN; POLLHUP; POLLHUP].
Definition one_more : PollWorld := accepting [connection 6 1300].
Definition next_of (op : TpOp) (ep : Endpoint) : Endpoint := match ep_step op ep with Some (ep', _, _) => ep' | None => ep end.
Definition acts_of (op : TpOp) (ep : Endpoint) : list Action := match ep_step op ep with Some (_, acts, _) => acts | None => [] end.

Lemma slots_recent i : (i < 2)%nat -> recent (ep_t (ep_from started waiting)) i 1.
Proof.
  intros Hi. exists 0%nat. split; [unfold NVPSF_ACCEPTS_PER_POLL; lia|]. split; [lia|].
  destruct i as [|[|i]]; [vm_compute; reflexivity..|lia].
Qed.

Lemma link_holds_recent p : held_by link_of_one p -> recent_id (ep_t (ep_from started waiting)) p.
Proof.
  intros [[c Hc]|(k & x & Hx & _)].
  - change (lk_peers link_of_one) with ({[1%nat := 65537]} : gmap nat Z) in Hc. apply lookup_singleton_Some in Hc as [<- <-].
    exists 1%nat, 1. split; [lia|]. split; [vm_compute; reflexivity|apply slots_recent; lia].
  - change (lk_calls link_of_one) with (∅ : gmap nat Call) in Hx. by rewrite lookup_empty in Hx.
Qed.

Lemma poll_meets_link_contract_witness :
  let es := [peer_event NVPSF_EVENT_PEER_CONNECTED 131072; peer_event NVPSF_EVENT_PEER_GONE 65537] in
  batch_ok (map link_event es) link_of_one /\
  lk_live (poll (map link_event es) link_of_one) = live (ep_t (next_of (OpPollEnd 0 hung_up one_more) (ep_from started waiting))).
Proof.
  eapply (poll_meets_link_contract (ep_from started waiting) 0 4 polled hung_up one_more _
    (acts_of (OpPollEnd 0 hung_up one_more) (ep_from started waiting)) NVPSF_TRANSPORT_OK).
  - apply in_use_from. vm_compute. reflexivity.
  - vm_compute. reflexivity.
  - vm_compute. reflexivity.
  - repeat constructor; apply slots_recent; lia.
  - vm_compute. reflexivity.
  - vm_compute. reflexivity.
  - apply link_holds_recent.
Defined.

(** ** A UDP server *)

Definition udp_cfg : NvPSFTransportCfg := {|
  cfg_kind := NVPSF_TRANSPORT_UDP_SOCKET; cfg_role := NVPSF_ROLE_SERVER; cfg_link := NVPSF_LINK_GATEWAY_TO_SDM; cfg_maxPeers := 2;
  cfg_maxMessageBytes := 1621; cfg_minQueueDepth := 0; cfg_recvTimeoutMs := 0; cfg_sendTimeoutMs := 0; cfg_unixPath := None;
  cfg_unixMode := 0; cfg_allowedGid := 0; cfg_inetAddr := Some (str "127.0.0.1"); cfg_inetPort := 5005;
  cfg_inetAllowList := Some (str "127.0.0.1/32") |}.

Definition udp_server : NvPSFTransport :=
  match NvPSFTransportOpen (Some udp_cfg) quiet_world with (_, Some t, _) => t | _ => fresh_endpoint udp_cfg 0 end.

Definition loopback : sockaddr_in := {| sin_addr := 16777343; sin_port := 1 |}.
Definition elsewhere : sockaddr_in := {| sin_addr := 10; sin_port := 1 |}.
Definition datagram (src : sockaddr_in) (nowMs : Z) : TpOp :=
  OpRecv 8 {| rw_shared := RecvGot [1] false src; rw_nowMs := nowMs; rw_peer := fun _ => RecvFailed EAGAIN |}.

Example allowed_source_registers :
  told_from {| ep_t := udp_server; ep_polls := ∅ |} [datagram loopback 2000; datagram loopback 2001] =
    [TReceived {| rv_err := NVPSF_TRANSPORT_OK; rv_from := 65536; rv_bytes := [1] |};
     TReceived {| rv_err := NVPSF_TRANSPORT_OK; rv_from := 65536; rv_bytes := [1] |}].
Proof. vm_compute. reflexivity. Qed.

(** A source that is not on the list is reported once, not once per window: only an
    admission starts a new window. *)
Example denied_source_reported_once :
  did_from {| ep_t := udp_server; ep_polls := ∅ |} [datagram elsewhere 2000; datagram elsewhere 3600000; datagram elsewhere 7200000] =
    [SourceDenied].
Proof. vm_compute. reflexivity. Qed.
