(* ===== verification/Pcm.v ===== *)
(** * The fault aggregator of the perception monitor

    [pcm_fault_aggregator.cpp] and [pcm_event_reporter.cpp]: two checks report a
    verdict about once a second, the evaluator thread combines the newest reports
    every tick, debounces them and sends one verdict on the AI pipeline to PSS.

    Times of the steady clock are in nanoseconds.  A report is one step, since its
    fields are written under [reportMutex_]; a tick is one step, since it copies
    both reports under the mutex and then uses state of its own thread only.  What
    the clock reads and whether [NvPSSReportSafetyEvent] succeeds are arguments of a
    tick.  [activeFaults] feeds the log only and is left out, as is log text. *)

From S2P Require Import Prelude Protocol.

Definition kEvalTickMs : Z := 1000.
Definition NS_PER_MS : Z := 1000000.

Inductive PcmCheckVerdict := VerdictGood | VerdictBad | VerdictOff.

#[global] Instance PcmCheckVerdict_eq_dec : EqDecision PcmCheckVerdict.
Proof. solve_decision. Defined.

Record PcmAggregatorSettings := {
  as_badTicksToInvalid : Z;
  as_goodTicksToValid : Z;
  as_initialValidMs : Z;
  as_maxReportAgeMs : Z;
  as_verdictResendMs : Z;
  as_healthEnabled : bool;
  as_dvmEnabled : bool;
}.

Inductive PipelineState := PipelineStarting | PipelineValid | PipelineInvalid.

#[global] Instance PipelineState_eq_dec : EqDecision PipelineState.
Proof. solve_decision. Defined.

Inductive Contribution := ContributionNone | ContributionGood | ContributionGoodNoNewReport | ContributionBad.

#[global] Instance Contribution_eq_dec : EqDecision Contribution.
Proof. solve_decision. Defined.

Record CheckReport := { cr_hasReport : bool; cr_verdict : PcmCheckVerdict; cr_time : Z; cr_generation : Z }.

Record CheckTickState := {
  ct_lastGeneration : Z;
  ct_contributing : bool;
  ct_stuck : bool;
  ct_mustReportGood : bool;
}.

Record PcmEventReporter := {
  rp_nextEventId : Z;
  rp_hasEmitted : bool;
  rp_lastEmittedInvalid : bool;
  rp_lastSentAt : Z;
}.

Record PcmFaultAggregator := {
  pa_reporter : PcmEventReporter;
  pa_createdAt : Z;
  pa_health : CheckReport;
  pa_dvm : CheckReport;
  pa_healthTick : CheckTickState;
  pa_dvmTick : CheckTickState;
  pa_consecutiveBad : Z;
  pa_consecutiveGood : Z;
  pa_state : PipelineState;
}.

Definition ticksForMs (ms : Z) : Z :=
  if ms <=? 0 then 0 else ms ÷ kEvalTickMs + (if negb (Z.rem ms kEvalTickMs =? 0) then 1 else 0).

Definition no_report : CheckReport := {| cr_hasReport := false; cr_verdict := VerdictOff; cr_time := 0; cr_generation := 0 |}.
Definition no_tick : CheckTickState :=
  {| ct_lastGeneration := 0; ct_contributing := false; ct_stuck := false; ct_mustReportGood := false |}.

Definition new_reporter : PcmEventReporter :=
  {| rp_nextEventId := 1; rp_hasEmitted := false; rp_lastEmittedInvalid := false; rp_lastSentAt := 0 |}.

Definition new_aggregator (createdAt : Z) : PcmFaultAggregator := {|
  pa_reporter := new_reporter; pa_createdAt := createdAt; pa_health := no_report; pa_dvm := no_report;
  pa_healthTick := no_tick; pa_dvmTick := no_tick; pa_consecutiveBad := 0; pa_consecutiveGood := 0;
  pa_state := PipelineStarting |}.

Section aggregator.
Variable pssClientId : Z.
Variable settings : PcmAggregatorSettings.

Definition settings_usable : bool :=
  negb ((as_badTicksToInvalid settings <=? 0) || (as_goodTicksToValid settings <=? 0) ||
        (as_initialValidMs settings <=? 0) || (as_maxReportAgeMs settings <=? 0) || (as_verdictResendMs settings <=? 0)).

(** The result of [start] and the running flag; [spawned] is what [pthread_create]
    answers. *)
Definition start (spawned running : bool) : bool * bool :=
  if negb settings_usable then (false, running)
  else if running then (true, true)
  else if negb spawned then (false, false)
  else (true, true).

Definition initialValidTicks : Z := ticksForMs (as_initialValidMs settings).

(** ** Reporting to PSS *)

Record TickWorld := { tw_now : Z; tw_monotonicNs : Z; tw_success : bool }.

Definition pipeline_event (id : Z) (invalid : bool) (timestamp : Z) : SafetyEvent := {|
  se_id := id; se_sensorIdentifier := se_sensorIdentifier zero_SafetyEvent;
  se_type := if invalid then AI_PIPELINE_INVALID else AI_PIPELINE_VALID; se_timestamp := timestamp;
  se_confidenceLevel := f32_one; se_processed := false;
  se_fusionMetadata := {| fm_coordinates := fm_coordinates zero_metadata; fm_pipelineID := 0;
    fm_clientID := u8 pssClientId; fm_objectType := (0, 0); fm_speed := 0; fm_objectID := (0, 0) |};
  se_cause := 0; se_integrity := zero_integrity |}.

(** The new reporter, the event handed to [NvPSSReportSafetyEvent] and the result. *)
Definition reportIfStateChanged (judged invalid : bool) (w : TickWorld) (r : PcmEventReporter)
    : PcmEventReporter * option SafetyEvent * bool :=
  if negb judged then (r, None, true)
  else if rp_hasEmitted r && eqb invalid (rp_lastEmittedInvalid r)
          && (tw_now w - rp_lastSentAt r <? as_verdictResendMs settings * NS_PER_MS) then (r, None, true)
  else
    let ev := pipeline_event (rp_nextEventId r) invalid (tw_monotonicNs w) in
    let next := u32 (rp_nextEventId r + 1) in
    if negb (tw_success w) then
      ({| rp_nextEventId := next; rp_hasEmitted := rp_hasEmitted r; rp_lastEmittedInvalid := rp_lastEmittedInvalid r;
          rp_lastSentAt := rp_lastSentAt r |}, Some ev, false)
    else ({| rp_nextEventId := next; rp_hasEmitted := true; rp_lastEmittedInvalid := invalid;
             rp_lastSentAt := tw_now w |}, Some ev, true).

(** ** Reports of the checks *)

Definition record (verdict : PcmCheckVerdict) (now : Z) (report : CheckReport) : CheckReport := {|
  cr_hasReport := true; cr_verdict := verdict; cr_time := now; cr_generation := u64 (cr_generation report + 1) |}.

Definition reportHealth (verdict : PcmCheckVerdict) (now : Z) (a : PcmFaultAggregator) : PcmFaultAggregator := {|
  pa_reporter := pa_reporter a; pa_createdAt := pa_createdAt a; pa_health := record verdict now (pa_health a);
  pa_dvm := pa_dvm a; pa_healthTick := pa_healthTick a; pa_dvmTick := pa_dvmTick a;
  pa_consecutiveBad := pa_consecutiveBad a; pa_consecutiveGood := pa_consecutiveGood a; pa_state := pa_state a |}.

Definition reportDvm (verdict : PcmCheckVerdict) (now : Z) (a : PcmFaultAggregator) : PcmFaultAggregator := {|
  pa_reporter := pa_reporter a; pa_createdAt := pa_createdAt a; pa_health := pa_health a;
  pa_dvm := record verdict now (pa_dvm a); pa_healthTick := pa_healthTick a; pa_dvmTick := pa_dvmTick a;
  pa_consecutiveBad := pa_consecutiveBad a; pa_consecutiveGood := pa_consecutiveGood a; pa_state := pa_state a |}.

(** ** One tick *)

Definition report_age_ms (createdAt now : Z) (report : CheckReport) : Z :=
  (now - (if cr_hasReport report then cr_time report else createdAt)) ÷ NS_PER_MS.

Definition assessCheck (state : PipelineState) (createdAt now : Z) (report : CheckReport) (tick : CheckTickState)
    : Contribution * CheckTickState :=
  let stuck := as_maxReportAgeMs settings <? report_age_ms createdAt now report in
  let newReport := negb (cr_generation report =? ct_lastGeneration tick) in
  let contribution :=
    if negb stuck && cr_hasReport report then
      match cr_verdict report with
      | VerdictBad => ContributionBad
      | VerdictGood => if newReport then ContributionGood else ContributionGoodNoNewReport
      | VerdictOff => ContributionNone
      end
    else ContributionNone in
  let contributing := negb (bool_decide (contribution = ContributionNone)) in
  let must := if bool_decide (state = PipelineInvalid) && ct_contributing tick && negb contributing
                 && negb (ct_mustReportGood tick) then true else ct_mustReportGood tick in
  let must := if must && bool_decide (contribution = ContributionGood) then false else must in
  (contribution, {| ct_lastGeneration := cr_generation report; ct_contributing := contributing; ct_stuck := stuck;
                    ct_mustReportGood := must |}).

Definition assess_health (now : Z) (a : PcmFaultAggregator) : Contribution * CheckTickState :=
  if as_healthEnabled settings then assessCheck (pa_state a) (pa_createdAt a) now (pa_health a) (pa_healthTick a)
  else (ContributionNone, pa_healthTick a).

Definition assess_dvm (now : Z) (a : PcmFaultAggregator) : Contribution * CheckTickState :=
  if as_dvmEnabled settings then assessCheck (pa_state a) (pa_createdAt a) now (pa_dvm a) (pa_dvmTick a)
  else (ContributionNone, pa_dvmTick a).

Definition is_contribution (c h d : Contribution) : bool := bool_decide (h = c) || bool_decide (d = c).

Definition blocked (a : PcmFaultAggregator) (ht dt : CheckTickState) : bool :=
  (as_healthEnabled settings && negb (cr_hasReport (pa_health a))) ||
  (as_dvmEnabled settings && negb (cr_hasReport (pa_dvm a))) ||
  ct_stuck ht || ct_stuck dt || ct_mustReportGood ht || ct_mustReportGood dt.

Definition good_tick (a : PcmFaultAggregator) (h d : Contribution) (ht dt : CheckTickState) : bool :=
  is_contribution ContributionGood h d && negb (is_contribution ContributionGoodNoNewReport h d) && negb (blocked a ht dt).

Definition count_bad (anyBad : bool) (n : Z) : Z :=
  if anyBad then (if n <? as_badTicksToInvalid settings then n + 1 else n) else 0.

Definition count_good (anyBad good : bool) (n : Z) : Z :=
  if anyBad then 0
  else if good then (if n <? Z.max (as_goodTicksToValid settings) initialValidTicks then n + 1 else n)
  else n.

Definition next_state (bad good : Z) (state : PipelineState) : PipelineState :=
  if negb (bool_decide (state = PipelineInvalid)) && (0 <? bad) && (as_badTicksToInvalid settings <=? bad)
  then PipelineInvalid
  else if bool_decide (state = PipelineStarting) && (0 <? good) && (initialValidTicks <=? good)
  then PipelineValid
  else if bool_decide (state = PipelineInvalid) && (0 <? good) && (as_goodTicksToValid settings <=? good)
  then PipelineValid
  else state.

(** The tick, the event it sent and whether that was delivered. *)
Definition evaluateTick (w : TickWorld) (a : PcmFaultAggregator) : PcmFaultAggregator * option (SafetyEvent * bool) :=
  let '(h, ht) := assess_health (tw_now w) a in
  let '(d, dt) := assess_dvm (tw_now w) a in
  let anyBad := is_contribution ContributionBad h d in
  let bad := count_bad anyBad (pa_consecutiveBad a) in
  let good := count_good anyBad (good_tick a h d ht dt) (pa_consecutiveGood a) in
  let state := next_state bad good (pa_state a) in
  let '(reporter, sent, delivered) :=
    if bool_decide (state = PipelineStarting) then (pa_reporter a, None, true)
    else reportIfStateChanged true (bool_decide (state = PipelineInvalid)) w (pa_reporter a) in
  ({| pa_reporter := reporter; pa_createdAt := pa_createdAt a; pa_health := pa_health a; pa_dvm := pa_dvm a;
      pa_healthTick := ht; pa_dvmTick := dt; pa_consecutiveBad := bad; pa_consecutiveGood := good; pa_state := state |},
   (fun ev => (ev, delivered)) <$> sent).

(** ** Runs *)

Inductive PcmCheck := HealthCheck | DvmCheck.

#[global] Instance PcmCheck_eq_dec : EqDecision PcmCheck.
Proof. solve_decision. Defined.

Inductive PcmOp :=
| OpReport (c : PcmCheck) (verdict : PcmCheckVerdict) (now : Z)
| OpTick (w : TickWorld).

Definition report (c : PcmCheck) : PcmCheckVerdict -> Z -> PcmFaultAggregator -> PcmFaultAggregator :=
  match c with HealthCheck => reportHealth | DvmCheck => reportDvm end.

Definition pcm_step (op : PcmOp) (a : PcmFaultAggregator) : PcmFaultAggregator * list (SafetyEvent * bool) :=
  match op with
  | OpReport c v now => (report c v now a, [])
  | OpTick w => let '(a', sent) := evaluateTick w a in (a', option_list sent)
  end.

Fixpoint pcm_run (ops : list PcmOp) (a : PcmFaultAggregator) : PcmFaultAggregator * list (SafetyEvent * bool) :=
  match ops with
  | [] => (a, [])
  | op :: ops' =>
    let '(a1, sent1) := pcm_step op a in
    let '(a2, sent2) := pcm_run ops' a1 in (a2, sent1 ++ sent2)
  end.

End aggregator.
