(* ===== verification/PcmVerdict.v ===== *)
(** * The pipeline verdict as a function of the ticks

    Every tick of the aggregator of [Pcm.v] is bad, good or a pause.  The counters
    and the state are a fold over the kinds of the ticks, and the state is
    characterised by the stretches of the history: a run of bad ticks makes the
    pipeline invalid, a stretch without bad ticks that holds enough good ones makes
    it valid. *)

From S2P Require Import Prelude Protocol Pcm.

Inductive TickKind := TickBad | TickGood | TickPause.

#[global] Instance TickKind_eq_dec : EqDecision TickKind.
Proof. solve_decision. Defined.

(** ** Stretches of a history, oldest tick first *)

(** The history ends with [n] bad ticks. *)
Definition bad_run (n : nat) (ks : list TickKind) : Prop := exists pre, ks = pre ++ replicate n TickBad.

Definition goods (ks : list TickKind) : nat := length (filter (.= TickGood) ks).

(** The history ends with a stretch without a bad tick that holds [n] good ones. *)
Definition good_stretch (n : nat) (ks : list TickKind) : Prop :=
  exists pre post, ks = pre ++ post /\ ~ (TickBad ∈ post) /\ (n <= goods post)%nat.

(** The lengths of the two stretches, newest tick first. *)
Fixpoint bads_ending (rks : list TickKind) : nat :=
  match rks with TickBad :: r => S (bads_ending r) | _ => 0%nat end.

Fixpoint goods_ending (rks : list TickKind) : nat :=
  match rks with
  | TickGood :: r => S (goods_ending r)
  | TickPause :: r => goods_ending r
  | _ => 0%nat
  end.

Lemma replicate_snoc {A} n (x : A) : replicate n x ++ [x] = x :: replicate n x.
Proof. induction n as [|n IH]; cbn; [done|by rewrite IH]. Qed.

Lemma bad_run_ending n ks : bad_run n ks <-> (n <= bads_ending (reverse ks))%nat.
Proof.
  revert n. induction ks as [|k ks IH] using rev_ind; intros n.
  - cbn. split; [|intros; exists []; by replace n with 0%nat by lia].
    intros [pre E%(f_equal length)]. rewrite length_app, length_replicate in E. cbn in E. lia.
  - rewrite reverse_app. cbn. destruct n as [|n].
    + split; [intros; lia|]. intros _. exists (ks ++ [k]). by rewrite app_nil_r.
    + assert (bad_run (S n) (ks ++ [k]) <-> k = TickBad /\ bad_run n ks) as ->.
      { split.
        - intros [pre E]. cbn in E. rewrite <- replicate_snoc, app_assoc in E. apply app_inj_tail in E as [-> ->]. by split; [|eexists].
        - intros [-> [pre ->]]. exists pre. cbn. by rewrite <- replicate_snoc, app_assoc. }
      rewrite IH. destruct k; [|split; [intros []; done|lia]..]. split; [intros []; lia|intros; split; [done|lia]].
Qed.

Lemma goods_snoc ks k : goods (ks ++ [k]) = (goods ks + if decide (k = TickGood) then 1 else 0)%nat.
Proof. unfold goods. rewrite filter_app, length_app. by destruct k. Qed.

Lemma good_stretch_snoc n ks k : k <> TickBad ->
  good_stretch n (ks ++ [k]) <-> n = 0%nat \/ good_stretch (n - if decide (k = TickGood) then 1 else 0) ks.
Proof.
  intros Hk. split.
  - intros (pre & post & E & Hb & Hn). destruct post as [|k' post _] using rev_ind; [left; cbn in Hn; lia|].
    rewrite app_assoc in E. apply app_inj_tail in E as [-> ->]. right. exists pre, post. split; [done|].
    rewrite goods_snoc in Hn. split; [set_solver|lia].
  - intros [->|(pre & post & -> & Hb & Hn)].
    + exists (ks ++ [k]), []. rewrite app_nil_r. split_and!; [done|set_solver|cbn; lia].
    + exists pre, (post ++ [k]). rewrite app_assoc, goods_snoc. split_and!; [done|set_solver|lia].
Qed.

Lemma good_stretch_bad n ks : good_stretch n (ks ++ [TickBad]) <-> n = 0%nat.
Proof.
  split.
  - intros (pre & post & E & Hb & Hn). destruct post as [|k post _] using rev_ind; [cbn in Hn; lia|].
    rewrite app_assoc in E. apply app_inj_tail in E as [_ <-]. set_solver.
  - intros ->. exists (ks ++ [TickBad]), []. rewrite app_nil_r. split_and!; [done|set_solver|cbn; lia].
Qed.

Lemma good_stretch_ending n ks : good_stretch n ks <-> (n <= goods_ending (reverse ks))%nat.
Proof.
  revert n. induction ks as [|k ks IH] using rev_ind; intros n.
  - cbn. split.
    + intros (pre & post & E & _ & Hn). symmetry in E. apply app_nil in E as [-> ->]. cbn in Hn. lia.
    + intros. exists [], []. split_and!; [done|set_solver|cbn; lia].
  - rewrite reverse_app. cbn. destruct k; [rewrite good_stretch_bad; lia|rewrite good_stretch_snoc, IH by done; case_decide; try done; lia..].
Qed.

(** ** The fold *)

Section verdict.
Variable settings : PcmAggregatorSettings.

Definition tick_kind (now : Z) (a : PcmFaultAggregator) : TickKind :=
  let '(h, ht) := assess_health settings now a in
  let '(d, dt) := assess_dvm settings now a in
  if is_contribution ContributionBad h d then TickBad
  else if good_tick settings a h d ht dt then TickGood else TickPause.

Record Count := { n_bad : Z; n_good : Z; n_state : PipelineState }.

Definition counts (a : PcmFaultAggregator) : Count :=
  {| n_bad := pa_consecutiveBad a; n_good := pa_consecutiveGood a; n_state := pa_state a |}.

Definition count_tick (c : Count) (k : TickKind) : Count :=
  let bad := count_bad settings (bool_decide (k = TickBad)) (n_bad c) in
  let good := count_good settings (bool_decide (k = TickBad)) (bool_decide (k = TickGood)) (n_good c) in
  {| n_bad := bad; n_good := good; n_state := next_state settings bad good (n_state c) |}.

Variable pssClientId : Z.

(** The kinds of the ticks of a run. *)
Fixpoint kinds (ops : list PcmOp) (a : PcmFaultAggregator) : list TickKind :=
  match ops with
  | [] => []
  | op :: ops' =>
    let rest := kinds ops' (pcm_step pssClientId settings op a).1 in
    match op with OpReport _ _ _ => rest | OpTick w => tick_kind (tw_now w) a :: rest end
  end.

Lemma tick_counts w a : counts (evaluateTick pssClientId settings w a).1 = count_tick (counts a) (tick_kind (tw_now w) a).
Proof.
  unfold evaluateTick, tick_kind. destruct (assess_health _ _ _) as [h ht], (assess_dvm _ _ _) as [d dt].
  destruct (if bool_decide (next_state _ _ _ _ = _) then _ else _) as [[rp sent] delivered]. unfold counts, count_tick. cbn.
  destruct (is_contribution ContributionBad h d); cbn; [done|]. by destruct (good_tick _ _ _ _ _ _).
Qed.

Lemma report_counts c v now a : counts (report c v now a) = counts a.
Proof. by destruct c. Qed.

Lemma run_counts ops a : counts (pcm_run pssClientId settings ops a).1 = foldl count_tick (counts a) (kinds ops a).
Proof.
  revert a. induction ops as [|op ops IH]; intros a; cbn; [done|]. destruct (pcm_step pssClientId settings op a) as [a1 sent1] eqn:E.
  specialize (IH a1). destruct (pcm_run _ _ ops a1) as [a2 sent2]. cbn in *. rewrite IH. destruct op as [c v now|w]; cbn in E.
  - simplify_eq. by rewrite report_counts.
  - destruct (evaluateTick _ _ w a) as [a' s] eqn:E1. simplify_eq. cbn. f_equal. by rewrite <- tick_counts, E1.
Qed.

Definition count_start : Count := {| n_bad := 0; n_good := 0; n_state := PipelineStarting |}.

Definition judge (ks : list TickKind) : Count := foldl count_tick count_start ks.

Lemma judge_snoc ks k : judge (ks ++ [k]) = count_tick (judge ks) k.
Proof. unfold judge. by rewrite foldl_app. Qed.

Definition badTicks : nat := Z.to_nat (as_badTicksToInvalid settings).
Definition goodTicks : nat := Z.to_nat (as_goodTicksToValid settings).
Definition firstTicks : nat := Z.to_nat (initialValidTicks settings).

Context (usable : settings_usable settings = true).

Lemma usable_positive : 0 < as_badTicksToInvalid settings /\ 0 < as_goodTicksToValid settings /\ 0 < initialValidTicks settings.
Proof.
  unfold settings_usable in usable. rewrite negb_true_iff, !orb_false_iff, !Z.leb_gt in usable.
  destruct usable as [[[[? ?] Hi] _] _]. split_and!; [done..|]. unfold initialValidTicks, ticksForMs, kEvalTickMs.
  destruct (Z.leb_spec (as_initialValidMs settings) 0); [lia|].
  pose proof (Z.quot_rem' (as_initialValidMs settings) 1000). pose proof (Z.rem_bound_pos (as_initialValidMs settings) 1000).
  pose proof (Z.quot_pos (as_initialValidMs settings) 1000). destruct (Z.eqb_spec (Z.rem (as_initialValidMs settings) 1000) 0); cbn; lia.
Qed.

(** The counters are the lengths of the stretches, up to their caps. *)
Lemma judge_counters ks :
  n_bad (judge ks) = Z.min (as_badTicksToInvalid settings) (Z.of_nat (bads_ending (reverse ks))) /\
  n_good (judge ks) = Z.min (Z.max (as_goodTicksToValid settings) (initialValidTicks settings)) (Z.of_nat (goods_ending (reverse ks))).
Proof.
  pose proof usable_positive. induction ks as [|k ks [IHb IHg]] using rev_ind; [cbn; lia|].
  rewrite judge_snoc, reverse_app. unfold count_tick, count_bad, count_good. cbn. rewrite IHb, IHg.
  destruct k; repeat case_bool_decide; try done; cbn; repeat case_match; lia.
Qed.

Lemma judge_step ks k :
  n_state (judge (ks ++ [k])) =
    if negb (bool_decide (n_state (judge ks) = PipelineInvalid)) && bool_decide (badTicks <= bads_ending (reverse (ks ++ [k])))%nat
    then PipelineInvalid
    else if bool_decide (n_state (judge ks) = PipelineStarting) && bool_decide (firstTicks <= goods_ending (reverse (ks ++ [k])))%nat
    then PipelineValid
    else if bool_decide (n_state (judge ks) = PipelineInvalid) && bool_decide (goodTicks <= goods_ending (reverse (ks ++ [k])))%nat
    then PipelineValid else n_state (judge ks).
Proof.
  pose proof usable_positive. destruct (judge_counters (ks ++ [k])) as [Hb Hg]. rewrite judge_snoc in *. cbn in Hb, Hg.
  unfold count_tick at 1. cbn [n_state]. rewrite Hb, Hg. unfold next_state, badTicks, firstTicks, goodTicks.
  set (b := bads_ending _). set (g := goods_ending _). destruct (n_state (judge ks)); cbn;
    repeat case_bool_decide; cbn; repeat case_match; try done; lia.
Qed.

(** A history that ends in a bad tick: later good stretches do not reach back. *)
Lemma good_stretch_after n m k1 k2 : (0 < m)%nat -> bad_run m k1 -> (0 < n)%nat -> good_stretch n (k1 ++ k2) -> good_stretch n k2.
Proof.
  intros Hm [pre ->] Hn (p & post & E & Hb & Hc). exists (take (length k2 - length post) k2), post.
  split; [|done]. destruct (decide (length post <= length k2)%nat) as [Hle|Hgt].
  - assert (Hd : post = drop (length k2 - length post) k2); [|by rewrite Hd at 2; rewrite take_drop].
    apply (f_equal (drop (length p))) in E as E'. rewrite drop_app_length in E'. rewrite <- E' at 1.
    apply (f_equal length) in E. rewrite !length_app, length_replicate in E.
    rewrite drop_app_ge by (rewrite length_app, length_replicate; lia). f_equal. rewrite length_app, length_replicate. lia.
  - destruct Hb. apply (f_equal (fun l => drop (length p) l)) in E as E'. rewrite drop_app_length in E'. rewrite <- E'.
    apply (f_equal length) in E. rewrite !length_app, length_replicate in E.
    destruct m as [|m]; [lia|]. cbn [replicate] in *. rewrite <- replicate_snoc, app_assoc, <- app_assoc.
    rewrite drop_app_le by (rewrite length_app, length_replicate; lia). set_solver.
Qed.

(** Some run of bad ticks was not yet followed by a stretch of recovery. *)
Definition unrecovered (ks : list TickKind) : Prop :=
  exists k1 k2, ks = k1 ++ k2 /\ bad_run badTicks k1 /\ forall k, k `prefix_of` k2 -> ~ good_stretch goodTicks k.

(** No run of bad ticks and no first stretch of good ones. *)
Definition unjudged (ks : list TickKind) : Prop :=
  forall k, k `prefix_of` ks -> ~ bad_run badTicks k /\ ~ good_stretch firstTicks k.

Lemma thresholds : (0 < badTicks)%nat /\ (0 < goodTicks)%nat /\ (0 < firstTicks)%nat.
Proof. pose proof usable_positive. unfold badTicks, goodTicks, firstTicks. lia. Qed.

Lemma prefix_snoc {A} (l k : list A) x : k `prefix_of` l ++ [x] <-> k `prefix_of` l \/ k = l ++ [x].
Proof.
  split.
  - intros [r E]. destruct r as [|y r _] using rev_ind; [right; by rewrite app_nil_r in E|].
    rewrite app_assoc in E. apply app_inj_tail in E as [-> _]. left. by exists r.
  - intros [[r ->]| ->]; [|done]. exists (r ++ [x]). by rewrite app_assoc.
Qed.

Lemma bad_run_nil n : (0 < n)%nat -> ~ bad_run n [].
Proof. intros Hn. rewrite bad_run_ending. cbn. lia. Qed.

Lemma good_stretch_nil n : (0 < n)%nat -> ~ good_stretch n [].
Proof. intros Hn. rewrite good_stretch_ending. cbn. lia. Qed.

Lemma bads_no_goods rks : (0 < bads_ending rks)%nat -> goods_ending rks = 0%nat.
Proof. destruct rks as [|[] rks]; cbn; lia. Qed.

Lemma unrecovered_snoc ks k : unrecovered (ks ++ [k]) <->
  bad_run badTicks (ks ++ [k]) \/ unrecovered ks /\ ~ good_stretch goodTicks (ks ++ [k]).
Proof.
  pose proof thresholds as (Hb & Hg & _). split.
  - intros (k1 & k2 & E & Hbad & Hno). destruct k2 as [|k' k2 _] using rev_ind; [rewrite app_nil_r in E; subst; by left|].
    rewrite app_assoc in E. apply app_inj_tail in E as [-> ->]. right. split.
    + exists k1, k2. split_and!; [done..|]. intros p Hp. apply Hno. rewrite prefix_snoc. by left.
    + rewrite <- app_assoc. intros Hs. apply (Hno (k2 ++ [k'])); [done|]. by eapply (good_stretch_after _ badTicks k1).
  - intros [Hbad|[(k1 & k2 & -> & Hbad & Hno) Hs]].
    + exists (ks ++ [k]), []. rewrite app_nil_r. split_and!; [done..|]. intros p Hp%prefix_nil_inv. subst. by apply good_stretch_nil.
    + exists k1, (k2 ++ [k]). rewrite app_assoc. split_and!; [done..|]. intros p [Hp| ->]%prefix_snoc; [by apply Hno|].
      intros (pre & post & E & H). apply Hs. exists (k1 ++ pre), post. by rewrite <- !app_assoc, E.
Qed.

Lemma judge_state ks : (n_state (judge ks) = PipelineInvalid <-> unrecovered ks) /\ (n_state (judge ks) = PipelineStarting <-> unjudged ks).
Proof.
  pose proof thresholds as (Hb & Hg & Hf). induction ks as [|k ks [IHi IHs]] using rev_ind.
  - cbn. split; split; try done.
    + intros (k1 & k2 & E & Hbad & _). symmetry in E. apply app_nil in E as [E1 E2]. subst. destruct (bad_run_nil _ Hb Hbad).
    + intros _ p Hp%prefix_nil_inv. subst. split; [by apply bad_run_nil|by apply good_stretch_nil].
  - assert (unjudged (ks ++ [k]) <-> unjudged ks /\ ~ bad_run badTicks (ks ++ [k]) /\ ~ good_stretch firstTicks (ks ++ [k])) as ->.
    { split.
      - intros H. split; [intros p Hp|]; apply H; rewrite prefix_snoc; auto.
      - intros [H Hk] p [Hp| ->]%prefix_snoc; [by apply H|done]. }
    rewrite unrecovered_snoc, <- IHi, <- IHs, judge_step, bad_run_ending, !good_stretch_ending.
    pose proof (bads_no_goods (reverse (ks ++ [k]))). destruct (n_state (judge ks)); cbn; repeat case_bool_decide; cbn; split; split;
      try naive_solver lia.
Qed.

End verdict.

Lemma verdict_of_run pssClientId settings createdAt ops : settings_usable settings = true ->
  let a := (pcm_run pssClientId settings ops (new_aggregator createdAt)).1 in
  (pa_state a = PipelineInvalid <-> unrecovered settings (kinds settings pssClientId ops (new_aggregator createdAt))) /\
  (pa_state a = PipelineStarting <-> unjudged settings (kinds settings pssClientId ops (new_aggregator createdAt))).
Proof.
  intros Hu a. pose proof (run_counts settings pssClientId ops (new_aggregator createdAt)) as Hc. fold a in Hc.
  pose proof (judge_state settings Hu (kinds settings pssClientId ops (new_aggregator createdAt))) as Hj.
  unfold judge in Hj. change count_start with (counts (new_aggregator createdAt)) in Hj. by rewrite <- Hc in Hj.
Qed.

(** The pipeline verdict is exactly what the ticks say, in every run of reports
    and ticks: it is INVALID while some run of [badTicksToInvalid] bad ticks has
    not been followed by a stretch without bad ticks that holds
    [goodTicksToValid] good ones, and there is none yet as long as there was
    neither such a run nor a first stretch of good ticks. *)
Theorem pipeline_verdict_exact pssClientId settings createdAt ops a sent : settings_usable settings = true ->
  pcm_run pssClientId settings ops (new_aggregator createdAt) = (a, sent) ->
  (pa_state a = PipelineInvalid <-> unrecovered settings (kinds settings pssClientId ops (new_aggregator createdAt))) /\
  (pa_state a = PipelineStarting <-> unjudged settings (kinds settings pssClientId ops (new_aggregator createdAt))).
Proof. intros Hu Hr. pose proof (verdict_of_run pssClientId settings createdAt ops Hu) as H. by rewrite Hr in H. Qed.
