(* ===== verification/PcmSafety.v ===== *)
(** * Recovery and publication of the pipeline verdict

    What a run of the aggregator of [Pcm.v] guarantees beyond the exact verdict of
    [PcmVerdict.v]: a check that was lost while the pipeline was invalid has to
    report good again, and the trust state of the event manager of
    [EventManager.v], fed with the delivered events, follows the verdict. *)

From S2P Require Import Prelude Protocol Crc Validate DeliveryFailSafe Staging Float32 SpatialCorrelation FusionEngine FusionHealth EventManager Pcm PcmVerdict.

Section safety.
Variable pssClientId : Z.
Variable settings : PcmAggregatorSettings.

Definition enabled (c : PcmCheck) : bool :=
  match c with HealthCheck => as_healthEnabled settings | DvmCheck => as_dvmEnabled settings end.

Definition report_of (c : PcmCheck) (a : PcmFaultAggregator) : CheckReport :=
  match c with HealthCheck => pa_health a | DvmCheck => pa_dvm a end.

Definition tick_of (c : PcmCheck) (a : PcmFaultAggregator) : CheckTickState :=
  match c with HealthCheck => pa_healthTick a | DvmCheck => pa_dvmTick a end.

(** How check [c] stands at a tick. *)
Definition assess (c : PcmCheck) (now : Z) (a : PcmFaultAggregator) : Contribution * CheckTickState :=
  match c with HealthCheck => assess_health settings now a | DvmCheck => assess_dvm settings now a end.

Lemma assess_enabled c now a : enabled c = true ->
  assess c now a = assessCheck settings (pa_state a) (pa_createdAt a) now (report_of c a) (tick_of c a).
Proof. destruct c; cbn; unfold assess_health, assess_dvm; by intros ->. Qed.

Lemma tick_reports c w a : report_of c (evaluateTick pssClientId settings w a).1 = report_of c a.
Proof.
  unfold evaluateTick. destruct (assess_health _ _ _), (assess_dvm _ _ _). by destruct (if _ : bool then _ else _) as [[? ?] ?], c.
Qed.

Lemma tick_assessed c w a : tick_of c (evaluateTick pssClientId settings w a).1 = (assess c (tw_now w) a).2.
Proof.
  unfold evaluateTick, assess. destruct (assess_health _ _ _), (assess_dvm _ _ _). by destruct (if _ : bool then _ else _) as [[? ?] ?], c.
Qed.

Lemma tick_state w a : pa_state (evaluateTick pssClientId settings w a).1 = n_state (count_tick settings (counts a) (tick_kind settings (tw_now w) a)).
Proof. by rewrite <- (tick_counts settings pssClientId). Qed.

Lemma tick_good w a : pa_consecutiveGood (evaluateTick pssClientId settings w a).1 = n_good (count_tick settings (counts a) (tick_kind settings (tw_now w) a)).
Proof. by rewrite <- (tick_counts settings pssClientId). Qed.

(** A good tick: no check is bad or repeats itself, and none must report good. *)
Lemma good_kind c now a : tick_kind settings now a = TickGood -> let '(x, t) := assess c now a in
  x <> ContributionBad /\ x <> ContributionGoodNoNewReport /\ ct_mustReportGood t = false.
Proof.
  unfold tick_kind, assess, good_tick, blocked, is_contribution. destruct (assess_health _ _ _) as [h ht], (assess_dvm _ _ _) as [d dt].
  destruct (ct_mustReportGood ht) eqn:Eh, (ct_mustReportGood dt) eqn:Ed; rewrite ?orb_true_r, ?andb_false_r; cbn;
    [case_match; done..|]. destruct h, d, c; cbn; rewrite ?andb_false_r; intros Hk; try done; by rewrite ?Eh, ?Ed.
Qed.

(** ** Recovery *)

(** While [c] is watched the pipeline cannot recover without a good report of [c]. *)
Record watched (c : PcmCheck) (a : PcmFaultAggregator) : Prop := {
  wa_state : pa_state a = PipelineInvalid;
  wa_count : pa_consecutiveGood a < as_goodTicksToValid settings;
  wa_check : ct_contributing (tick_of c a) = true \/ ct_mustReportGood (tick_of c a) = true;
  wa_report : cr_verdict (report_of c a) = VerdictGood -> cr_generation (report_of c a) = ct_lastGeneration (tick_of c a);
}.

Context (usable : settings_usable settings = true).

Lemma invalid_count k x : 0 <= n_good x -> n_state (count_tick settings x k) = PipelineInvalid -> n_good (count_tick settings x k) < as_goodTicksToValid settings.
Proof.
  pose proof (usable_positive settings usable) as (? & ? & ?). unfold count_tick, next_state, count_bad, count_good. cbn.
  destruct k, (n_state x); repeat case_bool_decide; try done; cbn; repeat case_match; intros; try done; lia.
Qed.

Lemma watched_kind k x : n_state x = PipelineInvalid -> n_good x < as_goodTicksToValid settings -> k <> TickGood ->
  n_state (count_tick settings x k) = PipelineInvalid /\ n_good (count_tick settings x k) < as_goodTicksToValid settings.
Proof.
  pose proof (usable_positive settings usable) as (? & ? & ?). intros Hs Hg Hk. unfold count_tick, next_state, count_good. rewrite Hs. cbn.
  destruct k; [|done|]; repeat case_bool_decide; try done; cbn; repeat case_match; try done; lia.
Qed.

Lemma watched_tick c w a : enabled c = true -> watched c a -> watched c (evaluateTick pssClientId settings w a).1.
Proof.
  intros He [Hs Hg Hc Hr].
  assert (Hk : tick_kind settings (tw_now w) a <> TickGood /\
    (ct_contributing (assess c (tw_now w) a).2 = true \/ ct_mustReportGood (assess c (tw_now w) a).2 = true)).
  { pose proof (good_kind c (tw_now w) a) as Hgood. rewrite assess_enabled in * by done. unfold assessCheck in *. rewrite Hs in *.
    destruct (negb _ && cr_hasReport _); [destruct (cr_verdict (report_of c a)); [rewrite (Hr eq_refl), Z.eqb_refl in *|..]|];
      destruct (ct_contributing (tick_of c a)), (ct_mustReportGood (tick_of c a)); cbn in *; (split; [intros Hk; naive_solver|tauto || naive_solver]). }
  destruct Hk as [Hk Hc']. pose proof (watched_kind (tick_kind settings (tw_now w) a) (counts a) Hs Hg Hk) as [Hs' Hg'].
  split; rewrite ?tick_state, ?tick_good, ?tick_assessed, ?tick_reports; [done..|]. intros _. by rewrite assess_enabled.
Qed.

Lemma report_other c c' v now a : c <> c' -> report_of c (report c' v now a) = report_of c a.
Proof. by destruct c, c'. Qed.

Lemma watched_step c op a : enabled c = true -> watched c a -> (forall now, op <> OpReport c VerdictGood now) ->
  watched c (pcm_step pssClientId settings op a).1.
Proof.
  intros He Hw Hop. destruct op as [c' v now|w]; cbn.
  - destruct Hw as [Hs Hg Hc Hr]. assert (Ht : tick_of c (report c' v now a) = tick_of c a) by by destruct c, c'.
    split; rewrite ?Ht; [by destruct c'..|done|]. destruct (decide (c = c')) as [<-|Hne].
    + destruct c; cbn; intros ->; by destruct (Hop now).
    + by rewrite report_other by (destruct c, c'; done).
  - destruct (evaluateTick _ _ w a) as [a' sent] eqn:E. cbn. change a' with (a', sent).1. rewrite <- E. by apply watched_tick.
Qed.

Lemma watched_run c ops a : enabled c = true -> watched c a -> (forall now, ~ (OpReport c VerdictGood now ∈ ops)) ->
  watched c (pcm_run pssClientId settings ops a).1.
Proof.
  intros He. revert a. induction ops as [|op ops IH]; intros a Hw Hno; [done|]. cbn.
  destruct (pcm_step pssClientId settings op a) as [a1 sent1] eqn:E. destruct (pcm_run _ _ ops a1) as [a2 sent2] eqn:E2. cbn.
  change a2 with (a2, sent2).1. rewrite <- E2. apply IH; [|set_solver]. change a1 with (a1, sent1).1. rewrite <- E.
  apply watched_step; [done..|]. intros now ->. apply (Hno now). set_solver.
Qed.

Lemma pcm_run_app ops1 ops2 a : pcm_run pssClientId settings (ops1 ++ ops2) a =
  ((pcm_run pssClientId settings ops2 (pcm_run pssClientId settings ops1 a).1).1,
   (pcm_run pssClientId settings ops1 a).2 ++ (pcm_run pssClientId settings ops2 (pcm_run pssClientId settings ops1 a).1).2).
Proof.
  revert a. induction ops1 as [|op ops1 IH]; intros a; cbn; [by destruct (pcm_run _ _ ops2 a)|].
  destruct (pcm_step pssClientId settings op a) as [a1 s1]. rewrite IH. destruct (pcm_run _ _ ops1 a1) as [a2 s2]. cbn.
  destruct (pcm_run _ _ ops2 a2). cbn. by rewrite app_assoc.
Qed.

Definition good_report (c : PcmCheck) (op : PcmOp) : bool :=
  match op with OpReport c' v _ => bool_decide (c' = c) && bool_decide (v = VerdictGood) | OpTick _ => false end.

Lemma good_report_elem c ops : Exists (good_report c) ops <-> exists now, OpReport c VerdictGood now ∈ ops.
Proof.
  rewrite Exists_exists. split.
  - intros ([c' v now|] & Hin & Hop); [|done]. apply andb_prop_elim in Hop as [->%bool_decide_unpack ->%bool_decide_unpack]. by exists now.
  - intros [now Hin]. exists (OpReport c VerdictGood now). split; [done|]. cbn. by rewrite !bool_decide_true.
Qed.

Lemma good_nonneg ops a : 0 <= pa_consecutiveGood a -> 0 <= pa_consecutiveGood (pcm_run pssClientId settings ops a).1.
Proof.
  intros H. change (pa_consecutiveGood ?x) with (n_good (counts x)) in *. rewrite run_counts. revert H. generalize (counts a).
  induction (kinds settings pssClientId ops a) as [|k ks IH]; intros x H; cbn; [done|]. apply IH. unfold count_tick, count_good. cbn.
  repeat case_match; lia.
Qed.

End safety.

(** C16. The pipeline does not recover behind the back of a check: if a check was
    contributing, or was already required to report good, at a tick that left the
    pipeline INVALID, the pipeline leaves INVALID only after a good report of that
    same check, whatever the checks report, miss or delay meanwhile. *)
Theorem recovery_needs_good_report pssClientId settings createdAt ops1 w ops2 c :
  settings_usable settings = true -> enabled settings c = true ->
  let a := (pcm_run pssClientId settings (ops1 ++ [OpTick w]) (new_aggregator createdAt)).1 in
  pa_state a = PipelineInvalid -> ct_contributing (tick_of c a) = true \/ ct_mustReportGood (tick_of c a) = true ->
  pa_state (pcm_run pssClientId settings ops2 a).1 <> PipelineInvalid ->
  exists now, OpReport c VerdictGood now ∈ ops2.
Proof.
  intros Hu He a Hs Hc Hv.
  destruct (decide (Exists (good_report c) ops2)) as [Hex|Hno]; [by apply good_report_elem|].
  destruct Hv. apply (watched_run pssClientId settings Hu c); [done| |intros now Hin; apply Hno, good_report_elem; by eexists].
  subst a. rewrite pcm_run_app in *. cbn in *. set (a0 := (pcm_run _ _ ops1 _).1) in *.
  destruct (evaluateTick pssClientId settings w a0) as [a sent] eqn:E. cbn in *.
  assert (a = (evaluateTick pssClientId settings w a0).1) as -> by by rewrite E. clear E.
  split; [done| |done|].
  - rewrite tick_good. rewrite tick_state in Hs. apply invalid_count; [done| |done]. apply good_nonneg. cbn. lia.
  - intros _. rewrite tick_reports, tick_assessed, assess_enabled by done. done.
Qed.
