(* ===== verification/PcmTrust.v ===== *)
(** * The pipeline verdict at PSS

    The perception monitor of [Pcm.v] beside the trust state of
    [EventManager.v]: the events it delivers are its trust reports, and reports of
    other clients come in between.  After a tick whose event, if it sent one, was
    delivered, PSS distrusts the AI pipeline exactly while the monitor's history
    has an unrecovered run of bad ticks. *)

From S2P Require Import Prelude Protocol Crc Validate DeliveryFailSafe Staging Float32 SpatialCorrelation FusionEngine FusionHealth EventManager Pcm PcmVerdict PcmSafety.

Section trust.
Variable cfg : ManagerConfig.
Variable pssClientId : Z.
Variable settings : PcmAggregatorSettings.

(** A step of the monitor, or a trust report of a client of another type. *)
Inductive TrustOp :=
| TrustPcm (op : PcmOp) (ts : timespec)
| TrustOther (clientType : Z) (event : SafetyEvent) (ts : timespec).

Definition other_client (op : TrustOp) : Prop :=
  match op with TrustPcm _ _ => True | TrustOther t _ _ => t <> CLIENT_PERCEPTION_MONITOR end.

Definition deliver (ts : timespec) (m : EventManager) (sent : SafetyEvent * bool) : EventManager :=
  if sent.2 then (OnTrustReport cfg CLIENT_PERCEPTION_MONITOR sent.1 ts m).1 else m.

Definition trust_step (s : PcmFaultAggregator * EventManager) (op : TrustOp) : PcmFaultAggregator * EventManager :=
  let '(a, m) := s in
  match op with
  | TrustPcm op ts => let '(a', sent) := pcm_step pssClientId settings op a in (a', foldl (deliver ts) m sent)
  | TrustOther clientType event ts => (a, (OnTrustReport cfg clientType event ts m).1)
  end.

Definition trust_run (ops : list TrustOp) (s : PcmFaultAggregator * EventManager) : PcmFaultAggregator * EventManager :=
  foldl trust_step s ops.

Definition pcm_ops (ops : list TrustOp) : list PcmOp :=
  omap (fun op => match op with TrustPcm op _ => Some op | TrustOther _ _ _ => None end) ops.

Lemma trust_run_pcm ops a m : (trust_run ops (a, m)).1 = (pcm_run pssClientId settings (pcm_ops ops) a).1.
Proof.
  revert a m. induction ops as [|op ops IH]; intros a m; [done|]. cbn. destruct op as [op ts|t ev ts]; cbn; [|apply IH].
  destruct (pcm_step pssClientId settings op a) as [a1 sent]. change (foldl trust_step ?s ops) with (trust_run ops s). rewrite IH. cbn.
  by destruct (pcm_run _ _ _ a1).
Qed.

Lemma emit_ai type gid name ts m : em_aiPipelineInvalidGlobal (EmitGroupTrustEvent type gid name ts m) = em_aiPipelineInvalidGlobal m.
Proof. unfold EmitGroupTrustEvent. by repeat case_match. Qed.

Lemma other_report_ai t ev ts m : t <> CLIENT_PERCEPTION_MONITOR ->
  em_aiPipelineInvalidGlobal (OnTrustReport cfg t ev ts m).1 = em_aiPipelineInvalidGlobal m.
Proof.
  intros Ht. unfold OnTrustReport, trust_report_accepted, isAIPipelineTrustReport. apply Z.eqb_neq in Ht. rewrite Ht. cbn.
  destruct (se_type ev =? AI_PIPELINE_INVALID) eqn:E1, (se_type ev =? AI_PIPELINE_VALID) eqn:E2; cbn; rewrite ?andb_false_r, ?orb_true_r; cbn; [done..|].
  case_match; [done|]. destruct (apply_trust_report cfg ev m) as [m1 [v|]] eqn:E; unfold apply_trust_report in E; rewrite E1, E2 in E;
    repeat case_match; simplify_eq; cbn; by rewrite ?emit_ai.
Qed.

Lemma pipeline_report_ai id invalid stamp ts m :
  em_aiPipelineInvalidGlobal (OnTrustReport cfg CLIENT_PERCEPTION_MONITOR (pipeline_event pssClientId id invalid stamp) ts m).1 = invalid.
Proof. by destruct invalid. Qed.

(** What PSS holds is what was emitted last. *)
Definition in_step (s : PcmFaultAggregator * EventManager) : Prop :=
  em_aiPipelineInvalidGlobal s.2 = rp_hasEmitted (pa_reporter s.1) && rp_lastEmittedInvalid (pa_reporter s.1) /\
  (pa_state s.1 = PipelineStarting -> rp_hasEmitted (pa_reporter s.1) = false).

Lemma tick_in_step w ts a m : in_step (a, m) -> let '(a', sent) := evaluateTick pssClientId settings w a in
  in_step (a', foldl (deliver ts) m (option_list sent)) /\
  (pa_state a' <> PipelineStarting -> tw_success w = true -> 0 < as_verdictResendMs settings ->
   rp_hasEmitted (pa_reporter a') = true /\ rp_lastEmittedInvalid (pa_reporter a') = bool_decide (pa_state a' = PipelineInvalid) /\
   tw_now w - rp_lastSentAt (pa_reporter a') < as_verdictResendMs settings * NS_PER_MS).
Proof.
  intros [Hai Hst]. cbn in *. unfold evaluateTick. destruct (assess_health _ _ _) as [h ht], (assess_dvm _ _ _) as [d dt].
  set (bad := count_bad _ _ _). set (good := count_good _ _ _ _). set (state := next_state _ bad good _).
  assert (state = PipelineStarting -> pa_state a = PipelineStarting) as Hback.
  { subst state. unfold next_state. repeat case_match; try done. }
  case_bool_decide as Hs; [cbn; split; [split; [done|intros; by apply Hst, Hback]|intros; done]|].
  unfold reportIfStateChanged. cbn [negb]. set (invalid := bool_decide (state = PipelineInvalid)).
  destruct (rp_hasEmitted (pa_reporter a) && eqb invalid (rp_lastEmittedInvalid (pa_reporter a)) && _) eqn:E.
  - rewrite !andb_true_iff, eqb_true_iff, Z.ltb_lt in E. destruct E as [[He Hi] Hlt]. cbn. unfold in_step. cbn.
    split; [by split|]. intros. split_and!; congruence || done.
  - destruct (tw_success w); cbn; unfold in_step, deliver; cbn; [|split; [split; [done|intros; done]|intros; done]].
    rewrite pipeline_report_ai. unfold NS_PER_MS. split_and!; [done|intros; done|]. intros. split_and!; [done..|lia].
Qed.

Lemma step_in_step op s : other_client op -> in_step s -> in_step (trust_step s op).
Proof.
  destruct s as [a m], op as [[c v now|w] ts|t ev ts]; cbn; intros Ho Hin.
  - by destruct c.
  - pose proof (tick_in_step w ts a m Hin) as Ht. destruct (evaluateTick _ _ w a) as [a' sent]. cbn. apply Ht.
  - unfold in_step in *. cbn in *. by rewrite other_report_ai.
Qed.

Lemma run_in_step ops s : Forall other_client ops -> in_step s -> in_step (trust_run ops s).
Proof.
  revert s. induction ops as [|op ops IH]; intros s Ho Hin; [done|]. apply Forall_cons in Ho as [H1 H2]. cbn.
  apply IH; [done|]. by apply step_in_step.
Qed.

End trust.

