(* ===== verification/PcmHealth.v ===== *)
(** * The container-health check of the perception monitor

    [container_health_checker.cpp] and the name check of [docker_client.cpp]: the
    allow-list, and the verdict of one poll of the listed containers.  What the
    Docker Engine API answers for a name, and the clock, are arguments of a poll;
    [PcmJson.v] reads its replies.  Times are in nanoseconds. *)

From Stdlib Require Import Ascii String.
From S2P Require Import Prelude Protocol Text Pcm.

Local Open Scope Z_scope.
Local Open Scope list_scope.

(** ** The allow-list *)

(** The characters [find_first_not_of] skips. *)
Definition config_space (c : ascii) : bool :=
  Text.blank c || Ascii.eqb c (Ascii.ascii_of_nat 12) || Ascii.eqb c (Ascii.ascii_of_nat 11).

Fixpoint skip_config_space (l : text) : text :=
  match l with
  | [] => []
  | c :: l' => if config_space c then skip_config_space l' else l
  end.

Definition trimConfig (l : text) : text := reverse (skip_config_space (reverse (skip_config_space l))).

Definition char_between (lo hi c : ascii) : bool :=
  (Ascii.nat_of_ascii lo <=? Ascii.nat_of_ascii c)%nat && (Ascii.nat_of_ascii c <=? Ascii.nat_of_ascii hi)%nat.

Definition isSafeNameChar (c : ascii) : bool :=
  if char_between "A" "Z" c then true
  else if char_between "a" "z" c then true
  else if char_between "0" "9" c then true
  else Ascii.eqb c "-" || Ascii.eqb c "_" || Ascii.eqb c ".".

Definition isSafeName (name : text) : bool :=
  if bool_decide (name = []) || (256 <? length name)%nat then false else forallb isSafeNameChar name.

(** The name of a section line [[name]]. *)
Definition section_name (t : text) : option text :=
  if bool_decide (head t = Some "["%char) && bool_decide (last t = Some "]"%char)
  then Some (trimConfig (take (length t - 2) (drop 1 t))) else None.

Inductive ConfigSection := SectionNone | SectionHealthMonitor | SectionOther.

#[global] Instance ConfigSection_eq_dec : EqDecision ConfigSection.
Proof. solve_decision. Defined.

(** One line: the section it leaves and the names it leaves. *)
Definition load_container_line (s : ConfigSection * list text) (line : text) : ConfigSection * list text :=
  let '(section, monitored) := s in
  let t := trimConfig line in
  if bool_decide (t = []) || bool_decide (head t = Some HASH) then s
  else match section_name t with
  | Some name => (if bool_decide (name = str "health_monitor") then SectionHealthMonitor else SectionOther, monitored)
  | None =>
    if negb (bool_decide (section = SectionHealthMonitor)) then s
    else match cut_at EQUALS t with
    | (_, None) => s
    | (k, Some v) =>
      let key := trimConfig k in
      let value := trimConfig v in
      if bool_decide (key = str "container_startup_grace_ms") then s
      else if negb (bool_decide (key = str "monitor_container")) then s
      else if bool_decide (value = []) then s
      else if negb (isSafeName value) then s
      else if bool_decide (value ∈ monitored) then s
      else (section, monitored ++ [value])
    end
  end.

(** [None] is a file that cannot be opened. *)
Definition loadMonitoredContainers (file : option text) : list text :=
  match file with
  | None => []
  | Some content => (foldl load_container_line (SectionNone, []) (lines_of content)).2
  end.

(** ** The containers *)

Inductive DockerResult := DockerOk | DockerSocketUnreachable | DockerNotFound | DockerCommandError.

#[global] Instance DockerResult_eq_dec : EqDecision DockerResult.
Proof. solve_decision. Defined.

(** The fields the verdict uses. *)
Record ContainerHealth := {
  ch_running : bool;
  ch_paused : bool;
  ch_restarting : bool;
  ch_dead : bool;
  ch_status : text;
  ch_health : text;
}.

Definition ContainerSnapshot : Type := DockerResult * ContainerHealth.

Record MonitoredContainer := {
  mo_name : text;
  mo_seen : bool;
  mo_faulted : bool;
  mo_starting : bool;
  mo_startingAt : Z;
}.

Inductive DockerState := DockerStateUnknown | DockerStateOk | DockerStateSocketUnreachable | DockerStateApiError.

Record ContainerHealthChecker := {
  hc_containers : list MonitoredContainer;
  hc_createdAt : Z;
  hc_graceReported : bool;
  hc_dockerState : DockerState;
}.

Definition new_container (name : text) : MonitoredContainer :=
  {| mo_name := name; mo_seen := false; mo_faulted := false; mo_starting := false; mo_startingAt := 0 |}.

Definition new_checker (names : list text) (createdAt : Z) : ContainerHealthChecker :=
  {| hc_containers := map new_container names; hc_createdAt := createdAt; hc_graceReported := false;
     hc_dockerState := DockerStateUnknown |}.

Definition isLifecycleFault (snapshot : ContainerSnapshot) : bool :=
  let '(result, health) := snapshot in
  if negb (bool_decide (result = DockerOk)) then true
  else if ch_paused health || ch_restarting health || ch_dead health || bool_decide (ch_status health = str "paused") ||
          bool_decide (ch_status health = str "restarting") || bool_decide (ch_status health = str "dead") then true
  else if negb (ch_running health) then true
  else bool_decide (ch_health health = str "unhealthy").

Definition is_present (snapshot : ContainerSnapshot) : bool := bool_decide (snapshot.1 = DockerOk).

Definition is_starting (snapshot : ContainerSnapshot) : bool :=
  is_present snapshot && negb (isLifecycleFault snapshot) && bool_decide (ch_health snapshot.2 = str "starting").

(** How the loop leaves a container: never seen, bad, waited for, or good. *)
Inductive Judgement := NotSeen | JudgedBad | JudgedStarting | JudgedGood.

#[global] Instance Judgement_eq_dec : EqDecision Judgement.
Proof. solve_decision. Defined.

Record HealthPoll := { hp_inspect : text -> ContainerSnapshot; hp_now : Z; hp_steadyNow : Z }.

Section checker.
Variable startupGraceMs containerStartupGraceMs : Z.

(** The body of the loop of [check] for one container. *)
Definition judge_container (now : Z) (snapshot : ContainerSnapshot) (c : MonitoredContainer) : MonitoredContainer * Judgement :=
  let present := is_present snapshot in
  if negb (mo_seen c) && negb present then (c, NotSeen)
  else
    let starting := is_starting snapshot in
    let startingAt := if starting && negb (mo_starting c) then now else mo_startingAt c in
    let settle (faulted : bool) := {| mo_name := mo_name c; mo_seen := true; mo_faulted := faulted;
                                      mo_starting := starting; mo_startingAt := startingAt |} in
    if negb present then (settle true, JudgedBad)
    else if isLifecycleFault snapshot then (settle true, JudgedBad)
    else if starting then
      if mo_faulted c then (settle true, JudgedBad)
      else if containerStartupGraceMs * NS_PER_MS <=? now - startingAt then (settle true, JudgedBad)
      else (settle (mo_faulted c), JudgedStarting)
    else (settle false, JudgedGood).

(** The inspections in order, up to the first one that fails. *)
Fixpoint inspect_all (inspect : text -> ContainerSnapshot) (containers : list MonitoredContainer) : DockerState + list ContainerSnapshot :=
  match containers with
  | [] => inr []
  | c :: rest =>
    let snapshot := inspect (mo_name c) in
    match snapshot.1 with
    | DockerSocketUnreachable => inl DockerStateSocketUnreachable
    | DockerCommandError => inl DockerStateApiError
    | _ => match inspect_all inspect rest with inl s => inl s | inr snapshots => inr (snapshot :: snapshots) end
    end
  end.

Definition set_docker (state : DockerState) (hc : ContainerHealthChecker) : ContainerHealthChecker :=
  {| hc_containers := hc_containers hc; hc_createdAt := hc_createdAt hc; hc_graceReported := hc_graceReported hc;
     hc_dockerState := state |}.

Definition reportNeverSeenAfterGrace (steadyNow : Z) (hc : ContainerHealthChecker) : bool :=
  hc_graceReported hc || negb ((steadyNow - hc_createdAt hc) ÷ NS_PER_MS <? startupGraceMs).

Definition health_verdict (js : list Judgement) : PcmCheckVerdict :=
  if bool_decide (JudgedBad ∈ js) then VerdictBad
  else if bool_decide (Forall (fun j => j = NotSeen) js) || bool_decide (JudgedStarting ∈ js) then VerdictOff
  else VerdictGood.

Definition check (p : HealthPoll) (hc : ContainerHealthChecker) : ContainerHealthChecker * PcmCheckVerdict :=
  if bool_decide (hc_containers hc = []) then (hc, VerdictOff)
  else match inspect_all (hp_inspect p) (hc_containers hc) with
  | inl state => (set_docker state hc, VerdictOff)
  | inr snapshots =>
    let judged := zip_with (judge_container (hp_now p)) snapshots (hc_containers hc) in
    ({| hc_containers := map fst judged; hc_createdAt := hc_createdAt hc;
        hc_graceReported := reportNeverSeenAfterGrace (hp_steadyNow p) hc; hc_dockerState := DockerStateOk |},
     health_verdict (map snd judged))
  end.

Definition check_run (polls : list HealthPoll) (hc : ContainerHealthChecker) : ContainerHealthChecker :=
  foldl (fun hc p => (check p hc).1) hc polls.

(** ** What the polls observed *)

(** Docker answered for every listed container. *)
Definition complete (names : list text) (p : HealthPoll) : bool :=
  forallb (fun n => match (hp_inspect p n).1 with DockerSocketUnreachable | DockerCommandError => false | _ => true end) names.

Definition healthy (n : text) (p : HealthPoll) : bool :=
  negb (isLifecycleFault (hp_inspect p n)) && negb (is_starting (hp_inspect p n)).

(** The container was present at a complete poll. *)
Definition seen_in (names : list text) (n : text) (polls : list HealthPoll) : Prop :=
  exists p, p ∈ polls /\ complete names p = true /\ is_present (hp_inspect p n) = true.

(** It was seen, then stopped, gone or unhealthy at a complete poll, and at no
    complete poll since then healthy. *)
Definition fault_stands (names : list text) (n : text) (polls : list HealthPoll) : Prop :=
  exists before q after, polls = before ++ q :: after /\ complete names q = true /\
    seen_in names n (before ++ [q]) /\ isLifecycleFault (hp_inspect q n) = true /\
    forall p, p ∈ after -> complete names p = true -> healthy n p = false.

(** One container, through the polls. *)
Definition follow (names : list text) (n : text) (polls : list HealthPoll) : MonitoredContainer :=
  foldl (fun c p => if complete names p then (judge_container (hp_now p) (hp_inspect p n) c).1 else c) (new_container n) polls.

Lemma follow_snoc names n polls p : follow names n (polls ++ [p]) =
  if complete names p then (judge_container (hp_now p) (hp_inspect p n) (follow names n polls)).1 else follow names n polls.
Proof. unfold follow. by rewrite foldl_app. Qed.

Lemma judge_name now s c : mo_name (judge_container now s c).1 = mo_name c.
Proof. unfold judge_container. by repeat case_match. Qed.

Lemma follow_name names n polls : mo_name (follow names n polls) = n.
Proof. induction polls as [|p polls IH] using rev_ind; [done|]. rewrite follow_snoc. case_match; [by rewrite judge_name|done]. Qed.

Lemma inspect_all_complete f (cs : list MonitoredContainer) : 
  match inspect_all f cs with
  | inr snapshots => snapshots = map (fun c => f (mo_name c)) cs /\
      forallb (fun n => match (f n).1 with DockerSocketUnreachable | DockerCommandError => false | _ => true end) (map mo_name cs) = true
  | inl _ => forallb (fun n => match (f n).1 with DockerSocketUnreachable | DockerCommandError => false | _ => true end) (map mo_name cs) = false
  end.
Proof.
  induction cs as [|c cs IH]; cbn; [done|]. destruct (f (mo_name c)) as [[] h] eqn:E; cbn; [|done| |done];
    destruct (inspect_all f cs) as [s|l]; cbn; (done || destruct IH as [-> ?]; by rewrite ?E).
Qed.

Lemma zip_judge now f (cs : list MonitoredContainer) :
  zip_with (judge_container now) (map (fun c => f (mo_name c)) cs) cs = map (fun c => judge_container now (f (mo_name c)) c) cs.
Proof. induction cs as [|c cs IH]; cbn; [done|by rewrite IH]. Qed.

(** The containers evolve independently of each other. *)
Lemma check_containers names polls p hc : hc_containers hc = map (fun n => follow names n polls) names ->
  hc_containers (check p hc).1 = map (fun n => follow names n (polls ++ [p])) names /\
  (check p hc).2 = if complete names p
    then health_verdict (map (fun n => (judge_container (hp_now p) (hp_inspect p n) (follow names n polls)).2) names)
    else VerdictOff.
Proof.
  intros Hc. assert (Hn : map mo_name (hc_containers hc) = names).
  { rewrite Hc, map_map. etransitivity; [apply map_ext; intros; apply follow_name|apply map_id]. }
  unfold check. case_bool_decide as He.
  { assert (names = []) as -> by (rewrite <- Hn, He; done). cbn. by rewrite He. }
  pose proof (inspect_all_complete (hp_inspect p) (hc_containers hc)) as Hi. rewrite Hn in Hi. fold (complete names p) in Hi.
  destruct (inspect_all _ _) as [s|l]; [rewrite Hi|destruct Hi as [-> Hi]; rewrite Hi].
  - cbn. split; [|done]. rewrite Hc. apply map_ext. intros n. by rewrite follow_snoc, Hi.
  - rewrite zip_judge. cbn. rewrite !map_map, Hc, !map_map. split.
    + apply map_ext. intros n. by rewrite follow_snoc, Hi, follow_name.
    + f_equal. apply map_ext. intros n. by rewrite follow_name.
Qed.

Lemma run_containers names createdAt polls : hc_containers (check_run polls (new_checker names createdAt)) = map (fun n => follow names n polls) names.
Proof.
  induction polls as [|p polls IH] using rev_ind; [done|]. unfold check_run in *. rewrite foldl_app. cbn. by apply check_containers.
Qed.

Lemma seen_snoc names n polls p : seen_in names n (polls ++ [p]) <->
  seen_in names n polls \/ complete names p = true /\ is_present (hp_inspect p n) = true.
Proof.
  unfold seen_in. setoid_rewrite elem_of_app. setoid_rewrite list_elem_of_singleton. split.
  - intros (q & [Hq| ->] & ? & ?); [left; eauto|by right].
  - intros [(q & ? & ? & ?)|[? ?]]; eauto 6.
Qed.

Lemma lifecycle_absent s : is_present s = false -> isLifecycleFault s = true.
Proof. unfold is_present, isLifecycleFault. destruct s as [r h]. cbn. by intros ->. Qed.

(** The body of the loop, by what was observed. *)
Lemma judge_spec now s c : let '(c', j) := judge_container now s c in
  mo_seen c' = (mo_seen c || is_present s)%bool /\
  (j = NotSeen <-> mo_seen c' = false) /\
  (j = JudgedGood <-> mo_seen c' = true /\ isLifecycleFault s = false /\ is_starting s = false) /\
  (mo_seen c' = true -> isLifecycleFault s = true \/ mo_faulted c = true /\ is_starting s = true -> mo_faulted c' = true /\ j = JudgedBad).
Proof.
  pose proof (lifecycle_absent s) as Habs. unfold judge_container. destruct (mo_seen c) eqn:Es, (is_present s) eqn:Ep; cbn;
    [| |destruct (isLifecycleFault s) eqn:El; repeat case_match; simplify_eq; cbn; intuition congruence|rewrite Es; intuition congruence].
  - destruct (isLifecycleFault s) eqn:El; repeat case_match; simplify_eq; cbn; intuition congruence.
  - rewrite Habs by done. cbn. intuition congruence.
Qed.

Lemma follow_seen names n polls : mo_seen (follow names n polls) = true <-> seen_in names n polls.
Proof.
  induction polls as [|p polls IH] using rev_ind; [split; [done|intros (q & Hq & _); set_solver]|].
  rewrite follow_snoc, seen_snoc, <- IH. destruct (complete names p); [|intuition congruence].
  pose proof (judge_spec (hp_now p) (hp_inspect p n) (follow names n polls)) as H. destruct (judge_container _ _ _) as [c' j].
  destruct H as [H _]. cbn. rewrite H, orb_true_iff. tauto.
Qed.

Lemma fault_stands_snoc names n polls p : fault_stands names n (polls ++ [p]) ->
  (complete names p = true /\ seen_in names n (polls ++ [p]) /\ isLifecycleFault (hp_inspect p n) = true) \/
  (fault_stands names n polls /\ (complete names p = true -> healthy n p = false)).
Proof.
  intros (before & q & after & E & Hq & Hseen & Hf & Hlater). destruct after as [|r after _] using rev_ind.
  - apply app_inj_tail in E as [-> ->]. by left.
  - replace (before ++ q :: after ++ [r]) with ((before ++ q :: after) ++ [r]) in E by by rewrite <- app_assoc.
    apply app_inj_tail in E as [-> ->]. right. split; [|apply Hlater; set_solver]. exists before, q, after.
    split_and!; [done..|]. intros x Hx. apply Hlater. set_solver.
Qed.

Lemma stands_seen names n polls : fault_stands names n polls -> seen_in names n polls.
Proof. intros (before & q & after & -> & _ & (p & Hp & H) & _). exists p. split; [set_solver|done]. Qed.

(** A standing fault, one poll on. *)
Lemma fault_next names n polls p : complete names p = true ->
  (fault_stands names n polls -> mo_faulted (follow names n polls) = true) -> fault_stands names n (polls ++ [p]) ->
  mo_faulted (follow names n (polls ++ [p])) = true /\ (judge_container (hp_now p) (hp_inspect p n) (follow names n polls)).2 = JudgedBad.
Proof.
  intros Hp IH Hst. pose proof (stands_seen _ _ _ Hst) as Hs. apply follow_seen in Hs. rewrite follow_snoc, Hp in *.
  pose proof (judge_spec (hp_now p) (hp_inspect p n) (follow names n polls)) as Hj. destruct (judge_container _ _ _) as [c' j].
  cbn in *. apply Hj; [done|]. apply fault_stands_snoc in Hst as [(_ & _ & Hl)|[Hst Hh]]; [by left|].
  specialize (Hh Hp). unfold healthy in Hh. rewrite andb_false_iff, !negb_false_iff in Hh. destruct Hh; [by left|right; auto].
Qed.

Lemma follow_faulted names n polls : fault_stands names n polls -> mo_faulted (follow names n polls) = true.
Proof.
  induction polls as [|p polls IH] using rev_ind; [intros (before & q & after & E & _); by destruct before|].
  intros Hst. destruct (complete names p) eqn:Hp; [by apply fault_next|]. rewrite follow_snoc, Hp.
  apply fault_stands_snoc in Hst as [(? & _)|[Hst _]]; [congruence|by apply IH].
Qed.

(** How the loop judges one container, by the polls. *)
Lemma judged names n polls p : complete names p = true ->
  let j := (judge_container (hp_now p) (hp_inspect p n) (follow names n polls)).2 in
  (j = NotSeen <-> ~ seen_in names n (polls ++ [p])) /\
  (j = JudgedGood <-> seen_in names n (polls ++ [p]) /\ healthy n p = true) /\
  (fault_stands names n (polls ++ [p]) -> j = JudgedBad).
Proof.
  intros Hp j. split_and!; [..|intros; by apply fault_next; [|apply follow_faulted|]];
    rewrite <- follow_seen, follow_snoc, Hp; subst j; pose proof (judge_spec (hp_now p) (hp_inspect p n) (follow names n polls)) as Hj;
    destruct (judge_container _ _ _) as [c' v]; cbn; destruct Hj as (_ & Hn & Hg & _).
  - rewrite Hn. by rewrite not_true_iff_false.
  - rewrite Hg. unfold healthy. rewrite andb_true_iff, !negb_true_iff. tauto.
Qed.

Lemma health_good {A} (j : A -> Judgement) l : health_verdict (map j l) = VerdictGood <->
  (exists n, n ∈ l /\ j n <> NotSeen) /\ forall n, n ∈ l -> j n = NotSeen \/ j n = JudgedGood.
Proof.
  unfold health_verdict. change (map j l) with (j <$> l).
  case_bool_decide as Hb; [|case_bool_decide as Hu; cbn; [|case_bool_decide as Hs]]; rewrite ?list_elem_of_fmap in *.
  - split; [done|]. intros [_ Hall]. destruct Hb as (n & E & Hn). destruct (Hall n Hn); congruence.
  - split; [done|]. intros [(n & Hn & Hns) _]. rewrite Forall_fmap, Forall_forall in Hu. destruct Hns. exact (Hu n Hn).
  - split; [done|]. intros [_ Hall]. destruct Hs as (n & E & Hn). destruct (Hall n Hn); congruence.
  - split; [intros _|done]. split.
    + apply not_Forall_Exists, Exists_exists in Hu as (x & Hx & Hne); [|apply _]. apply list_elem_of_fmap in Hx as (n & -> & Hn). eauto.
    + intros n Hn. destruct (j n) eqn:E; [by left|destruct Hb; eauto|destruct Hs; eauto|by right].
Qed.

End checker.

(** C17. The verdict of a poll that Docker answered, after any polls: it is good
    exactly when some listed container has been seen and every one seen is healthy
    now; and it is bad as long as a container that was seen has stopped, gone or
    become unhealthy and was not healthy since, restarts included. *)
Theorem container_fault_holds_until_healthy startupGraceMs graceMs names createdAt polls p :
  complete names p = true ->
  let verdict := (check startupGraceMs graceMs p (check_run startupGraceMs graceMs polls (new_checker names createdAt))).2 in
  (verdict = VerdictGood <->
     (exists n, n ∈ names /\ seen_in names n (polls ++ [p])) /\
     forall n, n ∈ names -> seen_in names n (polls ++ [p]) -> healthy n p = true) /\
  ((exists n, n ∈ names /\ fault_stands names n (polls ++ [p])) -> verdict = VerdictBad).
Proof.
  intros Hp. cbn. destruct (check_containers startupGraceMs graceMs names polls p _ (run_containers startupGraceMs graceMs names createdAt polls)) as [_ ->].
  rewrite Hp. pose proof (fun n => judged graceMs names n polls p Hp) as Hj. cbn in Hj.
  set (j n := (judge_container graceMs (hp_now p) (hp_inspect p n) (follow graceMs names n polls)).2) in *. split.
  - rewrite health_good. split; intros [(n & Hn & Hns) Hall].
    + split; [exists n|]; [|intros m Hm Hseen; destruct (Hall m Hm) as [E|E]; apply Hj in E; tauto].
      split; [done|]. destruct (Hall n Hn) as [E|E]; [done|]. apply Hj in E. tauto.
    + split; [exists n; split; [done|]; intros E; by apply Hj in E|]. intros m Hm.
      destruct (decide (mo_seen (follow graceMs names m (polls ++ [p])) = true)) as [Hs|Hs]; rewrite follow_seen in Hs.
      * right. apply Hj. auto.
      * left. by apply Hj.
  - intros (n & Hn & Hst). unfold health_verdict. rewrite bool_decide_true; [done|]. apply list_elem_of_fmap. exists n. split; [|done].
    symmetry. by apply Hj.
Qed.
