(* ===== verification/PcmConfig.v ===== *)
(** * Start-up settings of the perception monitor

    [readMonitorConfig] of [perception_monitor.cpp] and what [runPollLoop] builds
    the checks and the aggregator from.  The text of the file is an argument;
    [fc_bad] is a read that ended before the end of the file.  Warnings are not
    modelled. *)

From Stdlib Require Import Ascii String.
From S2P Require Import Prelude Protocol Text Pcm PcmHealth.

Local Open Scope Z_scope.
Local Open Scope list_scope.

Definition INT_MAX : Z := 2147483647.

Definition kDefaultMaxReportAgeMs : Z := 4000.
Definition kDefaultInitialValidMs : Z := 4000.
Definition kDefaultStartupGraceMs : Z := 10000.
Definition kDefaultVerdictResendMs : Z := 5000.
Definition kDefaultContainerStartupGraceMs : Z := 30000.

(** ** Values *)

Definition to_lower (c : ascii) : ascii :=
  if char_between "A" "Z" c then Ascii.ascii_of_nat (Ascii.nat_of_ascii c + 32) else c.

Definition lowerCopy (value : text) : text := map to_lower value.

Definition parseConfigBool (value : text) (dflt : bool) : bool :=
  let s := lowerCopy value in
  if bool_decide (s ∈ [str "true"; str "1"; str "yes"; str "on"]) then true
  else if bool_decide (s ∈ [str "false"; str "0"; str "no"; str "off"]) then false
  else dflt.

(** The digits read so far; [None] at a character that is no digit and before the
    accumulator would pass [INT_MAX]. *)
Fixpoint int_digits (result : Z) (l : text) : option Z :=
  match l with
  | [] => Some result
  | c :: l' =>
    match digit_value c with
    | None => None
    | Some digit => if (INT_MAX - digit) ÷ 10 <? result then None else int_digits (result * 10 + digit) l'
    end
  end.

Definition parsePositiveInt (value : text) (minValue maxValue : Z) : option Z :=
  if bool_decide (value = []) then None
  else match int_digits 0 value with
  | None => None
  | Some result => if (result <? minValue) || (maxValue <? result) then None else Some result
  end.

(** ** The file *)

Record OptionalSetting := {
  os_section : text;
  os_key : text;
  os_target : Z;
  os_fallback : Z;
  os_seen : bool;
  os_invalid : bool;
}.

Definition optional_setting (section key : string) (fallback : Z) : OptionalSetting :=
  {| os_section := str section; os_key := str key; os_target := 0; os_fallback := fallback; os_seen := false;
     os_invalid := false |}.

Record MonitorReader := {
  mr_section : text;
  mr_timingSectionSeen : bool;
  mr_dvmSectionSeen : bool;
  mr_containerHealth : bool;
  mr_dataValidation : bool;
  mr_badTicksToInvalid : Z;
  mr_goodTicksToValid : Z;
  mr_badObjectsPercent : Z;
  mr_badFramesPercent : Z;
  mr_maxReportAge : OptionalSetting;
  mr_initialValid : OptionalSetting;
  mr_startupGrace : OptionalSetting;
  mr_verdictResend : OptionalSetting;
  mr_containerStartupGrace : OptionalSetting;
}.

Definition reader_start : MonitorReader := {|
  mr_section := []; mr_timingSectionSeen := false; mr_dvmSectionSeen := false; mr_containerHealth := true;
  mr_dataValidation := true; mr_badTicksToInvalid := 0; mr_goodTicksToValid := 0; mr_badObjectsPercent := 0;
  mr_badFramesPercent := 0;
  mr_maxReportAge := optional_setting "fault_aggregator" "max_report_age_ms" kDefaultMaxReportAgeMs;
  mr_initialValid := optional_setting "fault_aggregator" "initial_valid_ms" kDefaultInitialValidMs;
  mr_startupGrace := optional_setting "data_validation" "startup_grace_ms" kDefaultStartupGraceMs;
  mr_verdictResend := optional_setting "fault_aggregator" "verdict_resend_ms" kDefaultVerdictResendMs;
  mr_containerStartupGrace := optional_setting "health_monitor" "container_startup_grace_ms" kDefaultContainerStartupGraceMs |}.

(** Field updates. *)
Definition set_section (section : text) (timing dvm : bool) (r : MonitorReader) : MonitorReader := {|
  mr_section := section; mr_timingSectionSeen := timing; mr_dvmSectionSeen := dvm;
  mr_containerHealth := mr_containerHealth r; mr_dataValidation := mr_dataValidation r;
  mr_badTicksToInvalid := mr_badTicksToInvalid r; mr_goodTicksToValid := mr_goodTicksToValid r;
  mr_badObjectsPercent := mr_badObjectsPercent r; mr_badFramesPercent := mr_badFramesPercent r;
  mr_maxReportAge := mr_maxReportAge r; mr_initialValid := mr_initialValid r; mr_startupGrace := mr_startupGrace r;
  mr_verdictResend := mr_verdictResend r; mr_containerStartupGrace := mr_containerStartupGrace r |}.

Definition set_monitors (health dvm : bool) (r : MonitorReader) : MonitorReader := {|
  mr_section := mr_section r; mr_timingSectionSeen := mr_timingSectionSeen r; mr_dvmSectionSeen := mr_dvmSectionSeen r;
  mr_containerHealth := health; mr_dataValidation := dvm;
  mr_badTicksToInvalid := mr_badTicksToInvalid r; mr_goodTicksToValid := mr_goodTicksToValid r;
  mr_badObjectsPercent := mr_badObjectsPercent r; mr_badFramesPercent := mr_badFramesPercent r;
  mr_maxReportAge := mr_maxReportAge r; mr_initialValid := mr_initialValid r; mr_startupGrace := mr_startupGrace r;
  mr_verdictResend := mr_verdictResend r; mr_containerStartupGrace := mr_containerStartupGrace r |}.

Definition set_counts (badTicks goodTicks badObjects badFrames : Z) (r : MonitorReader) : MonitorReader := {|
  mr_section := mr_section r; mr_timingSectionSeen := mr_timingSectionSeen r; mr_dvmSectionSeen := mr_dvmSectionSeen r;
  mr_containerHealth := mr_containerHealth r; mr_dataValidation := mr_dataValidation r;
  mr_badTicksToInvalid := badTicks; mr_goodTicksToValid := goodTicks; mr_badObjectsPercent := badObjects;
  mr_badFramesPercent := badFrames;
  mr_maxReportAge := mr_maxReportAge r; mr_initialValid := mr_initialValid r; mr_startupGrace := mr_startupGrace r;
  mr_verdictResend := mr_verdictResend r; mr_containerStartupGrace := mr_containerStartupGrace r |}.

Definition map_optional (f : OptionalSetting -> OptionalSetting) (r : MonitorReader) : MonitorReader := {|
  mr_section := mr_section r; mr_timingSectionSeen := mr_timingSectionSeen r; mr_dvmSectionSeen := mr_dvmSectionSeen r;
  mr_containerHealth := mr_containerHealth r; mr_dataValidation := mr_dataValidation r;
  mr_badTicksToInvalid := mr_badTicksToInvalid r; mr_goodTicksToValid := mr_goodTicksToValid r;
  mr_badObjectsPercent := mr_badObjectsPercent r; mr_badFramesPercent := mr_badFramesPercent r;
  mr_maxReportAge := f (mr_maxReportAge r); mr_initialValid := f (mr_initialValid r);
  mr_startupGrace := f (mr_startupGrace r); mr_verdictResend := f (mr_verdictResend r);
  mr_containerStartupGrace := f (mr_containerStartupGrace r) |}.

Definition optional_settings (r : MonitorReader) : list OptionalSetting :=
  [mr_maxReportAge r; mr_initialValid r; mr_startupGrace r; mr_verdictResend r; mr_containerStartupGrace r].

Definition is_setting (section key : text) (s : OptionalSetting) : bool :=
  bool_decide (section = os_section s) && bool_decide (key = os_key s).

(** A line of an optional setting; a failed parse leaves the target alone. *)
Definition note_setting (value : text) (s : OptionalSetting) : OptionalSetting :=
  if os_seen s then
    {| os_section := os_section s; os_key := os_key s; os_target := os_target s; os_fallback := os_fallback s;
       os_seen := true; os_invalid := true |}
  else match parsePositiveInt value 1 INT_MAX with
  | Some v => {| os_section := os_section s; os_key := os_key s; os_target := v; os_fallback := os_fallback s;
                 os_seen := true; os_invalid := os_invalid s |}
  | None => {| os_section := os_section s; os_key := os_key s; os_target := os_target s; os_fallback := os_fallback s;
               os_seen := true; os_invalid := true |}
  end.

(** A section header; [None] when a section that may appear once is repeated. *)
Definition enter_section (name : text) (r : MonitorReader) : option MonitorReader :=
  if bool_decide (name = str "fault_aggregator") then
    if mr_timingSectionSeen r then None else Some (set_section name true (mr_dvmSectionSeen r) r)
  else if bool_decide (name = str "data_validation") then
    if mr_dvmSectionSeen r then None else Some (set_section name (mr_timingSectionSeen r) true r)
  else Some (set_section name (mr_timingSectionSeen r) (mr_dvmSectionSeen r) r).

(** A required count: unknown, repeated and invalid ones stop the reader. *)
Definition read_count (section key value : text) (r : MonitorReader) : option MonitorReader :=
  let bt := mr_badTicksToInvalid r in
  let gt := mr_goodTicksToValid r in
  let bo := mr_badObjectsPercent r in
  let bf := mr_badFramesPercent r in
  if bool_decide (section = str "fault_aggregator") then
    if bool_decide (key = str "bad_ticks_to_invalid") then
      if negb (bt =? 0) then None else (fun v => set_counts v gt bo bf r) <$> parsePositiveInt value 1 INT_MAX
    else if bool_decide (key = str "good_ticks_to_valid") then
      if negb (gt =? 0) then None else (fun v => set_counts bt v bo bf r) <$> parsePositiveInt value 1 INT_MAX
    else None
  else
    if bool_decide (key = str "bad_objects_percent") then
      if negb (bo =? 0) then None else (fun v => set_counts bt gt v bf r) <$> parsePositiveInt value 1 100
    else if bool_decide (key = str "bad_frames_percent") then
      if negb (bf =? 0) then None else (fun v => set_counts bt gt bo v r) <$> parsePositiveInt value 1 100
    else None.

Definition read_monitor_line (line : text) (r : MonitorReader) : option MonitorReader :=
  let t := trimConfig line in
  let section := mr_section r in
  if bool_decide (t = []) || bool_decide (head t = Some HASH) then Some r
  else match section_name t with
  | Some name => enter_section name r
  | None =>
    if negb (bool_decide (section ∈ [str "monitors"; str "fault_aggregator"; str "data_validation"; str "health_monitor"]))
    then Some r
    else match cut_at EQUALS t with
    | (_, None) => if bool_decide (section ∈ [str "monitors"; str "health_monitor"]) then Some r else None
    | (k, Some v) =>
      let key := trimConfig k in
      let val := trimConfig v in
      if bool_decide (section = str "monitors") then
        if bool_decide (key = str "container_health")
        then Some (set_monitors (parseConfigBool val (mr_containerHealth r)) (mr_dataValidation r) r)
        else if bool_decide (key = str "data_validation")
        then Some (set_monitors (mr_containerHealth r) (parseConfigBool val (mr_dataValidation r)) r)
        else Some r
      else if existsb (is_setting section key) (optional_settings r)
      then Some (map_optional (fun s => if is_setting section key s then note_setting val s else s) r)
      else if bool_decide (section = str "health_monitor") then Some r
      else read_count section key val r
    end
  end.

Fixpoint read_monitor_lines (lines : list text) (r : MonitorReader) : option MonitorReader :=
  match lines with
  | [] => Some r
  | line :: rest => match read_monitor_line line r with Some r' => read_monitor_lines rest r' | None => None end
  end.

Definition fall_back (s : OptionalSetting) : OptionalSetting :=
  if negb (os_seen s) || os_invalid s then
    {| os_section := os_section s; os_key := os_key s; os_target := os_fallback s; os_fallback := os_fallback s;
       os_seen := os_seen s; os_invalid := os_invalid s |}
  else s.

(** [None] for the file is one that cannot be opened. *)
Definition readMonitorConfig (file : option FileContent) : option MonitorReader :=
  match file with
  | None => None
  | Some content =>
    match read_monitor_lines (lines_of (fc_text content)) reader_start with
    | None => None
    | Some r0 =>
      if fc_bad content then None
      else
        let r := map_optional fall_back r0 in
        if (mr_badTicksToInvalid r =? 0) || (mr_goodTicksToValid r =? 0) then None
        else if negb (mr_containerHealth r) && negb (mr_dataValidation r) then None
        else if mr_dataValidation r && ((mr_badObjectsPercent r =? 0) || (mr_badFramesPercent r =? 0)) then None
        else Some r
    end
  end.

(** ** What is built from the settings *)

(** [hasBaseline]: the data-validation monitor loaded a baseline. *)
Definition healthActive (r : MonitorReader) (names : list text) : bool :=
  mr_containerHealth r && negb (length names =? 0)%nat.
Definition dvmActive (r : MonitorReader) (hasBaseline : bool) : bool := mr_dataValidation r && hasBaseline.

Definition aggregator_settings (r : MonitorReader) (names : list text) (hasBaseline : bool) : PcmAggregatorSettings := {|
  as_badTicksToInvalid := mr_badTicksToInvalid r; as_goodTicksToValid := mr_goodTicksToValid r;
  as_initialValidMs := os_target (mr_initialValid r); as_maxReportAgeMs := os_target (mr_maxReportAge r);
  as_verdictResendMs := os_target (mr_verdictResend r);
  as_healthEnabled := healthActive r names; as_dvmEnabled := dvmActive r hasBaseline |}.

(** The guard of [DataValidationMonitor::start] in ACTIVE. *)
Definition dvm_settings_usable (badObjectsPercent badFramesPercent startupGraceMs : Z) : bool :=
  negb ((badObjectsPercent <? 1) || (100 <? badObjectsPercent) || (badFramesPercent <? 1) || (100 <? badFramesPercent) ||
        (startupGraceMs <? 1)).

(** ** Settings that load are settings that start *)

Lemma int_digits_range l : forall v r, 0 <= v <= INT_MAX -> int_digits v l = Some r -> 0 <= r <= INT_MAX.
Proof.
  induction l as [|c l IH]; cbn; intros v r Hv H; [congruence|]. destruct (digit_value c) as [d|] eqn:Ed; [|done].
  destruct (Z.ltb_spec ((INT_MAX - d) ÷ 10) v); [done|]. eapply IH; [|done].
  assert (0 <= d <= 9). { unfold digit_value in Ed. case_match; simplify_eq. lia. }
  unfold INT_MAX in *. pose proof (Z.quot_rem' (2147483647 - d) 10). pose proof (Z.rem_bound_pos (2147483647 - d) 10). lia.
Qed.

Lemma parsePositiveInt_range value lo hi v : parsePositiveInt value lo hi = Some v -> lo <= v <= hi.
Proof. unfold parsePositiveInt. repeat case_match; intros; simplify_eq. lia. Qed.

(** A setting whose value, if it is kept, is a positive [int]. *)
Definition setting_ok (s : OptionalSetting) : Prop :=
  1 <= os_fallback s <= INT_MAX /\ (os_seen s = true -> os_invalid s = false -> 1 <= os_target s <= INT_MAX).

Definition count_ok (hi v : Z) : Prop := v = 0 \/ 1 <= v <= hi.

Record reader_ok (r : MonitorReader) : Prop := {
  ro_badTicks : count_ok INT_MAX (mr_badTicksToInvalid r);
  ro_goodTicks : count_ok INT_MAX (mr_goodTicksToValid r);
  ro_badObjects : count_ok 100 (mr_badObjectsPercent r);
  ro_badFrames : count_ok 100 (mr_badFramesPercent r);
  ro_settings : Forall setting_ok (optional_settings r);
}.

Lemma settings_map f r : optional_settings (map_optional f r) = map f (optional_settings r).
Proof. done. Qed.

Lemma note_setting_ok v s : setting_ok s -> setting_ok (note_setting v s).
Proof.
  unfold note_setting, setting_ok. intros [Hf Ht]. destruct (os_seen s); cbn; [done|].
  destruct (parsePositiveInt v 1 INT_MAX) eqn:E; cbn; [|done]. apply parsePositiveInt_range in E. done.
Qed.

Lemma read_count_ok section key value r r' : reader_ok r -> read_count section key value r = Some r' -> reader_ok r'.
Proof.
  intros [H1 H2 H3 H4 H5]. unfold read_count.
  repeat case_match; try done; intros Hm; apply fmap_Some in Hm as (v & Hv%parsePositiveInt_range & ->);
    split; cbn; try done; right; lia.
Qed.

Lemma read_monitor_line_ok line r r' : reader_ok r -> read_monitor_line line r = Some r' -> reader_ok r'.
Proof.
  intros Hr. unfold read_monitor_line, enter_section.
  repeat (case_match; try done); intros; simplify_eq; try done; try (by destruct Hr; split); try (by eapply read_count_ok).
  destruct Hr as [Hbt Hgt Hbo Hbf Hset]. split; [done..|]. rewrite settings_map. apply Forall_map. eapply Forall_impl; [done|].
  intros s Hs. cbn. case_match; [by apply note_setting_ok|done].
Qed.

Lemma read_monitor_lines_ok lines r r' : reader_ok r -> read_monitor_lines lines r = Some r' -> reader_ok r'.
Proof.
  revert r. induction lines as [|line lines IH]; cbn; intros r Hr H; [congruence|]. case_match; [|done].
  eapply IH; [|done]. by eapply read_monitor_line_ok.
Qed.

Lemma reader_start_ok : reader_ok reader_start.
Proof. split; try by left. repeat constructor; cbn; (unfold INT_MAX; lia) || done. Qed.

Lemma fall_back_target s : setting_ok s -> 1 <= os_target (fall_back s) <= INT_MAX.
Proof. unfold setting_ok, fall_back. intros [Hf Ht]. destruct (os_seen s), (os_invalid s); cbn; auto. Qed.

Lemma readMonitorConfig_ok file r : readMonitorConfig file = Some r ->
  1 <= mr_badTicksToInvalid r <= INT_MAX /\ 1 <= mr_goodTicksToValid r <= INT_MAX /\
  Forall (fun s => 1 <= os_target s <= INT_MAX) (optional_settings r) /\
  (mr_containerHealth r = true \/ mr_dataValidation r = true) /\
  (mr_dataValidation r = true -> 1 <= mr_badObjectsPercent r <= 100 /\ 1 <= mr_badFramesPercent r <= 100).
Proof.
  unfold readMonitorConfig. destruct file as [content|]; [|done]. destruct (read_monitor_lines _ _) as [r0|] eqn:E; [|done].
  apply read_monitor_lines_ok in E as [H1 H2 H3 H4 H5]; [|apply reader_start_ok]. destruct (fc_bad content); [done|].
  unfold count_ok in *. cbn.
  destruct (Z.eqb_spec (mr_badTicksToInvalid r0) 0), (Z.eqb_spec (mr_goodTicksToValid r0) 0); cbn; try done.
  destruct (mr_containerHealth r0) eqn:Eh, (mr_dataValidation r0) eqn:Ed; cbn; try done;
    destruct (Z.eqb_spec (mr_badObjectsPercent r0) 0), (Z.eqb_spec (mr_badFramesPercent r0) 0); cbn; try done; intros Hr; injection Hr as <-;
    rewrite settings_map, Forall_map; cbn; (split; [lia|split; [lia|split; [|split; [auto|intros; split; lia || congruence]]]]);
    (eapply Forall_impl; [exact H5|]; intros; by apply fall_back_target).
Qed.

(** A configuration that loads lets every enabled part start: the aggregator
    accepts the settings, the data-validation monitor accepts its percentages and
    grace when it is enabled, and at least one check is enabled. *)
Theorem loaded_settings_start file r names hasBaseline spawned : readMonitorConfig file = Some r ->
  start (aggregator_settings r names hasBaseline) spawned false = (spawned, spawned) /\
  (mr_dataValidation r = true ->
   dvm_settings_usable (mr_badObjectsPercent r) (mr_badFramesPercent r) (os_target (mr_startupGrace r)) = true) /\
  (mr_containerHealth r = true \/ mr_dataValidation r = true).
Proof.
  intros (Hb & Hg & Hs & He & Hd)%readMonitorConfig_ok. rewrite Forall_forall in Hs. unfold optional_settings in Hs.
  pose proof (Hs (mr_maxReportAge r) ltac:(set_solver)). pose proof (Hs (mr_initialValid r) ltac:(set_solver)).
  pose proof (Hs (mr_startupGrace r) ltac:(set_solver)). pose proof (Hs (mr_verdictResend r) ltac:(set_solver)).
  split; [|split; [intros H'; specialize (Hd H'); unfold dvm_settings_usable; lia|done]].
  unfold start. assert (settings_usable (aggregator_settings r names hasBaseline) = true) as -> by (unfold settings_usable; cbn; lia).
  by destruct spawned.
Qed.
