(* ===== verification/PcmDvm.v ===== *)
(** * The data-validation monitor in ACTIVE mode

    [data_validation_monitor.cpp]: the checks of one decoded frame against the
    learned baseline of its camera, and the loop that counts frames per camera over
    a window and reports one verdict per window.  Frames, clocks and what the frame
    source answers are arguments.  Loading and learning baselines and log text are
    not modelled; a baseline is a value.

    [byId] and [proximityIds] of [decisionFault] are written as the filter and the
    count they hold.  The entry of 0 that a lookup in [lastTimestampMs_] creates is
    the default of the lookup here. *)

From stdpp Require Import strings.
From Stdlib Require Import Ascii.
From S2P Require Import Prelude Protocol Text Float32 Pcm PcmHealth PcmConfig.

Local Open Scope Z_scope.
Local Open Scope list_scope.

Definition kMinimumFrameAgeMs : Z := 2000.
Definition kDvmWindowMs : Z := 1000.
Definition kDvmMinFrameRateRatio : spec_float := f64_div (f64_of_Z 1) (f64_of_Z 2).
Definition SIZE_MAX : Z := 2 ^ 64 - 1.

(** Inclusive [bad / total >= percent / 100]; the products wrap as [size_t]. *)
Definition percentageReached (bad total percent : Z) : bool :=
  if total =? 0 then false
  else
    let p := u64 percent in
    let required := u64 (u64 (total / 100 * p) + u64 (u64 (total mod 100 * p) + 99) / 100) in
    required <=? bad.

(** ** Frames and baselines *)

Record DvmObject := { ob_id : text; ob_type : text; ob_hasCoordinate : bool; ob_x : spec_float; ob_y : spec_float; ob_z : spec_float }.

Record DvmRoi := {
  ri_id : text;
  ri_type : text;
  ri_objectIds : list text;
  ri_hasRestricted : bool;
  ri_hasConfined : bool;
  ri_restricted : text;
  ri_confined : text;
}.

Record DvmProximity := {
  px_present : bool;
  px_threshold : spec_float;
  px_detections : Z;
  px_hasViolation : bool;
  px_violation : text;
}.

Record DvmFrame := {
  fr_sensorId : text;
  fr_timestampMs : Z;
  fr_timestampValid : bool;
  fr_objects : list DvmObject;
  fr_rois : list DvmRoi;
  fr_proximity : DvmProximity;
}.

Record DvmRoiRule := { rr_id : text; rr_type : text; rr_confined : bool }.
Record DvmPairRule := { pr_primaryType : text; pr_secondaryType : text; pr_warningDistance : spec_float }.
Record DvmDecisionContract := { dc_configured : bool; dc_roiRules : list DvmRoiRule; dc_pairRules : list DvmPairRule }.

Record DvmBaseline := {
  bl_modern : bool;
  bl_maxFrameAgeMs : Z;
  bl_proximityRequired : bool;
  bl_contract : DvmDecisionContract;
}.

(** ** Decision data *)

Inductive DecisionFault :=
| RoiViolationValue | RoiObjectReference | ProximityMetadataMissing | ProximityMetadataInvalid | ProximityRangeTooSmall
| ProximityObjectId | ProximityCoordinate | ProximityDuplicateId.

Fixpoint numeric_digits (n : Z) (l : text) : option Z :=
  match l with
  | [] => Some n
  | c :: l' =>
    match digit_value c with
    | None => None
    | Some d => let n' := u64 (n * 10 + d) in if UINT32_MAX <? n' then None else numeric_digits n' l'
    end
  end.

Definition numericId (value : text) : option Z := if bool_decide (value = []) then None else numeric_digits 0 value.

Definition sf_finite (x : spec_float) : bool := match x with S754_zero _ | S754_finite _ _ _ => true | _ => false end.

(** [std::numeric_limits<float>::max()] as a double. *)
Definition float_max : spec_float := f64_of_Z ((2 ^ 24 - 1) * 2 ^ 104).

Definition within_float (x : spec_float) : bool := SFleb (SFabs x) float_max.

Definition usableCoordinate (o : DvmObject) : bool :=
  ob_hasCoordinate o && sf_finite (ob_x o) && sf_finite (ob_y o) && sf_finite (ob_z o) &&
  within_float (ob_x o) && within_float (ob_y o) && within_float (ob_z o).

Definition matchesRoiId (configured observed : text) : bool :=
  bool_decide (lowerCopy configured = lowerCopy observed) ||
  ((length configured <? length observed)%nat && bool_decide (take (length configured) observed = configured) &&
   bool_decide (observed !! length configured = Some ":"%char)).

(** [byId[id]]: the objects with this numeric id, in order. *)
Definition with_id (objects : list DvmObject) (id : Z) : list DvmObject :=
  filter (fun o => numericId (ob_id o) = Some id) objects.

(** [proximityIds[id]] *)
Definition proximity_count (objects : list DvmObject) (id : Z) : nat :=
  length (filter (fun o => ob_type o <> [] /\ usableCoordinate o = true) (with_id objects id)).

Definition has_type (objects : list DvmObject) (type : text) : bool :=
  existsb (fun o => bool_decide (lowerCopy (ob_type o) = type)) objects.

Fixpoint first_fault {A} (f : A -> option DecisionFault) (l : list A) : option DecisionFault :=
  match l with
  | [] => None
  | x :: l' => match f x with Some fault => Some fault | None => first_fault f l' end
  end.

(** The loop over the references of a region; [seen] is the set of their ids. *)
Fixpoint reference_fault (objects : list DvmObject) (rule : DvmRoiRule) (seen : list Z) (refs : list text) : option DecisionFault :=
  match refs with
  | [] => None
  | reference :: rest =>
    match numericId reference with
    | None => Some RoiObjectReference
    | Some id =>
      if bool_decide (id ∈ seen) then Some RoiObjectReference
      else match with_id objects id with
      | [o] =>
        if negb (bool_decide (ob_id o = reference)) || negb (bool_decide (lowerCopy (ob_type o) = rr_type rule))
        then Some RoiObjectReference else reference_fault objects rule (id :: seen) rest
      | _ => Some RoiObjectReference
      end
    end
  end.

Definition roi_rule_fault (objects : list DvmObject) (roi : DvmRoi) (rule : DvmRoiRule) : option DecisionFault :=
  if negb (matchesRoiId (rr_id rule) (ri_id roi)) || negb (bool_decide (lowerCopy (ri_type roi) = rr_type rule)) then None
  else
    let present := if rr_confined rule then ri_hasConfined roi else ri_hasRestricted roi in
    let value := if rr_confined rule then ri_confined roi else ri_restricted roi in
    if negb present || (negb (bool_decide (value = str "true")) && negb (bool_decide (value = str "false")))
    then Some RoiViolationValue
    else if bool_decide (value = str "false") && negb (rr_confined rule) then None
    else if bool_decide (ri_objectIds roi = []) then Some RoiObjectReference
    else reference_fault objects rule [] (ri_objectIds roi).

Definition proximity_metadata_bad (p : DvmProximity) : bool :=
  negb (sf_finite (px_threshold p)) || SFleb (px_threshold p) (S754_zero false) || (px_detections p <? 0) ||
  negb (px_hasViolation p) ||
  (negb (bool_decide (px_violation p = str "true")) && negb (bool_decide (px_violation p = str "false"))) ||
  negb (eqb (px_detections p =? 0) (bool_decide (px_violation p = str "false"))).

Definition pair_object_fault (objects : list DvmObject) (rule : DvmPairRule) (o : DvmObject) : option DecisionFault :=
  let type := lowerCopy (ob_type o) in
  if negb (bool_decide (type = pr_primaryType rule)) && negb (bool_decide (type = pr_secondaryType rule)) then None
  else match numericId (ob_id o) with
  | None => Some ProximityObjectId
  | Some id =>
    if negb (usableCoordinate o) then Some ProximityCoordinate
    else if negb (proximity_count objects id =? 1)%nat then Some ProximityDuplicateId else None
  end.

Definition pair_rule_fault (objects : list DvmObject) (p : DvmProximity) (rule : DvmPairRule) : option DecisionFault :=
  if SFltb (px_threshold p) (pr_warningDistance rule) then Some ProximityRangeTooSmall
  else if negb (has_type objects (pr_primaryType rule) && has_type objects (pr_secondaryType rule)) then None
  else first_fault (pair_object_fault objects rule) objects.

Definition decisionFault (frame : DvmFrame) (contract : DvmDecisionContract) (requireProximity : bool) : option DecisionFault :=
  if negb (dc_configured contract) then None
  else match first_fault (fun roi => first_fault (roi_rule_fault (fr_objects frame) roi) (dc_roiRules contract)) (fr_rois frame) with
  | Some fault => Some fault
  | None =>
    if bool_decide (length (dc_pairRules contract) = 0%nat) then None
    else if negb (px_present (fr_proximity frame)) then (if requireProximity then Some ProximityMetadataMissing else None)
    else if proximity_metadata_bad (fr_proximity frame) then Some ProximityMetadataInvalid
    else first_fault (pair_rule_fault (fr_objects frame) (fr_proximity frame)) (dc_pairRules contract)
  end.

Definition usableTimestamp (frame : DvmFrame) : bool :=
  fr_timestampValid frame && (0 <? fr_timestampMs frame) && (fr_timestampMs frame <=? 253402300799999).

(** ** The loop *)

Record DvmSettings := {
  ds_badFramesPercent : Z;
  ds_startupGraceMs : Z;
  ds_expectedFps : gmap text spec_float;   (** its keys are [knownSensors_] *)
  ds_baselines : gmap text DvmBaseline;
}.

Record FrameCounts := { fc_total : Z; fc_badFrames : Z; fc_fresh : Z }.

Record DvmLoop := {
  dl_countOverflow : bool;
  dl_sourceUnavailableInWindow : bool;
  dl_invalidDataPending : bool;
  dl_invalidDataInWindow : bool;
  dl_windowCountBySensor : gmap text FrameCounts;
  dl_windowStart : Z;
  dl_loopStart : Z;
  dl_firstSeen : gmap text Z;
  dl_sourceDown : bool;
  dl_graceReported : bool;
  dl_lastTimestampMs : gmap text Z;
}.

Definition loop_start (now : Z) : DvmLoop := {|
  dl_countOverflow := false; dl_sourceUnavailableInWindow := false; dl_invalidDataPending := false;
  dl_invalidDataInWindow := false; dl_windowCountBySensor := ∅; dl_windowStart := now; dl_loopStart := now;
  dl_firstSeen := ∅; dl_sourceDown := false; dl_graceReported := false; dl_lastTimestampMs := ∅ |}.

Inductive FrameStatus := StatusFrame (frame : DvmFrame) | StatusTimeout | StatusDisconnected | StatusInvalidData.

(** What one pass of the loop sees: the answer of the source, the clocks read while
    the frame is looked at, and the clock at the end of the pass. *)
Record DvmPass := { dp_status : FrameStatus; dp_seenAt : Z; dp_wallFresh : Z; dp_wallEvaluate : Z; dp_now : Z }.

Section loop.
Variable cfg : DvmSettings.

Definition isKnownSensor (sensor : text) : bool := bool_decide (is_Some (ds_expectedFps cfg !! sensor)).
Definition sensorCheckActive : bool := negb (bool_decide (size (ds_expectedFps cfg) = 0%nat)).

Definition isFreshObservation (frame : DvmFrame) (wallMs : Z) (lastTs : gmap text Z) : bool * gmap text Z :=
  let limit := match ds_baselines cfg !! fr_sensorId frame with None => 0 | Some b => bl_maxFrameAgeMs b end in
  if limit =? 0 then (true, lastTs)
  else if negb (usableTimestamp frame) then (false, lastTs)
  else
    let age := wallMs - fr_timestampMs frame in
    if (age <? - kMinimumFrameAgeMs) || (limit <? age) then (false, lastTs)
    else if fr_timestampMs frame <=? default 0 (lastTs !! fr_sensorId frame) then (false, lastTs)
    else (true, <[fr_sensorId frame := fr_timestampMs frame]> lastTs).

Definition evaluateFrame (frame : DvmFrame) (wallMs : Z) : bool :=
  if sensorCheckActive && negb (isKnownSensor (fr_sensorId frame)) then true
  else match ds_baselines cfg !! fr_sensorId frame with
  | None => false
  | Some b =>
    if negb (bl_modern b) then false
    else
      let age := if usableTimestamp frame then wallMs - fr_timestampMs frame else 0 in
      if (0 <? bl_maxFrameAgeMs b) &&
         (negb (usableTimestamp frame) || (bl_maxFrameAgeMs b <? age) || (age <? - kMinimumFrameAgeMs)) then true
      else match decisionFault frame (bl_contract b) (bl_proximityRequired b) with Some _ => true | None => false end
  end.

Definition noteFrameArrived (sensor : text) (now : Z) (firstSeen : gmap text Z) : gmap text Z :=
  if isKnownSensor sensor && bool_decide (firstSeen !! sensor = None) then <[sensor := now]> firstSeen else firstSeen.

Definition no_counts : FrameCounts := {| fc_total := 0; fc_badFrames := 0; fc_fresh := 0 |}.

Definition take_frame (frame : DvmFrame) (p : DvmPass) (l : DvmLoop) : DvmLoop :=
  let sensor := fr_sensorId frame in
  let firstSeen := noteFrameArrived sensor (dp_seenAt p) (dl_firstSeen l) in
  let counts := default no_counts (dl_windowCountBySensor l !! sensor) in
  let full := fc_total counts =? SIZE_MAX in
  let '(fresh, lastTs) := if full then (false, dl_lastTimestampMs l) else isFreshObservation frame (dp_wallFresh p) (dl_lastTimestampMs l) in
  let counts' :=
    if full then counts
    else {| fc_total := fc_total counts + 1;
            fc_badFrames := if evaluateFrame frame (dp_wallEvaluate p) then fc_badFrames counts + 1 else fc_badFrames counts;
            fc_fresh := if fresh then fc_fresh counts + 1 else fc_fresh counts |} in
  {| dl_countOverflow := if full then true else dl_countOverflow l;
     dl_sourceUnavailableInWindow := dl_sourceUnavailableInWindow l; dl_invalidDataPending := false;
     dl_invalidDataInWindow := dl_invalidDataInWindow l;
     dl_windowCountBySensor := <[sensor := counts']> (dl_windowCountBySensor l);
     dl_windowStart := dl_windowStart l; dl_loopStart := dl_loopStart l; dl_firstSeen := firstSeen; dl_sourceDown := false;
     dl_graceReported := dl_graceReported l; dl_lastTimestampMs := lastTs |}.

Definition take_status (p : DvmPass) (l : DvmLoop) : DvmLoop :=
  match dp_status p with
  | StatusFrame frame => take_frame frame p l
  | StatusTimeout => l
  | StatusInvalidData => {|
      dl_countOverflow := dl_countOverflow l; dl_sourceUnavailableInWindow := dl_sourceUnavailableInWindow l;
      dl_invalidDataPending := true; dl_invalidDataInWindow := true;
      dl_windowCountBySensor := dl_windowCountBySensor l; dl_windowStart := dl_windowStart l;
      dl_loopStart := dl_loopStart l; dl_firstSeen := dl_firstSeen l; dl_sourceDown := dl_sourceDown l;
      dl_graceReported := dl_graceReported l; dl_lastTimestampMs := dl_lastTimestampMs l |}
  | StatusDisconnected => {|
      dl_countOverflow := dl_countOverflow l; dl_sourceUnavailableInWindow := true;
      dl_invalidDataPending := dl_invalidDataPending l; dl_invalidDataInWindow := dl_invalidDataInWindow l;
      dl_windowCountBySensor := dl_windowCountBySensor l; dl_windowStart := dl_windowStart l;
      dl_loopStart := dl_loopStart l; dl_firstSeen := dl_firstSeen l; dl_sourceDown := true;
      dl_graceReported := dl_graceReported l; dl_lastTimestampMs := dl_lastTimestampMs l |}
  end.

(** A camera that was sending before the window and delivered too few fresh frames. *)
Definition low_rate (l : DvmLoop) (elapsedMs : Z) (kv : text * spec_float) : bool :=
  let '(sensor, fps) := kv in
  if SFleb fps (S754_zero false) then false
  else match dl_firstSeen l !! sensor with
  | None => false
  | Some seen =>
    if dl_windowStart l <=? seen then false
    else
      let observed := match dl_windowCountBySensor l !! sensor with Some c => fc_fresh c | None => 0 end in
      let expected := f64_mul fps (f64_div (f64_of_Z elapsedMs) (f64_of_Z 1000)) in
      SFltb (f64_of_Z observed) (f64_mul expected kDvmMinFrameRateRatio)
  end.

Definition checkFrameRate (l : DvmLoop) (elapsedMs : Z) : bool :=
  if negb sensorCheckActive || (elapsedMs <=? 0) then false
  else existsb (low_rate l elapsedMs) (map_to_list (ds_expectedFps cfg)).

Definition bad_camera (kv : text * FrameCounts) : bool :=
  percentageReached (fc_badFrames kv.2) (fc_total kv.2) (ds_badFramesPercent cfg).

Definition closeWindow (l : DvmLoop) (elapsedMs : Z) : PcmCheckVerdict :=
  if dl_sourceDown l then VerdictOff
  else if dl_countOverflow l || existsb bad_camera (map_to_list (dl_windowCountBySensor l)) || checkFrameRate l elapsedMs
  then VerdictBad
  else if bool_decide (size (dl_firstSeen l) = 0%nat) then VerdictOff else VerdictGood.

(** One pass: the loop state and the verdict reported, if the window ended. *)
Definition dvm_pass (p : DvmPass) (l0 : DvmLoop) : DvmLoop * option PcmCheckVerdict :=
  let l := take_status p l0 in
  let elapsedMs := (dp_now p - dl_windowStart l) ÷ NS_PER_MS in
  if elapsedMs <? kDvmWindowMs then (l, None)
  else
    let verdict :=
      if dl_invalidDataInWindow l then VerdictBad
      else if dl_sourceUnavailableInWindow l then VerdictOff
      else closeWindow l elapsedMs in
    ({| dl_countOverflow := false; dl_sourceUnavailableInWindow := dl_sourceDown l;
        dl_invalidDataPending := dl_invalidDataPending l; dl_invalidDataInWindow := dl_invalidDataPending l;
        dl_windowCountBySensor := ∅; dl_windowStart := dp_now p; dl_loopStart := dl_loopStart l;
        dl_firstSeen := dl_firstSeen l; dl_sourceDown := dl_sourceDown l;
        dl_graceReported := dl_graceReported l ||
          negb ((dp_now p - dl_loopStart l) ÷ NS_PER_MS <? ds_startupGraceMs cfg);
        dl_lastTimestampMs := dl_lastTimestampMs l |}, Some verdict).

Fixpoint dvm_run (ps : list DvmPass) (l : DvmLoop) : DvmLoop * list PcmCheckVerdict :=
  match ps with
  | [] => (l, [])
  | p :: ps' =>
    let '(l1, v) := dvm_pass p l in
    let '(l2, vs) := dvm_run ps' l1 in (l2, option_list v ++ vs)
  end.

End loop.
