(* ===== verification/PcmDvmSafety.v ===== *)
(** * What the data-validation monitor guarantees

    The vote of a window is the exact percentage, the verdict of a window follows
    from what the source delivered in it, and a frame that passes the decision-data
    check can be used by the consumers it is checked for. *)

From stdpp Require Import strings.
From Stdlib Require Import Ascii.
From S2P Require Import Prelude Protocol Text Float32 Pcm PcmHealth PcmConfig PcmDvm.

Local Open Scope Z_scope.
Local Open Scope list_scope.

(** ** The vote *)

Lemma percentageReached_exact bad total percent : 0 <= total <= SIZE_MAX -> 1 <= percent <= 100 ->
  percentageReached bad total percent = true <-> 0 < total /\ percent * total <= 100 * bad.
Proof.
  intros Ht Hp. unfold percentageReached, SIZE_MAX in *. destruct (Z.eqb_spec total 0); [split; [done|lia]|].
  pose proof (Z.div_mod total 100 ltac:(lia)) as Hdm. pose proof (Z.mod_pos_bound total 100 ltac:(lia)) as Hr.
  set (q := total / 100) in *. set (r := total mod 100) in *. rewrite (u64_small percent) by (unfold is_u64; lia).
  assert (0 <= q) by (subst q; apply Z.div_pos; lia).
  rewrite (u64_small (r * percent)) by (unfold is_u64; nia). rewrite (u64_small (r * percent + 99)) by (unfold is_u64; nia).
  rewrite (u64_small (q * percent)) by (unfold is_u64; nia).
  pose proof (Z.div_mod (r * percent + 99) 100 ltac:(lia)). pose proof (Z.mod_pos_bound (r * percent + 99) 100 ltac:(lia)).
  set (c := (r * percent + 99) / 100) in *. assert (0 <= c <= r) by (split; nia).
  rewrite u64_small by (unfold is_u64; nia). rewrite Z.leb_le. split; [intros; split; nia|intros [_ ?]; nia].
Qed.

(** ** Windows *)

Section windows.
Variable cfg : DvmSettings.

(** A window that has just been opened. *)
Record opened (l : DvmLoop) : Prop := {
  op_overflow : dl_countOverflow l = false;
  op_unavailable : dl_sourceUnavailableInWindow l = dl_sourceDown l;
  op_invalid : dl_invalidDataInWindow l = dl_invalidDataPending l;
  op_counts : dl_windowCountBySensor l = ∅;
}.

(** The frames of a camera among the passes, and those that fail the checks. *)
Definition frame_of (sensor : text) (p : DvmPass) : bool :=
  match dp_status p with StatusFrame f => bool_decide (fr_sensorId f = sensor) | _ => false end.
Definition bad_frame_of (sensor : text) (p : DvmPass) : bool :=
  match dp_status p with StatusFrame f => bool_decide (fr_sensorId f = sensor) && evaluateFrame cfg f (dp_wallEvaluate p) | _ => false end.

Definition frames (sensor : text) (ps : list DvmPass) : Z := Z.of_nat (length (filter (fun p => frame_of sensor p = true) ps)).
Definition bad_frames (sensor : text) (ps : list DvmPass) : Z := Z.of_nat (length (filter (fun p => bad_frame_of sensor p = true) ps)).

Definition undecodable (p : DvmPass) : bool := match dp_status p with StatusInvalidData => true | _ => false end.
Definition disconnected (p : DvmPass) : bool := match dp_status p with StatusDisconnected => true | _ => false end.

(** What the loop knows after the passes [ps] of a window opened in [l0]. *)
Record window_state (l0 : DvmLoop) (ps : list DvmPass) (l : DvmLoop) : Prop := {
  ws_overflow : dl_countOverflow l = false;
  ws_invalid : dl_invalidDataInWindow l = (dl_invalidDataPending l0 || existsb undecodable ps)%bool;
  ws_unavailable : dl_sourceUnavailableInWindow l = (dl_sourceDown l0 || existsb disconnected ps)%bool;
  ws_down : dl_sourceDown l = true -> dl_sourceUnavailableInWindow l = true;
  ws_total : forall s, fc_total (default no_counts (dl_windowCountBySensor l !! s)) = frames s ps;
  ws_bad : forall s, fc_badFrames (default no_counts (dl_windowCountBySensor l !! s)) = bad_frames s ps;
}.

Lemma opened_window l : opened l -> window_state l [] l.
Proof.
  intros [Ho Hu Hi Hc]. split; [done|by rewrite orb_false_r|by rewrite orb_false_r|congruence|..]; intros s; by rewrite Hc, lookup_empty.
Qed.

Lemma frames_snoc s ps p : frames s (ps ++ [p]) = frames s ps + (if frame_of s p then 1 else 0).
Proof. unfold frames. rewrite filter_app, filter_cons, filter_nil, length_app. case_decide; destruct (frame_of s p); try done; cbn; lia. Qed.

Lemma bad_frames_snoc s ps p : bad_frames s (ps ++ [p]) = bad_frames s ps + (if bad_frame_of s p then 1 else 0).
Proof. unfold bad_frames. rewrite filter_app, filter_cons, filter_nil, length_app. case_decide; destruct (bad_frame_of s p); try done; cbn; lia. Qed.

Lemma frames_le s ps : 0 <= frames s ps <= Z.of_nat (length ps).
Proof. unfold frames. pose proof (length_filter (fun p => frame_of s p = true) ps). lia. Qed.

Lemma take_window l0 ps l p : window_state l0 ps l -> Z.of_nat (length ps) < SIZE_MAX -> window_state l0 (ps ++ [p]) (take_status cfg p l).
Proof.
  intros [Ho Hi Hu Hd Ht Hb] Hlen. unfold take_status.
  destruct (dp_status p) as [f| | |] eqn:Es.
  - assert (Hfull : (fc_total (default no_counts (dl_windowCountBySensor l !! fr_sensorId f)) =? SIZE_MAX) = false).
    { rewrite Ht. pose proof (frames_le (fr_sensorId f) ps). lia. }
    unfold take_frame. rewrite Hfull. destruct (isFreshObservation _ _ _ _) as [fresh lastTs].
    split; cbn; rewrite ?existsb_app; cbn; unfold undecodable, disconnected; rewrite ?Es; cbn; rewrite ?orb_false_r; try done.
    + intros s. rewrite frames_snoc. unfold frame_of. rewrite Es. destruct (decide (fr_sensorId f = s)) as [<-|Hne].
      * rewrite lookup_insert_eq, bool_decide_true by done. cbn. by rewrite Ht.
      * rewrite lookup_insert_ne, bool_decide_false by done. rewrite Ht. lia.
    + intros s. rewrite bad_frames_snoc. unfold bad_frame_of. rewrite Es. destruct (decide (fr_sensorId f = s)) as [<-|Hne].
      * rewrite lookup_insert_eq, bool_decide_true by done. cbn. rewrite Hb. case_match; lia.
      * rewrite lookup_insert_ne, bool_decide_false by done. rewrite Hb. cbn. lia.
  - split; rewrite ?existsb_app; cbn; unfold undecodable, disconnected; rewrite ?Es, ?orb_false_r; try done;
      intros s; rewrite ?frames_snoc, ?bad_frames_snoc, ?Ht, ?Hb; unfold frame_of, bad_frame_of; rewrite Es; lia.
  - split; cbn; rewrite ?existsb_app; cbn; unfold undecodable, disconnected; rewrite ?Es, ?orb_false_r, ?orb_true_r; try done;
      intros s; rewrite ?frames_snoc, ?bad_frames_snoc, ?Ht, ?Hb; unfold frame_of, bad_frame_of; rewrite Es; lia.
  - split; cbn; rewrite ?existsb_app; cbn; unfold undecodable, disconnected; rewrite ?Es, ?orb_false_r, ?orb_true_r; try done;
      intros s; rewrite ?frames_snoc, ?bad_frames_snoc, ?Ht, ?Hb; unfold frame_of, bad_frame_of; rewrite Es; lia.
Qed.

Lemma pass_no_verdict p l : (dvm_pass cfg p l).2 = None -> (dvm_pass cfg p l).1 = take_status cfg p l.
Proof. unfold dvm_pass. by case_match. Qed.

(** Passes that close no window. *)
Lemma run_window l0 ps2 : forall ps1 l l', window_state l0 ps1 l -> Z.of_nat (length (ps1 ++ ps2)) < SIZE_MAX ->
  dvm_run cfg ps2 l = (l', []) -> window_state l0 (ps1 ++ ps2) l'.
Proof.
  induction ps2 as [|p ps2 IH]; intros ps1 l l' Hw Hlen; cbn; [intros; simplify_eq; by rewrite app_nil_r|].
  destruct (dvm_pass cfg p l) as [l1 v] eqn:E. destruct (dvm_run cfg ps2 l1) as [l2 vs] eqn:E2. intros H. injection H as <- Hv.
  destruct v; [done|]. cbn in Hv. subst vs. pose proof (pass_no_verdict p l) as Hn. rewrite E in Hn. cbn in Hn. specialize (Hn eq_refl) as ->.
  change (p :: ps2) with ([p] ++ ps2) in *. rewrite app_assoc in *. eapply IH; [|done..]. apply take_window; [done|].
  rewrite !length_app in Hlen. cbn in Hlen. lia.
Qed.

Lemma closeWindow_good l elapsed : closeWindow cfg l elapsed = VerdictGood ->
  dl_sourceDown l = false /\ dl_countOverflow l = false /\ dl_firstSeen l <> ∅ /\
  (forall s c, dl_windowCountBySensor l !! s = Some c -> percentageReached (fc_badFrames c) (fc_total c) (ds_badFramesPercent cfg) = false).
Proof.
  unfold closeWindow. destruct (dl_sourceDown l); [done|]. destruct (dl_countOverflow l); [done|]. cbn.
  destruct (existsb _ _) eqn:E; [done|]. cbn. case_match; [done|]. case_bool_decide as Hs; [done|]. intros _.
  split_and!; [done..| |].
  - intros He. destruct Hs. by rewrite He.
  - intros s c Hc. destruct (percentageReached _ _ _) eqn:Ep; [|done].
    rewrite <- not_true_iff_false, existsb_exists in E. destruct E. exists (s, c). split; [|done].
    apply list_elem_of_In. by apply elem_of_map_to_list.
Qed.

Lemma pass_opened p l l' v : dvm_pass cfg p l = (l', Some v) -> opened l'.
Proof. unfold dvm_pass. case_match; [done|]. intros; simplify_eq. by split. Qed.

End windows.

(** C20. The verdict of a window is what the source delivered in it: undecodable data
    in it, or pending when it opened, makes it bad; otherwise an outage in it, or
    standing when it opened, leaves it without a verdict; and a good window had
    frames, was free of both, and no camera had the configured percentage of its
    frames bad, counted exactly. *)
Theorem window_verdict_sound cfg l0 ps p l l' v : opened l0 -> 1 <= ds_badFramesPercent cfg <= 100 ->
  Z.of_nat (length ps) < SIZE_MAX -> dvm_run cfg ps l0 = (l, []) -> dvm_pass cfg p l = (l', Some v) ->
  let passes := ps ++ [p] in
  let corrupt := dl_invalidDataPending l0 || existsb undecodable passes in
  let outage := dl_sourceDown l0 || existsb disconnected passes in
  opened l' /\ (corrupt = true -> v = VerdictBad) /\ (corrupt = false -> outage = true -> v = VerdictOff) /\
  (v = VerdictGood -> corrupt = false /\ outage = false /\
     forall sensor, 0 < frames sensor passes -> 100 * bad_frames cfg sensor passes < ds_badFramesPercent cfg * frames sensor passes).
Proof.
  intros Hop Hpc Hlen Hrun Hpass passes corrupt outage. split; [by eapply pass_opened|].
  pose proof (run_window cfg l0 ps [] l0 l (opened_window cfg l0 Hop) Hlen Hrun) as Hw.
  pose proof (take_window cfg l0 ps l p Hw Hlen) as Hw'. cbn in Hw'. fold passes in Hw'. unfold dvm_pass in Hpass.
  set (lt := take_status cfg p l) in *. case_match; [done|]. simplify_eq. destruct Hw' as [Ho Hi Hu Hd Ht Hb].
  fold corrupt in Hi. fold outage in Hu. rewrite Hi, Hu. split; [by intros ->|]. split; [by intros -> ->|].
  destruct corrupt; [done|]. destruct outage; [done|]. intros (_ & _ & _ & Hg)%closeWindow_good. split_and!; [done..|].
  intros s Hs. specialize (Hg s). rewrite <- Ht in Hs. rewrite <- Ht, <- Hb.
  destruct (dl_windowCountBySensor lt !! s) as [c|] eqn:Ec; [|cbn in Hs; lia]. specialize (Hg c eq_refl). cbn in *.
  specialize (Ht s). rewrite Ec in Ht. cbn in Ht. pose proof (frames_le s passes) as Hf.
  assert (Z.of_nat (length passes) <= SIZE_MAX) by (subst passes; rewrite length_app; cbn; lia).
  rewrite <- not_true_iff_false, percentageReached_exact in Hg by lia. lia.
Qed.

(** ** Frames that pass *)

Lemma first_fault_none {A} (f : A -> option DecisionFault) l : first_fault f l = None <-> forall x, x ∈ l -> f x = None.
Proof.
  induction l as [|y l IH]; cbn; [split; [intros _ x Hx; set_solver|done]|]. destruct (f y) eqn:E.
  - split; [done|]. intros H. rewrite H in E by set_solver. done.
  - rewrite IH. split; [intros H x [-> |Hx]%elem_of_cons; auto|]. intros H x Hx. apply H. set_solver.
Qed.

Lemma filter_one {A} (P : A -> Prop) `{!forall x, Decision (P x)} l i j x y : (length (filter P l) <= 1)%nat ->
  l !! i = Some x -> l !! j = Some y -> P x -> P y -> i = j.
Proof.
  assert (Hnil : forall (l : list A) k z, length (filter P l) = 0%nat -> l !! k = Some z -> ~ P z).
  { intros l' k z Hl Hk Hz. apply nil_length_inv in Hl. apply list_elem_of_lookup_2 in Hk.
    assert (z ∈ filter P l') as Hin by (apply list_elem_of_filter; done). rewrite Hl in Hin. set_solver. }
  revert i j. induction l as [|a l IH]; intros i j Hl Hx Hy HPx HPy; [done|]. rewrite filter_cons in Hl.
  destruct i as [|i], j as [|j]; cbn in *; [done| | |f_equal; eapply IH; eauto; case_decide; cbn in Hl; lia].
  - simplify_eq. rewrite decide_True in Hl by done. cbn in Hl. destruct (Hnil l j y); [lia|done..].
  - simplify_eq. rewrite decide_True in Hl by done. cbn in Hl. destruct (Hnil l i x); [lia|done..].
Qed.

(** An object named by its id alone. *)
Definition sole_object (objects : list DvmObject) (reference type : text) : Prop :=
  exists i o, objects !! i = Some o /\ ob_id o = reference /\ lowerCopy (ob_type o) = type /\
    forall j o', objects !! j = Some o' -> numericId (ob_id o') = numericId reference -> j = i.

Lemma with_id_one objects id o : with_id objects id = [o] -> numericId (ob_id o) = Some id /\
  exists i, objects !! i = Some o /\ forall j o', objects !! j = Some o' -> numericId (ob_id o') = Some id -> j = i.
Proof.
  intros E. assert (o ∈ with_id objects id) as Hin by (rewrite E; set_solver). unfold with_id in *.
  apply list_elem_of_filter in Hin as [Hid [i Hi]%list_elem_of_lookup]. split; [done|]. exists i. split; [done|]. intros j o' Hj Hid'.
  eapply (filter_one (fun o => numericId (ob_id o) = Some id) objects); eauto. rewrite E. cbn. lia.
Qed.

Lemma reference_fault_none objects rule refs : forall seen, reference_fault objects rule seen refs = None ->
  NoDup refs /\ Forall (fun r => sole_object objects r (rr_type rule) /\ forall id, numericId r = Some id -> ~ (id ∈ seen)) refs.
Proof.
  induction refs as [|r refs IH]; intros seen; cbn; [intros _; split; constructor|]. destruct (numericId r) as [id|] eqn:Er; [|done].
  case_bool_decide as Hseen; [done|]. destruct (with_id objects id) as [|o [|? ?]] eqn:E; [done| |done].
  destruct (negb _ || negb _) eqn:Ec; [done|]. rewrite orb_false_iff, !negb_false_iff, !bool_decide_eq_true in Ec. destruct Ec as [Hid Hty].
  intros [Hnd Hall]%IH. apply with_id_one in E as [_ (i & Hi & Hu)]. split.
  - constructor; [|done]. intros Hin. rewrite Forall_forall in Hall. destruct (Hall r Hin) as [_ Hno]. destruct (Hno id Er). set_solver.
  - constructor.
    + split; [|intros id' Hid'; congruence]. exists i, o. rewrite Er. done.
    + eapply Forall_impl; [exact Hall|]. cbn. intros x [Hs Hno]. split; [done|]. intros id' Hid' Hin. apply (Hno id' Hid'). set_solver.
Qed.

Lemma roi_rule_accepted objects roi rule : roi_rule_fault objects roi rule = None ->
  matchesRoiId (rr_id rule) (ri_id roi) = true -> lowerCopy (ri_type roi) = rr_type rule ->
  let value := if rr_confined rule then ri_confined roi else ri_restricted roi in
  (value = str "true" \/ value = str "false") /\
  (value = str "true" \/ rr_confined rule = true ->
   ri_objectIds roi <> [] /\ NoDup (ri_objectIds roi) /\ Forall (fun r => sole_object objects r (rr_type rule)) (ri_objectIds roi)).
Proof.
  intros H Hm Ht value. unfold roi_rule_fault in H. rewrite Hm, bool_decide_true in H by done. cbn [negb orb] in H. fold value in H.
  destruct (_ || _) eqn:Ev; [done|]. rewrite orb_false_iff, andb_false_iff, !negb_false_iff, !bool_decide_eq_true in Ev. destruct Ev as [_ Ev].
  split; [done|]. intros Hneed. destruct (bool_decide (value = str "false") && _) eqn:Ec.
  { rewrite andb_true_iff, bool_decide_eq_true, negb_true_iff in Ec. destruct Ec as [Ef Hc]. destruct Hneed as [Et|?]; [|congruence].
    rewrite Et in Ef. done. }
  case_bool_decide as He; [done|]. apply reference_fault_none in H as [Hnd Hall]. split_and!; [done..|].
  eapply Forall_impl; [exact Hall|]. by intros x [? _].
Qed.

(** An object a pair rule uses: its id is a number no other usable object has. *)
Definition pair_object_ok (objects : list DvmObject) (i : nat) (o : DvmObject) : Prop :=
  usableCoordinate o = true /\ is_Some (numericId (ob_id o)) /\
  forall j o', objects !! j = Some o' -> numericId (ob_id o') = numericId (ob_id o) -> ob_type o' <> [] ->
    usableCoordinate o' = true -> j = i.

Lemma pair_object_accepted objects rule i o : pair_object_fault objects rule o = None -> objects !! i = Some o -> ob_type o <> [] ->
  lowerCopy (ob_type o) = pr_primaryType rule \/ lowerCopy (ob_type o) = pr_secondaryType rule -> pair_object_ok objects i o.
Proof.
  intros H Hi Hne Hty. unfold pair_object_fault in H.
  assert (negb (bool_decide (lowerCopy (ob_type o) = pr_primaryType rule)) && negb (bool_decide (lowerCopy (ob_type o) = pr_secondaryType rule)) = false) as Hf.
  { by rewrite andb_false_iff, !negb_false_iff, !bool_decide_eq_true. }
  rewrite Hf in H. destruct (numericId (ob_id o)) as [id|] eqn:Eid; [|done]. destruct (usableCoordinate o) eqn:Eu; [|done]. cbn in H.
  destruct (Nat.eqb_spec (proximity_count objects id) 1) as [Hc|]; [|done]. split_and!; [done|by eexists|].
  intros j o' Hj Hid Hne' Hu'. unfold proximity_count, with_id in Hc. rewrite list_filter_filter in Hc.
  eapply (filter_one (fun o => (ob_type o <> [] /\ usableCoordinate o = true) /\ numericId (ob_id o) = Some id) objects j i o' o); auto.
  - rewrite Hc. lia.
  - split; [done|congruence].
Qed.

(** C19. A frame that passes the decision-data check can be used: every region a rule
    of the contract matches has a violation value, and where the rule needs its
    objects each reference names exactly one object of the rule's type; proximity
    data is there when it is required and reaches the warning distance of every
    pair rule; and when both types of a pair are in the frame, every object of
    either type has usable coordinates and a number that no other usable object
    has. *)
Theorem accepted_frame_usable frame contract requireProximity :
  dc_configured contract = true -> decisionFault frame contract requireProximity = None ->
  (forall roi rule, roi ∈ fr_rois frame -> rule ∈ dc_roiRules contract ->
     matchesRoiId (rr_id rule) (ri_id roi) = true -> lowerCopy (ri_type roi) = rr_type rule ->
     let value := if rr_confined rule then ri_confined roi else ri_restricted roi in
     (value = str "true" \/ value = str "false") /\
     (value = str "true" \/ rr_confined rule = true ->
      ri_objectIds roi <> [] /\ NoDup (ri_objectIds roi) /\
      Forall (fun r => sole_object (fr_objects frame) r (rr_type rule)) (ri_objectIds roi))) /\
  (dc_pairRules contract <> [] -> requireProximity = true -> px_present (fr_proximity frame) = true) /\
  (px_present (fr_proximity frame) = true -> forall rule, rule ∈ dc_pairRules contract ->
     SFltb (px_threshold (fr_proximity frame)) (pr_warningDistance rule) = false /\
     (has_type (fr_objects frame) (pr_primaryType rule) = true -> has_type (fr_objects frame) (pr_secondaryType rule) = true ->
      forall i o, fr_objects frame !! i = Some o -> ob_type o <> [] ->
        lowerCopy (ob_type o) = pr_primaryType rule \/ lowerCopy (ob_type o) = pr_secondaryType rule ->
        pair_object_ok (fr_objects frame) i o)).
Proof.
  intros Hc H. unfold decisionFault in H. rewrite Hc in H. cbn in H. destruct (first_fault _ (fr_rois frame)) eqn:Er; [done|].
  rewrite first_fault_none in Er. split; [|split].
  - intros roi rule Hroi Hrule. apply roi_rule_accepted. specialize (Er roi Hroi). rewrite first_fault_none in Er. by apply Er.
  - intros Hp ->. case_bool_decide as He; [by destruct Hp, (dc_pairRules contract)|]. by destruct (px_present _).
  - intros Hp rule Hrule. rewrite Hp in H. case_bool_decide as He; [apply nil_length_inv in He; rewrite He in Hrule; set_solver|]. cbn in H.
    destruct (proximity_metadata_bad _); [done|]. rewrite first_fault_none in H. specialize (H rule Hrule). unfold pair_rule_fault in H.
    destruct (SFltb _ _); [done|]. split; [done|]. intros H1 H2. rewrite H1, H2 in H. cbn in H. rewrite first_fault_none in H.
    intros i o Hi Hne Hty. eapply pair_object_accepted; eauto. apply H. by eapply list_elem_of_lookup_2.
Qed.
