(* ===== verification/PcmJson.v ===== *)
(** * Reading the replies of the Docker Engine API

    [json_extract.cpp], [json_extract.h] and [inspectContainer] of
    [docker_client.cpp]: extractors that walk the text of a reply without building
    a tree.  A position between [i] and [end] is the rest of the slice, a list of
    characters; [end] is [[]] and [npos] is [None].  The HTTP exchange is an
    argument.  The loops that jump over a string take the length of the slice as
    fuel; every turn consumes a character. *)

From Stdlib Require Import Ascii String.
From S2P Require Import Prelude Protocol Text Pcm PcmHealth.

Local Open Scope Z_scope.
Local Open Scope list_scope.

Definition QUOTE : ascii := Ascii.ascii_of_nat 34.
Definition BACKSLASH : ascii := Ascii.ascii_of_nat 92.

Definition isWs (c : ascii) : bool := Text.blank c.

Fixpoint skipWs (l : text) : text :=
  match l with
  | [] => []
  | c :: l' => if isWs c then skipWs l' else l
  end.

(** The loop of [skipJsonString], after the opening quote. *)
Fixpoint skip_string (l : text) : option text :=
  match l with
  | [] => None
  | c :: l' =>
    if Ascii.eqb c BACKSLASH then match l' with [] => None | _ :: l'' => skip_string l'' end
    else if Ascii.eqb c QUOTE then Some l'
    else skip_string l'
  end.

Definition skipJsonString (l : text) : option text :=
  match l with
  | [] => None
  | c :: l' => if negb (Ascii.eqb c QUOTE) then None else skip_string l'
  end.

(** The loop of [skipContainer]. *)
Fixpoint skip_container (fuel : nat) (op close : ascii) (depth : nat) (l : text) : text :=
  match fuel, depth, l with
  | _, O, _ => l
  | O, _, _ | _, _, [] => []
  | S fuel', S depth', c :: l' =>
    if Ascii.eqb c QUOTE then
      match skipJsonString l with None => [] | Some after => skip_container fuel' op close depth after end
    else if Ascii.eqb c op then skip_container fuel' op close (S depth) l'
    else if Ascii.eqb c close then skip_container fuel' op close depth' l'
    else skip_container fuel' op close depth l'
  end.

Definition skipContainer (l : text) : text :=
  match l with
  | [] => []
  | c :: l' =>
    if Ascii.eqb c "{" then skip_container (length l') "{" "}" 1 l'
    else if Ascii.eqb c "[" then skip_container (length l') "[" "]" 1 l'
    else []
  end.

Fixpoint skip_scalar (l : text) : text :=
  match l with
  | [] => []
  | c :: l' => if Ascii.eqb c "," || Ascii.eqb c "}" || Ascii.eqb c "]" || isWs c then l else skip_scalar l'
  end.

(** [None] is [npos], the answer of [skipJsonString] to an unfinished string. *)
Definition skipValue (l : text) : option text :=
  match skipWs l with
  | [] => Some []
  | c :: l' =>
    if Ascii.eqb c QUOTE then skipJsonString (c :: l')
    else if Ascii.eqb c "{" || Ascii.eqb c "[" then Some (skipContainer (c :: l'))
    else Some (skip_scalar (c :: l'))
  end.

(** The loop of [findKey]. *)
Fixpoint find_key (fuel : nat) (key : text) (l : text) : option text :=
  match fuel with
  | O => None
  | S fuel' =>
    match skipWs l with
    | [] => None
    | c :: l' =>
      if Ascii.eqb c "," then find_key fuel' key l'
      else if Ascii.eqb c "}" then None
      else if negb (Ascii.eqb c QUOTE) then None
      else match skipJsonString (c :: l') with
      | None => None
      | Some after =>
        let name := take (length l' - length after - 1) l' in
        match skipWs after with
        | [] => None
        | colon :: rest =>
          if negb (Ascii.eqb colon ":") then None
          else match skipWs rest with
          | [] => None
          | v :: rest' =>
            if bool_decide (name = key) then Some (v :: rest')
            else match skipValue (v :: rest') with None => None | Some l'' => find_key fuel' key l'' end
          end
        end
      end
    end
  end.

Definition findKey (key : text) (l : text) : option text :=
  let l1 := match skipWs l with c :: l' => if Ascii.eqb c "{" then l' else l | [] => l end in
  find_key (S (length l1)) key l1.

(** The content of the object a key names. *)
Definition findObject (key : text) (l : text) : option text :=
  match findKey key l with
  | None => None
  | Some [] => None
  | Some (c :: l') =>
    if negb (Ascii.eqb c "{") then None
    else
      let n := (length l' - length (skipContainer (c :: l')))%nat in
      if (n =? 0)%nat then None else Some (take (n - 1) l')
  end.

Definition unescaped (e : ascii) : text :=
  if Ascii.eqb e QUOTE then [QUOTE]
  else if Ascii.eqb e BACKSLASH then [BACKSLASH]
  else if Ascii.eqb e "/" then ["/"%char]
  else if Ascii.eqb e "n" then [LF]
  else if Ascii.eqb e "r" then [CR]
  else if Ascii.eqb e "t" then [TAB]
  else if Ascii.eqb e "b" then [Ascii.ascii_of_nat 8]
  else if Ascii.eqb e "f" then [Ascii.ascii_of_nat 12]
  else [BACKSLASH; e].

Fixpoint unescape (l : text) : text :=
  match l with
  | [] => []
  | c :: l' =>
    if Ascii.eqb c BACKSLASH then match l' with [] => [c] | e :: l'' => unescaped e ++ unescape l'' end
    else c :: unescape l'
  end.

Definition extractString (key : text) (l : text) : option text :=
  match findKey key l with
  | None => None
  | Some [] => None
  | Some (c :: l') =>
    if negb (Ascii.eqb c QUOTE) then None
    else match skipJsonString (c :: l') with
    | None => None
    | Some after => Some (unescape (take (length l' - length after - 1) l'))
    end
  end.

Definition terminated (l : text) : bool :=
  match skipWs l with
  | [] => true
  | c :: _ => Ascii.eqb c "," || Ascii.eqb c "}" || Ascii.eqb c "]"
  end.

Definition extractBool (key : text) (l : text) : option bool :=
  match findKey key l with
  | None => None
  | Some p =>
    if bool_decide (take 4 p = str "true") && terminated (drop 4 p) then Some true
    else if bool_decide (take 5 p = str "false") && terminated (drop 5 p) then Some false
    else None
  end.

(** ** The inspect reply *)

(** The loop of [isCompleteInspectObject]. *)
Fixpoint complete_object (fuel : nat) (closes : list ascii) (l : text) : bool :=
  match fuel, l with
  | O, _ | _, [] => false
  | S fuel', c :: l' =>
    if Ascii.eqb c QUOTE then
      match skipJsonString l with None => false | Some after => complete_object fuel' closes after end
    else if Ascii.eqb c "{" then complete_object fuel' ("}"%char :: closes) l'
    else if Ascii.eqb c "[" then complete_object fuel' ("]"%char :: closes) l'
    else if Ascii.eqb c "}" || Ascii.eqb c "]" then
      match closes with
      | [] => false
      | close :: closes' =>
        if negb (Ascii.eqb close c) then false
        else match closes' with
        | [] => bool_decide (skipWs l' = [])
        | _ => complete_object fuel' closes' l'
        end
      end
    else complete_object fuel' closes l'
  end.

Definition isCompleteInspectObject (body : text) : bool :=
  match skipWs body with
  | c :: _ => if negb (Ascii.eqb c "{") then false else complete_object (length (skipWs body)) [] (skipWs body)
  | [] => false
  end.

Inductive HttpOutcome := HttpOk (status : Z) (body : text) | HttpConnectFailed | HttpIoOrParseError.

(** An optional flag: absent is false, present it must be a boolean. *)
Definition optional_bool (key : string) (state : text) : option bool :=
  match findKey (str key) state with
  | None => Some false
  | Some _ => extractBool (str key) state
  end.

Definition known_status (s : text) : bool :=
  bool_decide (s ∈ [str "created"; str "running"; str "paused"; str "restarting"; str "removing"; str "exited"; str "dead"]).

Definition known_health (s : text) : bool := bool_decide (s ∈ [str "healthy"; str "unhealthy"; str "starting"]).

Definition read_status (state : text) : option text :=
  match findKey (str "Status") state with
  | None => Some []
  | Some _ => match extractString (str "Status") state with
              | Some s => if known_status s then Some s else None
              | None => None
              end
  end.

Definition read_health (state : text) : option text :=
  match findKey (str "Health") state with
  | None => Some []
  | Some _ =>
    match findObject (str "Health") state with
    | None => None
    | Some health => match extractString (str "Status") health with
                     | Some s => if known_health s then Some s else None
                     | None => None
                     end
    end
  end.

Definition read_image (body : text) : text :=
  match findObject (str "Config") body with
  | None => []
  | Some config => default [] (extractString (str "Image") config)
  end.

Definition no_health : ContainerHealth := {|
  ch_running := false; ch_paused := false; ch_restarting := false; ch_dead := false; ch_status := []; ch_health := [] |}.

Definition read_state (body : text) : option ContainerHealth :=
  match findObject (str "State") body with
  | None => None
  | Some state =>
    match extractBool (str "Running") state, optional_bool "Paused" state, optional_bool "Restarting" state, optional_bool "Dead" state,
          read_status state, read_health state with
    | Some running, Some paused, Some restarting, Some dead, Some status, Some health =>
      Some {| ch_running := running; ch_paused := paused; ch_restarting := restarting; ch_dead := dead;
              ch_status := status; ch_health := health |}
    | _, _, _, _, _, _ => None
    end
  end.

Definition inspectContainer (name : text) (reply : HttpOutcome) : ContainerSnapshot :=
  if negb (isSafeName name) then (DockerCommandError, no_health)
  else match reply with
  | HttpConnectFailed => (DockerSocketUnreachable, no_health)
  | HttpIoOrParseError => (DockerCommandError, no_health)
  | HttpOk status body =>
    if status =? 404 then (DockerNotFound, no_health)
    else if negb (status =? 200) then (DockerCommandError, no_health)
    else if negb (isCompleteInspectObject body) then (DockerCommandError, no_health)
    else match read_state body with
    | None => (DockerCommandError, no_health)
    | Some h => if bool_decide (read_image body = []) then (DockerCommandError, no_health) else (DockerOk, h)
    end
  end.
