(* ===== verification/PcmJsonSafety.v ===== *)
(** * The extractors read what a parser would

    A reply of the Docker Engine API is the text of a JSON object.  [json] is the
    tree of such a text and [print] writes it; the extractors of [PcmJson.v],
    which walk the text, agree with reading the tree, whatever the other members
    hold; and a reply cut short is never taken for a complete one. *)

From Stdlib Require Import Ascii String.
From S2P Require Import Prelude Protocol Text Pcm PcmHealth PcmJson.

Local Open Scope Z_scope.
Local Open Scope list_scope.
#[local] Set Warnings "-register-all".

(** ** Trees *)

Inductive json :=
| JNull
| JBool (b : bool)
| JNum (w : text)
| JStr (s : text)
| JArr (l : list json)
| JObj (m : list (text * json)).

Fixpoint escape (s : text) : text :=
  match s with
  | [] => []
  | c :: s' => if Ascii.eqb c QUOTE || Ascii.eqb c BACKSLASH then BACKSLASH :: c :: escape s' else c :: escape s'
  end.

Definition print_string (s : text) : text := QUOTE :: escape s ++ [QUOTE].

Fixpoint commas (l : list text) : text :=
  match l with
  | [] => []
  | [x] => x
  | x :: l' => x ++ [","%char] ++ commas l'
  end.

Fixpoint print (j : json) : text :=
  match j with
  | JNull => str "null"
  | JBool true => str "true"
  | JBool false => str "false"
  | JNum w => w
  | JStr s => print_string s
  | JArr l => "["%char :: commas (map print l) ++ ["]"%char]
  | JObj m => "{"%char :: commas (map (fun kv => print_string kv.1 ++ [":"%char] ++ print kv.2) m) ++ ["}"%char]
  end.

Definition print_member (kv : text * json) : text := print_string kv.1 ++ [":"%char] ++ print kv.2.

Definition members (m : list (text * json)) : text := commas (map print_member m).

(** The characters of a number. *)
Definition number_char (c : ascii) : bool := char_between "0" "9" c || bool_decide (c ∈ ["-"; "+"; "."; "e"; "E"]%char).

Fixpoint well_formed (j : json) : Prop :=
  match j with
  | JNum w => w <> [] /\ forallb number_char w = true
  | JArr l => (fix all (l : list json) : Prop := match l with [] => True | x :: l' => well_formed x /\ all l' end) l
  | JObj m => (fix all (m : list (text * json)) : Prop := match m with [] => True | kv :: m' => well_formed kv.2 /\ all m' end) m
  | _ => True
  end.

Definition all_formed (m : list (text * json)) : Prop := Forall (fun kv => well_formed kv.2) m.

Lemma formed_arr l : well_formed (JArr l) <-> Forall well_formed l.
Proof.
  induction l as [|x l IH]; [split; [constructor|done]|]. rewrite Forall_cons, <- IH. done.
Qed.

Lemma formed_obj m : well_formed (JObj m) <-> all_formed m.
Proof.
  induction m as [|x m IH]; [split; [constructor|done]|]. unfold all_formed in *. rewrite Forall_cons, <- IH. done.
Qed.

(** Induction through the lists of a tree. *)
Section induction.
Context (P : json -> Prop).
Context (Hnull : P JNull) (Hbool : forall b, P (JBool b)) (Hnum : forall w, P (JNum w)) (Hstr : forall s, P (JStr s)).
Context (Harr : forall l, Forall P l -> P (JArr l)) (Hobj : forall m, Forall (fun kv => P kv.2) m -> P (JObj m)).

Fixpoint json_rec' (j : json) : P j :=
  match j with
  | JNull => Hnull
  | JBool b => Hbool b
  | JNum w => Hnum w
  | JStr s => Hstr s
  | JArr l => Harr l ((fix all (l : list json) : Forall P l :=
      match l with [] => Forall_nil_2 P | x :: l' => Forall_cons_2 P x l' (json_rec' x) (all l') end) l)
  | JObj m => Hobj m ((fix all (m : list (text * json)) : Forall (fun kv => P kv.2) m :=
      match m with
      | [] => Forall_nil_2 _
      | kv :: m' => Forall_cons_2 (fun kv => P kv.2) kv m' (json_rec' kv.2) (all m')
      end) m)
  end.
End induction.

(** ** Strings *)

Lemma skip_string_escaped s rest : skip_string (escape s ++ QUOTE :: rest) = Some rest.
Proof.
  induction s as [|c s IH]; [done|]. cbn. destruct (Ascii.eqb c QUOTE || Ascii.eqb c BACKSLASH) eqn:E; cbn; [done|].
  rewrite orb_false_iff in E. destruct E as [E1 E2]. by rewrite E2, E1.
Qed.

Lemma skipJsonString_printed s rest : skipJsonString (print_string s ++ rest) = Some rest.
Proof. unfold print_string. cbn. rewrite <- app_assoc. apply skip_string_escaped. Qed.

Lemma name_printed s rest : take (length (escape s ++ QUOTE :: rest) - length rest - 1) (escape s ++ QUOTE :: rest) = escape s.
Proof. rewrite length_app. cbn. apply take_app_length'. lia. Qed.

Lemma unescape_escaped s : unescape (escape s) = s.
Proof.
  induction s as [|c s IH]; [done|]. cbn. destruct (Ascii.eqb_spec c QUOTE) as [->|H1]; [cbn; by rewrite IH|].
  destruct (Ascii.eqb_spec c BACKSLASH) as [->|H2]; [cbn; by rewrite IH|]. cbn.
  destruct (Ascii.eqb_spec c BACKSLASH); [done|]. by rewrite IH.
Qed.

Definition plain_key (key : text) : Prop := forallb (fun c => negb (Ascii.eqb c BACKSLASH)) key = true.

Lemma escape_plain k key : plain_key key -> escape k = key <-> k = key /\ escape k = k.
Proof.
  intros Hk. split; [|intros [-> ?]; done]. revert key Hk. induction k as [|c k IH]; intros key Hk E; cbn in *; [by subst|].
  destruct (Ascii.eqb c QUOTE || Ascii.eqb c BACKSLASH); subst key; cbn in Hk; [done|]. apply andb_prop in Hk as [_ Hk].
  destruct (IH (escape k) Hk eq_refl) as [E1 E2]. by rewrite <- E1.
Qed.

(** ** Skipping *)

Definition skip_all (op close : ascii) (depth : nat) (l : text) : text := skip_container (length l) op close depth l.

Lemma skip_string_shorter l after : skip_string l = Some after -> (length after < length l)%nat.
Proof.
  revert after. induction l as [l IH] using (induction_ltof1 _ (@length ascii)); unfold ltof in IH. intros after.
  destruct l as [|c l]; cbn; [done|]. destruct (Ascii.eqb c BACKSLASH); [destruct l as [|d l]; [done|]|destruct (Ascii.eqb c QUOTE)]; intros E.
  - apply IH in E; cbn in *; lia.
  - simplify_eq. lia.
  - apply IH in E; cbn in *; lia.
Qed.

Lemma skipJsonString_shorter l after : skipJsonString l = Some after -> (length after + 2 <= length l)%nat.
Proof. destruct l as [|c l]; cbn; [done|]. destruct (negb _); [done|]. intros E%skip_string_shorter. lia. Qed.

Lemma skip_container_fuel op close l : forall fuel depth, (length l <= fuel)%nat -> skip_container fuel op close depth l = skip_all op close depth l.
Proof.
  unfold skip_all. induction l as [l IH] using (induction_ltof1 _ (@length ascii)); unfold ltof in IH. intros fuel depth Hf.
  destruct l as [|c l]; [by destruct fuel, depth|]. destruct fuel as [|fuel]; [cbn in Hf; lia|]. cbn in Hf. cbn [length].
  destruct depth as [|depth]; [done|]. cbn [skip_container]. destruct (Ascii.eqb c QUOTE).
  - destruct (skipJsonString (c :: l)) as [after|] eqn:E; [|done]. apply skipJsonString_shorter in E. cbn in E.
    transitivity (skip_container (length after) op close (S depth) after); [|symmetry]; apply IH; cbn; lia.
  - repeat case_match; apply IH; cbn; lia.
Qed.

Lemma skip_all_string op close depth s rest : skip_all op close (S depth) (print_string s ++ rest) = skip_all op close (S depth) rest.
Proof.
  unfold skip_all at 1. pose proof (skipJsonString_printed s rest) as H. unfold print_string in *. cbn [app length] in *.
  cbn [skip_container]. rewrite Ascii.eqb_refl, H. apply skip_container_fuel. rewrite !length_app. cbn. lia.
Qed.

Lemma skip_all_char op close depth c rest : Ascii.eqb c QUOTE = false -> skip_all op close (S depth) (c :: rest) =
  if Ascii.eqb c op then skip_all op close (S (S depth)) rest
  else if Ascii.eqb c close then skip_all op close depth rest else skip_all op close (S depth) rest.
Proof. intros H. unfold skip_all. cbn. by rewrite H. Qed.

(** The two kinds of brackets. *)
Definition brackets (op close : ascii) : Prop := (op = "{" /\ close = "}")%char \/ (op = "[" /\ close = "]")%char.

(** Characters that are neither a quote nor a bracket. *)
Definition neutral (c : ascii) : bool :=
  negb (Ascii.eqb c QUOTE || Ascii.eqb c "{" || Ascii.eqb c "}" || Ascii.eqb c "[" || Ascii.eqb c "]").

Lemma skip_all_neutral op close depth w rest : brackets op close -> forallb neutral w = true ->
  skip_all op close (S depth) (w ++ rest) = skip_all op close (S depth) rest.
Proof.
  intros Hb. induction w as [|c w IH]; [done|]. cbn [forallb app]. intros [Hc Hw]%andb_prop. unfold neutral in Hc.
  rewrite negb_true_iff, !orb_false_iff in Hc. destruct Hc as ((((Hq & H1) & H2) & H3) & H4). rewrite skip_all_char by done.
  destruct Hb as [[-> ->]|[-> ->]]; rewrite ?H1, ?H2, ?H3, ?H4; auto.
Qed.

Lemma number_chars : forall c, number_char c = true -> neutral c = true /\ isWs c = false /\ Ascii.eqb c "," = false /\ c <> "t"%char /\ c <> "f"%char.
Proof. intros [[] [] [] [] [] [] [] []]; vm_compute; intros; try discriminate; repeat split; discriminate || reflexivity. Qed.

(** A text that leaves the depth of a container as it is. *)
Definition passes (op close : ascii) (t : text) : Prop :=
  forall depth rest, skip_all op close (S depth) (t ++ rest) = skip_all op close (S depth) rest.

Lemma passes_app op close a b : passes op close a -> passes op close b -> passes op close (a ++ b).
Proof. intros Ha Hb depth rest. by rewrite <- app_assoc, Ha, Hb. Qed.

Lemma passes_neutral op close w : brackets op close -> forallb neutral w = true -> passes op close w.
Proof. intros Hb Hw depth rest. by apply skip_all_neutral. Qed.

Lemma passes_commas op close l : brackets op close -> Forall (passes op close) l -> passes op close (commas l).
Proof.
  intros Hb. induction 1 as [|x l Hx Hl IH]; [by apply passes_neutral|]. destruct l as [|y l]; [done|].
  apply passes_app; [done|]. apply passes_app; [by apply passes_neutral|done].
Qed.

Lemma passes_container op close o c t : brackets op close -> brackets o c -> passes op close t -> passes op close (o :: t ++ [c]).
Proof.
  intros Hb Ho Ht depth rest. cbn [app]. rewrite <- app_assoc. cbn [app].
  destruct Hb as [[-> ->]|[-> ->]], Ho as [[-> ->]|[-> ->]]; rewrite skip_all_char by done; cbn; rewrite Ht, skip_all_char by done; done.
Qed.

Lemma passes_member op close kv : brackets op close -> passes op close (print kv.2) -> passes op close (print_member kv).
Proof.
  intros Hb Hv. apply passes_app; [intros depth rest; apply skip_all_string|]. apply passes_app; [by apply passes_neutral|done].
Qed.

Lemma passes_printed op close j : brackets op close -> well_formed j -> passes op close (print j).
Proof.
  intros Hb. induction j as [|b|w|s|l IH|m IH] using json_rec'; intros Hw.
  - by apply passes_neutral.
  - destruct b; by apply passes_neutral.
  - apply passes_neutral; [done|]. destruct Hw as [_ Hw]. rewrite forallb_forall in *. intros c Hc. by apply number_chars, Hw.
  - intros depth rest. apply skip_all_string.
  - apply formed_arr in Hw. apply passes_container; [done|by right|]. apply passes_commas; [done|]. rewrite Forall_map.
    eapply Forall_impl; [eapply Forall_and; split; [exact IH|exact Hw]|]. intros x [H1 H2]. by apply H1.
  - apply formed_obj in Hw. apply passes_container; [done|by left|]. apply passes_commas; [done|]. rewrite Forall_map.
    eapply Forall_impl; [eapply Forall_and; split; [exact IH|exact Hw]|]. intros x [H1 H2]. cbn. apply passes_member; auto.
Qed.

Lemma passes_members op close m : brackets op close -> all_formed m -> passes op close (members m).
Proof.
  intros Hb Hw. apply passes_commas; [done|]. rewrite Forall_map. eapply Forall_impl; [exact Hw|]. intros kv Hkv. cbn.
  apply passes_member; [done|]. by apply passes_printed.
Qed.

Lemma skipContainer_closed o c t rest : brackets o c -> passes o c t -> skipContainer (o :: t ++ c :: rest) = rest.
Proof.
  intros Ho Ht. unfold skipContainer. destruct Ho as [[-> ->]|[-> ->]]; cbn [Ascii.eqb Bool.eqb];
    change (skip_container (length ?l) ?op ?cl 1 ?l) with (skip_all op cl 1 l); rewrite Ht, skip_all_char by done; cbn; unfold skip_all; by destruct rest.
Qed.

(** What may follow a value. *)
Definition delimited (rest : text) : Prop :=
  match rest with [] => True | c :: _ => (Ascii.eqb c "," || Ascii.eqb c "}" || Ascii.eqb c "]")%bool = true end.

(** The characters of a word. *)
Definition word_char (c : ascii) : bool := neutral c && negb (Ascii.eqb c ",") && negb (isWs c).

Lemma word_char_no c : word_char c = true -> Ascii.eqb c QUOTE = false /\ Ascii.eqb c "{" = false /\ Ascii.eqb c "}" = false /\
  Ascii.eqb c "[" = false /\ Ascii.eqb c "]" = false /\ Ascii.eqb c "," = false /\ isWs c = false.
Proof. unfold word_char, neutral. rewrite !andb_true_iff, !negb_true_iff, !orb_false_iff. tauto. Qed.

Lemma skip_scalar_word w rest : forallb word_char w = true -> delimited rest ->
  skip_scalar (w ++ rest) = rest.
Proof.
  intros Hw Hd. induction w as [|c w IH]; cbn in *.
  - destruct rest as [|c rest]; [done|]. cbn in *. by rewrite Hd.
  - apply andb_prop in Hw as [(_ & _ & -> & _ & -> & -> & ->)%word_char_no Hw]. cbn. auto.
Qed.

(** The first character of a value: no blank, and a quote or a bracket exactly for
    a string or a container. *)
Definition word (j : json) : option text :=
  match j with JNull => Some (str "null") | JBool true => Some (str "true") | JBool false => Some (str "false") | JNum w => Some w | _ => None end.

Lemma word_plain j w : well_formed j -> word j = Some w -> print j = w /\ w <> [] /\
  forallb word_char w = true.
Proof.
  destruct j as [|[]|w'| | |]; cbn; intros Hw H; simplify_eq; try done. destruct Hw as [Hne Hw]. split_and!; [done..|].
  rewrite forallb_forall in *. intros c Hc. unfold word_char. destruct (number_chars c (Hw c Hc)) as (-> & -> & -> & _). done.
Qed.

Lemma skipWs_start l c l' : l = c :: l' -> isWs c = false -> skipWs l = l.
Proof. intros -> H. cbn. by rewrite H. Qed.

Lemma value_start j : well_formed j -> exists c l, print j = c :: l /\ isWs c = false /\
  (Ascii.eqb c QUOTE = true <-> exists s, j = JStr s) /\ (Ascii.eqb c "{" = true <-> exists m, j = JObj m).
Proof.
  intros Hw. destruct (word j) as [w|] eqn:E.
  - destruct (word_plain j w Hw E) as (-> & Hne & Hf). destruct w as [|c w]; [done|]. exists c, w. split; [done|]. cbn in Hf.
    apply andb_prop in Hf as [(-> & -> & _ & _ & _ & _ & Hws)%word_char_no _]. split; [done|]. destruct j; try done; (split; split; [done|intros [? ?]; done|done|intros [? ?]; done]).
  - destruct j as [|[]| |s|l|m]; try done; (eexists _, _; split; [reflexivity|]; split; [done|]; cbn; split; split; try done; eauto; intros [? ?]; done).
Qed.

Lemma skipValue_printed j rest : well_formed j -> delimited rest -> skipValue (print j ++ rest) = Some rest.
Proof.
  intros Hw Hd. destruct (value_start j Hw) as (c & l & E & Hws & Hq & Ho). unfold skipValue.
  rewrite (skipWs_start _ c (l ++ rest)) by (by rewrite ?E). rewrite E. cbn [app].
  change (c :: l ++ rest) with ((c :: l) ++ rest). rewrite <- E. clear Hws. destruct j as [|b|w|s|l0|m0].
  4: { assert (Ascii.eqb c QUOTE = true) as -> by (apply Hq; eauto). apply skipJsonString_printed. }
  4, 5: cbn in E; simplify_eq; cbn [Ascii.eqb Bool.eqb orb]; f_equal; cbn [print app]; rewrite <- app_assoc; cbn [app].
  4: { apply (skipContainer_closed "[" "]"); [by right|]. apply passes_commas; [by right|]. rewrite Forall_map. apply formed_arr in Hw.
       eapply Forall_impl; [exact Hw|]. intros x Hx. apply passes_printed; [by right|done]. }
  4: { apply (skipContainer_closed "{" "}"); [by left|]. apply formed_obj in Hw. apply (passes_members _ _ m0); [by left|done]. }
  all: match goal with |- context [print ?j] => destruct (word j) as [w0|] eqn:Ew; [|cbn in Ew; repeat case_match; done] end.
  all: destruct (word_plain _ _ Hw Ew) as (Ep & Hne & Hf); rewrite Ep in *; subst w0; pose proof Hf as Hf'; cbn in Hf';
    apply andb_prop in Hf' as [(-> & -> & _ & -> & _)%word_char_no _]; cbn [orb]; f_equal; by apply skip_scalar_word.
Qed.

(** ** Members *)

(** The first member of an object with this key. *)
Fixpoint member (key : text) (m : list (text * json)) : option json :=
  match m with
  | [] => None
  | (k, v) :: m' => if bool_decide (k = key /\ escape k = k) then Some v else member key m'
  end.

Lemma find_key_step key fuel k v tail : plain_key key -> well_formed v -> delimited tail ->
  find_key (S fuel) key (print_member (k, v) ++ tail) =
  if bool_decide (k = key /\ escape k = k) then Some (print v ++ tail) else find_key fuel key tail.
Proof.
  intros Hk Hv Hd. destruct (value_start v Hv) as (c & l & E & Hws & _).
  assert (Et : print_member (k, v) ++ tail = QUOTE :: (escape k ++ QUOTE :: ":"%char :: print v ++ tail)).
  { unfold print_member, print_string. cbn. by rewrite <- !app_assoc. }
  rewrite Et. cbn [find_key skipWs isWs]. change (isWs QUOTE) with false. cbn [Ascii.eqb Bool.eqb negb].
  change (Ascii.eqb QUOTE ",") with false. change (Ascii.eqb QUOTE "}") with false. change (Ascii.eqb QUOTE QUOTE) with true. cbn [negb].
  unfold skipJsonString. change (Ascii.eqb QUOTE QUOTE) with true. cbn [negb]. rewrite skip_string_escaped, name_printed.
  cbn [skipWs]. change (isWs ":"%char) with false. cbn [Ascii.eqb Bool.eqb negb].
  rewrite (skipWs_start (print v ++ tail) c (l ++ tail)) by (by rewrite ?E). rewrite E. cbn [app].
  rewrite (bool_decide_ext (escape k = key) (k = key /\ escape k = k)) by by apply escape_plain.
  case_bool_decide; [done|]. change (c :: l ++ tail) with ((c :: l) ++ tail). rewrite <- E. by rewrite skipValue_printed.
Qed.

(** What may follow the members of an object. *)
Definition closed (rest : text) : Prop := rest = [] \/ exists r, rest = "}"%char :: r.

Lemma find_key_closed key fuel rest : closed rest -> find_key fuel key rest = None.
Proof. destruct fuel; [done|]. intros [->|[r ->]]; done. Qed.

Lemma closed_delimited rest : closed rest -> delimited rest.
Proof. by intros [->|[r ->]]. Qed.

Lemma find_key_members key m : plain_key key -> all_formed m -> forall fuel rest, closed rest -> (2 * length m <= fuel)%nat ->
  match member key m with
  | Some v => exists tail, delimited tail /\ find_key fuel key (members m ++ rest) = Some (print v ++ tail)
  | None => find_key fuel key (members m ++ rest) = None
  end.
Proof.
  intros Hk. induction 1 as [|[k v] m Hv Hm IH]; intros fuel rest Hc Hf; [by apply find_key_closed|].
  destruct fuel as [|[|fuel]]; [cbn in Hf; lia..|]. cbn in Hf. cbn [member].
  assert (members ((k, v) :: m) ++ rest = print_member (k, v) ++ (if bool_decide (length m = 0%nat) then rest else ","%char :: members m ++ rest)) as ->.
  { unfold members. destruct m as [|kv m]; cbn [map commas length]; [by rewrite bool_decide_true|]. rewrite bool_decide_false by done.
    by rewrite <- !app_assoc. }
  rewrite find_key_step; [|done|done|case_bool_decide; [by apply closed_delimited|done]].
  case_bool_decide as Hkey; [eexists; split; [|done]; case_bool_decide; [by apply closed_delimited|done]|].
  case_bool_decide as Hl; [apply nil_length_inv in Hl as ->; by apply find_key_closed|].
  change (find_key (S fuel) key (","%char :: members m ++ rest)) with (find_key fuel key (members m ++ rest)).
  apply IH; [done|lia].
Qed.

Lemma members_length m : (2 * length m <= length (members m))%nat.
Proof.
  assert (Hm : forall kv, (2 <= length (print_member kv))%nat).
  { intros kv. unfold print_member, print_string. rewrite length_app. cbn. rewrite length_app. cbn. lia. }
  unfold members. induction m as [|kv m IH]; cbn; [lia|]. pose proof (Hm kv). destruct m as [|kv' m]; cbn in *; [lia|].
  rewrite !length_app in *. cbn in *. lia.
Qed.

Lemma members_start m : match members m with [] => True | c :: _ => c = QUOTE end.
Proof. unfold members, print_member, print_string. destruct m as [|kv [|kv' m]]; cbn; done. Qed.

(** The slice of an object: with its braces, or the content alone. *)
Definition slice (l : text) (m : list (text * json)) : Prop := l = members m \/ exists rest, l = "{"%char :: members m ++ "}"%char :: rest.

Lemma findKey_member key l m : plain_key key -> all_formed m -> slice l m ->
  match member key m with
  | Some v => exists tail, delimited tail /\ findKey key l = Some (print v ++ tail)
  | None => findKey key l = None
  end.
Proof.
  intros Hk Hm Hs. pose proof (members_length m). unfold findKey. destruct Hs as [->|[rest ->]].
  - assert ((match skipWs (members m) with c :: l' => if Ascii.eqb c "{" then l' else members m | [] => members m end) = members m) as ->.
    { pose proof (members_start m) as Hst. destruct (members m) as [|c l]; [done|]. by subst c. }
    pose proof (find_key_members key m Hk Hm (S (length (members m))) [] ltac:(by left) ltac:(lia)) as H'. by rewrite app_nil_r in H'.
  - cbn [skipWs]. change (isWs "{"%char) with false. cbn [Ascii.eqb Bool.eqb]. apply find_key_members; [done|done| |].
    + right. by eexists.
    + rewrite length_app. lia.
Qed.

(** ** Reading a tree *)

Definition bool_of (key : text) (m : list (text * json)) : option bool := match member key m with Some (JBool b) => Some b | _ => None end.
Definition string_of (key : text) (m : list (text * json)) : option text := match member key m with Some (JStr s) => Some s | _ => None end.
Definition object_of (key : text) (m : list (text * json)) : option (list (text * json)) :=
  match member key m with Some (JObj m') => Some m' | _ => None end.

Lemma member_formed key m v : all_formed m -> member key m = Some v -> well_formed v.
Proof. induction 1 as [|[k w] m Hw Hm IH]; cbn; [done|]. case_bool_decide; [intros [= <-]; done|done]. Qed.

Lemma terminated_delimited tail : delimited tail -> terminated tail = true.
Proof.
  unfold terminated. destruct tail as [|c tail]; [done|]. cbn. intros Hd.
  assert (isWs c = false) as ->; [|done].
  rewrite !orb_true_iff, !Ascii.eqb_eq in Hd. by destruct Hd as [[-> | ->]| ->].
Qed.

(** The first character of a value that is no boolean. *)
Lemma no_bool_start v : well_formed v -> (forall b, v <> JBool b) -> exists c l, print v = c :: l /\ c <> "t"%char /\ c <> "f"%char.
Proof.
  destruct v as [|b|w|s|l|m]; intros Hw Hb; [| by destruct (Hb b)| |cbn; eauto..]; [cbn; eauto|].
  destruct Hw as [Hne Hw]. destruct w as [|c w]; [done|]. cbn in Hw. apply andb_prop in Hw as [(_ & _ & _ & ? & ?)%number_chars _]. cbn. eauto.
Qed.

Lemma extractBool_member key l m : plain_key key -> all_formed m -> slice l m -> extractBool key l = bool_of key m.
Proof.
  intros Hk Hm Hs. pose proof (findKey_member key l m Hk Hm Hs) as Hf. unfold extractBool, bool_of.
  destruct (member key m) as [v|] eqn:E; [|by rewrite Hf]. destruct Hf as (tail & Hd & ->). apply member_formed in E as Hv; [|done].
  destruct v as [|b|w|s|a|o].
  2: { pose proof (terminated_delimited tail Hd) as Ht. destruct b.
       - change (take 4 (print (JBool true) ++ tail)) with (str "true"). change (drop 4 (print (JBool true) ++ tail)) with tail.
         by rewrite bool_decide_true, Ht.
       - change (take 4 (print (JBool false) ++ tail)) with (str "fals"). rewrite bool_decide_false by done. cbn [andb].
         change (take 5 (print (JBool false) ++ tail)) with (str "false"). change (drop 5 (print (JBool false) ++ tail)) with tail.
         by rewrite bool_decide_true, Ht. }
  all: match type of Hv with well_formed ?v => destruct (no_bool_start v Hv) as (c & t & -> & Ht & Hff); [done|] end; cbn;
    rewrite !bool_decide_false by congruence; done.
Qed.

Lemma extractString_member key l m : plain_key key -> all_formed m -> slice l m -> extractString key l = string_of key m.
Proof.
  intros Hk Hm Hs. pose proof (findKey_member key l m Hk Hm Hs) as Hf. unfold extractString, string_of.
  destruct (member key m) as [v|] eqn:E; [|by rewrite Hf]. destruct Hf as (tail & Hd & ->). apply member_formed in E as Hv; [|done].
  destruct (value_start v Hv) as (c & t & Ev & _ & Hq & _). rewrite Ev. cbn [app]. destruct (Ascii.eqb c QUOTE) eqn:Ec; cbn [negb].
  - destruct Hq as [[s ->] _]; [done|]. cbn in Ev. injection Ev as <- <-. rewrite <- app_assoc. cbn [app].
    unfold skipJsonString. cbn [negb Ascii.eqb]. change (Ascii.eqb QUOTE QUOTE) with true. cbn [negb].
    by rewrite skip_string_escaped, name_printed, unescape_escaped.
  - destruct v as [|b|w|s|a|o]; try done. destruct Hq as [_ Hq]. discriminate Hq; eauto.
Qed.

Lemma findObject_member key l m : plain_key key -> all_formed m -> slice l m -> findObject key l = members <$> object_of key m.
Proof.
  intros Hk Hm Hs. pose proof (findKey_member key l m Hk Hm Hs) as Hf. unfold findObject, object_of.
  destruct (member key m) as [v|] eqn:E; [|by rewrite Hf]. destruct Hf as (tail & Hd & ->). apply member_formed in E as Hv; [|done].
  destruct (value_start v Hv) as (c & t & Ev & _ & _ & Ho). rewrite Ev. cbn [app]. destruct (Ascii.eqb c "{") eqn:Ec; cbn [negb].
  - destruct Ho as [[o ->] _]; [done|]. cbn in Ev. injection Ev as <- <-. change (map _ o) with (map print_member o). fold (members o).
    rewrite <- app_assoc. cbn [app]. apply formed_obj in Hv.
    rewrite (skipContainer_closed "{" "}") by (first [by left|apply passes_members; [by left|done]]). rewrite length_app. cbn [length].
    destruct (Nat.eqb_spec (length (members o) + S (length tail) - length tail) 0); [lia|]. cbn. f_equal. apply take_app_length'. lia.
  - destruct v as [|b|w|s|a|o]; try done. destruct Ho as [_ Ho]. discriminate Ho; eauto.
Qed.

(** The state a tree describes. *)
Definition tree_flag (key : text) (state : list (text * json)) : option bool :=
  match member key state with None => Some false | Some _ => bool_of key state end.

Definition tree_status (state : list (text * json)) : option text :=
  match member (str "Status") state with
  | None => Some []
  | Some _ => match string_of (str "Status") state with Some s => if known_status s then Some s else None | None => None end
  end.

Definition tree_health (state : list (text * json)) : option text :=
  match member (str "Health") state with
  | None => Some []
  | Some _ =>
    match object_of (str "Health") state with
    | None => None
    | Some health => match string_of (str "Status") health with Some s => if known_health s then Some s else None | None => None end
    end
  end.

Definition tree_state (m : list (text * json)) : option ContainerHealth :=
  match object_of (str "State") m with
  | None => None
  | Some state =>
    match bool_of (str "Running") state, tree_flag (str "Paused") state, tree_flag (str "Restarting") state, tree_flag (str "Dead") state,
          tree_status state, tree_health state with
    | Some running, Some paused, Some restarting, Some dead, Some status, Some health =>
      Some {| ch_running := running; ch_paused := paused; ch_restarting := restarting; ch_dead := dead;
              ch_status := status; ch_health := health |}
    | _, _, _, _, _, _ => None
    end
  end.

Definition tree_image (m : list (text * json)) : text :=
  match object_of (str "Config") m with None => [] | Some config => default [] (string_of (str "Image") config) end.

Lemma object_formed key m o : all_formed m -> object_of key m = Some o -> all_formed o.
Proof.
  intros Hm. unfold object_of. destruct (member key m) as [[| | | | |o']|] eqn:E; try done. intros; simplify_eq.
  apply formed_obj. by eapply member_formed.
Qed.

Lemma findKey_absent key l m : plain_key key -> all_formed m -> slice l m -> (findKey key l = None <-> member key m = None).
Proof.
  intros Hk Hm Hs. pose proof (findKey_member key l m Hk Hm Hs) as Hf. destruct (member key m); [|by rewrite Hf].
  destruct Hf as (tail & _ & ->). done.
Qed.

Lemma present_case {A} key l m (a b : A) : plain_key key -> all_formed m -> slice l m ->
  match findKey key l with None => a | Some _ => b end = match member key m with None => a | Some _ => b end.
Proof. intros Hk Hm Hs. pose proof (findKey_absent key l m Hk Hm Hs). destruct (findKey key l), (member key m); intuition congruence. Qed.

Lemma read_state_printed m : all_formed m -> read_state (print (JObj m)) = tree_state m.
Proof.
  intros Hm. assert (Hs : slice (print (JObj m)) m) by (right; by exists []). unfold read_state, tree_state.
  rewrite (findObject_member _ _ m) by done. destruct (object_of (str "State") m) as [st|] eqn:E; [|done]. cbn [fmap option_fmap option_map].
  apply object_formed in E; [|done]. assert (Hst : slice (members st) st) by by left.
  unfold optional_bool, read_status, read_health, tree_flag, tree_status, tree_health.
  rewrite !(present_case _ _ st), !(extractBool_member _ _ st), (extractString_member _ _ st), (findObject_member _ _ st) by done.
  destruct (object_of (str "Health") st) as [h|] eqn:Eh; [|done]. cbn [fmap option_fmap option_map].
  rewrite (extractString_member _ _ h); [done..| |by left]. by eapply object_formed.
Qed.

Lemma read_image_printed m : all_formed m -> read_image (print (JObj m)) = tree_image m.
Proof.
  intros Hm. assert (Hs : slice (print (JObj m)) m) by (right; by exists []). unfold read_image, tree_image.
  rewrite (findObject_member _ _ m) by done. destruct (object_of (str "Config") m) as [c|] eqn:E; [|done]. cbn [fmap option_fmap option_map].
  rewrite (extractString_member _ _ c); [done..| |by left]. by eapply object_formed.
Qed.

(** ** Complete replies *)

Definition complete_all (closes : list ascii) (l : text) : bool := complete_object (length l) closes l.

Lemma complete_fuel l : forall fuel closes, (length l <= fuel)%nat -> complete_object fuel closes l = complete_all closes l.
Proof.
  unfold complete_all. induction l as [l IH] using (induction_ltof1 _ (@length ascii)); unfold ltof in IH. intros fuel closes Hf.
  destruct l as [|c l]; [by destruct fuel|]. destruct fuel as [|fuel]; [cbn in Hf; lia|]. cbn in Hf. cbn [length complete_object].
  destruct (Ascii.eqb c QUOTE).
  - destruct (skipJsonString (c :: l)) as [after|] eqn:E; [|done]. apply skipJsonString_shorter in E. cbn in E.
    transitivity (complete_object (length after) closes after); [|symmetry]; apply IH; cbn; lia.
  - repeat case_match; try done; apply IH; cbn; lia.
Qed.

Lemma complete_char closes c l : Ascii.eqb c QUOTE = false -> complete_all closes (c :: l) =
  if Ascii.eqb c "{" then complete_all ("}"%char :: closes) l
  else if Ascii.eqb c "[" then complete_all ("]"%char :: closes) l
  else if Ascii.eqb c "}" || Ascii.eqb c "]" then
    match closes with
    | [] => false
    | close :: [] => if negb (Ascii.eqb close c) then false else bool_decide (skipWs l = [])
    | close :: closes' => if negb (Ascii.eqb close c) then false else complete_all closes' l
    end
  else complete_all closes l.
Proof. intros H. unfold complete_all. cbn. rewrite H. by destruct closes as [|? []]. Qed.

Lemma complete_string closes s rest : complete_all closes (print_string s ++ rest) = complete_all closes rest.
Proof.
  unfold complete_all at 1. pose proof (skipJsonString_printed s rest) as H. unfold print_string in *. cbn [app length] in *.
  cbn [complete_object]. rewrite Ascii.eqb_refl, H. apply complete_fuel. rewrite !length_app. cbn. lia.
Qed.

(** A text inside an object that leaves the open brackets as they are. *)
Definition balanced (t : text) : Prop := forall c closes rest, complete_all (c :: closes) (t ++ rest) = complete_all (c :: closes) rest.

Lemma balanced_app a b : balanced a -> balanced b -> balanced (a ++ b).
Proof. intros Ha Hb c closes rest. by rewrite <- app_assoc, Ha, Hb. Qed.

Lemma balanced_neutral w : forallb neutral w = true -> balanced w.
Proof.
  intros Hw c closes rest. induction w as [|x w IH]; [done|]. cbn [forallb app] in *. apply andb_prop in Hw as [Hx Hw]. unfold neutral in Hx.
  rewrite negb_true_iff, !orb_false_iff in Hx. destruct Hx as ((((Hq & H1) & H2) & H3) & H4). rewrite complete_char by done.
  rewrite H1, H2, H3, H4. cbn [orb]. auto.
Qed.

Lemma balanced_commas l : Forall balanced l -> balanced (commas l).
Proof.
  induction 1 as [|x l Hx Hl IH]; [by apply balanced_neutral|]. destruct l as [|y l]; [done|].
  apply balanced_app; [done|]. apply balanced_app; [by apply balanced_neutral|done].
Qed.

Lemma balanced_container o c t : brackets o c -> balanced t -> balanced (o :: t ++ [c]).
Proof.
  intros Ho Ht x closes rest. cbn [app]. rewrite <- app_assoc. cbn [app].
  destruct Ho as [[-> ->]|[-> ->]]; rewrite complete_char by done; cbn; rewrite Ht, complete_char by done; done.
Qed.

Lemma balanced_member kv : balanced (print kv.2) -> balanced (print_member kv).
Proof.
  intros Hv. apply balanced_app; [intros c closes rest; apply complete_string|]. apply balanced_app; [by apply balanced_neutral|done].
Qed.

Lemma balanced_printed j : well_formed j -> balanced (print j).
Proof.
  induction j as [|b|w|s|l IH|m IH] using json_rec'; intros Hw.
  - by apply balanced_neutral.
  - destruct b; by apply balanced_neutral.
  - apply balanced_neutral. destruct Hw as [_ Hw]. rewrite forallb_forall in *. intros c Hc. by apply number_chars, Hw.
  - intros c closes rest. apply complete_string.
  - apply formed_arr in Hw. apply balanced_container; [by right|]. apply balanced_commas. rewrite Forall_map.
    eapply Forall_impl; [eapply Forall_and; split; [exact IH|exact Hw]|]. intros x [H1 H2]. by apply H1.
  - apply formed_obj in Hw. apply balanced_container; [by left|]. apply balanced_commas. rewrite Forall_map.
    eapply Forall_impl; [eapply Forall_and; split; [exact IH|exact Hw]|]. intros x [H1 H2]. cbn. apply balanced_member; auto.
Qed.

Lemma printed_complete m : all_formed m -> isCompleteInspectObject (print (JObj m)) = true.
Proof.
  intros Hm. unfold isCompleteInspectObject. cbn [print]. change (map _ m) with (map print_member m). fold (members m).
  cbn [skipWs]. change (isWs "{"%char) with false. cbn [negb Ascii.eqb Bool.eqb].
  change (complete_all [] ("{"%char :: members m ++ ["}"%char]) = true). rewrite complete_char by done. cbn [Ascii.eqb Bool.eqb].
  assert (Hb : balanced (members m)).
  { apply balanced_commas. rewrite Forall_map. eapply Forall_impl; [exact Hm|]. intros kv Hkv. cbn. by apply balanced_member, balanced_printed. }
  rewrite Hb, complete_char by done. done.
Qed.

(** More text after a complete object. *)
Lemma skip_string_app l rest after : skip_string l = Some after -> skip_string (l ++ rest) = Some (after ++ rest).
Proof.
  revert after. induction l as [l IH] using (induction_ltof1 _ (@length ascii)); unfold ltof in IH. intros after.
  destruct l as [|c l]; cbn; [done|]. destruct (Ascii.eqb c BACKSLASH); [destruct l as [|d l]; [done|]|destruct (Ascii.eqb c QUOTE)]; cbn; intros E.
  - apply IH; [cbn; lia|done].
  - by simplify_eq.
  - apply IH; [cbn; lia|done].
Qed.

Lemma skipWs_app l rest : skipWs l = [] -> skipWs (l ++ rest) = skipWs rest.
Proof. induction l as [|c l IH]; cbn; [done|]. by destruct (isWs c). Qed.

Lemma complete_more l : forall closes rest, complete_all closes l = true -> complete_all closes (l ++ rest) = bool_decide (skipWs rest = []).
Proof.
  induction l as [l IH] using (induction_ltof1 _ (@length ascii)); unfold ltof in IH. intros closes rest.
  destruct l as [|c l]; [done|]. destruct (Ascii.eqb c QUOTE) eqn:Eq.
  - unfold complete_all at 1. cbn [length complete_object]. rewrite Eq. destruct (skipJsonString (c :: l)) as [after|] eqn:E; [|done].
    pose proof (skipJsonString_shorter _ _ E) as Hlen. cbn in Hlen. rewrite complete_fuel by lia. intros H.
    unfold complete_all. cbn [app length complete_object]. rewrite Eq.
    assert (skipJsonString (c :: l ++ rest) = Some (after ++ rest)) as ->.
    { cbn in E |- *. rewrite Eq in *. cbn in *. by apply skip_string_app. }
    rewrite complete_fuel by (rewrite !length_app; lia). apply IH; [cbn; lia|done].
  - cbn [app]. rewrite !complete_char by done. destruct (Ascii.eqb c "{"); [apply IH; cbn; lia|]. destruct (Ascii.eqb c "["); [apply IH; cbn; lia|].
    destruct (Ascii.eqb c "}" || Ascii.eqb c "]"); [|apply IH; cbn; lia]. destruct closes as [|x [|y closes]]; [done| |].
    + destruct (negb (Ascii.eqb x c)); [done|]. rewrite bool_decide_eq_true. intros Hw. by rewrite skipWs_app.
    + destruct (negb (Ascii.eqb x c)); [done|]. apply IH. cbn. lia.
Qed.

Lemma cut_incomplete m p rest : all_formed m -> print (JObj m) = p ++ rest -> rest <> [] -> isCompleteInspectObject p = false.
Proof.
  intros Hm E Hr. destruct (isCompleteInspectObject p) eqn:Ec; [|done]. exfalso. pose proof (printed_complete m Hm) as Hall. rewrite E in Hall.
  destruct p as [|c p]; [done|]. assert (c = "{"%char) as -> by (cbn in E; congruence). unfold isCompleteInspectObject in *. cbn [app] in Hall.
  cbn [skipWs] in *. change (isWs "{"%char) with false in *. cbn [negb Ascii.eqb Bool.eqb] in *.
  fold (complete_all [] ("{"%char :: p)) in Ec. change (complete_all [] (("{"%char :: p) ++ rest) = true) in Hall. rewrite (complete_more _ _ rest Ec) in Hall.
  apply bool_decide_eq_true in Hall. destruct rest as [|x rest _] using rev_ind; [done|].
  assert (x = "}"%char) as ->. { cbn [print] in E. rewrite app_comm_cons, app_assoc in E. apply app_inj_tail in E as [_ <-]. done. }
  clear -Hall. induction rest as [|y rest IH]; [done|]. cbn in Hall. destruct (isWs y); [auto|done].
Qed.

