(* ===== verification/PcmRuns.v ===== *)
(** * Runs of the perception monitor

    Concrete runs of the models of [Pcm.v] to [PcmDvm.v]: the witnesses of their
    theorems, the shipped configuration, and behaviours worth knowing. *)

From stdpp Require Import strings.
From Stdlib Require Import Ascii.
From S2P Require Import Prelude Protocol Crc Validate DeliveryFailSafe Staging Float32 SpatialCorrelation FusionEngine FusionHealth EventManager Text Pcm PcmVerdict PcmSafety PcmTrust PcmHealth PcmConfig PcmDvm PcmDvmSafety PcmJson PcmJsonSafety.

Local Open Scope Z_scope.
Local Open Scope list_scope.

(** ** The aggregator *)

Definition SECOND : Z := 1000000000.

Definition two_checks : PcmAggregatorSettings := {|
  as_badTicksToInvalid := 2; as_goodTicksToValid := 2; as_initialValidMs := 1500; as_maxReportAgeMs := 4000;
  as_verdictResendMs := 5000; as_healthEnabled := true; as_dvmEnabled := true |}.

Definition tick_at (s : Z) : PcmOp := OpTick {| tw_now := s * SECOND; tw_monotonicNs := s * SECOND; tw_success := true |}.

(** Both checks report, then a tick. *)
Definition second (s : Z) (h d : PcmCheckVerdict) : list PcmOp :=
  [OpReport HealthCheck h (s * SECOND); OpReport DvmCheck d (s * SECOND); tick_at s].

Definition types (sent : list (SafetyEvent * bool)) : list EventType := map (fun e => se_type e.1) sent.

Definition states (ops : list PcmOp) : PipelineState * list EventType :=
  let '(a, sent) := pcm_run 7 two_checks ops (new_aggregator 0) in (pa_state a, types sent).

(** Two good seconds, two bad ones, one more without a verdict of the containers. *)
Definition container_down : list PcmOp :=
  second 1 VerdictGood VerdictGood ++ second 2 VerdictGood VerdictGood ++
  second 3 VerdictBad VerdictGood ++ second 4 VerdictBad VerdictGood ++ second 5 VerdictOff VerdictGood.

Lemma container_down_invalid : states container_down = (PipelineInvalid, [AI_PIPELINE_VALID; AI_PIPELINE_INVALID]).
Proof. vm_compute. reflexivity. Qed.

(** The data check alone does not bring the pipeline back. *)
Lemma data_alone_no_recovery :
  states (container_down ++ second 6 VerdictOff VerdictGood ++ second 7 VerdictOff VerdictGood ++ second 8 VerdictOff VerdictGood)
  = (PipelineInvalid, [AI_PIPELINE_VALID; AI_PIPELINE_INVALID]).
Proof. vm_compute. reflexivity. Qed.

Lemma container_back_recovers :
  states (container_down ++ second 6 VerdictGood VerdictGood ++ second 7 VerdictGood VerdictGood)
  = (PipelineValid, [AI_PIPELINE_VALID; AI_PIPELINE_INVALID; AI_PIPELINE_VALID]).
Proof. vm_compute. reflexivity. Qed.

(** Both checks fall silent after the first VALID: they count as stuck, and VALID is
    sent again every resend interval. *)
Lemma stuck_checks_valid_resent :
  let ops := second 1 VerdictGood VerdictGood ++ second 2 VerdictGood VerdictGood ++ [tick_at 7; tick_at 12; tick_at 60] in
  let '(a, sent) := pcm_run 7 two_checks ops (new_aggregator 0) in
  ct_stuck (pa_healthTick a) = true /\ ct_stuck (pa_dvmTick a) = true /\ types sent = replicate 4 AI_PIPELINE_VALID.
Proof. vm_compute. auto. Qed.

(** A check lost at the very tick that makes the pipeline INVALID is not waited for. *)
Lemma lost_at_transition_not_awaited :
  states (second 1 VerdictGood VerdictGood ++ second 2 VerdictGood VerdictGood ++ second 3 VerdictBad VerdictGood ++
          second 4 VerdictOff VerdictBad ++ second 5 VerdictOff VerdictGood ++ second 6 VerdictOff VerdictGood)
  = (PipelineValid, [AI_PIPELINE_VALID; AI_PIPELINE_INVALID; AI_PIPELINE_VALID]).
Proof. vm_compute. reflexivity. Qed.

Lemma pipeline_verdict_exact_witness :
  kinds two_checks 7 container_down (new_aggregator 0) = [TickGood; TickGood; TickBad; TickBad; TickPause] /\
  unrecovered two_checks [TickGood; TickGood; TickBad; TickBad; TickPause].
Proof.
  assert (E : kinds two_checks 7 container_down (new_aggregator 0) = [TickGood; TickGood; TickBad; TickBad; TickPause]) by (vm_compute; reflexivity).
  split; [exact E|]. rewrite <- E.
  apply (pipeline_verdict_exact 7 two_checks 0 container_down _ _ eq_refl (surjective_pairing _)). vm_compute. reflexivity.
Defined.

Lemma recovery_needs_good_report_witness :
  exists now, OpReport HealthCheck VerdictGood now ∈ second 6 VerdictGood VerdictGood ++ second 7 VerdictGood VerdictGood.
Proof.
  apply (recovery_needs_good_report 7 two_checks 0 (take 14 container_down) {| tw_now := 5 * SECOND; tw_monotonicNs := 5 * SECOND; tw_success := true |}
           (second 6 VerdictGood VerdictGood ++ second 7 VerdictGood VerdictGood) HealthCheck);
    try (vm_compute; reflexivity); [right; vm_compute; reflexivity|vm_compute; discriminate].
Defined.

(** ** At PSS *)

Definition no_groups : ManagerConfig := {|
  mc_fusionEnabled := true; mc_maxPipelinesSupported := 8; mc_stalenessThresholdMs := 500; mc_sensorConfigIdToName := ∅;
  mc_sensorGroupPipelineId := 0; mc_sensorGroupMembers := []; mc_bypassFusionEvents := ∅ |}.

Definition ts0 : timespec := {| tv_sec := 0; tv_nsec := 0 |}.

(** A camera is reported valid by the safety monitor while the containers are down. *)
Definition trust_ops : list TrustOp :=
  map (fun op => TrustPcm op ts0) (take 14 container_down) ++ [TrustOther CLIENT_SAFETY_MONITOR zero_SafetyEvent ts0].


(** ** Containers *)

Definition running (health : String.string) : ContainerSnapshot :=
  (DockerOk, {| ch_running := true; ch_paused := false; ch_restarting := false; ch_dead := false;
                ch_status := str "running"; ch_health := str health |}).
Definition stopped : ContainerSnapshot :=
  (DockerOk, {| ch_running := false; ch_paused := false; ch_restarting := false; ch_dead := false;
                ch_status := str "exited"; ch_health := [] |}).

(** Kafka always answers healthy; the other container as given. *)
Definition poll_at (s : Z) (other : ContainerSnapshot) : HealthPoll :=
  {| hp_inspect := fun n => if bool_decide (n = str "kafka") then running "healthy" else other;
     hp_now := s * SECOND; hp_steadyNow := s * SECOND |}.

Definition two_containers : list text := [str "kafka"; str "vss-rtvi-cv"].

(** A restart after a stop stays bad until it is healthy. *)
Lemma container_fault_holds_until_healthy_witness :
  (check 10000 30000 (poll_at 3 (running "starting"))
    (check_run 10000 30000 [poll_at 1 (running "healthy"); poll_at 2 stopped] (new_checker two_containers 0))).2 = VerdictBad.
Proof.
  apply (container_fault_holds_until_healthy 10000 30000 two_containers 0 [poll_at 1 (running "healthy"); poll_at 2 stopped] (poll_at 3 (running "starting")) ltac:(vm_compute; reflexivity)).
  exists (str "vss-rtvi-cv"). split; [unfold two_containers; apply elem_of_cons; right; apply elem_of_cons; left; reflexivity|].
  exists [poll_at 1 (running "healthy")], (poll_at 2 stopped), [poll_at 3 (running "starting")].
  split; [reflexivity|]. split; [vm_compute; reflexivity|]. split; [|split; [vm_compute; reflexivity|]].
  - exists (poll_at 1 (running "healthy")). split; [apply elem_of_cons; left; reflexivity|]. split; vm_compute; reflexivity.
  - intros p Hp. apply list_elem_of_singleton in Hp. subst p. intros _. vm_compute. reflexivity.
Defined.

(** ** A reply of the Docker Engine API *)

(** The mounts come first and hold a member of the same name and braces in text. *)
Definition inspect_reply : list (text * json) :=
  [(str "Id", JStr (str "9f"));
   (str "Mounts", JArr [JObj [(str "Running", JBool false); (str "Source", JStr (str "/data}{"))]; JNum (str "-1.5e3")]);
   (str "State", JObj [(str "Status", JStr (str "running")); (str "Running", JBool true); (str "Paused", JBool false);
                       (str "Health", JObj [(str "Status", JStr (str "starting")); (str "Log", JArr [])])]);
   (str "Config", JObj [(str "Image", JStr (str "vss-rtvi-cv:1.0"))])].


(** ** The shipped configuration *)

Definition shipped_lines : list String.string :=
  ["[monitors]"; "container_health = true"; "data_validation = true"; ""; "[fault_aggregator]"; "bad_ticks_to_invalid = 4";
   "good_ticks_to_valid = 8"; "max_report_age_ms = 4000"; "initial_valid_ms = 4000"; "verdict_resend_ms = 5000"; "# voting";
   "[data_validation]"; "bad_objects_percent = 25"; "bad_frames_percent = 25"; "startup_grace_ms = 10000"; "[health_monitor]";
   "container_startup_grace_ms = 30000"; "monitor_container = vss-vios-nvstreamer"; "monitor_container = kafka"]%string.

Definition shipped : text := concat (map (fun l => str l ++ [LF]) shipped_lines).

Lemma shipped_settings :
  (fun r => aggregator_settings r (loadMonitoredContainers (Some shipped)) true) <$>
    readMonitorConfig (Some {| fc_text := shipped; fc_bad := false |}) =
  Some {| as_badTicksToInvalid := 4; as_goodTicksToValid := 8; as_initialValidMs := 4000; as_maxReportAgeMs := 4000;
          as_verdictResendMs := 5000; as_healthEnabled := true; as_dvmEnabled := true |}.
Proof. vm_compute. reflexivity. Qed.

Lemma loaded_settings_start_witness : exists r,
  readMonitorConfig (Some {| fc_text := shipped; fc_bad := false |}) = Some r /\
  start (aggregator_settings r (loadMonitoredContainers (Some shipped)) true) true false = (true, true).
Proof.
  destruct (readMonitorConfig (Some {| fc_text := shipped; fc_bad := false |})) as [r|] eqn:E; [|exfalso; vm_compute in E; discriminate].
  exists r. split; [reflexivity|]. apply (loaded_settings_start _ r (loadMonitoredContainers (Some shipped)) true true E).
Defined.

(** ** Frames *)

Definition f64 (z : Z) : spec_float := f64_of_Z z.

Definition object (id type : String.string) (x : spec_float) : DvmObject :=
  {| ob_id := str id; ob_type := str type; ob_hasCoordinate := true; ob_x := x; ob_y := f64 1; ob_z := f64 0 |}.

Definition dock_contract : DvmDecisionContract := {|
  dc_configured := true;
  dc_roiRules := [{| rr_id := str "roi-id-1"; rr_type := str "person"; rr_confined := false |}];
  dc_pairRules := [{| pr_primaryType := str "forklift"; pr_secondaryType := str "person"; pr_warningDistance := f64 2 |}] |}.

Definition dock_frame (second_x : spec_float) : DvmFrame := {|
  fr_sensorId := str "Camera_01"; fr_timestampMs := 1000000; fr_timestampValid := true;
  fr_objects := [object "11" "Person" (f64 3); object "12" "forklift" second_x];
  fr_rois := [{| ri_id := str "roi-id-1:person"; ri_type := str "Person"; ri_objectIds := [str "11"]; ri_hasRestricted := true;
                 ri_hasConfined := false; ri_restricted := str "true"; ri_confined := [] |}];
  fr_proximity := {| px_present := true; px_threshold := f64 4; px_detections := 1; px_hasViolation := true;
                     px_violation := str "true" |} |}.

Lemma frame_without_position_refused : decisionFault (dock_frame S754_nan) dock_contract true = Some ProximityCoordinate.
Proof. vm_compute. reflexivity. Qed.

Lemma accepted_frame_usable_witness :
  Forall (fun r => sole_object (fr_objects (dock_frame (f64 5))) r (str "person")) [str "11"].
Proof.
  destruct (accepted_frame_usable (dock_frame (f64 5)) dock_contract true eq_refl ltac:(vm_compute; reflexivity)) as [Hroi _].
  apply (Hroi {| ri_id := str "roi-id-1:person"; ri_type := str "Person"; ri_objectIds := [str "11"]; ri_hasRestricted := true;
              ri_hasConfined := false; ri_restricted := str "true"; ri_confined := [] |}
           {| rr_id := str "roi-id-1"; rr_type := str "person"; rr_confined := false |});
    [apply elem_of_cons; left; reflexivity|apply elem_of_cons; left; reflexivity|vm_compute; reflexivity|vm_compute; reflexivity|left; reflexivity].
Defined.

Definition dock_settings : DvmSettings := {|
  ds_badFramesPercent := 25; ds_startupGraceMs := 10000; ds_expectedFps := {[ str "Camera_01" := f64 4 ]};
  ds_baselines := {[ str "Camera_01" := {| bl_modern := true; bl_maxFrameAgeMs := 2000; bl_proximityRequired := true;
                                           bl_contract := dock_contract |} ]} |}.

Definition frame_pass (ms : Z) (x : spec_float) : DvmPass :=
  {| dp_status := StatusFrame (dock_frame x); dp_seenAt := ms * NS_PER_MS; dp_wallFresh := 1000000; dp_wallEvaluate := 1000000;
     dp_now := ms * NS_PER_MS |}.

Definition three_frames : list DvmPass := [frame_pass 200 (f64 5); frame_pass 400 (f64 6); frame_pass 600 (f64 7)].

(** Three usable frames and a last one: good with a usable one, bad with one in
    four that is not. *)
Lemma quarter_of_frames_bad :
  (dvm_run dock_settings (three_frames ++ [frame_pass 1000 (f64 8)]) (loop_start 0)).2 = [VerdictGood] /\
  (dvm_run dock_settings (three_frames ++ [frame_pass 1000 S754_nan]) (loop_start 0)).2 = [VerdictBad].
Proof. vm_compute. auto. Qed.

Lemma window_verdict_sound_witness :
  100 * bad_frames dock_settings (str "Camera_01") (three_frames ++ [frame_pass 1000 (f64 8)]) <
  25 * frames (str "Camera_01") (three_frames ++ [frame_pass 1000 (f64 8)]).
Proof.
  set (l := (dvm_run dock_settings three_frames (loop_start 0)).1). set (p := frame_pass 1000 (f64 8)).
  assert (Hrun : dvm_run dock_settings three_frames (loop_start 0) = (l, [])) by (vm_compute; reflexivity).
  assert (Hv : (dvm_pass dock_settings p l).2 = Some VerdictGood) by (vm_compute; reflexivity).
  destruct (window_verdict_sound dock_settings (loop_start 0) three_frames p l (dvm_pass dock_settings p l).1 VerdictGood
    ltac:(split; reflexivity) ltac:(cbn; lia) ltac:(cbn; unfold SIZE_MAX; lia) Hrun
    (eq_trans (surjective_pairing _) (f_equal (pair _) Hv))) as (_ & _ & _ & H).
  apply (H eq_refl). vm_compute. reflexivity.
Defined.
